(* ===== verification/_CoqProject ===== *)
-Q . S2P
Prelude.v
Contracts.v
Handlers.v
Snapshots.v
Text.v
Instr.v
Decode.v
Execute.v
Memory.v
Csr.v
Privileged.v
Sv32.v
Cpu.v
CpuProofs.v
CpuEvents.v
CpuWalk.v
CpuSnapshot.v
Platform.v
Ram.v
Uart.v
Irqc.v
Media.v
Bus.v
MmBus.v
MmBusProofs.v
MmBusSnapshot.v
Dma.v
DmaTransfer.v
Session.v
Components.v
SocDevices.v
SocCpu.v
Logs.v
ToyMemory.v
ToyCpu.v
ToyBus.v
ToyDma.v
ToyNet.v
ToyJobs.v
ToyRuns.v
ToyNetProofs.v
ToySystem.v
Scheduler.v
Trace.v
Rng.v
Runtime.v
Export.v
Json.v
ExportProofs.v
RuntimeProofs.v
RuntimeInvariant.v
Topology.v
TopologyProofs.v
Reference.v
ReferenceProofs.v
RuntimeSnapshot.v
RuntimeExamples.v
Elf.v
M2Reference.v
M2ReferenceProofs.v
Words.v
ExecTable.v
OsConfig.v
OsFrames.v
OsSpace.v
OsSpaceProofs.v
OsCore.v
OsSyscall.v
OsProcess.v
OsProcOp.v
OsModel.v
OsModelProofs.v
OsTrap.v
OsSwitch.v
OsStages.v
OsKernel.v
OsKernelProofs.v
OsSnapshot.v
OsSnapshotProofs.v
OsRoundTrip.v
