(* ===== verification/Prelude.v ===== *)
(** SystemScope: a verification development.

    SystemScope is a deterministic discrete-event simulator of a small RISC-V system, with a
    modeled operating system on top.  A session is a set of components (CPU, buses, memory,
    devices, a kernel) that react to events; the runtime orders the events, gives each component
    its random stream, traces the run, and can snapshot and restore all of it.  The property
    everything rests on is that a run is a function of its inputs: the same events in the same
    order, whatever the host does or who watches, and a restored run that continues as the
    original would have.

    * The parts and the files that model them

    - [Prelude] (this file): Rust's [Result] and the state-and-error monad of the handlers
      with its weakest preconditions; machine integers as [Z] with their wrap-around written
      out; bit, alignment and little-endian lemmas; the hint database [ranges] and the tactics.
      [Text]: numbers as decimal and hexadecimal text.  [Words]: bytes as little-endian words.
    - [Contracts], [Session]: the contracts crate, which the repository only calls.  Its data
      types are those its documentation prints (docs/m0-design.md, m1-design.md, m2-design.md);
      its behaviour is a class per interface, with the documented laws: [EventOrder] (the order of
      event keys), [SimContext] (what a handler may call), [SnapshotCodec], [MemCodec],
      [Canonical] and [DomainCodec] (encodings), [MemClassify] (the reading of a memory message),
      [SimRng], [Clocks], [Protocols], [Blake3].  [Component] and [Observer] are the traits, and
      [UniformComponent], [TypedComponent] and [PersistentComponent] what a component promises
      the session: it reaches the session through its context only, it keeps its invariant and
      calls the context within its types, and its snapshots restore.
    - [Handlers]: the handlers' monad over a component and a context, and its rules; [Snapshots]:
      snapshots as byte strings and reading them back, with the tactics of the round trips;
      [Components]: the rules by which components prove those promises, and a session's
      components as a sum; [Logs]: what a handler sends in any context.
    - RV32I, components/rv32i/src.  [Instr], [Decode], [Execute], [Memory], [Csr],
      [Privileged], [Sv32] are the pure layers (instr.rs, immediate.rs, regfile.rs, decode.rs,
      execute.rs, memory.rs, csr.rs, privilege.rs, sv32.rs), one file each.  [Cpu] is the
      component, cpu.rs: [Rv32iCpu] is the struct; [handle_event] and the handlers it calls run
      in [ST (Rv32iCpu * C) Failure] over any context [C], so that the state at an early return
      is the state the code leaves.  [CpuProofs], [CpuEvents] and [CpuWalk] are its invariant,
      its events and its page-table walk; [CpuSnapshot] is [snapshot] and [restore].
    - Devices, components/platform/src, one file each in the same shape: [Ram] (ram.rs), [Uart]
      (uart.rs), [Irqc] (irqc.rs), [Media] (media.rs), [Bus] (bus.rs), [MmBus] with
      [MmBusProofs] and [MmBusSnapshot] (mmbus.rs), [Dma] (dma.rs); [Platform] is what they
      share.  [DmaTransfer] wires the DMA controller to a RAM and a disk and runs them.
      [SocDevices] and [SocCpu] hold the port tables and views of the devices and the CPU, and
      prove of each what a session asks of a component.
    - The M2 platform, tests/rv32/src/m2ref.rs: [M2Reference] (CPU, multi-master bus, RAM, UART,
      interrupt controller, DMA controller and disk, configured, wired and elaborated) with
      [M2ReferenceProofs].
    - The runtime, runtime/src: [Scheduler] (scheduler.rs), [Rng] (rng.rs), [Trace] (trace.rs),
      [Runtime] (runtime.rs: the context, dispatch, the lifecycle, the run loops, observers and
      traces, for any components), [RuntimeProofs] and [RuntimeInvariant] (the session as a state
      machine), [Topology] with [TopologyProofs] (topology.rs), [RuntimeSnapshot] (snapshot.rs,
      and what it gives of a session built, driven, saved and restored),
      [Export] with [ExportProofs] (export.rs), [Json] (a strict JSON reader).
    - The M0 reference system: [ToyMemory], [ToyCpu], [ToyBus], [ToyDma] (components/toy/src),
      [ToyNet] (their network under every order of deliveries), [ToyJobs], [ToyRuns],
      [ToyNetProofs], [ToySystem] (its invariant and what follows), [Reference] with
      [ReferenceProofs] (reference/src/lib.rs: the topology it builds and its run, as a session).
      [RuntimeExamples] runs small sessions on concrete instances of every class, for the
      witnesses.
    - ELF, elf/src: [Elf] (parse.rs, user.rs, lib.rs, and the texts of the errors, error.rs),
      [ExecTable] (exec_table.rs).
    - The modeled kernel, components/os/src: [OsConfig] (config.rs, image.rs, pte.rs and the
      accesses of core.rs), [OsFrames] (frames.rs), [OsSpace] and [OsSpaceProofs] (space.rs),
      [OsCore] (core.rs), [OsSyscall] (syscall.rs), [OsProcess] (process.rs), [OsProcOp] (boot.rs
      and the stages of procop.rs), [OsModel] with [OsModelProofs] (the decisions of procop.rs),
      [OsTrap], [OsSwitch] and [OsStages] (what a trap does, end to end), [OsKernel] with
      [OsKernelProofs] (kernel.rs), [OsSnapshot] with [OsSnapshotProofs] and [OsRoundTrip]
      (the kernel's snapshot and restore).

    * What the theorems show

    - Pure layers: [decode] is exact against the manual's encodings, written out as [encode]
      and independent of it; ALU, branch, jump, load and store semantics are the manual's
      integer functions; CSR reads after writes, delegation, interrupt entry and return;
      [sv32_translate] equals the architecture's two-level walk ([sv32_spec]), within bounds and
      with its protection.
    - CPU: an invariant of every reachable state, with no panic but the overflow of M1's transaction
      counter; architectural state moves only at a commit; privilege rises only when a commit
      enters an exception [medeleg] delegates or the external interrupt; a handler schedules exactly
      the event its new state waits for; the event-by-event walk refines the pure translation; a
      snapshot restores exactly the CPU, and whatever restore accepts is a valid CPU.
    - Devices: the RAM refines a flat byte memory and the media an array of blocks, over any
      run; the UART's output is the bytes it accepted; the interrupt line is the level of the
      registers; the bus tracks exactly the requests in flight; the multi-master bus refines
      its regions, serves each master in order and starves none; the DMA controller stays in
      its aperture and, wired to RAM and disk, executes a command as specified and stops.
      Invariants of every state, exact snapshots, and restore accepting valid states only.
    - Scheduler and random streams: the scheduling rules S1 to S6, strictly increasing and
      exactly-once dispatch, independence of the heap's arrangement, the snapshot round trip,
      exactly what restore accepts, and one state it accepts that no run reaches; the generator's
      state is never zero, drawing is reversible, a restored generator continues its stream.
    - Session: elaboration accepts exactly the valid topologies and wires them as declared; every
      session keeps its invariant and no driver call panics, through restores of its snapshots too
      ([driven]), and a restore of any other bytes fails closed or is accepted, without a panic;
      runs end; observers, observe points,
      traces and pauses never change the simulation; a fault is terminal; a snapshot restored
      into a session of the same topology continues as the original would have; a trace prefix
      is accepted exactly when it is the history of the snapshot.
    - Views: JSONL loses nothing of a trace and is JSON line by line; the Perfetto view is a JSON
      document whose slices are brackets and whose times are exact.
    - Reference system: under every order of deliveries no component faults, no read disagrees
      with what was written, every run ends within ten deliveries per operation and at its end
      every operation is done; and a session of the reference scenario, watched by any observers,
      is one of these runs.
    - M2 platform: every program the loader accepts builds on every disk that fits, with its
      segments in RAM and the ports wired as declared; whatever it executes, the session keeps
      every component's invariant, never panics, and can be saved and resumed.
    - ELF and address spaces: a parsed image holds the bytes of the file and shares no page; the
      executable table is parsed exactly; the built address space is the planned one as the CPU
      translates it, with the bytes of the executable; the kernel's walk of user pages agrees
      with the CPU's; every reachable process table is consistent, its frames owned once.
    - Kernel: every reachable kernel keeps its invariant and never panics; its accesses stay on
      the whitelist; each [ENTER] is answered exactly once; every trap, driven by
      the engine with its whitelist, is answered as the system call ABI says or faults at an access
      the whitelist or the bus refuses, and a process that yields resumes where it left; what a
      restore accepts is a valid kernel, with the exceptions stated; the snapshot of a reachable
      kernel outside a creation restores exactly, every check of the restore included.

    * Conventions

    A [w]-bit integer is a [Z] with [in_u w].  The workspace builds with overflow checks, so
    an unchecked [+] that could overflow is an explicit [Panics], and a theorem says it is
    never reached.  [Fails] is a [SimError] returned.  Fuel stands only where a Rust loop has
    no structural argument: two iterations in [sv32_translate] ([sv32_translate_correct] proves
    them enough); the length of the access in the loops of [Ram] and of [OsSpace.split_copy],
    one per byte at most, and the length of the data in [ToyCpu.fill] and [ToyDma.fill]; the
    number of pieces in [OsSyscall]; [1 + 66 * BLOCK_COUNT] events in [DmaTransfer], which
    [dma_transfer_exact] proves enough; the events of [run] and [run_until], for which
    [run_terminates] gives the bound that is enough; the accesses and stages of a trap in [OsTrap], for which [trap_exact]
    shows that some number is enough; the length of the text in the JSON reader.  A restore that fails leaves the model's component as it was;
    the code may have changed it, and the session is faulted either way.

    * What is not modelled

    The contracts crate itself and blake3 are not in the repository; they are parameters.
    Accessors that only return a field and the [Display] texts of the runtime's errors are left
    out: they are read by hosts and tests and change nothing.  The kernel has its own theorems
    but is no instance of the session's contract: its restore can panic ([restore_can_panic]),
    which a session's components may not.  Of m2ref.rs, the runner around a session and the
    readers of snapshots are test tooling and left out.  The repository tooling (xtask/src/main.rs) spawns processes,
    runs git and compares files; it is no part of the simulated system. *)
From stdpp Require Import base numbers list option strings sorting.
From Stdlib Require Import ZArith Lia.

Local Open Scope Z_scope.

(** * Fallible computations *)

(** Rust's [Result<A, E>]: a value or an error. *)
Inductive result (E A : Type) : Type :=
| Ok (a : A)
| Err (e : E).
Arguments Ok {E A} a.
Arguments Err {E A} e.

#[export] Instance result_eq_dec {E A} `{EqDecision E, EqDecision A} :
  EqDecision (result E A).
Proof. solve_decision. Defined.

#[export] Instance result_ret E : MRet (result E) := fun A x => Ok x.
#[export] Instance result_bind E : MBind (result E) := fun A B f r =>
  match r with Ok x => f x | Err e => Err e end.

(** [Option::ok_or]. *)
Definition ok_or {E A} (o : option A) (e : E) : result E A :=
  match o with Some a => Ok a | None => Err e end.

(** [Result::map_err]. *)
Definition map_err {E F A} (f : E -> F) (r : result E A) : result F A :=
  match r with Ok a => Ok a | Err e => Err (f e) end.

Definition is_ok {E A} (r : result E A) : bool :=
  match r with Ok _ => true | Err _ => false end.

Lemma bind_Ok_inv {E A B} (r : result E A) (f : A -> result E B) b :
  mbind f r = Ok b -> exists a, r = Ok a /\ f a = Ok b.
Proof. destruct r; cbn; [eauto | discriminate]. Qed.

Lemma ok_or_Ok {E A} (o : option A) (e : E) a : ok_or o e = Ok a <-> o = Some a.
Proof. destruct o; cbn; split; congruence. Qed.

(** A handler that mutates a state and may fail: Rust's
    [fn f(&mut self, ..) -> Result<A, E>].  The state reached when the failure is
    returned is kept, as it is in the code. *)
Definition ST (S E A : Type) : Type := S -> S * result E A.

#[export] Instance ST_ret S E : MRet (ST S E) := fun A x s => (s, Ok x).
#[export] Instance ST_bind S E : MBind (ST S E) := fun A B f m s =>
  match m s with
  | (s', Ok x) => f x s'
  | (s', Err e) => (s', Err e)
  end.

Definition st_fail {S E A} (e : E) : ST S E A := fun s => (s, Err e).
Definition st_get {S E} : ST S E S := fun s => (s, Ok s).
Definition st_modify {S E} (f : S -> S) : ST S E unit := fun s => (f s, Ok tt).

Lemma ST_bind_unfold {S E A B} (m : ST S E A) (f : A -> ST S E B) s :
  mbind (M := ST S E) f m s =
  match m s with
  | (s', Ok x) => f x s'
  | (s', Err e) => (s', Err e)
  end.
Proof. reflexivity. Qed.

(** The weakest precondition of a handler: [Q] of a value returned and the state it leaves,
    [X] of a failure and the state it leaves. *)
Definition wp {S E A} (m : ST S E A) (Q : A -> S -> Prop) (X : E -> S -> Prop) (s : S) : Prop :=
  match m s with
  | (s', Ok a) => Q a s'
  | (s', Err e) => X e s'
  end.

Lemma wp_bind {S E A B} (m : ST S E A) (f : A -> ST S E B) Q X s :
  wp m (fun a => wp (f a) Q X) X s -> wp (mbind (M := ST S E) f m) Q X s.
Proof. unfold wp. rewrite ST_bind_unfold. destruct (m s) as [s' [a|e]]; auto. Qed.

Lemma wp_ret {S E A} (a : A) Q X (s : S) : Q a s -> wp (mret a : ST S E A) Q X s.
Proof. auto. Qed.

Lemma wp_mono {S E A} (m : ST S E A) (Q Q' : A -> S -> Prop) (X X' : E -> S -> Prop) s :
  wp m Q X s -> (forall a s', Q a s' -> Q' a s') -> (forall e s', X e s' -> X' e s') ->
  wp m Q' X' s.
Proof. unfold wp. destruct (m s) as [s' [a|e]]; auto. Qed.

(** A run has both of two outcomes shown of it. *)
Lemma wp_both {S E A} (m : ST S E A) Q X Q' X' s :
  wp m Q X s -> wp m Q' X' s -> wp m (fun a s => Q a s /\ Q' a s) (fun e s => X e s /\ X' e s) s.
Proof. unfold wp. destruct (m s) as [s' [a|e]]; auto. Qed.

Lemma wp_use {S E A} (m : ST S E A) Q X s s' r :
  wp m Q X s -> m s = (s', r) -> match r with Ok a => Q a s' | Err e => X e s' end.
Proof. unfold wp. intros H E0. rewrite E0 in H. destruct r; exact H. Qed.

(** * Machine integers *)

(** An unsigned [w]-bit integer is a [Z] in this range. *)
Definition in_u (w z : Z) : Prop := 0 <= z < 2 ^ w.

Definition in_ub (w z : Z) : bool := (0 <=? z) && (z <? 2 ^ w).

#[export] Instance in_u_dec w z : Decision (in_u w z).
Proof. unfold in_u. apply _. Defined.

(** Wrap-around at [w] bits. *)
Definition wrap (w z : Z) : Z := z mod 2 ^ w.

(** [u32::wrapping_add] and [u32::wrapping_sub]. *)
Definition add32 (a b : Z) : Z := wrap 32 (a + b).
Definition sub32 (a b : Z) : Z := wrap 32 (a - b).

(** [x as i32] on a [u32], and [x as u32] on an [i32]. *)
Definition as_i32 (x : Z) : Z := if x <? 2 ^ 31 then x else x - 2 ^ 32.
Definition as_u32 (x : Z) : Z := wrap 32 x.

(** [!x] on a [u32]. *)
Definition not32 (x : Z) : Z := Z.lxor x 0xFFFFFFFF.

(** [x << n] on a [u32] and on an [i32], for [n < 32]. *)
Definition shl32 (x n : Z) : Z := wrap 32 (Z.shiftl x n).
Definition shl_i32 (x n : Z) : Z := as_i32 (wrap 32 (Z.shiftl x n)).

(** [v & bit != 0]. *)
Definition has_bit (v bit : Z) : bool := negb (Z.land v bit =? 0).

(** [u64::checked_add]. *)
Definition checked_add (w a b : Z) : option Z :=
  if a + b <? 2 ^ w then Some (a + b) else None.

(** [u64::checked_sub]. *)
Definition checked_sub (a b : Z) : option Z :=
  if b <=? a then Some (a - b) else None.

Lemma in_ub_spec w z : in_ub w z = true <-> in_u w z.
Proof. unfold in_ub, in_u. rewrite andb_true_iff, Z.leb_le, Z.ltb_lt. reflexivity. Qed.

Lemma wrap_in_u w z : 0 <= w -> in_u w (wrap w z).
Proof. intros. apply Z.mod_pos_bound, Z.pow_pos_nonneg; lia. Qed.

Lemma wrap_small w z : in_u w z -> wrap w z = z.
Proof. apply Z.mod_small. Qed.

Lemma in_u_mono w w' z : w <= w' -> in_u w z -> in_u w' z.
Proof.
  unfold in_u. intros Hw Hz. pose proof (Z.pow_le_mono_r 2 w w' ltac:(lia) Hw). lia.
Qed.

Lemma in_u_0 w : 0 <= w -> in_u w 0.
Proof. intros. split; [lia | apply Z.pow_pos_nonneg; lia]. Qed.

Lemma add32_in_u a b : in_u 32 (add32 a b).
Proof. apply wrap_in_u. lia. Qed.

Lemma sub32_in_u a b : in_u 32 (sub32 a b).
Proof. apply wrap_in_u. lia. Qed.

Lemma as_u32_in_u x : in_u 32 (as_u32 x).
Proof. apply wrap_in_u. lia. Qed.

Lemma mod32_in_u x : in_u 32 (x mod 2 ^ 32).
Proof. apply Z.mod_pos_bound. lia. Qed.

Lemma as_i32_range x : in_u 32 x -> - 2 ^ 31 <= as_i32 x < 2 ^ 31.
Proof. unfold in_u, as_i32. destruct (Z.ltb_spec x (2 ^ 31)); lia. Qed.

Lemma as_u32_as_i32 x : in_u 32 x -> as_u32 (as_i32 x) = x.
Proof.
  unfold in_u, as_u32, as_i32, wrap. intros.
  destruct (Z.ltb_spec x (2 ^ 31)); [apply Z.mod_small; lia |].
  replace (x - 2 ^ 32) with (x + (-1) * 2 ^ 32) by lia.
  rewrite Z.mod_add by lia. apply Z.mod_small. lia.
Qed.

Lemma as_i32_as_u32 x : - 2 ^ 31 <= x < 2 ^ 31 -> as_i32 (as_u32 x) = x.
Proof.
  unfold as_u32, as_i32, wrap. intros.
  destruct (Z.ltb_spec x 0).
  - replace (x mod 2 ^ 32) with (x + 2 ^ 32).
    + destruct (Z.ltb_spec (x + 2 ^ 32) (2 ^ 31)); lia.
    + symmetry. rewrite <- (Z.mod_add x 1) by lia. apply Z.mod_small. lia.
  - rewrite Z.mod_small by lia. destruct (Z.ltb_spec x (2 ^ 31)); lia.
Qed.

Lemma checked_add_None w a b : checked_add w a b = None <-> 2 ^ w <= a + b.
Proof. unfold checked_add. destruct (Z.ltb_spec (a + b) (2 ^ w)); split; intros; (discriminate || reflexivity || lia). Qed.

Lemma checked_add_Some w a b c :
  checked_add w a b = Some c <-> c = a + b /\ a + b < 2 ^ w.
Proof.
  unfold checked_add. destruct (Z.ltb_spec (a + b) (2 ^ w)); split; intros; [| | |];
    try (split; [congruence | lia]); try lia; try discriminate.
  destruct H0 as [-> _]. reflexivity.
Qed.

(** ** Bit-level reasoning *)

Lemma land_ones_mod n x m : 0 <= n -> m = Z.ones n -> Z.land x m = x mod 2 ^ n.
Proof. intros Hn ->. apply Z.land_ones, Hn. Qed.

Lemma testbit_in_u w z i : 0 <= w -> in_u w z -> w <= i -> Z.testbit z i = false.
Proof.
  unfold in_u. intros Hw Hz Hi. rewrite <- (Z.mod_small z (2 ^ w)) by lia.
  apply Z.mod_pow2_bits_high. lia.
Qed.

Lemma in_u_testbit w z :
  0 <= w -> 0 <= z -> (forall i, w <= i -> Z.testbit z i = false) -> in_u w z.
Proof.
  intros Hw Hz Hb. split; [assumption |].
  destruct (Z.eq_dec z 0) as [->|]; [apply Z.pow_pos_nonneg; lia |].
  destruct (Z.lt_ge_cases (Z.log2 z) w) as [Hl|Hl].
  - apply Z.log2_lt_pow2; lia.
  - specialize (Hb (Z.log2 z) Hl). rewrite Z.bit_log2 in Hb by lia. discriminate.
Qed.

Lemma bits_ext_u w a b :
  0 <= w -> in_u w a -> in_u w b ->
  (forall i, 0 <= i < w -> Z.testbit a i = Z.testbit b i) -> a = b.
Proof.
  intros Hw Ha Hb H. apply Z.bits_inj'. intros i Hi.
  destruct (Z.lt_ge_cases i w); [apply H; lia |].
  rewrite !(testbit_in_u w) by (assumption || lia). reflexivity.
Qed.

Lemma land_in_u w a b : 0 <= w -> in_u w a -> 0 <= b -> in_u w (Z.land a b).
Proof.
  intros Hw Ha Hb. apply in_u_testbit; [assumption | apply Z.land_nonneg; lia |].
  intros i Hi. rewrite Z.land_spec, (testbit_in_u w a) by assumption. reflexivity.
Qed.

Lemma land_in_u_r w a b : 0 <= w -> in_u w b -> in_u w (Z.land a b).
Proof.
  intros Hw Hb. apply in_u_testbit; [assumption | apply Z.land_nonneg; right; apply Hb |].
  intros i Hi. rewrite Z.land_spec, (testbit_in_u w b) by assumption. apply andb_false_r.
Qed.

Lemma lor_in_u w a b : 0 <= w -> in_u w a -> in_u w b -> in_u w (Z.lor a b).
Proof.
  intros Hw Ha Hb. apply in_u_testbit; [assumption | |].
  - apply Z.lor_nonneg. unfold in_u in *. lia.
  - intros i Hi. rewrite Z.lor_spec, !(testbit_in_u w) by assumption. reflexivity.
Qed.

Lemma lxor_in_u w a b : 0 <= w -> in_u w a -> in_u w b -> in_u w (Z.lxor a b).
Proof.
  intros Hw Ha Hb. apply in_u_testbit; [assumption | |].
  - apply Z.lxor_nonneg. unfold in_u in *. lia.
  - intros i Hi. rewrite Z.lxor_spec, !(testbit_in_u w) by assumption. reflexivity.
Qed.

Lemma shiftr_in_u w n a : 0 <= n -> 0 <= w -> in_u (w + n) a -> in_u w (Z.shiftr a n).
Proof.
  unfold in_u. intros Hn Hw [Ha Hb]. rewrite Z.shiftr_div_pow2 by assumption.
  rewrite Z.pow_add_r in Hb by lia.
  pose proof (Z.pow_pos_nonneg 2 n ltac:(lia) Hn).
  split; [apply Z.div_pos; lia | apply Z.div_lt_upper_bound; lia].
Qed.

Lemma shiftr_in_u_same w n a : 0 <= n -> 0 <= w -> in_u w a -> in_u w (Z.shiftr a n).
Proof.
  intros Hn Hw Ha. apply shiftr_in_u; [assumption.. |].
  apply (in_u_mono w); [lia | assumption].
Qed.

Lemma not32_in_u x : in_u 32 x -> in_u 32 (not32 x).
Proof. intros. apply lxor_in_u; [lia | assumption | unfold in_u; lia]. Qed.

Lemma not32_testbit x i :
  0 <= i < 32 -> Z.testbit (not32 x) i = negb (Z.testbit x i).
Proof.
  intros Hi. unfold not32. rewrite Z.lxor_spec.
  replace (Z.testbit 0xFFFFFFFF i) with true; [destruct (Z.testbit x i); reflexivity |].
  change 0xFFFFFFFF with (Z.ones 32). rewrite Z.ones_spec_low; [reflexivity | lia].
Qed.

Lemma has_bit_pow2 v k : 0 <= k -> has_bit v (2 ^ k) = Z.testbit v k.
Proof.
  intros Hk. unfold has_bit. destruct (Z.eqb_spec (Z.land v (2 ^ k)) 0) as [H|H]; cbn.
  - apply (f_equal (fun z => Z.testbit z k)) in H.
    rewrite Z.land_spec, Z.pow2_bits_true, andb_true_r, Z.bits_0 in H by assumption. auto.
  - destruct (Z.testbit v k) eqn:E; [reflexivity | exfalso; apply H].
    apply Z.bits_inj'. intros i Hi. rewrite Z.land_spec, Z.bits_0.
    destruct (Z.eq_dec i k) as [->|]; [rewrite E; reflexivity |].
    rewrite Z.pow2_bits_false by lia. apply andb_false_r.
Qed.

(** A flag stored as a [bool] and shifted back into place is the flag's bit. *)
Lemma flag_in_place v k : 0 <= k -> Z.shiftl (Z.b2z (has_bit v (2 ^ k))) k = Z.land v (2 ^ k).
Proof.
  intros Hk. rewrite has_bit_pow2 by assumption. apply Z.bits_inj'. intros i Hi.
  rewrite Z.shiftl_spec, Z.land_spec by assumption. destruct (Z.eq_dec i k) as [->|Hne].
  - rewrite Z.sub_diag, Z.b2z_bit0, Z.pow2_bits_true by assumption. symmetry. apply andb_true_r.
  - rewrite Z.pow2_bits_false, andb_false_r by lia. destruct (Z.lt_ge_cases i k).
    + apply Z.testbit_neg_r. lia.
    + destruct (Z.testbit v k); [|apply Z.bits_0].
      change (Z.b2z true) with (2 ^ 0). apply Z.pow2_bits_false. lia.
Qed.

Lemma lor_shiftl_add a b n :
  0 <= n -> in_u n b -> Z.lor (Z.shiftl a n) b = a * 2 ^ n + b.
Proof.
  intros Hn Hb. rewrite <- Z.shiftl_mul_pow2 by assumption.
  symmetry. rewrite <- Z.lxor_lor.
  - apply Z.add_nocarry_lxor. apply Z.bits_inj'. intros i Hi.
    rewrite Z.land_spec, Z.bits_0. destruct (Z.lt_ge_cases i n).
    + rewrite Z.shiftl_spec_low by assumption. reflexivity.
    + rewrite (testbit_in_u n b) by assumption. apply andb_false_r.
  - apply Z.bits_inj'. intros i Hi.
    rewrite Z.land_spec, Z.bits_0. destruct (Z.lt_ge_cases i n).
    + rewrite Z.shiftl_spec_low by assumption. reflexivity.
    + rewrite (testbit_in_u n b) by assumption. apply andb_false_r.
Qed.

(** [|] of a multiple of [2^n] and an [n]-bit value is their sum. *)
Lemma lor_low n a b : 0 <= n -> a mod 2 ^ n = 0 -> in_u n b -> Z.lor a b = a + b.
Proof.
  intros Hn Ha Hb. pose proof (Z.pow_pos_nonneg 2 n ltac:(lia) Hn).
  replace a with (Z.shiftl (a / 2 ^ n) n) at 1.
  - rewrite lor_shiftl_add by assumption. f_equal.
    pose proof (Z.div_mod a (2 ^ n)). lia.
  - rewrite Z.shiftl_mul_pow2 by assumption. pose proof (Z.div_mod a (2 ^ n)). lia.
Qed.

(** The bits [n .. n + k - 1], in place. *)
Lemma land_field m k n w :
  0 <= n -> 0 <= k -> m = Z.shiftl (Z.ones k) n ->
  Z.land w m = (w / 2 ^ n) mod 2 ^ k * 2 ^ n.
Proof.
  intros Hn Hk ->. rewrite <- Z.shiftr_div_pow2, <- Z.land_ones by assumption.
  rewrite <- Z.shiftl_mul_pow2 by assumption. apply Z.bits_inj'. intros i Hi.
  rewrite Z.land_spec. destruct (Z.lt_ge_cases i n).
  - rewrite !Z.shiftl_spec_low by assumption. apply andb_false_r.
  - rewrite !Z.shiftl_spec, Z.land_spec, Z.shiftr_spec by lia.
    replace (i - n + n) with i by lia. reflexivity.
Qed.

Lemma as_i32_sign x : in_u 32 x -> as_i32 x = x - 2 ^ 32 * (x / 2 ^ 31).
Proof.
  unfold in_u, as_i32. intros. destruct (Z.ltb_spec x (2 ^ 31));
    Z.div_mod_to_equations; lia.
Qed.

Lemma shl_i32_small x n :
  0 <= n -> - 2 ^ 31 <= x * 2 ^ n < 2 ^ 31 -> shl_i32 x n = x * 2 ^ n.
Proof.
  intros Hn Hx. unfold shl_i32. rewrite Z.shiftl_mul_pow2 by assumption.
  apply as_i32_as_u32, Hx.
Qed.

Lemma shl32_small x n : 0 <= n -> in_u 32 (x * 2 ^ n) -> shl32 x n = x * 2 ^ n.
Proof.
  intros Hn Hx. unfold shl32. rewrite Z.shiftl_mul_pow2 by assumption.
  apply wrap_small, Hx.
Qed.

(** [v & !(2^n - 1)] clears the low [n] bits. *)
Lemma land_not32_low n v :
  0 <= n <= 32 -> in_u 32 v -> Z.land v (not32 (Z.ones n)) = v - v mod 2 ^ n.
Proof.
  intros Hn Hv.
  assert (Hd : Z.land v (not32 (Z.ones n)) = Z.shiftl (Z.shiftr v n) n).
  { apply Z.bits_inj'. intros i Hi.
    rewrite Z.land_spec. destruct (Z.lt_ge_cases i n).
    - rewrite Z.shiftl_spec_low by assumption.
      rewrite not32_testbit, Z.ones_spec_low by lia. apply andb_false_r.
    - rewrite Z.shiftl_spec, Z.shiftr_spec by lia.
      replace (i - n + n) with i by lia. destruct (Z.lt_ge_cases i 32).
      + rewrite not32_testbit, Z.ones_spec_high by lia. apply andb_true_r.
      + rewrite (testbit_in_u 32 v) by (assumption || lia). reflexivity. }
  rewrite Hd, Z.shiftl_mul_pow2, Z.shiftr_div_pow2 by lia.
  pose proof (Z.div_mod v (2 ^ n) ltac:(apply Z.pow_nonzero; lia)). lia.
Qed.

(** ** Alignment *)

(** [addr & 0x3 == 0], [addr.is_multiple_of(4)]. *)
Definition aligned4 (a : Z) : bool := a mod 4 =? 0.

Lemma land3_mod a : Z.land a 3 = a mod 4.
Proof. apply (land_ones_mod 2); [lia | reflexivity]. Qed.

Lemma align_down4 v : in_u 32 v -> Z.land v (not32 3) = v - v mod 4.
Proof. intros. apply (land_not32_low 2); [lia | assumption]. Qed.

Lemma align_down4_aligned v : in_u 32 v -> aligned4 (Z.land v (not32 3)) = true.
Proof.
  intros Hv. rewrite align_down4 by assumption. apply Z.eqb_eq.
  Z.div_mod_to_equations. lia.
Qed.

Lemma align_down4_id v : in_u 32 v -> aligned4 v = true -> Z.land v (not32 3) = v.
Proof. intros Hv H%Z.eqb_eq. rewrite align_down4 by assumption. lia. Qed.

Lemma align_down4_in_u v : in_u 32 v -> in_u 32 (Z.land v (not32 3)).
Proof. intros. apply land_in_u; [lia | assumption |]. vm_compute. discriminate. Qed.

Lemma aligned4_add4 a : aligned4 a = true -> aligned4 (add32 a 4) = true.
Proof.
  unfold aligned4, add32, wrap. rewrite !Z.eqb_eq. intros.
  Z.div_mod_to_equations. lia.
Qed.

(** * Little-endian bytes *)

(** [to_le_bytes] of an [n]-byte integer. *)
Fixpoint to_le (n : nat) (z : Z) : list Z :=
  match n with
  | O => []
  | S n => z mod 256 :: to_le n (z / 256)
  end.

(** [from_le_bytes]. *)
Fixpoint from_le (bs : list Z) : Z :=
  match bs with
  | [] => 0
  | b :: bs => b + 256 * from_le bs
  end.

Definition bytes_ok (bs : list Z) : Prop := Forall (in_u 8) bs.

#[export] Instance bytes_ok_dec bs : Decision (bytes_ok bs).
Proof. unfold bytes_ok. apply _. Defined.

Lemma length_to_le n z : length (to_le n z) = n.
Proof. revert z; induction n; intros; cbn; [reflexivity | rewrite IHn; reflexivity]. Qed.

Lemma to_le_ok n z : bytes_ok (to_le n z).
Proof.
  revert z; induction n as [|n IH]; intros z; cbn; [constructor |].
  constructor; [apply (Z.mod_pos_bound z 256); lia | apply IH].
Qed.

Lemma from_to_le n z : from_le (to_le n z) = z mod 2 ^ (8 * Z.of_nat n).
Proof.
  revert z; induction n as [|n IH]; intros z.
  - cbn. symmetry. apply Z.mod_1_r.
  - cbn [to_le from_le]. rewrite IH.
    replace (8 * Z.of_nat (S n)) with (8 + 8 * Z.of_nat n) by lia.
    rewrite Z.pow_add_r by lia. change (2 ^ 8) with 256.
    rewrite Z.rem_mul_r; [lia | lia | apply Z.pow_pos_nonneg; lia].
Qed.

Lemma from_to_le_id n z : in_u (8 * Z.of_nat n) z -> from_le (to_le n z) = z.
Proof. intros. rewrite from_to_le. apply Z.mod_small. assumption. Qed.

Lemma from_le_in_u bs : bytes_ok bs -> in_u (8 * Z.of_nat (length bs)) (from_le bs).
Proof.
  induction 1 as [|b bs Hb _ IH]; [split; reflexivity || lia |].
  cbn [from_le length]. revert Hb IH. unfold in_u.
  replace (8 * Z.of_nat (S (length bs))) with (8 + 8 * Z.of_nat (length bs)) by lia.
  rewrite Z.pow_add_r by lia. change (2 ^ 8) with 256. lia.
Qed.

Lemma to_from_le bs : bytes_ok bs -> to_le (length bs) (from_le bs) = bs.
Proof.
  induction 1 as [|b bs Hb _ IH]; [reflexivity |].
  cbn [from_le length to_le]. unfold in_u in Hb.
  replace (b + 256 * from_le bs) with (from_le bs * 256 + b) by lia.
  rewrite Z.div_add_l by lia. rewrite (Z.div_small b) by lia.
  rewrite Z.add_0_r, IH. f_equal.
  rewrite Z.add_comm, Z.mod_add by lia. apply Z.mod_small. lia.
Qed.

(** * Lists *)

(** [slice::contains] on integers. *)
Definition mem_Z (x : Z) (l : list Z) : bool := existsb (Z.eqb x) l.

Lemma mem_Z_spec x l : mem_Z x l = true <-> x ∈ l.
Proof.
  unfold mem_Z. rewrite existsb_exists, list_elem_of_In. split.
  - intros (y & Hy & ->%Z.eqb_eq). assumption.
  - intros. exists x. split; [assumption | apply Z.eqb_refl].
Qed.

(** [iter().position(|c| c == x)]. *)
Fixpoint position {A} `{EqDecision A} (x : A) (l : list A) : option nat :=
  match l with
  | [] => None
  | y :: l => if decide (y = x) then Some O else S <$> position x l
  end.

Lemma position_lookup {A} `{EqDecision A} (x : A) l i :
  position x l = Some i -> l !! i = Some x.
Proof.
  revert i; induction l as [|y l IH]; cbn; intros i; [discriminate |].
  case_decide; [intros [= <-]; subst; reflexivity |].
  destruct (position x l); cbn; [intros [= <-]; cbn; auto | discriminate].
Qed.

Lemma position_lt {A} `{EqDecision A} (x : A) l i :
  position x l = Some i -> (i < length l)%nat.
Proof. intros H%position_lookup. eapply lookup_lt_Some; eauto. Qed.

(** ** Sorting *)

Section sorting.
Context {A : Type} (le : A -> A -> bool).

Fixpoint insert_by (e : A) (l : list A) : list A :=
  match l with
  | [] => [e]
  | x :: l => if le e x then e :: x :: l else x :: insert_by e l
  end.

(** A stable sort, [sort_by_key]. *)
Fixpoint sort_by (l : list A) : list A :=
  match l with
  | [] => []
  | e :: l => insert_by e (sort_by l)
  end.

Lemma insert_by_perm e l : insert_by e l ≡ₚ e :: l.
Proof.
  induction l as [|x l IH]; cbn; [reflexivity |]. destruct (le e x); [reflexivity |].
  rewrite IH. apply perm_swap.
Qed.

Lemma sort_by_perm l : sort_by l ≡ₚ l.
Proof. induction l as [|x l IH]; cbn; [reflexivity |]. rewrite insert_by_perm, IH. reflexivity. Qed.

Context (le_total : forall a b, le a b = false -> le b a = true).
Context (le_trans : forall a b c, le a b = true -> le b c = true -> le a c = true).

Lemma insert_by_sorted e l :
  StronglySorted (fun a b => le a b = true) l ->
  StronglySorted (fun a b => le a b = true) (insert_by e l).
Proof.
  induction 1 as [|x l Hl IH Hx]; cbn; [repeat constructor |]. destruct (le e x) eqn:E.
  - constructor; [constructor; assumption |]. constructor; [exact E |].
    eapply Forall_impl; [exact Hx |]. cbn. eauto.
  - constructor; [exact IH |]. rewrite insert_by_perm. constructor; [apply le_total, E | exact Hx].
Qed.

Lemma sort_by_sorted l : StronglySorted (fun a b => le a b = true) (sort_by l).
Proof. induction l; cbn; [constructor | apply insert_by_sorted; assumption]. Qed.
End sorting.

(** * Automation *)

Create HintDb ranges.
#[export] Hint Resolve mod32_in_u add32_in_u sub32_in_u as_u32_in_u land_in_u_r lor_in_u lxor_in_u
  shiftr_in_u_same not32_in_u align_down4_in_u align_down4_aligned aligned4_add4
  to_le_ok : ranges.
#[export] Hint Extern 1 (in_u _ _) => (unfold in_u; lia) : ranges.
#[export] Hint Extern 1 (_ <= _) => lia : ranges.

(** Splits conjunctions and existentials of the context. *)
Ltac deconj :=
  repeat match goal with
  | H : _ /\ _ |- _ => destruct H
  | H : exists _, _ |- _ => destruct H
  end.

(** Turns the boolean tests of the context into propositions. *)
Ltac unbool :=
  repeat match goal with
  | H : (_ && _)%bool = true |- _ => apply andb_true_iff in H; destruct H
  | H : (_ || _)%bool = false |- _ => apply orb_false_iff in H; destruct H
  | H : negb _ = true |- _ => apply negb_true_iff in H
  | H : negb _ = false |- _ => apply negb_false_iff in H
  | H : (_ =? _) = true |- _ => apply Z.eqb_eq in H
  | H : (_ =? _) = false |- _ => apply Z.eqb_neq in H
  | H : (_ <? _) = true |- _ => apply Z.ltb_lt in H
  | H : (_ <? _) = false |- _ => apply Z.ltb_ge in H
  | H : (_ <=? _) = true |- _ => apply Z.leb_le in H
  | H : (_ <=? _) = false |- _ => apply Z.leb_gt in H
  | H : bool_decide _ = true |- _ => apply bool_decide_eq_true in H
  | H : bool_decide _ = false |- _ => apply bool_decide_eq_false in H
  end.

(** Cases on the first [match] or [if] scrutinee of the goal, then of a hypothesis. *)
Ltac case_goal :=
  match goal with
  | |- context [match ?x with _ => _ end] => destruct x eqn:?
  end.

(** Cases on the first [if] of the goal, without naming the equation. *)
Ltac case_if :=
  match goal with
  | |- context [if ?b then _ else _] => destruct b
  end.

Ltac case_hyp H :=
  match type of H with
  | context [match ?x with _ => _ end] => destruct x eqn:?
  end.

(** [in_u w c] for a closed [c]. *)
Ltac const_range := split; [vm_compute; discriminate | vm_compute; reflexivity].

(** Linear arithmetic on words: opens the ranges and the divisions. *)
Ltac word_lia :=
  first [lia | unfold in_u, wrap, aligned4 in *; unbool; Z.div_mod_to_equations; lia].

(** Rewrites the masks [2^n - 1] and the shifts of the goal into [mod], [/] and [*]. *)
Ltac bits_to_arith :=
  repeat match goal with
  | |- context [Z.land ?x (Zpos ?p)] =>
      let n := eval vm_compute in (Z.log2 (Z.succ (Zpos p))) in
      rewrite (land_ones_mod n x (Zpos p)) by (lia || reflexivity)
  | |- context [Z.shiftr ?x ?n] => rewrite (Z.shiftr_div_pow2 x n) by lia
  | |- context [Z.shiftl ?x ?n] => rewrite (Z.shiftl_mul_pow2 x n) by lia
  end.

(** Reduces equality of two [w]-bit words to their [w] bits, one goal per bit. *)
Ltac by_bit w i :=
  apply (bits_ext_u w); [lia | | | intros i ?].

(** Enumerates [0 <= i < n] for a literal [n]. *)
Lemma Z_range_cases n i (P : Z -> Prop) :
  0 <= i < Z.of_nat n -> (forall k, (k < n)%nat -> P (Z.of_nat k)) -> P i.
Proof. intros Hi H. rewrite <- (Z2Nat.id i) by lia. apply H. lia. Qed.
