(* ===== verification/Contracts.v ===== *)
(** The boundary with the [systemscope-contracts] crate.

    The crate is a sibling repository: the sources of this one only build and match on
    its data types, and call its traits.  The data types below have the constructors and
    fields the sources use and the design documents print ([docs/m0-design.md] §4,
    [docs/m1-design.md] §4.2, [docs/m2-design.md] §7 and §8).  What the crate computes
    is never defined here: it is a class, whose operations are arguments of the
    definitions that call them and whose laws are the documented behaviour:

    - [EventOrder]: the order on [Phase] and [EventKey] (m0-design §4.1);
    - [SimContext]: the context a component's handler runs in (m0-design §4.2 and §5);
    - [SnapshotCodec]: the primitive encodings of snapshots (m0-design §4.5);
    - [MemClassify]: [MemMsg::access()] (m1-design §4.2).

    Each class has an instance, used by the witnesses only. *)
From stdpp Require Import base numbers list option strings.
From Stdlib Require Import ZArith Lia.
From S2P Require Import Prelude.

Local Open Scope Z_scope.

(** * Time, events and errors *)

Inductive Phase : Set :=
| Phase_Request | Phase_Transfer | Phase_Complete | Phase_Commit | Phase_Observe.

#[export] Instance Phase_eq_dec : EqDecision Phase.
Proof. solve_decision. Defined.

(** [EventKey { tick, phase, sequence }]; [Tick] is a [u64]. *)
Record EventKey : Set := mkEventKey { tick : Z; phase : Phase; sequence : Z }.

#[export] Instance EventKey_eq_dec : EqDecision EventKey.
Proof. solve_decision. Defined.

Inductive ScheduleWhen : Set :=
| When_Now
| When_After (duration : Z)
| When_Cycles (domain k : Z).

#[export] Instance ScheduleWhen_eq_dec : EqDecision ScheduleWhen.
Proof. solve_decision. Defined.

(** [topology::LinkLatency]: a physical duration in femtoseconds (a [u128]) or a number of
    cycles of a clock domain ([docs/m0-design.md] §3). *)
Inductive LinkLatency : Set :=
| Latency_After (femtoseconds : Z)
| Latency_Cycles (domain k : Z).

#[export] Instance LinkLatency_eq_dec : EqDecision LinkLatency.
Proof. solve_decision. Defined.

Definition latency_ok (l : LinkLatency) : Prop :=
  match l with
  | Latency_After d => in_u 128 d
  | Latency_Cycles domain k => in_u 32 domain /\ in_u 64 k
  end.

#[export] Instance latency_ok_dec l : Decision (latency_ok l).
Proof. destruct l; unfold latency_ok; apply _. Defined.

(** [component::ProtocolId], and the protocols the documents name. *)
Record ProtocolId : Set := mkProtocolId { protocol_name : string; protocol_version : Z }.

Definition mem_v0_PROTOCOL : ProtocolId := mkProtocolId "mem" 0.
Definition mem_v1_PROTOCOL : ProtocolId := mkProtocolId "mem" 1.
Definition irq_v0_PROTOCOL : ProtocolId := mkProtocolId "irq" 0.
Definition block_v0_PROTOCOL : ProtocolId := mkProtocolId "block" 0.

#[export] Instance ProtocolId_eq_dec : EqDecision ProtocolId.
Proof. solve_decision. Defined.

(** [time::TimeError] ([docs/m0-design.md] §3). *)
Inductive TimeError : Set := TimeOverflow | FrequencyAboveResolution.

#[export] Instance TimeError_eq_dec : EqDecision TimeError.
Proof. solve_decision. Defined.

Inductive SimError : Set :=
| PhaseViolation (now : Z) (current : Phase) (tick : Z) (requested : Phase)
| PastTick (now requested : Z)
| SameTickLivelock (tick : Z) (phase : Phase) (limit : Z)
| SequenceOverflow
| UnknownClockDomain (domain : Z)
| UnknownPort (port : Z)
| ProtocolMismatch (port : Z) (expected actual : ProtocolId)
| SimError_Time (e : TimeError)
| ComponentFault (what : string).

#[export] Instance SimError_eq_dec : EqDecision SimError.
Proof. solve_decision. Defined.

(** How a handler stops short: the [SimError] it returns, or a panic ([expect],
    [unreachable!], or the overflow checks the workspace's profile keeps on). *)
Inductive Failure : Set :=
| Fails (e : SimError)
| Panics (what : string).

#[export] Instance Failure_eq_dec : EqDecision Failure.
Proof. solve_decision. Defined.

(** Trace values. *)
Inductive Value : Set :=
| VU64 (v : Z) | VI64 (v : Z) | VBool (b : bool) | VStr (s : string) | VBytes (bs : list Z).

#[export] Instance Value_eq_dec : EqDecision Value.
Proof. solve_decision. Defined.

(** * Protocols *)

(** [mem.v1] ([docs/m1-design.md] §4.2). *)
Inductive MemFault : Set := AccessFault.
Inductive ReadOutcome : Set := ReadOutcome_Data (data : list Z) | ReadOutcome_Fault (fault : MemFault).
Inductive WriteOutcome : Set := WriteOutcome_Done | WriteOutcome_Fault (fault : MemFault).
Inductive MemMsg : Set :=
| ReadReq (txn addr len : Z)
| ReadResp (txn : Z) (outcome : ReadOutcome)
| WriteReq (txn addr : Z) (data : list Z)
| WriteResp (txn : Z) (outcome : WriteOutcome).

(** [irq.v0] ([docs/m2-design.md] §7.1). *)
Inductive IrqMsg : Set := IrqMsg_Level (asserted : bool).

(** [block.v0] ([docs/m2-design.md] §8.1); a block is 512 bytes. *)
Definition BLOCK_SIZE : nat := 512.

Inductive MediaError : Set := OutOfRange | BadBlock.
Inductive BlockReadOutcome : Set := BlockRead_Data (data : list Z) | BlockRead_Error (error : MediaError).
Inductive BlockWriteOutcome : Set := BlockWrite_Done | BlockWrite_Error (error : MediaError).
Inductive BlockMsg : Set :=
| ReadBlock (txn lba : Z)
| WriteBlock (txn lba : Z) (data : list Z)
| ReadResult (txn : Z) (outcome : BlockReadOutcome)
| WriteResult (txn : Z) (outcome : BlockWriteOutcome).

(** [mem.v0] ([docs/m0-design.md] §5), the protocol of the M0 components. *)
Inductive MemMsgV0 : Set :=
| V0_ReadReq (txn addr len : Z)
| V0_ReadResp (txn : Z) (data : list Z)
| V0_WriteReq (txn addr : Z) (data : list Z)
| V0_WriteResp (txn : Z).

Inductive Message : Set :=
| Message_Mem (msg : MemMsgV0)
| Message_MemV1 (msg : MemMsg)
| Message_Irq (msg : IrqMsg)
| Message_Block (msg : BlockMsg).

Inductive Delivered : Set :=
| Delivered_Message (port : Z) (msg : Message)
| Delivered_Wake (token : Z).

#[export] Instance MemFault_eq_dec : EqDecision MemFault.
Proof. solve_decision. Defined.
#[export] Instance ReadOutcome_eq_dec : EqDecision ReadOutcome.
Proof. solve_decision. Defined.
#[export] Instance WriteOutcome_eq_dec : EqDecision WriteOutcome.
Proof. solve_decision. Defined.
#[export] Instance MemMsg_eq_dec : EqDecision MemMsg.
Proof. solve_decision. Defined.
#[export] Instance IrqMsg_eq_dec : EqDecision IrqMsg.
Proof. solve_decision. Defined.
#[export] Instance MediaError_eq_dec : EqDecision MediaError.
Proof. solve_decision. Defined.
#[export] Instance BlockReadOutcome_eq_dec : EqDecision BlockReadOutcome.
Proof. solve_decision. Defined.
#[export] Instance BlockWriteOutcome_eq_dec : EqDecision BlockWriteOutcome.
Proof. solve_decision. Defined.
#[export] Instance BlockMsg_eq_dec : EqDecision BlockMsg.
Proof. solve_decision. Defined.
#[export] Instance MemMsgV0_eq_dec : EqDecision MemMsgV0.
Proof. solve_decision. Defined.
#[export] Instance Message_eq_dec : EqDecision Message.
Proof. solve_decision. Defined.
#[export] Instance Delivered_eq_dec : EqDecision Delivered.
Proof. solve_decision. Defined.

(** The integers of a message fit their Rust types. *)
Definition mem_msg_ok (m : MemMsg) : Prop :=
  match m with
  | ReadReq txn addr len => in_u 64 txn /\ in_u 64 addr /\ in_u 32 len
  | ReadResp txn (ReadOutcome_Data data) => in_u 64 txn /\ bytes_ok data
  | ReadResp txn _ => in_u 64 txn
  | WriteReq txn addr data => in_u 64 txn /\ in_u 64 addr /\ bytes_ok data
  | WriteResp txn _ => in_u 64 txn
  end.

Definition block_msg_ok (m : BlockMsg) : Prop :=
  match m with
  | ReadBlock txn lba => in_u 64 txn /\ in_u 64 lba
  | WriteBlock txn lba data => in_u 64 txn /\ in_u 64 lba /\ bytes_ok data
  | ReadResult txn (BlockRead_Data data) => in_u 64 txn /\ bytes_ok data
  | ReadResult txn _ | WriteResult txn _ => in_u 64 txn
  end.

Definition delivered_ok (d : Delivered) : Prop :=
  match d with
  | Delivered_Message _ (Message_MemV1 m) => mem_msg_ok m
  | _ => True
  end.

#[export] Instance mem_msg_ok_dec m : Decision (mem_msg_ok m).
Proof. destruct m as [| ? [] | |]; unfold mem_msg_ok; apply _. Defined.

#[export] Instance delivered_ok_dec d : Decision (delivered_ok d).
Proof. destruct d as [? [] |]; unfold delivered_ok; apply _. Defined.

(** * The order of events *)

(** The discriminants the document prints. *)
Definition phase_rank (p : Phase) : Z :=
  match p with
  | Phase_Request => 0 | Phase_Transfer => 1 | Phase_Complete => 2
  | Phase_Commit => 3 | Phase_Observe => 4
  end.

(** [PartialOrd]/[Ord] of [Phase] and [EventKey]: phases by discriminant, keys
    lexicographically by tick, phase, sequence ([docs/m0-design.md] §4.1). *)
Class EventOrder := {
  phase_cmp : Phase -> Phase -> comparison;
  key_cmp : EventKey -> EventKey -> comparison;
  phase_cmp_doc : forall p q, phase_cmp p q = (phase_rank p ?= phase_rank q);
  key_cmp_doc : forall a b,
    key_cmp a b =
    match tick a ?= tick b with
    | Eq => match phase_cmp (phase a) (phase b) with
            | Eq => sequence a ?= sequence b
            | c => c
            end
    | c => c
    end;
}.

#[local, refine] Instance lexicographic_order : EventOrder := {
  phase_cmp p q := phase_rank p ?= phase_rank q;
  key_cmp a b :=
    match tick a ?= tick b with
    | Eq => match phase_rank (phase a) ?= phase_rank (phase b) with
            | Eq => sequence a ?= sequence b
            | c => c
            end
    | c => c
    end;
}.
Proof. all: reflexivity. Defined.

(** * Component contexts *)

(** What a handler may do to the session: read its own id, and the tick and phase of the
    event it handles; send a message on a port, schedule a wake of its own component, draw from
    its random stream, and record a trace entry.  Sending and scheduling may fail. *)
Class SimContext (C : Type) := {
  ctx_component : C -> Z;
  ctx_now : C -> Z;
  ctx_phase : C -> Phase;
  ctx_next_u64 : C -> C * Z;
  ctx_send : Z -> Message -> ScheduleWhen -> Phase -> C -> C * result SimError unit;
  ctx_wake_self : ScheduleWhen -> Phase -> Z -> C -> C * result SimError unit;
  ctx_trace : string -> list (string * Value) -> C -> C;
}.

(** A context that accepts every call and records the calls in order. *)
Inductive Effect : Set :=
| Sent (port : Z) (msg : Message) (when : ScheduleWhen) (phase : Phase)
| Woken (when : ScheduleWhen) (phase : Phase) (token : Z)
| Traced (kind : string) (fields : list (string * Value)).

Record RecCtx : Set := mkRecCtx { rec_phase : Phase; rec_log : list Effect }.

Definition rec_push (e : Effect) (c : RecCtx) : RecCtx :=
  mkRecCtx (rec_phase c) (rec_log c ++ [e]).

#[local] Instance recording_context : SimContext RecCtx := {
  ctx_component c := 0;
  ctx_now c := 0;
  ctx_phase := rec_phase;
  ctx_next_u64 c := (c, 0);
  ctx_send port msg when ph c := (rec_push (Sent port msg when ph) c, Ok tt);
  ctx_wake_self when ph token c := (rec_push (Woken when ph token) c, Ok tt);
  ctx_trace kind fields c := rec_push (Traced kind fields) c;
}.

(** The events a log schedules: sends and wakes, not trace records. *)
Definition schedules (e : Effect) : bool :=
  match e with Sent _ _ _ _ | Woken _ _ _ => true | Traced _ _ => false end.

(** * Snapshot encodings *)

(** The primitives of [SnapshotWriter] and [SnapshotReader] over byte strings.  The laws:
    reading what was written gives the value back and leaves the bytes after it
    ([docs/m0-design.md] §4.5), what is read from bytes fits the type it is read as, and what is
    written is bytes. *)
(** A string of ASCII characters, of a length the encoding can hold. *)
Definition ascii_str (s : string) : Prop :=
  Forall (fun a => Ascii.nat_of_ascii a < 128)%nat (String.list_ascii_of_string s) /\
  in_u 32 (Z.of_nat (length (String.list_ascii_of_string s))).

#[export] Instance ascii_str_dec s : Decision (ascii_str s).
Proof. unfold ascii_str. apply _. Defined.

(** The integers have a fixed width, [put_u8] one byte; a length is a [u32]; a byte string
    is its length and its bytes, a string the byte string of its UTF-8. *)
Class SnapshotCodec := {
  decode_error : Type;
  invalid_tag : string -> Z -> decode_error;
  truncated : decode_error;
  put_u8 : Z -> list Z; put_u16 : Z -> list Z; put_u32 : Z -> list Z; put_u64 : Z -> list Z;
  put_u128 : Z -> list Z; put_bool : bool -> list Z;
  put_len : Z -> list Z; put_bytes : list Z -> list Z; put_str : string -> list Z;
  get_u8 : list Z -> result decode_error (Z * list Z);
  get_u16 : list Z -> result decode_error (Z * list Z);
  get_u32 : list Z -> result decode_error (Z * list Z);
  get_u64 : list Z -> result decode_error (Z * list Z);
  get_u128 : list Z -> result decode_error (Z * list Z);
  get_bool : list Z -> result decode_error (bool * list Z);
  get_len : list Z -> result decode_error (Z * list Z);
  get_bytes : list Z -> result decode_error (list Z * list Z);
  get_str : list Z -> result decode_error (string * list Z);
  get_raw : nat -> list Z -> result decode_error (list Z * list Z);
  get_put_u8 : forall v r, in_u 8 v -> get_u8 (put_u8 v ++ r) = Ok (v, r);
  get_put_u16 : forall v r, in_u 16 v -> get_u16 (put_u16 v ++ r) = Ok (v, r);
  get_put_u32 : forall v r, in_u 32 v -> get_u32 (put_u32 v ++ r) = Ok (v, r);
  get_put_u64 : forall v r, in_u 64 v -> get_u64 (put_u64 v ++ r) = Ok (v, r);
  get_put_u128 : forall v r, in_u 128 v -> get_u128 (put_u128 v ++ r) = Ok (v, r);
  get_put_bool : forall b r, get_bool (put_bool b ++ r) = Ok (b, r);
  get_put_len : forall v r, in_u 32 v -> get_len (put_len v ++ r) = Ok (v, r);
  get_put_bytes : forall v r, bytes_ok v -> in_u 32 (Z.of_nat (length v)) ->
    get_bytes (put_bytes v ++ r) = Ok (v, r);
  get_put_str : forall s r, ascii_str s -> get_str (put_str s ++ r) = Ok (s, r);
  length_put_u8 : forall v, length (put_u8 v) = 1%nat;
  length_put_u32 : forall v, length (put_u32 v) = 4%nat;
  length_put_len : forall v, length (put_len v) = 4%nat;
  get_raw_app : forall bs r, get_raw (length bs) (bs ++ r) = Ok (bs, r);
  get_u8_range : forall bs v r, bytes_ok bs -> get_u8 bs = Ok (v, r) -> in_u 8 v /\ bytes_ok r;
  get_u16_range : forall bs v r, bytes_ok bs -> get_u16 bs = Ok (v, r) -> in_u 16 v /\ bytes_ok r;
  get_u32_range : forall bs v r, bytes_ok bs -> get_u32 bs = Ok (v, r) -> in_u 32 v /\ bytes_ok r;
  get_u64_range : forall bs v r, bytes_ok bs -> get_u64 bs = Ok (v, r) -> in_u 64 v /\ bytes_ok r;
  get_bool_range : forall bs v r, bytes_ok bs -> get_bool bs = Ok (v, r) -> bytes_ok r;
  get_len_range : forall bs v r, bytes_ok bs -> get_len bs = Ok (v, r) -> in_u 32 v /\ bytes_ok r;
  get_bytes_range : forall bs v r, bytes_ok bs -> get_bytes bs = Ok (v, r) ->
    (bytes_ok v /\ in_u 32 (Z.of_nat (length v))) /\ bytes_ok r;
  get_str_range : forall bs s r, bytes_ok bs -> get_str bs = Ok (s, r) -> bytes_ok r;
  get_raw_range : forall n bs v r, bytes_ok bs -> get_raw n bs = Ok (v, r) ->
    (bytes_ok v /\ length v = n) /\ bytes_ok r;
  put_u8_bytes : forall v, bytes_ok (put_u8 v);
  put_u16_bytes : forall v, bytes_ok (put_u16 v);
  put_u32_bytes : forall v, bytes_ok (put_u32 v);
  put_u64_bytes : forall v, bytes_ok (put_u64 v);
  put_u128_bytes : forall v, bytes_ok (put_u128 v);
  put_bool_bytes : forall b, bytes_ok (put_bool b);
  put_len_bytes : forall v, bytes_ok (put_len v);
  put_bytes_bytes : forall v, bytes_ok v -> bytes_ok (put_bytes v);
  put_str_bytes : forall s, bytes_ok (put_str s);
}.

Arguments decode_error {_}.

(** [snapshot::SessionField]: the session setting a snapshot disagrees on. *)
Inductive SessionField : Set :=
| Field_Seed | Field_TicksPerSecond | Field_MaxEventsPerPhase | Field_ContractsVersion
| Field_ClockDomains.

Inductive RestoreError `{SnapshotCodec} : Type :=
| BadMagic
| FormatVersion (version : Z)
| SessionMismatch (field : SessionField)
| TopologyMismatch
| SchemaVersion (component expected found : Z)
| InvalidState (what : string)
| Decode (e : decode_error).

(** A little-endian codec with a unit of errors. *)
Inductive LeError : Set := LeTruncated | LeTag (what : string) (tag : Z).

Definition le_get (n : nat) (bs : list Z) : result LeError (Z * list Z) :=
  if (length bs <? n)%nat then Err LeTruncated
  else Ok (from_le (take n bs), drop n bs).

Definition le_get_bool (bs : list Z) : result LeError (bool * list Z) :=
  match bs with
  | [] => Err LeTruncated
  | b :: r => if b =? 0 then Ok (false, r) else if b =? 1 then Ok (true, r)
              else Err (LeTag "bool" b)
  end.

Lemma le_get_put n v r :
  in_u (8 * Z.of_nat n) v -> le_get n (to_le n v ++ r) = Ok (v, r).
Proof.
  intros Hv. unfold le_get. rewrite length_app, length_to_le.
  replace ((n + length r <? n)%nat) with false by (symmetry; apply Nat.ltb_ge; lia).
  rewrite take_app_length', drop_app_length' by (symmetry; apply length_to_le).
  rewrite from_to_le_id by assumption. reflexivity.
Qed.

Lemma le_get_range n bs v r :
  bytes_ok bs -> le_get n bs = Ok (v, r) -> in_u (8 * Z.of_nat n) v /\ bytes_ok r.
Proof.
  intros Hb. unfold le_get. destruct (Nat.ltb_spec (length bs) n); [discriminate |].
  intros [= <- <-]. split; [|apply Forall_drop, Hb].
  pose proof (from_le_in_u (take n bs) (Forall_take _ n _ Hb)) as Hr.
  rewrite length_take, Nat.min_l in Hr by assumption. exact Hr.
Qed.

Definition le_put_bytes (bs : list Z) : list Z := to_le 4 (Z.of_nat (length bs)) ++ bs.

Definition le_get_bytes (bs : list Z) : result LeError (list Z * list Z) :=
  '(n, r) ← le_get 4 bs;
  if (length r <? Z.to_nat n)%nat then Err LeTruncated
  else Ok (take (Z.to_nat n) r, drop (Z.to_nat n) r).

Lemma le_get_put_bytes v r :
  in_u 32 (Z.of_nat (length v)) -> le_get_bytes (le_put_bytes v ++ r) = Ok (v, r).
Proof.
  intros Hv. unfold le_get_bytes, le_put_bytes. rewrite <- app_assoc, le_get_put by exact Hv.
  unfold mbind, result_bind. rewrite Nat2Z.id, length_app.
  replace ((length v + length r <? length v)%nat) with false by (symmetry; apply Nat.ltb_ge; lia).
  rewrite take_app_length, drop_app_length. reflexivity.
Qed.

Lemma le_get_bytes_range bs v r :
  bytes_ok bs -> le_get_bytes bs = Ok (v, r) ->
  (bytes_ok v /\ in_u 32 (Z.of_nat (length v))) /\ bytes_ok r.
Proof.
  intros Hb. unfold le_get_bytes. intros ([n r0] & E & H)%bind_Ok_inv.
  destruct (le_get_range 4 _ _ _ Hb E) as [Hn Hr].
  destruct (Nat.ltb_spec (length r0) (Z.to_nat n)); [discriminate |]. injection H as <- <-.
  split; [split |]; [apply Forall_take, Hr | | apply Forall_drop, Hr].
  rewrite length_take, Nat.min_l by assumption. rewrite Z2Nat.id by apply Hn. exact Hn.
Qed.

Definition str_bytes (s : string) : list Z :=
  (fun a => Z.of_nat (Ascii.nat_of_ascii a)) <$> String.list_ascii_of_string s.

Lemma str_bytes_ok s : bytes_ok (str_bytes s).
Proof.
  apply Forall_fmap, Forall_true. intros a. unfold compose, in_u. pose proof (Ascii.nat_ascii_bounded a). lia.
Qed.

Definition bytes_str (bs : list Z) : string :=
  String.string_of_list_ascii ((fun b => Ascii.ascii_of_nat (Z.to_nat b)) <$> bs).

Lemma bytes_str_bytes s : bytes_str (str_bytes s) = s.
Proof.
  unfold bytes_str, str_bytes. rewrite <- list_fmap_compose.
  rewrite <- (String.string_of_list_ascii_of_string s) at 2. f_equal.
  rewrite <- (list_fmap_id (String.list_ascii_of_string s)) at 2.
  apply list_fmap_ext. intros i a _. cbn. rewrite Nat2Z.id. apply Ascii.ascii_nat_embedding.
Qed.

Lemma str_bytes_length s : length (str_bytes s) = length (String.list_ascii_of_string s).
Proof. apply length_fmap. Qed.

#[local, refine] Instance le_codec : SnapshotCodec := {
  decode_error := LeError;
  invalid_tag := LeTag;
  truncated := LeTruncated;
  put_u8 := to_le 1; put_u16 := to_le 2; put_u32 := to_le 4; put_u64 := to_le 8;
  put_u128 := to_le 16; put_bool b := [Z.b2z b]; put_len := to_le 4;
  put_bytes := le_put_bytes; put_str s := le_put_bytes (str_bytes s);
  get_u8 := le_get 1; get_u16 := le_get 2; get_u32 := le_get 4; get_u64 := le_get 8;
  get_u128 := le_get 16; get_bool := le_get_bool; get_len := le_get 4; get_bytes := le_get_bytes;
  get_str bs := '(v, r) ← le_get_bytes bs; Ok (bytes_str v, r);
  get_raw n bs := if (length bs <? n)%nat then Err LeTruncated
                  else Ok (take n bs, drop n bs);
}.
Proof.
  1-5: intros; apply le_get_put; assumption.
  - intros [] r; reflexivity.
  - intros v r Hv. apply le_get_put, Hv.
  - intros v r _ Hv. apply le_get_put_bytes, Hv.
  - intros s r [_ Hs]. rewrite le_get_put_bytes by (rewrite str_bytes_length; exact Hs).
    cbn. rewrite bytes_str_bytes. reflexivity.
  - intros v. apply length_to_le.
  - intros v. apply length_to_le.
  - intros v. apply length_to_le.
  - intros bs r. rewrite length_app.
    replace ((length bs + length r <? length bs)%nat) with false
      by (symmetry; apply Nat.ltb_ge; lia).
    rewrite take_app_length, drop_app_length. reflexivity.
  - intros bs v r. apply (le_get_range 1).
  - intros bs v r. apply (le_get_range 2).
  - intros bs v r. apply (le_get_range 4).
  - intros bs v r. apply (le_get_range 8).
  - intros [|b bs] v r Hb; cbn; [discriminate |]. inversion Hb; subst.
    repeat case_if; try discriminate; intros [=]; subst; assumption.
  - intros bs v r. apply (le_get_range 4).
  - exact le_get_bytes_range.
  - intros bs s r Hb ([v r'] & E & [= _ <-])%bind_Ok_inv.
    apply (le_get_bytes_range bs v r' Hb E).
  - intros n bs v r Hb. destruct (Nat.ltb_spec (length bs) n); [discriminate |].
    intros [= <- <-]. rewrite length_take, Nat.min_l by assumption.
    split; [split; [apply Forall_take, Hb | reflexivity] | apply Forall_drop, Hb].
  - intros v. apply to_le_ok.
  - intros v. apply to_le_ok.
  - intros v. apply to_le_ok.
  - intros v. apply to_le_ok.
  - intros v. apply to_le_ok.
  - intros []; (constructor; [const_range | constructor]).
  - intros v. apply to_le_ok.
  - intros v Hv. apply Forall_app; split; [apply to_le_ok | exact Hv].
  - intros s. apply Forall_app; split; [apply to_le_ok | apply str_bytes_ok].
Defined.

(** ** Messages in snapshots *)

(** The lengths of a message's data, which its encoding holds in a [u32]. *)
Definition mem_len_ok (m : MemMsg) : Prop :=
  match m with
  | ReadResp _ (ReadOutcome_Data data) | WriteReq _ _ data => in_u 32 (Z.of_nat (length data))
  | _ => True
  end.

#[export] Instance mem_len_ok_dec m : Decision (mem_len_ok m).
Proof. destruct m as [| ? [] | |]; unfold mem_len_ok; apply _. Defined.

(** [MemMsg::encode] and [MemMsg::decode] ([docs/m1-design.md] §4.3). *)
Class MemCodec `{SnapshotCodec} := {
  put_mem : MemMsg -> list Z;
  get_mem : list Z -> result decode_error (MemMsg * list Z);
  get_put_mem : forall m r, mem_msg_ok m -> mem_len_ok m -> get_mem (put_mem m ++ r) = Ok (m, r);
  get_mem_range : forall bs m r, bytes_ok bs -> get_mem bs = Ok (m, r) ->
    (mem_msg_ok m /\ mem_len_ok m) /\ bytes_ok r;
  put_mem_bytes : forall m, mem_msg_ok m -> bytes_ok (put_mem m);
}.

Definition le_put_mem (m : MemMsg) : list Z :=
  match m with
  | ReadReq txn addr len => [0] ++ to_le 8 txn ++ to_le 8 addr ++ to_le 4 len
  | ReadResp txn (ReadOutcome_Data data) => [1] ++ to_le 8 txn ++ [0] ++ le_put_bytes data
  | ReadResp txn (ReadOutcome_Fault AccessFault) => [1] ++ to_le 8 txn ++ [1; 0]
  | WriteReq txn addr data => [2] ++ to_le 8 txn ++ to_le 8 addr ++ le_put_bytes data
  | WriteResp txn WriteOutcome_Done => [3] ++ to_le 8 txn ++ [0]
  | WriteResp txn (WriteOutcome_Fault AccessFault) => [3] ++ to_le 8 txn ++ [1; 0]
  end.

Lemma le_put_mem_ok m : mem_msg_ok m -> bytes_ok (le_put_mem m).
Proof.
  assert (H1 : bytes_ok [0] /\ bytes_ok [1] /\ bytes_ok [2] /\ bytes_ok [3] /\ bytes_ok [1; 0])
    by (split_and!; repeat constructor; discriminate).
  destruct H1 as (? & ? & ? & ? & ?).
  destruct m as [txn addr len|txn [data|[]]|txn addr data|txn [|[]]]; cbn [le_put_mem]; intros Hm;
    repeat (apply Forall_app; split); first [assumption | apply to_le_ok | apply Hm].
Qed.

Definition le_get_tag (bs : list Z) : result LeError (Z * list Z) :=
  match bs with [] => Err LeTruncated | b :: r => Ok (b, r) end.

Definition le_get_fault (bs : list Z) : result LeError (MemFault * list Z) :=
  '(t, r) ← le_get_tag bs;
  if t =? 0 then Ok (AccessFault, r) else Err (LeTag "mem fault" t).

Definition le_get_mem (bs : list Z) : result LeError (MemMsg * list Z) :=
  '(t, r) ← le_get_tag bs;
  '(txn, r) ← le_get 8 r;
  if t =? 0 then
    '(addr, r) ← le_get 8 r; '(len, r) ← le_get 4 r; Ok (ReadReq txn addr len, r)
  else if t =? 1 then
    '(o, r) ← le_get_tag r;
    if o =? 0 then '(data, r) ← le_get_bytes r; Ok (ReadResp txn (ReadOutcome_Data data), r)
    else if o =? 1 then '(f, r) ← le_get_fault r; Ok (ReadResp txn (ReadOutcome_Fault f), r)
    else Err (LeTag "read outcome" o)
  else if t =? 2 then
    '(addr, r) ← le_get 8 r; '(data, r) ← le_get_bytes r; Ok (WriteReq txn addr data, r)
  else if t =? 3 then
    '(o, r) ← le_get_tag r;
    if o =? 0 then Ok (WriteResp txn WriteOutcome_Done, r)
    else if o =? 1 then '(f, r) ← le_get_fault r; Ok (WriteResp txn (WriteOutcome_Fault f), r)
    else Err (LeTag "write outcome" o)
  else Err (LeTag "mem message" t).

Lemma le_get_tag_range bs t r : bytes_ok bs -> le_get_tag bs = Ok (t, r) -> bytes_ok r.
Proof. destruct bs; cbn; [discriminate |]. intros H [= _ <-]. inversion H. assumption. Qed.

Lemma le_get_fault_range bs f r : bytes_ok bs -> le_get_fault bs = Ok (f, r) -> bytes_ok r.
Proof.
  intros Hb ([t r0] & E & H)%bind_Ok_inv. apply le_get_tag_range in E; [|exact Hb].
  destruct (t =? 0); [|discriminate H]. injection H as _ <-. exact E.
Qed.

Lemma le_get_put_mem m r :
  mem_msg_ok m -> mem_len_ok m -> le_get_mem (le_put_mem m ++ r) = Ok (m, r).
Proof.
  assert (He : forall A B (f : A -> result LeError B) a, mbind f (Ok a) = f a) by reflexivity.
  intros Hm Hl. unfold le_get_mem.
  destruct m as [txn addr len|txn [data|[]]|txn addr data|txn [|[]]]; cbn in Hm, Hl; deconj;
    cbn [le_put_mem]; rewrite <- ?app_assoc; cbn [app le_get_tag]; rewrite He; cbn iota;
    rewrite le_get_put by assumption; rewrite He; cbn iota; cbn [Z.eqb Pos.eqb];
    cbn [app le_get_fault le_get_tag]; rewrite ?He; cbn iota; cbn [Z.eqb Pos.eqb];
    repeat (rewrite ?le_get_put, ?le_get_put_bytes by assumption; rewrite ?He; cbn iota);
    reflexivity.
Qed.

Lemma le_get_mem_range bs m r :
  bytes_ok bs -> le_get_mem bs = Ok (m, r) -> (mem_msg_ok m /\ mem_len_ok m) /\ bytes_ok r.
Proof.
  intros Hb. unfold le_get_mem.
  intros ([t r0] & Et & H)%bind_Ok_inv. apply (le_get_tag_range bs) in Et as Hr0; [|exact Hb].
  apply bind_Ok_inv in H as ([txn r1] & E1 & H). apply (le_get_range 8 r0) in E1 as [Ht Hr1]; [|exact Hr0].
  repeat match type of H with
  | (if ?b then _ else _) = _ => destruct b
  | Err _ = Ok _ => discriminate H
  | Ok _ = Ok _ => injection H as <- <-
  | _ =>
      let E := fresh in apply bind_Ok_inv in H as ([? ?] & E & H);
      first [ apply le_get_range in E as [? ?]; [|assumption]
            | apply le_get_bytes_range in E as [[? ?] ?]; [|assumption]
            | apply le_get_tag_range in E; [|assumption]
            | apply le_get_fault_range in E; [|assumption] ]
  end; cbn; auto.
Qed.

#[local, refine] Instance le_mem_codec : MemCodec := {
  put_mem := le_put_mem; get_mem := le_get_mem }.
Proof. exact le_get_put_mem. exact le_get_mem_range. exact le_put_mem_ok. Defined.

(** * Classification of memory requests *)

Inductive Classified : Set :=
| Bytes (first last : Z)
| AccessOutOfRange
| Empty.

(** [MemMsg::access()]: [None] for a response; an empty request is [Empty]; a request
    whose last byte would lie past [u64::MAX] is [AccessOutOfRange]; otherwise the first
    and last byte, inclusive ([docs/m1-design.md] §4.2). *)
Definition classify_doc (addr len : Z) : Classified :=
  if len =? 0 then Empty
  else if 2 ^ 64 <=? addr + (len - 1) then AccessOutOfRange
  else Bytes addr (addr + (len - 1)).

Class MemClassify := {
  access : MemMsg -> option Classified;
  access_read : forall txn addr len,
    access (ReadReq txn addr len) = Some (classify_doc addr len);
  access_write : forall txn addr data,
    access (WriteReq txn addr data) = Some (classify_doc addr (Z.of_nat (length data)));
  access_read_resp : forall txn o, access (ReadResp txn o) = None;
  access_write_resp : forall txn o, access (WriteResp txn o) = None;
}.

#[local, refine] Instance documented_classify : MemClassify := {
  access m :=
    match m with
    | ReadReq _ addr len => Some (classify_doc addr len)
    | WriteReq _ addr data => Some (classify_doc addr (Z.of_nat (length data)))
    | _ => None
    end;
}.
Proof. all: reflexivity. Defined.
