(* ===== verification/Handlers.v ===== *)
(** Component handlers.

    [Component::handle_event] takes [&mut self] and [&mut dyn SimContext] and returns a
    [Result]: a handler of a component [S] under a context [C] is a computation in
    [ST (S * C) Failure].  This file has its primitive steps, their weakest preconditions
    and the tactics that run a handler symbolically; the CPU and the platform devices are
    written with them. *)
From stdpp Require Import base numbers list option strings.
From Stdlib Require Import ZArith Lia.
From S2P Require Import Prelude Contracts.

Local Open Scope string_scope.
Local Open Scope list_scope.
Local Open Scope Z_scope.

Section handlers.
Context {S C : Type} `{SimContext C}.

Local Abbreviation M := (ST (S * C) Failure).

Definition self : M S := fun s => (s, Ok (fst s)).
Definition update (f : S -> S) : M unit := fun '(s, ctx) => ((f s, ctx), Ok tt).
Definition fault {A} (what : string) : M A := st_fail (Fails (ComponentFault what)).
Definition panic {A} (what : string) : M A := st_fail (Panics what).
Definition phase_of_event : M Phase := fun s => (s, Ok (ctx_phase (snd s))).
Definition trace (kind : string) (fields : list (string * Value)) : M unit :=
  fun '(s, ctx) => ((s, ctx_trace kind fields ctx), Ok tt).
(** A call of the context, its error returned by [?]. *)
Definition call (f : C -> C * result SimError unit) : M unit :=
  fun '(s, ctx) => let '(ctx, r) := f ctx in ((s, ctx), map_err Fails r).
(** [Result<_, SimError>] and [Option::ok_or] with [?]. *)
Definition try {A} (r : result SimError A) : M A :=
  fun s => (s, map_err Fails r).

End handlers.

Section rules.
Context {S C : Type} `{SimContext C}.

Local Abbreviation M := (ST (S * C) Failure).

Lemma wp_self Q X s ctx : Q s (s, ctx) -> wp (self : M _) Q X (s, ctx).
Proof. auto. Qed.
Lemma wp_update f Q X s ctx : Q tt (f s, ctx) -> wp (update f : M _) Q X (s, ctx).
Proof. auto. Qed.
Lemma wp_fault {A} what Q X s :
  X (Fails (ComponentFault what)) s -> wp (fault what : M A) Q X s.
Proof. auto. Qed.
Lemma wp_trace k fs Q X s ctx :
  Q tt (s, ctx_trace k fs ctx) -> wp (trace k fs : M _) Q X (s, ctx).
Proof. auto. Qed.
Lemma wp_phase Q X s ctx : Q (ctx_phase ctx) (s, ctx) -> wp (phase_of_event : M _) Q X (s, ctx).
Proof. auto. Qed.
Lemma wp_call f Q X s ctx :
  (forall ctx', Q tt (s, ctx')) -> (forall e ctx', X (Fails e) (s, ctx')) ->
  wp (call f : M _) Q X (s, ctx).
Proof. intros HQ HX. unfold wp, call. destruct (f ctx) as [ctx' [[]|e]]; cbn; auto. Qed.
Lemma wp_try {A} (r : result SimError A) Q X s :
  (forall a, r = Ok a -> Q a s) -> (forall e, r = Err e -> X (Fails e) s) ->
  wp (try r : M A) Q X s.
Proof. intros HQ HX. unfold wp, try. destruct r; cbn; auto. Qed.
Lemma wp_try_ok {A} (a : A) Q X s : Q a s -> wp (try (Ok a) : M A) Q X s.
Proof. auto. Qed.
(** Every way [m] ends leaves a component in [P], and [m] does not panic. *)
Definition settles {A} (P : S -> Prop) (m : M A) (s : S) (ctx : C) : Prop :=
  wp m (fun _ s => P (fst s)) (fun e s => P (fst s) /\ exists e', e = Fails e') (s, ctx).

Lemma settles_fault {A} (P : S -> Prop) what s ctx :
  P s -> settles P (fault what : M A) s ctx.
Proof. intros HP. apply wp_fault. eauto. Qed.

Lemma settles_call (P : S -> Prop) f s ctx : P s -> settles P (call f : M _) s ctx.
Proof. intros HP. apply wp_call; cbn; eauto. Qed.

Lemma settles_ret {A} (P : S -> Prop) (a : A) s ctx : P s -> settles P (mret a : M A) s ctx.
Proof. intros HP. apply wp_ret, HP. Qed.

Lemma settles_bind {A B} (P P' : S -> Prop) (m : M A) (f : A -> M B) s ctx :
  settles P m s ctx -> (forall s, P s -> P' s) ->
  (forall a s' ctx', P s' -> settles P' (f a) s' ctx') -> settles P' (mbind (M := M) f m) s ctx.
Proof.
  intros Hm HP Hf. apply wp_bind. eapply wp_mono; [exact Hm | |].
  - cbn. intros a [s' ctx'] Hs. apply Hf, Hs.
  - cbn. intros e s' [? ?]. auto.
Qed.

Lemma settles_panic_free {A} (P : S -> Prop) (m : M A) s ctx s' ctx' r :
  settles P m s ctx -> m (s, ctx) = ((s', ctx'), r) -> P s' /\ forall what, r <> Err (Panics what).
Proof.
  intros Hm E. pose proof (wp_use _ _ _ _ _ _ Hm E) as Hr. destruct r; cbn in Hr.
  - split; [exact Hr | discriminate].
  - destruct Hr as [? [? ->]]. split; [assumption | discriminate].
Qed.
End rules.

(** Symbolic execution of a handler, up to the next choice. *)
Ltac wp_step :=
  lazymatch goal with
  | |- forall _, _ => intros
  | |- wp (mbind _ _) _ _ _ => apply wp_bind
  | |- wp self _ _ _ => apply wp_self
  | |- wp (update _) _ _ _ => apply wp_update
  | |- wp (trace _ _) _ _ _ => apply wp_trace
  | |- wp phase_of_event _ _ _ => apply wp_phase
  | |- wp (mret _) _ _ _ => apply wp_ret
  | |- wp (try (Ok _)) _ _ _ => apply wp_try_ok
  end.

Ltac wp_run := repeat (wp_step; cbn beta iota zeta).

