(* ===== verification/Snapshots.v ===== *)
(** Reading and writing snapshots.

    A writer is the bytes it has written; a reader is a computation over the bytes left,
    in [ST (list Z) RestoreError].  The encodings of the primitives are those of any
    [SnapshotCodec].  [reads m bs a] says that [m] reads back exactly what was written;
    [yields m P] what [m] accepts of arbitrary bytes. *)
From stdpp Require Import base numbers list option strings.
From Stdlib Require Import ZArith Lia.
From S2P Require Import Prelude Contracts.

Local Open Scope string_scope.
Local Open Scope list_scope.
Local Open Scope Z_scope.

Section readers.
Context `{SnapshotCodec}.

Local Abbreviation R := (ST (list Z) RestoreError).

(** A primitive read, with [?]. *)
Definition rd {A} (get : list Z -> result decode_error (A * list Z)) : R A :=
  fun bs =>
    match get bs with
    | Ok (v, rest) => (rest, Ok v)
    | Err e => (bs, Err (Decode e))
    end.

Definition invalid {A} (what : string) : R A := st_fail (InvalidState what).
Definition bad_tag {A} (what : string) (tag : Z) : R A := st_fail (Decode (invalid_tag what tag)).
Definition check (b : bool) (what : string) : R unit := if b then mret tt else invalid what.
Definition some_or {A} (o : option A) (e : RestoreError) : R A :=
  match o with Some a => mret a | None => st_fail e end.

(** A validation, with [?]. *)
Definition validate {A} (r : result RestoreError A) : R A := fun bs => (bs, r).

End readers.

(** * Reading back what was written *)

Section reads.
Context `{SnapshotCodec}.

Local Abbreviation R := (ST (list Z) RestoreError).

(** [m] reads exactly [bs] and returns [a], whatever follows. *)
Definition reads {A} (m : R A) (bs : list Z) (a : A) : Prop :=
  forall rest, m (bs ++ rest) = (rest, Ok a).

Lemma reads_bind {A B} (m : R A) (f : A -> R B) b1 b2 a b :
  reads m b1 a -> reads (f a) b2 b -> reads (mbind (M := R) f m) (b1 ++ b2) b.
Proof. intros Hm Hf rest. rewrite ST_bind_unfold, <- app_assoc, Hm. apply Hf. Qed.

Lemma reads_then {A B} (m : R A) (f : A -> R B) bs a b :
  reads m [] a -> reads (f a) bs b -> reads (mbind (M := R) f m) bs b.
Proof. exact (reads_bind m f [] bs a b). Qed.

Lemma reads_last {A B} (m : R A) (f : A -> R B) bs a b :
  reads m bs a -> reads (f a) [] b -> reads (mbind (M := R) f m) bs b.
Proof. intros Hm Hf. rewrite <- (app_nil_r bs). eapply reads_bind; eassumption. Qed.

Lemma reads_ret {A} (a : A) : reads (mret a : R A) [] a.
Proof. intros rest. reflexivity. Qed.

Lemma reads_u8 v : in_u 8 v -> reads (rd get_u8) (put_u8 v) v.
Proof. intros Hv rest. unfold rd. rewrite get_put_u8 by assumption. reflexivity. Qed.
Lemma reads_u16 v : in_u 16 v -> reads (rd get_u16) (put_u16 v) v.
Proof. intros Hv rest. unfold rd. rewrite get_put_u16 by assumption. reflexivity. Qed.
Lemma reads_u32 v : in_u 32 v -> reads (rd get_u32) (put_u32 v) v.
Proof. intros Hv rest. unfold rd. rewrite get_put_u32 by assumption. reflexivity. Qed.
Lemma reads_u64 v : in_u 64 v -> reads (rd get_u64) (put_u64 v) v.
Proof. intros Hv rest. unfold rd. rewrite get_put_u64 by assumption. reflexivity. Qed.
Lemma reads_bool v : reads (rd get_bool) (put_bool v) v.
Proof. intros rest. unfold rd. rewrite get_put_bool. reflexivity. Qed.
Lemma reads_len v : in_u 32 v -> reads (rd get_len) (put_len v) v.
Proof. intros Hv rest. unfold rd. rewrite get_put_len by assumption. reflexivity. Qed.
Lemma reads_bytes v :
  bytes_ok v -> in_u 32 (Z.of_nat (length v)) -> reads (rd get_bytes) (put_bytes v) v.
Proof. intros Hv Hl rest. unfold rd. rewrite get_put_bytes by assumption. reflexivity. Qed.
Lemma reads_str v : ascii_str v -> reads (rd get_str) (put_str v) v.
Proof. intros Hv rest. unfold rd. rewrite get_put_str by assumption. reflexivity. Qed.
Lemma reads_mem `{!MemCodec} m : mem_msg_ok m -> mem_len_ok m -> reads (rd get_mem) (put_mem m) m.
Proof. intros Hm Hl rest. unfold rd. rewrite get_put_mem by assumption. reflexivity. Qed.
Lemma reads_raw bs : reads (rd (get_raw (length bs))) bs bs.
Proof. intros rest. unfold rd. rewrite get_raw_app. reflexivity. Qed.
Lemma reads_check b what : b = true -> reads (check b what) [] tt.
Proof. intros -> rest. reflexivity. Qed.
Lemma reads_some {A} (o : option A) e a : o = Some a -> reads (some_or o e) [] a.
Proof. intros -> rest. reflexivity. Qed.
Lemma reads_validate {A} (r : result RestoreError A) a : r = Ok a -> reads (validate r) [] a.
Proof. intros -> rest. reflexivity. Qed.
End reads.

Create HintDb reads.
#[export] Hint Resolve reads_u8 reads_u16 reads_u32 reads_u64 reads_bool reads_len reads_bytes reads_str reads_mem reads_raw
  reads_ret reads_check reads_some reads_validate : reads.
#[export] Hint Extern 1 (in_u _ _) => (const_range || assumption || (unfold in_u; lia)) : reads.

(** Runs the next read of a sequence against the bytes it was written as. *)
Ltac reads_next :=
  first [ eapply reads_bind; [solve [eauto 4 with reads] |]
        | eapply reads_then; [solve [eauto 4 with reads] |]
        | eapply reads_last; [solve [eauto 4 with reads] |] ];
  cbn beta iota zeta;
  repeat match goal with |- context [Zpos ?a =? Zpos ?b] =>
    let r := eval vm_compute in (Zpos a =? Zpos b) in change (Zpos a =? Zpos b) with r
  | |- context [Z0 =? ?b] => let r := eval vm_compute in (Z0 =? b) in change (Z0 =? b) with r
  | |- context [Zpos ?a =? Z0] => change (Zpos a =? Z0) with false
  end; cbn iota.

(** * What a reader accepts *)

Section yields.
Context `{SnapshotCodec}.

Local Abbreviation R := (ST (list Z) RestoreError).

(** Whatever bytes [m] reads, a value it returns satisfies [P]. *)
Definition yields {A} (m : R A) (P : A -> Prop) : Prop :=
  forall bs, bytes_ok bs -> wp m (fun a r => P a /\ bytes_ok r) (fun _ _ => True) bs.

Lemma yields_bind {A B} (m : R A) (f : A -> R B) P Q :
  yields m P -> (forall a, P a -> yields (f a) Q) -> yields (mbind (M := R) f m) Q.
Proof.
  intros Hm Hf bs Hbs. apply wp_bind. eapply wp_mono; [apply Hm, Hbs | |auto].
  cbn. intros a r [Ha Hr]. apply Hf; assumption.
Qed.

Lemma yields_ret {A} (a : A) (P : A -> Prop) : P a -> yields (mret a : R A) P.
Proof. intros Ha bs Hbs. apply wp_ret. auto. Qed.

Lemma yields_mono {A} (m : R A) (P Q : A -> Prop) : (forall a, P a -> Q a) -> yields m P -> yields m Q.
Proof. intros HPQ Hm bs Hbs. eapply wp_mono; [apply Hm, Hbs | |auto]. cbn. intros a r [? ?]. auto. Qed.

Lemma yields_fail {A} e (P : A -> Prop) : yields (st_fail e : R A) P.
Proof. intros bs Hbs. exact I. Qed.

Lemma yields_rd {A} (get : list Z -> result decode_error (A * list Z)) (P : A -> Prop) :
  (forall bs v r, bytes_ok bs -> get bs = Ok (v, r) -> P v /\ bytes_ok r) -> yields (rd get) P.
Proof.
  intros Hg bs Hbs. unfold wp, rd. destruct (get bs) as [[v r]|e] eqn:E; [|exact I].
  exact (Hg bs v r Hbs E).
Qed.

Lemma yields_u8 : yields (rd get_u8) (in_u 8).
Proof. apply yields_rd, get_u8_range. Qed.
Lemma yields_u16 : yields (rd get_u16) (in_u 16).
Proof. apply yields_rd, get_u16_range. Qed.
Lemma yields_u32 : yields (rd get_u32) (in_u 32).
Proof. apply yields_rd, get_u32_range. Qed.
Lemma yields_u64 : yields (rd get_u64) (in_u 64).
Proof. apply yields_rd, get_u64_range. Qed.
Lemma yields_bool : yields (rd get_bool) (fun _ => True).
Proof. apply yields_rd. intros bs v r Hbs E. split; [exact I | eapply get_bool_range; eassumption]. Qed.
Lemma yields_raw n : yields (rd (get_raw n)) (fun v => bytes_ok v /\ length v = n).
Proof. apply yields_rd, get_raw_range. Qed.
Lemma yields_len : yields (rd get_len) (in_u 32).
Proof. apply yields_rd, get_len_range. Qed.
Lemma yields_bytes : yields (rd get_bytes) (fun v => bytes_ok v /\ in_u 32 (Z.of_nat (length v))).
Proof. apply yields_rd, get_bytes_range. Qed.
Lemma yields_str : yields (rd get_str) (fun _ => True).
Proof. apply yields_rd. intros bs v r Hbs E. split; [exact I | eapply get_str_range; eassumption]. Qed.
Lemma yields_mem `{!MemCodec} : yields (rd get_mem) (fun m => mem_msg_ok m /\ mem_len_ok m).
Proof. apply yields_rd, get_mem_range. Qed.
Lemma yields_check b what : yields (check b what) (fun _ => b = true).
Proof. destruct b; [apply yields_ret; reflexivity | apply yields_fail]. Qed.
Lemma yields_some {A} (o : option A) e : yields (some_or o e) (fun a => o = Some a).
Proof. destruct o; [apply yields_ret; reflexivity | apply yields_fail]. Qed.
Lemma yields_validate {A} (r : result RestoreError A) : yields (validate r) (fun a => r = Ok a).
Proof. intros bs Hbs. destruct r; [split; [reflexivity | exact Hbs] | exact I]. Qed.
End yields.

Create HintDb yields.
#[export] Hint Resolve yields_u8 yields_u16 yields_u32 yields_u64 yields_bool yields_raw
  yields_len yields_bytes yields_str yields_mem
  yields_check yields_some yields_validate : yields.

(** The next read of a sequence, with what it yields. *)
Ltac yields_next := eapply yields_bind; [solve [eauto 2 with yields] |];
  let Hy := fresh in intros ? Hy; cbn beta in Hy; cbn beta iota zeta.

(** Every tag of a read: the branch it selects, or the error. *)
Ltac yields_tags := repeat (case_if; [|]); try apply yields_fail.

