(* ===== verification/Text.v ===== *)
(** Numbers as text: Rust's [{}] and the digits of [{:x}].

    A string is the sequence of its bytes.  Proved: a decimal number is a JSON integer (digits
    without a leading zero, behind a sign), and hexadecimal digits give their number back. *)
From stdpp Require Import base numbers list option strings pretty.
From Stdlib Require Import ZArith Lia Ascii.
From S2P Require Import Prelude.

Local Open Scope string_scope.
Local Open Scope Z_scope.

(** [{}] of an integer. *)
Definition dec (n : Z) : string := pretty n.

Definition hex_digit (d : Z) : string :=
  default "" (["0"; "1"; "2"; "3"; "4"; "5"; "6"; "7"; "8"; "9"; "a"; "b"; "c"; "d"; "e"; "f"] !! Z.to_nat d).

(** The last [n] hexadecimal digits. *)
Fixpoint hex_digits (n : nat) (v : Z) : string :=
  match n with
  | O => ""
  | S n => hex_digits n (v / 16) +:+ hex_digit (v mod 16)
  end.

(** The number of digits: 16 are enough for a [u64]. *)
Fixpoint hex_len (fuel : nat) (v : Z) : nat :=
  match fuel with
  | O => 1%nat
  | S fuel => if v <? 16 then 1%nat else S (hex_len fuel (v / 16))
  end.

(** [{:#x}] and [{:#010x}]. *)
Definition hex (v : Z) : string := "0x" +:+ hex_digits (hex_len 15 v) v.
Definition hex08 (v : Z) : string := "0x" +:+ hex_digits (Nat.max 8 (hex_len 15 v)) v.

(** [{b:02x}] of each byte. *)
Definition hex_bytes (bs : list Z) : string := foldr (fun b s => hex_digits 2 b +:+ s) "" bs.

(** Zero-padded to [n] digits: [{:09}] and the like, of a number of no more digits. *)
Fixpoint dec_digits (n : nat) (v : Z) : string :=
  match n with
  | O => ""
  | S n => dec_digits n (v / 10) +:+ hex_digit (v mod 10)
  end.

(** * Characters *)

Definition code (c : ascii) : Z := Z.of_nat (nat_of_ascii c).

Definition is_digit (c : ascii) : bool := (48 <=? code c) && (code c <=? 57).

Fixpoint all_chars (p : ascii -> bool) (s : string) : bool :=
  match s with EmptyString => true | String c s => p c && all_chars p s end.

(** The longest prefix of characters in [p], and the rest. *)
Fixpoint span (p : ascii -> bool) (s : string) : string * string :=
  match s with
  | String c s' => if p c then let '(a, b) := span p s' in (String c a, b) else ("", s)
  | EmptyString => ("", "")
  end.

Definition head_not (p : ascii -> bool) (s : string) : bool :=
  match s with EmptyString => true | String c _ => negb (p c) end.

#[local] Arguments String.append !_ _ : simpl nomatch.

Lemma append_assoc (a b c : string) : (a +:+ b) +:+ c = a +:+ b +:+ c.
Proof. induction a; cbn; congruence. Qed.

Lemma append_nil (a : string) : a +:+ "" = a.
Proof. induction a; cbn; congruence. Qed.

Lemma length_append (a b : string) : String.length (a +:+ b) = (String.length a + String.length b)%nat.
Proof. induction a; cbn; congruence. Qed.

Lemma all_chars_append p a b : all_chars p (a +:+ b) = all_chars p a && all_chars p b.
Proof. induction a as [|c a IH]; cbn; [reflexivity |]. rewrite IH. apply andb_assoc. Qed.

Lemma span_append p a b : all_chars p a = true -> head_not p b = true -> span p (a +:+ b) = (a, b).
Proof.
  induction a as [|c a IH]; cbn; intros Ha Hb.
  - destruct b as [|c b]; [reflexivity |]. cbn in *. destruct (p c); [discriminate Hb | reflexivity].
  - apply andb_true_iff in Ha as [-> Ha]. rewrite IH by assumption. reflexivity.
Qed.

(** * Decimal numbers *)

(** An unsigned JSON integer: digits, the first one zero only if it is alone. *)
Definition plain_int (s : string) : bool :=
  all_chars is_digit s && match s with "0" => true | String c _ => negb (Ascii.eqb c "0") | EmptyString => false end.

Lemma pretty_digit n : (n < 10)%N -> is_digit (pretty_N_char n) = true.
Proof. intros Hn. do 10 (destruct n as [|n] using N.peano_ind; [reflexivity | clear IHn; try lia]). Qed.

Lemma pretty_leads x : (0 < x)%N -> forall s, exists c t, pretty_N_go x s = String c (t +:+ s) /\
  is_digit c = true /\ Ascii.eqb c "0" = false /\ all_chars is_digit t = true.
Proof.
  induction (N.lt_wf_0 x) as [x _ IH]. intros Hx s. rewrite pretty_N_go_step by exact Hx.
  destruct (N.lt_ge_cases x 10) as [Hlt|Hge].
  - rewrite N.div_small, N.mod_small, pretty_N_go_0 by exact Hlt. exists (pretty_N_char x), "".
    split_and!; [reflexivity | apply pretty_digit, Hlt | | reflexivity].
    do 10 (destruct x as [|x _] using N.peano_ind; [first [lia | reflexivity] |]). lia.
  - destruct (IH (x / 10)%N (N.div_lt x 10 Hx eq_refl) ltac:(apply N.div_str_pos; lia) (String (pretty_N_char (x mod 10)) s))
      as (c & t & -> & Hc & H0 & Ht).
    exists c, (t +:+ String (pretty_N_char (x mod 10)) ""). rewrite append_assoc, all_chars_append, Ht. cbn.
    rewrite pretty_digit by (apply N.mod_lt; lia). auto.
Qed.

Lemma dec_pos n : 0 <= n -> plain_int (dec n) = true.
Proof.
  intros Hn. destruct n as [|p|p]; [reflexivity | | lia]. unfold dec, pretty, pretty_Z, pretty, pretty_positive, pretty, pretty_N.
  destruct (decide _) as [E|_]; [discriminate E |].
  destruct (pretty_leads (N.pos p) ltac:(lia) "") as (c & t & -> & Hc & H0 & Ht). rewrite append_nil. unfold plain_int. cbn [all_chars].
  rewrite Hc, Ht. cbn [andb]. destruct t; [|rewrite H0; destruct c as [[] [] [] [] [] [] [] []]; reflexivity].
  destruct c as [[] [] [] [] [] [] [] []]; first [reflexivity | discriminate H0].
Qed.

Lemma dec_neg n : n < 0 -> dec n = "-" +:+ dec (- n).
Proof. destruct n; [lia | lia | reflexivity]. Qed.

Lemma dec_inj m n : dec m = dec n -> m = n.
Proof. apply (inj pretty). Qed.

Lemma plain_int_shape s : plain_int s = true -> all_chars is_digit s = true /\ exists c t, s = String c t.
Proof. unfold plain_int. intros [Hd Hs]%andb_true_iff. destruct s as [|c t]; [discriminate Hs | eauto]. Qed.

(** * Digits *)

Definition hex_char (d : Z) : ascii := default "0"%char (String.get 0 (hex_digit d)).

Definition sixteen : list Z := seqZ 0 16.

(** A decidable fact about every hexadecimal digit. *)
Lemma digit_cases (P : Z -> Prop) `{forall d, Decision (P d)} d :
  0 <= d < 16 -> bool_decide (Forall P sixteen) = true -> P d.
Proof. intros Hd HP%bool_decide_eq_true. rewrite Forall_forall in HP. apply HP, elem_of_seqZ. lia. Qed.

Lemma hex_digit_char d : 0 <= d < 16 -> hex_digit d = String (hex_char d) "".
Proof. intros Hd. apply (digit_cases (fun d => hex_digit d = String (hex_char d) "") d Hd). vm_compute. reflexivity. Qed.

(** The value of a hexadecimal digit. *)
Definition unhex (c : ascii) : Z :=
  if is_digit c then code c - 48 else code c - 87.

Lemma unhex_char d : 0 <= d < 16 -> unhex (hex_char d) = d.
Proof. intros Hd. apply (digit_cases (fun d => unhex (hex_char d) = d) d Hd). vm_compute. reflexivity. Qed.

Lemma dec_digit_char d : 0 <= d < 10 -> is_digit (hex_char d) = true.
Proof.
  intros Hd. apply (digit_cases (fun d => d < 10 -> is_digit (hex_char d) = true) d); [lia | vm_compute; reflexivity | lia].
Qed.

Lemma append_char_inj a b c d : a +:+ String c "" = b +:+ String d "" -> a = b /\ c = d.
Proof.
  revert b. induction a as [|x a IH]; intros [|y b]; cbn.
  - intros [= ->]. auto.
  - intros [= -> E]. destruct b; discriminate E.
  - intros [= -> E]. destruct a; discriminate E.
  - intros [= -> E]. apply IH in E as [-> ->]. auto.
Qed.

Lemma hex_digits_inj n v w : 0 <= v < 16 ^ Z.of_nat n -> 0 <= w < 16 ^ Z.of_nat n -> hex_digits n v = hex_digits n w -> v = w.
Proof.
  revert v w. induction n as [|n IH]; intros v w Hv Hw E; [cbn in *; lia |]. cbn [hex_digits] in E.
  rewrite Nat2Z.inj_succ, Z.pow_succ_r in Hv, Hw by lia.
  rewrite !hex_digit_char in E by (apply Z.mod_pos_bound; lia). apply append_char_inj in E as [Ed Ec%(f_equal unhex)].
  rewrite !unhex_char in Ec by (apply Z.mod_pos_bound; lia). apply IH in Ed; try (split; [apply Z.div_pos; lia | apply Z.div_lt_upper_bound; lia]).
  rewrite (Z.div_mod v 16), (Z.div_mod w 16) by lia. congruence.
Qed.

Lemma hex_digits_length n v : String.length (hex_digits n v) = n.
Proof.
  revert v. induction n as [|n IH]; intros v; [reflexivity |]. cbn [hex_digits]. rewrite length_append, IH, hex_digit_char by (apply Z.mod_pos_bound; lia).
  cbn. lia.
Qed.

Lemma append_inj a a' b b' : String.length a = String.length a' -> a +:+ b = a' +:+ b' -> a = a' /\ b = b'.
Proof.
  revert a'. induction a as [|c a IH]; intros [|c' a']; cbn; try discriminate; [auto |].
  intros [= El] [= -> E]. apply IH in E as [-> ->]; auto.
Qed.

Lemma hex_bytes_inj bs bs' : bytes_ok bs -> bytes_ok bs' -> hex_bytes bs = hex_bytes bs' -> bs = bs'.
Proof.
  intros H. revert bs'. induction H as [|b bs Hb _ IH]; intros [|b' bs'] Hbs' E; [reflexivity | | |];
    try (apply (f_equal String.length) in E; unfold hex_bytes in E; cbn [foldr] in E; rewrite length_append, hex_digits_length in E; cbn in E; discriminate E).
  apply Forall_cons in Hbs' as [Hb' Hbs']. unfold hex_bytes in E. cbn [foldr] in E.
  apply append_inj in E as [Eb E]; [|rewrite !hex_digits_length; reflexivity].
  apply hex_digits_inj in Eb; [|exact Hb | exact Hb']. f_equal; [exact Eb | apply IH; assumption].
Qed.

Lemma dec_digits_ok n v : all_chars is_digit (dec_digits n v) = true /\ String.length (dec_digits n v) = n.
Proof.
  revert v. induction n as [|n IH]; intros v; [split; reflexivity |]. cbn [dec_digits].
  pose proof (Z.mod_pos_bound v 10 ltac:(lia)). rewrite all_chars_append, length_append, hex_digit_char by lia.
  destruct (IH (v / 10)) as [-> ->]. cbn. rewrite dec_digit_char by lia. split; [reflexivity | lia].
Qed.

(** ** Their values *)

Fixpoint undec_from (acc : Z) (s : string) : Z :=
  match s with EmptyString => acc | String c s => undec_from (10 * acc + unhex c) s end.

(** The number a string of digits writes. *)
Definition undec (s : string) : Z := undec_from 0 s.

Lemma pretty_char_unhex n : (n < 10)%N -> unhex (pretty_N_char n) = Z.of_N n.
Proof. intros Hn. do 10 (destruct n as [|n _] using N.peano_ind; [reflexivity |]). lia. Qed.

Lemma undec_pretty x s : undec_from 0 (pretty_N_go x s) = undec_from (Z.of_N x) s.
Proof.
  revert s. induction (N.lt_wf_0 x) as [x _ IH]. intros s. destruct (N.eq_0_gt_0_cases x) as [->|Hx]; [rewrite pretty_N_go_0; reflexivity |].
  rewrite pretty_N_go_step by exact Hx. rewrite IH by (apply N.div_lt; lia). cbn [undec_from].
  rewrite pretty_char_unhex by (apply N.mod_lt; lia). f_equal. pose proof (N.div_mod x 10 ltac:(lia)). lia.
Qed.

Lemma undec_dec n : 0 <= n -> undec (dec n) = n.
Proof.
  intros Hn. destruct n as [|p|p]; [reflexivity | | lia]. unfold undec, dec, pretty, pretty_Z, pretty, pretty_positive, pretty, pretty_N.
  destruct (decide _) as [E|_]; [discriminate E |]. rewrite undec_pretty. reflexivity.
Qed.

Lemma undec_from_append a s t : undec_from a (s +:+ t) = undec_from (undec_from a s) t.
Proof. revert a. induction s as [|c s IH]; intros a; cbn; [reflexivity | apply IH]. Qed.

Lemma undec_digits n v : 0 <= v < 10 ^ Z.of_nat n -> undec (dec_digits n v) = v.
Proof.
  unfold undec. revert v. induction n as [|n IH]; intros v Hv; [cbn in *; lia |]. cbn [dec_digits].
  rewrite Nat2Z.inj_succ, Z.pow_succ_r in Hv by lia. pose proof (Z.mod_pos_bound v 10 ltac:(lia)). pose proof (Z.div_mod v 10 ltac:(lia)).
  rewrite undec_from_append, IH, hex_digit_char by first [lia | split; [apply Z.div_pos; lia | apply Z.div_lt_upper_bound; lia]].
  cbn [undec_from]. rewrite unhex_char by lia. lia.
Qed.
