(* ===== verification/Instr.v ===== *)
(** Decoded instructions, the register file and immediate extraction:
    [components/rv32i/src/instr.rs], [regfile.rs] and [immediate.rs].

    The immediates are proved equal to the sign-extended bit fields of the RV32I formats,
    and the register file to be a map from the 32 registers with [x0] read as 0. *)
From stdpp Require Import base numbers list option.
From Stdlib Require Import ZArith Lia.
From S2P Require Import Prelude.

Local Open Scope Z_scope.

(** * Registers *)

(** [Reg(u8)]: an index below 32. *)
Definition Reg : Set := Z.

Definition reg_ok (r : Reg) : Prop := 0 <= r < 32.

#[export] Instance reg_ok_dec r : Decision (reg_ok r).
Proof. unfold reg_ok. apply _. Defined.

Module Reg.
Definition ZERO : Reg := 0.

Definition new (index : Z) : option Reg := if index <? 32 then Some index else None.

Definition field (word shift : Z) : Reg := Z.land (Z.shiftr word shift) 0x1f.
End Reg.

(** * Instructions *)

Inductive BranchOp : Set :=
| BranchOp_Eq | BranchOp_Ne | BranchOp_Lt | BranchOp_Ge | BranchOp_Ltu | BranchOp_Geu.

Inductive LoadOp : Set := LoadOp_B | LoadOp_H | LoadOp_W | LoadOp_Bu | LoadOp_Hu.

Inductive StoreOp : Set := StoreOp_B | StoreOp_H | StoreOp_W.

Inductive ImmOp : Set :=
| ImmOp_Addi | ImmOp_Slti | ImmOp_Sltiu | ImmOp_Xori | ImmOp_Ori | ImmOp_Andi.

Inductive ShiftOp : Set := ShiftOp_Sll | ShiftOp_Srl | ShiftOp_Sra.

Inductive RegOp : Set :=
| RegOp_Add | RegOp_Sub | RegOp_Sll | RegOp_Slt | RegOp_Sltu
| RegOp_Xor | RegOp_Srl | RegOp_Sra | RegOp_Or | RegOp_And.

Inductive Instr : Set :=
| Lui (rd : Reg) (imm : Z)
| Auipc (rd : Reg) (imm : Z)
| Jal (rd : Reg) (offset : Z)
| Jalr (rd rs1 : Reg) (offset : Z)
| Branch (op : BranchOp) (rs1 rs2 : Reg) (offset : Z)
| Load (op : LoadOp) (rd rs1 : Reg) (offset : Z)
| Store (op : StoreOp) (rs1 rs2 : Reg) (offset : Z)
| OpImm (op : ImmOp) (rd rs1 : Reg) (imm : Z)
| ShiftImm (op : ShiftOp) (rd rs1 : Reg) (shamt : Z)
| Op (op : RegOp) (rd rs1 rs2 : Reg)
| Fence
| Ecall
| Ebreak.

#[export] Instance BranchOp_eq_dec : EqDecision BranchOp.
Proof. solve_decision. Defined.
#[export] Instance LoadOp_eq_dec : EqDecision LoadOp.
Proof. solve_decision. Defined.
#[export] Instance StoreOp_eq_dec : EqDecision StoreOp.
Proof. solve_decision. Defined.
#[export] Instance ImmOp_eq_dec : EqDecision ImmOp.
Proof. solve_decision. Defined.
#[export] Instance ShiftOp_eq_dec : EqDecision ShiftOp.
Proof. solve_decision. Defined.
#[export] Instance RegOp_eq_dec : EqDecision RegOp.
Proof. solve_decision. Defined.
#[export] Instance Reg_eq_dec : EqDecision Reg := Z.eq_dec.
#[export] Instance Instr_eq_dec : EqDecision Instr.
Proof. solve_decision. Defined.

(** The ranges the field documentation promises for decoded instructions. *)
Definition instr_ok (i : Instr) : Prop :=
  match i with
  | Lui rd imm | Auipc rd imm => reg_ok rd /\ in_u 32 imm /\ imm mod 2 ^ 12 = 0
  | Jal rd offset => reg_ok rd /\ - 2 ^ 20 <= offset < 2 ^ 20 /\ offset mod 2 = 0
  | Jalr rd rs1 offset => reg_ok rd /\ reg_ok rs1 /\ - 2048 <= offset < 2048
  | Branch _ rs1 rs2 offset =>
      reg_ok rs1 /\ reg_ok rs2 /\ - 4096 <= offset < 4096 /\ offset mod 2 = 0
  | Load _ rd rs1 offset => reg_ok rd /\ reg_ok rs1 /\ - 2048 <= offset < 2048
  | Store _ rs1 rs2 offset => reg_ok rs1 /\ reg_ok rs2 /\ - 2048 <= offset < 2048
  | OpImm _ rd rs1 imm => reg_ok rd /\ reg_ok rs1 /\ - 2048 <= imm < 2048
  | ShiftImm _ rd rs1 shamt => reg_ok rd /\ reg_ok rs1 /\ 0 <= shamt < 32
  | Op _ rd rs1 rs2 => reg_ok rd /\ reg_ok rs1 /\ reg_ok rs2
  | Fence | Ecall | Ebreak => True
  end.

#[export] Instance instr_ok_dec i : Decision (instr_ok i).
Proof. destruct i; unfold instr_ok; apply _. Defined.

(** * The register file *)

Module RegisterFile.
(** [x : [u32; 31]], with [x[i]] holding register [x{i + 1}]. *)
Record t : Set := mk { x : list Z }.

#[export] Instance t_eq_dec : EqDecision t.
Proof. solve_decision. Defined.

Definition new : t := mk (replicate 31 0).

Definition read (rf : t) (r : Reg) : Z :=
  match checked_sub r 1 with
  | None => 0
  | Some i => default 0 (x rf !! Z.to_nat i)
  end.

Definition write (rf : t) (r : Reg) (value : Z) : t :=
  match checked_sub r 1 with
  | Some i => mk (<[Z.to_nat i := value]> (x rf))
  | None => rf
  end.

Definition ok (rf : t) : Prop := length (x rf) = 31%nat /\ Forall (in_u 32) (x rf).

#[export] Instance ok_dec rf : Decision (ok rf).
Proof. unfold ok. apply _. Defined.

Lemma new_ok : ok new.
Proof. split; [reflexivity |]. apply Forall_replicate. unfold in_u. lia. Qed.

Lemma write_ok rf r v : ok rf -> in_u 32 v -> ok (write rf r v).
Proof.
  intros [Hl Hf] Hv. unfold write. destruct (checked_sub r 1); [|split; assumption].
  split; cbn; [rewrite length_insert; assumption | apply Forall_insert; assumption].
Qed.

Lemma read_ok rf r : ok rf -> in_u 32 (read rf r).
Proof.
  intros [Hl Hf]. unfold read. destruct (checked_sub r 1) as [i|]; [|unfold in_u; lia].
  destruct (x rf !! Z.to_nat i) eqn:E; cbn; [|unfold in_u; lia].
  eapply Forall_lookup_1; eassumption.
Qed.

(** Reading after a write: the register file is a map with [x0] fixed at 0. *)
Lemma read_write rf r r' v :
  ok rf -> reg_ok r -> reg_ok r' ->
  read (write rf r v) r' =
  if r' =? 0 then 0 else if r' =? r then v else read rf r'.
Proof.
  intros [Hl _] Hr Hr'. unfold reg_ok in *. unfold read, write, checked_sub.
  destruct (Z.leb_spec 1 r').
  2:{ replace (r' =? 0) with true by (symmetry; apply Z.eqb_eq; lia). reflexivity. }
  replace (r' =? 0) with false by (symmetry; apply Z.eqb_neq; lia).
  destruct (Z.leb_spec 1 r); cbn.
  - destruct (Z.eqb_spec r' r) as [->|].
    + rewrite list_lookup_insert_eq by lia. reflexivity.
    + rewrite list_lookup_insert_ne by lia. reflexivity.
  - destruct (Z.eqb_spec r' r); [lia | reflexivity].
Qed.
End RegisterFile.

#[export] Existing Instance RegisterFile.t_eq_dec.
#[export] Existing Instance RegisterFile.ok_dec.

#[export] Hint Resolve RegisterFile.new_ok RegisterFile.write_ok RegisterFile.read_ok : ranges.

(** * Immediates *)

Definition imm_i (word : Z) : Z := Z.shiftr (as_i32 word) 20.

Definition imm_s (word : Z) : Z :=
  Z.lor (shl_i32 (Z.shiftr (as_i32 word) 25) 5) (Z.land (Z.shiftr word 7) 0x1f).

Definition imm_b (word : Z) : Z :=
  Z.lor (Z.lor (Z.lor
    (shl_i32 (Z.shiftr (as_i32 word) 31) 12)
    (shl32 (Z.land (Z.shiftr word 7) 0x1) 11))
    (shl32 (Z.land (Z.shiftr word 25) 0x3f) 5))
    (shl32 (Z.land (Z.shiftr word 8) 0xf) 1).

Definition imm_u (word : Z) : Z := Z.land word 0xfffff000.

Definition imm_j (word : Z) : Z :=
  Z.lor (Z.lor (Z.lor
    (shl_i32 (Z.shiftr (as_i32 word) 31) 20)
    (Z.land word 0x000ff000))
    (shl32 (Z.land (Z.shiftr word 20) 0x1) 11))
    (shl32 (Z.land (Z.shiftr word 21) 0x3ff) 1).

(** ** The formats of the RV32I manual *)

(** [word[hi:lo]]. *)
Definition field (word hi lo : Z) : Z := (word / 2 ^ lo) mod 2 ^ (hi - lo + 1).

(** The [n]-bit two's complement value of the bit pattern [v]. *)
Definition sext (n v : Z) : Z := if v <? 2 ^ (n - 1) then v else v - 2 ^ n.

Definition imm_i_fields (w : Z) : Z := sext 12 (field w 31 20).
Definition imm_s_fields (w : Z) : Z := sext 12 (field w 31 25 * 2 ^ 5 + field w 11 7).
Definition imm_b_fields (w : Z) : Z :=
  sext 13 (field w 31 31 * 2 ^ 12 + field w 7 7 * 2 ^ 11 + field w 30 25 * 2 ^ 5
           + field w 11 8 * 2).
Definition imm_u_fields (w : Z) : Z := field w 31 12 * 2 ^ 12.
Definition imm_j_fields (w : Z) : Z :=
  sext 21 (field w 31 31 * 2 ^ 20 + field w 19 12 * 2 ^ 12 + field w 20 20 * 2 ^ 11
           + field w 30 21 * 2).

(** Arithmetic shift right of a word read as signed. *)
Lemma sign_shift m w n :
  in_u 32 w -> 0 <= n <= 31 -> m = 2 ^ (32 - n) ->
  Z.shiftr (as_i32 w) n = w / 2 ^ n - m * (w / 2 ^ 31).
Proof.
  intros Hw Hn ->. rewrite as_i32_sign, Z.shiftr_div_pow2 by (assumption || lia).
  replace (2 ^ 32) with (2 ^ (32 - n) * 2 ^ n) by (rewrite <- Z.pow_add_r by lia; f_equal; lia).
  replace (w - 2 ^ (32 - n) * 2 ^ n * (w / 2 ^ 31))
    with (w + (- (2 ^ (32 - n) * (w / 2 ^ 31))) * 2 ^ n) by lia.
  rewrite Z.div_add by (apply Z.pow_nonzero; lia). lia.
Qed.

Ltac imm_arith :=
  unfold imm_i_fields, imm_s_fields, imm_b_fields, imm_u_fields, imm_j_fields, sext, field;
  repeat case_match; word_lia.

Lemma imm_i_spec w : in_u 32 w -> imm_i w = imm_i_fields w.
Proof. intros Hw. unfold imm_i. rewrite (sign_shift 4096) by (assumption || lia || reflexivity). imm_arith. Qed.

Lemma imm_s_spec w : in_u 32 w -> imm_s w = imm_s_fields w.
Proof.
  intros Hw. unfold imm_s. rewrite (sign_shift 128) by (assumption || lia || reflexivity). bits_to_arith.
  rewrite shl_i32_small by word_lia. rewrite (lor_low 5) by word_lia. imm_arith.
Qed.

Lemma imm_b_spec w : in_u 32 w -> imm_b w = imm_b_fields w.
Proof.
  intros Hw. unfold imm_b. rewrite (sign_shift 2) by (assumption || lia || reflexivity). bits_to_arith.
  rewrite shl_i32_small by word_lia. rewrite !shl32_small by word_lia.
  rewrite (lor_low 12 _ ((w / 2 ^ 7) mod 2 ^ 1 * 2 ^ 11)) by word_lia.
  rewrite (lor_low 11 _ ((w / 2 ^ 25) mod 2 ^ 6 * 2 ^ 5)) by word_lia.
  rewrite (lor_low 5) by word_lia. imm_arith.
Qed.

Lemma imm_u_spec w : in_u 32 w -> imm_u w = imm_u_fields w.
Proof.
  intros Hw. unfold imm_u. rewrite (land_field _ 20 12) by (reflexivity || lia). reflexivity.
Qed.

Lemma imm_j_spec w : in_u 32 w -> imm_j w = imm_j_fields w.
Proof.
  intros Hw. unfold imm_j. rewrite (sign_shift 2) by (assumption || lia || reflexivity).
  rewrite (land_field 0x000ff000 8 12) by (reflexivity || lia). bits_to_arith.
  rewrite shl_i32_small by word_lia. rewrite !shl32_small by word_lia.
  rewrite (lor_low 20 _ ((w / 2 ^ 12) mod 2 ^ 8 * 2 ^ 12)) by word_lia.
  rewrite (lor_low 12 _ ((w / 2 ^ 20) mod 2 ^ 1 * 2 ^ 11)) by word_lia.
  rewrite (lor_low 11) by word_lia. imm_arith.
Qed.
