(* ===== verification/Decode.v ===== *)
(** The RV32I decoder, [components/rv32i/src/decode.rs].

    The decoder is proved to accept exactly the encodings of the RV32I manual: [encode] is
    the manual's assembly of each instruction from its fields, [decode_encode] that the
    decoder inverts it, and [decode_complete] that whatever the decoder accepts is such an
    encoding, so that every other word is illegal. *)
From stdpp Require Import base numbers list option.
From Stdlib Require Import ZArith Lia.
From S2P Require Import Prelude Instr.

Local Open Scope Z_scope.

(** [Illegal { word }]. *)
Inductive Illegal : Set := mkIllegal (word : Z).

#[export] Instance Illegal_eq_dec : EqDecision Illegal.
Proof. solve_decision. Defined.

Definition LOAD : Z := 0x03.
Definition MISC_MEM : Z := 0x0f.
Definition OP_IMM : Z := 0x13.
Definition AUIPC : Z := 0x17.
Definition STORE : Z := 0x23.
Definition OP : Z := 0x33.
Definition LUI : Z := 0x37.
Definition BRANCH : Z := 0x63.
Definition JALR : Z := 0x67.
Definition JAL : Z := 0x6f.
Definition SYSTEM : Z := 0x73.

Definition ECALL : Z := 0x00000073.
Definition EBREAK : Z := 0x00100073.

Definition BASE : Z := 0x00.
Definition ALT : Z := 0x20.

Definition decode_branch (funct3 : Z) : option BranchOp :=
  if funct3 =? 0 then Some BranchOp_Eq
  else if funct3 =? 1 then Some BranchOp_Ne
  else if funct3 =? 4 then Some BranchOp_Lt
  else if funct3 =? 5 then Some BranchOp_Ge
  else if funct3 =? 6 then Some BranchOp_Ltu
  else if funct3 =? 7 then Some BranchOp_Geu
  else None.

Definition decode_load (funct3 : Z) : option LoadOp :=
  if funct3 =? 0 then Some LoadOp_B
  else if funct3 =? 1 then Some LoadOp_H
  else if funct3 =? 2 then Some LoadOp_W
  else if funct3 =? 4 then Some LoadOp_Bu
  else if funct3 =? 5 then Some LoadOp_Hu
  else None.

Definition decode_store (funct3 : Z) : option StoreOp :=
  if funct3 =? 0 then Some StoreOp_B
  else if funct3 =? 1 then Some StoreOp_H
  else if funct3 =? 2 then Some StoreOp_W
  else None.

Definition decode_imm_op (funct3 : Z) : option ImmOp :=
  if funct3 =? 0 then Some ImmOp_Addi
  else if funct3 =? 2 then Some ImmOp_Slti
  else if funct3 =? 3 then Some ImmOp_Sltiu
  else if funct3 =? 4 then Some ImmOp_Xori
  else if funct3 =? 6 then Some ImmOp_Ori
  else if funct3 =? 7 then Some ImmOp_Andi
  else None.

Definition decode_shift (funct3 funct7 : Z) : option ShiftOp :=
  if (funct3 =? 1) && (funct7 =? BASE) then Some ShiftOp_Sll
  else if (funct3 =? 5) && (funct7 =? BASE) then Some ShiftOp_Srl
  else if (funct3 =? 5) && (funct7 =? ALT) then Some ShiftOp_Sra
  else None.

Definition decode_op (funct7 funct3 : Z) : option RegOp :=
  if (funct7 =? BASE) && (funct3 =? 0) then Some RegOp_Add
  else if (funct7 =? ALT) && (funct3 =? 0) then Some RegOp_Sub
  else if (funct7 =? BASE) && (funct3 =? 1) then Some RegOp_Sll
  else if (funct7 =? BASE) && (funct3 =? 2) then Some RegOp_Slt
  else if (funct7 =? BASE) && (funct3 =? 3) then Some RegOp_Sltu
  else if (funct7 =? BASE) && (funct3 =? 4) then Some RegOp_Xor
  else if (funct7 =? BASE) && (funct3 =? 5) then Some RegOp_Srl
  else if (funct7 =? ALT) && (funct3 =? 5) then Some RegOp_Sra
  else if (funct7 =? BASE) && (funct3 =? 6) then Some RegOp_Or
  else if (funct7 =? BASE) && (funct3 =? 7) then Some RegOp_And
  else None.

(** [decode]: the arms of the opcode [match], in order. *)
Definition decode (word : Z) : result Illegal Instr :=
  let illegal := mkIllegal word in
  let rd := Reg.field word 7 in
  let rs1 := Reg.field word 15 in
  let rs2 := Reg.field word 20 in
  let funct3 := Z.land (Z.shiftr word 12) 0x7 in
  let funct7 := Z.shiftr word 25 in
  let opcode := Z.land word 0x7f in
  if opcode =? LUI then Ok (Lui rd (imm_u word))
  else if opcode =? AUIPC then Ok (Auipc rd (imm_u word))
  else if opcode =? JAL then Ok (Jal rd (imm_j word))
  else if (opcode =? JALR) && (funct3 =? 0) then Ok (Jalr rd rs1 (imm_i word))
  else if opcode =? BRANCH then
    op ← ok_or (decode_branch funct3) illegal; Ok (Branch op rs1 rs2 (imm_b word))
  else if opcode =? LOAD then
    op ← ok_or (decode_load funct3) illegal; Ok (Load op rd rs1 (imm_i word))
  else if opcode =? STORE then
    op ← ok_or (decode_store funct3) illegal; Ok (Store op rs1 rs2 (imm_s word))
  else if opcode =? OP_IMM then
    match decode_imm_op funct3 with
    | Some op => Ok (OpImm op rd rs1 (imm_i word))
    | None =>
        op ← ok_or (decode_shift funct3 funct7) illegal;
        Ok (ShiftImm op rd rs1 (Z.land (Z.shiftr word 20) 0x1f))
    end
  else if opcode =? OP then
    op ← ok_or (decode_op funct7 funct3) illegal; Ok (Op op rd rs1 rs2)
  else if (opcode =? MISC_MEM) && (funct3 =? 0) then Ok Fence
  else if (opcode =? SYSTEM) && (word =? ECALL) then Ok Ecall
  else if (opcode =? SYSTEM) && (word =? EBREAK) then Ok Ebreak
  else Err illegal.

(** * The encodings of the RV32I manual *)

(** A word from the six fields of the R format. *)
Definition pack (op rd f3 rs1 rs2 f7 : Z) : Z :=
  op + rd * 2 ^ 7 + f3 * 2 ^ 12 + rs1 * 2 ^ 15 + rs2 * 2 ^ 20 + f7 * 2 ^ 25.

Definition i_type op f3 rd rs1 imm : Z :=
  pack op rd f3 rs1 (field imm 4 0) (field imm 11 5).
Definition s_type op f3 rs1 rs2 imm : Z :=
  pack op (field imm 4 0) f3 rs1 rs2 (field imm 11 5).
Definition b_type op f3 rs1 rs2 imm : Z :=
  pack op (field imm 4 1 * 2 + field imm 11 11) f3 rs1 rs2
    (field imm 12 12 * 64 + field imm 10 5).
Definition u_type op rd imm : Z :=
  pack op rd (field imm 14 12) (field imm 19 15) (field imm 24 20) (field imm 31 25).
Definition j_type op rd imm : Z :=
  pack op rd (field imm 14 12) (field imm 19 15)
    (field imm 4 1 * 2 + field imm 11 11) (field imm 20 20 * 64 + field imm 10 5).

Definition branch_funct3 (op : BranchOp) : Z :=
  match op with
  | BranchOp_Eq => 0 | BranchOp_Ne => 1 | BranchOp_Lt => 4
  | BranchOp_Ge => 5 | BranchOp_Ltu => 6 | BranchOp_Geu => 7
  end.
Definition load_funct3 (op : LoadOp) : Z :=
  match op with
  | LoadOp_B => 0 | LoadOp_H => 1 | LoadOp_W => 2 | LoadOp_Bu => 4 | LoadOp_Hu => 5
  end.
Definition store_funct3 (op : StoreOp) : Z :=
  match op with StoreOp_B => 0 | StoreOp_H => 1 | StoreOp_W => 2 end.
Definition imm_funct3 (op : ImmOp) : Z :=
  match op with
  | ImmOp_Addi => 0 | ImmOp_Slti => 2 | ImmOp_Sltiu => 3
  | ImmOp_Xori => 4 | ImmOp_Ori => 6 | ImmOp_Andi => 7
  end.
Definition shift_functs (op : ShiftOp) : Z * Z :=
  match op with ShiftOp_Sll => (1, 0) | ShiftOp_Srl => (5, 0) | ShiftOp_Sra => (5, 32) end.
Definition op_functs (op : RegOp) : Z * Z :=
  match op with
  | RegOp_Add => (0, 0) | RegOp_Sub => (0, 32) | RegOp_Sll => (1, 0)
  | RegOp_Slt => (2, 0) | RegOp_Sltu => (3, 0) | RegOp_Xor => (4, 0)
  | RegOp_Srl => (5, 0) | RegOp_Sra => (5, 32) | RegOp_Or => (6, 0) | RegOp_And => (7, 0)
  end.

(** The encoding of each instruction; [FENCE] in its canonical form [fence 0, 0]. *)
Definition encode (i : Instr) : Z :=
  match i with
  | Lui rd imm => u_type 0x37 rd imm
  | Auipc rd imm => u_type 0x17 rd imm
  | Jal rd offset => j_type 0x6f rd offset
  | Jalr rd rs1 offset => i_type 0x67 0 rd rs1 offset
  | Branch op rs1 rs2 offset => b_type 0x63 (branch_funct3 op) rs1 rs2 offset
  | Load op rd rs1 offset => i_type 0x03 (load_funct3 op) rd rs1 offset
  | Store op rs1 rs2 offset => s_type 0x23 (store_funct3 op) rs1 rs2 offset
  | OpImm op rd rs1 imm => i_type 0x13 (imm_funct3 op) rd rs1 imm
  | ShiftImm op rd rs1 shamt =>
      pack 0x13 rd (fst (shift_functs op)) rs1 shamt (snd (shift_functs op))
  | Op op rd rs1 rs2 => pack 0x33 rd (fst (op_functs op)) rs1 rs2 (snd (op_functs op))
  | Fence => 0x0000000f
  | Ecall => 0x00000073
  | Ebreak => 0x00100073
  end.

(** ** Fields of a packed word *)

Definition fields_ok (op rd f3 rs1 rs2 f7 : Z) : Prop :=
  0 <= op < 128 /\ 0 <= rd < 32 /\ 0 <= f3 < 8 /\ 0 <= rs1 < 32 /\ 0 <= rs2 < 32 /\
  0 <= f7 < 128.

Section packed.
Context (op rd f3 rs1 rs2 f7 : Z) (Hok : fields_ok op rd f3 rs1 rs2 f7).
Let w := pack op rd f3 rs1 rs2 f7.

Local Ltac packed := unfold w, pack, fields_ok in *; word_lia.

Lemma pack_in_u : in_u 32 w.
Proof. packed. Qed.

Lemma pack_op : Z.land w 0x7f = op.
Proof. bits_to_arith. packed. Qed.
Lemma pack_rd : Reg.field w 7 = rd.
Proof. unfold Reg.field. bits_to_arith. packed. Qed.
Lemma pack_f3 : Z.land (Z.shiftr w 12) 0x7 = f3.
Proof. bits_to_arith. packed. Qed.
Lemma pack_rs1 : Reg.field w 15 = rs1.
Proof. unfold Reg.field. bits_to_arith. packed. Qed.
Lemma pack_rs2 : Reg.field w 20 = rs2.
Proof. unfold Reg.field. bits_to_arith. packed. Qed.
Lemma pack_f7 : Z.shiftr w 25 = f7.
Proof. bits_to_arith. packed. Qed.

Lemma pack_imm_i : imm_i w = sext 12 (f7 * 32 + rs2).
Proof.
  rewrite imm_i_spec by apply pack_in_u. unfold imm_i_fields, field. f_equal. packed.
Qed.
Lemma pack_imm_s : imm_s w = sext 12 (f7 * 32 + rd).
Proof.
  rewrite imm_s_spec by apply pack_in_u. unfold imm_s_fields, field. f_equal. packed.
Qed.
Lemma pack_imm_b :
  imm_b w = sext 13 (f7 / 64 * 2 ^ 12 + rd mod 2 * 2 ^ 11 + f7 mod 64 * 32 + rd / 2 * 2).
Proof.
  rewrite imm_b_spec by apply pack_in_u. unfold imm_b_fields, field. f_equal. packed.
Qed.
Lemma pack_imm_u : imm_u w = f3 * 2 ^ 12 + rs1 * 2 ^ 15 + rs2 * 2 ^ 20 + f7 * 2 ^ 25.
Proof. rewrite imm_u_spec by apply pack_in_u. unfold imm_u_fields, field. packed. Qed.
Lemma pack_imm_j :
  imm_j w = sext 21 (f7 / 64 * 2 ^ 20 + (f3 + rs1 * 8) * 2 ^ 12 + rs2 mod 2 * 2 ^ 11
                     + f7 mod 64 * 32 + rs2 / 2 * 2).
Proof.
  rewrite imm_j_spec by apply pack_in_u. unfold imm_j_fields, field. f_equal. packed.
Qed.
End packed.

(** ** The decoder inverts the encoder *)

Ltac field_lia := unfold fields_ok, reg_ok, field, sext in *; repeat case_match; word_lia.

(** [decode] of a packed word, field by field. *)
Definition decode_fields (op rd f3 rs1 rs2 f7 : Z) : result Illegal Instr :=
  let w := pack op rd f3 rs1 rs2 f7 in
  let illegal := mkIllegal w in
  let imm12 := sext 12 (f7 * 32 + rs2) in
  let imm20 := f3 * 2 ^ 12 + rs1 * 2 ^ 15 + rs2 * 2 ^ 20 + f7 * 2 ^ 25 in
  if op =? LUI then Ok (Lui rd imm20)
  else if op =? AUIPC then Ok (Auipc rd imm20)
  else if op =? JAL then
    Ok (Jal rd (sext 21 (f7 / 64 * 2 ^ 20 + (f3 + rs1 * 8) * 2 ^ 12 + rs2 mod 2 * 2 ^ 11
                         + f7 mod 64 * 32 + rs2 / 2 * 2)))
  else if (op =? JALR) && (f3 =? 0) then Ok (Jalr rd rs1 imm12)
  else if op =? BRANCH then
    o ← ok_or (decode_branch f3) illegal;
    Ok (Branch o rs1 rs2
          (sext 13 (f7 / 64 * 2 ^ 12 + rd mod 2 * 2 ^ 11 + f7 mod 64 * 32 + rd / 2 * 2)))
  else if op =? LOAD then
    o ← ok_or (decode_load f3) illegal; Ok (Load o rd rs1 imm12)
  else if op =? STORE then
    o ← ok_or (decode_store f3) illegal; Ok (Store o rs1 rs2 (sext 12 (f7 * 32 + rd)))
  else if op =? OP_IMM then
    match decode_imm_op f3 with
    | Some o => Ok (OpImm o rd rs1 imm12)
    | None => o ← ok_or (decode_shift f3 f7) illegal; Ok (ShiftImm o rd rs1 rs2)
    end
  else if op =? OP then o ← ok_or (decode_op f7 f3) illegal; Ok (Op o rd rs1 rs2)
  else if (op =? MISC_MEM) && (f3 =? 0) then Ok Fence
  else if (op =? SYSTEM) && (w =? ECALL) then Ok Ecall
  else if (op =? SYSTEM) && (w =? EBREAK) then Ok Ebreak
  else Err illegal.

Lemma decode_pack op rd f3 rs1 rs2 f7 :
  fields_ok op rd f3 rs1 rs2 f7 ->
  decode (pack op rd f3 rs1 rs2 f7) = decode_fields op rd f3 rs1 rs2 f7.
Proof.
  intros H. unfold decode, decode_fields.
  change (Z.land (Z.shiftr (pack op rd f3 rs1 rs2 f7) 20) 0x1f)
    with (Reg.field (pack op rd f3 rs1 rs2 f7) 20).
  rewrite (pack_op _ _ _ _ _ _ H), (pack_rd _ _ _ _ _ _ H),
    (pack_f3 _ _ _ _ _ _ H), (pack_rs1 _ _ _ _ _ _ H),
    (pack_rs2 _ _ _ _ _ _ H), (pack_f7 _ _ _ _ _ _ H),
    (pack_imm_i _ _ _ _ _ _ H), (pack_imm_s _ _ _ _ _ _ H),
    (pack_imm_b _ _ _ _ _ _ H), (pack_imm_u _ _ _ _ _ _ H),
    (pack_imm_j _ _ _ _ _ _ H). reflexivity.
Qed.

Lemma decode_encode_aux i : instr_ok i -> decode (encode i) = Ok i.
Proof.
  intros Hi. destruct i; cbn [instr_ok encode] in *; deconj; [.. | reflexivity | reflexivity | reflexivity];
    unfold i_type, s_type, b_type, u_type, j_type.
  all: try (destruct op; cbn [branch_funct3 load_funct3 store_funct3 imm_funct3 shift_functs op_functs fst snd]).
  all: rewrite decode_pack by field_lia; cbn -[sext field Z.mul Z.add Z.div Z.modulo].
  all: try reflexivity.
  all: f_equal; f_equal; field_lia.
Qed.

Lemma unpack w :
  in_u 32 w ->
  exists op rd f3 rs1 rs2 f7,
    fields_ok op rd f3 rs1 rs2 f7 /\ w = pack op rd f3 rs1 rs2 f7.
Proof.
  intros Hw. exists (field w 6 0), (field w 11 7), (field w 14 12), (field w 19 15),
    (field w 24 20), (field w 31 25).
  unfold fields_ok, pack, field. repeat split; word_lia.
Qed.

(** Splits a successful [decode_fields] into its arms. *)
Ltac decode_arms H :=
  repeat match type of H with
  | (if ?b then _ else _) = _ => destruct b eqn:?
  | (match ?o with Some _ => _ | None => _ end) = _ => destruct o eqn:?
  end; try discriminate H; try (apply bind_Ok_inv in H; destruct H as (? & ?%ok_or_Ok & H));
  injection H as <-.

Ltac funct_arms :=
  repeat match goal with
  | H : _ = Some ?o |- _ =>
      unfold decode_branch, decode_load, decode_store, decode_imm_op, decode_shift,
        decode_op, BASE, ALT in H;
      repeat case_hyp H; try discriminate H; injection H as <-
  end; unbool.

Lemma decode_arms_sound op rd f3 rs1 rs2 f7 i :
  fields_ok op rd f3 rs1 rs2 f7 ->
  decode_fields op rd f3 rs1 rs2 f7 = Ok i ->
  instr_ok i /\ (i = Fence \/ encode i = pack op rd f3 rs1 rs2 f7).
Proof.
  intros Hok H.
  unfold decode_fields, LUI, AUIPC, JAL, JALR, BRANCH, LOAD, STORE, OP_IMM, OP, MISC_MEM,
    SYSTEM, ECALL, EBREAK in H.
  decode_arms H; unbool; funct_arms;
    try (split; [exact I | right; symmetry; assumption]); try (split; [exact I | left; reflexivity]).
  all: split; [cbn [instr_ok]; unfold reg_ok; repeat split; try field_lia | right].
  all: unfold encode, i_type, s_type, b_type, u_type, j_type, branch_funct3, load_funct3,
    store_funct3, imm_funct3, shift_functs, op_functs, fst, snd.
  all: f_equal; field_lia.
Qed.

(** A [FENCE] word: opcode [MISC-MEM] and [funct3] 0, every other field free. *)
Definition fence_word (w : Z) : Prop := field w 6 0 = 0x0f /\ field w 14 12 = 0.

Lemma decode_sound w i :
  in_u 32 w -> decode w = Ok i -> instr_ok i /\ (i = Fence \/ encode i = w).
Proof.
  intros (op & rd & f3 & rs1 & rs2 & f7 & Hok & ->)%unpack. rewrite decode_pack by assumption.
  apply decode_arms_sound, Hok.
Qed.

Lemma decode_fence w : in_u 32 w -> decode w = Ok Fence <-> fence_word w.
Proof.
  intros (op & rd & f3 & rs1 & rs2 & f7 & Hok & ->)%unpack. rewrite decode_pack by assumption.
  replace (fence_word (pack op rd f3 rs1 rs2 f7)) with (op = 15 /\ f3 = 0).
  2:{ unfold fence_word. f_equal; f_equal; unfold field, pack, fields_ok in *; word_lia. }
  split.
  - intros H. unfold decode_fields in H.
    repeat match type of H with
    | (if ?b then _ else _) = _ => destruct b eqn:?
    | (match ?o with Some _ => _ | None => _ end) = _ => destruct o eqn:?
    end; try discriminate H; try (apply bind_Ok_inv in H; destruct H as (? & _ & H);
      discriminate H).
    unbool. split; assumption.
  - intros [-> ->]. reflexivity.
Qed.

Lemma decode_err_word w e : decode w = Err e -> e = mkIllegal w.
Proof.
  unfold decode. intros H.
  repeat (case_hyp H; try congruence).
  all: match type of H with mbind _ ?r = _ => destruct r eqn:E; cbn in H end;
    try congruence.
  all: unfold ok_or in E; case_hyp E; congruence.
Qed.

(** What the decoder owes each word: the instruction the manual encodes as that word, or
    [Illegal] with the word itself when there is none. *)
Definition decode_spec (w : Z) (r : result Illegal Instr) : Prop :=
  match r with
  | Ok Fence => fence_word w
  | Ok i => instr_ok i /\ encode i = w
  | Err (mkIllegal w') =>
      w' = w /\ ~ fence_word w /\ (forall i, instr_ok i -> encode i <> w)
  end.

(** C33: [decode] is exact on every [u32] word: it yields the instruction whose RV32I manual
    encoding is that word, with operands in their documented ranges ([FENCE] whatever its
    unused fields hold), and [Illegal] with the word itself precisely when the word is no
    encoding of the 40 instructions. *)
Theorem decode_exact w : in_u 32 w -> decode_spec w (decode w).
Proof.
  intros Hw. destruct (decode w) as [i|[w']] eqn:E.
  - destruct (decode_sound w i Hw E) as [Hi [->|He]]; [cbn; apply decode_fence; assumption |].
    destruct i; cbn; try (split; assumption). apply decode_fence; assumption.
  - cbn. apply decode_err_word in E as Ee. injection Ee as ->. split; [reflexivity |]. split.
    + intros Hf%decode_fence; [congruence | assumption].
    + intros i Hi Heq. apply decode_encode_aux in Hi. congruence.
Qed.

Lemma decode_exact_witness :
  in_u 32 0x00500093 /\ decode_spec 0x00500093 (Ok (OpImm ImmOp_Addi 1 0 5)).
Proof.
  split; [unfold in_u; lia |].
  change (Ok (OpImm ImmOp_Addi 1 0 5) : result Illegal Instr) with (decode 0x00500093).
  apply decode_exact. unfold in_u. lia.
Defined.

(** Encoding then decoding gives the instruction back, for all 40 instructions with
    operands in range. *)
Theorem decode_encode i : instr_ok i -> decode (encode i) = Ok i.
Proof. apply decode_encode_aux. Qed.

Lemma decode_encode_witness :
  instr_ok (Branch BranchOp_Ltu 5 6 (-4096)) /\
  decode (encode (Branch BranchOp_Ltu 5 6 (-4096))) = Ok (Branch BranchOp_Ltu 5 6 (-4096)).
Proof.
  assert (instr_ok (Branch BranchOp_Ltu 5 6 (-4096))) by (apply (bool_decide_unpack _); vm_compute; exact I).
  split; [assumption | apply decode_encode; assumption].
Defined.
