(* ===== verification/Execute.v ===== *)
(** Pure instruction semantics, [components/rv32i/src/execute.rs]: the ALU, control
    transfer and system families, each an effect applied when the instruction retires or
    the trap raised instead.

    The ALU is proved to compute the integer functions of the RV32I manual, and control
    transfer to retire at an aligned target or trap without any effect. *)
From stdpp Require Import base numbers list option strings.
From Stdlib Require Import ZArith Lia.
From S2P Require Import Prelude Instr.

Local Open Scope Z_scope.

Record RegWrite : Set := mkRegWrite { rw_rd : Reg; rw_value : Z }.

Record PendingEffect : Set := mkEffect { reg_write : option RegWrite; next_pc : Z }.

Inductive TrapCause : Set :=
| InstructionAddressMisaligned
| LoadAddressMisaligned
| LoadAccessFault
| StoreAddressMisaligned
| StoreAccessFault
| InstructionAccessFault
| IllegalInstruction
| Breakpoint
| EnvironmentCall
| EnvironmentCallFromU
| EnvironmentCallFromS
| InstructionPageFault
| LoadPageFault
| StorePageFault.

Record PendingTrap : Set := mkTrap { cause : TrapCause; tval : Z }.

Inductive ExecOutcome : Set :=
| Exec_Effect (e : PendingEffect)
| Exec_Trap (t : PendingTrap).

#[export] Instance RegWrite_eq_dec : EqDecision RegWrite.
Proof. solve_decision. Defined.
#[export] Instance PendingEffect_eq_dec : EqDecision PendingEffect.
Proof. solve_decision. Defined.
#[export] Instance TrapCause_eq_dec : EqDecision TrapCause.
Proof. solve_decision. Defined.
#[export] Instance PendingTrap_eq_dec : EqDecision PendingTrap.
Proof. solve_decision. Defined.
#[export] Instance ExecOutcome_eq_dec : EqDecision ExecOutcome.
Proof. solve_decision. Defined.

Module TrapCause.
Definition name (c : TrapCause) : string :=
  match c with
  | InstructionAddressMisaligned => "InstructionAddressMisaligned"
  | LoadAddressMisaligned => "LoadAddressMisaligned"
  | LoadAccessFault => "LoadAccessFault"
  | StoreAddressMisaligned => "StoreAddressMisaligned"
  | StoreAccessFault => "StoreAccessFault"
  | InstructionAccessFault => "InstructionAccessFault"
  | IllegalInstruction => "IllegalInstruction"
  | Breakpoint => "Breakpoint"
  | EnvironmentCall => "EnvironmentCall"
  | EnvironmentCallFromU => "EnvironmentCallFromU"
  | EnvironmentCallFromS => "EnvironmentCallFromS"
  | InstructionPageFault => "InstructionPageFault"
  | LoadPageFault => "LoadPageFault"
  | StorePageFault => "StorePageFault"
  end.

Definition m3_name (c : TrapCause) : string :=
  match c with
  | EnvironmentCall => "EnvironmentCallFromM"
  | other => name other
  end.

Definition code (c : TrapCause) : Z :=
  match c with
  | InstructionAddressMisaligned => 0
  | InstructionAccessFault => 1
  | IllegalInstruction => 2
  | Breakpoint => 3
  | LoadAddressMisaligned => 4
  | LoadAccessFault => 5
  | StoreAddressMisaligned => 6
  | StoreAccessFault => 7
  | EnvironmentCallFromU => 8
  | EnvironmentCallFromS => 9
  | EnvironmentCall => 11
  | InstructionPageFault => 12
  | LoadPageFault => 13
  | StorePageFault => 15
  end.
End TrapCause.

(** * Operations *)

Inductive NotAlu : Set := mkNotAlu.
Inductive NotControl : Set := mkNotControl.
Inductive NotSystem : Set := mkNotSystem.

(** [u32::from(bool)]. *)
Definition u32_from (b : bool) : Z := if b then 1 else 0.

Definition taken (op : BranchOp) (a b : Z) : bool :=
  match op with
  | BranchOp_Eq => a =? b
  | BranchOp_Ne => negb (a =? b)
  | BranchOp_Lt => as_i32 a <? as_i32 b
  | BranchOp_Ge => as_i32 b <=? as_i32 a
  | BranchOp_Ltu => a <? b
  | BranchOp_Geu => b <=? a
  end.

Definition shift (op : ShiftOp) (value amount : Z) : Z :=
  let amount := Z.land amount 0x1f in
  match op with
  | ShiftOp_Sll => shl32 value amount
  | ShiftOp_Srl => Z.shiftr value amount
  | ShiftOp_Sra => as_u32 (Z.shiftr (as_i32 value) amount)
  end.

Definition op_imm (op : ImmOp) (a imm : Z) : Z :=
  let b := as_u32 imm in
  match op with
  | ImmOp_Addi => add32 a b
  | ImmOp_Slti => u32_from (as_i32 a <? imm)
  | ImmOp_Sltiu => u32_from (a <? b)
  | ImmOp_Xori => Z.lxor a b
  | ImmOp_Ori => Z.lor a b
  | ImmOp_Andi => Z.land a b
  end.

Definition op_reg (op : RegOp) (a b : Z) : Z :=
  match op with
  | RegOp_Add => add32 a b
  | RegOp_Sub => sub32 a b
  | RegOp_Sll => shift ShiftOp_Sll a b
  | RegOp_Slt => u32_from (as_i32 a <? as_i32 b)
  | RegOp_Sltu => u32_from (a <? b)
  | RegOp_Xor => Z.lxor a b
  | RegOp_Srl => shift ShiftOp_Srl a b
  | RegOp_Sra => shift ShiftOp_Sra a b
  | RegOp_Or => Z.lor a b
  | RegOp_And => Z.land a b
  end.

Definition execute_alu (instr : Instr) (pc rs1 rs2 : Z) : result NotAlu PendingEffect :=
  '(rd, value) ←
    match instr with
    | Lui rd imm => Ok (rd, imm)
    | Auipc rd imm => Ok (rd, add32 pc imm)
    | OpImm op rd _ imm => Ok (rd, op_imm op rs1 imm)
    | ShiftImm op rd _ shamt => Ok (rd, shift op rs1 shamt)
    | Op op rd _ _ => Ok (rd, op_reg op rs1 rs2)
    | Jal _ _ | Jalr _ _ _ | Branch _ _ _ _ | Load _ _ _ _ | Store _ _ _ _
    | Fence | Ecall | Ebreak => Err mkNotAlu
    end;
  Ok (mkEffect (Some (mkRegWrite rd value)) (add32 pc 4)).

(** The retirement or trap once the target of a control transfer is known. *)
Definition control_outcome (write : option RegWrite) (target : Z) : ExecOutcome :=
  if negb (Z.land target 0x3 =? 0)
  then Exec_Trap (mkTrap InstructionAddressMisaligned target)
  else Exec_Effect (mkEffect write target).

Definition execute_control (instr : Instr) (pc rs1 rs2 : Z) : result NotControl ExecOutcome :=
  let link rd := Some (mkRegWrite rd (add32 pc 4)) in
  match instr with
  | Branch op _ _ offset =>
      if negb (taken op rs1 rs2) then Ok (Exec_Effect (mkEffect None (add32 pc 4)))
      else Ok (control_outcome None (add32 pc (as_u32 offset)))
  | Jal rd offset => Ok (control_outcome (link rd) (add32 pc (as_u32 offset)))
  | Jalr rd _ offset =>
      Ok (control_outcome (link rd) (Z.land (add32 rs1 (as_u32 offset)) (not32 1)))
  | Lui _ _ | Auipc _ _ | Load _ _ _ _ | Store _ _ _ _ | OpImm _ _ _ _
  | ShiftImm _ _ _ _ | Op _ _ _ _ | Fence | Ecall | Ebreak => Err mkNotControl
  end.

Definition execute_system (instr : Instr) (pc : Z) : result NotSystem ExecOutcome :=
  match instr with
  | Fence => Ok (Exec_Effect (mkEffect None (add32 pc 4)))
  | Ecall => Ok (Exec_Trap (mkTrap EnvironmentCall 0))
  | Ebreak => Ok (Exec_Trap (mkTrap Breakpoint pc))
  | Lui _ _ | Auipc _ _ | Jal _ _ | Jalr _ _ _ | Branch _ _ _ _ | Load _ _ _ _
  | Store _ _ _ _ | OpImm _ _ _ _ | ShiftImm _ _ _ _ | Op _ _ _ _ => Err mkNotSystem
  end.

(** * Correctness of the ALU *)

(** The destination and value the manual gives each ALU instruction, on integers: signed
    operands are read as 32-bit two's complement, shifts multiply and divide by powers of
    two, and results are taken modulo [2^32]. *)
Definition bool_value (b : bool) : Z := if b then 1 else 0.

Definition shift_value (op : ShiftOp) (a n : Z) : Z :=
  match op with
  | ShiftOp_Sll => (a * 2 ^ n) mod 2 ^ 32
  | ShiftOp_Srl => a / 2 ^ n
  | ShiftOp_Sra => (sext 32 a / 2 ^ n) mod 2 ^ 32
  end.

Definition alu_value (i : Instr) (pc a b : Z) : option (Reg * Z) :=
  match i with
  | Lui rd imm => Some (rd, imm)
  | Auipc rd imm => Some (rd, (pc + imm) mod 2 ^ 32)
  | OpImm op rd _ imm =>
      Some (rd,
        match op with
        | ImmOp_Addi => (a + imm) mod 2 ^ 32
        | ImmOp_Slti => bool_value (sext 32 a <? imm)
        | ImmOp_Sltiu => bool_value (a <? imm mod 2 ^ 32)
        | ImmOp_Xori => Z.lxor a (imm mod 2 ^ 32)
        | ImmOp_Ori => Z.lor a (imm mod 2 ^ 32)
        | ImmOp_Andi => Z.land a (imm mod 2 ^ 32)
        end)
  | ShiftImm op rd _ shamt => Some (rd, shift_value op a shamt)
  | Op op rd _ _ =>
      Some (rd,
        match op with
        | RegOp_Add => (a + b) mod 2 ^ 32
        | RegOp_Sub => (a - b) mod 2 ^ 32
        | RegOp_Sll => shift_value ShiftOp_Sll a (b mod 32)
        | RegOp_Slt => bool_value (sext 32 a <? sext 32 b)
        | RegOp_Sltu => bool_value (a <? b)
        | RegOp_Xor => Z.lxor a b
        | RegOp_Srl => shift_value ShiftOp_Srl a (b mod 32)
        | RegOp_Sra => shift_value ShiftOp_Sra a (b mod 32)
        | RegOp_Or => Z.lor a b
        | RegOp_And => Z.land a b
        end)
  | _ => None
  end.

Lemma shift_correct op a n : in_u 32 a -> shift op a n = shift_value op a (n mod 32).
Proof.
  intros Ha. unfold shift. rewrite (land_ones_mod 5 n 31) by (lia || reflexivity).
  change (2 ^ 5) with 32. pose proof (Z.mod_pos_bound n 32 ltac:(lia)).
  destruct op; unfold shift_value, shl32, as_u32, wrap;
    rewrite ?Z.shiftl_mul_pow2, ?Z.shiftr_div_pow2 by lia; reflexivity.
Qed.

Lemma shift_value_in_u op a n : in_u 32 a -> 0 <= n -> in_u 32 (shift_value op a n).
Proof.
  intros Ha Hn. destruct op; cbn [shift_value].
  - apply (wrap_in_u 32). lia.
  - rewrite <- Z.shiftr_div_pow2 by assumption. apply shiftr_in_u_same; (lia || assumption).
  - apply (wrap_in_u 32). lia.
Qed.

Lemma bool_value_in_u b : in_u 32 (bool_value b).
Proof. destruct b; unfold in_u; cbn; lia. Qed.

#[export] Hint Resolve shift_value_in_u bool_value_in_u : ranges.

Lemma alu_value_in_u i pc a b rd v :
  instr_ok i -> in_u 32 a -> in_u 32 b -> alu_value i pc a b = Some (rd, v) ->
  reg_ok rd /\ in_u 32 v.
Proof.
  intros Hi Ha Hb H. pose proof (Z.mod_pos_bound b 32 ltac:(lia)).
  destruct i; cbn -[shift_value bool_value] in H, Hi; try discriminate H; injection H as <- <-; deconj;
    (split; [assumption |]); try destruct op; auto 7 with ranges.
  exact (shift_value_in_u ShiftOp_Srl a _ Ha H).
Qed.

Lemma execute_alu_value i pc a b :
  instr_ok i -> in_u 32 a -> in_u 32 b ->
  execute_alu i pc a b =
  match alu_value i pc a b with
  | Some (rd, v) => Ok (mkEffect (Some (mkRegWrite rd v)) ((pc + 4) mod 2 ^ 32))
  | None => Err mkNotAlu
  end.
Proof.
  intros Hi Ha Hb. destruct i; try reflexivity; cbn [instr_ok] in Hi; deconj;
    unfold execute_alu, alu_value, op_imm, op_reg; cbn [mbind result_bind].
  - destruct op; try reflexivity. unfold add32, as_u32, wrap.
    rewrite Zplus_mod_idemp_r. reflexivity.
  - rewrite shift_correct, (Z.mod_small shamt) by (assumption || lia). reflexivity.
  - destruct op; rewrite ?shift_correct by assumption; reflexivity.
Qed.

(** Every ALU instruction ([LUI], [AUIPC], the [OP-IMM] and [OP] groups) computes the
    integer function the manual gives it, into its own [rd] and modulo [2^32], and moves to
    [pc + 4]; [execute_alu] refuses every other instruction. *)
Theorem execute_alu_correct i pc a b :
  instr_ok i -> in_u 32 a -> in_u 32 b ->
  execute_alu i pc a b =
  match alu_value i pc a b with
  | Some (rd, v) => Ok (mkEffect (Some (mkRegWrite rd v)) ((pc + 4) mod 2 ^ 32))
  | None => Err mkNotAlu
  end.
Proof. apply execute_alu_value. Qed.

Lemma execute_alu_correct_witness :
  execute_alu (Op RegOp_Sra 3 1 2) 0x1000 0x80000000 33 =
  Ok (mkEffect (Some (mkRegWrite 3 0xC0000000)) 0x1004).
Proof.
  rewrite execute_alu_correct; [vm_compute; reflexivity | ..];
    apply (bool_decide_unpack _); vm_compute; exact I.
Defined.

(** * Correctness of control transfer *)

(** Where a control-transfer instruction goes, and the register it links; [None] for a
    branch that is not taken. *)
Definition branch_taken (op : BranchOp) (a b : Z) : bool :=
  match op with
  | BranchOp_Eq => a =? b
  | BranchOp_Ne => negb (a =? b)
  | BranchOp_Lt => sext 32 a <? sext 32 b
  | BranchOp_Ge => negb (sext 32 a <? sext 32 b)
  | BranchOp_Ltu => a <? b
  | BranchOp_Geu => negb (a <? b)
  end.

Definition control_target (i : Instr) (pc a b : Z) : option (option (option Reg * Z)) :=
  match i with
  | Branch op _ _ offset =>
      Some (if branch_taken op a b then Some (None, (pc + offset) mod 2 ^ 32) else None)
  | Jal rd offset => Some (Some (Some rd, (pc + offset) mod 2 ^ 32))
  | Jalr rd _ offset =>
      let t := (a + offset) mod 2 ^ 32 in Some (Some (Some rd, t - t mod 2))
  | _ => None
  end.

Lemma taken_correct op a b : taken op a b = branch_taken op a b.
Proof.
  destruct op; cbn; try reflexivity; unfold sext; cbn; rewrite Z.leb_antisym; reflexivity.
Qed.

Lemma add32_as_u32 a b : add32 a (as_u32 b) = (a + b) mod 2 ^ 32.
Proof. unfold add32, as_u32, wrap. apply Zplus_mod_idemp_r. Qed.

Lemma execute_control_target i pc a b :
  execute_control i pc a b =
  match control_target i pc a b with
  | None => Err mkNotControl
  | Some None => Ok (Exec_Effect (mkEffect None ((pc + 4) mod 2 ^ 32)))
  | Some (Some (link, target)) =>
      if target mod 4 =? 0
      then Ok (Exec_Effect
                 (mkEffect (rd ← link; Some (mkRegWrite rd ((pc + 4) mod 2 ^ 32))) target))
      else Ok (Exec_Trap (mkTrap InstructionAddressMisaligned target))
  end.
Proof.
  destruct i; try reflexivity; unfold execute_control, control_target, control_outcome;
    rewrite ?taken_correct, ?land3_mod, ?add32_as_u32.
  - destruct (_ =? 0); reflexivity.
  - replace (Z.land ((a + offset) mod 2 ^ 32) (not32 1))
      with ((a + offset) mod 2 ^ 32 - ((a + offset) mod 2 ^ 32) mod 2)
      by (symmetry; apply (land_not32_low 1); [lia | apply (wrap_in_u 32); lia]).
    cbn zeta. destruct (_ =? 0); reflexivity.
  - destruct (branch_taken op a b); [| reflexivity]. cbn [negb].
    destruct (_ =? 0); reflexivity.
Qed.

(** A branch not taken retires at [pc + 4]; a taken branch, [JAL] and [JALR] go to
    [pc + offset] and [(rs1 + offset)] with bit 0 cleared, modulo [2^32]: an aligned target
    retires there with [pc + 4] linked, and any other target traps with the target as
    [tval] and no effect. *)
Theorem execute_control_correct i pc a b :
  execute_control i pc a b =
  match control_target i pc a b with
  | None => Err mkNotControl
  | Some None => Ok (Exec_Effect (mkEffect None ((pc + 4) mod 2 ^ 32)))
  | Some (Some (link, target)) =>
      if target mod 4 =? 0
      then Ok (Exec_Effect
                 (mkEffect (rd ← link; Some (mkRegWrite rd ((pc + 4) mod 2 ^ 32))) target))
      else Ok (Exec_Trap (mkTrap InstructionAddressMisaligned target))
  end.
Proof. apply execute_control_target. Qed.
