(* ===== verification/Memory.v ===== *)
(** Loads and stores, [components/rv32i/src/memory.rs]: preparation of the request and
    completion with the response.

    Proved: the effective address and alignment of every access, that completion is total
    and classifies every response, and that what a store sends is what a load of the same
    width reads back. *)
From stdpp Require Import base numbers list option.
From Stdlib Require Import ZArith Lia.
From S2P Require Import Prelude Contracts Instr Execute.

Local Open Scope Z_scope.

Inductive MemWidth : Set := MemWidth_Byte | MemWidth_Half | MemWidth_Word.

Module MemWidth.
Definition bytes (w : MemWidth) : Z :=
  match w with MemWidth_Byte => 1 | MemWidth_Half => 2 | MemWidth_Word => 4 end.
End MemWidth.

Inductive LoadExtension : Set := Signed | Unsigned.

Record LoadPlan : Set := mkLoadPlan {
  lp_rd : Reg; lp_addr : Z; lp_width : MemWidth; lp_extension : LoadExtension; lp_next_pc : Z }.

Record StorePlan : Set := mkStorePlan { sp_addr : Z; sp_data : list Z; sp_next_pc : Z }.

Inductive MemoryPlan : Set := Plan_Load (p : LoadPlan) | Plan_Store (p : StorePlan).

Inductive MemoryPrep : Set := Prep_Request (plan : MemoryPlan) | Prep_Trap (t : PendingTrap).

Inductive NotMemory : Set := mkNotMemory.

Inductive MemoryCompletionError : Set := DataLength (expected actual : Z) | ResponseKind.

#[export] Instance MemWidth_eq_dec : EqDecision MemWidth.
Proof. solve_decision. Defined.
#[export] Instance LoadExtension_eq_dec : EqDecision LoadExtension.
Proof. solve_decision. Defined.
#[export] Instance LoadPlan_eq_dec : EqDecision LoadPlan.
Proof. solve_decision. Defined.
#[export] Instance StorePlan_eq_dec : EqDecision StorePlan.
Proof. solve_decision. Defined.
#[export] Instance MemoryPlan_eq_dec : EqDecision MemoryPlan.
Proof. solve_decision. Defined.

(** [b as i8] and [i16::from_le_bytes]. *)
Definition as_i8 (b : Z) : Z := if b <? 2 ^ 7 then b else b - 2 ^ 8.
Definition i16_from_le (b0 b1 : Z) : Z :=
  let v := from_le [b0; b1] in if v <? 2 ^ 15 then v else v - 2 ^ 16.

Definition load_shape (op : LoadOp) : MemWidth * LoadExtension :=
  match op with
  | LoadOp_B => (MemWidth_Byte, Signed)
  | LoadOp_Bu => (MemWidth_Byte, Unsigned)
  | LoadOp_H => (MemWidth_Half, Signed)
  | LoadOp_Hu => (MemWidth_Half, Unsigned)
  | LoadOp_W => (MemWidth_Word, Signed)
  end.

Definition store_width (op : StoreOp) : MemWidth :=
  match op with
  | StoreOp_B => MemWidth_Byte
  | StoreOp_H => MemWidth_Half
  | StoreOp_W => MemWidth_Word
  end.

Definition prepare_memory (instr : Instr) (pc rs1 rs2 : Z) : result NotMemory MemoryPrep :=
  let next_pc := add32 pc 4 in
  '(addr, width, misaligned, plan) ←
    match instr with
    | Load op rd _ offset =>
        let addr := add32 rs1 (as_u32 offset) in
        let '(width, extension) := load_shape op in
        Ok (addr, width, LoadAddressMisaligned,
            Plan_Load (mkLoadPlan rd addr width extension next_pc))
    | Store op _ _ offset =>
        let addr := add32 rs1 (as_u32 offset) in
        let bytes := to_le 4 rs2 in
        let width := store_width op in
        Ok (addr, width, StoreAddressMisaligned,
            Plan_Store (mkStorePlan addr (take (Z.to_nat (MemWidth.bytes width)) bytes) next_pc))
    | Lui _ _ | Auipc _ _ | Jal _ _ | Jalr _ _ _ | Branch _ _ _ _ | OpImm _ _ _ _
    | ShiftImm _ _ _ _ | Op _ _ _ _ | Fence | Ecall | Ebreak => Err mkNotMemory
    end;
  Ok (if negb (Z.land addr (MemWidth.bytes width - 1) =? 0)
      then Prep_Trap (mkTrap misaligned addr)
      else Prep_Request plan).

Definition complete_load (plan : LoadPlan) (outcome : ReadOutcome) :
    result MemoryCompletionError ExecOutcome :=
  match outcome with
  | ReadOutcome_Fault AccessFault => Ok (Exec_Trap (mkTrap LoadAccessFault (lp_addr plan)))
  | ReadOutcome_Data data =>
      value ←
        match lp_width plan, lp_extension plan, data with
        | MemWidth_Byte, Signed, [b] => Ok (as_u32 (as_i8 b))
        | MemWidth_Byte, Unsigned, [b] => Ok b
        | MemWidth_Half, Signed, [b0; b1] => Ok (as_u32 (i16_from_le b0 b1))
        | MemWidth_Half, Unsigned, [b0; b1] => Ok (from_le [b0; b1])
        | MemWidth_Word, _, [b0; b1; b2; b3] => Ok (from_le [b0; b1; b2; b3])
        | _, _, _ =>
            Err (DataLength (MemWidth.bytes (lp_width plan)) (Z.of_nat (length data)))
        end;
      Ok (Exec_Effect (mkEffect (Some (mkRegWrite (lp_rd plan) value)) (lp_next_pc plan)))
  end.

Definition complete_store (plan : StorePlan) (outcome : WriteOutcome) : ExecOutcome :=
  match outcome with
  | WriteOutcome_Done => Exec_Effect (mkEffect None (sp_next_pc plan))
  | WriteOutcome_Fault AccessFault => Exec_Trap (mkTrap StoreAccessFault (sp_addr plan))
  end.

Definition complete_memory (plan : MemoryPlan) (response : MemMsg) :
    result MemoryCompletionError ExecOutcome :=
  match plan, response with
  | Plan_Load plan, ReadResp _ outcome => complete_load plan outcome
  | Plan_Store plan, WriteResp _ outcome => Ok (complete_store plan outcome)
  | Plan_Load _, (ReadReq _ _ _ | WriteReq _ _ _ | WriteResp _ _)
  | Plan_Store _, (ReadReq _ _ _ | WriteReq _ _ _ | ReadResp _ _) => Err ResponseKind
  end.

(** * Correctness *)

(** What a load leaves in its register when memory holds [bs] at its address. *)
Definition load_value (op : LoadOp) (bs : list Z) : Z :=
  match op with
  | LoadOp_B => sext 8 (from_le bs) mod 2 ^ 32
  | LoadOp_H => sext 16 (from_le bs) mod 2 ^ 32
  | LoadOp_W | LoadOp_Bu | LoadOp_Hu => from_le bs
  end.

Definition load_bytes (op : LoadOp) : Z := MemWidth.bytes (fst (load_shape op)).

(** The plan [prepare_memory] makes for a load or store whose address is aligned. *)
Definition load_plan (op : LoadOp) (rd : Reg) (addr pc : Z) : LoadPlan :=
  mkLoadPlan rd addr (fst (load_shape op)) (snd (load_shape op)) ((pc + 4) mod 2 ^ 32).
Definition store_plan (op : StoreOp) (addr pc v : Z) : StorePlan :=
  mkStorePlan addr (take (Z.to_nat (MemWidth.bytes (store_width op))) (to_le 4 v))
    ((pc + 4) mod 2 ^ 32).

Lemma width_mask w a : Z.land a (MemWidth.bytes w - 1) = a mod MemWidth.bytes w.
Proof.
  destruct w; cbn [MemWidth.bytes].
  - rewrite Z.land_0_r, Z.mod_1_r. reflexivity.
  - apply (land_ones_mod 1); [lia | reflexivity].
  - apply (land_ones_mod 2); [lia | reflexivity].
Qed.

Lemma prepare_memory_plan i pc a b :
  prepare_memory i pc a b =
  match i with
  | Load op rd _ offset =>
      let addr := (a + offset) mod 2 ^ 32 in
      Ok (if addr mod load_bytes op =? 0 then Prep_Request (Plan_Load (load_plan op rd addr pc))
          else Prep_Trap (mkTrap LoadAddressMisaligned addr))
  | Store op _ _ offset =>
      let addr := (a + offset) mod 2 ^ 32 in
      Ok (if addr mod MemWidth.bytes (store_width op) =? 0
          then Prep_Request (Plan_Store (store_plan op addr pc b))
          else Prep_Trap (mkTrap StoreAddressMisaligned addr))
  | _ => Err mkNotMemory
  end.
Proof.
  destruct i; try reflexivity; unfold prepare_memory, load_bytes, load_plan; cbn zeta;
    rewrite add32_as_u32.
  - destruct (load_shape op) as [w ext]. cbn [mbind result_bind fst snd].
    rewrite width_mask. destruct (_ =? 0); reflexivity.
  - cbn [mbind result_bind]. rewrite width_mask. destruct (_ =? 0); reflexivity.
Qed.

(** A load or store accesses [rs1 + offset] modulo [2^32]; if that is a multiple of the
    access width the planned request carries exactly that address, the destination and the
    low bytes of [rs2], and otherwise the instruction traps with the address as [tval] and
    plans nothing. *)
Theorem prepare_memory_correct i pc a b :
  prepare_memory i pc a b =
  match i with
  | Load op rd _ offset =>
      let addr := (a + offset) mod 2 ^ 32 in
      Ok (if addr mod load_bytes op =? 0 then Prep_Request (Plan_Load (load_plan op rd addr pc))
          else Prep_Trap (mkTrap LoadAddressMisaligned addr))
  | Store op _ _ offset =>
      let addr := (a + offset) mod 2 ^ 32 in
      Ok (if addr mod MemWidth.bytes (store_width op) =? 0
          then Prep_Request (Plan_Store (store_plan op addr pc b))
          else Prep_Trap (mkTrap StoreAddressMisaligned addr))
  | _ => Err mkNotMemory
  end.
Proof. apply prepare_memory_plan. Qed.

(** Every answer to a load completes it: data of the planned width retires it with the
    sign- or zero-extended little-endian value, data of another length is a model error,
    and a fault traps. *)
Lemma complete_load_spec op rd addr pc o :
  complete_load (load_plan op rd addr pc) o =
  match o with
  | ReadOutcome_Fault _ => Ok (Exec_Trap (mkTrap LoadAccessFault addr))
  | ReadOutcome_Data data =>
      if Z.of_nat (length data) =? load_bytes op
      then Ok (Exec_Effect (mkEffect (Some (mkRegWrite rd (load_value op data)))
                              ((pc + 4) mod 2 ^ 32)))
      else Err (DataLength (load_bytes op) (Z.of_nat (length data)))
  end.
Proof.
  destruct o as [data|[]]; [|reflexivity]. unfold complete_load, load_plan, load_bytes.
  cbn [lp_width lp_extension lp_rd lp_next_pc].
  destruct data as [|b0 [|b1 [|b2 [|b3 [|b4 data]]]]]; destruct op; try reflexivity.
  all: try (unfold load_value, as_i8, i16_from_le, sext; cbn [from_le];
    rewrite ?Z.mul_0_r, ?Z.add_0_r; reflexivity).
  all: cbn [load_shape fst snd MemWidth.bytes mbind result_bind];
    match goal with |- _ = if ?b then _ else _ =>
      replace b with false by (symmetry; apply Z.eqb_neq; cbn [length]; lia) end; reflexivity.
Qed.

Lemma store_data_length op addr pc v :
  Z.of_nat (length (sp_data (store_plan op addr pc v))) = MemWidth.bytes (store_width op).
Proof. destruct op; reflexivity. Qed.

Lemma store_data_value op addr pc v :
  from_le (sp_data (store_plan op addr pc v)) =
  v mod 2 ^ (8 * MemWidth.bytes (store_width op)).
Proof.
  replace (sp_data (store_plan op addr pc v))
    with (to_le (Z.to_nat (MemWidth.bytes (store_width op))) v) by (destruct op; reflexivity).
  rewrite from_to_le. destruct op; reflexivity.
Qed.

(** The bytes a store sends are the ones a load of the same width assembles: answering
    the load with the store's data retires it with the low 1, 2 or 4 bytes of the stored
    register, sign- or zero-extended as the load says, in [rd]. *)
Theorem store_load_roundtrip sop lop rd addr pc pc' v :
  MemWidth.bytes (store_width sop) = load_bytes lop ->
  complete_load (load_plan lop rd addr pc') (ReadOutcome_Data (sp_data (store_plan sop addr pc v))) =
  let low := v mod 2 ^ (8 * load_bytes lop) in
  let extended :=
    match lop with
    | LoadOp_B => sext 8 low mod 2 ^ 32
    | LoadOp_H => sext 16 low mod 2 ^ 32
    | LoadOp_W | LoadOp_Bu | LoadOp_Hu => low
    end in
  Ok (Exec_Effect (mkEffect (Some (mkRegWrite rd extended)) ((pc' + 4) mod 2 ^ 32))).
Proof.
  intros Hw. rewrite complete_load_spec, store_data_length, Hw, Z.eqb_refl. cbn zeta.
  unfold load_value. rewrite store_data_value, Hw. destruct lop; reflexivity.
Qed.

Lemma store_load_roundtrip_witness :
  complete_load (load_plan LoadOp_H 7 0x80000010 0x100)
    (ReadOutcome_Data (sp_data (store_plan StoreOp_H 0x80000010 0xfc 0x1234ABCD))) =
  Ok (Exec_Effect (mkEffect (Some (mkRegWrite 7 0xFFFFABCD)) 0x104)).
Proof.
  rewrite (store_load_roundtrip StoreOp_H LoadOp_H) by reflexivity. vm_compute. reflexivity.
Defined.

(** ** Ranges, for the CPU *)

Lemma load_value_in_u op bs :
  bytes_ok bs -> Z.of_nat (length bs) = load_bytes op -> in_u 32 (load_value op bs).
Proof.
  intros Hb Hl. destruct op; cbn [load_value]; auto with ranges;
    (eapply in_u_mono; [|apply from_le_in_u, Hb]); rewrite Hl; cbn; lia.
Qed.

(** A completed load writes a 32-bit value to its own register and moves on, or traps. *)
Lemma complete_load_shape p o out :
  (match o with ReadOutcome_Data data => bytes_ok data | _ => True end) ->
  complete_load p o = Ok out ->
  out = Exec_Trap (mkTrap LoadAccessFault (lp_addr p)) \/
  exists v, in_u 32 v /\
    out = Exec_Effect (mkEffect (Some (mkRegWrite (lp_rd p) v)) (lp_next_pc p)).
Proof.
  intros Hb. destruct o as [data|[]]; cbn [complete_load]; [|intros [= <-]; auto].
  intros (v & Hv & [= <-])%bind_Ok_inv. right. exists v. split; [|reflexivity].
  pose proof (from_le_in_u data Hb) as Hr.
  destruct (lp_width p), (lp_extension p), data as [|b0 [|b1 [|b2 [|b3 [|]]]]];
    try discriminate Hv; injection Hv as <-; auto with ranges;
    first [ eapply in_u_mono; [|exact Hr]; cbn; lia
          | apply (in_u_mono 8); [lia |]; inversion Hb; assumption ].
Qed.
