(* ===== verification/Csr.v ===== *)
(** The M2 privileged subset, [components/rv32i/src/csr.rs]: Zicsr decoding, the eight
    machine CSRs, [MRET], and the machine external interrupt.

    Proved: the decoder of the privileged words accepts exactly the Zicsr encodings and
    [MRET]; a CSR write stores the legalised value and touches no other CSR; the interrupt
    entry and [MRET] are inverse. *)
From stdpp Require Import base numbers list option.
From Stdlib Require Import ZArith Lia.
From S2P Require Import Prelude Instr Decode.

Local Open Scope Z_scope.

Definition MSTATUS : Z := 0x300.
Definition MIE : Z := 0x304.
Definition MTVEC : Z := 0x305.
Definition MSCRATCH : Z := 0x340.
Definition MEPC : Z := 0x341.
Definition MCAUSE : Z := 0x342.
Definition MTVAL : Z := 0x343.
Definition MIP : Z := 0x344.

Definition SUPPORTED : list Z := [MSTATUS; MIE; MIP; MTVEC; MSCRATCH; MEPC; MCAUSE; MTVAL].

Definition MRET : Z := 0x30200073.

Definition MSTATUS_MIE : Z := Z.shiftl 1 3.
Definition MSTATUS_MPIE : Z := Z.shiftl 1 7.
Definition MSTATUS_MPP : Z := Z.shiftl 3 11.
Definition MEI_BIT : Z := Z.shiftl 1 11.
Definition MEI_CAUSE : Z := 0x8000000b.

Definition is_supported (csr : Z) : bool := mem_Z csr SUPPORTED.

Inductive CsrOp : Set := CsrOp_Write | CsrOp_Set | CsrOp_Clear.

Inductive CsrSource : Set := CsrSource_Reg (r : Reg) | CsrSource_Imm (uimm : Z).

Inductive PrivInstr : Set :=
| Csr (op : CsrOp) (rd : Reg) (src : CsrSource) (csr : Z)
| Mret.

#[export] Instance CsrOp_eq_dec : EqDecision CsrOp.
Proof. solve_decision. Defined.
#[export] Instance CsrSource_eq_dec : EqDecision CsrSource.
Proof. solve_decision. Defined.
#[export] Instance PrivInstr_eq_dec : EqDecision PrivInstr.
Proof. solve_decision. Defined.

Module CsrOp.
Definition apply (op : CsrOp) (old operand : Z) : Z :=
  match op with
  | CsrOp_Write => operand
  | CsrOp_Set => Z.lor old operand
  | CsrOp_Clear => Z.land old (not32 operand)
  end.
End CsrOp.

Module PrivInstr.
Definition writes (i : PrivInstr) : bool :=
  match i with
  | Csr op _ src _ =>
      bool_decide (op = CsrOp_Write)
      || match src with
         | CsrSource_Reg rs1 => negb (rs1 =? Reg.ZERO)
         | CsrSource_Imm uimm => negb (uimm =? 0)
         end
  | Mret => false
  end.
End PrivInstr.

Definition decode_privileged (word : Z) : option PrivInstr :=
  if word =? MRET then Some Mret
  else if negb (Z.land word 0x7f =? 0x73) then None
  else
    let funct3 := Z.land (Z.shiftr word 12) 0x7 in
    op ← (let low := Z.land funct3 3 in
          if low =? 1 then Some CsrOp_Write
          else if low =? 2 then Some CsrOp_Set
          else if low =? 3 then Some CsrOp_Clear
          else None);
    let src :=
      if Z.land funct3 4 =? 0 then CsrSource_Reg (Reg.field word 15)
      else CsrSource_Imm (Z.land (Z.shiftr word 15) 0x1f) in
    Some (Csr op (Reg.field word 7) src (Z.shiftr word 20)).

(** * The machine CSRs *)

Record CsrFile : Set := mkCsrFile {
  mie : bool;
  mpie : bool;
  meie : bool;
  mtvec : Z;
  mscratch : Z;
  mepc : Z;
  mcause : Z;
  mtval : Z;
  irq_level : bool;
}.

#[export] Instance CsrFile_eq_dec : EqDecision CsrFile.
Proof. solve_decision. Defined.

Definition set_mie (v : bool) (c : CsrFile) : CsrFile :=
  mkCsrFile v (mpie c) (meie c) (mtvec c) (mscratch c) (mepc c) (mcause c) (mtval c) (irq_level c).
Definition set_mpie (v : bool) (c : CsrFile) : CsrFile :=
  mkCsrFile (mie c) v (meie c) (mtvec c) (mscratch c) (mepc c) (mcause c) (mtval c) (irq_level c).
Definition set_meie (v : bool) (c : CsrFile) : CsrFile :=
  mkCsrFile (mie c) (mpie c) v (mtvec c) (mscratch c) (mepc c) (mcause c) (mtval c) (irq_level c).
Definition set_mtvec (v : Z) (c : CsrFile) : CsrFile :=
  mkCsrFile (mie c) (mpie c) (meie c) v (mscratch c) (mepc c) (mcause c) (mtval c) (irq_level c).
Definition set_mscratch (v : Z) (c : CsrFile) : CsrFile :=
  mkCsrFile (mie c) (mpie c) (meie c) (mtvec c) v (mepc c) (mcause c) (mtval c) (irq_level c).
Definition set_mepc (v : Z) (c : CsrFile) : CsrFile :=
  mkCsrFile (mie c) (mpie c) (meie c) (mtvec c) (mscratch c) v (mcause c) (mtval c) (irq_level c).
Definition set_mcause (v : Z) (c : CsrFile) : CsrFile :=
  mkCsrFile (mie c) (mpie c) (meie c) (mtvec c) (mscratch c) (mepc c) v (mtval c) (irq_level c).
Definition set_mtval (v : Z) (c : CsrFile) : CsrFile :=
  mkCsrFile (mie c) (mpie c) (meie c) (mtvec c) (mscratch c) (mepc c) (mcause c) v (irq_level c).
Definition set_irq_level (v : bool) (c : CsrFile) : CsrFile :=
  mkCsrFile (mie c) (mpie c) (meie c) (mtvec c) (mscratch c) (mepc c) (mcause c) (mtval c) v.

Module CsrFile.
Definition new : CsrFile := mkCsrFile false false false 0 0 0 0 0 false.

Definition mstatus (c : CsrFile) : Z :=
  Z.lor (Z.lor (Z.shiftl (Z.b2z (mie c)) 3) (Z.shiftl (Z.b2z (mpie c)) 7)) MSTATUS_MPP.

Definition read (c : CsrFile) (csr : Z) : option Z :=
  if csr =? MSTATUS then Some (mstatus c)
  else if csr =? MIE then Some (Z.shiftl (Z.b2z (meie c)) 11)
  else if csr =? MIP then Some (Z.shiftl (Z.b2z (irq_level c)) 11)
  else if csr =? MTVEC then Some (mtvec c)
  else if csr =? MSCRATCH then Some (mscratch c)
  else if csr =? MEPC then Some (mepc c)
  else if csr =? MCAUSE then Some (mcause c)
  else if csr =? MTVAL then Some (mtval c)
  else None.

(** [None], changing nothing, for an unsupported CSR. *)
Definition write (c : CsrFile) (csr value : Z) : option CsrFile :=
  if csr =? MSTATUS then
    Some (set_mpie (has_bit value MSTATUS_MPIE) (set_mie (has_bit value MSTATUS_MIE) c))
  else if csr =? MIE then Some (set_meie (has_bit value MEI_BIT) c)
  else if csr =? MIP then Some c
  else if csr =? MTVEC then Some (set_mtvec (Z.land value (not32 3)) c)
  else if csr =? MSCRATCH then Some (set_mscratch value c)
  else if csr =? MEPC then Some (set_mepc (Z.land value (not32 3)) c)
  else if csr =? MCAUSE then Some (set_mcause value c)
  else if csr =? MTVAL then Some (set_mtval value c)
  else None.

(** The new [pc] and the file. *)
Definition mret (c : CsrFile) : Z * CsrFile :=
  let c := set_mie (mpie c) c in
  let c := set_mpie true c in
  (mepc c, c).

Definition mei_eligible (c : CsrFile) : bool := mie c && meie c && irq_level c.

Definition take_mei (c : CsrFile) (next_pc : Z) : Z * CsrFile :=
  let c := set_mepc next_pc c in
  let c := set_mcause MEI_CAUSE c in
  let c := set_mtval 0 c in
  let c := set_mpie (mie c) c in
  let c := set_mie false c in
  (mtvec c, c).

(** The ranges and the alignment the field documentation promises. *)
Definition ok (c : CsrFile) : Prop :=
  in_u 32 (mtvec c) /\ aligned4 (mtvec c) = true /\
  in_u 32 (mscratch c) /\
  in_u 32 (mepc c) /\ aligned4 (mepc c) = true /\
  in_u 32 (mcause c) /\ in_u 32 (mtval c).

#[export] Instance ok_dec c : Decision (ok c).
Proof. unfold ok. apply _. Defined.
End CsrFile.

#[export] Existing Instance CsrFile.ok_dec.

(** * The decoder of privileged words *)

Definition priv_ok (i : PrivInstr) : Prop :=
  match i with
  | Csr _ rd src csr =>
      reg_ok rd /\ 0 <= csr < 4096 /\
      match src with CsrSource_Reg r => reg_ok r | CsrSource_Imm u => 0 <= u < 32 end
  | Mret => True
  end.

#[export] Instance priv_ok_dec i : Decision (priv_ok i).
Proof. destruct i as [? ? [] ? |]; unfold priv_ok; apply _. Defined.

(** The Zicsr encodings of the manual: [csr] in bits 31:20, the source in 19:15. *)
Definition encode_priv (i : PrivInstr) : Z :=
  match i with
  | Csr op rd src csr =>
      let f3 := match op with CsrOp_Write => 1 | CsrOp_Set => 2 | CsrOp_Clear => 3 end in
      match src with
      | CsrSource_Reg r => pack 0x73 rd f3 r (csr mod 32) (csr / 32)
      | CsrSource_Imm u => pack 0x73 rd (f3 + 4) u (csr mod 32) (csr / 32)
      end
  | Mret => MRET
  end.

(** [decode_privileged] of a packed word, field by field. *)
Definition decode_priv_fields (op rd f3 rs1 rs2 f7 : Z) : option PrivInstr :=
  if pack op rd f3 rs1 rs2 f7 =? MRET then Some Mret
  else if negb (op =? 0x73) then None
  else
    o ← (let low := f3 mod 4 in
         if low =? 1 then Some CsrOp_Write
         else if low =? 2 then Some CsrOp_Set
         else if low =? 3 then Some CsrOp_Clear
         else None);
    Some (Csr o rd (if f3 <? 4 then CsrSource_Reg rs1 else CsrSource_Imm rs1) (rs2 + 32 * f7)).

Lemma decode_priv_pack op rd f3 rs1 rs2 f7 :
  fields_ok op rd f3 rs1 rs2 f7 ->
  decode_privileged (pack op rd f3 rs1 rs2 f7) = decode_priv_fields op rd f3 rs1 rs2 f7.
Proof.
  intros H. unfold decode_privileged, decode_priv_fields.
  change (Z.land (Z.shiftr (pack op rd f3 rs1 rs2 f7) 15) 0x1f)
    with (Reg.field (pack op rd f3 rs1 rs2 f7) 15).
  rewrite (pack_op _ _ _ _ _ _ H), (pack_rd _ _ _ _ _ _ H), (pack_f3 _ _ _ _ _ _ H),
    (pack_rs1 _ _ _ _ _ _ H), land3_mod.
  replace (Z.land f3 4 =? 0) with (f3 <? 4).
  - replace (Z.shiftr (pack op rd f3 rs1 rs2 f7) 20) with (rs2 + 32 * f7); [reflexivity |].
    bits_to_arith. unfold fields_ok, pack in *. word_lia.
  - unfold fields_ok in H. deconj.
    apply (Z_range_cases 8 f3 (fun f3 => (f3 <? 4) = (Z.land f3 4 =? 0))); [lia |].
    intros k Hk. do 8 (destruct k as [|k]; [reflexivity |]). lia.
Qed.

Definition decode_privileged_spec (w : Z) (r : option PrivInstr) : Prop :=
  match r with
  | Some i => priv_ok i /\ encode_priv i = w
  | None => forall i, priv_ok i -> encode_priv i <> w
  end.

Lemma decode_priv_sound w i :
  in_u 32 w -> decode_privileged w = Some i -> priv_ok i /\ encode_priv i = w.
Proof.
  intros (op & rd & f3 & rs1 & rs2 & f7 & Hok & ->)%unpack. rewrite decode_priv_pack by assumption.
  unfold decode_priv_fields. destruct (Z.eqb_spec (pack op rd f3 rs1 rs2 f7) MRET) as [E|_].
  { intros [= <-]. split; [exact I | symmetry; exact E]. }
  destruct (Z.eqb_spec op 0x73); [|discriminate]. cbn [negb].
  intros (o & Ho & [= <-])%bind_Some.
  unfold fields_ok in Hok. deconj. split.
  - cbn. unfold reg_ok. destruct (f3 <? 4); lia.
  - cbn [encode_priv]. destruct (Z.ltb_spec f3 4); repeat case_hyp Ho; try discriminate Ho;
      injection Ho as <-; f_equal; word_lia.
Qed.

Lemma encode_priv_not_mret op rd src csr : priv_ok (Csr op rd src csr) -> encode_priv (Csr op rd src csr) <> MRET.
Proof.
  intros (Hrd & Hc & Hs) E. unfold MRET, reg_ok in *.
  destruct op, src; cbn [encode_priv] in E; unfold pack in E; word_lia.
Qed.

Lemma decode_priv_encode i : priv_ok i -> decode_privileged (encode_priv i) = Some i.
Proof.
  intros Hi. destruct i as [op rd src csr|]; [|reflexivity].
  pose proof (encode_priv_not_mret _ _ _ _ Hi) as Hne%Z.eqb_neq.
  destruct Hi as (Hrd & Hc & Hs).
  assert (Hcsr : csr mod 32 + 32 * (csr / 32) = csr) by word_lia. unfold reg_ok in *.
  destruct op, src; cbn [encode_priv Z.add] in *;
    rewrite decode_priv_pack by (unfold fields_ok; word_lia); unfold decode_priv_fields;
    rewrite Hne; cbn -[Z.mul Z.modulo Z.div]; rewrite Hcsr; reflexivity.
Qed.

(** On every [u32] word, [decode_privileged] yields the Zicsr instruction or [MRET]
    whose manual encoding is that word, and nothing precisely when there is none. *)
Theorem decode_privileged_exact w :
  in_u 32 w -> decode_privileged_spec w (decode_privileged w).
Proof.
  intros Hw. destruct (decode_privileged w) as [i|] eqn:E; cbn.
  - apply decode_priv_sound; assumption.
  - intros i Hi <-. rewrite decode_priv_encode in E by assumption. discriminate.
Qed.

Lemma decode_privileged_exact_witness :
  in_u 32 0x30529073 /\
  decode_privileged_spec 0x30529073 (Some (Csr CsrOp_Write 0 (CsrSource_Reg 5) MTVEC)).
Proof.
  split; [unfold in_u; lia |].
  change (Some (Csr CsrOp_Write 0 (CsrSource_Reg 5) MTVEC)) with (decode_privileged 0x30529073).
  apply decode_privileged_exact. unfold in_u. lia.
Defined.

(** * Reads and writes *)

(** The value a CSR reads after a write of [v], by its write rule ([docs/m2-design.md]
    §4.3): unimplemented bits dropped, [MPP] hardwired, [mip] read-only. *)
Definition csr_legal (c : CsrFile) (csr v : Z) : option Z :=
  if csr =? MSTATUS then Some (Z.lor (Z.land v 0x88) 0x1800)
  else if csr =? MIE then Some (Z.land v 0x800)
  else if csr =? MIP then CsrFile.read c MIP
  else if (csr =? MTVEC) || (csr =? MEPC) then Some (v - v mod 4)
  else if is_supported csr then Some v
  else None.

Lemma csr_file_new_ok : CsrFile.ok CsrFile.new.
Proof. apply (bool_decide_unpack _). vm_compute. exact I. Qed.

Ltac csr_cases csr :=
  repeat match goal with
  | |- context [csr =? ?n] => destruct (Z.eqb_spec csr n) as [->|?]
  | H : context [csr =? ?n] |- _ => destruct (Z.eqb_spec csr n) as [->|?]
  end.

Lemma csr_write_ok c csr v c' :
  CsrFile.ok c -> in_u 32 v -> CsrFile.write c csr v = Some c' -> CsrFile.ok c'.
Proof.
  intros (H1 & H2 & H3 & H4 & H5 & H6 & H7) Hv. unfold CsrFile.write. intros H.
  csr_cases csr; try discriminate H; injection H as <-; unfold CsrFile.ok; cbn;
    auto 10 with ranges.
Qed.

Lemma csr_read_ok c csr v : CsrFile.ok c -> CsrFile.read c csr = Some v -> in_u 32 v.
Proof.
  intros (H1 & H2 & H3 & H4 & H5 & H6 & H7). unfold CsrFile.read. intros H.
  csr_cases csr; try discriminate H; injection H as <-; try assumption.
  - unfold CsrFile.mstatus. destruct (mie c), (mpie c); const_range.
  - destruct (meie c); const_range.
  - destruct (irq_level c); const_range.
Qed.

Lemma csr_supported_spec c csr : is_supported csr = true <-> is_Some (CsrFile.read c csr).
Proof.
  unfold is_supported, SUPPORTED, mem_Z, CsrFile.read. cbn [existsb].
  csr_cases csr; cbn; try (split; intros; [eauto | reflexivity]).
  split; [discriminate | intros []; discriminate].
Qed.

Lemma mstatus_flags v :
  Z.lor (Z.lor (Z.shiftl (Z.b2z (has_bit v MSTATUS_MIE)) 3)
               (Z.shiftl (Z.b2z (has_bit v MSTATUS_MPIE)) 7)) MSTATUS_MPP =
  Z.lor (Z.land v 0x88) 0x1800.
Proof.
  change MSTATUS_MIE with (2 ^ 3). change MSTATUS_MPIE with (2 ^ 7).
  rewrite !flag_in_place by lia. rewrite <- Z.land_lor_distr_r. reflexivity.
Qed.

Lemma csr_write_self c csr v c' :
  CsrFile.ok c -> in_u 32 v -> CsrFile.write c csr v = Some c' ->
  CsrFile.read c' csr = csr_legal c csr v.
Proof.
  intros Hok Hv H. unfold CsrFile.write in H. unfold CsrFile.read, csr_legal.
  csr_cases csr; try discriminate H; injection H as <-; try reflexivity;
    cbn -[Z.land Z.lor Z.shiftl not32 Z.sub].
  - unfold CsrFile.mstatus. cbn [mie mpie set_mie set_mpie].
    rewrite mstatus_flags. reflexivity.
  - f_equal. apply (flag_in_place v 11). lia.
  - f_equal. apply align_down4, Hv.
  - f_equal. apply align_down4, Hv.
Qed.

Lemma csr_write_frame c csr v c' csr' :
  CsrFile.write c csr v = Some c' -> csr' <> csr -> CsrFile.read c' csr' = CsrFile.read c csr'.
Proof.
  intros H Hne. unfold CsrFile.write in H.
  csr_cases csr; try discriminate H; injection H as <-; try reflexivity;
    unfold CsrFile.read, CsrFile.mstatus; cbn; csr_cases csr'; congruence.
Qed.

Lemma csr_write_None c csr v :
  CsrFile.write c csr v = None -> is_supported csr = false /\ CsrFile.read c csr = None.
Proof.
  intros H. unfold CsrFile.write in H. unfold is_supported, mem_Z, SUPPORTED, CsrFile.read.
  cbn [existsb]. csr_cases csr; try discriminate H. split; reflexivity.
Qed.

(** A CSR write in the M2 profile succeeds exactly on the eight supported CSRs; the CSR
    then reads the legalised value, every other CSR reads what it did, and the file keeps
    its ranges and the alignment of [mtvec] and [mepc]. *)
Theorem csr_write_read c csr v :
  CsrFile.ok c -> in_u 32 v ->
  match CsrFile.write c csr v with
  | Some c' =>
      CsrFile.ok c' /\ CsrFile.read c' csr = csr_legal c csr v /\
      forall csr', csr' <> csr -> CsrFile.read c' csr' = CsrFile.read c csr'
  | None => is_supported csr = false /\ CsrFile.read c csr = None
  end.
Proof.
  intros Hok Hv. destruct (CsrFile.write c csr v) as [c'|] eqn:E.
  - split_and!; [eapply csr_write_ok | eapply csr_write_self |]; try eassumption.
    intros. eapply csr_write_frame; eassumption.
  - eapply csr_write_None; eassumption.
Qed.

Lemma csr_write_read_witness :
  exists c', CsrFile.write CsrFile.new MSTATUS 0xFFFFFFFF = Some c' /\
    CsrFile.read c' MSTATUS = Some 0x1888.
Proof.
  eexists. split; [reflexivity |].
  pose proof (csr_write_read CsrFile.new MSTATUS 0xFFFFFFFF csr_file_new_ok
    ltac:(unfold in_u; lia)) as (_ & H & _).
  exact H.
Defined.

(** * Interrupt entry and return *)

Lemma take_mei_ok c pc :
  CsrFile.ok c -> in_u 32 pc -> aligned4 pc = true -> CsrFile.ok (snd (CsrFile.take_mei c pc)).
Proof.
  intros (H1 & H2 & H3 & H4 & H5 & H6 & H7) Hp Ha. unfold CsrFile.ok, CsrFile.take_mei; cbn.
  repeat split; try assumption; try apply Hp; try apply H1; try apply H3; unfold MEI_CAUSE; lia.
Qed.

Lemma csr_mret_ok c : CsrFile.ok c -> CsrFile.ok (snd (CsrFile.mret c)).
Proof. intros H. exact H. Qed.

(** The machine external interrupt of the M2 profile nests once: entry at [pc] jumps to
    [mtvec] with interrupts off, so it cannot be taken again before [MIE] is set, and [MRET]
    then resumes at [pc] with the interrupt enable that was set on entry; [mtvec],
    [mscratch], [mie.MEIE] and the [irq] level never move. *)
Theorem mei_mret_roundtrip c pc :
  CsrFile.mei_eligible c = true ->
  let '(handler, c1) := CsrFile.take_mei c pc in
  let '(resume, c2) := CsrFile.mret c1 in
  handler = mtvec c /\ CsrFile.mei_eligible c1 = false /\
  mepc c1 = pc /\ mcause c1 = MEI_CAUSE /\ mtval c1 = 0 /\
  resume = pc /\ mie c2 = mie c /\ CsrFile.mei_eligible c2 = true /\
  mtvec c2 = mtvec c /\ mscratch c2 = mscratch c /\ meie c2 = meie c /\
  irq_level c2 = irq_level c.
Proof.
  unfold CsrFile.mei_eligible. intros H. unbool. cbn.
  repeat split; try congruence. rewrite !andb_true_iff. auto.
Qed.

Lemma mei_mret_roundtrip_witness :
  let c := mkCsrFile true false true 0x100 0 0 0 0 true in
  CsrFile.mei_eligible c = true /\ fst (CsrFile.mret (snd (CsrFile.take_mei c 0x80000004))) = 0x80000004.
Proof.
  intros c. split; [reflexivity |].
  pose proof (mei_mret_roundtrip c 0x80000004 eq_refl) as (_ & _ & _ & _ & _ & H & _). exact H.
Defined.
