(* ===== verification/Privileged.v ===== *)
(** The M3 privileged subset, [components/rv32i/src/privilege.rs]: privilege modes, the
    supervisor CSRs, the CSR access rule, [SRET], [SFENCE.VMA], delegated exceptions and the
    interrupt with modes.

    Proved: reads and writes of the 19 CSRs with the [sstatus] alias, the access rule mode
    by mode, and that trap entry and return are inverse for both trap levels. *)
From stdpp Require Import base numbers list option strings.
From Stdlib Require Import ZArith Lia.
From S2P Require Import Prelude Instr Decode Execute Csr.

Local Open Scope Z_scope.

Definition SSTATUS : Z := 0x100.
Definition SIE : Z := 0x104.
Definition STVEC : Z := 0x105.
Definition SSCRATCH : Z := 0x140.
Definition SEPC : Z := 0x141.
Definition SCAUSE : Z := 0x142.
Definition STVAL : Z := 0x143.
Definition SIP : Z := 0x144.
Definition SATP : Z := 0x180.
Definition MEDELEG : Z := 0x302.
Definition MIDELEG : Z := 0x303.

Definition SUPPORTED : list Z :=
  [MSTATUS; MIE; MIP; MTVEC; MSCRATCH; MEPC; MCAUSE; MTVAL; SSTATUS; SIE; SIP; STVEC;
   SSCRATCH; SEPC; SCAUSE; STVAL; SATP; MEDELEG; MIDELEG].

Definition SRET : Z := 0x10200073.

Definition MSTATUS_SIE : Z := Z.shiftl 1 1.
Definition MSTATUS_SPIE : Z := Z.shiftl 1 5.
Definition MSTATUS_SPP : Z := Z.shiftl 1 8.
Definition MSTATUS_MPP_SHIFT : Z := 11.
Definition MSTATUS_SUM : Z := Z.shiftl 1 18.
Definition MSTATUS_MXR : Z := Z.shiftl 1 19.
Definition SSTATUS_MASK : Z :=
  Z.lor (Z.lor (Z.lor (Z.lor MSTATUS_SIE MSTATUS_SPIE) MSTATUS_SPP) MSTATUS_SUM) MSTATUS_MXR.

Definition MEDELEG_MASK : Z := 0xB1FF.

Definition SATP_MODE : Z := Z.shiftl 1 31.
Definition SATP_ASID : Z := Z.shiftl 0x1FF 22.
Definition SATP_PPN : Z := 0x003FFFFF.

Inductive Privilege : Set := User | Supervisor | Machine.

Inductive Spp : Set := Spp_User | Spp_Supervisor.

#[export] Instance Privilege_eq_dec : EqDecision Privilege.
Proof. solve_decision. Defined.
#[export] Instance Spp_eq_dec : EqDecision Spp.
Proof. solve_decision. Defined.

Module Privilege.
Definition bits (p : Privilege) : Z :=
  match p with User => 0 | Supervisor => 1 | Machine => 3 end.

Definition from_bits (bits : Z) : option Privilege :=
  if bits =? 0 then Some User
  else if bits =? 1 then Some Supervisor
  else if bits =? 3 then Some Machine
  else None.

Definition name (p : Privilege) : string :=
  match p with User => "U" | Supervisor => "S" | Machine => "M" end.

(** The derived order: declaration order, U < S < M. *)
Definition rank (p : Privilege) : Z :=
  match p with User => 0 | Supervisor => 1 | Machine => 2 end.
Definition ltb (p q : Privilege) : bool := rank p <? rank q.
End Privilege.

Module Spp.
Definition bits (s : Spp) : Z := match s with Spp_User => 0 | Spp_Supervisor => 1 end.

Definition from_bits (bits : Z) : option Spp :=
  if bits =? 0 then Some Spp_User
  else if bits =? 1 then Some Spp_Supervisor
  else None.

Definition privilege (s : Spp) : Privilege :=
  match s with Spp_User => User | Spp_Supervisor => Supervisor end.
End Spp.

Definition legal_mpp (field : Z) : Privilege :=
  let low := Z.land field 3 in
  if low =? 1 then Supervisor else if low =? 3 then Machine else User.

Definition is_supported (csr : Z) : bool := mem_Z csr SUPPORTED.

Definition accessible (csr : Z) (p : Privilege) (writes : bool) : bool :=
  let lowest := Z.land (Z.shiftr csr 8) 3 in
  let read_only := Z.land (Z.shiftr csr 10) 3 =? 3 in
  (lowest <=? Privilege.bits p) && negb (writes && read_only).

Definition satp_write (value : Z) : Z := Z.land value (not32 SATP_ASID).

Definition satp_reachable (value : Z) : bool := Z.land value SATP_ASID =? 0.

Inductive SupervisorInstr : Set := Sret | SfenceVma.

Definition decode_supervisor (word : Z) : option SupervisorInstr :=
  if word =? SRET then Some Sret
  else if Z.land word 0xFE007FFF =? 0x12000073 then Some SfenceVma
  else None.

(** * The state of the M3 profile *)

Record M3State : Set := mkM3State {
  privilege : Privilege;
  sie : bool;
  spie : bool;
  spp : Spp;
  mpp : Privilege;
  sum_ : bool;
  mxr : bool;
  medeleg : Z;
  stvec : Z;
  sscratch : Z;
  sepc : Z;
  scause : Z;
  stval : Z;
  satp : Z;
}.

#[export] Instance M3State_eq_dec : EqDecision M3State.
Proof. solve_decision. Defined.

Definition set_privilege (v : Privilege) (c : M3State) : M3State :=
  mkM3State v (sie c) (spie c) (spp c) (mpp c) (sum_ c) (mxr c) (medeleg c) (stvec c) (sscratch c) (sepc c) (scause c) (stval c) (satp c).
Definition set_sie (v : bool) (c : M3State) : M3State :=
  mkM3State (privilege c) v (spie c) (spp c) (mpp c) (sum_ c) (mxr c) (medeleg c) (stvec c) (sscratch c) (sepc c) (scause c) (stval c) (satp c).
Definition set_spie (v : bool) (c : M3State) : M3State :=
  mkM3State (privilege c) (sie c) v (spp c) (mpp c) (sum_ c) (mxr c) (medeleg c) (stvec c) (sscratch c) (sepc c) (scause c) (stval c) (satp c).
Definition set_spp (v : Spp) (c : M3State) : M3State :=
  mkM3State (privilege c) (sie c) (spie c) v (mpp c) (sum_ c) (mxr c) (medeleg c) (stvec c) (sscratch c) (sepc c) (scause c) (stval c) (satp c).
Definition set_mpp (v : Privilege) (c : M3State) : M3State :=
  mkM3State (privilege c) (sie c) (spie c) (spp c) v (sum_ c) (mxr c) (medeleg c) (stvec c) (sscratch c) (sepc c) (scause c) (stval c) (satp c).
Definition set_sum_ (v : bool) (c : M3State) : M3State :=
  mkM3State (privilege c) (sie c) (spie c) (spp c) (mpp c) v (mxr c) (medeleg c) (stvec c) (sscratch c) (sepc c) (scause c) (stval c) (satp c).
Definition set_mxr (v : bool) (c : M3State) : M3State :=
  mkM3State (privilege c) (sie c) (spie c) (spp c) (mpp c) (sum_ c) v (medeleg c) (stvec c) (sscratch c) (sepc c) (scause c) (stval c) (satp c).
Definition set_medeleg (v : Z) (c : M3State) : M3State :=
  mkM3State (privilege c) (sie c) (spie c) (spp c) (mpp c) (sum_ c) (mxr c) v (stvec c) (sscratch c) (sepc c) (scause c) (stval c) (satp c).
Definition set_stvec (v : Z) (c : M3State) : M3State :=
  mkM3State (privilege c) (sie c) (spie c) (spp c) (mpp c) (sum_ c) (mxr c) (medeleg c) v (sscratch c) (sepc c) (scause c) (stval c) (satp c).
Definition set_sscratch (v : Z) (c : M3State) : M3State :=
  mkM3State (privilege c) (sie c) (spie c) (spp c) (mpp c) (sum_ c) (mxr c) (medeleg c) (stvec c) v (sepc c) (scause c) (stval c) (satp c).
Definition set_sepc (v : Z) (c : M3State) : M3State :=
  mkM3State (privilege c) (sie c) (spie c) (spp c) (mpp c) (sum_ c) (mxr c) (medeleg c) (stvec c) (sscratch c) v (scause c) (stval c) (satp c).
Definition set_scause (v : Z) (c : M3State) : M3State :=
  mkM3State (privilege c) (sie c) (spie c) (spp c) (mpp c) (sum_ c) (mxr c) (medeleg c) (stvec c) (sscratch c) (sepc c) v (stval c) (satp c).
Definition set_stval (v : Z) (c : M3State) : M3State :=
  mkM3State (privilege c) (sie c) (spie c) (spp c) (mpp c) (sum_ c) (mxr c) (medeleg c) (stvec c) (sscratch c) (sepc c) (scause c) v (satp c).
Definition set_satp (v : Z) (c : M3State) : M3State :=
  mkM3State (privilege c) (sie c) (spie c) (spp c) (mpp c) (sum_ c) (mxr c) (medeleg c) (stvec c) (sscratch c) (sepc c) (scause c) (stval c) v.

Module M3State.
Definition new : M3State :=
  mkM3State Machine false false Spp_User User false false 0 0 0 0 0 0 0.

Definition sstatus (s : M3State) : Z :=
  Z.lor (Z.lor (Z.lor (Z.lor
    (Z.shiftl (Z.b2z (sie s)) 1)
    (Z.shiftl (Z.b2z (spie s)) 5))
    (Z.shiftl (Spp.bits (spp s)) 8))
    (Z.shiftl (Z.b2z (sum_ s)) 18))
    (Z.shiftl (Z.b2z (mxr s)) 19).

Definition mstatus (s : M3State) (m : CsrFile) : Z :=
  Z.lor (Z.lor (Z.lor
    (sstatus s)
    (Z.shiftl (Z.b2z (mie m)) 3))
    (Z.shiftl (Z.b2z (mpie m)) 7))
    (Z.shiftl (Privilege.bits (mpp s)) MSTATUS_MPP_SHIFT).

Definition read (s : M3State) (m : CsrFile) (csr : Z) : option Z :=
  if csr =? MSTATUS then Some (mstatus s m)
  else if csr =? SSTATUS then Some (sstatus s)
  else if csr =? MEDELEG then Some (medeleg s)
  else if (csr =? MIDELEG) || (csr =? SIE) || (csr =? SIP) then Some 0
  else if csr =? STVEC then Some (stvec s)
  else if csr =? SSCRATCH then Some (sscratch s)
  else if csr =? SEPC then Some (sepc s)
  else if csr =? SCAUSE then Some (scause s)
  else if csr =? STVAL then Some (stval s)
  else if csr =? SATP then Some (satp s)
  else if (csr =? MIE) || (csr =? MIP) || (csr =? MTVEC) || (csr =? MSCRATCH)
          || (csr =? MEPC) || (csr =? MCAUSE) || (csr =? MTVAL) then CsrFile.read m csr
  else None.

Definition write_sstatus (s : M3State) (value : Z) : M3State :=
  let s := set_sie (has_bit value MSTATUS_SIE) s in
  let s := set_spie (has_bit value MSTATUS_SPIE) s in
  let s := set_spp (if has_bit value MSTATUS_SPP then Spp_Supervisor else Spp_User) s in
  let s := set_sum_ (has_bit value MSTATUS_SUM) s in
  set_mxr (has_bit value MSTATUS_MXR) s.

(** [None], changing nothing, for an unsupported CSR. *)
Definition write (s : M3State) (m : CsrFile) (csr value : Z) : option (M3State * CsrFile) :=
  if csr =? MSTATUS then
    let m := set_mie (has_bit value MSTATUS_MIE) m in
    let m := set_mpie (has_bit value MSTATUS_MPIE) m in
    let s := set_mpp (legal_mpp (Z.shiftr value MSTATUS_MPP_SHIFT)) s in
    Some (write_sstatus s value, m)
  else if csr =? SSTATUS then Some (write_sstatus s value, m)
  else if csr =? MEDELEG then Some (set_medeleg (Z.land value MEDELEG_MASK) s, m)
  else if (csr =? MIDELEG) || (csr =? SIE) || (csr =? SIP) then Some (s, m)
  else if csr =? STVEC then Some (set_stvec (Z.land value (not32 3)) s, m)
  else if csr =? SSCRATCH then Some (set_sscratch value s, m)
  else if csr =? SEPC then Some (set_sepc (Z.land value (not32 3)) s, m)
  else if csr =? SCAUSE then Some (set_scause value s, m)
  else if csr =? STVAL then Some (set_stval value s, m)
  else if csr =? SATP then Some (set_satp (satp_write value) s, m)
  else if (csr =? MIE) || (csr =? MIP) || (csr =? MTVEC) || (csr =? MSCRATCH)
          || (csr =? MEPC) || (csr =? MCAUSE) || (csr =? MTVAL) then
    m ← CsrFile.write m csr value; Some (s, m)
  else None.

Definition mret (s : M3State) (m : CsrFile) : Z * (M3State * CsrFile) :=
  let s := set_privilege (mpp s) s in
  let s := set_mpp User s in
  let m := set_mie (mpie m) m in
  let m := set_mpie true m in
  (mepc m, (s, m)).

Definition sret (s : M3State) : Z * M3State :=
  let s := set_privilege (Spp.privilege (spp s)) s in
  let s := set_spp Spp_User s in
  let s := set_sie (spie s) s in
  let s := set_spie true s in
  (sepc s, s).

Definition translates (s : M3State) : bool :=
  negb (bool_decide (privilege s = Machine)) && has_bit (satp s) SATP_MODE.

Definition root (s : M3State) : Z := Z.land (satp s) SATP_PPN.

Definition delegates (s : M3State) (cause : TrapCause) : bool :=
  negb (bool_decide (privilege s = Machine))
  && (Z.land (Z.shiftr (medeleg s) (TrapCause.code cause)) 1 =? 1).

(** [Some (handler, state)], or [None] with nothing changed. *)
Definition take_exception (s : M3State) (cause : TrapCause) (pc tval : Z) :
    option (Z * M3State) :=
  if negb (delegates s cause) then None
  else
    from ← match privilege s with
           | User => Some Spp_User
           | Supervisor => Some Spp_Supervisor
           | Machine => None
           end;
    let s := set_spp from s in
    let s := set_sepc pc s in
    let s := set_scause (TrapCause.code cause) s in
    let s := set_stval tval s in
    let s := set_spie (sie s) s in
    let s := set_sie false s in
    let s := set_privilege Supervisor s in
    Some (Z.land (stvec s) (not32 3), s).

Definition mei_eligible (s : M3State) (m : CsrFile) : bool :=
  irq_level m && meie m && (Privilege.ltb (privilege s) Machine || mie m).

Definition take_mei (s : M3State) (m : CsrFile) (next_pc : Z) : Z * (M3State * CsrFile) :=
  let s := set_mpp (privilege s) s in
  let s := set_privilege Machine s in
  let '(handler, m) := CsrFile.take_mei m next_pc in
  (handler, (s, m)).

(** The ranges, masks and alignment the field documentation promises. *)
Definition ok (s : M3State) : Prop :=
  in_u 32 (medeleg s) /\ Z.land (medeleg s) (not32 MEDELEG_MASK) = 0 /\
  in_u 32 (stvec s) /\ aligned4 (stvec s) = true /\
  in_u 32 (sscratch s) /\
  in_u 32 (sepc s) /\ aligned4 (sepc s) = true /\
  in_u 32 (scause s) /\ in_u 32 (stval s) /\
  in_u 32 (satp s) /\ satp_reachable (satp s) = true.

#[export] Instance ok_dec s : Decision (ok s).
Proof. unfold ok. apply _. Defined.
End M3State.

#[export] Existing Instance M3State.ok_dec.

(** * Well-formedness *)

Lemma satp_write_reachable v : in_u 32 v -> satp_reachable (satp_write v) = true.
Proof.
  intros Hv. unfold satp_reachable, satp_write. apply Z.eqb_eq, Z.bits_inj'. intros i Hi.
  rewrite !Z.land_spec, Z.bits_0. destruct (Z.lt_ge_cases i 32).
  - rewrite not32_testbit by lia. destruct (Z.testbit SATP_ASID i); cbn; rewrite ?andb_false_r; reflexivity.
  - rewrite (testbit_in_u 32 v) by (assumption || lia). reflexivity.
Qed.

Lemma satp_write_in_u v : in_u 32 v -> in_u 32 (satp_write v).
Proof. intros. apply land_in_u_r; [lia |]. apply not32_in_u. const_range. Qed.

(** A reachable [satp] is what a write of itself stores. *)
Lemma satp_write_id v : in_u 32 v -> satp_reachable v = true -> satp_write v = v.
Proof.
  intros Hv H%Z.eqb_eq. unfold satp_write.
  apply (bits_ext_u 32); [lia | apply satp_write_in_u, Hv | assumption |]. intros i Hi.
  rewrite Z.land_spec, not32_testbit by lia.
  apply (f_equal (fun z => Z.testbit z i)) in H. rewrite Z.land_spec, Z.bits_0 in H.
  destruct (Z.testbit v i), (Z.testbit SATP_ASID i); cbn in *; congruence.
Qed.

Lemma medeleg_masked v : in_u 32 v -> Z.land (Z.land v MEDELEG_MASK) (not32 MEDELEG_MASK) = 0.
Proof.
  intros Hv. apply Z.bits_inj'. intros i Hi. rewrite !Z.land_spec, Z.bits_0.
  destruct (Z.lt_ge_cases i 32).
  - rewrite not32_testbit by lia. destruct (Z.testbit MEDELEG_MASK i); cbn; rewrite ?andb_false_r; reflexivity.
  - rewrite (testbit_in_u 32 v) by (assumption || lia). reflexivity.
Qed.

Lemma medeleg_in_u v : in_u 32 (Z.land v MEDELEG_MASK).
Proof. apply land_in_u_r; [lia |]. unfold in_u, MEDELEG_MASK. lia. Qed.

#[export] Hint Resolve satp_write_reachable satp_write_in_u medeleg_masked medeleg_in_u : ranges.

Lemma code_in_u c : in_u 32 (TrapCause.code c).
Proof. destruct c; unfold in_u; cbn; lia. Qed.

Lemma m3_new_ok : M3State.ok M3State.new.
Proof. apply (bool_decide_unpack _). vm_compute. exact I. Qed.

(** Opens the hypotheses [M3State.ok] and [CsrFile.ok], and the goal's. *)
Ltac ok_intro :=
  repeat match goal with
  | H : M3State.ok _ |- _ => destruct H as (?&?&?&?&?&?&?&?&?&?&?)
  | H : CsrFile.ok _ |- _ => destruct H as (?&?&?&?&?&?&?)
  end.

Lemma write_sstatus_ok s v : M3State.ok s -> M3State.ok (M3State.write_sstatus s v).
Proof. intros H. exact H. Qed.

Lemma m3_write_ok s m csr v s' m' :
  M3State.ok s -> CsrFile.ok m -> in_u 32 v ->
  M3State.write s m csr v = Some (s', m') -> M3State.ok s' /\ CsrFile.ok m'.
Proof.
  intros Hs Hm Hv. unfold M3State.write. intros H. csr_cases csr; cbn [orb] in H;
    try discriminate H.
  all: try (apply bind_Some in H; destruct H as (mm & Hw & H)); injection H as <- <-.
  all: try (split; [assumption | eapply csr_write_ok; eassumption]).
  all: split; [| exact Hm]; try exact Hs; ok_intro; unfold M3State.ok; cbn;
    repeat split; auto with ranges; try apply align_down4_in_u; try apply medeleg_in_u; auto with ranges.
  all: try (apply satp_write_in_u; assumption).
  all: match goal with H : in_u 32 ?x |- _ => apply H end.
Qed.

Lemma m3_mret_ok s m :
  M3State.ok s -> CsrFile.ok m ->
  M3State.ok (fst (snd (M3State.mret s m))) /\ CsrFile.ok (snd (snd (M3State.mret s m))).
Proof. intros Hs Hm. split; [exact Hs | exact Hm]. Qed.

Lemma m3_sret_ok s : M3State.ok s -> M3State.ok (snd (M3State.sret s)).
Proof. intros Hs. exact Hs. Qed.

Lemma m3_take_exception_ok s c pc tv h s' :
  M3State.ok s -> in_u 32 pc -> aligned4 pc = true -> in_u 32 tv ->
  M3State.take_exception s c pc tv = Some (h, s') ->
  M3State.ok s' /\ in_u 32 h /\ aligned4 h = true.
Proof.
  intros Hs Hp Ha Ht. unfold M3State.take_exception. destruct (M3State.delegates s c); [|discriminate].
  cbn [negb]. intros (from & _ & H)%bind_Some. injection H as <- <-. ok_intro.
  pose proof (code_in_u c).
  split; [|split; cbn; auto with ranges]. unfold M3State.ok; cbn. repeat split; try assumption;
    match goal with H : in_u 32 ?x |- _ => apply H end.
Qed.

Lemma m3_take_mei_ok s m pc :
  M3State.ok s -> CsrFile.ok m -> in_u 32 pc -> aligned4 pc = true ->
  M3State.ok (fst (snd (M3State.take_mei s m pc))) /\
  CsrFile.ok (snd (snd (M3State.take_mei s m pc))).
Proof. intros Hs Hm Hp Ha. split; [exact Hs | apply (take_mei_ok m pc); assumption]. Qed.

(** * Reads and writes *)

(** [sstatus] is the view of [mstatus] through [SSTATUS_MASK]. *)
Lemma sstatus_view s m : M3State.sstatus s = Z.land (M3State.mstatus s m) SSTATUS_MASK.
Proof.
  unfold M3State.sstatus, M3State.mstatus, M3State.sstatus.
  destruct (sie s), (spie s), (spp s), (sum_ s), (mxr s), (mie m), (mpie m), (mpp s);
    vm_compute; reflexivity.
Qed.

Lemma sstatus_in_u s : in_u 32 (M3State.sstatus s).
Proof.
  unfold M3State.sstatus. destruct (sie s), (spie s), (spp s), (sum_ s), (mxr s);
    const_range.
Qed.

Lemma m3_mstatus_in_u s m : in_u 32 (M3State.mstatus s m).
Proof.
  unfold M3State.mstatus. pose proof (sstatus_in_u s) as Hs.
  generalize dependent (M3State.sstatus s). intros z Hz.
  repeat (apply lor_in_u; [lia | |]); [exact Hz | ..].
  - destruct (mie m); const_range.
  - destruct (mpie m); const_range.
  - destruct (mpp s); const_range.
Qed.

Lemma write_sstatus_read s v : M3State.sstatus (M3State.write_sstatus s v) = Z.land v SSTATUS_MASK.
Proof.
  unfold M3State.sstatus, SSTATUS_MASK. cbn.
  replace (Spp.bits (if has_bit v MSTATUS_SPP then Spp_Supervisor else Spp_User))
    with (Z.b2z (has_bit v MSTATUS_SPP)) by (destruct (has_bit v MSTATUS_SPP); reflexivity).
  change MSTATUS_SIE with (2 ^ 1). change MSTATUS_SPIE with (2 ^ 5).
  change MSTATUS_SPP with (2 ^ 8). change MSTATUS_SUM with (2 ^ 18).
  change MSTATUS_MXR with (2 ^ 19).
  rewrite !flag_in_place by lia. rewrite <- !Z.land_lor_distr_r. reflexivity.
Qed.

(** The value a CSR reads after a write of [v], by its write rule ([docs/m3-design.md]
    §5.1). *)
Definition m3_legal (m : CsrFile) (csr v : Z) : option Z :=
  if csr =? MSTATUS then
    Some (Z.lor (Z.land v (Z.lor SSTATUS_MASK 0x88))
                (Z.shiftl (Privilege.bits (legal_mpp (v / 2 ^ 11))) 11))
  else if csr =? SSTATUS then Some (Z.land v SSTATUS_MASK)
  else if csr =? MEDELEG then Some (Z.land v 0xB1FF)
  else if (csr =? MIDELEG) || (csr =? SIE) || (csr =? SIP) then Some 0
  else if (csr =? STVEC) || (csr =? SEPC) then Some (v - v mod 4)
  else if csr =? SATP then Some (Z.land v (not32 0x7FC00000))
  else if (csr =? SSCRATCH) || (csr =? SCAUSE) || (csr =? STVAL) then Some v
  else csr_legal m csr v.

(** [csr] and [csr'] read and write the same bits. *)
Definition aliases (csr csr' : Z) : bool :=
  ((csr =? MSTATUS) && (csr' =? SSTATUS)) || ((csr =? SSTATUS) && (csr' =? MSTATUS)).

(** Rewrites of the CSRs that cannot change a read of [csr']. *)
Lemma m3_write_frame s m csr v s' m' csr' :
  M3State.write s m csr v = Some (s', m') -> csr' <> csr -> aliases csr csr' = false ->
  M3State.read s' m' csr' = M3State.read s m csr'.
Proof.
  unfold M3State.write, CsrFile.write, aliases. intros H Hne Ha.
  csr_cases csr; cbn in H; try discriminate H; injection H as <- <-; try reflexivity.
  all: unfold M3State.read, CsrFile.read, M3State.mstatus, M3State.sstatus; cbn.
  all: csr_cases csr'; cbn in *; try reflexivity; congruence.
Qed.

Lemma m3_write_other s m csr v s' m' :
  M3State.write s m csr v = Some (s', m') ->
  privilege s' = privilege s /\ irq_level m' = irq_level m.
Proof.
  unfold M3State.write, CsrFile.write. intros H.
  csr_cases csr; cbn in H; try discriminate H; injection H as <- <-; split; reflexivity.
Qed.

Lemma mstatus_write_read s m v :
  M3State.mstatus
    (M3State.write_sstatus (set_mpp (legal_mpp (Z.shiftr v MSTATUS_MPP_SHIFT)) s) v)
    (set_mpie (has_bit v MSTATUS_MPIE) (set_mie (has_bit v MSTATUS_MIE) m)) =
  Z.lor (Z.land v (Z.lor SSTATUS_MASK 0x88))
        (Z.shiftl (Privilege.bits (legal_mpp (v / 2 ^ 11))) 11).
Proof.
  unfold M3State.mstatus. rewrite write_sstatus_read. cbn.
  change MSTATUS_MIE with (2 ^ 3). change MSTATUS_MPIE with (2 ^ 7).
  rewrite !flag_in_place by lia. rewrite <- !Z.land_lor_distr_r.
  unfold MSTATUS_MPP_SHIFT. rewrite Z.shiftr_div_pow2 by lia. reflexivity.
Qed.

Lemma m3_write_self s m csr v s' m' :
  CsrFile.ok m -> in_u 32 v ->
  M3State.write s m csr v = Some (s', m') -> M3State.read s' m' csr = m3_legal m csr v.
Proof.
  intros Hm Hv. unfold M3State.write. intros H.
  csr_cases csr; cbn [orb] in H; try discriminate H.
  all: try (apply bind_Some in H; destruct H as (mm & Hw & H); injection H as <- <-;
    pose proof (csr_write_self _ _ _ _ Hm Hv Hw) as Hr; exact Hr).
  all: injection H as <- <-; try reflexivity; unfold M3State.read, m3_legal; cbn -[Z.land not32 Z.sub].
  - rewrite mstatus_write_read. reflexivity.
  - rewrite write_sstatus_read. reflexivity.
  - f_equal. apply align_down4, Hv.
  - f_equal. apply align_down4, Hv.
Qed.

Lemma m3_read_ok s m csr v :
  M3State.ok s -> CsrFile.ok m -> M3State.read s m csr = Some v -> in_u 32 v.
Proof.
  intros Hs Hm. unfold M3State.read. pose proof (m3_mstatus_in_u s m). pose proof (sstatus_in_u s).
  pose proof (csr_read_ok m csr v Hm) as Hread. ok_intro.
  repeat case_if; intros H'; try discriminate H'; try exact (Hread H');
    injection H' as <-; try assumption. apply in_u_0. lia.
Qed.

Lemma m3_supported_spec s m csr : is_supported csr = true <-> is_Some (M3State.read s m csr).
Proof.
  unfold is_supported, SUPPORTED, mem_Z, M3State.read, CsrFile.read. cbn [existsb].
  csr_cases csr; cbn; try (split; intros; [eauto | reflexivity]).
  split; [discriminate | intros []; discriminate].
Qed.

Lemma m3_write_None s m csr v :
  M3State.write s m csr v = None -> is_supported csr = false /\ M3State.read s m csr = None.
Proof.
  unfold M3State.write, CsrFile.write. intros H.
  csr_cases csr; cbn in H; try discriminate H.
  unfold is_supported, mem_Z, SUPPORTED, M3State.read. cbn [existsb].
  csr_cases csr; try congruence. split; reflexivity.
Qed.

(** A CSR write in the M3 profile succeeds exactly on the 19 supported CSRs; the CSR
    then reads the legalised value and, [mstatus] and its view [sstatus] apart, every other
    CSR reads what it did; the invariants of both register files are kept, and writes never
    change the privilege mode. *)
Theorem m3_write_read s m csr v :
  M3State.ok s -> CsrFile.ok m -> in_u 32 v ->
  match M3State.write s m csr v with
  | Some (s', m') =>
      M3State.ok s' /\ CsrFile.ok m' /\ privilege s' = privilege s /\
      irq_level m' = irq_level m /\
      M3State.read s' m' csr = m3_legal m csr v /\
      forall csr', csr' <> csr -> aliases csr csr' = false ->
        M3State.read s' m' csr' = M3State.read s m csr'
  | None => is_supported csr = false /\ M3State.read s m csr = None
  end.
Proof.
  intros Hs Hm Hv. destruct (M3State.write s m csr v) as [[s' m']|] eqn:E.
  - destruct (m3_write_ok _ _ _ _ _ _ Hs Hm Hv E) as [Hs' Hm'].
    destruct (m3_write_other _ _ _ _ _ _ E) as [Hp Hi].
    split_and!; try assumption; [eapply m3_write_self; eassumption |].
    intros. eapply m3_write_frame; eassumption.
  - eapply m3_write_None; eassumption.
Qed.

Lemma m3_write_read_witness :
  M3State.read M3State.new CsrFile.new MSTATUS = Some 0 /\
  exists s' m', M3State.write M3State.new CsrFile.new MSTATUS 0xFFFFF7FF = Some (s', m') /\
    M3State.read s' m' MSTATUS = Some 0x000C01AA.
Proof.
  split; [reflexivity |]. do 2 eexists. split; [reflexivity |].
  pose proof (m3_write_read M3State.new CsrFile.new MSTATUS 0xFFFFF7FF m3_new_ok
    csr_file_new_ok ltac:(const_range)) as (_ & _ & _ & _ & H & _).
  exact H.
Defined.

(** * The access rule *)

(** The supervisor CSRs of the whitelist. *)
Definition supervisor_csr (csr : Z) : bool :=
  mem_Z csr [SSTATUS; SIE; SIP; STVEC; SSCRATCH; SEPC; SCAUSE; STVAL; SATP].

(** On the M3 whitelist, U-mode may access no CSR at all, S-mode exactly the supervisor
    CSRs, and M-mode every CSR; no listed CSR is read-only, so an instruction that writes is
    treated like one that reads. *)
Theorem csr_access_by_mode csr p writes :
  is_supported csr = true ->
  accessible csr p writes =
  match p with User => false | Supervisor => supervisor_csr csr | Machine => true end.
Proof.
  intros H%mem_Z_spec. unfold SUPPORTED in H. rewrite !elem_of_cons in H.
  destruct p, writes;
    repeat (destruct H as [->|H]; [vm_compute; reflexivity |]); inversion H.
Qed.

Lemma csr_access_by_mode_witness :
  is_supported SATP = true /\ accessible SATP Supervisor true = true /\
  accessible SATP User false = false.
Proof.
  split; [reflexivity |].
  split; [rewrite (csr_access_by_mode SATP Supervisor true) | rewrite (csr_access_by_mode SATP User false)];
    reflexivity.
Defined.

(** * Trap entry and return *)

Lemma delegates_spec s c :
  M3State.delegates s c = true <->
  privilege s <> Machine /\ Z.testbit (medeleg s) (TrapCause.code c) = true.
Proof.
  unfold M3State.delegates. rewrite andb_true_iff, negb_true_iff, bool_decide_eq_false, Z.eqb_eq.
  rewrite (land_ones_mod 1) by (lia || reflexivity).
  assert (0 <= TrapCause.code c) by (destruct c; cbn; lia).
  rewrite Z.shiftr_div_pow2, <- Z.testbit_true by lia. reflexivity.
Qed.

(** An exception is delivered to S exactly when it happens below M with its [medeleg]
    bit set; the handler then runs in S at [stvec] with [SIE] off and finds [sepc],
    [scause] and [stval]; and [SRET] returns to the faulting [pc] in the mode the exception
    came from, with [SIE] as it was.  In particular ECALLs from S and M are never delegated
    in a well-formed state. *)
Theorem take_exception_sret s c pc tv :
  M3State.ok s ->
  match M3State.take_exception s c pc tv with
  | Some (handler, s1) =>
      privilege s <> Machine /\ Z.testbit (medeleg s) (TrapCause.code c) = true /\
      c <> EnvironmentCallFromS /\ c <> EnvironmentCall /\
      handler = stvec s /\ privilege s1 = Supervisor /\ sie s1 = false /\
      sepc s1 = pc /\ scause s1 = TrapCause.code c /\ stval s1 = tv /\
      satp s1 = satp s /\ medeleg s1 = medeleg s /\
      let '(resume, s2) := M3State.sret s1 in
      resume = pc /\ privilege s2 = privilege s /\ sie s2 = sie s
  | None => privilege s = Machine \/ Z.testbit (medeleg s) (TrapCause.code c) = false
  end.
Proof.
  intros Hok. unfold M3State.take_exception. destruct (M3State.delegates s c) eqn:E; cbn [negb].
  - apply delegates_spec in E as [Hp Hd].
    assert (Hmask : forall k, 0 <= k < 32 -> Z.testbit MEDELEG_MASK k = false ->
              Z.testbit (medeleg s) k = false).
    { intros k Hk Hm. destruct Hok as (_ & H & _).
      apply (f_equal (fun z => Z.testbit z k)) in H.
      rewrite Z.land_spec, not32_testbit, Hm, Z.bits_0 in H by lia.
      rewrite andb_true_r in H. exact H. }
    assert (Hst : Z.land (stvec s) (not32 3) = stvec s)
      by (ok_intro; apply align_down4_id; assumption).
    destruct (privilege s) eqn:Ep; cbn; rewrite ?Hst; (congruence || idtac);
      split_and!; try congruence; try reflexivity;
      intros ->; cbn [TrapCause.code] in Hd; rewrite Hmask in Hd by (lia || reflexivity); discriminate.
  - apply not_true_iff_false in E. rewrite delegates_spec in E.
    destruct (decide (privilege s = Machine)); [left; assumption | right].
    apply not_true_is_false. intros H. apply E. split; assumption.
Qed.

Lemma take_exception_sret_witness :
  let s := set_medeleg 0x100 (set_stvec 0x80000200 (set_privilege User M3State.new)) in
  M3State.ok s /\
  exists h s1, M3State.take_exception s EnvironmentCallFromU 0x1004 0 = Some (h, s1) /\
    h = 0x80000200 /\ privilege (snd (M3State.sret s1)) = User.
Proof.
  intros s. assert (Hok : M3State.ok s) by (apply (bool_decide_unpack _); vm_compute; exact I).
  split; [assumption |]. do 2 eexists. split; [reflexivity |].
  pose proof (take_exception_sret s EnvironmentCallFromU 0x1004 0 Hok) as H. cbn in H.
  destruct H as (_ & _ & _ & _ & _ & _ & _ & _ & _ & _ & _ & _ & _ & H & _).
  split; [reflexivity | exact H].
Defined.

(** The machine external interrupt of the M3 profile is taken from any mode into M: it
    saves the mode and the [pc], cannot be taken again while [MIE] is clear, and [MRET]
    resumes at that [pc] in that mode with the interrupt enable of before and [MPP] reset
    to U. *)
Theorem m3_mei_mret_roundtrip s m pc :
  M3State.mei_eligible s m = true ->
  let '(handler, (s1, m1)) := M3State.take_mei s m pc in
  let '(resume, (s2, m2)) := M3State.mret s1 m1 in
  handler = mtvec m /\ privilege s1 = Machine /\ M3State.mei_eligible s1 m1 = false /\
  mepc m1 = pc /\ mcause m1 = MEI_CAUSE /\
  resume = pc /\ privilege s2 = privilege s /\ mie m2 = mie m /\
  M3State.mei_eligible s2 m2 = true /\ mpp s2 = User /\
  satp s2 = satp s /\ sie s2 = sie s /\ sepc s2 = sepc s.
Proof.
  unfold M3State.mei_eligible. intros H. unbool. cbn.
  repeat split; try reflexivity; rewrite ?andb_false_r; try reflexivity.
  rewrite !andb_true_iff. auto.
Qed.

Lemma m3_mei_mret_roundtrip_witness :
  let s := set_privilege User M3State.new in
  let m := mkCsrFile false false true 0x100 0 0 0 0 true in
  M3State.mei_eligible s m = true /\
  privilege (fst (snd (M3State.mret (fst (snd (M3State.take_mei s m 0x40)))
                                    (snd (snd (M3State.take_mei s m 0x40)))))) = User.
Proof.
  intros s m. split; [reflexivity |].
  pose proof (m3_mei_mret_roundtrip s m 0x40 eq_refl) as (_ & _ & _ & _ & _ & _ & H & _). exact H.
Defined.
