(* ===== verification/Sv32.v ===== *)
(** Sv32 translation, [components/rv32i/src/sv32.rs].

    The walk is proved equal to a specification written from the privileged architecture
    (two levels, PTEs as records of flags), for every satp, mode, access and memory: with
    the reads it makes, the 34-bit bound on what it produces, and the permissions it
    enforces. *)
From stdpp Require Import base numbers list option.
From Stdlib Require Import ZArith Lia.
From S2P Require Import Prelude Instr Execute Privileged.

Local Open Scope Z_scope.

Definition PTE_V : Z := Z.shiftl 1 0.
Definition PTE_R : Z := Z.shiftl 1 1.
Definition PTE_W : Z := Z.shiftl 1 2.
Definition PTE_X : Z := Z.shiftl 1 3.
Definition PTE_U : Z := Z.shiftl 1 4.
Definition PTE_G : Z := Z.shiftl 1 5.
Definition PTE_A : Z := Z.shiftl 1 6.
Definition PTE_D : Z := Z.shiftl 1 7.

Definition PAGE_SIZE : Z := 4096.
Definition PA_BITS : Z := 34.

Inductive Access : Set := Access_Fetch | Access_Load | Access_Store.

#[export] Instance Access_eq_dec : EqDecision Access.
Proof. solve_decision. Defined.

Module Access.
Definition page_fault (a : Access) : TrapCause :=
  match a with
  | Access_Fetch => InstructionPageFault
  | Access_Load => LoadPageFault
  | Access_Store => StorePageFault
  end.

Definition access_fault (a : Access) : TrapCause :=
  match a with
  | Access_Fetch => InstructionAccessFault
  | Access_Load => LoadAccessFault
  | Access_Store => StoreAccessFault
  end.
End Access.

Record Context : Set := mkContext {
  ctx_privilege : Privilege; ctx_sum : bool; ctx_mxr : bool; ctx_access : Access }.

Inductive Fault : Set := Fault_Page | Fault_Access.

#[export] Instance Fault_eq_dec : EqDecision Fault.
Proof. solve_decision. Defined.

Module Fault.
Definition cause (f : Fault) (a : Access) : TrapCause :=
  match f with
  | Fault_Page => Access.page_fault a
  | Fault_Access => Access.access_fault a
  end.
End Fault.

Inductive Step : Set :=
| Step_Next (table : Z)
| Step_Leaf (pa : Z)
| Step_PageFault.

Definition vpn (va level : Z) : Z := Z.land (Z.shiftr va (12 + 10 * level)) 0x3FF.

Definition pte_address (table va level : Z) : Z := table * PAGE_SIZE + vpn va level * 4.

Definition step (ctx : Context) (va level pte : Z) : Step :=
  let has bit := has_bit pte bit in
  if negb (has PTE_V) || (negb (has PTE_R) && has PTE_W) then Step_PageFault
  else
    let ppn := Z.shiftr pte 10 in
    if negb (has PTE_R) && negb (has PTE_X) then
      if (level =? 0) || has (Z.lor (Z.lor PTE_D PTE_A) PTE_U) then Step_PageFault
      else Step_Next ppn
    else if (level =? 1) && negb (Z.land ppn 0x3FF =? 0) then Step_PageFault
    else
      let user_ok :=
        match ctx_privilege ctx with
        | User => has PTE_U
        | Supervisor =>
            negb (has PTE_U)
            || (ctx_sum ctx && negb (bool_decide (ctx_access ctx = Access_Fetch)))
        | Machine => true
        end in
      let allowed :=
        match ctx_access ctx with
        | Access_Fetch => has PTE_X
        | Access_Load => has PTE_R || (ctx_mxr ctx && has PTE_X)
        | Access_Store => has PTE_W
        end in
      let dirty_ok := negb (bool_decide (ctx_access ctx = Access_Store)) || has PTE_D in
      if negb user_ok || negb allowed || negb (has PTE_A) || negb dirty_ok then Step_PageFault
      else
        Step_Leaf
          (if level =? 1
           then Z.lor (Z.shiftl (Z.shiftr pte 20) 22) (Z.land va 0x003FFFFF)
           else Z.lor (Z.shiftl ppn 12) (Z.land va 0xFFF)).

Section translate.
(** The state a PTE reader may keep ([FnMut]). *)
Context {St : Type} (read_pte : Z -> St -> St * option Z).

(** The [loop] of [sv32_translate], [None] when [fuel] iterations are not enough. *)
Fixpoint walk_loop (fuel : nat) (ctx : Context) (va table level : Z) (st : St) :
    St * option (result Fault Z) :=
  match fuel with
  | O => (st, None)
  | S fuel =>
      match read_pte (pte_address table va level) st with
      | (st, None) => (st, Some (Err Fault_Access))
      | (st, Some pte) =>
          match step ctx va level pte with
          | Step_Next next => walk_loop fuel ctx va next (level - 1) st
          | Step_Leaf pa => (st, Some (Ok pa))
          | Step_PageFault => (st, Some (Err Fault_Page))
          end
      end
  end.

Definition sv32_translate (fuel : nat) (satp : Z) (p : Privilege) (sum mxr : bool)
    (access : Access) (va : Z) (st : St) : St * option (result Fault Z) :=
  if bool_decide (p = Machine) || (Z.land satp SATP_MODE =? 0) then (st, Some (Ok va))
  else
    let ctx := mkContext p sum mxr access in
    walk_loop fuel ctx va (Z.land satp SATP_PPN) 1 st.
End translate.

(** * The specification *)

(** A PTE as the privileged architecture lays it out. *)
Record Pte : Set := mkPte {
  pV : bool; pR : bool; pW : bool; pX : bool; pU : bool; pA : bool; pD : bool; pPPN : Z }.

Definition pte_view (pte : Z) : Pte :=
  mkPte (Z.testbit pte 0) (Z.testbit pte 1) (Z.testbit pte 2) (Z.testbit pte 3)
        (Z.testbit pte 4) (Z.testbit pte 6) (Z.testbit pte 7) (pte / 2 ^ 10).

Definition pte_valid (p : Pte) : bool := pV p && (pR p || negb (pW p)).
Definition pte_leaf (p : Pte) : bool := pR p || pX p.

(** Whether a leaf allows the access: its kind, the mode's page rule, and Svade. *)
Definition pte_allows (ctx : Context) (p : Pte) : bool :=
  match ctx_access ctx with
  | Access_Fetch => pX p
  | Access_Load => pR p || (ctx_mxr ctx && pX p)
  | Access_Store => pW p && pD p
  end
  && pA p
  && match ctx_privilege ctx with
     | User => pU p
     | Supervisor =>
         if pU p then ctx_sum ctx && negb (bool_decide (ctx_access ctx = Access_Fetch)) else true
     | Machine => true
     end.

(** The two-level walk over a memory of PTEs, and the addresses it reads. *)
Definition sv32_spec (satp : Z) (ctx : Context) (va : Z) (mem : Z -> option Z) :
    list Z * result Fault Z :=
  if bool_decide (ctx_privilege ctx = Machine) || negb (Z.testbit satp 31) then ([], Ok va)
  else
    let a1 := (satp mod 2 ^ 22) * 4096 + (va / 2 ^ 22) mod 2 ^ 10 * 4 in
    match pte_view <$> mem a1 with
    | None => ([a1], Err Fault_Access)
    | Some p1 =>
        if negb (pte_valid p1) then ([a1], Err Fault_Page)
        else if pte_leaf p1 then
          ([a1], if (pPPN p1 mod 2 ^ 10 =? 0) && pte_allows ctx p1
                 then Ok (pPPN p1 / 2 ^ 10 * 2 ^ 22 + va mod 2 ^ 22) else Err Fault_Page)
        else if pD p1 || pA p1 || pU p1 then ([a1], Err Fault_Page)
        else
          let a0 := pPPN p1 * 4096 + (va / 2 ^ 12) mod 2 ^ 10 * 4 in
          ([a1; a0],
           match pte_view <$> mem a0 with
           | None => Err Fault_Access
           | Some p0 =>
               if pte_valid p0 && pte_leaf p0 && pte_allows ctx p0
               then Ok (pPPN p0 * 2 ^ 12 + va mod 2 ^ 12) else Err Fault_Page
           end)
    end.

(** A reader over a memory that logs the addresses. *)
Definition logged (mem : Z -> option Z) (addr : Z) (log : list Z) : list Z * option Z :=
  (log ++ [addr], mem addr).

(** ** One step *)

Lemma has_bit_lor pte x y : has_bit pte (Z.lor x y) = has_bit pte x || has_bit pte y.
Proof.
  unfold has_bit. rewrite Z.land_lor_distr_r.
  destruct (Z.eqb_spec (Z.land pte x) 0) as [->|Hx], (Z.eqb_spec (Z.land pte y) 0) as [Hy|Hy];
    cbn [negb orb]; try (rewrite ?Hy; reflexivity); apply negb_true_iff, Z.eqb_neq;
    rewrite ?Z.lor_0_l; try assumption; intros [? ?]%Z.lor_eq_0_iff; congruence.
Qed.

Lemma vpn_spec va level :
  0 <= level -> vpn va level = (va / 2 ^ (12 + 10 * level)) mod 2 ^ 10.
Proof. intros. unfold vpn. bits_to_arith. reflexivity. Qed.

Definition step_spec (ctx : Context) (va level : Z) (p : Pte) : Step :=
  if negb (pte_valid p) then Step_PageFault
  else if pte_leaf p then
    if level =? 1 then
      if (pPPN p mod 2 ^ 10 =? 0) && pte_allows ctx p
      then Step_Leaf (pPPN p / 2 ^ 10 * 2 ^ 22 + va mod 2 ^ 22) else Step_PageFault
    else if pte_allows ctx p then Step_Leaf (pPPN p * 2 ^ 12 + va mod 2 ^ 12)
    else Step_PageFault
  else if (level =? 0) || pD p || pA p || pU p then Step_PageFault
  else Step_Next (pPPN p).

Lemma step_correct ctx va level pte :
  in_u 32 pte -> step ctx va level pte = step_spec ctx va level (pte_view pte).
Proof.
  intros Hp. unfold step. rewrite !has_bit_lor.
  change PTE_V with (2 ^ 0). change PTE_R with (2 ^ 1). change PTE_W with (2 ^ 2).
  change PTE_X with (2 ^ 3). change PTE_U with (2 ^ 4). change PTE_A with (2 ^ 6).
  change PTE_D with (2 ^ 7). rewrite !has_bit_pow2 by lia.
  unfold step_spec, pte_valid, pte_leaf, pte_allows, pte_view.
  cbn [pV pR pW pX pU pA pD pPPN].
  assert (H1 : Z.lor (Z.shiftl (Z.shiftr pte 20) 22) (Z.land va 0x003FFFFF)
               = pte / 2 ^ 10 / 2 ^ 10 * 2 ^ 22 + va mod 2 ^ 22).
  { rewrite (land_ones_mod 22 va) by (lia || reflexivity).
    rewrite lor_shiftl_add by (lia || apply Z.mod_pos_bound; lia).
    rewrite Z.shiftr_div_pow2, Z.div_div by lia. reflexivity. }
  assert (H2 : Z.lor (Z.shiftl (Z.shiftr pte 10) 12) (Z.land va 0xFFF)
               = pte / 2 ^ 10 * 2 ^ 12 + va mod 2 ^ 12).
  { rewrite (land_ones_mod 12 va) by (lia || reflexivity).
    rewrite lor_shiftl_add by (lia || apply Z.mod_pos_bound; lia).
    rewrite Z.shiftr_div_pow2 by lia. reflexivity. }
  rewrite H1, H2. rewrite (land_ones_mod 10) by (lia || reflexivity).
  rewrite (Z.shiftr_div_pow2 pte 10) by lia.
  generalize (pte / 2 ^ 10) as ppn. intros ppn.
  destruct (Z.testbit pte 0), (Z.testbit pte 1), (Z.testbit pte 2), (Z.testbit pte 3);
    cbn [negb andb orb]; try reflexivity.
  all: destruct (level =? 1), (Z.testbit pte 6), (Z.testbit pte 7), (Z.testbit pte 4),
    (ctx_privilege ctx), (ctx_access ctx), (ctx_sum ctx), (ctx_mxr ctx);
    cbn; try reflexivity; destruct (_ =? 0); reflexivity.
Qed.

(** ** The walk *)

Definition mem_ok (mem : Z -> option Z) : Prop := forall a v, mem a = Some v -> in_u 32 v.

Lemma satp_root satp : Z.land satp SATP_PPN = satp mod 2 ^ 22.
Proof. apply (land_ones_mod 22); [lia | reflexivity]. Qed.

Lemma satp_mode satp : (Z.land satp SATP_MODE =? 0) = negb (Z.testbit satp 31).
Proof.
  change SATP_MODE with (2 ^ 31). rewrite <- has_bit_pow2 by lia. unfold has_bit.
  symmetry. apply negb_involutive.
Qed.

Lemma walk_correct fuel satp ctx va mem log :
  (2 <= fuel)%nat -> mem_ok mem -> ctx_privilege ctx <> Machine -> Z.testbit satp 31 = true ->
  walk_loop (logged mem) fuel ctx va (Z.land satp SATP_PPN) 1 log =
  let '(reads, r) := sv32_spec satp ctx va mem in (log ++ reads, Some r).
Proof.
  intros Hf Hmem Hp Hs. unfold sv32_spec.
  rewrite (bool_decide_eq_false_2 _ Hp), Hs. cbn [orb negb].
  destruct fuel as [|[|fuel]]; [lia | lia |].
  cbn [walk_loop]. unfold logged, pte_address.
  rewrite satp_root, (vpn_spec va 1) by lia. change (12 + 10 * 1) with 22. unfold PAGE_SIZE.
  destruct (mem (satp mod 2 ^ 22 * 4096 + (va / 2 ^ 22) mod 2 ^ 10 * 4)) as [pte1|] eqn:E1;
    cbn [fmap option_fmap option_map]; [|reflexivity].
  rewrite step_correct by (eapply Hmem; eassumption). unfold step_spec at 1.
  destruct (pte_valid (pte_view pte1)); cbn [negb]; [|reflexivity].
  destruct (pte_leaf (pte_view pte1)).
  { cbn [Z.eqb Pos.eqb]. destruct (_ && _); reflexivity. }
  change (1 =? 0) with false. cbn [orb].
  destruct (pD (pte_view pte1) || pA (pte_view pte1) || pU (pte_view pte1)); [reflexivity |].
  change (1 - 1) with 0. rewrite (vpn_spec va 0), <- app_assoc by lia. change (12 + 10 * 0) with 12.
  set (a0 := pPPN (pte_view pte1) * 4096 + (va / 2 ^ 12) mod 2 ^ 10 * 4).
  cbn [app]. destruct (mem a0) as [pte0|] eqn:E0; cbn [fmap option_fmap option_map]; [|reflexivity].
  rewrite step_correct by (eapply Hmem; eassumption). unfold step_spec.
  destruct (pte_valid (pte_view pte0)), (pte_leaf (pte_view pte0)); cbn [negb andb]; try reflexivity.
  change (0 =? 1) with false. destruct (pte_allows ctx (pte_view pte0)); reflexivity.
Qed.

Lemma translate_correct fuel satp p sum mxr acc va mem log :
  (2 <= fuel)%nat -> mem_ok mem ->
  sv32_translate (logged mem) fuel satp p sum mxr acc va log =
  let '(reads, r) := sv32_spec satp (mkContext p sum mxr acc) va mem in (log ++ reads, Some r).
Proof.
  intros Hf Hmem. unfold sv32_translate. rewrite satp_mode.
  destruct (bool_decide (p = Machine)) eqn:Ep; cbn [orb].
  { unfold sv32_spec. cbn [ctx_privilege]. rewrite Ep. cbn [orb]. rewrite app_nil_r. reflexivity. }
  destruct (Z.testbit satp 31) eqn:Es; cbn [negb].
  - apply bool_decide_eq_false in Ep. apply walk_correct; assumption.
  - unfold sv32_spec. rewrite Es, orb_true_r, app_nil_r. reflexivity.
Qed.

(** C18: [sv32_translate] computes the Sv32 translation of the privileged architecture for
    every [satp], mode, [SUM], [MXR], access and memory of page tables, in at most two PTE
    reads at the addresses the architecture names; two iterations of its loop always
    suffice, so it terminates. *)
Theorem sv32_translate_correct fuel satp p sum mxr acc va mem :
  (2 <= fuel)%nat -> mem_ok mem ->
  sv32_translate (logged mem) fuel satp p sum mxr acc va [] =
  let '(reads, r) := sv32_spec satp (mkContext p sum mxr acc) va mem in (reads, Some r).
Proof. intros Hf Hmem. rewrite translate_correct by assumption. reflexivity. Qed.

(** A page table at physical page 1 mapping the virtual page 0 to the physical page 3, user
    read-only. *)
Definition example_tables (a : Z) : option Z :=
  if a =? 0x1000 then Some (2 * 2 ^ 10 + 0x01)
  else if a =? 0x2000 then Some (3 * 2 ^ 10 + 0x53)
  else None.

Lemma example_tables_ok : mem_ok example_tables.
Proof.
  intros a v. unfold example_tables.
  repeat case_if; intros [= <-]; const_range.
Qed.

Lemma sv32_translate_correct_witness :
  mem_ok example_tables /\
  sv32_translate (logged example_tables) 2 (2 ^ 31 + 1) User false false Access_Load 0x123 [] =
  ([0x1000; 0x2000], Some (Ok 0x3123)).
Proof.
  split; [apply example_tables_ok |].
  rewrite sv32_translate_correct; [vm_compute; reflexivity | lia | apply example_tables_ok].
Defined.

(** ** What a translation guarantees *)

Lemma pPPN_range pte : in_u 32 pte -> in_u 22 (pPPN (pte_view pte)).
Proof. intros Hp. cbn. word_lia. Qed.

(** A successful walk ends at a leaf of the tables that allows the access, and its address
    is that leaf's page with the page offset kept. *)
Lemma sv32_spec_leaf satp ctx va mem reads pa :
  ctx_privilege ctx <> Machine -> Z.testbit satp 31 = true ->
  sv32_spec satp ctx va mem = (reads, Ok pa) ->
  exists a pte, a ∈ reads /\ mem a = Some pte /\
    pte_valid (pte_view pte) = true /\ pte_leaf (pte_view pte) = true /\
    pte_allows ctx (pte_view pte) = true /\
    (pa = pPPN (pte_view pte) * 2 ^ 12 + va mod 2 ^ 12 \/
     pPPN (pte_view pte) mod 2 ^ 10 = 0 /\
     pa = pPPN (pte_view pte) * 2 ^ 12 + va mod 2 ^ 22).
Proof.
  intros Hp Hs. unfold sv32_spec. rewrite (bool_decide_eq_false_2 _ Hp), Hs. cbn [orb negb].
  set (a1 := satp mod 2 ^ 22 * 4096 + _).
  destruct (mem a1) as [p1|] eqn:E1; cbn [fmap option_fmap option_map]; [|intros [=]].
  destruct (pte_valid (pte_view p1)) eqn:V1; cbn [negb]; [|intros [=]].
  destruct (pte_leaf (pte_view p1)) eqn:L1.
  { destruct (_ && _) eqn:A1; intros [= <- <-]. unbool.
    exists a1, p1. split_and!; try assumption; [left |]. right.
    split; [assumption |]. cbn [pPPN pte_view] in *. word_lia. }
  destruct (pD _ || pA _ || pU _); [intros [=] |].
  set (a0 := pPPN (pte_view p1) * 4096 + _).
  destruct (mem a0) as [p0|] eqn:E0; cbn [fmap option_fmap option_map]; [|intros [=]].
  destruct (_ && _) eqn:A0; intros [= <- <-]. unbool.
  exists a0, p0. split_and!; try assumption; [right; left |]. left. reflexivity.
Qed.

(** Membership in a literal list, one goal per element, each closed by assumption. *)
Ltac elem_cases :=
  let H := fresh in
  intros H; repeat (apply elem_of_cons in H as [->|H]; [assumption |]);
  apply elem_of_nil in H; contradiction.

Lemma sv32_spec_reads satp ctx va mem a :
  in_u 32 satp -> in_u 32 va -> mem_ok mem -> a ∈ fst (sv32_spec satp ctx va mem) ->
  in_u 34 a /\ a mod 4 = 0.
Proof.
  intros Hs Hv Hmem. unfold sv32_spec. destruct (_ || _); [cbn; elem_cases |].
  set (a1 := satp mod 2 ^ 22 * 4096 + _).
  assert (H1 : in_u 34 a1 /\ a1 mod 4 = 0) by (unfold a1; split; word_lia).
  destruct (mem a1) as [p1|] eqn:E1; cbn [fmap option_fmap option_map]; [|cbn; elem_cases].
  pose proof (pPPN_range p1 (Hmem _ _ E1)) as Hppn.
  set (a0 := pPPN (pte_view p1) * 4096 + _).
  assert (H0 : in_u 34 a0 /\ a0 mod 4 = 0) by (unfold a0; split; word_lia).
  clearbody a0 a1. repeat case_if; cbn; elem_cases.
Qed.

(** Whatever the page tables hold, a translation of a 32-bit address reads only aligned
    PTE addresses below [2^34] and yields a physical address below [2^34] that keeps the
    page offset. *)
Theorem sv32_translate_bounds satp p sum mxr acc va mem reads pa :
  in_u 32 satp -> in_u 32 va -> mem_ok mem ->
  sv32_translate (logged mem) 2 satp p sum mxr acc va [] = (reads, Some (Ok pa)) ->
  in_u PA_BITS pa /\ pa mod PAGE_SIZE = va mod PAGE_SIZE /\
  (length reads <= 2)%nat /\ forall a, a ∈ reads -> in_u PA_BITS a /\ a mod 4 = 0.
Proof.
  intros Hs Hv Hmem. rewrite translate_correct by (lia || assumption).
  set (ctx := mkContext p sum mxr acc).
  destruct (sv32_spec satp ctx va mem) as [rs r] eqn:E. intros [= <- ->]. cbn [app].
  assert (Hreads : forall a, a ∈ rs -> in_u PA_BITS a /\ a mod 4 = 0).
  { intros a Ha. apply (sv32_spec_reads satp ctx va mem); try assumption. rewrite E. exact Ha. }
  assert (Hlen : (length rs <= 2)%nat).
  { replace rs with (fst (sv32_spec satp ctx va mem)) by (rewrite E; reflexivity).
    unfold sv32_spec. destruct (_ || _); [cbn; lia |].
    destruct (pte_view <$> mem _); [repeat case_if |]; cbn; lia. }
  enough (in_u PA_BITS pa /\ pa mod PAGE_SIZE = va mod PAGE_SIZE) by (split_and!; tauto).
  unfold PA_BITS, PAGE_SIZE in *.
  destruct (decide (p = Machine)) as [->|Hp].
  { unfold sv32_spec in E. cbn in E. injection E as <- <-. split; [word_lia | reflexivity]. }
  destruct (Z.testbit satp 31) eqn:Em.
  2:{ unfold sv32_spec in E. rewrite Em, orb_true_r in E. injection E as <- <-.
      split; [word_lia | reflexivity]. }
  destruct (sv32_spec_leaf satp ctx va mem rs pa Hp Em E) as (a & pte & _ & Ha & _ & _ & _ & Hpa).
  pose proof (pPPN_range pte (Hmem _ _ Ha)). destruct Hpa as [->|[? ->]]; split; word_lia.
Qed.

Lemma sv32_translate_bounds_witness : in_u PA_BITS 0x3123 /\ 0x3123 mod PAGE_SIZE = 0x123 mod PAGE_SIZE.
Proof.
  pose proof (sv32_translate_bounds (2 ^ 31 + 1) User false false Access_Load 0x123 example_tables
    [0x1000; 0x2000] 0x3123 ltac:(const_range) ltac:(const_range) example_tables_ok
    ltac:(vm_compute; reflexivity)) as (H1 & H2 & _).
  split; [exact H1 | exact H2].
Defined.

(** Protection.  A translated access succeeds only through a leaf PTE with [V] and [A]
    set that grants it: [X] for a fetch, [R] (or [X] under [MXR]) for a load, [W] and [D]
    for a store; from U-mode the page is a user page, and S-mode reaches a user page only
    under [SUM] and never to fetch. *)
Theorem sv32_protection satp p sum mxr acc va mem reads pa :
  mem_ok mem -> p <> Machine -> Z.testbit satp 31 = true ->
  sv32_translate (logged mem) 2 satp p sum mxr acc va [] = (reads, Some (Ok pa)) ->
  exists a pte, a ∈ reads /\ mem a = Some pte /\
    Z.testbit pte 0 = true /\ Z.testbit pte 6 = true /\
    match acc with
    | Access_Fetch => Z.testbit pte 3 = true
    | Access_Load => Z.testbit pte 1 = true \/ mxr = true /\ Z.testbit pte 3 = true
    | Access_Store => Z.testbit pte 2 = true /\ Z.testbit pte 7 = true
    end /\
    (p = User -> Z.testbit pte 4 = true) /\
    (p = Supervisor -> Z.testbit pte 4 = true -> sum = true /\ acc <> Access_Fetch).
Proof.
  intros Hmem Hp Em. rewrite translate_correct by (lia || assumption).
  destruct (sv32_spec _ _ _ _) as [rs r] eqn:E. intros [= <- ->]. cbn [app].
  destruct (sv32_spec_leaf satp (mkContext p sum mxr acc) va mem rs pa Hp Em E)
    as (a & pte & Ha & Hm & Hv & Hl & Hal & _).
  exists a, pte. unfold pte_valid, pte_allows, pte_view in *.
  cbn [pV pR pW pX pU pA pD ctx_access ctx_privilege ctx_mxr ctx_sum] in *.
  unbool. split_and!; try assumption.
  - destruct acc; unbool; auto.
    match goal with H : (Z.testbit pte 1 || _)%bool = true |- _ =>
      apply orb_true_iff in H as [H|H]; unbool; auto end.
  - intros ->. assumption.
  - intros -> Hu. rewrite Hu in *. destruct acc, sum; cbn in *; unbool; auto; try discriminate.
Qed.

Lemma sv32_protection_witness :
  exists a pte, a ∈ [0x1000; 0x2000] /\ example_tables a = Some pte /\ Z.testbit pte 4 = true.
Proof.
  destruct (sv32_protection (2 ^ 31 + 1) User false false Access_Load 0x123 example_tables
    [0x1000; 0x2000] 0x3123 example_tables_ok ltac:(discriminate) ltac:(reflexivity)
    ltac:(vm_compute; reflexivity)) as (a & pte & Ha & Hm & _ & _ & _ & Hu & _).
  exists a, pte. auto.
Defined.
