(* ===== verification/Cpu.v ===== *)
(** The RV32I CPU component, [components/rv32i/src/cpu.rs]: fetch, execute, memory access,
    Sv32 walk and commit as handlers of runtime events, for the three profiles.

    A handler is a computation in [ST (Rv32iCpu * C) Failure]: it mutates the CPU and the
    context [C] it is given, and may return a [SimError] or panic; the state reached when
    it stops is kept.  The properties are in [CpuProofs], the snapshot in [CpuSnapshot]. *)
From stdpp Require Import base numbers list option strings.
From Stdlib Require Import ZArith Lia.
From S2P Require Import Prelude Contracts Handlers Instr Decode Execute Memory Csr Privileged Sv32.

Local Open Scope string_scope.
Local Open Scope list_scope.
Local Open Scope Z_scope.

Definition PORT : Z := 0.
Definition IRQ_PORT : Z := 1.

Definition FETCH : Z := 0.
Definition MEMORY : Z := 1.
Definition COMMIT : Z := 2.
Definition WALK : Z := 3.

Definition COMMIT_KIND : string := "rv32.commit".
Definition TRAP_KIND : string := "rv32.trap".
Definition HALT_KIND : string := "rv32.halt".
Definition INTERRUPT_KIND : string := "rv32.interrupt".
Definition EXCEPTION_KIND : string := "rv32.exception".

Inductive Rv32iProfile : Set := M1 | M2 | M3.

Record Rv32iConfig : Set := mkRv32iConfig {
  clock : Z; entry : Z; max_instructions : Z; profile : Rv32iProfile }.

Inductive CpuConfigError : Set := MisalignedEntry (entry : Z).

Record RvTrap : Set := mkRvTrap { trap_cause : TrapCause; trap_pc : Z; trap_tval : Z }.

Inductive Halt : Set := Halt_Trap (t : RvTrap) | Halt_InstructionLimit.

Record PendingCsr : Set := mkPendingCsr {
  pc_csr : Z; pc_op : CsrOp; pc_write : bool; pc_operand : Z; pc_rd : Reg; pc_next_pc : Z }.

Inductive Outcome : Set :=
| Outcome_Exec (o : ExecOutcome)
| Outcome_Csr (op : PendingCsr)
| Outcome_Mret
| Outcome_Sret.

Inductive Purpose : Set :=
| Purpose_Fetch
| Purpose_Data (insn : Z) (plan : MemoryPlan).

Record Walk : Set := mkWalk { purpose : Purpose; level : Z; table : Z }.

Inductive State : Set :=
| State_FetchIssue (pa : option Z)
| State_FetchWait (txn : Z) (pa : option Z)
| State_MemIssue (insn : Z) (plan : MemoryPlan) (pa : option Z)
| State_MemWait (txn insn : Z) (plan : MemoryPlan) (pa : option Z)
| State_WalkIssue (walk : Walk)
| State_WalkWait (txn : Z) (walk : Walk)
| State_CommitPending (insn : option Z) (outcome : Outcome) (pa : option Z)
| State_Halted (halt : Halt).

#[export] Instance Rv32iProfile_eq_dec : EqDecision Rv32iProfile.
Proof. solve_decision. Defined.
#[export] Instance Rv32iConfig_eq_dec : EqDecision Rv32iConfig.
Proof. solve_decision. Defined.
#[export] Instance RvTrap_eq_dec : EqDecision RvTrap.
Proof. solve_decision. Defined.
#[export] Instance Halt_eq_dec : EqDecision Halt.
Proof. solve_decision. Defined.
#[export] Instance PendingCsr_eq_dec : EqDecision PendingCsr.
Proof. solve_decision. Defined.
#[export] Instance Outcome_eq_dec : EqDecision Outcome.
Proof. solve_decision. Defined.
#[export] Instance Purpose_eq_dec : EqDecision Purpose.
Proof. solve_decision. Defined.
#[export] Instance Walk_eq_dec : EqDecision Walk.
Proof. solve_decision. Defined.
#[export] Instance State_eq_dec : EqDecision State.
Proof. solve_decision. Defined.

Module Purpose.
Definition access (p : Purpose) : Access :=
  match p with
  | Purpose_Fetch => Access_Fetch
  | Purpose_Data _ (Plan_Load _) => Access_Load
  | Purpose_Data _ (Plan_Store _) => Access_Store
  end.
End Purpose.

Definition plan_addr (plan : MemoryPlan) : Z :=
  match plan with
  | Plan_Load load => lp_addr load
  | Plan_Store store => sp_addr store
  end.

Module State.
Definition name (s : State) : string :=
  match s with
  | State_FetchIssue _ => "fetch_issue"
  | State_FetchWait _ _ => "fetch_wait"
  | State_MemIssue _ _ _ => "mem_issue"
  | State_MemWait _ _ _ _ => "mem_wait"
  | State_WalkIssue _ => "walk_issue"
  | State_WalkWait _ _ => "walk_wait"
  | State_CommitPending _ _ _ => "commit_pending"
  | State_Halted _ => "halted"
  end.
End State.

(** * Executing a fetched word *)

Inductive CpuStep : Set :=
| Done (outcome : Outcome)
| NeedsMemory (plan : MemoryPlan).

#[export] Instance CpuStep_eq_dec : EqDecision CpuStep.
Proof. solve_decision. Defined.

Inductive Isa : Set := Isa_M1 | Isa_M2 | Isa_M3 (mode : Privilege).

Definition illegal (word : Z) : Outcome :=
  Outcome_Exec (Exec_Trap (mkTrap IllegalInstruction word)).

Definition csr_operation (op : CsrOp) (rd : Reg) (src : CsrSource) (csr : Z) (write : bool)
    (pc : Z) (regs : RegisterFile.t) : PendingCsr :=
  mkPendingCsr csr op write
    (match src with
     | CsrSource_Reg rs1 => RegisterFile.read regs rs1
     | CsrSource_Imm uimm => uimm
     end)
    rd (add32 pc 4).

Definition privileged (instr : PrivInstr) (word pc : Z) (regs : RegisterFile.t) : Outcome :=
  match instr with
  | Mret => Outcome_Mret
  | Csr op rd src csr =>
      if negb (Csr.is_supported csr) then illegal word
      else Outcome_Csr (csr_operation op rd src csr (PrivInstr.writes instr) pc regs)
  end.

Definition privileged_m3 (mode : Privilege) (word pc : Z) (regs : RegisterFile.t) :
    option Outcome :=
  match decode_privileged word with
  | Some instr =>
      Some match instr with
           | Mret => if bool_decide (mode = Machine) then Outcome_Mret else illegal word
           | Csr op rd src csr =>
               if negb (Privileged.is_supported csr)
                  || negb (accessible csr mode (PrivInstr.writes instr))
               then illegal word
               else Outcome_Csr (csr_operation op rd src csr (PrivInstr.writes instr) pc regs)
           end
  | None =>
      instr ← decode_supervisor word;
      Some (if bool_decide (mode = User) then illegal word
            else match instr with
                 | Sret => Outcome_Sret
                 | SfenceVma => Outcome_Exec (Exec_Effect (mkEffect None (add32 pc 4)))
                 end)
  end.

Definition ecall_cause (isa : Isa) (outcome : ExecOutcome) : ExecOutcome :=
  match isa, outcome with
  | Isa_M3 mode, Exec_Trap (mkTrap EnvironmentCall tval) =>
      Exec_Trap (mkTrap (match mode with
                         | User => EnvironmentCallFromU
                         | Supervisor => EnvironmentCallFromS
                         | Machine => EnvironmentCall
                         end) tval)
  | _, outcome => outcome
  end.

Definition sources (instr : Instr) : Reg * Reg :=
  match instr with
  | Jalr _ rs1 _ | Load _ _ rs1 _ | OpImm _ _ rs1 _ | ShiftImm _ _ rs1 _ => (rs1, Reg.ZERO)
  | Branch _ rs1 rs2 _ | Store _ rs1 rs2 _ | Op _ _ rs1 rs2 => (rs1, rs2)
  | Lui _ _ | Auipc _ _ | Jal _ _ | Fence | Ecall | Ebreak => (Reg.ZERO, Reg.ZERO)
  end.

(** [Result::ok]. *)
Definition ok {E A} (r : result E A) : option A :=
  match r with Ok a => Some a | Err _ => None end.

(** The RV32I part of [step], [None] where its [expect] would panic. *)
Definition step_family (isa : Isa) (instr : Instr) (pc : Z) (regs : RegisterFile.t) :
    option CpuStep :=
  let '(rs1, rs2) := sources instr in
  let a := RegisterFile.read regs rs1 in
  let b := RegisterFile.read regs rs2 in
  match instr with
  | Lui _ _ | Auipc _ _ | OpImm _ _ _ _ | ShiftImm _ _ _ _ | Op _ _ _ _ =>
      e ← ok (execute_alu instr pc a b); Some (Done (Outcome_Exec (Exec_Effect e)))
  | Jal _ _ | Jalr _ _ _ | Branch _ _ _ _ =>
      o ← ok (execute_control instr pc a b); Some (Done (Outcome_Exec o))
  | Fence | Ecall | Ebreak =>
      o ← ok (execute_system instr pc); Some (Done (Outcome_Exec (ecall_cause isa o)))
  | Load _ _ _ _ | Store _ _ _ _ =>
      prep ← ok (prepare_memory instr pc a b);
      Some match prep with
           | Prep_Request plan => NeedsMemory plan
           | Prep_Trap trap => Done (Outcome_Exec (Exec_Trap trap))
           end
  end.

(** [step]; [CpuProofs.step_family_total] shows the default of the [expect] is never
    taken. *)
Definition step (isa : Isa) (word pc : Z) (regs : RegisterFile.t) : CpuStep :=
  let rv32i :=
    match decode word with
    | Ok instr => default (Done (illegal word)) (step_family isa instr pc regs)
    | Err (mkIllegal word) => Done (Outcome_Exec (Exec_Trap (mkTrap IllegalInstruction word)))
    end in
  match isa with
  | Isa_M1 => rv32i
  | Isa_M2 =>
      match decode_privileged word with
      | Some instr => Done (privileged instr word pc regs)
      | None => rv32i
      end
  | Isa_M3 mode =>
      match privileged_m3 mode word pc regs with
      | Some outcome => Done outcome
      | None => rv32i
      end
  end.

Definition completion_fault (e : MemoryCompletionError) : SimError :=
  ComponentFault match e with
                 | DataLength _ _ => "rv32 cpu: load data of the wrong length"
                 | ResponseKind => "rv32 cpu: memory response of the wrong kind"
                 end.

(** * The CPU *)

Record Rv32iCpu : Set := mkRv32iCpu {
  config : Rv32iConfig;
  pc : Z;
  regs : RegisterFile.t;
  instret : Z;
  next_txn : Z;
  state : State;
  csrs : CsrFile;
  m3 : M3State;
}.

#[export] Instance Rv32iCpu_eq_dec : EqDecision Rv32iCpu.
Proof. solve_decision. Defined.

Definition set_pc (v : Z) (c : Rv32iCpu) : Rv32iCpu :=
  mkRv32iCpu (config c) v (regs c) (instret c) (next_txn c) (state c) (csrs c) (m3 c).
Definition set_regs (v : RegisterFile.t) (c : Rv32iCpu) : Rv32iCpu :=
  mkRv32iCpu (config c) (pc c) v (instret c) (next_txn c) (state c) (csrs c) (m3 c).
Definition set_instret (v : Z) (c : Rv32iCpu) : Rv32iCpu :=
  mkRv32iCpu (config c) (pc c) (regs c) v (next_txn c) (state c) (csrs c) (m3 c).
Definition set_next_txn (v : Z) (c : Rv32iCpu) : Rv32iCpu :=
  mkRv32iCpu (config c) (pc c) (regs c) (instret c) v (state c) (csrs c) (m3 c).
Definition set_state (v : State) (c : Rv32iCpu) : Rv32iCpu :=
  mkRv32iCpu (config c) (pc c) (regs c) (instret c) (next_txn c) v (csrs c) (m3 c).
Definition set_csrs (v : CsrFile) (c : Rv32iCpu) : Rv32iCpu :=
  mkRv32iCpu (config c) (pc c) (regs c) (instret c) (next_txn c) (state c) v (m3 c).
Definition set_m3 (v : M3State) (c : Rv32iCpu) : Rv32iCpu :=
  mkRv32iCpu (config c) (pc c) (regs c) (instret c) (next_txn c) (state c) (csrs c) v.

Module Rv32iCpu.
Definition new (cfg : Rv32iConfig) : result CpuConfigError Rv32iCpu :=
  if negb (aligned4 (entry cfg)) then Err (MisalignedEntry (entry cfg))
  else Ok (mkRv32iCpu cfg (entry cfg) RegisterFile.new 0 0 (State_FetchIssue None)
             CsrFile.new M3State.new).

Definition isa (self : Rv32iCpu) : Isa :=
  match profile (config self) with
  | M1 => Isa_M1
  | M2 => Isa_M2
  | M3 => Isa_M3 (privilege (m3 self))
  end.

Definition translating (self : Rv32iCpu) : bool :=
  bool_decide (profile (config self) = M3) && M3State.translates (m3 self).

Definition walk_va (self : Rv32iCpu) (walk : Walk) : Z :=
  match purpose walk with
  | Purpose_Fetch => pc self
  | Purpose_Data _ plan => plan_addr plan
  end.

Definition cause_name (self : Rv32iCpu) (cause : TrapCause) : string :=
  match profile (config self) with
  | M1 | M2 => TrapCause.name cause
  | M3 => TrapCause.m3_name cause
  end.

Definition read_csr (self : Rv32iCpu) (csr : Z) : option Z :=
  match profile (config self) with
  | M1 | M2 => CsrFile.read (csrs self) csr
  | M3 => M3State.read (m3 self) (csrs self) csr
  end.

Definition write_csr (self : Rv32iCpu) (csr value : Z) : option Rv32iCpu :=
  match profile (config self) with
  | M1 | M2 => c ← CsrFile.write (csrs self) csr value; Some (set_csrs c self)
  | M3 =>
      '(s, c) ← M3State.write (m3 self) (csrs self) csr value;
      Some (set_m3 s (set_csrs c self))
  end.

Definition halt (self : Rv32iCpu) : option Halt :=
  match state self with State_Halted h => Some h | _ => None end.

Definition commit_fields (self : Rv32iCpu) (insn : Z) (effect : PendingEffect)
    (pa : option Z) : list (string * Value) :=
  let '(rd, rd_value) :=
    match reg_write effect with
    | Some w => if negb (rw_rd w =? Reg.ZERO) then (rw_rd w, rw_value w) else (0, 0)
    | None => (0, 0)
    end in
  let fields :=
    [("pc", VU64 (pc self)); ("insn", VU64 insn); ("rd", VU64 rd);
     ("rd_value", VU64 rd_value); ("next_pc", VU64 (next_pc effect))] in
  let '(fields, m3) :=
    match isa self with
    | Isa_M3 mode => ((fields ++ [("priv", VU64 (Privilege.bits mode))])%list, true)
    | _ => (fields, false)
    end in
  let paddr addr : list (string * Value) :=
    if m3 : bool then [("paddr", VU64 (default addr pa))] else [] in
  match step (isa self) insn (pc self) (regs self) with
  | NeedsMemory (Plan_Load load) =>
      (fields ++ [("addr", VU64 (lp_addr load))] ++ paddr (lp_addr load))
  | NeedsMemory (Plan_Store store) =>
      let value := foldl (fun v b => Z.lor (wrap 64 (Z.shiftl v 8)) b) 0 (rev (sp_data store)) in
      (fields ++ [("addr", VU64 (sp_addr store))] ++ paddr (sp_addr store)
         ++ [("width", VU64 (Z.of_nat (length (sp_data store)))); ("value", VU64 value)])
  | Done _ => fields
  end.
End Rv32iCpu.

(** * Handlers *)

Section handlers.
Context {C : Type} `{SimContext C}.

Local Abbreviation M := (ST (Rv32iCpu * C) Failure).

Definition wake_next_cycle (token : Z) : M unit :=
  cpu ← self;
  call (ctx_wake_self (When_Cycles (clock (config cpu)) 1) Phase_Request token).

Definition fetch_next : M unit :=
  cpu ← self;
  if Rv32iCpu.translating cpu then
    update (set_state (State_WalkIssue (mkWalk Purpose_Fetch 1 (M3State.root (m3 cpu)))));;
    wake_next_cycle WALK
  else
    update (set_state (State_FetchIssue None));;
    wake_next_cycle FETCH.

Definition send (msg : Z -> MemMsg) : M Z :=
  cpu ← self;
  let txn := next_txn cpu in
  match profile (config cpu) with
  | M1 =>
      call (ctx_send PORT (Message_MemV1 (msg txn)) When_Now Phase_Request);;
      match checked_add 64 txn 1 with
      | Some next => update (set_next_txn next);; mret txn
      | None => panic "attempt to add with overflow"
      end
  | M2 | M3 =>
      next ← try (ok_or (checked_add 64 txn 1)
                    (ComponentFault "rv32 cpu: TxnId space exhausted"));
      call (ctx_send PORT (Message_MemV1 (msg txn)) When_Now Phase_Request);;
      update (set_next_txn next);;
      mret txn
  end.

(** Returns the [rv32.commit] fields. *)
Definition commit_csr (insn : Z) (op : PendingCsr) : M (list (string * Value)) :=
  let unsupported := ComponentFault "rv32 cpu: pending CSR operation on an unsupported CSR" in
  cpu ← self;
  old ← try (ok_or (Rv32iCpu.read_csr cpu (pc_csr op)) unsupported);
  let effect := mkEffect (Some (mkRegWrite (pc_rd op) old)) (pc_next_pc op) in
  let fields :=
    (Rv32iCpu.commit_fields cpu insn effect None ++ [("csr", VU64 (pc_csr op))]) in
  fields ←
    (if pc_write op then
       cpu' ← try (ok_or (Rv32iCpu.write_csr cpu (pc_csr op)
                            (CsrOp.apply (pc_op op) old (pc_operand op))) unsupported);
       update (fun _ => cpu');;
       stored ← try (ok_or (Rv32iCpu.read_csr cpu' (pc_csr op)) unsupported);
       mret (fields ++ [("csr_value", VU64 stored)])
     else mret fields);
  update (fun cpu => set_regs (RegisterFile.write (regs cpu) (pc_rd op) old) cpu);;
  update (set_pc (pc_next_pc op));;
  mret fields.
(** The part of [commit] after the retirement's effects: the count, the limit, the
    interrupt sampling point, and the next fetch. *)
Definition retire (fields : list (string * Value)) : M unit :=
  cpu ← self;
  match checked_add 64 (instret cpu) 1 with
  | None => panic "attempt to add with overflow"
  | Some n =>
      update (set_instret n);;
      trace COMMIT_KIND fields;;
      if max_instructions (config cpu) <=? n then
        trace HALT_KIND [("instret", VU64 n)];;
        update (set_state (State_Halted Halt_InstructionLimit))
      else
        cpu ← self;
        (if bool_decide (profile (config cpu) = M2) && CsrFile.mei_eligible (csrs cpu) then
           let '(handler, c) := CsrFile.take_mei (csrs cpu) (pc cpu) in
           update (fun cpu => set_pc handler (set_csrs c cpu));;
           trace INTERRUPT_KIND
             [("mepc", VU64 (mepc c)); ("mcause", VU64 (mcause c)); ("handler", VU64 handler)]
         else if bool_decide (profile (config cpu) = M3)
                 && M3State.mei_eligible (m3 cpu) (csrs cpu) then
           let from := privilege (m3 cpu) in
           let '(handler, (s, c)) := M3State.take_mei (m3 cpu) (csrs cpu) (pc cpu) in
           update (fun cpu => set_pc handler (set_m3 s (set_csrs c cpu)));;
           trace INTERRUPT_KIND
             [("mepc", VU64 (mepc c)); ("mcause", VU64 (mcause c)); ("handler", VU64 handler);
              ("from", VStr (Privilege.name from))]
         else mret tt);;
        fetch_next
  end.

(** The trap branch of [commit]: delivery to S, or the halt. *)
Definition commit_trap (insn : option Z) (trap : PendingTrap) : M unit :=
  cpu ← self;
  let '(mkTrap cause tval) := trap in
  match (if bool_decide (profile (config cpu) = M3)
         then M3State.take_exception (m3 cpu) cause (pc cpu) tval else None) with
  | Some (handler, s) =>
      update (set_m3 s);;
      trace EXCEPTION_KIND
        [("pc", VU64 (pc cpu)); ("insn", VU64 (default 0 insn));
         ("cause", VStr (TrapCause.m3_name cause)); ("tval", VU64 tval);
         ("from", VStr (Privilege.name (privilege (m3 cpu))));
         ("to", VStr (Privilege.name (privilege s)))];;
      update (set_pc handler);;
      fetch_next
  | None =>
      trace TRAP_KIND
        [("pc", VU64 (pc cpu)); ("insn", VU64 (default 0 insn));
         ("cause", VStr (Rv32iCpu.cause_name cpu cause)); ("tval", VU64 tval)];;
      update (set_state (State_Halted (Halt_Trap (mkRvTrap cause (pc cpu) tval))))
  end.

Definition commit (insn : option Z) (outcome : Outcome) (pa : option Z) : M unit :=
  match outcome with
  | Outcome_Exec (Exec_Trap trap) => commit_trap insn trap
  | _ =>
      insn ← try (ok_or insn
                    (ComponentFault "rv32 cpu: a retiring instruction has no instruction word"));
      cpu ← self;
      fields ←
        match outcome with
        | Outcome_Exec (Exec_Trap _) => panic "handled above"
        | Outcome_Exec (Exec_Effect effect) =>
            let fields := Rv32iCpu.commit_fields cpu insn effect pa in
            match reg_write effect with
            | Some (mkRegWrite rd value) =>
                update (fun cpu => set_regs (RegisterFile.write (regs cpu) rd value) cpu)
            | None => mret tt
            end;;
            update (set_pc (next_pc effect));;
            mret fields
        | Outcome_Csr op => commit_csr insn op
        | Outcome_Mret =>
            let fields := Rv32iCpu.commit_fields cpu insn (mkEffect None (mepc (csrs cpu))) None in
            match profile (config cpu) with
            | M1 | M2 =>
                let '(target, c) := CsrFile.mret (csrs cpu) in
                update (fun cpu => set_pc target (set_csrs c cpu))
            | M3 =>
                let '(target, (s, c)) := M3State.mret (m3 cpu) (csrs cpu) in
                update (fun cpu => set_pc target (set_m3 s (set_csrs c cpu)))
            end;;
            mret fields
        | Outcome_Sret =>
            let fields := Rv32iCpu.commit_fields cpu insn (mkEffect None (sepc (m3 cpu))) None in
            let '(target, s) := M3State.sret (m3 cpu) in
            update (fun cpu => set_pc target (set_m3 s cpu));;
            mret fields
        end;
      retire fields
  end.

(** The request of a planned access, at [addr]. *)
Definition plan_request (plan : MemoryPlan) (addr txn : Z) : MemMsg :=
  match plan with
  | Plan_Load load => ReadReq txn addr (MemWidth.bytes (lp_width load))
  | Plan_Store store => WriteReq txn addr (sp_data store)
  end.

Definition wake (token : Z) : M unit :=
  cpu ← self;
  let mismatch := fault "rv32 cpu: wake does not match the execution state" in
  match state cpu with
  | State_FetchIssue pa =>
      if token =? FETCH then
        let addr := default (pc cpu) pa in
        txn ← send (fun txn => ReadReq txn addr 4);
        update (set_state (State_FetchWait txn pa))
      else mismatch
  | State_MemIssue insn plan pa =>
      if token =? MEMORY then
        let addr := default (plan_addr plan) pa in
        txn ← send (plan_request plan addr);
        update (set_state (State_MemWait txn insn plan pa))
      else mismatch
  | State_WalkIssue walk =>
      if token =? WALK then
        let addr := pte_address (table walk) (Rv32iCpu.walk_va cpu walk) (level walk) in
        txn ← send (fun txn => ReadReq txn addr 4);
        update (set_state (State_WalkWait txn walk))
      else mismatch
  | State_CommitPending insn outcome pa =>
      if token =? COMMIT then commit insn outcome pa else mismatch
  | _ => mismatch
  end.

(** Goes to [Commit] in this tick. *)
Definition commit_pending (insn : option Z) (outcome : Outcome) (pa : option Z) : M unit :=
  update (set_state (State_CommitPending insn outcome pa));;
  call (ctx_wake_self When_Now Phase_Commit COMMIT).

(** [data.as_slice().try_into::<[u8; 4]>()] and [u32::from_le_bytes]. *)
Definition word_of (data : list Z) (what : string) : M Z :=
  match data with
  | [b0; b1; b2; b3] => mret (from_le [b0; b1; b2; b3])
  | _ => fault what
  end.

Definition walk_response (walk : Walk) (msg : MemMsg) : M unit :=
  let access := Purpose.access (purpose walk) in
  pte ← match msg with
        | ReadResp _ (ReadOutcome_Data data) =>
            pte ← word_of data "rv32 cpu: PTE read returned other than 4 bytes";
            mret (Some pte)
        | ReadResp _ (ReadOutcome_Fault AccessFault) => mret None
        | _ => fault "rv32 cpu: write response to a PTE read"
        end;
  cpu ← self;
  let va := Rv32iCpu.walk_va cpu walk in
  let context := mkContext (privilege (m3 cpu)) (sum_ (m3 cpu)) (mxr (m3 cpu)) access in
  let trapped fault :=
    let insn := match purpose walk with
                | Purpose_Fetch => None
                | Purpose_Data insn _ => Some insn
                end in
    commit_pending insn (Outcome_Exec (Exec_Trap (mkTrap (Fault.cause fault access) va))) None in
  match (pte ← pte; Some (Sv32.step context va (level walk) pte)) with
  | Some (Step_Next next) =>
      match checked_sub (level walk) 1 with
      | Some lower =>
          update (set_state (State_WalkIssue (mkWalk (purpose walk) lower next)));;
          wake_next_cycle WALK
      | None => panic "attempt to subtract with overflow"
      end
  | Some (Step_Leaf pa) =>
      match purpose walk with
      | Purpose_Fetch =>
          update (set_state (State_FetchIssue (Some pa)));;
          wake_next_cycle FETCH
      | Purpose_Data insn plan =>
          update (set_state (State_MemIssue insn plan (Some pa)));;
          wake_next_cycle MEMORY
      end
  | Some Step_PageFault => trapped Fault_Page
  | None => trapped Fault_Access
  end.

Definition response (msg : MemMsg) : M unit :=
  txn ← match msg with
        | ReadResp txn _ | WriteResp txn _ => mret txn
        | ReadReq _ _ _ | WriteReq _ _ _ => fault "rv32 cpu: request on the initiator port"
        end;
  cpu ← self;
  expected ← match state cpu with
             | State_FetchWait txn _ | State_MemWait txn _ _ _ | State_WalkWait txn _ => mret txn
             | State_FetchIssue _ | State_MemIssue _ _ _ | State_WalkIssue _
             | State_CommitPending _ _ _ | State_Halted _ =>
                 fault "rv32 cpu: response with no transaction outstanding"
             end;
  if negb (txn =? expected) then
    fault "rv32 cpu: response for a txn that is not outstanding"
  else
    phase ← phase_of_event;
    if negb (bool_decide (phase = Phase_Complete)) then
      fault "rv32 cpu: response arrived outside COMPLETE"
    else
      match state cpu with
      | State_WalkWait _ walk => walk_response walk msg
      | _ =>
          '(insn, next, pa) ←
            match state cpu with
            | State_FetchWait _ _ =>
                match msg with
                | ReadResp _ (ReadOutcome_Data data) =>
                    word ← word_of data "rv32 cpu: fetch returned other than 4 bytes";
                    mret (Some word, step (Rv32iCpu.isa cpu) word (pc cpu) (regs cpu), None)
                | ReadResp _ (ReadOutcome_Fault AccessFault) =>
                    mret (None, Done (Outcome_Exec
                      (Exec_Trap (mkTrap InstructionAccessFault (pc cpu)))), None)
                | _ => fault "rv32 cpu: write response to a fetch"
                end
            | State_MemWait _ insn plan pa =>
                outcome ← try (map_err completion_fault (complete_memory plan msg));
                let pa := match outcome with Exec_Effect _ => pa | Exec_Trap _ => None end in
                mret (Some insn, Done (Outcome_Exec outcome), pa)
            | _ => panic "checked above"
            end;
          match next with
          | Done outcome => commit_pending insn outcome pa
          | NeedsMemory plan =>
              match insn with
              | None => panic "only a fetched word can need memory"
              | Some insn =>
                  if Rv32iCpu.translating cpu then
                    update (set_state (State_WalkIssue
                      (mkWalk (Purpose_Data insn plan) 1 (M3State.root (m3 cpu)))));;
                    wake_next_cycle WALK
                  else
                    update (set_state (State_MemIssue insn plan None));;
                    wake_next_cycle MEMORY
              end
          end
      end.

Definition irq (msg : IrqMsg) : M unit :=
  phase ← phase_of_event;
  if negb (bool_decide (phase = Phase_Complete)) then
    fault "rv32 cpu: irq.v0 level arrived outside COMPLETE"
  else
    let '(IrqMsg_Level asserted) := msg in
    update (fun cpu => set_csrs (set_irq_level asserted (csrs cpu)) cpu).

Definition init : M unit :=
  cpu ← self;
  call (ctx_wake_self (When_Cycles (clock (config cpu)) 0) Phase_Request FETCH).

Definition handle_event (ev : Delivered) : M unit :=
  cpu ← self;
  match ev with
  | Delivered_Wake token => wake token
  | Delivered_Message port msg =>
      match profile (config cpu) with
      | M1 =>
          match msg with
          | Message_MemV1 msg => response msg
          | _ => fault "rv32 cpu: message is not mem.v1"
          end
      | M2 | M3 =>
          if port =? PORT then
            match msg with
            | Message_MemV1 msg => response msg
            | _ => fault "rv32 cpu: message on mem is not mem.v1"
            end
          else if port =? IRQ_PORT then
            match msg with
            | Message_Irq msg => irq msg
            | _ => fault "rv32 cpu: message on irq is not irq.v0"
            end
          else fault "rv32 cpu: message on an unknown port"
      end
  end.
End handlers.

(** * Restored states *)

Definition page_fault (cause : TrapCause) : bool :=
  match cause with
  | InstructionPageFault | LoadPageFault | StorePageFault => true
  | _ => false
  end.

(** Whether [outcome] can be the result of [insn]: what a restored pending commit is
    checked against. *)
Definition consistent (isa : Isa) (translates : bool) (insn : option Z) (outcome : Outcome)
    (pc : Z) (regs : RegisterFile.t) : bool :=
  let fault access tval t :=
    bool_decide (t = mkTrap (Access.access_fault access) tval)
    || (translates && bool_decide (t = mkTrap (Access.page_fault access) tval)) in
  match insn with
  | None =>
      match outcome with
      | Outcome_Exec (Exec_Trap t) => fault Access_Fetch pc t
      | _ => false
      end
  | Some word =>
      match step isa word pc regs with
      | Done expected => bool_decide (expected = outcome)
      | NeedsMemory plan =>
          match outcome with
          | Outcome_Exec outcome =>
              match plan, outcome with
              | Plan_Load load, Exec_Effect e =>
                  (next_pc e =? lp_next_pc load)
                  && match reg_write e with Some w => rw_rd w =? lp_rd load | None => false end
              | Plan_Load load, Exec_Trap t => fault Access_Load (lp_addr load) t
              | Plan_Store store, Exec_Effect e =>
                  bool_decide (e = mkEffect None (sp_next_pc store))
              | Plan_Store store, Exec_Trap t => fault Access_Store (sp_addr store) t
              end
          | _ => false
          end
      end
  end.
