(* ===== verification/CpuProofs.v ===== *)
(** Properties of the RV32I CPU component ([Cpu]): the invariant of its execution states,
    which every event preserves on success and on failure, and what follows from it. *)
From stdpp Require Import base numbers list option strings.
From Stdlib Require Import ZArith Lia.
From S2P Require Import Prelude Contracts Handlers Instr Decode Execute Memory Csr Privileged Sv32 Cpu.

Local Open Scope string_scope.
Local Open Scope list_scope.
Local Open Scope Z_scope.

(** * The invariant *)

Definition target_ok (pc : Z) : Prop := in_u 32 pc /\ aligned4 pc = true.

Definition effect_ok (e : PendingEffect) : Prop :=
  target_ok (next_pc e) /\
  match reg_write e with
  | Some w => reg_ok (rw_rd w) /\ in_u 32 (rw_value w)
  | None => True
  end.

(** The operands of a pending outcome fit their types, and it continues at a word. *)
Definition outcome_ok (o : Outcome) : Prop :=
  match o with
  | Outcome_Exec (Exec_Effect e) => effect_ok e
  | Outcome_Exec (Exec_Trap t) => in_u 32 (tval t)
  | Outcome_Csr op =>
      0 <= pc_csr op < 4096 /\ in_u 32 (pc_operand op) /\ reg_ok (pc_rd op) /\
      target_ok (pc_next_pc op)
  | Outcome_Mret | Outcome_Sret => True
  end.

Definition plan_ok (p : MemoryPlan) : Prop :=
  in_u 32 (plan_addr p) /\
  match p with
  | Plan_Load l => reg_ok (lp_rd l) /\ target_ok (lp_next_pc l)
  | Plan_Store s => bytes_ok (sp_data s) /\ target_ok (sp_next_pc s)
  end.

(** A physical address is held exactly when the access to [va] is translated; it fits 34
    bits and keeps the page offset. *)
Definition translated_ok (translates : bool) (pa : option Z) (va : Z) : Prop :=
  match translates, pa with
  | false, None => True
  | true, Some pa => in_u PA_BITS pa /\ pa mod PAGE_SIZE = va mod PAGE_SIZE
  | _, _ => False
  end.

Definition ecall_of (mode : Privilege) : TrapCause :=
  match mode with
  | User => EnvironmentCallFromU
  | Supervisor => EnvironmentCallFromS
  | Machine => EnvironmentCall
  end.

Definition is_ecall (c : TrapCause) : bool :=
  match c with
  | EnvironmentCallFromU | EnvironmentCallFromS | EnvironmentCall => true
  | _ => false
  end.

(** A cause an instruction can raise in [mode]: page faults only when translated, and the
    [ECALL] of that mode. *)
Definition cause_ok (translates : bool) (mode : Privilege) (c : TrapCause) : Prop :=
  (page_fault c = true -> translates = true) /\ (is_ecall c = true -> c = ecall_of mode).

(** [insn] is a load or store whose request is [plan]. *)
Definition pending_access (cpu : Rv32iCpu) (insn : Z) (plan : MemoryPlan) : Prop :=
  in_u 32 insn /\ step (Rv32iCpu.isa cpu) insn (pc cpu) (regs cpu) = NeedsMemory plan.

Definition walk_ok (cpu : Rv32iCpu) (w : Walk) : Prop :=
  Rv32iCpu.translating cpu = true /\ (level w = 0 \/ level w = 1) /\ in_u 22 (table w) /\
  (level w = 1 -> table w = M3State.root (m3 cpu)) /\
  match purpose w with
  | Purpose_Fetch => True
  | Purpose_Data insn plan => pending_access cpu insn plan
  end.

(** The access a pending retirement completed, if it did. *)
Definition retiring_access (cpu : Rv32iCpu) (insn : option Z) (o : Outcome) : option MemoryPlan :=
  insn ← insn;
  match step (Rv32iCpu.isa cpu) insn (pc cpu) (regs cpu), o with
  | NeedsMemory plan, Outcome_Exec (Exec_Effect _) => Some plan
  | _, _ => None
  end.

Definition outstanding (cpu : Rv32iCpu) (txn : Z) : Prop := 0 <= txn /\ next_txn cpu = txn + 1.

Definition state_ok (cpu : Rv32iCpu) : Prop :=
  let translates := Rv32iCpu.translating cpu in
  match state cpu with
  | State_FetchIssue pa => translated_ok translates pa (pc cpu)
  | State_FetchWait txn pa => outstanding cpu txn /\ translated_ok translates pa (pc cpu)
  | State_MemIssue insn plan pa =>
      pending_access cpu insn plan /\ translated_ok translates pa (plan_addr plan)
  | State_MemWait txn insn plan pa =>
      outstanding cpu txn /\
      pending_access cpu insn plan /\ translated_ok translates pa (plan_addr plan)
  | State_WalkIssue w => walk_ok cpu w
  | State_WalkWait txn w => outstanding cpu txn /\ walk_ok cpu w
  | State_CommitPending insn o pa =>
      match insn with Some insn => in_u 32 insn | None => True end /\
      consistent (Rv32iCpu.isa cpu) translates insn o (pc cpu) (regs cpu) = true /\
      outcome_ok o /\
      match retiring_access cpu insn o with
      | Some plan => translated_ok translates pa (plan_addr plan)
      | None => pa = None
      end
  | State_Halted (Halt_Trap t) =>
      cause_ok translates (privilege (m3 cpu)) (trap_cause t) /\
      trap_pc t = pc cpu /\ in_u 32 (trap_tval t) /\
      M3State.delegates (m3 cpu) (trap_cause t) = false
  | State_Halted Halt_InstructionLimit => True
  end.

Definition config_ok (c : Rv32iConfig) : Prop :=
  in_u 32 (clock c) /\ target_ok (entry c) /\ 1 <= max_instructions c < 2 ^ 64.

(** The architectural part: [pc], registers and counters in range, the CSRs of the
    profiles that have none at reset. *)
Definition arch_ok (cpu : Rv32iCpu) : Prop :=
  config_ok (config cpu) /\ target_ok (pc cpu) /\ RegisterFile.ok (regs cpu) /\
  in_u 64 (next_txn cpu) /\ CsrFile.ok (csrs cpu) /\ M3State.ok (m3 cpu) /\
  (profile (config cpu) = M1 -> csrs cpu = CsrFile.new) /\
  (profile (config cpu) <> M3 -> m3 cpu = M3State.new).

(** [instret] is below the limit until the CPU halts on it. *)
Definition count_ok (cpu : Rv32iCpu) : Prop :=
  0 <= instret cpu /\
  match state cpu with
  | State_Halted Halt_InstructionLimit => instret cpu = max_instructions (config cpu)
  | _ => instret cpu < max_instructions (config cpu)
  end.

Definition cpu_ok (cpu : Rv32iCpu) : Prop := arch_ok cpu /\ state_ok cpu /\ count_ok cpu.

(** The invariant is decidable, so it can be evaluated on a concrete CPU. *)
#[export] Instance target_ok_dec t : Decision (target_ok t).
Proof. unfold target_ok. apply _. Defined.
#[export] Instance outcome_ok_dec o : Decision (outcome_ok o).
Proof. destruct o as [[[[] ?]|]| | |]; unfold outcome_ok, effect_ok; cbn; apply _. Defined.
#[export] Instance translated_ok_dec t pa va : Decision (translated_ok t pa va).
Proof. destruct t, pa; unfold translated_ok; apply _. Defined.
#[export] Instance pending_access_dec cpu i p : Decision (pending_access cpu i p).
Proof. unfold pending_access. apply _. Defined.
#[export] Instance walk_ok_dec cpu w : Decision (walk_ok cpu w).
Proof. unfold walk_ok. destruct (purpose w); apply _. Defined.
#[export] Instance state_ok_dec cpu : Decision (state_ok cpu).
Proof.
  unfold state_ok, outstanding, cause_ok. destruct (state cpu) as [| | | | | |insn o pa|[]]; try apply _.
  destruct insn, (retiring_access cpu _ o); apply _.
Defined.
#[export] Instance cpu_ok_dec cpu : Decision (cpu_ok cpu).
Proof.
  unfold cpu_ok, arch_ok, config_ok, count_ok.
  destruct (state cpu) as [| | | | | | |[]]; apply _.
Defined.

(** * Executing a word *)

Lemma step_family_total isa i pc regs : is_Some (step_family isa i pc regs).
Proof. destruct i; unfold step_family, sources; cbn; eauto; repeat case_goal; eauto. Qed.

(** The mode a word runs in; the profiles without modes run in M. *)
Definition isa_mode (isa : Isa) : Privilege :=
  match isa with Isa_M3 mode => mode | _ => Machine end.

(** What [step] owes its callers: outcomes and plans in range, causes of the mode, and
    privileged operations only where the mode permits them. *)
Definition step_ok (isa : Isa) (s : CpuStep) : Prop :=
  match s with
  | NeedsMemory p => plan_ok p
  | Done o =>
      outcome_ok o /\
      match o with
      | Outcome_Exec (Exec_Trap t) => cause_ok false (isa_mode isa) (cause t)
      | Outcome_Exec (Exec_Effect _) => True
      | Outcome_Csr op =>
          match isa with
          | Isa_M1 => False
          | Isa_M2 => Csr.is_supported (pc_csr op) = true
          | Isa_M3 mode =>
              Privileged.is_supported (pc_csr op) = true /\
              accessible (pc_csr op) mode (pc_write op) = true
          end
      | Outcome_Mret => isa = Isa_M2 \/ isa = Isa_M3 Machine
      | Outcome_Sret => exists mode, isa = Isa_M3 mode /\ mode <> User
      end
  end.

Lemma target_next pc : target_ok pc -> target_ok (add32 pc 4).
Proof. intros [??]. split; auto with ranges. Qed.

Lemma target_next_mod pc : target_ok pc -> target_ok ((pc + 4) mod 2 ^ 32).
Proof. apply target_next. Qed.

#[export] Hint Resolve target_next target_next_mod : ranges.

Lemma cause_plain tr mode c : page_fault c = false -> is_ecall c = false -> cause_ok tr mode c.
Proof. intros H1 H2. split; congruence. Qed.

Lemma illegal_ok isa word : in_u 32 word -> step_ok isa (Done (illegal word)).
Proof. intros. split; [assumption | apply cause_plain; reflexivity]. Qed.

Lemma alu_ok isa i pc a b e :
  instr_ok i -> target_ok pc -> in_u 32 a -> in_u 32 b -> execute_alu i pc a b = Ok e ->
  step_ok isa (Done (Outcome_Exec (Exec_Effect e))).
Proof.
  intros Hi Hp Ha Hb. rewrite execute_alu_value by assumption.
  destruct (alu_value i pc a b) as [[rd v]|] eqn:E; [intros [= <-] | discriminate].
  split; [|exact I]. split; [cbn; auto with ranges | exact (alu_value_in_u i pc a b rd v Hi Ha Hb E)].
Qed.

Lemma control_ok isa i pc a b o :
  instr_ok i -> target_ok pc -> in_u 32 a -> execute_control i pc a b = Ok o ->
  step_ok isa (Done (Outcome_Exec o)).
Proof.
  intros Hi Hp Ha. rewrite execute_control_target.
  destruct (control_target i pc a b) as [[[link target]|]|] eqn:E; [| |discriminate].
  - assert (Ht : in_u 32 target /\ forall rd, link = Some rd -> reg_ok rd).
    { destruct i; try discriminate E; unfold control_target in E; cbn [instr_ok] in Hi;
        try (destruct (branch_taken _ _ _); [|discriminate E]); injection E as <- <-;
        (split; [unfold in_u in *; word_lia | intros ? [=]; subst; tauto]). }
    destruct (target mod 4 =? 0) eqn:Em; intros [= <-].
    + split; [|exact I]. split; [split; [apply Ht | exact Em] |].
      destruct link as [rd|]; cbn; [|exact I]. split; [apply Ht; reflexivity | apply target_next, Hp].
    + split; [apply Ht | apply cause_plain; reflexivity].
  - intros [= <-]. split; [|exact I]. split; [cbn; auto with ranges | exact I].
Qed.

Lemma system_ok isa i pc o :
  target_ok pc -> execute_system i pc = Ok o -> step_ok isa (Done (Outcome_Exec (ecall_cause isa o))).
Proof.
  intros Hp H. destruct i; try discriminate H; injection H as <-.
  - replace (ecall_cause _ _) with (Exec_Effect (mkEffect None (add32 pc 4))) by (destruct isa; reflexivity).
    split; [|exact I]. split; [cbn; auto with ranges | exact I].
  - destruct isa as [| |[]]; (split; [apply in_u_0; lia | split; [discriminate | reflexivity]]).
  - destruct isa as [| |[]]; (split; [apply Hp | split; discriminate]).
Qed.

Lemma memory_ok isa i pc a b prep :
  instr_ok i -> target_ok pc -> in_u 32 b -> prepare_memory i pc a b = Ok prep ->
  step_ok isa match prep with
              | Prep_Request plan => NeedsMemory plan
              | Prep_Trap trap => Done (Outcome_Exec (Exec_Trap trap))
              end.
Proof.
  intros Hi Hp Hb. rewrite prepare_memory_plan.
  destruct i; try discriminate; cbn zeta; case_if; intros [= <-];
    try (split; [apply mod32_in_u | apply cause_plain; reflexivity]);
    (split; [apply mod32_in_u |]); cbn in Hi |- *; (split; [|auto with ranges]); [tauto |].
  apply Forall_take, (to_le_ok 4).
Qed.

Lemma rv32i_ok isa i pc regs s :
  instr_ok i -> target_ok pc -> RegisterFile.ok regs -> step_family isa i pc regs = Some s ->
  step_ok isa s.
Proof.
  intros Hi Hp Hr. unfold step_family. destruct (sources i) as [rs1 rs2].
  pose proof (RegisterFile.read_ok regs rs1 Hr). pose proof (RegisterFile.read_ok regs rs2 Hr).
  destruct i; intros (o & Ho & [= <-])%bind_Some;
    match type of Ho with ok ?r = _ => destruct r eqn:E; [injection Ho as -> | discriminate] end;
    first [refine (alu_ok _ _ _ _ _ _ _ _ _ _ E) | refine (control_ok _ _ _ _ _ _ _ _ _ E)
          | refine (system_ok _ _ _ _ _ E) | refine (memory_ok _ _ _ _ _ _ _ _ _ E)]; assumption.
Qed.

Lemma csr_operation_ok op rd src csr write pc regs :
  priv_ok (Csr op rd src csr) -> target_ok pc -> RegisterFile.ok regs ->
  outcome_ok (Outcome_Csr (csr_operation op rd src csr write pc regs)).
Proof.
  intros (Hrd & Hc & Hs) Hp Hr. cbn. split; [assumption |]. split; [|auto with ranges].
  destruct src; [auto with ranges | unfold in_u; lia].
Qed.

Lemma privileged_ok i word pc regs :
  in_u 32 word -> priv_ok i -> target_ok pc -> RegisterFile.ok regs ->
  step_ok Isa_M2 (Done (privileged i word pc regs)).
Proof.
  intros Hw Hi Hp Hr. destruct i as [op rd src csr|]; cbn [privileged].
  - destruct (Csr.is_supported csr) eqn:E; [|apply illegal_ok, Hw].
    split; [apply csr_operation_ok; assumption | exact E].
  - split; [exact I | left; reflexivity].
Qed.

Lemma privileged_m3_ok mode word pc regs o :
  in_u 32 word -> target_ok pc -> RegisterFile.ok regs ->
  privileged_m3 mode word pc regs = Some o -> step_ok (Isa_M3 mode) (Done o).
Proof.
  intros Hw Hp Hr. unfold privileged_m3. destruct (decode_privileged word) as [i|] eqn:E.
  - apply decode_priv_sound in E as [Hi _]; [|assumption]. intros [= <-].
    destruct i as [op rd src csr|].
    + destruct (_ || _) eqn:Ea; [apply illegal_ok, Hw |]. unbool.
      split; [apply csr_operation_ok; assumption | split; assumption].
    + case_bool_decide; [|apply illegal_ok, Hw]. subst. split; [exact I | right; reflexivity].
  - intros (i & _ & [= <-])%bind_Some. case_bool_decide; [apply illegal_ok, Hw |].
    destruct i; [split; [exact I | eauto] |]. split; [|exact I]. split; [cbn; auto with ranges | exact I].
Qed.

Lemma step_result_ok isa word pc regs :
  in_u 32 word -> target_ok pc -> RegisterFile.ok regs -> step_ok isa (step isa word pc regs).
Proof.
  intros Hw Hp Hr. unfold step.
  assert (Hrv : step_ok isa match decode word with
    | Ok instr => default (Done (illegal word)) (step_family isa instr pc regs)
    | Err (mkIllegal word) => Done (Outcome_Exec (Exec_Trap (mkTrap IllegalInstruction word)))
    end).
  { destruct (decode word) as [i|[w]] eqn:E.
    - destruct (step_family_total isa i pc regs) as [s Hs]. rewrite Hs. cbn.
      apply decode_sound in E as [Hi _]; [|assumption]. eapply rv32i_ok; eassumption.
    - apply decode_err_word in E. injection E as ->. apply illegal_ok, Hw. }
  destruct isa as [| |mode]; [exact Hrv | |].
  - destruct (decode_privileged word) as [i|] eqn:E; [|exact Hrv].
    apply decode_priv_sound in E as [Hi _]; [|assumption]. apply privileged_ok; assumption.
  - destruct (privileged_m3 mode word pc regs) eqn:E; [|exact Hrv].
    eapply privileged_m3_ok; eassumption.
Qed.

(** * Handlers *)

(** What no event but the commit changes. *)
Definition same_arch (cpu cpu' : Rv32iCpu) : Prop :=
  config cpu' = config cpu /\ pc cpu' = pc cpu /\ regs cpu' = regs cpu /\
  instret cpu' = instret cpu /\ csrs cpu' = csrs cpu /\ m3 cpu' = m3 cpu.

(** The next [TxnId] exists, or the profile checks for it. *)
Definition txn_left (cpu : Rv32iCpu) : Prop :=
  profile (config cpu) = M1 -> next_txn cpu + 1 < 2 ^ 64.

Definition live (s : State) : Prop := forall h, s <> State_Halted h.

Lemma cpu_ok_move cpu s n :
  cpu_ok cpu -> live (state cpu) -> live s -> in_u 64 n ->
  state_ok (set_state s (set_next_txn n cpu)) -> cpu_ok (set_state s (set_next_txn n cpu)).
Proof.
  intros ((Hc & Hp & Hr & _ & Hrest) & _ & Hn & Hcount) Hl Hs Hn' Hst.
  split; [|split; [exact Hst |]].
  - split; [exact Hc |]. split; [exact Hp |]. split; [exact Hr |]. split; [exact Hn' | exact Hrest].
  - split; [exact Hn |]. cbn. unfold live in *. destruct (state cpu) as [| | | | | | |h];
      [..| exfalso; apply (Hl h); reflexivity]; destruct s as [| | | | | | |h'];
      try exact Hcount; exfalso; apply (Hs h'); reflexivity.
Qed.

Lemma cpu_ok_state cpu s :
  cpu_ok cpu -> live (state cpu) -> live s -> state_ok (set_state s cpu) -> cpu_ok (set_state s cpu).
Proof.
  intros H Hl Hs Hst. destruct cpu. apply (cpu_ok_move _ s next_txn H Hl Hs); [|exact Hst].
  destruct H as ((_ & _ & _ & Hn & _) & _). exact Hn.
Qed.

Ltac is_live := intros ?; discriminate.

Section handlers.
Context {C : Type} `{SimContext C}.

Local Abbreviation M := (ST (Rv32iCpu * C) Failure).

Lemma wp_word_of data what Q X s :
  (length data = 4%nat -> Q (from_le data) s) ->
  (X (Fails (ComponentFault what)) s) -> wp (word_of data what : M _) Q X s.
Proof.
  intros HQ HX. destruct data as [|b0 [|b1 [|b2 [|b3 [|]]]]]; try exact HX. apply HQ. reflexivity.
Qed.
End handlers.

Section invariant.
Context {C : Type} `{SimContext C}.

Local Abbreviation M := (ST (Rv32iCpu * C) Failure).

Lemma settles_wake_next (P : Rv32iCpu -> Prop) token cpu ctx :
  P cpu -> settles P (wake_next_cycle token : M _) cpu ctx.
Proof. intros HP. apply wp_bind, wp_self. apply settles_call, HP. Qed.

Lemma wp_send msg Q X cpu ctx :
  in_u 64 (next_txn cpu) -> txn_left cpu ->
  (forall ctx', in_u 64 (next_txn cpu + 1) ->
     Q (next_txn cpu) (set_next_txn (next_txn cpu + 1) cpu, ctx')) ->
  (forall e ctx', X (Fails e) (cpu, ctx')) ->
  wp (send msg : M _) Q X (cpu, ctx).
Proof.
  intros Hn Hl HQ HX. unfold send. apply wp_bind, wp_self.
  assert (Hadd : forall n, checked_add 64 (next_txn cpu) 1 = Some n ->
    n = next_txn cpu + 1 /\ in_u 64 n).
  { intros n [-> ?]%checked_add_Some. unfold in_u in *. split; [reflexivity | lia]. }
  assert (HM2 : wp (next ← try (ok_or (checked_add 64 (next_txn cpu) 1)
                      (ComponentFault "rv32 cpu: TxnId space exhausted"));
     call (ctx_send PORT (Message_MemV1 (msg (next_txn cpu))) When_Now Phase_Request);;
     update (set_next_txn next);; mret (next_txn cpu) : M Z) Q X (cpu, ctx)).
  { apply wp_bind, wp_try; [|intros; apply HX]. intros n [-> ?]%ok_or_Ok%Hadd.
    apply wp_bind, wp_call; [|intros; apply HX]. intros ctx'. wp_run. auto. }
  destruct (profile (config cpu)) eqn:Ep; [|exact HM2..].
  apply wp_bind, wp_call; [|intros; apply HX]. intros ctx'.
  destruct (checked_add 64 (next_txn cpu) 1) as [n|] eqn:E.
  - destruct (Hadd n eq_refl) as [-> ?]. wp_run. auto.
  - specialize (Hl Ep). unfold checked_add in E. destruct (Z.ltb_spec (next_txn cpu + 1) (2 ^ 64)); [discriminate | lia].
Qed.

(** ** Requests *)

(** A non-commit event: the invariant holds after it and the architecture is as before. *)
Definition moved (cpu cpu' : Rv32iCpu) : Prop := cpu_ok cpu' /\ same_arch cpu cpu'.

Lemma moved_state cpu s :
  cpu_ok cpu -> live (state cpu) -> live s -> state_ok (set_state s cpu) ->
  moved cpu (set_state s cpu).
Proof. intros. split; [apply cpu_ok_state; assumption | repeat split]. Qed.

Lemma moved_refl cpu : cpu_ok cpu -> moved cpu cpu.
Proof. intros. split; [assumption | repeat split]. Qed.

Ltac unmoved := apply wp_fault; split; [apply moved_refl; assumption | eauto].

Lemma send_settles msg cpu ctx (f : Z -> State) :
  cpu_ok cpu -> txn_left cpu -> live (state cpu) -> (forall txn, live (f txn)) ->
  (in_u 64 (next_txn cpu + 1) ->
   state_ok (set_state (f (next_txn cpu)) (set_next_txn (next_txn cpu + 1) cpu))) ->
  settles (moved cpu) (txn ← send msg; update (set_state (f txn)) : M unit) cpu ctx.
Proof.
  intros Hok Hl Hlive Hf Hst. apply wp_bind.
  assert (Hn : in_u 64 (next_txn cpu)) by apply Hok.
  apply wp_send; [assumption.. | |].
  - intros ctx' Hn'. apply wp_update. split; [|repeat split].
    apply cpu_ok_move; auto.
  - intros e ctx'. split; [apply moved_refl, Hok | eauto].
Qed.

Lemma next_outstanding cpu :
  in_u 64 (next_txn cpu) -> outstanding (set_next_txn (next_txn cpu + 1) cpu) (next_txn cpu).
Proof. intros [? _]. split; [assumption | reflexivity]. Qed.
(** ** Responses *)

Lemma commit_pending_settles (cpu cpu0 : Rv32iCpu) insn o pa ctx :
  moved cpu0 (set_state (State_CommitPending insn o pa) cpu) ->
  settles (moved cpu0) (commit_pending insn o pa : M unit) cpu ctx.
Proof. intros Hm. apply wp_bind, wp_update. apply settles_call, Hm. Qed.

Lemma goto_settles (cpu : Rv32iCpu) s token ctx :
  moved cpu (set_state s cpu) ->
  settles (moved cpu) (update (set_state s);; wake_next_cycle token : M unit) cpu ctx.
Proof. intros Hm. apply wp_bind, wp_update. apply settles_wake_next, Hm. Qed.

Lemma translating_m3 cpu :
  Rv32iCpu.translating cpu = true ->
  profile (config cpu) = M3 /\ privilege (m3 cpu) <> Machine /\
  Rv32iCpu.isa cpu = Isa_M3 (privilege (m3 cpu)).
Proof.
  unfold Rv32iCpu.translating, M3State.translates, Rv32iCpu.isa. intros Ht. unbool.
  match goal with H : profile _ = M3 |- _ => rewrite H end. auto.
Qed.

Lemma sv32_next_range ctx va level pte next :
  in_u 32 pte -> Sv32.step ctx va level pte = Step_Next next -> in_u 22 next /\ level <> 0.
Proof.
  intros Hp. rewrite step_correct by assumption. unfold step_spec.
  repeat case_goal; try discriminate. intros [= <-]. unbool.
  split; [apply pPPN_range, Hp | assumption].
Qed.

Lemma sv32_leaf_range ctx va level pte pa :
  in_u 32 pte -> Sv32.step ctx va level pte = Step_Leaf pa ->
  in_u PA_BITS pa /\ pa mod PAGE_SIZE = va mod PAGE_SIZE.
Proof.
  intros Hp. rewrite step_correct by assumption. pose proof (pPPN_range pte Hp).
  unfold step_spec, PA_BITS, PAGE_SIZE. repeat case_goal; try discriminate;
    intros [= <-]; split; word_lia.
Qed.

Lemma word_range data : bytes_ok data -> length data = 4%nat -> in_u 32 (from_le data).
Proof. intros Hb Hl. pose proof (from_le_in_u data Hb) as Hr. rewrite Hl in Hr. exact Hr. Qed.

Lemma consistent_fault cpu insn access va f :
  (match f with Fault_Page => Rv32iCpu.translating cpu = true | Fault_Access => True end) ->
  match insn with
  | None => access = Access_Fetch /\ va = pc cpu
  | Some insn =>
      exists plan, step (Rv32iCpu.isa cpu) insn (pc cpu) (regs cpu) = NeedsMemory plan /\
        access = Purpose.access (Purpose_Data insn plan) /\ va = plan_addr plan
  end ->
  consistent (Rv32iCpu.isa cpu) (Rv32iCpu.translating cpu) insn
    (Outcome_Exec (Exec_Trap (mkTrap (Fault.cause f access) va))) (pc cpu) (regs cpu) = true.
Proof.
  intros Hf Hi. unfold consistent.
  assert (Hflt : forall acc tv, (bool_decide (mkTrap (Fault.cause f acc) tv = mkTrap (Access.access_fault acc) tv)
    || Rv32iCpu.translating cpu
       && bool_decide (mkTrap (Fault.cause f acc) tv = mkTrap (Access.page_fault acc) tv)) = true).
  { intros acc tv. apply orb_true_iff. destruct f; [right; rewrite Hf | left];
      cbn [Fault.cause andb]; apply bool_decide_true; reflexivity. }
  destruct insn as [insn|].
  - destruct Hi as (plan & -> & -> & ->). destruct plan; apply Hflt.
  - destruct Hi as [-> ->]. apply Hflt.
Qed.

Lemma trap_retires_nothing cpu insn t : retiring_access cpu insn (Outcome_Exec (Exec_Trap t)) = None.
Proof. destruct insn; [|reflexivity]. cbn. destruct (step _ _ _ _); reflexivity. Qed.

(** A fault of the pending access is a well-formed pending commit. *)
Lemma trapped_moved cpu insn access va f :
  cpu_ok cpu -> live (state cpu) -> in_u 32 va ->
  (match f with Fault_Page => Rv32iCpu.translating cpu = true | Fault_Access => True end) ->
  match insn with
  | None => access = Access_Fetch /\ va = pc cpu
  | Some insn =>
      in_u 32 insn /\
      exists plan, step (Rv32iCpu.isa cpu) insn (pc cpu) (regs cpu) = NeedsMemory plan /\
        access = Purpose.access (Purpose_Data insn plan) /\ va = plan_addr plan
  end ->
  moved cpu (set_state (State_CommitPending insn
    (Outcome_Exec (Exec_Trap (mkTrap (Fault.cause f access) va))) None) cpu).
Proof.
  intros Hok Hlive Hva Hf Hi. apply moved_state; [assumption.. | is_live |].
  split; [destruct insn; [apply Hi | exact I] |]. split; [|split].
  - apply consistent_fault; [exact Hf | destruct insn; [apply Hi | exact Hi]].
  - exact Hva.
  - rewrite trap_retires_nothing. reflexivity.
Qed.

Lemma pending_plan_ok cpu insn plan :
  cpu_ok cpu -> pending_access cpu insn plan -> plan_ok plan.
Proof.
  intros ((_ & Hp & Hr & _) & _) [Hi Hs].
  pose proof (step_result_ok (Rv32iCpu.isa cpu) insn _ _ Hi Hp Hr) as Ho.
  rewrite Hs in Ho. exact Ho.
Qed.

Lemma walk_va_range cpu w : cpu_ok cpu -> walk_ok cpu w -> in_u 32 (Rv32iCpu.walk_va cpu w).
Proof.
  intros Hok (_ & _ & _ & _ & Hd). unfold Rv32iCpu.walk_va. destruct (purpose w).
  - destruct Hok as ((_ & [Hp _] & _) & _). exact Hp.
  - apply (pending_plan_ok cpu insn plan Hok Hd).
Qed.

Lemma walk_response_settles cpu ctx txn w msg :
  cpu_ok cpu -> state cpu = State_WalkWait txn w -> mem_msg_ok msg ->
  settles (moved cpu) (walk_response w msg : M unit) cpu ctx.
Proof.
  intros Hok Hs Hmsg.
  assert (Hw : walk_ok cpu w) by (destruct Hok as (_ & Hst & _); unfold state_ok in Hst; rewrite Hs in Hst; apply Hst).
  assert (Hlive : live (state cpu)) by (rewrite Hs; is_live).
  pose proof (walk_va_range cpu w Hok Hw) as Hva.
  assert (Htrap : forall f,
    match f with Fault_Page => Rv32iCpu.translating cpu = true | Fault_Access => True end ->
    moved cpu (set_state (State_CommitPending
      match purpose w with Purpose_Fetch => None | Purpose_Data insn _ => Some insn end
      (Outcome_Exec (Exec_Trap (mkTrap (Fault.cause f (Purpose.access (purpose w)))
         (Rv32iCpu.walk_va cpu w)))) None) cpu)).
  { intros f Hf. apply trapped_moved; try assumption. destruct Hw as (_ & _ & _ & _ & Hd).
    unfold Rv32iCpu.walk_va. destruct (purpose w); [split; reflexivity |].
    destruct Hd as [Hi Hd]. split; [exact Hi |]. eauto. }
  unfold walk_response. apply wp_bind.
  destruct msg as [|? [data|[]]| |]; try unmoved.
  - apply wp_bind, wp_word_of; [|split; [apply moved_refl, Hok | eauto]]. intros Hlen.
    assert (Hpte : in_u 32 (from_le data)) by (apply word_range; [apply Hmsg | exact Hlen]).
    wp_run. cbn [mbind option_bind]. destruct Hw as (Ht & Hlv & Htb & Hroot & Hd).
    destruct (Sv32.step _ _ _ _) eqn:Estep.
    + apply sv32_next_range in Estep as [Hr Hl0]; [|assumption].
      destruct Hlv as [|Hl1]; [contradiction |]. rewrite Hl1. cbn [checked_sub Z.leb Z.compare Pos.compare].
      apply goto_settles, moved_state; [assumption.. | is_live |].
      split; [exact Ht |]. split; [left; reflexivity |]. split; [exact Hr |]. split; [discriminate | exact Hd].
    + apply sv32_leaf_range in Estep; [|assumption]. unfold Rv32iCpu.walk_va in Estep.
      destruct (purpose w); apply goto_settles, moved_state; try assumption; try is_live;
        unfold state_ok; cbn [state set_state];
        change (Rv32iCpu.translating (set_state ?s cpu)) with (Rv32iCpu.translating cpu);
        rewrite Ht; [exact Estep | split; [exact Hd | exact Estep]].
    + apply commit_pending_settles, Htrap, Ht.
  - wp_run. cbn [mbind option_bind]. apply commit_pending_settles, Htrap. exact I.
Qed.
(** A completed access is a well-formed pending commit. *)
Lemma complete_moved cpu insn plan pa msg o :
  cpu_ok cpu -> live (state cpu) -> pending_access cpu insn plan ->
  translated_ok (Rv32iCpu.translating cpu) pa (plan_addr plan) ->
  mem_msg_ok msg -> complete_memory plan msg = Ok o ->
  moved cpu (set_state (State_CommitPending (Some insn) (Outcome_Exec o)
    match o with Exec_Effect _ => pa | Exec_Trap _ => None end) cpu).
Proof.
  intros Hok Hlive Hacc Hpa Hmsg Hc. pose proof (pending_plan_ok _ _ _ Hok Hacc) as [Haddr Hplan].
  destruct Hacc as [Hin Hs]. destruct plan as [p|p].
  - assert (Ho : o = Exec_Trap (mkTrap LoadAccessFault (lp_addr p)) \/ exists v, in_u 32 v /\
      o = Exec_Effect (mkEffect (Some (mkRegWrite (lp_rd p) v)) (lp_next_pc p))).
    { destruct msg as [|? o'| |]; try discriminate Hc. apply (complete_load_shape p o'); [|exact Hc].
      destruct o'; [apply Hmsg | exact I]. }
    destruct Ho as [->|(v & Hv & ->)].
    + apply (trapped_moved cpu (Some insn) Access_Load (lp_addr p) Fault_Access); auto.
      split; [exact Hin |]. exists (Plan_Load p). auto.
    + apply moved_state; [assumption.. | is_live |]. split; [exact Hin |].
      cbn [state set_state consistent retiring_access mbind option_bind].
      change (Rv32iCpu.isa (set_state _ cpu)) with (Rv32iCpu.isa cpu).
      cbn [pc regs set_state]. rewrite Hs. cbn [next_pc reg_write rw_rd]. rewrite !Z.eqb_refl.
      split; [reflexivity |]. split; [|exact Hpa].
      split; [apply Hplan |]. split; [apply Hplan | exact Hv].
  - destruct msg as [| | |? [|[]]]; try discriminate Hc; injection Hc as <-.
    + apply moved_state; [assumption.. | is_live |]. split; [exact Hin |].
      cbn [state set_state consistent retiring_access mbind option_bind complete_store].
      change (Rv32iCpu.isa (set_state _ cpu)) with (Rv32iCpu.isa cpu).
      cbn [pc regs set_state]. rewrite Hs. rewrite bool_decide_true by reflexivity.
      split; [reflexivity |]. split; [|exact Hpa]. split; [apply Hplan | exact I].
    + apply (trapped_moved cpu (Some insn) Access_Store (sp_addr p) Fault_Access); auto.
      split; [exact Hin |]. exists (Plan_Store p). auto.
Qed.

Lemma done_moved cpu word o :
  cpu_ok cpu -> live (state cpu) -> in_u 32 word ->
  step (Rv32iCpu.isa cpu) word (pc cpu) (regs cpu) = Done o ->
  moved cpu (set_state (State_CommitPending (Some word) o None) cpu).
Proof.
  intros Hok Hlive Hw Hs. pose proof Hok as ((_ & Hp & Hr & _) & _).
  pose proof (step_result_ok (Rv32iCpu.isa cpu) word _ _ Hw Hp Hr) as Ho. rewrite Hs in Ho.
  apply moved_state; [assumption.. | is_live |]. split; [exact Hw |].
  cbn [state set_state consistent retiring_access mbind option_bind].
  change (Rv32iCpu.isa (set_state _ cpu)) with (Rv32iCpu.isa cpu).
  cbn [pc regs set_state]. rewrite Hs. rewrite bool_decide_true by reflexivity.
  split; [reflexivity |]. split; [apply Ho | reflexivity].
Qed.

(** The root table of a new walk. *)
Lemma new_walk_ok cpu p :
  Rv32iCpu.translating cpu = true ->
  match p with Purpose_Fetch => True | Purpose_Data insn plan => pending_access cpu insn plan end ->
  walk_ok cpu (mkWalk p 1 (M3State.root (m3 cpu))).
Proof.
  intros Ht Hp. split; [exact Ht |]. split; [right; reflexivity |]. split; [|auto].
  cbn. unfold M3State.root. rewrite satp_root. apply Z.mod_pos_bound. lia.
Qed.

Lemma response_settles cpu ctx msg :
  cpu_ok cpu -> mem_msg_ok msg -> settles (moved cpu) (response msg : M unit) cpu ctx.
Proof.
  intros Hok Hmsg. unfold response. apply wp_bind.
  destruct msg as [|t o| |t o] eqn:Em; rewrite <- Em in *; try unmoved.
  all: wp_run; destruct (state cpu) as [|txn pa| |txn insn plan pa| |txn w| |] eqn:Es; try unmoved; wp_run;
    (destruct (negb (t =? txn)); [unmoved |]); wp_run; (destruct (negb _); [unmoved |]).
  all: assert (Hlive : live (state cpu)) by (rewrite Es; is_live).
  all: pose proof Hok as (_ & Hst & _); unfold state_ok in Hst; rewrite Es in Hst.
  all: try (eapply walk_response_settles; eassumption).
  all: apply wp_bind; subst msg.
  all: try (apply wp_bind, wp_try; [|intros; split; [apply moved_refl, Hok | eauto]];
    intros out Hout; wp_run; destruct Hst as (_ & Hacc & Hpa); apply commit_pending_settles;
    eapply complete_moved; try eassumption; destruct (complete_memory _ _); [injection Hout as ->; reflexivity | discriminate]).
  - destruct o as [data|[]].
    + apply wp_bind, wp_word_of; [|split; [apply moved_refl, Hok | eauto]]. intros Hlen.
      assert (Hw : in_u 32 (from_le data)) by (apply word_range; [apply Hmsg | exact Hlen]).
      wp_run. destruct (step _ _ _ _) as [out|plan] eqn:Estep.
      * apply commit_pending_settles, done_moved; assumption.
      * destruct (Rv32iCpu.translating cpu) eqn:Et; apply goto_settles, moved_state;
          try assumption; try is_live.
        -- exact (new_walk_ok cpu (Purpose_Data _ plan) Et (conj Hw Estep)).
        -- split; [split; assumption |]. cbn [state set_state].
           change (Rv32iCpu.translating (set_state _ cpu)) with (Rv32iCpu.translating cpu).
           rewrite Et. exact I.
    + wp_run. apply commit_pending_settles.
      apply (trapped_moved cpu None Access_Fetch (pc cpu) Fault_Access); auto.
      destruct Hok as ((_ & [Hp _] & _) & _). exact Hp.
  - unmoved.
Qed.
(** ** Commit *)

(** The entry of the exception [cpu] is about to commit: from U or S, its bit set in [medeleg],
    into S at [stvec], with the exception in [scause], [stval] and [sepc] and the mode in [SPP]. *)
Definition exception_entry (cpu cpu' : Rv32iCpu) : Prop :=
  exists insn t pa,
    state cpu = State_CommitPending insn (Outcome_Exec (Exec_Trap t)) pa /\
    profile (config cpu) = M3 /\ privilege (m3 cpu) <> Machine /\
    Z.testbit (medeleg (m3 cpu)) (TrapCause.code (cause t)) = true /\
    privilege (m3 cpu') = Supervisor /\ pc cpu' = stvec (m3 cpu) /\
    scause (m3 cpu') = TrapCause.code (cause t) /\ stval (m3 cpu') = tval t /\ sepc (m3 cpu') = pc cpu /\
    Spp.privilege (spp (m3 cpu')) = privilege (m3 cpu).

(** The interrupt taken at the end of an instruction: its line is up and [mie.MEIE] set, it
    enters M at [mtvec] with the interrupt in [mcause] and the mode in [MPP]. *)
Definition interrupted (cpu cpu' : Rv32iCpu) : Prop :=
  profile (config cpu) = M3 /\ irq_level (csrs cpu') = true /\ meie (csrs cpu') = true /\
  privilege (m3 cpu') = Machine /\ pc cpu' = mtvec (csrs cpu') /\ mcause (csrs cpu') = MEI_CAUSE /\
  mpp (m3 cpu') = privilege (m3 cpu).

(** The commit of [cpu] retires an instruction. *)
Definition retires (cpu : Rv32iCpu) : Prop :=
  exists insn o pa, state cpu = State_CommitPending insn o pa /\ forall t, o <> Outcome_Exec (Exec_Trap t).

(** The commit of [cpu] retires its instruction and takes the interrupt; the mode in [MPP], that
    after the instruction, is not above the one before it. *)
Definition interrupt_entry (cpu cpu' : Rv32iCpu) : Prop :=
  retires cpu /\ profile (config cpu) = M3 /\ irq_level (csrs cpu') = true /\ meie (csrs cpu') = true /\
  privilege (m3 cpu') = Machine /\ pc cpu' = mtvec (csrs cpu') /\ mcause (csrs cpu') = MEI_CAUSE /\
  Privilege.rank (mpp (m3 cpu')) <= Privilege.rank (privilege (m3 cpu)).

(** Where an event may raise the privilege. *)
Definition privilege_step (cpu cpu' : Rv32iCpu) : Prop :=
  config cpu' = config cpu /\
  (Privilege.rank (privilege (m3 cpu')) <= Privilege.rank (privilege (m3 cpu)) \/
   exception_entry cpu cpu' \/ interrupt_entry cpu cpu').

Definition committed (cpu cpu' : Rv32iCpu) : Prop := cpu_ok cpu' /\ privilege_step cpu cpu'.

(** A CPU whose architecture is well formed and below the limit, about to fetch. *)
Definition ready (cpu : Rv32iCpu) : Prop :=
  arch_ok cpu /\ 0 <= instret cpu < max_instructions (config cpu).

Lemma fetch_next_settles (P : Rv32iCpu -> Prop) cpu ctx :
  ready cpu ->
  (forall s, cpu_ok (set_state s cpu) -> P (set_state s cpu)) ->
  settles P (fetch_next : M unit) cpu ctx.
Proof.
  intros [Ha Hc] HP. unfold fetch_next. apply wp_bind, wp_self.
  destruct (Rv32iCpu.translating cpu) eqn:Et; apply wp_bind, wp_update;
    apply settles_wake_next, HP; (split; [exact Ha |]); (split; [|exact Hc]).
  - exact (new_walk_ok cpu Purpose_Fetch Et I).
  - unfold state_ok. cbn [state set_state].
    change (Rv32iCpu.translating (set_state _ cpu)) with (Rv32iCpu.translating cpu).
    rewrite Et. exact I.
Qed.
Lemma arch_mode cpu : arch_ok cpu -> isa_mode (Rv32iCpu.isa cpu) = privilege (m3 cpu).
Proof.
  intros (_ & _ & _ & _ & _ & _ & _ & Hm). unfold Rv32iCpu.isa.
  destruct (profile (config cpu)) eqn:E; [| |reflexivity]; rewrite Hm by discriminate; reflexivity.
Qed.

(** Opens and rebuilds [arch_ok] around the fields an operation changes. *)
Ltac arch :=
  match goal with H : arch_ok ?c |- arch_ok _ =>
    let H' := fresh in pose proof H as H';
    destruct H' as (? & ? & ? & ? & ? & ? & ? & ?); split_and!; cbn; try assumption
  end.

Lemma arch_set_pc cpu t : arch_ok cpu -> target_ok t -> arch_ok (set_pc t cpu).
Proof. intros. arch. Qed.

Lemma arch_set_regs cpu r v :
  arch_ok cpu -> in_u 32 v -> arch_ok (set_regs (RegisterFile.write (regs cpu) r v) cpu).
Proof. intros. arch. auto with ranges. Qed.

Lemma arch_set_csrs cpu c :
  arch_ok cpu -> CsrFile.ok c -> profile (config cpu) <> M1 -> arch_ok (set_csrs c cpu).
Proof. intros. arch. intros; contradiction. Qed.

Lemma arch_set_m3 cpu s :
  arch_ok cpu -> M3State.ok s -> profile (config cpu) = M3 -> arch_ok (set_m3 s cpu).
Proof. intros. arch. intros; contradiction. Qed.

Lemma mtvec_target cpu : arch_ok cpu -> target_ok (mtvec (csrs cpu)).
Proof. intros (_ & _ & _ & _ & (? & ? & _) & _). split; assumption. Qed.

Lemma mepc_target cpu : arch_ok cpu -> target_ok (mepc (csrs cpu)).
Proof. intros (_ & _ & _ & _ & (_ & _ & _ & ? & ? & _) & _). split; assumption. Qed.

Lemma sepc_target cpu : arch_ok cpu -> target_ok (sepc (m3 cpu)).
Proof. intros (_ & _ & _ & _ & _ & (_ & _ & _ & _ & _ & ? & ? & _) & _). split; assumption. Qed.

(** After a retirement's effects: the mode changes only by the interrupt's entry. *)
Definition retired (cpu cpu' : Rv32iCpu) : Prop :=
  cpu_ok cpu' /\ config cpu' = config cpu /\
  (m3 cpu' = m3 cpu \/ interrupted cpu cpu').

Lemma retire_settles cpu fields ctx :
  ready cpu -> settles (retired cpu) (retire fields : M unit) cpu ctx.
Proof.
  intros [Ha Hc]. unfold retire. apply wp_bind, wp_self.
  assert (Hmax : max_instructions (config cpu) < 2 ^ 64) by (destruct Ha as ((_ & _ & Hm) & _); lia).
  destruct (checked_add 64 (instret cpu) 1) as [n|] eqn:En.
  2:{ unfold checked_add in En. destruct (Z.ltb_spec (instret cpu + 1) (2 ^ 64)); [discriminate | lia]. }
  apply checked_add_Some in En as [-> _]. wp_run.
  assert (Ha' : arch_ok (set_instret (instret cpu + 1) cpu)) by exact Ha.
  destruct (Z.leb_spec (max_instructions (config cpu)) (instret cpu + 1)).
  - wp_run. cbn [fst]. split; [|split; [reflexivity | left; reflexivity]].
    split; [exact Ha |]. split; [exact I |]. split; cbn; lia.
  - wp_run. set (cpu1 := set_instret _ cpu) in *.
    assert (Hready : forall cpu2, arch_ok cpu2 -> config cpu2 = config cpu ->
      instret cpu2 = instret cpu + 1 -> ready cpu2).
    { intros cpu2 H2 Hcfg Hi. split; [exact H2 |]. rewrite Hcfg, Hi. lia. }
    destruct (_ && CsrFile.mei_eligible _) eqn:E2; [|destruct (_ && M3State.mei_eligible _ _) eqn:E3].
    + wp_run. unbool. apply (fetch_next_settles (retired cpu)).
      * apply Hready; [|reflexivity..]. apply arch_set_pc; [|exact (mtvec_target cpu1 Ha')].
        apply arch_set_csrs; [exact Ha' | | congruence]. apply take_mei_ok; apply Ha'.
      * intros s Hs. split; [exact Hs |]. split; [reflexivity | left; reflexivity].
    + wp_run. unbool. apply (fetch_next_settles (retired cpu)).
      * apply Hready; [|reflexivity..]. apply arch_set_pc; [|exact (mtvec_target cpu1 Ha')].
        destruct (m3_take_mei_ok (m3 cpu1) (csrs cpu1) (pc cpu1)); try apply Ha'.
        apply arch_set_m3; [|assumption..]. apply arch_set_csrs; [exact Ha' | assumption | congruence].
      * intros s Hs. split; [exact Hs |]. split; [reflexivity |]. right.
        unfold M3State.mei_eligible in *. unbool. split_and!; try reflexivity; assumption.
    + wp_run. apply (fetch_next_settles (retired cpu)); [apply Hready; [exact Ha' | reflexivity..] |].
      intros s Hs. split; [exact Hs |]. split; [reflexivity | left; reflexivity].
Qed.
(** What a well-formed pending commit says of its instruction. *)
Lemma pending_trap cpu insn t pa :
  cpu_ok cpu -> state cpu = State_CommitPending insn (Outcome_Exec (Exec_Trap t)) pa ->
  in_u 32 (tval t) /\ cause_ok (Rv32iCpu.translating cpu) (privilege (m3 cpu)) (cause t).
Proof.
  intros (Ha & Hst & _) Hs. unfold state_ok in Hst. rewrite Hs in Hst.
  destruct Hst as (Hin & Hc & Ho & _). split; [exact Ho |].
  rewrite <- arch_mode by assumption.
  assert (Hflt : forall access tv,
    (bool_decide (t = mkTrap (Access.access_fault access) tv)
     || Rv32iCpu.translating cpu && bool_decide (t = mkTrap (Access.page_fault access) tv)) = true ->
    cause_ok (Rv32iCpu.translating cpu) (isa_mode (Rv32iCpu.isa cpu)) (cause t)).
  { intros access tv [Hf|Hf]%orb_true_iff; unbool; subst t.
    - destruct access; apply cause_plain; reflexivity.
    - split; [auto | destruct access; discriminate]. }
  unfold consistent in Hc. destruct insn as [w|]; [|eapply Hflt; exact Hc].
  destruct Ha as (_ & Hp & Hr & _).
  pose proof (step_result_ok (Rv32iCpu.isa cpu) w _ _ Hin Hp Hr) as Hok.
  destruct (step _ _ _ _) as [o|[l|st]]; [|eapply Hflt; exact Hc..].
  apply bool_decide_eq_true in Hc. subst o. destruct Hok as [_ [Hpf He]].
  split; [intros H1; specialize (Hpf H1); discriminate | exact He].
Qed.

Lemma pending_retires cpu insn o pa :
  cpu_ok cpu -> state cpu = State_CommitPending insn o pa ->
  (forall t, o <> Outcome_Exec (Exec_Trap t)) ->
  exists w, insn = Some w /\ outcome_ok o /\
    ((exists e, o = Outcome_Exec (Exec_Effect e)) \/ step_ok (Rv32iCpu.isa cpu) (Done o)).
Proof.
  intros ((_ & Hp & Hr & _) & Hst & _) Hs Ht. unfold state_ok in Hst. rewrite Hs in Hst.
  destruct Hst as (Hin & Hc & Ho & _). unfold consistent in Hc. destruct insn as [w|].
  2:{ destruct o as [[|t]| | |]; try discriminate Hc. exfalso. apply (Ht t). reflexivity. }
  exists w. split; [reflexivity |]. split; [exact Ho |].
  pose proof (step_result_ok (Rv32iCpu.isa cpu) w _ _ Hin Hp Hr) as Hok.
  destruct (step _ _ _ _) as [o'|plan].
  - apply bool_decide_eq_true in Hc. subst o'. right. exact Hok.
  - left. destruct o as [[e|t]| | |]; [eauto | exfalso; apply (Ht t); reflexivity | discriminate..].
Qed.

Lemma commit_trap_settles cpu insn t pa ctx :
  cpu_ok cpu -> state cpu = State_CommitPending insn (Outcome_Exec (Exec_Trap t)) pa ->
  settles (committed cpu) (commit_trap insn t : M unit) cpu ctx.
Proof.
  intros Hok Hs. destruct (pending_trap cpu insn t pa Hok Hs) as [Htv Hcause].
  pose proof Hok as (Ha & _ & Hn & Hcount). rewrite Hs in Hcount.
  unfold commit_trap. apply wp_bind, wp_self. destruct t as [c tv]. cbn [tval cause] in *.
  destruct (if bool_decide _ then _ else _) as [[h s]|] eqn:E.
  - case_bool_decide as Hm3; [|discriminate].
    assert (Hex := E). unfold M3State.take_exception in Hex.
    destruct (M3State.delegates (m3 cpu) c) eqn:Ed; [|discriminate]. apply delegates_spec in Ed as [Hmode Hbit].
    cbn [negb] in Hex. apply bind_Some in Hex as (from & Hfrom & [= Hh Hs']).
    destruct (m3_take_exception_ok (m3 cpu) c (pc cpu) tv h s) as (Hs3 & Hh1 & Hh2);
      try apply Ha; try assumption.
    wp_run. apply (fetch_next_settles (committed cpu)).
    + split; [|split; [exact Hn | exact Hcount]].
      apply arch_set_pc; [|split; assumption]. apply arch_set_m3; assumption.
    + intros st Hst. split; [exact Hst |]. split; [reflexivity |]. right. left.
      exists insn, (mkTrap c tv), pa. cbn [m3 set_state set_pc set_m3 pc]. subst s h. split_and!; try assumption; try reflexivity.
      * apply align_down4_id; apply Ha.
      * destruct (privilege (m3 cpu)); try discriminate; injection Hfrom as <-; reflexivity.
  - wp_run. cbn [fst]. split; [|split; [reflexivity | left; cbn; lia]].
    split; [exact Ha |]. split; [|split; [exact Hn | exact Hcount]].
    split; [exact Hcause |]. split; [reflexivity |]. split; [exact Htv |]. cbn [m3 set_state trap_cause].
    destruct Ha as (_ & _ & _ & _ & _ & _ & _ & Hm). case_bool_decide as Hm3.
    + unfold M3State.take_exception in E. destruct (M3State.delegates (m3 cpu) c) eqn:Ed; [|reflexivity].
      cbn [negb] in E. unfold M3State.delegates in Ed. unbool.
      destruct (privilege (m3 cpu)); cbn in E; congruence.
    + rewrite Hm by assumption. reflexivity.
Qed.
Lemma read_csr_ok cpu csr v :
  arch_ok cpu -> Rv32iCpu.read_csr cpu csr = Some v -> in_u 32 v.
Proof.
  intros (_ & _ & _ & _ & Hc & Hm & _). unfold Rv32iCpu.read_csr.
  destruct (profile (config cpu)); eauto using csr_read_ok, m3_read_ok.
Qed.

Lemma write_csr_ok cpu csr v cpu' :
  arch_ok cpu -> profile (config cpu) <> M1 -> in_u 32 v ->
  Rv32iCpu.write_csr cpu csr v = Some cpu' ->
  arch_ok cpu' /\ config cpu' = config cpu /\ instret cpu' = instret cpu /\
  privilege (m3 cpu') = privilege (m3 cpu).
Proof.
  intros Ha Hp Hv. pose proof Ha as (_ & _ & _ & _ & Hc & Hm & _). unfold Rv32iCpu.write_csr.
  destruct (profile (config cpu)) eqn:Ep; [contradiction | |].
  - intros (c & Hw & [= <-])%bind_Some. split; [|auto].
    apply arch_set_csrs; [assumption | eapply csr_write_ok; eassumption | congruence].
  - intros ([s c] & Hw & [= <-])%bind_Some.
    destruct (m3_write_ok _ _ _ _ _ _ Hm Hc Hv Hw) as [Hs' Hc']. split.
    + apply arch_set_m3; [apply arch_set_csrs; congruence || assumption | assumption | exact Ep].
    + split; [reflexivity |]. split; [reflexivity |].
      destruct (m3_write_other _ _ _ _ _ _ Hw) as [Hpr _]. exact Hpr.
Qed.

(** A CSR readable in this profile is writable, and still readable. *)
Lemma csr_supported_total cpu csr :
  arch_ok cpu ->
  match Rv32iCpu.isa cpu with
  | Isa_M1 => False
  | Isa_M2 => Csr.is_supported csr = true
  | Isa_M3 _ => Privileged.is_supported csr = true
  end ->
  is_Some (Rv32iCpu.read_csr cpu csr) /\
  forall v, exists cpu', Rv32iCpu.write_csr cpu csr v = Some cpu' /\
    is_Some (Rv32iCpu.read_csr cpu' csr).
Proof.
  intros Ha. unfold Rv32iCpu.isa, Rv32iCpu.read_csr, Rv32iCpu.write_csr.
  destruct (profile (config cpu)) eqn:Ep; [contradiction | |]; intros Hs; split.
  - apply csr_supported_spec, Hs.
  - intros v. destruct (CsrFile.write (csrs cpu) csr v) as [c|] eqn:Ew.
    + eexists. split; [reflexivity |]. cbn [config set_csrs csrs]. rewrite Ep.
      apply csr_supported_spec, Hs.
    + apply csr_write_None in Ew as [Hn _]. congruence.
  - apply m3_supported_spec, Hs.
  - intros v. destruct (M3State.write (m3 cpu) (csrs cpu) csr v) as [[st c]|] eqn:Ew.
    + eexists. split; [reflexivity |]. cbn [config set_csrs set_m3 csrs m3]. rewrite Ep.
      apply m3_supported_spec, Hs.
    + apply m3_write_None in Ew as [Hn _]. congruence.
Qed.

Lemma apply_in_u op old v : in_u 32 old -> in_u 32 v -> in_u 32 (CsrOp.apply op old v).
Proof. intros. destruct op; cbn; auto with ranges. Qed.

Lemma wp_commit_csr cpu insn op ctx (Q : list (string * Value) -> Rv32iCpu * C -> Prop) X :
  arch_ok cpu -> step_ok (Rv32iCpu.isa cpu) (Done (Outcome_Csr op)) ->
  (forall fields cpu', arch_ok cpu' -> config cpu' = config cpu -> instret cpu' = instret cpu ->
     privilege (m3 cpu') = privilege (m3 cpu) -> Q fields (cpu', ctx)) ->
  wp (commit_csr insn op : M _) Q X (cpu, ctx).
Proof.
  intros Ha [(Hcsr & Hop & Hrd & Hnext) Hsup] HQ.
  assert (Hp : profile (config cpu) <> M1)
    by (unfold Rv32iCpu.isa in Hsup; intros E; rewrite E in Hsup; exact Hsup).
  destruct (csr_supported_total cpu (pc_csr op) Ha) as [[old Hold] Hw].
  { destruct (Rv32iCpu.isa cpu); [exact Hsup | exact Hsup | apply Hsup]. }
  pose proof (read_csr_ok cpu _ _ Ha Hold) as Ho.
  assert (Hend : forall fields cpu', arch_ok cpu' -> config cpu' = config cpu ->
    instret cpu' = instret cpu -> privilege (m3 cpu') = privilege (m3 cpu) ->
    wp (update (fun cpu => set_regs (RegisterFile.write (regs cpu) (pc_rd op) old) cpu);;
        update (set_pc (pc_next_pc op));; mret fields : M _) Q X (cpu', ctx)).
  { intros fields cpu' Ha' Hc' Hi' Hp'. wp_run. apply HQ; try assumption.
    apply arch_set_pc; [apply arch_set_regs; assumption | exact Hnext]. }
  unfold commit_csr. wp_run. apply wp_try; rewrite Hold; [|discriminate]. intros ? [= <-].
  wp_run. destruct (pc_write op); [|wp_run; apply Hend; auto].
  destruct (Hw (CsrOp.apply (pc_op op) old (pc_operand op))) as (cpu' & Hcpu' & stored & Hst).
  apply wp_bind, wp_try; rewrite Hcpu'; [|discriminate]. intros ? [= <-]. wp_run.
  apply wp_try; rewrite Hst; [|discriminate]. intros ? [= <-]. wp_run.
  destruct (write_csr_ok cpu _ _ cpu' Ha Hp (apply_in_u _ _ _ Ho Hop) Hcpu') as (? & ? & ? & ?).
  apply Hend; auto.
Qed.

Lemma committed_retired cpu cpu1 cpu' :
  retires cpu -> config cpu1 = config cpu ->
  Privilege.rank (privilege (m3 cpu1)) <= Privilege.rank (privilege (m3 cpu)) ->
  retired cpu1 cpu' -> committed cpu cpu'.
Proof.
  intros Hret Hc Hr (Hok & Hcfg & Hm). split; [exact Hok |]. split; [congruence |].
  destruct Hm as [Hm|Hm]; [left; rewrite Hm; exact Hr | right; right].
  destruct Hm as (Hp & ? & ? & ? & ? & ? & Hmpp). split_and!; try assumption; [congruence | rewrite Hmpp; exact Hr].
Qed.

Lemma retire_committed cpu cpu1 fields ctx :
  retires cpu -> ready cpu1 -> config cpu1 = config cpu ->
  Privilege.rank (privilege (m3 cpu1)) <= Privilege.rank (privilege (m3 cpu)) ->
  settles (committed cpu) (retire fields : M unit) cpu1 ctx.
Proof.
  intros Hret Hr Hc Hp. eapply wp_mono; [apply (retire_settles cpu1 fields ctx Hr) | |]; cbn.
  - intros _ s Hs. eapply committed_retired; eassumption.
  - intros e s [Hs He]. split; [eapply committed_retired; eassumption | exact He].
Qed.

Lemma commit_settles cpu insn o pa ctx :
  cpu_ok cpu -> state cpu = State_CommitPending insn o pa ->
  settles (committed cpu) (commit insn o pa : M unit) cpu ctx.
Proof.
  intros Hok Hs. pose proof Hok as (Ha & _ & Hn & Hcount). rewrite Hs in Hcount.
  assert (Hready : forall cpu1, arch_ok cpu1 -> config cpu1 = config cpu ->
    instret cpu1 = instret cpu -> ready cpu1).
  { intros cpu1 H1 Hc Hi. split; [exact H1 |]. rewrite Hc, Hi. lia. }
  assert (Hcase : (exists t, o = Outcome_Exec (Exec_Trap t)) \/ forall t, o <> Outcome_Exec (Exec_Trap t))
    by (destruct o as [[|]| | |]; eauto; right; discriminate).
  destruct Hcase as [[t ->]|Hne].
  { eapply commit_trap_settles; eassumption. }
  destruct (pending_retires cpu insn o pa Hok Hs) as (w & -> & Ho & Hstep); [exact Hne |].
  assert (Hret : retires cpu) by (eexists _, _, _; eauto).
  unfold commit. destruct o as [[e|t]|op| |]; [|exfalso; apply (Hne t); reflexivity|..]; apply wp_bind, wp_try;
    try discriminate; intros ? [= <-]; wp_run.
  - destruct Ho as [Ht Hw]. destruct e as [[[rd v]|] t]; cbn [reg_write next_pc] in *; wp_run;
      (apply retire_committed; [exact Hret | apply Hready; [|reflexivity..] | reflexivity | reflexivity]).
    + apply arch_set_pc; [apply arch_set_regs; [exact Ha | apply Hw] | exact Ht].
    + apply arch_set_pc; [exact Ha | exact Ht].
  - destruct Hstep as [[e Hx]|Hstep]; [discriminate |]. apply wp_commit_csr; [exact Ha | exact Hstep |].
    intros fields cpu' Ha' Hc' Hi' Hp'. apply retire_committed; [exact Hret | auto | assumption | rewrite Hp'; lia].
  - destruct Hstep as [[e Hx]|[_ Hisa]]; [discriminate |]. unfold Rv32iCpu.isa in Hisa.
    destruct (profile (config cpu)) eqn:Ep; [destruct Hisa; discriminate | |];
      wp_run; (apply retire_committed; [exact Hret | apply Hready; [|reflexivity..] | reflexivity |]).
    + apply arch_set_pc; [|exact (mepc_target cpu Ha)].
      apply arch_set_csrs; [exact Ha | apply csr_mret_ok, Ha | congruence].
    + reflexivity.
    + apply arch_set_pc; [|exact (mepc_target cpu Ha)].
      apply arch_set_m3; [|apply (m3_mret_ok (m3 cpu) (csrs cpu)); apply Ha | exact Ep].
      apply arch_set_csrs; [exact Ha | apply (m3_mret_ok (m3 cpu) (csrs cpu)); apply Ha | congruence].
    + destruct Hisa as [|[= ->]]; [discriminate |]. cbn. destruct (mpp (m3 cpu)); cbn; lia.
  - destruct Hstep as [[e Hx]|[_ (mode & Hisa & Hmode)]]; [discriminate |]. unfold Rv32iCpu.isa in Hisa.
    destruct (profile (config cpu)) eqn:Ep; try discriminate. injection Hisa as <-.
    wp_run. apply retire_committed; [exact Hret | apply Hready; [|reflexivity..] | reflexivity |].
    + apply arch_set_pc; [|exact (sepc_target cpu Ha)].
      apply arch_set_m3; [exact Ha | apply m3_sret_ok, Ha | exact Ep].
    + cbn. destruct (spp (m3 cpu)), (privilege (m3 cpu)); cbn; try lia; contradiction.
Qed.
(** ** Events *)

(** Every event: the invariant, the privilege rule, and no architectural change but the
    [irq] level unless the event is the commit wake. *)
Definition event_post (ev : Delivered) (cpu cpu' : Rv32iCpu) : Prop :=
  cpu_ok cpu' /\ privilege_step cpu cpu' /\
  (ev <> Delivered_Wake COMMIT ->
   same_arch (set_csrs (set_irq_level (irq_level (csrs cpu')) (csrs cpu)) cpu) cpu').

Lemma moved_post ev cpu cpu' : moved cpu cpu' -> event_post ev cpu cpu'.
Proof.
  intros [Hok (Hcfg & Hp & Hr & Hi & Hc & Hm)]. split; [exact Hok |]. split.
  - split; [exact Hcfg | left; rewrite Hm; lia].
  - intros _. repeat split; cbn; try assumption. rewrite Hc. destruct (csrs cpu). reflexivity.
Qed.

Lemma settles_mono {A} (P P' : Rv32iCpu -> Prop) (m : M A) cpu ctx :
  (forall c, P c -> P' c) -> settles P m cpu ctx -> settles P' m cpu ctx.
Proof. intros HP Hm. eapply wp_mono; [exact Hm | |]; cbn; firstorder. Qed.

Lemma wake_settles cpu token ctx :
  cpu_ok cpu -> txn_left cpu ->
  settles (event_post (Delivered_Wake token) cpu) (wake token : M unit) cpu ctx.
Proof.
  intros Hok Htxn. pose proof Hok as ((_ & _ & _ & Hn & _) & Hst & _). unfold state_ok in Hst.
  assert (Hno : settles (event_post (Delivered_Wake token) cpu)
    (fault "rv32 cpu: wake does not match the execution state" : M unit) cpu ctx)
    by apply settles_fault, moved_post, moved_refl, Hok.
  unfold wake. apply wp_bind, wp_self.
  destruct (state cpu) as [pa| |insn plan pa| |w| |insn o pa|] eqn:Es; try exact Hno;
    (match goal with |- context [token =? ?t] => destruct (Z.eqb_spec token t) as [->|Hne] end;
     [|exact Hno]).
  4:{ eapply settles_mono; [|apply (commit_settles cpu insn o pa ctx Hok Es)].
      intros c [Hc Hp]. split; [exact Hc |]. split; [exact Hp | intros []; reflexivity]. }
  all: eapply settles_mono; [apply moved_post |]; cbn zeta;
    (lazymatch goal with |- settles _ (mbind (fun txn => update (set_state (@?f txn))) _) _ _ =>
       apply (send_settles _ cpu ctx f) end);
    [exact Hok | exact Htxn | rewrite Es; is_live | intros; is_live | intros Hn'];
    (split; [apply next_outstanding, Hn | exact Hst]).
Qed.

Lemma irq_settles cpu msg ctx :
  cpu_ok cpu -> profile (config cpu) <> M1 ->
  settles (fun cpu' => cpu_ok cpu' /\ exists b, cpu' = set_csrs (set_irq_level b (csrs cpu)) cpu)
    (irq msg : M unit) cpu ctx.
Proof.
  intros Hok Hp. unfold irq. apply wp_bind, wp_phase. destruct (negb _).
  - apply wp_fault. split; [|eauto]. split; [exact Hok |]. exists (irq_level (csrs cpu)).
    destruct cpu as [?? ?? ?? [] ?]; reflexivity.
  - destruct msg as [b]. apply wp_update. cbn [fst]. split; [|eauto].
    destruct Hok as (Ha & Hst & Hc). split; [|split; [exact Hst | exact Hc]].
    apply arch_set_csrs; [exact Ha | apply Ha | exact Hp].
Qed.

Lemma leaves_settled cpu ev ctx :
  cpu_ok cpu -> (forall token, ev = Delivered_Wake token -> txn_left cpu) -> delivered_ok ev ->
  settles (event_post ev cpu) (handle_event ev : M unit) cpu ctx.
Proof.
  intros Hok Htxn Hev.
  assert (Hno : forall what, settles (event_post ev cpu) (fault what : M unit) cpu ctx)
    by (intros; apply settles_fault, moved_post, moved_refl, Hok).
  assert (Hresp : forall port msg, ev = Delivered_Message port (Message_MemV1 msg) ->
    settles (event_post ev cpu) (response msg : M unit) cpu ctx).
  { intros port msg ->. eapply settles_mono; [apply moved_post |]. apply response_settles; assumption. }
  unfold handle_event. apply wp_bind, wp_self. destruct ev as [port msg|token].
  2:{ apply wake_settles; eauto. }
  destruct (profile (config cpu)) eqn:Ep.
  { destruct msg; try apply Hno. eapply Hresp. reflexivity. }
  all: destruct (port =? PORT);
    [destruct msg; try apply Hno; eapply Hresp; reflexivity |].
  all: destruct (port =? IRQ_PORT); [|apply Hno]; destruct msg; try apply Hno.
  all: (eapply settles_mono; [|apply irq_settles; [exact Hok | congruence]]);
    intros c [Hc [b ->]]; (split; [exact Hc |]);
    (split; [split; [reflexivity | left; cbn; lia] | intros _; repeat split]).
Qed.

Lemma handle_event_settles cpu ev ctx :
  cpu_ok cpu -> txn_left cpu -> delivered_ok ev ->
  settles (event_post ev cpu) (handle_event ev : M unit) cpu ctx.
Proof. intros Hok Htxn. apply leaves_settled; auto. Qed.

(** ** The last transaction of the M1 profile *)

(** The one panic of the CPU: in M1, [next_txn += 1] overflows after the last [TxnId]. *)
Definition overflows (cpu : Rv32iCpu) (e : Failure) : Prop :=
  profile (config cpu) = M1 /\ next_txn cpu = 2 ^ 64 - 1 /\ e = Panics "attempt to add with overflow".

#[local] Instance txn_left_dec cpu : Decision (txn_left cpu).
Proof. unfold txn_left. apply _. Defined.

Lemma send_overflows msg (f : Z -> State) cpu ctx :
  cpu_ok cpu -> ~ txn_left cpu ->
  wp (txn ← send msg; update (set_state (f txn)) : M unit) (fun _ _ => False)
    (fun e s => fst s = cpu /\ ((exists e', e = Fails e') \/ overflows cpu e)) (cpu, ctx).
Proof.
  intros Hok Hl. assert (Hn : in_u 64 (next_txn cpu)) by apply Hok. unfold txn_left in Hl.
  destruct (decide (profile (config cpu) = M1)) as [Ep|Ep]; [|exfalso; tauto].
  assert (Hlast : next_txn cpu = 2 ^ 64 - 1) by (unfold in_u in Hn; destruct (decide (next_txn cpu + 1 < 2 ^ 64)); [tauto | lia]).
  apply wp_bind. unfold send. apply wp_bind, wp_self. rewrite Ep. apply wp_bind, wp_call; [|intros; split; [reflexivity | eauto]].
  intros ctx'. rewrite (proj2 (checked_add_None 64 (next_txn cpu) 1)) by lia. split; [reflexivity |]. right. split_and!; auto.
Qed.

(** Every event, the last transactions of M1 included. *)
Lemma event_total cpu ev ctx :
  cpu_ok cpu -> delivered_ok ev ->
  wp (handle_event ev : M unit) (fun _ s => event_post ev cpu (fst s))
    (fun e s => event_post ev cpu (fst s) /\ ((exists e', e = Fails e') \/ overflows cpu e /\ fst s = cpu)) (cpu, ctx).
Proof.
  intros Hok Hev.
  assert (Hsettled : settles (event_post ev cpu) (handle_event ev : M unit) cpu ctx -> wp (handle_event ev : M unit)
    (fun _ s => event_post ev cpu (fst s)) (fun e s => event_post ev cpu (fst s) /\ ((exists e', e = Fails e') \/ overflows cpu e /\ fst s = cpu)) (cpu, ctx)).
  { intros Hs. eapply wp_mono; [exact Hs | auto |]. cbn. intros e s [? ?]. auto. }
  destruct ev as [port msg|token]; [apply Hsettled, leaves_settled; auto; discriminate |].
  destruct (decide (txn_left cpu)) as [Hl|Hl]; [apply Hsettled, handle_event_settles; auto |].
  assert (Hstay : event_post (Delivered_Wake token) cpu cpu) by apply moved_post, moved_refl, Hok.
  clear Hsettled. unfold handle_event, wake. apply wp_bind, wp_self. apply wp_bind, wp_self.
  destruct (state cpu) as [pa| |insn plan pa| |w| |insn o pa|] eqn:Es; try (apply wp_fault; split; [exact Hstay | eauto]);
    (match goal with |- context [token =? ?t] => destruct (Z.eqb_spec token t) as [->|Hne] end;
     [|apply wp_fault; split; [exact Hstay | eauto]]).
  4:{ eapply wp_mono; [apply (commit_settles cpu insn o pa ctx Hok Es) | |]; cbn.
      - intros _ c [Hc Hp]. split; [exact Hc |]. split; [exact Hp | intros []; reflexivity].
      - intros e c [[Hc Hp] He]. split; [|auto]. split; [exact Hc |]. split; [exact Hp | intros []; reflexivity]. }
  all: cbn zeta; lazymatch goal with |- wp (mbind (fun txn => update (set_state (@?f txn))) _) _ _ _ =>
         eapply wp_mono; [apply (send_overflows _ f cpu ctx Hok Hl) | intros ? ? [] |] end;
    cbn; intros e s [Es' He]; rewrite Es'; (split; [exact Hstay | destruct He; auto]).
Qed.
End invariant.

(** A CPU from its own constructor satisfies the invariant. *)
Lemma cpu_new_ok cfg cpu : config_ok cfg -> Rv32iCpu.new cfg = Ok cpu -> cpu_ok cpu.
Proof.
  intros Hc. unfold Rv32iCpu.new. destruct (negb _); [discriminate |]. intros [= <-].
  pose proof Hc as (_ & He & Hm). split; [|split].
  - repeat split; try apply Hc; try apply He; cbn; auto; try lia; try apply RegisterFile.new_ok;
      try apply csr_file_new_ok; try apply m3_new_ok; lia.
  - unfold state_ok. cbn [state]. replace (Rv32iCpu.translating _) with false; [exact I |].
    unfold Rv32iCpu.translating. cbn [config m3]. symmetry. apply andb_false_r.
  - split; cbn; lia.
Qed.

(** * Claims *)

Section claims.
Context {C : Type} `{SimContext C}.

(** The states a CPU built from [cfg] can be in: at reset, then after any event a
    runtime delivers, whether the handler succeeds or not. *)
Inductive reachable (cfg : Rv32iConfig) : Rv32iCpu -> Prop :=
| reachable_new cpu : Rv32iCpu.new cfg = Ok cpu -> reachable cfg cpu
| reachable_event cpu ev ctx cpu' ctx' r :
    reachable cfg cpu -> delivered_ok ev ->
    handle_event (C := C) ev (cpu, ctx) = ((cpu', ctx'), r) -> reachable cfg cpu'.

(** C20: the CPU is always well formed.  At reset, and after any sequence of events (wakes,
    responses and interrupt levels, expected or not, and whatever the context answers), whether
    the handlers succeed or fail, the CPU satisfies its whole invariant: PC aligned,
    registers and CSRs legal, pending accesses, walks and outcomes those of their
    instruction, [instret] within the limit.  In none of these states does an event make the
    handler panic, with one exception: in the M1 profile, where [next_txn += 1] is not checked,
    the request after 2^64 - 1 transactions overflows, and the CPU is then left as it was. *)
Theorem cpu_reachable_invariant cfg cpu :
  config_ok cfg -> reachable cfg cpu ->
  cpu_ok cpu /\
  forall ev ctx what, delivered_ok ev ->
    let '((cpu', _), r) := handle_event (C := C) ev (cpu, ctx) in
    r = Err (Panics what) ->
    profile cfg = M1 /\ next_txn cpu = 2 ^ 64 - 1 /\ what = "attempt to add with overflow" /\ cpu' = cpu.
Proof.
  intros Hc Hr. assert (Hok : cpu_ok cpu /\ config cpu = cfg).
  { induction Hr as [cpu Hn|cpu ev ctx cpu' ctx' r _ [IH Hcfg] Hev E].
    - split; [eapply cpu_new_ok; eassumption |]. unfold Rv32iCpu.new in Hn. destruct (negb _); [discriminate |]. injection Hn as <-. reflexivity.
    - apply (wp_use _ _ _ _ _ _ (event_total cpu ev ctx IH Hev)) in E.
      assert (Hpost : event_post ev cpu cpu') by (destruct r; apply E). destruct Hpost as (Hok & [Hcfg' _] & _). split; [exact Hok | congruence]. }
  destruct Hok as [Hok <-]. split; [exact Hok |]. intros ev ctx what Hev.
  pose proof (event_total cpu ev ctx Hok Hev) as Hs. destruct (handle_event ev (cpu, ctx)) as [[cpu' ctx'] r] eqn:E.
  apply (wp_use _ _ _ _ _ _ Hs) in E. intros ->. destruct E as [_ [[e' [=]]|[(Hp & Hn & [= ->]) Hsame]]]. auto.
Qed.

(** Architectural state changes only in [Commit].  Any other event leaves [pc], the
    registers, [instret], the mode and every CSR as they were, except that an [irq.v0]
    level sets the level [mip.MEIP] reads. *)
Theorem arch_changes_only_in_commit cpu ev ctx :
  cpu_ok cpu -> delivered_ok ev -> ev <> Delivered_Wake COMMIT ->
  let '((cpu', _), _) := handle_event (C := C) ev (cpu, ctx) in
  config cpu' = config cpu /\ pc cpu' = pc cpu /\ regs cpu' = regs cpu /\
  instret cpu' = instret cpu /\ m3 cpu' = m3 cpu /\
  csrs cpu' = set_irq_level (irq_level (csrs cpu')) (csrs cpu).
Proof.
  intros Hok Hev Hne. pose proof (event_total cpu ev ctx Hok Hev) as Hs.
  destruct (handle_event ev (cpu, ctx)) as [[cpu' ctx'] r] eqn:E.
  apply (wp_use _ _ _ _ _ _ Hs) in E.
  assert (Hpost : event_post ev cpu cpu') by (destruct r; apply E).
  destruct Hpost as (_ & _ & Ha). destruct (Ha Hne) as (? & ? & ? & ? & ? & ?). auto 10.
Qed.

(** C23: no privilege escalation.  Whatever instruction runs and whatever event arrives,
    the mode after it is at most the mode before it, except when a commit enters a trap.  Either
    the commit is that of an exception raised in U or S whose bit in [medeleg] is set, and enters
    S at [stvec] with the exception in [scause], [stval] and [sepc] and the old mode in [SPP]; or
    it retires an instruction while the external interrupt line is up and [mie.MEIE] is set, and
    enters M at [mtvec] with the interrupt in [mcause] and in [MPP] a mode not above the old one.
    Both happen in the M3 profile only. *)
Theorem no_privilege_escalation cpu ev ctx :
  cpu_ok cpu -> delivered_ok ev ->
  let '((cpu', _), _) := handle_event (C := C) ev (cpu, ctx) in
  Privilege.rank (privilege (m3 cpu)) < Privilege.rank (privilege (m3 cpu')) ->
  ev = Delivered_Wake COMMIT /\ (exception_entry cpu cpu' \/ interrupt_entry cpu cpu').
Proof.
  intros Hok Hev. pose proof (event_total cpu ev ctx Hok Hev) as Hs.
  destruct (handle_event ev (cpu, ctx)) as [[cpu' ctx'] r] eqn:E.
  apply (wp_use _ _ _ _ _ _ Hs) in E. intros Hrise.
  assert (Hpost : event_post ev cpu cpu') by (destruct r; apply E).
  destruct Hpost as (_ & (_ & [Hle|Hp]) & Hsame); [lia |]. split; [|exact Hp].
  destruct (decide (ev = Delivered_Wake COMMIT)) as [|Hne]; [assumption |].
  destruct (Hsame Hne) as (_ & _ & _ & _ & _ & Hm). cbn in Hm. rewrite Hm in Hrise. lia.
Qed.
End claims.

(** ** Witnesses *)

Definition example_config (p : Rv32iProfile) : Rv32iConfig := mkRv32iConfig 0 0x80000000 100 p.

(** A CPU of the M3 profile in U-mode with its ECALL pending and delegated. *)
Definition example_ecall : Rv32iCpu :=
  mkRv32iCpu (example_config M3) 0x80000100 RegisterFile.new 7 9
    (State_CommitPending (Some 0x73) (Outcome_Exec (Exec_Trap (mkTrap EnvironmentCallFromU 0))) None)
    CsrFile.new
    (set_privilege User (set_medeleg 0x100 (set_stvec 0x80000200 M3State.new))).

Lemma example_ecall_ok : cpu_ok example_ecall.
Proof. apply (bool_decide_unpack _). vm_compute. exact I. Qed.

Definition commit_context : RecCtx := mkRecCtx Phase_Commit [].

(** One instruction, [addi x1, x0, 5], of the CPU of profile [p]: fetched, answered and committed. *)
Definition addi_events : list (Phase * Delivered) :=
  [(Phase_Request, Delivered_Wake FETCH);
   (Phase_Complete, Delivered_Message PORT (Message_MemV1 (ReadResp 0 (ReadOutcome_Data (to_le 4 0x00500093)))));
   (Phase_Commit, Delivered_Wake COMMIT)].

Definition after_events (evs : list (Phase * Delivered)) (cpu : Rv32iCpu) : Rv32iCpu :=
  foldl (fun cpu '(ph, ev) => fst (fst (@handle_event RecCtx recording_context ev (cpu, mkRecCtx ph [])))) cpu evs.

Definition example_reset_cpu (p : Rv32iProfile) : Rv32iCpu :=
  mkRv32iCpu (example_config p) 0x80000000 RegisterFile.new 0 0 (State_FetchIssue None) CsrFile.new M3State.new.

Lemma after_events_reachable cfg evs cpu :
  Forall (fun e => delivered_ok (snd e)) evs -> @reachable RecCtx recording_context cfg cpu ->
  @reachable RecCtx recording_context cfg (after_events evs cpu).
Proof.
  intros He. revert cpu. induction He as [|[ph ev] evs Hev _ IH]; intros cpu Hr; [exact Hr |]. apply IH.
  destruct (@handle_event RecCtx recording_context ev (cpu, mkRecCtx ph [])) as [[cpu' ctx'] r] eqn:E.
  eapply reachable_event; [exact Hr | exact Hev | exact E].
Qed.

(** The CPU of the M1 profile after its first instruction: [x1] is 5, and it still cannot panic. *)
Lemma cpu_reachable_invariant_witness :
  let cpu := after_events addi_events (example_reset_cpu M1) in
  RegisterFile.read (regs cpu) 1 = 5 /\ instret cpu = 1 /\ cpu_ok cpu /\
  forall ev ctx what, delivered_ok ev -> snd (@handle_event RecCtx recording_context ev (cpu, ctx)) <> Err (Panics what).
Proof.
  intros cpu. destruct (@cpu_reachable_invariant RecCtx recording_context (example_config M1) cpu) as [Hok Hp].
  - apply (bool_decide_unpack _). vm_compute. exact I.
  - apply after_events_reachable; [repeat constructor; vm_compute; congruence |]. apply reachable_new. reflexivity.
  - split; [vm_compute; reflexivity |]. split; [vm_compute; reflexivity |]. split; [exact Hok |]. intros ev ctx what Hev Hr.
    specialize (Hp ev ctx what Hev). destruct (handle_event ev (cpu, ctx)) as [[cpu' ctx'] r]. destruct (Hp Hr) as (_ & Hn & _). discriminate Hn.
Defined.

Lemma arch_changes_only_in_commit_witness :
  regs (fst (fst (@handle_event RecCtx recording_context (Delivered_Wake FETCH)
    (example_ecall, commit_context)))) = regs example_ecall.
Proof.
  pose proof (@arch_changes_only_in_commit RecCtx recording_context example_ecall
    (Delivered_Wake FETCH) commit_context example_ecall_ok I ltac:(discriminate)) as Hw.
  destruct (handle_event _ _) as [[cpu' ctx'] r]. apply Hw.
Defined.

Lemma no_privilege_escalation_witness :
  let cpu' := fst (fst (@handle_event RecCtx recording_context (Delivered_Wake COMMIT) (example_ecall, commit_context))) in
  privilege (m3 cpu') = Supervisor /\ exception_entry example_ecall cpu'.
Proof.
  pose proof (@no_privilege_escalation RecCtx recording_context example_ecall
    (Delivered_Wake COMMIT) commit_context example_ecall_ok I) as Hw.
  destruct (handle_event _ _) as [[cpu' ctx'] r] eqn:E. vm_compute in E. injection E as <- <- <-.
  split; [reflexivity |]. destruct (Hw ltac:(reflexivity)) as [_ [Hp|(_ & _ & _ & _ & Hp & _)]]; [exact Hp | discriminate Hp].
Defined.
