(* ===== verification/CpuEvents.v ===== *)
(** What the CPU schedules: every state but [Halted] waits for exactly one event, which
    the handler that entered the state scheduled, and a handler that fails has no effect.

    The handlers run against the context that accepts every call and records the calls in
    order, so the theorem reads off everything a handler asked of the runtime. *)
From stdpp Require Import base numbers list option strings.
From Stdlib Require Import ZArith Lia.
From S2P Require Import Prelude Contracts Handlers Instr Decode Execute Memory Csr Privileged Sv32 Cpu CpuProofs.

Local Open Scope string_scope.
Local Open Scope list_scope.
Local Open Scope Z_scope.

(** The event each state waits for: a wake of its own token, or the answer to the one
    request it has sent. *)
Definition awaited (cpu : Rv32iCpu) : list Effect :=
  let next_cycle token := [Woken (When_Cycles (clock (config cpu)) 1) Phase_Request token] in
  let request msg := [Sent PORT (Message_MemV1 msg) When_Now Phase_Request] in
  match state cpu with
  | State_FetchIssue _ => next_cycle FETCH
  | State_MemIssue _ _ _ => next_cycle MEMORY
  | State_WalkIssue _ => next_cycle WALK
  | State_FetchWait txn pa => request (ReadReq txn (default (pc cpu) pa) 4)
  | State_MemWait txn _ plan pa => request (plan_request plan (default (plan_addr plan) pa) txn)
  | State_WalkWait txn w =>
      request (ReadReq txn (pte_address (table w) (Rv32iCpu.walk_va cpu w) (level w)) 4)
  | State_CommitPending _ _ _ => [Woken When_Now Phase_Commit COMMIT]
  | State_Halted _ => []
  end.

(** [c'] is [c] after calls that schedule exactly [events], in order. *)
Definition logs (c : RecCtx) (events : list Effect) (c' : RecCtx) : Prop :=
  exists log, rec_log c' = rec_log c ++ log /\ List.filter schedules log = events.

Lemma logs_nil c : logs c [] c.
Proof. exists []. rewrite app_nil_r. auto. Qed.

Lemma logs_push c events c' e :
  logs c events c' -> logs c (events ++ List.filter schedules [e]) (rec_push e c').
Proof.
  intros (log & Hl & <-). exists (log ++ [e]). cbn [rec_push rec_log].
  rewrite Hl, app_assoc, List.filter_app. auto.
Qed.

Lemma logs_trace c events c' k fs : logs c events c' -> logs c events (rec_push (Traced k fs) c').
Proof. intros Hl. apply (logs_push _ _ _ (Traced k fs)) in Hl. rewrite app_nil_r in Hl. exact Hl. Qed.

Section recorded.
#[local] Existing Instance recording_context.

Local Abbreviation M := (ST (Rv32iCpu * RecCtx) Failure).

(** [m] returns with the CPU awaiting what it scheduled since [c0], or fails with the CPU
    [cpu0] and no call made. *)
Definition scheduled {A} (cpu0 : Rv32iCpu) (c0 : RecCtx) (m : M A) (cpu : Rv32iCpu) (c : RecCtx) : Prop :=
  wp m (fun _ s => logs c0 (awaited (fst s)) (snd s)) (fun _ s => s = (cpu0, c0)) (cpu, c).

Lemma goto_scheduled cpu0 c0 s token cpu c :
  logs c0 [] c ->
  awaited (set_state s cpu) = [Woken (When_Cycles (clock (config cpu)) 1) Phase_Request token] ->
  scheduled cpu0 c0 (update (set_state s);; wake_next_cycle token : M unit) cpu c.
Proof.
  intros Hl Hw. apply wp_bind, wp_update. unfold wake_next_cycle. apply wp_bind, wp_self.
  unfold wp. cbn. rewrite Hw. exact (logs_push _ _ _ _ Hl).
Qed.

Lemma commit_pending_scheduled cpu0 c0 insn o pa cpu c :
  logs c0 [] c -> scheduled cpu0 c0 (commit_pending insn o pa : M unit) cpu c.
Proof. intros Hl. unfold scheduled, wp. cbn. exact (logs_push _ _ _ _ Hl). Qed.

Lemma fetch_next_scheduled cpu0 c0 cpu c :
  logs c0 [] c -> scheduled cpu0 c0 (fetch_next : M unit) cpu c.
Proof.
  intros Hl. unfold fetch_next. apply wp_bind, wp_self.
  case_if; apply goto_scheduled; (assumption || reflexivity).
Qed.

Lemma retire_scheduled cpu0 c0 fields cpu c :
  instret cpu + 1 < 2 ^ 64 -> logs c0 [] c ->
  scheduled cpu0 c0 (retire fields : M unit) cpu c.
Proof.
  intros Hc Hl. unfold retire. apply wp_bind, wp_self. unfold checked_add.
  destruct (Z.ltb_spec (instret cpu + 1) (2 ^ 64)); [|lia]. wp_run. case_if.
  - wp_run. cbn [fst snd]. apply logs_trace, logs_trace, Hl.
  - wp_run. repeat case_if; wp_run; apply fetch_next_scheduled; repeat apply logs_trace; exact Hl.
Qed.

Lemma commit_scheduled cpu insn o pa c :
  cpu_ok cpu -> state cpu = State_CommitPending insn o pa ->
  scheduled cpu c (commit insn o pa : M unit) cpu c.
Proof.
  intros Hok Hs. pose proof (logs_nil c) as Hl.
  assert (Hc : instret cpu + 1 < 2 ^ 64).
  { destruct Hok as (((_ & _ & Hm) & _) & _ & _ & Hcount). rewrite Hs in Hcount. lia. }
  assert (Hcase : (exists t, o = Outcome_Exec (Exec_Trap t)) \/ forall t, o <> Outcome_Exec (Exec_Trap t))
    by (destruct o as [[|]| | |]; eauto; right; discriminate).
  destruct Hcase as [[[cause tval] ->]|Hne].
  { unfold commit, commit_trap. apply wp_bind, wp_self.
    destruct (if bool_decide _ then _ else _) as [[h s]|]; wp_run;
      [apply fetch_next_scheduled |]; apply logs_trace, Hl. }
  destruct (pending_retires cpu insn o pa Hok Hs Hne) as (w & -> & _ & Hstep).
  unfold commit. destruct o as [[[[[rd v]|] t]|t]|op| |]; [| |exfalso; apply (Hne t); reflexivity|..];
    apply wp_bind, wp_try; try discriminate; intros ? [= <-]; wp_run; cbn [reg_write]; wp_run.
  - apply retire_scheduled; assumption.
  - apply retire_scheduled; assumption.
  - destruct Hstep as [[e Hx]|Hstep]; [discriminate |]. apply wp_commit_csr; [apply Hok | exact Hstep |].
    intros fields cpu' _ _ Hi _. apply retire_scheduled; [rewrite Hi; exact Hc | exact Hl].
  - destruct (profile (config cpu)); wp_run; apply retire_scheduled; assumption.
  - apply retire_scheduled; assumption.
Qed.

(** Sending consumes the [TxnId], or nothing happens. *)
Lemma send_scheduled cpu c msg (f : Z -> State) :
  txn_left cpu ->
  (forall n, awaited (set_state (f (next_txn cpu)) (set_next_txn n cpu)) =
     [Sent PORT (Message_MemV1 (msg (next_txn cpu))) When_Now Phase_Request]) ->
  scheduled cpu c (txn ← send msg; update (set_state (f txn)) : M unit) cpu c.
Proof.
  intros Htxn Hw. unfold send, checked_add, txn_left in *. apply wp_bind, wp_bind, wp_self.
  destruct (Z.ltb_spec (next_txn cpu + 1) (2 ^ 64)) as [|Hge].
  - assert (Hr : logs c (awaited (set_state (f (next_txn cpu)) (set_next_txn (next_txn cpu + 1) cpu)))
      (rec_push (Sent PORT (Message_MemV1 (msg (next_txn cpu))) When_Now Phase_Request) c))
      by (rewrite Hw; exact (logs_push _ _ _ _ (logs_nil c))).
    destruct (profile (config cpu)); exact Hr.
  - destruct (profile (config cpu)); [specialize (Htxn eq_refl); lia | reflexivity..].
Qed.

Lemma walk_response_scheduled cpu c txn w msg :
  cpu_ok cpu -> state cpu = State_WalkWait txn w -> mem_msg_ok msg ->
  scheduled cpu c (walk_response w msg : M unit) cpu c.
Proof.
  intros (_ & Hst & _) Hs Hmsg. pose proof (logs_nil c) as Hl.
  unfold state_ok in Hst. rewrite Hs in Hst. destruct Hst as (_ & _ & Hlv & _).
  unfold walk_response. apply wp_bind.
  destruct msg as [|? [data|[]]| |]; try reflexivity.
  - apply wp_bind, wp_word_of; [|reflexivity]. intros Hlen.
    assert (Hpte : in_u 32 (from_le data)) by (apply word_range; [apply Hmsg | exact Hlen]).
    wp_run. cbn [mbind option_bind]. destruct (Sv32.step _ _ _ _) eqn:Estep.
    + apply sv32_next_range in Estep as [_ Hl0]; [|assumption].
      destruct Hlv as [|Hl1]; [contradiction |]. rewrite Hl1. cbn [checked_sub Z.leb Z.compare Pos.compare].
      apply goto_scheduled; [exact Hl | reflexivity].
    + destruct (purpose w); apply goto_scheduled; (exact Hl || reflexivity).
    + apply commit_pending_scheduled, Hl.
  - wp_run. cbn [mbind option_bind]. apply commit_pending_scheduled, Hl.
Qed.

Lemma response_scheduled cpu c msg :
  cpu_ok cpu -> mem_msg_ok msg -> scheduled cpu c (response msg : M unit) cpu c.
Proof.
  intros Hok Hmsg. pose proof (logs_nil c) as Hl. unfold response. apply wp_bind.
  destruct msg as [|t o| |t o] eqn:Em; rewrite <- Em in *; try reflexivity.
  all: wp_run; destruct (state cpu) as [|txn pa| |txn insn plan pa| |txn w| |] eqn:Es; try reflexivity; wp_run;
    (destruct (negb (t =? txn)); [reflexivity |]); wp_run; (destruct (negb _); [reflexivity |]).
  all: try (eapply walk_response_scheduled; eassumption).
  all: apply wp_bind; subst msg.
  all: try (apply wp_bind, wp_try; [|reflexivity]; intros; wp_run;
    apply commit_pending_scheduled, Hl).
  - destruct o as [data|[]]; [|wp_run; apply commit_pending_scheduled, Hl].
    apply wp_bind, wp_word_of; [|reflexivity]. intros _. wp_run.
    destruct (step _ _ _ _); [apply commit_pending_scheduled, Hl |].
    case_if; apply goto_scheduled; (exact Hl || reflexivity).
  - reflexivity.
Qed.

Lemma wake_scheduled cpu token c :
  cpu_ok cpu -> txn_left cpu -> scheduled cpu c (wake token : M unit) cpu c.
Proof.
  intros Hok Htxn. unfold wake. apply wp_bind, wp_self.
  destruct (state cpu) as [pa| |insn plan pa| |w| |insn o pa|] eqn:Es; try reflexivity; case_if;
    try reflexivity; [..|eapply commit_scheduled; eassumption].
  all: cbn zeta; lazymatch goal with |- wp (mbind (fun txn => update (set_state (@?f txn))) _) _ _ _ =>
         apply (send_scheduled cpu c _ f) end; [exact Htxn | reflexivity].
Qed.

(** One event per state.  A handler that succeeds schedules exactly the one event its
    new state waits for (a wake of that state's own token, or the request whose response
    it awaits, under the [TxnId] it records), and nothing when the CPU halts; an [irq]
    level schedules nothing and leaves the execution state alone.  A handler that fails,
    on any message or wake that breaks the protocol, has changed nothing and called
    nothing. *)
Theorem one_event_per_state cpu ev c :
  cpu_ok cpu -> txn_left cpu -> delivered_ok ev ->
  match handle_event ev (cpu, c) with
  | ((cpu', c'), Ok _) =>
      logs c (awaited cpu') c' \/
      c' = c /\ exists b, cpu' = set_csrs (set_irq_level b (csrs cpu)) cpu
  | (s, Err _) => s = (cpu, c)
  end.
Proof.
  intros Hok Htxn Hev.
  enough (Hp : wp (handle_event ev : M unit) (fun _ s => logs c (awaited (fst s)) (snd s) \/
      snd s = c /\ exists b, fst s = set_csrs (set_irq_level b (csrs cpu)) cpu)
    (fun _ s => s = (cpu, c)) (cpu, c)).
  { unfold wp in Hp. destruct (handle_event ev (cpu, c)) as [[cpu' c'] []]; exact Hp. }
  assert (Hweak : forall m : M unit, scheduled cpu c m cpu c -> wp m
    (fun _ s => logs c (awaited (fst s)) (snd s) \/
       snd s = c /\ exists b, fst s = set_csrs (set_irq_level b (csrs cpu)) cpu)
    (fun _ s => s = (cpu, c)) (cpu, c)) by (intros m Hm; eapply wp_mono; [exact Hm | auto..]).
  unfold handle_event. apply wp_bind, wp_self. destruct ev as [port msg|token].
  2:{ apply Hweak, wake_scheduled; assumption. }
  destruct (profile (config cpu)); [destruct msg; try reflexivity; apply Hweak, response_scheduled; assumption |..].
  all: destruct (port =? PORT); [destruct msg; try reflexivity; apply Hweak, response_scheduled; assumption |].
  all: destruct (port =? IRQ_PORT); [|reflexivity]; destruct msg as [| |[b]|]; try reflexivity.
  all: unfold irq; apply wp_bind, wp_phase; (destruct (negb _); [reflexivity |]); right; cbn; eauto.
Qed.
End recorded.

Lemma one_event_per_state_witness :
  logs commit_context [Woken (When_Cycles 0 1) Phase_Request FETCH]
    (snd (fst (@handle_event RecCtx recording_context (Delivered_Wake COMMIT)
      (example_ecall, commit_context)))).
Proof.
  pose proof (one_event_per_state example_ecall (Delivered_Wake COMMIT) commit_context
    example_ecall_ok ltac:(discriminate) I) as Hw.
  destruct (handle_event _ _) as [[cpu' c'] r] eqn:E. vm_compute in E. injection E as <- <- <-.
  destruct Hw as [Hw|[Hw _]]; [exact Hw | discriminate Hw].
Defined.
