(* ===== verification/CpuWalk.v ===== *)
(** The CPU's event-driven Sv32 walk refines [sv32::sv32_translate].

    A walk is a sequence of events: a wake that sends a PTE read, the response that feeds
    the PTE to [sv32::step], and so on.  Driven against any memory that answers each read,
    it ends where the pure function ends: the translated access, or the trap of its fault. *)
From stdpp Require Import base numbers list option strings.
From Stdlib Require Import ZArith Lia.
From S2P Require Import Prelude Contracts Handlers Instr Decode Execute Memory Csr Privileged Sv32 Cpu CpuProofs CpuEvents.

Local Open Scope string_scope.
Local Open Scope list_scope.
Local Open Scope Z_scope.

(** The answer of a memory to the request last sent, if there is one. *)
Definition answer (mem : Z -> option Z) (c : RecCtx) : option MemMsg :=
  match last (rec_log c) with
  | Some (Sent _ (Message_MemV1 (ReadReq txn addr 4)) _ _) =>
      Some (ReadResp txn
        match mem addr with
        | Some word => ReadOutcome_Data (to_le 4 word)
        | None => ReadOutcome_Fault AccessFault
        end)
  | _ => None
  end.

Section walks.
#[local] Existing Instance recording_context.

(** One PTE read: the walk wake in [Request], then the response in [Complete]. *)
Definition walk_round (mem : Z -> option Z) (cpu : Rv32iCpu) : Rv32iCpu :=
  let '((cpu, c), _) := handle_event (Delivered_Wake WALK) (cpu, mkRecCtx Phase_Request []) in
  match answer mem c with
  | Some msg =>
      fst (fst (handle_event (Delivered_Message PORT (Message_MemV1 msg))
                  (cpu, mkRecCtx Phase_Complete [])))
  | None => cpu
  end.

(** Rounds until the CPU leaves the walk. *)
Fixpoint walk_run (fuel : nat) (mem : Z -> option Z) (cpu : Rv32iCpu) : Rv32iCpu :=
  match fuel, state cpu with
  | S fuel, State_WalkIssue _ => walk_run fuel mem (walk_round mem cpu)
  | _, _ => cpu
  end.

(** The state a walk reaches with the translation's result. *)
Definition walk_ends (cpu : Rv32iCpu) (w : Walk) (r : result Fault Z) : State :=
  match r with
  | Ok pa =>
      match purpose w with
      | Purpose_Fetch => State_FetchIssue (Some pa)
      | Purpose_Data insn plan => State_MemIssue insn plan (Some pa)
      end
  | Err fault =>
      State_CommitPending
        match purpose w with Purpose_Fetch => None | Purpose_Data insn _ => Some insn end
        (Outcome_Exec (Exec_Trap
           (mkTrap (Fault.cause fault (Purpose.access (purpose w))) (Rv32iCpu.walk_va cpu w))))
        None
  end.

Definition walk_context (cpu : Rv32iCpu) (w : Walk) : Context :=
  mkContext (privilege (m3 cpu)) (sum_ (m3 cpu)) (mxr (m3 cpu)) (Purpose.access (purpose w)).

Lemma walk_wake_eq cpu w c :
  state cpu = State_WalkIssue w -> profile (config cpu) = M3 ->
  checked_add 64 (next_txn cpu) 1 = Some (next_txn cpu + 1) ->
  handle_event (Delivered_Wake WALK) (cpu, c) =
  ((set_state (State_WalkWait (next_txn cpu) w) (set_next_txn (next_txn cpu + 1) cpu),
    rec_push (Sent PORT (Message_MemV1 (ReadReq (next_txn cpu)
      (pte_address (table w) (Rv32iCpu.walk_va cpu w) (level w)) 4)) When_Now Phase_Request) c), Ok tt).
Proof.
  intros Hs Hp Hadd. unfold handle_event, wake, send. rewrite ST_bind_unfold. cbn beta iota delta [self fst].
  rewrite ST_bind_unfold. cbn beta iota delta [self fst]. rewrite Hs.
  change (WALK =? WALK) with true. cbn iota zeta. rewrite !ST_bind_unfold. cbn beta iota delta [self fst].
  rewrite Hp, Hadd. reflexivity.
Qed.

Lemma word_of_word word what (s : Rv32iCpu * RecCtx) :
  in_u 32 word -> word_of (to_le 4 word) what s = (s, Ok word).
Proof. intros Hw. rewrite <- (from_to_le_id 4 word Hw) at 2. reflexivity. Qed.

Lemma walk_answer_eq cpu txn w o :
  state cpu = State_WalkWait txn w -> profile (config cpu) = M3 ->
  handle_event (Delivered_Message PORT (Message_MemV1 (ReadResp txn o)))
    (cpu, mkRecCtx Phase_Complete []) =
  walk_response w (ReadResp txn o) (cpu, mkRecCtx Phase_Complete []).
Proof.
  intros Hs Hp. unfold handle_event, response. rewrite ST_bind_unfold. cbn beta iota delta [self fst].
  rewrite Hp. change (PORT =? PORT) with true. cbn iota.
  rewrite !ST_bind_unfold. cbn beta iota delta [mret ST_ret].
  rewrite !ST_bind_unfold. cbn beta iota delta [self fst]. rewrite Hs.
  rewrite !ST_bind_unfold. cbn beta iota delta [mret ST_ret]. rewrite Z.eqb_refl. reflexivity.
Qed.

(** What a round does, in terms of [sv32::step]. *)
Lemma walk_round_step mem cpu w :
  cpu_ok cpu -> state cpu = State_WalkIssue w -> mem_ok mem -> next_txn cpu + 1 < 2 ^ 64 ->
  let va := Rv32iCpu.walk_va cpu w in
  walk_round mem cpu =
  set_state
    match mem (pte_address (table w) va (level w)) with
    | None => walk_ends cpu w (Err Fault_Access)
    | Some pte =>
        match Sv32.step (walk_context cpu w) va (level w) pte with
        | Step_Next next => State_WalkIssue (mkWalk (purpose w) (level w - 1) next)
        | Step_Leaf pa => walk_ends cpu w (Ok pa)
        | Step_PageFault => walk_ends cpu w (Err Fault_Page)
        end
    end (set_next_txn (next_txn cpu + 1) cpu).
Proof.
  intros (Ha & Hst & _) Hs Hmem Hn va. unfold state_ok in Hst. rewrite Hs in Hst.
  destruct Hst as (Ht & Hlv & _ & _). apply translating_m3 in Ht as (Hp & _ & _).
  assert (Hadd : checked_add 64 (next_txn cpu) 1 = Some (next_txn cpu + 1)).
  { unfold checked_add. destruct (Z.ltb_spec (next_txn cpu + 1) (2 ^ 64)); [reflexivity | lia]. }
  unfold walk_round. rewrite (walk_wake_eq cpu w _ Hs Hp Hadd). cbn [answer last rec_log rec_push app].
  set (cpu1 := set_state (State_WalkWait (next_txn cpu) w) (set_next_txn (next_txn cpu + 1) cpu)).
  rewrite (walk_answer_eq cpu1 (next_txn cpu) w) by (reflexivity || exact Hp).
  fold va. destruct (mem _) as [pte|] eqn:Em; [|reflexivity].
  unfold walk_response. rewrite !ST_bind_unfold, word_of_word by (eapply Hmem; exact Em).
  cbn beta iota zeta delta [mret ST_ret]. rewrite ST_bind_unfold. cbn beta iota zeta delta [self fst mbind option_bind].
  change (Rv32iCpu.walk_va cpu1 w) with va. change (m3 cpu1) with (m3 cpu). fold (walk_context cpu w).
  destruct (Sv32.step _ _ _ _) eqn:Estep; [| destruct (purpose w) eqn:Epu; unfold walk_ends; rewrite Epu; reflexivity | reflexivity].
  apply sv32_next_range in Estep as [_ Hl0]; [|eapply Hmem; exact Em].
  destruct Hlv as [|Hl1]; [contradiction |]. rewrite Hl1. reflexivity.
Qed.

Lemma walk_run_done fuel mem cpu :
  (forall w, state cpu <> State_WalkIssue w) -> walk_run fuel mem cpu = cpu.
Proof. intros Hs. destruct fuel; [reflexivity |]. cbn. destruct (state cpu) eqn:E; try reflexivity. exfalso. exact (Hs _ eq_refl). Qed.

Lemma walk_ends_not_walk cpu w r w' : walk_ends cpu w r <> State_WalkIssue w'.
Proof. destruct r; cbn; [destruct (purpose w) |]; discriminate. Qed.

Lemma next_level_ok cpu w next :
  cpu_ok cpu -> state cpu = State_WalkIssue w -> in_u 22 next -> level w = 1 ->
  next_txn cpu + 1 < 2 ^ 64 ->
  cpu_ok (set_state (State_WalkIssue (mkWalk (purpose w) 0 next)) (set_next_txn (next_txn cpu + 1) cpu)).
Proof.
  intros Hok Hs Hn Hl Ht. pose proof Hok as ((_ & _ & _ & Htxn & _) & Hst & _).
  unfold state_ok in Hst. rewrite Hs in Hst. destruct Hst as (Htr & _ & _ & _ & Hd).
  apply cpu_ok_move; [exact Hok | rewrite Hs; is_live | is_live | unfold in_u in *; lia |].
  split; [exact Htr |]. split; [left; reflexivity |]. split; [exact Hn |]. split; [discriminate | exact Hd].
Qed.

(** The walk has left its states: the remaining rounds do nothing. *)
Ltac walk_over :=
  first [reflexivity
        | etransitivity; [apply walk_run_done; intros ?; apply walk_ends_not_walk | reflexivity]].

Lemma walk_run_S fuel mem cpu w :
  state cpu = State_WalkIssue w -> walk_run (S fuel) mem cpu = walk_run fuel mem (walk_round mem cpu).
Proof. intros Hs. cbn. rewrite Hs. reflexivity. Qed.

Lemma walk_loop_S mem fuel ctx va table level log :
  walk_loop (logged mem) (S fuel) ctx va table level log =
  match logged mem (pte_address table va level) log with
  | (log, None) => (log, Some (Err Fault_Access))
  | (log, Some pte) =>
      match Sv32.step ctx va level pte with
      | Step_Next next => walk_loop (logged mem) fuel ctx va next (level - 1) log
      | Step_Leaf pa => (log, Some (Ok pa))
      | Step_PageFault => (log, Some (Err Fault_Page))
      end
  end.
Proof. reflexivity. Qed.

(** From level [l], the rounds follow the loop of [sv32_translate]. *)
Lemma walk_run_loop mem l : forall cpu w log,
  cpu_ok cpu -> state cpu = State_WalkIssue w -> level w = Z.of_nat l -> mem_ok mem ->
  next_txn cpu + Z.of_nat l + 1 < 2 ^ 64 ->
  exists r reads,
    walk_loop (logged mem) (S l) (walk_context cpu w) (Rv32iCpu.walk_va cpu w) (table w) (level w) log
      = (log ++ reads, Some r) /\
    walk_run (S l) mem cpu =
    set_state (walk_ends cpu w r) (set_next_txn (next_txn cpu + Z.of_nat (length reads)) cpu).
Proof.
  induction l as [|l IH]; intros cpu w log Hok Hs Hl Hmem Hn;
    rewrite walk_loop_S, (walk_run_S _ _ _ w Hs), (walk_round_step mem cpu w) by (assumption || lia);
    unfold logged at 1; destruct (mem _) as [pte|] eqn:Em.
  2, 4: exists (Err Fault_Access); eexists; (split; [reflexivity |]); walk_over.
  all: destruct (Sv32.step _ _ _ _) as [next|pa|] eqn:Estep.
  2, 5: exists (Ok pa); eexists; (split; [reflexivity |]); walk_over.
  2, 4: exists (Err Fault_Page); eexists; (split; [reflexivity |]); walk_over.
  all: apply sv32_next_range in Estep as [Hnr Hne]; [|eapply Hmem; exact Em].
  1: lia.
  assert (Hl1 : level w = 1).
  { destruct Hok as (_ & Hst & _). unfold state_ok in Hst. rewrite Hs in Hst.
    destruct Hst as (_ & Hlv & _). lia. }
  assert (l = O) as -> by lia. rewrite Hl1. change (1 - 1) with 0.
  destruct (IH _ (mkWalk (purpose w) 0 next) (log ++ [pte_address (table w) (Rv32iCpu.walk_va cpu w) 1])
    (next_level_ok cpu w next Hok Hs Hnr Hl1 ltac:(lia)) eq_refl eq_refl Hmem) as (r & reads & Hw & Hr).
  { cbn [next_txn set_state set_next_txn]. lia. }
  exists r, (pte_address (table w) (Rv32iCpu.walk_va cpu w) 1 :: reads). split.
  - rewrite Hl1 in *. rewrite <- app_assoc in Hw. exact Hw.
  - rewrite Hr. cbn [length next_txn set_state set_next_txn].
    replace (next_txn cpu + Z.of_nat (S (length reads))) with (next_txn cpu + 1 + Z.of_nat (length reads)) by lia.
    reflexivity.
Qed.

(** C19: the CPU's walk is [sv32_translate].  From the first PTE read of a translated fetch,
    load or store, against any memory, at most two rounds of wake and response take the
    CPU to the access at the physical address the pure translation computes, or to the
    pending trap of the fault it reports, with the virtual address as [tval]; nothing else
    of the CPU changes but the [TxnId]s the reads used. *)
Theorem cpu_walk_refines_translate mem cpu w :
  cpu_ok cpu -> state cpu = State_WalkIssue w -> level w = 1 -> mem_ok mem ->
  next_txn cpu + 2 < 2 ^ 64 ->
  exists r reads,
    sv32_translate (logged mem) 2 (satp (m3 cpu)) (privilege (m3 cpu)) (sum_ (m3 cpu))
      (mxr (m3 cpu)) (Purpose.access (purpose w)) (Rv32iCpu.walk_va cpu w) [] = (reads, Some r) /\
    walk_run 2 mem cpu =
    set_state (walk_ends cpu w r) (set_next_txn (next_txn cpu + Z.of_nat (length reads)) cpu).
Proof.
  intros Hok Hs Hlv Hmem Hn. pose proof Hok as (Ha & Hst & _). unfold state_ok in Hst. rewrite Hs in Hst.
  destruct Hst as (Ht & _ & _ & Hroot & _). specialize (Hroot Hlv).
  unfold Rv32iCpu.translating, M3State.translates in Ht. unbool.
  destruct (walk_run_loop mem 1 cpu w [] Hok Hs Hlv Hmem ltac:(lia)) as (r & reads & Hw & Hr).
  exists r, reads. split; [|exact Hr]. unfold sv32_translate.
  rewrite bool_decide_eq_false_2 by assumption. cbn [orb].
  destruct (_ =? 0) eqn:E0; [unfold has_bit in *; rewrite E0 in *; discriminate |].
  rewrite Hlv in Hw. rewrite Hroot in Hw. exact Hw.
Qed.
End walks.

(** A CPU of the M3 profile in U-mode about to read the first PTE of its fetch,
    through the tables at [0x1000]. *)
Definition example_walk_cpu : Rv32iCpu :=
  mkRv32iCpu (example_config M3) 0x120 RegisterFile.new 7 9
    (State_WalkIssue (mkWalk Purpose_Fetch 1 1)) CsrFile.new
    (set_privilege User (set_satp (2 ^ 31 + 1) M3State.new)).

Lemma cpu_walk_refines_translate_witness :
  exists r reads,
    sv32_translate (logged example_tables) 2 (2 ^ 31 + 1) User false false Access_Fetch 0x120 []
      = (reads, Some r) /\
    state (walk_run 2 example_tables example_walk_cpu) =
      walk_ends example_walk_cpu (mkWalk Purpose_Fetch 1 1) r.
Proof.
  destruct (cpu_walk_refines_translate example_tables example_walk_cpu (mkWalk Purpose_Fetch 1 1))
    as (r & reads & Ht & Hr).
  - apply (bool_decide_unpack _). vm_compute. exact I.
  - reflexivity.
  - reflexivity.
  - apply example_tables_ok.
  - reflexivity.
  - exists r, reads. split; [exact Ht | rewrite Hr; reflexivity].
Defined.
