(* ===== verification/CpuSnapshot.v ===== *)
(** The CPU's snapshots, [components/rv32i/src/cpu.rs]: schemas 1 to 3, written and
    restored with validation.

    A writer is the bytes it has written; a reader is a computation over the bytes left.
    The encodings of the primitives are those of any [SnapshotCodec].  Proved: restoring a
    snapshot gives the CPU back exactly, for every state the CPU can be in; and whatever
    bytes are restored, an accepted CPU satisfies the invariant. *)
From stdpp Require Import base numbers list option strings.
From Stdlib Require Import ZArith Lia.
From S2P Require Import Prelude Contracts Snapshots Instr Decode Execute Memory Csr Privileged Sv32 Cpu CpuProofs.

Local Open Scope string_scope.
Local Open Scope list_scope.
Local Open Scope Z_scope.

Definition SNAPSHOT_SCHEMA : Z := 1.
Definition SNAPSHOT_SCHEMA_M2 : Z := 2.
Definition SNAPSHOT_SCHEMA_M3 : Z := 3.

Definition CAUSES : list TrapCause :=
  [InstructionAddressMisaligned; InstructionAccessFault; IllegalInstruction; Breakpoint;
   EnvironmentCall; LoadAddressMisaligned; LoadAccessFault; StoreAddressMisaligned;
   StoreAccessFault].

Definition CAUSES_M3 : list TrapCause :=
  [InstructionAddressMisaligned; InstructionAccessFault; IllegalInstruction; Breakpoint;
   EnvironmentCall; LoadAddressMisaligned; LoadAccessFault; StoreAddressMisaligned;
   StoreAccessFault; EnvironmentCallFromU; EnvironmentCallFromS; InstructionPageFault;
   LoadPageFault; StorePageFault].

Definition causes (p : Rv32iProfile) : list TrapCause :=
  match p with M1 | M2 => CAUSES | M3 => CAUSES_M3 end.

Definition CSR_OPS : list CsrOp := [CsrOp_Write; CsrOp_Set; CsrOp_Clear].

(** [x1] to [x31]. *)
Definition stored_registers : list Reg := Z.of_nat <$> seq 1 31.

(** A schema 3 walk and state record, decoded but not yet checked against anything. *)
Record WalkRecord : Set := mkWalkRecord { wr_data : option Z; wr_level : Z; wr_table : Z }.

Inductive StateRecord : Set :=
| Rec_FetchIssue (pa : option Z)
| Rec_FetchWait (txn : Z) (pa : option Z)
| Rec_MemIssue (insn : Z) (pa : option Z)
| Rec_MemWait (txn insn : Z) (pa : option Z)
| Rec_WalkIssue (walk : WalkRecord)
| Rec_WalkWait (txn : Z) (walk : WalkRecord)
| Rec_CommitPending (insn : option Z) (outcome : Outcome) (pa : option Z)
| Rec_Trap (trap : RvTrap)
| Rec_InstructionLimit.

Section snapshot.
Context `{SnapshotCodec}.

Local Abbreviation R := (ST (list Z) RestoreError).

(** ** Writing *)

Definition write_config (c : Rv32iConfig) : list Z :=
  put_u32 (clock c) ++ put_u32 (entry c) ++ put_u64 (max_instructions c).

(** [position(..).expect("every cause is listed")]; [write_cause_listed] below shows the
    default is never taken. *)
Definition write_cause (c : TrapCause) : list Z :=
  put_u8 (Z.of_nat (default 0%nat (position c CAUSES_M3))).

Definition write_outcome (o : Outcome) : list Z :=
  match o with
  | Outcome_Exec (Exec_Effect e) =>
      put_u8 0 ++
      match reg_write e with
      | None => put_u8 0
      | Some (mkRegWrite rd value) => put_u8 1 ++ put_u8 rd ++ put_u32 value
      end ++
      put_u32 (next_pc e)
  | Outcome_Exec (Exec_Trap t) => put_u8 1 ++ write_cause (cause t) ++ put_u32 (tval t)
  | Outcome_Csr op =>
      put_u8 2 ++ put_u16 (pc_csr op) ++
      put_u8 (Z.of_nat (default 0%nat (position (pc_op op) CSR_OPS))) ++
      put_bool (pc_write op) ++ put_u32 (pc_operand op) ++ put_u8 (pc_rd op) ++
      put_u32 (pc_next_pc op)
  | Outcome_Mret => put_u8 3
  | Outcome_Sret => put_u8 4
  end.

Definition write_pa (pa : option Z) : list Z :=
  match pa with
  | None => put_u8 0
  | Some pa => put_u8 1 ++ put_u64 pa
  end.

Definition write_walk (w : Walk) : list Z :=
  match purpose w with
  | Purpose_Fetch => put_u8 0
  | Purpose_Data insn _ => put_u8 1 ++ put_u32 insn
  end ++ put_u8 (level w) ++ put_u32 (table w).

(** The [match &self.state] of [snapshot]. *)
Definition write_state (profile : Rv32iProfile) (s : State) : list Z :=
  let pa p := if bool_decide (profile = M3) then write_pa p else [] in
  match s with
  | State_FetchIssue p => put_u8 0 ++ pa p
  | State_FetchWait txn p => put_u8 1 ++ put_u64 txn ++ pa p
  | State_MemIssue insn _ p => put_u8 2 ++ put_u32 insn ++ pa p
  | State_MemWait txn insn _ p => put_u8 3 ++ put_u64 txn ++ put_u32 insn ++ pa p
  | State_WalkIssue walk => put_u8 6 ++ write_walk walk
  | State_WalkWait txn walk => put_u8 7 ++ put_u64 txn ++ write_walk walk
  | State_CommitPending insn outcome p =>
      put_u8 4 ++
      match insn with None => put_u8 0 | Some insn => put_u8 1 ++ put_u32 insn end ++
      write_outcome outcome ++ pa p
  | State_Halted halt =>
      put_u8 5 ++
      match halt with
      | Halt_Trap trap =>
          put_u8 0 ++ write_cause (trap_cause trap) ++ put_u32 (trap_pc trap) ++
          put_u32 (trap_tval trap)
      | Halt_InstructionLimit => put_u8 1
      end
  end.

Definition write_csrs (c : CsrFile) : list Z :=
  put_bool (mie c) ++ put_bool (mpie c) ++ put_bool (meie c) ++ put_u32 (mtvec c) ++
  put_u32 (mscratch c) ++ put_u32 (mepc c) ++ put_u32 (mcause c) ++ put_u32 (mtval c) ++
  put_bool (irq_level c).

Definition write_m3 (m : M3State) : list Z :=
  put_u8 (Privilege.bits (privilege m)) ++ put_bool (sie m) ++ put_bool (spie m) ++
  put_u8 (Spp.bits (spp m)) ++ put_u8 (Privilege.bits (mpp m)) ++ put_bool (sum_ m) ++
  put_bool (mxr m) ++ put_u32 (medeleg m) ++ put_u32 (stvec m) ++ put_u32 (sscratch m) ++
  put_u32 (sepc m) ++ put_u32 (scause m) ++ put_u32 (stval m) ++ put_u32 (satp m).

Definition write_regs (rf : RegisterFile.t) (l : list Reg) : list Z :=
  l ≫= fun reg => put_u32 (RegisterFile.read rf reg).

Definition snapshot (cpu : Rv32iCpu) : list Z :=
  let p := profile (config cpu) in
  write_config (config cpu) ++ put_u32 (pc cpu) ++
  write_regs (regs cpu) stored_registers ++
  put_u64 (instret cpu) ++ put_u64 (next_txn cpu) ++
  write_state p (state cpu) ++
  (if bool_decide (p <> M1) then write_csrs (csrs cpu) else []) ++
  (if bool_decide (p = M3) then write_m3 (m3 cpu) else []).

Definition snapshot_schema_version (cpu : Rv32iCpu) : Z :=
  match profile (config cpu) with
  | M1 => SNAPSHOT_SCHEMA
  | M2 => SNAPSHOT_SCHEMA_M2
  | M3 => SNAPSHOT_SCHEMA_M3
  end.

(** ** Reading *)

(** [r.bool()] with its error replaced. *)
Definition flag : R bool :=
  fun bs =>
    match get_bool bs with
    | Ok (v, rest) => (rest, Ok v)
    | Err _ => (bs, Err (InvalidState "rv32 cpu: a CSR flag is not 0 or 1"))
    end.

Definition read_cause (p : Rv32iProfile) : R TrapCause :=
  code ← rd get_u8;
  some_or (causes p !! Z.to_nat code) (Decode (invalid_tag "rv32 trap cause" code)).

Definition read_outcome (p : Rv32iProfile) : R Outcome :=
  t ← rd get_u8;
  if t =? 0 then
    u ← rd get_u8;
    reg_write ←
      (if u =? 0 then mret None
       else if u =? 1 then
         index ← rd get_u8;
         r ← some_or (Reg.new index) (Decode (invalid_tag "rv32 register" index));
         value ← rd get_u32;
         mret (Some (mkRegWrite r value))
       else bad_tag "rv32 register write" u);
    next_pc ← rd get_u32;
    mret (Outcome_Exec (Exec_Effect (mkEffect reg_write next_pc)))
  else if t =? 1 then
    cause ← read_cause p;
    tval ← rd get_u32;
    mret (Outcome_Exec (Exec_Trap (mkTrap cause tval)))
  else if (t =? 2) && negb (bool_decide (p = M1)) then
    csr ← rd get_u16;
    code ← rd get_u8;
    op ← some_or (CSR_OPS !! Z.to_nat code) (Decode (invalid_tag "rv32 CSR operation" code));
    write ← rd get_bool;
    operand ← rd get_u32;
    index ← rd get_u8;
    r ← some_or (Reg.new index) (Decode (invalid_tag "rv32 register" index));
    next_pc ← rd get_u32;
    mret (Outcome_Csr (mkPendingCsr csr op write operand r next_pc))
  else if (t =? 3) && negb (bool_decide (p = M1)) then mret Outcome_Mret
  else if (t =? 4) && bool_decide (p = M3) then mret Outcome_Sret
  else bad_tag "rv32 outcome" t.

Definition read_pa : R (option Z) :=
  t ← rd get_u8;
  if t =? 0 then mret None
  else if t =? 1 then pa ← rd get_u64; mret (Some pa)
  else bad_tag "rv32 cpu physical address" t.

Definition read_walk : R WalkRecord :=
  t ← rd get_u8;
  data ← (if t =? 0 then mret None
          else if t =? 1 then insn ← rd get_u32; mret (Some insn)
          else bad_tag "rv32 cpu walk purpose" t);
  level ← rd get_u8;
  table ← rd get_u32;
  mret (mkWalkRecord data level table).

Definition read_insn : R (option Z) :=
  t ← rd get_u8;
  if t =? 0 then mret None
  else if t =? 1 then insn ← rd get_u32; mret (Some insn)
  else bad_tag "rv32 cpu instruction" t.

Definition decode_state_m3 : R StateRecord :=
  t ← rd get_u8;
  if t =? 0 then pa ← read_pa; mret (Rec_FetchIssue pa)
  else if t =? 1 then txn ← rd get_u64; pa ← read_pa; mret (Rec_FetchWait txn pa)
  else if t =? 2 then insn ← rd get_u32; pa ← read_pa; mret (Rec_MemIssue insn pa)
  else if t =? 3 then
    txn ← rd get_u64; insn ← rd get_u32; pa ← read_pa; mret (Rec_MemWait txn insn pa)
  else if t =? 4 then
    insn ← read_insn;
    outcome ← read_outcome M3;
    pa ← read_pa;
    mret (Rec_CommitPending insn outcome pa)
  else if t =? 5 then
    h ← rd get_u8;
    if h =? 0 then
      cause ← read_cause M3; pc ← rd get_u32; tval ← rd get_u32;
      mret (Rec_Trap (mkRvTrap cause pc tval))
    else if h =? 1 then mret Rec_InstructionLimit
    else bad_tag "rv32 cpu halt" h
  else if t =? 6 then walk ← read_walk; mret (Rec_WalkIssue walk)
  else if t =? 7 then txn ← rd get_u64; walk ← read_walk; mret (Rec_WalkWait txn walk)
  else bad_tag "rv32 cpu state" t.
(** ** Validation *)

(** The closures [outstanding], [memory], [translated] and [walk] of the source. *)
Definition check_outstanding (next_txn txn : Z) : result RestoreError Z :=
  if bool_decide (checked_sub next_txn 1 = Some txn) then Ok txn
  else Err (InvalidState "rv32 cpu: outstanding txn is not the latest issued").

Definition check_memory (isa : Isa) (pc : Z) (regs : RegisterFile.t) (insn : Z) :
    result RestoreError MemoryPlan :=
  match step isa insn pc regs with
  | NeedsMemory plan => Ok plan
  | Done _ =>
      Err (InvalidState "rv32 cpu: pending memory instruction is not an aligned load or store")
  end.

Definition check_translated (translates : bool) (pa : option Z) (va : Z) :
    result RestoreError (option Z) :=
  match translates, pa with
  | false, None => Ok None
  | false, Some _ => Err (InvalidState "rv32 cpu: physical address while translation is off")
  | true, None => Err (InvalidState "rv32 cpu: no physical address while translation is on")
  | true, Some pa =>
      if negb (Z.shiftr pa PA_BITS =? 0) then
        Err (InvalidState "rv32 cpu: physical address wider than 34 bits")
      else if negb (Z.land pa 0xFFF =? Z.land va 0xFFF) then
        Err (InvalidState "rv32 cpu: physical address offset is not the virtual address's")
      else Ok (Some pa)
  end.

Definition check_walk (isa : Isa) (m : M3State) (pc : Z) (regs : RegisterFile.t)
    (r : WalkRecord) : result RestoreError Walk :=
  if negb (M3State.translates m) then
    Err (InvalidState "rv32 cpu: walk while translation is off")
  else if 1 <? wr_level r then Err (InvalidState "rv32 cpu: walk level above 1")
  else if negb (Z.land (wr_table r) (not32 SATP_PPN) =? 0) then
    Err (InvalidState "rv32 cpu: walk table wider than a PPN")
  else if (wr_level r =? 1) && negb (wr_table r =? M3State.root m) then
    Err (InvalidState "rv32 cpu: level-1 walk table is not satp.PPN")
  else
    purpose ← match wr_data r with
              | None => Ok Purpose_Fetch
              | Some insn => plan ← check_memory isa pc regs insn; Ok (Purpose_Data insn plan)
              end;
    Ok (mkWalk purpose (wr_level r) (wr_table r)).

Definition validate_state_m3 (record : StateRecord) (m : M3State) (pc : Z)
    (regs : RegisterFile.t) (next_txn : Z) : result RestoreError State :=
  let isa := Isa_M3 (privilege m) in
  let translates := M3State.translates m in
  let memory := check_memory isa pc regs in
  let translated := check_translated translates in
  match record with
  | Rec_FetchIssue pa => pa ← translated pa pc; Ok (State_FetchIssue pa)
  | Rec_FetchWait txn pa =>
      txn ← check_outstanding next_txn txn; pa ← translated pa pc; Ok (State_FetchWait txn pa)
  | Rec_MemIssue insn pa =>
      plan ← memory insn;
      pa ← translated pa (plan_addr plan);
      Ok (State_MemIssue insn plan pa)
  | Rec_MemWait txn insn pa =>
      plan ← memory insn;
      txn ← check_outstanding next_txn txn;
      pa ← translated pa (plan_addr plan);
      Ok (State_MemWait txn insn plan pa)
  | Rec_WalkIssue record => w ← check_walk isa m pc regs record; Ok (State_WalkIssue w)
  | Rec_WalkWait txn record =>
      txn ← check_outstanding next_txn txn;
      w ← check_walk isa m pc regs record;
      Ok (State_WalkWait txn w)
  | Rec_CommitPending insn outcome pa =>
      if negb (consistent isa translates insn outcome pc regs) then
        Err (InvalidState "rv32 cpu: pending outcome does not match its instruction")
      else
        let retiring :=
          match (w ← insn; Some (step isa w pc regs)), outcome with
          | Some (NeedsMemory plan), Outcome_Exec (Exec_Effect _) => Some plan
          | _, _ => None
          end in
        pa ← match retiring, pa with
             | Some plan, pa => translated pa (plan_addr plan)
             | None, Some _ =>
                 Err (InvalidState "rv32 cpu: physical address on an outcome that is not an access")
             | None, None => Ok None
             end;
        Ok (State_CommitPending insn outcome pa)
  | Rec_Trap trap =>
      if page_fault (trap_cause trap) && negb translates then
        Err (InvalidState "rv32 cpu: page fault while translation is off")
      else if negb (trap_pc trap =? pc) then
        Err (InvalidState "rv32 cpu: trap pc is not the architectural pc")
      else if M3State.delegates m (trap_cause trap) then
        Err (InvalidState "rv32 cpu: halted on a delegated exception")
      else
        let ecall := match privilege m with
                     | User => EnvironmentCallFromU
                     | Supervisor => EnvironmentCallFromS
                     | Machine => EnvironmentCall
                     end in
        let is_ecall := match trap_cause trap with
                        | EnvironmentCallFromU | EnvironmentCallFromS | EnvironmentCall => true
                        | _ => false
                        end in
        if is_ecall && negb (bool_decide (trap_cause trap = ecall)) then
          Err (InvalidState "rv32 cpu: ecall cause does not match priv")
        else Ok (State_Halted (Halt_Trap trap))
  | Rec_InstructionLimit => Ok (State_Halted Halt_InstructionLimit)
  end.

(** [for reg in stored_registers() { regs.write(reg, r.u32()?) }]. *)
Fixpoint read_regs (l : list Reg) (rf : RegisterFile.t) : R RegisterFile.t :=
  match l with
  | [] => mret rf
  | reg :: l => v ← rd get_u32; read_regs l (RegisterFile.write rf reg v)
  end.

(** [instret] against the limit. *)
Definition check_count (state : State) (instret limit : Z) : R unit :=
  check (match state with
         | State_Halted Halt_InstructionLimit => instret =? limit
         | _ => instret <? limit
         end) "rv32 cpu: instret does not match the instruction limit".

(** ** Restoring *)

Definition restore_m3 (self : Rv32iCpu) : R Rv32iCpu :=
  let cfg := write_config (config self) in
  raw ← rd (get_raw (length cfg));
  pc ← rd get_u32;
  regs ← read_regs stored_registers RegisterFile.new;
  instret ← rd get_u64;
  next_txn ← rd get_u64;
  record ← decode_state_m3;
  mie ← flag; mpie ← flag; meie ← flag;
  mtvec ← rd get_u32; mscratch ← rd get_u32; mepc ← rd get_u32;
  mcause ← rd get_u32; mtval ← rd get_u32; irq_level ← flag;
  let csrs := mkCsrFile mie mpie meie mtvec mscratch mepc mcause mtval irq_level in
  mode ← rd get_u8;
  sie ← flag; spie ← flag; spp ← rd get_u8; mpp ← rd get_u8; sum ← flag; mxr ← flag;
  medeleg ← rd get_u32; stvec ← rd get_u32; sscratch ← rd get_u32; sepc ← rd get_u32;
  scause ← rd get_u32; stval ← rd get_u32; satp ← rd get_u32;
  check (bool_decide (raw = cfg)) "rv32 cpu: snapshot was taken with a different configuration";;
  check (aligned4 pc) "rv32 cpu: misaligned pc";;
  check (Z.land mtvec 3 =? 0) "rv32 cpu: mtvec MODE is not 0";;
  check (Z.land mepc 3 =? 0) "rv32 cpu: misaligned mepc";;
  mode ← some_or (Privilege.from_bits mode) (InvalidState "rv32 cpu: priv is not U, S, or M");
  spp ← some_or (Spp.from_bits spp) (InvalidState "rv32 cpu: SPP is not U or S");
  mpp ← some_or (Privilege.from_bits mpp) (InvalidState "rv32 cpu: MPP is not U, S, or M");
  let m3 := mkM3State mode sie spie spp mpp sum mxr medeleg stvec sscratch sepc scause stval satp in
  check (Z.land medeleg (not32 MEDELEG_MASK) =? 0) "rv32 cpu: medeleg has a bit outside its mask";;
  check (Z.land stvec 3 =? 0) "rv32 cpu: stvec MODE is not 0";;
  check (Z.land sepc 3 =? 0) "rv32 cpu: misaligned sepc";;
  check (satp_reachable satp) "rv32 cpu: satp is not a value a write can produce";;
  state ← validate (validate_state_m3 record m3 pc regs next_txn);
  check_count state instret (max_instructions (config self));;
  mret (mkRv32iCpu (config self) pc regs instret next_txn state csrs m3).

(** Schemas 1 and 2; the [M3] arms here and in [restore] are the source's unreachable ones:
    [restore] sends the profile to [restore_m3]. *)
Definition read_state (self : Rv32iCpu) (pc : Z) (regs : RegisterFile.t) (next_txn : Z) : R State :=
  let profile := profile (config self) in
  let isa := match profile with M1 => Isa_M1 | M2 | M3 => Isa_M2 end in
  let memory insn := validate (check_memory isa pc regs insn) in
  t ← rd get_u8;
  if t =? 0 then mret (State_FetchIssue None)
  else if t =? 1 then
    txn ← rd get_u64; txn ← validate (check_outstanding next_txn txn);
    mret (State_FetchWait txn None)
  else if t =? 2 then
    insn ← rd get_u32; plan ← memory insn; mret (State_MemIssue insn plan None)
  else if t =? 3 then
    txn ← rd get_u64; txn ← validate (check_outstanding next_txn txn);
    insn ← rd get_u32; plan ← memory insn;
    mret (State_MemWait txn insn plan None)
  else if t =? 4 then
    insn ← read_insn;
    outcome ← read_outcome profile;
    check (consistent isa false insn outcome pc regs)
      "rv32 cpu: pending outcome does not match its instruction";;
    mret (State_CommitPending insn outcome None)
  else if t =? 5 then
    h ← rd get_u8;
    if h =? 0 then
      cause ← read_cause profile; trap_pc ← rd get_u32; tval ← rd get_u32;
      check (trap_pc =? pc) "rv32 cpu: trap pc is not the architectural pc";;
      mret (State_Halted (Halt_Trap (mkRvTrap cause trap_pc tval)))
    else if h =? 1 then mret (State_Halted Halt_InstructionLimit)
    else bad_tag "rv32 cpu halt" h
  else bad_tag "rv32 cpu state" t.

Definition read_csrs : R CsrFile :=
  mie ← flag; mpie ← flag; meie ← flag;
  mtvec ← rd get_u32; check (Z.land mtvec 3 =? 0) "rv32 cpu: mtvec MODE is not 0";;
  mscratch ← rd get_u32;
  mepc ← rd get_u32; check (Z.land mepc 3 =? 0) "rv32 cpu: misaligned mepc";;
  mcause ← rd get_u32; mtval ← rd get_u32; irq_level ← flag;
  mret (mkCsrFile mie mpie meie mtvec mscratch mepc mcause mtval irq_level).

(** The restored CPU; [self] is unchanged on an error, as in the code, which assigns only
    at the end. *)
Definition restore (self : Rv32iCpu) (schema : Z) : R Rv32iCpu :=
  check (schema =? snapshot_schema_version self)
    "rv32 cpu: snapshot schema does not match the CPU profile";;
  if bool_decide (profile (config self) = M3) then restore_m3 self
  else
    let cfg := write_config (config self) in
    raw ← rd (get_raw (length cfg));
    check (bool_decide (raw = cfg)) "rv32 cpu: snapshot was taken with a different configuration";;
    pc ← rd get_u32;
    check (aligned4 pc) "rv32 cpu: misaligned pc";;
    regs ← read_regs stored_registers RegisterFile.new;
    instret ← rd get_u64;
    next_txn ← rd get_u64;
    state ← read_state self pc regs next_txn;
    check_count state instret (max_instructions (config self));;
    csrs ← match profile (config self) with
           | M1 => mret CsrFile.new
           | M2 | M3 => read_csrs
           end;
    mret (mkRv32iCpu (config self) pc regs instret next_txn state csrs (m3 self)).
End snapshot.

(** * Round trip *)

Section roundtrip.
Context `{SnapshotCodec}.

Local Abbreviation R := (ST (list Z) RestoreError).

Lemma reads_flag v : reads flag (put_bool v) v.
Proof. intros rest. unfold flag. rewrite get_put_bool. reflexivity. Qed.
End roundtrip.

#[export] Hint Resolve reads_flag : reads.

Section components.
Context `{SnapshotCodec}.

Lemma reads_cause p c : c ∈ causes p -> reads (read_cause p) (write_cause c) c.
Proof.
  intros Hc. unfold read_cause, write_cause.
  assert (Hpos : exists i, position c CAUSES_M3 = Some i /\ causes p !! i = Some c /\ (i < 14)%nat).
  { destruct p, c; first
      [ eexists; split; [vm_compute; reflexivity |]; split; [reflexivity | lia]
      | exfalso; apply (bool_decide_pack _) in Hc; vm_compute in Hc; exact Hc ]. }
  destruct Hpos as (i & Hi & Hl & Hlt). rewrite Hi. change (default 0%nat (Some i)) with i.
  eapply reads_last; [apply reads_u8; unfold in_u; lia |]. rewrite Nat2Z.id, Hl. apply reads_ret.
Qed.

Lemma reads_csr_op op e :
  reads (some_or (CSR_OPS !! Z.to_nat (Z.of_nat (default 0%nat (position op CSR_OPS)))) e) [] op.
Proof. apply reads_some. destruct op; reflexivity. Qed.

Lemma csr_op_code op : in_u 8 (Z.of_nat (default 0%nat (position op CSR_OPS))).
Proof. destruct op; const_range. Qed.

Lemma reg_new r : reg_ok r -> Reg.new r = Some r.
Proof. intros Hr. unfold Reg.new. destruct (Z.ltb_spec r 32); [reflexivity | unfold reg_ok in Hr; lia]. Qed.

Lemma reg_u8 r : reg_ok r -> in_u 8 r.
Proof. unfold reg_ok, in_u. lia. Qed.

#[local] Hint Resolve reads_cause reads_csr_op csr_op_code reg_u8 reg_new : reads.

(** The outcomes a profile's schema can hold. *)
Definition outcome_in_schema (p : Rv32iProfile) (o : Outcome) : Prop :=
  match o with
  | Outcome_Exec (Exec_Effect _) => True
  | Outcome_Exec (Exec_Trap t) => cause t ∈ causes p
  | Outcome_Csr _ | Outcome_Mret => p <> M1
  | Outcome_Sret => p = M3
  end.

Lemma reads_outcome p o :
  outcome_ok o -> outcome_in_schema p o -> reads (read_outcome p) (write_outcome o) o.
Proof.
  intros Ho Hp. unfold read_outcome. destruct o as [[[w t]|[c tv]]|[csr op wr v r t]| |]; cbn [write_outcome] in *.
  - destruct Ho as [[Ht _] Hw]. cbn [next_pc reg_write] in *. reads_next.
    destruct w as [[r v]|].
    + destruct Hw as [Hr Hv]. cbn [rw_rd rw_value] in *. rewrite <- app_assoc. reads_next.
      eapply reads_bind; [|reads_next; apply reads_ret].
      repeat reads_next. apply reads_ret.
    + repeat reads_next. apply reads_ret.
  - cbn [cause tval] in *. repeat reads_next. apply reads_ret.
  - destruct Ho as (Hc & Hv & Hr & Ht & _). cbn in Hc, Hv, Hr, Ht, Hp.
    assert (in_u 16 csr) by (unfold in_u; lia).
    rewrite (bool_decide_eq_false_2 (p = M1)) by assumption. cbn [negb andb].
    repeat reads_next. apply reads_ret.
  - rewrite (bool_decide_eq_false_2 (p = M1)) by assumption. cbn [negb].
    reads_next. apply reads_ret.
  - cbn in Hp. rewrite (bool_decide_eq_true_2 (p = M3)) by assumption. reads_next. apply reads_ret.
Qed.

Definition opt_u (w : Z) (o : option Z) : Prop := match o with Some v => in_u w v | None => True end.

Lemma reads_pa pa : opt_u 64 pa -> reads read_pa (write_pa pa) pa.
Proof. intros Hp. unfold read_pa. destruct pa; cbn [write_pa]; repeat reads_next; apply reads_ret. Qed.

Lemma reads_insn insn :
  opt_u 32 insn ->
  reads read_insn match insn with None => put_u8 0 | Some insn => put_u8 1 ++ put_u32 insn end insn.
Proof. intros Hi. unfold read_insn. destruct insn; repeat reads_next; apply reads_ret. Qed.

Definition walk_record (w : Walk) : WalkRecord :=
  mkWalkRecord match purpose w with Purpose_Fetch => None | Purpose_Data insn _ => Some insn end
    (level w) (table w).

Lemma reads_walk cpu w : walk_ok cpu w -> reads read_walk (write_walk w) (walk_record w).
Proof.
  intros (_ & Hlv & Ht & _ & Hd). apply (in_u_mono 22 32) in Ht; [|lia].
  assert (in_u 8 (level w)) by (unfold in_u; lia).
  unfold read_walk, write_walk, walk_record. destruct (purpose w) as [|insn plan].
  - repeat reads_next. apply reads_ret.
  - destruct Hd as [Hi _]. rewrite <- app_assoc. reads_next.
    eapply reads_bind; [repeat reads_next; apply reads_ret |]. repeat reads_next. apply reads_ret.
Qed.

Definition state_record (s : State) : StateRecord :=
  match s with
  | State_FetchIssue pa => Rec_FetchIssue pa
  | State_FetchWait txn pa => Rec_FetchWait txn pa
  | State_MemIssue insn _ pa => Rec_MemIssue insn pa
  | State_MemWait txn insn _ pa => Rec_MemWait txn insn pa
  | State_WalkIssue w => Rec_WalkIssue (walk_record w)
  | State_WalkWait txn w => Rec_WalkWait txn (walk_record w)
  | State_CommitPending insn o pa => Rec_CommitPending insn o pa
  | State_Halted (Halt_Trap t) => Rec_Trap t
  | State_Halted Halt_InstructionLimit => Rec_InstructionLimit
  end.

Lemma translated_u64 t pa va :
  translated_ok t pa va -> opt_u 64 pa.
Proof. destruct t, pa; cbn; try tauto. intros [Hp _]. apply (in_u_mono 34 64); [lia | exact Hp]. Qed.

Lemma outstanding_u64 cpu txn : arch_ok cpu -> outstanding cpu txn -> in_u 64 txn.
Proof. intros (_ & _ & _ & Hn & _) [H1 H2]. unfold in_u in *. lia. Qed.

#[local] Hint Resolve reads_pa translated_u64 outstanding_u64 reads_insn reads_outcome reads_walk : reads.

Lemma cause_in_schema cpu c :
  arch_ok cpu -> cause_ok (Rv32iCpu.translating cpu) (privilege (m3 cpu)) c ->
  c ∈ causes (profile (config cpu)).
Proof.
  intros Ha Hc.
  assert (Hcase : profile (config cpu) = M3 \/
    causes (profile (config cpu)) = CAUSES /\ cause_ok false Machine c).
  { destruct Ha as (_ & _ & _ & _ & _ & _ & _ & Hm). unfold Rv32iCpu.translating in Hc.
    destruct (profile (config cpu)); [right|right|left]; try reflexivity;
      (split; [reflexivity |]); rewrite Hm in Hc by discriminate; exact Hc. }
  destruct Hcase as [->|[-> [H1 H2]]].
  - destruct c; apply (bool_decide_unpack _); vm_compute; exact I.
  - destruct c; try (apply (bool_decide_unpack _); vm_compute; exact I).
    + discriminate (H2 eq_refl).
    + discriminate (H2 eq_refl).
    + discriminate (H1 eq_refl).
    + discriminate (H1 eq_refl).
    + discriminate (H1 eq_refl).
Qed.

Lemma pending_in_schema cpu insn o pa :
  cpu_ok cpu -> state cpu = State_CommitPending insn o pa ->
  opt_u 32 insn /\ outcome_ok o /\ outcome_in_schema (profile (config cpu)) o /\ opt_u 64 pa.
Proof.
  intros Hok Hs. pose proof Hok as (Ha & Hst & _). unfold state_ok in Hst. rewrite Hs in Hst.
  destruct Hst as (Hi & _ & Ho & Hpa). split; [exact Hi |]. split; [exact Ho |]. split.
  - assert (Hpriv : (forall t, o <> Outcome_Exec (Exec_Trap t)) ->
      (exists e, o = Outcome_Exec (Exec_Effect e)) \/ step_ok (Rv32iCpu.isa cpu) (Done o)).
    { intros Hne. destruct (pending_retires cpu insn o pa Hok Hs Hne) as (w & _ & _ & Hx). exact Hx. }
    unfold Rv32iCpu.isa in Hpriv. destruct o as [[e|t]|op| |]; cbn [outcome_in_schema]; [exact I |..].
    + apply cause_in_schema; [exact Ha |]. eapply pending_trap; eassumption.
    + destruct Hpriv as [[e He]|[_ Hx]]; [discriminate | discriminate |].
      destruct (profile (config cpu)); [contradiction | discriminate..].
    + destruct Hpriv as [[e He]|[_ Hx]]; [discriminate | discriminate |].
      destruct (profile (config cpu)); [destruct Hx; discriminate | discriminate..].
    + destruct Hpriv as [[e He]|[_ (mode & Hx & _)]]; [discriminate | discriminate |].
      destruct (profile (config cpu)); (discriminate || reflexivity).
  - destruct (retiring_access cpu insn o); [eapply translated_u64; exact Hpa | subst; exact I].
Qed.

(** Schema 3's state record holds the whole state but its plans. *)
Lemma reads_state_m3 cpu :
  cpu_ok cpu -> profile (config cpu) = M3 ->
  reads decode_state_m3 (write_state M3 (state cpu)) (state_record (state cpu)).
Proof.
  intros Hok Hp. pose proof Hok as (Ha & Hst & _). unfold state_ok in Hst.
  unfold decode_state_m3. destruct (state cpu) as [| | | | | |insn o pa|[t|]] eqn:Es;
    cbn [write_state state_record] in *; unfold pending_access in Hst; deconj;
    change (bool_decide (M3 = M3)) with true; cbn iota zeta.
  8:{ destruct t as [c tpc tv]. cbn [trap_cause trap_pc trap_tval] in *. subst tpc.
      assert (c ∈ causes M3) by (rewrite <- Hp; apply cause_in_schema; assumption).
      assert (in_u 32 (pc cpu)) by apply Ha.
      repeat reads_next. apply reads_ret. }
  7:{ destruct (pending_in_schema cpu insn o pa Hok Es) as (? & ? & Hsch & ?). rewrite Hp in Hsch.
      repeat reads_next. apply reads_ret. }
  all: repeat reads_next; apply reads_ret.
Qed.
End components.

(** * Validation is exact *)

Section validation.
Context `{SnapshotCodec}.

Lemma check_outstanding_exact cpu txn txn' :
  check_outstanding (next_txn cpu) txn = Ok txn' <-> txn' = txn /\ outstanding cpu txn.
Proof.
  unfold check_outstanding, outstanding.
  assert (Hsub : checked_sub (next_txn cpu) 1 = Some txn <-> 0 <= txn /\ next_txn cpu = txn + 1).
  { unfold checked_sub. destruct (Z.leb_spec 1 (next_txn cpu)); split; try discriminate.
    - intros [= Hx]. lia.
    - intros [? ->]. f_equal. lia.
    - intros [? Hx]. lia. }
  case_bool_decide as E; rewrite Hsub in E.
  - split; [intros [= <-]; auto | intros [-> _]; reflexivity].
  - split; [discriminate | intros [_ Hx]; contradiction].
Qed.

Lemma check_translated_exact t pa va pa' :
  opt_u 64 pa -> check_translated t pa va = Ok pa' <-> pa' = pa /\ translated_ok t pa va.
Proof.
  intros Hp. destruct t, pa as [pa|]; cbn [check_translated translated_ok opt_u] in *.
  2,3: split; [discriminate | intros [_ []]].
  2: split; [intros [= <-]; auto | intros [-> _]; reflexivity].
  rewrite !(land_ones_mod 12 _ 0xFFF) by (lia || reflexivity). change (2 ^ 12) with PAGE_SIZE.
  assert (Hw : (Z.shiftr pa PA_BITS =? 0) = true <-> in_u PA_BITS pa).
  { rewrite Z.eqb_eq, Z.shiftr_div_pow2 by (vm_compute; discriminate). unfold in_u, PA_BITS in *. word_lia. }
  destruct (Z.shiftr pa PA_BITS =? 0); cbn [negb].
  - destruct (Z.eqb_spec (pa mod PAGE_SIZE) (va mod PAGE_SIZE)); cbn [negb].
    + split; [intros [= <-]; split; [reflexivity | split; [apply Hw; reflexivity | assumption]]
             | intros [-> _]; reflexivity].
    + split; [discriminate | intros (_ & _ & ?); contradiction].
  - split; [discriminate | intros (_ & Hr & _)]. apply Hw in Hr. discriminate.
Qed.

Lemma check_memory_exact cpu insn plan :
  in_u 32 insn ->
  check_memory (Rv32iCpu.isa cpu) (pc cpu) (regs cpu) insn = Ok plan <-> pending_access cpu insn plan.
Proof.
  intros Hi. unfold check_memory, pending_access. destruct (step _ _ _ _); split; intros Hx; deconj;
    try discriminate; [injection Hx as <-; auto | congruence].
Qed.

Lemma ppn_mask t : in_u 32 t -> (Z.land t (not32 SATP_PPN) =? 0) = true <-> in_u 22 t.
Proof.
  intros Ht. change SATP_PPN with (Z.ones 22). rewrite land_not32_low by (lia || assumption).
  rewrite Z.eqb_eq. unfold in_u in *. word_lia.
Qed.

Definition walk_record_ok (r : WalkRecord) : Prop :=
  opt_u 32 (wr_data r) /\ in_u 8 (wr_level r) /\ in_u 32 (wr_table r).

Lemma check_walk_exact cpu r w :
  profile (config cpu) = M3 -> walk_record_ok r ->
  check_walk (Rv32iCpu.isa cpu) (m3 cpu) (pc cpu) (regs cpu) r = Ok w <->
  r = walk_record w /\ walk_ok cpu w.
Proof.
  intros Hp (Hd & Hl & Ht). unfold check_walk, walk_ok, Rv32iCpu.translating.
  rewrite Hp, bool_decide_eq_true_2 by reflexivity. cbn [andb].
  destruct r as [data lv tb]. cbn [wr_data wr_level wr_table] in *. pose proof (ppn_mask tb Ht) as Hmask.
  destruct (M3State.translates (m3 cpu)); cbn [negb].
  2:{ split; [discriminate | intros (_ & [=] & _)]. }
  destruct (Z.ltb_spec 1 lv).
  { split; [discriminate | intros ([= _ -> _] & _ & [|] & _); lia]. }
  destruct (Z.land tb _ =? 0); cbn [negb].
  2:{ split; [discriminate | intros ([= _ _ ->] & _ & _ & Hr & _)]. apply Hmask in Hr. discriminate. }
  destruct ((lv =? 1) && negb (tb =? M3State.root (m3 cpu))) eqn:Er.
  { split; [discriminate | intros ([= _ -> ->] & _ & _ & _ & Hr & _)]. unbool. specialize (Hr ltac:(assumption)). contradiction. }
  assert (Hroot : lv = 1 -> tb = M3State.root (m3 cpu)).
  { intros ->. cbn in Er. unbool. assumption. }
  assert (Hlv : lv = 0 \/ lv = 1) by (unfold in_u in Hl; lia).
  assert (Htb : in_u 22 tb) by (apply Hmask; reflexivity).
  destruct data as [insn|].
  - split.
    + intros (p & (plan & Hm & [= <-])%bind_Ok_inv & [= <-])%bind_Ok_inv.
      apply check_memory_exact in Hm; [|exact Hd]. split; [reflexivity |]. auto.
    + destruct w as [[|insn' plan] lv' tb']; cbn [walk_record purpose level table] in *;
        intros ([=] & _ & _ & _ & _ & Hacc); subst.
      apply check_memory_exact in Hacc; [|exact Hd]. rewrite Hacc. reflexivity.
  - split.
    + intros (p & [= <-] & [= <-])%bind_Ok_inv. split; [reflexivity |]. auto 10.
    + destruct w as [[|insn' plan] lv' tb']; cbn [walk_record purpose level table] in *;
        intros ([=] & _); subst. reflexivity.
Qed.
(** The register value of a decoded outcome is a [u32]. *)
Definition outcome_typed (o : Outcome) : Prop :=
  match o with
  | Outcome_Exec (Exec_Effect e) =>
      match reg_write e with Some w => in_u 32 (rw_value w) | None => True end
  | _ => True
  end.

Lemma outcome_ok_typed o : outcome_ok o -> outcome_typed o.
Proof. destruct o as [[[[]]|]| | |]; cbn; try tauto. intros [_ [_ Hv]]. exact Hv. Qed.

(** An outcome consistent with its instruction is in range. *)
Lemma consistent_outcome_ok isa tr insn o pc regs :
  target_ok pc -> RegisterFile.ok regs -> opt_u 32 insn -> outcome_typed o ->
  consistent isa tr insn o pc regs = true -> outcome_ok o.
Proof.
  intros Hp Hr Hi Ho. unfold consistent.
  assert (Hflt : forall access tv t, in_u 32 tv ->
    (bool_decide (t = mkTrap (Access.access_fault access) tv)
     || tr && bool_decide (t = mkTrap (Access.page_fault access) tv)) = true -> in_u 32 (tval t)).
  { intros access tv t Htv [Hx|Hx]%orb_true_iff; unbool; subst t; exact Htv. }
  destruct insn as [w|].
  2:{ destruct o as [[|t]| | |]; try discriminate. apply (Hflt Access_Fetch), Hp. }
  pose proof (step_result_ok isa w pc regs Hi Hp Hr) as Hs.
  destruct (step isa w pc regs) as [o'|[l|st]].
  - intros Hx%bool_decide_eq_true. subst o'. apply Hs.
  - destruct o as [[[[[r v]|] t]|t]| | |]; try discriminate.
    + cbn. intros Hx. unbool. subst. destruct Hs as (_ & Hrd & Ht). split; [exact Ht |]. split; assumption.
    + cbn. intros Hx. unbool. discriminate.
    + apply (Hflt Access_Load), Hs.
  - destruct o as [[e|t]| | |]; try discriminate.
    + intros Hx%bool_decide_eq_true. subst e. split; [apply Hs | exact I].
    + apply (Hflt Access_Store), Hs.
Qed.

Definition record_ok (r : StateRecord) : Prop :=
  match r with
  | Rec_FetchIssue pa => opt_u 64 pa
  | Rec_FetchWait _ pa => opt_u 64 pa
  | Rec_MemIssue insn pa | Rec_MemWait _ insn pa => in_u 32 insn /\ opt_u 64 pa
  | Rec_WalkIssue w | Rec_WalkWait _ w => walk_record_ok w
  | Rec_CommitPending insn o pa => opt_u 32 insn /\ outcome_typed o /\ opt_u 64 pa
  | Rec_Trap t => in_u 32 (trap_tval t)
  | Rec_InstructionLimit => True
  end.

(** [bind] of two checks that are exact. *)
Lemma bind_Ok_iff {A B} (r : result RestoreError A) (f : A -> result RestoreError B) b :
  mbind f r = Ok b <-> exists a, r = Ok a /\ f a = Ok b.
Proof. split; [apply bind_Ok_inv | intros (a & -> & Hf); exact Hf]. Qed.

Lemma validate_pending cpu insn o pa s :
  profile (config cpu) = M3 -> arch_ok cpu -> record_ok (Rec_CommitPending insn o pa) ->
  validate_state_m3 (Rec_CommitPending insn o pa) (m3 cpu) (pc cpu) (regs cpu) (next_txn cpu) = Ok s <->
  s = State_CommitPending insn o pa /\ state_ok (set_state (State_CommitPending insn o pa) cpu).
Proof.
  intros Hp (_ & Hpc & Hr & _) (Hi & Ho & Hpa). unfold validate_state_m3, state_ok.
  cbn [state set_state]. unfold retiring_access.
  change (Rv32iCpu.isa (set_state _ cpu)) with (Rv32iCpu.isa cpu).
  change (Rv32iCpu.translating (set_state _ cpu)) with (Rv32iCpu.translating cpu).
  cbn [pc regs set_state].
  assert (Hisa : Isa_M3 (privilege (m3 cpu)) = Rv32iCpu.isa cpu) by (unfold Rv32iCpu.isa; rewrite Hp; reflexivity).
  assert (Htr : M3State.translates (m3 cpu) = Rv32iCpu.translating cpu)
    by (unfold Rv32iCpu.translating; rewrite Hp, bool_decide_eq_true_2 by reflexivity; reflexivity).
  rewrite Hisa, Htr.
  destruct (consistent _ _ insn o _ _) eqn:Ec; cbn [negb].
  2:{ split; [discriminate | intros (_ & _ & [=] & _)]. }
  pose proof (consistent_outcome_ok _ _ _ _ _ _ Hpc Hr Hi Ho Ec) as Hok.
  set (plan := match insn ≫= _ with Some _ => _ | None => _ end).
  assert (Hplan : plan = (insn ≫= fun insn => match step (Rv32iCpu.isa cpu) insn (pc cpu) (regs cpu), o with
    | NeedsMemory plan, Outcome_Exec (Exec_Effect _) => Some plan | _, _ => None end)).
  { subst plan. destruct insn as [w|]; [|reflexivity]. cbn.
    destruct (step _ _ _ _); [reflexivity |]. destruct o as [[]| | |]; reflexivity. }
  rewrite <- Hplan. destruct plan as [plan|].
  - rewrite bind_Ok_iff. setoid_rewrite check_translated_exact; [|exact Hpa]. split.
    + intros (pa' & [-> Ht] & [= <-]). auto 10.
    + intros (-> & _ & _ & _ & Ht). eauto 10.
  - destruct pa as [pa|]; cbn.
    + split; [discriminate | intros (_ & _ & _ & _ & [=])].
    + split; [intros [= <-]; auto 10 | intros [-> _]; reflexivity].
Qed.
Lemma validate_trap cpu t s :
  profile (config cpu) = M3 -> in_u 32 (trap_tval t) ->
  validate_state_m3 (Rec_Trap t) (m3 cpu) (pc cpu) (regs cpu) (next_txn cpu) = Ok s <->
  s = State_Halted (Halt_Trap t) /\ state_ok (set_state (State_Halted (Halt_Trap t)) cpu).
Proof.
  intros Hp Htv. unfold validate_state_m3, state_ok. cbn [state set_state pc m3].
  change (Rv32iCpu.translating (set_state _ cpu)) with (Rv32iCpu.translating cpu).
  assert (Htr : M3State.translates (m3 cpu) = Rv32iCpu.translating cpu)
    by (unfold Rv32iCpu.translating; rewrite Hp, bool_decide_eq_true_2 by reflexivity; reflexivity).
  rewrite Htr. fold (ecall_of (privilege (m3 cpu))). fold (is_ecall (trap_cause t)). unfold cause_ok.
  destruct (page_fault (trap_cause t) && negb (Rv32iCpu.translating cpu)) eqn:E1.
  { split; [discriminate | intros (_ & [Hx _] & _)]. unbool. specialize (Hx ltac:(assumption)). congruence. }
  destruct (Z.eqb_spec (trap_pc t) (pc cpu)); cbn [negb]; [|split; [discriminate | intros (_ & _ & Hx & _); contradiction]].
  destruct (M3State.delegates _ _); [split; [discriminate | intros (_ & _ & _ & _ & [=])] |].
  destruct (is_ecall (trap_cause t) && _) eqn:E2.
  { split; [discriminate | intros (_ & [_ Hx] & _)]. unbool. specialize (Hx ltac:(assumption)). contradiction. }
  split; [intros [= <-] | intros [-> _]; reflexivity]. split; [reflexivity |]. split; [|auto]. split.
  - intros Hf. rewrite Hf in E1. cbn in E1. unbool. assumption.
  - intros Hf. rewrite Hf in E2. cbn in E2. unbool. assumption.
Qed.

(** A check whose condition the context has succeeds. *)
Ltac accept_check :=
  match goal with
  | |- context [check_outstanding (next_txn ?c) ?t] =>
      rewrite (proj2 (check_outstanding_exact c t t)) by (split; [reflexivity | assumption])
  | H : pending_access _ ?i ?p |- context [check_memory (Rv32iCpu.isa ?c) _ _ ?i] =>
      rewrite (proj2 (check_memory_exact c i p ltac:(tauto)) H)
  | |- context [check_translated ?b ?pa ?va] =>
      rewrite (proj2 (check_translated_exact b pa va pa ltac:(tauto)))
        by (split; [reflexivity | assumption])
  | Hp : profile (config ?c) = M3, Hr : walk_record_ok (walk_record ?w)
    |- context [check_walk _ _ _ _ (walk_record ?w)] =>
      rewrite (proj2 (check_walk_exact c _ w Hp Hr)) by (split; [reflexivity | assumption])
  | |- _ => progress cbn [mbind result_bind]
  end.

(** Validation of a schema 3 record accepts exactly the states the invariant allows. *)
Lemma validate_exact cpu r s :
  profile (config cpu) = M3 -> arch_ok cpu -> record_ok r ->
  validate_state_m3 r (m3 cpu) (pc cpu) (regs cpu) (next_txn cpu) = Ok s <->
  r = state_record s /\ state_ok (set_state s cpu).
Proof.
  intros Hp Ha Hr.
  assert (Hisa : Isa_M3 (privilege (m3 cpu)) = Rv32iCpu.isa cpu) by (unfold Rv32iCpu.isa; rewrite Hp; reflexivity).
  assert (Htr : M3State.translates (m3 cpu) = Rv32iCpu.translating cpu)
    by (unfold Rv32iCpu.translating; rewrite Hp, bool_decide_eq_true_2 by reflexivity; reflexivity).
  destruct r as [pa|txn pa|insn pa|txn insn pa|w|txn w|insn o pa|t|].
  7:{ rewrite validate_pending by assumption. split; [intros [-> Hs]; auto |].
      intros [Hx Hs]. destruct s as [| | | | | | |[]]; try discriminate. injection Hx as -> -> ->. auto. }
  7:{ rewrite validate_trap by assumption. split; [intros [-> Hs]; auto |].
      intros [Hx Hs]. destruct s as [| | | | | | |[]]; try discriminate. injection Hx as ->. auto. }
  7:{ cbn. split; [intros [= <-]; split; [reflexivity | exact I] |].
      intros [Hx _]. destruct s as [| | | | | | |[]]; try discriminate. reflexivity. }
  all: cbn [validate_state_m3]; rewrite ?Hisa, ?Htr; cbn [record_ok] in Hr; split.
  1, 3, 5, 7, 9, 11: intros Hx; repeat apply bind_Ok_inv in Hx as (? & ? & Hx);
    repeat match goal with
    | H : check_translated _ _ _ = Ok _ |- _ => apply check_translated_exact in H as [-> ?]; [|tauto]
    | H : check_outstanding _ _ = Ok _ |- _ => apply check_outstanding_exact in H as [-> ?]
    | H : check_memory _ _ _ _ = Ok _ |- _ => apply check_memory_exact in H; [|tauto]
    | H : check_walk _ _ _ _ _ = Ok _ |- _ => apply check_walk_exact in H as [-> ?]; [|assumption..]
    end; injection Hx as <-; split; [reflexivity |]; unfold state_ok; cbn [state set_state]; auto.
  all: intros [Hx Hs]; destruct s as [| | | | | | |[]]; try discriminate; injection Hx as; subst;
    unfold state_ok in Hs; cbn [state set_state] in Hs; deconj.
  all: repeat accept_check; reflexivity.
Qed.
End validation.

(** * Restoring a snapshot *)

Section restoring.
Context `{SnapshotCodec}.

Lemma reads_regs_fold rf l : forall rf0,
  RegisterFile.ok rf ->
  reads (read_regs l rf0) (write_regs rf l)
    (foldl (fun acc r => RegisterFile.write acc r (RegisterFile.read rf r)) rf0 l).
Proof.
  induction l as [|r l IH]; intros rf0 Hrf; cbn [read_regs foldl].
  - apply reads_ret.
  - cbn [write_regs mbind list_bind]. eapply reads_bind; [apply reads_u32; auto with ranges |].
    apply IH, Hrf.
Qed.

Lemma reads_regs rf :
  RegisterFile.ok rf ->
  reads (read_regs stored_registers RegisterFile.new) (write_regs rf stored_registers) rf.
Proof.
  intros Hrf. pose proof (reads_regs_fold rf stored_registers RegisterFile.new Hrf) as Hr.
  replace (foldl _ _ _) with rf in Hr; [exact Hr |].
  destruct Hrf as [Hl _]. destruct rf as [x]. cbn [RegisterFile.x] in Hl.
  do 31 (destruct x as [|? x]; [discriminate |]). destruct x; [|discriminate].
  vm_compute. reflexivity.
Qed.

Lemma privilege_bits p : Privilege.from_bits (Privilege.bits p) = Some p.
Proof. destruct p; reflexivity. Qed.
Lemma privilege_bits_u8 p : in_u 8 (Privilege.bits p).
Proof. destruct p; const_range. Qed.
Lemma spp_bits p : Spp.from_bits (Spp.bits p) = Some p.
Proof. destruct p; reflexivity. Qed.
Lemma spp_bits_u8 p : in_u 8 (Spp.bits p).
Proof. destruct p; const_range. Qed.
Lemma aligned_low v : aligned4 v = true -> (Z.land v 3 =? 0) = true.
Proof. rewrite land3_mod. auto. Qed.
Lemma bool_decide_same {A} (a : A) `{Decision (a = a)} : bool_decide (a = a) = true.
Proof. apply bool_decide_eq_true_2. reflexivity. Qed.

#[local] Hint Resolve reads_regs privilege_bits privilege_bits_u8 spp_bits spp_bits_u8
  aligned_low bool_decide_same : reads.

Lemma reads_csrs c : CsrFile.ok c -> reads read_csrs (write_csrs c) c.
Proof.
  intros (? & ? & ? & ? & ? & ? & ?). unfold read_csrs, write_csrs. repeat reads_next.
  destruct c. apply reads_ret.
Qed.

Lemma count_checked cpu :
  count_ok cpu -> reads (check_count (state cpu) (instret cpu) (max_instructions (config cpu))) [] tt.
Proof.
  intros [_ Hc]. apply reads_check. destruct (state cpu) as [| | | | | | |[]];
    (apply Z.ltb_lt, Hc || apply Z.eqb_eq, Hc).
Qed.

Lemma instret_u64 cpu : cpu_ok cpu -> in_u 64 (instret cpu).
Proof.
  intros (((_ & _ & Hm) & _) & _ & Hn & Hc). unfold in_u.
  destruct (state cpu) as [| | | | | | |[]]; lia.
Qed.

Lemma state_record_ok cpu : cpu_ok cpu -> record_ok (state_record (state cpu)).
Proof.
  intros Hok. pose proof Hok as (Ha & Hst & _). unfold state_ok in Hst.
  assert (Hwalk : forall w, walk_ok cpu w -> walk_record_ok (walk_record w)).
  { intros w (_ & Hlv & Ht & _ & Hd). split; [|split].
    - unfold walk_record. destruct (purpose w); [exact I | apply Hd].
    - cbn. unfold in_u. lia.
    - cbn. apply (in_u_mono 22 32); [lia | exact Ht]. }
  destruct (state cpu) as [pa|txn pa|insn plan pa|txn insn plan pa|w|txn w|insn o pa|[t|]] eqn:Es;
    cbn [state_record record_ok]; unfold pending_access in Hst; deconj; eauto using translated_u64.
  destruct (pending_in_schema cpu insn o pa Hok Es) as (? & ? & _ & ?). auto using outcome_ok_typed.
Qed.

Lemma state_validates cpu :
  cpu_ok cpu -> profile (config cpu) = M3 ->
  validate_state_m3 (state_record (state cpu)) (m3 cpu) (pc cpu) (regs cpu) (next_txn cpu) = Ok (state cpu).
Proof.
  intros Hok Hp. pose proof Hok as (Ha & Hst & _). apply validate_exact; [assumption.. | |].
  - apply state_record_ok, Hok.
  - split; [reflexivity |]. destruct cpu; exact Hst.
Qed.

Lemma m3_eta m :
  mkM3State (privilege m) (sie m) (spie m) (spp m) (mpp m) (sum_ m) (mxr m) (medeleg m) (stvec m)
    (sscratch m) (sepc m) (scause m) (stval m) (satp m) = m.
Proof. destruct m; reflexivity. Qed.

Lemma csrs_eta c :
  mkCsrFile (mie c) (mpie c) (meie c) (mtvec c) (mscratch c) (mepc c) (mcause c) (mtval c) (irq_level c) = c.
Proof. destruct c; reflexivity. Qed.

Lemma reads_restore_m3 self cpu :
  cpu_ok cpu -> config self = config cpu -> profile (config cpu) = M3 ->
  reads (restore_m3 self) (snapshot cpu) cpu.
Proof.
  intros Hok Hcfg Hp. pose proof (instret_u64 cpu Hok) as Hi. pose proof Hok as (Ha & _ & Hcount).
  pose proof (state_validates cpu Hok Hp) as Hv. pose proof (reads_state_m3 cpu Hok Hp) as Hst.
  pose proof (count_checked cpu Hcount) as Hcc.
  destruct Ha as (_ & [Hpc1 Hpc2] & Hrf & Hn & (? & ? & ? & ? & ? & ? & ?) & (? & Hmd & ? & ? & ? & ? & ? & ? & ? & ? & ?) & _).
  apply Z.eqb_eq in Hmd.
  unfold restore_m3, snapshot. rewrite Hcfg, Hp.
  rewrite (bool_decide_eq_true_2 (M3 <> M1)), bool_decide_same by discriminate.
  unfold write_csrs, write_m3. rewrite <- !app_assoc.
  do 40 reads_next. rewrite csrs_eta, m3_eta. repeat reads_next. rewrite <- Hcfg.
  destruct cpu. cbn in Hcfg |- *. rewrite Hcfg. apply reads_ret.
Qed.

Lemma outstanding_checked cpu txn :
  outstanding cpu txn -> check_outstanding (next_txn cpu) txn = Ok txn.
Proof. intros Ho. apply check_outstanding_exact. auto. Qed.

Lemma memory_checked cpu insn plan :
  pending_access cpu insn plan ->
  check_memory (Rv32iCpu.isa cpu) (pc cpu) (regs cpu) insn = Ok plan.
Proof. intros Hx. apply check_memory_exact; [apply Hx | exact Hx]. Qed.

#[local] Hint Resolve outstanding_checked outstanding_u64 reads_outcome reads_insn reads_cause : reads.

(** Schemas 1 and 2: no address is ever held, and no walk. *)
Lemma reads_state cpu self :
  cpu_ok cpu -> config self = config cpu -> profile (config cpu) <> M3 ->
  reads (read_state self (pc cpu) (regs cpu) (next_txn cpu))
    (write_state (profile (config cpu)) (state cpu)) (state cpu).
Proof.
  intros Hok Hcfg Hp. pose proof Hok as (Ha & Hst & _).
  assert (Hisa : match profile (config cpu) with M1 => Isa_M1 | M2 | M3 => Isa_M2 end = Rv32iCpu.isa cpu)
    by (unfold Rv32iCpu.isa; destruct (profile (config cpu)); [reflexivity.. | contradiction]).
  assert (Htr : Rv32iCpu.translating cpu = false)
    by (unfold Rv32iCpu.translating; rewrite bool_decide_eq_false_2 by assumption; reflexivity).
  assert (Hpa : forall pa va, translated_ok false pa va -> pa = None) by (intros [] ?; cbn; tauto).
  unfold read_state, write_state. rewrite Hcfg, Hisa, (bool_decide_eq_false_2 _ Hp). unfold state_ok in Hst.
  rewrite Htr in Hst.
  destruct (state cpu) as [pa|txn pa|insn plan pa|txn insn plan pa|w|txn w|insn o pa|[t|]] eqn:Es; deconj;
    rewrite ?app_nil_r.
  - rewrite (Hpa pa (pc cpu)) by assumption. repeat reads_next. apply reads_ret.
  - rewrite (Hpa pa (pc cpu)) by assumption. repeat reads_next. apply reads_ret.
  - rewrite (Hpa pa (plan_addr plan)) by assumption. pose proof (memory_checked cpu _ _ H0) as Hm.
    destruct H0. repeat reads_next. apply reads_ret.
  - rewrite (Hpa pa (plan_addr plan)) by assumption. pose proof (memory_checked cpu _ _ H1) as Hm.
    destruct H1. repeat reads_next. apply reads_ret.
  - destruct Hst as (Hx & _). congruence.
  - destruct H1 as (Hx & _). congruence.
  - destruct (pending_in_schema cpu insn o pa Hok Es) as (? & ? & ? & ?).
    assert (pa = None) as -> by (destruct (retiring_access cpu insn o); eauto).
    rewrite ?app_nil_r. repeat reads_next. apply reads_ret.
  - destruct t as [c tpc tv]. cbn [trap_cause trap_pc trap_tval] in *. subst tpc.
    assert (c ∈ causes (profile (config cpu))) by (apply cause_in_schema; [assumption | rewrite Htr; assumption]).
    assert (in_u 32 (pc cpu)) by apply Ha. pose proof (Z.eqb_refl (pc cpu)).
    repeat reads_next. apply reads_ret.
  - repeat reads_next. apply reads_ret.
Qed.

(** The snapshot of a CPU restores it, into any CPU with the same configuration. *)
Lemma reads_restore self cpu :
  cpu_ok cpu -> cpu_ok self -> config self = config cpu ->
  reads (restore self (snapshot_schema_version cpu)) (snapshot cpu) cpu.
Proof.
  intros Hok Hself Hcfg. unfold restore. eapply reads_then.
  { apply reads_check. unfold snapshot_schema_version. rewrite Hcfg. apply Z.eqb_refl. }
  rewrite Hcfg. case_bool_decide as Hp; [apply reads_restore_m3; assumption |].
  pose proof (instret_u64 cpu Hok) as Hi. pose proof Hok as (Ha & _ & Hcount).
  pose proof (reads_state cpu self Hok Hcfg Hp) as Hst.
  pose proof (count_checked cpu Hcount) as Hcc.
  destruct Ha as (_ & [Hpc1 Hpc2] & Hrf & Hn & Hc & _ & H1 & H3).
  destruct Hself as ((_ & _ & _ & _ & _ & _ & _ & H3') & _). rewrite Hcfg in H3'.
  assert (Hm3 : m3 self = m3 cpu) by (rewrite H3, H3' by assumption; reflexivity).
  unfold snapshot. rewrite (bool_decide_eq_false_2 _ Hp), app_nil_r.
  assert (Hcs : reads match profile (config cpu) with M1 => mret CsrFile.new | M2 | M3 => read_csrs end
    (if bool_decide (profile (config cpu) <> M1) then write_csrs (csrs cpu) else []) (csrs cpu)).
  { destruct (profile (config cpu)) eqn:E; [|apply reads_csrs, Hc..]. rewrite H1 by reflexivity. apply reads_ret. }
  repeat reads_next. rewrite Hm3. destruct cpu. apply reads_ret.
Qed.

(** C25: a snapshot restores exactly the CPU it was taken from.  In every state the CPU can
    be in (waiting for a fetch, a load, a store or a PTE, with a commit pending, or
    halted), in all three profiles and for any encoding of the primitives, restoring the
    bytes [snapshot] wrote into a CPU with the same configuration gives back [pc],
    registers, counters, CSRs, mode, and the execution state with its recomputed plan, and
    consumes exactly those bytes. *)
Theorem snapshot_restore self cpu rest :
  cpu_ok cpu -> cpu_ok self -> config self = config cpu ->
  restore self (snapshot_schema_version cpu) (snapshot cpu ++ rest) = (rest, Ok cpu).
Proof. intros Hok Hself Hcfg. apply reads_restore; assumption. Qed.
End restoring.

(** * What restore accepts *)

Section accepts.
Context `{SnapshotCodec}.

Local Abbreviation R := (ST (list Z) RestoreError).

Lemma yields_flag : yields flag (fun _ => True).
Proof.
  intros bs Hbs. unfold wp, flag. destruct (get_bool bs) as [[v r]|e] eqn:E; [|exact I].
  split; [exact I | eapply get_bool_range; eassumption].
Qed.
End accepts.

#[export] Hint Resolve yields_flag : yields.

Section accepted.
Context `{SnapshotCodec}.

Lemma yields_cause p : yields (read_cause p) (fun c => c ∈ causes p).
Proof.
  unfold read_cause. yields_next. eapply yields_mono; [|apply yields_some].
  cbn. intros c Hc. eapply list_elem_of_lookup_2; exact Hc.
Qed.

Lemma yields_insn : yields read_insn (opt_u 32).
Proof. unfold read_insn. yields_next. yields_tags; repeat yields_next; apply yields_ret; cbn; auto. Qed.

Lemma yields_pa : yields read_pa (opt_u 64).
Proof. unfold read_pa. yields_next. yields_tags; repeat yields_next; apply yields_ret; cbn; auto. Qed.

#[local] Hint Resolve yields_cause yields_insn yields_pa : yields.

Lemma yields_outcome p : yields (read_outcome p) outcome_typed.
Proof.
  unfold read_outcome. yields_next. yields_tags.
  - yields_next. eapply (yields_bind _ _ (fun w => match w with Some w => in_u 32 (rw_value w) | None => True end)).
    + yields_tags; repeat yields_next; apply yields_ret; cbn; auto.
    + intros w Hw. yields_next. apply yields_ret. exact Hw.
  - repeat yields_next. apply yields_ret. exact I.
  - repeat yields_next. apply yields_ret. exact I.
  - apply yields_ret. exact I.
  - apply yields_ret. exact I.
Qed.

Lemma yields_walk : yields read_walk walk_record_ok.
Proof.
  unfold read_walk. yields_next. eapply (yields_bind _ _ (opt_u 32)).
  - yields_tags; repeat yields_next; apply yields_ret; cbn; auto.
  - intros d Hd. repeat yields_next. apply yields_ret. split; [exact Hd | split; assumption].
Qed.

#[local] Hint Resolve yields_outcome yields_walk : yields.

Lemma yields_record : yields decode_state_m3 record_ok.
Proof.
  unfold decode_state_m3. yields_next. yields_tags; repeat yields_next; yields_tags;
    repeat yields_next; apply yields_ret; cbn [record_ok]; auto.
Qed.

Lemma yields_regs l : forall rf, RegisterFile.ok rf -> yields (read_regs l rf) RegisterFile.ok.
Proof.
  induction l as [|r l IH]; intros rf Hrf; cbn [read_regs]; [apply yields_ret, Hrf |].
  yields_next. apply IH. auto with ranges.
Qed.
#[local] Hint Resolve yields_record yields_regs RegisterFile.new_ok : yields.

Lemma low_aligned v : (Z.land v 3 =? 0) = true -> aligned4 v = true.
Proof. rewrite land3_mod. auto. Qed.

Lemma count_accepted s i limit :
  in_u 64 i -> yields (check_count s i limit) (fun _ => forall cpu,
    state cpu = s -> instret cpu = i -> max_instructions (config cpu) = limit -> count_ok cpu).
Proof.
  intros Hi. eapply yields_mono; [|apply yields_check]. cbn. intros _ Hc cpu Hs He Hl.
  unfold count_ok. rewrite Hs, He, Hl. split; [apply Hi |]. destruct s as [| | | | | | |[]]; unbool; assumption.
Qed.

Lemma restore_m3_accepts self :
  cpu_ok self -> profile (config self) = M3 ->
  yields (restore_m3 self) (fun cpu => cpu_ok cpu /\ config cpu = config self).
Proof.
  intros ((Hcfg & _) & _) Hp. unfold restore_m3.
  do 40 yields_next.
  match goal with |- yields (mbind _ (validate (validate_state_m3 ?r ?m ?pc ?regs ?n))) _ =>
    match goal with |- context [mkRv32iCpu (config self) pc regs ?i n _ ?c m] =>
      set (cpu0 := mkRv32iCpu (config self) pc regs i n (State_FetchIssue None) c m) end end.
  assert (Ha : arch_ok cpu0).
  { unfold arch_ok, target_ok, CsrFile.ok, M3State.ok.
    cbn [config pc regs next_txn csrs m3 mtvec mscratch mepc mcause mtval medeleg stvec sscratch sepc
         scause stval satp cpu0].
    repeat match goal with |- _ /\ _ => split end; auto using low_aligned.
    - apply Z.eqb_eq. assumption.
    - intros Hx. congruence.
    - intros Hx. contradiction. }
  eapply yields_bind; [apply yields_validate |]. cbn beta. intros s Hs.
  apply (validate_exact cpu0) in Hs as [_ Hs]; [|exact Hp | exact Ha | assumption].
  eapply yields_bind; [apply count_accepted; assumption |]. intros u Hc.
  apply yields_ret. split; [|reflexivity]. split; [exact Ha |]. split; [exact Hs | apply Hc; reflexivity].
Qed.
Lemma cause_accepted p c : p <> M3 -> c ∈ causes p -> cause_ok false Machine c.
Proof.
  intros Hp Hc. replace (causes p) with CAUSES in Hc by (destruct p; [reflexivity.. | contradiction]).
  destruct c; try (split; discriminate || reflexivity); exfalso;
    apply (bool_decide_pack _) in Hc; vm_compute in Hc; exact Hc.
Qed.

(** The execution state schemas 1 and 2 accept is one the invariant allows. *)
Lemma read_state_accepts self cpu :
  arch_ok cpu -> config cpu = config self -> profile (config cpu) <> M3 ->
  yields (read_state self (pc cpu) (regs cpu) (next_txn cpu)) (fun s => state_ok (set_state s cpu)).
Proof.
  intros Ha Hcfg Hp. pose proof Ha as (_ & Hpc & Hrf & _ & _ & _ & _ & Hm3). specialize (Hm3 Hp).
  assert (Hisa : match profile (config cpu) with M1 => Isa_M1 | M2 | M3 => Isa_M2 end = Rv32iCpu.isa cpu)
    by (unfold Rv32iCpu.isa; destruct (profile (config cpu)); [reflexivity.. | contradiction]).
  assert (Htr : forall s, Rv32iCpu.translating (set_state s cpu) = false)
    by (intros s; unfold Rv32iCpu.translating; cbn; rewrite bool_decide_eq_false_2 by assumption; reflexivity).
  unfold read_state. rewrite <- Hcfg, Hisa. yields_next. yields_tags.
  all: repeat yields_next; yields_tags; repeat yields_next; apply yields_ret; unfold state_ok;
    rewrite Htr; cbn [state set_state]; unbool;
    repeat match goal with
    | H : check_outstanding _ _ = Ok _ |- _ => apply check_outstanding_exact in H as [-> ?]
    | H : check_memory _ _ _ _ = Ok _ |- _ => apply check_memory_exact in H; [|assumption]
    end.
  - exact I.
  - split; [assumption | exact I].
  - split; [assumption | exact I].
  - split; [assumption |]. split; [assumption | exact I].
  - match goal with H : consistent _ _ ?i _ _ _ = true, Hi : opt_u 32 ?i |- _ =>
      split; [exact Hi |]; split; [exact H |] end.
    split; [eapply consistent_outcome_ok; eassumption |].
    case_goal; [exact I | reflexivity].
  - cbn [m3 set_state trap_cause trap_pc trap_tval pc]. rewrite Hm3.
    split; [eapply cause_accepted; eassumption |]. split; [assumption |]. split; [assumption | reflexivity].
  - exact I.
Qed.
Lemma yields_csrs : yields read_csrs CsrFile.ok.
Proof.
  unfold read_csrs. repeat yields_next. apply yields_ret. unfold CsrFile.ok. cbn -[in_u aligned4].
  repeat match goal with |- _ /\ _ => split end; auto using low_aligned.
Qed.

Lemma restore_accepts self schema :
  cpu_ok self -> yields (restore self schema) (fun cpu => cpu_ok cpu /\ config cpu = config self).
Proof.
  intros Hself. unfold restore. yields_next. case_bool_decide as Hp; [apply restore_m3_accepts; assumption |].
  destruct Hself as ((Hcfg & _ & _ & _ & _ & _ & _ & Hm3) & _). specialize (Hm3 Hp).
  do 7 yields_next.
  match goal with |- yields (mbind _ (read_state self ?pc ?regs ?n)) _ =>
    match goal with |- context [check_count _ ?i _] =>
      set (cpu0 := mkRv32iCpu (config self) pc regs i n (State_FetchIssue None) CsrFile.new M3State.new) end end.
  assert (Ha : arch_ok cpu0).
  { unfold arch_ok, target_ok. cbn [config pc regs next_txn csrs m3 cpu0].
    repeat match goal with |- _ /\ _ => split end; auto; apply csr_file_new_ok || apply m3_new_ok. }
  eapply yields_bind; [apply (read_state_accepts self cpu0 Ha eq_refl Hp) |]. cbn beta. intros s Hs.
  eapply yields_bind; [apply count_accepted; assumption |]. intros u Hc.
  eapply (yields_bind _ _ (fun c => CsrFile.ok c /\ (profile (config self) = M1 -> c = CsrFile.new))).
  { destruct (profile (config self)); [apply yields_ret; auto using csr_file_new_ok |..];
      (eapply yields_mono; [|apply yields_csrs]); intros c Hok; (split; [exact Hok | discriminate]). }
  intros c [Hcs Hc1]. apply yields_ret. split; [|reflexivity]. split; [|split].
  - destruct Ha as (? & ? & ? & ? & _ & Hm & _). unfold arch_ok.
    repeat match goal with |- _ /\ _ => split end; try assumption; cbn; rewrite ?Hm3;
      auto using m3_new_ok.
  - rewrite Hm3. exact Hs.
  - apply Hc; reflexivity.
Qed.

(** C29: restore accepts only states the CPU can be in.  Whatever bytes it is given, under
    whatever schema number, if [restore] succeeds then the CPU it builds keeps the
    configuration and satisfies the whole invariant: aligned [pc], [mtvec], [mepc],
    [stvec] and [sepc], legal [satp], [medeleg], [MPP] and [SPP], a pending outcome its own
    instruction could have produced, a physical address exactly when translation is on,
    the outstanding [TxnId] the last one issued, [instret] within the limit. *)
Theorem restore_invariant self schema bs rest cpu :
  cpu_ok self -> bytes_ok bs -> restore self schema bs = (rest, Ok cpu) ->
  cpu_ok cpu /\ config cpu = config self.
Proof.
  intros Hself Hbs E. apply (wp_use _ _ _ _ _ _ (restore_accepts self schema Hself bs Hbs)) in E.
  apply E.
Qed.
End accepted.

(** ** Witnesses, with the little-endian codec *)

Definition example_reset (p : Rv32iProfile) : Rv32iCpu :=
  mkRv32iCpu (example_config p) 0x80000000 RegisterFile.new 0 0 (State_FetchIssue None) CsrFile.new M3State.new.

Lemma example_reset_ok p : cpu_ok (example_reset p).
Proof. destruct p; apply (bool_decide_unpack _); vm_compute; exact I. Qed.

Lemma snapshot_restore_witness :
  @restore le_codec (example_reset M3) 3 (@snapshot le_codec example_ecall ++ [0xAA]) = ([0xAA], Ok example_ecall).
Proof.
  apply (@snapshot_restore le_codec (example_reset M3) example_ecall [0xAA]);
    [apply example_ecall_ok | apply example_reset_ok | reflexivity].
Defined.

Lemma example_bytes_ok : bytes_ok (@snapshot le_codec example_ecall).
Proof. apply (bool_decide_unpack _). vm_compute. exact I. Qed.

Lemma example_restored :
  @restore le_codec (example_reset M3) 3 (@snapshot le_codec example_ecall) = ([], Ok example_ecall).
Proof.
  pose proof (@reads_restore le_codec (example_reset M3) example_ecall example_ecall_ok
    (example_reset_ok M3) eq_refl []) as Hr.
  rewrite app_nil_r in Hr. exact Hr.
Qed.

Lemma restore_invariant_witness : cpu_ok example_ecall.
Proof.
  exact (proj1 (@restore_invariant le_codec (example_reset M3) 3 (@snapshot le_codec example_ecall) []
    example_ecall (example_reset_ok M3) example_bytes_ok example_restored)).
Defined.
