(* ===== verification/Platform.v ===== *)
(** What the platform devices of [components/platform/src] share: the response latency and
    its place in their snapshots, and the ordered maps ([BTreeMap]) they snapshot in
    ascending key order and restore with a check of that order. *)
From stdpp Require Import base numbers list option strings gmap sorting.
From Stdlib Require Import ZArith Lia.
From S2P Require Import Prelude Contracts Snapshots.

Local Open Scope string_scope.
Local Open Scope list_scope.
Local Open Scope Z_scope.

(** * Latencies *)

(** When a response is sent. *)
Definition delay (l : LinkLatency) : ScheduleWhen :=
  match l with
  | Latency_After d => When_After d
  | Latency_Cycles domain k => When_Cycles domain k
  end.

Section latency.
Context `{SnapshotCodec}.

Local Abbreviation R := (ST (list Z) RestoreError).

Definition put_latency (l : LinkLatency) : list Z :=
  match l with
  | Latency_After d => put_u8 0 ++ put_u128 d
  | Latency_Cycles domain k => put_u8 1 ++ put_u32 domain ++ put_u64 k
  end.

(** [if r.raw(expected.len())? != expected { return Err(InvalidState(what)) }]. *)
Definition expect_raw (expected : list Z) (what : string) : R unit :=
  raw ← rd (get_raw (length expected)); check (bool_decide (raw = expected)) what.

Lemma reads_expect_raw bs what : reads (expect_raw bs what) bs tt.
Proof. eapply reads_last; [apply reads_raw | apply reads_check, bool_decide_eq_true_2; reflexivity]. Qed.

Lemma yields_expect_raw bs what : yields (expect_raw bs what) (fun _ => True).
Proof. eapply yields_bind; [apply yields_raw |]. intros raw _. eapply yields_mono; [|apply yields_check]. auto. Qed.

End latency.

#[export] Hint Resolve reads_expect_raw : reads.
#[export] Hint Resolve yields_expect_raw : yields.

(** * Zeros *)

Definition all_zero (bs : list Z) : bool := forallb (fun b => b =? 0) bs.

Lemma all_zero_spec bs : all_zero bs = true <-> forall i, nth i bs 0 = 0.
Proof.
  unfold all_zero. rewrite forallb_forall. split.
  - intros H i. destruct (nth_in_or_default i bs 0) as [Hi| ->]; [|reflexivity]. apply Z.eqb_eq, H, Hi.
  - intros H x (i & _ & <-)%(In_nth _ _ 0). apply Z.eqb_eq, H.
Qed.

Lemma some_non_zero bs : existsb (fun b => negb (b =? 0)) bs = negb (all_zero bs).
Proof.
  unfold all_zero. induction bs as [|b bs IH]; [reflexivity |]. cbn. rewrite IH.
  destruct (b =? 0); reflexivity.
Qed.

Lemma all_zero_false bs : all_zero bs = false -> exists i, nth i bs 0 <> 0.
Proof.
  induction bs as [|b bs IH]; [discriminate |]. unfold all_zero. cbn.
  destruct (Z.eqb_spec b 0); [|exists O; assumption]. intros (i & Hi)%IH. exists (S i). exact Hi.
Qed.

(** * Ordered maps *)

Section ordered.
Context {A : Type}.

(** The entries of a [BTreeMap<_, A>], in the order it iterates over them. *)
Definition entries (m : gmap Z A) : list (Z * A) :=
  sort_by (fun a b => fst a <=? fst b) (map_to_list m).

Lemma entries_perm m : entries m ≡ₚ map_to_list m.
Proof. apply sort_by_perm. Qed.

Lemma entries_map m : list_to_map (entries m) = m.
Proof.
  rewrite (list_to_map_proper (entries m) (map_to_list m)).
  - apply list_to_map_to_list.
  - rewrite entries_perm. apply NoDup_fst_map_to_list.
  - apply entries_perm.
Qed.

Lemma elem_of_entries m k v : (k, v) ∈ entries m <-> m !! k = Some v.
Proof. rewrite entries_perm. apply elem_of_map_to_list. Qed.

Lemma length_entries m : length (entries m) = size m.
Proof. rewrite entries_perm. apply length_map_to_list. Qed.

Lemma entries_ascending m : StronglySorted Z.lt (fst <$> entries m).
Proof.
  assert (Hn : NoDup (fst <$> entries m)) by (rewrite entries_perm; apply NoDup_fst_map_to_list).
  assert (Hs : StronglySorted (fun a b : Z * A => (fst a <=? fst b) = true) (entries m)).
  { apply sort_by_sorted.
    - intros a b H%Z.leb_gt. apply Z.leb_le. lia.
    - intros a b c H1%Z.leb_le H2%Z.leb_le. apply Z.leb_le. lia. }
  induction Hs as [|x l _ IH Hx]; [constructor |]. cbn in *. apply NoDup_cons in Hn as [Hx' Hn].
  constructor; [auto |]. apply Forall_fmap. apply Forall_forall. intros y Hy.
  rewrite Forall_forall in Hx. specialize (Hx y Hy). cbn in *. apply Z.leb_le in Hx.
  assert (fst x <> fst y) by (intros E; apply Hx'; rewrite E; apply list_elem_of_fmap; eauto). lia.
Qed.

(** A map with keys in [0, n) has at most [n] entries. *)
Lemma size_bound (m : gmap Z A) n :
  0 <= n -> (forall k v, m !! k = Some v -> 0 <= k < n) -> Z.of_nat (size m) <= n.
Proof.
  intros Hn Hk. rewrite <- size_dom.
  assert (Hs : dom m ⊆ list_to_set (C := gset Z) (seqZ 0 n)).
  { intros k Hd. apply elem_of_dom in Hd as [v Hv]. apply elem_of_list_to_set, elem_of_seqZ.
    specialize (Hk k v Hv). lia. }
  apply subseteq_size in Hs. rewrite size_list_to_set, length_seqZ in Hs by apply NoDup_seqZ. lia.
Qed.
End ordered.

Section ascending.
Context `{SnapshotCodec}.
Context {A : Type} (key : ST (list Z) RestoreError Z) (out_of_order : string)
  (value : Z -> ST (list Z) RestoreError A).

Local Abbreviation R := (ST (list Z) RestoreError).

Definition after (previous : option Z) (k : Z) : bool :=
  match previous with Some p => negb (k <=? p) | None => true end.

(** [for _ in 0..n { let k = key; if previous.is_some_and(|p| k <= p) { .. }
    previous = Some(k); let v = value; map.insert(k, v) }], the loop of every restore that
    reads a [BTreeMap]. *)
Fixpoint read_ascending (n : nat) (previous : option Z) (m : gmap Z A) : R (gmap Z A) :=
  match n with
  | O => mret m
  | S n =>
      k ← key;
      check (after previous k) out_of_order;;
      v ← value k;
      read_ascending n (Some k) (<[k := v]> m)
  end.

Lemma reads_ascending (wk : Z -> list Z) (wv : A -> list Z) l : forall previous m,
  Forall (fun e => after previous (fst e) = true) l ->
  StronglySorted Z.lt (fst <$> l) ->
  Forall (fun e => reads key (wk (fst e)) (fst e) /\ reads (value (fst e)) (wv (snd e)) (snd e)) l ->
  reads (read_ascending (length l) previous m) (l ≫= fun e => wk (fst e) ++ wv (snd e))
    (list_to_map l ∪ m).
Proof.
  induction l as [|[k v] l IH]; intros previous m Hp Hs Hr; cbn [length read_ascending].
  - cbn. rewrite (left_id_L ∅ (∪)). apply reads_ret.
  - inversion Hp as [|? ? Hk Hp']; subst. rewrite fmap_cons in Hs. inversion Hs as [|? ? Hs' Hlt]; subst.
    inversion Hr as [|? ? [Hrk Hrv] Hr']; subst. cbn in Hk, Hrk, Hrv. cbn [fst] in Hlt.
    change (((k, v) :: l) ≫= ?f) with (f (k, v) ++ (l ≫= f)). cbn [fst snd]. rewrite <- app_assoc.
    eapply reads_bind; [exact Hrk |]. eapply reads_then; [apply reads_check, Hk |].
    eapply reads_bind; [exact Hrv |].
    replace (list_to_map ((k, v) :: l) ∪ m) with (list_to_map l ∪ <[k := v]> m).
    + apply IH; [|exact Hs' | exact Hr'].
      rewrite Forall_fmap in Hlt. eapply Forall_impl; [exact Hlt |]. intros e He. cbn in *.
      apply negb_true_iff, Z.leb_gt, He.
    + cbn. rewrite <- insert_union_l. symmetry. apply insert_union_r.
      apply not_elem_of_list_to_map. intros Hin. rewrite Forall_forall in Hlt.
      specialize (Hlt k Hin). lia.
Qed.

Lemma reads_entries (wk : Z -> list Z) (wv : A -> list Z) (m : gmap Z A) :
  map_Forall (fun k v => reads key (wk k) k /\ reads (value k) (wv v) v) m ->
  reads (read_ascending (size m) None ∅) (entries m ≫= fun e => wk (fst e) ++ wv (snd e)) m.
Proof.
  intros Hm. rewrite <- length_entries.
  replace m with (list_to_map (entries m) ∪ (∅ : gmap Z A)) at 3
    by (rewrite (right_id_L ∅ (∪)); apply entries_map).
  apply reads_ascending.
  - apply Forall_forall. reflexivity.
  - apply entries_ascending.
  - apply Forall_forall. intros [k v] He%elem_of_entries. exact (Hm k v He).
Qed.

Lemma yields_ascending (P : Z -> Prop) (Q : Z -> A -> Prop) n :
  yields key P -> (forall k, P k -> yields (value k) (Q k)) ->
  forall previous m, map_Forall Q m -> yields (read_ascending n previous m) (map_Forall Q).
Proof.
  intros Hk Hv. induction n as [|n IH]; intros previous m Hm; cbn [read_ascending].
  - apply yields_ret, Hm.
  - eapply yields_bind; [exact Hk |]. intros k Hkp. eapply yields_bind; [apply yields_check |].
    intros _ _. eapply yields_bind; [apply Hv, Hkp |]. intros v Hq.
    apply IH, map_Forall_insert_2; assumption.
Qed.
End ascending.

(** * Searching *)

(** [iter().position(p)]. *)
Fixpoint position_by {A} (p : A -> bool) (l : list A) : option nat :=
  match l with
  | [] => None
  | x :: l => if p x then Some O else S <$> position_by p l
  end.

Lemma position_by_Some {A} (p : A -> bool) l i :
  position_by p l = Some i <->
  exists x, l !! i = Some x /\ p x = true /\ forall j y, (j < i)%nat -> l !! j = Some y -> p y = false.
Proof.
  revert i. induction l as [|x l IH]; intros i; cbn.
  - split; [discriminate | intros (x & E & _); rewrite lookup_nil in E; discriminate].
  - destruct (p x) eqn:Ep.
    + split.
      * intros [= <-]. exists x. split; [reflexivity |]. split; [exact Ep | intros; lia].
      * intros (y & Hi & Hy & Hlt). destruct i as [|i]; [reflexivity |].
        specialize (Hlt O x ltac:(lia) eq_refl). congruence.
    + split.
      * destruct (position_by p l) as [k|] eqn:E; cbn; [|discriminate]. intros [= <-].
        destruct (proj1 (IH k) eq_refl) as (y & Hk & Hy & Hlt). exists y. split; [exact Hk |].
        split; [exact Hy |]. intros [|j] z Hj Hz; cbn in Hz; [congruence |]. apply (Hlt j); [lia | exact Hz].
      * intros (y & Hi & Hy & Hlt). destruct i as [|i]; cbn in Hi; [congruence |].
        rewrite (proj2 (IH i)); [reflexivity |]. exists y. split; [exact Hi |]. split; [exact Hy |].
        intros j z Hj Hz. apply (Hlt (S j)); [lia | exact Hz].
Qed.

Lemma position_by_None {A} (p : A -> bool) l :
  position_by p l = None <-> Forall (fun x => p x = false) l.
Proof.
  induction l as [|x l IH]; cbn; [split; [constructor | reflexivity] |].
  destruct (p x) eqn:Ep; [split; [discriminate | intros H; inversion H; congruence] |].
  rewrite Forall_cons, <- IH. destruct (position_by p l); cbn; split; auto; [discriminate |].
  intros [_ E]. discriminate.
Qed.
