(* ===== verification/Ram.v ===== *)
(** The sparse RAM, [components/platform/src/ram.rs]: 4096-byte pages in an ordered map that
    holds no all-zero page, served over [mem.v1].

    [byte] reads the RAM as a flat memory, and the theorems are stated with it: the handler
    refines a flat byte memory of [size] bytes ([flat_access]); the map is determined by the
    contents, so equal contents give equal snapshots; a snapshot restores the RAM exactly,
    and whatever restore accepts is a RAM some contents have.  [load] and [store] are loops
    over pages whose fuel is the length of the access: each iteration covers at least one
    byte.  Their [None] is the panic of [page_index], which no access in range reaches. *)
From stdpp Require Import base numbers list option strings gmap sorting.
From Stdlib Require Import ZArith Lia.
From S2P Require Import Prelude Contracts Handlers Snapshots Platform.

Local Open Scope string_scope.
Local Open Scope list_scope.
Local Open Scope Z_scope.

Definition PORT : Z := 0.
Definition PAGE : Z := 4096.
Definition PAGE_SIZE : nat := Z.to_nat PAGE.
Definition MAX_SIZE : Z := Z.shiftl 1 32.
Definition SNAPSHOT_SCHEMA : Z := 1.

(** A [Box<[u8; PAGE_SIZE]>]; [page_ok] below keeps the length. *)
Abbreviation Page := (list Z).

Record RamConfig : Set := mkRamConfig { size : Z; latency : LinkLatency }.

Record Segment : Set := mkSegment { offset : Z; bytes : list Z }.

Record RamImage : Set := mkRamImage { img_hash : list Z; segments : list Segment }.

Inductive RamConfigError : Set :=
| ZeroSize
| TooLarge (size : Z)
| SegmentOutOfRange (i : nat)
| SegmentsOverlap (a b : nat).

Record Ram : Set := mkRam { config : RamConfig; image_hash : list Z; pages : gmap Z Page }.

Definition set_pages (p : gmap Z Page) (ram : Ram) : Ram := mkRam (config ram) (image_hash ram) p.

(** * Pages *)

(** [u32::try_from(offset / PAGE).expect(..)]. *)
Definition page_index (offset : Z) : option Z :=
  let index := offset / PAGE in
  if index <? 2 ^ 32 then Some index else None.

(** [data[at..at + n].copy_from_slice(chunk)], [n] the length of [chunk]. *)
Definition splice (at_ : nat) (chunk data : list Z) : list Z :=
  take at_ data ++ chunk ++ drop (at_ + length chunk) data.

Definition zero_page : Page := replicate PAGE_SIZE 0.

(** The page's part of one iteration of [load] and [store]: where it starts in its page,
    and how many bytes it covers. *)
Definition chunk_start (at_ : Z) : nat := Z.to_nat (at_ mod PAGE).
Definition chunk_len (start len done : nat) : nat := Nat.min (PAGE_SIZE - start) (len - done).

Fixpoint load_loop (fuel : nat) (ram : Ram) (offset : Z) (len done : nat) (data : list Z) :
    option (list Z) :=
  if negb (done <? len)%nat then Some data
  else
    match fuel with
    | O => None
    | S fuel =>
        let at_ := offset + Z.of_nat done in
        let start := chunk_start at_ in
        let n := chunk_len start len done in
        index ← page_index at_;
        let data := match pages ram !! index with
                    | Some page => splice done (take n (drop start page)) data
                    | None => data
                    end in
        load_loop fuel ram offset len (done + n) data
    end.

Definition load (ram : Ram) (offset : Z) (len : nat) : option (list Z) :=
  load_loop len ram offset len 0 (replicate len 0).

(** The [match self.pages.entry(..)] of [store]. *)
Definition store_page (pages : gmap Z Page) (index : Z) (start : nat) (chunk : list Z) :
    gmap Z Page :=
  match pages !! index with
  | Some page =>
      let page := splice start chunk page in
      if all_zero page then delete index pages else <[index := page]> pages
  | None =>
      if existsb (fun b => negb (b =? 0)) chunk
      then <[index := splice start chunk zero_page]> pages else pages
  end.

Fixpoint store_loop (fuel : nat) (pages : gmap Z Page) (offset : Z) (data : list Z) (done : nat) :
    option (gmap Z Page) :=
  if negb (done <? length data)%nat then Some pages
  else
    match fuel with
    | O => None
    | S fuel =>
        let at_ := offset + Z.of_nat done in
        let start := chunk_start at_ in
        let n := chunk_len start (length data) done in
        let chunk := take n (drop done data) in
        index ← page_index at_;
        store_loop fuel (store_page pages index start chunk) offset data (done + n)
    end.

Definition store (ram : Ram) (offset : Z) (data : list Z) : option Ram :=
  pages ← store_loop (length data) (pages ram) offset data 0; Some (set_pages pages ram).

(** * Construction *)

(** Half-open, in bounds, of a non-empty segment; its index last. *)
Definition Span : Set := Z * Z * nat.

Fixpoint spans_of (cfg : RamConfig) (i : nat) (segs : list Segment) :
    result RamConfigError (list Span) :=
  match segs with
  | [] => Ok []
  | s :: segs =>
      end_ ← ok_or (e ← checked_add 64 (offset s) (Z.of_nat (length (bytes s)));
                    if e <=? size cfg then Some e else None)
               (SegmentOutOfRange i);
      rest ← spans_of cfg (S i) segs;
      Ok (if offset s <? end_ then (offset s, end_, i) :: rest else rest)
  end.

(** The order of tuples. *)
Definition span_leb (x y : Span) : bool :=
  let '(s, e, i) := x in
  let '(s', e', i') := y in
  (s <? s') || ((s =? s') && ((e <? e') || ((e =? e') && (i <=? i')%nat))).

(** [for pair in spans.windows(2)]. *)
Fixpoint first_overlap (l : list Span) : option (nat * nat) :=
  match l with
  | [] => None
  | (_, end_, a) :: tl =>
      match tl with
      | (start, _, b) :: _ =>
          if start <? end_ then Some (Nat.min a b, Nat.max a b) else first_overlap tl
      | [] => None
      end
  end.

Fixpoint store_all (ram : Ram) (segs : list Segment) : option Ram :=
  match segs with
  | [] => Some ram
  | s :: segs => ram ← store ram (offset s) (bytes s); store_all ram segs
  end.

(** [None] is a panic. *)
Definition new (cfg : RamConfig) (image : RamImage) : option (result RamConfigError Ram) :=
  if size cfg =? 0 then Some (Err ZeroSize)
  else if MAX_SIZE <? size cfg then Some (Err (TooLarge (size cfg)))
  else
    match spans_of cfg 0 (segments image) with
    | Err e => Some (Err e)
    | Ok spans =>
        match first_overlap (sort_by span_leb spans) with
        | Some (a, b) => Some (Err (SegmentsOverlap a b))
        | None => Ok <$> store_all (mkRam cfg (img_hash image) ∅) (segments image)
        end
    end.

(** * Requests *)

Section handlers.
Context {C : Type} `{SimContext C, MemClassify}.

Local Abbreviation M := (ST (Ram * C) Failure).

(** The response to a request, after [in_range]. *)
Definition respond (msg : MemMsg) (in_range : bool) : M MemMsg :=
  ram ← self;
  match msg with
  | ReadReq txn addr len =>
      if in_range then
        match load ram addr (Z.to_nat len) with
        | Some data => mret (ReadResp txn (ReadOutcome_Data data))
        | None => panic "offsets are below MAX_SIZE"
        end
      else mret (ReadResp txn (ReadOutcome_Fault AccessFault))
  | WriteReq txn addr data =>
      if in_range then
        match store ram addr data with
        | Some ram => update (fun _ => ram);; mret (WriteResp txn WriteOutcome_Done)
        | None => panic "offsets are below MAX_SIZE"
        end
      else mret (WriteResp txn (WriteOutcome_Fault AccessFault))
  | ReadResp _ _ | WriteResp _ _ => fault "ram: response on the target port"
  end.

Definition handle_event (ev : Delivered) : M unit :=
  match ev with
  | Delivered_Message _ (Message_MemV1 msg) =>
      ram ← self;
      in_range ←
        match access msg with
        | None => fault "ram: response on the target port"
        | Some Empty => fault "ram: zero-length request"
        | Some AccessOutOfRange => mret false
        | Some (Bytes _ last) => mret (last <? size (config ram))
        end;
      resp ← respond msg in_range;
      call (ctx_send PORT (Message_MemV1 resp) (delay (latency (config ram))) Phase_Complete)
  | _ => fault "ram: unexpected delivery"
  end.
End handlers.

(** * Snapshots *)

Section snapshot.
Context `{SnapshotCodec}.

Local Abbreviation R := (ST (list Z) RestoreError).

Definition write_latency (ram : Ram) : list Z := put_latency (latency (config ram)).

(** [w.raw] writes the bytes as they are. *)
Definition write_config (ram : Ram) : list Z :=
  put_u64 (size (config ram)) ++ image_hash ram ++ write_latency ram.

Definition snapshot (ram : Ram) : list Z :=
  write_config ram ++ put_len (Z.of_nat (base.size (pages ram))) ++
  (entries (pages ram) ≫= fun e => put_u32 (fst e) ++ put_bytes (snd e)).

(** The body of the loop of [restore], after the order check. *)
Definition read_page (ram : Ram) (index : Z) : R Page :=
  let start := index * PAGE in
  check (negb (size (config ram) <=? start)) "ram: page past the end";;
  bytes ← rd get_bytes;
  check (length bytes =? PAGE_SIZE)%nat "ram: page is not 4096 bytes";;
  check (negb (all_zero bytes)) "ram: all-zero page";;
  let valid := Z.to_nat (Z.min (size (config ram) - start) PAGE) in
  check (negb (existsb (fun b => negb (b =? 0)) (drop valid bytes)))
    "ram: non-zero bytes past the end";;
  mret bytes.

Definition restore (ram : Ram) : R Ram :=
  size_ ← rd get_u64;
  check (size_ =? size (config ram)) "ram: snapshot has a different size";;
  hash ← rd (get_raw 32);
  check (bool_decide (hash = image_hash ram)) "ram: snapshot has a different image hash";;
  expect_raw (write_latency ram) "ram: snapshot has a different latency";;
  n ← rd get_len;
  pages ← read_ascending (rd get_u32) "ram: pages out of order or duplicated" (read_page ram)
            (Z.to_nat n) None ∅;
  mret (set_pages pages ram).
End snapshot.

(** * The RAM as a flat memory *)

(** The byte [j] of page [k]. *)
Definition page_byte (pages : gmap Z Page) (k : Z) (j : nat) : Z :=
  match pages !! k with Some p => nth j p 0 | None => 0 end.

Definition byte_at (pages : gmap Z Page) (a : Z) : Z :=
  page_byte pages (a / PAGE) (Z.to_nat (a mod PAGE)).

Definition byte (ram : Ram) (a : Z) : Z := byte_at (pages ram) a.

(** A page of the map: 4096 bytes, at least one of them non-zero. *)
Definition page_ok (k : Z) (p : Page) : Prop :=
  0 <= k /\ length p = PAGE_SIZE /\ bytes_ok p /\ all_zero p = false.

Definition ram_ok (ram : Ram) : Prop :=
  0 < size (config ram) <= 2 ^ 32 /\
  latency_ok (latency (config ram)) /\
  (bytes_ok (image_hash ram) /\ length (image_hash ram) = 32%nat) /\
  map_Forall page_ok (pages ram) /\
  (forall a, size (config ram) <= a -> byte ram a = 0).

Lemma page_size_val : Z.of_nat PAGE_SIZE = PAGE.
Proof. reflexivity. Qed.

#[global] Opaque PAGE_SIZE.

Lemma length_splice at_ chunk data :
  (at_ + length chunk <= length data)%nat -> length (splice at_ chunk data) = length data.
Proof. intros. unfold splice. rewrite !length_app, length_take, length_drop. lia. Qed.

Lemma nth_splice at_ chunk data i :
  (at_ + length chunk <= length data)%nat ->
  nth i (splice at_ chunk data) 0 =
  if ((at_ <=? i) && (i <? at_ + length chunk))%nat then nth (i - at_) chunk 0 else nth i data 0.
Proof.
  intros Hl. unfold splice.
  assert (Ht : length (take at_ data) = at_) by (rewrite length_take; lia).
  destruct (Nat.leb_spec at_ i); cbn [andb].
  - rewrite app_nth2, Ht by lia. destruct (Nat.ltb_spec i (at_ + length chunk)).
    + apply app_nth1. lia.
    + rewrite app_nth2 by lia. rewrite !nth_lookup, lookup_drop. do 2 f_equal. lia.
  - rewrite app_nth1 by lia. rewrite !nth_lookup, lookup_take_lt by lia. reflexivity.
Qed.

Lemma splice_ok at_ chunk data : bytes_ok chunk -> bytes_ok data -> bytes_ok (splice at_ chunk data).
Proof. intros. apply Forall_app; split; [apply Forall_take | apply Forall_app; split; [|apply Forall_drop]]; assumption. Qed.

Lemma nth_zero_page i : nth i zero_page 0 = 0.
Proof.
  unfold zero_page. destruct (Nat.lt_ge_cases i PAGE_SIZE).
  - rewrite nth_lookup, lookup_replicate_2 by assumption. reflexivity.
  - apply nth_overflow. rewrite length_replicate. assumption.
Qed.

Lemma length_zero_page : length zero_page = PAGE_SIZE.
Proof. apply length_replicate. Qed.

(** Addresses of one chunk are in one page, at consecutive places. *)
Lemma chunk_address at_ j :
  0 <= at_ -> (chunk_start at_ + j < PAGE_SIZE)%nat ->
  (at_ + Z.of_nat j) / PAGE = at_ / PAGE /\
  Z.to_nat ((at_ + Z.of_nat j) mod PAGE) = (chunk_start at_ + j)%nat.
Proof.
  intros Ha Hj. unfold chunk_start in *. pose proof page_size_val. unfold PAGE in *.
  assert (Z.of_nat (Z.to_nat (at_ mod 4096)) = at_ mod 4096) by (apply Z2Nat.id; word_lia).
  assert (E : (at_ + Z.of_nat j) / 4096 = at_ / 4096) by (Z.div_mod_to_equations; lia).
  split; [exact E |]. apply Nat2Z.inj. rewrite Z2Nat.id, Nat2Z.inj_add by word_lia.
  revert E. Z.div_mod_to_equations. lia.
Qed.

Lemma chunk_start_lt at_ : (chunk_start at_ < PAGE_SIZE)%nat.
Proof. unfold chunk_start. pose proof page_size_val. unfold PAGE in *. apply Nat2Z.inj_lt. rewrite Z2Nat.id; word_lia. Qed.

Lemma chunk_len_bounds at_ len done :
  (done < len)%nat ->
  (0 < chunk_len (chunk_start at_) len done)%nat /\
  (chunk_start at_ + chunk_len (chunk_start at_) len done <= PAGE_SIZE)%nat /\
  (done + chunk_len (chunk_start at_) len done <= len)%nat.
Proof. intros. pose proof (chunk_start_lt at_). unfold chunk_len. lia. Qed.

Lemma page_index_in_range a : 0 <= a < 2 ^ 32 -> page_index a = Some (a / PAGE).
Proof.
  intros Ha. unfold page_index, PAGE. destruct (Z.ltb_spec (a / 4096) (2 ^ 32)); [reflexivity |].
  exfalso. revert H. apply Z.lt_nge. apply Z.div_lt_upper_bound; lia.
Qed.

(** ** Loading *)

Lemma load_loop_spec ram offset len : forall fuel done data,
  map_Forall page_ok (pages ram) ->
  0 <= offset -> offset + Z.of_nat len <= 2 ^ 32 ->
  (len - done <= fuel)%nat -> length data = len ->
  (forall i, (i < done)%nat -> nth i data 0 = byte ram (offset + Z.of_nat i)) ->
  (forall i, (done <= i)%nat -> nth i data 0 = 0) ->
  exists out, load_loop fuel ram offset len done data = Some out /\ length out = len /\
    forall i, (i < len)%nat -> nth i out 0 = byte ram (offset + Z.of_nat i).
Proof.
  induction fuel as [|fuel IH]; intros done data Hp Ho Hl Hf Hd Hlow Hhigh; cbn [load_loop];
    destruct (Nat.ltb_spec done len); cbn [negb]; try lia.
  1, 3: exists data; split_and!; [reflexivity | assumption |]; intros; apply Hlow; lia.
  set (at_ := offset + Z.of_nat done) in *.
  destruct (chunk_len_bounds at_ len done) as (Hn0 & Hn1 & Hn2); [assumption |].
  set (n := chunk_len (chunk_start at_) len done) in *.
  rewrite page_index_in_range by lia. cbn.
  apply IH; try assumption; try lia.
  - destruct (pages ram !! (at_ / PAGE)) as [page|] eqn:E; [|assumption].
    rewrite length_splice; [assumption |]. rewrite length_take, length_drop. lia.
  - intros i Hi. destruct (Nat.lt_ge_cases i done).
    + rewrite <- Hlow by assumption. destruct (pages ram !! (at_ / PAGE)) as [page|] eqn:E; [|reflexivity].
      rewrite nth_splice by (rewrite length_take, length_drop; lia).
      destruct (Nat.leb_spec done i); [lia | reflexivity].
    + destruct (chunk_address at_ (i - done)) as [Ek Ej]; [lia | lia |].
      assert (Ea : at_ + Z.of_nat (i - done) = offset + Z.of_nat i) by lia. rewrite Ea in Ek, Ej.
      unfold byte, byte_at, page_byte. rewrite Ek, Ej.
      destruct (pages ram !! (at_ / PAGE)) as [page|] eqn:E; [|apply Hhigh; assumption].
      destruct (Hp _ _ E) as (_ & Hpl & _).
      assert (Hc : length (take n (drop (chunk_start at_) page)) = n) by (rewrite length_take, length_drop; lia).
      rewrite nth_splice, Hc by lia.
      destruct (Nat.leb_spec done i); [|lia]. destruct (Nat.ltb_spec i (done + n)); [|lia].
      cbn [andb]. rewrite !nth_lookup, lookup_take_lt, lookup_drop by lia. reflexivity.
  - intros i Hi. destruct (pages ram !! (at_ / PAGE)) as [page|] eqn:E; [|apply Hhigh; lia].
    destruct (Hp _ _ E) as (_ & Hpl & _).
    assert (Hc : length (take n (drop (chunk_start at_) page)) = n) by (rewrite length_take, length_drop; lia).
    rewrite nth_splice, Hc by lia. destruct (Nat.ltb_spec i (done + n)); [lia |].
    rewrite andb_false_r. apply Hhigh. lia.
Qed.

(** The [len] bytes of a flat memory at [a]. *)
Definition read_bytes (mem : Z -> Z) (a : Z) (len : nat) : list Z :=
  (fun i => mem (a + Z.of_nat i)) <$> seq 0 len.

Lemma nth_read_bytes mem a len i : (i < len)%nat -> nth i (read_bytes mem a len) 0 = mem (a + Z.of_nat i).
Proof.
  intros Hi. unfold read_bytes. rewrite nth_lookup, list_lookup_fmap, lookup_seq_lt by assumption. reflexivity.
Qed.

Lemma load_spec ram offset len :
  ram_ok ram -> 0 <= offset -> offset + Z.of_nat len <= size (config ram) ->
  load ram offset len = Some (read_bytes (byte ram) offset len).
Proof.
  intros (Hs & _ & _ & Hp & _) Ho Hl.
  destruct (load_loop_spec ram offset len len 0 (replicate len 0)) as (out & E & Hlen & Hout);
    try assumption; try lia.
  - apply length_replicate.
  - intros i _. destruct (Nat.lt_ge_cases i len).
    + rewrite nth_lookup, lookup_replicate_2 by assumption. reflexivity.
    + apply nth_overflow. rewrite length_replicate. assumption.
  - unfold load. rewrite E. f_equal. apply (nth_ext _ _ 0 0).
    + unfold read_bytes. rewrite length_fmap, length_seq. assumption.
    + intros i Hi. rewrite nth_read_bytes by lia. apply Hout. lia.
Qed.

(** ** Storing *)

Lemma store_page_byte pages index start chunk k j :
  map_Forall page_ok pages -> (start + length chunk <= PAGE_SIZE)%nat ->
  page_byte (store_page pages index start chunk) k j =
  if bool_decide (k = index) && ((start <=? j) && (j <? start + length chunk))%nat
  then nth (j - start) chunk 0 else page_byte pages k j.
Proof.
  intros Hp Hl. unfold page_byte, store_page.
  destruct (pages !! index) as [page|] eqn:E.
  - destruct (Hp _ _ E) as (_ & Hpl & _).
    assert (Hn := nth_splice start chunk page j ltac:(lia)).
    case_bool_decide as Hk; cbn [andb].
    + subst k. rewrite E, <- Hn. destruct (all_zero _) eqn:Ez.
      * rewrite lookup_delete_eq. symmetry. apply all_zero_spec, Ez.
      * rewrite lookup_insert_eq. reflexivity.
    + destruct (all_zero _); [rewrite lookup_delete_ne by congruence | rewrite lookup_insert_ne by congruence]; reflexivity.
  - assert (Hn := nth_splice start chunk zero_page j ltac:(rewrite length_zero_page; lia)).
    rewrite some_non_zero. destruct (all_zero chunk) eqn:Ez; cbn [negb].
    + case_bool_decide as Hk; cbn [andb]; [|reflexivity]. subst k. rewrite E.
      case_if; [|reflexivity]. symmetry. apply all_zero_spec, Ez.
    + case_bool_decide as Hk; cbn [andb].
      * subst k. rewrite E, lookup_insert_eq, Hn, nth_zero_page. reflexivity.
      * rewrite lookup_insert_ne by congruence. reflexivity.
Qed.

Lemma store_page_ok pages index start chunk :
  0 <= index -> map_Forall page_ok pages -> bytes_ok chunk ->
  (start + length chunk <= PAGE_SIZE)%nat ->
  map_Forall page_ok (store_page pages index start chunk).
Proof.
  intros Hi Hp Hc Hl. unfold store_page. destruct (pages !! index) as [page|] eqn:E.
  - destruct (Hp _ _ E) as (_ & Hpl & Hpb & _). destruct (all_zero _) eqn:Ez.
    + apply map_Forall_delete, Hp.
    + apply map_Forall_insert_2; [|exact Hp]. split_and!; [exact Hi | | | exact Ez].
      * rewrite length_splice; lia.
      * apply splice_ok; assumption.
  - rewrite some_non_zero. destruct (all_zero chunk) eqn:Ez; cbn [negb]; [exact Hp |].
    apply map_Forall_insert_2; [|exact Hp]. split_and!; [exact Hi | | |].
    + rewrite length_splice; rewrite length_zero_page; lia.
    + apply splice_ok; [exact Hc |]. apply Forall_replicate. unfold in_u. lia.
    + apply all_zero_false in Ez as (i & Hi'). apply not_true_iff_false.
      intros Hz. rewrite all_zero_spec in Hz. specialize (Hz (start + i)%nat).
      rewrite nth_splice in Hz by (rewrite length_zero_page; lia).
      assert (i < length chunk)%nat by (apply Nat.nle_gt; intros ?; apply Hi', nth_overflow; assumption).
      destruct (Nat.leb_spec start (start + i)); [|lia].
      destruct (Nat.ltb_spec (start + i) (start + length chunk)); [|lia].
      cbn [andb] in Hz. rewrite Nat.add_comm, Nat.add_sub in Hz. auto.
Qed.

(** A flat memory after a write. *)
Definition write_bytes (mem : Z -> Z) (a : Z) (data : list Z) (b : Z) : Z :=
  if (a <=? b) && (b <? a + Z.of_nat (length data)) then nth (Z.to_nat (b - a)) data 0 else mem b.

Lemma chunk_byte pages offset data done a :
  map_Forall page_ok pages -> 0 <= offset -> (done < length data)%nat ->
  let at_ := offset + Z.of_nat done in
  let n := chunk_len (chunk_start at_) (length data) done in
  let chunk := take n (drop done data) in
  byte_at (store_page pages (at_ / PAGE) (chunk_start at_) chunk) a =
  write_bytes (byte_at pages) at_ chunk a.
Proof.
  intros Hp Ho Hd at_ n chunk.
  destruct (chunk_len_bounds at_ (length data) done) as (Hn0 & Hn1 & Hn2); [assumption |].
  assert (Hc : length chunk = n) by (subst chunk; rewrite length_take, length_drop; lia).
  unfold byte_at at 1. rewrite store_page_byte, Hc by (assumption || lia). unfold write_bytes. rewrite Hc.
  destruct (Z.leb_spec at_ a), (Z.ltb_spec a (at_ + Z.of_nat n)); cbn [andb].
  - destruct (chunk_address at_ (Z.to_nat (a - at_))) as [Ek Ej]; [lia | subst n; lia |].
    rewrite Z2Nat.id, Zplus_minus in Ek, Ej by lia. rewrite Ek, Ej.
    rewrite bool_decide_eq_true_2 by reflexivity. rewrite (proj2 (Nat.leb_le _ _)) by lia.
    rewrite (proj2 (Nat.ltb_lt _ _)) by (subst n; lia). cbn [andb]. f_equal. lia.
  - rewrite (proj2 (andb_false_iff _ _)); [reflexivity |].
    case_bool_decide as Ek; [right | left; reflexivity]. apply not_true_iff_false. intros Hb.
    apply andb_true_iff in Hb as [Hb1%Nat.leb_le Hb2%Nat.ltb_lt].
    destruct (chunk_address at_ 0) as [_ Ej]; [lia | lia |]. rewrite Z.add_0_r, Nat.add_0_r in Ej.
    revert Ek Ej Hb1 Hb2. pose proof page_size_val. unfold PAGE in *. subst n.
    Z.div_mod_to_equations. lia.
  - rewrite (proj2 (andb_false_iff _ _)); [reflexivity |].
    case_bool_decide as Ek; [right | left; reflexivity]. apply not_true_iff_false. intros Hb.
    apply andb_true_iff in Hb as [Hb1%Nat.leb_le Hb2%Nat.ltb_lt].
    unfold chunk_start in Hb1. revert Ek Hb1. unfold PAGE. Z.div_mod_to_equations. lia.
  - lia.
Qed.

Lemma store_loop_spec offset data : forall fuel done pages,
  bytes_ok data -> map_Forall page_ok pages ->
  0 <= offset -> offset + Z.of_nat (length data) <= 2 ^ 32 ->
  (length data - done <= fuel)%nat -> (done <= length data)%nat ->
  exists pages', store_loop fuel pages offset data done = Some pages' /\
    map_Forall page_ok pages' /\
    forall a, byte_at pages' a =
      write_bytes (byte_at pages) (offset + Z.of_nat done) (drop done data) a.
Proof.
  intros fuel done pages Hdat. revert done pages.
  induction fuel as [|fuel IH]; intros done pages Hp Ho Hl Hf Hd; cbn [store_loop];
    destruct (Nat.ltb_spec done (length data)); cbn [negb]; try lia.
  1, 3: exists pages; split_and!; [reflexivity | assumption |]; intros a; unfold write_bytes;
    rewrite drop_ge by lia; cbn [length]; destruct (Z.leb_spec (offset + Z.of_nat done) a); cbn [andb];
    [rewrite (proj2 (Z.ltb_ge _ _)) by lia |]; reflexivity.
  pose proof (chunk_byte pages offset data done) as Hb. cbn zeta in Hb.
  set (at_ := offset + Z.of_nat done) in *.
  destruct (chunk_len_bounds at_ (length data) done) as (Hn0 & Hn1 & Hn2); [assumption |].
  set (n := chunk_len (chunk_start at_) (length data) done) in *.
  set (chunk := take n (drop done data)) in *.
  assert (Hc : length chunk = n) by (subst chunk; rewrite length_take, length_drop; lia).
  rewrite page_index_in_range by lia. cbn.
  destruct (IH (done + n)%nat (store_page pages (at_ / PAGE) (chunk_start at_) chunk))
    as (pages' & E & Hp' & Hb'); try lia.
  { apply store_page_ok; [unfold PAGE; Z.div_mod_to_equations; lia | assumption | | lia].
    apply Forall_take, Forall_drop, Hdat. }
  exists pages'. split_and!; [exact E | exact Hp' |]. intros a. rewrite Hb'. unfold write_bytes at 1.
  rewrite Hb by assumption. unfold write_bytes. rewrite Hc, !length_drop.
  destruct (Z.leb_spec (offset + Z.of_nat (done + n)) a), (Z.leb_spec at_ a); try lia; cbn [andb].
  - destruct (Z.ltb_spec a (offset + Z.of_nat (done + n) + Z.of_nat (length data - (done + n)))).
    + rewrite (proj2 (Z.ltb_lt _ _)) by lia. rewrite !nth_lookup, !lookup_drop. do 2 f_equal. lia.
    + rewrite !(proj2 (Z.ltb_ge _ _)) by lia. reflexivity.
  - rewrite !(proj2 (Z.ltb_lt _ _)) by lia. subst chunk.
    rewrite !nth_lookup, lookup_take_lt, !lookup_drop by lia. reflexivity.
  - reflexivity.
Qed.

Lemma store_spec ram offset data :
  ram_ok ram -> bytes_ok data -> 0 <= offset ->
  offset + Z.of_nat (length data) <= size (config ram) ->
  exists ram', store ram offset data = Some ram' /\ ram_ok ram' /\
    (config ram', image_hash ram') = (config ram, image_hash ram) /\
    forall a, byte ram' a = write_bytes (byte ram) offset data a.
Proof.
  intros (Hs & Hlat & Hh & Hp & Hz) Hd Ho Hl.
  destruct (store_loop_spec offset data (length data) 0 (pages ram)) as (pages' & E & Hp' & Hb);
    try assumption; try lia.
  rewrite Z.add_0_r, drop_0 in Hb.
  exists (set_pages pages' ram). unfold store. rewrite E. split_and!; try reflexivity; [|exact Hb].
  split_and!; try assumption; try apply Hs; try apply Hh.
  intros a Ha. change (byte _ a) with (byte_at pages' a). rewrite Hb. unfold write_bytes.
  cbn in Ha. rewrite (proj2 (Z.ltb_ge _ _)), andb_false_r by lia. apply Hz, Ha.
Qed.

(** ** Serving a request *)

(** A flat memory of [size] bytes that answers a [mem.v1] request: the memory after it and
    the response, or nothing for what is no request ([docs/m1-design.md] §7.2). *)
Definition flat_access (size : Z) (mem : Z -> Z) (msg : MemMsg) : option ((Z -> Z) * MemMsg) :=
  match msg with
  | ReadReq txn a len =>
      if len =? 0 then None
      else if a + len <=? size
      then Some (mem, ReadResp txn (ReadOutcome_Data (read_bytes mem a (Z.to_nat len))))
      else Some (mem, ReadResp txn (ReadOutcome_Fault AccessFault))
  | WriteReq txn a data =>
      if Z.of_nat (length data) =? 0 then None
      else if a + Z.of_nat (length data) <=? size
      then Some (write_bytes mem a data, WriteResp txn WriteOutcome_Done)
      else Some (mem, WriteResp txn (WriteOutcome_Fault AccessFault))
  | ReadResp _ _ | WriteResp _ _ => None
  end.

Section serving.
Context {C : Type} `{SimContext C, MemClassify}.

(** The range check of [handle_event] on a classified request. *)
Lemma classified_range size addr len :
  size <= 2 ^ 32 -> 0 < len ->
  match classify_doc addr len with
  | Bytes _ last => last <? size
  | _ => false
  end = (addr + len <=? size) /\ classify_doc addr len <> Empty.
Proof.
  intros Hs Hl. unfold classify_doc. destruct (Z.eqb_spec len 0); [lia |].
  destruct (Z.leb_spec (2 ^ 64) (addr + (len - 1))); (split; [|discriminate]).
  - symmetry. apply Z.leb_gt. lia.
  - destruct (Z.ltb_spec (addr + (len - 1)) size), (Z.leb_spec (addr + len) size); lia || reflexivity.
Qed.

Lemma handle_classified (ram : Ram) (ctx : C) port msg c :
  access msg = Some c -> c <> Empty ->
  handle_event (Delivered_Message port (Message_MemV1 msg)) (ram, ctx) =
  (resp ← respond msg match c with Bytes _ last => last <? size (config ram) | _ => false end;
   call (ctx_send PORT (Message_MemV1 resp) (delay (latency (config ram))) Phase_Complete)) (ram, ctx).
Proof.
  intros Hc He. cbn [handle_event]. rewrite ST_bind_unfold. cbn [self fst]. rewrite ST_bind_unfold, Hc.
  destruct c; [reflexivity.. | congruence].
Qed.

Lemma handle_refused (ram : Ram) (ctx : C) port msg :
  access msg = None \/ access msg = Some Empty ->
  exists what, handle_event (Delivered_Message port (Message_MemV1 msg)) (ram, ctx) =
    ((ram, ctx), Err (Fails (ComponentFault what))).
Proof.
  intros Hc. cbn [handle_event]. rewrite ST_bind_unfold. cbn [self fst]. rewrite ST_bind_unfold.
  destruct Hc as [-> | ->]; eexists; reflexivity.
Qed.

(** One message: if the flat memory
    answers, the RAM sends exactly that answer after its latency and its bytes are the flat
    memory's, its configuration unchanged and its invariant kept; if not (an empty request,
    a response), it faults the session and changes nothing.  It never panics. *)
Lemma ram_serves (ram : Ram) (ctx : C) port msg :
  ram_ok ram -> mem_msg_ok msg ->
  match flat_access (size (config ram)) (byte ram) msg with
  | None => exists what,
      handle_event (Delivered_Message port (Message_MemV1 msg)) (ram, ctx) =
      ((ram, ctx), Err (Fails (ComponentFault what)))
  | Some (mem, resp) => exists ram',
      ram_ok ram' /\ (forall a, byte ram' a = mem a) /\
      (config ram', image_hash ram') = (config ram, image_hash ram) /\
      handle_event (Delivered_Message port (Message_MemV1 msg)) (ram, ctx) =
      let '(ctx', r) :=
        ctx_send PORT (Message_MemV1 resp) (delay (latency (config ram))) Phase_Complete ctx in
      ((ram', ctx'), map_err Fails r)
  end.
Proof.
  intros Hok Hm. pose proof Hok as (Hs & _).
  destruct msg as [txn addr len|txn o|txn addr data|txn o]; cbn [flat_access] in *.
  - destruct Hm as (_ & Ha & Hl). destruct (Z.eqb_spec len 0) as [->|Hl0].
    { apply handle_refused. rewrite access_read. auto. }
    destruct (classified_range (size (config ram)) addr len) as [Hr He]; [lia | unfold in_u in *; lia |].
    rewrite (handle_classified ram ctx port _ _ (access_read txn addr len) He), Hr.
    destruct (Z.leb_spec (addr + len) (size (config ram))); exists ram;
      (split_and!; [exact Hok | reflexivity | reflexivity |]);
      rewrite ST_bind_unfold; unfold respond; rewrite ST_bind_unfold; cbn [self fst];
      rewrite ?load_spec by (assumption || (unfold in_u in *; lia)); reflexivity.
  - apply handle_refused. rewrite access_read_resp. auto.
  - destruct Hm as (_ & Ha & Hd). destruct (Z.eqb_spec (Z.of_nat (length data)) 0) as [Hl0|Hl0].
    { apply handle_refused. rewrite access_write, Hl0. auto. }
    destruct (classified_range (size (config ram)) addr (Z.of_nat (length data))) as [Hr He]; [lia | lia |].
    rewrite (handle_classified ram ctx port _ _ (access_write txn addr data) He), Hr.
    destruct (Z.leb_spec (addr + Z.of_nat (length data)) (size (config ram))) as [Hin|Hin].
    + destruct (store_spec ram addr data Hok Hd) as (ram' & E & Hok' & Hcfg & Hb); [apply Ha | exact Hin |].
      exists ram'. split_and!; [exact Hok' | exact Hb | exact Hcfg |].
      rewrite ST_bind_unfold. unfold respond. rewrite ST_bind_unfold. cbn [self fst].
      rewrite E. reflexivity.
    + exists ram. split_and!; [exact Hok | reflexivity | reflexivity | reflexivity].
  - apply handle_refused. rewrite access_write_resp. auto.
Qed.
End serving.

(** ** Runs *)

Section runs.
#[local] Existing Instance recording_context.
Context `{MemClassify}.

(** The messages a log sends. *)
Definition answers (log : list Effect) : list MemMsg :=
  omap (fun e => match e with Sent _ (Message_MemV1 m) _ _ => Some m | _ => None end) log.

(** The RAM and its answers over a sequence of messages, those it refuses included. *)
Fixpoint serve_all (ram : Ram) (msgs : list MemMsg) : Ram * list MemMsg :=
  match msgs with
  | [] => (ram, [])
  | m :: msgs =>
      let '((ram, ctx), _) :=
        handle_event (Delivered_Message PORT (Message_MemV1 m)) (ram, mkRecCtx Phase_Transfer []) in
      let '(ram, rest) := serve_all ram msgs in
      (ram, answers (rec_log ctx) ++ rest)
  end.

(** The same of the flat memory. *)
Fixpoint flat_all (size : Z) (mem : Z -> Z) (msgs : list MemMsg) : (Z -> Z) * list MemMsg :=
  match msgs with
  | [] => (mem, [])
  | m :: msgs =>
      match flat_access size mem m with
      | Some (mem, resp) => let '(mem, rest) := flat_all size mem msgs in (mem, resp :: rest)
      | None => flat_all size mem msgs
      end
  end.

Lemma flat_read_ext mem mem' a n : (forall b, mem b = mem' b) -> read_bytes mem a n = read_bytes mem' a n.
Proof. intros Hm. unfold read_bytes. apply list_fmap_ext. intros i k _. apply Hm. Qed.

Lemma write_bytes_ext mem mem' a data :
  (forall b, mem b = mem' b) -> forall b, write_bytes mem a data b = write_bytes mem' a data b.
Proof. intros Hm b. unfold write_bytes. case_if; auto. Qed.

Lemma flat_access_ext size mem mem' m :
  (forall b, mem b = mem' b) ->
  match flat_access size mem m, flat_access size mem' m with
  | Some (x, r), Some (x', r') => r = r' /\ forall b, x b = x' b
  | None, None => True
  | _, _ => False
  end.
Proof.
  intros Hm. destruct m as [txn a len|txn o|txn a data|txn o]; cbn [flat_access]; try exact I;
    repeat case_if; try exact I; (split; [|auto]); try reflexivity.
  - rewrite (flat_read_ext mem mem') by exact Hm. reflexivity.
  - apply write_bytes_ext, Hm.
Qed.

Lemma flat_all_ext size msgs : forall mem mem',
  (forall b, mem b = mem' b) ->
  snd (flat_all size mem msgs) = snd (flat_all size mem' msgs) /\
  forall b, fst (flat_all size mem msgs) b = fst (flat_all size mem' msgs) b.
Proof.
  induction msgs as [|m msgs IH]; intros mem mem' Hm; cbn [flat_all]; [auto |].
  pose proof (flat_access_ext size mem mem' m Hm) as Ha.
  destruct (flat_access size mem m) as [[x r]|], (flat_access size mem' m) as [[x' r']|]; try contradiction; [|auto].
  destruct Ha as [-> Hx]. destruct (IH x x' Hx) as [Hs Hf].
  destruct (flat_all size x msgs), (flat_all size x' msgs). cbn in *. rewrite Hs. auto.
Qed.

(** C32: the RAM refines a flat byte memory: over any sequence of [mem.v1] messages it sends
    exactly the answers a flat memory of its size gives, one per well-formed request, in
    order, and ends with exactly the flat memory's bytes; accesses past its size are answered
    with a fault and write nothing. *)
Theorem ram_refines_flat_memory (ram : Ram) msgs :
  ram_ok ram -> Forall mem_msg_ok msgs ->
  let '(ram', sent) := serve_all ram msgs in
  let '(mem, answered) := flat_all (size (config ram)) (byte ram) msgs in
  sent = answered /\ (forall a, byte ram' a = mem a) /\ ram_ok ram' /\ config ram' = config ram.
Proof.
  intros Hok Hms. revert ram Hok.
  induction Hms as [|m msgs Hm _ IH]; intros ram Hok; cbn [serve_all flat_all]; [auto |].
  pose proof (ram_serves ram (mkRecCtx Phase_Transfer []) PORT m Hok Hm) as Hs.
  destruct (flat_access (size (config ram)) (byte ram) m) as [[mem resp]|].
  - destruct Hs as (ram1 & Hok1 & Hb & [= Hc _] & ->). cbn.
    specialize (IH ram1 Hok1). rewrite Hc in IH.
    destruct (flat_all_ext (size (config ram)) msgs (byte ram1) mem Hb) as [Hs Hf].
    destruct (serve_all ram1 msgs) as [ram2 out], (flat_all _ (byte ram1) msgs), (flat_all _ mem msgs).
    cbn in *. destruct IH as (-> & Hb2 & ? & ->). rewrite Hs.
    split; [reflexivity |]. split; [intros a; rewrite Hb2; apply Hf |]. auto.
  - destruct Hs as [what ->]. cbn. specialize (IH ram Hok). destruct (serve_all ram msgs). exact IH.
Qed.
End runs.

(** ** Construction *)

(** The addresses of a segment, and a segment list a RAM of [size] bytes can hold. *)
Definition covers (s : Segment) (a : Z) : Prop :=
  offset s <= a < offset s + Z.of_nat (length (bytes s)).

Definition disjoint_segments (segs : list Segment) : Prop :=
  forall i j s t a, segs !! i = Some s -> segs !! j = Some t -> i <> j -> covers s a -> ~ covers t a.

Definition image_ok (cfg : RamConfig) (segs : list Segment) : Prop :=
  Forall (fun s => offset s + Z.of_nat (length (bytes s)) <= size cfg) segs /\
  disjoint_segments segs.

(** The types of an image. *)
Definition segment_typed (s : Segment) : Prop := in_u 64 (offset s) /\ bytes_ok (bytes s).

Definition span_of (s : Segment) (i : nat) : Span :=
  (offset s, offset s + Z.of_nat (length (bytes s)), i).

Definition span_start (x : Span) : Z := fst (fst x).
Definition span_end (x : Span) : Z := snd (fst x).

Lemma spans_of_spec cfg segs : forall i,
  0 <= size cfg <= 2 ^ 32 ->
  match spans_of cfg i segs with
  | Ok spans =>
      Forall (fun s => offset s + Z.of_nat (length (bytes s)) <= size cfg) segs /\
      NoDup (snd <$> spans) /\
      forall x, x ∈ spans <->
        span_start x < span_end x /\ exists j s, segs !! j = Some s /\ x = span_of s (i + j)
  | Err _ => ~ Forall (fun s => offset s + Z.of_nat (length (bytes s)) <= size cfg) segs
  end.
Proof.
  induction segs as [|s segs IH]; intros i Hs; cbn [spans_of].
  - split_and!; [constructor | constructor |]. intros x. split; [intros H; inversion H |].
    intros (_ & j & s & E & _). rewrite lookup_nil in E. discriminate.
  - specialize (IH (S i) Hs).
    destruct (checked_add 64 _ _) as [e|] eqn:E; cbn.
    2: { rewrite checked_add_None in E. intros Hf. inversion Hf; subst. lia. }
    apply checked_add_Some in E as [-> E].
    destruct (Z.leb_spec (offset s + Z.of_nat (length (bytes s))) (size cfg)) as [Hle|Hle]; cbn.
    2: { intros Hf. inversion Hf; subst. lia. }
    destruct (spans_of cfg (S i) segs) as [rest|err]; cbn.
    2: { intros Hf. inversion Hf; subst. auto. }
    destruct IH as (Hf & Hn & Hx). split_and!; [constructor; assumption | |].
    + case_if; [|exact Hn]. constructor; [|exact Hn]. intros Hin.
      apply list_elem_of_fmap in Hin as (x & E' & (_ & j & t & _ & ->)%Hx). cbn in E'. lia.
    + intros x. assert (Hrest : x ∈ rest <-> span_start x < span_end x /\
        exists j t, segs !! j = Some t /\ x = span_of t (i + S j)).
      { rewrite Hx. split; intros (H1 & j & t & H2 & H3); (split; [exact H1 |]); exists j, t;
          (split; [exact H2 |]); rewrite H3; f_equal; lia. }
      assert (Hhead : x = span_of s i /\ span_start x < span_end x \/ x ∈ rest <->
        span_start x < span_end x /\ exists j t, (s :: segs) !! j = Some t /\ x = span_of t (i + j)).
      { rewrite Hrest. split.
        - intros [[-> H1] | (H1 & j & t & H2 & H3)]; (split; [exact H1 |]);
            [exists O, s; rewrite Nat.add_0_r; auto | exists (S j), t; auto].
        - intros (H1 & [|j] & t & H2 & H3); [left | right; eauto].
          injection H2 as <-. rewrite Nat.add_0_r in H3. auto. }
      rewrite <- Hhead. destruct (Z.ltb_spec (offset s) (offset s + Z.of_nat (length (bytes s)))) as [Hlt|Hlt].
      * rewrite elem_of_cons. split; [intros [->|]; auto | intros [[-> _]|]; auto].
      * split; [auto | intros [[-> Hlt']|]; [cbn in Hlt'; lia | assumption]].
Qed.

Lemma span_leb_total x y : span_leb x y = false -> span_leb y x = true.
Proof.
  destruct x as [[s e] i], y as [[s' e'] i']. cbn.
  destruct (Z.ltb_spec s s'), (Z.eqb_spec s s'), (Z.ltb_spec e e'), (Z.eqb_spec e e'), (Nat.leb_spec i i');
    cbn; try discriminate; intros _;
    destruct (Z.ltb_spec s' s), (Z.eqb_spec s' s), (Z.ltb_spec e' e), (Z.eqb_spec e' e), (Nat.leb_spec i' i);
    cbn; reflexivity || lia.
Qed.

Lemma span_leb_spec x y :
  span_leb x y = true <->
  span_start x < span_start y \/ span_start x = span_start y /\
    (span_end x < span_end y \/ span_end x = span_end y /\ (snd x <= snd y)%nat).
Proof.
  destruct x as [[s e] i], y as [[s' e'] i']. cbn.
  rewrite !orb_true_iff, !andb_true_iff, !orb_true_iff, !andb_true_iff, !Z.ltb_lt, !Z.eqb_eq, Nat.leb_le.
  lia.
Qed.

Lemma span_leb_trans x y z : span_leb x y = true -> span_leb y z = true -> span_leb x z = true.
Proof. rewrite !span_leb_spec. lia. Qed.

Lemma first_overlap_spec l :
  Forall (fun x => span_start x < span_end x) l ->
  first_overlap l = None <-> StronglySorted (fun x y => span_end x <= span_start y) l.
Proof.
  induction l as [|[[s e] i] l IH]; intros Hl; [split; [constructor | reflexivity] |].
  inversion Hl as [|? ? Hx Hl']; subst. specialize (IH Hl'). cbn [first_overlap].
  destruct l as [|[[s' e'] i'] l']; [split; [repeat constructor | reflexivity] |].
  inversion Hl' as [|? ? Hx' _]; subst. unfold span_start, span_end in Hx, Hx'. cbn in Hx, Hx'.
  destruct (Z.ltb_spec s' e) as [Hlt|Hge].
  - split; [discriminate |]. intros Hs. inversion Hs as [|? ? _ Hf]; subst.
    inversion Hf as [|? ? Hf' _]; subst. unfold span_start, span_end in Hf'. cbn in Hf'. lia.
  - rewrite IH. split.
    + intros Hs. constructor; [exact Hs |]. inversion Hs as [|? ? _ Hf]; subst. constructor; [exact Hge |].
      eapply Forall_impl; [exact Hf |]. unfold span_start, span_end. cbn. intros. lia.
    + intros Hs. inversion Hs. assumption.
Qed.

Lemma sorted_pair {A} (R : A -> A -> Prop) l x y :
  StronglySorted R l -> x ∈ l -> y ∈ l -> x = y \/ R x y \/ R y x.
Proof.
  induction 1 as [|z l Hs IH Hf]; intros Hx Hy; [inversion Hx |]. rewrite Forall_forall in Hf.
  apply elem_of_cons in Hx as [->|Hx], Hy as [->|Hy]; auto.
Qed.

Lemma overlap_exact cfg segs spans :
  0 <= size cfg <= 2 ^ 32 -> spans_of cfg 0 segs = Ok spans ->
  first_overlap (sort_by span_leb spans) = None <-> disjoint_segments segs.
Proof.
  intros Hsz E. pose proof (spans_of_spec cfg segs 0 Hsz) as Hx. rewrite E in Hx.
  destruct Hx as (_ & Hn & Hx).
  assert (Hin : forall x, x ∈ sort_by span_leb spans <-> x ∈ spans)
    by (intros; rewrite (sort_by_perm span_leb spans); reflexivity).
  rewrite first_overlap_spec by (apply Forall_forall; intros x Hx'; apply Hx, Hin, Hx').
  split.
  - intros Hs i j s t a Hi Hj Hne Hsa Hta.
    assert (H1 : span_of s i ∈ sort_by span_leb spans)
      by (apply Hin, Hx; split; [cbn; unfold covers in Hsa; lia | eauto]).
    assert (H2 : span_of t j ∈ sort_by span_leb spans)
      by (apply Hin, Hx; split; [cbn; unfold covers in Hta; lia | eauto]).
    destruct (sorted_pair _ _ _ _ Hs H1 H2) as [H3|[H3|H3]];
      [unfold span_of in H3; congruence | unfold covers, span_start, span_end in *; cbn in *; lia..].
  - intros Hd. pose proof (sort_by_sorted span_leb span_leb_total span_leb_trans spans) as Hs.
    assert (Hn' : NoDup (snd <$> sort_by span_leb spans)) by (rewrite sort_by_perm; exact Hn).
    assert (Hin' : forall x, x ∈ sort_by span_leb spans -> x ∈ spans) by (intros; apply Hin; assumption).
    clear Hin. induction Hs as [|x l Hs IH Hf]; [constructor |].
    rewrite fmap_cons in Hn'. apply NoDup_cons in Hn' as [Hx' Hn']. constructor.
    { apply IH; [exact Hn' |]. intros y Hy. apply Hin'. right. exact Hy. }
    apply Forall_forall. intros y Hy. rewrite Forall_forall in Hf. specialize (Hf y Hy).
    apply span_leb_spec in Hf.
    destruct (proj1 (Hx x) (Hin' x (list_elem_of_here _ _))) as (Hx1 & i & s & Hi & Ex).
    destruct (proj1 (Hx y) (Hin' y (list_elem_of_further _ _ _ Hy))) as (Hy1 & j & t & Hj & Ey).
    assert (Hne : i <> j).
    { intros ->. apply Hx'. apply list_elem_of_fmap. exists y. split; [subst; reflexivity | exact Hy]. }
    apply Z.nlt_ge. intros Hlt. apply (Hd i j s t (span_start y) Hi Hj Hne); subst; unfold covers;
      unfold span_start, span_end, span_of in *; cbn in *; lia.
Qed.

(** The stores of [new], on a flat memory. *)
Definition write_all (mem : Z -> Z) (segs : list Segment) : Z -> Z :=
  foldl (fun mem s => write_bytes mem (offset s) (bytes s)) mem segs.

Lemma write_all_ext segs : forall mem mem',
  (forall b, mem b = mem' b) -> forall b, write_all mem segs b = write_all mem' segs b.
Proof.
  induction segs as [|s segs IH]; intros mem mem' H b; cbn; [apply H |].
  apply IH. apply write_bytes_ext, H.
Qed.

Lemma write_bytes_covers mem s a :
  (covers s a -> write_bytes mem (offset s) (bytes s) a = nth (Z.to_nat (a - offset s)) (bytes s) 0) /\
  (~ covers s a -> write_bytes mem (offset s) (bytes s) a = mem a).
Proof.
  unfold write_bytes, covers.
  destruct (Z.leb_spec (offset s) a), (Z.ltb_spec a (offset s + Z.of_nat (length (bytes s))));
    cbn; split; intros; reflexivity || lia.
Qed.

Lemma write_all_outside segs a : forall mem,
  (forall s, s ∈ segs -> ~ covers s a) -> write_all mem segs a = mem a.
Proof.
  induction segs as [|s segs IH]; intros mem Hs; [reflexivity |]. cbn.
  change (write_all (write_bytes mem (offset s) (bytes s)) segs a = mem a).
  rewrite IH by (intros; apply Hs; right; assumption).
  apply write_bytes_covers. apply Hs. left.
Qed.

Lemma write_all_inside segs a : forall mem i s,
  disjoint_segments segs -> segs !! i = Some s -> covers s a ->
  write_all mem segs a = nth (Z.to_nat (a - offset s)) (bytes s) 0.
Proof.
  induction segs as [|t segs IH]; intros mem i s Hd Hi Ha; [discriminate |].
  change (write_all (write_bytes mem (offset t) (bytes t)) segs a = nth (Z.to_nat (a - offset s)) (bytes s) 0).
  destruct i as [|i]; cbn in Hi.
  - injection Hi as ->. rewrite write_all_outside; [apply write_bytes_covers, Ha |].
    intros u (j & Hj)%list_elem_of_lookup. exact (Hd 0%nat (S j) s u a eq_refl Hj ltac:(lia) Ha).
  - apply (IH _ i); [|exact Hi | exact Ha]. intros j k u v b Hj Hk Hne.
    exact (Hd (S j) (S k) u v b Hj Hk ltac:(lia)).
Qed.

Lemma store_all_spec segs : forall ram,
  ram_ok ram -> Forall segment_typed segs ->
  Forall (fun s => offset s + Z.of_nat (length (bytes s)) <= size (config ram)) segs ->
  exists ram', store_all ram segs = Some ram' /\ ram_ok ram' /\
    (config ram', image_hash ram') = (config ram, image_hash ram) /\
    forall a, byte ram' a = write_all (byte ram) segs a.
Proof.
  induction segs as [|s segs IH]; intros ram Hok Ht Hs; cbn [store_all].
  - exists ram. auto.
  - inversion Ht as [|? ? [Ho Hb] Ht']; subst. inversion Hs as [|? ? Hs1 Hs']; subst.
    destruct (store_spec ram (offset s) (bytes s) Hok Hb) as (ram1 & E1 & Hok1 & Hc1 & Hb1);
      [apply Ho | exact Hs1 |].
    injection Hc1 as Hc1 Hh1. rewrite <- Hc1 in Hs'.
    destruct (IH ram1 Hok1 Ht' Hs') as (ram2 & E2 & Hok2 & Hc2 & Hb2).
    exists ram2. rewrite E1. cbn. split_and!; [exact E2 | exact Hok2 | congruence |].
    intros a. rewrite Hb2. apply write_all_ext, Hb1.
Qed.

(** [Ram::new] is exact: it accepts an image if and only if the size is in [1..=MAX_SIZE],
    every segment ends within it and no two segments share a byte; the RAM it builds
    satisfies the invariant, holds each segment's bytes at its offset and zero elsewhere.
    It never panics. *)
Theorem ram_new_exact cfg image :
  in_u 64 (size cfg) -> latency_ok (latency cfg) ->
  bytes_ok (img_hash image) -> length (img_hash image) = 32%nat ->
  Forall segment_typed (segments image) ->
  (0 < size cfg <= MAX_SIZE /\ image_ok cfg (segments image) ->
   exists ram, new cfg image = Some (Ok ram) /\ ram_ok ram /\
     (config ram, image_hash ram) = (cfg, img_hash image) /\
     (forall s i, s ∈ segments image -> (i < length (bytes s))%nat ->
        byte ram (offset s + Z.of_nat i) = nth i (bytes s) 0) /\
     (forall a, (forall s, s ∈ segments image -> ~ covers s a) -> byte ram a = 0)) /\
  (~ (0 < size cfg <= MAX_SIZE /\ image_ok cfg (segments image)) ->
   exists e, new cfg image = Some (Err e)).
Proof.
  intros Hu Hlat Hh Hhl Ht. change MAX_SIZE with (2 ^ 32).
  unfold new. change MAX_SIZE with (2 ^ 32).
  destruct (Z.eqb_spec (size cfg) 0); [split; [lia | eauto] |].
  destruct (Z.ltb_spec (2 ^ 32) (size cfg)); [split; [lia | eauto] |].
  assert (Hsz : 0 <= size cfg <= 2 ^ 32) by (unfold in_u in Hu; lia).
  pose proof (spans_of_spec cfg (segments image) 0 Hsz) as Hx.
  destruct (spans_of cfg 0 (segments image)) as [spans|e] eqn:E.
  2: { split; [intros (_ & Hf & _); contradiction | eauto]. }
  destruct Hx as (Hf & _). pose proof (overlap_exact cfg (segments image) spans Hsz E) as Ho.
  destruct (first_overlap _) as [[a b]|].
  { split; [|eauto]. intros (_ & _ & Hd). apply Ho in Hd. discriminate. }
  split; [|intros Hn; exfalso; apply Hn; split; [lia | split; [exact Hf | apply Ho; reflexivity]]].
  intros (_ & _ & Hd).
  destruct (store_all_spec (segments image) (mkRam cfg (img_hash image) ∅)) as (ram & E' & Hok & Hc & Hb).
  { split_and!; try assumption; try (cbn; lia); [apply map_Forall_empty |]. intros a _. reflexivity. }
  { exact Ht. } { exact Hf. }
  exists ram. cbn. rewrite E'. split_and!; [reflexivity | exact Hok | exact Hc | |].
  - intros s i (k & Hk)%list_elem_of_lookup Hi. rewrite Hb.
    rewrite (write_all_inside _ _ _ k s Hd Hk) by (unfold covers; lia). f_equal. lia.
  - intros a Ha. rewrite Hb. apply write_all_outside, Ha.
Qed.

(** A RAM from its own constructor satisfies the invariant. *)
Lemma ram_new_ok cfg image ram :
  in_u 64 (size cfg) -> latency_ok (latency cfg) ->
  bytes_ok (img_hash image) -> length (img_hash image) = 32%nat ->
  Forall segment_typed (segments image) -> new cfg image = Some (Ok ram) -> ram_ok ram.
Proof.
  intros Hu Hlat Hh Hhl Ht. unfold new. change MAX_SIZE with (2 ^ 32).
  destruct (Z.eqb_spec (size cfg) 0); [discriminate |]. destruct (Z.ltb_spec (2 ^ 32) (size cfg)); [discriminate |].
  assert (Hsz : 0 <= size cfg <= 2 ^ 32) by (unfold in_u in Hu; lia).
  pose proof (spans_of_spec cfg (segments image) 0 Hsz) as Hx.
  destruct (spans_of cfg 0 (segments image)) as [spans|e]; [|discriminate]. destruct Hx as (Hf & _).
  destruct (first_overlap _) as [[a b]|]; [discriminate |].
  destruct (store_all_spec (segments image) (mkRam cfg (img_hash image) ∅)) as (ram' & -> & Hok & _); [|exact Ht | exact Hf | cbn; congruence].
  split_and!; try assumption; try (cbn; lia); [apply map_Forall_empty |]. intros a _. reflexivity.
Qed.

(** * Snapshots *)

Lemma page_address k j :
  (j < PAGE_SIZE)%nat ->
  (k * PAGE + Z.of_nat j) / PAGE = k /\ Z.to_nat ((k * PAGE + Z.of_nat j) mod PAGE) = j.
Proof.
  intros Hj. pose proof page_size_val. unfold PAGE in *. split; [Z.div_mod_to_equations; lia |].
  apply Nat2Z.inj. rewrite Z2Nat.id by word_lia. Z.div_mod_to_equations. lia.
Qed.

Lemma page_byte_at pages k j :
  (j < PAGE_SIZE)%nat -> byte_at pages (k * PAGE + Z.of_nat j) = page_byte pages k j.
Proof. intros Hj. unfold byte_at. destruct (page_address k j Hj) as [-> ->]. reflexivity. Qed.

(** A non-zero byte of a page of the map is inside the page. *)
Lemma non_zero_byte k p : page_ok k p -> exists j, (j < PAGE_SIZE)%nat /\ nth j p 0 <> 0.
Proof.
  intros (_ & Hl & _ & Hz). apply all_zero_false in Hz as (j & Hj). exists j. split; [|exact Hj].
  rewrite <- Hl. apply Nat.nle_gt. intros Hge. apply Hj, nth_overflow, Hge.
Qed.

Lemma pages_included (p q : gmap Z Page) k (x : Page) :
  map_Forall page_ok p -> map_Forall page_ok q -> (forall a, byte_at p a = byte_at q a) ->
  p !! k = Some x -> q !! k = Some x.
Proof.
  intros Hp Hq Hb Hx. assert (Hj : forall j, (j < PAGE_SIZE)%nat -> page_byte p k j = page_byte q k j)
    by (intros j Hj; rewrite <- !page_byte_at by exact Hj; apply Hb).
  unfold page_byte in Hj. rewrite Hx in Hj. pose proof (Hp _ _ Hx) as Hpx.
  destruct (q !! k) as [y|] eqn:Ey.
  - f_equal. destruct Hpx as (_ & Hlx & _), (Hq _ _ Ey) as (_ & Hly & _). symmetry.
    apply (nth_ext _ _ 0 0); [congruence |]. intros j Hlt. apply Hj. congruence.
  - destruct (non_zero_byte k x Hpx) as (j & Hlt & Hne). destruct (Hne (Hj j Hlt)).
Qed.

Lemma pages_canonical (p q : gmap Z Page) :
  map_Forall page_ok p -> map_Forall page_ok q -> (forall a, byte_at p a = byte_at q a) -> p = q.
Proof.
  intros Hp Hq Hb. apply map_eq. intros k. destruct (p !! k) as [x|] eqn:Ex.
  - symmetry. apply (pages_included p q); assumption.
  - destruct (q !! k) as [y|] eqn:Ey; [|reflexivity]. rewrite <- Ex.
    eapply pages_included; [exact Hq | exact Hp | intros; symmetry; apply Hb | exact Ey].
Qed.

Lemma page_in_range ram k p :
  ram_ok ram -> pages ram !! k = Some p -> 0 <= k /\ k * PAGE < size (config ram).
Proof.
  intros (_ & _ & _ & Hp & Hz) Hk. pose proof (Hp _ _ Hk) as Hpk. split; [apply Hpk |].
  destruct (non_zero_byte k p Hpk) as (j & Hj & Hne). apply Z.nle_gt. intros Hge.
  apply Hne. specialize (Hz (k * PAGE + Z.of_nat j) ltac:(lia)). unfold byte in Hz.
  rewrite page_byte_at in Hz by exact Hj. unfold page_byte in Hz. rewrite Hk in Hz. exact Hz.
Qed.

(** The tail past the end of the RAM of a page is zero. *)
Lemma tail_zero size pages k p :
  page_ok k p -> pages !! k = Some p -> k * PAGE < size ->
  all_zero (drop (Z.to_nat (Z.min (size - k * PAGE) PAGE)) p) = true <->
  (forall j, (j < PAGE_SIZE)%nat -> size <= k * PAGE + Z.of_nat j -> byte_at pages (k * PAGE + Z.of_nat j) = 0).
Proof.
  intros (Hk & Hl & _) Hp Hlt. rewrite all_zero_spec. pose proof page_size_val as HP.
  assert (0 < PAGE) by reflexivity.
  set (v := Z.to_nat (Z.min (size - k * PAGE) PAGE)).
  assert (Hv : Z.of_nat v = Z.min (size - k * PAGE) PAGE) by (subst v; rewrite Z2Nat.id; lia).
  split.
  - intros Hz j Hj Hge. rewrite page_byte_at by exact Hj. unfold page_byte. rewrite Hp.
    specialize (Hz (j - v)%nat). rewrite nth_lookup, lookup_drop in Hz.
    rewrite nth_lookup. replace (v + (j - v))%nat with j in Hz by lia. exact Hz.
  - intros Hz i. rewrite nth_lookup, lookup_drop. rewrite <- nth_lookup.
    destruct (Nat.lt_ge_cases (v + i) PAGE_SIZE) as [Hj|Hj]; [|apply nth_overflow; lia].
    specialize (Hz (v + i)%nat Hj ltac:(lia)). rewrite page_byte_at in Hz by exact Hj.
    unfold page_byte in Hz. rewrite Hp in Hz. exact Hz.
Qed.

Section snapshots.
Context `{SnapshotCodec}.

(** The snapshot is a function of the contents: two RAMs of one configuration that hold
    the same bytes, whatever writes produced them, have the same pages and the same
    snapshot. *)
Theorem ram_snapshot_canonical a b :
  ram_ok a -> ram_ok b -> (config a, image_hash a) = (config b, image_hash b) ->
  (forall i, 0 <= i < size (config a) -> byte a i = byte b i) ->
  snapshot a = snapshot b.
Proof.
  intros Ha Hb Hc Hi. destruct a as [ca ha pa], b as [cb hb pb]. cbn in Hc, Hi. injection Hc as <- <-.
  replace pb with pa; [reflexivity |].
  destruct Ha as (_ & _ & _ & Hpa & Hza), Hb as (_ & _ & _ & Hpb & Hzb).
  assert (Hneg : forall p i, i < 0 -> map_Forall page_ok p -> byte_at p i = 0).
  { intros p i Hlt Hp. unfold byte_at, page_byte. destruct (p !! (i / PAGE)) eqn:E; [|reflexivity].
    destruct (Hp _ _ E) as (Hk & _). exfalso. revert Hk. unfold PAGE. Z.div_mod_to_equations. lia. }
  apply pages_canonical; [exact Hpa | exact Hpb |]. intros i.
  destruct (Z.lt_ge_cases i 0); [rewrite !Hneg by assumption; reflexivity |].
  destruct (Z.lt_ge_cases i (size ca)); [apply Hi; lia |].
  etransitivity; [apply Hza; assumption | symmetry; apply Hzb; assumption].
Qed.

Lemma reads_page self ram k p :
  ram_ok ram -> config self = config ram -> pages ram !! k = Some p ->
  reads (read_page self k) (put_bytes p) p.
Proof.
  intros Hok Hc Hk. pose proof Hok as (_ & _ & _ & Hp & Hz). pose proof (Hp _ _ Hk) as Hpk.
  pose proof Hpk as (_ & Hl & Hb & Hnz). destruct (page_in_range ram k p Hok Hk) as [Hk0 Hlt].
  unfold read_page. rewrite Hc.
  eapply reads_then; [apply reads_check, negb_true_iff, Z.leb_gt, Hlt |].
  eapply reads_last; [apply reads_bytes; [exact Hb |]; rewrite Hl, page_size_val; const_range |].
  eapply reads_then; [apply reads_check, Nat.eqb_eq, Hl |].
  eapply reads_then; [apply reads_check; rewrite Hnz; reflexivity |].
  eapply reads_then; [apply reads_check; rewrite some_non_zero, negb_involutive | apply reads_ret].
  apply (tail_zero _ (pages ram) k p Hpk Hk Hlt). intros j _ Hge. apply Hz, Hge.
Qed.

Lemma ram_reads_restore self ram :
  ram_ok ram -> (config self, image_hash self) = (config ram, image_hash ram) ->
  reads (restore self) (snapshot ram) ram.
Proof.
  intros Hok Hc. injection Hc as Hc Hh. pose proof Hok as (Hs & Hlat & [Hhb Hhl] & Hp & _).
  unfold restore, snapshot, write_config, write_latency. rewrite Hc, Hh, <- !app_assoc.
  reads_next. { rewrite Z.eqb_refl. reads_next.
  eapply reads_bind; [rewrite <- Hhl; apply reads_raw |].
  eapply reads_then; [apply reads_check, bool_decide_eq_true_2; reflexivity |].
  eapply reads_bind; [apply reads_expect_raw |].
  eapply reads_bind; [apply reads_len |].
  { split; [lia |]. eapply Z.le_lt_trans; [apply (size_bound _ (2 ^ 31)); [lia |] | lia].
    intros k p Hk. destruct (page_in_range ram k p Hok Hk) as [? Hlt]. unfold PAGE in Hlt. lia. }
  rewrite Nat2Z.id. eapply reads_last.
  - apply (reads_entries _ _ _ put_u32 put_bytes). intros k p Hk.
    split; [|apply (reads_page self ram); assumption]. apply reads_u32.
    destruct (page_in_range ram k p Hok Hk) as [? Hlt]. unfold PAGE, in_u in *. lia.
  - destruct ram, self. cbn in *. subst. apply reads_ret. }
Qed.

(** A snapshot restores the RAM exactly: restored into a RAM of the same size, image hash
    and latency, whatever that RAM holds, it gives the snapshot's contents back and leaves
    the bytes after it. *)
Theorem ram_snapshot_restore self ram rest :
  ram_ok ram -> (config self, image_hash self) = (config ram, image_hash ram) ->
  restore self (snapshot ram ++ rest) = (rest, Ok ram).
Proof. intros Hok Hc. apply (ram_reads_restore self ram Hok Hc). Qed.

(** What [restore] has checked of a page it keeps. *)
Definition page_accepted (ram : Ram) (k : Z) (p : Page) : Prop :=
  page_ok k p /\ k * PAGE < size (config ram) /\
  all_zero (drop (Z.to_nat (Z.min (size (config ram) - k * PAGE) PAGE)) p) = true.

Lemma yields_page ram k : 0 <= k -> yields (read_page ram k) (page_accepted ram k).
Proof.
  intros Hk. unfold read_page. repeat yields_next. apply yields_ret. deconj. unbool.
  match goal with H : existsb _ _ = false |- _ => rewrite some_non_zero in H end. unbool.
  match goal with H : (_ =? _)%nat = true |- _ => apply Nat.eqb_eq in H end.
  split; [split_and!; assumption | split; assumption].
Qed.

Lemma accepted_pages_ok ram pages :
  ram_ok ram -> map_Forall (page_accepted ram) pages -> ram_ok (set_pages pages ram).
Proof.
  intros (Hs & Hlat & Hh & _ & _) Hp. split_and!; try assumption; try apply Hs; try apply Hh.
  - intros k p Hk. apply (Hp k p Hk).
  - intros a Ha. cbn in Ha. unfold byte. change (Ram.pages (set_pages pages ram)) with pages.
    assert (Hj : (chunk_start a < PAGE_SIZE)%nat) by apply chunk_start_lt.
    assert (Ea : a = a / PAGE * PAGE + Z.of_nat (chunk_start a)).
    { unfold chunk_start, PAGE. rewrite Z2Nat.id by word_lia. Z.div_mod_to_equations. lia. }
    rewrite Ea. destruct (pages !! (a / PAGE)) as [p|] eqn:E.
    + destruct (Hp _ _ E) as (Hok & Hlt & Hz).
      apply (tail_zero _ pages _ p Hok E Hlt); [exact Hz | exact Hj | lia].
    + rewrite page_byte_at by exact Hj. unfold page_byte. rewrite E. reflexivity.
Qed.

Lemma ram_restore_accepts ram :
  ram_ok ram ->
  yields (restore ram)
    (fun ram' => ram_ok ram' /\ (config ram', image_hash ram') = (config ram, image_hash ram)).
Proof.
  intros Hok. unfold restore. do 6 yields_next. eapply yields_bind.
  - apply (yields_ascending _ _ _ (fun k => in_u 32 k) (page_accepted ram)); [apply yields_u32 | |apply map_Forall_empty].
    intros k [Hk _]. apply yields_page, Hk.
  - intros pages Hp. apply yields_ret. split; [apply accepted_pages_ok; assumption | reflexivity].
Qed.

(** Whatever bytes are restored, a RAM that [restore] accepts satisfies the invariant: its
    pages are canonical (ordered, whole, not all zero, nothing stored past [size]) and its
    configuration is the one it had. *)
Theorem ram_restore_invariant ram bs rest ram' :
  ram_ok ram -> bytes_ok bs -> restore ram bs = (rest, Ok ram') ->
  ram_ok ram' /\ (config ram', image_hash ram') = (config ram, image_hash ram).
Proof. intros Hok Hbs E. exact (proj1 (wp_use _ _ _ _ _ _ (ram_restore_accepts ram Hok bs Hbs) E)). Qed.
End snapshots.

(** * Witnesses *)

Definition example_config : RamConfig := mkRamConfig 4096 (Latency_Cycles 0 2).
Definition example_hash : list Z := replicate 32 5.
Definition example_page : Page := 7 :: replicate (Z.to_nat 4095) 0.
Definition example_ram : Ram := mkRam example_config example_hash {[0 := example_page]}.
Definition example_image : RamImage := mkRamImage example_hash [mkSegment 0 [7]; mkSegment 1 [0; 0]].

Lemma example_ram_ok : ram_ok example_ram.
Proof.
  split_and!; try (vm_compute; (discriminate || reflexivity)).
  - split; const_range.
  - apply Forall_replicate. const_range.
  - apply map_Forall_singleton. split_and!; [reflexivity | vm_compute; reflexivity | | reflexivity].
    constructor; [const_range | apply Forall_replicate; const_range].
  - intros a Ha. unfold byte, byte_at, page_byte. cbn [pages example_ram].
    rewrite lookup_singleton_ne; [reflexivity |]. cbn in Ha. unfold PAGE. Z.div_mod_to_equations. lia.
Qed.

#[local] Existing Instance recording_context.
#[local] Existing Instance documented_classify.

Lemma ram_refines_flat_memory_witness :
  let '(ram', sent) := serve_all example_ram [WriteReq 3 4 [9; 8]; ReadReq 4 4 2] in
  let '(mem, answered) := flat_all (size (config example_ram)) (byte example_ram) [WriteReq 3 4 [9; 8]; ReadReq 4 4 2] in
  sent = answered /\ (forall a, byte ram' a = mem a) /\ ram_ok ram' /\ config ram' = config example_ram.
Proof.
  apply (ram_refines_flat_memory example_ram); [exact example_ram_ok |].
  apply (bool_decide_unpack _). vm_compute. exact I.
Defined.

Lemma example_image_typed : Forall segment_typed (segments example_image).
Proof.
  constructor; [|constructor; [|constructor]]; (split; [const_range |]);
    repeat (constructor; [const_range |]); constructor.
Qed.

Lemma ram_new_exact_witness : exists ram, new example_config example_image = Some (Ok ram) /\ byte ram 0 = 7.
Proof.
  destruct (proj1 (ram_new_exact example_config example_image
    ltac:(const_range) ltac:(split; const_range)
    ltac:(apply Forall_replicate; const_range) eq_refl
    example_image_typed)) as (ram & E & _ & _ & Hb & _).
  - split; [vm_compute; split; (discriminate || reflexivity) |]. split.
    + repeat constructor; vm_compute; discriminate.
    + intros [|[|i]] [|[|j]] s t a Hi Hj Hne; try discriminate; try congruence;
        injection Hi as <-; injection Hj as <-; unfold covers; cbn; lia.
  - exists ram. split; [exact E |]. apply (Hb (mkSegment 0 [7]) 0%nat); [left | cbn; lia].
Defined.

Lemma ram_snapshot_canonical_witness :
  @snapshot le_codec example_ram = @snapshot le_codec (mkRam example_config example_hash (pages example_ram)).
Proof.
  apply (@ram_snapshot_canonical le_codec);
    [exact example_ram_ok | exact example_ram_ok | reflexivity | reflexivity].
Defined.

Lemma ram_snapshot_restore_witness :
  @restore le_codec (mkRam example_config example_hash ∅) (@snapshot le_codec example_ram ++ [1]) =
  ([1], Ok example_ram).
Proof. apply (@ram_snapshot_restore le_codec); [exact example_ram_ok | reflexivity]. Defined.

Lemma example_ram_restored : @restore le_codec example_ram (@snapshot le_codec example_ram) = ([], Ok example_ram).
Proof.
  rewrite <- (app_nil_r (snapshot example_ram)).
  exact (@ram_reads_restore le_codec example_ram example_ram example_ram_ok eq_refl []).
Qed.

Lemma ram_restore_invariant_witness : ram_ok example_ram.
Proof.
  apply (@ram_restore_invariant le_codec example_ram (@snapshot le_codec example_ram) [] example_ram
           example_ram_ok); [|exact example_ram_restored].
  apply (bool_decide_unpack _). vm_compute. exact I.
Defined.
