(* ===== verification/Uart.v ===== *)
(** The transmit-only UART, [components/platform/src/uart.rs]: a TX register that appends a
    byte to the output and a STATUS register that always reads ready, over [mem.v1].

    Proved: every message has exactly the effect the register map gives it
    ([register_access]), the output of any run is the TX bytes it accepted in order, and a
    snapshot restores the output exactly. *)
From stdpp Require Import base numbers list option strings.
From Stdlib Require Import ZArith Lia.
From S2P Require Import Prelude Contracts Handlers Snapshots Platform.

Local Open Scope string_scope.
Local Open Scope list_scope.
Local Open Scope Z_scope.

Definition PORT : Z := 0.
Definition TX : Z := 0x0.
Definition STATUS : Z := 0x4.
Definition STATUS_VALUE : Z := 1.
Definition SIZE : Z := 8.
Definition TX_KIND : string := "platform.uart.tx".
Definition INSPECT_TAIL : nat := 64.
Definition SNAPSHOT_SCHEMA : Z := 1.

Record UartConfig : Set := mkUartConfig { latency : LinkLatency }.

Record SimpleUart : Set := mkSimpleUart { config : UartConfig; output : list Z }.

Definition new (cfg : UartConfig) : SimpleUart := mkSimpleUart cfg [].

Definition push (byte : Z) (u : SimpleUart) : SimpleUart :=
  mkSimpleUart (config u) (output u ++ [byte]).

Definition status_read (first len : Z) : option (list Z) :=
  if (first =? STATUS) && ((len =? 1) || (len =? 2) || (len =? 4))
  then Some (take (Z.to_nat len) (to_le 4 STATUS_VALUE)) else None.

(** The view of [inspect]. *)
Definition inspect (u : SimpleUart) : list (string * Value) :=
  [("tx_len", VU64 (Z.of_nat (length (output u))));
   ("tx_tail", VBytes (drop (length (output u) - INSPECT_TAIL) (output u)))].

Section handlers.
Context {C : Type} `{SimContext C, MemClassify}.

Local Abbreviation M := (ST (SimpleUart * C) Failure).

Definition respond (msg : MemMsg) (first : option Z) : M MemMsg :=
  match msg with
  | ReadReq txn _ len =>
      mret (ReadResp txn match (f ← first; status_read f len) with
                         | Some data => ReadOutcome_Data data
                         | None => ReadOutcome_Fault AccessFault
                         end)
  | WriteReq txn _ data =>
      match first, data with
      | Some 0, [byte] =>
          update (push byte);;
          trace TX_KIND [("byte", VU64 byte)];;
          mret (WriteResp txn WriteOutcome_Done)
      | _, _ => mret (WriteResp txn (WriteOutcome_Fault AccessFault))
      end
  | ReadResp _ _ | WriteResp _ _ => fault "uart: response on the target port"
  end.

Definition handle_event (ev : Delivered) : M unit :=
  match ev with
  | Delivered_Message _ (Message_MemV1 msg) =>
      first ←
        match access msg with
        | None => fault "uart: response on the target port"
        | Some Empty => fault "uart: zero-length request"
        | Some AccessOutOfRange => mret None
        | Some (Bytes first _) => mret (Some first)
        end;
      resp ← respond msg first;
      u ← self;
      call (ctx_send PORT (Message_MemV1 resp) (delay (latency (config u))) Phase_Complete)
  | _ => fault "uart: unexpected delivery"
  end.
End handlers.

Section snapshot.
Context `{SnapshotCodec}.

Local Abbreviation R := (ST (list Z) RestoreError).

Definition write_latency (u : SimpleUart) : list Z := put_latency (latency (config u)).

Definition snapshot (u : SimpleUart) : list Z := write_latency u ++ put_bytes (output u).

Definition restore (u : SimpleUart) : R SimpleUart :=
  expect_raw (write_latency u) "uart: snapshot has a different latency";;
  output ← rd get_bytes;
  mret (mkSimpleUart (config u) output).
End snapshot.

(** * The register map *)

(** What the module's table gives a request: the bytes it appends to the output and the
    response; nothing for what is no request. *)
Definition register_access (msg : MemMsg) : option (list Z * MemMsg) :=
  match msg with
  | ReadReq txn addr len =>
      if len =? 0 then None
      else if (addr =? STATUS) && mem_Z len [1; 2; 4]
      then Some ([], ReadResp txn (ReadOutcome_Data (1 :: replicate (Z.to_nat (len - 1)) 0)))
      else Some ([], ReadResp txn (ReadOutcome_Fault AccessFault))
  | WriteReq txn addr [] => None
  | WriteReq txn addr [byte] =>
      if addr =? TX then Some ([byte], WriteResp txn WriteOutcome_Done)
      else Some ([], WriteResp txn (WriteOutcome_Fault AccessFault))
  | WriteReq txn _ _ => Some ([], WriteResp txn (WriteOutcome_Fault AccessFault))
  | ReadResp _ _ | WriteResp _ _ => None
  end.

(** The context after an access: a trace record per output byte, then the response. *)
Definition answered {C} `{SimContext C} (u : SimpleUart) (out : list Z) (resp : MemMsg) (ctx : C) :
    C * result SimError unit :=
  ctx_send PORT (Message_MemV1 resp) (delay (latency (config u))) Phase_Complete
    (foldl (fun ctx b => ctx_trace TX_KIND [("byte", VU64 b)] ctx) ctx out).

Lemma status_bytes len :
  mem_Z len [1; 2; 4] = true ->
  take (Z.to_nat len) (to_le 4 STATUS_VALUE) = 1 :: replicate (Z.to_nat (len - 1)) 0.
Proof.
  rewrite mem_Z_spec. intros Hl. repeat (apply elem_of_cons in Hl as [->|Hl]; [reflexivity |]).
  inversion Hl.
Qed.

Section exact.
Context {C : Type} `{SimContext C, MemClassify}.

Lemma register_map (u : SimpleUart) (ctx : C) port msg :
  mem_msg_ok msg ->
  match register_access msg with
  | Some (out, resp) =>
      handle_event (Delivered_Message port (Message_MemV1 msg)) (u, ctx) =
      let '(ctx', r) := answered u out resp ctx in
      ((mkSimpleUart (config u) (output u ++ out), ctx'), map_err Fails r)
  | None => exists what,
      handle_event (Delivered_Message port (Message_MemV1 msg)) (u, ctx) =
      ((u, ctx), Err (Fails (ComponentFault what)))
  end.
Proof.
  intros Hm. assert (Hu : mkSimpleUart (config u) (output u ++ []) = u)
    by (destruct u; cbn; rewrite app_nil_r; reflexivity).
  destruct msg as [txn addr len|txn o|txn addr data|txn o]; cbn [register_access handle_event];
    rewrite ST_bind_unfold.
  - rewrite access_read. unfold classify_doc. destruct (Z.eqb_spec len 0); [eexists; reflexivity |].
    destruct Hm as (_ & Ha & Hl).
    destruct (Z.leb_spec (2 ^ 64) (addr + (len - 1))) as [Hov|_]; cbn [mret ST_ret]; rewrite ST_bind_unfold;
      cbn [respond mret ST_ret mbind option_bind].
    + rewrite (proj2 (andb_false_iff _ _)); [rewrite Hu; reflexivity |].
      left. apply Z.eqb_neq. intros ->. unfold STATUS, in_u in *. lia.
    + unfold status_read. change (mem_Z len [1; 2; 4]) with ((len =? 1) || ((len =? 2) || ((len =? 4) || false))).
      rewrite orb_false_r, orb_assoc.
      destruct (addr =? STATUS); cbn [andb]; [|rewrite Hu; reflexivity].
      destruct ((len =? 1) || (len =? 2) || (len =? 4)) eqn:E; [|rewrite Hu; reflexivity].
      rewrite status_bytes; [rewrite Hu; reflexivity |].
      cbn [mem_Z existsb]. rewrite orb_false_r, orb_assoc. exact E.
  - rewrite access_read_resp. eexists. reflexivity.
  - rewrite access_write. destruct Hm as (_ & Ha & Hd).
    destruct data as [|b [|b' data]]; [eexists; reflexivity | |].
    + assert (Hc : classify_doc addr (Z.of_nat (length [b])) = Bytes addr addr).
      { unfold classify_doc, in_u in *. cbn [length]. change (Z.of_nat 1) with 1.
        rewrite Z.add_0_r. cbn [Z.eqb]. rewrite (proj2 (Z.leb_gt _ _)) by lia. reflexivity. }
      rewrite Hc. cbn [mret ST_ret]. rewrite ST_bind_unfold. cbn [respond].
      destruct (Z.eqb_spec addr TX) as [->|Hne]; [reflexivity |].
      destruct addr; [destruct (Hne eq_refl) | rewrite Hu; reflexivity..].
    + unfold classify_doc. destruct (Z.eqb_spec (Z.of_nat (length (b :: b' :: data))) 0); [discriminate |].
      destruct (2 ^ 64 <=? _); cbn [mret ST_ret]; rewrite ST_bind_unfold; cbn [respond];
        [|destruct addr]; rewrite Hu; reflexivity.
  - rewrite access_write_resp. eexists. reflexivity.
Qed.
(** The UART implements its register map: a one-byte write to TX appends that byte, is
    traced and answered [Done]; a 1, 2 or 4-byte read of STATUS returns the ready word; every
    other non-empty request is answered [AccessFault] and changes nothing; an empty request
    or a response faults the session and changes nothing. *)
Theorem uart_register_map (u : SimpleUart) (ctx : C) port msg :
  mem_msg_ok msg ->
  match register_access msg with
  | Some (out, resp) =>
      handle_event (Delivered_Message port (Message_MemV1 msg)) (u, ctx) =
      let '(ctx', r) := answered u out resp ctx in
      ((mkSimpleUart (config u) (output u ++ out), ctx'), map_err Fails r)
  | None => exists what,
      handle_event (Delivered_Message port (Message_MemV1 msg)) (u, ctx) =
      ((u, ctx), Err (Fails (ComponentFault what)))
  end.
Proof. apply register_map. Qed.
End exact.

(** * Runs *)

Section runs.
#[local] Existing Instance recording_context.
Context `{MemClassify}.

(** A run of requests under a context that accepts every call. *)
Fixpoint run (u : SimpleUart) (ctx : RecCtx) (msgs : list MemMsg) : SimpleUart :=
  match msgs with
  | [] => u
  | m :: msgs =>
      let '((u, ctx), _) := handle_event (Delivered_Message PORT (Message_MemV1 m)) (u, ctx) in
      run u ctx msgs
  end.

(** The TX bytes of a run of requests. *)
Definition tx_bytes (msgs : list MemMsg) : list Z :=
  msgs ≫= fun m => match m with
                   | WriteReq _ 0 [byte] => [byte]
                   | _ => []
                   end.

Lemma access_out m out resp :
  register_access m = Some (out, resp) ->
  out = match m with WriteReq _ 0 [byte] => [byte] | _ => [] end.
Proof.
  destruct m as [txn addr len| |txn addr [|b [|b' data]]|]; cbn; try discriminate.
  - repeat case_if; congruence.
  - destruct (Z.eqb_spec addr TX) as [->|Hne]; intros [= <- <-]; [reflexivity |].
    destruct addr; [destruct (Hne eq_refl) | reflexivity..].
  - intros [= <- _]. destruct addr; reflexivity.
Qed.

Lemma no_access_out m : register_access m = None -> match m with WriteReq _ 0 [byte] => [byte] | _ => [] end = ([] : list Z).
Proof.
  destruct m as [| |txn addr [|b [|b' data]]|]; cbn; try reflexivity; try (destruct addr; reflexivity).
  case_if; discriminate.
Qed.

(** The output of a run is exactly the bytes of its accepted TX writes, in order, after
    what was there before: refused and faulting requests add nothing, and no byte is lost,
    repeated or reordered. *)
Theorem uart_output_history (u : SimpleUart) ctx msgs :
  Forall mem_msg_ok msgs -> output (run u ctx msgs) = output u ++ tx_bytes msgs.
Proof.
  intros Hm. revert u ctx. induction Hm as [|m msgs Hm _ IH]; intros u ctx; cbn [run].
  - rewrite app_nil_r. reflexivity.
  - pose proof (register_map u ctx PORT m Hm) as Hr.
    change (tx_bytes (m :: msgs)) with
      (match m with WriteReq _ 0 [byte] => [byte] | _ => [] end ++ tx_bytes msgs).
    destruct (register_access m) as [[out resp]|] eqn:E.
    + rewrite Hr. destruct (answered u out resp ctx) as [ctx' r]. rewrite IH. cbn.
      rewrite <- app_assoc, (access_out m out resp E). reflexivity.
    + destruct Hr as [what ->]. rewrite IH, (no_access_out m E). reflexivity.
Qed.
End runs.

(** * Snapshots *)

Section snapshots.
Context `{SnapshotCodec}.

(** A snapshot restores the output exactly, into any UART with the same latency. *)
Theorem uart_snapshot_restore self u rest :
  config self = config u -> bytes_ok (output u) -> in_u 32 (Z.of_nat (length (output u))) ->
  restore self (snapshot u ++ rest) = (rest, Ok u).
Proof.
  intros Hc Hb Hl. assert (Hr : reads (restore self) (snapshot u) u).
  { unfold restore, snapshot, write_latency. rewrite Hc. reads_next. reads_next.
    destruct u. apply reads_ret. }
  apply Hr.
Qed.
End snapshots.

(** * Witnesses *)

#[local] Existing Instance recording_context.
#[local] Existing Instance documented_classify.

Definition example_uart : SimpleUart := new (mkUartConfig (Latency_After 10)).

Lemma example_write_ok b : in_u 8 b -> mem_msg_ok (WriteReq 1 0 [b]).
Proof. intros Hb. split_and!; [const_range | const_range |]. constructor; [exact Hb | constructor]. Qed.

Lemma uart_register_map_witness :
  handle_event (Delivered_Message PORT (Message_MemV1 (WriteReq 1 0 [65])))
    (example_uart, mkRecCtx Phase_Transfer []) =
  ((mkSimpleUart (config example_uart) [65],
    mkRecCtx Phase_Transfer
      [Traced TX_KIND [("byte", VU64 65)];
       Sent 0 (Message_MemV1 (WriteResp 1 WriteOutcome_Done)) (When_After 10) Phase_Complete]), Ok tt).
Proof.
  exact (uart_register_map example_uart (mkRecCtx Phase_Transfer []) PORT (WriteReq 1 0 [65])
           (example_write_ok 65 ltac:(const_range))).
Defined.

Lemma uart_output_history_witness :
  output (run example_uart (mkRecCtx Phase_Transfer []) [WriteReq 1 0 [65]; WriteReq 1 0 [66]]) = [65; 66].
Proof.
  exact (uart_output_history example_uart (mkRecCtx Phase_Transfer []) [WriteReq 1 0 [65]; WriteReq 1 0 [66]]
    (Forall_cons_2 _ _ _ (example_write_ok 65 ltac:(const_range))
      (Forall_cons_2 _ _ _ (example_write_ok 66 ltac:(const_range)) (Forall_nil_2 _)))).
Defined.

Lemma uart_snapshot_restore_witness :
  @restore le_codec example_uart (@snapshot le_codec (mkSimpleUart (config example_uart) [65]) ++ [1]) =
  ([1], Ok (mkSimpleUart (config example_uart) [65])).
Proof.
  apply (@uart_snapshot_restore le_codec); [reflexivity | | const_range].
  constructor; [const_range | constructor].
Defined.
