(* ===== verification/Irqc.v ===== *)
(** The interrupt controller, [components/platform/src/irqc.rs]: N level-sensitive sources, a
    [PENDING]/[ENABLE] window over [mem.v1], and one output line to the CPU.

    Proved: the invariant of every reachable controller (no bit outside the sources, and the
    output is [(pending & enable) != 0]); the level the CPU was last told is the output; a
    source's level sets exactly its bit; the windows read and write what the register map
    says; restore accepts exactly the states of the invariant. *)
From stdpp Require Import base numbers list option strings.
From Stdlib Require Import ZArith Lia.
From S2P Require Import Prelude Contracts Handlers Snapshots Platform.

Local Open Scope string_scope.
Local Open Scope list_scope.
Local Open Scope Z_scope.

Definition PENDING : Z := 0x0.
Definition ENABLE : Z := 0x4.
Definition SIZE : Z := 8.
Definition MAX_SOURCES : Z := 32.
Definition LEVEL_KIND : string := "platform.irq.level".
Definition MEIP_KIND : string := "platform.irq.meip".
Definition SNAPSHOT_SCHEMA : Z := 1.

Definition valid_mask (sources : Z) : Z :=
  if sources =? 32 then 0xFFFFFFFF else Z.shiftl 1 sources - 1.

Record IrqControllerConfig : Set := mkIrqControllerConfig { sources : Z; latency : LinkLatency }.

Inductive IrqControllerConfigError : Set := NoSources | TooManySources (n : Z).

(** The field [valid_mask] is [mask]. *)
Record SimpleIrqController : Set := mkSimpleIrqController {
  config : IrqControllerConfig; mask : Z; pending : Z; enable : Z; out : bool }.

#[export] Instance IrqControllerConfig_eq_dec : EqDecision IrqControllerConfig.
Proof. solve_decision. Defined.
#[export] Instance SimpleIrqController_eq_dec : EqDecision SimpleIrqController.
Proof. solve_decision. Defined.

Definition set_pending (v : Z) (c : SimpleIrqController) : SimpleIrqController :=
  mkSimpleIrqController (config c) (mask c) v (enable c) (out c).
Definition set_enable (v : Z) (c : SimpleIrqController) : SimpleIrqController :=
  mkSimpleIrqController (config c) (mask c) (pending c) v (out c).
Definition set_out (v : bool) (c : SimpleIrqController) : SimpleIrqController :=
  mkSimpleIrqController (config c) (mask c) (pending c) (enable c) v.

Definition new (cfg : IrqControllerConfig) : result IrqControllerConfigError SimpleIrqController :=
  if sources cfg =? 0 then Err NoSources
  else if MAX_SOURCES <? sources cfg then Err (TooManySources (sources cfg))
  else Ok (mkSimpleIrqController cfg (valid_mask (sources cfg)) 0 0 false).

Definition cpu_port (c : SimpleIrqController) : Z := sources (config c).
Definition mem_port (c : SimpleIrqController) : Z := sources (config c) + 1.

Section handlers.
Context {C : Type} `{SimContext C, MemClassify}.

Local Abbreviation M := (ST (SimpleIrqController * C) Failure).

Definition update_output : M unit :=
  c ← self;
  let meip := has_bit (pending c) (enable c) in
  if Bool.eqb meip (out c) then mret tt
  else
    update (set_out meip);;
    trace MEIP_KIND [("asserted", VBool meip)];;
    call (ctx_send (cpu_port c) (Message_Irq (IrqMsg_Level meip)) When_Now Phase_Complete).

Definition level (index : Z) (msg : IrqMsg) : M unit :=
  phase ← phase_of_event;
  if bool_decide (phase <> Phase_Complete) then
    fault "irq controller: irq.v0 level arrived outside COMPLETE"
  else
    let '(IrqMsg_Level asserted) := msg in
    c ← self;
    if 32 <=? index then panic "attempt to shift left with overflow"
    else
      let bit := shl32 1 index in
      let p := if asserted then Z.lor (pending c) bit else Z.land (pending c) (not32 bit) in
      if p =? pending c then mret tt
      else
        update (set_pending p);;
        trace LEVEL_KIND [("source", VU64 index); ("asserted", VBool asserted)];;
        update_output.

(** The response of [request], its effects included. *)
Definition respond (msg : MemMsg) (first : option Z) : M MemMsg :=
  c ← self;
  match msg with
  | ReadReq txn _ len =>
      mret (ReadResp txn
        match first with
        | Some first =>
            if (first =? PENDING) && (len =? 4)
            then ReadOutcome_Data (to_le 4 (Z.land (pending c) (mask c)))
            else if (first =? ENABLE) && (len =? 4) then ReadOutcome_Data (to_le 4 (enable c))
            else ReadOutcome_Fault AccessFault
        | None => ReadOutcome_Fault AccessFault
        end)
  | WriteReq txn _ data =>
      if bool_decide (first = Some ENABLE) && (length data =? 4)%nat then
        update (set_enable (Z.land (from_le data) (mask c)));;
        update_output;;
        mret (WriteResp txn WriteOutcome_Done)
      else mret (WriteResp txn (WriteOutcome_Fault AccessFault))
  | ReadResp _ _ | WriteResp _ _ => fault "irq controller: response on the target port"
  end.

Definition request (msg : MemMsg) : M unit :=
  first ←
    match access msg with
    | None => fault "irq controller: response on the target port"
    | Some Empty => fault "irq controller: zero-length request"
    | Some AccessOutOfRange => mret None
    | Some (Bytes first _) => mret (Some first)
    end;
  resp ← respond msg first;
  c ← self;
  call (ctx_send (mem_port c) (Message_MemV1 resp) (delay (latency (config c))) Phase_Complete).

Definition handle_event (ev : Delivered) : M unit :=
  match ev with
  | Delivered_Wake _ => fault "irq controller: unexpected wake"
  | Delivered_Message port msg =>
      c ← self;
      if port <? sources (config c) then
        match msg with
        | Message_Irq msg => level port msg
        | _ => fault "irq controller: message on a source is not irq.v0"
        end
      else if port =? sources (config c) then fault "irq controller: message on the cpu port"
      else if port =? sources (config c) + 1 then
        match msg with
        | Message_MemV1 msg => request msg
        | _ => fault "irq controller: message on mem is not mem.v1"
        end
      else fault "irq controller: message on an unknown port"
  end.
End handlers.

Section snapshot.
Context `{SnapshotCodec}.

Local Abbreviation R := (ST (list Z) RestoreError).

Definition write_config (c : SimpleIrqController) : list Z :=
  put_u8 (sources (config c)) ++ put_latency (latency (config c)).

Definition snapshot (c : SimpleIrqController) : list Z :=
  write_config c ++ put_u32 (pending c) ++ put_u32 (enable c) ++ put_bool (out c).

Definition restore (c : SimpleIrqController) : R SimpleIrqController :=
  n ← rd get_u8;
  check (n =? sources (config c)) "irq controller: snapshot has a different source count";;
  expect_raw (drop 1 (write_config c)) "irq controller: snapshot has a different latency";;
  p ← rd get_u32;
  e ← rd get_u32;
  o ← rd get_bool;
  check (Z.land p (not32 (mask c)) =? 0) "irq controller: pending bit outside the sources";;
  check (Z.land e (not32 (mask c)) =? 0) "irq controller: enable bit outside the sources";;
  check (Bool.eqb o (has_bit p e)) "irq controller: out is not (pending & enable) != 0";;
  mret (mkSimpleIrqController (config c) (mask c) p e o).
End snapshot.

(** * The invariant *)

Definition config_ok (cfg : IrqControllerConfig) : Prop :=
  1 <= sources cfg <= 32 /\ latency_ok (latency cfg).

Definition irq_ok (c : SimpleIrqController) : Prop :=
  config_ok (config c) /\ mask c = valid_mask (sources (config c)) /\
  in_u (sources (config c)) (pending c) /\ in_u (sources (config c)) (enable c) /\
  out c = has_bit (pending c) (enable c).

#[export] Instance irq_ok_dec c : Decision (irq_ok c).
Proof. unfold irq_ok, config_ok. apply _. Defined.

Lemma valid_mask_ones n : 1 <= n <= 32 -> valid_mask n = Z.ones n.
Proof.
  intros Hn. unfold valid_mask. destruct (Z.eqb_spec n 32) as [->|]; [reflexivity |].
  rewrite Z.ones_equiv, Z.shiftl_1_l. lia.
Qed.

Lemma irq_new_ok cfg c : in_u 8 (sources cfg) -> latency_ok (latency cfg) -> new cfg = Ok c -> irq_ok c.
Proof.
  unfold new, MAX_SOURCES, in_u. intros Hs Hl.
  destruct (Z.eqb_spec (sources cfg) 0); [discriminate |].
  destruct (Z.ltb_spec 32 (sources cfg)); [discriminate |]. intros [= <-].
  repeat split; cbn; try reflexivity; try assumption; try apply Z.pow_pos_nonneg; lia.
Qed.

(** Setting or clearing one bit keeps the others. *)
Lemma level_bit p i b j :
  0 <= i < 32 -> in_u 32 p -> 0 <= j ->
  Z.testbit (if b : bool then Z.lor p (shl32 1 i) else Z.land p (not32 (shl32 1 i))) j =
  if j =? i then b else Z.testbit p j.
Proof.
  intros Hi Hp Hj. assert (E : shl32 1 i = 2 ^ i).
  { rewrite shl32_small; [lia | lia |]. unfold in_u. rewrite Z.mul_1_l.
    split; [apply Z.pow_nonneg; lia | apply Z.pow_lt_mono_r; lia]. }
  rewrite E. destruct b.
  - rewrite Z.lor_spec, Z.pow2_bits_eqb, (Z.eqb_sym i j) by lia.
    destruct (j =? i); [apply orb_true_r | apply orb_false_r].
  - rewrite Z.land_spec. destruct (Z.lt_ge_cases j 32).
    + rewrite not32_testbit, Z.pow2_bits_eqb, (Z.eqb_sym i j) by lia.
      destruct (j =? i); [apply andb_false_r | apply andb_true_r].
    + rewrite (testbit_in_u 32) by (assumption || lia). destruct (Z.eqb_spec j i); [lia | reflexivity].
Qed.

Lemma level_in_u n p i (b : bool) :
  1 <= n <= 32 -> 0 <= i < n -> in_u n p ->
  in_u n (if b then Z.lor p (shl32 1 i) else Z.land p (not32 (shl32 1 i))).
Proof.
  intros Hn Hi Hp. assert (Hp32 : in_u 32 p) by (apply (in_u_mono n); [lia | exact Hp]).
  apply in_u_testbit; [lia | |].
  - destruct b; [apply Z.lor_nonneg; split; [apply Hp |] | apply Z.land_nonneg; left; apply Hp].
    unfold shl32. apply wrap_in_u. lia.
  - intros j Hj. rewrite level_bit by (assumption || lia).
    destruct (Z.eqb_spec j i); [lia |]. apply (testbit_in_u n); (assumption || lia).
Qed.

Section invariant.
Context {C : Type} `{SimContext C, MemClassify}.

Local Abbreviation M := (ST (SimpleIrqController * C) Failure).

(** The output as it should be. *)
Definition refreshed (c : SimpleIrqController) : SimpleIrqController :=
  set_out (has_bit (pending c) (enable c)) c.

Lemma update_output_settles (P : SimpleIrqController -> Prop) (c : SimpleIrqController) (ctx : C) :
  P (refreshed c) -> settles P update_output c ctx.
Proof.
  intros HP. unfold settles, update_output. wp_run. destruct (Bool.eqb _ _) eqn:E.
  - apply wp_ret. apply eqb_prop in E. unfold refreshed in HP. rewrite E in HP. destruct c; exact HP.
  - wp_run. apply settles_call, HP.
Qed.

(** What a level on source [i] makes of the controller. *)
Definition with_level (i : Z) (asserted : bool) (c : SimpleIrqController) : SimpleIrqController :=
  refreshed (set_pending (if asserted then Z.lor (pending c) (shl32 1 i)
                          else Z.land (pending c) (not32 (shl32 1 i))) c).

Lemma with_level_ok i b c : 0 <= i < sources (config c) -> irq_ok c -> irq_ok (with_level i b c).
Proof.
  intros Hi (Hc & Hm & Hp & He & Ho). split; [exact Hc |]. split; [exact Hm |].
  split; [|split; [exact He | reflexivity]].
  apply (level_in_u (sources (config c)) (pending c) i b); try assumption; apply Hc.
Qed.

Lemma level_settles (P : SimpleIrqController -> Prop) (c : SimpleIrqController) (ctx : C) i asserted :
  irq_ok c -> 0 <= i < sources (config c) -> P c -> P (with_level i asserted c) ->
  settles P (level i (IrqMsg_Level asserted)) c ctx.
Proof.
  intros (Hc & Hm & Hp & He & Ho) Hi HP HP'. unfold settles, level. wp_run.
  case_bool_decide; [apply wp_fault; eauto |]. wp_run.
  destruct (Z.leb_spec 32 i); [unfold config_ok in Hc; lia |].
  case_if; [apply wp_ret, HP |]. wp_run. apply update_output_settles, HP'.
Qed.

(** What a write of [v] to [ENABLE] makes of it. *)
Definition with_enable (v : Z) (c : SimpleIrqController) : SimpleIrqController :=
  refreshed (set_enable (Z.land v (mask c)) c).

Lemma with_enable_ok v c : irq_ok c -> irq_ok (with_enable v c).
Proof.
  intros (Hc & Hm & Hp & He & Ho). destruct Hc as [Hs Hl].
  split; [split; assumption |]. split; [exact Hm |]. split; [exact Hp |]. split; [|reflexivity].
  cbn. rewrite Hm, valid_mask_ones, Z.land_ones by lia. apply Z.mod_pos_bound, Z.pow_pos_nonneg; lia.
Qed.

Lemma request_settles (P : SimpleIrqController -> Prop) (c : SimpleIrqController) (ctx : C) msg :
  P c -> (forall v, P (with_enable v c)) -> settles P (request msg) c ctx.
Proof.
  intros HP HPe. unfold settles, request. wp_step.
  apply (wp_mono _ (fun _ s => s = (c, ctx)) _ (fun e s => s = (c, ctx) /\ exists e', e = Fails e')).
  - destruct (access msg) as [[| |]|]; cbn; eauto.
  - intros first s ->. cbn beta. wp_step. unfold respond.
    destruct msg as [txn addr len|txn o|txn addr data|txn o]; wp_run;
      try (apply wp_fault; eauto); try (apply settles_call, HP).
    case_if; wp_run; [|apply settles_call, HP].
    eapply wp_mono; [apply (update_output_settles P), HPe | |].
    + cbn. intros _ [c' ctx'] HP'. wp_run. apply settles_call, HP'.
    + cbn. auto.
  - intros e s [-> ?]. auto.
Qed.

(** The invariant and the configuration, of an event's end state. *)
Lemma event_settles (c : SimpleIrqController) (ctx : C) ev :
  irq_ok c -> (forall port msg, ev = Delivered_Message port msg -> 0 <= port) ->
  settles (fun c' => irq_ok c' /\ config c' = config c) (handle_event ev) c ctx.
Proof.
  intros Hok Hport. set (P := fun c' => _ /\ _). assert (HP : P c) by (split; auto).
  destruct ev as [port msg|token]; cbn [handle_event]; [|apply wp_fault; eauto].
  unfold settles. wp_run. destruct (Z.ltb_spec port (sources (config c))).
  - destruct msg as [?|?|[asserted]|?]; try (apply wp_fault; eauto).
    assert (0 <= port < sources (config c)) by (specialize (Hport _ _ eq_refl); lia).
    apply (level_settles P); try assumption. split; [apply with_level_ok; assumption | reflexivity].
  - case_if; [apply wp_fault; eauto |]. case_if; [|apply wp_fault; eauto].
    destruct msg as [?|?|?|?]; try (apply wp_fault; eauto).
    apply (request_settles P); [exact HP |]. intros v. split; [apply with_enable_ok, Hok | reflexivity].
Qed.

(** The controller's invariant holds at the end of every event, whatever the event and
    however the context answers, errors included: no bit of [pending] or [enable] outside the
    sources, and the output line is [(pending & enable) != 0]; the configuration never
    changes, and no event panics. *)
Theorem irq_invariant (c c' : SimpleIrqController) (ctx ctx' : C) ev r :
  irq_ok c -> (forall port msg, ev = Delivered_Message port msg -> 0 <= port) ->
  handle_event ev (c, ctx) = ((c', ctx'), r) ->
  (irq_ok c' /\ config c' = config c) /\ forall what, r <> Err (Panics what).
Proof. intros Hok Hport E. exact (settles_panic_free _ _ _ _ _ _ _ (event_settles c ctx ev Hok Hport) E). Qed.

(** A level arriving on source [i] in [Complete] sets bit [i] of [pending] to that level
    and changes no other bit, and [enable] only software changes. *)
Theorem irq_pending_follows_sources (c c' : SimpleIrqController) (ctx ctx' : C) i asserted r :
  irq_ok c -> 0 <= i < sources (config c) -> ctx_phase ctx = Phase_Complete ->
  handle_event (Delivered_Message i (Message_Irq (IrqMsg_Level asserted))) (c, ctx) = ((c', ctx'), r) ->
  enable c' = enable c /\
  forall j, 0 <= j -> Z.testbit (pending c') j = if j =? i then asserted else Z.testbit (pending c) j.
Proof.
  intros Hok Hi Hph E. pose proof Hok as ([Hs _] & _ & Hp & _).
  assert (Hp32 : in_u 32 (pending c)) by (apply (in_u_mono (sources (config c))); [lia | exact Hp]).
  set (Q := fun c' => enable c' = enable c /\ forall j, 0 <= j ->
    Z.testbit (pending c') j = if j =? i then asserted else Z.testbit (pending c) j).
  assert (HQ : Q (with_level i asserted c)).
  { split; [reflexivity |]. intros j Hj. cbn. apply level_bit; (assumption || lia). }
  refine (proj1 (settles_panic_free Q _ _ _ _ _ _ _ E)).
  cbn [handle_event]. unfold settles. wp_run. rewrite (proj2 (Z.ltb_lt _ _)) by apply Hi.
  unfold level. wp_run. rewrite Hph, bool_decide_eq_false_2 by (intros Hn; apply Hn; reflexivity). wp_run.
  destruct (Z.leb_spec 32 i); [lia |]. match goal with |- context [?p =? pending c] => destruct (Z.eqb_spec p (pending c)) as [Ep|Ep] end.
  - apply wp_ret. split; [reflexivity |]. intros j Hj. cbn [fst].
    rewrite <- (level_bit (pending c) i asserted j) by (assumption || lia). rewrite Ep. reflexivity.
  - wp_run. apply (update_output_settles Q), HQ.
Qed.
End invariant.

(** * What the CPU is told *)

Section told.
#[local] Existing Instance recording_context.
Context `{MemClassify}.

(** The level a log of effects leaves on the line of [port]: the last one sent, deasserted
    at reset. *)
Definition last_level (port : Z) (log : list Effect) : bool :=
  foldl (fun l e => match e with
                    | Sent p (Message_Irq (IrqMsg_Level b)) _ _ => if p =? port then b else l
                    | _ => l
                    end) false log.

#[local] Arguments last_level : simpl never.

Lemma last_level_app port log e :
  last_level port (log ++ [e]) =
  match e with
  | Sent p (Message_Irq (IrqMsg_Level b)) _ _ => if p =? port then b else last_level port log
  | _ => last_level port log
  end.
Proof. unfold last_level. rewrite foldl_app. reflexivity. Qed.

(** The CPU's line is at the level of the output. *)
Definition told (c : SimpleIrqController) (ctx : RecCtx) : Prop :=
  last_level (cpu_port c) (rec_log ctx) = out c.

Lemma update_output_told (c : SimpleIrqController) (ctx : RecCtx) :
  told c ctx ->
  wp update_output (fun _ s => told (fst s) (snd s) /\ config (fst s) = config c) (fun _ _ => False) (c, ctx).
Proof.
  intros Ht. unfold update_output. wp_run. case_if; [apply wp_ret; auto |]. wp_run.
  split; [|reflexivity]. unfold told. cbn. rewrite last_level_app.
  change (cpu_port (set_out _ c)) with (cpu_port c). rewrite Z.eqb_refl. reflexivity.
Qed.

Lemma event_told (c : SimpleIrqController) (ctx : RecCtx) ev :
  told c ctx -> let '((c', ctx'), _) := handle_event ev (c, ctx) in told c' ctx'.
Proof.
  intros Ht. change (let '(s, r) := handle_event ev (c, ctx) in let '(c', ctx') := s in told c' ctx').
  enough (Hw : wp (handle_event ev) (fun _ s => told (fst s) (snd s)) (fun _ s => told (fst s) (snd s)) (c, ctx)).
  { unfold wp in Hw. destruct (handle_event ev (c, ctx)) as [[c' ctx'] [[]|e]]; exact Hw. }
  destruct ev as [port msg|token]; cbn [handle_event]; [|exact Ht]. wp_run.
  repeat case_if; try exact Ht; destruct msg as [?|msg|[asserted]|?]; try exact Ht.
  - unfold level. wp_run. case_bool_decide; [exact Ht |]. wp_run. case_if; [exact Ht |].
    match goal with |- context [?p =? pending c] => destruct (p =? pending c) end; [exact Ht |]. wp_run.
    eapply wp_mono; [apply update_output_told | |]; cbn beta; [|tauto | tauto].
    unfold told in *. cbn. rewrite last_level_app. exact Ht.
  - unfold request. wp_step.
    apply (wp_mono _ (fun _ s => s = (c, ctx)) _ (fun _ s => s = (c, ctx))).
    + destruct (access msg) as [[| |]|]; reflexivity.
    + assert (Hs : forall c' ctx' m, told c' ctx' ->
        wp (c ← self; call (ctx_send (mem_port c) (Message_MemV1 m) (delay (latency (config c))) Phase_Complete))
          (fun _ s => told (fst s) (snd s)) (fun _ s => told (fst s) (snd s)) (c', ctx')).
      { intros c' ctx' m Ht'. wp_run. unfold wp, told. cbn. rewrite last_level_app. exact Ht'. }
      intros first s ->. cbn beta. wp_step. unfold respond.
      destruct msg as [txn addr len|txn o|txn addr data|txn o]; wp_run; try exact Ht; try (apply Hs, Ht).
      case_if; [wp_run | apply wp_ret, Hs, Ht].
      eapply wp_mono; [apply update_output_told, Ht | |]; cbn beta; [|tauto].
      intros _ [c' ctx'] [Ht' _]. wp_run. apply Hs, Ht'.
    + intros _ s ->. exact Ht.
Qed.

(** A run of events, errors included. *)
Fixpoint run (c : SimpleIrqController) (ctx : RecCtx) (evs : list Delivered) :
    SimpleIrqController * RecCtx :=
  match evs with
  | [] => (c, ctx)
  | ev :: evs => let '((c, ctx), _) := handle_event ev (c, ctx) in run c ctx evs
  end.

(** After any sequence of events from a new controller, the level the CPU was last sent
    is [(pending & enable) != 0] of the current registers: no edge is lost, and none is sent
    that did not happen. *)
Theorem irq_cpu_level_exact cfg c p evs :
  in_u 8 (sources cfg) -> latency_ok (latency cfg) -> new cfg = Ok c ->
  Forall (fun ev => forall port msg, ev = Delivered_Message port msg -> 0 <= port) evs ->
  let '(c', ctx') := run c (mkRecCtx p []) evs in
  last_level (cpu_port c') (rec_log ctx') = has_bit (pending c') (enable c').
Proof.
  intros Hs Hl Hnew Hevs. assert (Hok : irq_ok c) by (eapply irq_new_ok; eassumption).
  assert (Ht : told c (mkRecCtx p [])).
  { unfold new in Hnew. repeat case_hyp Hnew; try discriminate Hnew. injection Hnew as <-. reflexivity. }
  revert Hok Ht. clear Hnew. generalize (mkRecCtx p []) as ctx. revert c.
  induction Hevs as [|ev evs Hev _ IH]; intros c ctx Hok Ht; cbn [run].
  - unfold told in Ht. rewrite Ht. apply Hok.
  - pose proof (event_told c ctx ev Ht) as Ht'. pose proof (event_settles c ctx ev Hok Hev) as Hset.
    destruct (handle_event ev (c, ctx)) as [[c' ctx'] r] eqn:E. apply IH; [|exact Ht'].
    apply (settles_panic_free _ _ _ _ _ _ _ Hset E).
Qed.
End told.

(** * Snapshots *)

Lemma outside_mask n v : 1 <= n <= 32 -> in_u 32 v -> (Z.land v (not32 (valid_mask n)) =? 0) = true <-> in_u n v.
Proof.
  intros Hn Hv. rewrite valid_mask_ones, land_not32_low by (assumption || lia). rewrite Z.eqb_eq.
  pose proof (Z.pow_pos_nonneg 2 n ltac:(lia) ltac:(lia)). unfold in_u in *. split.
  - intros E. pose proof (Z.mod_pos_bound v (2 ^ n) ltac:(lia)). lia.
  - intros Hlt. rewrite Z.mod_small by lia. lia.
Qed.

Section snapshots.
Context `{SnapshotCodec}.

Lemma config_tail c : drop 1 (write_config c) = put_latency (latency (config c)).
Proof. unfold write_config. apply drop_app_length'. symmetry. apply length_put_u8. Qed.

(** A snapshot of a controller in the invariant restores it exactly, into any controller of
    the same configuration. *)
Theorem irq_snapshot_restore self c rest :
  irq_ok c -> config self = config c -> mask self = mask c ->
  restore self (snapshot c ++ rest) = (rest, Ok c).
Proof.
  intros ([Hs Hl] & Hm & Hp & He & Ho) Hc Hmask.
  assert (Hr : reads (restore self) (snapshot c) c); [|apply Hr].
  assert (H8 : in_u 8 (sources (config c))) by (unfold in_u; lia).
  assert (Hp32 : in_u 32 (pending c)) by (apply (in_u_mono (sources (config c))); [lia | exact Hp]).
  assert (He32 : in_u 32 (enable c)) by (apply (in_u_mono (sources (config c))); [lia | exact He]).
  unfold restore, snapshot. rewrite config_tail, Hc, Hmask. unfold write_config. rewrite <- app_assoc.
  reads_next. rewrite Z.eqb_refl. reads_next. repeat (reads_next; []). rewrite Hm.
  rewrite (proj2 (outside_mask (sources (config c)) (pending c) Hs Hp32) Hp).
  rewrite (proj2 (outside_mask (sources (config c)) (enable c) Hs He32) He).
  rewrite Ho, eqb_reflx. repeat reads_next. rewrite <- Hm, <- Ho. destruct c. apply reads_ret.
Qed.

Lemma irq_restore_accepts c : irq_ok c -> yields (restore c) (fun c' => irq_ok c' /\ config c' = config c).
Proof.
  intros (Hc & Hm & _). pose proof Hc as [Hs _]. unfold restore. repeat yields_next. apply yields_ret.
  repeat match goal with H : Bool.eqb _ _ = true |- _ => apply eqb_prop in H end.
  repeat match goal with Hv : in_u 32 ?v, Hb : (Z.land ?v (not32 (mask c)) =? 0) = true |- _ =>
    rewrite Hm in Hb; apply (outside_mask _ v Hs Hv) in Hb end.
  split; [|reflexivity]. split; [exact Hc |]. split; [exact Hm |]. split; [assumption |].
  split; assumption.
Qed.

(** Whatever bytes are restored, a controller that [restore] accepts satisfies the
    invariant, with the configuration it had. *)
Theorem irq_restore_invariant c bs rest c' :
  irq_ok c -> bytes_ok bs -> restore c bs = (rest, Ok c') -> irq_ok c' /\ config c' = config c.
Proof. intros Hok Hbs E. exact (proj1 (wp_use _ _ _ _ _ _ (irq_restore_accepts c Hok bs Hbs) E)). Qed.
End snapshots.

(** * Witnesses *)

#[local] Existing Instance recording_context.
#[local] Existing Instance documented_classify.

Definition example_config : IrqControllerConfig := mkIrqControllerConfig 2 (Latency_Cycles 0 1).
Definition example_irqc : SimpleIrqController :=
  mkSimpleIrqController example_config 3 0 2 false.
Definition example_raised : SimpleIrqController :=
  mkSimpleIrqController example_config 3 2 2 true.
Definition example_rise : Delivered := Delivered_Message 1 (Message_Irq (IrqMsg_Level true)).

Lemma example_irqc_ok : irq_ok example_irqc.
Proof. apply (bool_decide_unpack _). vm_compute. exact I. Qed.

Lemma example_raised_ok : irq_ok example_raised.
Proof. apply (bool_decide_unpack _). vm_compute. exact I. Qed.

Lemma irq_invariant_witness : irq_ok example_raised.
Proof.
  apply (irq_invariant example_irqc example_raised (mkRecCtx Phase_Complete [])
    (mkRecCtx Phase_Complete
       [Traced LEVEL_KIND [("source", VU64 1); ("asserted", VBool true)];
        Traced MEIP_KIND [("asserted", VBool true)];
        Sent 2 (Message_Irq (IrqMsg_Level true)) When_Now Phase_Complete])
    example_rise (Ok tt) example_irqc_ok); [|reflexivity].
  intros port msg [= <- _]. lia.
Defined.

Lemma irq_pending_follows_sources_witness : Z.testbit (pending example_raised) 1 = true.
Proof.
  apply (irq_pending_follows_sources example_irqc example_raised (mkRecCtx Phase_Complete [])
    (mkRecCtx Phase_Complete
       [Traced LEVEL_KIND [("source", VU64 1); ("asserted", VBool true)];
        Traced MEIP_KIND [("asserted", VBool true)];
        Sent 2 (Message_Irq (IrqMsg_Level true)) When_Now Phase_Complete])
    1 true (Ok tt) example_irqc_ok); [cbn; lia | reflexivity | reflexivity | lia].
Defined.

Lemma irq_cpu_level_exact_witness :
  let '(c', ctx') := run (mkSimpleIrqController example_config 3 0 0 false) (mkRecCtx Phase_Complete []) [example_rise] in
  last_level (cpu_port c') (rec_log ctx') = has_bit (pending c') (enable c').
Proof.
  apply (irq_cpu_level_exact example_config); [const_range | split; const_range | reflexivity |].
  constructor; [|constructor]. intros port msg [= <- _]. lia.
Defined.

Lemma irq_snapshot_restore_witness :
  @restore le_codec example_irqc (@snapshot le_codec example_raised ++ [7]) = ([7], Ok example_raised).
Proof. apply (@irq_snapshot_restore le_codec); [exact example_raised_ok | reflexivity | reflexivity]. Defined.

Lemma irq_restore_invariant_witness : irq_ok example_raised.
Proof.
  apply (@irq_restore_invariant le_codec example_irqc (@snapshot le_codec example_raised) [] example_raised
    example_irqc_ok); [|reflexivity]. apply (bool_decide_unpack _). vm_compute. exact I.
Defined.
