(* ===== verification/Media.v ===== *)
(** The block device, [components/platform/src/media.rs]: 512-byte blocks in an ordered map
    that holds no all-zero block, served over [block.v0].

    [block] reads the device as a flat array of blocks.  Proved: the handler refines that
    array ([disk_access]), with out-of-range and bad blocks answered as errors; the image is
    copied in exactly; equal contents give equal snapshots; a snapshot restores the device
    exactly, and whatever restore accepts is a device in the invariant. *)
From stdpp Require Import base numbers list option strings gmap sorting.
From Stdlib Require Import ZArith Lia.
From S2P Require Import Prelude Contracts Handlers Snapshots Platform.

Local Open Scope string_scope.
Local Open Scope list_scope.
Local Open Scope Z_scope.

Definition PORT : Z := 0.
Definition SNAPSHOT_SCHEMA : Z := 1.
Definition READ_KIND : string := "platform.disk.read".
Definition WRITE_KIND : string := "platform.disk.write".

Record BlockMediaConfig : Set := mkBlockMediaConfig {
  capacity_blocks : Z; latency : LinkLatency; bad_blocks : gset Z }.

Record MediaImage : Set := mkMediaImage { img_hash : list Z; bytes : list Z }.

Inductive BlockMediaConfigError : Set :=
| ZeroCapacity
| PartialBlock (len : Z)
| ImageTooLarge (blocks : Z).

Record SimpleBlockMedia : Set := mkSimpleBlockMedia {
  config : BlockMediaConfig; image_hash : list Z; blocks : gmap Z (list Z) }.

Definition set_blocks (b : gmap Z (list Z)) (m : SimpleBlockMedia) : SimpleBlockMedia :=
  mkSimpleBlockMedia (config m) (image_hash m) b.

Definition zero_block : list Z := replicate BLOCK_SIZE 0.

(** [SimpleBlockMedia::check]. *)
Definition check_lba (m : SimpleBlockMedia) (lba : Z) : option MediaError :=
  if capacity_blocks (config m) <=? lba then Some OutOfRange
  else if bool_decide (lba ∈ bad_blocks (config m)) then Some BadBlock
  else None.

Definition load (m : SimpleBlockMedia) (lba : Z) : list Z :=
  match blocks m !! lba with
  | Some block => block
  | None => zero_block
  end.

Definition store (m : SimpleBlockMedia) (lba : Z) (data : list Z) : SimpleBlockMedia :=
  set_blocks (if all_zero data then delete lba (blocks m) else <[lba := data]> (blocks m)) m.

(** [for (lba, data) in (0..).zip(chunks)]; [n] chunks are left. *)
Fixpoint store_image (n : nat) (lba : Z) (data : list Z) (m : SimpleBlockMedia) : SimpleBlockMedia :=
  match n with
  | O => m
  | S n => store_image n (lba + 1) (drop BLOCK_SIZE data) (store m lba (take BLOCK_SIZE data))
  end.

Definition new (cfg : BlockMediaConfig) (image : MediaImage) :
    result BlockMediaConfigError SimpleBlockMedia :=
  let len := length (bytes image) in
  if capacity_blocks cfg =? 0 then Err ZeroCapacity
  else if negb (len mod BLOCK_SIZE =? 0)%nat then Err (PartialBlock (Z.of_nat len))
  else
    let image_blocks := Z.of_nat (len / BLOCK_SIZE) in
    if capacity_blocks cfg <? image_blocks then Err (ImageTooLarge image_blocks)
    else Ok (store_image (len / BLOCK_SIZE) 0 (bytes image)
               (mkSimpleBlockMedia cfg (img_hash image) ∅)).

Definition outcome_name (error : option MediaError) : Value :=
  VStr match error with
       | None => "ok"
       | Some OutOfRange => "out_of_range"
       | Some BadBlock => "bad_block"
       end.

Section handlers.
Context {C : Type} `{SimContext C}.

Local Abbreviation M := (ST (SimpleBlockMedia * C) Failure).

(** The [match msg] of [handle_event]: the trace kind, the LBA, the error and the result. *)
Definition respond (msg : BlockMsg) : M (string * Z * option MediaError * BlockMsg) :=
  m ← self;
  match msg with
  | ReadBlock txn lba =>
      let error := check_lba m lba in
      let outcome := match error with
                     | None => BlockRead_Data (load m lba)
                     | Some error => BlockRead_Error error
                     end in
      mret (READ_KIND, lba, error, ReadResult txn outcome)
  | WriteBlock txn lba data =>
      if negb (length data =? BLOCK_SIZE)%nat then fault "disk: write data is not 512 bytes"
      else
        let error := check_lba m lba in
        outcome ← match error with
                  | None => update (fun m => store m lba data);; mret BlockWrite_Done
                  | Some error => mret (BlockWrite_Error error)
                  end;
        mret (WRITE_KIND, lba, error, WriteResult txn outcome)
  | ReadResult _ _ | WriteResult _ _ =>
      panic "internal error: entered unreachable code: results were rejected above"
  end.

Definition handle_event (ev : Delivered) : M unit :=
  match ev with
  | Delivered_Message port (Message_Block msg) =>
      if negb (port =? PORT) then fault "disk: unexpected delivery"
      else if match msg with ReadResult _ _ | WriteResult _ _ => true | _ => false end
      then fault "disk: result on the target port"
      else
        phase ← phase_of_event;
        if bool_decide (phase <> Phase_Request) then fault "disk: request outside the Request phase"
        else
          '(kind, lba, error, result) ← respond msg;
          trace kind [("lba", VU64 lba); ("outcome", outcome_name error)];;
          m ← self;
          call (ctx_send PORT (Message_Block result) (delay (latency (config m))) Phase_Complete)
  | _ => fault "disk: unexpected delivery"
  end.
End handlers.

Section snapshot.
Context `{SnapshotCodec}.

Local Abbreviation R := (ST (list Z) RestoreError).

(** The elements of a [BTreeSet], ascending. *)
Definition ascending (s : gset Z) : list Z := sort_by Z.leb (elements s).

Definition write_latency (m : SimpleBlockMedia) : list Z := put_latency (latency (config m)).

Definition write_config (m : SimpleBlockMedia) : list Z :=
  put_u64 (capacity_blocks (config m)) ++ write_latency m ++
  put_len (Z.of_nat (size (bad_blocks (config m)))) ++
  (ascending (bad_blocks (config m)) ≫= put_u64) ++ image_hash m.

Definition snapshot (m : SimpleBlockMedia) : list Z :=
  write_config m ++ put_len (Z.of_nat (size (blocks m))) ++
  (entries (blocks m) ≫= fun e => put_u64 (fst e) ++ put_bytes (snd e)).

(** [for _ in 0..n { v.push(r.u64()?) }]. *)
Fixpoint read_u64s (n : nat) : R (list Z) :=
  match n with
  | O => mret []
  | S n => v ← rd get_u64; rest ← read_u64s n; mret (v :: rest)
  end.

(** The body of the loop of [restore], after the order check. *)
Definition read_block (m : SimpleBlockMedia) (lba : Z) : R (list Z) :=
  check (negb (capacity_blocks (config m) <=? lba)) "disk: block past the end";;
  bytes ← rd get_bytes;
  check (length bytes =? BLOCK_SIZE)%nat "disk: block is not 512 bytes";;
  check (negb (all_zero bytes)) "disk: all-zero block";;
  mret bytes.

Definition restore (m : SimpleBlockMedia) : R SimpleBlockMedia :=
  capacity ← rd get_u64;
  check (capacity =? capacity_blocks (config m)) "disk: snapshot has a different capacity";;
  expect_raw (write_latency m) "disk: snapshot has a different latency";;
  count ← rd get_len;
  let expected := ascending (bad_blocks (config m)) in
  bad ← read_u64s (Nat.min (Z.to_nat count) (length expected + 1));
  check ((Z.to_nat count =? length expected)%nat && bool_decide (bad = expected))
    "disk: snapshot has different bad blocks";;
  hash ← rd (get_raw 32);
  check (bool_decide (hash = image_hash m)) "disk: snapshot has a different image hash";;
  n ← rd get_len;
  blocks ← read_ascending (rd get_u64) "disk: blocks out of order or duplicated" (read_block m)
             (Z.to_nat n) None ∅;
  mret (set_blocks blocks m).
End snapshot.

(** * The device as an array of blocks *)

Definition block_ok (cfg : BlockMediaConfig) (lba : Z) (b : list Z) : Prop :=
  0 <= lba < capacity_blocks cfg /\ length b = BLOCK_SIZE /\ bytes_ok b /\ all_zero b = false.

Definition media_config_ok (cfg : BlockMediaConfig) : Prop :=
  0 < capacity_blocks cfg < 2 ^ 64 /\ latency_ok (latency cfg) /\
  set_Forall (in_u 64) (bad_blocks cfg) /\ Z.of_nat (size (bad_blocks cfg)) < 2 ^ 32.

Definition media_ok (m : SimpleBlockMedia) : Prop :=
  media_config_ok (config m) /\
  (bytes_ok (image_hash m) /\ length (image_hash m) = 32%nat) /\
  map_Forall (block_ok (config m)) (blocks m).

#[global] Opaque BLOCK_SIZE.

Lemma all_zero_block b : length b = BLOCK_SIZE -> all_zero b = true -> b = zero_block.
Proof.
  intros Hl Hz. apply (nth_ext _ _ 0 0).
  - unfold zero_block. rewrite length_replicate. exact Hl.
  - intros i Hi. rewrite (proj1 (all_zero_spec b) Hz i). unfold zero_block.
    rewrite nth_lookup, lookup_replicate_2 by lia. reflexivity.
Qed.

Lemma load_store m lba data k :
  length data = BLOCK_SIZE ->
  load (store m lba data) k = if bool_decide (k = lba) then data else load m k.
Proof.
  intros Hl. unfold load, store. cbn. case_bool_decide as Hk.
  - subst k. destruct (all_zero data) eqn:Ez.
    + rewrite lookup_delete_eq. symmetry. apply all_zero_block; assumption.
    + rewrite lookup_insert_eq. reflexivity.
  - destruct (all_zero data); [rewrite lookup_delete_ne by congruence | rewrite lookup_insert_ne by congruence];
      reflexivity.
Qed.

Lemma store_ok m lba data :
  media_ok m -> 0 <= lba < capacity_blocks (config m) -> length data = BLOCK_SIZE -> bytes_ok data ->
  media_ok (store m lba data).
Proof.
  intros (Hc & Hh & Hb) Hlba Hl Hd. split; [exact Hc |]. split; [exact Hh |]. cbn.
  destruct (all_zero data) eqn:Ez; [apply map_Forall_delete, Hb |].
  apply map_Forall_insert_2; [|exact Hb]. split; [exact Hlba |]. auto.
Qed.

(** An array of blocks that answers a [block.v0] request ([docs/m2-design.md] §8.2): the array
    after it, the error if there is one, and the result; nothing for what is no request. *)
Definition disk_access (cfg : BlockMediaConfig) (disk : Z -> list Z) (msg : BlockMsg) :
    option ((Z -> list Z) * string * Z * option MediaError * BlockMsg) :=
  let error lba :=
    if capacity_blocks cfg <=? lba then Some OutOfRange
    else if bool_decide (lba ∈ bad_blocks cfg) then Some BadBlock else None in
  match msg with
  | ReadBlock txn lba =>
      Some (disk, READ_KIND, lba, error lba,
        ReadResult txn match error lba with Some e => BlockRead_Error e | None => BlockRead_Data (disk lba) end)
  | WriteBlock txn lba data =>
      if negb (length data =? BLOCK_SIZE)%nat then None
      else match error lba with
           | Some e => Some (disk, WRITE_KIND, lba, Some e, WriteResult txn (BlockWrite_Error e))
           | None => Some (fun k => if bool_decide (k = lba) then data else disk k,
                           WRITE_KIND, lba, None, WriteResult txn BlockWrite_Done)
           end
  | ReadResult _ _ | WriteResult _ _ => None
  end.

Lemma check_lba_in_range m lba : 0 <= lba -> check_lba m lba = None -> 0 <= lba < capacity_blocks (config m).
Proof. unfold check_lba. destruct (Z.leb_spec (capacity_blocks (config m)) lba); [discriminate | lia]. Qed.

Section serving.
Context {C : Type} `{SimContext C}.

(** One message: a request arriving in [Request] on its port is
    answered exactly as the array answers it, traced, and sent after the latency; out-of-range
    and bad blocks are errors that read and write nothing; the blocks read afterwards are the
    array's, and the invariant is kept.  A result or a write that is not one block faults the
    session and changes nothing, and nothing panics. *)
Lemma media_serves (m : SimpleBlockMedia) (ctx : C) msg :
  media_ok m -> block_msg_ok msg -> ctx_phase ctx = Phase_Request ->
  match disk_access (config m) (load m) msg with
  | None => exists what,
      handle_event (Delivered_Message PORT (Message_Block msg)) (m, ctx) =
      ((m, ctx), Err (Fails (ComponentFault what)))
  | Some (disk, kind, lba, error, result) => exists m',
      media_ok m' /\ (forall k, load m' k = disk k) /\
      (config m', image_hash m') = (config m, image_hash m) /\
      handle_event (Delivered_Message PORT (Message_Block msg)) (m, ctx) =
      let '(ctx', r) :=
        ctx_send PORT (Message_Block result) (delay (latency (config m))) Phase_Complete
          (ctx_trace kind [("lba", VU64 lba); ("outcome", outcome_name error)] ctx) in
      ((m', ctx'), map_err Fails r)
  end.
Proof.
  intros Hok Hm Hph. unfold handle_event. cbn [negb]. rewrite Z.eqb_refl. cbn [negb].
  destruct msg as [txn lba|txn lba data|txn o|txn o]; cbn [disk_access]; try (eexists; reflexivity).
  - exists m. split; [exact Hok |]. split; [reflexivity |]. split; [reflexivity |].
    rewrite ST_bind_unfold. cbn [phase_of_event snd]. rewrite Hph.
    rewrite (bool_decide_eq_false_2 (Phase_Request <> Phase_Request)) by (intros Hn; apply Hn; reflexivity). reflexivity.
  - destruct Hm as (_ & [Hlba _] & Hd).
    rewrite ST_bind_unfold. cbn [phase_of_event snd]. rewrite Hph.
    rewrite (bool_decide_eq_false_2 (Phase_Request <> Phase_Request)) by (intros Hn; apply Hn; reflexivity).
    rewrite ST_bind_unfold. unfold respond. rewrite ST_bind_unfold. cbn [self fst].
    destruct (Nat.eqb_spec (length data) BLOCK_SIZE) as [Hl|Hl]; cbn [negb]; [|eexists; reflexivity].
    change (if capacity_blocks (config m) <=? lba then Some OutOfRange
            else if bool_decide (lba ∈ bad_blocks (config m)) then Some BadBlock else None) with (check_lba m lba).
    destruct (check_lba m lba) as [e|] eqn:E.
    + exists m. auto.
    + exists (store m lba data). split; [apply store_ok; try assumption; apply check_lba_in_range; assumption |].
      split; [intros k; apply load_store, Hl |]. auto.
Qed.
End serving.

Section runs.
#[local] Existing Instance recording_context.

(** The messages a log sends. *)
Definition results (log : list Effect) : list BlockMsg :=
  omap (fun e => match e with Sent _ (Message_Block m) _ _ => Some m | _ => None end) log.

(** The device and its results over a sequence of messages, those it refuses included. *)
Fixpoint serve_all (m : SimpleBlockMedia) (msgs : list BlockMsg) : SimpleBlockMedia * list BlockMsg :=
  match msgs with
  | [] => (m, [])
  | msg :: msgs =>
      let '((m, ctx), _) :=
        handle_event (Delivered_Message PORT (Message_Block msg)) (m, mkRecCtx Phase_Request []) in
      let '(m, rest) := serve_all m msgs in
      (m, results (rec_log ctx) ++ rest)
  end.

(** The same of the array. *)
Fixpoint disk_all (cfg : BlockMediaConfig) (disk : Z -> list Z) (msgs : list BlockMsg) :
    (Z -> list Z) * list BlockMsg :=
  match msgs with
  | [] => (disk, [])
  | msg :: msgs =>
      match disk_access cfg disk msg with
      | Some (disk, _, _, _, result) => let '(disk, rest) := disk_all cfg disk msgs in (disk, result :: rest)
      | None => disk_all cfg disk msgs
      end
  end.

Lemma disk_all_ext cfg msgs : forall disk disk',
  (forall k, disk k = disk' k) ->
  snd (disk_all cfg disk msgs) = snd (disk_all cfg disk' msgs) /\
  forall k, fst (disk_all cfg disk msgs) k = fst (disk_all cfg disk' msgs) k.
Proof.
  induction msgs as [|msg msgs IH]; intros disk disk' Hd; cbn [disk_all]; [auto |].
  assert (Hx : match disk_access cfg disk msg, disk_access cfg disk' msg with
    | Some (x, _, _, _, r), Some (x', _, _, _, r') => r = r' /\ forall k, x k = x' k
    | None, None => True
    | _, _ => False
    end).
  { destruct msg as [txn lba|txn lba data|txn o|txn o]; cbn [disk_access]; try exact I.
    - rewrite Hd. auto.
    - repeat case_if; try exact I; (split; [reflexivity |]); auto. intros k. case_bool_decide; auto. }
  destruct (disk_access cfg disk msg) as [[[[[x ?] ?] ?] r]|],
    (disk_access cfg disk' msg) as [[[[[x' ?] ?] ?] r']|]; try contradiction; [|auto].
  destruct Hx as [-> Hx]. destruct (IH x x' Hx) as [Hs Hf].
  destruct (disk_all cfg x msgs), (disk_all cfg x' msgs). cbn in *. rewrite Hs. auto.
Qed.

(** The device refines an array of blocks: over any sequence of [block.v0] messages it
    sends exactly the results the array gives, one per request, in order, and ends with
    exactly the array's blocks; out-of-range and bad blocks are errors that read and write
    nothing. *)
Theorem media_refines_disk (m : SimpleBlockMedia) msgs :
  media_ok m -> Forall block_msg_ok msgs ->
  let '(m', sent) := serve_all m msgs in
  let '(disk, answered) := disk_all (config m) (load m) msgs in
  sent = answered /\ (forall k, load m' k = disk k) /\ media_ok m' /\ config m' = config m.
Proof.
  intros Hok Hms. revert m Hok.
  induction Hms as [|msg msgs Hm _ IH]; intros m Hok; cbn [serve_all disk_all]; [auto |].
  pose proof (media_serves m (mkRecCtx Phase_Request []) msg Hok Hm eq_refl) as Hs.
  destruct (disk_access (config m) (load m) msg) as [[[[[disk kind] lba] err] resp]|].
  - destruct Hs as (m1 & Hok1 & Hb & [= Hc _] & ->). cbn.
    specialize (IH m1 Hok1). rewrite Hc in IH.
    destruct (disk_all_ext (config m) msgs (load m1) disk Hb) as [Hs Hf].
    destruct (serve_all m1 msgs) as [m2 out], (disk_all _ (load m1) msgs), (disk_all _ disk msgs).
    cbn in *. destruct IH as (-> & Hb2 & ? & ->). rewrite Hs.
    split; [reflexivity |]. split; [intros k; rewrite Hb2; apply Hf |]. auto.
  - destruct Hs as [what ->]. cbn. specialize (IH m Hok). destruct (serve_all m msgs). exact IH.
Qed.
End runs.

(** * Construction *)

(** Block [i] of a byte string. *)
Definition image_block (data : list Z) (i : nat) : list Z := take BLOCK_SIZE (drop (i * BLOCK_SIZE) data).

Lemma store_image_spec cfg hash n : forall lba data m,
  media_ok m -> (config m, image_hash m) = (cfg, hash) -> bytes_ok data ->
  (n * BLOCK_SIZE <= length data)%nat -> 0 <= lba -> lba + Z.of_nat n <= capacity_blocks cfg ->
  media_ok (store_image n lba data m) /\
  (config (store_image n lba data m), image_hash (store_image n lba data m)) = (cfg, hash) /\
  forall k, load (store_image n lba data m) k =
    if (lba <=? k) && (k <? lba + Z.of_nat n) then image_block data (Z.to_nat (k - lba)) else load m k.
Proof.
  induction n as [|n IH]; intros lba data m Hok Hc Hd Hl H0 Hcap; cbn [store_image].
  - split; [exact Hok |]. split; [exact Hc |]. intros k.
    destruct (Z.leb_spec lba k), (Z.ltb_spec k (lba + Z.of_nat 0)); cbn [andb]; lia || reflexivity.
  - assert (Ht : length (take BLOCK_SIZE data) = BLOCK_SIZE) by (rewrite length_take; lia).
    injection Hc as Hc Hh.
    destruct (IH (lba + 1) (drop BLOCK_SIZE data) (store m lba (take BLOCK_SIZE data))) as (Hok' & Hc' & Hb).
    + apply store_ok; [exact Hok | rewrite Hc; lia | exact Ht | apply Forall_take, Hd].
    + cbn. congruence.
    + apply Forall_drop, Hd.
    + rewrite length_drop. lia.
    + lia.
    + lia.
    + split; [exact Hok' |]. split; [exact Hc' |]. intros k. rewrite Hb, load_store by exact Ht.
      destruct (Z.leb_spec (lba + 1) k); cbn [andb].
      * rewrite bool_decide_eq_false_2 by lia. rewrite (proj2 (Z.leb_le lba k)) by lia. cbn [andb].
        replace (k <? lba + Z.of_nat (S n)) with (k <? lba + 1 + Z.of_nat n) by (f_equal; lia).
        destruct (k <? lba + 1 + Z.of_nat n); [|reflexivity]. unfold image_block. rewrite drop_drop.
        do 2 f_equal. replace (Z.to_nat (k - lba)) with (S (Z.to_nat (k - (lba + 1)))) by lia. lia.
      * case_bool_decide as Hk.
        -- subst k. rewrite (proj2 (Z.leb_le _ _)), (proj2 (Z.ltb_lt _ _)) by lia. cbn [andb].
           rewrite Z.sub_diag. reflexivity.
        -- rewrite (proj2 (Z.leb_gt lba k)) by lia. reflexivity.
Qed.

(** [SimpleBlockMedia::new] accepts an image if and only if the capacity is not zero and the
    image is a whole number of blocks that fit in it; the device then holds the image block by
    block, zeros past it, and satisfies the invariant. *)
Theorem media_new_exact cfg image :
  in_u 64 (capacity_blocks cfg) -> latency_ok (latency cfg) ->
  set_Forall (in_u 64) (bad_blocks cfg) -> Z.of_nat (size (bad_blocks cfg)) < 2 ^ 32 ->
  bytes_ok (img_hash image) -> length (img_hash image) = 32%nat -> bytes_ok (bytes image) ->
  match new cfg image with
  | Ok m =>
      (exists n, length (bytes image) = (n * BLOCK_SIZE)%nat /\ Z.of_nat n <= capacity_blocks cfg) /\
      media_ok m /\ (config m, image_hash m) = (cfg, img_hash image) /\
      forall k, 0 <= k -> load m k =
        if k <? Z.of_nat (length (bytes image) / BLOCK_SIZE)
        then image_block (bytes image) (Z.to_nat k) else zero_block
  | Err _ =>
      capacity_blocks cfg = 0 \/
      ~ exists n, length (bytes image) = (n * BLOCK_SIZE)%nat /\ Z.of_nat n <= capacity_blocks cfg
  end.
Proof.
  intros Hcap Hlat Hbad Hbads Hh Hhl Hd. unfold new.
  assert (HB : BLOCK_SIZE <> 0%nat) by discriminate.
  destruct (Z.eqb_spec (capacity_blocks cfg) 0); [auto |].
  destruct (Nat.eqb_spec (length (bytes image) mod BLOCK_SIZE) 0) as [Hmod|Hmod]; cbn [negb].
  2: { right. intros (n' & E & _). apply Hmod. rewrite E. apply Nat.Div0.mod_mul. }
  set (q := (length (bytes image) / BLOCK_SIZE)%nat).
  assert (Hq : length (bytes image) = (q * BLOCK_SIZE)%nat).
  { pose proof (Nat.div_mod (length (bytes image)) BLOCK_SIZE HB). subst q. lia. }
  destruct (Z.ltb_spec (capacity_blocks cfg) (Z.of_nat q)) as [Hgt|Hle].
  { right. intros (n' & E & Hn'). assert (n' = q) by (rewrite Hq in E; apply Nat.mul_cancel_r in E; auto). lia. }
  destruct (store_image_spec cfg (img_hash image) q 0 (bytes image) (mkSimpleBlockMedia cfg (img_hash image) ∅))
    as (Hok & Hc & Hb); try assumption; try reflexivity; try lia.
  { unfold in_u in Hcap. split; [split; [cbn; lia | auto] |]. split; [auto | apply map_Forall_empty]. }
  split; [exists q; auto |]. split; [exact Hok |]. split; [exact Hc |].
  intros k Hk. rewrite Hb, (proj2 (Z.leb_le 0 k)), Z.sub_0_r by exact Hk. reflexivity.
Qed.

(** * Snapshots *)

Lemma blocks_included a b k x :
  map_Forall (block_ok (config a)) (blocks a) -> map_Forall (block_ok (config b)) (blocks b) ->
  (forall lba, 0 <= lba < capacity_blocks (config a) -> load a lba = load b lba) ->
  blocks a !! k = Some x -> blocks b !! k = Some x.
Proof.
  intros Ha Hb Hl Hx. destruct (Ha _ _ Hx) as (Hk & Hlen & _ & Hz). specialize (Hl k Hk).
  unfold load in Hl. rewrite Hx in Hl. destruct (blocks b !! k) as [y|]; [congruence |].
  rewrite Hl in Hz. exfalso. apply eq_true_false_abs with (b := all_zero zero_block); [|exact Hz].
  apply all_zero_spec. intros i. unfold zero_block. rewrite nth_lookup.
  destruct (replicate BLOCK_SIZE 0 !! i) as [v|] eqn:E; [|reflexivity].
  apply lookup_replicate in E as [-> _]. reflexivity.
Qed.

Section snapshots.
Context `{SnapshotCodec}.

(** The snapshot is a function of the contents: two devices of one configuration whose
    blocks read the same have the same snapshot, whatever writes produced them. *)
Theorem media_snapshot_canonical a b :
  media_ok a -> media_ok b -> (config a, image_hash a) = (config b, image_hash b) ->
  (forall lba, 0 <= lba < capacity_blocks (config a) -> load a lba = load b lba) ->
  snapshot a = snapshot b.
Proof.
  intros (_ & _ & Ha) (_ & _ & Hb) Hc Hl. injection Hc as Hc Hh.
  assert (E : blocks a = blocks b).
  { apply map_eq. intros k. destruct (blocks a !! k) as [x|] eqn:Ex.
    - symmetry. apply (blocks_included a b); assumption.
    - destruct (blocks b !! k) as [y|] eqn:Ey; [|reflexivity]. rewrite <- Ex.
      apply (blocks_included b a); try assumption. rewrite <- Hc. intros. symmetry. auto. }
  destruct a, b. cbn in *. subst. reflexivity.
Qed.

Lemma length_ascending s : length (ascending s) = size s.
Proof. unfold ascending. rewrite sort_by_perm. reflexivity. Qed.

Lemma reads_u64s l : Forall (in_u 64) l -> reads (read_u64s (length l)) (l ≫= put_u64) l.
Proof.
  induction 1 as [|v l Hv _ IH]; [apply reads_ret |]. cbn [length read_u64s].
  change ((v :: l) ≫= put_u64) with (put_u64 v ++ (l ≫= put_u64)).
  eapply reads_bind; [apply reads_u64, Hv |]. eapply reads_last; [exact IH | apply reads_ret].
Qed.

Lemma reads_block self m lba b :
  config self = config m -> block_ok (config m) lba b -> reads (read_block self lba) (put_bytes b) b.
Proof.
  intros Hc (Hk & Hl & Hb & Hz). unfold read_block. rewrite Hc.
  eapply reads_then; [apply reads_check, negb_true_iff, Z.leb_gt; lia |].
  eapply reads_last; [apply reads_bytes; [exact Hb |]; rewrite Hl; const_range |].
  eapply reads_then; [apply reads_check, Nat.eqb_eq, Hl |].
  eapply reads_then; [apply reads_check; rewrite Hz; reflexivity | apply reads_ret].
Qed.

Lemma media_reads_restore self m :
  media_ok m -> (config self, image_hash self) = (config m, image_hash m) ->
  Z.of_nat (size (blocks m)) < 2 ^ 32 -> reads (restore self) (snapshot m) m.
Proof.
  intros (((Hcap & Hcap') & Hlat & Hbad & Hbads) & [Hh Hhl] & Hb) Hc Hsz. injection Hc as Hc Hhash.
  unfold restore, snapshot, write_config, write_latency. rewrite Hc, Hhash, <- !app_assoc.
  eapply reads_bind; [apply reads_u64; split; lia |]. rewrite Z.eqb_refl.
  eapply reads_then; [apply reads_check; reflexivity |].
  eapply reads_bind; [apply reads_expect_raw |].
  eapply reads_bind; [apply reads_len; split; lia |]. cbn zeta. rewrite Nat2Z.id, <- length_ascending.
  rewrite Nat.min_l by lia. eapply reads_bind.
  { apply reads_u64s. apply Forall_forall. intros v Hv. apply Hbad. unfold ascending in Hv.
    rewrite sort_by_perm in Hv. apply elem_of_elements, Hv. }
  eapply reads_then; [apply reads_check; rewrite Nat.eqb_refl; apply bool_decide_eq_true_2; reflexivity |].
  eapply reads_bind; [rewrite <- Hhl; apply reads_raw |].
  eapply reads_then; [apply reads_check, bool_decide_eq_true_2; reflexivity |].
  eapply reads_bind; [apply reads_len; split; lia |]. rewrite Nat2Z.id. eapply reads_last.
  - apply (reads_entries _ _ _ put_u64 put_bytes). intros k b Hk. pose proof (Hb _ _ Hk) as Hbk.
    split; [apply reads_u64; destruct Hbk as [? _]; split; lia | apply (reads_block self m); assumption].
  - destruct m, self. cbn in *. subst. apply reads_ret.
Qed.

(** A snapshot restores the device exactly, into any device of the same configuration and
    image hash, whatever it holds; the initial image is not re-applied. *)
Theorem media_snapshot_restore self m rest :
  media_ok m -> (config self, image_hash self) = (config m, image_hash m) ->
  Z.of_nat (size (blocks m)) < 2 ^ 32 ->
  restore self (snapshot m ++ rest) = (rest, Ok m).
Proof. intros Hok Hc Hsz. apply (media_reads_restore self m Hok Hc Hsz). Qed.

Lemma yields_block m lba :
  0 <= lba -> yields (read_block m lba) (block_ok (config m) lba).
Proof.
  intros Hk. unfold read_block. repeat yields_next. apply yields_ret. deconj. unbool.
  match goal with H : (_ =? _)%nat = true |- _ => apply Nat.eqb_eq in H end.
  split; [lia | auto].
Qed.

Lemma yields_u64s n : yields (read_u64s n) (fun _ => True).
Proof.
  induction n as [|n IH]; cbn [read_u64s]; [apply yields_ret; exact I |].
  yields_next. eapply yields_bind; [exact IH |]. intros l _. apply yields_ret. exact I.
Qed.

Lemma media_restore_accepts m :
  media_ok m ->
  yields (restore m) (fun m' => media_ok m' /\ (config m', image_hash m') = (config m, image_hash m)).
Proof.
  intros (Hc & Hh & _). unfold restore. do 4 yields_next.
  eapply yields_bind; [apply yields_u64s |]. intros bad _. do 4 yields_next.
  eapply yields_bind.
  - apply (yields_ascending _ _ _ (in_u 64) (block_ok (config m))); [apply yields_u64 | |apply map_Forall_empty].
    intros k [Hk _]. apply yields_block, Hk.
  - intros blocks Hb. apply yields_ret. split; [|reflexivity]. split; [exact Hc |]. split; [exact Hh | exact Hb].
Qed.

(** Whatever bytes are restored, a device that [restore] accepts satisfies the invariant,
    with the configuration it had. *)
Theorem media_restore_invariant m bs rest m' :
  media_ok m -> bytes_ok bs -> restore m bs = (rest, Ok m') ->
  media_ok m' /\ (config m', image_hash m') = (config m, image_hash m).
Proof. intros Hok Hbs E. exact (proj1 (wp_use _ _ _ _ _ _ (media_restore_accepts m Hok bs Hbs) E)). Qed.
End snapshots.

(** * Witnesses *)

#[local] Existing Instance recording_context.

Definition example_config : BlockMediaConfig := mkBlockMediaConfig 4 (Latency_Cycles 0 3) {[2]}.
Definition example_hash : list Z := replicate 32 9.
Definition example_block : list Z := 1 :: replicate 511 0.
Definition example_media : SimpleBlockMedia :=
  mkSimpleBlockMedia example_config example_hash {[1 := example_block]}.
Definition example_blank : SimpleBlockMedia := mkSimpleBlockMedia example_config example_hash ∅.

Lemma example_disk_ok : media_config_ok example_config.
Proof.
  split; [cbn; lia |]. split; [split; const_range |]. split; [|vm_compute; reflexivity].
  intros x Hx. change (x ∈ ({[2]} : gset Z)) in Hx. apply elem_of_singleton in Hx as ->. const_range.
Qed.

Lemma example_hash_ok : bytes_ok example_hash /\ length example_hash = 32%nat.
Proof. split; [apply Forall_replicate; const_range | reflexivity]. Qed.

Lemma example_media_ok : media_ok example_media.
Proof.
  split; [exact example_disk_ok |]. split; [exact example_hash_ok |].
  apply map_Forall_singleton. split; [cbn; lia |]. split; [vm_compute; reflexivity |]. split; [|reflexivity].
  constructor; [const_range | apply Forall_replicate; const_range].
Qed.

Lemma media_refines_disk_witness :
  let '(m', sent) := serve_all example_media [ReadBlock 7 2; ReadBlock 8 0] in
  let '(disk, answered) := disk_all (config example_media) (load example_media) [ReadBlock 7 2; ReadBlock 8 0] in
  sent = answered /\ (forall k, load m' k = disk k) /\ media_ok m' /\ config m' = config example_media.
Proof.
  apply (media_refines_disk example_media); [exact example_media_ok |].
  constructor; [split; const_range |]. constructor; [split; const_range | constructor].
Defined.

Lemma media_new_exact_witness :
  media_ok (mkSimpleBlockMedia example_config example_hash ∅).
Proof.
  pose proof (media_new_exact example_config (mkMediaImage example_hash [])
    ltac:(const_range) (proj1 (proj2 example_disk_ok)) (proj1 (proj2 (proj2 example_disk_ok)))
    ltac:(vm_compute; reflexivity) (proj1 example_hash_ok) (proj2 example_hash_ok) (Forall_nil_2 _)) as H.
  exact (proj1 (proj2 H)).
Defined.

Lemma media_snapshot_canonical_witness :
  @snapshot le_codec example_media =
  @snapshot le_codec (mkSimpleBlockMedia example_config example_hash (<[1 := example_block]> ∅)).
Proof.
  apply (@media_snapshot_canonical le_codec);
    [exact example_media_ok | exact example_media_ok | reflexivity | reflexivity].
Defined.

Lemma media_snapshot_restore_witness :
  @restore le_codec example_blank (@snapshot le_codec example_media ++ [3]) = ([3], Ok example_media).
Proof.
  apply (@media_snapshot_restore le_codec); [exact example_media_ok | reflexivity | vm_compute; reflexivity].
Defined.

Lemma example_media_restored :
  @restore le_codec example_media (@snapshot le_codec example_media) = ([], Ok example_media).
Proof.
  rewrite <- (app_nil_r (snapshot example_media)).
  exact (@media_reads_restore le_codec example_media example_media example_media_ok eq_refl eq_refl []).
Qed.

Lemma media_restore_invariant_witness : media_ok example_media.
Proof.
  apply (@media_restore_invariant le_codec example_media (@snapshot le_codec example_media) [] example_media
    example_media_ok); [|exact example_media_restored].
  apply (bool_decide_unpack _). vm_compute. exact I.
Defined.
