(* ===== verification/Bus.v ===== *)
(** The single-initiator bus, [components/platform/src/bus.rs]: [mem.v1] requests from the CPU
    decoded onto memory-mapped regions, their responses relayed back.

    Proved: the constructor accepts exactly the memory maps that decode uniquely; a request is
    routed to a region if and only if the region holds every byte of it, and refused with an
    access fault otherwise; each event does exactly what the module says, so that the
    outstanding map is the requests forwarded and not yet answered; a snapshot restores the
    bus exactly and restore accepts only states of the invariant. *)
From stdpp Require Import base numbers list option strings gmap sorting.
From Stdlib Require Import ZArith Lia.
From S2P Require Import Prelude Contracts Handlers Snapshots Platform.

Local Open Scope string_scope.
Local Open Scope list_scope.
Local Open Scope Z_scope.

Definition CPU_PORT : Z := 0.
Definition FAULT_KIND : string := "platform.bus.fault".
Definition SNAPSHOT_SCHEMA : Z := 1.

Definition region_port (index : Z) : Z := index + 1.

Record Region : Set := mkRegion { name : string; base : Z; size : Z }.

#[export] Instance Region_eq_dec : EqDecision Region.
Proof. solve_decision. Defined.

Module Region.
Definition last (r : Region) : Z := base r + (size r - 1).
End Region.

Inductive BusConfigError : Set :=
| ZeroSize (name : string)
| Wraps (name : string)
| Overlap (a b : string)
| DuplicateName (name : string)
| ReservedName (name : string)
| TooManyRegions.

Record Outstanding : Set := mkOutstanding { region : Z; write : bool }.

#[export] Instance Outstanding_eq_dec : EqDecision Outstanding.
Proof. solve_decision. Defined.

Record AddressBus : Set := mkAddressBus { regions : list Region; outstanding : gmap Z Outstanding }.

Definition set_outstanding (o : gmap Z Outstanding) (b : AddressBus) : AddressBus :=
  mkAddressBus (regions b) o.

Definition request_txn (msg : MemMsg) : option (Z * bool) :=
  match msg with
  | ReadReq txn _ _ => Some (txn, false)
  | WriteReq txn _ _ => Some (txn, true)
  | ReadResp _ _ | WriteResp _ _ => None
  end.

Definition at_offset (msg : MemMsg) (offset : Z) : MemMsg :=
  match msg with
  | ReadReq txn _ len => ReadReq txn offset len
  | WriteReq txn _ data => WriteReq txn offset data
  | resp => resp
  end.

(** The checks of a region against the [earlier] ones, in order. *)
Fixpoint check_earlier (r : Region) (earlier : list Region) : result BusConfigError unit :=
  match earlier with
  | [] => Ok tt
  | e :: earlier =>
      if bool_decide (name e = name r) then Err (DuplicateName (name r))
      else if (base e <=? Region.last r) && (base r <=? Region.last e)
      then Err (Overlap (name e) (name r))
      else check_earlier r earlier
  end.

Definition check_region (r : Region) (earlier : list Region) : result BusConfigError unit :=
  if size r =? 0 then Err (ZeroSize (name r))
  else if bool_decide (checked_add 64 (base r) (size r - 1) = None) then Err (Wraps (name r))
  else if bool_decide (name r = "cpu") then Err (ReservedName (name r))
  else check_earlier r earlier.

(** [for (i, region) in regions.iter().enumerate()]; [earlier] is [regions[..i]]. *)
Fixpoint check_regions (earlier rs : list Region) : result BusConfigError unit :=
  match rs with
  | [] => Ok tt
  | r :: rs => check_region r earlier ≫= fun _ => check_regions (earlier ++ [r]) rs
  end.

Definition new (rs : list Region) : result BusConfigError AddressBus :=
  if 0xFFFF <=? Z.of_nat (length rs) then Err TooManyRegions
  else check_regions [] rs ≫= fun _ => Ok (mkAddressBus rs ∅).

(** The index conversion cannot fail: [new] bounds the count. *)
Definition route (b : AddressBus) (first last : Z) : option Z :=
  index ← position_by (fun r => (base r <=? first) && (first <=? Region.last r)) (regions b);
  r ← regions b !! index;
  if last <=? Region.last r then Some (Z.of_nat index) else None.

Section handlers.
Context {C : Type} `{SimContext C, MemClassify}.

Local Abbreviation M := (ST (AddressBus * C) Failure).

(** What [fault] answers and traces. *)
Definition fault_response (msg : MemMsg) : option (Z * Z * Z * MemMsg) :=
  match msg with
  | ReadReq txn addr len => Some (txn, addr, len, ReadResp txn (ReadOutcome_Fault AccessFault))
  | WriteReq txn addr data =>
      Some (txn, addr, Z.of_nat (length data), WriteResp txn (WriteOutcome_Fault AccessFault))
  | ReadResp _ _ | WriteResp _ _ => None
  end.

(** [AddressBus::fault]. *)
Definition access_fault (msg : MemMsg) : M unit :=
  match fault_response msg with
  | None => fault "address bus: response on the cpu port"
  | Some (txn, addr, len, resp) =>
      call (ctx_send CPU_PORT (Message_MemV1 resp) When_Now Phase_Complete);;
      trace FAULT_KIND [("txn", VU64 txn); ("addr", VU64 addr); ("len", VU64 len)]
  end.

Definition request (msg : MemMsg) : M unit :=
  match request_txn msg, access msg with
  | Some (txn, wr), Some acc =>
      phase ← phase_of_event;
      if bool_decide (phase <> Phase_Request) then fault "address bus: request arrived after REQUEST"
      else
        b ← self;
        if bool_decide (is_Some (outstanding b !! txn)) then
          fault "address bus: request reuses an outstanding txn"
        else
          routed ← match acc with
                   | Empty => fault "address bus: zero-length request"
                   | AccessOutOfRange => mret None
                   | Bytes first last => mret (i ← route b first last; Some (i, first))
                   end;
          match routed with
          | Some (reg, first) =>
              match regions b !! Z.to_nat reg with
              | None => panic "index out of bounds"
              | Some r =>
                  update (fun b => set_outstanding (<[txn := mkOutstanding reg wr]> (outstanding b)) b);;
                  call (ctx_send (region_port reg) (Message_MemV1 (at_offset msg (first - base r)))
                          When_Now Phase_Transfer)
              end
          | None => access_fault msg
          end
  | _, _ => fault "address bus: response on the cpu port"
  end.

Definition response_txn (msg : MemMsg) : option (Z * bool) :=
  match msg with
  | ReadResp txn _ => Some (txn, false)
  | WriteResp txn _ => Some (txn, true)
  | ReadReq _ _ _ | WriteReq _ _ _ => None
  end.

Definition response (port : Z) (msg : MemMsg) : M unit :=
  match response_txn msg with
  | None => fault "address bus: request on a region port"
  | Some (txn, wr) =>
      b ← self;
      reg ← try (ok_or (i ← checked_sub port 1;
                        if i <? Z.of_nat (length (regions b)) then Some i else None)
                   (ComponentFault "address bus: unknown port"));
      expected ← try (ok_or (outstanding b !! txn)
                        (ComponentFault "address bus: response for unknown txn"));
      if negb (region expected =? reg) then fault "address bus: response on the wrong region port"
      else if negb (Bool.eqb (write expected) wr) then fault "address bus: response kind mismatch"
      else
        update (fun b => set_outstanding (delete txn (outstanding b)) b);;
        phase ← phase_of_event;
        call (ctx_send CPU_PORT (Message_MemV1 msg) When_Now phase)
  end.

Definition handle_event (ev : Delivered) : M unit :=
  match ev with
  | Delivered_Message port (Message_MemV1 msg) =>
      if port =? CPU_PORT then request msg else response port msg
  | Delivered_Message _ (Message_Mem _) => fault "address bus: mem.v0 message"
  | Delivered_Message _ (Message_Irq _) | Delivered_Message _ (Message_Block _) =>
      fault "address bus: non-mem message"
  | Delivered_Wake _ => fault "address bus: unexpected wake"
  end.
End handlers.

Section snapshot.
Context `{SnapshotCodec}.

Local Abbreviation R := (ST (list Z) RestoreError).

Definition write_region (r : Region) : list Z := put_str (name r) ++ put_u64 (base r) ++ put_u64 (size r).

Definition write_config (b : AddressBus) : list Z :=
  put_len (Z.of_nat (length (regions b))) ++ (regions b ≫= write_region).

Definition snapshot (b : AddressBus) : list Z :=
  write_config b ++ put_len (Z.of_nat (base.size (outstanding b))) ++
  (entries (outstanding b) ≫= fun e => put_u64 (fst e) ++ (put_u16 (region (snd e)) ++ put_bool (write (snd e)))).

(** [for region in &self.regions { if r.str()? != .. || r.u64()? != .. || .. }]. *)
Fixpoint read_regions (different : string) (rs : list Region) : R unit :=
  match rs with
  | [] => mret tt
  | r :: rs =>
      n ← rd get_str; check (bool_decide (n = name r)) different;;
      b ← rd get_u64; check (b =? base r) different;;
      s ← rd get_u64; check (s =? size r) different;;
      read_regions different rs
  end.

(** The body of the loop of [restore], after the order check. *)
Definition read_outstanding (b : AddressBus) (txn : Z) : R Outstanding :=
  reg ← rd get_u16;
  check (negb (Z.of_nat (length (regions b)) <=? reg)) "address bus: outstanding txn on an unknown region";;
  wr ← rd get_bool;
  mret (mkOutstanding reg wr).

Definition restore (b : AddressBus) : R AddressBus :=
  let different := "address bus: snapshot was taken with a different memory map" in
  n ← rd get_len;
  check (n =? Z.of_nat (length (regions b))) different;;
  read_regions different (regions b);;
  k ← rd get_len;
  o ← read_ascending (rd get_u64) "address bus: outstanding txns out of order or duplicated"
        (read_outstanding b) (Z.to_nat k) None ∅;
  mret (set_outstanding o b).
End snapshot.

(** * Memory maps *)

Definition holds (r : Region) (a : Z) : Prop := base r <= a < base r + size r.

(** The integers of a region fit their types. *)
Definition region_typed (r : Region) : Prop := in_u 64 (base r) /\ in_u 64 (size r).

Definition region_ok (r : Region) : Prop :=
  0 < size r /\ base r + size r <= 2 ^ 64 /\ name r <> "cpu".

Definition apart (r s : Region) : Prop := name r <> name s /\ forall a, holds r a -> ~ holds s a.

(** A memory map: regions that fit, with distinct names, and no byte in two of them. *)
Definition decodes (rs : list Region) : Prop :=
  Forall region_ok rs /\
  forall i j r s, rs !! i = Some r -> rs !! j = Some s -> i <> j -> apart r s.

Lemma apart_sym r s : apart r s -> apart s r.
Proof. intros [Hn Ha]. split; [congruence |]. intros a Hs Hr. exact (Ha a Hr Hs). Qed.

Lemma apart_spec r s :
  region_ok r -> region_ok s -> name r <> name s ->
  (base r <=? Region.last s) && (base s <=? Region.last r) = false <-> apart r s.
Proof.
  intros (Hr & _) (Hs & _) Hn. unfold apart, holds, Region.last. rewrite andb_false_iff, !Z.leb_gt. split.
  - intros H. split; [exact Hn |]. intros a. lia.
  - intros [_ H]. specialize (H (Z.max (base r) (base s))). lia.
Qed.

Lemma check_earlier_spec r earlier :
  region_ok r -> Forall region_ok earlier ->
  check_earlier r earlier = Ok tt <-> Forall (fun e => apart e r) earlier.
Proof.
  intros Hr. induction 1 as [|e earlier He _ IH]; cbn; [split; [constructor | reflexivity] |].
  rewrite Forall_cons. case_bool_decide as Hn.
  - split; [discriminate |]. intros [[Hne _] _]. contradiction.
  - rewrite <- (apart_spec e r He Hr Hn). destruct (_ && _).
    + split; [discriminate | intros [? _]; discriminate].
    + rewrite IH. tauto.
Qed.

Lemma check_region_spec r earlier :
  region_typed r -> Forall region_ok earlier ->
  check_region r earlier = Ok tt <-> region_ok r /\ Forall (fun e => apart e r) earlier.
Proof.
  intros [Hb Hs] He. unfold in_u in *. unfold check_region.
  destruct (Z.eqb_spec (size r) 0).
  { split; [discriminate |]. intros [(Hz & _) _]. lia. }
  case_bool_decide as Hw.
  { rewrite checked_add_None in Hw. split; [discriminate |]. intros [(_ & Hz & _) _]. lia. }
  case_bool_decide as Hn.
  { split; [discriminate |]. intros [(_ & _ & Hz) _]. contradiction. }
  assert (Hok : region_ok r).
  { split; [lia |]. split; [|exact Hn]. rewrite checked_add_None in Hw. lia. }
  rewrite check_earlier_spec by assumption. tauto.
Qed.

Lemma check_regions_spec rs : forall earlier,
  Forall region_typed rs -> decodes earlier ->
  check_regions earlier rs = Ok tt <-> decodes (earlier ++ rs).
Proof.
  induction rs as [|r rs IH]; intros earlier Ht He; cbn [check_regions].
  - rewrite app_nil_r. split; auto.
  - inversion Ht as [|? ? Hr Ht']; subst. pose proof He as [Hok Hap].
    pose proof (check_region_spec r earlier Hr Hok) as Hc.
    assert (Hsnoc : region_ok r /\ Forall (fun e => apart e r) earlier <-> decodes (earlier ++ [r])).
    { split.
      - intros [Hro Hf]. split; [apply Forall_app; auto |]. intros i j x y Hi Hj Hne.
        rewrite Forall_forall in Hf. apply lookup_snoc_Some in Hi, Hj.
        destruct Hi as [[? Hi]|[-> ->]], Hj as [[? Hj]|[-> ->]]; try lia.
        + exact (Hap i j x y Hi Hj Hne).
        + apply Hf, list_elem_of_lookup. eauto.
        + apply apart_sym, Hf, list_elem_of_lookup. eauto.
      - intros [Hf Hx]. apply Forall_app in Hf as [_ Hf]. inversion Hf; subst. split; [assumption |].
        apply Forall_forall. intros e (i & Hi)%list_elem_of_lookup.
        apply (Hx i (length earlier)); [apply lookup_app_l_Some, Hi | | apply lookup_lt_Some in Hi; lia].
        apply list_lookup_middle. reflexivity. }
    destruct (check_region r earlier) as [[]|e] eqn:E; cbn.
    + rewrite IH by (try assumption; apply Hsnoc, Hc; reflexivity). rewrite <- app_assoc. reflexivity.
    + split; [discriminate |]. intros Hd. exfalso.
      assert (Hd' : decodes (earlier ++ [r])).
      { destruct Hd as [Hf Hx]. replace (earlier ++ r :: rs) with ((earlier ++ [r]) ++ rs) in *
          by (rewrite <- app_assoc; reflexivity). apply Forall_app in Hf as [Hf _]. split; [exact Hf |].
        intros i j x y Hi Hj. apply Hx; apply lookup_app_l_Some; assumption. }
      apply Hsnoc, Hc in Hd'. discriminate.
Qed.

(** [AddressBus::new] accepts exactly the memory maps: at most 65534 non-empty regions
    within [u64], with distinct names none of which is [cpu], and no address in two of them;
    and the bus it makes is idle over those regions. *)
Theorem bus_new_exact rs b :
  Forall region_typed rs ->
  new rs = Ok b <-> (decodes rs /\ Z.of_nat (length rs) < 0xFFFF) /\ b = mkAddressBus rs ∅.
Proof.
  intros Ht. unfold new. pose proof (check_regions_spec rs [] Ht) as Hc. cbn [app] in Hc.
  assert (Hnil : decodes []) by (split; [constructor | intros i j r s Hi; rewrite lookup_nil in Hi; discriminate]).
  specialize (Hc Hnil). destruct (Z.leb_spec 0xFFFF (Z.of_nat (length rs))).
  - split; [discriminate | intros [[_ ?] _]; lia].
  - destruct (check_regions [] rs) as [[]|e]; cbn.
    + split; [intros [= <-]; split; [split; [apply Hc; reflexivity | lia] | reflexivity] | intros [_ ->]; reflexivity].
    + split; [discriminate |]. intros [[Hd _] _]. apply Hc in Hd. discriminate.
Qed.

(** * Routing *)

(** The region that holds every byte of an access, by a search of the whole map. *)
Definition region_of (rs : list Region) (addr len : Z) : option nat :=
  position_by (fun r => (base r <=? addr) && (addr + len <=? base r + size r)) rs.

(** No address in two regions. *)
Definition disjoint_regions (rs : list Region) : Prop :=
  forall i j r s a, rs !! i = Some r -> rs !! j = Some s -> i <> j -> holds r a -> ~ holds s a.

Lemma decodes_disjoint rs : decodes rs -> disjoint_regions rs.
Proof. intros [_ Hd] i j r s a Hi Hj Hne. apply (Hd i j r s Hi Hj Hne). Qed.

Lemma holds_unique rs i j r s a :
  disjoint_regions rs -> rs !! i = Some r -> rs !! j = Some s -> holds r a -> holds s a -> i = j.
Proof.
  intros Hd Hi Hj Hr Hs. destruct (decide (i = j)) as [|Hne]; [assumption |].
  destruct (Hd i j r s a Hi Hj Hne Hr Hs).
Qed.

Lemma position_unique rs (p : Region -> bool) a :
  disjoint_regions rs -> (forall r, p r = true -> holds r a) ->
  forall i r, rs !! i = Some r -> p r = true -> position_by p rs = Some i.
Proof.
  intros Hd Hp i r Hi Hr. apply position_by_Some. exists r. split; [exact Hi |]. split; [exact Hr |].
  intros j s Hj Hs. apply not_true_iff_false. intros Hps.
  assert (j = i) by (eapply holds_unique; eauto). lia.
Qed.

(** Routing by the first byte, then checking the last, finds the region that holds them all. *)
Lemma route_region_of b addr len :
  disjoint_regions (regions b) -> 0 < len -> route b addr (addr + (len - 1)) = Z.of_nat <$> region_of (regions b) addr len.
Proof.
  intros Hd Hl. unfold route, region_of.
  destruct (position_by (fun r => (base r <=? addr) && (addr <=? Region.last r)) (regions b)) as [i|] eqn:E; cbn.
  - apply position_by_Some in E as (r & Hi & Hr & _). rewrite Hi. cbn.
    unfold Region.last in *. unbool. destruct (Z.leb_spec (addr + (len - 1)) (base r + (size r - 1))).
    + rewrite (position_unique (regions b) _ addr Hd) with (i := i) (r := r); [reflexivity | | exact Hi |].
      * intros s Hs. unbool. unfold holds. lia.
      * apply andb_true_iff; split; apply Z.leb_le; lia.
    + rewrite (proj2 (position_by_None _ _)); [reflexivity |]. apply Forall_forall.
      intros s (j & Hj)%list_elem_of_lookup. apply not_true_iff_false. intros Hs. unbool.
      assert (i = j) by (eapply (holds_unique (regions b) i j r s addr); unfold holds; (eassumption || lia)).
      subst j. assert (r = s) by congruence. subst. lia.
  - rewrite position_by_None in E. rewrite (proj2 (position_by_None _ _)); [reflexivity |].
    eapply Forall_impl; [exact E |]. cbn. intros r Hr. unfold Region.last in *.
    rewrite andb_false_iff, !Z.leb_gt in *. lia.
Qed.

(** * Events *)

Definition outstanding_ok (b : AddressBus) (txn : Z) (o : Outstanding) : Prop :=
  in_u 64 txn /\ 0 <= region o < Z.of_nat (length (regions b)).

Definition bus_ok (b : AddressBus) : Prop :=
  (decodes (regions b) /\ Forall (fun r => ascii_str (name r)) (regions b) /\
   Forall region_typed (regions b) /\ Z.of_nat (length (regions b)) < 0xFFFF) /\
  map_Forall (outstanding_ok b) (outstanding b).

(** The address and length of a request. *)
Definition request_range (msg : MemMsg) : option (Z * Z) :=
  match msg with
  | ReadReq _ addr len => Some (addr, len)
  | WriteReq _ addr data => Some (addr, Z.of_nat (length data))
  | _ => None
  end.

Section events.
Context {C : Type} `{SimContext C, MemClassify}.

Lemma access_request msg addr len :
  request_range msg = Some (addr, len) -> access msg = Some (classify_doc addr len).
Proof. destruct msg; intros [= <- <-]; [apply access_read | apply access_write]. Qed.

Lemma regions_in_range b addr len i r :
  decodes (regions b) -> region_of (regions b) addr len = Some i -> regions b !! i = Some r ->
  0 < len -> base r <= addr /\ addr + len <= base r + size r /\ addr + (len - 1) < 2 ^ 64.
Proof.
  intros [Hd _] Hi Hr Hl. apply position_by_Some in Hi as (r' & Hr' & Hp & _).
  assert (r' = r) by congruence. subst. unbool. rewrite Forall_forall in Hd.
  destruct (Hd r) as (_ & Hle & _); [apply list_elem_of_lookup; eauto | lia].
Qed.

(** A non-empty request of a transaction that is not outstanding, arriving in [Request], is
    forwarded to a region if and only if that region holds every byte of it, at its offset in
    the region and with its own transaction, which becomes outstanding there; otherwise the
    bus answers it with an access fault, traces it and records nothing.  No request is split
    between adjacent regions, and none wraps around. *)
Theorem bus_request_exact (b : AddressBus) (ctx : C) msg txn wr addr len :
  bus_ok b -> request_txn msg = Some (txn, wr) -> request_range msg = Some (addr, len) -> 0 < len ->
  ctx_phase ctx = Phase_Request -> outstanding b !! txn = None ->
  handle_event (Delivered_Message CPU_PORT (Message_MemV1 msg)) (b, ctx) =
  match region_of (regions b) addr len ≫= fun i => r ← regions b !! i; Some (i, r) with
  | Some (i, r) =>
      let '(ctx', res) :=
        ctx_send (Z.of_nat i + 1) (Message_MemV1 (at_offset msg (addr - base r))) When_Now Phase_Transfer ctx in
      ((set_outstanding (<[txn := mkOutstanding (Z.of_nat i) wr]> (outstanding b)) b, ctx'), map_err Fails res)
  | None => access_fault msg (b, ctx)
  end.
Proof.
  intros [[Hd _] _] Ht Hr Hl Hph Ho. cbn [handle_event]. rewrite Z.eqb_refl. unfold request.
  rewrite Ht, (access_request msg addr len Hr), ST_bind_unfold. cbn [phase_of_event snd]. rewrite Hph.
  rewrite (bool_decide_eq_false_2 (Phase_Request <> Phase_Request)) by (intros Hn; apply Hn; reflexivity).
  rewrite ST_bind_unfold. cbn [self fst]. rewrite Ho.
  rewrite (bool_decide_eq_false_2 (is_Some None)) by apply is_Some_None.
  rewrite ST_bind_unfold. unfold classify_doc. destruct (Z.eqb_spec len 0); [lia |].
  pose proof (route_region_of b addr len (decodes_disjoint _ Hd) Hl) as Hroute.
  destruct (region_of (regions b) addr len) as [i|] eqn:E; cbn [fmap option_fmap option_map] in Hroute.
  - assert (Hi : exists r, regions b !! i = Some r) by (apply position_by_Some in E as (r & ? & _); eauto).
    destruct Hi as [r Hi]. destruct (regions_in_range b addr len i r Hd E Hi Hl) as (_ & _ & Hov).
    rewrite (proj2 (Z.leb_gt _ _)) by exact Hov. rewrite Hroute. cbn [mbind option_bind mret ST_ret].
    rewrite Nat2Z.id, Hi. reflexivity.
  - destruct (2 ^ 64 <=? _); [reflexivity |]. rewrite Hroute. reflexivity.
Qed.

(** A response is relayed to the CPU unchanged, and its transaction retired, if and only if
    that transaction is outstanding on the region of the port it arrives on and is of its
    kind; any other response (unknown, repeated, misdirected, of the wrong kind) faults the
    session, sends nothing and leaves the bus as it was. *)
Theorem bus_response_exact (b : AddressBus) (ctx : C) port msg txn wr :
  response_txn msg = Some (txn, wr) -> 0 < port ->
  let expected :=
    port - 1 < Z.of_nat (length (regions b)) /\ outstanding b !! txn = Some (mkOutstanding (port - 1) wr) in
  (expected ->
   handle_event (Delivered_Message port (Message_MemV1 msg)) (b, ctx) =
   let '(ctx', res) := ctx_send CPU_PORT (Message_MemV1 msg) When_Now (ctx_phase ctx) ctx in
   ((set_outstanding (delete txn (outstanding b)) b, ctx'), map_err Fails res)) /\
  (~ expected -> exists what,
   handle_event (Delivered_Message port (Message_MemV1 msg)) (b, ctx) =
   ((b, ctx), Err (Fails (ComponentFault what)))).
Proof.
  intros Ht Hp expected. cbn [handle_event]. unfold response. rewrite Ht.
  destruct (Z.eqb_spec port CPU_PORT); [unfold CPU_PORT in *; lia |].
  rewrite ST_bind_unfold. cbn [self fst]. unfold checked_sub. rewrite (proj2 (Z.leb_le 1 port)) by lia.
  cbn [mbind option_bind]. rewrite ST_bind_unfold. unfold try.
  destruct (Z.ltb_spec (port - 1) (Z.of_nat (length (regions b)))); cbn [ok_or map_err].
  2: { split; [intros [? _]; lia | eexists; reflexivity]. }
  rewrite ST_bind_unfold. subst expected. destruct (outstanding b !! txn) as [[reg w]|]; cbn [ok_or map_err].
  2: { split; [intros [_ ?]; discriminate | eexists; reflexivity]. }
  cbn [region write]. destruct (Z.eqb_spec reg (port - 1)) as [->|Hreg]; cbn [negb].
  2: { split; [intros [_ [= ? _]]; contradiction | eexists; reflexivity]. }
  destruct (Bool.eqb w wr) eqn:Ew; cbn [negb].
  - apply eqb_prop in Ew as ->. split; [reflexivity |]. intros Hn. exfalso. apply Hn. auto.
  - apply eqb_false_iff in Ew. split; [intros [_ [= ?]]; contradiction | eexists; reflexivity].
Qed.
End events.

(** * Bookkeeping *)

Section flight.
#[local] Existing Instance recording_context.
Context `{MemClassify}.

(** The requests a log of effects shows forwarded to a region and not yet answered: a send
    to a region opens its transaction, a send to the CPU closes it. *)
Definition note (m : gmap Z Outstanding) (e : Effect) : gmap Z Outstanding :=
  match e with
  | Sent p (Message_MemV1 msg) _ _ =>
      if p =? CPU_PORT
      then match response_txn msg with Some (txn, _) => delete txn m | None => m end
      else match request_txn msg with Some (txn, w) => <[txn := mkOutstanding (p - 1) w]> m | None => m end
  | _ => m
  end.

Definition in_flight (log : list Effect) : gmap Z Outstanding := foldl note ∅ log.

#[local] Arguments in_flight : simpl never.

Lemma in_flight_app log e : in_flight (log ++ [e]) = note (in_flight log) e.
Proof. unfold in_flight. rewrite foldl_app. reflexivity. Qed.

Definition kept (s : AddressBus * RecCtx) : Prop :=
  in_flight (rec_log (snd s)) = outstanding (fst s) /\ bus_ok (fst s).

Lemma at_offset_txn msg offset : request_txn (at_offset msg offset) = request_txn msg.
Proof. destruct msg; reflexivity. Qed.

Lemma fault_response_txn msg txn addr len resp :
  fault_response msg = Some (txn, addr, len, resp) ->
  exists w, request_txn msg = Some (txn, w) /\ response_txn resp = Some (txn, w).
Proof. destruct msg; intros [= <- <- <- <-]; eexists; split; reflexivity. Qed.

Lemma route_bounds b first last i : route b first last = Some i -> 0 <= i < Z.of_nat (length (regions b)).
Proof.
  unfold route. destruct (position_by _ _) as [k|] eqn:E; cbn; [|discriminate].
  destruct (regions b !! k) as [r|] eqn:Er; cbn; [|discriminate]. apply lookup_lt_Some in Er.
  case_if; [intros [= <-]; lia | discriminate].
Qed.

Lemma request_kept b ctx msg :
  mem_msg_ok msg -> kept (b, ctx) -> wp (request msg) (fun _ => kept) (fun _ => kept) (b, ctx).
Proof.
  intros Hm Hk. pose proof Hk as [Hf Hok]. cbn [fst snd] in Hf, Hok. unfold request.
  destruct (request_txn msg) as [[txn wr]|] eqn:Et; [|exact Hk].
  assert (Htxn : in_u 64 txn) by (destruct msg; try discriminate Et; injection Et as <- _; apply Hm).
  destruct (access msg) as [acc|]; [|exact Hk]. wp_run.
  case_bool_decide; [exact Hk |]. wp_run. case_bool_decide as Ho; [exact Hk |].
  assert (Ho' : outstanding b !! txn = None) by (apply eq_None_not_Some, Ho). wp_step.
  apply (wp_mono _ (fun routed s => s = (b, ctx) /\
    forall i first, routed = Some (i, first) -> 0 <= i < Z.of_nat (length (regions b))) _ (fun _ s => s = (b, ctx))).
  - destruct acc as [first last| |]; cbn; try (split; [reflexivity | discriminate]); [|reflexivity].
    split; [reflexivity |]. destruct (route b first last) as [i|] eqn:Er; cbn; [|discriminate].
    intros i' first' [= <- _]. exact (route_bounds _ _ _ _ Er).
  - intros routed s [-> Hi]. cbn beta. destruct routed as [[i first]|].
    + specialize (Hi i first eq_refl).
      destruct (lookup_lt_is_Some_2 (regions b) (Z.to_nat i)) as [r Hr]; [lia |]. rewrite Hr. wp_run.
      split; cbn [fst snd].
      * cbn [rec_push rec_log]. rewrite in_flight_app, Hf. cbn [note].
        unfold region_port. destruct (Z.eqb_spec (i + 1) CPU_PORT); [unfold CPU_PORT in *; lia |].
        rewrite at_offset_txn, Et. replace (i + 1 - 1) with i by lia. reflexivity.
      * destruct Hok as [Hc Hout]. split; [exact Hc |].
        apply map_Forall_insert_2; [split; [exact Htxn | exact Hi] | exact Hout].
    + unfold access_fault. destruct (fault_response msg) as [[[[t a] l] resp]|] eqn:Ef; [|exact Hk].
      apply fault_response_txn in Ef as (w & Et' & Er). rewrite Et in Et'. injection Et' as <- <-.
      wp_step. split; [|exact Hok]. cbn. rewrite !in_flight_app, Hf. cbn. rewrite Er.
      apply delete_id, Ho'.
  - intros _ s ->. exact Hk.
Qed.

Lemma response_kept b ctx port msg :
  kept (b, ctx) -> wp (response port msg) (fun _ => kept) (fun _ => kept) (b, ctx).
Proof.
  intros Hk. pose proof Hk as [Hf Hok]. cbn [fst snd] in Hf, Hok. unfold response.
  destruct (response_txn msg) as [[txn wr]|] eqn:Et; [|exact Hk]. wp_run.
  apply wp_try; [|intros; exact Hk]. intros reg _. wp_run. apply wp_try; [|intros; exact Hk]. intros [r w] Ho.
  case_if; [exact Hk |]. case_if; [exact Hk |]. wp_run. split; cbn [fst snd].
  - cbn. rewrite in_flight_app, Hf. cbn. rewrite Et. reflexivity.
  - destruct Hok as [Hc Hout]. split; [exact Hc | apply map_Forall_delete, Hout].
Qed.

Lemma event_kept b ctx ev :
  delivered_ok ev -> kept (b, ctx) -> kept (fst (handle_event ev (b, ctx))).
Proof.
  intros Hev Hk.
  enough (Hw : wp (handle_event ev) (fun _ => kept) (fun _ => kept) (b, ctx)).
  { unfold wp in Hw. destruct (handle_event ev (b, ctx)) as [s [[]|e]]; exact Hw. }
  destruct ev as [port [?|msg|?|?]|token]; cbn [handle_event]; try exact Hk.
  case_if; [apply request_kept | apply response_kept]; assumption.
Qed.

Fixpoint run (s : AddressBus * RecCtx) (evs : list Delivered) : AddressBus * RecCtx :=
  match evs with
  | [] => s
  | ev :: evs => run (fst (handle_event ev s)) evs
  end.

(** After any sequence of events from an idle bus, whatever order requests and responses
    arrive in and whichever of them fault, the outstanding map is exactly the requests the
    bus has forwarded to a region and not yet relayed an answer for, each with its region and
    kind; and the bus satisfies its invariant. *)
Theorem bus_outstanding_exact rs b p evs :
  Forall region_typed rs -> Forall (fun r => ascii_str (name r)) rs -> new rs = Ok b ->
  Forall delivered_ok evs ->
  let s := run (b, mkRecCtx p []) evs in
  outstanding (fst s) = in_flight (rec_log (snd s)) /\ bus_ok (fst s).
Proof.
  intros Ht Hn Hnew Hevs. assert (Hk : kept (b, mkRecCtx p [])).
  { unfold new in Hnew. destruct (Z.leb_spec 0xFFFF (Z.of_nat (length rs))); [discriminate |].
    destruct (check_regions [] rs) as [[]|] eqn:E; [|discriminate]. injection Hnew as <-.
    apply (check_regions_spec rs []) in E; [|exact Ht | split; [constructor | intros i j r s Hi; rewrite lookup_nil in Hi; discriminate]].
    split; [reflexivity |]. split; [auto | apply map_Forall_empty]. }
  cbn zeta. revert Hk. generalize (b, mkRecCtx p []) as s. clear Hnew b.
  induction Hevs as [|ev evs Hev _ IH]; intros [b ctx] Hk; cbn [run].
  - destruct Hk. auto.
  - apply IH. apply event_kept; assumption.
Qed.
End flight.

(** * Snapshots *)

Section snapshots.
Context `{SnapshotCodec}.

Lemma reads_regions different rs :
  Forall region_typed rs -> Forall (fun r => ascii_str (name r)) rs ->
  reads (read_regions different rs) (rs ≫= write_region) tt.
Proof.
  induction rs as [|r rs IH]; intros Ht Hn; [apply reads_ret |]. cbn [read_regions].
  change ((r :: rs) ≫= write_region) with (write_region r ++ (rs ≫= write_region)).
  inversion Ht as [|? ? [Hb Hs] Ht']; subst. inversion Hn; subst. unfold write_region. rewrite <- !app_assoc.
  reads_next. rewrite bool_decide_eq_true_2 by reflexivity. reads_next.
  reads_next. rewrite Z.eqb_refl. reads_next. reads_next. rewrite Z.eqb_refl. reads_next. auto.
Qed.

Lemma yields_regions different rs : yields (read_regions different rs) (fun _ => True).
Proof. induction rs; cbn [read_regions]; [apply yields_ret; exact I |]. repeat yields_next. assumption. Qed.

Lemma bus_reads_restore self b :
  bus_ok b -> regions self = regions b -> Z.of_nat (base.size (outstanding b)) < 2 ^ 32 ->
  reads (restore self) (snapshot b) b.
Proof.
  intros [(Hd & Hn & Ht & Hl) Ho] Hr Hsz. unfold restore, snapshot, write_config. rewrite Hr, <- !app_assoc.
  eapply reads_bind; [apply reads_len; split; lia |]. rewrite Z.eqb_refl.
  eapply reads_then; [apply reads_check; reflexivity |].
  eapply reads_bind; [apply reads_regions; assumption |].
  eapply reads_bind; [apply reads_len; split; lia |]. rewrite Nat2Z.id. eapply reads_last.
  - apply (reads_entries _ _ _ put_u64 (fun o => put_u16 (region o) ++ put_bool (write o))).
    intros txn o Hlk. destruct (Ho _ _ Hlk) as [Htxn Hreg]. split; [apply reads_u64, Htxn |].
    unfold read_outstanding. rewrite Hr. eapply reads_bind; [apply reads_u16; unfold in_u; lia |].
    rewrite (proj2 (Z.leb_gt _ _)) by lia. reads_next. reads_next. destruct o. apply reads_ret.
  - destruct self, b. cbn in *. subst. apply reads_ret.
Qed.

(** A snapshot restores the bus exactly, into any bus over the same memory map. *)
Theorem bus_snapshot_restore self b rest :
  bus_ok b -> regions self = regions b -> Z.of_nat (base.size (outstanding b)) < 2 ^ 32 ->
  restore self (snapshot b ++ rest) = (rest, Ok b).
Proof. intros Hok Hr Hsz. apply (bus_reads_restore self b Hok Hr Hsz). Qed.

Lemma bus_restore_accepts b :
  bus_ok b -> yields (restore b) (fun b' => bus_ok b' /\ regions b' = regions b).
Proof.
  intros [Hc _]. unfold restore. do 2 yields_next. eapply yields_bind; [apply yields_regions |]. intros _ _.
  yields_next. eapply yields_bind.
  - apply (yields_ascending _ _ _ (in_u 64) (outstanding_ok b)); [apply yields_u64 | |apply map_Forall_empty].
    intros txn Htxn. unfold read_outstanding. repeat yields_next. apply yields_ret. unbool.
    split; [exact Htxn |]. cbn. unfold in_u in *. lia.
  - intros o Ho. apply yields_ret. split; [split; [exact Hc | exact Ho] | reflexivity].
Qed.

(** Whatever bytes are restored, a bus that [restore] accepts satisfies the invariant, over
    the memory map it had. *)
Theorem bus_restore_invariant b bs rest b' :
  bus_ok b -> bytes_ok bs -> restore b bs = (rest, Ok b') -> bus_ok b' /\ regions b' = regions b.
Proof. intros Hok Hbs E. exact (proj1 (wp_use _ _ _ _ _ _ (bus_restore_accepts b Hok bs Hbs) E)). Qed.
End snapshots.

(** * Witnesses *)

#[local] Existing Instance recording_context.
#[local] Existing Instance documented_classify.

Definition example_regions : list Region := [mkRegion "ram" 0x80000000 0x1000; mkRegion "uart" 0x10000000 8].
Definition example_bus : AddressBus := mkAddressBus example_regions ∅.
Definition example_busy : AddressBus := mkAddressBus example_regions {[5 := mkOutstanding 1 true]}.
Definition example_request : MemMsg := WriteReq 5 0x10000000 [65].

Lemma example_regions_typed : Forall region_typed example_regions.
Proof. repeat (constructor; [split; const_range |]). constructor. Qed.

Lemma example_regions_named : Forall (fun r => ascii_str (name r)) example_regions.
Proof. apply (bool_decide_unpack _). vm_compute. exact I. Qed.

Lemma example_regions_decode : decodes example_regions.
Proof.
  apply (check_regions_spec example_regions []); [exact example_regions_typed | | reflexivity].
  split; [constructor | intros i j r s Hi; rewrite lookup_nil in Hi; discriminate].
Qed.

Lemma example_bus_ok o : map_Forall (outstanding_ok example_bus) o -> bus_ok (mkAddressBus example_regions o).
Proof.
  intros Ho. split; [|exact Ho]. split; [exact example_regions_decode |].
  split; [exact example_regions_named |]. split; [exact example_regions_typed | reflexivity].
Qed.

Lemma example_busy_ok : bus_ok example_busy.
Proof. apply example_bus_ok, map_Forall_singleton. split; const_range. Qed.

Lemma bus_new_exact_witness : new example_regions = Ok example_bus.
Proof.
  apply (bus_new_exact example_regions example_bus example_regions_typed).
  split; [split; [exact example_regions_decode | reflexivity] | reflexivity].
Defined.

Lemma bus_request_exact_witness :
  handle_event (Delivered_Message CPU_PORT (Message_MemV1 example_request))
    (example_bus, mkRecCtx Phase_Request []) =
  ((example_busy, mkRecCtx Phase_Request
      [Sent 2 (Message_MemV1 (WriteReq 5 0 [65])) When_Now Phase_Transfer]), Ok tt).
Proof.
  exact (bus_request_exact example_bus (mkRecCtx Phase_Request []) example_request 5 true 0x10000000 1
    (example_bus_ok ∅ (map_Forall_empty _)) eq_refl eq_refl ltac:(lia) eq_refl eq_refl).
Defined.

Lemma bus_response_exact_witness :
  handle_event (Delivered_Message 2 (Message_MemV1 (WriteResp 5 WriteOutcome_Done)))
    (example_busy, mkRecCtx Phase_Complete []) =
  ((set_outstanding (delete 5 (outstanding example_busy)) example_busy, mkRecCtx Phase_Complete
      [Sent 0 (Message_MemV1 (WriteResp 5 WriteOutcome_Done)) When_Now Phase_Complete]), Ok tt).
Proof.
  exact (proj1 (bus_response_exact example_busy (mkRecCtx Phase_Complete []) 2 (WriteResp 5 WriteOutcome_Done)
    5 true eq_refl ltac:(lia)) (conj eq_refl eq_refl)).
Defined.

Lemma bus_outstanding_exact_witness :
  outstanding (fst (run (example_bus, mkRecCtx Phase_Request [])
                        [Delivered_Message CPU_PORT (Message_MemV1 example_request)])) =
  in_flight [Sent 2 (Message_MemV1 (WriteReq 5 0 [65])) When_Now Phase_Transfer].
Proof.
  assert (Hev : Forall delivered_ok [Delivered_Message CPU_PORT (Message_MemV1 example_request)]).
  { constructor; [|constructor]. split; [const_range |]. split; [const_range |].
    constructor; [const_range | constructor]. }
  exact (proj1 (bus_outstanding_exact example_regions example_bus Phase_Request _
    example_regions_typed example_regions_named eq_refl Hev)).
Defined.

Lemma bus_snapshot_restore_witness :
  @restore le_codec example_bus (@snapshot le_codec example_busy ++ [1]) = ([1], Ok example_busy).
Proof.
  apply (@bus_snapshot_restore le_codec); [exact example_busy_ok | reflexivity | vm_compute; reflexivity].
Defined.

Lemma example_busy_restored : @restore le_codec example_bus (@snapshot le_codec example_busy) = ([], Ok example_busy).
Proof.
  rewrite <- (app_nil_r (snapshot example_busy)).
  exact (@bus_reads_restore le_codec example_bus example_busy example_busy_ok eq_refl eq_refl []).
Qed.

Lemma bus_restore_invariant_witness : bus_ok example_busy.
Proof.
  apply (@bus_restore_invariant le_codec example_bus (@snapshot le_codec example_busy) [] example_busy
    (example_bus_ok ∅ (map_Forall_empty _))); [|exact example_busy_restored].
  apply (bool_decide_unpack _). vm_compute. exact I.
Defined.
