(* ===== verification/MmBus.v ===== *)
(** The multi-initiator bus, [components/platform/src/mmbus.rs]: [mem.v1] requests from several
    masters queued per region and master, granted round-robin, one active transaction per
    region, and relayed back under their own identity.

    This file is the code: configuration, arbitration, events, snapshot and restore.  The
    properties are in [MmBusProofs]. *)
From stdpp Require Import base numbers list option strings.
From Stdlib Require Import ZArith Lia.
From S2P Require Import Prelude Contracts Handlers Snapshots Platform Bus.

Local Open Scope string_scope.
Local Open Scope list_scope.
Local Open Scope Z_scope.

Definition GRANT_KIND : string := "platform.bus.grant".
Definition SNAPSHOT_SCHEMA : Z := 1.
Definition ARBITRATE : Z := 0.

Record MultiMasterBusConfig : Set := mkMultiMasterBusConfig {
  masters : list string; cfg_regions : list Region; clock : Z }.

Inductive MultiMasterBusConfigError : Set :=
| NoMasters
| Mm_ZeroSize (name : string)
| Mm_Wraps (name : string)
| Mm_Overlap (a b : string)
| Mm_DuplicateName (name : string)
| TooManyPorts.

(** The field [write] is [is_write]. *)
Record ActiveTxn : Set := mkActiveTxn {
  master : Z; original_txn : Z; downstream_txn : Z; is_write : bool }.

Record RegionState : Set := mkRegionState {
  active : option ActiveTxn; queues : list (list MemMsg); rr_cursor : Z }.

Record MultiMasterBus : Set := mkMultiMasterBus {
  config : MultiMasterBusConfig; regions : list RegionState; next_downstream : Z }.

#[export] Instance ActiveTxn_eq_dec : EqDecision ActiveTxn.
Proof. solve_decision. Defined.
#[export] Instance RegionState_eq_dec : EqDecision RegionState.
Proof. solve_decision. Defined.

Definition is_empty {A} (l : list A) : bool := match l with [] => true | _ => false end.

Module RegionState.
Definition idle (masters : nat) : RegionState := mkRegionState None (replicate masters []) 0.

(** The circular scan from the cursor. *)
Definition scan (s : RegionState) : list Z :=
  let masters := Z.of_nat (length (queues s)) in
  (fun k => (rr_cursor s + k) mod masters) <$> seqZ 0 masters.

Definition queue (s : RegionState) (m : Z) : list MemMsg := default [] (queues s !! Z.to_nat m).

Definition select (s : RegionState) : option Z :=
  snd <$> list_find (fun m => is_empty (queue s m) = false) (scan s).

Definition has_queued (s : RegionState) : bool := existsb (fun q => negb (is_empty q)) (queues s).
End RegionState.

Definition set_regions (rs : list RegionState) (b : MultiMasterBus) : MultiMasterBus :=
  mkMultiMasterBus (config b) rs (next_downstream b).
Definition set_next (n : Z) (b : MultiMasterBus) : MultiMasterBus :=
  mkMultiMasterBus (config b) (regions b) n.

Definition request_txn (msg : MemMsg) : option (Z * bool) :=
  match msg with
  | ReadReq txn _ _ => Some (txn, false)
  | WriteReq txn _ _ => Some (txn, true)
  | ReadResp _ _ | WriteResp _ _ => None
  end.

Definition with_txn (msg : MemMsg) (txn : Z) : MemMsg :=
  match msg with
  | ReadReq _ addr len => ReadReq txn addr len
  | WriteReq _ addr data => WriteReq txn addr data
  | ReadResp _ o => ReadResp txn o
  | WriteResp _ o => WriteResp txn o
  end.

Definition at_offset (msg : MemMsg) (offset : Z) : MemMsg :=
  match msg with
  | ReadReq txn _ len => ReadReq txn offset len
  | WriteReq txn _ data => WriteReq txn offset data
  | resp => resp
  end.

(** * Construction *)

(** [for name in names { if !seen.insert(name) { .. } }]. *)
Fixpoint check_names (seen names : list string) : result MultiMasterBusConfigError unit :=
  match names with
  | [] => Ok tt
  | n :: names =>
      if bool_decide (n ∈ seen) then Err (Mm_DuplicateName n) else check_names (n :: seen) names
  end.

Fixpoint check_earlier (r : Region) (last : Z) (earlier : list Region) :
    result MultiMasterBusConfigError unit :=
  match earlier with
  | [] => Ok tt
  | e :: earlier =>
      if (base e <=? last) && (base r <=? base e + (size e - 1)) then Err (Mm_Overlap (name e) (name r))
      else check_earlier r last earlier
  end.

Fixpoint check_regions (earlier rs : list Region) : result MultiMasterBusConfigError unit :=
  match rs with
  | [] => Ok tt
  | r :: rs =>
      if size r =? 0 then Err (Mm_ZeroSize (name r))
      else
        last ← ok_or (checked_add 64 (base r) (size r - 1)) (Mm_Wraps (name r));
        check_earlier r last earlier ≫= fun _ => check_regions (earlier ++ [r]) rs
  end.

Definition new (cfg : MultiMasterBusConfig) : result MultiMasterBusConfigError MultiMasterBus :=
  if is_empty (masters cfg) then Err NoMasters
  else if 0xFFFF <=? Z.of_nat (length (masters cfg) + length (cfg_regions cfg)) then Err TooManyPorts
  else
    check_names [] (masters cfg ++ (name <$> cfg_regions cfg)) ≫= fun _ =>
    check_regions [] (cfg_regions cfg) ≫= fun _ =>
    Ok (mkMultiMasterBus cfg
          (replicate (length (cfg_regions cfg)) (RegionState.idle (length (masters cfg)))) 0).

(** * Lookups *)

Definition master_count (b : MultiMasterBus) : Z := Z.of_nat (length (masters (config b))).

(** [self.master_count() + index]; [region_port]'s assertion is its callers' bound. *)
Definition region_port (b : MultiMasterBus) (index : Z) : Z := master_count b + index.

Definition route (b : MultiMasterBus) (first last : Z) : option Z :=
  let rs := cfg_regions (config b) in
  index ← position_by (fun r => (base r <=? first) && (first - base r <? size r)) rs;
  r ← rs !! index;
  if last - base r <? size r then Some (Z.of_nat index) else None.

Definition is_live (b : MultiMasterBus) (m txn : Z) : bool :=
  existsb (fun s =>
    match active s with
    | Some a => (master a =? m) && (original_txn a =? txn)
    | None => false
    end
    || existsb (fun q => match request_txn q with Some (t, _) => t =? txn | None => false end)
         (RegionState.queue s m)) (regions b).

(** * Events *)

Section handlers.
Context {C : Type} `{SimContext C, MemClassify}.

Local Abbreviation M := (ST (MultiMasterBus * C) Failure).

(** [MultiMasterBus::fault]. *)
Definition access_fault (m : Z) (msg : MemMsg) : M unit :=
  match fault_response msg with
  | None => fault "multi-master bus: response on a master port"
  | Some (txn, addr, len, resp) =>
      call (ctx_send m (Message_MemV1 resp) When_Now Phase_Complete);;
      trace FAULT_KIND [("txn", VU64 txn); ("addr", VU64 addr); ("len", VU64 len); ("master", VU64 m)]
  end.

(** [self.regions[region].queues[master].push_back(msg)]; an index out of range panics. *)
Definition push_back (region m : Z) (msg : MemMsg) : M unit :=
  b ← self;
  match s ← regions b !! Z.to_nat region; q ← queues s !! Z.to_nat m; Some (s, q) with
  | None => panic "index out of bounds"
  | Some (s, q) =>
      let s := mkRegionState (active s) (<[Z.to_nat m := q ++ [msg]]> (queues s)) (rr_cursor s) in
      update (set_regions (<[Z.to_nat region := s]> (regions b)))
  end.

Definition request (m : Z) (msg : MemMsg) : M unit :=
  match request_txn msg, access msg with
  | Some (txn, _), Some acc =>
      phase ← phase_of_event;
      if bool_decide (phase <> Phase_Request) then
        fault "multi-master bus: request arrived outside REQUEST"
      else
        b ← self;
        if is_live b m txn then fault "multi-master bus: master reuses a queued or active txn"
        else
          routed ← match acc with
                   | Empty => fault "multi-master bus: zero-length request"
                   | AccessOutOfRange => mret None
                   | Bytes first last => mret (i ← route b first last; Some (i, first))
                   end;
          match routed with
          | Some (region, first) =>
              match cfg_regions (config b) !! Z.to_nat region with
              | None => panic "index out of bounds"
              | Some r =>
                  push_back region m (at_offset msg (first - base r));;
                  call (ctx_wake_self When_Now Phase_Transfer ARBITRATE)
              end
          | None => access_fault m msg
          end
  | _, _ => fault "multi-master bus: response on a master port"
  end.

(** A grant: the region's state with [m]'s front request active. *)
Definition granted (s : RegionState) (m masters original downstream : Z) (wr : bool) : RegionState :=
  mkRegionState (Some (mkActiveTxn m original downstream wr))
    (alter tail (Z.to_nat m) (queues s)) ((m + 1) mod masters).

(** One iteration of the loop of [arbitrate]. *)
Definition arbitrate_region (index : nat) : M unit :=
  b ← self;
  match regions b !! index with
  | None => panic "index out of bounds"
  | Some s =>
      match active s with
      | Some _ => mret tt
      | None =>
          match RegionState.select s with
          | None => mret tt
          | Some m =>
              let downstream := next_downstream b in
              next ← try (ok_or (checked_add 64 (next_downstream b) 1)
                            (ComponentFault "multi-master bus: downstream TxnId space exhausted"));
              match (request ← head (RegionState.queue s m); '(txn, wr) ← request_txn request;
                     Some (request, txn, wr)) with
              | None => panic "only requests are queued"
              | Some (request, original, wr) =>
                  call (ctx_send (region_port b (Z.of_nat index))
                          (Message_MemV1 (with_txn request downstream)) When_Now Phase_Transfer);;
                  update (set_next next);;
                  update (fun b => set_regions
                            (<[index := granted s m (master_count b) original downstream wr]> (regions b)) b);;
                  trace GRANT_KIND
                    [("region", VU64 (Z.of_nat index)); ("master", VU64 m); ("txn", VU64 original);
                     ("downstream_txn", VU64 downstream)]
              end
          end
      end
  end.

Fixpoint arbitrate_loop (indices : list nat) : M unit :=
  match indices with
  | [] => mret tt
  | index :: indices => arbitrate_region index;; arbitrate_loop indices
  end.

Definition arbitrate : M unit :=
  phase ← phase_of_event;
  if bool_decide (phase <> Phase_Transfer) then fault "multi-master bus: arbitration outside TRANSFER"
  else b ← self; arbitrate_loop (seq 0 (length (regions b))).

Definition response (region : Z) (msg : MemMsg) : M unit :=
  match response_txn msg with
  | None => fault "multi-master bus: request on a region port"
  | Some (txn, wr) =>
      phase ← phase_of_event;
      if bool_decide (phase <> Phase_Complete) then
        fault "multi-master bus: response arrived outside COMPLETE"
      else
        b ← self;
        match regions b !! Z.to_nat region with
        | None => panic "index out of bounds"
        | Some s =>
            a ← try (ok_or (a ← active s; if downstream_txn a =? txn then Some a else None)
                       (ComponentFault "multi-master bus: response does not match the region's active txn"));
            if negb (Bool.eqb (is_write a) wr) then fault "multi-master bus: response kind mismatch"
            else
              let again := RegionState.has_queued s in
              call (ctx_send (master a) (Message_MemV1 (with_txn msg (original_txn a))) When_Now Phase_Complete);;
              update (fun b => set_regions
                        (<[Z.to_nat region := mkRegionState None (queues s) (rr_cursor s)]> (regions b)) b);;
              if again
              then call (ctx_wake_self (When_Cycles (clock (config b)) 1) Phase_Transfer ARBITRATE)
              else mret tt
        end
  end.

Definition handle_event (ev : Delivered) : M unit :=
  b ← self;
  let masters := master_count b in
  match ev with
  | Delivered_Message port (Message_MemV1 msg) =>
      if port <? masters then request port msg
      else if port - masters <? Z.of_nat (length (regions b)) then response (port - masters) msg
      else fault "multi-master bus: unknown port"
  | Delivered_Message _ (Message_Mem _) => fault "multi-master bus: mem.v0 message"
  | Delivered_Message _ (Message_Irq _) | Delivered_Message _ (Message_Block _) =>
      fault "multi-master bus: non-mem message"
  | Delivered_Wake token =>
      if token =? ARBITRATE then arbitrate else fault "multi-master bus: unexpected wake"
  end.
End handlers.

(** * Snapshots *)

Section snapshot.
Context `{MemCodec}.

Local Abbreviation R := (ST (list Z) RestoreError).

Definition write_config (b : MultiMasterBus) : list Z :=
  put_len (Z.of_nat (length (cfg_regions (config b)))) ++ (cfg_regions (config b) ≫= write_region) ++
  put_len (Z.of_nat (length (masters (config b)))) ++ (masters (config b) ≫= put_str) ++
  put_u32 (clock (config b)).

Definition write_active (a : option ActiveTxn) : list Z :=
  match a with
  | None => put_u8 0
  | Some a => put_u8 1 ++ put_u16 (master a) ++ put_u64 (original_txn a) ++ put_u64 (downstream_txn a) ++
              put_bool (is_write a)
  end.

Definition write_queue (q : list MemMsg) : list Z := put_len (Z.of_nat (length q)) ++ (q ≫= put_mem).

Definition write_state (s : RegionState) : list Z :=
  write_active (active s) ++ put_u16 (rr_cursor s) ++ (queues s ≫= write_queue).

Definition snapshot (b : MultiMasterBus) : list Z :=
  write_config b ++ put_u64 (next_downstream b) ++ (regions b ≫= write_state).

Fixpoint read_masters (different : string) (ms : list string) : R unit :=
  match ms with
  | [] => mret tt
  | m :: ms => n ← rd get_str; check (bool_decide (n = m)) different;; read_masters different ms
  end.

Definition read_config (b : MultiMasterBus) : R unit :=
  let different := "multi-master bus: snapshot was taken with a different configuration" in
  n ← rd get_len;
  check (n =? Z.of_nat (length (cfg_regions (config b)))) different;;
  read_regions different (cfg_regions (config b));;
  n ← rd get_len;
  check (n =? Z.of_nat (length (masters (config b)))) different;;
  read_masters different (masters (config b));;
  c ← rd get_u32;
  check (c =? clock (config b)) different.

Definition read_active (n : nat) (next : Z) : R (option ActiveTxn) :=
  tag ← rd get_u8;
  if tag =? 0 then mret None
  else if tag =? 1 then
    m ← rd get_u16; original ← rd get_u64; downstream ← rd get_u64; wr ← rd get_bool;
    check (negb (Z.of_nat n <=? m)) "multi-master bus: active txn of an unknown master";;
    check (negb (next <=? downstream)) "multi-master bus: active downstream txn not yet allocated";;
    mret (Some (mkActiveTxn m original downstream wr))
  else bad_tag "multi-master bus active txn" tag.
End snapshot.

Section restore.
Context `{MemCodec, MemClassify}.

Local Abbreviation R := (ST (list Z) RestoreError).

(** The checks of a queued message. *)
Definition check_queued (r : Region) (msg : MemMsg) : R unit :=
  match access msg with
  | None => invalid "multi-master bus: queued message is a response"
  | Some Empty => invalid "multi-master bus: queued request is zero-length"
  | Some (Bytes _ last) =>
      if last <? size r then mret tt
      else invalid "multi-master bus: queued request outside its region"
  | Some AccessOutOfRange => invalid "multi-master bus: queued request outside its region"
  end.

(** [for _ in 0..r.len()?]: the rest of one FIFO. *)
Fixpoint read_messages (r : Region) (n : nat) : R (list MemMsg) :=
  match n with
  | O => mret []
  | S n => msg ← rd get_mem; check_queued r msg;; q ← read_messages r n; mret (msg :: q)
  end.

(** [for _ in 0..masters]: the FIFOs of one region. *)
Fixpoint read_queues (r : Region) (n : nat) : R (list (list MemMsg)) :=
  match n with
  | O => mret []
  | S n => len ← rd get_len; q ← read_messages r (Z.to_nat len); qs ← read_queues r n; mret (q :: qs)
  end.

Definition read_region (b : MultiMasterBus) (r : Region) (next : Z) : R RegionState :=
  let n := length (masters (config b)) in
  active ← read_active n next;
  cursor ← rd get_u16;
  check (negb (Z.of_nat n <=? cursor)) "multi-master bus: cursor past the last master";;
  queues ← read_queues r n;
  mret (mkRegionState active queues cursor).

Fixpoint read_states (b : MultiMasterBus) (next : Z) (rs : list Region) : R (list RegionState) :=
  match rs with
  | [] => mret []
  | r :: rs => s ← read_region b r next; ss ← read_states b next rs; mret (s :: ss)
  end.

(** The two [BTreeSet]s of [restore], as the lists of what was inserted. *)
Record Seen : Set := mkSeen { live : list (Z * Z); downstream : list Z }.

Definition insert_live (k : Z * Z) (seen : Seen) : R Seen :=
  check (negb (bool_decide (k ∈ live seen))) "multi-master bus: a (master, txn) is live twice";;
  mret (mkSeen (k :: live seen) (downstream seen)).

Definition insert_downstream (d : Z) (seen : Seen) : R Seen :=
  check (negb (bool_decide (d ∈ downstream seen))) "multi-master bus: two regions share a downstream txn";;
  mret (mkSeen (live seen) (d :: downstream seen)).

Fixpoint check_queue (m : Z) (q : list MemMsg) (seen : Seen) : R Seen :=
  match q with
  | [] => mret seen
  | request :: q =>
      (* an [expect]: [read_region] has refused every response *)
      match request_txn request with
      | Some (txn, _) => seen ← insert_live (m, txn) seen; check_queue m q seen
      | None => invalid "checked by read_region"
      end
  end.

Fixpoint check_queues (m : Z) (qs : list (list MemMsg)) (seen : Seen) : R Seen :=
  match qs with
  | [] => mret seen
  | q :: qs => seen ← check_queue m q seen; check_queues (m + 1) qs seen
  end.

Fixpoint check_states (ss : list RegionState) (seen : Seen) : R Seen :=
  match ss with
  | [] => mret seen
  | s :: ss =>
      seen ← match active s with
             | Some a =>
                 seen ← insert_live (master a, original_txn a) seen;
                 insert_downstream (downstream_txn a) seen
             | None => mret seen
             end;
      seen ← check_queues 0 (queues s) seen;
      check_states ss seen
  end.

Definition restore (b : MultiMasterBus) : R MultiMasterBus :=
  read_config b;;
  next ← rd get_u64;
  states ← read_states b next (cfg_regions (config b));
  check_states states (mkSeen [] []);;
  mret (mkMultiMasterBus (config b) states next).
End restore.
