(* ===== verification/MmBusProofs.v ===== *)
(** The multi-initiator bus is correct.

    [mm_ok] is the invariant of every reachable bus: one FIFO per master and region holding
    requests inside the region, cursors below the master count, no [(master, txn)] live twice,
    active downstream transactions distinct and below the counter.  Proved from it: every
    event keeps it and none panics; a response reaches the master that asked, under its own
    transaction; a master's requests to a region are granted in the order they arrived; and
    round-robin grants a waiting master within one turn of the others. *)
From stdpp Require Import base numbers list option strings sorting.
From Stdlib Require Import ZArith Lia.
From S2P Require Import Prelude Contracts Handlers Snapshots Platform Bus MmBus.

Local Open Scope string_scope.
Local Open Scope list_scope.
Local Open Scope Z_scope.

(** * Collected keys *)

Section collected.
Context {A B : Type} (f : nat -> A -> list B).

Lemma concat_imap_insert l i x :
  l !! i = Some x ->
  exists rest, concat (imap f l) ≡ₚ f i x ++ rest /\
    forall y, concat (imap f (<[i := y]> l)) ≡ₚ f i y ++ rest.
Proof.
  intros Hi. apply list_elem_of_split_length in Hi as (l1 & l2 & -> & ->).
  exists (concat (imap f l1) ++ concat (imap (fun n => f (S (length l1) + n)%nat) l2)).
  assert (H : forall y, concat (imap f (l1 ++ y :: l2)) ≡ₚ
    f (length l1) y ++ concat (imap f l1) ++ concat (imap (fun n => f (S (length l1) + n)%nat) l2)).
  { intros y. rewrite imap_app, concat_app. cbn. rewrite Nat.add_0_r. rewrite Permutation_app_swap_app.
    do 2 f_equiv. apply Permutation_refl'. f_equal. apply imap_ext. intros. cbn. f_equal. lia. }
  split; [apply H |]. intros y. rewrite insert_app_r_alt, Nat.sub_diag by lia. apply H.
Qed.

Lemma elem_of_concat_imap l k : k ∈ concat (imap f l) <-> exists i x, l !! i = Some x /\ k ∈ f i x.
Proof.
  rewrite list_elem_of_In, in_concat. split.
  - intros (ks & Hks & Hk). apply list_elem_of_In, list_elem_of_lookup in Hks as [i Hi].
    rewrite list_lookup_imap in Hi. destruct (l !! i) as [x|] eqn:E; [|discriminate].
    injection Hi as <-. exists i, x. split; [exact E | apply list_elem_of_In, Hk].
  - intros (i & x & Hi & Hk). exists (f i x). split; [|apply list_elem_of_In, Hk].
    apply list_elem_of_In, list_elem_of_lookup. exists i. rewrite list_lookup_imap, Hi. reflexivity.
Qed.
End collected.

Definition txn_of (msg : MemMsg) : option Z := fst <$> request_txn msg.

(** The [(master, txn)]s of a FIFO, of a region and of the bus. *)
Definition queue_keys (m : nat) (q : list MemMsg) : list (Z * Z) :=
  (fun t => (Z.of_nat m, t)) <$> omap txn_of q.

Definition active_keys (a : option ActiveTxn) : list (Z * Z) :=
  match a with Some a => [(master a, original_txn a)] | None => [] end.

Definition state_keys (_ : nat) (s : RegionState) : list (Z * Z) :=
  active_keys (active s) ++ concat (imap queue_keys (queues s)).

Definition live_keys (rs : list RegionState) : list (Z * Z) := concat (imap state_keys rs).

Definition state_downstream (_ : nat) (s : RegionState) : list Z :=
  match active s with Some a => [downstream_txn a] | None => [] end.

Definition downstreams (rs : list RegionState) : list Z := concat (imap state_downstream rs).

(** * The invariant *)

Definition queued_ok (r : Region) (msg : MemMsg) : Prop :=
  mem_msg_ok msg /\
  exists addr len, request_range msg = Some (addr, len) /\ 0 < len /\ addr + len <= size r.

Definition active_ok (n : nat) (next : Z) (a : ActiveTxn) : Prop :=
  0 <= master a < Z.of_nat n /\ in_u 64 (original_txn a) /\ 0 <= downstream_txn a < next.

Definition state_ok (n : nat) (next : Z) (r : Region) (s : RegionState) : Prop :=
  length (queues s) = n /\ 0 <= rr_cursor s < Z.of_nat n /\
  (forall a, active s = Some a -> active_ok n next a) /\
  Forall (Forall (queued_ok r)) (queues s).

Definition mm_region_ok (r : Region) : Prop := 0 < size r /\ base r + size r <= 2 ^ 64.

Definition mm_config_ok (cfg : MultiMasterBusConfig) : Prop :=
  (0 < length (masters cfg))%nat /\
  Z.of_nat (length (masters cfg) + length (cfg_regions cfg)) < 0xFFFF /\
  Forall region_typed (cfg_regions cfg) /\ Forall mm_region_ok (cfg_regions cfg) /\
  disjoint_regions (cfg_regions cfg) /\
  NoDup (masters cfg ++ (name <$> cfg_regions cfg)).

Definition mm_ok (b : MultiMasterBus) : Prop :=
  mm_config_ok (config b) /\ in_u 64 (next_downstream b) /\
  Forall2 (state_ok (length (masters (config b))) (next_downstream b)) (cfg_regions (config b)) (regions b) /\
  NoDup (live_keys (regions b)) /\ NoDup (downstreams (regions b)).

(** ** Selection *)

Lemma length_scan s : length (RegionState.scan s) = length (queues s).
Proof. unfold RegionState.scan. rewrite length_fmap, length_seqZ. lia. Qed.

Lemma scan_lookup s k m :
  RegionState.scan s !! k = Some m <->
  (k < length (queues s))%nat /\ m = (rr_cursor s + Z.of_nat k) mod Z.of_nat (length (queues s)).
Proof.
  unfold RegionState.scan. rewrite list_lookup_fmap_Some. split.
  - intros (x & -> & Hx). apply lookup_seqZ in Hx as [-> Hk]. split; [lia | f_equal; lia].
  - intros [Hk ->]. exists (Z.of_nat k). split; [reflexivity | apply lookup_seqZ; lia].
Qed.

Lemma elem_of_scan s m : m ∈ RegionState.scan s <-> 0 <= m < Z.of_nat (length (queues s)).
Proof.
  rewrite list_elem_of_lookup. split.
  - intros (k & [Hk ->]%scan_lookup). apply Z.mod_pos_bound. lia.
  - intros Hm. set (n := Z.of_nat (length (queues s))) in *.
    exists (Z.to_nat ((m - rr_cursor s) mod n)). apply scan_lookup.
    pose proof (Z.mod_pos_bound (m - rr_cursor s) n ltac:(lia)). fold n. split; [lia |].
    rewrite Z2Nat.id by lia. rewrite Z.add_mod_idemp_r by lia.
    replace (rr_cursor s + (m - rr_cursor s)) with m by lia. symmetry. apply Z.mod_small. lia.
Qed.

Lemma is_empty_false {A} (l : list A) : is_empty l = false <-> exists x t, l = x :: t.
Proof. destruct l; cbn; split; [discriminate | intros (? & ? & ?); discriminate | eauto | reflexivity]. Qed.

(** The master selected: the first with something queued, from the cursor on. *)
Lemma select_Some s m :
  RegionState.select s = Some m <->
  exists k, RegionState.scan s !! k = Some m /\ is_empty (RegionState.queue s m) = false /\
    forall j x, (j < k)%nat -> RegionState.scan s !! j = Some x -> is_empty (RegionState.queue s x) = true.
Proof.
  unfold RegionState.select. rewrite fmap_Some. split.
  - intros ([k x] & Hf & ->). apply list_find_Some in Hf as (Hk & He & Hlt). exists k. split; [exact Hk |].
    split; [exact He |]. intros j y Hj Hy. specialize (Hlt j y Hy Hj). apply not_false_iff_true, Hlt.
  - intros (k & Hk & He & Hlt). exists (k, m). split; [|reflexivity]. apply list_find_Some.
    split; [exact Hk |]. split; [exact He |]. intros j y Hy Hj. rewrite (Hlt j y Hj Hy). discriminate.
Qed.

Lemma select_None s :
  RegionState.select s = None <->
  forall m, 0 <= m < Z.of_nat (length (queues s)) -> is_empty (RegionState.queue s m) = true.
Proof.
  unfold RegionState.select. rewrite fmap_None, list_find_None, Forall_forall. split.
  - intros H m Hm%elem_of_scan. apply not_false_iff_true, (H m Hm).
  - intros H m Hm%elem_of_scan. rewrite (H m Hm). discriminate.
Qed.

Lemma select_range s m :
  RegionState.select s = Some m ->
  0 <= m < Z.of_nat (length (queues s)) /\ exists q rest,
    RegionState.queue s m = q :: rest /\ queues s !! Z.to_nat m = Some (q :: rest).
Proof.
  intros (k & Hk & He & _)%select_Some. assert (Hm : m ∈ RegionState.scan s) by (apply list_elem_of_lookup; eauto).
  apply elem_of_scan in Hm. split; [exact Hm |]. apply is_empty_false in He as (q & rest & He).
  exists q, rest. split; [exact He |]. unfold RegionState.queue in He.
  destruct (queues s !! Z.to_nat m) as [l|]; cbn in He; congruence.
Qed.

(** ** Liveness of keys *)

Lemma elem_of_queue_keys m q k t : (k, t) ∈ queue_keys m q <-> k = Z.of_nat m /\ exists msg, msg ∈ q /\ txn_of msg = Some t.
Proof.
  unfold queue_keys. rewrite list_elem_of_fmap. split.
  - intros (t' & [= -> ->] & (msg & Hm & Ht)%list_elem_of_omap). eauto.
  - intros [-> (msg & Hm & Ht)]. exists t. split; [reflexivity |]. apply list_elem_of_omap. eauto.
Qed.

Lemma is_live_spec b m t :
  0 <= m -> Forall (fun s => m < Z.of_nat (length (queues s))) (regions b) ->
  is_live b m t = true <-> (m, t) ∈ live_keys (regions b).
Proof.
  intros Hm Hl. unfold is_live. rewrite existsb_exists. unfold live_keys. rewrite elem_of_concat_imap.
  assert (Hs : forall s, s ∈ regions b ->
    (match active s with Some a => (master a =? m) && (original_txn a =? t) | None => false end
     || existsb (fun q => match request_txn q with Some (t', _) => t' =? t | None => false end)
          (RegionState.queue s m)) = true <-> (m, t) ∈ state_keys 0 s).
  { intros s Hs. rewrite Forall_forall in Hl. specialize (Hl s Hs).
    destruct (lookup_lt_is_Some_2 (queues s) (Z.to_nat m)) as [q Hq]; [lia |].
    unfold state_keys. rewrite orb_true_iff, elem_of_app, elem_of_concat_imap.
    unfold RegionState.queue. rewrite Hq. cbn [default]. f_equiv.
    - destruct (active s) as [a|]; cbn.
      + rewrite list_elem_of_singleton, andb_true_iff, !Z.eqb_eq. split; [intros [<- <-]; reflexivity | intros [= <- <-]; auto].
      + split; [discriminate | intros H; inversion H].
    - rewrite existsb_exists. split.
      + intros (msg & Hin & Ht). exists (Z.to_nat m), q. split; [exact Hq |]. apply elem_of_queue_keys.
        split; [lia |]. exists msg. split; [apply list_elem_of_In, Hin |]. unfold txn_of.
        destruct (request_txn msg) as [[t' w]|]; [|discriminate]. apply Z.eqb_eq in Ht as ->. reflexivity.
      + intros (i & q' & Hi & (E & msg & Hin & Ht)%elem_of_queue_keys).
        assert (i = Z.to_nat m) by lia. subst i. assert (q' = q) by congruence. subst q'.
        exists msg. split; [apply list_elem_of_In, Hin |]. unfold txn_of in Ht.
        destruct (request_txn msg) as [[t' w]|]; [|discriminate]. injection Ht as ->. apply Z.eqb_refl. }
  split.
  - intros (s & Hin & H). apply list_elem_of_In in Hin. apply Hs in H; [|exact Hin].
    apply list_elem_of_lookup in Hin as [i Hi]. exists i, s. auto.
  - intros (i & s & Hi & H). exists s. assert (Hin : s ∈ regions b) by (apply list_elem_of_lookup; eauto).
    split; [apply list_elem_of_In, Hin | apply Hs; assumption].
Qed.

(** ** State changes *)

Lemma replace_state n next cfgs rs i r s' :
  Forall2 (state_ok n next) cfgs rs -> cfgs !! i = Some r -> state_ok n next r s' ->
  Forall2 (state_ok n next) cfgs (<[i := s']> rs).
Proof. intros Hf Hr Hs. rewrite <- (list_insert_id cfgs i r Hr). apply Forall2_insert; assumption. Qed.

Lemma state_ok_next n next next' r s : next <= next' -> state_ok n next r s -> state_ok n next' r s.
Proof.
  intros Hle (Hl & Hc & Ha & Hq). split; [exact Hl |]. split; [exact Hc |]. split; [|exact Hq].
  intros a Hs. destruct (Ha a Hs) as (Hm & Ht & Hd). split; [exact Hm |]. split; [exact Ht | lia].
Qed.

Lemma queue_keys_snoc m q msg t : txn_of msg = Some t -> queue_keys m (q ++ [msg]) = queue_keys m q ++ [(Z.of_nat m, t)].
Proof. intros Ht. unfold queue_keys. rewrite omap_app, fmap_app. cbn. rewrite Ht. reflexivity. Qed.

Lemma queue_keys_cons m q msg t : txn_of msg = Some t -> queue_keys m (msg :: q) = (Z.of_nat m, t) :: queue_keys m q.
Proof. intros Ht. unfold queue_keys. cbn. rewrite Ht. reflexivity. Qed.

(** [push_back]'s new state. *)
Definition enqueued (s : RegionState) (m : nat) (q : list MemMsg) (msg : MemMsg) : RegionState :=
  mkRegionState (active s) (<[m := q ++ [msg]]> (queues s)) (rr_cursor s).

Lemma enqueued_keys i s m q msg t :
  queues s !! m = Some q -> txn_of msg = Some t ->
  state_keys i (enqueued s m q msg) ≡ₚ (Z.of_nat m, t) :: state_keys i s.
Proof.
  intros Hq Ht. unfold state_keys, enqueued. cbn [active queues].
  destruct (concat_imap_insert queue_keys (queues s) m q Hq) as (rest & E & E').
  rewrite E', E, (queue_keys_snoc m q msg t Ht). rewrite <- !app_assoc. cbn.
  rewrite <- Permutation_middle. rewrite <- Permutation_middle. reflexivity.
Qed.

Lemma enqueue_ok b i m s q r msg t :
  mm_ok b -> regions b !! i = Some s -> queues s !! m = Some q -> cfg_regions (config b) !! i = Some r ->
  queued_ok r msg -> txn_of msg = Some t -> (Z.of_nat m, t) ∉ live_keys (regions b) ->
  mm_ok (set_regions (<[i := enqueued s m q msg]> (regions b)) b).
Proof.
  intros (Hc & Hn & Hf & Hl & Hd) Hi Hq Hr Hmsg Ht Hnew.
  destruct (Forall2_lookup_lr _ _ _ _ _ _ Hf Hr Hi) as (Hlen & Hcur & Ha & Hqs).
  split; [exact Hc |]. split; [exact Hn |]. split; [|split].
  - eapply replace_state; [exact Hf | exact Hr |]. split; [cbn; rewrite length_insert; exact Hlen |].
    split; [exact Hcur |]. split; [exact Ha |]. cbn. apply Forall_insert; [exact Hqs |].
    apply Forall_app. split; [eapply Forall_lookup_1; eassumption | constructor; [exact Hmsg | constructor]].
  - cbn. unfold live_keys in *. destruct (concat_imap_insert state_keys (regions b) i s Hi) as (rest & E & E').
    rewrite E', (enqueued_keys i s m q msg t Hq Ht). rewrite E in Hl, Hnew. constructor; assumption.
  - cbn. unfold downstreams in *. destruct (concat_imap_insert state_downstream (regions b) i s Hi) as (rest & E & E').
    rewrite E'. rewrite E in Hd. exact Hd.
Qed.

Lemma alter_tail_queue (s : RegionState) m x rest :
  queues s !! m = Some (x :: rest) -> alter tail m (queues s) = <[m := rest]> (queues s).
Proof.
  generalize (queues s) as qs. intros qs. revert m.
  induction qs as [|q qs IH]; intros [|m] Hm; cbn in *; [discriminate.. | injection Hm as ->; reflexivity |].
  f_equal. apply IH, Hm.
Qed.

Lemma granted_keys i s m n t d w msg rest :
  active s = None -> queues s !! m = Some (msg :: rest) -> txn_of msg = Some t ->
  state_keys i (granted s (Z.of_nat m) n t d w) ≡ₚ state_keys i s.
Proof.
  intros Ha Hq Ht. unfold state_keys, granted. cbn [active queues active_keys master original_txn].
  rewrite Nat2Z.id, (alter_tail_queue s m msg rest Hq), Ha.
  destruct (concat_imap_insert queue_keys (queues s) m (msg :: rest) Hq) as (others & E & E').
  rewrite E', E, (queue_keys_cons m rest msg t Ht). reflexivity.
Qed.

Lemma grant_ok b i m s r msg rest t w :
  mm_ok b -> regions b !! i = Some s -> cfg_regions (config b) !! i = Some r -> active s = None ->
  queues s !! m = Some (msg :: rest) -> request_txn msg = Some (t, w) ->
  next_downstream b + 1 < 2 ^ 64 ->
  mm_ok (set_regions (<[i := granted s (Z.of_nat m) (master_count b) t (next_downstream b) w]> (regions b))
           (set_next (next_downstream b + 1) b)).
Proof.
  intros (Hc & Hn & Hf & Hl & Hd) Hi Hr Ha Hq Ht Hnext.
  assert (Htx : txn_of msg = Some t) by (unfold txn_of; rewrite Ht; reflexivity).
  destruct (Forall2_lookup_lr _ _ _ _ _ _ Hf Hr Hi) as (Hlen & Hcur & _ & Hqs).
  assert (Hm : (m < length (queues s))%nat) by (eapply lookup_lt_Some; exact Hq).
  split; [exact Hc |]. split; [cbn; unfold in_u in *; lia |]. split; [|split].
  - cbn. eapply (replace_state _ _ _ _ _ r);
      [eapply Forall2_impl; [exact Hf | intros ? ?; apply state_ok_next; lia] | exact Hr |].
    pose proof (Forall_lookup_1 _ _ _ _ Hqs Hq) as Hqm. inversion Hqm as [|? ? Hmsg Hrest]; subst.
    split; [cbn; rewrite Nat2Z.id, length_alter; exact Hlen |]. split; [|split].
    + cbn. unfold master_count. rewrite <- Hlen. apply Z.mod_pos_bound. lia.
    + intros a [= <-]. split; [cbn; lia |]. split; cbn; [|unfold in_u in Hn; lia].
      destruct Hmsg as (Hmok & _). destruct msg; try discriminate Ht; injection Ht as <- _; apply Hmok.
    + cbn. rewrite Nat2Z.id, (alter_tail_queue s m msg rest Hq). apply Forall_insert; assumption.
  - cbn. unfold live_keys in *. destruct (concat_imap_insert state_keys (regions b) i s Hi) as (others & E & E').
    rewrite E', (granted_keys i s m _ t _ w msg rest Ha Hq Htx). rewrite E in Hl. exact Hl.
  - cbn. unfold downstreams in *.
    destruct (concat_imap_insert state_downstream (regions b) i s Hi) as (others & E & E').
    rewrite E'. cbn. constructor.
    + intros Hin. assert (Hin' : next_downstream b ∈ concat (imap state_downstream (regions b)))
        by (rewrite E; apply elem_of_app; auto).
      apply elem_of_concat_imap in Hin' as (j & s' & Hj & Hin').
      unfold state_downstream in Hin'. destruct (active s') as [a|] eqn:Ha'; [|inversion Hin'].
      apply list_elem_of_singleton in Hin'.
      destruct (Forall2_lookup_r _ _ _ _ _ Hf Hj) as (r' & _ & (_ & _ & Hact & _)).
      destruct (Hact a Ha') as (_ & _ & Hlt). lia.
    + rewrite E in Hd. apply NoDup_app in Hd. tauto.
Qed.

(** [response]'s new state. *)
Definition freed (s : RegionState) : RegionState := mkRegionState None (queues s) (rr_cursor s).

Lemma complete_ok b i s r :
  mm_ok b -> regions b !! i = Some s -> cfg_regions (config b) !! i = Some r ->
  mm_ok (set_regions (<[i := freed s]> (regions b)) b).
Proof.
  intros (Hc & Hn & Hf & Hl & Hd) Hi Hr.
  destruct (Forall2_lookup_lr _ _ _ _ _ _ Hf Hr Hi) as (Hlen & Hcur & _ & Hqs).
  split; [exact Hc |]. split; [exact Hn |]. split; [|split].
  - eapply replace_state; [exact Hf | exact Hr |]. split; [exact Hlen |]. split; [exact Hcur |].
    split; [discriminate | exact Hqs].
  - cbn. unfold live_keys in *. destruct (concat_imap_insert state_keys (regions b) i s Hi) as (rest & E & E').
    rewrite E'. rewrite E in Hl. unfold state_keys in *. cbn. rewrite <- app_assoc in Hl.
    apply NoDup_app in Hl. tauto.
  - cbn. unfold downstreams in *. destruct (concat_imap_insert state_downstream (regions b) i s Hi) as (rest & E & E').
    rewrite E'. cbn. rewrite E in Hd. apply NoDup_app in Hd. tauto.
Qed.

(** ** Regions as step machines *)

(** What happens to one region: a master's request joins its FIFO, a master is granted, the
    active transaction completes. *)
Inductive Label : Set :=
| LEnqueue (m : nat) (msg : MemMsg)
| LGrant (m : nat) (msg : MemMsg)
| LComplete.

Inductive region_step : RegionState -> Label -> RegionState -> Prop :=
| step_enqueue s m q msg :
    queues s !! m = Some q -> region_step s (LEnqueue m msg) (enqueued s m q msg)
| step_grant s m msg rest t d w :
    active s = None -> RegionState.select s = Some (Z.of_nat m) ->
    queues s !! m = Some (msg :: rest) -> request_txn msg = Some (t, w) ->
    region_step s (LGrant m msg)
      (granted s (Z.of_nat m) (Z.of_nat (length (queues s))) t d w)
| step_complete s a : active s = Some a -> region_step s LComplete (freed s).

Inductive region_run : RegionState -> list Label -> RegionState -> Prop :=
| run_nil s : region_run s [] s
| run_snoc s ls s' l s'' : region_run s ls s' -> region_step s' l s'' -> region_run s (ls ++ [l]) s''.

(** Every region of one bus runs to the same region of the other. *)
Definition regions_run (rs rs' : list RegionState) : Prop :=
  Forall2 (fun s s' => exists ls, region_run s ls s') rs rs'.

Lemma regions_run_refl rs : regions_run rs rs.
Proof. apply Forall_Forall2_diag, Forall_forall. intros s _. exists []. constructor. Qed.

Lemma regions_run_step rs rs' i s l s' :
  regions_run rs rs' -> rs' !! i = Some s -> region_step s l s' -> regions_run rs (<[i := s']> rs').
Proof.
  intros Hr Hi Hs. destruct (Forall2_lookup_r _ _ _ _ _ Hr Hi) as (s0 & H0 & ls & Hrun).
  rewrite <- (list_insert_id rs i s0 H0). apply Forall2_insert; [exact Hr |].
  exists (ls ++ [l]). econstructor; eassumption.
Qed.

(** ** Routing *)

Lemma mm_route_region_of b addr len :
  disjoint_regions (cfg_regions (config b)) -> 0 < len ->
  route b addr (addr + (len - 1)) = Z.of_nat <$> region_of (cfg_regions (config b)) addr len.
Proof.
  intros Hd Hl. pose proof (route_region_of (mkAddressBus (cfg_regions (config b)) ∅) addr len Hd Hl) as E.
  cbn [Bus.regions] in E. rewrite <- E. unfold route, Bus.route. cbn [Bus.regions].
  assert (Hp : forall rs : list Region,
    position_by (fun r => (base r <=? addr) && (addr - base r <? size r)) rs =
    position_by (fun r => (base r <=? addr) && (addr <=? Region.last r)) rs).
  { induction rs as [|r rs IH]; [reflexivity |]. cbn. rewrite IH.
    replace (addr - base r <? size r) with (addr <=? Region.last r); [reflexivity |].
    unfold Region.last. destruct (Z.leb_spec addr (base r + (size r - 1))), (Z.ltb_spec (addr - base r) (size r)); lia || reflexivity. }
  rewrite Hp. destruct (position_by _ _) as [i|]; cbn; [|reflexivity].
  destruct (cfg_regions (config b) !! i) as [r|]; cbn; [|reflexivity]. unfold Region.last.
  destruct (Z.ltb_spec (addr + (len - 1) - base r) (size r)), (Z.leb_spec (addr + (len - 1)) (base r + (size r - 1)));
    lia || reflexivity.
Qed.

Lemma region_of_holds rs addr len i :
  region_of rs addr len = Some i ->
  exists r, rs !! i = Some r /\ base r <= addr /\ addr + len <= base r + size r.
Proof. intros (r & Hi & Hr & _)%position_by_Some. exists r. unbool. auto. Qed.

Lemma offset_queued_ok r msg addr len :
  mem_msg_ok msg -> request_range msg = Some (addr, len) -> 0 < len ->
  0 <= base r -> base r <= addr -> addr + len <= base r + size r -> queued_ok r (at_offset msg (addr - base r)).
Proof.
  intros Hm Hr Hl Hb Ha He.
  assert (Hoff : in_u 64 (addr - base r)) by (destruct msg; try discriminate; injection Hr as <- <-; destruct Hm as (_ & H & _); unfold in_u in *; lia).
  destruct msg as [txn a n| |txn a data|]; try discriminate; injection Hr as <- <-; destruct Hm as (Ht & _ & Hd);
    (split; [exact (conj Ht (conj Hoff Hd)) |]); eexists _, _; (split; [reflexivity |]); lia.
Qed.

Definition event_ok (ev : Delivered) : Prop :=
  match ev with
  | Delivered_Message port (Message_MemV1 msg) => 0 <= port /\ mem_msg_ok msg
  | _ => True
  end.

(** ** Events keep the invariant *)

Section events.
Context {C : Type} `{SimContext C, MemClassify}.

Local Abbreviation M := (ST (MultiMasterBus * C) Failure).

Definition keeps (b b' : MultiMasterBus) : Prop :=
  mm_ok b' /\ config b' = config b /\ regions_run (regions b) (regions b').

Lemma keeps_refl b : mm_ok b -> keeps b b.
Proof. intros Hok. split; [exact Hok |]. split; [reflexivity | apply regions_run_refl]. Qed.

Lemma length_states b : mm_ok b -> length (regions b) = length (cfg_regions (config b)).
Proof. intros (_ & _ & Hf & _). symmetry. eapply Forall2_length, Hf. Qed.

Lemma state_at b i : mm_ok b -> (i < length (cfg_regions (config b)))%nat ->
  exists r s, cfg_regions (config b) !! i = Some r /\ regions b !! i = Some s /\
    state_ok (length (masters (config b))) (next_downstream b) r s.
Proof.
  intros (_ & _ & Hf & _) Hi. destruct (lookup_lt_is_Some_2 _ _ Hi) as [r Hr].
  destruct (Forall2_lookup_l _ _ _ _ _ Hf Hr) as (s & Hs & Hok). eauto.
Qed.

Lemma mm_request_settles b (ctx : C) m msg :
  mm_ok b -> 0 <= m < master_count b -> mem_msg_ok msg ->
  settles (keeps b) (request m msg) b ctx.
Proof.
  intros Hok Hm Hmsg. assert (HP : keeps b b) by (apply keeps_refl, Hok).
  pose proof Hok as ((_ & _ & Htyp & _ & Hdis & _) & _ & Hf & _).
  unfold settles, request. destruct (request_txn msg) as [[t w]|] eqn:Et; [|apply wp_fault; eauto].
  assert (Hrng : exists addr len, request_range msg = Some (addr, len)) by (destruct msg; try discriminate; cbn; eauto).
  destruct Hrng as (addr & len & Hrng). rewrite (access_request msg addr len Hrng). wp_run.
  case_bool_decide; [apply wp_fault; eauto |]. wp_run. destruct (is_live b m t) eqn:El; [apply wp_fault; eauto |].
  assert (Hnew : (m, t) ∉ live_keys (regions b)).
  { intros Hin. apply is_live_spec in Hin; [congruence | lia |]. apply Forall_forall. intros s Hs.
    apply list_elem_of_lookup in Hs as [i Hi]. destruct (Forall2_lookup_r _ _ _ _ _ Hf Hi) as (r & _ & (Hl & _)).
    rewrite Hl. apply Hm. }
  assert (Hfault : forall ctx', wp (access_fault m msg : M unit) (fun _ s => keeps b (fst s))
     (fun e s => keeps b (fst s) /\ exists e', e = Fails e') (b, ctx')).
  { intros ctx'. unfold access_fault. destruct (fault_response msg) as [[[[? ?] ?] ?]|]; [|apply wp_fault; eauto].
    wp_step. apply wp_call; cbn; [intros; wp_run; exact HP | eauto]. }
  wp_step. unfold classify_doc. destruct (Z.eqb_spec len 0) as [->|Hl0]; [apply wp_fault; eauto |].
  assert (Hl : 0 < len) by (destruct msg; try discriminate; injection Hrng as <- <-; [destruct Hmsg as (_ & _ & ?); unfold in_u in *; lia | lia]).
  destruct (2 ^ 64 <=? addr + (len - 1)); wp_run; [apply Hfault |].
  rewrite (mm_route_region_of b addr len Hdis Hl).
  destruct (region_of (cfg_regions (config b)) addr len) as [i|] eqn:Er; cbn [fmap option_fmap option_map mbind option_bind];
    [|apply Hfault].
  apply region_of_holds in Er as (r & Hr & Hba & Hend). rewrite Nat2Z.id, Hr.
  destruct (state_at b i Hok (lookup_lt_Some _ _ _ Hr)) as (r' & s & Hr' & Hs & Hsok).
  assert (r' = r) by congruence. subst r'. destruct Hsok as (Hql & _).
  destruct (lookup_lt_is_Some_2 (queues s) (Z.to_nat m)) as [q Hq]; [unfold master_count in Hm; lia |].
  unfold push_back. wp_run. rewrite Nat2Z.id, Hs. cbn [mbind option_bind]. rewrite Hq. wp_run.
  apply settles_call. split; [|split; [reflexivity |]].
  2: { eapply regions_run_step; [apply regions_run_refl | exact Hs | constructor; exact Hq]. }
  rewrite Forall_forall in Htyp. destruct (Htyp r) as [[Hb0 _] _]; [apply list_elem_of_lookup; eauto |].
  apply (enqueue_ok b i (Z.to_nat m) s q r (at_offset msg (addr - base r)) t); try assumption.
  - eapply offset_queued_ok; eassumption.
  - destruct msg; try discriminate; injection Et as <- _; reflexivity.
  - rewrite Z2Nat.id by apply Hm. exact Hnew.
Qed.

Lemma arbitrate_region_settles b0 b (ctx : C) i :
  keeps b0 b -> (i < length (regions b))%nat -> settles (keeps b0) (arbitrate_region i) b ctx.
Proof.
  intros HP Hi. pose proof HP as (Hok & Hcfg & Hrun). unfold settles, arbitrate_region. wp_run.
  destruct (state_at b i Hok) as (r & s & Hr & Hs & Hsok); [rewrite <- length_states by exact Hok; exact Hi |].
  rewrite Hs. destruct (active s) as [a|] eqn:Ha; [apply wp_ret, HP |].
  destruct (RegionState.select s) as [m|] eqn:Esel; [|apply wp_ret, HP]. wp_run.
  apply wp_try; [|intros; cbn; eauto]. intros next [-> Hnext]%ok_or_Ok%checked_add_Some. 
  destruct (select_range s m Esel) as (Hm & q & rest & Eq & Hq). rewrite Eq. cbn [head mbind option_bind].
  destruct Hsok as (Hlen & _ & _ & Hqs). pose proof (Forall_lookup_1 _ _ _ _ Hqs Hq) as Hqm.
  inversion Hqm as [|? ? Hmsg _]; subst. destruct Hmsg as (_ & addr & len & Hrng & _).
  destruct (request_txn q) as [[t w]|] eqn:Et; [|destruct q; discriminate].
  change (Some (t, w) ≫= _) with (Some (q, t, w)). cbn iota. wp_step.
  apply wp_call; cbn [fst]; [|eauto]. intros ctx'. wp_run.
  rewrite <- (Z2Nat.id m) in Esel |- * by lia. split; [|split; [exact Hcfg |]].
  - eapply (grant_ok b i (Z.to_nat m) s r q rest t w); eassumption.
  - change (master_count (set_next _ b)) with (Z.of_nat (length (masters (config b)))). rewrite <- Hlen. eapply regions_run_step; [exact Hrun | exact Hs |].
    econstructor; eassumption.
Qed.

Lemma settles_seq {A B} (P : MultiMasterBus -> Prop) (m : M A) (f : A -> M B) b (ctx : C) :
  settles P m b ctx -> (forall a b' ctx', P b' -> settles P (f a) b' ctx') ->
  settles P (mbind (M := ST (MultiMasterBus * C) Failure) f m) b ctx.
Proof.
  intros Hm Hf. unfold settles. wp_step. eapply wp_mono; [exact Hm | | auto].
  cbn. intros a [b' ctx'] HP. apply Hf, HP.
Qed.

Lemma keeps_length b0 b : keeps b0 b -> length (regions b) = length (cfg_regions (config b0)).
Proof. intros (Hok & Hc & _). rewrite <- Hc. apply length_states, Hok. Qed.

Lemma arbitrate_loop_settles b0 l : forall b (ctx : C),
  keeps b0 b -> Forall (fun i => (i < length (cfg_regions (config b0)))%nat) l ->
  settles (keeps b0) (arbitrate_loop l) b ctx.
Proof.
  induction l as [|i l IH]; intros b ctx HP Hl; cbn [arbitrate_loop]; [exact HP |].
  inversion Hl; subst. apply settles_seq.
  - apply arbitrate_region_settles; [exact HP |]. rewrite (keeps_length b0 b HP). assumption.
  - intros _ b' ctx' HP'. apply IH; assumption.
Qed.

Lemma arbitrate_settles b (ctx : C) : mm_ok b -> settles (keeps b) arbitrate b ctx.
Proof.
  intros Hok. assert (HP : keeps b b) by (apply keeps_refl, Hok). unfold settles, arbitrate. wp_run.
  case_bool_decide; [apply wp_fault; eauto |]. wp_run. apply arbitrate_loop_settles; [exact HP |].
  rewrite (length_states b Hok). apply Forall_forall. intros i [_ Hi]%elem_of_seq. exact Hi.
Qed.

Lemma mm_response_settles b (ctx : C) i msg :
  mm_ok b -> 0 <= i < Z.of_nat (length (regions b)) -> settles (keeps b) (response i msg) b ctx.
Proof.
  intros Hok Hi. assert (HP : keeps b b) by (apply keeps_refl, Hok). unfold settles, response.
  destruct (response_txn msg) as [[t w]|]; [|apply wp_fault; eauto]. wp_run.
  case_bool_decide; [apply wp_fault; eauto |]. wp_run.
  destruct (state_at b (Z.to_nat i) Hok) as (r & s & Hr & Hs & Hsok);
    [rewrite <- length_states by exact Hok; lia |].
  rewrite Hs. wp_run. apply wp_try; [|intros; cbn; eauto]. intros a Ea%ok_or_Ok.
  assert (Ha : active s = Some a) by (destruct (active s) as [a'|]; cbn in Ea; [destruct (_ =? _); congruence | discriminate]).
  case_if; [apply wp_fault; eauto |]. wp_run. apply wp_call; cbn [fst]; [|eauto]. intros ctx'. wp_run.
  assert (HP' : keeps b (set_regions (<[Z.to_nat i := freed s]> (regions b)) b))
    by (split; [eapply complete_ok; eassumption |]; split; [reflexivity |];
        eapply regions_run_step; [apply regions_run_refl | exact Hs | econstructor; exact Ha]).
  case_if; [apply settles_call, HP' | apply wp_ret, HP'].
Qed.

Lemma mm_event_settles b (ctx : C) ev : mm_ok b -> event_ok ev -> settles (keeps b) (handle_event ev) b ctx.
Proof.
  intros Hok Hev. assert (HP : keeps b b) by (apply keeps_refl, Hok). unfold settles, handle_event. wp_run.
  destruct ev as [port [?|msg|?|?]|token]; try (apply wp_fault; eauto).
  - destruct Hev as (Hp & Hm). destruct (Z.ltb_spec port (master_count b)).
    + apply mm_request_settles; (assumption || lia).
    + destruct (Z.ltb_spec (port - master_count b) (Z.of_nat (length (regions b)))).
      * apply mm_response_settles; [exact Hok | lia].
      * apply wp_fault; eauto.
  - case_if; [apply arbitrate_settles, Hok | apply wp_fault; eauto].
Qed.

(** The bus's invariant holds at the end of every event, whatever the context answers and
    errors included: FIFOs hold only requests that lie in their region, no master has one
    transaction live twice, every active downstream transaction is below the counter and no
    two are equal, cursors stay below the master count; and no event panics. *)
Theorem mm_invariant (b b' : MultiMasterBus) (ctx ctx' : C) ev r :
  mm_ok b -> event_ok ev -> handle_event ev (b, ctx) = ((b', ctx'), r) ->
  (mm_ok b' /\ config b' = config b) /\ forall what, r <> Err (Panics what).
Proof.
  intros Hok Hev E.
  destruct (settles_panic_free _ _ _ _ _ _ _ (mm_event_settles b ctx ev Hok Hev) E) as ((H1 & H2 & _) & H3). auto.
Qed.

(** C21: every event of the bus refines the regions' step machine: whatever the event does, each
    region moves by enqueues, round-robin grants of an idle region, and completions of an
    active one, and by nothing else. *)
Theorem mm_refines_regions (b b' : MultiMasterBus) (ctx ctx' : C) ev r :
  mm_ok b -> event_ok ev -> handle_event ev (b, ctx) = ((b', ctx'), r) ->
  regions_run (regions b) (regions b').
Proof.
  intros Hok Hev E.
  destruct (settles_panic_free _ _ _ _ _ _ _ (mm_event_settles b ctx ev Hok Hev) E) as ((_ & _ & Hrun) & _). exact Hrun.
Qed.
End events.

(** * Order and fairness *)

Definition enqueued_by (m : nat) (ls : list Label) : list MemMsg :=
  ls ≫= fun l => match l with LEnqueue m' msg => if (m' =? m)%nat then [msg] else [] | _ => [] end.

Definition granted_to (m : nat) (ls : list Label) : list MemMsg :=
  ls ≫= fun l => match l with LGrant m' msg => if (m' =? m)%nat then [msg] else [] | _ => [] end.

Lemma length_queues_step s l s' : region_step s l s' -> length (queues s') = length (queues s).
Proof.
  destruct 1; cbn; [apply length_insert | | reflexivity]. rewrite Nat2Z.id, length_alter. reflexivity.
Qed.

Lemma queue_insert (s : RegionState) a c i q m :
  (i < length (queues s))%nat ->
  RegionState.queue (mkRegionState a (<[i := q]> (queues s)) c) (Z.of_nat m) =
  if (i =? m)%nat then q else RegionState.queue s (Z.of_nat m).
Proof.
  intros Hi. unfold RegionState.queue. cbn [queues]. rewrite Nat2Z.id.
  destruct (Nat.eqb_spec i m) as [->|Hne].
  - rewrite list_lookup_insert_eq by exact Hi. reflexivity.
  - rewrite list_lookup_insert_ne by exact Hne. reflexivity.
Qed.

Lemma queue_lookup s m q : queues s !! m = Some q -> RegionState.queue s (Z.of_nat m) = q.
Proof. intros Hq. unfold RegionState.queue. rewrite Nat2Z.id, Hq. reflexivity. Qed.

(** How a step moves a master's FIFO: a grant takes its front, an enqueue adds at its back. *)
Lemma step_queue s l s' m :
  region_step s l s' ->
  RegionState.queue s (Z.of_nat m) ++ enqueued_by m [l] = granted_to m [l] ++ RegionState.queue s' (Z.of_nat m).
Proof.
  destruct 1 as [s i q msg Hq|s i msg rest t d w Ha Hsel Hq Ht|s a Ha]; cbn [enqueued_by granted_to mbind list_bind].
  - unfold enqueued. rewrite queue_insert by (eapply lookup_lt_Some, Hq).
    destruct (Nat.eqb_spec i m) as [->|]; cbn; [|apply app_nil_r]. rewrite (queue_lookup s m q Hq). reflexivity.
  - unfold granted. rewrite Nat2Z.id, (alter_tail_queue s i msg rest Hq).
    rewrite queue_insert by (eapply lookup_lt_Some, Hq). rewrite app_nil_r.
    destruct (Nat.eqb_spec i m) as [->|]; cbn; [|reflexivity]. apply (queue_lookup s m _ Hq).
  - cbn. rewrite app_nil_r. reflexivity.
Qed.

(** A master's requests to a region are granted in the order they arrived: over any run of a
    region, what the master had queued followed by what it sent is what was granted to it
    followed by what it still has queued.  No request is lost, duplicated or reordered. *)
Theorem mm_grants_in_order s ls s' m :
  region_run s ls s' ->
  RegionState.queue s (Z.of_nat m) ++ enqueued_by m ls =
  granted_to m ls ++ RegionState.queue s' (Z.of_nat m).
Proof.
  induction 1 as [s|s ls s' l s'' Hrun IH Hstep]; [apply app_nil_r |].
  unfold enqueued_by, granted_to in *. rewrite !bind_app. rewrite app_assoc, IH, <- !app_assoc. f_equal.
  exact (step_queue s' l s'' m Hstep).
Qed.

(** The grants of a run. *)
Definition is_grant (l : Label) : bool := match l with LGrant _ _ => true | _ => false end.

Definition grants (ls : list Label) : nat := length (filter (fun l => is_grant l = true) ls).

(** How far a master is from the cursor. *)
Definition distance (s : RegionState) (m : nat) : Z :=
  (Z.of_nat m - rr_cursor s) mod Z.of_nat (length (queues s)).

(** A grant to another master brings a waiting master closer to the cursor. *)
Lemma grant_closer s m i msg rest t d w :
  (m < length (queues s))%nat -> RegionState.queue s (Z.of_nat m) <> [] -> i <> m ->
  RegionState.select s = Some (Z.of_nat i) -> queues s !! i = Some (msg :: rest) ->
  distance (granted s (Z.of_nat i) (Z.of_nat (length (queues s))) t d w) m < distance s m.
Proof.
  intros Hm Hwait Hne Hsel Hi. set (n := Z.of_nat (length (queues s))).
  assert (Hn : 0 < n) by lia.
  apply select_Some in Hsel as (k & [Hk Ek]%scan_lookup & _ & Hlt). fold n in Ek.
  set (dm := distance s m). assert (Hdm : 0 <= dm < n) by (apply Z.mod_pos_bound; exact Hn).
  assert (Em : (rr_cursor s + dm) mod n = Z.of_nat m).
  { subst dm. unfold distance. fold n. rewrite Z.add_mod_idemp_r by lia.
    replace (rr_cursor s + (Z.of_nat m - rr_cursor s)) with (Z.of_nat m) by lia. apply Z.mod_small. lia. }
  assert (Hkd : Z.of_nat k < dm).
  { apply Z.nle_gt. intros Hle. destruct (decide (dm = Z.of_nat k)) as [E|E].
    - rewrite E, <- Ek in Em. lia.
    - specialize (Hlt (Z.to_nat dm) (Z.of_nat m) ltac:(lia)).
      rewrite scan_lookup in Hlt. fold n in Hlt. rewrite Z2Nat.id in Hlt by lia.
      specialize (Hlt ltac:(split; [lia | symmetry; exact Em])). destruct (RegionState.queue s (Z.of_nat m)); [auto | discriminate]. }
  unfold distance. cbn [rr_cursor granted queues]. rewrite Nat2Z.id, length_alter. fold n.
  rewrite <- Zminus_mod_idemp_r, Z.mod_mod, Zminus_mod_idemp_r by lia. rewrite Ek.
  replace (Z.of_nat m - ((rr_cursor s + Z.of_nat k) mod n + 1)) with
    (Z.of_nat m - 1 - (rr_cursor s + Z.of_nat k) mod n) by lia.
  rewrite Zminus_mod_idemp_r. rewrite <- Em.
  replace ((rr_cursor s + dm) mod n - 1 - (rr_cursor s + Z.of_nat k)) with
    ((rr_cursor s + dm) mod n - (rr_cursor s + Z.of_nat k + 1)) by lia.
  rewrite Zminus_mod_idemp_l. replace (rr_cursor s + dm - (rr_cursor s + Z.of_nat k + 1)) with (dm - Z.of_nat k - 1) by lia.
  rewrite Z.mod_small by lia. lia.
Qed.

Lemma waiting_run s ls s' m :
  region_run s ls s' -> (m < length (queues s))%nat -> RegionState.queue s (Z.of_nat m) <> [] ->
  granted_to m ls = [] ->
  length (queues s') = length (queues s) /\ RegionState.queue s' (Z.of_nat m) <> [] /\
  Z.of_nat (grants ls) + distance s' m <= distance s m.
Proof.
  intros Hrun Hm Hwait. induction Hrun as [s|s ls s' l s'' Hrun IH Hstep]; intros Hg.
  - split; [reflexivity |]. split; [exact Hwait |]. cbn. lia.
  - unfold granted_to in Hg. rewrite bind_app in Hg. apply app_eq_nil in Hg as [Hg1 Hg2].
    destruct (IH Hm Hwait Hg1) as (Hl & Hw & Hd). pose proof (step_queue s' l s'' m Hstep) as Hq.
    unfold granted_to in Hq at 1. rewrite Hg2 in Hq. cbn [app] in Hq.
    assert (Hw' : RegionState.queue s'' (Z.of_nat m) <> []) by (rewrite <- Hq; intros [? _]%app_eq_nil; contradiction).
    split; [rewrite (length_queues_step _ _ _ Hstep); exact Hl |]. split; [exact Hw' |].
    unfold grants in *. rewrite filter_app, length_app.
    destruct Hstep as [s0 i q msg Hi|s0 i msg rest t d w Ha Hsel Hi Ht|s0 a Ha]; cbn [filter list_filter is_grant].
    + rewrite decide_False by discriminate. unfold distance in *. cbn in *. rewrite length_insert. lia.
    + rewrite decide_True by reflexivity. cbn [length].
      assert (Hne : i <> m) by (intros ->; cbn in Hg2; rewrite Nat.eqb_refl in Hg2; discriminate).
      pose proof (grant_closer s0 m i msg rest t d w ltac:(lia) Hw Hne Hsel Hi). lia.
    + rewrite decide_False by discriminate. unfold distance in *. cbn in *. lia.
Qed.

(** C22: round-robin starves nobody: while a master waits at a region, the region grants at most
    [masters - 1] requests before one of that master's; so in any run with as many grants as
    there are masters, a waiting master is granted, whatever the others send meanwhile. *)
Theorem mm_round_robin_fair s ls s' m :
  region_run s ls s' -> (m < length (queues s))%nat -> RegionState.queue s (Z.of_nat m) <> [] ->
  (length (queues s) <= grants ls)%nat -> granted_to m ls <> [].
Proof.
  intros Hrun Hm Hwait Hn Hg. destruct (waiting_run s ls s' m Hrun Hm Hwait Hg) as (Hl & _ & Hd).
  assert (0 <= distance s' m) by (apply Z.mod_pos_bound; lia).
  assert (distance s m < Z.of_nat (length (queues s))) by (apply Z.mod_pos_bound; lia). lia.
Qed.

(** * Responses *)

Section responses.
Context {C : Type} `{SimContext C, MemClassify}.

Local Abbreviation M := (ST (MultiMasterBus * C) Failure).

(** The relay of a matched response: the answer to its master under the master's own
    transaction, the region freed, and the next arbitration asked for if anything waits. *)
Definition relayed (i : nat) (s : RegionState) (a : ActiveTxn) (msg : MemMsg) : M unit :=
  b ← self;
  call (ctx_send (master a) (Message_MemV1 (with_txn msg (original_txn a))) When_Now Phase_Complete);;
  update (fun b => set_regions (<[i := freed s]> (regions b)) b);;
  if RegionState.has_queued s
  then call (ctx_wake_self (When_Cycles (clock (config b)) 1) Phase_Transfer ARBITRATE)
  else mret tt.

(** A response arriving in [Complete] on a region's port is relayed, to the master whose
    request it answers and under that master's own transaction, if and only if it carries the
    downstream transaction the region has active and is of its kind; any other response
    (unknown, stale, repeated, of the wrong kind, on another region's port) faults the
    session, sends nothing and leaves the bus as it was. *)
Theorem mm_response_exact b (ctx : C) i s msg txn wr :
  regions b !! i = Some s -> response_txn msg = Some (txn, wr) -> ctx_phase ctx = Phase_Complete ->
  let ev := Delivered_Message (master_count b + Z.of_nat i) (Message_MemV1 msg) in
  let matches a := active s = Some a /\ downstream_txn a = txn /\ is_write a = wr in
  (forall a, matches a -> handle_event ev (b, ctx) = relayed i s a msg (b, ctx)) /\
  ((forall a, ~ matches a) ->
   exists what, handle_event ev (b, ctx) = ((b, ctx), Err (Fails (ComponentFault what)))).
Proof.
  intros Hi Ht Hph ev matches. subst ev. unfold handle_event. rewrite ST_bind_unfold. cbn [self fst].
  rewrite (proj2 (Z.ltb_ge _ _)) by lia.
  replace (master_count b + Z.of_nat i - master_count b) with (Z.of_nat i) by lia.
  rewrite (proj2 (Z.ltb_lt _ _)) by (apply lookup_lt_Some in Hi; lia).
  unfold response. rewrite Ht, ST_bind_unfold. cbn [phase_of_event snd]. rewrite Hph.
  rewrite (bool_decide_eq_false_2 (Phase_Complete <> Phase_Complete)) by (intros Hn; apply Hn; reflexivity).
  rewrite ST_bind_unfold. cbn [self fst]. rewrite Nat2Z.id, Hi, ST_bind_unfold. unfold try. subst matches.
  destruct (active s) as [a|] eqn:Ha; cbn [mbind option_bind ok_or map_err].
  2: { split; [intros a [? _]; discriminate | intros _; eexists; reflexivity]. }
  destruct (Z.eqb_spec (downstream_txn a) txn) as [Hd|Hd]; cbn [ok_or map_err].
  2: { split; [intros a' ([= <-] & ? & _); contradiction | intros _; eexists; reflexivity]. }
  destruct (Bool.eqb (is_write a) wr) eqn:Ew; cbn [negb].
  - apply eqb_prop in Ew. split.
    + intros a' ([= <-] & _). reflexivity.
    + intros Hn. destruct (Hn a). auto.
  - apply eqb_false_iff in Ew. split; [intros a' ([= <-] & _ & ?); contradiction | intros _; eexists; reflexivity].
Qed.
End responses.

(** * Construction *)

Lemma check_names_spec names : forall seen,
  NoDup seen -> check_names seen names = Ok tt <-> NoDup (rev names ++ seen).
Proof.
  induction names as [|n names IH]; intros seen Hs; cbn [check_names rev]; [split; auto |].
  rewrite <- app_assoc. cbn [app]. case_bool_decide as Hn.
  - split; [discriminate |]. intros Hd. exfalso. apply NoDup_app in Hd as (_ & _ & Hd).
    inversion Hd. contradiction.
  - apply IH. constructor; assumption.
Qed.

Lemma mm_check_earlier_spec r earlier :
  mm_region_ok r -> Forall mm_region_ok earlier ->
  check_earlier r (base r + (size r - 1)) earlier = Ok tt <->
  Forall (fun e => forall a, holds e a -> ~ holds r a) earlier.
Proof.
  intros [Hr _]. induction 1 as [|e earlier [He _] _ IH]; cbn; [split; [constructor | reflexivity] |].
  rewrite Forall_cons.
  assert (Ho : (base e <=? base r + (size r - 1)) && (base r <=? base e + (size e - 1)) = false <->
    (forall a, holds e a -> ~ holds r a)).
  { unfold holds. rewrite andb_false_iff, !Z.leb_gt. split; [intros Hlt a; lia |].
    intros Ha. specialize (Ha (Z.max (base e) (base r))). lia. }
  rewrite <- Ho. destruct (_ && _).
  - split; [discriminate | intros [? _]; discriminate].
  - rewrite IH. tauto.
Qed.

(** A memory map without names. *)
Definition mm_map_ok (rs : list Region) : Prop := Forall mm_region_ok rs /\ disjoint_regions rs.

Lemma mm_map_snoc rs r :
  mm_map_ok rs -> mm_region_ok r /\ Forall (fun e => forall a, holds e a -> ~ holds r a) rs <-> mm_map_ok (rs ++ [r]).
Proof.
  intros [Hok Hd]. split.
  - intros [Hr Hf]. split; [apply Forall_app; auto |]. intros i j x y a Hi Hj Hne Hx Hy.
    rewrite Forall_forall in Hf. apply lookup_snoc_Some in Hi, Hj.
    destruct Hi as [[? Hi]|[-> ->]], Hj as [[? Hj]|[-> ->]]; try lia.
    + exact (Hd i j x y a Hi Hj Hne Hx Hy).
    + apply (Hf x) with (a := a); [apply list_elem_of_lookup; eauto | exact Hx | exact Hy].
    + apply (Hf y) with (a := a); [apply list_elem_of_lookup; eauto | exact Hy | exact Hx].
  - intros [Hf Hx]. apply Forall_app in Hf as [_ Hf]. inversion Hf; subst. split; [assumption |].
    apply Forall_forall. intros e (i & Hi)%list_elem_of_lookup a He Hr.
    apply (Hx i (length rs) e r a); [apply lookup_app_l_Some, Hi | apply list_lookup_middle; reflexivity | | exact He | exact Hr].
    apply lookup_lt_Some in Hi. lia.
Qed.

Lemma mm_map_prefix rs rs' : mm_map_ok (rs ++ rs') -> mm_map_ok rs.
Proof.
  intros [Hf Hd]. apply Forall_app in Hf as [Hf _]. split; [exact Hf |].
  intros i j x y a Hi Hj. apply Hd; apply lookup_app_l_Some; assumption.
Qed.

Lemma mm_check_regions_spec rs : forall earlier,
  Forall region_typed rs -> mm_map_ok earlier -> check_regions earlier rs = Ok tt <-> mm_map_ok (earlier ++ rs).
Proof.
  induction rs as [|r rs IH]; intros earlier Ht He; cbn [check_regions].
  - rewrite app_nil_r. split; auto.
  - inversion Ht as [|? ? [Hb Hs] Ht']; subst. unfold in_u in *.
    assert (Hpre : mm_map_ok (earlier ++ r :: rs) -> mm_map_ok (earlier ++ [r])).
    { replace (earlier ++ r :: rs) with ((earlier ++ [r]) ++ rs) by (rewrite <- app_assoc; reflexivity).
      apply mm_map_prefix. }
    pose proof (mm_map_snoc earlier r He) as Hsnoc.
    destruct (Z.eqb_spec (size r) 0) as [Hz|Hz].
    { split; [discriminate |]. intros [[Hr _] _]%Hpre%Hsnoc. lia. }
    destruct (checked_add 64 (base r) (size r - 1)) as [last|] eqn:E; cbn.
    2: { rewrite checked_add_None in E. split; [discriminate |]. intros [[_ Hr] _]%Hpre%Hsnoc. lia. }
    apply checked_add_Some in E as [-> E]. assert (Hr : mm_region_ok r) by (split; lia).
    pose proof (mm_check_earlier_spec r earlier Hr (proj1 He)) as Hc.
    destruct (check_earlier r _ earlier) as [[]|e]; cbn.
    + rewrite IH by (first [assumption | apply Hsnoc; split; [exact Hr | apply Hc; reflexivity]]).
      rewrite <- app_assoc. reflexivity.
    + split; [discriminate |]. intros [_ Hf]%Hpre%Hsnoc. apply Hc in Hf. discriminate.
Qed.

Definition idle_bus (cfg : MultiMasterBusConfig) : MultiMasterBus :=
  mkMultiMasterBus cfg (replicate (length (cfg_regions cfg)) (RegionState.idle (length (masters cfg)))) 0.

Lemma mm_new_spec cfg b :
  Forall region_typed (cfg_regions cfg) -> new cfg = Ok b <-> mm_config_ok cfg /\ b = idle_bus cfg.
Proof.
  intros Ht. unfold new, mm_config_ok. destruct (masters cfg) as [|m0 ms] eqn:Em; cbn [is_empty].
  { split; [discriminate | intros [[? _] _]; cbn in *; lia]. }
  rewrite <- Em. assert (Hm : (0 < length (masters cfg))%nat) by (rewrite Em; cbn; lia).
  destruct (Z.leb_spec 0xFFFF (Z.of_nat (length (masters cfg) + length (cfg_regions cfg)))).
  { split; [discriminate | intros [(_ & ? & _) _]; lia]. }
  pose proof (check_names_spec (masters cfg ++ (name <$> cfg_regions cfg)) [] (NoDup_nil_2)) as Hn.
  rewrite app_nil_r, <- Permutation_rev in Hn.
  destruct (check_names [] _) as [[]|e]; cbn.
  2: { split; [discriminate | intros [(_ & _ & _ & _ & _ & Hd) _]; apply Hn in Hd; discriminate]. }
  pose proof (mm_check_regions_spec (cfg_regions cfg) [] Ht) as Hc. cbn [app] in Hc.
  assert (Hnil : mm_map_ok []) by (split; [constructor | intros i j x y a Hi; rewrite lookup_nil in Hi; discriminate]).
  specialize (Hc Hnil). destruct (check_regions [] (cfg_regions cfg)) as [[]|e]; cbn.
  - split; [|intros [_ ->]; reflexivity]. intros [= <-]. split; [|reflexivity].
    destruct (proj1 Hc eq_refl) as [Hf Hd]. split_and!; try assumption. apply Hn. reflexivity.
  - split; [discriminate |]. intros [(_ & _ & _ & Hf & Hd & _) _].
    assert (Hx : mm_map_ok (cfg_regions cfg)) by (split; assumption). apply Hc in Hx. discriminate.
Qed.

Lemma concat_imap_nil {A B} (f : nat -> A -> list B) n x : (forall i, f i x = []) -> concat (imap f (replicate n x)) = [].
Proof.
  intros Hf. apply elem_of_nil_inv. intros k (j & y & Hj & Hin)%elem_of_concat_imap.
  apply lookup_replicate in Hj as [-> _]. rewrite Hf in Hin. inversion Hin.
Qed.

Lemma idle_bus_ok cfg : mm_config_ok cfg -> mm_ok (idle_bus cfg).
Proof.
  intros Hc. pose proof Hc as (Hm & _). split; [exact Hc |]. split; [cbn; unfold in_u; lia |].
  cbn [idle_bus regions config next_downstream]. split; [|split].
  - apply Forall2_same_length_lookup. split; [rewrite length_replicate; reflexivity |].
    intros i r s _ Hs. apply lookup_replicate in Hs as [-> _]. split; [apply length_replicate |].
    split; [cbn; lia |]. split; [discriminate |]. apply Forall_replicate. constructor.
  - unfold live_keys. rewrite concat_imap_nil; [constructor |]. intros i. unfold state_keys. cbn.
    apply concat_imap_nil. reflexivity.
  - unfold downstreams. rewrite concat_imap_nil; [constructor | reflexivity].
Qed.

(** [MultiMasterBus::new] accepts exactly the configurations with at least one master, room
    for the ports, distinct port names and non-empty regions within [u64] of which no two
    share an address; and the bus it makes is idle and satisfies the invariant. *)
Theorem mm_new_exact cfg b :
  Forall region_typed (cfg_regions cfg) ->
  (new cfg = Ok b <-> mm_config_ok cfg /\ b = idle_bus cfg) /\ (new cfg = Ok b -> mm_ok b).
Proof.
  intros Ht. split; [apply mm_new_spec, Ht |]. intros [Hc ->]%mm_new_spec; [|exact Ht]. apply idle_bus_ok, Hc.
Qed.

(** * Witnesses *)

#[local] Existing Instance recording_context.
#[local] Existing Instance documented_classify.

Definition example_mm_config : MultiMasterBusConfig :=
  mkMultiMasterBusConfig ["cpu"; "dma"] [mkRegion "ram" 0x1000 16] 3.
Definition example_state : RegionState := mkRegionState None [[ReadReq 1 0 4]; [ReadReq 1 4 4]] 0.
Definition example_waiting : MultiMasterBus := mkMultiMasterBus example_mm_config [example_state] 0.
Definition example_granted : RegionState := granted example_state 0 2 1 0 false.
Definition example_active : MultiMasterBus := mkMultiMasterBus example_mm_config [example_granted] 1.

Definition example_grant_ctx : RecCtx :=
  mkRecCtx Phase_Transfer
    [Sent 2 (Message_MemV1 (ReadReq 0 0 4)) When_Now Phase_Transfer;
     Traced GRANT_KIND [("region", VU64 0); ("master", VU64 0); ("txn", VU64 1); ("downstream_txn", VU64 0)]].

Lemma example_mm_config_ok : mm_config_ok example_mm_config.
Proof.
  split; [cbn; lia |]. split; [reflexivity |]. split; [constructor; [split; const_range | constructor] |].
  split; [constructor; [split; cbn; lia | constructor] |]. split.
  - intros [|i] [|j] r s a Hi Hj Hne; cbn in Hi, Hj; try discriminate; congruence.
  - apply (bool_decide_unpack _). vm_compute. exact I.
Qed.

Lemma example_queued txn addr : in_u 64 txn -> 0 <= addr <= 12 -> queued_ok (mkRegion "ram" 0x1000 16) (ReadReq txn addr 4).
Proof.
  intros Ht Ha. split; [split; [exact Ht | split; [unfold in_u; lia | const_range]] |].
  exists addr, 4. split; [reflexivity | cbn; lia].
Qed.

Lemma example_waiting_ok : mm_ok example_waiting.
Proof.
  split; [exact example_mm_config_ok |]. split; [const_range |]. split; [|split].
  - constructor; [|constructor]. split; [reflexivity |]. split; [cbn; lia |]. split; [discriminate |].
    repeat (constructor; [constructor; [apply example_queued; [const_range | lia] | constructor] |]). constructor.
  - apply (bool_decide_unpack _). vm_compute. exact I.
  - apply (bool_decide_unpack _). vm_compute. exact I.
Qed.

Lemma mm_new_exact_witness : new example_mm_config = Ok (idle_bus example_mm_config).
Proof.
  apply (mm_new_exact example_mm_config (idle_bus example_mm_config)).
  - constructor; [split; const_range | constructor].
  - split; [exact example_mm_config_ok | reflexivity].
Defined.

Lemma example_arbitrated :
  handle_event (Delivered_Wake ARBITRATE) (example_waiting, mkRecCtx Phase_Transfer []) =
  ((example_active, example_grant_ctx), Ok tt).
Proof. vm_compute. reflexivity. Qed.

Lemma mm_invariant_witness : mm_ok example_active.
Proof.
  apply (mm_invariant example_waiting example_active (mkRecCtx Phase_Transfer []) example_grant_ctx
    (Delivered_Wake ARBITRATE) (Ok tt)
    example_waiting_ok I example_arbitrated).
Defined.

Lemma mm_refines_regions_witness : regions_run [example_state] [example_granted].
Proof.
  apply (mm_refines_regions example_waiting example_active (mkRecCtx Phase_Transfer []) example_grant_ctx
    (Delivered_Wake ARBITRATE) (Ok tt)
    example_waiting_ok I example_arbitrated).
Defined.

Definition example_labels : list Label := [LGrant 0 (ReadReq 1 0 4); LComplete; LGrant 1 (ReadReq 1 4 4)].

Lemma example_run : region_run example_state example_labels (granted (freed example_granted) 1 2 1 1 false).
Proof.
  apply (run_snoc _ [LGrant 0 (ReadReq 1 0 4); LComplete] (freed example_granted)).
  - apply (run_snoc _ [LGrant 0 (ReadReq 1 0 4)] example_granted).
    + apply (run_snoc _ [] example_state); [constructor |].
      exact (step_grant example_state 0 (ReadReq 1 0 4) [] 1 0 false eq_refl eq_refl eq_refl eq_refl).
    + econstructor. reflexivity.
  - exact (step_grant (freed example_granted) 1 (ReadReq 1 4 4) [] 1 1 false eq_refl eq_refl eq_refl eq_refl).
Qed.

Lemma mm_grants_in_order_witness :
  RegionState.queue example_state 1 ++ enqueued_by 1 example_labels =
  granted_to 1 example_labels ++ RegionState.queue (granted (freed example_granted) 1 2 1 1 false) 1.
Proof. exact (mm_grants_in_order _ _ _ 1 example_run). Defined.

Lemma mm_round_robin_fair_witness : granted_to 1 example_labels <> [].
Proof.
  apply (mm_round_robin_fair _ _ _ 1 example_run); [cbn; lia | discriminate | vm_compute; lia].
Defined.

Lemma mm_response_exact_witness :
  handle_event (Delivered_Message 2 (Message_MemV1 (ReadResp 0 (ReadOutcome_Data [1; 2; 3; 4]))))
    (example_active, mkRecCtx Phase_Complete []) =
  relayed 0 example_granted (mkActiveTxn 0 1 0 false) (ReadResp 0 (ReadOutcome_Data [1; 2; 3; 4]))
    (example_active, mkRecCtx Phase_Complete []).
Proof.
  apply (@mm_response_exact RecCtx recording_context documented_classify example_active (mkRecCtx Phase_Complete []) 0 example_granted
    (ReadResp 0 (ReadOutcome_Data [1; 2; 3; 4])) 0 false eq_refl eq_refl eq_refl).
  split; [reflexivity | split; reflexivity].
Defined.
