(* ===== verification/MmBusSnapshot.v ===== *)
(** Snapshots of the multi-initiator bus, [components/platform/src/mmbus.rs]: a snapshot
    restores the bus exactly, and whatever [restore] accepts satisfies the bus's invariant, so
    that a restored bus arbitrates and relays as a live one does. *)
From stdpp Require Import base numbers list option strings sorting.
From Stdlib Require Import ZArith Lia.
From S2P Require Import Prelude Contracts Handlers Snapshots Platform Bus MmBus MmBusProofs.

Local Open Scope string_scope.
Local Open Scope list_scope.
Local Open Scope Z_scope.

(** The rest of what a configuration's types give: names and clock that can be encoded. *)
Definition mm_config_typed (cfg : MultiMasterBusConfig) : Prop :=
  Forall ascii_str (masters cfg) /\ Forall (fun r => ascii_str (name r)) (cfg_regions cfg) /\ in_u 32 (clock cfg).

(** FIFOs, and requests in them, short enough for their length prefix. *)
Definition queue_fits (q : list MemMsg) : Prop := Z.of_nat (length q) < 2 ^ 32 /\ Forall mem_len_ok q.

Definition queues_fit (b : MultiMasterBus) : Prop :=
  Forall (fun s => Forall queue_fits (queues s)) (regions b).

Section messages.
Context `{MemCodec, MemClassify}.

Local Abbreviation R := (ST (list Z) RestoreError).

(** What [restore] accepts in a FIFO is what the invariant asks of it. *)
Lemma check_queued_spec r msg bs :
  in_u 64 (size r) -> mem_msg_ok msg ->
  match check_queued r msg bs with
  | (bs', Ok _) => bs' = bs /\ queued_ok r msg
  | (_, Err _) => ~ queued_ok r msg
  end.
Proof.
  intros Hs Hm. unfold check_queued.
  destruct (request_range msg) as [[addr len]|] eqn:Er.
  2: { assert (Ea : access msg = None) by (destruct msg; try discriminate; [apply access_read_resp | apply access_write_resp]).
       rewrite Ea. intros (_ & ? & ? & ? & _). congruence. }
  assert (Ha : 0 <= addr /\ 0 <= len).
  { destruct msg; try discriminate; injection Er as <- <-; destruct Hm as (_ & [? _] & Hd); split; try lia. apply Hd. }
  rewrite (access_request msg addr len Er). unfold classify_doc, in_u in *.
  destruct (Z.eqb_spec len 0) as [Hz|Hz].
  { intros (_ & a & l & E & Hl0 & _). rewrite Er in E. injection E as <- <-. lia. }
  destruct (Z.leb_spec (2 ^ 64) (addr + (len - 1))) as [Hov|Hov].
  { intros (_ & a & l & E & _ & Hle). rewrite Er in E. injection E as <- <-. lia. }
  destruct (Z.ltb_spec (addr + (len - 1)) (size r)) as [Hin|Hin].
  - split; [reflexivity |]. split; [exact Hm |]. exists addr, len.
    split; [exact Er | lia].
  - intros (_ & a & l & E & _ & Hle). rewrite Er in E. injection E as <- <-. lia.
Qed.

Lemma reads_queued r msg : in_u 64 (size r) -> queued_ok r msg -> reads (check_queued r msg) [] tt.
Proof.
  intros Hs Hq bs. pose proof Hq as (Hm & _). pose proof (check_queued_spec r msg bs Hs Hm) as Hc.
  cbn [app]. destruct (check_queued r msg bs) as [bs' [[]|e]]; [destruct Hc as [-> _]; reflexivity | contradiction].
Qed.

Lemma yields_queued r msg :
  in_u 64 (size r) -> mem_msg_ok msg -> yields (check_queued r msg) (fun _ => queued_ok r msg).
Proof.
  intros Hs Hm bs Hbs. unfold wp. pose proof (check_queued_spec r msg bs Hs Hm) as Hc.
  destruct (check_queued r msg bs) as [bs' [[]|e]]; [destruct Hc as [-> ?]; auto | exact I].
Qed.

Lemma reads_messages r q :
  in_u 64 (size r) -> Forall (queued_ok r) q -> Forall mem_len_ok q ->
  reads (read_messages r (length q)) (q ≫= put_mem) q.
Proof.
  intros Hs. induction 1 as [|msg q Hm _ IH]; [intros; apply reads_ret |]. cbn [length read_messages]. intros [Hl Hls]%Forall_cons.
  change ((msg :: q) ≫= put_mem) with (put_mem msg ++ (q ≫= put_mem)).
  eapply reads_bind; [apply reads_mem; [apply Hm | exact Hl] |].
  eapply reads_then; [apply reads_queued; assumption |].
  eapply reads_last; [exact (IH Hls) | apply reads_ret].
Qed.

Lemma yields_messages r n :
  in_u 64 (size r) -> yields (read_messages r n) (fun q => Forall (queued_ok r) q).
Proof.
  intros Hs. induction n as [|n IH]; cbn [read_messages]; [apply yields_ret; constructor |].
  eapply yields_bind; [apply yields_mem |]. intros msg [Hm Hl].
  eapply yields_bind; [apply yields_queued; assumption |]. intros [] Hq.
  eapply yields_bind; [exact IH |]. intros q Hqs. apply yields_ret. constructor; assumption.
Qed.

Lemma reads_queues r qs :
  in_u 64 (size r) -> Forall (Forall (queued_ok r)) qs -> Forall queue_fits qs ->
  reads (read_queues r (length qs)) (qs ≫= write_queue) qs.
Proof.
  intros Hs. induction 1 as [|q qs Hq _ IH]; intros Hf; [apply reads_ret |]. cbn [length read_queues].
  apply Forall_cons in Hf as [[Hlen Hmsgs] Hf]. change ((q :: qs) ≫= write_queue) with (write_queue q ++ (qs ≫= write_queue)).
  unfold write_queue at 1. rewrite <- app_assoc. eapply reads_bind; [apply reads_len; split; lia |].
  rewrite Nat2Z.id. eapply reads_bind; [apply reads_messages; assumption |].
  eapply reads_last; [apply IH; assumption | apply reads_ret].
Qed.

Lemma yields_queues r n :
  in_u 64 (size r) ->
  yields (read_queues r n) (fun qs => length qs = n /\ Forall (Forall (queued_ok r)) qs).
Proof.
  intros Hs. induction n as [|n IH]; cbn [read_queues]; [apply yields_ret; split; [reflexivity | constructor] |].
  yields_next. eapply yields_bind; [apply yields_messages, Hs |]. intros q Hq.
  eapply yields_bind; [exact IH |]. intros qs [Hl Hqs]. apply yields_ret. split; [cbn; congruence | constructor; assumption].
Qed.

Lemma reads_active n next a :
  Z.of_nat n <= 0xFFFF -> in_u 64 next -> (forall x, a = Some x -> active_ok n next x) ->
  reads (read_active n next) (write_active a) a.
Proof.
  intros Hn Hnext Ha. unfold read_active. destruct a as [x|]; cbn [write_active]; [|repeat reads_next; apply reads_ret].
  destruct (Ha x eq_refl) as ([Hm Hm'] & Ht & [Hd Hd']). unfold in_u in Hnext.
  assert (in_u 16 (master x)) by (unfold in_u; lia). assert (in_u 64 (downstream_txn x)) by (unfold in_u; lia).
  do 5 reads_next. rewrite (proj2 (Z.leb_gt (Z.of_nat n) (master x)) Hm').
  rewrite (proj2 (Z.leb_gt next (downstream_txn x)) Hd'). repeat reads_next. destruct x. apply reads_ret.
Qed.

Lemma yields_active n next :
  yields (read_active n next) (fun a => forall x, a = Some x -> active_ok n next x).
Proof.
  unfold read_active. yields_next. yields_tags; [apply yields_ret; discriminate |].
  repeat yields_next. apply yields_ret. unbool. intros x [= <-]. unfold active_ok, in_u in *. cbn. lia.
Qed.

Lemma reads_region self b r s :
  config self = config b -> Z.of_nat (length (masters (config b))) <= 0xFFFF -> in_u 64 (next_downstream b) ->
  in_u 64 (size r) -> state_ok (length (masters (config b))) (next_downstream b) r s ->
  Forall queue_fits (queues s) ->
  reads (read_region self r (next_downstream b)) (write_state s) s.
Proof.
  intros Hc Hn Hnext Hs (Hl & [Hcur Hcur'] & Ha & Hq) Hf. unfold read_region, write_state. rewrite Hc.
  eapply reads_bind; [apply reads_active; assumption |].
  eapply reads_bind; [apply reads_u16; split; lia |].
  rewrite (proj2 (Z.leb_gt (Z.of_nat _) (rr_cursor s)) Hcur'). reads_next.
  rewrite <- Hl. eapply reads_last; [apply reads_queues; assumption |]. destruct s. apply reads_ret.
Qed.

Lemma yields_region self r next :
  in_u 64 (size r) ->
  yields (read_region self r next) (state_ok (length (masters (config self))) next r).
Proof.
  intros Hs. unfold read_region. eapply yields_bind; [apply yields_active |]. intros a Ha.
  repeat yields_next. eapply yields_bind; [apply yields_queues, Hs |]. intros qs [Hl Hq].
  apply yields_ret. unbool. split; [exact Hl |]. split; [unfold in_u in *; cbn; lia |]. split; [exact Ha | exact Hq].
Qed.

Lemma reads_states self b : forall rs ss,
  config self = config b -> Z.of_nat (length (masters (config b))) <= 0xFFFF -> in_u 64 (next_downstream b) ->
  Forall region_typed rs -> Forall2 (state_ok (length (masters (config b))) (next_downstream b)) rs ss ->
  Forall (fun s => Forall queue_fits (queues s)) ss ->
  reads (read_states self (next_downstream b) rs) (ss ≫= write_state) ss.
Proof.
  intros rs ss Hc Hn Hnext Ht Hf. induction Hf as [|r s rs ss Hok _ IH]; intros Hq; [apply reads_ret |].
  inversion Ht as [|? ? [_ Hs] Ht']; subst. inversion Hq; subst. cbn [read_states].
  change ((s :: ss) ≫= write_state) with (write_state s ++ (ss ≫= write_state)).
  eapply reads_bind; [apply reads_region; assumption |]. eapply reads_last; [apply IH; assumption | apply reads_ret].
Qed.

Lemma yields_states self next rs :
  Forall region_typed rs ->
  yields (read_states self next rs) (Forall2 (state_ok (length (masters (config self))) next) rs).
Proof.
  induction 1 as [|r rs [_ Hs] _ IH]; cbn [read_states]; [apply yields_ret; constructor |].
  eapply yields_bind; [apply yields_region, Hs |]. intros s Hok. eapply yields_bind; [exact IH |].
  intros ss Hss. apply yields_ret. constructor; assumption.
Qed.
End messages.

(** * The uniqueness checks *)

Section unique.
Context `{MemCodec}.

Local Abbreviation R := (ST (list Z) RestoreError).

(** [m] adds [ks] to the live set and [ds] to the downstream set, and succeeds if and only if
    that repeats nothing. *)
Definition adds (m : Seen -> R Seen) (ks : list (Z * Z)) (ds : list Z) : Prop :=
  forall seen bs, NoDup (live seen) -> NoDup (downstream seen) ->
  match m seen bs with
  | (bs', Ok seen') =>
      bs' = bs /\ (live seen' ≡ₚ ks ++ live seen /\ NoDup (live seen')) /\
      (downstream seen' ≡ₚ ds ++ downstream seen /\ NoDup (downstream seen'))
  | (_, Err _) => ~ (NoDup (ks ++ live seen) /\ NoDup (ds ++ downstream seen))
  end.

Lemma adds_nil : adds (fun seen => mret seen) [] [].
Proof. intros seen bs Hl Hd. cbn. auto. Qed.

Lemma adds_then (m1 m2 : Seen -> R Seen) ks1 ds1 ks2 ds2 :
  adds m1 ks1 ds1 -> adds m2 ks2 ds2 ->
  adds (fun seen => m1 seen ≫= m2) (ks1 ++ ks2) (ds1 ++ ds2).
Proof.
  intros H1 H2 seen bs Hl Hd. specialize (H1 seen bs Hl Hd). rewrite ST_bind_unfold.
  destruct (m1 seen bs) as [bs1 [seen1|e]].
  - destruct H1 as (-> & [El Hl1] & [Ed Hd1]). specialize (H2 seen1 bs Hl1 Hd1).
    destruct (m2 seen1 bs) as [bs2 [seen2|e]].
    + destruct H2 as (-> & [El2 ?] & [Ed2 ?]). split; [reflexivity |]. split; (split; [|assumption]).
      * rewrite El2, El. rewrite !app_assoc. rewrite (Permutation_app_comm ks1). reflexivity.
      * rewrite Ed2, Ed. rewrite !app_assoc. rewrite (Permutation_app_comm ds1). reflexivity.
    + intros [Hn1 Hn2]. apply H2. rewrite El, Ed, !app_assoc.
      rewrite (Permutation_app_comm ks2), (Permutation_app_comm ds2). auto.
  - intros [Hn1 Hn2]. apply H1.
    rewrite (Permutation_app_comm ks1), <- app_assoc in Hn1. apply NoDup_app in Hn1 as (_ & _ & Hn1).
    rewrite (Permutation_app_comm ds1), <- app_assoc in Hn2. apply NoDup_app in Hn2 as (_ & _ & Hn2). auto.
Qed.

Lemma adds_live k : adds (insert_live k) [k] [].
Proof.
  intros seen bs Hl Hd. unfold insert_live, check. rewrite ST_bind_unfold. case_bool_decide as Hk; cbn.
  - intros [Hn _]. inversion Hn. contradiction.
  - split; [reflexivity |]. split; [|auto]. split; [reflexivity | constructor; assumption].
Qed.

Lemma adds_downstream d : adds (insert_downstream d) [] [d].
Proof.
  intros seen bs Hl Hd. unfold insert_downstream, check. rewrite ST_bind_unfold. case_bool_decide as Hk; cbn.
  - intros [_ Hn]. inversion Hn. contradiction.
  - split; [reflexivity |]. split; [auto |]. split; [reflexivity | constructor; assumption].
Qed.

Lemma adds_queue m q :
  Forall (fun msg => is_Some (request_txn msg)) q -> adds (check_queue (Z.of_nat m) q) (queue_keys m q) [].
Proof.
  induction 1 as [|msg q [[t w] Ht] _ IH]; [apply adds_nil |]. cbn [check_queue]. rewrite Ht.
  rewrite (queue_keys_cons m q msg t) by (unfold txn_of; rewrite Ht; reflexivity).
  exact (adds_then _ _ [(Z.of_nat m, t)] [] _ [] (adds_live _) IH).
Qed.

Lemma adds_queues qs : forall m,
  Forall (Forall (fun msg => is_Some (request_txn msg))) qs ->
  adds (check_queues (Z.of_nat m) qs) (concat (imap (fun i => queue_keys (m + i)) qs)) [].
Proof.
  induction qs as [|q qs IH]; intros m Hq; [apply adds_nil |]. inversion Hq; subst. cbn [check_queues imap concat].
  rewrite Nat.add_0_r. replace (Z.of_nat m + 1) with (Z.of_nat (S m)) by lia.
  refine (adds_then _ _ _ [] _ [] (adds_queue m q _) _); [assumption |].
  replace (imap ((fun i => queue_keys (m + i)) ∘ S) qs) with (imap (fun i => queue_keys (S m + i)) qs); [apply IH; assumption |].
  apply imap_ext. intros i x _. cbn. f_equal. lia.
Qed.

Lemma adds_states ss :
  Forall (fun s => Forall (Forall (fun msg => is_Some (request_txn msg))) (queues s)) ss ->
  adds (check_states ss) (live_keys ss) (downstreams ss).
Proof.
  induction 1 as [|s ss Hs _ IH]; [apply adds_nil |]. cbn [check_states].
  change (live_keys (s :: ss)) with (state_keys 0 s ++ live_keys ss).
  change (downstreams (s :: ss)) with (state_downstream 0 s ++ downstreams ss).
  unfold state_keys, state_downstream. rewrite <- app_assoc.
  assert (Hq := adds_queues (queues s) 0 Hs). cbn [Nat.add] in Hq. change (Z.of_nat 0) with 0 in Hq.
  pose proof (adds_then _ _ _ _ _ _ Hq IH) as Hrest. cbn [app] in Hrest.
  destruct (active s) as [a|]; cbn [active_keys].
  - exact (adds_then _ _ [(master a, original_txn a)] [downstream_txn a] _ _
             (adds_then _ _ [(master a, original_txn a)] [] [] [downstream_txn a] (adds_live _) (adds_downstream _)) Hrest).
  - exact (adds_then _ _ [] [] _ _ adds_nil Hrest).
Qed.

Lemma requests_queued n next rs ss :
  Forall2 (state_ok n next) rs ss ->
  Forall (fun s => Forall (Forall (fun msg => is_Some (request_txn msg))) (queues s)) ss.
Proof.
  induction 1 as [|r s rs ss (_ & _ & _ & Hq) _ IH]; constructor; [|exact IH].
  eapply Forall_impl; [exact Hq |]. intros q Hqs. eapply Forall_impl; [exact Hqs |].
  intros msg (_ & addr & len & Hr & _). destruct msg; try discriminate; eexists; reflexivity.
Qed.
End unique.

(** * Restoring *)

Section restoring.
Context `{MemCodec, MemClassify}.

Lemma reads_masters different ms : Forall ascii_str ms -> reads (read_masters different ms) (ms ≫= put_str) tt.
Proof.
  induction 1 as [|m ms Hm _ IH]; [apply reads_ret |]. cbn [read_masters].
  change ((m :: ms) ≫= put_str) with (put_str m ++ (ms ≫= put_str)).
  reads_next. rewrite bool_decide_eq_true_2 by reflexivity. reads_next. exact IH.
Qed.

Lemma yields_masters different ms : yields (read_masters different ms) (fun _ => True).
Proof. induction ms; cbn [read_masters]; [apply yields_ret; exact I |]. repeat yields_next. assumption. Qed.

Lemma reads_mm_config self b :
  config self = config b -> mm_config_ok (config b) -> mm_config_typed (config b) ->
  reads (read_config self) (write_config b) tt.
Proof.
  intros Hc (_ & Hn & Ht & _) (Hm & Hr & Hclk). unfold read_config, write_config. rewrite Hc.
  eapply reads_bind; [apply reads_len; split; lia |]. rewrite Z.eqb_refl. reads_next.
  eapply reads_bind; [apply reads_regions; assumption |].
  eapply reads_bind; [apply reads_len; split; lia |]. rewrite Z.eqb_refl. reads_next.
  eapply reads_bind; [apply reads_masters; assumption |].
  eapply reads_last; [apply reads_u32, Hclk |]. rewrite Z.eqb_refl. apply reads_check. reflexivity.
Qed.

Lemma yields_mm_config self : yields (read_config self) (fun _ => True).
Proof.
  unfold read_config. do 2 yields_next. eapply yields_bind; [apply yields_regions |]. intros _ _.
  do 2 yields_next. eapply yields_bind; [apply yields_masters |]. intros _ _.
  yields_next. eapply yields_mono; [|apply yields_check]. auto.
Qed.

Lemma mm_reads_restore self b :
  mm_ok b -> config self = config b -> mm_config_typed (config b) -> queues_fit b ->
  reads (restore self) (snapshot b) b.
Proof.
  intros (Hc & Hn & Hf & Hl & Hd) Hself Ht Hq. pose proof Hc as (_ & Hports & Hrt & _).
  unfold restore, snapshot. eapply reads_bind; [apply reads_mm_config; assumption |].
  eapply reads_bind; [apply reads_u64, Hn |]. rewrite Hself.
  eapply reads_last; [apply (reads_states self b); try assumption; lia |].
  intros rest. cbn [app]. rewrite ST_bind_unfold.
  pose proof (adds_states (regions b) (requests_queued _ _ _ _ Hf) (mkSeen [] []) rest
                (NoDup_nil_2) (NoDup_nil_2)) as Ha.
  destruct (check_states _ _ rest) as [bs' [seen|e]].
  - destruct Ha as (-> & _). destruct b. reflexivity.
  - exfalso. apply Ha. cbn [live downstream]. rewrite !app_nil_r. auto.
Qed.

(** A snapshot restores the bus exactly, into any bus of the same configuration: the FIFOs
    in order, the active transactions, the cursors and the downstream counter. *)
Theorem mm_snapshot_restore self b rest :
  mm_ok b -> config self = config b -> mm_config_typed (config b) -> queues_fit b ->
  restore self (snapshot b ++ rest) = (rest, Ok b).
Proof. intros Hok Hc Ht Hq. apply (mm_reads_restore self b Hok Hc Ht Hq). Qed.

Lemma mm_restore_accepts b :
  mm_config_ok (config b) -> yields (restore b) (fun b' => mm_ok b' /\ config b' = config b).
Proof.
  intros Hc. pose proof Hc as (_ & _ & Hrt & _). unfold restore.
  eapply yields_bind; [apply yields_mm_config |]. intros _ _. eapply yields_bind; [apply yields_u64 |].
  intros next Hnext. eapply yields_bind; [apply yields_states, Hrt |]. intros ss Hss.
  intros bs Hbs. unfold wp. rewrite ST_bind_unfold.
  pose proof (adds_states ss (requests_queued _ _ _ _ Hss) (mkSeen [] []) bs (NoDup_nil_2) (NoDup_nil_2)) as Ha.
  destruct (check_states ss _ bs) as [bs' [seen|e]]; [|exact I].
  destruct Ha as (-> & [El Hl] & [Ed Hd]). cbn [live downstream] in *. rewrite app_nil_r in *.
  cbn. split; [|exact Hbs]. split; [|reflexivity]. rewrite El in Hl. rewrite Ed in Hd.
  split; [exact Hc |]. split; [exact Hnext |]. auto.
Qed.

(** Whatever bytes are restored, a bus that [restore] accepts satisfies the invariant, with
    its own configuration: no [(master, txn)] live twice, no downstream transaction shared or
    not yet allocated, no request outside its region, no cursor past the masters. *)
Theorem mm_restore_invariant b bs rest b' :
  mm_config_ok (config b) -> bytes_ok bs -> restore b bs = (rest, Ok b') -> mm_ok b' /\ config b' = config b.
Proof. intros Hok Hbs E. exact (proj1 (wp_use _ _ _ _ _ _ (mm_restore_accepts b Hok bs Hbs) E)). Qed.
End restoring.

(** * Witnesses *)

#[local] Existing Instance le_codec.
#[local] Existing Instance le_mem_codec.
#[local] Existing Instance documented_classify.

Lemma example_mm_typed : mm_config_typed example_mm_config.
Proof.
  split; [apply (bool_decide_unpack _); vm_compute; exact I |].
  split; [apply (bool_decide_unpack _); vm_compute; exact I | const_range].
Qed.

Lemma example_waiting_fits : queues_fit example_waiting.
Proof. repeat constructor. Qed.

Lemma mm_snapshot_restore_witness :
  restore (idle_bus example_mm_config) (snapshot example_waiting ++ [5]) = ([5], Ok example_waiting).
Proof.
  apply mm_snapshot_restore;
    [exact example_waiting_ok | reflexivity | exact example_mm_typed | exact example_waiting_fits].
Defined.

Lemma example_waiting_restored :
  restore (idle_bus example_mm_config) (snapshot example_waiting) = ([], Ok example_waiting).
Proof.
  rewrite <- (app_nil_r (snapshot example_waiting)).
  exact (mm_reads_restore (idle_bus example_mm_config) example_waiting example_waiting_ok eq_refl
           example_mm_typed example_waiting_fits []).
Qed.

Lemma mm_restore_invariant_witness : mm_ok example_waiting.
Proof.
  apply (mm_restore_invariant (idle_bus example_mm_config) (snapshot example_waiting) [] example_waiting
    example_mm_config_ok); [|exact example_waiting_restored].
  apply (bool_decide_unpack _). vm_compute. exact I.
Defined.
