(* ===== verification/Dma.v ===== *)
(** The block DMA controller, [components/platform/src/dma.rs]: its registers, the command
    lifecycle and validation, the transfer engine, the interrupt line, snapshot and restore.

    The invariant is [dma_ok]: the lifecycle flags, the latched command, the engine's
    position, the buffer and the interrupt level fit together, exactly as [restore] demands.
    Proved here: every event keeps it and none panics; validation fails with the first
    failing check's code; a snapshot restores the controller exactly; restore accepts only
    states of the invariant.  What the engine does to memory and media is in [DmaTransfer]. *)
From stdpp Require Import base numbers list option strings.
From Stdlib Require Import ZArith Lia.
From S2P Require Import Prelude Contracts Handlers Snapshots Platform.

Local Open Scope string_scope.
Local Open Scope list_scope.
Local Open Scope Z_scope.

(** * Data *)

Definition COMMAND : Z := 0x00.
Definition STATUS : Z := 0x04.
Definition LBA : Z := 0x08.
Definition MEM_ADDR : Z := 0x0C.
Definition BLOCK_COUNT : Z := 0x10.
Definition IRQ_ENABLE : Z := 0x14.
Definition IRQ_STATUS : Z := 0x18.
Definition ACK : Z := 0x18.
Definition SIZE : Z := 0x20.

Definition OP_READ : Z := 1.
Definition OP_WRITE : Z := 2.

Definition STATUS_BUSY : Z := Z.shiftl 1 0.
Definition STATUS_DONE : Z := Z.shiftl 1 1.
Definition STATUS_REJECTED : Z := Z.shiftl 1 2.
Definition STATUS_ERROR_SHIFT : Z := 8.

Definition BAD_COMMAND : Z := 1.
Definition BAD_COUNT : Z := 2.
Definition LBA_RANGE : Z := 3.
Definition DMA_ALIGN : Z := 4.
Definition DMA_RANGE : Z := 5.
Definition DMA_FAULT : Z := 6.
Definition MEDIA_ERROR : Z := 7.

Definition MAX_CAPACITY_BLOCKS : Z := Z.shiftl 1 32.
Definition ADDRESS_LIMIT : Z := Z.shiftl 1 32.
Definition BEAT_SIZE : Z := 16.
Definition BEATS_PER_BLOCK : Z := 32.
Definition ISSUE : Z := 0.

Definition COMMAND_KIND : string := "platform.blk.command".
Definition DONE_KIND : string := "platform.blk.done".
Definition REJECTED_KIND : string := "platform.blk.rejected".
Definition SNAPSHOT_SCHEMA : Z := 1.

Definition MEM_PORT : Z := 0.
Definition DMA_PORT : Z := 1.
Definition BLK_PORT : Z := 2.
Definition IRQ_PORT : Z := 3.

Definition BLOCK_BYTES : Z := 512.

Record DmaBlockControllerConfig : Set := mkDmaConfig {
  clock : Z; latency : LinkLatency; capacity_blocks : Z; dma_base : Z; dma_size : Z }.

Inductive DmaBlockControllerConfigError : Set :=
| Capacity (n : Z)
| EmptyAperture
| ApertureOutOfRange.

Inductive Operation : Set := Operation_Read | Operation_Write.

Definition Operation_code (op : Operation) : Z :=
  match op with Operation_Read => 1 | Operation_Write => 2 end.

Record Latched : Set := mkLatched { l_op : Operation; l_lba : Z; l_addr : Z; l_count : Z }.

Inductive Engine : Set :=
| Engine_Idle
| Engine_Issue
| Engine_WaitMedia (txn : Z)
| Engine_WaitBeat (txn : Z).

Record DmaBlockController : Set := mkDma {
  config : DmaBlockControllerConfig;
  lba : Z; mem_addr : Z; block_count : Z; irq_enable : Z;
  busy : bool; done : bool; rejected : bool; error : Z;
  latched : option Latched; engine : Engine; block : Z; beat : Z; buffer : list Z;
  dma_txn : Z; blk_txn : Z; irq_level : bool }.

#[export] Instance DmaConfig_eq_dec : EqDecision DmaBlockControllerConfig.
Proof. solve_decision. Defined.
#[export] Instance Operation_eq_dec : EqDecision Operation.
Proof. solve_decision. Defined.
#[export] Instance Latched_eq_dec : EqDecision Latched.
Proof. solve_decision. Defined.
#[export] Instance Engine_eq_dec : EqDecision Engine.
Proof. solve_decision. Defined.
#[export] Instance Dma_eq_dec : EqDecision DmaBlockController.
Proof. solve_decision. Defined.

(** Assignments to the fields, a register or a group of them at a time. *)
Section setters.
Local Abbreviation D := DmaBlockController.

Definition set_lba (v : Z) (d : D) : D :=
  mkDma (config d) v (mem_addr d) (block_count d) (irq_enable d) (busy d) (done d) (rejected d)
    (error d) (latched d) (engine d) (block d) (beat d) (buffer d) (dma_txn d) (blk_txn d) (irq_level d).
Definition set_mem_addr (v : Z) (d : D) : D :=
  mkDma (config d) (lba d) v (block_count d) (irq_enable d) (busy d) (done d) (rejected d)
    (error d) (latched d) (engine d) (block d) (beat d) (buffer d) (dma_txn d) (blk_txn d) (irq_level d).
Definition set_block_count (v : Z) (d : D) : D :=
  mkDma (config d) (lba d) (mem_addr d) v (irq_enable d) (busy d) (done d) (rejected d)
    (error d) (latched d) (engine d) (block d) (beat d) (buffer d) (dma_txn d) (blk_txn d) (irq_level d).
Definition set_irq_enable (v : Z) (d : D) : D :=
  mkDma (config d) (lba d) (mem_addr d) (block_count d) v (busy d) (done d) (rejected d)
    (error d) (latched d) (engine d) (block d) (beat d) (buffer d) (dma_txn d) (blk_txn d) (irq_level d).
Definition set_rejected (v : bool) (d : D) : D :=
  mkDma (config d) (lba d) (mem_addr d) (block_count d) (irq_enable d) (busy d) (done d) v
    (error d) (latched d) (engine d) (block d) (beat d) (buffer d) (dma_txn d) (blk_txn d) (irq_level d).
(** [BUSY], [DONE], [ERROR] and the latched command. *)
Definition set_state (b dn : bool) (e : Z) (l : option Latched) (d : D) : D :=
  mkDma (config d) (lba d) (mem_addr d) (block_count d) (irq_enable d) b dn (rejected d)
    e l (engine d) (block d) (beat d) (buffer d) (dma_txn d) (blk_txn d) (irq_level d).
Definition set_engine (v : Engine) (d : D) : D :=
  mkDma (config d) (lba d) (mem_addr d) (block_count d) (irq_enable d) (busy d) (done d) (rejected d)
    (error d) (latched d) v (block d) (beat d) (buffer d) (dma_txn d) (blk_txn d) (irq_level d).
(** The engine's indices and its buffer. *)
Definition set_position (i j : Z) (buf : list Z) (d : D) : D :=
  mkDma (config d) (lba d) (mem_addr d) (block_count d) (irq_enable d) (busy d) (done d) (rejected d)
    (error d) (latched d) (engine d) i j buf (dma_txn d) (blk_txn d) (irq_level d).
Definition set_dma_txn (v : Z) (d : D) : D :=
  mkDma (config d) (lba d) (mem_addr d) (block_count d) (irq_enable d) (busy d) (done d) (rejected d)
    (error d) (latched d) (engine d) (block d) (beat d) (buffer d) v (blk_txn d) (irq_level d).
Definition set_blk_txn (v : Z) (d : D) : D :=
  mkDma (config d) (lba d) (mem_addr d) (block_count d) (irq_enable d) (busy d) (done d) (rejected d)
    (error d) (latched d) (engine d) (block d) (beat d) (buffer d) (dma_txn d) v (irq_level d).
Definition set_irq_level (v : bool) (d : D) : D :=
  mkDma (config d) (lba d) (mem_addr d) (block_count d) (irq_enable d) (busy d) (done d) (rejected d)
    (error d) (latched d) (engine d) (block d) (beat d) (buffer d) (dma_txn d) (blk_txn d) v.
End setters.

(** * Pure operations *)

Definition new (cfg : DmaBlockControllerConfig) : result DmaBlockControllerConfigError DmaBlockController :=
  if (capacity_blocks cfg =? 0) || (MAX_CAPACITY_BLOCKS <? capacity_blocks cfg) then
    Err (Capacity (capacity_blocks cfg))
  else if dma_size cfg =? 0 then Err EmptyAperture
  else
    match checked_add 64 (dma_base cfg) (dma_size cfg) with
    | Some end_ =>
        if end_ <=? ADDRESS_LIMIT then
          Ok (mkDma cfg 0 0 0 0 false false false 0 None Engine_Idle 0 0 [] 0 0 false)
        else Err ApertureOutOfRange
    | None => Err ApertureOutOfRange
    end.

Definition status (d : DmaBlockController) : Z :=
  let status := shl32 (error d) STATUS_ERROR_SHIFT in
  let status := if busy d then Z.lor status STATUS_BUSY else status in
  let status := if done d then Z.lor status STATUS_DONE else status in
  if rejected d then Z.lor status STATUS_REJECTED else status.

(** [checked_mul] on [u64]. *)
Definition checked_mul (a b : Z) : option Z := if a * b <? 2 ^ 64 then Some (a * b) else None.

(** The sum [dma_base + dma_size] is at most [ADDRESS_LIMIT] in every configuration that
    [new] accepts, so it does not overflow. *)
Definition validate (d : DmaBlockController) (command lba addr count : Z) : result Z Operation :=
  op ← (if command =? OP_READ then Ok Operation_Read
        else if command =? OP_WRITE then Ok Operation_Write
        else Err BAD_COMMAND);
  if count =? 0 then Err BAD_COUNT
  else
    _ ← match checked_add 64 lba count with
        | Some end_ => if end_ <=? capacity_blocks (config d) then Ok tt else Err LBA_RANGE
        | None => Err LBA_RANGE
        end;
    if negb (addr mod BEAT_SIZE =? 0) then Err DMA_ALIGN
    else
      let start := addr in
      let aperture_end := dma_base (config d) + dma_size (config d) in
      match (total ← checked_mul count BLOCK_BYTES; checked_add 64 start total) with
      | Some end_ =>
          if (dma_base (config d) <=? start) && (end_ <=? aperture_end) then Ok op else Err DMA_RANGE
      | None => Err DMA_RANGE
      end.

Definition block_lba (d : DmaBlockController) (l : Latched) : result SimError Z :=
  ok_or (checked_add 64 (l_lba l) (block d)) (ComponentFault "dma controller: engine index overflow").

Definition beat_addr (d : DmaBlockController) (l : Latched) : result SimError Z :=
  let offset := beat d * BEAT_SIZE in
  ok_or (block ← checked_mul (block d) BLOCK_BYTES;
         delta ← checked_add 64 block offset;
         checked_add 64 (l_addr l) delta)
    (ComponentFault "dma controller: engine index overflow").

Definition next_txn (counter : Z) : result SimError Z :=
  ok_or (checked_add 64 counter 1) (ComponentFault "dma controller: TxnId space exhausted").

Definition read_register (d : DmaBlockController) (offset : Z) : option Z :=
  if offset =? STATUS then Some (status d)
  else if offset =? LBA then Some (lba d)
  else if offset =? MEM_ADDR then Some (mem_addr d)
  else if offset =? BLOCK_COUNT then Some (block_count d)
  else if offset =? IRQ_ENABLE then Some (irq_enable d)
  else if offset =? IRQ_STATUS then Some (Z.b2z (done d))
  else None.

(** * Handlers *)

Section handlers.
Context {C : Type} `{SimContext C, MemClassify}.

Local Abbreviation M := (ST (DmaBlockController * C) Failure).

Definition update_irq : M unit :=
  d ← self;
  let level := done d && has_bit (irq_enable d) 1 in
  if Bool.eqb level (irq_level d) then mret tt
  else
    update (set_irq_level level);;
    call (ctx_send IRQ_PORT (Message_Irq (IrqMsg_Level level)) When_Now Phase_Complete).

Definition wake_next_cycle : M unit :=
  d ← self;
  call (ctx_wake_self (When_Cycles (clock (config d)) 1) Phase_Request ISSUE).

Definition complete (code : Z) : M unit :=
  update (set_state false true code None);;
  update (set_engine Engine_Idle);;
  update (set_position 0 0 []);;
  trace DONE_KIND [("error", VU64 code)];;
  update_irq.

Definition command (value : Z) : M unit :=
  d ← self;
  if busy d || done d then
    update (set_rejected true);;
    trace REJECTED_KIND []
  else
    let '(lba, addr, count) := (lba d, mem_addr d, block_count d) in
    let result := validate d value lba addr count in
    trace COMMAND_KIND
      [("op", VU64 value); ("lba", VU64 lba); ("addr", VU64 addr); ("count", VU64 count);
       ("accepted", VBool (is_ok result))];;
    match result with
    | Ok op =>
        update (fun d => set_state true (done d) (error d) (Some (mkLatched op lba addr count)) d);;
        update (set_engine Engine_Issue);;
        wake_next_cycle
    | Err code => complete code
    end.

Definition send_block (msg : BlockMsg) : M unit :=
  d ← self;
  let txn := blk_txn d in
  next ← try (next_txn txn);
  call (ctx_send BLK_PORT (Message_Block msg) When_Now Phase_Request);;
  update (set_blk_txn next);;
  update (set_engine (Engine_WaitMedia txn)).

Definition send_beat (msg : MemMsg) : M unit :=
  d ← self;
  let txn := dma_txn d in
  next ← try (next_txn txn);
  call (ctx_send DMA_PORT (Message_MemV1 msg) When_Now Phase_Request);;
  update (set_dma_txn next);;
  update (set_engine (Engine_WaitBeat txn)).

Definition issue : M unit :=
  d ← self;
  match engine d, latched d with
  | Engine_Issue, Some latched =>
      match l_op latched with
      | Operation_Read =>
          if bool_decide (buffer d = []) then
            lba ← try (block_lba d latched);
            send_block (ReadBlock (blk_txn d) lba)
          else
            addr ← try (beat_addr d latched);
            let start := Z.to_nat (beat d * BEAT_SIZE) in
            if (length (buffer d) <? start + Z.to_nat BEAT_SIZE)%nat then panic "range end index out of range"
            else
              let data := take (Z.to_nat BEAT_SIZE) (drop start (buffer d)) in
              send_beat (WriteReq (dma_txn d) addr data)
      | Operation_Write =>
          if beat d =? BEATS_PER_BLOCK then
            lba ← try (block_lba d latched);
            let data := buffer d in
            send_block (WriteBlock (blk_txn d) lba data);;
            update (fun d => set_position (block d) (beat d) [] d)
          else
            addr ← try (beat_addr d latched);
            send_beat (ReadReq (dma_txn d) addr BEAT_SIZE)
      end
  | _, _ => fault "dma controller: ISSUE wake with nothing to issue"
  end.

Definition check_result (txn expected : Z) : M unit :=
  if negb (txn =? expected) then fault "dma controller: result for a txn that is not outstanding"
  else
    phase ← phase_of_event;
    if bool_decide (phase <> Phase_Complete) then
      fault "dma controller: result arrived outside COMPLETE"
    else mret tt.

Definition next_block (latched : Latched) : M unit :=
  update (fun d => set_position (block d) 0 [] d);;
  d ← self;
  block ← try (ok_or (checked_add 32 (block d) 1) (ComponentFault "dma controller: engine index overflow"));
  update (fun d => set_position block (beat d) (buffer d) d);;
  if block =? l_count latched then complete 0
  else
    update (set_engine Engine_Issue);;
    wake_next_cycle.

Definition media_result (msg : BlockMsg) : M unit :=
  d ← self;
  match engine d, latched d with
  | Engine_WaitMedia expected, Some latched =>
      match l_op latched, msg with
      | Operation_Read, ReadResult txn outcome =>
          check_result txn expected;;
          match outcome with
          | BlockRead_Data data =>
              if negb (length data =? BLOCK_SIZE)%nat then
                fault "dma controller: block data is not 512 bytes"
              else
                update (fun d => set_position (block d) (beat d) data d);;
                update (set_engine Engine_Issue);;
                wake_next_cycle
          | BlockRead_Error _ => complete MEDIA_ERROR
          end
      | Operation_Write, WriteResult txn outcome =>
          check_result txn expected;;
          match outcome with
          | BlockWrite_Done => next_block latched
          | BlockWrite_Error _ => complete MEDIA_ERROR
          end
      | _, _ => fault "dma controller: block.v0 message is not the outstanding request's result"
      end
  | _, _ => fault "dma controller: block.v0 message with no request outstanding"
  end.

(** [self.beat += 1], on a [u8]. *)
Definition step_beat : M unit :=
  d ← self;
  if beat d + 1 <? 2 ^ 8 then update (fun d => set_position (block d) (beat d + 1) (buffer d) d)
  else panic "attempt to add with overflow".

Definition beat_result (msg : MemMsg) : M unit :=
  d ← self;
  match engine d, latched d with
  | Engine_WaitBeat expected, Some latched =>
      match l_op latched, msg with
      | Operation_Read, WriteResp txn outcome =>
          check_result txn expected;;
          match outcome with
          | WriteOutcome_Fault _ => complete DMA_FAULT
          | WriteOutcome_Done =>
              step_beat;;
              d ← self;
              if beat d =? BEATS_PER_BLOCK then next_block latched
              else update (set_engine Engine_Issue);; wake_next_cycle
          end
      | Operation_Write, ReadResp txn outcome =>
          check_result txn expected;;
          match outcome with
          | ReadOutcome_Fault _ => complete DMA_FAULT
          | ReadOutcome_Data data =>
              if negb (Z.of_nat (length data) =? BEAT_SIZE) then
                fault "dma controller: beat data is not 16 bytes"
              else
                update (fun d => set_position (block d) (beat d) (buffer d ++ data) d);;
                step_beat;;
                update (set_engine Engine_Issue);;
                wake_next_cycle
          end
      | _, _ => fault "dma controller: mem.v1 message is not the outstanding beat's response"
      end
  | _, _ => fault "dma controller: mem.v1 message with no beat outstanding"
  end.

Definition write_register (offset value : Z) : M bool :=
  if offset =? COMMAND then command value;; mret true
  else if offset =? STATUS then
    (if has_bit value STATUS_REJECTED then update (set_rejected false) else mret tt);; mret true
  else if offset =? LBA then update (set_lba value);; mret true
  else if offset =? MEM_ADDR then update (set_mem_addr value);; mret true
  else if offset =? BLOCK_COUNT then update (set_block_count value);; mret true
  else if offset =? IRQ_ENABLE then
    update (set_irq_enable (Z.land value 1));; update_irq;; mret true
  else if offset =? ACK then
    d ← self;
    (if has_bit value 1 && done d then
       update (fun d => set_state (busy d) false 0 (latched d) d);; update_irq
     else mret tt);;
    mret true
  else mret false.

(** The response of [request], its effects included. *)
Definition respond (msg : MemMsg) (word : option Z) : M MemMsg :=
  match msg with
  | ReadReq txn _ _ =>
      d ← self;
      mret (ReadResp txn
        match (offset ← word; read_register d offset) with
        | Some value => ReadOutcome_Data (to_le 4 value)
        | None => ReadOutcome_Fault AccessFault
        end)
  | WriteReq txn _ data =>
      written ←
        match word with
        | Some offset =>
            if (length data =? 4)%nat then write_register offset (from_le data) else mret false
        | None => mret false
        end;
      mret (WriteResp txn (if written : bool then WriteOutcome_Done else WriteOutcome_Fault AccessFault))
  | ReadResp _ _ | WriteResp _ _ => fault "dma controller: response on the mem port"
  end.

Definition request (msg : MemMsg) : M unit :=
  word ←
    match access msg with
    | None => fault "dma controller: response on the mem port"
    | Some Empty => fault "dma controller: zero-length request"
    | Some AccessOutOfRange => mret None
    | Some (Bytes first last) =>
        mret (if (last - first =? 3) && (first mod 4 =? 0) && (first <? SIZE) then Some first else None)
    end;
  resp ← respond msg word;
  d ← self;
  call (ctx_send MEM_PORT (Message_MemV1 resp) (delay (latency (config d))) Phase_Complete).

Definition handle_event (ev : Delivered) : M unit :=
  match ev with
  | Delivered_Message port (Message_MemV1 msg) =>
      if port =? MEM_PORT then request msg
      else if port =? DMA_PORT then beat_result msg
      else fault "dma controller: unexpected delivery"
  | Delivered_Message port (Message_Block msg) =>
      if port =? BLK_PORT then media_result msg
      else fault "dma controller: unexpected delivery"
  | Delivered_Wake token =>
      if token =? ISSUE then issue else fault "dma controller: unexpected delivery"
  | _ => fault "dma controller: unexpected delivery"
  end.
End handlers.

(** * Snapshots *)

Section snapshot.
Context `{SnapshotCodec}.

Local Abbreviation R := (ST (list Z) RestoreError).

Definition write_config (d : DmaBlockController) : list Z :=
  put_u32 (clock (config d)) ++ put_latency (latency (config d)) ++
  put_u64 (capacity_blocks (config d)) ++ put_u64 (dma_base (config d)) ++ put_u64 (dma_size (config d)).

Definition write_latched (l : option Latched) : list Z :=
  match l with
  | Some l => put_u8 (Operation_code (l_op l)) ++ put_u32 (l_lba l) ++ put_u32 (l_addr l) ++ put_u32 (l_count l)
  | None => []
  end.

Definition write_engine (e : Engine) : list Z :=
  match e with
  | Engine_Idle => put_u8 0
  | Engine_Issue => put_u8 1
  | Engine_WaitMedia txn => put_u8 2 ++ put_u64 txn
  | Engine_WaitBeat txn => put_u8 3 ++ put_u64 txn
  end.

Definition snapshot (d : DmaBlockController) : list Z :=
  write_config d ++
  put_u32 (lba d) ++ put_u32 (mem_addr d) ++ put_u32 (block_count d) ++ put_u32 (irq_enable d) ++
  put_bool (busy d) ++ put_bool (done d) ++ put_bool (rejected d) ++ put_u8 (error d) ++
  write_latched (latched d) ++ write_engine (engine d) ++
  put_u32 (block d) ++ put_u8 (beat d) ++ put_bytes (buffer d) ++
  put_u64 (dma_txn d) ++ put_u64 (blk_txn d) ++ put_bool (irq_level d).

Definition read_latched (d : DmaBlockController) (busy : bool) : R (option Latched) :=
  if busy then
    op ← rd get_u8; lba ← rd get_u32; addr ← rd get_u32; count ← rd get_u32;
    op ← Snapshots.validate (map_err (fun _ => InvalidState "dma controller: latched command fails validation")
           (validate d op lba addr count));
    mret (Some (mkLatched op lba addr count))
  else mret None.

Definition read_engine : R Engine :=
  tag ← rd get_u8;
  if tag =? 0 then mret Engine_Idle
  else if tag =? 1 then mret Engine_Issue
  else if tag =? 2 then txn ← rd get_u64; mret (Engine_WaitMedia txn)
  else if tag =? 3 then txn ← rd get_u64; mret (Engine_WaitBeat txn)
  else invalid "dma controller: unknown engine state".

Definition latest (next txn : Z) : bool := bool_decide (checked_sub next 1 = Some txn).

Definition engine_ok (latched : option Latched) (engine : Engine) (block beat : Z) (buffer : list Z)
    (dma_txn blk_txn : Z) : bool :=
  let full := (length buffer =? BLOCK_SIZE)%nat in
  let is_empty := (length buffer =? 0)%nat in
  match latched with
  | None => bool_decide (engine = Engine_Idle) && (block =? 0) && (beat =? 0) && is_empty
  | Some (mkLatched Operation_Write _ _ count) =>
      let read_so_far := Z.of_nat (length buffer) =? beat * BEAT_SIZE in
      (block <? count) && (beat <=? BEATS_PER_BLOCK) &&
      match engine with
      | Engine_Idle => false
      | Engine_Issue => read_so_far
      | Engine_WaitBeat txn => (beat <? BEATS_PER_BLOCK) && read_so_far && latest dma_txn txn
      | Engine_WaitMedia txn => (beat =? BEATS_PER_BLOCK) && is_empty && latest blk_txn txn
      end
  | Some (mkLatched Operation_Read _ _ count) =>
      (block <? count) && (beat <? BEATS_PER_BLOCK) &&
      match engine with
      | Engine_Idle => false
      | Engine_Issue => full || (is_empty && (beat =? 0))
      | Engine_WaitMedia txn => is_empty && (beat =? 0) && latest blk_txn txn
      | Engine_WaitBeat txn => full && latest dma_txn txn
      end
  end.

Definition restore (d : DmaBlockController) : R DmaBlockController :=
  expect_raw (write_config d) "dma controller: snapshot has a different config";;
  lba ← rd get_u32; mem_addr ← rd get_u32; block_count ← rd get_u32; irq_enable ← rd get_u32;
  check (Z.land irq_enable (not32 1) =? 0) "dma controller: IRQ_ENABLE has unused bits";;
  busy ← rd get_bool; done ← rd get_bool; rejected ← rd get_bool; error ← rd get_u8;
  check (negb (busy && done)) "dma controller: BUSY and DONE together";;
  let error_ok := if done : bool then error <=? MEDIA_ERROR else error =? 0 in
  check error_ok "dma controller: ERROR does not match the state";;
  latched ← read_latched d busy;
  engine ← read_engine;
  block ← rd get_u32; beat ← rd get_u8;
  buffer ← rd get_bytes;
  dma_txn ← rd get_u64; blk_txn ← rd get_u64;
  irq_level ← rd get_bool;
  check (engine_ok latched engine block beat buffer dma_txn blk_txn)
    "dma controller: engine position not reachable for the command";;
  check (Bool.eqb irq_level (done && has_bit irq_enable 1))
    "dma controller: IRQ level is not DONE && IRQ_ENABLE";;
  mret (mkDma (config d) lba mem_addr block_count irq_enable busy done rejected error latched
    engine block beat buffer dma_txn blk_txn irq_level).
End snapshot.

(** * The invariant *)

Definition config_ok (cfg : DmaBlockControllerConfig) : Prop :=
  in_u 32 (clock cfg) /\ latency_ok (latency cfg) /\ 1 <= capacity_blocks cfg <= 2 ^ 32 /\
  0 <= dma_base cfg /\ 1 <= dma_size cfg /\ dma_base cfg + dma_size cfg <= 2 ^ 32.

(** A command that passed validation: blocks inside the capacity, an aligned transfer inside
    the aperture. *)
Definition latched_ok (cfg : DmaBlockControllerConfig) (l : Latched) : Prop :=
  0 <= l_lba l /\ 1 <= l_count l /\ l_lba l + l_count l <= capacity_blocks cfg /\
  l_addr l mod 16 = 0 /\ dma_base cfg <= l_addr l /\
  l_addr l + l_count l * 512 <= dma_base cfg + dma_size cfg.

(** The engine's position, buffer and outstanding transaction. *)
Definition position_ok (l : option Latched) (e : Engine) (i j : Z) (buf : list Z) (dma blk : Z) : Prop :=
  match l with
  | None => e = Engine_Idle /\ i = 0 /\ j = 0 /\ buf = []
  | Some l =>
      0 <= i < l_count l /\ 0 <= j <= 32 /\
      match l_op l, e with
      | _, Engine_Idle => False
      | Operation_Read, Engine_Issue => j < 32 /\ (length buf = BLOCK_SIZE \/ (buf = [] /\ j = 0))
      | Operation_Read, Engine_WaitMedia txn => j = 0 /\ buf = [] /\ 0 <= txn /\ blk = txn + 1
      | Operation_Read, Engine_WaitBeat txn =>
          j < 32 /\ length buf = BLOCK_SIZE /\ 0 <= txn /\ dma = txn + 1
      | Operation_Write, Engine_Issue => Z.of_nat (length buf) = j * 16
      | Operation_Write, Engine_WaitBeat txn =>
          j < 32 /\ Z.of_nat (length buf) = j * 16 /\ 0 <= txn /\ dma = txn + 1
      | Operation_Write, Engine_WaitMedia txn => j = 32 /\ buf = [] /\ 0 <= txn /\ blk = txn + 1
      end
  end.

Record dma_ok (d : DmaBlockController) : Prop := mk_dma_ok {
  ok_config : config_ok (config d);
  ok_lba : in_u 32 (lba d);
  ok_mem_addr : in_u 32 (mem_addr d);
  ok_block_count : in_u 32 (block_count d);
  ok_irq_enable : in_u 1 (irq_enable d);
  ok_busy : busy d = bool_decide (latched d <> None);
  ok_excl : busy d && done d = false;
  ok_error : if done d then 0 <= error d <= 7 else error d = 0;
  ok_latched : forall l, latched d = Some l -> latched_ok (config d) l;
  ok_position : position_ok (latched d) (engine d) (block d) (beat d) (buffer d) (dma_txn d) (blk_txn d);
  ok_buffer : bytes_ok (buffer d);
  ok_dma_txn : in_u 64 (dma_txn d);
  ok_blk_txn : in_u 64 (blk_txn d);
  ok_irq_level : irq_level d = done d && has_bit (irq_enable d) 1 }.

Lemma block_size_val : BLOCK_SIZE = 512%nat.
Proof. reflexivity. Qed.

Lemma dma_new_ok cfg d :
  in_u 32 (clock cfg) -> latency_ok (latency cfg) -> 0 <= capacity_blocks cfg -> 0 <= dma_base cfg ->
  0 <= dma_size cfg -> new cfg = Ok d -> dma_ok d.
Proof.
  intros Hc Hl Hcap Hb Hs. unfold new. destruct (orb _ _) eqn:E1; [discriminate |].
  destruct (Z.eqb_spec (dma_size cfg) 0); [discriminate |].
  destruct (checked_add _ _ _) as [e|] eqn:Ee; [|discriminate]. apply checked_add_Some in Ee as [-> _].
  destruct (Z.leb_spec (dma_base cfg + dma_size cfg) ADDRESS_LIMIT) as [Hle|]; [|discriminate]. intros [= <-].
  apply orb_false_iff in E1 as [E0%Z.eqb_neq E2%Z.ltb_ge].
  change MAX_CAPACITY_BLOCKS with (2 ^ 32) in E2. change ADDRESS_LIMIT with (2 ^ 32) in Hle.
  assert (Hcfg : config_ok cfg) by (split; [exact Hc | split; [exact Hl | lia]]).
  constructor; cbn [config lba mem_addr block_count irq_enable busy done rejected error latched engine
    block beat buffer dma_txn blk_txn irq_level];
    first [exact Hcfg | const_range | reflexivity | discriminate | solve [constructor] | solve [repeat split]].
Qed.

(** ** Validation *)

Lemma validate_spec d c l a n :
  config_ok (config d) -> in_u 32 l -> in_u 32 a -> in_u 32 n ->
  validate d c l a n =
  if negb (mem_Z c [1; 2]) then Err BAD_COMMAND
  else if n =? 0 then Err BAD_COUNT
  else if capacity_blocks (config d) <? l + n then Err LBA_RANGE
  else if negb (a mod 16 =? 0) then Err DMA_ALIGN
  else if (dma_base (config d) <=? a) && (a + n * 512 <=? dma_base (config d) + dma_size (config d))
  then Ok (if c =? 1 then Operation_Read else Operation_Write)
  else Err DMA_RANGE.
Proof.
  intros Hc Hl Ha Hn. unfold validate, checked_mul, checked_add, in_u in *.
  change BLOCK_BYTES with 512. change BEAT_SIZE with 16. change OP_READ with 1. change OP_WRITE with 2.
  rewrite (proj2 (Z.ltb_lt (l + n) (2 ^ 64))), (proj2 (Z.ltb_lt (n * 512) (2 ^ 64))) by lia.
  cbn [mbind option_bind]. rewrite (proj2 (Z.ltb_lt (a + n * 512) (2 ^ 64))) by lia.
  rewrite Z.ltb_antisym. cbn [mem_Z existsb orb].
  destruct (Z.eqb_spec c 1) as [->|]; [|destruct (Z.eqb_spec c 2) as [->|]]; cbn; [| |reflexivity];
    (destruct (n =? 0); [reflexivity |]);
    (destruct (l + n <=? capacity_blocks (config d)); [|reflexivity]);
    cbn; reflexivity.
Qed.

Lemma validate_Ok d c l a n op :
  config_ok (config d) -> in_u 32 l -> in_u 32 a -> in_u 32 n ->
  (validate d c l a n = Ok op <-> c = Operation_code op /\ latched_ok (config d) (mkLatched op l a n)).
Proof.
  intros Hc Hl Ha Hn. rewrite validate_spec by assumption. unfold latched_ok, in_u in *. cbn.
  split.
  - destruct (negb (_ || _)) eqn:Ec; [discriminate |]. apply negb_false_iff in Ec.
    destruct (Z.eqb_spec n 0); [discriminate |].
    destruct (Z.ltb_spec (capacity_blocks (config d)) (l + n)); [discriminate |].
    destruct (Z.eqb_spec (a mod 16) 0); [|discriminate]. cbn.
    destruct (andb _ _) eqn:Er; [|discriminate]. intros [= <-]. apply andb_true_iff in Er as [E1%Z.leb_le E2%Z.leb_le].
    split; [|lia]. destruct (Z.eqb_spec c 1); [assumption |]. cbn in Ec.
    destruct (Z.eqb_spec c 2); [assumption | discriminate].
  - intros [-> (H1 & H2 & H3 & H4 & H5 & H6)].
    replace (negb _) with false by (destruct op; reflexivity).
    destruct (Z.eqb_spec n 0); [lia |]. destruct (Z.ltb_spec (capacity_blocks (config d)) (l + n)); [lia |].
    rewrite H4. cbn [Z.eqb negb]. rewrite (proj2 (Z.leb_le _ _) H5), (proj2 (Z.leb_le _ _) H6).
    destruct op; reflexivity.
Qed.

(** ** What the handlers make of a controller *)

(** The interrupt line as it should be. *)
Definition refreshed (d : DmaBlockController) : DmaBlockController :=
  set_irq_level (done d && has_bit (irq_enable d) 1) d.

(** The command over, with [code]. *)
Definition completed (code : Z) (d : DmaBlockController) : DmaBlockController :=
  refreshed (set_position 0 0 [] (set_engine Engine_Idle (set_state false true code None d))).

(** The engine elsewhere in the same command. *)
Definition moved (e : Engine) (i j : Z) (buf : list Z) (dma blk : Z) (d : DmaBlockController) :
    DmaBlockController :=
  set_blk_txn blk (set_dma_txn dma (set_position i j buf (set_engine e d))).

(** A command accepted. *)
Definition started (l : Latched) (d : DmaBlockController) : DmaBlockController :=
  set_engine Engine_Issue (set_state true (done d) (error d) (Some l) d).

(** The fields of an updated controller. *)
Ltac dma_cbn := cbn [refreshed completed moved started config lba mem_addr block_count irq_enable busy done
  rejected error latched engine block beat buffer dma_txn blk_txn irq_level set_lba set_mem_addr set_block_count
  set_irq_enable set_rejected set_state set_engine set_position set_dma_txn set_blk_txn set_irq_level].

Lemma completed_ok code d : dma_ok d -> 0 <= code <= 7 -> dma_ok (completed code d).
Proof. intros [] Hcode. constructor; cbn; try assumption; try reflexivity; [discriminate | repeat split | constructor]. Qed.

Lemma moved_ok e i j buf dma blk d :
  dma_ok d -> position_ok (latched d) e i j buf dma blk -> bytes_ok buf -> in_u 64 dma -> in_u 64 blk ->
  dma_ok (moved e i j buf dma blk d).
Proof. intros [] Hp Hb Hd Hk. constructor; dma_cbn; assumption. Qed.

Lemma started_ok op d :
  dma_ok d -> busy d = false -> done d = false ->
  latched_ok (config d) (mkLatched op (lba d) (mem_addr d) (block_count d)) ->
  dma_ok (started (mkLatched op (lba d) (mem_addr d) (block_count d)) d).
Proof.
  intros [] Hb Hd Hl. rewrite Hb in ok_busy0. symmetry in ok_busy0. apply bool_decide_eq_false in ok_busy0.
  destruct (latched d) as [l|] eqn:El; [contradict ok_busy0; discriminate |].
  destruct ok_position0 as (He & Hi & Hj & Hbuf). destruct Hl as (Hl1 & Hl2 & Hl3).
  constructor; dma_cbn; try assumption.
  - reflexivity.
  - intros l [= <-]. split; [assumption |]. split; assumption.
  - rewrite Hi, Hj, Hbuf. cbn in Hl2. split; [cbn; lia |]. split; [lia |].
    destruct op; cbn; [split; [lia |]; right; auto | reflexivity].
Qed.

Lemma enabled_ok v d : dma_ok d -> dma_ok (refreshed (set_irq_enable (Z.land v 1) d)).
Proof.
  intros []. constructor; dma_cbn; try assumption; [|reflexivity].
  apply land_in_u_r; [lia | const_range].
Qed.

Lemma acked_ok d :
  dma_ok d -> done d = true -> dma_ok (refreshed (set_state (busy d) false 0 (latched d) d)).
Proof.
  intros [] Hd. constructor; dma_cbn; try assumption; try reflexivity.
  apply andb_false_r.
Qed.

Section invariant.
Context {C : Type} `{SimContext C, MemClassify}.

Local Abbreviation M := (ST (DmaBlockController * C) Failure).

(** The invariant and the configuration of the end state. *)
Definition keeps (d d' : DmaBlockController) : Prop := dma_ok d' /\ config d' = config d.

Lemma update_irq_settles (P : DmaBlockController -> Prop) (d : DmaBlockController) (ctx : C) :
  P (refreshed d) -> settles P update_irq d ctx.
Proof.
  intros HP. unfold settles, update_irq. wp_run. destruct (Bool.eqb _ _) eqn:E.
  - apply wp_ret. apply eqb_prop in E. unfold refreshed in HP. rewrite E in HP. destruct d; exact HP.
  - wp_run. apply settles_call, HP.
Qed.

Lemma complete_settles (P : DmaBlockController -> Prop) code (d : DmaBlockController) (ctx : C) :
  P (completed code d) -> settles P (complete code) d ctx.
Proof. intros HP. unfold settles, complete. wp_run. apply update_irq_settles, HP. Qed.

Lemma dma_wake_settles (P : DmaBlockController -> Prop) (d : DmaBlockController) (ctx : C) :
  P d -> settles P wake_next_cycle d ctx.
Proof. intros HP. unfold settles, wake_next_cycle. wp_run. apply settles_call, HP. Qed.

Lemma command_settles value (d : DmaBlockController) (ctx : C) :
  dma_ok d -> settles (keeps d) (command value) d ctx.
Proof.
  intros Hok. unfold settles, command. wp_run. destruct (busy d || done d) eqn:Eb; wp_run.
  - split; [|reflexivity]. destruct Hok. constructor; assumption.
  - apply orb_false_iff in Eb as [Eb Ed]. destruct (validate _ _ _ _ _) as [op|code] eqn:Ev.
    + apply validate_Ok in Ev as [_ Hl]; try apply Hok. wp_run. apply dma_wake_settles.
      split; [|reflexivity]. apply started_ok; assumption.
    + apply complete_settles. split; [|reflexivity]. apply completed_ok; [exact Hok |].
      rewrite validate_spec in Ev by apply Hok. repeat case_hyp Ev; first [discriminate Ev | injection Ev as <-; cbv; split; discriminate].
Qed.

Lemma write_register_settles offset value (d : DmaBlockController) (ctx : C) :
  dma_ok d -> in_u 32 value -> settles (keeps d) (write_register offset value) d ctx.
Proof.
  intros Hok Hv. unfold write_register. pose proof Hok as [].
  assert (Hk : keeps d d) by (split; auto).
  assert (Ht : forall (m : M unit), settles (keeps d) m d ctx -> settles (keeps d) (m;; mret true) d ctx).
  { intros m Hm. apply (settles_bind (keeps d)); [exact Hm | tauto |]. intros. apply settles_ret. assumption. }
  repeat match goal with |- context [offset =? ?r] => destruct (offset =? r) end;
    try (lazymatch goal with |- settles _ (mbind (fun _ => mret true) _) _ _ => apply Ht end);
    unfold settles; wp_run; try (split; [constructor; assumption | reflexivity]).
  - apply command_settles, Hok.
  - destruct (has_bit value STATUS_REJECTED); wp_run; [|exact Hk]. split; [constructor; assumption | reflexivity].
  - apply (update_irq_settles (keeps d)). split; [apply enabled_ok, Hok | reflexivity].
  - destruct (has_bit value 1 && done d) eqn:E; wp_run; [|exact Hk].
    apply andb_true_iff in E as [_ Ed]. apply (update_irq_settles (keeps d)). split; [apply acked_ok; assumption | reflexivity].
Qed.

Lemma dma_request_settles msg (d : DmaBlockController) (ctx : C) :
  dma_ok d -> mem_msg_ok msg -> settles (keeps d) (request msg) d ctx.
Proof.
  intros Hok Hm. assert (Hk : keeps d d) by (split; auto). unfold request.
  apply (settles_bind (fun d' => d' = d)); [|intros ? ->; exact Hk |].
  { destruct (access msg) as [[| |]|]; first [apply settles_ret; reflexivity | apply settles_fault; reflexivity]. }
  intros word d0 ctx0 ->. apply (settles_bind (keeps d)); [|tauto |].
  - unfold settles, respond. destruct msg as [txn addr len|txn o|txn addr data|txn o]; wp_run;
      try exact Hk; try (apply wp_fault; eauto).
    match goal with |- wp ?m _ _ _ => change (settles (keeps d) m d ctx0) end.
    destruct word as [offset|]; [|apply settles_ret, Hk].
    destruct (Nat.eqb_spec (length data) 4) as [E|]; [|apply settles_ret, Hk].
    apply write_register_settles; [exact Hok |]. change 32 with (8 * Z.of_nat 4). rewrite <- E.
    apply from_le_in_u, Hm.
  - intros resp d' ctx' Hd. unfold settles. wp_run. apply settles_call, Hd.
Qed.

Lemma block_lba_ok (d : DmaBlockController) l :
  dma_ok d -> latched d = Some l -> block_lba d l = Ok (l_lba l + block d).
Proof.
  intros Hok Hl. pose proof (ok_latched d Hok l Hl) as Hv. pose proof (ok_position d Hok) as Hp.
  pose proof (ok_config d Hok) as Hc. rewrite Hl in Hp. unfold position_ok, latched_ok, config_ok in *.
  unfold block_lba, checked_add. rewrite (proj2 (Z.ltb_lt _ _)) by lia. reflexivity.
Qed.

Lemma beat_addr_ok (d : DmaBlockController) l :
  dma_ok d -> latched d = Some l -> beat_addr d l = Ok (l_addr l + block d * 512 + beat d * 16).
Proof.
  intros Hok Hl. pose proof (ok_latched d Hok l Hl) as Hv. pose proof (ok_position d Hok) as Hp.
  pose proof (ok_config d Hok) as Hc. rewrite Hl in Hp. unfold position_ok, latched_ok, config_ok in *.
  destruct Hp as (Hi & Hj & _). unfold beat_addr, checked_add, checked_mul.
  change BLOCK_BYTES with 512. change BEAT_SIZE with 16.
  rewrite (proj2 (Z.ltb_lt (block d * 512) _)) by lia. cbn [mbind option_bind].
  rewrite (proj2 (Z.ltb_lt (block d * 512 + beat d * 16) _)) by lia. cbn [mbind option_bind].
  rewrite (proj2 (Z.ltb_lt (l_addr l + _) _)) by lia. cbn [ok_or]. f_equal. lia.
Qed.

Lemma wp_send_block msg Q X (d : DmaBlockController) (ctx : C) :
  (forall ctx', blk_txn d + 1 < 2 ^ 64 ->
     Q tt (set_engine (Engine_WaitMedia (blk_txn d)) (set_blk_txn (blk_txn d + 1) d), ctx')) ->
  (forall e ctx', X (Fails e) (d, ctx')) -> wp (send_block msg) Q X (d, ctx).
Proof.
  intros HQ HX. unfold send_block. wp_run. apply wp_try; [|auto].
  intros n E%ok_or_Ok. apply checked_add_Some in E as [-> Hn]. wp_run. apply wp_call; [|auto].
  intros ctx'. wp_run. apply HQ, Hn.
Qed.

Lemma wp_send_beat msg Q X (d : DmaBlockController) (ctx : C) :
  (forall ctx', dma_txn d + 1 < 2 ^ 64 ->
     Q tt (set_engine (Engine_WaitBeat (dma_txn d)) (set_dma_txn (dma_txn d + 1) d), ctx')) ->
  (forall e ctx', X (Fails e) (d, ctx')) -> wp (send_beat msg) Q X (d, ctx).
Proof.
  intros HQ HX. unfold send_beat. wp_run. apply wp_try; [|auto].
  intros n E%ok_or_Ok. apply checked_add_Some in E as [-> Hn]. wp_run. apply wp_call; [|auto].
  intros ctx'. wp_run. apply HQ, Hn.
Qed.

(** The position of a controller with a command. *)
Lemma position_of (d : DmaBlockController) l :
  dma_ok d -> latched d = Some l ->
  position_ok (Some l) (engine d) (block d) (beat d) (buffer d) (dma_txn d) (blk_txn d).
Proof. intros Hok Hl. rewrite <- Hl. apply ok_position, Hok. Qed.

(** The engine may move on: the invariant of [moved], for a given command. *)
Lemma keeps_moved e i j buf dma blk (d : DmaBlockController) l :
  dma_ok d -> latched d = Some l -> position_ok (Some l) e i j buf dma blk ->
  bytes_ok buf -> in_u 64 dma -> in_u 64 blk -> keeps d (moved e i j buf dma blk d).
Proof. intros Hok Hl Hp ? ? ?. split; [|reflexivity]. apply moved_ok; try assumption. rewrite Hl. exact Hp. Qed.

Lemma issue_settles (d : DmaBlockController) (ctx : C) : dma_ok d -> settles (keeps d) issue d ctx.
Proof.
  intros Hok. assert (Hk : keeps d d) by (split; auto). pose proof (ok_buffer d Hok) as Hbuf.
  pose proof (ok_dma_txn d Hok) as Hdt. pose proof (ok_blk_txn d Hok) as Hbt.
  unfold settles, issue. wp_run. destruct (engine d) eqn:Ee; try (apply wp_fault; eauto).
  destruct (latched d) as [l|] eqn:El; [|apply wp_fault; eauto].
  pose proof (position_of d l Hok El) as Hp. rewrite Ee in Hp. destruct Hp as (Hi & Hj & Hp).
  assert (Ht : forall t, in_u 64 t -> t + 1 < 2 ^ 64 -> in_u 64 (t + 1)) by (unfold in_u; lia).
  assert (Hd0 : 0 <= dma_txn d) by apply Hdt. assert (Hb0 : 0 <= blk_txn d) by apply Hbt.
  destruct (l_op l) eqn:Eop.
  - case_bool_decide as Hb.
    + rewrite (block_lba_ok d l Hok El). wp_run. apply wp_send_block; [|eauto]. intros ctx' Hn.
      apply (keeps_moved (Engine_WaitMedia (blk_txn d)) (block d) (beat d) (buffer d) (dma_txn d) (blk_txn d + 1) d l); auto.
      cbn. rewrite Eop. destruct Hp as [? [Hf|[? ?]]]; [rewrite Hb in Hf; discriminate | auto 6].
    + rewrite (beat_addr_ok d l Hok El). wp_run. destruct Hp as [Hj' [Hf|[? ?]]]; [|contradiction].
      rewrite Hf. change BEAT_SIZE with 16. destruct (Nat.ltb_spec BLOCK_SIZE (Z.to_nat (beat d * 16) + Z.to_nat 16)) as [Hlt|_].
      { change BLOCK_SIZE with 512%nat in Hlt. lia. }
      apply wp_send_beat; [|eauto]. intros ctx' Hn.
      apply (keeps_moved (Engine_WaitBeat (dma_txn d)) (block d) (beat d) (buffer d) (dma_txn d + 1) (blk_txn d) d l); auto.
      cbn. rewrite Eop. auto 6.
  - destruct (Z.eqb_spec (beat d) BEATS_PER_BLOCK) as [Eb|Eb]; change BEATS_PER_BLOCK with 32 in Eb.
    + rewrite (block_lba_ok d l Hok El). wp_run. apply wp_send_block; [|eauto]. intros ctx' Hn. wp_run.
      apply (keeps_moved (Engine_WaitMedia (blk_txn d)) (block d) (beat d) [] (dma_txn d) (blk_txn d + 1) d l); auto;
        [|constructor]. cbn. rewrite Eop. auto 6.
    + rewrite (beat_addr_ok d l Hok El). wp_run. apply wp_send_beat; [|eauto]. intros ctx' Hn.
      apply (keeps_moved (Engine_WaitBeat (dma_txn d)) (block d) (beat d) (buffer d) (dma_txn d + 1) (blk_txn d) d l); auto.
      cbn. rewrite Eop. repeat split; auto; lia.
Qed.

Lemma check_result_settles (P : DmaBlockController -> Prop) txn expected (d : DmaBlockController) (ctx : C)
    (f : unit -> M unit) :
  P d -> (txn = expected -> ctx_phase ctx = Phase_Complete -> settles P (f tt) d ctx) ->
  settles P (check_result txn expected ≫= f) d ctx.
Proof.
  intros HP Hf. unfold settles, check_result. wp_run. destruct (Z.eqb_spec txn expected); [|apply wp_fault; eauto].
  cbn [negb]. wp_run. case_bool_decide as Hph; [apply wp_fault; eauto |]. wp_run. apply Hf; [assumption |].
  destruct (decide (ctx_phase ctx = Phase_Complete)); [assumption | contradiction].
Qed.

Lemma next_block_settles (P : DmaBlockController -> Prop) l (d : DmaBlockController) (ctx : C) :
  0 <= block d < l_count l -> l_count l < 2 ^ 32 ->
  P (completed 0 d) ->
  (block d + 1 < l_count l -> P (moved Engine_Issue (block d + 1) 0 [] (dma_txn d) (blk_txn d) d)) ->
  settles P (next_block l) d ctx.
Proof.
  intros Hb Hc HP HQ. unfold settles, next_block. wp_run. dma_cbn. unfold checked_add.
  rewrite (proj2 (Z.ltb_lt _ _)) by lia. cbn [ok_or]. wp_run.
  destruct (Z.eqb_spec (block d + 1) (l_count l)).
  - apply complete_settles, HP.
  - wp_run. apply dma_wake_settles. apply HQ. lia.
Qed.

Lemma count_small (d : DmaBlockController) l : dma_ok d -> latched d = Some l -> l_count l < 2 ^ 32.
Proof.
  intros Hok Hl. pose proof (ok_latched d Hok l Hl) as (_ & _ & _ & _ & H1 & H2).
  pose proof (ok_config d Hok) as (_ & _ & _ & H3 & _ & H4). lia.
Qed.

Lemma media_result_settles msg (d : DmaBlockController) (ctx : C) :
  dma_ok d -> block_msg_ok msg -> settles (keeps d) (media_result msg) d ctx.
Proof.
  intros Hok Hm. assert (Hk : keeps d d) by (split; auto).
  pose proof (ok_dma_txn d Hok) as Hdt. pose proof (ok_blk_txn d Hok) as Hbt.
  assert (Hcmp : forall code, 0 <= code <= 7 -> keeps d (completed code d))
    by (intros; split; [apply completed_ok; assumption | reflexivity]).
  unfold settles, media_result. wp_run. destruct (engine d) as [| |expected|] eqn:Ee; try (apply wp_fault; eauto).
  destruct (latched d) as [l|] eqn:El; [|apply wp_fault; eauto]. pose proof (count_small d l Hok El) as Hc.
  pose proof (position_of d l Hok El) as Hp. rewrite Ee in Hp. destruct Hp as (Hi & Hj & Hp).
  destruct (l_op l) eqn:Eop; destruct msg as [| |txn o|txn o]; try (apply wp_fault; eauto);
    apply (check_result_settles (keeps d)); try exact Hk; intros _ _;
    destruct o; try (apply complete_settles, Hcmp; cbv; split; discriminate).
  - destruct (Nat.eqb_spec (length data) BLOCK_SIZE) as [Hlen|]; cbn [negb]; [|apply settles_fault, Hk].
    unfold settles. wp_run. apply dma_wake_settles. destruct Hm as [_ Hd].
    apply (keeps_moved Engine_Issue (block d) (beat d) data (dma_txn d) (blk_txn d) d l); try assumption.
    cbn. rewrite Eop. split; [exact Hi |]. split; [exact Hj |]. split; [lia | auto].
  - apply next_block_settles; try assumption; [apply Hcmp; lia |]. intros Hlt.
    apply (keeps_moved Engine_Issue (block d + 1) 0 [] (dma_txn d) (blk_txn d) d l); try assumption; [|constructor].
    cbn. rewrite Eop. split; [lia |]. split; [lia | reflexivity].
Qed.

Lemma beat_result_settles msg (d : DmaBlockController) (ctx : C) :
  dma_ok d -> mem_msg_ok msg -> settles (keeps d) (beat_result msg) d ctx.
Proof.
  intros Hok Hm. assert (Hk : keeps d d) by (split; auto). pose proof (ok_buffer d Hok) as Hbuf.
  pose proof (ok_dma_txn d Hok) as Hdt. pose proof (ok_blk_txn d Hok) as Hbt.
  assert (Hcmp : forall code, 0 <= code <= 7 -> keeps d (completed code d))
    by (intros; split; [apply completed_ok; assumption | reflexivity]).
  unfold settles, beat_result. wp_run. destruct (engine d) as [| | |expected] eqn:Ee; try (apply wp_fault; eauto).
  destruct (latched d) as [l|] eqn:El; [|apply wp_fault; eauto]. pose proof (count_small d l Hok El) as Hc.
  pose proof (position_of d l Hok El) as Hp. rewrite Ee in Hp. destruct Hp as (Hi & Hj & Hp).
  assert (Hb8 : (beat d + 1 <? 2 ^ 8) = true) by (apply Z.ltb_lt; lia).
  destruct (l_op l) eqn:Eop; destruct msg as [|txn o| |txn o]; try (apply wp_fault; eauto);
    apply (check_result_settles (keeps d)); try exact Hk; intros _ _; destruct Hp as (Hj' & Hlen & _).
  - destruct o as [|[]]; [|apply complete_settles, Hcmp; cbv; split; discriminate].
    unfold settles, step_beat. wp_run. rewrite Hb8. wp_run. dma_cbn.
    destruct (Z.eqb_spec (beat d + 1) BEATS_PER_BLOCK) as [Eb|Eb]; change BEATS_PER_BLOCK with 32 in Eb.
    + apply (next_block_settles (keeps d)); try assumption; [apply (Hcmp 0); lia |]. intros Hlt.
      apply (keeps_moved Engine_Issue (block d + 1) 0 [] (dma_txn d) (blk_txn d) d l); try assumption; [|constructor].
      cbn. dma_cbn. cbn in Hlt. rewrite Eop. split; [lia |]. split; [lia |]. split; [lia | auto].
    + wp_run. apply dma_wake_settles.
      apply (keeps_moved Engine_Issue (block d) (beat d + 1) (buffer d) (dma_txn d) (blk_txn d) d l); try assumption.
      cbn. rewrite Eop. split; [exact Hi |]. split; [lia |]. split; [lia | auto].
  - destruct o as [data|[]]; [|apply complete_settles, Hcmp; cbv; split; discriminate].
    destruct (Z.eqb_spec (Z.of_nat (length data)) BEAT_SIZE) as [Hd|]; cbn [negb]; [|apply settles_fault, Hk].
    change BEAT_SIZE with 16 in Hd. unfold settles, step_beat. wp_run. dma_cbn. rewrite Hb8. wp_run. apply dma_wake_settles.
    destruct Hm as [_ Hdata].
    apply (keeps_moved Engine_Issue (block d) (beat d + 1) (buffer d ++ data) (dma_txn d) (blk_txn d) d l); try assumption.
    + cbn. rewrite Eop, length_app. split; [exact Hi |]. split; [lia |]. lia.
    + apply Forall_app. auto.
Qed.

Definition event_ok (ev : Delivered) : Prop :=
  match ev with
  | Delivered_Message _ (Message_Block m) => block_msg_ok m
  | _ => delivered_ok ev
  end.

Lemma dma_event_settles (d : DmaBlockController) (ctx : C) ev :
  dma_ok d -> event_ok ev -> settles (keeps d) (handle_event ev) d ctx.
Proof.
  intros Hok Hev. assert (Hk : keeps d d) by (split; auto).
  destruct ev as [port [m|m|m|m]|token]; cbn [handle_event]; repeat case_if; try (apply settles_fault, Hk).
  - apply dma_request_settles; assumption.
  - apply beat_result_settles; assumption.
  - apply media_result_settles; assumption.
  - apply issue_settles, Hok.
Qed.

(** The controller's invariant holds after every event, whatever the event and however
    the context answers, errors included: BUSY exactly while a validated command is latched,
    never with DONE, an error code only in DONE, the engine at a position of that command
    with the buffer and the outstanding transaction it requires, and the interrupt level
    [DONE && IRQ_ENABLE]; the configuration never changes and no event panics. *)
Theorem dma_invariant (d d' : DmaBlockController) (ctx ctx' : C) ev r :
  dma_ok d -> event_ok ev -> handle_event ev (d, ctx) = ((d', ctx'), r) ->
  (dma_ok d' /\ config d' = config d) /\ forall what, r <> Err (Panics what).
Proof. intros Hok Hev E. exact (settles_panic_free _ _ _ _ _ _ _ (dma_event_settles d ctx ev Hok Hev) E). Qed.
End invariant.

(** * Snapshots *)

Lemma latest_spec next txn : latest next txn = true <-> 0 <= txn /\ next = txn + 1.
Proof.
  unfold latest, checked_sub. rewrite bool_decide_eq_true.
  destruct (Z.leb_spec 1 next); split; try discriminate; try lia.
  - intros [= <-]. lia.
  - intros [? ->]. f_equal. lia.
Qed.

(** The check of [restore] is the position of the invariant. *)
Lemma engine_ok_spec l e i j buf dma blk :
  0 <= i -> 0 <= j -> engine_ok l e i j buf dma blk = true <-> position_ok l e i j buf dma blk.
Proof.
  intros Hi Hj. unfold engine_ok, position_ok. change BEATS_PER_BLOCK with 32. change BEAT_SIZE with 16.
  assert (Hnil : (length buf =? 0)%nat = true <-> buf = []) by (rewrite Nat.eqb_eq; apply length_zero_iff_nil).
  destruct l as [[[] lb a n]|]; cbn [l_op l_count].
  1,2: destruct e; rewrite ?andb_true_iff, ?orb_true_iff, ?andb_true_iff, ?latest_spec, ?Hnil, ?Nat.eqb_eq, ?Z.eqb_eq, ?Z.ltb_lt, ?Z.leb_le;
    rewrite ?(and_comm (buf = [])); intuition (discriminate || lia || auto).
  rewrite !andb_true_iff, bool_decide_eq_true, Hnil, !Z.eqb_eq. tauto.
Qed.

Lemma enable_bits v : in_u 32 v -> (Z.land v (not32 1) =? 0) = true <-> in_u 1 v.
Proof.
  intros Hv. change 1 with (Z.ones 1) at 1. rewrite land_not32_low by (assumption || lia). rewrite Z.eqb_eq.
  change (2 ^ 1) with 2. unfold in_u in *. change (2 ^ 1) with 2. Z.div_mod_to_equations. lia.
Qed.

Section snapshots.
Context `{SnapshotCodec}.

Local Abbreviation R := (ST (list Z) RestoreError).

Lemma reads_engine e :
  match e with Engine_WaitMedia txn | Engine_WaitBeat txn => in_u 64 txn | _ => True end ->
  reads read_engine (write_engine e) e.
Proof. intros He. unfold read_engine, write_engine. destruct e; repeat reads_next; apply reads_ret. Qed.

Lemma reads_latched self d :
  dma_ok d -> config self = config d -> reads (read_latched self (busy d)) (write_latched (latched d)) (latched d).
Proof.
  intros Hok Hcfg. pose proof (ok_latched d Hok) as Hl. pose proof (ok_config d Hok) as Hc.
  rewrite (ok_busy d Hok). destruct (latched d) as [l|]; [|apply reads_ret].
  specialize (Hl l eq_refl). pose proof Hl as (H1 & H2 & H3 & H4 & H5 & H6).
  pose proof Hc as (_ & _ & Hcap & Hb0 & Hs & Hb1).
  assert (in_u 32 (l_lba l) /\ in_u 32 (l_addr l) /\ in_u 32 (l_count l)) as (? & ? & ?) by (unfold in_u; lia).
  assert (in_u 8 (Operation_code (l_op l))) by (destruct (l_op l); const_range).
  assert (Hv : validate self (Operation_code (l_op l)) (l_lba l) (l_addr l) (l_count l) = Ok (l_op l)).
  { apply validate_Ok; rewrite ?Hcfg; try assumption. destruct l. auto. }
  rewrite bool_decide_eq_true_2 by discriminate. unfold read_latched, write_latched.
  repeat (reads_next; []). rewrite Hv. reads_next. destruct l. apply reads_ret.
Qed.

Lemma dma_reads_restore self d :
  dma_ok d -> config self = config d -> reads (restore self) (snapshot d) d.
Proof.
  intros Hok Hcfg.   pose proof Hok as []. assert (in_u 32 (irq_enable d)) by (apply (in_u_mono 1); [lia | assumption]).
  assert (Hpos : 0 <= block d < 2 ^ 32 /\ 0 <= beat d <= 32 /\ (length (buffer d) <= 512)%nat /\
    match engine d with Engine_WaitMedia txn | Engine_WaitBeat txn => in_u 64 txn | _ => True end).
  { unfold in_u in *. destruct (latched d) as [l|] eqn:El.
    - pose proof (count_small d l Hok El). destruct ok_position0 as (Hi & Hj & Hp). change BLOCK_SIZE with 512%nat in Hp.
      split; [lia |]. split; [lia |].
      destruct (l_op l), (engine d); try contradiction; destruct_and?; split; auto; try lia;
        try (destruct_or?; destruct_and?; try lia);
        match goal with Hb : buffer d = [] |- _ => rewrite Hb; cbn; lia | _ => lia end.
    - destruct ok_position0 as (-> & -> & -> & ->). cbn. lia. }
  destruct Hpos as (Hblock & Hbeat & Hlen & Htxn).
  assert (in_u 8 (error d)) by (unfold in_u; clear - ok_error0; destruct (done d); lia).
  unfold restore, snapshot. replace (write_config self) with (write_config d) by (unfold write_config; rewrite Hcfg; reflexivity).
  repeat (reads_next; []). rewrite (proj2 (enable_bits (irq_enable d) ltac:(assumption)) ok_irq_enable0).
  repeat (reads_next; []). rewrite ok_excl0. reads_next.
  assert (He : (if done d then error d <=? MEDIA_ERROR else error d =? 0) = true).
  { clear - ok_error0. destruct (done d); [apply Z.leb_le; change MEDIA_ERROR with 7; lia | apply Z.eqb_eq; assumption]. }
  rewrite He. reads_next. eapply reads_bind; [apply reads_latched; assumption |].
  eapply reads_bind; [apply reads_engine, Htxn |]. repeat (reads_next; []).
  rewrite (proj2 (engine_ok_spec _ _ _ _ _ _ _ (proj1 Hblock) (proj1 Hbeat)) ok_position0). reads_next.
  rewrite ok_irq_level0, eqb_reflx. reads_next. rewrite <- ok_irq_level0, Hcfg. destruct d. apply reads_ret.
Qed.

(** A snapshot of a controller in the invariant restores it exactly, whatever command it
    was executing, into any controller of the same configuration. *)
Theorem dma_snapshot_restore self d rest :
  dma_ok d -> config self = config d -> restore self (snapshot d ++ rest) = (rest, Ok d).
Proof. intros Hok Hcfg. apply dma_reads_restore; assumption. Qed.

Lemma yields_read_engine : yields read_engine (fun _ => True).
Proof. unfold read_engine. yields_next. yields_tags; repeat yields_next; apply yields_ret; exact I. Qed.

Lemma yields_read_latched d b :
  config_ok (config d) ->
  yields (read_latched d b)
    (fun l => b = bool_decide (l <> None) /\ forall l', l = Some l' -> latched_ok (config d) l').
Proof.
  intros Hc. unfold read_latched. destruct b; [|apply yields_ret; split; [reflexivity | discriminate]].
  repeat yields_next. apply yields_ret. split; [reflexivity |]. intros l' [= <-].
  match goal with Hv : map_err _ (validate d ?c ?l ?a ?n) = Ok _ |- _ =>
    destruct (validate d c l a n) as [op'|] eqn:Ev; cbn in Hv; [injection Hv as ->|discriminate Hv] end.
  apply validate_Ok in Ev as [_ Hl]; assumption.
Qed.

Lemma dma_restore_accepts d : dma_ok d -> yields (restore d) (fun d' => dma_ok d' /\ config d' = config d).
Proof.
  intros Hok. pose proof (ok_config d Hok) as Hc. unfold restore. repeat yields_next.
  eapply yields_bind; [apply yields_read_latched, Hc |]. intros l [Hb Hl].
  eapply yields_bind; [apply yields_read_engine |]. intros e _. repeat yields_next. apply yields_ret.
  split; [|reflexivity].
  constructor; dma_cbn; try assumption.
  - apply enable_bits; assumption.
  - apply negb_true_iff; assumption.
  - match goal with He : (if ?dn then ?x <=? _ else _) = true |- _ => revert He; assert (0 <= x) by word_lia; destruct dn end;
      [rewrite Z.leb_le; change MEDIA_ERROR with 7; lia | rewrite Z.eqb_eq; auto].
  - match goal with He : engine_ok _ _ _ _ _ _ _ = true |- _ => apply engine_ok_spec in He; [exact He | word_lia | word_lia] end.
  - match goal with Hb : bytes_ok _ /\ _ |- _ => apply Hb end.
  - apply eqb_prop. assumption.
Qed.

(** Whatever bytes are restored, a controller that [restore] accepts satisfies the whole
    invariant, with the configuration it had: no snapshot can put the engine where a run
    could not, or make it transfer outside the aperture. *)
Theorem dma_restore_invariant d bs rest d' :
  dma_ok d -> bytes_ok bs -> restore d bs = (rest, Ok d') -> dma_ok d' /\ config d' = config d.
Proof. intros Hok Hbs E. exact (proj1 (wp_use _ _ _ _ _ _ (dma_restore_accepts d Hok bs Hbs) E)). Qed.
End snapshots.

(** * Witnesses *)

#[local] Existing Instance recording_context.
#[local] Existing Instance documented_classify.

Definition example_config : DmaBlockControllerConfig := mkDmaConfig 1 (Latency_Cycles 0 2) 8 0x800 0x2000.

(** IDLE, with the registers of a one-block READ; the same command accepted. *)
Definition example_dma : DmaBlockController :=
  mkDma example_config 3 0x800 1 1 false false false 0 None Engine_Idle 0 0 [] 0 0 false.
Definition example_started : DmaBlockController :=
  mkDma example_config 3 0x800 1 1 true false false 0 (Some (mkLatched Operation_Read 3 0x800 1))
    Engine_Issue 0 0 [] 0 0 false.
Definition example_event : Delivered :=
  Delivered_Message MEM_PORT (Message_MemV1 (WriteReq 5 COMMAND [1; 0; 0; 0])).

Lemma example_aperture_ok : config_ok example_config.
Proof. repeat split; cbn; (const_range || lia). Qed.

Lemma example_dma_ok : dma_ok example_dma.
Proof.
  constructor; dma_cbn; first [exact example_aperture_ok | const_range | reflexivity | discriminate | solve [constructor] | solve [repeat split]].
Qed.

Lemma example_started_ok : dma_ok example_started.
Proof.
  constructor; dma_cbn; first [exact example_aperture_ok | const_range | reflexivity | discriminate | solve [constructor] | idtac].
  - intros l [= <-]. repeat split; cbn; lia.
  - cbn. split; [lia |]. split; [lia |]. split; [lia | auto].
Qed.

Lemma dma_invariant_witness : dma_ok example_started.
Proof.
  apply (dma_invariant example_dma example_started (mkRecCtx Phase_Transfer [])
    (mkRecCtx Phase_Transfer
       [Traced COMMAND_KIND [("op", VU64 1); ("lba", VU64 3); ("addr", VU64 0x800); ("count", VU64 1);
          ("accepted", VBool true)];
        Woken (When_Cycles 1 1) Phase_Request ISSUE;
        Sent MEM_PORT (Message_MemV1 (WriteResp 5 WriteOutcome_Done)) (When_Cycles 0 2) Phase_Complete])
    example_event (Ok tt) example_dma_ok); [|reflexivity].
  cbn. split; [const_range |]. split; [const_range |]. repeat (constructor; [const_range |]). constructor.
Defined.

Lemma dma_snapshot_restore_witness :
  @restore le_codec example_dma (@snapshot le_codec example_started ++ [7]) = ([7], Ok example_started).
Proof. apply (@dma_snapshot_restore le_codec); [exact example_started_ok | reflexivity]. Defined.

Lemma dma_restore_invariant_witness : dma_ok example_started.
Proof.
  apply (@dma_restore_invariant le_codec example_dma (@snapshot le_codec example_started) [] example_started example_dma_ok).
  - apply (bool_decide_unpack _). vm_compute. exact I.
  - rewrite <- (app_nil_r (@snapshot le_codec example_started)).
    apply (@dma_reads_restore le_codec); [exact example_started_ok | reflexivity].
Defined.
