(* ===== verification/DmaTransfer.v ===== *)
(** The DMA controller at work: wired to a RAM on its [dma] port and to a disk on its [blk]
    port, a command moves exactly the blocks it names.

    [turn] delivers one event to the controller and lets the RAM or the disk serve the request
    it sends, with their own handlers; [run] repeats it.  [transfer] says what a command does
    to memory and disk and with which code it ends.  Proved: from IDLE, a [COMMAND] write ends
    within [1 + 66 * BLOCK_COUNT] events in DONE with the code and the contents of [transfer]
    (dma_transfer_exact); and whatever events arrive, the controller asks only for aligned
    beats inside its aperture and blocks inside its capacity (dma_stays_in_aperture). *)
From stdpp Require Import base numbers list option strings gmap.
From Stdlib Require Import ZArith Lia.
From S2P Require Import Prelude Contracts Handlers Snapshots Platform.
From S2P Require Import Ram.
From S2P Require Import Media.
From S2P Require Import Dma.

Local Open Scope string_scope.
Local Open Scope list_scope.
Local Open Scope Z_scope.

#[local] Existing Instance recording_context.

(** * The system *)

Record System : Set := mkSystem { s_dma : DmaBlockController; s_ram : Ram; s_media : SimpleBlockMedia }.

(** The event due next, with its phase. *)
Definition Due : Set := option (Phase * Delivered).

Section system.
Context `{MemClassify}.

(** One effect of the controller: a wake is due as it is; a request on [dma] is served by the
    RAM and one on [blk] by the disk, and their response is due in [Complete]; anything else
    (a response to the CPU, an interrupt level, a trace record) leads to no event here. *)
Definition serve (st : Ram * SimpleBlockMedia * Due) (e : Effect) : Ram * SimpleBlockMedia * Due :=
  let '(ram, media, due) := st in
  match e with
  | Woken _ ph token => (ram, media, Some (ph, Delivered_Wake token))
  | Sent port (Message_MemV1 m) _ ph =>
      if port =? DMA_PORT then
        let '((ram, ctx), _) :=
          Ram.handle_event (Delivered_Message Ram.PORT (Message_MemV1 m)) (ram, mkRecCtx ph []) in
        (ram, media, (fun r => (Phase_Complete, Delivered_Message DMA_PORT (Message_MemV1 r))) <$>
                       head (answers (rec_log ctx)))
      else st
  | Sent port (Message_Block m) _ ph =>
      if port =? BLK_PORT then
        let '((media, ctx), _) :=
          Media.handle_event (Delivered_Message Media.PORT (Message_Block m)) (media, mkRecCtx ph []) in
        (ram, media, (fun r => (Phase_Complete, Delivered_Message BLK_PORT (Message_Block r))) <$>
                       head (results (rec_log ctx)))
      else st
  | _ => st
  end.

Definition turn (s : System) (p : Phase * Delivered) : System * Due :=
  let '((d, ctx), _) := Dma.handle_event (snd p) (s_dma s, mkRecCtx (fst p) []) in
  let '(ram, media, due) := foldl serve (s_ram s, s_media s, None) (rec_log ctx) in
  (mkSystem d ram media, due).

Fixpoint run (n : nat) (s : System) (due : Due) : System * Due :=
  match n, due with
  | S n, Some p => let '(s, due) := turn s p in run n s due
  | _, _ => (s, due)
  end.
End system.

(** * What a command does *)

Section spec.
Context (size : Z) (cfg : BlockMediaConfig).

Definition bad (lba : Z) : bool :=
  (Media.capacity_blocks cfg <=? lba) || bool_decide (lba ∈ bad_blocks cfg).

(** How many of the 32 beats from [addr] on lie inside the RAM. *)
Definition fit (addr : Z) : nat := Z.to_nat (Z.min 32 ((size - addr) / 16)).

(** Block [lba] to memory: a bad block writes nothing; otherwise its beats are written until
    one does not fit. *)
Definition read_block_to (disk : Z -> list Z) (mem : Z -> Z) (lba addr : Z) : (Z -> Z) * Z :=
  if bad lba then (mem, MEDIA_ERROR)
  else (write_bytes mem addr (take (16 * fit addr) (disk lba)), if (fit addr =? 32)%nat then 0 else DMA_FAULT).

(** Memory to block [lba]: only if all of it was read and the block is good. *)
Definition write_block_from (mem : Z -> Z) (disk : Z -> list Z) (lba addr : Z) : (Z -> list Z) * Z :=
  if negb (fit addr =? 32)%nat then (disk, DMA_FAULT)
  else if bad lba then (disk, MEDIA_ERROR)
  else ((fun k => if bool_decide (k = lba) then read_bytes mem addr 512 else disk k), 0).

(** The blocks in order, until one fails. *)
Fixpoint each_block {X} (f : Z -> X -> X * Z) (n : nat) (i : Z) (x : X) : X * Z :=
  match n with
  | O => (x, 0)
  | S n => let '(x, code) := f i x in if code =? 0 then each_block f n (i + 1) x else (x, code)
  end.

Definition transfer (l : Latched) (mem : Z -> Z) (disk : Z -> list Z) : (Z -> Z) * (Z -> list Z) * Z :=
  match l_op l with
  | Operation_Read =>
      let '(mem, code) :=
        each_block (fun i mem => read_block_to disk mem (l_lba l + i) (l_addr l + i * 512))
          (Z.to_nat (l_count l)) 0 mem in
      (mem, disk, code)
  | Operation_Write =>
      let '(disk, code) :=
        each_block (fun i disk => write_block_from mem disk (l_lba l + i) (l_addr l + i * 512))
          (Z.to_nat (l_count l)) 0 disk in
      (mem, disk, code)
  end.
End spec.

(** * Runs *)

Section runs.
Context `{MemClassify}.

(** [n] events from [s] and [due] end in [Q]. *)
Definition reaches (n : nat) (s : System) (due : Due) (Q : System -> Due -> Prop) : Prop :=
  let '(s, due) := run n s due in Q s due.

Lemma run_add n m : forall s due,
  run (n + m) s due = let '(s, due) := run n s due in run m s due.
Proof.
  induction n as [|n IH]; intros s due; cbn; [reflexivity |].
  destruct due as [p|]; [|destruct m; reflexivity]. destruct (turn s p) as [s' due']. apply IH.
Qed.

Lemma reaches_seq n m s due (P Q : System -> Due -> Prop) :
  reaches n s due P -> (forall s due, P s due -> reaches m s due Q) -> reaches (n + m) s due Q.
Proof.
  intros HP HQ. unfold reaches. rewrite run_add. unfold reaches in HP. destruct (run n s due) as [s' due'].
  apply (HQ s' due' HP).
Qed.

Lemma reaches_mono n s due (P Q : System -> Due -> Prop) :
  reaches n s due P -> (forall s due, P s due -> Q s due) -> reaches n s due Q.
Proof. unfold reaches. destruct (run n s due). auto. Qed.

Lemma reaches_halted n s (Q : System -> Due -> Prop) : Q s None -> reaches n s None Q.
Proof. destruct n; auto. Qed.

Lemma reaches_done s due (Q : System -> Due -> Prop) : Q s due -> reaches 0 s due Q.
Proof. auto. Qed.

Lemma reaches_step n s p s' due (Q : System -> Due -> Prop) :
  turn s p = (s', due) -> reaches n s' due Q -> reaches (S n) s (Some p) Q.
Proof. intros E HQ. unfold reaches. cbn. rewrite E. exact HQ. Qed.

(** A turn from what the controller does with the event and what its effects lead to. *)
Lemma turn_of d ram media ph ev d' log r ram' media' due :
  Dma.handle_event ev (d, mkRecCtx ph []) = ((d', mkRecCtx ph log), r) ->
  foldl serve (ram, media, None) log = (ram', media', due) ->
  turn (mkSystem d ram media) (ph, ev) = (mkSystem d' ram' media', due).
Proof. intros E F. unfold turn. cbn [s_dma s_ram s_media fst snd]. rewrite E. cbn [rec_log]. rewrite F. reflexivity. Qed.
End runs.

(** * The engine's events, exactly *)

Section events.
Context `{MemClassify}.

Local Abbreviation St := (Ram * SimpleBlockMedia * Due)%type.

Definition wake_due (st : St) : St := let '(ram, media, _) := st in (ram, media, Some (Phase_Request, Delivered_Wake ISSUE)).

(** The event makes [d] into [d'] and its effects do [f] to the rest of the system. *)
Definition acts (ev : Delivered) (ph : Phase) (d d' : DmaBlockController) (f : St -> St) : Prop :=
  wp (Dma.handle_event ev)
    (fun _ s => exists log, s = (d', mkRecCtx ph log) /\ forall st, foldl serve st log = f st)
    (fun _ _ => False) (d, mkRecCtx ph []).

Lemma turn_acts ev ph d d' f ram media ram' media' due :
  acts ev ph d d' f -> f (ram, media, None) = (ram', media', due) ->
  turn (mkSystem d ram media) (ph, ev) = (mkSystem d' ram' media', due).
Proof.
  unfold acts, wp. destruct (Dma.handle_event ev (d, mkRecCtx ph [])) as [s [[]|]] eqn:E; [|contradiction].
  intros (log & -> & Hf) F. eapply turn_of; [exact E | rewrite Hf; exact F].
Qed.

(** A call of the recording context. *)
Lemma wp_call_rec (f : RecCtx -> RecCtx * result SimError unit) Q X (d : DmaBlockController) ctx ctx' :
  f ctx = (ctx', Ok tt) -> Q tt (d, ctx') -> wp (call f) Q X (d, ctx).
Proof. intros E HQ. unfold wp, call. rewrite E. exact HQ. Qed.

Lemma wp_wake (f : St -> St) d ph log :
  (forall st, foldl serve st log = f st) ->
  wp wake_next_cycle
    (fun _ s => exists log, s = (d, mkRecCtx ph log) /\ forall st, foldl serve st log = wake_due (f st))
    (fun _ _ => False) (d, mkRecCtx ph log).
Proof.
  intros Hf. unfold wake_next_cycle. wp_run. eapply wp_call_rec; [reflexivity |].
  eexists. split; [reflexivity |]. intros st. rewrite foldl_app, Hf. destruct (f st) as [[? ?] ?]. reflexivity.
Qed.

Lemma wp_complete (f : St -> St) code d ph log :
  (forall st, foldl serve st log = f st) ->
  wp (complete code)
    (fun _ s => exists log, s = (completed code d, mkRecCtx ph log) /\ forall st, foldl serve st log = f st)
    (fun _ _ => False) (d, mkRecCtx ph log).
Proof.
  intros Hf. assert (Ht : forall fields st, foldl serve st (log ++ [Traced DONE_KIND fields]) = f st).
  { intros fields st. rewrite foldl_app, Hf. destruct (f st) as [[? ?] ?]. reflexivity. }
  unfold complete, update_irq. wp_run. dma_cbn. destruct (Bool.eqb _ _) eqn:E; wp_run.
  - eexists. split; [|intros st; apply Ht]. apply eqb_prop in E. unfold completed, refreshed. dma_cbn.
    rewrite E. reflexivity.
  - eapply wp_call_rec; [reflexivity |]. eexists. split; [reflexivity |].
    intros st. cbn [rec_log rec_push ctx_trace recording_context]. rewrite foldl_app, Ht. destruct (f st) as [[? ?] ?]. reflexivity.
Qed.

Lemma wp_check_result txn d log (f : unit -> ST (DmaBlockController * RecCtx) Failure unit) Q X :
  wp (f tt) Q X (d, mkRecCtx Phase_Complete log) ->
  wp (check_result txn txn ≫= f) Q X (d, mkRecCtx Phase_Complete log).
Proof.
  intros Hf. unfold check_result. rewrite Z.eqb_refl. cbn [negb]. wp_run. cbn.
  rewrite bool_decide_eq_false_2 by (intros Hn; apply Hn; reflexivity). wp_run. exact Hf.
Qed.

Lemma wp_next_block l d ph :
  0 <= block d < l_count l -> l_count l < 2 ^ 32 ->
  wp (next_block l)
    (fun _ s => exists log,
       s = ((if block d + 1 =? l_count l then completed 0 d
             else moved Engine_Issue (block d + 1) 0 [] (dma_txn d) (blk_txn d) d), mkRecCtx ph log) /\
       forall st, foldl serve st log = if block d + 1 =? l_count l then st else wake_due st)
    (fun _ _ => False) (d, mkRecCtx ph []).
Proof.
  intros Hb Hc. unfold next_block. wp_run. dma_cbn. unfold checked_add.
  rewrite (proj2 (Z.ltb_lt _ _)) by lia. cbn [ok_or]. wp_run.
  destruct (Z.eqb_spec (block d + 1) (l_count l)).
  - eapply wp_mono; [apply (wp_complete id); reflexivity | | auto].
    cbn beta. intros _ s (log & -> & Hf). exists log. auto.
  - wp_run. eapply wp_mono; [apply (wp_wake id); reflexivity | | auto].
    cbn beta. intros _ s (log & -> & Hf). exists log. auto.
Qed.

Context (l : Latched).

(** [Wake(ISSUE)]. *)
Lemma acts_read_block d ph :
  dma_ok d -> latched d = Some l -> l_op l = Operation_Read -> engine d = Engine_Issue -> buffer d = [] ->
  blk_txn d + 1 < 2 ^ 64 ->
  acts (Delivered_Wake ISSUE) ph d
    (moved (Engine_WaitMedia (blk_txn d)) (block d) (beat d) (buffer d) (dma_txn d) (blk_txn d + 1) d)
    (fun st => serve st (Sent BLK_PORT (Message_Block (ReadBlock (blk_txn d) (l_lba l + block d))) When_Now Phase_Request)).
Proof.
  intros Hok Hl Hop He Hb Ht. unfold acts. cbn [Dma.handle_event]. rewrite Z.eqb_refl. unfold issue. wp_run.
  rewrite He, Hl, Hop, Hb, bool_decide_eq_true_2, (block_lba_ok d l Hok Hl) by reflexivity. wp_run.
  unfold send_block, next_txn, checked_add. wp_run. rewrite (proj2 (Z.ltb_lt _ _) Ht). cbn [ok_or]. wp_run.
  eapply wp_call_rec; [reflexivity |]. wp_run. eexists. split; [rewrite <- Hb; reflexivity | reflexivity].
Qed.

Lemma acts_write_beat d ph :
  dma_ok d -> latched d = Some l -> l_op l = Operation_Read -> engine d = Engine_Issue ->
  length (buffer d) = 512%nat -> dma_txn d + 1 < 2 ^ 64 ->
  acts (Delivered_Wake ISSUE) ph d
    (moved (Engine_WaitBeat (dma_txn d)) (block d) (beat d) (buffer d) (dma_txn d + 1) (blk_txn d) d)
    (fun st => serve st (Sent DMA_PORT (Message_MemV1 (WriteReq (dma_txn d) (l_addr l + block d * 512 + beat d * 16)
       (take 16 (drop (Z.to_nat (beat d * 16)) (buffer d))))) When_Now Phase_Request)).
Proof.
  intros Hok Hl Hop He Hb Ht. pose proof (position_of d l Hok Hl) as Hp. rewrite He in Hp.
  destruct Hp as (_ & Hj & Hp). rewrite Hop in Hp. destruct Hp as [Hj' _].
  unfold acts. cbn [Dma.handle_event]. rewrite Z.eqb_refl. unfold issue. wp_run.
  rewrite He, Hl, Hop, bool_decide_eq_false_2 by (intros E; rewrite E in Hb; discriminate).
  rewrite (beat_addr_ok d l Hok Hl). wp_run. change BEAT_SIZE with 16. rewrite Hb.
  destruct (Nat.ltb_spec 512 (Z.to_nat (beat d * 16) + Z.to_nat 16)); [lia |].
  unfold send_beat, next_txn, checked_add. wp_run. rewrite (proj2 (Z.ltb_lt _ _) Ht). cbn [ok_or]. wp_run.
  eapply wp_call_rec; [reflexivity |]. wp_run. eexists. split; [reflexivity | reflexivity].
Qed.

Lemma acts_read_beat d ph :
  dma_ok d -> latched d = Some l -> l_op l = Operation_Write -> engine d = Engine_Issue -> beat d < 32 ->
  dma_txn d + 1 < 2 ^ 64 ->
  acts (Delivered_Wake ISSUE) ph d
    (moved (Engine_WaitBeat (dma_txn d)) (block d) (beat d) (buffer d) (dma_txn d + 1) (blk_txn d) d)
    (fun st => serve st (Sent DMA_PORT (Message_MemV1 (ReadReq (dma_txn d) (l_addr l + block d * 512 + beat d * 16) 16))
       When_Now Phase_Request)).
Proof.
  intros Hok Hl Hop He Hb Ht. unfold acts. cbn [Dma.handle_event]. rewrite Z.eqb_refl. unfold issue. wp_run.
  rewrite He, Hl, Hop, (proj2 (Z.eqb_neq (beat d) BEATS_PER_BLOCK)) by (change BEATS_PER_BLOCK with 32; lia).
  rewrite (beat_addr_ok d l Hok Hl). wp_run.
  unfold send_beat, next_txn, checked_add. wp_run. rewrite (proj2 (Z.ltb_lt _ _) Ht). cbn [ok_or]. wp_run.
  eapply wp_call_rec; [reflexivity |]. wp_run. eexists. split; [reflexivity | reflexivity].
Qed.

Lemma acts_write_block d ph :
  dma_ok d -> latched d = Some l -> l_op l = Operation_Write -> engine d = Engine_Issue -> beat d = 32 ->
  blk_txn d + 1 < 2 ^ 64 ->
  acts (Delivered_Wake ISSUE) ph d
    (moved (Engine_WaitMedia (blk_txn d)) (block d) (beat d) [] (dma_txn d) (blk_txn d + 1) d)
    (fun st => serve st (Sent BLK_PORT (Message_Block (WriteBlock (blk_txn d) (l_lba l + block d) (buffer d)))
       When_Now Phase_Request)).
Proof.
  intros Hok Hl Hop He Hb Ht. unfold acts. cbn [Dma.handle_event]. rewrite Z.eqb_refl. unfold issue. wp_run.
  rewrite He, Hl, Hop, (proj2 (Z.eqb_eq (beat d) BEATS_PER_BLOCK)) by exact Hb.
  rewrite (block_lba_ok d l Hok Hl). wp_run.
  unfold send_block, next_txn, checked_add. wp_run. rewrite (proj2 (Z.ltb_lt _ _) Ht). cbn [ok_or]. wp_run.
  eapply wp_call_rec; [reflexivity |]. wp_run. eexists. split; [reflexivity | reflexivity].
Qed.

(** Results, in [Complete]. *)
Local Abbreviation blk_event m := (Delivered_Message BLK_PORT (Message_Block m)).
Local Abbreviation dma_event m := (Delivered_Message DMA_PORT (Message_MemV1 m)).

Lemma acts_block_data d txn data :
  latched d = Some l -> l_op l = Operation_Read -> engine d = Engine_WaitMedia txn -> length data = 512%nat ->
  acts (blk_event (ReadResult txn (BlockRead_Data data))) Phase_Complete d
    (moved Engine_Issue (block d) (beat d) data (dma_txn d) (blk_txn d) d) wake_due.
Proof.
  intros Hl Hop He Hd. unfold acts. cbn [Dma.handle_event]. rewrite Z.eqb_refl. unfold media_result. wp_run.
  rewrite He, Hl, Hop. apply wp_check_result. rewrite block_size_val, Hd. cbn [Nat.eqb negb]. wp_run.
  eapply wp_mono; [apply (wp_wake id); reflexivity | | auto].
  cbn beta. intros _ s (log & -> & Hf). exists log. auto.
Qed.

Lemma acts_media_error d txn e :
  latched d = Some l -> engine d = Engine_WaitMedia txn ->
  acts (blk_event match l_op l with
                  | Operation_Read => ReadResult txn (BlockRead_Error e)
                  | Operation_Write => WriteResult txn (BlockWrite_Error e)
                  end) Phase_Complete d (completed MEDIA_ERROR d) id.
Proof.
  intros Hl He. unfold acts. cbn [Dma.handle_event]. rewrite Z.eqb_refl. unfold media_result. wp_run.
  rewrite He, Hl. destruct (l_op l); apply wp_check_result, (wp_complete id); reflexivity.
Qed.

Lemma acts_block_written d txn :
  latched d = Some l -> l_op l = Operation_Write -> engine d = Engine_WaitMedia txn ->
  0 <= block d < l_count l -> l_count l < 2 ^ 32 ->
  acts (blk_event (WriteResult txn BlockWrite_Done)) Phase_Complete d
    (if block d + 1 =? l_count l then completed 0 d
     else moved Engine_Issue (block d + 1) 0 [] (dma_txn d) (blk_txn d) d)
    (fun st => if block d + 1 =? l_count l then st else wake_due st).
Proof.
  intros Hl Hop He Hb Hc. unfold acts. cbn [Dma.handle_event]. rewrite Z.eqb_refl. unfold media_result. wp_run.
  rewrite He, Hl, Hop. apply wp_check_result, wp_next_block; assumption.
Qed.

Lemma acts_beat_fault d txn f :
  latched d = Some l -> engine d = Engine_WaitBeat txn ->
  acts (dma_event match l_op l with
                  | Operation_Read => WriteResp txn (WriteOutcome_Fault f)
                  | Operation_Write => ReadResp txn (ReadOutcome_Fault f)
                  end) Phase_Complete d (completed DMA_FAULT d) id.
Proof.
  intros Hl He. unfold acts.
  destruct (l_op l) eqn:Hop; cbn; unfold beat_result; wp_run; rewrite He, Hl, Hop;
    apply wp_check_result, (wp_complete id); reflexivity.
Qed.

Lemma acts_beat_written d txn :
  latched d = Some l -> l_op l = Operation_Read -> engine d = Engine_WaitBeat txn ->
  0 <= beat d < 32 -> 0 <= block d < l_count l -> l_count l < 2 ^ 32 ->
  acts (dma_event (WriteResp txn WriteOutcome_Done)) Phase_Complete d
    (if beat d + 1 =? 32 then
       if block d + 1 =? l_count l then completed 0 d
       else moved Engine_Issue (block d + 1) 0 [] (dma_txn d) (blk_txn d) d
     else moved Engine_Issue (block d) (beat d + 1) (buffer d) (dma_txn d) (blk_txn d) d)
    (fun st => if (beat d + 1 =? 32) && (block d + 1 =? l_count l) then st else wake_due st).
Proof.
  intros Hl Hop He Hj Hb Hc. unfold acts. cbn. unfold beat_result. wp_run.
  rewrite He, Hl, Hop. apply wp_check_result. unfold step_beat. wp_run.
  rewrite (proj2 (Z.ltb_lt (beat d + 1) (2 ^ 8))) by lia. wp_run. dma_cbn. change BEATS_PER_BLOCK with 32.
  destruct (Z.eqb_spec (beat d + 1) 32); cbn [andb].
  - eapply wp_mono; [apply (wp_next_block l); assumption | | auto].
    cbn beta. intros _ s (log & -> & Hf). exists log. auto.
  - wp_run. eapply wp_mono; [apply (wp_wake id); reflexivity | | auto].
    cbn beta. intros _ s (log & -> & Hf). exists log. auto.
Qed.

Lemma acts_beat_data d txn data :
  latched d = Some l -> l_op l = Operation_Write -> engine d = Engine_WaitBeat txn ->
  0 <= beat d < 32 -> length data = 16%nat ->
  acts (dma_event (ReadResp txn (ReadOutcome_Data data))) Phase_Complete d
    (moved Engine_Issue (block d) (beat d + 1) (buffer d ++ data) (dma_txn d) (blk_txn d) d) wake_due.
Proof.
  intros Hl Hop He Hj Hd. unfold acts. cbn. unfold beat_result. wp_run.
  rewrite He, Hl, Hop. apply wp_check_result. rewrite Hd. change (negb (Z.of_nat 16 =? BEAT_SIZE)) with false. cbn iota.
  unfold step_beat. wp_run. dma_cbn. rewrite (proj2 (Z.ltb_lt (beat d + 1) (2 ^ 8))) by lia. wp_run.
  eapply wp_mono; [apply (wp_wake id); reflexivity | | auto].
  cbn beta. intros _ s (log & -> & Hf). exists log. auto.
Qed.
End events.

(** * The RAM and the disk, serving *)

Section serving.
Context `{MemClassify}.

Lemma serve_write_beat ram media t a data :
  ram_ok ram -> in_u 64 t -> in_u 64 a -> bytes_ok data -> length data = 16%nat ->
  exists ram', ram_ok ram' /\ Ram.config ram' = Ram.config ram /\
    (forall b, byte ram' b = if a + 16 <=? size (Ram.config ram) then write_bytes (byte ram) a data b else byte ram b) /\
    serve (ram, media, None) (Sent DMA_PORT (Message_MemV1 (WriteReq t a data)) When_Now Phase_Request) =
    (ram', media, Some (Phase_Complete, Delivered_Message DMA_PORT (Message_MemV1
       (WriteResp t (if a + 16 <=? size (Ram.config ram) then WriteOutcome_Done else WriteOutcome_Fault AccessFault))))).
Proof.
  intros Hok Ht Ha Hd Hl.
  pose proof (ram_serves ram (mkRecCtx Phase_Request []) Ram.PORT (WriteReq t a data) Hok (conj Ht (conj Ha Hd))) as Hs.
  cbn [flat_access] in Hs. rewrite Hl in Hs. change (Z.of_nat 16) with 16 in Hs. change (16 =? 0) with false in Hs. cbn iota in Hs.
  destruct (a + 16 <=? size (Ram.config ram)); destruct Hs as (ram' & Hok' & Hb & [= Hc _] & E);
    exists ram'; (split; [exact Hok' |]); (split; [exact Hc |]); (split; [exact Hb |]);
    unfold serve; rewrite Z.eqb_refl, E; reflexivity.
Qed.

Lemma serve_read_beat ram media t a :
  ram_ok ram -> in_u 64 t -> in_u 64 a ->
  exists ram', ram_ok ram' /\ Ram.config ram' = Ram.config ram /\ (forall b, byte ram' b = byte ram b) /\
    serve (ram, media, None) (Sent DMA_PORT (Message_MemV1 (ReadReq t a 16)) When_Now Phase_Request) =
    (ram', media, Some (Phase_Complete, Delivered_Message DMA_PORT (Message_MemV1
       (ReadResp t (if a + 16 <=? size (Ram.config ram) then ReadOutcome_Data (read_bytes (byte ram) a 16)
                    else ReadOutcome_Fault AccessFault))))).
Proof.
  intros Hok Ht Ha.
  assert (Hm : mem_msg_ok (ReadReq t a 16)) by (split; [exact Ht | split; [exact Ha | const_range]]).
  pose proof (ram_serves ram (mkRecCtx Phase_Request []) Ram.PORT (ReadReq t a 16) Hok Hm) as Hs.
  cbn [flat_access] in Hs. change (16 =? 0) with false in Hs. change (Z.to_nat 16) with 16%nat in Hs. cbn iota in Hs.
  destruct (a + 16 <=? size (Ram.config ram)); destruct Hs as (ram' & Hok' & Hb & [= Hc _] & E);
    exists ram'; (split; [exact Hok' |]); (split; [exact Hc |]); (split; [exact Hb |]);
    unfold serve; rewrite Z.eqb_refl, E; reflexivity.
Qed.

(** The error of a bad block. *)
Lemma bad_spec cfg lba :
  (if Media.capacity_blocks cfg <=? lba then Some OutOfRange
   else if bool_decide (lba ∈ bad_blocks cfg) then Some BadBlock else None) =
  if bad cfg lba then Some (if Media.capacity_blocks cfg <=? lba then OutOfRange else BadBlock) else None.
Proof. unfold bad. destruct (_ <=? _); [reflexivity |]. cbn [orb]. destruct (bool_decide _); reflexivity. Qed.

Lemma serve_read_block ram media t lba :
  media_ok media -> in_u 64 t -> in_u 64 lba ->
  exists media', media_ok media' /\ Media.config media' = Media.config media /\ (forall k, Media.load media' k = Media.load media k) /\
  exists e,
    serve (ram, media, None) (Sent BLK_PORT (Message_Block (ReadBlock t lba)) When_Now Phase_Request) =
    (ram, media', Some (Phase_Complete, Delivered_Message BLK_PORT (Message_Block
       (ReadResult t (if bad (Media.config media) lba then BlockRead_Error e else BlockRead_Data (Media.load media lba)))))).
Proof.
  intros Hok Ht Hlba.
  pose proof (media_serves media (mkRecCtx Phase_Request []) (ReadBlock t lba) Hok (conj Ht Hlba) eq_refl) as Hs.
  cbn [disk_access] in Hs. rewrite bad_spec in Hs. destruct Hs as (m' & Hok' & Hb & [= Hc _] & E).
  exists m'. split; [exact Hok' |]. split; [exact Hc |]. split; [exact Hb |].
  eexists. unfold serve. rewrite Z.eqb_refl, E. destruct (bad _ _); reflexivity.
Qed.

Lemma serve_write_block ram media t lba data :
  media_ok media -> in_u 64 t -> in_u 64 lba -> bytes_ok data -> length data = 512%nat ->
  exists media', media_ok media' /\ Media.config media' = Media.config media /\
  (forall k, Media.load media' k =
     if bad (Media.config media) lba then Media.load media k
     else if bool_decide (k = lba) then data else Media.load media k) /\
  exists e,
    serve (ram, media, None) (Sent BLK_PORT (Message_Block (WriteBlock t lba data)) When_Now Phase_Request) =
    (ram, media', Some (Phase_Complete, Delivered_Message BLK_PORT (Message_Block
       (WriteResult t (if bad (Media.config media) lba then BlockWrite_Error e else BlockWrite_Done))))).
Proof.
  intros Hok Ht Hlba Hd Hl.
  pose proof (media_serves media (mkRecCtx Phase_Request []) (WriteBlock t lba data) Hok (conj Ht (conj Hlba Hd)) eq_refl) as Hs.
  cbn [disk_access] in Hs. rewrite bad_spec, block_size_val, Hl in Hs. cbn [Nat.eqb negb] in Hs.
  destruct (bad _ _); destruct Hs as (m' & Hok' & Hb & [= Hc _] & E); exists m'; (split; [exact Hok' |]);
    (split; [exact Hc |]); (split; [exact Hb |]);
    exists (if Media.capacity_blocks (Media.config media) <=? lba then OutOfRange else BadBlock); unfold serve; rewrite Z.eqb_refl, E; reflexivity.
Qed.
End serving.

(** * Bytes *)

Lemma write_bytes_nil mem a b : write_bytes mem a [] b = mem b.
Proof. unfold write_bytes. destruct (Z.leb_spec a b), (Z.ltb_spec b (a + Z.of_nat (length (@nil Z)))); cbn in *; lia || reflexivity. Qed.

Lemma write_bytes_ext_at mem mem' a data b :
  (forall c, mem c = mem' c) -> write_bytes mem a data b = write_bytes mem' a data b.
Proof. intros Hm. apply write_bytes_ext, Hm. Qed.

(** Two adjacent writes are one. *)
Lemma write_bytes_app mem a x y b :
  write_bytes (write_bytes mem a x) (a + Z.of_nat (length x)) y b = write_bytes mem a (x ++ y) b.
Proof.
  unfold write_bytes. rewrite length_app, Nat2Z.inj_add.
  destruct (Z.leb_spec (a + Z.of_nat (length x)) b), (Z.ltb_spec b (a + Z.of_nat (length x) + Z.of_nat (length y)));
    destruct (Z.leb_spec a b), (Z.ltb_spec b (a + Z.of_nat (length x))),
      (Z.ltb_spec b (a + (Z.of_nat (length x) + Z.of_nat (length y)))); cbn [andb]; try lia; try reflexivity.
  - rewrite app_nth2 by lia. f_equal. lia.
  - rewrite app_nth1 by lia. reflexivity.
Qed.

Lemma read_bytes_app mem a n m : read_bytes mem a (n + m) = read_bytes mem a n ++ read_bytes mem (a + Z.of_nat n) m.
Proof.
  unfold read_bytes. rewrite seq_app, fmap_app. f_equal.
  rewrite Nat.add_0_l, <- (Nat.add_0_r n), <- (fmap_add_seq n 0 m), Nat.add_0_r, <- list_fmap_compose.
  apply list_fmap_ext. intros i k _. cbn. f_equal. lia.
Qed.

Lemma length_flat_read mem a n : length (read_bytes mem a n) = n.
Proof. unfold read_bytes. rewrite length_fmap. apply length_seq. Qed.

Lemma ram_bytes_ok ram a n : ram_ok ram -> bytes_ok (read_bytes (byte ram) a n).
Proof.
  intros (_ & _ & _ & Hp & _). apply Forall_fmap, Forall_forall. intros i _. cbn. unfold byte, byte_at, page_byte.
  destruct (pages ram !! _) as [p|] eqn:E; [|const_range].
  destruct (nth_in_or_default (Z.to_nat ((a + Z.of_nat i) mod PAGE)) p 0) as [Hin|Hd].
  - destruct (Hp _ _ E) as (_ & _ & Hb & _). unfold bytes_ok in Hb. rewrite Forall_forall in Hb.
    apply Hb, list_elem_of_In, Hin.
  - rewrite Hd. const_range.
Qed.

Lemma load_ok media lba : media_ok media -> bytes_ok (Media.load media lba) /\ length (Media.load media lba) = 512%nat.
Proof.
  intros (_ & _ & Hb). unfold Media.load. destruct (blocks media !! lba) as [b|] eqn:E.
  - destruct (Hb _ _ E) as (_ & Hl & Ho & _). rewrite Hl. rewrite block_size_val. auto.
  - unfold zero_block. rewrite length_replicate, block_size_val. split; [|reflexivity].
    apply Forall_replicate. const_range.
Qed.

Lemma fit_spec size a j :
  (j < 32)%nat -> (a + Z.of_nat j * 16 + 16 <=? size) = (j <? fit size a)%nat.
Proof.
  intros Hj. unfold fit. apply eq_true_iff_eq. rewrite Z.leb_le, Nat.ltb_lt.
  pose proof (Z.div_mod (size - a) 16 ltac:(lia)). pose proof (Z.mod_pos_bound (size - a) 16 ltac:(lia)). lia.
Qed.

Lemma fit_le size a : (fit size a <= 32)%nat.
Proof. unfold fit. lia. Qed.

(** * A command, block by block *)

Section command.
Context `{MemClassify} (d0 : DmaBlockController) (l : Latched).
Context (Hok0 : dma_ok d0) (Hlatched : latched d0 = Some l).

(** The controller executing the command, and after it. *)
Definition at_ (e : Engine) (i j : Z) (buf : list Z) (dt bt : Z) : DmaBlockController := moved e i j buf dt bt d0.
Definition ended (code dt bt : Z) : DmaBlockController := completed code (at_ Engine_Idle 0 0 [] dt bt).

Local Abbreviation due_issue := (Some (Phase_Request, Delivered_Wake ISSUE)).

(** After block [i]. *)
Definition next_at (i dt bt : Z) : DmaBlockController * Due :=
  if i + 1 =? l_count l then (ended 0 dt bt, None) else (at_ Engine_Issue (i + 1) 0 [] dt bt, due_issue).

Lemma command_bounds :
  0 <= l_lba l /\ 1 <= l_count l < 2 ^ 32 /\ l_lba l + l_count l <= 2 ^ 32 /\ 0 <= l_addr l /\
  l_addr l + l_count l * 512 <= 2 ^ 32.
Proof.
  pose proof (ok_latched d0 Hok0 l Hlatched) as (H1 & H2 & H3 & _ & H5 & H6).
  pose proof (ok_config d0 Hok0) as (_ & _ & H7 & H8 & _ & H9). lia.
Qed.

Lemma at_ok e i j buf dt bt :
  position_ok (Some l) e i j buf dt bt -> bytes_ok buf -> in_u 64 dt -> in_u 64 bt -> dma_ok (at_ e i j buf dt bt).
Proof. intros Hp ? ? ?. apply moved_ok; try assumption. rewrite Hlatched. exact Hp. Qed.

(** The RAM and the disk hold [mem] and [disk]. *)
Definition holds (rc : RamConfig) (mc : BlockMediaConfig) (mem : Z -> Z) (disk : Z -> list Z)
    (ram : Ram) (media : SimpleBlockMedia) : Prop :=
  (ram_ok ram /\ Ram.config ram = rc /\ forall b, byte ram b = mem b) /\
  (media_ok media /\ Media.config media = mc /\ forall k, Media.load media k = disk k).

(** What the events of one block do, and of all blocks. *)
Definition one_block {X} (rep : X -> Ram -> SimpleBlockMedia -> Prop) (f : Z -> X -> X * Z) : Prop :=
  forall i x dt bt ram media,
    0 <= i < l_count l -> rep x ram media ->
    0 <= dt -> dt + 32 < 2 ^ 64 -> 0 <= bt -> bt + 1 < 2 ^ 64 ->
    reaches 66 (mkSystem (at_ Engine_Issue i 0 [] dt bt) ram media) due_issue
      (fun s due => exists ram' media' dt' bt',
         rep (fst (f i x)) ram' media' /\ (dt <= dt' <= dt + 32 /\ bt <= bt' <= bt + 1) /\
         (s, due) = if snd (f i x) =? 0 then (mkSystem (fst (next_at i dt' bt')) ram' media', snd (next_at i dt' bt'))
                    else (mkSystem (ended (snd (f i x)) dt' bt') ram' media', None)).

Lemma all_blocks {X} (rep : X -> Ram -> SimpleBlockMedia -> Prop) (f : Z -> X -> X * Z) :
  one_block rep f -> forall n i x dt bt ram media,
    i + Z.of_nat (S n) = l_count l -> 0 <= i -> rep x ram media ->
    0 <= dt -> dt + 32 * Z.of_nat (S n) < 2 ^ 64 -> 0 <= bt -> bt + Z.of_nat (S n) < 2 ^ 64 ->
    reaches (66 * S n) (mkSystem (at_ Engine_Issue i 0 [] dt bt) ram media) due_issue
      (fun s due => exists ram' media' dt' bt',
         rep (fst (each_block f (S n) i x)) ram' media' /\
         s = mkSystem (ended (snd (each_block f (S n) i x)) dt' bt') ram' media' /\ due = None).
Proof.
  intros Hone. induction n as [|n IH]; intros i x dt bt ram media Hn Hi Hrep Hdt Hdt' Hbt Hbt'.
  all: pose proof (Hone i x dt bt ram media ltac:(lia) Hrep Hdt ltac:(lia) Hbt ltac:(lia)) as Hb.
  all: cbn [each_block]; destruct (f i x) as [x1 code]; cbn [fst snd] in Hb; unfold next_at in Hb.
  - eapply reaches_mono; [exact Hb |]. cbn beta. intros s due (ram1 & media1 & dt1 & bt1 & Hr & _ & E).
    exists ram1, media1, dt1, bt1. rewrite (proj2 (Z.eqb_eq (i + 1) (l_count l))) in E by lia.
    destruct (Z.eqb_spec code 0) as [E0|_]; injection E as -> ->; cbn [fst snd]; rewrite ?E0; auto.
  - replace (66 * S (S n))%nat with (66 + 66 * S n)%nat by lia. eapply reaches_seq; [exact Hb |].
    cbn beta. intros s due (ram1 & media1 & dt1 & bt1 & Hr & Hb1 & E).
    rewrite (proj2 (Z.eqb_neq (i + 1) (l_count l))) in E by lia.
    destruct (code =? 0); injection E as -> ->; [apply IH; try assumption; lia |].
    apply reaches_halted. exists ram1, media1, dt1, bt1. auto.
Qed.

Section read.
Context (Hop : l_op l = Operation_Read).

(** One beat: a request and its response. *)
Lemma read_beat data i j dt bt ram media :
  0 <= i < l_count l -> 0 <= j < 32 -> bytes_ok data -> length data = 512%nat -> ram_ok ram ->
  0 <= dt -> dt + 1 < 2 ^ 64 -> in_u 64 bt ->
  let a := l_addr l + i * 512 + j * 16 in
  let fits := a + 16 <=? size (Ram.config ram) in
  reaches 2 (mkSystem (at_ Engine_Issue i j data dt bt) ram media) due_issue
    (fun s due => exists ram', ram_ok ram' /\ Ram.config ram' = Ram.config ram /\
       (forall b, byte ram' b =
          if fits then write_bytes (byte ram) a (take 16 (drop (Z.to_nat (j * 16)) data)) b else byte ram b) /\
       (s, due) =
         if fits then
           if j + 1 =? 32 then (mkSystem (fst (next_at i (dt + 1) bt)) ram' media, snd (next_at i (dt + 1) bt))
           else (mkSystem (at_ Engine_Issue i (j + 1) data (dt + 1) bt) ram' media, due_issue)
         else (mkSystem (ended DMA_FAULT (dt + 1) bt) ram' media, None)).
Proof.
  intros Hi Hj Hd Hlen Hok Hdt Hdt' Hbt a fits. pose proof command_bounds as Hcb.
  assert (Hdu : in_u 64 dt) by (unfold in_u; lia).
  assert (Hst : dma_ok (at_ Engine_Issue i j data dt bt)) by
    (apply at_ok; try assumption; cbn; rewrite Hop, block_size_val; split; [exact Hi |]; split; [lia |]; split; [lia | auto]).
  pose proof (acts_write_beat l _ Phase_Request Hst Hlatched Hop eq_refl Hlen Hdt') as Hissue.
  destruct (serve_write_beat ram media dt a (take 16 (drop (Z.to_nat (j * 16)) data))) as (ram' & Hok' & Hcfg & Hb & Hserve).
  { exact Hok. } { exact Hdu. } { unfold in_u, a. lia. } { apply Forall_take, Forall_drop, Hd. }
  { rewrite length_take, length_drop. lia. }
  eapply reaches_step; [exact (turn_acts _ _ _ _ _ ram media _ _ _ Hissue Hserve) |]. fold fits.
  unfold fits in *. destruct (a + 16 <=? size (Ram.config ram)).
  - assert (Hw : acts (Delivered_Message DMA_PORT (Message_MemV1 (WriteResp dt WriteOutcome_Done))) Phase_Complete
        (at_ (Engine_WaitBeat dt) i j data (dt + 1) bt)
        (if j + 1 =? 32 then if i + 1 =? l_count l then ended 0 (dt + 1) bt else at_ Engine_Issue (i + 1) 0 [] (dt + 1) bt
         else at_ Engine_Issue i (j + 1) data (dt + 1) bt)
        (fun st => if (j + 1 =? 32) && (i + 1 =? l_count l) then st else wake_due st)).
    { exact (acts_beat_written l (at_ (Engine_WaitBeat dt) i j data (dt + 1) bt) dt Hlatched Hop eq_refl Hj Hi
        (proj2 (proj1 (proj2 Hcb)))). }
    unfold next_at. destruct (j + 1 =? 32), (i + 1 =? l_count l);
      (eapply reaches_step; [exact (turn_acts _ _ _ _ _ ram' media _ _ _ Hw eq_refl) |]);
      apply reaches_done; exists ram'; auto.
  - pose proof (acts_beat_fault l (at_ (Engine_WaitBeat dt) i j data (dt + 1) bt) dt AccessFault Hlatched eq_refl) as Hw.
    rewrite Hop in Hw. eapply reaches_step; [exact (turn_acts _ _ _ _ _ ram' media _ _ _ Hw eq_refl) |].
    apply reaches_done. exists ram'. auto.
Qed.

(** The beats of block [i] from [j] on: [k + 1] are left. *)
Lemma read_beats mem data i bt media k : forall j ram dt,
  (j + S k = 32)%nat -> 0 <= i < l_count l -> bytes_ok data -> length data = 512%nat ->
  (j <= fit (size (Ram.config ram)) (l_addr l + i * 512))%nat ->
  ram_ok ram -> (forall b, byte ram b = write_bytes mem (l_addr l + i * 512) (take (16 * j) data) b) ->
  0 <= dt -> dt + Z.of_nat (S k) < 2 ^ 64 -> in_u 64 bt ->
  let f := fit (size (Ram.config ram)) (l_addr l + i * 512) in
  reaches (2 * S k) (mkSystem (at_ Engine_Issue i (Z.of_nat j) data dt bt) ram media) due_issue
    (fun s due => exists ram' dt',
       ram_ok ram' /\ Ram.config ram' = Ram.config ram /\
       (forall b, byte ram' b = write_bytes mem (l_addr l + i * 512) (take (16 * f) data) b) /\
       dt <= dt' <= dt + Z.of_nat (S k) /\
       (s, due) = if (f =? 32)%nat then (mkSystem (fst (next_at i dt' bt)) ram' media, snd (next_at i dt' bt))
                  else (mkSystem (ended DMA_FAULT dt' bt) ram' media, None)).
Proof.
  induction k as [|k IH]; intros j ram dt Hjk Hi Hd Hlen Hf Hok Hmem Hdt Hdt' Hbt f.
  all: pose proof (fit_le (size (Ram.config ram)) (l_addr l + i * 512)) as Hf32; fold f in Hf, Hf32.
  all: pose proof (read_beat data i (Z.of_nat j) dt bt ram media Hi ltac:(lia) Hd Hlen Hok Hdt ltac:(lia) Hbt) as Hbeat.
  all: cbn zeta in Hbeat; rewrite fit_spec in Hbeat by lia; fold f in Hbeat.
  all: assert (Hw : forall b, write_bytes (byte ram) (l_addr l + i * 512 + Z.of_nat j * 16)
      (take 16 (drop (Z.to_nat (Z.of_nat j * 16)) data)) b =
      write_bytes mem (l_addr l + i * 512) (take (16 * S j) data) b).
  1, 3: intros b; rewrite (write_bytes_ext_at _ _ _ _ _ Hmem);
    replace (Z.to_nat (Z.of_nat j * 16)) with (16 * j)%nat by lia;
    replace (l_addr l + i * 512 + Z.of_nat j * 16)
      with (l_addr l + i * 512 + Z.of_nat (length (take (16 * j) data))) by (rewrite length_take; lia);
    rewrite write_bytes_app, take_take_drop; do 2 f_equal; lia.
  - eapply (reaches_seq 2 0); [exact Hbeat |]. cbn beta. intros s due (ram' & Hok' & Hcfg & Hb & E).
    apply reaches_done. exists ram', (dt + 1). split; [exact Hok' |]. split; [exact Hcfg |].
    destruct (Nat.ltb_spec j f).
    + replace f with 32%nat by lia. cbn [Nat.eqb]. rewrite (proj2 (Z.eqb_eq (Z.of_nat j + 1) 32)) in E by lia.
      split; [intros b; rewrite Hb, Hw; do 2 f_equal; lia |]. split; [lia | exact E].
    + replace f with j by lia. rewrite (proj2 (Nat.eqb_neq j 32)) by lia.
      split; [intros b; rewrite Hb; apply Hmem |]. split; [lia | exact E].
  - replace (2 * S (S k))%nat with (2 + 2 * S k)%nat by lia. eapply reaches_seq; [exact Hbeat |].
    cbn beta. intros s due (ram' & Hok' & Hcfg & Hb & E). destruct (Nat.ltb_spec j f).
    + rewrite (proj2 (Z.eqb_neq (Z.of_nat j + 1) 32)) in E by lia. injection E as -> ->.
      replace (Z.of_nat j + 1) with (Z.of_nat (S j)) by lia.
      specialize (IH (S j) ram' (dt + 1)). cbn zeta in IH. rewrite Hcfg in IH. fold f in IH.
      unfold reaches in *. destruct (run _ _ _) as [s' due'].
      destruct IH as (ram2 & dt2 & Hok2 & Hcfg2 & Hb2 & Hdt2 & E2); try assumption; try lia.
      { intros b. rewrite Hb. apply Hw. }
      exists ram2, dt2. split; [exact Hok2 |]. split; [exact Hcfg2 |]. split; [exact Hb2 |]. split; [lia | exact E2].
    + injection E as -> ->. apply reaches_halted. exists ram', (dt + 1).
      replace f with j by lia. rewrite (proj2 (Nat.eqb_neq j 32)) by lia.
      split; [exact Hok' |]. split; [exact Hcfg |]. split; [intros b; rewrite Hb; apply Hmem |]. split; [lia | reflexivity].
Qed.

Lemma read_one rc mc disk :
  one_block (fun mem => holds rc mc mem disk)
    (fun i mem => read_block_to (size rc) mc disk mem (l_lba l + i) (l_addr l + i * 512)).
Proof.
  intros i mem dt bt ram media Hi [(Hok & Hrc & Hmem) (Hmok & Hmc & Hdisk)] Hdt Hdt' Hbt Hbt'.
  pose proof command_bounds as Hcb.
  assert (Hdu : in_u 64 dt) by (unfold in_u; lia). assert (Hbu : in_u 64 bt) by (unfold in_u; lia).
  assert (Hst : dma_ok (at_ Engine_Issue i 0 [] dt bt)).
  { apply at_ok; try assumption; [|constructor]. cbn. rewrite Hop. split; [exact Hi |]. split; [lia |]. split; [lia | auto]. }
  pose proof (acts_read_block l _ Phase_Request Hst Hlatched Hop eq_refl eq_refl Hbt') as Hissue.
  destruct (serve_read_block ram media bt (l_lba l + i) Hmok Hbu ltac:(unfold in_u; lia)) as (media' & Hmok' & Hmcfg & Hload & e & Hserve).
  pose proof (turn_acts _ _ _ _ _ ram media _ _ _ Hissue Hserve) as Hturn. unfold read_block_to.
  assert (Hm' : media_ok media' /\ Media.config media' = mc /\ forall k, Media.load media' k = disk k).
  { split; [exact Hmok' |]. split; [congruence |]. intros k. rewrite Hload. apply Hdisk. }
  rewrite Hmc in Hturn. destruct (bad mc (l_lba l + i)); cbn [fst snd].
  - eapply reaches_step; [exact Hturn |].
    pose proof (acts_media_error l (at_ (Engine_WaitMedia bt) i 0 [] dt (bt + 1)) bt e Hlatched eq_refl) as Hw. rewrite Hop in Hw.
    eapply reaches_step; [exact (turn_acts _ _ _ _ _ ram media' _ _ _ Hw eq_refl) |].
    apply reaches_halted. exists ram, media', dt, (bt + 1).
    split; [split; auto |]. split; [lia | reflexivity].
  - destruct (load_ok media (l_lba l + i) Hmok) as [Hb8 Hlen].
    change 66%nat with (2 + 2 * S 31)%nat. eapply reaches_step; [exact Hturn |].
    pose proof (acts_block_data l (at_ (Engine_WaitMedia bt) i 0 [] dt (bt + 1)) bt _ Hlatched Hop eq_refl Hlen) as Hw.
    eapply reaches_step; [exact (turn_acts _ _ _ _ _ ram media' _ _ _ Hw eq_refl) |].
    pose proof (read_beats mem (Media.load media (l_lba l + i)) i (bt + 1) media' 31 0 ram dt eq_refl Hi Hb8 Hlen
      ltac:(lia) Hok ltac:(intros b; rewrite write_bytes_nil; apply Hmem) Hdt ltac:(lia) ltac:(unfold in_u; lia)) as Hr.
    eapply reaches_mono; [exact Hr |]. cbn beta zeta. intros s due (ram' & dt' & Hok' & Hcfg & Hb & Hr' & E).
    exists ram', media', dt', (bt + 1). split; [|split; [lia |]].
    + split; [|exact Hm']. split; [exact Hok' |]. split; [congruence |]. intros b. rewrite Hb, Hdisk, Hrc. reflexivity.
    + rewrite Hrc in E. rewrite E. destruct (fit _ _ =? 32)%nat; reflexivity.
Qed.
End read.

Section write.
Context (Hop : l_op l = Operation_Write).

Lemma write_beat data i j dt bt ram media :
  0 <= i < l_count l -> 0 <= j < 32 -> bytes_ok data -> Z.of_nat (length data) = j * 16 -> ram_ok ram ->
  0 <= dt -> dt + 1 < 2 ^ 64 -> in_u 64 bt ->
  let a := l_addr l + i * 512 + j * 16 in
  reaches 2 (mkSystem (at_ Engine_Issue i j data dt bt) ram media) due_issue
    (fun s due => exists ram', ram_ok ram' /\ Ram.config ram' = Ram.config ram /\ (forall b, byte ram' b = byte ram b) /\
       (s, due) =
         if a + 16 <=? size (Ram.config ram) then
           (mkSystem (at_ Engine_Issue i (j + 1) (data ++ read_bytes (byte ram) a 16) (dt + 1) bt) ram' media, due_issue)
         else (mkSystem (ended DMA_FAULT (dt + 1) bt) ram' media, None)).
Proof.
  intros Hi Hj Hd Hlen Hok Hdt Hdt' Hbt a. pose proof command_bounds as Hcb.
  assert (Hdu : in_u 64 dt) by (unfold in_u; lia).
  assert (Hst : dma_ok (at_ Engine_Issue i j data dt bt)) by
    (apply at_ok; try assumption; cbn; rewrite Hop; split; [exact Hi |]; split; [lia | exact Hlen]).
  pose proof (acts_read_beat l _ Phase_Request Hst Hlatched Hop eq_refl (proj2 Hj) Hdt') as Hissue.
  destruct (serve_read_beat ram media dt a) as (ram' & Hok' & Hcfg & Hb & Hserve).
  { exact Hok. } { exact Hdu. } { unfold in_u, a. lia. }
  eapply reaches_step; [exact (turn_acts _ _ _ _ _ ram media _ _ _ Hissue Hserve) |].
  destruct (a + 16 <=? size (Ram.config ram)).
  - pose proof (acts_beat_data l (at_ (Engine_WaitBeat dt) i j data (dt + 1) bt) dt (read_bytes (byte ram) a 16)
      Hlatched Hop eq_refl Hj (length_flat_read _ _ _)) as Hw.
    eapply reaches_step; [exact (turn_acts _ _ _ _ _ ram' media _ _ _ Hw eq_refl) |].
    apply reaches_done. exists ram'. auto.
  - pose proof (acts_beat_fault l (at_ (Engine_WaitBeat dt) i j data (dt + 1) bt) dt AccessFault Hlatched eq_refl) as Hw.
    rewrite Hop in Hw. eapply reaches_step; [exact (turn_acts _ _ _ _ _ ram' media _ _ _ Hw eq_refl) |].
    apply reaches_done. exists ram'. auto.
Qed.

(** The beats of block [i] from [j] on: [k] are left. *)
Lemma write_beats mem i bt media k : forall j ram dt,
  (j + k = 32)%nat -> 0 <= i < l_count l ->
  (j <= fit (size (Ram.config ram)) (l_addr l + i * 512))%nat ->
  ram_ok ram -> (forall b, byte ram b = mem b) ->
  0 <= dt -> dt + Z.of_nat k < 2 ^ 64 -> in_u 64 bt ->
  let a := l_addr l + i * 512 in
  let f := fit (size (Ram.config ram)) a in
  reaches (2 * k) (mkSystem (at_ Engine_Issue i (Z.of_nat j) (read_bytes mem a (16 * j)) dt bt) ram media) due_issue
    (fun s due => exists ram' dt',
       ram_ok ram' /\ Ram.config ram' = Ram.config ram /\ (forall b, byte ram' b = mem b) /\
       dt <= dt' <= dt + Z.of_nat k /\
       (s, due) = if (f =? 32)%nat then (mkSystem (at_ Engine_Issue i 32 (read_bytes mem a 512) dt' bt) ram' media, due_issue)
                  else (mkSystem (ended DMA_FAULT dt' bt) ram' media, None)).
Proof.
  induction k as [|k IH]; intros j ram dt Hjk Hi Hf Hok Hmem Hdt Hdt' Hbt a f.
  all: pose proof (fit_le (size (Ram.config ram)) a) as Hf32; fold a in Hf; fold f in Hf, Hf32.
  - apply reaches_done. exists ram, dt. replace f with 32%nat by lia. cbn [Nat.eqb].
    split; [exact Hok |]. split; [reflexivity |]. split; [exact Hmem |]. split; [lia |].
    replace j with 32%nat by lia. reflexivity.
  - replace (2 * S k)%nat with (2 + 2 * k)%nat by lia.
    pose proof (write_beat (read_bytes mem a (16 * j)) i (Z.of_nat j) dt bt ram media Hi ltac:(lia)) as Hbeat.
    rewrite length_flat_read in Hbeat. cbn zeta in Hbeat. fold a in Hbeat. rewrite fit_spec in Hbeat by lia. fold f in Hbeat.
    rewrite (flat_read_ext (byte ram) mem) in Hbeat by exact Hmem.
    eapply reaches_seq; [apply Hbeat; try assumption; try lia |].
    { rewrite <- (flat_read_ext (byte ram) mem) by exact Hmem. apply ram_bytes_ok, Hok. }
    cbn beta. intros s due (ram' & Hok' & Hcfg & Hb & E). destruct (Nat.ltb_spec j f).
    + apply pair_eq in E as [-> ->]. replace (Z.of_nat j + 1) with (Z.of_nat (S j)) by lia.
      replace (read_bytes mem a (16 * j) ++ read_bytes mem (a + Z.of_nat j * 16) 16)
        with (read_bytes mem a (16 * S j)).
      2: { replace (16 * S j)%nat with (16 * j + 16)%nat by lia. rewrite read_bytes_app. do 2 f_equal. lia. }
      specialize (IH (S j) ram' (dt + 1)). cbn zeta in IH. rewrite Hcfg in IH. fold a in IH. fold f in IH.
      eapply reaches_mono; [apply IH; try assumption; try lia; intros b; rewrite Hb; apply Hmem |].
      cbn beta. intros s due (ram2 & dt2 & Hok2 & Hcfg2 & Hb2 & Hdt2 & E2).
      exists ram2, dt2. split; [exact Hok2 |]. split; [exact Hcfg2 |]. split; [exact Hb2 |]. split; [lia | exact E2].
    + apply pair_eq in E as [-> ->]. apply reaches_halted. exists ram', (dt + 1).
      replace f with j by lia. rewrite (proj2 (Nat.eqb_neq j 32)) by lia.
      split; [exact Hok' |]. split; [exact Hcfg |]. split; [intros b; rewrite Hb; apply Hmem |]. split; [lia | reflexivity].
Qed.

Lemma write_one rc mc mem :
  one_block (fun disk => holds rc mc mem disk)
    (fun i disk => write_block_from (size rc) mc mem disk (l_lba l + i) (l_addr l + i * 512)).
Proof.
  intros i disk dt bt ram media Hi [(Hok & Hrc & Hmem) (Hmok & Hmc & Hdisk)] Hdt Hdt' Hbt Hbt'.
  pose proof command_bounds as Hcb. assert (Hbu : in_u 64 bt) by (unfold in_u; lia).
  pose proof (write_beats mem i bt media 32 0 ram dt eq_refl Hi ltac:(lia) Hok Hmem Hdt ltac:(lia) Hbu) as Hbeats.
  cbn zeta in Hbeats. rewrite Hrc in Hbeats. unfold write_block_from.
  change 66%nat with (2 * 32 + 2)%nat. eapply reaches_seq; [exact Hbeats |].
  cbn beta. intros s due (ram' & dt' & Hok' & Hcfg & Hb & Hr & E).
  assert (Hram : ram_ok ram' /\ Ram.config ram' = rc /\ forall b, byte ram' b = mem b).
  { split; [exact Hok' |]. split; [congruence | exact Hb]. }
  destruct (fit (size rc) (l_addr l + i * 512) =? 32)%nat; cbn [negb]; apply pair_eq in E as [-> ->].
  2: { apply reaches_halted. exists ram', media, dt', bt. split; [split; auto |]. split; [lia | reflexivity]. }
  assert (Hdu : in_u 64 dt') by (unfold in_u; lia).
  assert (Hdata : bytes_ok (read_bytes mem (l_addr l + i * 512) 512)).
  { rewrite <- (flat_read_ext (byte ram') mem) by exact Hb. apply ram_bytes_ok, Hok'. }
  assert (Hst : dma_ok (at_ Engine_Issue i 32 (read_bytes mem (l_addr l + i * 512) 512) dt' bt)).
  { apply at_ok; try assumption. cbn [position_ok]. rewrite Hop, length_flat_read. split; [exact Hi |]. split; [lia | reflexivity]. }
  pose proof (acts_write_block l _ Phase_Request Hst Hlatched Hop eq_refl eq_refl Hbt') as Hissue.
  destruct (serve_write_block ram' media bt (l_lba l + i) (read_bytes mem (l_addr l + i * 512) 512) Hmok Hbu
    ltac:(unfold in_u; lia) Hdata (length_flat_read _ _ _)) as (media' & Hmok' & Hmcfg & Hload & e & Hserve).
  pose proof (turn_acts _ _ _ _ _ ram' media _ _ _ Hissue Hserve) as Hturn. rewrite Hmc in Hturn, Hload.
  eapply reaches_step; [exact Hturn |]. destruct (bad mc (l_lba l + i)); cbn [fst snd].
  - pose proof (acts_media_error l (at_ (Engine_WaitMedia bt) i 32 [] dt' (bt + 1)) bt e Hlatched eq_refl) as Hw.
    rewrite Hop in Hw. eapply reaches_step; [exact (turn_acts _ _ _ _ _ ram' media' _ _ _ Hw eq_refl) |].
    apply reaches_done. exists ram', media', dt', (bt + 1). split; [split; [exact Hram |] |split; [lia | reflexivity]].
    split; [exact Hmok' |]. split; [congruence |]. intros k. rewrite Hload. apply Hdisk.
  - assert (Hw : acts (Delivered_Message BLK_PORT (Message_Block (WriteResult bt BlockWrite_Done))) Phase_Complete
        (at_ (Engine_WaitMedia bt) i 32 [] dt' (bt + 1)) (fst (next_at i dt' (bt + 1)))
        (fun st => if i + 1 =? l_count l then st else wake_due st)).
    { unfold next_at. replace (fst _) with (if i + 1 =? l_count l then ended 0 dt' (bt + 1) else at_ Engine_Issue (i + 1) 0 [] dt' (bt + 1))
        by (destruct (i + 1 =? l_count l); reflexivity).
      exact (acts_block_written l (at_ (Engine_WaitMedia bt) i 32 [] dt' (bt + 1)) bt Hlatched Hop eq_refl Hi
        (proj2 (proj1 (proj2 Hcb)))). }
    eapply reaches_step; [exact (turn_acts _ _ _ _ _ ram' media' _ media' (snd (next_at i dt' (bt + 1))) Hw
      ltac:(unfold next_at; destruct (i + 1 =? l_count l); reflexivity)) |].
    apply reaches_done. exists ram', media', dt', (bt + 1). split; [split; [exact Hram |] | split; [lia | reflexivity]].
    split; [exact Hmok' |]. split; [congruence |]. intros k. rewrite Hload.
    case_bool_decide; [reflexivity | apply Hdisk].
Qed.
End write.
End command.

(** * The theorem *)

Section theorem.
Context `{MemClassify}.

Definition command_event (txn value : Z) : Delivered :=
  Delivered_Message MEM_PORT (Message_MemV1 (WriteReq txn COMMAND (to_le 4 value))).

(** A [COMMAND] write in IDLE. *)
Lemma acts_command d txn value ph :
  busy d = false -> done d = false -> in_u 32 value ->
  acts (command_event txn value) ph d
    match validate d value (lba d) (mem_addr d) (block_count d) with
    | Ok op => started (mkLatched op (lba d) (mem_addr d) (block_count d)) d
    | Err code => completed code d
    end
    (fun st => match validate d value (lba d) (mem_addr d) (block_count d) with Ok _ => wake_due st | Err _ => st end).
Proof.
  intros Hb Hd Hv. unfold acts, command_event. cbn [Dma.handle_event]. rewrite Z.eqb_refl. unfold request. wp_run.
  rewrite access_write, length_to_le. change (classify_doc COMMAND (Z.of_nat 4)) with (Bytes 0 3).
  cbn beta iota. change ((3 - 0 =? 3) && (0 mod 4 =? 0) && (0 <? SIZE)) with true. cbn iota. wp_run.
  unfold respond. rewrite length_to_le, (from_to_le_id 4 value) by exact Hv. cbn [Nat.eqb]. wp_run.
  unfold write_register. rewrite Z.eqb_refl. wp_run. unfold command. wp_run. rewrite Hb, Hd. cbn [orb]. wp_run.
  assert (Hsend : forall d' resp (f : Ram * SimpleBlockMedia * Due -> Ram * SimpleBlockMedia * Due) s,
    (exists log, s = (d', mkRecCtx ph log) /\ forall st, foldl serve st log = f st) ->
    wp (d ← self; call (ctx_send MEM_PORT (Message_MemV1 resp) (delay (Dma.latency (Dma.config d))) Phase_Complete))
      (fun _ s => exists log, s = (d', mkRecCtx ph log) /\ forall st, foldl serve st log = f st) (fun _ _ => False) s).
  { intros d' resp f s (log & -> & Hf). wp_run. eapply wp_call_rec; [reflexivity |].
    eexists. split; [reflexivity |]. intros st. cbn [rec_log rec_push]. rewrite foldl_app, Hf.
    destruct (f st) as [[? ?] ?]. reflexivity. }
  destruct (validate d value (lba d) (mem_addr d) (block_count d)) as [op|code]; cbn [is_ok].
  - wp_run. eapply wp_mono; [apply (wp_wake id) | | auto].
    + intros [[? ?] ?]. reflexivity.
    + cbn beta. intros _ s Hs. wp_run. apply (Hsend _ _ wake_due), Hs.
  - eapply wp_mono; [apply (wp_complete id) | | auto].
    + intros [[? ?] ?]. reflexivity.
    + cbn beta. intros _ s Hs. wp_run. apply (Hsend _ _ id), Hs.
Qed.

(** C2: the controller, wired to a RAM and a disk, executes its commands exactly: a
    [COMMAND] write in IDLE ends, within [1 + 66 * BLOCK_COUNT] events and whatever the value
    and the registers, in DONE with the interrupt line updated; a command that fails
    validation has its code and moves nothing; otherwise the memory, the disk and the code
    are those of [transfer]: a READ copies the blocks in order to consecutive addresses, a
    WRITE the other way, up to the first bad block (MEDIA_ERROR) or the first beat outside the
    RAM (DMA_FAULT), with everything before it moved and nothing else touched. *)
Theorem dma_transfer_exact (d : DmaBlockController) (ram : Ram) (media : SimpleBlockMedia) txn value :
  dma_ok d -> busy d = false -> done d = false -> ram_ok ram -> media_ok media -> in_u 32 value ->
  dma_txn d + 32 * block_count d < 2 ^ 64 -> blk_txn d + block_count d < 2 ^ 64 ->
  let '(mem, disk, code) :=
    match validate d value (lba d) (mem_addr d) (block_count d) with
    | Ok op => transfer (size (Ram.config ram)) (Media.config media)
                 (mkLatched op (lba d) (mem_addr d) (block_count d)) (byte ram) (Media.load media)
    | Err code => (byte ram, Media.load media, code)
    end in
  exists ram' media' dt bt,
    run (1 + 66 * Z.to_nat (block_count d)) (mkSystem d ram media) (Some (Phase_Transfer, command_event txn value)) =
      (mkSystem (completed code (set_blk_txn bt (set_dma_txn dt d))) ram' media', None) /\
    (ram_ok ram' /\ forall a, byte ram' a = mem a) /\ (media_ok media' /\ forall k, Media.load media' k = disk k).
Proof.
  intros Hok Hb Hd Hram Hmedia Hv Hdt Hbt.
  pose proof (acts_command d txn value Phase_Transfer Hb Hd Hv) as Hcmd.
  pose proof (ok_dma_txn d Hok) as Hdt0. pose proof (ok_blk_txn d Hok) as Hbt0.
  destruct (validate d value (lba d) (mem_addr d) (block_count d)) as [op|code] eqn:Ev.
  2: { exists ram, media, (dma_txn d), (blk_txn d).
    enough (Hr : reaches (1 + 66 * Z.to_nat (block_count d)) (mkSystem d ram media)
      (Some (Phase_Transfer, command_event txn value)) (fun s due => (s, due) = (mkSystem (completed code d) ram media, None))).
    { split; [|auto]. unfold reaches in Hr. destruct (run _ _ _). rewrite Hr. destruct d. reflexivity. }
    eapply reaches_step; [exact (turn_acts _ _ _ _ _ ram media _ _ _ Hcmd eq_refl) |]. apply reaches_halted. reflexivity. }
  apply validate_Ok in Ev as [_ Hlo]; try apply Hok.
  set (l := mkLatched op (lba d) (mem_addr d) (block_count d)) in *.
  pose proof (started_ok op d Hok Hb Hd Hlo) as Hok0. fold l in Hok0.
  assert (Hpos : exists n, block_count d = Z.of_nat (S n)).
  { destruct Hlo as (_ & H1 & _). cbn in H1. exists (Z.to_nat (block_count d - 1)). lia. }
  destruct Hpos as [n Hn]. unfold in_u in Hdt0, Hbt0.
  assert (Hstart : forall Q, reaches (66 * S n) (mkSystem (at_ (started l d) Engine_Issue 0 0 [] (dma_txn d) (blk_txn d)) ram media)
      (Some (Phase_Request, Delivered_Wake ISSUE)) Q ->
    reaches (1 + 66 * Z.to_nat (block_count d)) (mkSystem d ram media) (Some (Phase_Transfer, command_event txn value)) Q).
  { intros Q HQ. eapply reaches_step; [exact (turn_acts _ _ _ _ _ ram media _ _ _ Hcmd eq_refl) |].
    rewrite Hn, Nat2Z.id. replace (started l d) with (at_ (started l d) Engine_Issue 0 0 [] (dma_txn d) (blk_txn d)); [exact HQ |].
    pose proof (ok_position d Hok) as Hp. pose proof (ok_busy d Hok) as Hlb. rewrite Hb in Hlb. symmetry in Hlb.
    apply bool_decide_eq_false in Hlb. destruct (latched d); [contradict Hlb; discriminate |].
    destruct Hp as (_ & Hi & Hj & Hbuf). unfold at_, moved, started. dma_cbn. rewrite <- Hi at 1. rewrite <- Hj at 1. rewrite <- Hbuf at 1.
    reflexivity. }
  unfold transfer. change (l_op l) with op. change (l_lba l) with (lba d). change (l_addr l) with (mem_addr d). change (l_count l) with (block_count d).
  assert (Hh : holds (Ram.config ram) (Media.config media) (byte ram) (Media.load media) ram media) by (split; auto).
  destruct op.
  - pose proof (all_blocks (started l d) l _ _
      (read_one (started l d) l Hok0 eq_refl eq_refl (Ram.config ram) (Media.config media) (Media.load media))
      n 0 (byte ram) (dma_txn d) (blk_txn d) ram media ltac:(cbn; lia) ltac:(lia) Hh ltac:(lia) ltac:(lia) ltac:(lia) ltac:(lia)) as Hall.
    apply Hstart in Hall. rewrite Hn, Nat2Z.id in *. cbn [l_lba l_addr l] in Hall.
    destruct (each_block _ (S n) 0 (byte ram)) as [mem code]. unfold reaches in Hall. destruct (run _ _ _) as [s due].
    destruct Hall as (ram' & media' & dt & bt & [(? & _ & ?) (? & _ & ?)] & -> & ->). exists ram', media', dt, bt. auto.
  - pose proof (all_blocks (started l d) l _ _
      (write_one (started l d) l Hok0 eq_refl eq_refl (Ram.config ram) (Media.config media) (byte ram))
      n 0 (Media.load media) (dma_txn d) (blk_txn d) ram media ltac:(cbn; lia) ltac:(lia) Hh ltac:(lia) ltac:(lia) ltac:(lia) ltac:(lia)) as Hall.
    apply Hstart in Hall. rewrite Hn, Nat2Z.id in *. cbn [l_lba l_addr l] in Hall.
    destruct (each_block _ (S n) 0 (Media.load media)) as [disk code]. unfold reaches in Hall. destruct (run _ _ _) as [s due].
    destruct Hall as (ram' & media' & dt & bt & [(? & _ & ?) (? & _ & ?)] & -> & ->). exists ram', media', dt, bt. auto.
Qed.
End theorem.

(** * What the controller asks for *)

(** Beats are 16 bytes, aligned and inside the aperture; blocks are inside the capacity, and
    written whole; nothing else is sent on [dma] and [blk]. *)
Definition asks_ok (cfg : DmaBlockControllerConfig) (e : Effect) : Prop :=
  match e with
  | Sent port msg _ _ =>
      if port =? DMA_PORT then
        exists a, a mod 16 = 0 /\ dma_base cfg <= a /\ a + 16 <= dma_base cfg + dma_size cfg /\
          ((exists t, msg = Message_MemV1 (ReadReq t a 16)) \/
           (exists t data, msg = Message_MemV1 (WriteReq t a data) /\ length data = 16%nat))
      else if port =? BLK_PORT then
        exists b, 0 <= b < Dma.capacity_blocks cfg /\
          ((exists t, msg = Message_Block (ReadBlock t b)) \/
           (exists t data, msg = Message_Block (WriteBlock t b data) /\ length data = 512%nat))
      else True
  | _ => True
  end.

Section asks.
Context `{MemClassify} (cfg : DmaBlockControllerConfig).

Definition log_ok (s : DmaBlockController * RecCtx) : Prop := Forall (asks_ok cfg) (rec_log (snd s)).

(** A handler that asks for nothing it should not. *)
Definition asks {A} (m : ST (DmaBlockController * RecCtx) Failure A) : Prop :=
  forall s, log_ok s -> wp m (fun _ s => log_ok s) (fun _ s => log_ok s) s.

Lemma asks_bind {A B} (m : ST (DmaBlockController * RecCtx) Failure A) (f : A -> ST (DmaBlockController * RecCtx) Failure B) :
  asks m -> (forall a, asks (f a)) -> asks (m ≫= f).
Proof. intros Hm Hf s Hs. apply wp_bind. eapply wp_mono; [apply Hm, Hs | | auto]. cbn. intros a s' Hs'. apply Hf, Hs'. Qed.

Lemma asks_ret {A} (a : A) : asks (mret a).
Proof. intros s Hs. exact Hs. Qed.
Lemma asks_self : asks self.
Proof. intros s Hs. exact Hs. Qed.
Lemma asks_update f : asks (update f).
Proof. intros [d ctx] Hs. exact Hs. Qed.
Lemma asks_fault {A} what : asks (fault what : ST _ _ A).
Proof. intros s Hs. exact Hs. Qed.
Lemma asks_panic {A} what : asks (panic what : ST _ _ A).
Proof. intros s Hs. exact Hs. Qed.
Lemma asks_phase : asks phase_of_event.
Proof. intros s Hs. exact Hs. Qed.
Lemma asks_try {A} (r : result SimError A) : asks (try r).
Proof. intros s Hs. unfold wp, try. destruct r; exact Hs. Qed.
Lemma asks_trace k fields : asks (trace k fields).
Proof. intros [d ctx] Hs. unfold wp. cbn. apply Forall_app. split; [exact Hs |]. repeat constructor. Qed.
Lemma asks_wake when ph token : asks (call (ctx_wake_self when ph token)).
Proof. intros [d ctx] Hs. unfold wp. cbn. apply Forall_app. split; [exact Hs |]. repeat constructor. Qed.
Lemma asks_send port msg when ph : asks_ok cfg (Sent port msg when ph) -> asks (call (ctx_send port msg when ph)).
Proof. intros He [d ctx] Hs. unfold wp. cbn. apply Forall_app. split; [exact Hs |]. repeat constructor. exact He. Qed.

Create HintDb asks.
#[local] Hint Resolve asks_ret asks_self asks_update asks_fault asks_panic asks_phase asks_try asks_trace asks_wake : asks.

(** The handlers that send nothing on [dma] and [blk]. *)
Ltac quiet := repeat first
  [ solve [auto with asks]
  | apply asks_send; exact I
  | apply asks_bind; [|intros ?]
  | case_goal ].

Lemma asks_update_irq : asks update_irq.
Proof. unfold update_irq. quiet. Qed.
#[local] Hint Resolve asks_update_irq : asks.
Lemma asks_wake_next : asks wake_next_cycle.
Proof. unfold wake_next_cycle. quiet. Qed.
#[local] Hint Resolve asks_wake_next : asks.
Lemma asks_complete code : asks (complete code).
Proof. unfold complete. quiet. Qed.
#[local] Hint Resolve asks_complete : asks.
Lemma asks_command value : asks (command value).
Proof. unfold command. quiet. Qed.
#[local] Hint Resolve asks_command : asks.
Lemma asks_write_register offset value : asks (write_register offset value).
Proof. unfold write_register. quiet. Qed.
#[local] Hint Resolve asks_write_register : asks.
Lemma asks_request msg : asks (request msg).
Proof. unfold request, respond. quiet. Qed.
Lemma asks_next_block l : asks (next_block l).
Proof. unfold next_block. quiet. Qed.
Lemma asks_check_result txn expected : asks (check_result txn expected).
Proof. unfold check_result. quiet. Qed.
#[local] Hint Resolve asks_request asks_next_block asks_check_result : asks.
Lemma asks_media_result msg : asks (media_result msg).
Proof. unfold media_result. quiet. Qed.
Lemma asks_beat_result msg : asks (beat_result msg).
Proof. unfold beat_result, step_beat. quiet. Qed.

Lemma issue_asks (d : DmaBlockController) ctx :
  dma_ok d -> Dma.config d = cfg -> log_ok (d, ctx) ->
  wp issue (fun _ s => log_ok s) (fun _ s => log_ok s) (d, ctx).
Proof.
  intros Hok Hcfg Hs. unfold issue. wp_run.
  destruct (engine d) eqn:Ee; try exact Hs. destruct (latched d) as [l|] eqn:El; [|exact Hs].
  pose proof (position_of d l Hok El) as (Hi & Hj & Hp). rewrite Ee in Hp.
  pose proof (ok_latched d Hok l El) as (H1 & H2 & H3 & H4 & H5 & H6). rewrite Hcfg in *.
  assert (Hblk : forall msg, ((exists t, msg = ReadBlock t (l_lba l + block d)) \/
      (exists t data, msg = WriteBlock t (l_lba l + block d) data /\ length data = 512%nat)) -> asks (send_block msg)).
  { intros msg Hm. unfold send_block. quiet. apply asks_send. cbn. exists (l_lba l + block d). split; [lia |].
    destruct Hm as [[t ->]|(t & data & -> & ?)]; eauto 6. }
  assert (Hdma : beat d < 32 -> forall msg, ((exists t, msg = ReadReq t (l_addr l + block d * 512 + beat d * 16) 16) \/
      (exists t data, msg = WriteReq t (l_addr l + block d * 512 + beat d * 16) data /\ length data = 16%nat)) -> asks (send_beat msg)).
  { intros Hj' msg Hm. unfold send_beat. quiet. apply asks_send. cbn. exists (l_addr l + block d * 512 + beat d * 16).
    split; [Z.div_mod_to_equations; lia |]. split; [lia |]. split; [lia |].
    destruct Hm as [[t ->]|(t & data & -> & ?)]; eauto 6. }
  destruct (l_op l).
  - case_bool_decide as Hb.
    + rewrite (block_lba_ok d l Hok El). wp_run. apply Hblk; eauto.
    + rewrite (beat_addr_ok d l Hok El). wp_run. destruct Hp as [Hj' [Hf|[? ?]]]; [|contradiction].
      destruct (Nat.ltb_spec (length (buffer d)) (Z.to_nat (beat d * BEAT_SIZE) + Z.to_nat BEAT_SIZE)); [exact Hs |].
      apply Hdma; [exact Hj' | | exact Hs]. right. do 2 eexists. split; [reflexivity |].
      rewrite length_take, length_drop. change (Z.to_nat BEAT_SIZE) with 16%nat in *. lia.
  - destruct (Z.eqb_spec (beat d) BEATS_PER_BLOCK) as [Eb|Eb]; change BEATS_PER_BLOCK with 32 in Eb.
    + rewrite (block_lba_ok d l Hok El). wp_run. eapply wp_mono; [apply Hblk; [|exact Hs] | | auto].
      * right. do 2 eexists. split; [reflexivity |]. lia.
      * cbn beta. intros _ [d' ctx'] Hs'. exact Hs'.
    + rewrite (beat_addr_ok d l Hok El). wp_run. apply Hdma; [lia | | exact Hs]. left. eauto.
Qed.

Lemma event_asks ev (d : DmaBlockController) ctx :
  dma_ok d -> Dma.config d = cfg -> log_ok (d, ctx) ->
  wp (Dma.handle_event ev) (fun _ s => log_ok s) (fun _ s => log_ok s) (d, ctx).
Proof.
  intros Hok Hcfg Hs. destruct ev as [port [m|m|m|m]|token]; cbn [Dma.handle_event]; repeat case_if; try exact Hs.
  - apply asks_request, Hs.
  - apply asks_beat_result, Hs.
  - apply asks_media_result, Hs.
  - apply issue_asks; assumption.
Qed.

(** A run of events, errors included, each in its phase. *)
Fixpoint events (d : DmaBlockController) (log : list Effect) (evs : list (Phase * Delivered)) :
    DmaBlockController * list Effect :=
  match evs with
  | [] => (d, log)
  | (ph, ev) :: evs =>
      let '((d, ctx), _) := Dma.handle_event ev (d, mkRecCtx ph log) in events d (rec_log ctx) evs
  end.

(** C24: whatever software writes to the registers, whatever events arrive and in whatever
    order, the controller never asks for memory outside its DMA aperture nor for a block
    outside its capacity: every request on [dma] is one aligned 16-byte beat inside the
    aperture, every request on [blk] one block inside the capacity, and nothing else is sent
    on those ports. *)
Theorem dma_stays_in_aperture d evs :
  in_u 32 (clock cfg) -> latency_ok (Dma.latency cfg) -> 0 <= Dma.capacity_blocks cfg -> 0 <= dma_base cfg ->
  0 <= dma_size cfg -> Dma.new cfg = Ok d -> Forall (fun e => event_ok (snd e)) evs ->
  Forall (asks_ok cfg) (snd (events d [] evs)).
Proof.
  intros Hc Hl Hcap Hb Hs Hnew Hevs. assert (Hok : dma_ok d) by (eapply dma_new_ok; eassumption).
  assert (Hcfg : Dma.config d = cfg).
  { unfold Dma.new in Hnew. repeat case_hyp Hnew; try discriminate Hnew. injection Hnew as <-. reflexivity. }
  assert (Hlog : Forall (asks_ok cfg) []) by constructor. clear Hnew. revert d Hok Hcfg Hlog. generalize (@nil Effect) as log.
  induction Hevs as [|[ph ev] evs Hev _ IH]; intros log d Hok Hcfg Hlog; [exact Hlog |]. cbn [events].
  pose proof (dma_event_settles d (mkRecCtx ph log) ev Hok Hev) as Hset.
  pose proof (event_asks ev d (mkRecCtx ph log) Hok Hcfg Hlog) as Hask. unfold wp in Hask.
  destruct (Dma.handle_event ev (d, mkRecCtx ph log)) as [[d' ctx'] r] eqn:E.
  destruct (settles_panic_free _ _ _ _ _ _ _ Hset E) as [[Hok' Hcfg'] _].
  apply IH; [exact Hok' | congruence |]. destruct r; exact Hask.
Qed.
End asks.

(** * Witnesses *)

#[local] Existing Instance documented_classify.

(** The example controller's READ of one block, against the example RAM and disk. *)
Lemma dma_transfer_exact_witness :
  let '(mem, disk, code) :=
    transfer (size (Ram.config example_ram)) (Media.config example_media) (mkLatched Operation_Read 3 0x800 1)
      (byte example_ram) (Media.load example_media) in
  exists ram' media' dt bt,
    run (1 + 66 * 1) (mkSystem example_dma example_ram example_media) (Some (Phase_Transfer, command_event 5 1)) =
      (mkSystem (completed code (set_blk_txn bt (set_dma_txn dt example_dma))) ram' media', None) /\
    (ram_ok ram' /\ forall a, byte ram' a = mem a) /\ (media_ok media' /\ forall k, Media.load media' k = disk k).
Proof.
  exact (dma_transfer_exact example_dma example_ram example_media 5 1 example_dma_ok eq_refl eq_refl
    example_ram_ok example_media_ok ltac:(const_range) ltac:(cbn; lia) ltac:(cbn; lia)).
Defined.

Lemma dma_stays_in_aperture_witness :
  Forall (asks_ok Dma.example_config)
    (snd (events (Dma.mkDma Dma.example_config 0 0 0 0 false false false 0 None Engine_Idle 0 0 [] 0 0 false) []
      [(Phase_Transfer, command_event 5 1); (Phase_Request, Delivered_Wake ISSUE)])).
Proof.
  apply (dma_stays_in_aperture Dma.example_config); [const_range | split; const_range | cbn; lia | cbn; lia | cbn; lia | reflexivity |].
  constructor; [|constructor; [exact I | constructor]].
  cbn. split; [const_range |]. split; [const_range |]. repeat (constructor; [const_range |]). constructor.
Defined.
