(* ===== verification/Session.v ===== *)
(** What the runtime uses of the [systemscope-contracts] crate, beyond [Contracts]: the
    [Component] and [Observer] traits, the time model, the canonical encoding of events and the
    records of a trace.

    The traits are classes.  A component's handlers are polymorphic in the context they run in,
    as a Rust handler over [&mut dyn SimContext] is: all they can do with the context is call
    it.  [uniform] says so, as a relation between the runs in two contexts, and
    [UniformComponent] asks it of a component ([docs/m0-design.md] §5: a component reaches the
    session through its context only).  [TypedComponent] is the other side: handlers keep the
    component's invariant and call the context with values of the types it asks for.
    [PersistentComponent] is the snapshot contract.  The rest are parameters with documented
    laws: [Clocks] (§3), [Protocols] (§6), [Canonical] (§4.5), [Blake3]. *)
From stdpp Require Import base numbers list option strings.
From Stdlib Require Import ZArith Lia.
From S2P Require Import Prelude Contracts Handlers Snapshots.

Local Open Scope string_scope.
Local Open Scope list_scope.
Local Open Scope Z_scope.

(** * Data *)

Inductive Role : Set := Role_Initiator | Role_Target.

Record PortSpec : Set := mkPortSpec {
  port_name : string; port_protocol : ProtocolId; port_role : Role }.

#[export] Instance Role_eq_dec : EqDecision Role.
Proof. solve_decision. Defined.
#[export] Instance PortSpec_eq_dec : EqDecision PortSpec.
Proof. solve_decision. Defined.

(** [ComponentId::RUNTIME], [u32::MAX]. *)
Definition RUNTIME : Z := 2 ^ 32 - 1.

(** [canonical::CanonicalEvent]. *)
Record CanonicalEvent : Set := mkCanonicalEvent {
  ev_key : EventKey; ev_source : Z; ev_target : Z; ev_delivery : Delivered }.

#[export] Instance CanonicalEvent_eq_dec : EqDecision CanonicalEvent.
Proof. solve_decision. Defined.

Inductive TraceAt : Set := At_Init | At_Event (key : EventKey).
Inductive TraceOrigin : Set := Origin_Component | Origin_Runtime.

Record TraceRecord : Set := mkTraceRecord {
  rec_at : TraceAt; rec_origin : TraceOrigin; rec_component : Z; rec_kind : string;
  rec_fields : list (string * Value) }.

#[export] Instance TraceAt_eq_dec : EqDecision TraceAt.
Proof. solve_decision. Defined.
#[export] Instance TraceOrigin_eq_dec : EqDecision TraceOrigin.
Proof. solve_decision. Defined.
#[export] Instance TraceRecord_eq_dec : EqDecision TraceRecord.
Proof. solve_decision. Defined.

Definition DISPATCH_KIND : string := "runtime.dispatch".

Record ComponentDecl : Set := mkComponentDecl {
  decl_path : string; decl_type_name : string; decl_ports : list PortSpec }.

Record LinkDecl : Set := mkLinkDecl {
  link_a : Z * Z; link_b : Z * Z; link_latency : option LinkLatency }.

#[export] Instance ComponentDecl_eq_dec : EqDecision ComponentDecl.
Proof. solve_decision. Defined.
#[export] Instance LinkDecl_eq_dec : EqDecision LinkDecl.
Proof. solve_decision. Defined.

Inductive Rounding : Set := Rounding_Floor | Rounding_Ceil.
Record Frequency : Set := mkFrequency { freq_num : Z; freq_den : Z }.

(** * Values of the Rust types *)

Definition mem_v0_ok (m : MemMsgV0) : Prop :=
  match m with
  | V0_ReadReq txn addr len => in_u 64 txn /\ in_u 64 addr /\ in_u 32 len
  | V0_ReadResp txn data => in_u 64 txn /\ bytes_ok data
  | V0_WriteReq txn addr data => in_u 64 txn /\ in_u 64 addr /\ bytes_ok data
  | V0_WriteResp txn => in_u 64 txn
  end.

Definition message_ok (m : Message) : Prop :=
  match m with
  | Message_Mem m => mem_v0_ok m
  | Message_MemV1 m => mem_msg_ok m
  | Message_Irq _ => True
  | Message_Block m => block_msg_ok m
  end.

Definition delivery_ok (d : Delivered) : Prop :=
  match d with
  | Delivered_Message port msg => in_u 16 port /\ message_ok msg
  | Delivered_Wake token => in_u 64 token
  end.

Definition key_ok (k : EventKey) : Prop := in_u 64 (tick k) /\ in_u 64 (sequence k).

Definition event_ok (ev : CanonicalEvent) : Prop :=
  key_ok (ev_key ev) /\ in_u 32 (ev_source ev) /\ in_u 32 (ev_target ev) /\
  delivery_ok (ev_delivery ev).

(** The lengths the canonical encoding holds in a [u32]. *)
Definition message_fits (m : Message) : Prop :=
  match m with
  | Message_Mem (V0_ReadResp _ data) | Message_Mem (V0_WriteReq _ _ data)
  | Message_MemV1 (ReadResp _ (ReadOutcome_Data data)) | Message_MemV1 (WriteReq _ _ data)
  | Message_Block (WriteBlock _ _ data) | Message_Block (ReadResult _ (BlockRead_Data data)) =>
      in_u 32 (Z.of_nat (length data))
  | _ => True
  end.

Definition delivery_fits (d : Delivered) : Prop :=
  match d with Delivered_Message _ m => message_fits m | Delivered_Wake _ => True end.

(** * The time model *)

(** [SimulationClock] and [ClockDomain]: a delay is never negative and a tick is a [u64]. *)
Class Clocks := {
  SimulationClock : Type;
  ClockDomain : Type;
  ClockDomain_eq_dec :: EqDecision ClockDomain;
  ticks_per_second : SimulationClock -> Z;
  clock_after : SimulationClock -> Z -> Z -> result TimeError Z;
  cycles_after : ClockDomain -> Z -> Z -> result TimeError Z;
  new_domain : SimulationClock -> Z -> Frequency -> Z -> Rounding -> result TimeError ClockDomain;
  (** id, numerator, denominator, offset and rounding, as the header and the snapshots hold
      them ([docs/m0-design.md] §8.1) *)
  domain_tuple : ClockDomain -> Z * Z * Z * Z * Z;
  ticks_per_second_range : forall c, in_u 64 (ticks_per_second c);
  clock_after_range : forall c now d t,
    in_u 64 now -> clock_after c now d = Ok t -> in_u 64 t;
  cycles_after_range : forall c now k t,
    in_u 64 now -> cycles_after c now k = Ok t -> in_u 64 t;
  domain_tuple_range : forall c, let '(id, num, den, offset, rounding) := domain_tuple c in
    in_u 32 id /\ in_u 64 num /\ in_u 64 den /\ in_u 64 offset /\ 0 <= rounding <= 1;
}.

(** * Protocols, hashes and encodings *)

(** [Message::protocol]. *)
Class Protocols := {
  protocol : Message -> ProtocolId;
  protocol_mem_v0 : forall m, protocol (Message_Mem m) = mem_v0_PROTOCOL;
  protocol_mem_v1 : forall m, protocol (Message_MemV1 m) = mem_v1_PROTOCOL;
  protocol_irq : forall m, protocol (Message_Irq m) = irq_v0_PROTOCOL;
  protocol_block : forall m, protocol (Message_Block m) = block_v0_PROTOCOL;
}.

(** [blake3::hash] (32 bytes) and [blake3::derive_key]. *)
Class Blake3 := {
  hash : list Z -> list Z;
  derive_key : string -> list Z -> list Z;
  hash_range : forall bs, bytes_ok (hash bs) /\ length (hash bs) = 32%nat;
  derive_key_range : forall ctx bs, bytes_ok (derive_key ctx bs);
}.

(** [CONTRACTS_VERSION], [encode_topology], and the canonical encodings of keys and events. *)
Class Canonical `{SnapshotCodec} := {
  CONTRACTS_VERSION : string;
  encode_topology : list ComponentDecl -> list LinkDecl -> list Z;
  put_key : EventKey -> list Z;
  get_key : list Z -> result decode_error (EventKey * list Z);
  put_event : CanonicalEvent -> list Z;
  get_event : list Z -> result decode_error (CanonicalEvent * list Z);
  (** [Decoder::finish]: nothing is left *)
  trailing_bytes : decode_error;
  contracts_version_ascii : ascii_str CONTRACTS_VERSION;
  get_put_key : forall k r, key_ok k -> get_key (put_key k ++ r) = Ok (k, r);
  get_put_event : forall ev r, event_ok ev -> delivery_fits (ev_delivery ev) ->
    get_event (put_event ev ++ r) = Ok (ev, r);
}.

Definition put_domain `{SnapshotCodec} (d : Z * Z * Z * Z * Z) : list Z :=
  let '(id, num, den, offset, rounding) := d in
  put_u32 id ++ put_u64 num ++ put_u64 den ++ put_u64 offset ++ put_u8 rounding.

(** [encode_clock_domains]: the sequence of the domains' fields ([docs/m0-design.md] §8.1). *)
Class DomainCodec `{SnapshotCodec, Clocks} := {
  encode_clock_domains : list ClockDomain -> list Z;
  encode_clock_domains_doc : forall ds,
    encode_clock_domains ds = put_len (Z.of_nat (length ds)) ++ ((domain_tuple <$> ds) ≫= put_domain);
}.

(** * Contexts, related *)

(** Two contexts that a handler cannot tell apart: related contexts answer every call alike
    and stay related. *)
Record ctx_rel {C D} `{SimContext C, SimContext D} (R : C -> D -> Prop) : Prop := {
  rel_component : forall c d, R c d -> ctx_component c = ctx_component d;
  rel_now : forall c d, R c d -> ctx_now c = ctx_now d;
  rel_phase : forall c d, R c d -> ctx_phase c = ctx_phase d;
  rel_next_u64 : forall c d, R c d ->
    R (fst (ctx_next_u64 c)) (fst (ctx_next_u64 d)) /\
    snd (ctx_next_u64 c) = snd (ctx_next_u64 d);
  rel_send : forall port msg when ph c d, R c d ->
    R (fst (ctx_send port msg when ph c)) (fst (ctx_send port msg when ph d)) /\
    snd (ctx_send port msg when ph c) = snd (ctx_send port msg when ph d);
  rel_wake_self : forall when ph token c d, R c d ->
    R (fst (ctx_wake_self when ph token c)) (fst (ctx_wake_self when ph token d)) /\
    snd (ctx_wake_self when ph token c) = snd (ctx_wake_self when ph token d);
  rel_trace : forall kind fields c d, R c d ->
    R (ctx_trace kind fields c) (ctx_trace kind fields d);
}.

(** A handler that does the same in two contexts it cannot tell apart. *)
Definition same_run {S C D A} (R : C -> D -> Prop) (m : ST (S * C) Failure A)
    (n : ST (S * D) Failure A) : Prop :=
  forall s c d, R c d ->
    R (snd (fst (m (s, c)))) (snd (fst (n (s, d)))) /\
    fst (fst (m (s, c))) = fst (fst (n (s, d))) /\ snd (m (s, c)) = snd (n (s, d)).

Definition uniform {S A} (m : forall C `{SimContext C}, ST (S * C) Failure A) : Prop :=
  forall C D `(SimContext C) `(SimContext D) (R : C -> D -> Prop), ctx_rel R ->
    same_run R (m C) (m D).

(** A property of contexts that calls with values of the right types keep. *)
Record ctx_keeps {C} `{SimContext C} (P : C -> Prop) : Prop := {
  keeps_next_u64 : forall c, P c -> P (fst (ctx_next_u64 c));
  keeps_send : forall port msg when ph c, message_ok msg -> P c -> P (fst (ctx_send port msg when ph c));
  keeps_wake_self : forall when ph token c, in_u 64 token -> P c -> P (fst (ctx_wake_self when ph token c));
  keeps_trace : forall kind fields c, P c -> P (ctx_trace kind fields c);
}.

(** * Random draws *)

(** [SimRng::below] and [SimRng::chance] of the component's stream ([docs/m0-design.md] §5.2):
    [below n] is uniform in [0..n] and only draws with [next_u64]; [chance] is a [below]. *)
Class SimRng := {
  below : Z -> forall C `{SimContext C}, C -> C * Z;
  chance : Z -> Z -> forall C `{SimContext C}, C -> C * bool;
  below_range : forall n C `(SimContext C) c, 0 < n -> 0 <= snd (below n C c) < n;
  below_rel : forall n C D `(SimContext C) `(SimContext D) (R : C -> D -> Prop) c d,
    ctx_rel R -> R c d ->
    R (fst (below n C c)) (fst (below n D d)) /\ snd (below n C c) = snd (below n D d);
  below_keeps : forall n C `(SimContext C) (P : C -> Prop) c,
    (forall c, P c -> P (fst (ctx_next_u64 c))) -> P c -> P (fst (below n C c));
  chance_doc : forall num den C `(SimContext C) c,
    chance num den C c = (fst (below den C c), snd (below den C c) <? num);
}.

(** * Messages of [mem.v0] in snapshots *)

Definition mem_v0_len_ok (m : MemMsgV0) : Prop :=
  match m with
  | V0_ReadResp _ data | V0_WriteReq _ _ data => in_u 32 (Z.of_nat (length data))
  | _ => True
  end.

(** [mem::MemMsg::encode] and [decode] ([docs/m0-design.md] §4.5). *)
Class MemV0Codec `{SnapshotCodec} := {
  put_mem_v0 : MemMsgV0 -> list Z;
  get_mem_v0 : list Z -> result decode_error (MemMsgV0 * list Z);
  get_put_mem_v0 : forall m r, mem_v0_ok m -> mem_v0_len_ok m -> get_mem_v0 (put_mem_v0 m ++ r) = Ok (m, r);
  get_mem_v0_range : forall bs m r, bytes_ok bs -> get_mem_v0 bs = Ok (m, r) ->
    (mem_v0_ok m /\ mem_v0_len_ok m) /\ bytes_ok r;
  put_mem_v0_bytes : forall m, mem_v0_ok m -> bytes_ok (put_mem_v0 m);
}.

(** * Components *)

Class Component `{SnapshotCodec} (B : Type) := {
  type_name : B -> string;
  ports : B -> list PortSpec;
  component_init : forall C `{SimContext C}, ST (B * C) Failure unit;
  component_handle : Delivered -> forall C `{SimContext C}, ST (B * C) Failure unit;
  snapshot_schema_version : B -> Z;
  component_snapshot : B -> list Z;
  component_restore : B -> Z -> ST (list Z) RestoreError B;
}.

Class UniformComponent `{SnapshotCodec} (B : Type) `{!Component B} : Prop := {
  init_uniform : uniform (S := B) (fun C _ => component_init C);
  handle_uniform : forall ev, uniform (S := B) (fun C _ => component_handle ev C);
}.

(** The invariant of a component, and its configuration, which no event changes.  A component
    that meets its invariant keeps it, does not panic, and keeps whatever well-typed calls of the
    context keep.  A component whose handler fails is not used again (the session faults), so only
    its configuration is kept. *)
Class TypedComponent `{SnapshotCodec} (B : Type) `{!Component B} := {
  component_ok : B -> Prop;
  same_config : B -> B -> Prop;
  same_config_equivalence :: Equivalence same_config;
  same_ports : forall b b', same_config b b' -> ports b = ports b' /\ type_name b = type_name b' /\
    snapshot_schema_version b = snapshot_schema_version b';
  init_typed : forall C `(SimContext C) (P : C -> Prop) b c, ctx_keeps P -> component_ok b -> P c ->
    wp (component_init C) (fun _ '(b', c') => component_ok b' /\ same_config b b' /\ P c')
      (fun e '(b', c') => (exists e', e = Fails e') /\ same_config b b' /\ P c') (b, c);
  handle_typed : forall ev C `(SimContext C) (P : C -> Prop) b c,
    delivery_ok ev -> ctx_keeps P -> component_ok b -> P c ->
    wp (component_handle ev C) (fun _ '(b', c') => component_ok b' /\ same_config b b' /\ P c')
      (fun e '(b', c') => (exists e', e = Fails e') /\ same_config b b' /\ P c') (b, c);
}.

(** What a component writes restores it: [snapshot_fits] are the lengths its encoding holds
    in a [u32]. *)
Class PersistentComponent `{SnapshotCodec} (B : Type) `{!Component B, !TypedComponent B} := {
  snapshot_fits : B -> Prop;
  schema_range : forall b, in_u 32 (snapshot_schema_version b);
  snapshot_bytes : forall b, component_ok b -> snapshot_fits b -> bytes_ok (component_snapshot b);
  restore_snapshot : forall b b', component_ok b -> component_ok b' -> same_config b b' -> snapshot_fits b' ->
    reads (component_restore b (snapshot_schema_version b')) (component_snapshot b') b';
}.

(** * Observers *)

Inductive Control : Set := Control_Continue | Control_Pause.

#[export] Instance Control_eq_dec : EqDecision Control.
Proof. solve_decision. Defined.

(** [WorldView]: the time and the components, to look at. *)
Class Observer (B O : Type) := {
  on_after_dispatch : CanonicalEvent -> Z -> list B -> O -> O * Control;
  on_observe : Z -> Z -> list B -> O -> O * Control;
  on_trace : TraceRecord -> O -> O;
}.
