(* ===== verification/Components.v ===== *)
(** Rules for the contracts of [Session]: what the components of a session prove to be used by
    it, and the session's components as a sum.

    [same_run] has a rule for each step a handler is made of, and so does keeping a property
    of the context: a component proves [UniformComponent] by running its handler in two
    contexts at once ([uniform_run]) and [TypedComponent] by running it once with the rules
    [wp_sends], [wp_wakes], [wp_draw], [wp_note].  [Vec<Box<dyn Component>>] of two types is a list of their
    sum, which satisfies every contract both satisfy. *)
From stdpp Require Import base numbers list option strings.
From Stdlib Require Import ZArith Lia.
From S2P Require Import Prelude Contracts Handlers Snapshots Session.

Local Open Scope string_scope.
Local Open Scope list_scope.
Local Open Scope Z_scope.

(** * Draws, as steps of a handler *)

Section draws.
Context {S C : Type} `{SimContext C, SimRng}.

Local Abbreviation M := (ST (S * C) Failure).

Definition draw {A} (f : C -> C * A) : M A :=
  fun '(s, ctx) => let '(ctx, a) := f ctx in ((s, ctx), Ok a).
Definition draw_u64 : M Z := draw ctx_next_u64.
Definition draw_below (n : Z) : M Z := draw (below n C).
Definition draw_chance (num den : Z) : M bool := draw (chance num den C).

(** [x + 1] of a [u64], which panics on overflow. *)
Definition incr (x : Z) : M Z :=
  match checked_add 64 x 1 with Some y => mret y | None => panic "attempt to add with overflow" end.
End draws.

(** * The same run in two contexts *)

Section same_run.
Context {S C D : Type} `{SimContext C, SimContext D} {R : C -> D -> Prop} (HR : ctx_rel R).

Local Abbreviation MC := (ST (S * C) Failure).
Local Abbreviation MD := (ST (S * D) Failure).

Lemma run_ret {A} (a : A) : same_run R (mret a : MC A) (mret a : MD A).
Proof. intros s c d Hr. auto. Qed.

Lemma run_bind {A B} (m : MC A) (n : MD A) (f : A -> MC B) (g : A -> MD B) :
  same_run R m n -> (forall a, same_run R (f a) (g a)) ->
  same_run R (mbind (M := MC) f m) (mbind (M := MD) g n).
Proof.
  intros Hm Hf s c d Hr. rewrite !ST_bind_unfold. destruct (Hm s c d Hr) as (H1' & H2' & H3').
  destruct (m (s, c)) as [[s1 c1] [a|e]], (n (s, d)) as [[s2 d1] [a2|e2]]; cbn in *; simplify_eq; [|auto].
  apply Hf, H1'.
Qed.

Lemma run_fail {A} e : same_run R (st_fail e : MC A) (st_fail e : MD A).
Proof. intros s c d Hr. auto. Qed.

Lemma run_self : same_run R (self : MC S) self.
Proof. intros s c d Hr. auto. Qed.

Lemma run_update f : same_run R (update f : MC unit) (update f).
Proof. intros s c d Hr. auto. Qed.

Lemma run_try {A} (r : result SimError A) : same_run R (try r : MC A) (try r).
Proof. intros s c d Hr. auto. Qed.

Lemma run_phase : same_run R (phase_of_event : MC Phase) phase_of_event.
Proof. intros s c d Hr. cbn. rewrite (rel_phase _ HR _ _ Hr). auto. Qed.

Lemma run_trace k fs : same_run R (trace k fs : MC unit) (trace k fs).
Proof. intros s c d Hr. cbn. split; [apply (rel_trace _ HR), Hr | auto]. Qed.

Lemma run_call f g :
  (forall c d, R c d -> R (fst (f c)) (fst (g d)) /\ snd (f c) = snd (g d)) ->
  same_run R (call f : MC unit) (call g).
Proof.
  intros Hfg s c d Hr. unfold call. destruct (Hfg c d Hr) as [H1' H2'].
  destruct (f c), (g d). cbn in *. subst. auto.
Qed.

Lemma run_draw {A} (f : C -> C * A) g :
  (forall c d, R c d -> R (fst (f c)) (fst (g d)) /\ snd (f c) = snd (g d)) ->
  same_run R (draw f : MC A) (draw g).
Proof.
  intros Hfg s c d Hr. unfold draw. destruct (Hfg c d Hr) as [H1' H2'].
  destruct (f c), (g d). cbn in *. subst. auto.
Qed.

Lemma run_send port msg when ph : same_run R (call (ctx_send port msg when ph) : MC unit) (call (ctx_send port msg when ph)).
Proof. apply run_call. intros c d Hr. apply (rel_send _ HR), Hr. Qed.

Lemma run_wake when ph token : same_run R (call (ctx_wake_self when ph token) : MC unit) (call (ctx_wake_self when ph token)).
Proof. apply run_call. intros c d Hr. apply (rel_wake_self _ HR), Hr. Qed.

Lemma run_u64 : same_run R (draw_u64 : MC Z) draw_u64.
Proof. apply run_draw. intros c d Hr. apply (rel_next_u64 _ HR), Hr. Qed.

Lemma run_below `{SimRng} n : same_run R (draw_below n : MC Z) (draw_below n).
Proof. apply run_draw. intros c d Hr. apply below_rel; [exact HR | exact Hr]. Qed.

Lemma run_chance `{SimRng} num den : same_run R (draw_chance num den : MC bool) (draw_chance num den).
Proof.
  apply run_draw. intros c d Hr. rewrite !chance_doc. cbn.
  destruct (below_rel den C D _ _ R c d HR Hr) as [? ->]. auto.
Qed.
End same_run.

(** One step of a handler in two contexts. *)
Ltac run_step :=
  lazymatch goal with
  | |- forall _, _ => intro
  | |- same_run _ (mbind _ _) (mbind _ _) => apply run_bind
  | |- same_run _ (mret _) _ => apply run_ret
  | |- same_run _ (st_fail _) _ => apply run_fail
  | |- same_run _ (fault _) _ => apply run_fail
  | |- same_run _ (panic _) _ => apply run_fail
  | |- same_run _ self _ => apply run_self
  | |- same_run _ (update _) _ => apply run_update
  | |- same_run _ (try _) _ => apply run_try
  | |- same_run _ phase_of_event _ => apply run_phase; assumption
  | |- same_run _ (trace _ _) _ => apply run_trace; assumption
  | |- same_run _ (call (ctx_send _ _ _ _)) _ => apply run_send; assumption
  | |- same_run _ (call (ctx_wake_self _ _ _)) _ => apply run_wake; assumption
  | |- same_run _ draw_u64 _ => apply run_u64; assumption
  | |- same_run _ (draw_below _) _ => apply run_below; assumption
  | |- same_run _ (draw_chance _ _) _ => apply run_chance; assumption
  | |- same_run _ (incr _) _ => unfold incr
  | |- same_run _ (match ?x with _ => _ end) _ => destruct x
  end.

Ltac uniform_run := repeat (run_step; cbn beta iota zeta).

(** * Keeping a property of the context *)

Section keeps.
Context {S C : Type} `{SimContext C} {P : C -> Prop} (HP : ctx_keeps P).

Local Abbreviation M := (ST (S * C) Failure).

Lemma wp_sends port msg when ph Q X s ctx :
  message_ok msg -> P ctx -> (forall ctx', P ctx' -> Q tt (s, ctx')) ->
  (forall e ctx', P ctx' -> X (Fails e) (s, ctx')) ->
  wp (call (ctx_send port msg when ph) : M unit) Q X (s, ctx).
Proof.
  intros Hm Hc HQ HX. unfold wp, call. pose proof (keeps_send _ HP port msg when ph ctx Hm Hc) as Hk.
  destruct (ctx_send _ _ _ _ _) as [ctx' [[]|e]]; cbn in *; auto.
Qed.

Lemma wp_wakes when ph token Q X s ctx :
  in_u 64 token -> P ctx -> (forall ctx', P ctx' -> Q tt (s, ctx')) ->
  (forall e ctx', P ctx' -> X (Fails e) (s, ctx')) ->
  wp (call (ctx_wake_self when ph token) : M unit) Q X (s, ctx).
Proof.
  intros Hm Hc HQ HX. unfold wp, call. pose proof (keeps_wake_self _ HP when ph token ctx Hm Hc) as Hk.
  destruct (ctx_wake_self _ _ _ _) as [ctx' [[]|e]]; cbn in *; auto.
Qed.

Lemma wp_note k fs Q X s ctx :
  P ctx -> (forall ctx', P ctx' -> Q tt (s, ctx')) -> wp (trace k fs : M unit) Q X (s, ctx).
Proof. intros Hc HQ. apply HQ, (keeps_trace _ HP), Hc. Qed.

Lemma wp_u64 Q X s ctx :
  P ctx -> (forall x ctx', P ctx' -> Q x (s, ctx')) -> wp (draw_u64 : M Z) Q X (s, ctx).
Proof.
  intros Hc HQ. unfold wp, draw_u64, draw. pose proof (keeps_next_u64 _ HP ctx Hc) as Hk.
  destruct (ctx_next_u64 ctx) as [ctx' x]. apply HQ, Hk.
Qed.

Lemma wp_below `{SimRng} n Q X s ctx :
  0 < n -> P ctx -> (forall x ctx', 0 <= x < n -> P ctx' -> Q x (s, ctx')) -> wp (draw_below n : M Z) Q X (s, ctx).
Proof.
  intros Hn Hc HQ. unfold wp, draw_below, draw. pose proof (below_keeps n C _ P ctx (keeps_next_u64 _ HP) Hc) as Hk.
  pose proof (below_range n C _ ctx Hn) as Hr. destruct (below n C ctx) as [ctx' x]. apply HQ; [exact Hr | exact Hk].
Qed.

Lemma wp_chance `{SimRng} num den Q X s ctx :
  P ctx -> (forall x ctx', P ctx' -> Q x (s, ctx')) -> wp (draw_chance num den : M bool) Q X (s, ctx).
Proof.
  intros Hc HQ. unfold wp, draw_chance, draw. rewrite chance_doc. apply HQ, below_keeps; [apply (keeps_next_u64 _ HP) | assumption].
Qed.
End keeps.

Lemma wp_incr {S C} `{SimContext C} x Q X (s : S * C) :
  0 <= x < 2 ^ 64 - 1 -> Q (x + 1) s -> wp (incr x : ST (S * C) Failure Z) Q X s.
Proof.
  intros Hx HQ. unfold incr. rewrite (proj2 (checked_add_Some 64 x 1 (x + 1))) by (unfold in_u; lia).
  apply wp_ret, HQ.
Qed.

(** [wp_run], stopping at every call of the context. *)
Ltac wp_quiet :=
  repeat (lazymatch goal with |- wp (trace _ _) _ _ _ => fail | |- _ => wp_step end; cbn beta iota zeta).

(** * Encodings are bytes *)

Create HintDb bytes.
#[export] Hint Resolve put_u8_bytes put_u16_bytes put_u32_bytes put_u64_bytes put_u128_bytes put_bool_bytes
  put_len_bytes put_bytes_bytes put_str_bytes put_mem_v0_bytes put_mem_bytes : bytes.

Lemma bytes_app a b : bytes_ok a -> bytes_ok b -> bytes_ok (a ++ b).
Proof. intros. apply Forall_app. auto. Qed.

Lemma bytes_bind {A} (f : A -> list Z) l : Forall (fun x => bytes_ok (f x)) l -> bytes_ok (l ≫= f).
Proof. induction 1; [constructor | apply bytes_app; assumption]. Qed.

#[export] Hint Resolve bytes_app : bytes.

(** * Components of two types *)

#[export] Hint Mode Component - ! : typeclass_instances.
#[export] Hint Mode UniformComponent - ! - : typeclass_instances.
#[export] Hint Mode TypedComponent - ! - : typeclass_instances.
#[export] Hint Mode PersistentComponent - ! - - : typeclass_instances.

Section sums.
Context `{SnapshotCodec} {A B : Type} `{!Component A, !Component B}.

(** A handler of either. *)
Definition on_either {C X} (m : ST (A * C) Failure X) (n : ST (B * C) Failure X) : ST ((A + B) * C) Failure X :=
  fun '(s, c) =>
    match s with
    | inl a => let '((a, c), r) := m (a, c) in ((inl a, c), r)
    | inr b => let '((b, c), r) := n (b, c) in ((inr b, c), r)
    end.

#[export] Instance sum_component : Component (A + B) := {
  type_name s := match s with inl a => type_name a | inr b => type_name b end;
  ports s := match s with inl a => ports a | inr b => ports b end;
  component_init C _ := on_either (component_init C) (component_init C);
  component_handle ev C _ := on_either (component_handle ev C) (component_handle ev C);
  snapshot_schema_version s := match s with inl a => snapshot_schema_version a | inr b => snapshot_schema_version b end;
  component_snapshot s := match s with inl a => component_snapshot a | inr b => component_snapshot b end;
  component_restore s v :=
    match s with
    | inl a => a ← component_restore a v; mret (inl a)
    | inr b => b ← component_restore b v; mret (inr b)
    end;
}.

Lemma on_either_uniform {X} (m : forall C `{SimContext C}, ST (A * C) Failure X) (n : forall C `{SimContext C}, ST (B * C) Failure X) :
  uniform m -> uniform n -> uniform (fun C _ => on_either (m C) (n C)).
Proof.
  intros Hm Hn C D HC HD R HR [a|b] c d Hr; unfold on_either.
  - destruct (Hm C D HC HD R HR a c d Hr) as (H1' & H2' & H3').
    destruct (m C HC (a, c)) as [[a1 c1] r1], (m D HD (a, d)) as [[a2 d1] r2]. cbn in *. subst. auto.
  - destruct (Hn C D HC HD R HR b c d Hr) as (H1' & H2' & H3').
    destruct (n C HC (b, c)) as [[a1 c1] r1], (n D HD (b, d)) as [[a2 d1] r2]. cbn in *. subst. auto.
Qed.

#[export] Instance sum_uniform `{!UniformComponent A, !UniformComponent B} : UniformComponent (A + B).
Proof.
  split; [|intros ev].
  - exact (on_either_uniform (fun C _ => component_init C) (fun C _ => component_init C) init_uniform init_uniform).
  - exact (on_either_uniform (fun C _ => component_handle ev C) (fun C _ => component_handle ev C)
      (handle_uniform ev) (handle_uniform ev)).
Qed.

Context `{!TypedComponent A, !TypedComponent B}.

Definition sum_ok (s : A + B) : Prop := match s with inl a => component_ok a | inr b => component_ok b end.

Definition sum_same (s t : A + B) : Prop :=
  match s, t with
  | inl a, inl a' => same_config a a'
  | inr b, inr b' => same_config b b'
  | _, _ => False
  end.

Lemma sum_same_equivalence : Equivalence sum_same.
Proof.
  split.
  - intros [a|b]; cbn; reflexivity.
  - intros [a|b] [a'|b']; cbn; auto; intros; symmetry; assumption.
  - intros [a|b] [a'|b'] [a''|b'']; cbn; try contradiction; etransitivity; eassumption.
Qed.

Lemma on_either_wp {C X} (m : ST (A * C) Failure X) (n : ST (B * C) Failure X) (P : C -> Prop) s c :
  (forall a, s = inl a -> wp m (fun _ '(a', c') => component_ok a' /\ same_config a a' /\ P c')
    (fun e '(a', c') => (exists e', e = Fails e') /\ same_config a a' /\ P c') (a, c)) ->
  (forall b, s = inr b -> wp n (fun _ '(b', c') => component_ok b' /\ same_config b b' /\ P c')
    (fun e '(b', c') => (exists e', e = Fails e') /\ same_config b b' /\ P c') (b, c)) ->
  wp (on_either m n) (fun _ '(s', c') => sum_ok s' /\ sum_same s s' /\ P c')
    (fun e '(s', c') => (exists e', e = Fails e') /\ sum_same s s' /\ P c') (s, c).
Proof.
  intros Hm Hn. unfold wp, on_either in *. destruct s as [a|b].
  - specialize (Hm a eq_refl). destruct (m (a, c)) as [[a' c'] [x|e]]; exact Hm.
  - specialize (Hn b eq_refl). destruct (n (b, c)) as [[b' c'] [x|e]]; exact Hn.
Qed.

#[export, refine] Instance sum_typed : TypedComponent (A + B) := {
  component_ok := sum_ok;
  same_config := sum_same;
  same_config_equivalence := sum_same_equivalence;
}.
Proof.
  - intros [a|b] [a'|b']; cbn; try contradiction; apply same_ports.
  - intros C HC P s c HP Hs Hc.
    apply on_either_wp; intros x ->; apply init_typed; assumption.
  - intros ev C HC P s c Hev HP Hs Hc. apply on_either_wp; intros x ->; apply handle_typed; assumption.
Defined.

Context `{!PersistentComponent A, !PersistentComponent B}.

#[export, refine] Instance sum_persistent : PersistentComponent (A + B) := {
  snapshot_fits s := match s with inl a => snapshot_fits a | inr b => snapshot_fits b end;
}.
Proof.
  - intros [a|b]; cbn; apply schema_range.
  - intros [a|b]; cbn; apply snapshot_bytes.
  - intros [a|b] [a'|b'] H1' H2' Hs Hf; cbn in *; try contradiction;
      (eapply reads_last; [apply restore_snapshot; assumption | apply reads_ret]).
Defined.
End sums.
