(* ===== verification/SocDevices.v ===== *)
(** The platform devices as components of a session: the [Component] implementations of
    [components/platform/src] (ram.rs, uart.rs, media.rs, irqc.rs, bus.rs, dma.rs, mmbus.rs), their port tables and
    views, and the contracts of [Session] they keep, so that every theorem about sessions holds
    of sessions with these devices. *)
From stdpp Require Import base numbers list option strings gmap.
From Stdlib Require Import ZArith Lia.
From S2P Require Import Prelude Text Contracts Handlers Snapshots Platform Session Components.
From S2P Require Ram Uart Media Irqc Bus Dma MmBus MmBusProofs MmBusSnapshot.

Local Open Scope string_scope.
Local Open Scope list_scope.
Local Open Scope Z_scope.

(** * Rules *)

Section rules.
Context {S C A : Type} `{SimContext C}.

Local Abbreviation M := (ST (S * C) Failure).

(** What a run keeps of its context, however it ends. *)
Definition keeps_ctx (P : C -> Prop) (m : M A) (s : S) (c : C) : Prop :=
  wp m (fun _ s => P (snd s)) (fun _ s => P (snd s)) (s, c).

(** A component's end states, and its calls, each shown by a run of its own. *)
Lemma wp_typed (ok : S -> Prop) (same : S -> S -> Prop) (P : C -> Prop) (m : M A) s c :
  settles (fun s' => ok s' /\ same s s') m s c -> keeps_ctx P m s c ->
  wp m (fun _ '(s', c') => ok s' /\ same s s' /\ P c')
    (fun e '(s', c') => (exists e', e = Fails e') /\ same s s' /\ P c') (s, c).
Proof.
  unfold settles, keeps_ctx, wp. destruct (m (s, c)) as [[s' c'] [a|e]]; cbn; [intros [? ?] ?; auto | intros [[? ?] ?] ?; auto].
Qed.

(** A run that is one call of the context, and one that is refused. *)
Lemma typed_send (ok : S -> Prop) (same : S -> S -> Prop) (P : C -> Prop) (m : ST (S * C) Failure unit) s s' c port msg when ph :
  ctx_keeps P -> m (s, c) = (let '(c', r) := ctx_send port msg when ph c in ((s', c'), map_err Fails r)) ->
  message_ok msg -> P c -> ok s' -> same s s' ->
  wp m (fun _ '(s', c') => ok s' /\ same s s' /\ P c')
    (fun e '(s', c') => (exists e', e = Fails e') /\ same s s' /\ P c') (s, c).
Proof.
  intros HP E Hm Hc Hok Hs. unfold wp. rewrite E. pose proof (keeps_send _ HP port msg when ph c Hm Hc) as Hk.
  destruct (ctx_send port msg when ph c) as [c' [[]|e]]; cbn in *; eauto.
Qed.

Lemma typed_fault (ok : S -> Prop) (same : S -> S -> Prop) (P : C -> Prop) (m : M A) s c what :
  m (s, c) = ((s, c), Err (Fails (ComponentFault what))) -> P c -> same s s ->
  wp m (fun _ '(s', c') => ok s' /\ same s s' /\ P c')
    (fun e '(s', c') => (exists e', e = Fails e') /\ same s s' /\ P c') (s, c).
Proof. intros E Hc Hs. unfold wp. rewrite E. eauto. Qed.
End rules.

(** A run that keeps its context in whatever state its component is: what a handler's calls
    keep when their arguments do not depend on the state. *)
Section keeping.
Context {S C : Type} `{SimContext C} {P : C -> Prop} (HP : ctx_keeps P).

Local Abbreviation M := (ST (S * C) Failure).

Definition keeping {A} (m : M A) : Prop := forall s c, P c -> keeps_ctx P m s c.

Lemma keeping_quiet {A} (m : M A) : (forall s c, snd (fst (m (s, c))) = c) -> keeping m.
Proof.
  intros Hm s c Hc. unfold keeps_ctx, wp. specialize (Hm s c). destruct (m (s, c)) as [s' [a|e]]; cbn in *; rewrite Hm; exact Hc.
Qed.

Lemma keeping_bind {A B} (f : A -> M B) (m : M A) : keeping m -> (forall a, keeping (f a)) -> keeping (mbind f m).
Proof.
  intros Hm Hf s c Hc. apply wp_bind. eapply wp_mono; [apply Hm, Hc | | auto]. intros a [s' c'] Hc'. apply Hf, Hc'.
Qed.

Lemma keeping_try {A} (r : result SimError A) : keeping (try r : M A).
Proof. apply keeping_quiet. destruct r; reflexivity. Qed.

Lemma keeping_trace k fs : keeping (trace k fs : M unit).
Proof. intros s c Hc. apply (wp_note HP); auto. Qed.

Lemma keeping_wake when ph token : in_u 64 token -> keeping (call (ctx_wake_self when ph token) : M unit).
Proof. intros Ht s c Hc. apply (wp_wakes HP); auto. Qed.

Lemma keeping_send port msg when ph : message_ok msg -> keeping (call (ctx_send port msg when ph) : M unit).
Proof. intros Hm s c Hc. apply (wp_sends HP); auto. Qed.
End keeping.

(** One step of a handler whose calls are kept. *)
Ltac keeping_step :=
  lazymatch goal with
  | |- forall _, _ => intro
  | |- keeping (mbind _ _) => apply keeping_bind
  | |- keeping (try _) => apply keeping_try
  | |- keeping (trace _ _) => apply keeping_trace; assumption
  | |- keeping (call (ctx_wake_self _ _ _)) => apply keeping_wake; [assumption | first [assumption | const_range]]
  | |- keeping (call (ctx_send _ (Message_Irq _) _ _)) => apply keeping_send; [assumption | exact I]
  | |- keeping (match ?x with _ => _ end) => destruct x
  | |- keeping _ => first [assumption | solve [auto with keeping] | apply keeping_quiet; reflexivity]
  end.

Ltac keeping_run := repeat (keeping_step; cbn beta iota zeta).

Create HintDb keeping.

Lemma put_latency_bytes `{SnapshotCodec} l : bytes_ok (put_latency l).
Proof. destruct l; cbn; eauto with bytes. Qed.

Lemma entries_bytes {V} (f : Z * V -> list Z) (m : gmap Z V) :
  map_Forall (fun k v => bytes_ok (f (k, v))) m -> bytes_ok (entries m ≫= f).
Proof.
  intros Hm. apply bytes_bind, Forall_forall. intros [k v] Hin%elem_of_entries. exact (Hm k v Hin).
Qed.

#[export] Hint Resolve put_latency_bytes : bytes.

(** * The RAM *)

Section ram.
Import Ram.
Context `{SnapshotCodec, MemClassify}.

Definition ram_ports (ram : Ram) : list PortSpec := [mkPortSpec "mem" mem_v1_PROTOCOL Role_Target].

Definition ram_inspect (ram : Ram) : list (string * Value) :=
  [("size", VU64 (Ram.size (config ram))); ("image_hash", VBytes (image_hash ram));
   ("non_zero_pages", VU64 (Z.of_nat (base.size (pages ram))))].

#[export] Instance Ram_component : Component Ram := {
  type_name _ := "platform.ram";
  ports := ram_ports;
  component_init C _ := mret tt;
  component_handle ev C _ := handle_event ev;
  snapshot_schema_version _ := SNAPSHOT_SCHEMA;
  component_snapshot := snapshot;
  component_restore ram _ := restore ram;
}.

#[export] Instance Ram_uniform : UniformComponent Ram.
Proof.
  split; [|intros ev]; intros C D HC HD R HR; cbn.
  - uniform_run.
  - unfold handle_event, respond. uniform_run.
Qed.

Lemma byte_range ram a : ram_ok ram -> in_u 8 (byte ram a).
Proof.
  intros (_ & _ & _ & Hp & _). unfold byte, byte_at, page_byte. destruct (pages ram !! _) as [p|] eqn:E; [|const_range].
  destruct (Hp _ _ E) as (_ & _ & Hb & _). destruct (nth_in_or_default (Z.to_nat (a mod PAGE)) p 0) as [Hin| ->]; [|const_range].
  unfold bytes_ok in Hb. rewrite Forall_forall in Hb. apply Hb, list_elem_of_In, Hin.
Qed.

Lemma flat_access_ok ram msg mem resp :
  ram_ok ram -> mem_msg_ok msg -> flat_access (Ram.size (config ram)) (byte ram) msg = Some (mem, resp) -> mem_msg_ok resp.
Proof.
  intros Hok Hm. destruct msg as [txn addr len|txn o|txn addr data|txn o]; cbn; try discriminate; repeat case_if; try discriminate;
    intros [= _ <-]; cbn; try apply Hm.
  split; [apply Hm |]. apply Forall_fmap, Forall_true. intros i. apply byte_range, Hok.
Qed.

Definition ram_same (ram ram' : Ram) : Prop := (config ram, image_hash ram) = (config ram', image_hash ram').

#[export, refine] Instance Ram_typed : TypedComponent Ram := {
  component_ok := ram_ok;
  same_config := ram_same;
}.
Proof.
  - unfold ram_same. split; congruence.
  - auto.
  - intros C HC P ram c HP Hok Hc. apply wp_ret. split; [exact Hok | split; [reflexivity | exact Hc]].
  - intros ev C HC P ram c Hev HP Hok Hc.
    destruct ev as [port [m|msg|m|m]|token]; try (apply wp_fault; split; [eauto | split; [reflexivity | exact Hc]]).
    destruct Hev as [_ Hmsg]. pose proof (ram_serves ram c port msg Hok Hmsg) as Hs.
    destruct (flat_access _ _ msg) as [[mem resp]|] eqn:E.
    + destruct Hs as (ram' & Hok' & _ & Hcfg & Eq). eapply (typed_send ram_ok ram_same); [exact HP | exact Eq | | exact Hc | exact Hok' | symmetry; exact Hcfg].
      eapply (flat_access_ok ram msg); eassumption.
    + destruct Hs as [what Eq]. eapply (typed_fault ram_ok ram_same); [exact Eq | exact Hc | reflexivity].
Defined.

#[export, refine] Instance Ram_persistent : PersistentComponent Ram := { snapshot_fits _ := True }.
Proof.
  - intros. const_range.
  - intros ram (_ & _ & [Hh _] & Hp & _) _. cbn. unfold snapshot, write_config, write_latency.
    repeat apply bytes_app; eauto with bytes. apply entries_bytes. intros k p Hk. destruct (Hp k p Hk) as (_ & _ & Hb & _). cbn. auto with bytes.
  - intros ram ram' _ Hok' Hs _. apply ram_reads_restore; assumption.
Defined.
End ram.

(** * The UART *)

Section uart.
Import Uart.
Context `{SnapshotCodec, MemClassify}.

Definition uart_ports (u : SimpleUart) : list PortSpec := [mkPortSpec "mem" mem_v1_PROTOCOL Role_Target].

#[export] Instance Uart_component : Component SimpleUart := {
  type_name _ := "platform.uart";
  ports := uart_ports;
  component_init C _ := mret tt;
  component_handle ev C _ := handle_event ev;
  snapshot_schema_version _ := SNAPSHOT_SCHEMA;
  component_snapshot := snapshot;
  component_restore u _ := restore u;
}.

#[export] Instance Uart_uniform : UniformComponent SimpleUart.
Proof.
  split; [|intros ev]; intros C D HC HD R HR; cbn.
  - uniform_run.
  - unfold handle_event, respond. uniform_run.
Qed.

Definition uart_ok (u : SimpleUart) : Prop := bytes_ok (output u).

Lemma register_access_ok msg out resp :
  mem_msg_ok msg -> register_access msg = Some (out, resp) -> bytes_ok out /\ mem_msg_ok resp.
Proof.
  intros Hm. destruct msg as [txn addr len|txn o|txn addr [|b [|b' data]]|txn o]; cbn; try discriminate; repeat case_if; try discriminate;
    intros [= <- <-]; destruct Hm as (Ht & Ha & Hd); cbn; (split; [try apply Forall_nil_2; exact Hd |]); try exact Ht.
  split; [exact Ht |]. constructor; [const_range |]. apply Forall_replicate. const_range.
Qed.

Lemma keeps_traces {C} `{SimContext C} (P : C -> Prop) kind (out : list Z) :
  ctx_keeps P -> forall c, P c -> P (foldl (fun ctx b => ctx_trace kind [("byte", VU64 b)] ctx) c out).
Proof. intros HP. induction out as [|b out IH]; intros c Hc; [exact Hc |]. cbn. apply IH, (keeps_trace _ HP), Hc. Qed.

Definition uart_same (u u' : SimpleUart) : Prop := config u = config u'.

#[export, refine] Instance Uart_typed : TypedComponent SimpleUart := {
  component_ok := uart_ok;
  same_config := uart_same;
}.
Proof.
  - unfold uart_same. split; congruence.
  - auto.
  - intros C HC P u c HP Hok Hc. apply wp_ret. split; [exact Hok | split; [reflexivity | exact Hc]].
  - intros ev C HC P u c Hev HP Hok Hc.
    destruct ev as [port [m|msg|m|m]|token]; try (apply wp_fault; split; [eauto | split; [reflexivity | exact Hc]]).
    destruct Hev as [_ Hmsg]. pose proof (register_map u c port msg Hmsg) as Hs.
    destruct (register_access msg) as [[out resp]|] eqn:E.
    + destruct (register_access_ok msg out resp Hmsg E) as [Ho Hr]. unfold answered in Hs.
      pose proof (keeps_traces P TX_KIND out HP c Hc) as Hc'. set (c1 := foldl _ c out) in *.
      change (component_handle ?ev C) with (handle_event (C := C) ev). unfold wp. rewrite Hs.
      pose proof (keeps_send _ HP PORT (Message_MemV1 resp) (delay (latency (config u))) Phase_Complete c1 Hr Hc') as Hk.
      destruct (ctx_send _ _ _ _ c1) as [c2 [[]|e]]; cbn in *; split_and!; eauto; try reflexivity. apply bytes_app; assumption.
    + destruct Hs as [what Eq]. eapply (typed_fault uart_ok uart_same); [exact Eq | exact Hc | reflexivity].
Defined.

#[export, refine] Instance Uart_persistent : PersistentComponent SimpleUart := {
  snapshot_fits u := in_u 32 (Z.of_nat (length (output u))) }.
Proof.
  - intros. const_range.
  - intros u Hb Hf. cbn. unfold snapshot, write_latency. auto with bytes.
  - intros u u' _ Hb' Hs Hf rest. apply uart_snapshot_restore; assumption.
Defined.
End uart.

(** * The block media *)

Section media.
Import Media.
Context `{SnapshotCodec}.

Definition media_ports (m : SimpleBlockMedia) : list PortSpec := [mkPortSpec "blk" block_v0_PROTOCOL Role_Target].

Definition media_inspect (m : SimpleBlockMedia) : list (string * Value) :=
  [("capacity_blocks", VU64 (capacity_blocks (config m))); ("image_hash", VBytes (image_hash m));
   ("stored_blocks", VU64 (Z.of_nat (size (blocks m))))].

#[export] Instance Media_component : Component SimpleBlockMedia := {
  type_name _ := "platform.disk";
  ports := media_ports;
  component_init C _ := mret tt;
  component_handle ev C _ := handle_event ev;
  snapshot_schema_version _ := SNAPSHOT_SCHEMA;
  component_snapshot := snapshot;
  component_restore m _ := restore m;
}.

#[export] Instance Media_uniform : UniformComponent SimpleBlockMedia.
Proof.
  split; [|intros ev]; intros C D HC HD R HR; cbn.
  - uniform_run.
  - unfold handle_event, respond. uniform_run.
Qed.

Lemma load_bytes m lba : media_ok m -> bytes_ok (load m lba).
Proof.
  intros (_ & _ & Hb). unfold load. destruct (blocks m !! lba) as [b|] eqn:E; [apply (Hb _ _ E) |]. apply Forall_replicate. const_range.
Qed.

Lemma disk_access_ok m msg disk kind lba error result :
  media_ok m -> block_msg_ok msg -> disk_access (config m) (load m) msg = Some (disk, kind, lba, error, result) -> block_msg_ok result.
Proof.
  intros Hok Hm. destruct msg as [txn k|txn k data|txn o|txn o]; cbn; try discriminate; repeat case_match; try discriminate;
    intros [= _ _ _ _ <-]; cbn; try apply Hm. split; [apply Hm | apply load_bytes, Hok].
Qed.

Definition media_same (m m' : SimpleBlockMedia) : Prop := (config m, image_hash m) = (config m', image_hash m').

#[export, refine] Instance Media_typed : TypedComponent SimpleBlockMedia := {
  component_ok := media_ok;
  same_config := media_same;
}.
Proof.
  - unfold media_same. split; congruence.
  - auto.
  - intros C HC P m c HP Hok Hc. apply wp_ret. split; [exact Hok | split; [reflexivity | exact Hc]].
  - intros ev C HC P m c Hev HP Hok Hc. change (component_handle ev C) with (handle_event (C := C) ev).
    assert (Hf : forall what, handle_event ev (m, c) = ((m, c), Err (Fails (ComponentFault what))) ->
      wp (handle_event (C := C) ev) (fun _ '(s', c') => media_ok s' /\ media_same m s' /\ P c')
        (fun e '(s', c') => (exists e', e = Fails e') /\ media_same m s' /\ P c') (m, c))
      by (intros what E; eapply (typed_fault media_ok media_same); [exact E | exact Hc | reflexivity]).
    destruct ev as [port [msg|msg|msg|msg]|token]; try (eapply Hf; reflexivity).
    destruct Hev as [_ Hmsg]. destruct (Z.eqb_spec port PORT) as [->|Hne].
    2: { eapply Hf. unfold handle_event. rewrite (proj2 (Z.eqb_neq _ _) Hne). reflexivity. }
    destruct (decide (ctx_phase c = Phase_Request)) as [Hph|Hph].
    2: { assert (Eb : bool_decide (ctx_phase c <> Phase_Request) = true) by (apply bool_decide_eq_true_2, Hph).
         destruct msg; first [eapply Hf; reflexivity | eapply Hf; unfold handle_event; rewrite Z.eqb_refl; cbn [negb];
           rewrite ST_bind_unfold; cbn [phase_of_event snd]; rewrite Eb; reflexivity]. }
    pose proof (media_serves m c msg Hok Hmsg Hph) as Hs.
    destruct (disk_access _ _ msg) as [[[[[disk kind] lba] error] result]|] eqn:E; [|destruct Hs as [what Eq]; exact (Hf what Eq)].
    destruct Hs as (m' & Hok' & _ & Hcfg & Eq). unfold wp. rewrite Eq.
    pose proof (keeps_send _ HP PORT (Message_Block result) (delay (latency (config m))) Phase_Complete
      (ctx_trace kind [("lba", VU64 lba); ("outcome", outcome_name error)] c) (disk_access_ok m msg _ _ _ _ _ Hok Hmsg E) (keeps_trace _ HP _ _ _ Hc)) as Hk.
    destruct (ctx_send _ _ _ _ _) as [c2 [[]|e]]; cbn in *; (split; [eauto | split; [symmetry; exact Hcfg | exact Hk]]).
Defined.

#[export, refine] Instance Media_persistent : PersistentComponent SimpleBlockMedia := {
  snapshot_fits m := Z.of_nat (size (blocks m)) < 2 ^ 32 }.
Proof.
  - intros. const_range.
  - intros m (_ & [Hh _] & Hb) _. cbn. unfold snapshot, write_config, write_latency.
    repeat apply bytes_app; eauto with bytes; [apply bytes_bind, Forall_true; eauto with bytes |].
    apply entries_bytes. intros k b Hk. destruct (Hb k b Hk) as (_ & _ & Hd & _). cbn. auto with bytes.
  - intros m m' _ Hok' Hs Hf. apply media_reads_restore; assumption.
Defined.
End media.

(** * The interrupt controller *)

Section irqc.
Import Irqc.
Context `{SnapshotCodec, MemClassify}.

(** [SRC_NAMES]. *)
Definition SRC_NAMES : list string :=
  ["src0"; "src1"; "src2"; "src3"; "src4"; "src5"; "src6"; "src7"; "src8"; "src9"; "src10"; "src11"; "src12"; "src13"; "src14"; "src15";
   "src16"; "src17"; "src18"; "src19"; "src20"; "src21"; "src22"; "src23"; "src24"; "src25"; "src26"; "src27"; "src28"; "src29"; "src30"; "src31"].

Definition irqc_ports (c : SimpleIrqController) : list PortSpec :=
  ((fun name => mkPortSpec name irq_v0_PROTOCOL Role_Target) <$> take (Z.to_nat (sources (config c))) SRC_NAMES) ++
  [mkPortSpec "cpu" irq_v0_PROTOCOL Role_Initiator; mkPortSpec "mem" mem_v1_PROTOCOL Role_Target].

Definition irqc_inspect (c : SimpleIrqController) : list (string * Value) :=
  [("sources", VU64 (sources (config c))); ("pending", VU64 (pending c)); ("enable", VU64 (enable c)); ("out", VBool (out c))].

#[export] Instance Irqc_component : Component SimpleIrqController := {
  type_name _ := "platform.irqc";
  ports := irqc_ports;
  component_init C _ := mret tt;
  component_handle ev C _ := handle_event ev;
  snapshot_schema_version _ := SNAPSHOT_SCHEMA;
  component_snapshot := snapshot;
  component_restore c _ := restore c;
}.

#[export] Instance Irqc_uniform : UniformComponent SimpleIrqController.
Proof.
  split; [|intros ev]; intros C D HC HD R HR; cbn.
  - uniform_run.
  - unfold handle_event, level, request, respond, update_output. uniform_run.
Qed.

Section keeps.
Context {C : Type} `{HC : SimContext C} (P : C -> Prop) (HP : ctx_keeps P).

Lemma update_output_keeps (c : SimpleIrqController) ctx : P ctx -> keeps_ctx P update_output c ctx.
Proof.
  intros Hc. unfold keeps_ctx, update_output. wp_quiet. case_if; wp_quiet; [exact Hc |].
  apply (wp_note HP); [exact Hc |]. intros ctx1 Hc1. wp_quiet. apply (wp_sends HP); [exact I | exact Hc1 | auto..].
Qed.

Lemma level_keeps i msg (c : SimpleIrqController) ctx : P ctx -> keeps_ctx P (level i msg) c ctx.
Proof.
  intros Hc. unfold keeps_ctx, level. wp_quiet. case_if; [exact Hc |]. destruct msg as [b]. wp_quiet. case_if; [exact Hc |].
  case_if; wp_quiet; [exact Hc |]. apply (wp_note HP); [exact Hc |]. intros ctx1 Hc1. wp_quiet. apply update_output_keeps, Hc1.
Qed.

Lemma respond_keeps msg first (c : SimpleIrqController) ctx : mem_msg_ok msg -> P ctx ->
  wp (respond msg first) (fun resp s => mem_msg_ok resp /\ P (snd s)) (fun _ s => P (snd s)) (c, ctx).
Proof.
  intros Hm Hc. unfold respond. wp_quiet. destruct msg as [txn addr len|txn o|txn addr data|txn o]; try exact Hc; wp_quiet.
  - split; [|exact Hc]. destruct first as [f|]; cbn; [|apply Hm]. repeat case_if; cbn; try apply Hm; (split; [apply Hm | apply (to_le_ok 4)]).
  - case_if; wp_quiet; [|split; [apply Hm | exact Hc]]. eapply wp_mono; [apply update_output_keeps, Hc | |].
    + intros _ [c1 ctx1] Hc1. wp_quiet. split; [apply Hm | exact Hc1].
    + auto.
Qed.

Lemma irqc_keeps ev (c : SimpleIrqController) ctx : delivery_ok ev -> P ctx -> keeps_ctx P (handle_event ev) c ctx.
Proof.
  intros Hev Hc. unfold keeps_ctx, handle_event. destruct ev as [port msg|token]; [|exact Hc]. wp_quiet.
  case_if; [destruct msg as [?|?|m|?]; try exact Hc; apply level_keeps, Hc |]. case_if; [exact Hc |]. case_if; [|exact Hc].
  destruct msg as [?|msg|?|?]; try exact Hc. destruct Hev as [_ Hmsg]. unfold request. wp_quiet.
  apply (wp_mono _ (fun _ s => s = (c, ctx)) _ (fun _ s => s = (c, ctx))); [destruct (access msg) as [[| |]|]; reflexivity | | intros _ s ->; exact Hc].
  intros first s ->. wp_quiet. eapply wp_mono; [apply (respond_keeps msg first c ctx Hmsg Hc) | | auto].
  intros resp [c1 ctx1] [Hr Hc1]. wp_quiet. apply (wp_sends HP); [exact Hr | exact Hc1 | auto..].
Qed.
End keeps.

Definition irqc_same (c c' : SimpleIrqController) : Prop := config c = config c'.

#[export, refine] Instance Irqc_typed : TypedComponent SimpleIrqController := {
  component_ok := irq_ok;
  same_config := irqc_same;
}.
Proof.
  - unfold irqc_same. split; congruence.
  - intros c c' E. split; [|auto]. cbn. unfold irqc_ports. rewrite E. reflexivity.
  - intros C HC P c ctx HP Hok Hc. apply wp_ret. split; [exact Hok | split; [reflexivity | exact Hc]].
  - intros ev C HC P c ctx Hev HP Hok Hc. apply (wp_typed irq_ok irqc_same); [|apply irqc_keeps; assumption].
    eapply wp_mono; [apply (event_settles c ctx ev Hok) | |]; cbn.
    + intros port msg ->. apply Hev.
    + intros _ s [H1 H2]. split; [exact H1 | symmetry; exact H2].
    + intros e s [[H1 H2] H3]. split; [split; [exact H1 | symmetry; exact H2] | exact H3].
Defined.

#[export, refine] Instance Irqc_persistent : PersistentComponent SimpleIrqController := { snapshot_fits _ := True }.
Proof.
  - intros. const_range.
  - intros c _ _. cbn. unfold snapshot, write_config. eauto 10 with bytes.
  - intros c c' (_ & Hm & _) Hok' Hs _ rest. apply irq_snapshot_restore; [exact Hok' | exact Hs |].
    destruct Hok' as (_ & Hm' & _). rewrite Hm, Hm', Hs. reflexivity.
Defined.
End irqc.

(** * The address bus *)

Section bus.
Import Bus.
Context `{SnapshotCodec, MemClassify}.

Definition bus_ports (b : AddressBus) : list PortSpec :=
  mkPortSpec "cpu" mem_v1_PROTOCOL Role_Target :: ((fun r => mkPortSpec (name r) mem_v1_PROTOCOL Role_Initiator) <$> regions b).

Definition bus_inspect (b : AddressBus) : list (string * Value) :=
  [("regions", VU64 (Z.of_nat (length (regions b)))); ("outstanding", VU64 (Z.of_nat (base.size (outstanding b))))].

#[export] Instance Bus_component : Component AddressBus := {
  type_name _ := "platform.bus";
  ports := bus_ports;
  component_init C _ := mret tt;
  component_handle ev C _ := handle_event ev;
  snapshot_schema_version _ := SNAPSHOT_SCHEMA;
  component_snapshot := snapshot;
  component_restore b _ := restore b;
}.

#[export] Instance Bus_uniform : UniformComponent AddressBus.
Proof.
  split; [|intros ev]; intros C D HC HD R HR; cbn.
  - uniform_run.
  - unfold handle_event, request, response, access_fault. uniform_run.
Qed.

Definition bus_same (b b' : AddressBus) : Prop := regions b = regions b'.

Section typed.
Context {C : Type} `{HC : SimContext C} (P : C -> Prop) (HP : ctx_keeps P).

(** Every way a run of the bus ends. *)
Definition bus_typed (m : ST (AddressBus * C) Failure unit) (b : AddressBus) (ctx : C) : Prop :=
  wp m (fun _ '(b', c') => bus_ok b' /\ bus_same b b' /\ P c')
    (fun e '(b', c') => (exists e', e = Fails e') /\ bus_same b b' /\ P c') (b, ctx).

Lemma bus_faults b ctx what : P ctx -> bus_typed (fault what) b ctx.
Proof. intros Hc. apply wp_fault. split; [eauto | split; [reflexivity | exact Hc]]. Qed.

Lemma at_offset_ok msg offset : mem_msg_ok msg -> in_u 64 offset -> mem_msg_ok (at_offset msg offset).
Proof. intros Hm Ho. destruct msg as [txn addr len|txn o|txn addr data|txn o]; cbn in *; try exact Hm; split_and!; try apply Hm; exact Ho. Qed.

Lemma route_offset b first last i r :
  bus_ok b -> in_u 64 first -> route b first last = Some i -> regions b !! Z.to_nat i = Some r -> in_u 64 (first - base r).
Proof.
  intros [(_ & _ & Ht & _) _] Hf Er Hr. unfold route in Er. destruct (position_by _ _) as [k|] eqn:E; cbn in Er; [|discriminate].
  apply position_by_Some in E as (r' & Hk & Hp & _). rewrite Hk in Er. cbn in Er. destruct (last <=? _); [|discriminate]. injection Er as <-.
  rewrite Nat2Z.id, Hk in Hr. injection Hr as <-. rewrite Forall_forall in Ht. destruct (Ht r') as [Hb _]; [apply list_elem_of_lookup; eauto |].
  unbool. unfold in_u in *. lia.
Qed.

Lemma bus_request_typed b ctx msg : bus_ok b -> mem_msg_ok msg -> P ctx -> bus_typed (request msg) b ctx.
Proof.
  intros Hok Hm Hc. unfold bus_typed, request. destruct (request_txn msg) as [[txn wr]|] eqn:Et; [|apply bus_faults, Hc].
  assert (Htxn : in_u 64 txn) by (destruct msg; try discriminate Et; injection Et as <- _; apply Hm).
  destruct (access msg) as [acc|] eqn:Ea; [|apply bus_faults, Hc]. wp_quiet. case_if; [apply bus_faults, Hc |]. wp_quiet.
  case_if; [apply bus_faults, Hc |]. wp_quiet.
  apply (wp_mono _ (fun routed s => s = (b, ctx) /\ forall i first, routed = Some (i, first) ->
      in_u 64 first /\ exists last, route b first last = Some i) _ (fun e s => s = (b, ctx) /\ exists e', e = Fails e')).
  - destruct acc as [first last| |]; cbn; [|split; [reflexivity | discriminate] | eauto]. split; [reflexivity |].
    destruct (route b first last) as [i|] eqn:Er; cbn; [|discriminate]. intros i' f [= <- <-]. split; [|eauto].
    destruct msg as [t a l|t o|t a d|t o]; try discriminate Et; rewrite ?access_read, ?access_write in Ea; injection Ea as Ea; unfold classify_doc in Ea;
      repeat case_match; try discriminate Ea; injection Ea as <- _; apply Hm.
  - intros routed s [-> Hr]. destruct routed as [[i first]|].
    + destruct (Hr i first eq_refl) as (Hf & last & Er). pose proof (route_bounds _ _ _ _ Er) as Hb.
      destruct (regions b !! Z.to_nat i) as [r|] eqn:Ei; [|apply lookup_ge_None_1 in Ei; lia]. wp_quiet.
      assert (Hoff : in_u 64 (first - base r)) by (apply (route_offset b first last i r); assumption).
      apply (wp_sends HP); [apply at_offset_ok; assumption | exact Hc | |].
      * intros c1 Hc1. split; [|split; [reflexivity | exact Hc1]]. destruct Hok as [Hcfg Hout]. split; [exact Hcfg |].
        apply map_Forall_insert_2; [split; [exact Htxn | exact Hb] | exact Hout].
      * intros e c1 Hc1. split; [eauto | split; [reflexivity | exact Hc1]].
    + unfold access_fault. destruct (fault_response msg) as [[[[t a] l] resp]|] eqn:Ef; [|apply bus_faults, Hc].
      assert (Hresp : mem_msg_ok resp) by (destruct msg; try discriminate Ef; injection Ef as _ _ _ <-; apply Hm). wp_quiet.
      apply (wp_sends HP); [exact Hresp | exact Hc | |].
      * intros c1 Hc1. apply (wp_note HP); [exact Hc1 |]. intros c2 Hc2. split; [exact Hok | split; [reflexivity | exact Hc2]].
      * intros e c1 Hc1. split; [eauto | split; [reflexivity | exact Hc1]].
  - intros e s [-> He]. split; [exact He | split; [reflexivity | exact Hc]].
Qed.

Lemma bus_response_typed b ctx port msg : bus_ok b -> mem_msg_ok msg -> P ctx -> bus_typed (response port msg) b ctx.
Proof.
  intros Hok Hm Hc. unfold bus_typed, response. destruct (response_txn msg) as [[txn wr]|] eqn:Et; [|apply bus_faults, Hc]. wp_quiet.
  assert (Hx : forall e, (exists e', Fails e = Fails e') /\ bus_same b b /\ P ctx) by (intros e; split; [eauto | split; [reflexivity | exact Hc]]).
  apply wp_try; [|intros e _; apply Hx]. intros reg _. wp_quiet. apply wp_try; [|intros e _; apply Hx]. intros o _.
  case_if; [apply bus_faults, Hc |]. case_if; [apply bus_faults, Hc |]. wp_quiet. apply (wp_sends HP); [exact Hm | exact Hc | |].
  - intros c1 Hc1. split; [|split; [reflexivity | exact Hc1]]. destruct Hok as [Hcfg Hout]. split; [exact Hcfg | apply map_Forall_delete, Hout].
  - intros e c1 Hc1. split; [eauto | split; [reflexivity | exact Hc1]].
Qed.
End typed.

#[export, refine] Instance Bus_typed : TypedComponent AddressBus := {
  component_ok := bus_ok;
  same_config := bus_same;
}.
Proof.
  - unfold bus_same. split; congruence.
  - intros b b' E. split; [|auto]. cbn. unfold bus_ports. rewrite E. reflexivity.
  - intros C HC P b ctx HP Hok Hc. apply wp_ret. split; [exact Hok | split; [reflexivity | exact Hc]].
  - intros ev C HC P b ctx Hev HP Hok Hc. change (bus_typed P (handle_event ev) b ctx).
    destruct ev as [port [m|msg|m|m]|token]; try (apply bus_faults, Hc). cbn [handle_event]. destruct Hev as [_ Hmsg].
    case_if; [apply bus_request_typed | apply bus_response_typed]; assumption.
Defined.

#[export, refine] Instance Bus_persistent : PersistentComponent AddressBus := {
  snapshot_fits b := Z.of_nat (base.size (outstanding b)) < 2 ^ 32 }.
Proof.
  - intros. const_range.
  - intros b _ _. cbn. unfold snapshot, write_config, write_region. repeat apply bytes_app; eauto with bytes.
    + apply bytes_bind, Forall_true. intros r. eauto with bytes.
    + apply entries_bytes. intros k o _. cbn. eauto with bytes.
  - intros b b' _ Hok' Hs Hf. apply bus_reads_restore; assumption.
Defined.
End bus.

(** * The DMA block controller *)

Section dma.
Import Dma.
Context `{SnapshotCodec, MemClassify}.

Definition dma_ports (d : DmaBlockController) : list PortSpec :=
  [mkPortSpec "mem" mem_v1_PROTOCOL Role_Target; mkPortSpec "dma" mem_v1_PROTOCOL Role_Initiator;
   mkPortSpec "blk" block_v0_PROTOCOL Role_Initiator; mkPortSpec "irq" irq_v0_PROTOCOL Role_Initiator].

Definition dma_inspect (d : DmaBlockController) : list (string * Value) :=
  let state := if busy d then "busy" else if done d then "done" else "idle" in
  let command :=
    match latched d with
    | None => "none"
    | Some l =>
        match l_op l with Operation_Read => "read" | Operation_Write => "write" end +:+
        " lba=" +:+ hex (l_lba l) +:+ " addr=" +:+ hex (l_addr l) +:+ " count=" +:+ dec (l_count l)
    end in
  let engine :=
    match engine d with
    | Engine_Idle => "idle"
    | Engine_Issue => "issue"
    | Engine_WaitMedia _ => "wait_media"
    | Engine_WaitBeat _ => "wait_beat"
    end in
  [("lba", VU64 (lba d)); ("mem_addr", VU64 (mem_addr d)); ("block_count", VU64 (block_count d));
   ("irq_enable", VU64 (irq_enable d)); ("status", VU64 (status d)); ("state", VStr state);
   ("error", VU64 (error d)); ("rejected", VBool (rejected d)); ("command", VStr command);
   ("engine", VStr engine); ("block", VU64 (block d)); ("beat", VU64 (beat d)); ("irq", VBool (irq_level d))].

#[export] Instance Dma_component : Component DmaBlockController := {
  type_name _ := "platform.blk";
  ports := dma_ports;
  component_init C _ := mret tt;
  component_handle ev C _ := handle_event ev;
  snapshot_schema_version _ := SNAPSHOT_SCHEMA;
  component_snapshot := snapshot;
  component_restore d _ := restore d;
}.

#[export] Instance Dma_uniform : UniformComponent DmaBlockController.
Proof.
  split; [|intros ev]; intros C D HC HD R HR; cbn.
  - uniform_run.
  - unfold handle_event, request, respond, write_register, command, beat_result, media_result, issue, send_block, send_beat,
      next_block, step_beat, check_result, complete, wake_next_cycle, update_irq. uniform_run.
Qed.

Section keeps.
Context {C : Type} `{HC : SimContext C} (P : C -> Prop) (HP : ctx_keeps P).

Local Abbreviation M := (ST (DmaBlockController * C) Failure).

Lemma keeping_write_register offset value : keeping (P := P) (write_register offset value : M bool).
Proof. unfold write_register, command, complete, wake_next_cycle, update_irq. keeping_run. Qed.

Lemma keeping_media_result msg : keeping (P := P) (media_result msg : M unit).
Proof. unfold media_result, check_result, next_block, complete, wake_next_cycle, update_irq. keeping_run. Qed.

Lemma keeping_beat_result msg : keeping (P := P) (beat_result msg : M unit).
Proof. unfold beat_result, step_beat, check_result, next_block, complete, wake_next_cycle, update_irq. keeping_run. Qed.

Lemma dma_respond_keeps msg word (d : DmaBlockController) c : mem_msg_ok msg -> P c ->
  wp (respond msg word : M MemMsg) (fun resp s => mem_msg_ok resp /\ P (snd s)) (fun _ s => P (snd s)) (d, c).
Proof.
  intros Hm Hc. destruct msg as [txn addr len|txn o|txn addr data|txn o]; cbn [respond]; try exact Hc; wp_quiet.
  - split; [|exact Hc]. destruct (word ≫= _); cbn; [split; [apply Hm | apply (to_le_ok 4)] | apply Hm].
  - eapply (wp_mono _ (fun _ s => P (snd s)) _ (fun _ s => P (snd s))); [|intros w [d1 c1] Hc1; wp_quiet; split; [apply Hm | exact Hc1] | auto].
    destruct word as [offset|]; [|exact Hc]. case_if; [apply keeping_write_register, Hc | exact Hc].
Qed.

Lemma dma_request_keeps msg (d : DmaBlockController) c : mem_msg_ok msg -> P c -> keeps_ctx P (request msg : M unit) d c.
Proof.
  intros Hm Hc. unfold keeps_ctx, request. apply wp_bind.
  apply (wp_mono _ (fun _ s => s = (d, c)) _ (fun _ s => s = (d, c))); [destruct (access msg) as [[| |]|]; reflexivity | | intros _ s ->; exact Hc].
  intros word s ->. apply wp_bind. eapply wp_mono; [apply (dma_respond_keeps msg word d c Hm Hc) | | auto].
  intros resp [d1 c1] [Hr Hc1]. wp_quiet. apply (wp_sends HP); [exact Hr | exact Hc1 | auto..].
Qed.

Lemma send_block_keeps msg (d : DmaBlockController) c : block_msg_ok msg -> P c -> keeps_ctx P (send_block msg : M unit) d c.
Proof.
  intros Hm Hc. unfold keeps_ctx, send_block. wp_quiet. apply wp_try; [intros n _ | auto]. wp_quiet.
  apply (wp_sends HP); [exact Hm | exact Hc | intros c1 Hc1; wp_quiet; exact Hc1 | auto].
Qed.

Lemma send_beat_keeps msg (d : DmaBlockController) c : mem_msg_ok msg -> P c -> keeps_ctx P (send_beat msg : M unit) d c.
Proof.
  intros Hm Hc. unfold keeps_ctx, send_beat. wp_quiet. apply wp_try; [intros n _ | auto]. wp_quiet.
  apply (wp_sends HP); [exact Hm | exact Hc | intros c1 Hc1; wp_quiet; exact Hc1 | auto].
Qed.

(** The engine's requests are in range. *)
Lemma engine_ranges (d : DmaBlockController) l : dma_ok d -> latched d = Some l ->
  in_u 64 (l_lba l + block d) /\ in_u 64 (l_addr l + block d * 512 + beat d * 16).
Proof.
  intros Hok Hl. pose proof (ok_latched d Hok l Hl) as Hv. pose proof (ok_position d Hok) as Hp.
  pose proof (ok_config d Hok) as Hc. rewrite Hl in Hp. unfold position_ok, latched_ok, config_ok, in_u in *.
  destruct Hp as (Hi & Hj & _). lia.
Qed.

Lemma dma_issue_keeps (d : DmaBlockController) c : dma_ok d -> P c -> keeps_ctx P (issue : M unit) d c.
Proof.
  intros Hok Hc. pose proof (ok_dma_txn d Hok) as Hdt. pose proof (ok_blk_txn d Hok) as Hbt. pose proof (ok_buffer d Hok) as Hbuf.
  unfold keeps_ctx, issue. wp_quiet. destruct (engine d); try exact Hc. destruct (latched d) as [l|] eqn:El; [|exact Hc].
  destruct (engine_ranges d l Hok El) as [Hlba Haddr].
  destruct (l_op l); case_if; rewrite ?(block_lba_ok d l Hok El), ?(beat_addr_ok d l Hok El); wp_quiet.
  - apply send_block_keeps; [split; assumption | exact Hc].
  - case_if; [exact Hc |]. apply send_beat_keeps; [|exact Hc].
    split_and!; [exact Hdt | exact Haddr |]. apply Forall_take, Forall_drop, Hbuf.
  - eapply wp_mono; [apply (send_block_keeps (WriteBlock (blk_txn d) (l_lba l + block d) (buffer d)) d c); [split_and!; assumption | exact Hc] | | auto].
    intros _ [d1 c1] Hc1. exact Hc1.
  - apply send_beat_keeps; [split_and!; [exact Hdt | exact Haddr | const_range] | exact Hc].
Qed.

Lemma dma_keeps ev (d : DmaBlockController) c : dma_ok d -> delivery_ok ev -> P c -> keeps_ctx P (handle_event ev : M unit) d c.
Proof.
  intros Hok Hev Hc. destruct ev as [port [m|m|m|m]|token]; cbn [handle_event]; repeat case_if; try exact Hc.
  - apply dma_request_keeps; [apply Hev | exact Hc].
  - apply keeping_beat_result, Hc.
  - apply keeping_media_result, Hc.
  - apply dma_issue_keeps; assumption.
Qed.
End keeps.

Definition dma_same (d d' : DmaBlockController) : Prop := config d = config d'.

#[export, refine] Instance Dma_typed : TypedComponent DmaBlockController := {
  component_ok := dma_ok;
  same_config := dma_same;
}.
Proof.
  - unfold dma_same. split; congruence.
  - auto.
  - intros C HC P d c HP Hok Hc. apply wp_ret. split; [exact Hok | split; [reflexivity | exact Hc]].
  - intros ev C HC P d c Hev HP Hok Hc. apply (wp_typed dma_ok dma_same); [|apply dma_keeps; assumption].
    eapply wp_mono; [apply (dma_event_settles d c ev Hok) | |]; cbn.
    + destruct ev as [port []|]; cbn; try exact I; apply Hev.
    + intros _ s [H1 H2]. split; [exact H1 | symmetry; exact H2].
    + intros e s [[H1 H2] H3]. split; [split; [exact H1 | symmetry; exact H2] | exact H3].
Defined.

#[export, refine] Instance Dma_persistent : PersistentComponent DmaBlockController := { snapshot_fits _ := True }.
Proof.
  - intros. const_range.
  - intros d Hok _. cbn. pose proof (ok_buffer d Hok) as Hb. unfold snapshot, write_config, write_latched, write_engine.
    repeat first [apply bytes_app | case_match | solve [auto with bytes | constructor]].
  - intros d d' _ Hok' Hs _. apply dma_reads_restore; assumption.
Defined.
End dma.

(** * The multi-initiator bus *)

Section mmbus.
Import MmBus MmBusProofs MmBusSnapshot.
Context `{MemCodec, MemClassify}.

Definition mm_ports (b : MultiMasterBus) : list PortSpec :=
  ((fun m => mkPortSpec m mem_v1_PROTOCOL Role_Target) <$> masters (config b)) ++
  ((fun r => mkPortSpec (Bus.name r) mem_v1_PROTOCOL Role_Initiator) <$> cfg_regions (config b)).

Definition mm_inspect (b : MultiMasterBus) : list (string * Value) :=
  [("masters", VU64 (Z.of_nat (length (masters (config b)))));
   ("regions", VU64 (Z.of_nat (length (cfg_regions (config b)))));
   ("next_downstream_txn", VU64 (next_downstream b))] ++
  ((fun '(region, state) =>
      let active := match active state with None => "none" | Some a => dec (master a) end in
      let queued := (fun q : list MemMsg => dec (Z.of_nat (length q))) <$> queues state in
      (Bus.name region, VStr ("active=" +:+ active +:+ " rr_cursor=" +:+ dec (rr_cursor state) +:+
                              " queued=" +:+ String.concat "," queued))) <$> zip (cfg_regions (config b)) (regions b)).

#[export] Instance MmBus_component : Component MultiMasterBus := {
  type_name _ := "platform.multi_master_bus";
  ports := mm_ports;
  component_init C _ := mret tt;
  component_handle ev C _ := handle_event ev;
  snapshot_schema_version _ := SNAPSHOT_SCHEMA;
  component_snapshot := snapshot;
  component_restore b _ := restore b;
}.

Lemma arbitrate_loop_uniform indices : uniform (fun C _ => arbitrate_loop (C := C) indices).
Proof.
  intros C D HC HD R HR. induction indices as [|i indices IH]; cbn [arbitrate_loop]; [uniform_run |].
  apply run_bind; [unfold arbitrate_region; uniform_run | intros _; exact IH].
Qed.

#[export] Instance MmBus_uniform : UniformComponent MultiMasterBus.
Proof.
  split; [|intros ev]; intros C D HC HD R HR; cbn.
  - uniform_run.
  - unfold handle_event, request, response, access_fault, push_back, arbitrate. uniform_run.
    apply (arbitrate_loop_uniform _ C D HC HD R HR).
Qed.

Section keeps.
Context {C : Type} `{HC : SimContext C} (P : C -> Prop) (HP : ctx_keeps P).

Local Abbreviation M := (ST (MultiMasterBus * C) Failure).

Lemma with_txn_ok msg txn : mem_msg_ok msg -> in_u 64 txn -> mem_msg_ok (with_txn msg txn).
Proof. destruct msg as [|? []| |]; cbn; tauto. Qed.

Lemma fault_response_ok msg txn addr len resp :
  mem_msg_ok msg -> Bus.fault_response msg = Some (txn, addr, len, resp) -> mem_msg_ok resp.
Proof. destruct msg; cbn; try discriminate; intros Hm [= _ _ _ <-]; apply Hm. Qed.

Lemma keeping_access_fault m msg : mem_msg_ok msg -> keeping (P := P) (access_fault m msg : M unit).
Proof.
  intros Hm. unfold access_fault. destruct (Bus.fault_response msg) as [[[[txn addr] len] resp]|] eqn:E; [|keeping_run].
  apply keeping_bind; [|keeping_run]. apply keeping_send; [exact HP | exact (fault_response_ok _ _ _ _ _ Hm E)].
Qed.

Lemma keeping_mm_request m msg : mem_msg_ok msg -> keeping (P := P) (request m msg : M unit).
Proof.
  intros Hm. pose proof (keeping_access_fault m msg Hm). unfold request, push_back. keeping_run.
Qed.

Lemma arbitrate_region_keeps i (b : MultiMasterBus) c :
  mm_ok b -> (i < length (regions b))%nat -> P c -> keeps_ctx P (arbitrate_region i : M unit) b c.
Proof.
  intros Hok Hi Hc. unfold keeps_ctx, arbitrate_region. wp_quiet.
  destruct (state_at b i Hok) as (r & s & Hr & Hs & _ & _ & _ & Hqs); [rewrite <- length_states by exact Hok; exact Hi |].
  rewrite Hs. destruct (active s); [exact Hc |]. destruct (RegionState.select s) as [m|] eqn:Esel; [|exact Hc]. wp_quiet.
  apply wp_try; [intros next _ | intros; exact Hc].
  destruct (select_range s m Esel) as (_ & q & rest & Eq & Hq). rewrite Eq. cbn [head mbind option_bind].
  pose proof (Forall_lookup_1 _ _ _ _ Hqs Hq) as [[Hmsg _] _]%Forall_cons.
  destruct (request_txn q) as [[t w]|]; [|exact Hc]. change (Some (t, w) ≫= _) with (Some (q, t, w)). cbn iota. wp_quiet.
  apply (wp_sends HP); [|exact Hc | | auto].
  - apply with_txn_ok; [exact Hmsg | apply Hok].
  - intros c1 Hc1. wp_quiet. apply (wp_note HP); auto.
Qed.

Lemma arbitrate_loop_keeps b0 l : forall (b : MultiMasterBus) c,
  keeps b0 b -> Forall (fun i => (i < length (cfg_regions (config b0)))%nat) l -> P c -> keeps_ctx P (arbitrate_loop l : M unit) b c.
Proof.
  induction l as [|i l IH]; intros b c HK Hl Hc; cbn [arbitrate_loop]; [exact Hc |]. apply Forall_cons in Hl as [Hi Hl].
  assert (Hi' : (i < length (regions b))%nat) by (rewrite (keeps_length b0 b HK); exact Hi).
  apply wp_bind. eapply wp_mono; [apply (wp_both _ _ _ _ _ _ (arbitrate_region_settles b0 b c i HK Hi')
    (arbitrate_region_keeps i b c (proj1 HK) Hi' Hc)) | |]; cbn.
  - intros _ [b1 c1] [HK1 Hc1]. apply IH; assumption.
  - intros _ [b1 c1] [_ Hc1]. exact Hc1.
Qed.

Lemma mm_response_keeps i msg (b : MultiMasterBus) c :
  mm_ok b -> 0 <= i < Z.of_nat (length (regions b)) -> mem_msg_ok msg -> P c -> keeps_ctx P (response i msg : M unit) b c.
Proof.
  intros Hok Hi Hm Hc. unfold keeps_ctx, response. destruct (Bus.response_txn msg) as [[t w]|]; [|exact Hc]. wp_quiet.
  case_if; [exact Hc |]. wp_quiet.
  destruct (state_at b (Z.to_nat i) Hok) as (r & s & Hr & Hs & _ & _ & Ha & _); [rewrite <- length_states by exact Hok; lia |].
  rewrite Hs. wp_quiet. apply wp_try; [|intros; exact Hc]. intros a Ea%ok_or_Ok.
  assert (Hact : active s = Some a) by (destruct (active s) as [a'|]; cbn in Ea; [destruct (_ =? _); congruence | discriminate]).
  destruct (Ha a Hact) as (_ & Hot & _). case_if; [exact Hc |]. wp_quiet.
  apply (wp_sends HP); [apply with_txn_ok; assumption | exact Hc | | auto]. intros c1 Hc1. wp_quiet.
  case_if; [|exact Hc1]. apply (wp_wakes HP); [const_range | exact Hc1 | auto..].
Qed.

Lemma mm_keeps ev (b : MultiMasterBus) c : mm_ok b -> delivery_ok ev -> P c -> keeps_ctx P (handle_event ev : M unit) b c.
Proof.
  intros Hok Hev Hc. unfold keeps_ctx, handle_event. wp_quiet. destruct ev as [port [?|msg|?|?]|token]; try exact Hc.
  - destruct Hev as [[Hp _] Hm]. destruct (Z.ltb_spec port (master_count b)); [apply keeping_mm_request; assumption |].
    destruct (Z.ltb_spec (port - master_count b) (Z.of_nat (length (regions b)))); [|exact Hc].
    apply mm_response_keeps; try assumption. lia.
  - case_if; [|exact Hc]. unfold arbitrate. wp_quiet. case_if; [exact Hc |]. wp_quiet.
    apply (arbitrate_loop_keeps b); [apply keeps_refl, Hok | | exact Hc].
    rewrite (length_states b Hok). apply Forall_forall. intros i [_ Hi]%elem_of_seq. exact Hi.
Qed.
End keeps.

Definition soc_mm_ok (b : MultiMasterBus) : Prop := mm_ok b /\ mm_config_typed (config b).

Definition mm_same (b b' : MultiMasterBus) : Prop := config b = config b'.

#[export, refine] Instance MmBus_typed : TypedComponent MultiMasterBus := {
  component_ok := soc_mm_ok;
  same_config := mm_same;
}.
Proof.
  - unfold mm_same. split; congruence.
  - intros b b' E. split; [|auto]. cbn. unfold mm_ports. rewrite E. reflexivity.
  - intros C HC P b c HP Hok Hc. apply wp_ret. split; [exact Hok | split; [reflexivity | exact Hc]].
  - intros ev C HC P b c Hev HP [Hok Ht] Hc. apply (wp_typed soc_mm_ok mm_same); [|apply mm_keeps; assumption].
    eapply wp_mono; [apply (mm_event_settles b c ev Hok) | |]; cbn.
    + destruct ev as [port []|]; cbn; try exact I. destruct Hev as [[Hp _] Hm]. auto.
    + intros _ s (Hok' & Hcfg & _). split; [split; [exact Hok' | rewrite Hcfg; exact Ht] | symmetry; exact Hcfg].
    + intros e s [(Hok' & Hcfg & _) He]. split; [split; [split; [exact Hok' | rewrite Hcfg; exact Ht] | symmetry; exact Hcfg] | exact He].
Defined.

Lemma state_bytes n next r s : state_ok n next r s -> bytes_ok (write_state s).
Proof.
  intros (_ & _ & _ & Hq). unfold write_state, write_active. repeat apply bytes_app; eauto with bytes.
  - destruct (active s); eauto 10 with bytes.
  - apply bytes_bind. eapply Forall_impl; [exact Hq |]. intros q Hqs. unfold write_queue. apply bytes_app; [eauto with bytes |].
    apply bytes_bind. eapply Forall_impl; [exact Hqs |]. intros m [Hm _]. auto with bytes.
Qed.

#[export, refine] Instance MmBus_persistent : PersistentComponent MultiMasterBus := { snapshot_fits := queues_fit }.
Proof.
  - intros. const_range.
  - intros b [(_ & _ & Hf & _) _] _. cbn. unfold snapshot, write_config, Bus.write_region.
    repeat apply bytes_app; eauto with bytes; try solve [apply bytes_bind, Forall_true; eauto with bytes].
    apply bytes_bind. apply Forall_forall. intros s [i Hi]%list_elem_of_lookup.
    destruct (Forall2_lookup_r _ _ _ _ _ Hf Hi) as (r & _ & Hs). exact (state_bytes _ _ _ _ Hs).
  - intros b b' _ [Hok' Ht'] Hs Hf. exact (mm_reads_restore b b' Hok' Hs Ht' Hf).
Defined.
End mmbus.
