(* ===== verification/SocCpu.v ===== *)
(** The RV32I CPU as a component of a session: the [Component] implementation of
    [components/rv32i/src/cpu.rs], its port table and view, and the contracts of [Session] it
    keeps.  A CPU of the [M1] profile adds to its [TxnId] unchecked, so it is the CPUs of the
    other two profiles that never panic. *)
From stdpp Require Import base numbers list option strings.
From Stdlib Require Import ZArith Lia.
From S2P Require Import Prelude Contracts Handlers Snapshots Session Components SocDevices.
From S2P Require Import Instr Decode Execute Memory Csr Privileged Sv32 Cpu CpuProofs CpuSnapshot.

Local Open Scope string_scope.
Local Open Scope list_scope.
Local Open Scope Z_scope.

Definition REG_NAMES : list string :=
  ["x1"; "x2"; "x3"; "x4"; "x5"; "x6"; "x7"; "x8"; "x9"; "x10"; "x11"; "x12"; "x13"; "x14"; "x15";
   "x16"; "x17"; "x18"; "x19"; "x20"; "x21"; "x22"; "x23"; "x24"; "x25"; "x26"; "x27"; "x28";
   "x29"; "x30"; "x31"].

Definition CSR_NAMES : list string :=
  ["mstatus"; "mie"; "mip"; "mtvec"; "mscratch"; "mepc"; "mcause"; "mtval"].

Definition CSR_NAMES_M3 : list string :=
  ["mstatus"; "mie"; "mip"; "mtvec"; "mscratch"; "mepc"; "mcause"; "mtval"; "sstatus"; "sie";
   "sip"; "stvec"; "sscratch"; "sepc"; "scause"; "stval"; "satp"; "medeleg"; "mideleg"].

Definition state_name (s : State) : string :=
  match s with
  | State_FetchIssue _ => "fetch_issue"
  | State_FetchWait _ _ => "fetch_wait"
  | State_MemIssue _ _ _ => "mem_issue"
  | State_MemWait _ _ _ _ => "mem_wait"
  | State_WalkIssue _ => "walk_issue"
  | State_WalkWait _ _ => "walk_wait"
  | State_CommitPending _ _ _ => "commit_pending"
  | State_Halted _ => "halted"
  end.

Definition cpu_ports (cpu : Rv32iCpu) : list PortSpec :=
  mkPortSpec "mem" mem_v1_PROTOCOL Role_Initiator ::
  (if bool_decide (profile (config cpu) <> M1) then [mkPortSpec "irq" irq_v0_PROTOCOL Role_Target] else []).

(** The fields of the CSRs [csrs], or the panic of [expect] on one that is not supported. *)
Definition csr_fields (read : Z -> option Z) (names : list string) (csrs : list Z) : option (list (string * Value)) :=
  mapM (fun '(name, csr) => value ← read csr; Some (name, VU64 value)) (zip names csrs).

(** [inspect]: [None] is its panic. *)
Definition cpu_inspect (cpu : Rv32iCpu) : option (list (string * Value)) :=
  let walk_fields w :=
    [("walk_purpose", VStr match purpose w with Purpose_Fetch => "fetch" | Purpose_Data _ _ => "data" end);
     ("walk_level", VU64 (level w)); ("walk_table", VU64 (table w))] in
  csr_view ←
    match profile (config cpu) with
    | M1 => Some []
    | M2 => csr_fields (CsrFile.read (csrs cpu)) CSR_NAMES Csr.SUPPORTED
    | M3 =>
        fields ← csr_fields (M3State.read (m3 cpu) (csrs cpu)) CSR_NAMES_M3 Privileged.SUPPORTED;
        Some (("priv", VU64 (Privilege.bits (privilege (m3 cpu)))) :: fields)
    end;
  Some
    ([("pc", VU64 (pc cpu))] ++
     ((fun '(name, reg) => (name, VU64 (RegisterFile.read (regs cpu) reg))) <$> zip REG_NAMES stored_registers) ++
     [("instret", VU64 (instret cpu)); ("state", VStr (state_name (state cpu)))] ++
     match state cpu with
     | State_WalkIssue walk | State_WalkWait _ walk => walk_fields walk
     | _ => []
     end ++
     match state cpu with
     | State_Halted (Halt_Trap trap) =>
         [("halt", VStr "trap"); ("cause", VStr (Rv32iCpu.cause_name cpu (trap_cause trap)));
          ("trap_pc", VU64 (trap_pc trap)); ("tval", VU64 (trap_tval trap))]
     | State_Halted Halt_InstructionLimit => [("halt", VStr "instruction_limit")]
     | _ => []
     end ++
     csr_view).

Lemma cpu_inspect_total cpu : is_Some (cpu_inspect cpu).
Proof. unfold cpu_inspect. destruct (profile (config cpu)); cbn; eauto. Qed.

Section cpu.
Context `{SnapshotCodec}.

#[export] Instance Cpu_component : Component Rv32iCpu := {
  type_name _ := "rv32i.cpu";
  ports := cpu_ports;
  component_init C _ := init;
  component_handle ev C _ := handle_event ev;
  snapshot_schema_version := CpuSnapshot.snapshot_schema_version;
  component_snapshot := snapshot;
  component_restore := restore;
}.

#[export] Instance Cpu_uniform : UniformComponent Rv32iCpu.
Proof.
  split; [|intros ev]; intros C D HC HD R HR; cbn.
  - unfold init. uniform_run.
  - unfold handle_event, wake, response, walk_response, irq, commit, commit_trap, commit_csr, commit_pending, retire,
      fetch_next, wake_next_cycle, send, word_of. uniform_run.
Qed.

(** ** The calls *)

Section keeps.
Context {C : Type} `{HC : SimContext C} (P : C -> Prop) (HP : ctx_keeps P).

Local Abbreviation M := (ST (Rv32iCpu * C) Failure).

Lemma keeping_wake_next token : in_u 64 token -> keeping (P := P) (wake_next_cycle token : M unit).
Proof. intros Ht. unfold wake_next_cycle. keeping_run. Qed.

Lemma keeping_commit insn o pa : keeping (P := P) (commit insn o pa : M unit).
Proof.
  unfold commit, commit_trap, commit_csr, retire, fetch_next, wake_next_cycle. keeping_run.
Qed.

Lemma keeping_response msg : keeping (P := P) (response msg : M unit).
Proof. unfold response, walk_response, commit_pending, wake_next_cycle, word_of. keeping_run. Qed.

(** A request of a CPU has operands in range. *)
Lemma send_keeps msg (f : Z -> State) (cpu : Rv32iCpu) c :
  mem_msg_ok (msg (next_txn cpu)) -> P c ->
  keeps_ctx P (txn ← send msg; update (set_state (f txn)) : M unit) cpu c.
Proof.
  intros Hm Hc. unfold keeps_ctx, send. wp_quiet.
  destruct (profile (config cpu)); wp_quiet.
  all: try (apply wp_try; [intros n _ | auto]; wp_quiet); apply (wp_sends HP); [exact Hm | exact Hc | | auto]; intros c1 Hc1; wp_quiet; try exact Hc1.
  destruct (checked_add 64 (next_txn cpu) 1); wp_quiet; exact Hc1.
Qed.

Lemma translated_range t pa va : translated_ok t pa va -> in_u 32 va -> in_u 64 (default va pa).
Proof.
  unfold translated_ok, in_u, PA_BITS. destruct t, pa as [pa|]; cbn; try contradiction; intros; lia.
Qed.

Lemma plan_request_ok plan pa txn :
  plan_ok plan -> in_u 64 pa -> in_u 64 txn -> mem_msg_ok (plan_request plan pa txn).
Proof.
  intros [_ Hp] Ha Ht. destruct plan as [l|st]; cbn; split_and!; try assumption; [|apply Hp].
  destruct (lp_width l); const_range.
Qed.

Lemma pte_address_range t va lvl : in_u 22 t -> in_u 32 va -> lvl = 0 \/ lvl = 1 -> in_u 64 (pte_address t va lvl).
Proof.
  intros Ht Hva Hl. assert (Hv : 0 <= vpn va lvl < 2 ^ 10) by (rewrite vpn_spec by lia; apply Z.mod_pos_bound; lia).
  unfold pte_address, PAGE_SIZE, in_u in *. lia.
Qed.

Lemma wake_keeps token (cpu : Rv32iCpu) c : cpu_ok cpu -> P c -> keeps_ctx P (wake token : M unit) cpu c.
Proof.
  intros Hok Hc. pose proof Hok as ((_ & [Hpc _] & _ & Hn & _) & Hst & _). unfold state_ok in Hst.
  unfold keeps_ctx, wake. apply wp_bind, wp_self.
  destruct (state cpu) as [pa| |insn plan pa| |w| |insn o pa|] eqn:Es; try exact Hc; case_if; try exact Hc; cbn zeta.
  - apply send_keeps; [|exact Hc]. split_and!; [exact Hn | eapply translated_range; eassumption | const_range].
  - destruct Hst as [Hp Hpa]. pose proof (pending_plan_ok cpu insn plan Hok Hp) as Hpl.
    apply send_keeps; [|exact Hc]. apply plan_request_ok; [exact Hpl | eapply translated_range; [exact Hpa | apply Hpl] | exact Hn].
  - pose proof (walk_va_range cpu w Hok Hst) as Hva. destruct Hst as (_ & Hl & Ht & _).
    apply send_keeps; [|exact Hc]. split_and!; [exact Hn | apply pte_address_range; assumption | const_range].
  - apply keeping_commit, Hc.
Qed.

Lemma cpu_keeps ev (cpu : Rv32iCpu) c : cpu_ok cpu -> P c -> keeps_ctx P (handle_event ev : M unit) cpu c.
Proof.
  intros Hok Hc. unfold keeps_ctx, handle_event. apply wp_bind, wp_self. destruct ev as [port msg|token]; [|apply wake_keeps; assumption].
  destruct (profile (config cpu)); [destruct msg; try exact Hc; apply keeping_response, Hc|..].
  all: case_if; [destruct msg; try exact Hc; apply keeping_response, Hc |]; case_if; [|exact Hc]; destruct msg as [| |m|]; try exact Hc.
  all: unfold irq; wp_quiet; case_if; [exact Hc |]; destruct m; exact Hc.
Qed.
End keeps.

Definition soc_cpu_ok (cpu : Rv32iCpu) : Prop := cpu_ok cpu /\ profile (config cpu) <> M1.

Definition cpu_same (cpu cpu' : Rv32iCpu) : Prop := config cpu = config cpu'.

#[export, refine] Instance Cpu_typed : TypedComponent Rv32iCpu := {
  component_ok := soc_cpu_ok;
  same_config := cpu_same;
}.
Proof.
  - unfold cpu_same. split; congruence.
  - intros cpu cpu' E. cbn. unfold cpu_ports, CpuSnapshot.snapshot_schema_version. rewrite E. auto.
  - intros C HC P cpu c HP Hok Hc. cbn. unfold init. wp_quiet. apply (wp_wakes HP); [const_range | exact Hc | |].
    + intros c1 Hc1. split; [exact Hok | split; [reflexivity | exact Hc1]].
    + intros e c1 Hc1. split; [eauto | split; [reflexivity | exact Hc1]].
  - intros ev C HC P cpu c Hev HP [Hok Hp] Hc. apply (wp_typed soc_cpu_ok cpu_same); [|apply cpu_keeps; assumption].
    eapply wp_mono; [apply (handle_event_settles cpu ev c Hok) | |]; cbn.
    + intros E. contradiction.
    + destruct ev as [port []|]; cbn; try exact I. apply Hev.
    + intros _ s (Hok' & [Hcfg _] & _). split; [split; [exact Hok' | rewrite Hcfg; exact Hp] | symmetry; exact Hcfg].
    + intros e s [(Hok' & [Hcfg _] & _) He]. split; [|exact He].
      split; [split; [exact Hok' | rewrite Hcfg; exact Hp] | symmetry; exact Hcfg].
Defined.

Lemma cpu_snapshot_bytes cpu : bytes_ok (snapshot cpu).
Proof.
  unfold snapshot, write_config, write_regs, write_state, write_walk, write_outcome, write_cause, write_pa, write_csrs, write_m3.
  repeat first [apply bytes_app | apply bytes_bind, Forall_true; intros ? | case_match | solve [auto with bytes | constructor]].
Qed.

#[export, refine] Instance Cpu_persistent : PersistentComponent Rv32iCpu := { snapshot_fits _ := True }.
Proof.
  - intros cpu. cbn. unfold CpuSnapshot.snapshot_schema_version. destruct (profile (config cpu)); const_range.
  - intros cpu _ _. cbn. apply cpu_snapshot_bytes.
  - intros self cpu [Hself _] [Hok _] Hs _. apply reads_restore; assumption.
Defined.
End cpu.
