(* ===== verification/Logs.v ===== *)
(** What a handler sends, in any context.

    [Logged C] is any context [C] with a log of the messages and wakes it accepted and a mark
    that it refused one.  [runs ph m s log Q] says: in any such context, in phase [ph], from the
    state [s] and the log [log], [m] returns a value, a state and a log satisfying [Q], or stops
    with the error of a call the context refused; it never fails by itself and never panics. *)
From stdpp Require Import base numbers list option strings.
From Stdlib Require Import ZArith Lia.
From S2P Require Import Prelude Contracts Handlers Session Components.

Local Open Scope string_scope.
Local Open Scope list_scope.
Local Open Scope Z_scope.

Record Logged (C : Type) : Type := mkLogged { l_phase : Phase; l_ctx : C; l_log : list Effect; l_refused : bool }.
Arguments mkLogged {C} _ _ _ _.
Arguments l_phase {C} _.
Arguments l_ctx {C} _.
Arguments l_log {C} _.
Arguments l_refused {C} _.

(** A call: logged when it is accepted. *)
Definition logged {C} (e : Effect) (l : Logged C) (out : C * result SimError unit) : Logged C * result SimError unit :=
  match snd out with
  | Ok _ => (mkLogged (l_phase l) (fst out) (l_log l ++ [e]) (l_refused l), snd out)
  | Err _ => (mkLogged (l_phase l) (fst out) (l_log l) true, snd out)
  end.

#[export] Instance logged_context {C} `{SimContext C} : SimContext (Logged C) := {
  ctx_component l := ctx_component (l_ctx l);
  ctx_now l := ctx_now (l_ctx l);
  ctx_phase := l_phase;
  ctx_next_u64 l := (mkLogged (l_phase l) (fst (ctx_next_u64 (l_ctx l))) (l_log l) (l_refused l), snd (ctx_next_u64 (l_ctx l)));
  ctx_send port msg when ph l := logged (Sent port msg when ph) l (ctx_send port msg when ph (l_ctx l));
  ctx_wake_self when ph token l := logged (Woken when ph token) l (ctx_wake_self when ph token (l_ctx l));
  ctx_trace kind fields l := mkLogged (l_phase l) (ctx_trace kind fields (l_ctx l)) (l_log l) (l_refused l);
}.

(** The error of a call some context of the class refuses. *)
Definition refused_by (C : Type) `{SimContext C} (e : SimError) : Prop :=
  (exists port msg when ph c, snd (ctx_send port msg when ph c) = Err e) \/
  (exists when ph token c, snd (ctx_wake_self when ph token c) = Err e).

Section runs.
Context {S : Type} (ph : Phase).

Definition runs {A} (m : forall C `{SimContext C}, ST (S * C) Failure A) (s : S) (log : list Effect)
    (Q : A -> S -> list Effect -> Prop) : Prop :=
  forall C `(SimContext C) (c : C),
    wp (m (Logged C)) (fun a '(s', l) => l_phase l = ph /\ l_refused l = false /\ Q a s' (l_log l))
      (fun e '(_, l) => (exists e', e = Fails e' /\ refused_by C e') /\ l_refused l = true) (s, mkLogged ph c log false).

Lemma runs_mono {A} (m : forall C `{SimContext C}, ST (S * C) Failure A) s log (Q Q' : A -> S -> list Effect -> Prop) :
  (forall a s' l, Q a s' l -> Q' a s' l) -> runs m s log Q -> runs m s log Q'.
Proof.
  intros HQ Hm C HC c. eapply wp_mono; [apply Hm | | auto]. intros a [s' l] (? & ? & ?). auto.
Qed.

Lemma runs_bind {A B} (m : forall C `{SimContext C}, ST (S * C) Failure A) (f : forall C `{SimContext C}, A -> ST (S * C) Failure B) s log Q :
  runs m s log (fun a s' log' => runs (fun C _ => f C a) s' log' Q) ->
  runs (fun C _ => mbind (M := ST (S * C) Failure) (f C) (m C)) s log Q.
Proof.
  intros Hm C HC c. apply wp_bind. eapply wp_mono; [apply (Hm C HC c) | | auto].
  intros a [s' [ph' c' log' r]] (Hp & Hr & Hq). cbn in Hp, Hr, Hq. subst ph' r. apply Hq.
Qed.

Lemma runs_ret {A} (a : A) s log (Q : A -> S -> list Effect -> Prop) : Q a s log -> runs (fun C _ => mret a) s log Q.
Proof. intros HQ C HC c. apply wp_ret. cbn. auto. Qed.

Lemma runs_self s log (Q : S -> S -> list Effect -> Prop) : Q s s log -> runs (fun C _ => self) s log Q.
Proof. intros HQ C HC c. apply wp_self. cbn. auto. Qed.

Lemma runs_update f s log (Q : unit -> S -> list Effect -> Prop) : Q tt (f s) log -> runs (fun C _ => update f) s log Q.
Proof. intros HQ C HC c. apply wp_update. cbn. auto. Qed.

Lemma runs_phase s log (Q : Phase -> S -> list Effect -> Prop) : Q ph s log -> runs (fun C _ => phase_of_event) s log Q.
Proof. intros HQ C HC c. cbn. auto. Qed.

Lemma runs_try {A} (r : result SimError A) a s log (Q : A -> S -> list Effect -> Prop) :
  r = Ok a -> Q a s log -> runs (fun C _ => try r) s log Q.
Proof. intros -> HQ C HC c. cbn. auto. Qed.

Lemma runs_trace k fs s log (Q : unit -> S -> list Effect -> Prop) : Q tt s log -> runs (fun C _ => trace k fs) s log Q.
Proof. intros HQ C HC c. cbn. auto. Qed.

Lemma runs_send port msg when ph' s log (Q : unit -> S -> list Effect -> Prop) :
  Q tt s (log ++ [Sent port msg when ph']) -> runs (fun C _ => call (ctx_send port msg when ph')) s log Q.
Proof.
  intros HQ C HC c. unfold wp, call. cbn [ctx_send logged_context l_ctx]. unfold logged.
  destruct (ctx_send port msg when ph' c) as [c' [[]|e]] eqn:E; cbn; [eauto |].
  split; [|reflexivity]. exists e. split; [reflexivity |]. left. exists port, msg, when, ph', c. rewrite E. reflexivity.
Qed.

Lemma runs_wake when ph' token s log (Q : unit -> S -> list Effect -> Prop) :
  Q tt s (log ++ [Woken when ph' token]) -> runs (fun C _ => call (ctx_wake_self when ph' token)) s log Q.
Proof.
  intros HQ C HC c. unfold wp, call. cbn [ctx_wake_self logged_context l_ctx]. unfold logged.
  destruct (ctx_wake_self when ph' token c) as [c' [[]|e]] eqn:E; cbn; [eauto |].
  split; [|reflexivity]. exists e. split; [reflexivity |]. right. exists when, ph', token, c. rewrite E. reflexivity.
Qed.

Lemma runs_u64 s log (Q : Z -> S -> list Effect -> Prop) : (forall x, Q x s log) -> runs (fun C _ => draw_u64) s log Q.
Proof. intros HQ C HC c. cbn. auto. Qed.

Lemma runs_below `{SimRng} n s log (Q : Z -> S -> list Effect -> Prop) :
  0 < n -> (forall x, 0 <= x < n -> Q x s log) -> runs (fun C _ => draw_below n) s log Q.
Proof.
  intros Hn HQ C HC c. unfold wp, draw_below, draw.
  pose proof (below_keeps n (Logged C) _ (fun l => l_phase l = ph /\ l_log l = log /\ l_refused l = false) (mkLogged ph c log false)) as Hk.
  pose proof (below_range n (Logged C) _ (mkLogged ph c log false) Hn) as Hr.
  destruct (below n (Logged C) _) as [l x]. cbn in Hk, Hr. destruct Hk as (-> & -> & ->); auto.
Qed.

Lemma runs_chance `{SimRng} num den s log (Q : bool -> S -> list Effect -> Prop) :
  (forall x, Q x s log) -> runs (fun C _ => draw_chance num den) s log Q.
Proof.
  intros HQ C HC c. unfold wp, draw_chance, draw. rewrite chance_doc.
  pose proof (below_keeps den (Logged C) _ (fun l => l_phase l = ph /\ l_log l = log /\ l_refused l = false) (mkLogged ph c log false)) as Hk.
  destruct (below den (Logged C) _) as [l x]. cbn in *. destruct Hk as (-> & -> & ->); auto.
Qed.

Lemma runs_incr x s log (Q : Z -> S -> list Effect -> Prop) :
  0 <= x < 2 ^ 64 - 1 -> Q (x + 1) s log -> runs (fun C _ => incr x) s log Q.
Proof. intros Hx HQ C HC c. apply wp_incr; [exact Hx |]. cbn. auto. Qed.
End runs.

(** One step of a handler. *)
Ltac log_step :=
  lazymatch goal with
  | |- runs _ (fun _ _ => mbind _ _) _ _ _ => apply (runs_bind _)
  | |- runs _ (fun _ _ => mret _) _ _ _ => apply runs_ret
  | |- runs _ (fun _ _ => self) _ _ _ => apply runs_self
  | |- runs _ (fun _ _ => update _) _ _ _ => apply runs_update
  | |- runs _ (fun _ _ => trace _ _) _ _ _ => apply runs_trace
  | |- runs _ (fun _ _ => phase_of_event) _ _ _ => apply runs_phase
  | |- runs _ (@phase_of_event _) _ _ _ => apply runs_phase
  | |- runs _ (fun _ _ => call (ctx_send _ _ _ _)) _ _ _ => apply runs_send
  | |- runs _ (fun _ _ => call (ctx_wake_self _ _ _)) _ _ _ => apply runs_wake
  end.
Ltac log_run := repeat (log_step; cbn beta iota zeta).
