(* ===== verification/ToyMemory.v ===== *)
(** The memory of the M0 reference system, [components/toy/src/memory.rs]: every request takes
    effect when it is dispatched and is answered after a fixed latency.

    The instances give a session what it asks of a component ([Session]); that a write and a
    read of other bytes do not disturb each other is in [ToyJobs]. *)
From stdpp Require Import base numbers list option strings gmap.
From Stdlib Require Import ZArith Lia.
From S2P Require Import Prelude Contracts Handlers Snapshots Session Components Platform.

Local Open Scope string_scope.
Local Open Scope list_scope.
Local Open Scope Z_scope.

Definition PORT : Z := 0.
Definition SNAPSHOT_SCHEMA : Z := 1.

(** The latencies are femtoseconds. *)
Record ToyMemoryConfig : Set := mkToyMemoryConfig { size : Z; read_latency : Z; write_latency : Z }.

Record ToyMemory : Set := mkToyMemory { config : ToyMemoryConfig; bytes : list Z }.

#[export] Instance ToyMemoryConfig_eq_dec : EqDecision ToyMemoryConfig.
Proof. solve_decision. Defined.
#[export] Instance ToyMemory_eq_dec : EqDecision ToyMemory.
Proof. solve_decision. Defined.

Definition set_bytes (bs : list Z) (m : ToyMemory) : ToyMemory := mkToyMemory (config m) bs.

Definition new (cfg : ToyMemoryConfig) : ToyMemory := mkToyMemory cfg (replicate (Z.to_nat (size cfg)) 0).

(** The start of the range; its end is [len] later. *)
Definition range (m : ToyMemory) (addr len : Z) : result SimError nat :=
  ok_or (e ← checked_add 64 addr len; if e <=? Z.of_nat (length (bytes m)) then Some (Z.to_nat addr) else None)
    (ComponentFault "toy memory: address out of range").

(** [self.bytes[range].copy_from_slice(data)]. *)
Definition write_at (at_ : nat) (data bs : list Z) : list Z := take at_ bs ++ data ++ drop (at_ + length data) bs.

Section handlers.
Context {C : Type} `{SimContext C}.

Local Abbreviation M := (ST (ToyMemory * C) Failure).

Definition init : M unit := mret tt.

(** The response and its latency. *)
Definition respond (msg : MemMsgV0) : M (MemMsgV0 * Z) :=
  m ← self;
  match msg with
  | V0_ReadReq txn addr len =>
      start ← try (range m addr len);
      let data := take (Z.to_nat len) (drop start (bytes m)) in
      mret (V0_ReadResp txn data, read_latency (config m))
  | V0_WriteReq txn addr data =>
      start ← try (range m addr (Z.of_nat (length data)));
      update (set_bytes (write_at start data (bytes m)));;
      mret (V0_WriteResp txn, write_latency (config m))
  | V0_ReadResp _ _ | V0_WriteResp _ => fault "toy memory: response on target port"
  end.

Definition handle_event (ev : Delivered) : M unit :=
  match ev with
  | Delivered_Message _ (Message_Mem msg) =>
      '(resp, latency) ← respond msg;
      call (ctx_send PORT (Message_Mem resp) (When_After latency) Phase_Complete)
  | _ => fault "toy memory: unexpected delivery"
  end.
End handlers.

Definition inspect (m : ToyMemory) : list (string * Value) := [("size", VU64 (size (config m)))].

Section snapshot.
Context `{SnapshotCodec}.

Local Abbreviation R := (ST (list Z) RestoreError).

Definition write_config (m : ToyMemory) : list Z :=
  put_u32 (size (config m)) ++ put_u128 (read_latency (config m)) ++ put_u128 (write_latency (config m)).

Definition snapshot (m : ToyMemory) : list Z := write_config m ++ put_bytes (bytes m).

Definition restore (m : ToyMemory) : R ToyMemory :=
  expect_raw (write_config m) "toy memory: snapshot was taken with a different configuration";;
  bs ← rd get_bytes;
  check (length bs =? length (bytes m))%nat "toy memory: wrong content size";;
  mret (set_bytes bs m).
End snapshot.

(** * Contracts *)

Definition toy_memory_ok (m : ToyMemory) : Prop :=
  in_u 32 (size (config m)) /\ Z.of_nat (length (bytes m)) = size (config m) /\ bytes_ok (bytes m).

Lemma toy_memory_new_ok cfg : in_u 32 (size cfg) -> toy_memory_ok (new cfg).
Proof.
  intros Hs. split; [exact Hs |]. cbn. rewrite length_replicate, Z2Nat.id by apply Hs.
  split; [reflexivity |]. apply Forall_replicate. const_range.
Qed.

Lemma range_Ok m addr len start :
  0 <= addr -> 0 <= len -> range m addr len = Ok start ->
  start = Z.to_nat addr /\ addr + len <= Z.of_nat (length (bytes m)).
Proof.
  intros Ha Hl. unfold range. destruct (checked_add 64 addr len) as [e|] eqn:E; cbn; [|discriminate].
  apply checked_add_Some in E as [-> _]. destruct (Z.leb_spec (addr + len) (Z.of_nat (length (bytes m)))); cbn; [|discriminate].
  intros [= <-]. auto.
Qed.

Lemma length_write_at at_ data bs :
  (at_ + length data <= length bs)%nat -> length (write_at at_ data bs) = length bs.
Proof. intros. unfold write_at. rewrite !length_app, length_take, length_drop. lia. Qed.

Lemma write_at_ok at_ data bs : bytes_ok data -> bytes_ok bs -> bytes_ok (write_at at_ data bs).
Proof. intros. apply bytes_app; [apply Forall_take | apply bytes_app; [|apply Forall_drop]]; assumption. Qed.

Section contracts.
Context `{SnapshotCodec}.

#[export] Instance ToyMemory_component : Component ToyMemory := {
  type_name _ := "toy.memory";
  ports _ := [mkPortSpec "mem" mem_v0_PROTOCOL Role_Target];
  component_init C _ := init;
  component_handle ev C _ := handle_event ev;
  snapshot_schema_version _ := SNAPSHOT_SCHEMA;
  component_snapshot := snapshot;
  component_restore m _ := restore m;
}.

#[export] Instance ToyMemory_uniform : UniformComponent ToyMemory.
Proof.
  split; [|intros ev]; intros C D HC HD R HR; cbn.
  - unfold init. uniform_run.
  - unfold handle_event, respond. uniform_run.
Qed.

Lemma toy_memory_respond {C} `{SimContext C} (m : ToyMemory) (c : C) msg :
  toy_memory_ok m -> mem_v0_ok msg ->
  wp (respond msg : ST (ToyMemory * C) Failure _)
    (fun a '(m', c') => toy_memory_ok m' /\ config m' = config m /\ c' = c /\ mem_v0_ok (fst a))
    (fun e '(m', c') => (exists e', e = Fails e') /\ m' = m /\ c' = c) (m, c).
Proof.
  intros (Hs & Hl & Hb) Hm. unfold respond. wp_run. destruct msg as [txn addr len|txn data|txn addr data|txn]; cbn in Hm.
  - deconj. wp_run. apply wp_try; [|intros e ?; cbn; eauto]. intros start E. wp_run. cbn.
    split; [split_and!; assumption |]. split_and!; try reflexivity; [assumption |]. apply Forall_take, Forall_drop, Hb.
  - apply wp_fault. cbn. eauto.
  - deconj. wp_run. apply wp_try; [|intros e ?; cbn; eauto]. intros start E.
    apply range_Ok in E as [-> Hr]; [| unfold in_u in *; lia | lia]. wp_run. cbn. split; [|auto].
    split; [exact Hs |]. cbn. unfold in_u in *. rewrite length_write_at by lia. split; [exact Hl |].
    apply write_at_ok; assumption.
  - apply wp_fault. cbn. eauto.
Qed.

#[export, refine] Instance ToyMemory_typed : TypedComponent ToyMemory := {
  component_ok := toy_memory_ok;
  same_config m m' := config m = config m' /\ length (bytes m) = length (bytes m');
}.
Proof.
  - split; [split; reflexivity | intros ? ? []; split; symmetry; assumption |].
    intros ? ? ? [] []. split; etransitivity; eassumption.
  - intros m m' _. auto.
  - intros C HC P m c HP Hm Hc. cbn. unfold init. wp_run. auto.
  - intros ev C HC P m c Hev HP Hm Hc. cbn. unfold handle_event.
    assert (Hfault : forall what, wp (fault what : ST (ToyMemory * C) Failure unit)
      (fun _ '(b', c') => toy_memory_ok b' /\ (config m = config b' /\ length (bytes m) = length (bytes b')) /\ P c')
      (fun e '(b', c') => (exists e', e = Fails e') /\ (config m = config b' /\ length (bytes m) = length (bytes b')) /\ P c') (m, c))
      by (intros; apply wp_fault; cbn; eauto).
    destruct ev as [port [msg| | |]|]; try apply Hfault. destruct Hev as [_ Hmsg]. wp_run.
    eapply wp_mono; [apply (toy_memory_respond m c msg Hm Hmsg) | |].
    + intros [resp lat] [m' c'] (Hm' & Hc' & -> & Hresp). apply (wp_sends HP); [exact Hresp | exact Hc | |].
      * intros c1 Hc1. split; [exact Hm' |]. split; [|exact Hc1]. split; [congruence |].
        destruct Hm as (_ & Hl & _), Hm' as (_ & Hl' & _). rewrite Hc' in Hl'. lia.
      * intros e c1 Hc1. split; [eauto |]. split; [|exact Hc1]. split; [congruence |].
        destruct Hm as (_ & Hl & _), Hm' as (_ & Hl' & _). rewrite Hc' in Hl'. lia.
    + intros e [m' c'] (He & -> & ->). auto.
Defined.

#[export, refine] Instance ToyMemory_persistent : PersistentComponent ToyMemory := {
  snapshot_fits _ := True;
}.
Proof.
  - intros. const_range.
  - intros m (_ & _ & Hb) _. cbn. unfold snapshot, write_config. eauto 10 with bytes.
  - intros m m' (Hs & Hl & Hb) (Hs' & Hl' & Hb') [Ec El] _. cbn. unfold restore, snapshot.
    replace (write_config m') with (write_config m) by (unfold write_config; rewrite Ec; reflexivity).
    eapply reads_bind; [apply reads_expect_raw |]. eapply reads_last; [apply reads_bytes; [exact Hb' | rewrite Hl'; exact Hs'] |].
    eapply reads_then; [apply reads_check, Nat.eqb_eq; congruence |].
    replace (set_bytes (bytes m') m) with m' by (destruct m, m'; cbn in *; subst; reflexivity). apply reads_ret.
Defined.
End contracts.
