(* ===== verification/ToyCpu.v ===== *)
(** The CPU of the M0 reference system, [components/toy/src/cpu.rs]: a generator of reads and
    writes that checks every read against its own copy of what it has written.

    The maps are [gmap]s (the [BTreeMap]s are iterated in key order by the snapshot only).
    Every choice is a draw of the context's random stream.  [fill] draws eight bytes at a
    time; its fuel is the number of bytes, and each round adds eight. *)
From stdpp Require Import base numbers list option strings gmap.
From Stdlib Require Import ZArith Lia.
From S2P Require Import Prelude Contracts Handlers Snapshots Session Components Platform.

Local Open Scope string_scope.
Local Open Scope list_scope.
Local Open Scope Z_scope.

Definition PORT : Z := 0.
Definition ISSUE : Z := 0.
Definition COMMIT : Z := 1.
Definition SNAPSHOT_SCHEMA : Z := 1.

Record ToyCpuConfig : Set := mkToyCpuConfig {
  clock : Z; ops : Z; max_outstanding : Z; max_think_cycles : Z; access_len : Z; slots : Z;
  write_percent : Z }.

#[export] Instance ToyCpuConfig_eq_dec : EqDecision ToyCpuConfig.
Proof. solve_decision. Defined.

Inductive Op : Set :=
| Op_Read (addr : Z)
| Op_Write (addr : Z) (data : list Z).

#[export] Instance Op_eq_dec : EqDecision Op.
Proof. solve_decision. Defined.

Module Op.
Definition addr (op : Op) : Z := match op with Op_Read addr | Op_Write addr _ => addr end.
End Op.

Record ToyCpu : Set := mkToyCpu {
  config : ToyCpuConfig;
  issued : Z;
  committed : Z;
  next_txn : Z;
  issue_scheduled : bool;
  commit_scheduled : bool;
  outstanding : gmap Z Op;
  arrived : list (Z * option (list Z));
  shadow : gmap Z (list Z);
  checksum : Z;
}.

Definition new (cfg : ToyCpuConfig) : ToyCpu := mkToyCpu cfg 0 0 0 false false ∅ [] ∅ 0.

Definition set_issued (n : Z) (u : ToyCpu) : ToyCpu :=
  mkToyCpu (config u) n (committed u) (next_txn u) (issue_scheduled u) (commit_scheduled u)
    (outstanding u) (arrived u) (shadow u) (checksum u).
Definition set_committed (n : Z) (u : ToyCpu) : ToyCpu :=
  mkToyCpu (config u) (issued u) n (next_txn u) (issue_scheduled u) (commit_scheduled u)
    (outstanding u) (arrived u) (shadow u) (checksum u).
Definition set_next_txn (n : Z) (u : ToyCpu) : ToyCpu :=
  mkToyCpu (config u) (issued u) (committed u) n (issue_scheduled u) (commit_scheduled u)
    (outstanding u) (arrived u) (shadow u) (checksum u).
Definition set_issue_scheduled (b : bool) (u : ToyCpu) : ToyCpu :=
  mkToyCpu (config u) (issued u) (committed u) (next_txn u) b (commit_scheduled u)
    (outstanding u) (arrived u) (shadow u) (checksum u).
Definition set_commit_scheduled (b : bool) (u : ToyCpu) : ToyCpu :=
  mkToyCpu (config u) (issued u) (committed u) (next_txn u) (issue_scheduled u) b
    (outstanding u) (arrived u) (shadow u) (checksum u).
Definition set_outstanding (m : gmap Z Op) (u : ToyCpu) : ToyCpu :=
  mkToyCpu (config u) (issued u) (committed u) (next_txn u) (issue_scheduled u) (commit_scheduled u)
    m (arrived u) (shadow u) (checksum u).
Definition set_arrived (l : list (Z * option (list Z))) (u : ToyCpu) : ToyCpu :=
  mkToyCpu (config u) (issued u) (committed u) (next_txn u) (issue_scheduled u) (commit_scheduled u)
    (outstanding u) l (shadow u) (checksum u).
Definition set_shadow (m : gmap Z (list Z)) (u : ToyCpu) : ToyCpu :=
  mkToyCpu (config u) (issued u) (committed u) (next_txn u) (issue_scheduled u) (commit_scheduled u)
    (outstanding u) (arrived u) m (checksum u).

(** [(self.checksum ^ word).wrapping_mul(..)]. *)
Definition fold (u : ToyCpu) (word : Z) : ToyCpu :=
  mkToyCpu (config u) (issued u) (committed u) (next_txn u) (issue_scheduled u) (commit_scheduled u)
    (outstanding u) (arrived u) (shadow u) (wrap 64 (Z.lxor (checksum u) word * 0x100000001b3)).

Definition can_issue (u : ToyCpu) : bool :=
  (issued u <? ops (config u)) && (Z.of_nat (size (outstanding u)) <? max_outstanding (config u)).

Definition busy (u : ToyCpu) (addr : Z) : bool :=
  existsb (fun e => Op.addr (snd e) =? addr) (map_to_list (outstanding u)).

(** The first slot from [start], cyclically, with nothing in flight. *)
Definition free_slot (u : ToyCpu) (start : Z) : option Z :=
  let n := slots (config u) in
  List.find (fun addr => negb (busy u addr))
    ((fun i => (start + i) mod n * access_len (config u)) <$> seqZ 0 n).

Section handlers.
Context {C : Type} `{SimContext C, SimRng}.

Local Abbreviation M := (ST (ToyCpu * C) Failure).

Definition schedule_issue : M unit :=
  u ← self;
  n ← draw_below (max_think_cycles (config u));
  call (ctx_wake_self (When_Cycles (clock (config u)) (1 + n)) Phase_Request ISSUE);;
  update (set_issue_scheduled true).

(** [while data.len() < len { data.extend_from_slice(&ctx.rng().next_u64().to_le_bytes()) }]. *)
Fixpoint fill (fuel len : nat) (data : list Z) : M (list Z) :=
  if negb (length data <? len)%nat then mret data
  else
    match fuel with
    | O => panic "out of fuel"
    | S fuel => x ← draw_u64; fill fuel len (data ++ to_le 8 x)
    end.

Definition choose_op (u : ToyCpu) (addr : Z) : M Op :=
  write ← draw_chance (write_percent (config u)) 100;
  if write : bool then
    let len := Z.to_nat (access_len (config u)) in
    data ← fill len len [];
    mret (Op_Write addr (take len data))
  else mret (Op_Read addr).

Definition issue : M unit :=
  u ← self;
  if slots (config u) =? 0 then fault "toy cpu: no slots"
  else
    start ← draw_below (slots (config u));
    addr ← try (ok_or (free_slot u start) (ComponentFault "toy cpu: every slot is busy"));
    op ← choose_op u addr;
    let txn := next_txn u in
    n ← incr txn;
    update (set_next_txn n);;
    let msg :=
      match op with
      | Op_Read addr => V0_ReadReq txn addr (access_len (config u))
      | Op_Write addr data => V0_WriteReq txn addr data
      end in
    call (ctx_send PORT (Message_Mem msg) When_Now Phase_Request);;
    let write := match op with Op_Write _ _ => true | Op_Read _ => false end in
    trace "toy.cpu.issue" [("txn", VU64 txn); ("addr", VU64 (Op.addr op)); ("write", VBool write)];;
    update (fun u => set_outstanding (<[txn := op]> (outstanding u)) u);;
    u ← self;
    n ← incr (issued u);
    update (set_issued n).

(** The end of an iteration of [commit]: the checksum and the count. *)
Definition fold_commit (tag txn addr : Z) (bytes : list Z) : M unit :=
  update (fun u => foldl fold u [tag; txn; addr]);;
  update (fun u => foldl fold u bytes);;
  u ← self;
  n ← incr (committed u);
  update (set_committed n);;
  trace "toy.cpu.commit" [("txn", VU64 txn); ("checksum", VU64 (checksum u))].

(** The body of the loop of [commit]. *)
Definition commit_one (e : Z * option (list Z)) : M unit :=
  let '(txn, data) := e in
  u ← self;
  op ← try (ok_or (outstanding u !! txn) (ComponentFault "toy cpu: response for unknown txn"));
  update (fun u => set_outstanding (delete txn (outstanding u)) u);;
  '(tag, addr, bytes) ←
    match op, data with
    | Op_Read addr, Some data =>
        let zeros := replicate (Z.to_nat (access_len (config u))) 0 in
        let expected := default zeros (shadow u !! addr) in
        if negb (bool_decide (data = expected)) then fault "toy cpu: read mismatch"
        else mret (0, addr, data)
    | Op_Write addr data, None =>
        update (fun u => set_shadow (<[addr := data]> (shadow u)) u);;
        mret (1, addr, data)
    | _, _ => fault "toy cpu: response kind mismatch"
    end;
  fold_commit tag txn addr bytes.

Fixpoint commit_loop (l : list (Z * option (list Z))) : M unit :=
  match l with
  | [] => mret tt
  | e :: l => commit_one e;; commit_loop l
  end.

Definition commit : M unit :=
  u ← self;
  update (set_arrived []);;
  commit_loop (arrived u).

Definition init : M unit :=
  u ← self;
  if (max_outstanding (config u) =? 0) || (slots (config u) <=? max_outstanding (config u)) then
    fault "toy cpu: max_outstanding must be in 1..slots"
  else if 0 <? ops (config u) then schedule_issue else mret tt.

Definition arrival (msg : MemMsgV0) : option (Z * option (list Z)) :=
  match msg with
  | V0_ReadResp txn data => Some (txn, Some data)
  | V0_WriteResp txn => Some (txn, None)
  | _ => None
  end.

Definition handle_event (ev : Delivered) : M unit :=
  match ev with
  | Delivered_Wake token =>
      if token =? ISSUE then
        update (set_issue_scheduled false);;
        u ← self;
        (if can_issue u then issue else mret tt);;
        u ← self;
        if can_issue u then schedule_issue else mret tt
      else if token =? COMMIT then
        update (set_commit_scheduled false);;
        commit;;
        u ← self;
        if negb (issue_scheduled u) && can_issue u then schedule_issue else mret tt
      else fault "toy cpu: unknown wake token"
  | Delivered_Message _ (Message_MemV1 _) => fault "toy cpu: mem.v1 message"
  | Delivered_Message _ (Message_Irq _ | Message_Block _) => fault "toy cpu: non-mem message"
  | Delivered_Message _ (Message_Mem msg) =>
      a ← try (ok_or (arrival msg) (ComponentFault "toy cpu: request on initiator port"));
      update (fun u => set_arrived (arrived u ++ [a]) u);;
      u ← self;
      if negb (commit_scheduled u) then
        call (ctx_wake_self When_Now Phase_Commit COMMIT);;
        update (set_commit_scheduled true)
      else mret tt
  end.
End handlers.

Definition inspect (u : ToyCpu) : list (string * Value) :=
  [("issued", VU64 (issued u)); ("committed", VU64 (committed u)); ("next_txn", VU64 (next_txn u));
   ("outstanding", VU64 (Z.of_nat (size (outstanding u)))); ("arrived", VU64 (Z.of_nat (length (arrived u))));
   ("checksum", VU64 (checksum u))].

(** * Snapshots *)

Section snapshot.
Context `{SnapshotCodec}.

Local Abbreviation R := (ST (list Z) RestoreError).

Definition write_config (u : ToyCpu) : list Z :=
  let c := config u in
  put_u32 (clock c) ++ put_u64 (ops c) ++ put_u32 (max_outstanding c) ++ put_u64 (max_think_cycles c) ++
  put_u32 (access_len c) ++ put_u32 (slots c) ++ put_u64 (write_percent c).

Definition write_op (op : Op) : list Z :=
  match op with
  | Op_Read addr => put_u8 0 ++ put_u64 addr
  | Op_Write addr data => put_u8 1 ++ put_u64 addr ++ put_bytes data
  end.

Definition write_arrival (a : Z * option (list Z)) : list Z :=
  put_u64 (fst a) ++ match snd a with None => put_u8 0 | Some data => put_u8 1 ++ put_bytes data end.

Definition snapshot (u : ToyCpu) : list Z :=
  write_config u ++ put_u64 (issued u) ++ put_u64 (committed u) ++ put_u64 (next_txn u) ++
  put_bool (issue_scheduled u) ++ put_bool (commit_scheduled u) ++
  put_len (Z.of_nat (size (outstanding u))) ++
  (entries (outstanding u) ≫= fun e => put_u64 (fst e) ++ write_op (snd e)) ++
  put_len (Z.of_nat (length (arrived u))) ++ (arrived u ≫= write_arrival) ++
  put_len (Z.of_nat (size (shadow u))) ++
  (entries (shadow u) ≫= fun e => put_u64 (fst e) ++ put_bytes (snd e)) ++
  put_u64 (checksum u).

Definition read_op : R Op :=
  tag ← rd get_u8;
  if tag =? 0 then addr ← rd get_u64; mret (Op_Read addr)
  else if tag =? 1 then addr ← rd get_u64; data ← rd get_bytes; mret (Op_Write addr data)
  else bad_tag "toy cpu operation" tag.

Definition read_arrival : R (Z * option (list Z)) :=
  txn ← rd get_u64;
  tag ← rd get_u8;
  if tag =? 0 then mret (txn, None)
  else if tag =? 1 then data ← rd get_bytes; mret (txn, Some data)
  else bad_tag "toy cpu arrival" tag.

Fixpoint read_arrivals (n : nat) : R (list (Z * option (list Z))) :=
  match n with
  | O => mret []
  | S n => a ← read_arrival; l ← read_arrivals n; mret (a :: l)
  end.

Definition restore (u : ToyCpu) : R ToyCpu :=
  expect_raw (write_config u) "toy cpu: snapshot was taken with a different configuration";;
  issued ← rd get_u64;
  committed ← rd get_u64;
  next_txn ← rd get_u64;
  issue_scheduled ← rd get_bool;
  commit_scheduled ← rd get_bool;
  n ← rd get_len;
  outstanding ← read_ascending (rd get_u64) "toy cpu: outstanding transactions out of order" (fun _ => read_op)
                  (Z.to_nat n) None ∅;
  n ← rd get_len;
  arrived ← read_arrivals (Z.to_nat n);
  n ← rd get_len;
  shadow ← read_ascending (rd get_u64) "toy cpu: shadow slots out of order" (fun _ => rd get_bytes)
             (Z.to_nat n) None ∅;
  checksum ← rd get_u64;
  mret (mkToyCpu (config u) issued committed next_txn issue_scheduled commit_scheduled outstanding arrived
          shadow checksum).
End snapshot.

(** * Contracts *)

Definition cpu_config_ok (c : ToyCpuConfig) : Prop :=
  in_u 32 (clock c) /\ in_u 64 (ops c) /\ in_u 32 (max_outstanding c) /\ 1 <= max_think_cycles c < 2 ^ 64 /\
  in_u 32 (access_len c) /\ in_u 32 (slots c) /\ in_u 64 (write_percent c).

Definition op_ok (op : Op) : Prop :=
  match op with Op_Read addr => in_u 64 addr | Op_Write addr data => in_u 64 addr /\ bytes_ok data end.

Definition arrival_ok (a : Z * option (list Z)) : Prop :=
  in_u 64 (fst a) /\ match snd a with Some data => bytes_ok data | None => True end.

Definition toy_cpu_ok (u : ToyCpu) : Prop :=
  cpu_config_ok (config u) /\ issued u <= ops (config u) /\ next_txn u = issued u /\ 0 <= committed u /\
  committed u + Z.of_nat (size (outstanding u)) = issued u /\
  map_Forall (fun txn op => 0 <= txn < next_txn u /\ op_ok op) (outstanding u) /\
  Forall arrival_ok (arrived u) /\
  map_Forall (fun addr data => in_u 64 addr /\ bytes_ok data) (shadow u) /\ in_u 64 (checksum u).

Lemma toy_cpu_new_ok cfg : cpu_config_ok cfg -> toy_cpu_ok (new cfg).
Proof.
  intros Hc. pose proof Hc as (_ & Ho & _). unfold toy_cpu_ok. cbn. rewrite map_size_empty. unfold in_u in Ho.
  split; [exact Hc |]. do 4 (split; [lia |]). split; [apply map_Forall_empty |]. split; [constructor |]. split; [apply map_Forall_empty | const_range].
Qed.

Lemma free_slot_range u start addr :
  cpu_config_ok (config u) -> 0 < slots (config u) -> free_slot u start = Some addr ->
  busy u addr = false /\ in_u 64 addr /\ exists i, 0 <= i < slots (config u) /\ addr = i * access_len (config u).
Proof.
  intros Hc Hs E. apply find_some in E as [Hin Hb]. apply negb_true_iff in Hb. split; [exact Hb |].
  apply list_elem_of_In, list_elem_of_fmap in Hin as (i & -> & _).
  pose proof Hc as (_ & _ & _ & _ & Hl & Hn & _). unfold in_u in *.
  pose proof (Z.mod_pos_bound (start + i) (slots (config u)) Hs). split; [nia | eauto].
Qed.

Lemma fold_ok u word : toy_cpu_ok u -> toy_cpu_ok (fold u word).
Proof. intros Hu. unfold toy_cpu_ok, fold in *. cbn. deconj. split_and!; try assumption; apply (Z.mod_pos_bound _ (2 ^ 64)); lia. Qed.

Lemma folds_ok words : forall u, toy_cpu_ok u -> toy_cpu_ok (foldl fold u words) /\ config (foldl fold u words) = config u /\
  committed (foldl fold u words) = committed u /\ outstanding (foldl fold u words) = outstanding u /\
  issued (foldl fold u words) = issued u.
Proof.
  induction words as [|w words IH]; intros u Hu; [auto |]. cbn.
  destruct (IH (fold u w) (fold_ok u w Hu)) as (? & ? & ? & ? & ?). auto.
Qed.

Section keeping.
Context {C : Type} `{SimContext C, SimRng}.
Context (P : C -> Prop) (HP : ctx_keeps P) (cfg : ToyCpuConfig).

Local Abbreviation M := (ST (ToyCpu * C) Failure).

Definition kept {A} (_ : A) (s : ToyCpu * C) : Prop := toy_cpu_ok (fst s) /\ config (fst s) = cfg /\ P (snd s).
Definition failed (e : Failure) (s : ToyCpu * C) : Prop :=
  (exists e', e = Fails e') /\ config (fst s) = cfg /\ P (snd s).

Lemma wp_fill fuel len : forall data u c Q,
  P c -> bytes_ok data -> (len <= length data + 8 * fuel)%nat ->
  (forall data' c', bytes_ok data' -> (len <= length data')%nat -> P c' -> Q data' (u, c')) ->
  wp (fill fuel len data : M _) Q failed (u, c).
Proof.
  induction fuel as [|fuel IH]; intros data u c Q Hc Hd Hf HQ; cbn [fill]; destruct (Nat.ltb_spec (length data) len); cbn [negb].
  - lia.
  - wp_quiet. apply HQ; assumption.
  - wp_quiet. apply (wp_u64 HP); [exact Hc |]. intros x c' Hc'. apply IH; [exact Hc' | | | exact HQ].
    + apply bytes_app; [exact Hd | apply to_le_ok].
    + rewrite length_app, length_to_le. lia.
  - wp_quiet. apply HQ; assumption.
Qed.

Lemma wp_schedule_issue u c :
  toy_cpu_ok u -> config u = cfg -> P c -> wp (schedule_issue : M unit) kept failed (u, c).
Proof.
  intros Hu Ec Hc. unfold schedule_issue. wp_quiet. pose proof Hu as ((_ & _ & _ & Ht & _) & _).
  apply (wp_below HP); [lia | exact Hc |]. intros n c1 Hn Hc1. wp_quiet.
  apply (wp_wakes HP); [const_range | exact Hc1 | |].
  - intros c2 Hc2. wp_quiet. split; [exact Hu | auto].
  - intros e c2 Hc2. split; [eauto | auto].
Qed.

Lemma wp_choose u c addr Q :
  cpu_config_ok (config u) -> in_u 64 addr -> P c ->
  (forall op c', op_ok op -> Op.addr op = addr -> P c' -> Q op (u, c')) ->
  wp (choose_op u addr : M Op) Q failed (u, c).
Proof.
  intros Hcfg Ha Hc HQ. unfold choose_op. wp_quiet. apply (wp_chance HP); [exact Hc |]. intros [] c1 Hc1; wp_quiet.
  - apply wp_fill; [exact Hc1 | constructor | cbn; lia |]. intros data c2 Hd _ Hc2. wp_quiet.
    apply HQ; [split; [exact Ha | apply Forall_take, Hd] | reflexivity | exact Hc2].
  - apply HQ; [exact Ha | reflexivity | exact Hc1].
Qed.

Lemma issued_ok u n op :
  toy_cpu_ok u -> issued u < ops (config u) -> op_ok op -> n = issued u + 1 ->
  toy_cpu_ok (set_issued n (set_outstanding (<[next_txn u := op]> (outstanding u)) (set_next_txn n u))).
Proof.
  intros (Hc & Hi & Hn & Hk0 & Hs & Ho & Ha & Hsh & Hck) Hlt Hop ->. unfold toy_cpu_ok. cbn.
  assert (Hfresh : outstanding u !! next_txn u = None).
  { destruct (outstanding u !! next_txn u) as [op'|] eqn:E; [|reflexivity]. specialize (Ho _ _ E). cbn in Ho. lia. }
  rewrite map_size_insert_None by exact Hfresh. split_and!; try assumption; try lia.
  apply map_Forall_insert; [exact Hfresh |]. split; [split; [lia | exact Hop] |].
  intros txn op' E. destruct (Ho txn op' E). split; [lia | assumption].
Qed.

Lemma wp_issue u c :
  toy_cpu_ok u -> config u = cfg -> can_issue u = true -> P c -> wp (issue : M unit) kept failed (u, c).
Proof.
  intros Hu Ec Hcan Hc. unfold issue. wp_quiet. apply andb_true_iff in Hcan as [Hlt%Z.ltb_lt _].
  pose proof Hu as (Hcfg & Hi & Hn & H0' & Hs & _). pose proof Hcfg as (_ & Ho & _ & _ & Hl & Hsl & _). unfold in_u in Ho, Hsl.
  destruct (Z.eqb_spec (slots (config u)) 0); [apply wp_fault; split; [eauto | auto] |]. wp_quiet.
  apply (wp_below HP); [lia | exact Hc |]. intros start c1 Hst Hc1. wp_quiet.
  apply wp_try; [|intros e _; split; [eauto | auto]]. intros addr E.
  destruct (free_slot u start) as [addr'|] eqn:Ef; [|discriminate]. injection E as ->.
  destruct (free_slot_range u start addr Hcfg ltac:(lia) Ef) as (_ & Ha & _). wp_quiet.
  apply wp_choose; [exact Hcfg | exact Ha | exact Hc1 |]. intros op c2 Hop Eop Hc2. wp_quiet.
  apply wp_incr; [lia |]. wp_quiet. apply (wp_sends HP); [| exact Hc2 | | intros e c3 Hc3; split; [eauto | auto]].
  { assert (in_u 64 (next_txn u)) by (unfold in_u; lia). destruct op; cbn in *; deconj; split_and!; assumption. }
  intros c3 Hc3. wp_quiet. apply (wp_note HP); [exact Hc3 |]. intros c4 Hc4. wp_quiet.
  apply wp_incr; [cbn; lia |]. wp_quiet. split; [|auto].
  pose proof (issued_ok u (issued u + 1) op Hu Hlt Hop eq_refl) as Hok. cbn in *. rewrite Hn in *. exact Hok.
Qed.

Lemma committed_ok u txn op sh n :
  toy_cpu_ok u -> outstanding u !! txn = Some op -> n = committed u + 1 ->
  map_Forall (fun addr data => in_u 64 addr /\ bytes_ok data) sh ->
  toy_cpu_ok (set_committed n (set_shadow sh (set_outstanding (delete txn (outstanding u)) u))).
Proof.
  intros (Hc & Hi & Hn & Hk & Hs & Ho & Ha & _ & Hck) E -> Hsh. unfold toy_cpu_ok. cbn.
  rewrite map_size_delete_Some by eauto. assert (size (outstanding u) <> 0%nat).
  { intros Hz%map_size_empty_inv. rewrite Hz, lookup_empty in E. discriminate. }
  split_and!; try assumption; try lia. apply map_Forall_delete, Ho.
Qed.

Lemma folds_committed n words : forall u, foldl fold (set_committed n u) words = set_committed n (foldl fold u words).
Proof. induction words as [|w words IH]; intros u; [reflexivity |]. cbn. apply (IH (fold u w)). Qed.

Lemma folds_fields words : forall u, committed (foldl fold u words) = committed u /\ config (foldl fold u words) = config u.
Proof. induction words as [|w words IH]; intros u; [auto |]. cbn. destruct (IH (fold u w)) as [-> ->]. auto. Qed.

(** The end of an iteration of [commit], after the shadow copy. *)
Lemma wp_fold_commit u txn op sh tag addr bytes c :
  toy_cpu_ok u -> config u = cfg -> outstanding u !! txn = Some op ->
  map_Forall (fun addr data => in_u 64 addr /\ bytes_ok data) sh -> P c ->
  wp (fold_commit tag txn addr bytes : M unit) kept failed
    (set_shadow sh (set_outstanding (delete txn (outstanding u)) u), c).
Proof.
  intros Hu Ec E Hsh Hc. unfold fold_commit. wp_quiet. rewrite <- foldl_app. set (words := [tag; txn; addr] ++ bytes).
  set (u1 := set_shadow sh _). destruct (folds_fields words u1) as [E1 E2]. rewrite E1.
  pose proof Hu as ((_ & Ho & _) & Hi & _ & Hk & Hs & _). unfold in_u in Ho.
  assert (size (outstanding u) <> 0%nat).
  { intros Hz%map_size_empty_inv. rewrite Hz, lookup_empty in E. discriminate. }
  apply wp_incr; [cbn; lia |]. wp_quiet. apply (wp_note HP); [exact Hc |]. intros c1 Hc1.
  split; [|split; [cbn [fst]; change (config (foldl fold u1 words) = cfg); rewrite E2; exact Ec | exact Hc1]].
  cbn [fst]. rewrite <- folds_committed. apply folds_ok. eapply committed_ok; [exact Hu | exact E | reflexivity | exact Hsh].
Qed.

Lemma wp_commit_one e u c :
  toy_cpu_ok u -> config u = cfg -> arrival_ok e -> P c -> wp (commit_one e : M unit) kept failed (u, c).
Proof.
  intros Hu Ec He Hc. destruct e as [txn data]. unfold commit_one. wp_quiet.
  apply wp_try; [|intros e _; split; [eauto | auto]]. intros op E.
  destruct (outstanding u !! txn) as [op'|] eqn:Eo; [|discriminate]. injection E as ->. wp_quiet.
  pose proof Hu as (_ & _ & _ & _ & _ & Ho & _ & Hsh & _). specialize (Ho txn op Eo) as [_ Hop].
  destruct op as [addr|addr w], data as [data|]; try (apply wp_fault; split; [eauto | auto]); wp_quiet.
  - case_bool_decide; cbn [negb]; [|apply wp_fault; split; [eauto | auto]]. wp_quiet.
    apply (wp_fold_commit u txn _ (shadow u) 0 addr data c Hu Ec Eo Hsh Hc).
  - apply (wp_fold_commit u txn _ (<[addr := w]> (shadow u)) 1 addr w c Hu Ec Eo); [|exact Hc].
    apply map_Forall_insert_2; [exact Hop | exact Hsh].
Qed.

Lemma wp_commit u c :
  toy_cpu_ok u -> config u = cfg -> P c -> wp (commit : M unit) kept failed (u, c).
Proof.
  intros Hu Ec Hc. unfold commit. wp_quiet. pose proof Hu as (_ & _ & _ & _ & _ & _ & Ha & _).
  assert (Hu' : toy_cpu_ok (set_arrived [] u)).
  { unfold toy_cpu_ok in *. cbn. deconj. split_and!; try assumption. constructor. }
  assert (Ec' : config (set_arrived [] u) = cfg) by exact Ec.
  revert Hu' Ec'. generalize (set_arrived [] u). clear Hu Ec. revert c Hc.
  induction Ha as [|e l He _ IH]; intros c Hc v Hv Ev; cbn [commit_loop]; wp_quiet; [split; auto |].
  eapply wp_mono; [apply wp_commit_one; eassumption | | auto]. intros [] [v' c'] (Hv' & Ev' & Hc').
  apply IH; assumption.
Qed.

Lemma wp_init u c : toy_cpu_ok u -> config u = cfg -> P c -> wp (init : M unit) kept failed (u, c).
Proof.
  intros Hu Ec Hc. unfold init. wp_quiet. destruct (_ || _); [apply wp_fault; split; [eauto | auto] |].
  destruct (0 <? _); [apply wp_schedule_issue; assumption |]. wp_quiet. split; auto.
Qed.

Lemma wp_maybe_schedule (b : bool) u c :
  toy_cpu_ok u -> config u = cfg -> P c -> wp (if b then schedule_issue else mret tt : M unit) kept failed (u, c).
Proof. intros Hu Ec Hc. destruct b; [apply wp_schedule_issue; assumption |]. wp_quiet. split; auto. Qed.

Lemma wp_handle_event ev u c :
  delivery_ok ev -> toy_cpu_ok u -> config u = cfg -> P c -> wp (handle_event ev : M unit) kept failed (u, c).
Proof.
  intros Hev Hu Ec Hc. assert (Hf : forall what, wp (fault what : M unit) kept failed (u, c))
    by (intros; apply wp_fault; split; [eauto | auto]).
  destruct ev as [port [msg| | |]|token]; cbn [handle_event]; try apply Hf.
  - destruct Hev as [_ Hmsg]. wp_quiet. apply wp_try; [|intros e _; split; [eauto | auto]]. intros a E.
    assert (Ha : arrival_ok a).
    { destruct msg; try discriminate; injection E as <-; cbn in Hmsg; deconj; unfold arrival_ok; cbn; auto. }
    wp_quiet. assert (Hu' : toy_cpu_ok (set_arrived (arrived u ++ [a]) u)).
    { unfold toy_cpu_ok in *. cbn. deconj. split_and!; try assumption. apply Forall_app; auto. }
    destruct (commit_scheduled _); cbn [negb]; wp_quiet; [split; auto |].
    apply (wp_wakes HP); [const_range | exact Hc | |]; intros; wp_quiet; split; eauto.
  - destruct (token =? ISSUE); [|destruct (token =? COMMIT); [|apply Hf]]; wp_quiet.
    + assert (Hu' : toy_cpu_ok (set_issue_scheduled false u)) by exact Hu.
      eapply wp_mono; [| |intros ? ? X; exact X].
      { instantiate (1 := kept). destruct (can_issue _) eqn:Ecan; [apply wp_issue; assumption |]. wp_quiet. split; auto. }
      intros [] [v c'] (Hv & Ev & Hc'). wp_quiet. apply wp_maybe_schedule; assumption.
    + eapply wp_mono; [apply (wp_commit (set_commit_scheduled false u) c Hu Ec Hc) | |intros ? ? X; exact X].
      intros [] [v c'] (Hv & Ev & Hc'). wp_quiet. apply wp_maybe_schedule; assumption.
Qed.
End keeping.

Section contracts.
Context `{SnapshotCodec, SimRng}.

#[export] Instance ToyCpu_component : Component ToyCpu := {
  type_name _ := "toy.cpu";
  ports _ := [mkPortSpec "mem" mem_v0_PROTOCOL Role_Initiator];
  component_init C _ := init;
  component_handle ev C _ := handle_event ev;
  snapshot_schema_version _ := SNAPSHOT_SCHEMA;
  component_snapshot := snapshot;
  component_restore u _ := restore u;
}.

Lemma run_schedule_issue {C D} `{SimContext C, SimContext D} (R : C -> D -> Prop) :
  ctx_rel R -> same_run R schedule_issue schedule_issue.
Proof. intros HR. unfold schedule_issue. uniform_run. Qed.

Lemma run_fill {C D} `{SimContext C, SimContext D} (R : C -> D -> Prop) fuel len :
  ctx_rel R -> forall data, same_run R (fill fuel len data) (fill fuel len data).
Proof. intros HR. induction fuel as [|fuel IH]; intros data; cbn [fill]; uniform_run; apply IH. Qed.

Lemma run_issue {C D} `{SimContext C, SimContext D} (R : C -> D -> Prop) : ctx_rel R -> same_run R issue issue.
Proof. intros HR. unfold issue, choose_op. uniform_run. all: apply run_fill, HR. Qed.

Lemma run_commit {C D} `{SimContext C, SimContext D} (R : C -> D -> Prop) : ctx_rel R -> same_run R commit commit.
Proof.
  intros HR. unfold commit. uniform_run. generalize (arrived a) as l.
  induction l as [|[txn data] l IH]; cbn [commit_loop]; unfold commit_one, fold_commit; uniform_run; apply IH.
Qed.

#[export] Instance ToyCpu_uniform : UniformComponent ToyCpu.
Proof.
  split; [|intros ev]; intros C D HC HD R HR; cbn.
  - unfold init. uniform_run. apply run_schedule_issue, HR.
  - unfold handle_event. uniform_run; first [apply run_schedule_issue, HR | apply run_issue, HR | apply run_commit, HR].
Qed.

#[export, refine] Instance ToyCpu_typed : TypedComponent ToyCpu := {
  component_ok := toy_cpu_ok;
  same_config u u' := config u = config u';
}.
Proof.
  - split; [intros ?; reflexivity | intros ? ?; apply eq_sym | intros ? ? ?; apply eq_trans].
  - auto.
  - intros C HC P u c HP Hu Hc. cbn. eapply wp_mono; [apply (wp_init P HP (config u) u c Hu eq_refl Hc) | |].
    + intros [] [u' c'] (? & ? & ?). auto.
    + intros e [u' c'] (? & ? & ?). auto.
  - intros ev C HC P u c Hev HP Hu Hc. cbn.
    eapply wp_mono; [apply (wp_handle_event P HP (config u) ev u c Hev Hu eq_refl Hc) | |].
    + intros [] [u' c'] (? & ? & ?). auto.
    + intros e [u' c'] (? & ? & ?). auto.
Defined.

Definition data_fits (data : list Z) : Prop := in_u 32 (Z.of_nat (length data)).

Definition op_fits (op : Op) : Prop := match op with Op_Read _ => True | Op_Write _ data => data_fits data end.

Lemma reads_op op : op_ok op -> op_fits op -> reads read_op (write_op op) op.
Proof. intros Ho Hf. unfold read_op. destruct op; cbn in *; deconj; repeat reads_next; apply reads_ret. Qed.

Lemma reads_arrival a :
  arrival_ok a -> match snd a with Some data => data_fits data | None => True end -> reads read_arrival (write_arrival a) a.
Proof.
  intros [Ha Hd] Hf. unfold read_arrival, write_arrival. destruct a as [txn [data|]]; cbn in *; repeat reads_next; apply reads_ret.
Qed.

Lemma reads_arrivals l :
  Forall (fun a => reads read_arrival (write_arrival a) a) l -> reads (read_arrivals (length l)) (l ≫= write_arrival) l.
Proof.
  induction 1 as [|a l Ha _ IH]; [apply reads_ret |]. cbn [length read_arrivals].
  change ((a :: l) ≫= write_arrival) with (write_arrival a ++ (l ≫= write_arrival)).
  eapply reads_bind; [exact Ha |]. eapply reads_last; [exact IH | apply reads_ret].
Qed.

(** The lengths the snapshot holds in a [u32]. *)
Definition toy_cpu_fits (u : ToyCpu) : Prop :=
  in_u 32 (Z.of_nat (size (outstanding u))) /\ in_u 32 (Z.of_nat (length (arrived u))) /\
  in_u 32 (Z.of_nat (size (shadow u))) /\ map_Forall (fun _ op => op_fits op) (outstanding u) /\
  Forall (fun a => match snd a with Some data => data_fits data | None => True end) (arrived u) /\
  map_Forall (fun _ data => data_fits data) (shadow u).

Lemma toy_cpu_snapshot_bytes u : toy_cpu_ok u -> bytes_ok (snapshot u).
Proof.
  intros (_ & _ & _ & _ & _ & Ho & Ha & Hs & _). unfold snapshot, write_config.
  repeat apply bytes_app; auto with bytes; apply bytes_bind, Forall_forall.
  - intros [txn op] [_ Hop]%elem_of_entries%Ho. apply bytes_app; [auto with bytes |].
    destruct op; cbn in *; deconj; eauto with bytes.
  - intros [txn data] [_ Hd]%(proj1 (Forall_forall _ _) Ha). unfold write_arrival. cbn in *.
    destruct data; eauto with bytes.
  - intros [addr data] [_ Hd]%elem_of_entries%Hs. cbn. eauto with bytes.
Qed.

#[export, refine] Instance ToyCpu_persistent : PersistentComponent ToyCpu := {
  snapshot_fits := toy_cpu_fits;
}.
Proof.
  - intros. const_range.
  - intros u Hu _. apply toy_cpu_snapshot_bytes, Hu.
  - intros u u' _ (Hcfg & Hi & Hn & Hk & Hs & Ho & Ha & Hsh & Hck) Ec (F1 & F2 & F3 & F4 & F5 & F6). cbn. unfold restore, snapshot.
    pose proof Hcfg as (_ & Hops & _). unfold in_u in Hops. cbn in Ec.
    replace (write_config u') with (write_config u) by (unfold write_config; rewrite Ec; reflexivity).
    do 7 reads_next. rewrite Nat2Z.id.
    eapply reads_bind; [apply reads_entries | cbn beta].
    { intros txn op E. specialize (Ho txn op E) as [? ?]. specialize (F4 txn op E).
      split; [apply reads_u64; unfold in_u; lia | apply reads_op; assumption]. }
    reads_next. rewrite Nat2Z.id. eapply reads_bind; [apply reads_arrivals | cbn beta].
    { apply Forall_forall. intros a Hin. rewrite Forall_forall in Ha, F5.
      apply reads_arrival; [apply Ha, Hin | apply (F5 a Hin)]. }
    reads_next. rewrite Nat2Z.id. eapply reads_bind; [apply reads_entries | cbn beta].
    { intros addr data E. specialize (Hsh addr data E) as [? ?]. specialize (F6 addr data E).
      split; [apply reads_u64; assumption | apply reads_bytes; assumption]. }
    reads_next. rewrite Ec. replace (mkToyCpu _ _ _ _ _ _ _ _ _ _) with u' by (destruct u'; reflexivity). apply reads_ret.
Defined.
End contracts.
