(* ===== verification/ToyBus.v ===== *)
(** The interconnect of the M0 reference system, [components/toy/src/bus.rs]: two initiators
    share one memory port, one grant per bus edge, round-robin when both wait.

    A grant allocates a downstream transaction and a route; the response with it goes back to
    the port and transaction of the route, which is then forgotten.  What the bus guarantees to
    its initiators is shown of the whole system ([ToyNetProofs]). *)
From stdpp Require Import base numbers list option strings gmap.
From Stdlib Require Import ZArith Lia.
From S2P Require Import Prelude Contracts Handlers Snapshots Session Components Platform.

Local Open Scope string_scope.
Local Open Scope list_scope.
Local Open Scope Z_scope.

Definition CPU_PORT : Z := 0.
Definition DMA_PORT : Z := 1.
Definition MEM_PORT : Z := 2.
Definition UPSTREAM : Z := 2.
Definition ARBITRATE : Z := 0.
Definition SNAPSHOT_SCHEMA : Z := 1.

Record ToyBusConfig : Set := mkToyBusConfig { clock : Z }.

Record Route : Set := mkRoute { r_port : Z; r_txn : Z; r_write : bool }.

#[export] Instance Route_eq_dec : EqDecision Route.
Proof. solve_decision. Defined.

(** [queue0] and [queue1] are [queues[0]] and [queues[1]]. *)
Record ToyBus : Set := mkToyBus {
  config : ToyBusConfig;
  queue0 : list MemMsgV0;
  queue1 : list MemMsgV0;
  priority : Z;
  arbitration_scheduled : bool;
  next_downstream : Z;
  routes : gmap Z Route;
}.

Definition set_priority (p : Z) (b : ToyBus) : ToyBus :=
  mkToyBus (config b) (queue0 b) (queue1 b) p (arbitration_scheduled b) (next_downstream b) (routes b).
Definition set_scheduled (s : bool) (b : ToyBus) : ToyBus :=
  mkToyBus (config b) (queue0 b) (queue1 b) (priority b) s (next_downstream b) (routes b).
Definition set_next_downstream (n : Z) (b : ToyBus) : ToyBus :=
  mkToyBus (config b) (queue0 b) (queue1 b) (priority b) (arbitration_scheduled b) n (routes b).
Definition set_routes (m : gmap Z Route) (b : ToyBus) : ToyBus :=
  mkToyBus (config b) (queue0 b) (queue1 b) (priority b) (arbitration_scheduled b) (next_downstream b) m.

(** [self.queues.get(port)]. *)
Definition queue (b : ToyBus) (port : Z) : option (list MemMsgV0) :=
  if port =? 0 then Some (queue0 b) else if port =? 1 then Some (queue1 b) else None.
Definition set_queue (port : Z) (q : list MemMsgV0) (b : ToyBus) : ToyBus :=
  if port =? 0 then mkToyBus (config b) q (queue1 b) (priority b) (arbitration_scheduled b) (next_downstream b) (routes b)
  else mkToyBus (config b) (queue0 b) q (priority b) (arbitration_scheduled b) (next_downstream b) (routes b).

Definition request_txn (msg : MemMsgV0) : option (Z * bool) :=
  match msg with
  | V0_ReadReq txn _ _ => Some (txn, false)
  | V0_WriteReq txn _ _ => Some (txn, true)
  | V0_ReadResp _ _ | V0_WriteResp _ => None
  end.

Definition with_txn (msg : MemMsgV0) (txn : Z) : MemMsgV0 :=
  match msg with
  | V0_ReadReq _ addr len => V0_ReadReq txn addr len
  | V0_WriteReq _ addr data => V0_WriteReq txn addr data
  | V0_ReadResp _ data => V0_ReadResp txn data
  | V0_WriteResp _ => V0_WriteResp txn
  end.

Definition new (cfg : ToyBusConfig) : ToyBus := mkToyBus cfg [] [] 0 false 0 ∅.

Definition waiting (q : list MemMsgV0) : bool := negb (bool_decide (q = [])).

(** The port that is granted, and whether both wait. *)
Definition winner (b : ToyBus) : option (Z * bool) :=
  match waiting (queue0 b), waiting (queue1 b) with
  | true, true => Some (priority b, true)
  | true, false => Some (0, false)
  | false, true => Some (1, false)
  | false, false => None
  end.

Section handlers.
Context {C : Type} `{SimContext C}.

Local Abbreviation M := (ST (ToyBus * C) Failure).

Definition schedule_arbitration (k : Z) : M unit :=
  b ← self;
  call (ctx_wake_self (When_Cycles (clock (config b)) k) Phase_Transfer ARBITRATE);;
  update (set_scheduled true).

Definition arbitrate : M unit :=
  b ← self;
  match winner b with
  | None => mret tt
  | Some (w, contended) =>
      update (set_priority (1 - w));;
      match queue b w with
      | Some (msg :: q) =>
          update (set_queue w q);;
          match request_txn msg with
          | None => panic "only requests are queued"
          | Some (txn, write) =>
              let downstream := next_downstream b in
              n ← incr downstream;
              update (set_next_downstream n);;
              update (fun b => set_routes (<[downstream := mkRoute w txn write]> (routes b)) b);;
              call (ctx_send MEM_PORT (Message_Mem (with_txn msg downstream)) When_Now Phase_Transfer);;
              trace "toy.bus.grant" [("port", VU64 w); ("txn", VU64 txn); ("downstream", VU64 downstream); ("contended", VBool contended)]
          end
      | _ => panic "the winner's queue is non-empty"
      end
  end.

(** The transaction and the kind of a response. *)
Definition response_txn (msg : MemMsgV0) : option (Z * bool) :=
  match msg with
  | V0_ReadResp txn _ => Some (txn, false)
  | V0_WriteResp txn => Some (txn, true)
  | V0_ReadReq _ _ _ | V0_WriteReq _ _ _ => None
  end.

Definition route (msg : MemMsgV0) : M unit :=
  '(downstream, write) ← try (ok_or (response_txn msg) (ComponentFault "toy bus: request on the memory port"));
  b ← self;
  r ← try (ok_or (routes b !! downstream) (ComponentFault "toy bus: response for unknown txn"));
  update (fun b => set_routes (delete downstream (routes b)) b);;
  if negb (Bool.eqb (r_write r) write) then fault "toy bus: response kind mismatch"
  else
    ph ← phase_of_event;
    call (ctx_send (r_port r) (Message_Mem (with_txn msg (r_txn r))) When_Now ph);;
    trace "toy.bus.route" [("downstream", VU64 downstream); ("port", VU64 (r_port r)); ("txn", VU64 (r_txn r))].

(** The last arm of [handle_event]: a message on an upstream port. *)
Definition request (port : Z) (msg : MemMsgV0) : M unit :=
  if bool_decide (request_txn msg = None) then fault "toy bus: response on an upstream port"
  else
    ph ← phase_of_event;
    if negb (bool_decide (ph = Phase_Request)) then fault "toy bus: request arrived after REQUEST"
    else
      b ← self;
      q ← try (ok_or (queue b port) (ComponentFault "toy bus: unknown port"));
      update (set_queue port (q ++ [msg]));;
      if negb (arbitration_scheduled b) then schedule_arbitration 0 else mret tt.

Definition init : M unit := mret tt.

Definition handle_event (ev : Delivered) : M unit :=
  match ev with
  | Delivered_Wake token =>
      if token =? ARBITRATE then
        update (set_scheduled false);;
        arbitrate;;
        b ← self;
        if waiting (queue0 b) || waiting (queue1 b) then schedule_arbitration 1 else mret tt
      else fault "toy bus: unknown wake token"
  | Delivered_Message port (Message_Mem msg) => if port =? MEM_PORT then route msg else request port msg
  | Delivered_Message _ (Message_MemV1 _) => fault "toy bus: mem.v1 message"
  | Delivered_Message _ (Message_Irq _ | Message_Block _) => fault "toy bus: non-mem message"
  end.
End handlers.

Definition inspect (b : ToyBus) : list (string * Value) :=
  [("queued_cpu", VU64 (Z.of_nat (length (queue0 b)))); ("queued_dma", VU64 (Z.of_nat (length (queue1 b))));
   ("priority", VU64 (priority b)); ("next_downstream", VU64 (next_downstream b));
   ("routes", VU64 (Z.of_nat (size (routes b))))].

(** * Snapshots *)

Section snapshot.
Context `{SnapshotCodec, !MemV0Codec}.

Local Abbreviation R := (ST (list Z) RestoreError).

Definition write_queue (q : list MemMsgV0) : list Z := put_len (Z.of_nat (length q)) ++ (q ≫= put_mem_v0).

Definition write_route (r : Route) : list Z := put_u16 (r_port r) ++ put_u64 (r_txn r) ++ put_bool (r_write r).

Definition snapshot (b : ToyBus) : list Z :=
  put_u32 (clock (config b)) ++ put_u64 (next_downstream b) ++ put_u16 (priority b) ++ put_bool (arbitration_scheduled b) ++
  write_queue (queue0 b) ++ write_queue (queue1 b) ++
  put_len (Z.of_nat (size (routes b))) ++ (entries (routes b) ≫= fun e => put_u64 (fst e) ++ write_route (snd e)).

Definition read_request : R MemMsgV0 :=
  msg ← rd get_mem_v0;
  if bool_decide (request_txn msg = None) then invalid "toy bus: queued response" else mret msg.

Fixpoint read_requests (n : nat) : R (list MemMsgV0) :=
  match n with
  | O => mret []
  | S n => msg ← read_request; q ← read_requests n; mret (msg :: q)
  end.

Definition read_queue : R (list MemMsgV0) := n ← rd get_len; read_requests (Z.to_nat n).

Definition read_route : R Route :=
  port ← rd get_u16;
  check (port <? UPSTREAM) "toy bus: unknown route port";;
  txn ← rd get_u64;
  write ← rd get_bool;
  mret (mkRoute port txn write).

(** A downstream transaction not yet allocated is rejected like one out of order. *)
Definition read_downstream (next : Z) : R Z :=
  k ← rd get_u64;
  check (k <? next) "toy bus: routes out of order or not yet allocated";;
  mret k.

Definition restore (b : ToyBus) : R ToyBus :=
  clk ← rd get_u32;
  check (clk =? clock (config b)) "toy bus: snapshot was taken with a different configuration";;
  next ← rd get_u64;
  prio ← rd get_u16;
  scheduled ← rd get_bool;
  check (prio <? UPSTREAM) "toy bus: priority out of range";;
  q0 ← read_queue;
  q1 ← read_queue;
  n ← rd get_len;
  routes ← read_ascending (read_downstream next) "toy bus: routes out of order or not yet allocated" (fun _ => read_route)
             (Z.to_nat n) None ∅;
  mret (mkToyBus (config b) q0 q1 prio scheduled next routes).
End snapshot.

(** * Contracts *)

Section contracts.
Context `{SnapshotCodec, !MemV0Codec}.

#[export] Instance ToyBus_component : Component ToyBus := {
  type_name _ := "toy.bus";
  ports _ := [mkPortSpec "cpu" mem_v0_PROTOCOL Role_Target; mkPortSpec "dma" mem_v0_PROTOCOL Role_Target;
              mkPortSpec "mem" mem_v0_PROTOCOL Role_Initiator];
  component_init C _ := init;
  component_handle ev C _ := handle_event ev;
  snapshot_schema_version _ := SNAPSHOT_SCHEMA;
  component_snapshot := snapshot;
  component_restore b _ := restore b;
}.

#[export] Instance ToyBus_uniform : UniformComponent ToyBus.
Proof.
  split; [|intros ev]; intros C D HC HD R HR; cbn; [unfold init; uniform_run |].
  unfold handle_event, arbitrate, route, request, schedule_arbitration. uniform_run.
Qed.
End contracts.
