(* ===== verification/ToyDma.v ===== *)
(** The DMA of the M0 reference system, [components/toy/src/dma.rs]: bursts of writes to its own
    region, every choice a draw of the context's random stream. *)
From stdpp Require Import base numbers list option strings gmap.
From Stdlib Require Import ZArith Lia.
From S2P Require Import Prelude Contracts Handlers Snapshots Session Components Platform.

Local Open Scope string_scope.
Local Open Scope list_scope.
Local Open Scope Z_scope.

Definition PORT : Z := 0.
Definition ISSUE : Z := 0.
Definition SNAPSHOT_SCHEMA : Z := 1.

Record ToyDmaConfig : Set := mkToyDmaConfig {
  clock : Z; ops : Z; max_outstanding : Z; max_burst : Z; max_gap_cycles : Z; base : Z;
  access_len : Z; slots : Z }.

Record ToyDma : Set := mkToyDma {
  config : ToyDmaConfig;
  issued : Z;
  completed : Z;
  next_txn : Z;
  burst_slot : Z;
  burst_left : Z;
  wake_scheduled : bool;
  outstanding : gmap Z Z;
  checksum : Z;
}.

Definition new (cfg : ToyDmaConfig) : ToyDma := mkToyDma cfg 0 0 0 0 0 false ∅ 0.

Definition set_issued (n : Z) (d : ToyDma) : ToyDma :=
  mkToyDma (config d) n (completed d) (next_txn d) (burst_slot d) (burst_left d) (wake_scheduled d) (outstanding d) (checksum d).
Definition set_completed (n : Z) (d : ToyDma) : ToyDma :=
  mkToyDma (config d) (issued d) n (next_txn d) (burst_slot d) (burst_left d) (wake_scheduled d) (outstanding d) (checksum d).
Definition set_next_txn (n : Z) (d : ToyDma) : ToyDma :=
  mkToyDma (config d) (issued d) (completed d) n (burst_slot d) (burst_left d) (wake_scheduled d) (outstanding d) (checksum d).
Definition set_burst (slot left : Z) (d : ToyDma) : ToyDma :=
  mkToyDma (config d) (issued d) (completed d) (next_txn d) slot left (wake_scheduled d) (outstanding d) (checksum d).
Definition set_wake_scheduled (b : bool) (d : ToyDma) : ToyDma :=
  mkToyDma (config d) (issued d) (completed d) (next_txn d) (burst_slot d) (burst_left d) b (outstanding d) (checksum d).
Definition set_outstanding (m : gmap Z Z) (d : ToyDma) : ToyDma :=
  mkToyDma (config d) (issued d) (completed d) (next_txn d) (burst_slot d) (burst_left d) (wake_scheduled d) m (checksum d).

(** [(self.checksum ^ word).wrapping_mul(..)]. *)
Definition fold (d : ToyDma) (word : Z) : ToyDma :=
  mkToyDma (config d) (issued d) (completed d) (next_txn d) (burst_slot d) (burst_left d) (wake_scheduled d)
    (outstanding d) (wrap 64 (Z.lxor (checksum d) word * 0x100000001b3)).

Definition full (d : ToyDma) : bool := max_outstanding (config d) <=? Z.of_nat (size (outstanding d)).

(** The address of slot [i]. *)
Definition slot_addr (c : ToyDmaConfig) (i : Z) : Z := base c + i * access_len c.

Section handlers.
Context {C : Type} `{SimContext C, SimRng}.

Local Abbreviation M := (ST (ToyDma * C) Failure).

Definition wake_in (cycles : Z) : M unit :=
  d ← self;
  call (ctx_wake_self (When_Cycles (clock (config d)) cycles) Phase_Request ISSUE);;
  update (set_wake_scheduled true).

Definition schedule_gap : M unit :=
  d ← self;
  n ← draw_below (max_gap_cycles (config d));
  wake_in (1 + n).

(** [while data.len() < len { data.extend_from_slice(&ctx.rng().next_u64().to_le_bytes()) }]; a
    round adds eight bytes, so [len] rounds are enough. *)
Fixpoint fill (fuel len : nat) (data : list Z) : M (list Z) :=
  if negb (length data <? len)%nat then mret data
  else
    match fuel with
    | O => panic "out of fuel"
    | S fuel => x ← draw_u64; fill fuel len (data ++ to_le 8 x)
    end.

(** A [u64] operation that panics when its exact value [z] is not a [u64]. *)
Definition arith (z : Z) : M Z := if in_ub 64 z then mret z else panic "arithmetic overflow".

(** The start of a burst. *)
Definition start_burst : M unit :=
  d ← self;
  if burst_left d =? 0 then
    n ← draw_below (max_burst (config d));
    len ← arith (1 + n);
    left_ ← arith (ops (config d) - issued d);
    slot ← draw_below (slots (config d));
    update (set_burst (wrap 32 slot) (Z.min len left_))
  else mret tt.

Definition issue : M unit :=
  d ← self;
  if slots (config d) =? 0 then fault "toy dma: no slots"
  else
    start_burst;;
    d ← self;
    let len := Z.to_nat (access_len (config d)) in
    data ← fill len len [];
    addr ← arith (slot_addr (config d) (burst_slot d));
    let txn := next_txn d in
    n ← incr txn;
    update (set_next_txn n);;
    call (ctx_send PORT (Message_Mem (V0_WriteReq txn addr (take len data))) When_Now Phase_Request);;
    trace "toy.dma.issue" [("txn", VU64 txn); ("addr", VU64 addr)];;
    update (fun d => set_outstanding (<[txn := addr]> (outstanding d)) d);;
    n ← incr (issued d);
    update (set_issued n);;
    left_ ← arith (burst_left d - 1);
    (** [self.burst_slot + 1] of a [u32]. *)
    if 2 ^ 32 <=? burst_slot d + 1 then panic "arithmetic overflow"
    else update (set_burst ((burst_slot d + 1) mod slots (config d)) left_).

Definition init : M unit :=
  d ← self;
  if (max_outstanding (config d) =? 0) || (slots (config d) =? 0) then
    fault "toy dma: max_outstanding and slots must be non-zero"
  else if 0 <? ops (config d) then schedule_gap else mret tt.

(** The next write of a burst, or the gap after it. *)
Definition continue : M unit :=
  d ← self;
  if 0 <? burst_left d then wake_in 1 else schedule_gap.

Definition complete (txn : Z) : M unit :=
  d ← self;
  addr ← try (ok_or (outstanding d !! txn) (ComponentFault "toy dma: response for unknown txn"));
  update (fun d => set_outstanding (delete txn (outstanding d)) d);;
  n ← incr (completed d);
  update (set_completed n);;
  update (fun d => fold (fold d txn) addr);;
  d ← self;
  trace "toy.dma.done" [("txn", VU64 txn); ("checksum", VU64 (checksum d))];;
  if negb (wake_scheduled d) && (issued d <? ops (config d)) then continue else mret tt.

Definition handle_event (ev : Delivered) : M unit :=
  match ev with
  | Delivered_Wake token =>
      if token =? ISSUE then
        update (set_wake_scheduled false);;
        d ← self;
        (if (issued d <? ops (config d)) && negb (full d) then issue else mret tt);;
        d ← self;
        if (issued d <? ops (config d)) && negb (full d) then continue else mret tt
      else fault "toy dma: unknown wake token"
  | Delivered_Message _ (Message_Mem (V0_WriteResp txn)) => complete txn
  | Delivered_Message _ _ => fault "toy dma: unexpected message on initiator port"
  end.
End handlers.

Definition inspect (d : ToyDma) : list (string * Value) :=
  [("issued", VU64 (issued d)); ("completed", VU64 (completed d)); ("next_txn", VU64 (next_txn d));
   ("outstanding", VU64 (Z.of_nat (size (outstanding d)))); ("burst_left", VU64 (burst_left d));
   ("checksum", VU64 (checksum d))].

(** * Snapshots *)

Section snapshot.
Context `{SnapshotCodec}.

Local Abbreviation R := (ST (list Z) RestoreError).

Definition write_config (d : ToyDma) : list Z :=
  let c := config d in
  put_u32 (clock c) ++ put_u64 (ops c) ++ put_u32 (max_outstanding c) ++ put_u64 (max_burst c) ++
  put_u64 (max_gap_cycles c) ++ put_u64 (base c) ++ put_u32 (access_len c) ++ put_u32 (slots c).

Definition snapshot (d : ToyDma) : list Z :=
  write_config d ++ put_u64 (issued d) ++ put_u64 (completed d) ++ put_u64 (next_txn d) ++
  put_u32 (burst_slot d) ++ put_u64 (burst_left d) ++ put_bool (wake_scheduled d) ++
  put_len (Z.of_nat (size (outstanding d))) ++ (entries (outstanding d) ≫= fun e => put_u64 (fst e) ++ put_u64 (snd e)) ++
  put_u64 (checksum d).

(** A transaction not yet allocated is rejected like one out of order. *)
Definition read_txn (next : Z) : R Z :=
  txn ← rd get_u64;
  check (txn <? next) "toy dma: outstanding writes out of order";;
  mret txn.

Definition restore (d : ToyDma) : R ToyDma :=
  expect_raw (write_config d) "toy dma: snapshot was taken with a different configuration";;
  issued ← rd get_u64;
  completed ← rd get_u64;
  next_txn ← rd get_u64;
  burst_slot ← rd get_u32;
  burst_left ← rd get_u64;
  wake_scheduled ← rd get_bool;
  check (burst_slot <? slots (config d)) "toy dma: burst slot out of range";;
  n ← rd get_len;
  outstanding ← read_ascending (read_txn next_txn) "toy dma: outstanding writes out of order" (fun _ => rd get_u64)
                  (Z.to_nat n) None ∅;
  checksum ← rd get_u64;
  mret (mkToyDma (config d) issued completed next_txn burst_slot burst_left wake_scheduled outstanding checksum).
End snapshot.

(** * Contracts *)

Record dma_config_ok (c : ToyDmaConfig) : Prop := {
  dc_clock : in_u 32 (clock c);
  dc_ops : in_u 64 (ops c);
  dc_max_outstanding : in_u 32 (max_outstanding c);
  dc_burst : 1 <= max_burst c < 2 ^ 64;
  dc_gap : 1 <= max_gap_cycles c < 2 ^ 64;
  dc_base : in_u 64 (base c);
  dc_access_len : in_u 32 (access_len c);
  dc_slots : in_u 32 (slots c);
  dc_region : slot_addr c (slots c) <= 2 ^ 64;
}.

(** The address of a slot of the DMA's region. *)
Definition in_region (c : ToyDmaConfig) (addr : Z) : Prop := exists i, 0 <= i < slots c /\ addr = slot_addr c i.

Record toy_dma_ok (d : ToyDma) : Prop := {
  td_config : dma_config_ok (config d);
  td_issued : issued d <= ops (config d);
  td_txn : next_txn d = issued d;
  td_completed : 0 <= completed d;
  td_count : completed d + Z.of_nat (size (outstanding d)) = issued d;
  td_left : 0 <= burst_left d <= ops (config d) - issued d;
  td_slot : 0 <= burst_slot d < Z.max 1 (slots (config d));
  td_outstanding : map_Forall (fun txn addr => 0 <= txn < next_txn d /\ in_region (config d) addr) (outstanding d);
  td_checksum : in_u 64 (checksum d);
}.

Lemma toy_dma_new_ok cfg : dma_config_ok cfg -> toy_dma_ok (new cfg).
Proof.
  intros Hc. pose proof (dc_ops _ Hc) as Ho. unfold in_u in Ho. split; cbn; rewrite ?map_size_empty; try lia;
    [exact Hc | apply map_Forall_empty | const_range].
Qed.

Lemma slot_addr_range c i : dma_config_ok c -> 0 <= i < slots c -> in_u 64 (slot_addr c i).
Proof.
  intros Hc Hi. pose proof (dc_region _ Hc) as Hr. pose proof (dc_base _ Hc). pose proof (dc_access_len _ Hc).
  unfold slot_addr, in_u in *. assert (i * access_len c <= slots c * access_len c) by nia.
  destruct (Z.eq_dec (access_len c) 0) as [E|E]; [rewrite E in *; lia |]. assert (i * access_len c < slots c * access_len c) by nia. nia.
Qed.

Lemma in_region_range c addr : dma_config_ok c -> in_region c addr -> in_u 64 addr.
Proof. intros Hc (i & Hi & ->). apply slot_addr_range; assumption. Qed.

Section keeping.
Context {C : Type} `{SimContext C, SimRng}.
Context (P : C -> Prop) (HP : ctx_keeps P) (cfg : ToyDmaConfig).

Local Abbreviation M := (ST (ToyDma * C) Failure).

Definition kept {A} (_ : A) (s : ToyDma * C) : Prop := toy_dma_ok (fst s) /\ config (fst s) = cfg /\ P (snd s).
Definition failed (e : Failure) (s : ToyDma * C) : Prop :=
  (exists e', e = Fails e') /\ config (fst s) = cfg /\ P (snd s).

Lemma wp_arith z (Q : Z -> _ -> Prop) X s : in_u 64 z -> Q z s -> wp (arith z : M Z) Q X s.
Proof. intros Hz HQ. unfold arith. rewrite (proj2 (in_ub_spec 64 z) Hz). apply wp_ret, HQ. Qed.

Lemma wp_wake_in k d c : toy_dma_ok d -> config d = cfg -> P c -> wp (wake_in k : M unit) kept failed (d, c).
Proof.
  intros Hd Ec Hc. unfold wake_in. wp_quiet. apply (wp_wakes HP); [const_range | exact Hc | |].
  - intros c1 Hc1. wp_quiet. split; [destruct Hd; split; assumption | auto].
  - intros e c1 Hc1. split; [eauto | auto].
Qed.

Lemma wp_schedule_gap d c : toy_dma_ok d -> config d = cfg -> P c -> wp (schedule_gap : M unit) kept failed (d, c).
Proof.
  intros Hd Ec Hc. unfold schedule_gap. wp_quiet. pose proof (dc_gap _ (td_config _ Hd)).
  apply (wp_below HP); [lia | exact Hc |]. intros n c1 _ Hc1. apply wp_wake_in; assumption.
Qed.

Lemma wp_continue d c : toy_dma_ok d -> config d = cfg -> P c -> wp (continue : M unit) kept failed (d, c).
Proof.
  intros Hd Ec Hc. unfold continue. wp_quiet. destruct (0 <? _); [apply wp_wake_in | apply wp_schedule_gap]; assumption.
Qed.

Lemma wp_dma_fill fuel len : forall data d c Q,
  P c -> bytes_ok data -> (len <= length data + 8 * fuel)%nat ->
  (forall data' c', bytes_ok data' -> (len <= length data')%nat -> P c' -> Q data' (d, c')) ->
  wp (fill fuel len data : M _) Q failed (d, c).
Proof.
  induction fuel as [|fuel IH]; intros data d c Q Hc Hd Hf HQ; cbn [fill]; destruct (Nat.ltb_spec (length data) len); cbn [negb].
  - lia.
  - wp_quiet. apply HQ; assumption.
  - wp_quiet. apply (wp_u64 HP); [exact Hc |]. intros x c' Hc'. apply IH; [exact Hc' | | | exact HQ].
    + apply bytes_app; [exact Hd | apply to_le_ok].
    + rewrite length_app, length_to_le. lia.
  - wp_quiet. apply HQ; assumption.
Qed.

(** After [start_burst] a write of the burst is left. *)
Lemma wp_start_burst d c Q :
  toy_dma_ok d -> config d = cfg -> P c -> issued d < ops cfg -> 0 < slots cfg ->
  (forall slot left_ c', toy_dma_ok (set_burst slot left_ d) -> 0 < left_ -> P c' -> Q tt (set_burst slot left_ d, c')) ->
  wp (start_burst : M unit) Q failed (d, c).
Proof.
  intros Hd <- Hc Hi Hs HQ. unfold start_burst. wp_quiet. pose proof (td_config _ Hd) as Hcfg. pose proof (td_left _ Hd).
  pose proof (td_count _ Hd). pose proof (td_completed _ Hd).
  pose proof (dc_ops _ Hcfg). pose proof (dc_slots _ Hcfg). pose proof (dc_burst _ Hcfg). unfold in_u in *.
  destruct (Z.eqb_spec (burst_left d) 0).
  - wp_quiet. apply (wp_below HP); [lia | exact Hc |]. intros n c1 Hn Hc1. wp_quiet. apply wp_arith; [unfold in_u; lia |]. wp_quiet.
    apply wp_arith; [unfold in_u; lia |]. wp_quiet. apply (wp_below HP); [lia | exact Hc1 |]. intros slot c2 Hsl Hc2. wp_quiet.
    apply HQ; [|lia | exact Hc2]. rewrite wrap_small by (unfold in_u; lia). destruct Hd. split; cbn; try assumption; lia.
  - wp_quiet. replace d with (set_burst (burst_slot d) (burst_left d) d) by (destruct d; reflexivity).
    apply HQ; [|lia | exact Hc]. destruct d. exact Hd.
Qed.

Lemma issued_dma_ok d :
  toy_dma_ok d -> 0 < slots (config d) -> 0 < burst_left d ->
  toy_dma_ok (set_burst ((burst_slot d + 1) mod slots (config d)) (burst_left d - 1) (set_issued (issued d + 1)
    (set_outstanding (<[next_txn d := slot_addr (config d) (burst_slot d)]> (outstanding d)) (set_next_txn (next_txn d + 1) d)))).
Proof.
  intros Hd Hs Hb. pose proof Hd as [D1 D2 D3 D4 D5 D6 D7 D8 D9].
  assert (Hfresh : outstanding d !! next_txn d = None).
  { destruct (outstanding d !! next_txn d) as [a|] eqn:E; [|reflexivity]. specialize (D8 _ _ E). cbn in D8. lia. }
  pose proof (Z.mod_pos_bound (burst_slot d + 1) (slots (config d)) Hs).
  split; cbn; rewrite ?map_size_insert_None by exact Hfresh; try assumption; try lia.
  apply map_Forall_insert; [exact Hfresh |]. split; [split; [lia |]; exists (burst_slot d); split; [lia | reflexivity] |].
  intros txn addr E. destruct (D8 txn addr E). split; [lia | assumption].
Qed.

Lemma wp_dma_issue d c :
  toy_dma_ok d -> config d = cfg -> P c -> issued d < ops cfg -> wp (issue : M unit) kept failed (d, c).
Proof.
  intros Hd Ec Hc Hi. unfold issue. wp_quiet. pose proof (dc_slots _ (td_config _ Hd)) as Hsl. unfold in_u in Hsl.
  destruct (Z.eqb_spec (slots (config d)) 0); [apply wp_fault; split; [eauto | auto] |]. wp_quiet.
  apply wp_start_burst; auto; [rewrite <- Ec; lia |]. intros slot left_ c1 Hd1 Hleft Hc1. wp_quiet. cbn [config set_burst burst_slot next_txn issued burst_left].
  apply wp_dma_fill; [exact Hc1 | constructor | cbn; lia |]. intros data c2 Hdata Hl Hc2. wp_quiet.
  pose proof (td_slot _ Hd1) as Hslot. cbn in Hslot. pose proof (td_config _ Hd) as Hcfg.
  assert (Ha : in_u 64 (slot_addr (config d) slot)) by (apply slot_addr_range; [exact Hcfg | lia]).
  pose proof (td_txn _ Hd). pose proof (td_count _ Hd). pose proof (td_completed _ Hd). pose proof (td_issued _ Hd). pose proof (dc_ops _ Hcfg) as Ho. unfold in_u in Ho. rewrite Ec in *.
  apply wp_arith; [exact Ha |]. wp_quiet. apply wp_incr; [lia |]. wp_quiet.
  apply (wp_sends HP); [| exact Hc2 | | intros e c3 Hc3; split; [eauto | auto]].
  { split; [unfold in_u; lia |]. split; [exact Ha | apply Forall_take, Hdata]. }
  intros c3 Hc3. wp_quiet. apply (wp_note HP); [exact Hc3 |]. intros c4 Hc4. wp_quiet. apply wp_incr; [lia |]. wp_quiet.
  pose proof (td_left _ Hd1) as Hl1. cbn in Hl1. rewrite Ec in Hl1. apply wp_arith; [unfold in_u; lia |]. wp_quiet.
  destruct (Z.leb_spec (2 ^ 32) (slot + 1)); [lia |]. wp_quiet. split; [|split; [exact Ec | exact Hc4]].
  pose proof (issued_dma_ok (set_burst slot left_ d) Hd1) as Hok. cbn in Hok. rewrite Ec in Hok. apply Hok; lia.
Qed.

Lemma fold_dma_ok d word : toy_dma_ok d -> toy_dma_ok (fold d word).
Proof. intros []. split; cbn; try assumption. apply (Z.mod_pos_bound _ (2 ^ 64)). lia. Qed.

Lemma completed_dma_ok d txn addr :
  toy_dma_ok d -> outstanding d !! txn = Some addr ->
  toy_dma_ok (set_completed (completed d + 1) (set_outstanding (delete txn (outstanding d)) d)).
Proof.
  intros [] E. assert (size (outstanding d) <> 0%nat).
  { intros Hz%map_size_empty_inv. rewrite Hz, lookup_empty in E. discriminate. }
  split; cbn; rewrite ?map_size_delete_Some by eauto; try assumption; try lia. apply map_Forall_delete. assumption.
Qed.

Lemma wp_dma_complete txn d c :
  toy_dma_ok d -> config d = cfg -> P c -> wp (complete txn : M unit) kept failed (d, c).
Proof.
  intros Hd Ec Hc. unfold complete. wp_quiet. apply wp_try; [|intros e _; split; [eauto | auto]]. intros addr E.
  destruct (outstanding d !! txn) as [a|] eqn:Eo; [|discriminate]. injection E as ->. wp_quiet.
  assert (size (outstanding d) <> 0%nat).
  { intros Hz%map_size_empty_inv. rewrite Hz, lookup_empty in Eo. discriminate. }
  pose proof (td_count _ Hd). pose proof (td_completed _ Hd). pose proof (td_issued _ Hd). pose proof (dc_ops _ (td_config _ Hd)) as Ho. unfold in_u in Ho.
  apply wp_incr; [cbn; lia |]. wp_quiet. apply (wp_note HP); [exact Hc |]. intros c1 Hc1. wp_quiet.
  assert (Hok : toy_dma_ok (fold (fold (set_completed (completed d + 1) (set_outstanding (delete txn (outstanding d)) d)) txn) addr)).
  { apply fold_dma_ok, fold_dma_ok. eapply completed_dma_ok; eassumption. }
  destruct (_ && _); [apply wp_continue; assumption |]. wp_quiet. split; auto.
Qed.

Lemma wp_dma_handle ev d c :
  delivery_ok ev -> toy_dma_ok d -> config d = cfg -> P c -> wp (handle_event ev : M unit) kept failed (d, c).
Proof.
  intros Hev Hd Ec Hc. assert (Hf : forall what, wp (fault what : M unit) kept failed (d, c))
    by (intros; apply wp_fault; split; [eauto | auto]).
  destruct ev as [port [[]| | |]|token]; cbn [handle_event]; try apply Hf; [apply wp_dma_complete; assumption |].
  destruct (token =? ISSUE); [|apply Hf]. wp_quiet.
  assert (Hd' : toy_dma_ok (set_wake_scheduled false d)) by (destruct Hd; split; assumption).
  eapply wp_mono; [| |intros ? ? X; exact X].
  { instantiate (1 := kept). destruct (_ && _) eqn:Ecan; [|wp_quiet; split; auto]. apply andb_true_iff in Ecan as [Hlt%Z.ltb_lt _].
    apply wp_dma_issue; try assumption. rewrite <- Ec. exact Hlt. }
  intros [] [v c'] (Hv & Ev & Hc'). wp_quiet. destruct (_ && _); [apply wp_continue; assumption |]. wp_quiet. split; auto.
Qed.

Lemma wp_dma_init d c : toy_dma_ok d -> config d = cfg -> P c -> wp (init : M unit) kept failed (d, c).
Proof.
  intros Hd Ec Hc. unfold init. wp_quiet. destruct (_ || _); [apply wp_fault; split; [eauto | auto] |].
  destruct (0 <? _); [apply wp_schedule_gap; assumption |]. wp_quiet. split; auto.
Qed.
End keeping.

Section contracts.
Context `{SnapshotCodec, SimRng}.

#[export] Instance ToyDma_component : Component ToyDma := {
  type_name _ := "toy.dma";
  ports _ := [mkPortSpec "mem" mem_v0_PROTOCOL Role_Initiator];
  component_init C _ := init;
  component_handle ev C _ := handle_event ev;
  snapshot_schema_version _ := SNAPSHOT_SCHEMA;
  component_snapshot := snapshot;
  component_restore d _ := restore d;
}.

Section runs.
Context {C D : Type} `{SimContext C, SimContext D} (R : C -> D -> Prop) (HR : ctx_rel R).

Lemma run_dma_fill fuel len : forall data, same_run R (fill fuel len data) (fill fuel len data).
Proof. induction fuel as [|fuel IH]; intros data; cbn [fill]; uniform_run; apply IH. Qed.

Lemma run_dma_gap : same_run R schedule_gap schedule_gap.
Proof. unfold schedule_gap, wake_in. uniform_run. Qed.

Lemma run_continue : same_run R continue continue.
Proof. unfold continue, wake_in. uniform_run. apply run_dma_gap. Qed.

Lemma run_dma_issue : same_run R issue issue.
Proof. unfold issue, start_burst, arith. uniform_run. all: apply run_dma_fill. Qed.
End runs.

#[export] Instance ToyDma_uniform : UniformComponent ToyDma.
Proof.
  split; [|intros ev]; intros C D HC HD R HR; cbn.
  - unfold init. uniform_run. apply run_dma_gap, HR.
  - unfold handle_event, complete. uniform_run; first [apply run_continue, HR | apply run_dma_issue, HR].
Qed.

#[export, refine] Instance ToyDma_typed : TypedComponent ToyDma := {
  component_ok := toy_dma_ok;
  same_config d d' := config d = config d';
}.
Proof.
  - split; [intros ?; reflexivity | intros ? ?; apply eq_sym | intros ? ? ?; apply eq_trans].
  - auto.
  - intros C HC P d c HP Hd Hc. cbn. eapply wp_mono; [apply (wp_dma_init P HP (config d) d c Hd eq_refl Hc) | |].
    + intros [] [d' c'] (? & ? & ?). auto.
    + intros e [d' c'] (? & ? & ?). auto.
  - intros ev C HC P d c Hev HP Hd Hc. cbn.
    eapply wp_mono; [apply (wp_dma_handle P HP (config d) ev d c Hev Hd eq_refl Hc) | |].
    + intros [] [d' c'] (? & ? & ?). auto.
    + intros e [d' c'] (? & ? & ?). auto.
Defined.

Lemma reads_dma_txn next txn : in_u 64 txn -> txn < next -> reads (read_txn next) (put_u64 txn) txn.
Proof.
  intros Ht Hlt. unfold read_txn. eapply reads_last; [apply reads_u64, Ht |].
  eapply reads_then; [apply reads_check, Z.ltb_lt, Hlt | apply reads_ret].
Qed.

#[export, refine] Instance ToyDma_persistent : PersistentComponent ToyDma := {
  snapshot_fits d := 0 < slots (config d) /\ in_u 32 (Z.of_nat (size (outstanding d)));
}.
Proof.
  - intros. const_range.
  - intros d Hd _. cbn. unfold snapshot, write_config. repeat apply bytes_app; auto with bytes. apply bytes_bind, Forall_forall. intros e _. auto with bytes.
  - intros d d' _ Hd Ec [F1 F2]. cbn. unfold restore, snapshot. pose proof Hd as [D1 D2 D3 D4 D5 D6 D7 D8 D9]. cbn in Ec.
    pose proof (dc_ops _ D1) as Ho. pose proof (dc_slots _ D1) as Hs. unfold in_u in Ho, Hs.
    replace (write_config d') with (write_config d) by (unfold write_config; rewrite Ec; reflexivity).
    do 7 reads_next. eapply reads_then; [apply reads_check, Z.ltb_lt; rewrite Ec; lia |]. reads_next. rewrite Nat2Z.id.
    eapply reads_bind; [apply reads_entries | cbn beta].
    { intros txn addr E. specialize (D8 txn addr E) as [? Ha]. split; [apply reads_dma_txn; unfold in_u; lia | apply reads_u64].
      apply (in_region_range _ _ D1 Ha). }
    reads_next. rewrite Ec. replace (mkToyDma _ _ _ _ _ _ _ _ _) with d' by (destruct d'; reflexivity). apply reads_ret.
Defined.
End contracts.
