(* ===== verification/ToyNet.v ===== *)
(** The M0 reference system as a network: the toy CPU, DMA, bus and memory ([components/toy/src])
    wired as [reference/src/lib.rs] wires them, under every schedule.

    A state is the four components and the deliveries in flight.  A step delivers any one of
    them, in the phase it was sent for: nothing is assumed of latencies or of the order of
    deliveries, so every order a session's clocks and links give is among these.

    [ToyNetProofs] has its invariant and [ToySystem] what follows of it: no component ever
    faults or panics, every run ends, and at its end every operation is done. *)
From stdpp Require Import base numbers list option strings gmap.
From Stdlib Require Import ZArith Lia.
From S2P Require Import Prelude Contracts Handlers Session Components Logs.
From S2P Require ToyCpu ToyDma ToyBus ToyMemory.

Local Open Scope string_scope.
Local Open Scope list_scope.
Local Open Scope Z_scope.

Abbreviation ToyCpu := ToyCpu.ToyCpu.
Abbreviation ToyDma := ToyDma.ToyDma.
Abbreviation ToyBus := ToyBus.ToyBus.
Abbreviation ToyMemory := ToyMemory.ToyMemory.

(** * The network *)

Inductive Node : Set := NCpu | NDma | NBus | NMem.

#[export] Instance Node_eq_dec : EqDecision Node.
Proof. solve_decision. Defined.

(** A delivery in flight: the component, what is delivered, and the phase. *)
Abbreviation Item := (Node * Delivered * Phase)%type.

Record Net : Set := mkNet { n_cpu : ToyCpu; n_dma : ToyDma; n_bus : ToyBus; n_mem : ToyMemory; flight : list Item }.

Definition set_cpu (u : ToyCpu) (n : Net) : Net := mkNet u (n_dma n) (n_bus n) (n_mem n) (flight n).
Definition set_dma (d : ToyDma) (n : Net) : Net := mkNet (n_cpu n) d (n_bus n) (n_mem n) (flight n).
Definition set_bus (b : ToyBus) (n : Net) : Net := mkNet (n_cpu n) (n_dma n) b (n_mem n) (flight n).
Definition set_mem (m : ToyMemory) (n : Net) : Net := mkNet (n_cpu n) (n_dma n) (n_bus n) m (flight n).
Definition set_flight (l : list Item) (n : Net) : Net := mkNet (n_cpu n) (n_dma n) (n_bus n) (n_mem n) l.

(** The links of the reference system (a port is not negative). *)
Definition peer (node : Node) (port : Z) : option (Node * Z) :=
  match node with
  | NCpu => if port <=? 0 then Some (NBus, 0) else None
  | NDma => if port <=? 0 then Some (NBus, 1) else None
  | NBus => if port <=? 0 then Some (NCpu, 0) else if port =? 1 then Some (NDma, 0) else if port =? 2 then Some (NMem, 0) else None
  | NMem => if port <=? 0 then Some (NBus, 2) else None
  end.

(** The delivery an accepted call of the context makes. *)
Definition item_of (node : Node) (e : Effect) : option Item :=
  match e with
  | Sent port msg _ ph => '(node', port') ← peer node port; Some (node', Delivered_Message port' msg, ph)
  | Woken _ ph token => Some (node, Delivered_Wake token, ph)
  | Traced _ _ => None
  end.

Definition posted (node : Node) (log : list Effect) (n : Net) : Net := set_flight (flight n ++ omap (item_of node) log) n.

(** A handler of one component. *)
Definition zoom {S C A} (get : Net -> S) (set : S -> Net -> Net) (m : ST (S * C) Failure A) : ST (Net * C) Failure A :=
  fun '(n, c) => let '((s, c), r) := m (get n, c) in ((set s n, c), r).

Section steps.
Context `{SimRng}.

Definition deliver {C} `{SimContext C} (node : Node) (ev : Delivered) : ST (Net * C) Failure unit :=
  match node with
  | NCpu => zoom n_cpu set_cpu (ToyCpu.handle_event ev)
  | NDma => zoom n_dma set_dma (ToyDma.handle_event ev)
  | NBus => zoom n_bus set_bus (ToyBus.handle_event ev)
  | NMem => zoom n_mem set_mem (ToyMemory.handle_event ev)
  end.

Definition initialize {C} `{SimContext C} (node : Node) : ST (Net * C) Failure unit :=
  match node with
  | NCpu => zoom n_cpu set_cpu ToyCpu.init
  | NDma => zoom n_dma set_dma ToyDma.init
  | NBus => zoom n_bus set_bus ToyBus.init
  | NMem => zoom n_mem set_mem ToyMemory.init
  end.

(** The components initialized, in order, each in some context that accepts its calls. *)
Inductive net_init : list Node -> Net -> Net -> Prop :=
| init_none n : net_init [] n n
| init_node node nodes n n1 n' C (HC : SimContext C) (c : C) ph l :
    initialize node (n, mkLogged ph c [] false) = ((n1, l), Ok tt) ->
    net_init nodes (posted node (l_log l) n1) n' -> net_init (node :: nodes) n n'.

(** One delivery, in some context that accepts the calls of the handler. *)
Inductive net_step : Net -> Net -> Prop :=
| deliver_item l1 node ev ph l2 n n1 C (HC : SimContext C) (c : C) l :
    flight n = l1 ++ (node, ev, ph) :: l2 ->
    deliver node ev (set_flight (l1 ++ l2) n, mkLogged ph c [] false) = ((n1, l), Ok tt) ->
    net_step n (posted node (l_log l) n1).
End steps.

(** * Running a component of the network *)

Lemma runs_zoom {S A} ph (get : Net -> S) (set : S -> Net -> Net) (m : forall C `{SimContext C}, ST (S * C) Failure A) n log
    (Q : A -> Net -> list Effect -> Prop) :
  runs ph m (get n) log (fun a s l => Q a (set s n) l) -> runs ph (fun C _ => zoom get set (m C)) n log Q.
Proof.
  intros Hm C HC c. specialize (Hm C HC c). unfold wp, zoom in *.
  destruct (m (Logged C) _ (get n, mkLogged ph c log false)) as [[s l] [a|e]]; exact Hm.
Qed.
