(* ===== verification/ToyJobs.v ===== *)
(** The transactions under way in the M0 reference system, wherever they are.

    A job is a request or a response in the terms of its initiator: the upstream port of the bus
    and the message with the initiator's own transaction.  [jobs_ok] is the invariant of the
    CPU's and the DMA's outstanding transactions, the CPU's copy of its slots, the bytes of the
    memory and the jobs, in any order; the lemmas are the changes a handler makes to them. *)
From stdpp Require Import base numbers list option strings gmap.
From Stdlib Require Import ZArith Lia.
From S2P Require Import Prelude Contracts Handlers Session Components.
From S2P Require ToyCpu ToyDma ToyMemory.

Local Open Scope string_scope.
Local Open Scope list_scope.
Local Open Scope Z_scope.

Abbreviation Op := ToyCpu.Op.
Abbreviation Op_Read := ToyCpu.Op_Read.
Abbreviation Op_Write := ToyCpu.Op_Write.
Abbreviation write_at := ToyMemory.write_at.

Abbreviation Job := (Z * MemMsgV0)%type.

Definition txn_of (m : MemMsgV0) : Z :=
  match m with V0_ReadReq t _ _ | V0_ReadResp t _ | V0_WriteReq t _ _ | V0_WriteResp t => t end.

Definition job_key (j : Job) : Z * Z := (fst j, txn_of (snd j)).

(** * Bytes of the memory *)

Definition slice (bs : list Z) (addr : Z) (len : nat) : list Z := take len (drop (Z.to_nat addr) bs).

Lemma slice_same bs at_ data :
  (at_ + length data <= length bs)%nat -> take (length data) (drop at_ (write_at at_ data bs)) = data.
Proof.
  intros Hl. unfold write_at. rewrite drop_app_length' by (rewrite length_take; lia). apply take_app_length.
Qed.

Lemma slice_other bs at_ data a len :
  (at_ + length data <= length bs)%nat -> (a + len <= at_ \/ at_ + length data <= a)%nat ->
  take len (drop a (write_at at_ data bs)) = take len (drop a bs).
Proof.
  intros Hl Hd. apply list_eq. intros i. destruct (decide (i < len)%nat) as [Hi|Hi]; [|rewrite !lookup_take_ge by lia; reflexivity].
  rewrite !lookup_take_lt, !lookup_drop by exact Hi. unfold write_at. destruct Hd as [Hd|Hd].
  - rewrite lookup_app_l by (rewrite length_take; lia). apply lookup_take_lt. lia.
  - rewrite lookup_app_r, lookup_app_r, lookup_drop by (rewrite ?length_take; lia). f_equal. rewrite length_take. lia.
Qed.

(** * The invariant *)

Section jobs.
Context (cc : ToyCpu.ToyCpuConfig) (dc : ToyDma.ToyDmaConfig).

Abbreviation len := (Z.to_nat (ToyCpu.access_len cc)).

(** The request of an operation. *)
Definition op_request (txn : Z) (op : Op) : MemMsgV0 :=
  match op with
  | ToyCpu.Op_Read addr => V0_ReadReq txn addr (ToyCpu.access_len cc)
  | ToyCpu.Op_Write addr data => V0_WriteReq txn addr data
  end.

(** An address the CPU uses. *)
Definition cpu_slot (addr : Z) : Prop := exists i, 0 <= i < ToyCpu.slots cc /\ addr = i * ToyCpu.access_len cc.

(** What the CPU expects to read. *)
Definition expected (sh : gmap Z (list Z)) (addr : Z) : list Z := default (replicate len 0) (sh !! addr).

Definition cpu_job (out : gmap Z Op) (sh : gmap Z (list Z)) (msg : MemMsgV0) : Prop :=
  match msg with
  | V0_ReadReq txn _ _ | V0_WriteReq txn _ _ => exists op, out !! txn = Some op /\ msg = op_request txn op
  | V0_ReadResp txn data => exists addr, out !! txn = Some (Op_Read addr) /\ data = expected sh addr
  | V0_WriteResp txn => exists addr data, out !! txn = Some (Op_Write addr data)
  end.

Definition dma_job (out : gmap Z Z) (msg : MemMsgV0) : Prop :=
  match msg with
  | V0_WriteReq txn addr data =>
      out !! txn = Some addr /\ Z.of_nat (length data) = ToyDma.access_len dc /\ bytes_ok data
  | V0_WriteResp txn => is_Some (out !! txn)
  | _ => False
  end.

Definition job_ok (out : gmap Z Op) (sh : gmap Z (list Z)) (dout : gmap Z Z) (j : Job) : Prop :=
  (fst j = 0 /\ cpu_job out sh (snd j)) \/ (fst j = 1 /\ dma_job dout (snd j)).

Definition served (js : list Job) (txn : Z) : Prop := (0, V0_WriteResp txn) ∈ js.

(** The regions do not overlap and are in the memory. *)
Record layout (size : Z) : Prop := {
  ly_len : 0 < ToyCpu.access_len cc;
  ly_low : 0 <= ToyDma.base dc;
  ly_base : ToyCpu.slots cc * ToyCpu.access_len cc <= ToyDma.base dc;
  ly_size : ToyDma.slot_addr dc (ToyDma.slots dc) <= size;
  ly_dma : 0 <= ToyDma.access_len dc;
}.

Record jobs_ok (out : gmap Z Op) (sh : gmap Z (list Z)) (dout : gmap Z Z) (bs : list Z) (js : list Job) : Prop := {
  jo_jobs : Forall (job_ok out sh dout) js;
  jo_once : NoDup (job_key <$> js);
  jo_cpu_job : forall txn, is_Some (out !! txn) -> (0, txn) ∈ (job_key <$> js);
  jo_dma_job : forall txn, is_Some (dout !! txn) -> (1, txn) ∈ (job_key <$> js);
  jo_slot : forall txn op, out !! txn = Some op -> cpu_slot (ToyCpu.Op.addr op);
  jo_written : forall txn addr data, out !! txn = Some (Op_Write addr data) -> length data = len /\ bytes_ok data;
  jo_alone : forall txn txn' op op', out !! txn = Some op -> out !! txn' = Some op' ->
    ToyCpu.Op.addr op = ToyCpu.Op.addr op' -> txn = txn';
  jo_shadow : forall addr data, sh !! addr = Some data -> length data = len;
  jo_region : forall txn addr, dout !! txn = Some addr -> ToyDma.in_region dc addr;
  jo_done : forall txn addr data, out !! txn = Some (Op_Write addr data) -> served js txn -> slice bs addr len = data;
  jo_stored : forall addr, cpu_slot addr ->
    (forall txn data, out !! txn = Some (Op_Write addr data) -> ~ served js txn) -> slice bs addr len = expected sh addr;
}.

Lemma expected_length sh addr : (forall a d, sh !! a = Some d -> length d = len) -> length (expected sh addr) = len.
Proof.
  intros Hs. unfold expected. destruct (sh !! addr) as [d|] eqn:E; cbn; [apply (Hs addr), E | apply length_replicate].
Qed.

(** The order of the jobs does not matter. *)
#[export] Instance jobs_ok_perm out sh dout bs : Proper ((≡ₚ) ==> impl) (jobs_ok out sh dout bs).
Proof.
  intros js js' E []. assert (Hs : forall txn, served js' txn <-> served js txn) by (intros; unfold served; rewrite E; reflexivity).
  split; auto; try (intros txn; rewrite <- E); try rewrite <- E; auto.
  - intros txn addr data Ho Hd. apply (jo_done0 txn addr data Ho), Hs, Hd.
  - intros addr Ha Hn. apply jo_stored0; [exact Ha |]. intros txn data Ho Hd. apply (Hn txn data Ho), Hs, Hd.
Qed.

(** A transaction with a job is outstanding. *)
Lemma job_outstanding out sh dout j :
  job_ok out sh dout j -> (fst j = 0 /\ is_Some (out !! txn_of (snd j))) \/ (fst j = 1 /\ is_Some (dout !! txn_of (snd j))).
Proof.
  destruct j as [port msg]. intros [[E Hj]|[E Hj]]; cbn in *; [left | right]; (split; [exact E |]).
  - destruct msg; cbn in *; destruct Hj as (? & ?); deconj; try destruct H as (? & ?); eauto.
  - destruct msg; cbn in *; try contradiction; deconj; eauto.
Qed.
(** A job depends on the entry of its own transaction only. *)
Lemma job_ext out out' sh sh' dout dout' j :
  (fst j = 0 -> out' !! txn_of (snd j) = out !! txn_of (snd j) /\
     forall addr, out !! txn_of (snd j) = Some (Op_Read addr) -> expected sh' addr = expected sh addr) ->
  (fst j = 1 -> dout' !! txn_of (snd j) = dout !! txn_of (snd j)) ->
  job_ok out sh dout j -> job_ok out' sh' dout' j.
Proof.
  destruct j as [port msg]. unfold job_ok. cbn. intros H0 H1 [[-> Hj]|[-> Hj]]; [left | right]; (split; [reflexivity |]); cbn in *.
  - destruct (H0 eq_refl) as [E Es]. destruct msg; cbn in *; try (rewrite E; exact Hj).
    destruct Hj as (addr & Ho & ->). exists addr. rewrite E. split; [exact Ho |]. symmetry. apply Es, Ho.
  - specialize (H1 eq_refl). destruct msg; cbn in *; try rewrite H1; exact Hj.
Qed.

Lemma fresh_cpu out sh dout js txn :
  Forall (job_ok out sh dout) js -> out !! txn = None -> (0, txn) ∉ (job_key <$> js).
Proof.
  intros Hj Hf (j & E & Hin)%list_elem_of_fmap. rewrite Forall_forall in Hj. apply Hj in Hin.
  unfold job_key in E. injection E as E1 E2. apply job_outstanding in Hin as [[_ [op Ho]]|[Ej _]]; [congruence | lia].
Qed.

Lemma fresh_dma out sh dout js txn :
  Forall (job_ok out sh dout) js -> dout !! txn = None -> (1, txn) ∉ (job_key <$> js).
Proof.
  intros Hj Hf (j & E & Hin)%list_elem_of_fmap. rewrite Forall_forall in Hj. apply Hj in Hin.
  unfold job_key in E. injection E as E1 E2. apply job_outstanding in Hin as [[Ej _]|[_ [op Ho]]]; [lia | congruence].
Qed.

Lemma served_key js txn : served js txn -> (0, txn) ∈ (job_key <$> js).
Proof. intros Hs. apply list_elem_of_fmap. exists (0, V0_WriteResp txn). auto. Qed.

Lemma served_cons j js txn : served (j :: js) txn <-> j = (0, V0_WriteResp txn) \/ served js txn.
Proof. unfold served. rewrite elem_of_cons. split; intros [->|]; auto. Qed.

(** The CPU issues an operation at a free slot. *)
Lemma jobs_issue out sh dout bs js txn op :
  jobs_ok out sh dout bs js -> out !! txn = None -> cpu_slot (ToyCpu.Op.addr op) ->
  (forall txn' op', out !! txn' = Some op' -> ToyCpu.Op.addr op' <> ToyCpu.Op.addr op) ->
  match op with ToyCpu.Op_Read _ => True | ToyCpu.Op_Write _ data => length data = len /\ bytes_ok data end ->
  jobs_ok (<[txn := op]> out) sh dout bs ((0, op_request txn op) :: js).
Proof.
  intros J Hf Hs Ha Hd. pose proof (fresh_cpu _ _ _ _ _ (jo_jobs _ _ _ _ _ J) Hf) as Hk. destruct J.
  assert (Hr : txn_of (op_request txn op) = txn) by (destruct op; reflexivity).
  assert (Hn : forall t, served ((0, op_request txn op) :: js) t <-> served js t).
  { intros t. rewrite served_cons. split; [|auto]. intros [E|]; [destruct op; discriminate | assumption]. }
  split.
  - constructor.
    + left. split; [reflexivity |]. destruct op; cbn; eexists; (split; [apply lookup_insert_eq | reflexivity]).
    + eapply Forall_impl; [exact jo_jobs0 |]. intros j Hj. apply (job_ext out _ sh _ dout _ j); [|auto | exact Hj]. intros E. split; [|auto].
      apply lookup_insert_ne. intros ->. apply job_outstanding in Hj as [[_ [? ?]]|[? _]]; [congruence | lia].
  - cbn [fmap list_fmap]. constructor; [|exact jo_once0]. unfold job_key at 1. cbn. rewrite Hr. exact Hk.
  - intros t [o E]. cbn [fmap list_fmap]. apply elem_of_cons. unfold job_key at 1. cbn. rewrite Hr.
    apply lookup_insert_Some in E as [[-> _]|[_ E]]; eauto.
  - intros t Hd'. cbn [fmap list_fmap]. apply elem_of_cons. eauto.
  - intros t o E. apply lookup_insert_Some in E as [[_ <-]|[_ E]]; eauto.
  - intros t a d E. apply lookup_insert_Some in E as [[_ ->]|[_ E]]; [exact Hd | eauto].
  - intros t t' o o' E E' Ea. apply lookup_insert_Some in E as [[<- <-]|[_ E]]; apply lookup_insert_Some in E' as [[E1 E2]|[_ E']]; try congruence; eauto.
    + destruct (Ha _ _ E' (eq_sym Ea)).
    + subst. destruct (Ha _ _ E Ea).
  - exact jo_shadow0.
  - exact jo_region0.
  - intros t a d E Hv%Hn. apply lookup_insert_Some in E as [[<- _]|[_ E]]; [|eauto]. destruct Hk. apply served_key, Hv.
  - intros a Hc Hno. apply jo_stored0; [exact Hc |]. intros t d E Hv. apply (Hno t d); [|apply Hn, Hv].
    apply lookup_insert_Some. right. split; [congruence | exact E].
Qed.

(** The DMA issues a write to its region. *)
Lemma jobs_issue_dma out sh dout bs js txn addr data :
  jobs_ok out sh dout bs js -> dout !! txn = None -> ToyDma.in_region dc addr ->
  Z.of_nat (length data) = ToyDma.access_len dc -> bytes_ok data ->
  jobs_ok out sh (<[txn := addr]> dout) bs ((1, V0_WriteReq txn addr data) :: js).
Proof.
  intros J Hf Hr Hl Hb. pose proof (fresh_dma _ _ _ _ _ (jo_jobs _ _ _ _ _ J) Hf) as Hk. destruct J.
  assert (Hn : forall t, served ((1, V0_WriteReq txn addr data) :: js) t <-> served js t).
  { intros t. rewrite served_cons. split; [|auto]. intros [E|]; [discriminate | assumption]. }
  split; auto.
  - constructor; [right; split; [reflexivity | split; [apply lookup_insert_eq | auto]] |].
    eapply Forall_impl; [exact jo_jobs0 |]. intros j Hj. apply (job_ext out _ sh _ dout _ j); [auto | | exact Hj]. intros E.
    apply lookup_insert_ne. intros ->. apply job_outstanding in Hj as [[? _]|[_ [? ?]]]; [lia | congruence].
  - cbn [fmap list_fmap]. constructor; [exact Hk | exact jo_once0].
  - intros t Ho. cbn [fmap list_fmap]. apply elem_of_cons. eauto.
  - intros t [o E]. cbn [fmap list_fmap]. apply elem_of_cons.
    apply lookup_insert_Some in E as [[-> _]|[_ E]]; eauto.
  - intros t a E. apply lookup_insert_Some in E as [[_ <-]|[_ E]]; eauto.
  - intros t a d E Hv%Hn. eauto.
  - intros a Hc Hno. apply jo_stored0; [exact Hc |]. intros t d E Hv. apply (Hno t d E), Hn, Hv.
Qed.

(** * Addresses *)

Lemma cpu_slot_range size addr : layout size -> cpu_slot addr -> 0 <= addr /\ addr + ToyCpu.access_len cc <= ToyDma.base dc.
Proof. intros [] (i & Hi & ->). nia. Qed.

Lemma slots_disjoint size addr addr' :
  layout size -> cpu_slot addr -> cpu_slot addr' -> addr <> addr' ->
  addr + ToyCpu.access_len cc <= addr' \/ addr' + ToyCpu.access_len cc <= addr.
Proof.
  intros [] (i & Hi & ->) (j & Hj & ->) Hne. assert (i <> j) by congruence.
  destruct (Z.lt_ge_cases i j); [left | right]; nia.
Qed.

Lemma region_bounds size addr : layout size -> ToyDma.in_region dc addr ->
  ToyDma.base dc <= addr /\ addr + ToyDma.access_len dc <= size.
Proof. intros [] (i & Hi & ->). unfold ToyDma.slot_addr in *. nia. Qed.

Lemma slot_in_memory size addr : layout size -> 0 <= ToyDma.slots dc -> cpu_slot addr -> addr + ToyCpu.access_len cc <= size.
Proof. intros L Hs Ha. pose proof (cpu_slot_range _ _ L Ha). destruct L. unfold ToyDma.slot_addr in *. pose proof (Z.mul_nonneg_nonneg _ _ Hs ly_dma0). lia. Qed.

(** * The memory serves a request *)

Lemma jobs_read out sh dout bs js txn addr l :
  jobs_ok out sh dout bs ((0, V0_ReadReq txn addr l) :: js) ->
  l = ToyCpu.access_len cc /\ cpu_slot addr /\
  jobs_ok out sh dout bs ((0, V0_ReadResp txn (slice bs addr len)) :: js).
Proof.
  intros []. apply Forall_cons in jo_jobs0 as [Hj Hjs]. destruct Hj as [[_ (op & Ho & E)]|[E _]]; [|discriminate E].
  destruct op as [a|a d]; cbn in E; [|discriminate E]. injection E as -> ->.
  pose proof (jo_slot0 _ _ Ho) as Hs. cbn in Hs. split; [reflexivity |]. split; [exact Hs |].
  assert (Hn : forall t, served ((0, V0_ReadResp txn (slice bs a len)) :: js) t <-> served ((0, V0_ReadReq txn a (ToyCpu.access_len cc)) :: js) t).
  { intros t. rewrite !served_cons. split; (intros [?|]; [discriminate | auto]). }
  split; auto.
  - constructor; [|exact Hjs]. left. split; [reflexivity |]. exists a. split; [exact Ho |].
    apply jo_stored0; [exact Hs |]. intros t d E. assert (t = txn) by (apply (jo_alone0 _ _ _ _ E Ho); reflexivity). congruence.
  - intros t a' d E Hv%Hn. eauto.
  - intros a' Ha Hno. apply jo_stored0; [exact Ha |]. intros t d E Hv. apply (Hno t d E), Hn, Hv.
Qed.

Lemma jobs_write out sh dout bs js txn addr data :
  layout (Z.of_nat (length bs)) -> 0 <= ToyDma.slots dc ->
  jobs_ok out sh dout bs ((0, V0_WriteReq txn addr data) :: js) ->
  cpu_slot addr /\ length data = len /\
  jobs_ok out sh dout (write_at (Z.to_nat addr) data bs) ((0, V0_WriteResp txn) :: js).
Proof.
  intros L Hd []. apply Forall_cons in jo_jobs0 as [Hj Hjs]. destruct Hj as [[_ (op & Ho & E)]|[E _]]; [|discriminate E].
  destruct op as [a|a d]; cbn in E; [discriminate E |]. injection E as -> ->.
  pose proof (jo_slot0 _ _ Ho) as Hs. cbn in Hs. destruct (jo_written0 _ _ _ Ho) as [El Hb]. split; [exact Hs |]. split; [exact El |].
  pose proof (cpu_slot_range _ _ L Hs). pose proof (slot_in_memory _ _ L Hd Hs). pose proof (ly_len _ L).
  assert (Hother : forall b, cpu_slot b -> b <> a -> slice (write_at (Z.to_nat a) d bs) b len = slice bs b len).
  { intros b Hb' Hne. pose proof (slots_disjoint _ _ _ L Hs Hb' (not_eq_sym Hne)). pose proof (cpu_slot_range _ _ L Hb').
    apply slice_other; lia. }
  cbn [fmap list_fmap] in jo_once0. pose proof jo_once0 as [Hk _]%NoDup_cons. split; auto.
  - constructor; [|exact Hjs]. left. split; [reflexivity |]. exists a, d. exact Ho.
  - intros t a' d' E Hv. destruct (decide (t = txn)) as [->|Hne].
    + rewrite Ho in E. injection E as <- <-. unfold slice. rewrite <- El. apply slice_same. lia.
    + apply served_cons in Hv as [?|Hv]; [congruence |]. rewrite Hother; [apply (jo_done0 t a' d' E), served_cons; auto | apply (jo_slot0 _ _ E) |].
      intros ->. apply Hne, (jo_alone0 _ _ _ _ E Ho). reflexivity.
  - intros a' Ha Hno. assert (a' <> a). { intros ->. apply (Hno txn d Ho), served_cons. auto. }
    rewrite Hother by assumption. apply jo_stored0; [exact Ha |]. intros t d' E Hv.
    apply (Hno t d' E), served_cons. apply served_cons in Hv as [?|Hv]; [discriminate | auto].
Qed.

Lemma jobs_written out sh dout bs js txn addr data :
  jobs_ok out sh dout bs ((0, V0_WriteReq txn addr data) :: js) -> bytes_ok data.
Proof.
  intros []. apply Forall_cons in jo_jobs0 as [[[_ (op & Ho & E)]|[E _]] _]; [|discriminate E].
  destruct op as [a|a d]; cbn in E; [discriminate E |]. injection E as -> ->. apply (jo_written0 _ _ _ Ho).
Qed.

Lemma jobs_write_dma out sh dout bs js txn addr data :
  layout (Z.of_nat (length bs)) ->
  jobs_ok out sh dout bs ((1, V0_WriteReq txn addr data) :: js) ->
  0 <= addr /\ addr + Z.of_nat (length data) <= Z.of_nat (length bs) /\ bytes_ok data /\
  jobs_ok out sh dout (write_at (Z.to_nat addr) data bs) ((1, V0_WriteResp txn) :: js).
Proof.
  intros L []. apply Forall_cons in jo_jobs0 as [Hj Hjs]. destruct Hj as [[E _]|[_ (Ho & El & Hb)]]; [discriminate E |].
  pose proof (region_bounds _ _ L (jo_region0 _ _ Ho)) as [H1 H2]. pose proof (ly_base _ L). pose proof (ly_len _ L).
  assert (Hother : forall b, cpu_slot b -> slice (write_at (Z.to_nat addr) data bs) b len = slice bs b len).
  { intros b Hb'. pose proof (cpu_slot_range _ _ L Hb'). apply slice_other; lia. }
  pose proof (ly_low _ L). split; [lia |]. split; [lia |]. split; [exact Hb |].
  cbn [fmap list_fmap] in jo_once0. split; auto.
  - constructor; [|exact Hjs]. right. split; [reflexivity |]. cbn. eauto.
  - intros t a d E Hv. apply served_cons in Hv as [?|Hv]; [discriminate |].
    rewrite Hother by (apply (jo_slot0 _ _ E)). apply (jo_done0 t a d E), served_cons. auto.
  - intros a Ha Hno. rewrite Hother by exact Ha. apply jo_stored0; [exact Ha |]. intros t d E Hv. apply (Hno t d E), served_cons.
    apply served_cons in Hv as [?|Hv]; [discriminate | auto].
Qed.

(** * A response is taken *)

(** The jobs left are of other transactions. *)
Lemma jobs_left j js : NoDup (job_key <$> j :: js) -> Forall (fun j' => job_key j' <> job_key j) js.
Proof.
  intros [Hk _]%NoDup_cons. apply Forall_forall. intros j' Hin E. apply Hk. rewrite <- E.
  apply (list_elem_of_fmap_2 job_key), Hin.
Qed.

Lemma key_left js txn j : job_key j <> txn -> txn ∈ (job_key <$> j :: js) -> txn ∈ (job_key <$> js).
Proof. intros Hne Hin. cbn [fmap list_fmap] in Hin. apply elem_of_cons in Hin as [->|Hin]; [contradiction | exact Hin]. Qed.

Lemma jobs_commit_read out sh dout bs js txn data :
  jobs_ok out sh dout bs ((0, V0_ReadResp txn data) :: js) ->
  exists addr, out !! txn = Some (Op_Read addr) /\ data = expected sh addr /\ jobs_ok (delete txn out) sh dout bs js.
Proof.
  intros []. pose proof (jobs_left _ _ jo_once0) as Hleft. apply Forall_cons in jo_jobs0 as [Hj Hjs].
  destruct Hj as [[_ (addr & Ho & ->)]|[E _]]; [|discriminate E]. exists addr. split; [exact Ho |]. split; [reflexivity |]. split.
  - apply Forall_forall. intros j Hin. rewrite Forall_forall in Hjs, Hleft. apply (job_ext out _ sh _ dout _ j); auto.
    intros E. split; [|auto]. apply lookup_delete_ne. intros Et. apply (Hleft j Hin). unfold job_key. cbn. congruence.
  - apply NoDup_cons in jo_once0 as [_ Hn]. exact Hn.
  - intros t [o [Hne E]%lookup_delete_Some]. eapply key_left; [|apply jo_cpu_job0; eauto]. unfold job_key. cbn. congruence.
  - intros t Hs. eapply key_left; [|apply jo_dma_job0, Hs]. unfold job_key. cbn. congruence.
  - intros t o [_ E]%lookup_delete_Some. eauto.
  - intros t a d [_ E]%lookup_delete_Some. eauto.
  - intros t t' o o' [_ E]%lookup_delete_Some [_ E']%lookup_delete_Some. eauto.
  - exact jo_shadow0.
  - exact jo_region0.
  - intros t a d [_ E]%lookup_delete_Some Hv. apply (jo_done0 t a d E), served_cons. auto.
  - intros a Ha Hno. apply jo_stored0; [exact Ha |]. intros t d E Hv. apply (Hno t d).
    + apply lookup_delete_Some. split; [congruence | exact E].
    + apply served_cons in Hv as [?|Hv]; [discriminate | exact Hv].
Qed.

Lemma jobs_commit_write out sh dout bs js txn :
  jobs_ok out sh dout bs ((0, V0_WriteResp txn) :: js) ->
  exists addr data, out !! txn = Some (Op_Write addr data) /\ jobs_ok (delete txn out) (<[addr := data]> sh) dout bs js.
Proof.
  intros []. pose proof (jobs_left _ _ jo_once0) as Hleft. apply Forall_cons in jo_jobs0 as [Hj Hjs].
  destruct Hj as [[_ (addr & data & Ho)]|[E _]]; [|discriminate E]. exists addr, data. split; [exact Ho |].
  assert (Halone : forall t o, t <> txn -> out !! t = Some o -> ToyCpu.Op.addr o <> addr).
  { intros t o Hne E Ea. apply Hne, (jo_alone0 _ _ _ _ E Ho), Ea. }
  assert (Hexp : forall a, a <> addr -> expected (<[addr := data]> sh) a = expected sh a).
  { intros a Hne. unfold expected. rewrite lookup_insert_ne by auto. reflexivity. }
  split.
  - apply Forall_forall. intros j Hin. rewrite Forall_forall in Hjs, Hleft. apply (job_ext out _ sh _ dout _ j); auto.
    intros E. assert (txn_of (snd j) <> txn). { intros Et. apply (Hleft j Hin). unfold job_key. cbn. congruence. }
    split; [apply lookup_delete_ne; auto |]. intros a Ea. apply Hexp. exact (Halone _ _ H Ea).
  - apply NoDup_cons in jo_once0 as [_ Hn]. exact Hn.
  - intros t [o [Hne E]%lookup_delete_Some]. eapply key_left; [|apply jo_cpu_job0; eauto]. unfold job_key. cbn. congruence.
  - intros t Hs. eapply key_left; [|apply jo_dma_job0, Hs]. unfold job_key. cbn. congruence.
  - intros t o [_ E]%lookup_delete_Some. eauto.
  - intros t a d [_ E]%lookup_delete_Some. eauto.
  - intros t t' o o' [_ E]%lookup_delete_Some [_ E']%lookup_delete_Some. eauto.
  - intros a d [[_ <-]|[_ E]]%lookup_insert_Some; [apply (jo_written0 _ _ _ Ho) | eauto].
  - exact jo_region0.
  - intros t a d [_ E]%lookup_delete_Some Hv. apply (jo_done0 t a d E), served_cons. auto.
  - intros a Ha Hno. destruct (decide (a = addr)) as [->|Hne].
    + unfold expected. rewrite lookup_insert_eq. apply (jo_done0 txn addr data Ho), served_cons. auto.
    + rewrite Hexp by exact Hne. apply jo_stored0; [exact Ha |]. intros t d E Hv. apply (Hno t d).
      * apply lookup_delete_Some. split; [|exact E]. intros ->. congruence.
      * apply served_cons in Hv as [?|Hv]; [|exact Hv]. congruence.
Qed.

Lemma jobs_complete out sh dout bs js msg :
  jobs_ok out sh dout bs ((1, msg) :: js) -> is_Some (dout !! txn_of msg) /\ jobs_ok out sh (delete (txn_of msg) dout) bs js.
Proof.
  intros []. pose proof (jobs_left _ _ jo_once0) as Hleft. apply Forall_cons in jo_jobs0 as [Hj Hjs].
  split; [apply job_outstanding in Hj as [[E _]|[_ ?]]; [discriminate E | assumption] |].
  assert (Hn : forall t, served ((1, msg) :: js) t <-> served js t).
  { intros t. rewrite served_cons. split; [|auto]. intros [?|?]; [discriminate | assumption]. }
  split; auto.
  - apply Forall_forall. intros j Hin. rewrite Forall_forall in Hjs, Hleft. apply (job_ext out _ sh _ dout _ j); auto.
    intros E. apply lookup_delete_ne. intros Et. apply (Hleft j Hin). unfold job_key. cbn. congruence.
  - apply NoDup_cons in jo_once0 as [_ ?]. assumption.
  - intros t Hs. eapply key_left; [|apply jo_cpu_job0, Hs]. unfold job_key. cbn. congruence.
  - intros t [o [Hne E]%lookup_delete_Some]. eapply key_left; [|apply jo_dma_job0; eauto]. unfold job_key. cbn. congruence.
  - intros t a [_ E]%lookup_delete_Some. eauto.
  - intros t a d E Hv. apply (jo_done0 t a d E), Hn, Hv.
  - intros a Ha Hno. apply jo_stored0; [exact Ha |]. intros t d E Hv. apply (Hno t d E), Hn, Hv.
Qed.

Lemma jobs_start size : layout size -> 0 <= size -> 0 <= ToyDma.slots dc -> jobs_ok ∅ ∅ ∅ (replicate (Z.to_nat size) 0) [].
Proof.
  intros L Hs Hd. split; try (intros *; rewrite lookup_empty; intros; simplify_eq); try (constructor).
  - destruct H. discriminate.
  - destruct H. discriminate.
  - intros addr Ha _. unfold expected. rewrite lookup_empty. cbn. unfold slice.
    pose proof (cpu_slot_range _ _ L Ha). pose proof (slot_in_memory _ _ L Hd Ha). pose proof (ly_len _ L).
    rewrite drop_replicate, take_replicate. f_equal. lia.
Qed.
End jobs.
