(* ===== verification/ToyRuns.v ===== *)
(** What the handlers of the toy components do when they do not fault: the state they leave and
    what they send, in any context ([Logs]). *)
From stdpp Require Import base numbers list option strings gmap.
From Stdlib Require Import ZArith Lia.
From S2P Require Import Prelude Contracts Handlers Session Components Logs ToyJobs.
From S2P Require ToyCpu ToyDma ToyBus ToyMemory.

Local Open Scope string_scope.
Local Open Scope list_scope.
Local Open Scope Z_scope.

(** * The memory *)

Lemma in_range m addr len :
  0 <= addr -> 0 <= len -> addr + len <= Z.of_nat (length (ToyMemory.bytes m)) < 2 ^ 32 ->
  ToyMemory.range m addr len = Ok (Z.to_nat addr).
Proof.
  intros Ha Hl Hr. unfold ToyMemory.range. rewrite (proj2 (checked_add_Some 64 addr len (addr + len))) by (unfold in_u; lia).
  cbn. rewrite (proj2 (Z.leb_le _ _)) by lia. reflexivity.
Qed.

Lemma runs_mem_read ph port m txn addr len log Q :
  0 <= addr -> 0 <= len -> addr + len <= Z.of_nat (length (ToyMemory.bytes m)) < 2 ^ 32 ->
  Q tt m (log ++ [Sent 0 (Message_Mem (V0_ReadResp txn (slice (ToyMemory.bytes m) addr (Z.to_nat len))))
                    (When_After (ToyMemory.read_latency (ToyMemory.config m))) Phase_Complete]) ->
  runs ph (fun C _ => ToyMemory.handle_event (Delivered_Message port (Message_Mem (V0_ReadReq txn addr len)))) m log Q.
Proof.
  intros Ha Hl Hr HQ. unfold ToyMemory.handle_event, ToyMemory.respond. log_run. eapply runs_try; [apply in_range; assumption |].
  log_run. exact HQ.
Qed.

Lemma runs_mem_write ph port m txn addr data log Q :
  0 <= addr -> addr + Z.of_nat (length data) <= Z.of_nat (length (ToyMemory.bytes m)) < 2 ^ 32 ->
  Q tt (ToyMemory.set_bytes (ToyMemory.write_at (Z.to_nat addr) data (ToyMemory.bytes m)) m)
    (log ++ [Sent 0 (Message_Mem (V0_WriteResp txn)) (When_After (ToyMemory.write_latency (ToyMemory.config m))) Phase_Complete]) ->
  runs ph (fun C _ => ToyMemory.handle_event (Delivered_Message port (Message_Mem (V0_WriteReq txn addr data)))) m log Q.
Proof.
  intros Ha Hr HQ. unfold ToyMemory.handle_event, ToyMemory.respond. log_run. eapply runs_try; [apply in_range; lia |].
  log_run. exact HQ.
Qed.

(** * The CPU *)

Section cpu.
Context `{SimRng} (ph : Phase).

Definition issue_wake (u : ToyCpu.ToyCpu) (k : Z) : Effect :=
  Woken (When_Cycles (ToyCpu.clock (ToyCpu.config u)) k) Phase_Request ToyCpu.ISSUE.

Lemma runs_schedule_issue u log (Q : unit -> ToyCpu.ToyCpu -> list Effect -> Prop) :
  0 < ToyCpu.max_think_cycles (ToyCpu.config u) ->
  (forall k, Q tt (ToyCpu.set_issue_scheduled true u) (log ++ [issue_wake u k])) ->
  runs ph (fun C _ => ToyCpu.schedule_issue) u log Q.
Proof.
  intros Hn HQ. unfold ToyCpu.schedule_issue. log_run. apply runs_below; [exact Hn |]. intros n _. log_run. apply HQ.
Qed.

Lemma runs_fill fuel len u log Q : forall data,
  bytes_ok data -> (len <= length data + 8 * fuel)%nat ->
  (forall data', bytes_ok data' -> (len <= length data')%nat -> Q data' u log) ->
  runs ph (fun C _ => ToyCpu.fill fuel len data) u log Q.
Proof.
  induction fuel as [|fuel IH]; intros data Hd Hf HQ; cbn [ToyCpu.fill]; destruct (Nat.ltb_spec (length data) len); cbn [negb].
  - lia.
  - log_run. apply HQ; assumption.
  - log_step. apply runs_u64. intros x. apply IH; [apply bytes_app; [exact Hd | apply to_le_ok] | | exact HQ].
    rewrite length_app, length_to_le. lia.
  - log_run. apply HQ; assumption.
Qed.

Lemma runs_choose_op u u' addr log Q :
  (forall op, ToyCpu.Op.addr op = addr ->
     match op with ToyCpu.Op_Read _ => True
     | ToyCpu.Op_Write _ data => length data = Z.to_nat (ToyCpu.access_len (ToyCpu.config u)) /\ bytes_ok data end -> Q op u' log) ->
  runs ph (fun C _ => ToyCpu.choose_op u addr) u' log Q.
Proof.
  intros HQ. unfold ToyCpu.choose_op. log_step. apply runs_chance. intros []; log_run; [|apply HQ; exact I || reflexivity].
  apply runs_fill; [constructor | cbn; lia |]. intros data Hd Hl. log_run. apply HQ; [reflexivity |].
  split; [rewrite length_take; lia | apply Forall_take, Hd].
Qed.

(** The CPU after it issued [op]. *)
Definition issued_cpu (u : ToyCpu.ToyCpu) (op : Op) : ToyCpu.ToyCpu :=
  ToyCpu.set_issued (ToyCpu.issued u + 1) (ToyCpu.set_outstanding (<[ToyCpu.next_txn u := op]> (ToyCpu.outstanding u))
    (ToyCpu.set_next_txn (ToyCpu.next_txn u + 1) u)).

Lemma runs_issue u log Q :
  0 < ToyCpu.slots (ToyCpu.config u) -> 0 <= ToyCpu.next_txn u < 2 ^ 64 - 1 -> 0 <= ToyCpu.issued u < 2 ^ 64 - 1 ->
  (forall start, is_Some (ToyCpu.free_slot u start)) ->
  (forall start op, ToyCpu.free_slot u start = Some (ToyCpu.Op.addr op) ->
     match op with ToyCpu.Op_Read _ => True
     | ToyCpu.Op_Write _ data => length data = Z.to_nat (ToyCpu.access_len (ToyCpu.config u)) /\ bytes_ok data end ->
     Q tt (issued_cpu u op)
       (log ++ [Sent 0 (Message_Mem (op_request (ToyCpu.config u) (ToyCpu.next_txn u) op)) When_Now Phase_Request])) ->
  runs ph (fun C _ => ToyCpu.issue) u log Q.
Proof.
  intros Hs Hn Hi Hfree HQ. unfold ToyCpu.issue. log_run. destruct (Z.eqb_spec (ToyCpu.slots (ToyCpu.config u)) 0); [lia |].
  log_run. apply runs_below; [exact Hs |]. intros start _. log_run. destruct (Hfree start) as [addr Ea].
  eapply runs_try; [rewrite Ea; reflexivity |]. log_run. apply runs_choose_op. intros op Eop Hop. log_run.
  apply runs_incr; [exact Hn |]. log_run. apply runs_incr; [exact Hi |]. log_run.
  apply HQ with start; [congruence | exact Hop].
Qed.

(** The CPU after it committed a response. *)
Definition committed_cpu (u : ToyCpu.ToyCpu) (txn : Z) (sh : gmap Z (list Z)) (words : list Z) : ToyCpu.ToyCpu :=
  ToyCpu.set_committed (ToyCpu.committed u + 1)
    (foldl ToyCpu.fold (ToyCpu.set_shadow sh (ToyCpu.set_outstanding (delete txn (ToyCpu.outstanding u)) u)) words).

Lemma runs_fold_commit u tag txn addr bytes log Q :
  0 <= ToyCpu.committed u < 2 ^ 64 - 1 ->
  Q tt (ToyCpu.set_committed (ToyCpu.committed u + 1) (foldl ToyCpu.fold u ([tag; txn; addr] ++ bytes))) log ->
  runs ph (fun C _ => ToyCpu.fold_commit tag txn addr bytes) u log Q.
Proof.
  intros Hc HQ. unfold ToyCpu.fold_commit. log_run. rewrite <- foldl_app.
  rewrite (proj1 (ToyCpu.folds_fields _ _)). apply runs_incr; [exact Hc |]. log_run. exact HQ.
Qed.

Lemma runs_commit_read u txn addr data log Q :
  ToyCpu.outstanding u !! txn = Some (Op_Read addr) -> data = expected (ToyCpu.config u) (ToyCpu.shadow u) addr ->
  0 <= ToyCpu.committed u < 2 ^ 64 - 1 ->
  Q tt (committed_cpu u txn (ToyCpu.shadow u) ([0; txn; addr] ++ data)) log ->
  runs ph (fun C _ => ToyCpu.commit_one (txn, Some data)) u log Q.
Proof.
  intros Ho Hd Hc HQ. unfold ToyCpu.commit_one. log_run. eapply runs_try; [rewrite Ho; reflexivity |]. log_run.
  rewrite bool_decide_true by exact Hd. cbn [negb]. log_run. apply runs_fold_commit; [exact Hc | exact HQ].
Qed.

Lemma runs_commit_write u txn addr data log Q :
  ToyCpu.outstanding u !! txn = Some (Op_Write addr data) -> 0 <= ToyCpu.committed u < 2 ^ 64 - 1 ->
  Q tt (committed_cpu u txn (<[addr := data]> (ToyCpu.shadow u)) ([1; txn; addr] ++ data)) log ->
  runs ph (fun C _ => ToyCpu.commit_one (txn, None)) u log Q.
Proof.
  intros Ho Hc HQ. unfold ToyCpu.commit_one. log_run. eapply runs_try; [rewrite Ho; reflexivity |]. log_run.
  apply runs_fold_commit; [exact Hc | exact HQ].
Qed.

Lemma runs_cpu_message port msg a u log (Q : unit -> ToyCpu.ToyCpu -> list Effect -> Prop) :
  ToyCpu.arrival msg = Some a ->
  (let u' := ToyCpu.set_arrived (ToyCpu.arrived u ++ [a]) u in
   if ToyCpu.commit_scheduled u then Q tt u' log
   else Q tt (ToyCpu.set_commit_scheduled true u') (log ++ [Woken When_Now Phase_Commit ToyCpu.COMMIT])) ->
  runs ph (fun C _ => ToyCpu.handle_event (Delivered_Message port (Message_Mem msg))) u log Q.
Proof.
  intros Ea HQ. unfold ToyCpu.handle_event. log_run. eapply runs_try; [rewrite Ea; reflexivity |]. log_run. cbn in *.
  destruct (ToyCpu.commit_scheduled u); cbn [negb]; log_run; exact HQ.
Qed.

(** Only the checksum. *)
Definition with_checksum (x : Z) (u : ToyCpu.ToyCpu) : ToyCpu.ToyCpu :=
  ToyCpu.mkToyCpu (ToyCpu.config u) (ToyCpu.issued u) (ToyCpu.committed u) (ToyCpu.next_txn u) (ToyCpu.issue_scheduled u)
    (ToyCpu.commit_scheduled u) (ToyCpu.outstanding u) (ToyCpu.arrived u) (ToyCpu.shadow u) x.

Lemma folds_checksum words : forall u, exists x, foldl ToyCpu.fold u words = with_checksum x u.
Proof.
  induction words as [|w words IH]; intros u; [exists (ToyCpu.checksum u); destruct u; reflexivity |].
  destruct (IH (ToyCpu.fold u w)) as [x E]. exists x. exact E.
Qed.
End cpu.

(** * The DMA *)

Section dma.
Context `{SimRng} (ph : Phase).

Definition dma_wake (d : ToyDma.ToyDma) (k : Z) : Effect :=
  Woken (When_Cycles (ToyDma.clock (ToyDma.config d)) k) Phase_Request ToyDma.ISSUE.

Lemma runs_wake_in k d log (Q : unit -> ToyDma.ToyDma -> list Effect -> Prop) :
  Q tt (ToyDma.set_wake_scheduled true d) (log ++ [dma_wake d k]) -> runs ph (fun C _ => ToyDma.wake_in k) d log Q.
Proof. intros HQ. unfold ToyDma.wake_in. log_run. exact HQ. Qed.

Lemma runs_schedule_gap d log (Q : unit -> ToyDma.ToyDma -> list Effect -> Prop) :
  0 < ToyDma.max_gap_cycles (ToyDma.config d) ->
  (forall k, Q tt (ToyDma.set_wake_scheduled true d) (log ++ [dma_wake d k])) -> runs ph (fun C _ => ToyDma.schedule_gap) d log Q.
Proof.
  intros Hg HQ. unfold ToyDma.schedule_gap. log_run. apply runs_below; [exact Hg |]. intros x _. apply runs_wake_in, HQ.
Qed.

Lemma runs_continue d log (Q : unit -> ToyDma.ToyDma -> list Effect -> Prop) :
  0 < ToyDma.max_gap_cycles (ToyDma.config d) ->
  (forall k, Q tt (ToyDma.set_wake_scheduled true d) (log ++ [dma_wake d k])) -> runs ph (fun C _ => ToyDma.continue) d log Q.
Proof.
  intros Hg HQ. unfold ToyDma.continue. log_run. destruct (0 <? _); [apply runs_wake_in, HQ | apply runs_schedule_gap; [exact Hg | exact HQ]].
Qed.

Lemma runs_dma_fill fuel len d log Q : forall data,
  bytes_ok data -> (len <= length data + 8 * fuel)%nat ->
  (forall data', bytes_ok data' -> (len <= length data')%nat -> Q data' d log) ->
  runs ph (fun C _ => ToyDma.fill fuel len data) d log Q.
Proof.
  induction fuel as [|fuel IH]; intros data Hd Hf HQ; cbn [ToyDma.fill]; destruct (Nat.ltb_spec (length data) len); cbn [negb].
  - lia.
  - log_run. apply HQ; assumption.
  - log_step. apply runs_u64. intros x. apply IH; [apply bytes_app; [exact Hd | apply to_le_ok] | | exact HQ].
    rewrite length_app, length_to_le. lia.
  - log_run. apply HQ; assumption.
Qed.

Lemma runs_arith z d log (Q : Z -> ToyDma.ToyDma -> list Effect -> Prop) :
  in_u 64 z -> Q z d log -> runs ph (fun C _ => ToyDma.arith z) d log Q.
Proof. intros Hz HQ. unfold ToyDma.arith. rewrite (proj2 (in_ub_spec 64 z) Hz). log_run. exact HQ. Qed.

Lemma runs_start_burst d log Q :
  ToyDma.toy_dma_ok d -> ToyDma.issued d < ToyDma.ops (ToyDma.config d) -> 0 < ToyDma.slots (ToyDma.config d) ->
  (forall slot left_, ToyDma.toy_dma_ok (ToyDma.set_burst slot left_ d) -> 0 < left_ -> Q tt (ToyDma.set_burst slot left_ d) log) ->
  runs ph (fun C _ => ToyDma.start_burst) d log Q.
Proof.
  intros Hd Hi Hs HQ. unfold ToyDma.start_burst. log_run. pose proof (ToyDma.td_config _ Hd) as Hcfg. pose proof (ToyDma.td_left _ Hd).
  pose proof (ToyDma.td_count _ Hd). pose proof (ToyDma.td_completed _ Hd).
  pose proof (ToyDma.dc_ops _ Hcfg). pose proof (ToyDma.dc_slots _ Hcfg). pose proof (ToyDma.dc_burst _ Hcfg). unfold in_u in *.
  destruct (Z.eqb_spec (ToyDma.burst_left d) 0).
  - log_step. apply runs_below; [lia |]. intros k Hk. log_step. apply runs_arith; [unfold in_u; lia |].
    log_step. apply runs_arith; [unfold in_u; lia |]. log_step. apply runs_below; [lia |]. intros slot Hsl. log_run.
    apply HQ; [|lia]. rewrite wrap_small by (unfold in_u; lia). destruct Hd. split; cbn; try assumption; lia.
  - log_run. replace d with (ToyDma.set_burst (ToyDma.burst_slot d) (ToyDma.burst_left d) d) by (destruct d; reflexivity).
    apply HQ; [|lia]. destruct d. exact Hd.
Qed.

(** The DMA after it issued the next write of its burst. *)
Definition issued_dma (d : ToyDma.ToyDma) : ToyDma.ToyDma :=
  ToyDma.set_burst ((ToyDma.burst_slot d + 1) mod ToyDma.slots (ToyDma.config d)) (ToyDma.burst_left d - 1)
    (ToyDma.set_issued (ToyDma.issued d + 1)
      (ToyDma.set_outstanding (<[ToyDma.next_txn d := ToyDma.slot_addr (ToyDma.config d) (ToyDma.burst_slot d)]> (ToyDma.outstanding d))
        (ToyDma.set_next_txn (ToyDma.next_txn d + 1) d))).

Lemma runs_dma_issue d log Q :
  ToyDma.toy_dma_ok d -> ToyDma.issued d < ToyDma.ops (ToyDma.config d) -> 0 < ToyDma.slots (ToyDma.config d) ->
  (forall slot left_ data, let d' := ToyDma.set_burst slot left_ d in
     ToyDma.toy_dma_ok d' -> 0 < left_ -> bytes_ok data -> Z.of_nat (length data) = ToyDma.access_len (ToyDma.config d) ->
     Q tt (issued_dma d')
       (log ++ [Sent 0 (Message_Mem (V0_WriteReq (ToyDma.next_txn d) (ToyDma.slot_addr (ToyDma.config d) slot) data)) When_Now Phase_Request])) ->
  runs ph (fun C _ => ToyDma.issue) d log Q.
Proof.
  intros Hd Hi Hs HQ. unfold ToyDma.issue. log_run. destruct (Z.eqb_spec (ToyDma.slots (ToyDma.config d)) 0); [lia |]. log_step.
  apply runs_start_burst; auto. intros slot left_ Hd1 Hleft. log_run. apply runs_dma_fill; [constructor | cbn; lia |].
  intros data Hdata Hl. log_step. cbn [ToyDma.config ToyDma.set_burst ToyDma.burst_slot ToyDma.burst_left ToyDma.next_txn ToyDma.issued] in *.
  pose proof (ToyDma.td_slot _ Hd1) as Hslot. cbn in Hslot. pose proof (ToyDma.td_config _ Hd) as Hcfg.
  pose proof (ToyDma.td_txn _ Hd). pose proof (ToyDma.td_count _ Hd). pose proof (ToyDma.td_completed _ Hd).
  pose proof (ToyDma.dc_ops _ Hcfg) as Ho. pose proof (ToyDma.dc_slots _ Hcfg) as Hsl. pose proof (ToyDma.dc_access_len _ Hcfg) as Hal. unfold in_u in Ho, Hsl, Hal.
  pose proof (ToyDma.td_left _ Hd1) as Hl1. cbn in Hl1.
  apply runs_arith; [apply ToyDma.slot_addr_range; [exact Hcfg | lia] |]. log_step. apply runs_incr; [lia |]. log_run.
  apply runs_incr; [lia |]. log_run. apply runs_arith; [unfold in_u; lia |].
  destruct (Z.leb_spec (2 ^ 32) (slot + 1)); [lia |]. log_run.
  apply (HQ slot left_); [exact Hd1 | exact Hleft | apply Forall_take, Hdata | rewrite length_take; lia].
Qed.

(** The DMA after a write completed. *)
Definition completed_dma (d : ToyDma.ToyDma) (txn addr : Z) : ToyDma.ToyDma :=
  ToyDma.fold (ToyDma.fold (ToyDma.set_completed (ToyDma.completed d + 1)
    (ToyDma.set_outstanding (delete txn (ToyDma.outstanding d)) d)) txn) addr.

Lemma runs_complete txn addr d log (Q : unit -> ToyDma.ToyDma -> list Effect -> Prop) :
  ToyDma.outstanding d !! txn = Some addr -> 0 <= ToyDma.completed d < 2 ^ 64 - 1 -> 0 < ToyDma.max_gap_cycles (ToyDma.config d) ->
  (let d' := completed_dma d txn addr in
   if negb (ToyDma.wake_scheduled d) && (ToyDma.issued d <? ToyDma.ops (ToyDma.config d))
   then forall k, Q tt (ToyDma.set_wake_scheduled true d') (log ++ [dma_wake d k]) else Q tt d' log) ->
  runs ph (fun C _ => ToyDma.complete txn) d log Q.
Proof.
  intros E Hc Hg HQ. unfold ToyDma.complete. log_run. eapply runs_try; [rewrite E; reflexivity |]. log_run.
  apply runs_incr; [exact Hc |]. log_run. cbn in *. destruct (_ && _); [apply runs_continue; [exact Hg | exact HQ] | log_run; exact HQ].
Qed.
End dma.

(** * The bus *)

Section bus.
Context (ph : Phase).

Definition arbitrate_wake (b : ToyBus.ToyBus) (k : Z) : Effect :=
  Woken (When_Cycles (ToyBus.clock (ToyBus.config b)) k) Phase_Transfer ToyBus.ARBITRATE.

Lemma runs_bus_request port msg q b log (Q : unit -> ToyBus.ToyBus -> list Effect -> Prop) :
  ToyBus.request_txn msg <> None -> ph = Phase_Request -> ToyBus.queue b port = Some q ->
  (let b' := ToyBus.set_queue port (q ++ [msg]) b in
   if ToyBus.arbitration_scheduled b then Q tt b' log else Q tt (ToyBus.set_scheduled true b') (log ++ [arbitrate_wake b' 0])) ->
  runs ph (fun C _ => ToyBus.request port msg) b log Q.
Proof.
  intros Hr Hp Hq HQ. unfold ToyBus.request. rewrite bool_decide_false by exact Hr. log_run.
  rewrite bool_decide_true by exact Hp. cbn [negb]. log_run. eapply runs_try; [rewrite Hq; reflexivity |]. log_run.
  destruct (ToyBus.arbitration_scheduled b); cbn [negb]; [log_run; exact HQ |]. unfold ToyBus.schedule_arbitration. log_run. exact HQ.
Qed.

Lemma runs_route msg t w r b log (Q : unit -> ToyBus.ToyBus -> list Effect -> Prop) :
  ToyBus.response_txn msg = Some (t, w) -> ToyBus.routes b !! t = Some r -> ToyBus.r_write r = w ->
  Q tt (ToyBus.set_routes (delete t (ToyBus.routes b)) b)
    (log ++ [Sent (ToyBus.r_port r) (Message_Mem (ToyBus.with_txn msg (ToyBus.r_txn r))) When_Now ph]) ->
  runs ph (fun C _ => ToyBus.route msg) b log Q.
Proof.
  intros Em Er Ew HQ. unfold ToyBus.route. log_step. eapply runs_try; [rewrite Em; reflexivity |]. cbn beta iota. log_run.
  eapply runs_try; [rewrite Er; reflexivity |]. log_run. rewrite Ew, Bool.eqb_reflx. cbn [negb]. log_run. exact HQ.
Qed.

(** The bus after it granted the head [msg] of the queue of port [w]. *)
Definition granted (b : ToyBus.ToyBus) (w : Z) (q : list MemMsgV0) (txn : Z) (write : bool) : ToyBus.ToyBus :=
  let b' := ToyBus.set_next_downstream (ToyBus.next_downstream b + 1) (ToyBus.set_queue w q (ToyBus.set_priority (1 - w) b)) in
  ToyBus.set_routes (<[ToyBus.next_downstream b := ToyBus.mkRoute w txn write]> (ToyBus.routes b')) b'.

Lemma runs_arbitrate b w contended msg q txn write log (Q : unit -> ToyBus.ToyBus -> list Effect -> Prop) :
  ToyBus.winner b = Some (w, contended) -> ToyBus.queue b w = Some (msg :: q) -> ToyBus.request_txn msg = Some (txn, write) ->
  0 <= ToyBus.next_downstream b < 2 ^ 64 - 1 ->
  Q tt (granted b w q txn write)
    (log ++ [Sent 2 (Message_Mem (ToyBus.with_txn msg (ToyBus.next_downstream b))) When_Now Phase_Transfer]) ->
  runs ph (fun C _ => ToyBus.arbitrate) b log Q.
Proof.
  intros Ew Eq Em Hn HQ. unfold ToyBus.arbitrate. log_run. rewrite Ew. log_run. rewrite Eq. log_run. rewrite Em. log_run.
  apply runs_incr; [exact Hn |]. log_run. exact HQ.
Qed.

Lemma runs_no_grant b log (Q : unit -> ToyBus.ToyBus -> list Effect -> Prop) :
  ToyBus.winner b = None -> Q tt b log -> runs ph (fun C _ => ToyBus.arbitrate) b log Q.
Proof. intros Ew HQ. unfold ToyBus.arbitrate. log_run. rewrite Ew. log_run. exact HQ. Qed.
End bus.
