(* ===== verification/ToyNetProofs.v ===== *)
(** The M0 reference system is correct under every schedule: no component faults, the CPU reads
    what it wrote, and when nothing is in flight all the work is done. *)
From stdpp Require Import base numbers list option strings gmap.
From Stdlib Require Import ZArith Lia.
From S2P Require Import Prelude Contracts Handlers Session Components Logs ToyNet ToyJobs ToyRuns.
From S2P Require ToyCpu ToyDma ToyBus ToyMemory.

Local Open Scope string_scope.
Local Open Scope list_scope.
Local Open Scope Z_scope.

(** * What is under way *)

(** The job a delivery carries; the bus translates its downstream transaction back. *)
Definition job (b : ToyBus) (it : Item) : option Job :=
  match it with
  | (NBus, Delivered_Message port (Message_Mem msg), _) =>
      if port =? 2 then r ← ToyBus.routes b !! txn_of msg; Some (ToyBus.r_port r, ToyBus.with_txn msg (ToyBus.r_txn r))
      else Some (port, msg)
  | (NMem, Delivered_Message _ (Message_Mem msg), _) =>
      r ← ToyBus.routes b !! txn_of msg; Some (ToyBus.r_port r, ToyBus.with_txn msg (ToyBus.r_txn r))
  | (NCpu, Delivered_Message _ (Message_Mem msg), _) => Some (0, msg)
  | (NDma, Delivered_Message _ (Message_Mem msg), _) => Some (1, msg)
  | _ => None
  end.

Definition arrival_msg (a : Z * option (list Z)) : MemMsgV0 :=
  match snd a with Some data => V0_ReadResp (fst a) data | None => V0_WriteResp (fst a) end.

Definition queued (b : ToyBus) : list Job := (pair 0 <$> ToyBus.queue0 b) ++ (pair 1 <$> ToyBus.queue1 b).
Definition arrived (u : ToyCpu) : list Job := (fun a => (0, arrival_msg a)) <$> ToyCpu.arrived u.

Definition jobs (n : Net) : list Job := omap (job (n_bus n)) (flight n) ++ queued (n_bus n) ++ arrived (n_cpu n).

(** The kind of a message agrees with the route of its downstream transaction. *)
Definition routed (b : ToyBus) (txn : Z) (write : bool) : Prop :=
  exists r, ToyBus.routes b !! txn = Some r /\ ToyBus.r_write r = write.

Definition is_request (msg : MemMsgV0) : Prop := ToyBus.request_txn msg <> None.

Definition item_ok (b : ToyBus) (it : Item) : Prop :=
  match it with
  | (NBus, Delivered_Message port (Message_Mem msg), ph) =>
      if port =? 2 then exists t w, ToyBus.response_txn msg = Some (t, w) /\ routed b t w
      else (port = 0 \/ port = 1) /\ ph = Phase_Request /\ is_request msg
  | (NMem, Delivered_Message _ (Message_Mem msg), _) => exists t w, ToyBus.request_txn msg = Some (t, w) /\ routed b t w
  | (NCpu, Delivered_Message _ (Message_Mem msg), _) => ToyBus.response_txn msg <> None
  | (NDma, Delivered_Message _ (Message_Mem msg), _) => exists t, msg = V0_WriteResp t
  | (NCpu, Delivered_Wake token, _) => token = ToyCpu.ISSUE \/ token = ToyCpu.COMMIT
  | (NDma, Delivered_Wake token, _) => token = ToyDma.ISSUE
  | (NBus, Delivered_Wake token, _) => token = ToyBus.ARBITRATE
  | _ => False
  end.

(** The requests the bus has not granted. *)
Definition is_ungranted (it : Item) : bool :=
  match it with (NBus, Delivered_Message port _, _) => negb (port =? 2) | _ => false end.
Definition ungranted_items (l : list Item) : Z := foldr (fun it k => (if is_ungranted it then 1 else 0) + k) 0 l.
Definition ungranted (n : Net) : Z := ungranted_items (flight n) + Z.of_nat (length (queued (n_bus n))).

#[export] Instance ungranted_items_perm : Proper ((≡ₚ) ==> eq) ungranted_items.
Proof. intros l l' E. unfold ungranted_items. induction E; cbn; lia. Qed.

Lemma ungranted_items_app l l' : ungranted_items (l ++ l') = ungranted_items l + ungranted_items l'.
Proof. unfold ungranted_items. induction l as [|it l IH]; cbn; [reflexivity | rewrite IH; lia]. Qed.

(** The deliveries still to come: ten for an operation not issued, fewer the further one is. *)
Definition weight (it : Item) : Z :=
  match it with
  | (_, Delivered_Wake _, _) => 1
  | (NBus, Delivered_Message port _, _) => if port =? 2 then 4 else 8
  | (NMem, Delivered_Message _ _, _) => 5
  | ((NCpu | NDma), Delivered_Message _ _, _) => 3
  end.
Definition weights (l : list Item) : Z := foldr (fun it k => weight it + k) 0 l.

#[export] Instance weights_perm : Proper ((≡ₚ) ==> eq) weights.
Proof. intros l l' E. unfold weights. induction E; cbn; lia. Qed.

Lemma weights_app l l' : weights (l ++ l') = weights l + weights l'.
Proof. unfold weights. induction l as [|it l IH]; cbn; [reflexivity | rewrite IH; lia]. Qed.

Lemma weights_pos l : 0 <= weights l.
Proof.
  unfold weights. induction l as [|it l IH]; cbn; [lia |]. assert (0 <= weight it); [|lia].
  destruct it as [[[] [port msg|token]] ph]; cbn; try lia. destruct (port =? 2); lia.
Qed.

Record bus_ok (b : ToyBus) : Prop := {
  bo_priority : ToyBus.priority b = 0 \/ ToyBus.priority b = 1;
  bo_next : 0 <= ToyBus.next_downstream b;
  bo_routes : map_Forall (fun t _ => t < ToyBus.next_downstream b) (ToyBus.routes b);
  bo_queue0 : Forall is_request (ToyBus.queue0 b);
  bo_queue1 : Forall is_request (ToyBus.queue1 b);
}.

(** A wake in flight. *)
Definition wakes (node : Node) (token : Z) (l : list Item) : Prop := exists ph, (node, Delivered_Wake token, ph) ∈ l.

(** Whatever a component waits for is scheduled. *)
Record live (n : Net) : Prop := {
  lv_issue : ToyCpu.can_issue (n_cpu n) = true -> ToyCpu.issue_scheduled (n_cpu n) = true;
  lv_issue_wake : ToyCpu.issue_scheduled (n_cpu n) = true -> wakes NCpu ToyCpu.ISSUE (flight n);
  lv_commit : ToyCpu.arrived (n_cpu n) <> [] -> ToyCpu.commit_scheduled (n_cpu n) = true;
  lv_commit_wake : ToyCpu.commit_scheduled (n_cpu n) = true -> wakes NCpu ToyCpu.COMMIT (flight n);
  lv_dma : ToyDma.issued (n_dma n) < ToyDma.ops (ToyDma.config (n_dma n)) -> ToyDma.full (n_dma n) = false ->
    ToyDma.wake_scheduled (n_dma n) = true;
  lv_dma_wake : ToyDma.wake_scheduled (n_dma n) = true -> wakes NDma ToyDma.ISSUE (flight n);
  lv_bus : queued (n_bus n) <> [] -> ToyBus.arbitration_scheduled (n_bus n) = true;
  lv_bus_wake : ToyBus.arbitration_scheduled (n_bus n) = true -> wakes NBus ToyBus.ARBITRATE (flight n);
}.

(** The count of a log written out. *)
Ltac count := unfold ungranted_items, weights; cbn; lia.

Section net.
Context (cc : ToyCpu.ToyCpuConfig) (dc : ToyDma.ToyDmaConfig) (mc : ToyMemory.ToyMemoryConfig).

(** What the configurations must satisfy. *)
Record setup_ok : Prop := {
  su_cpu : ToyCpu.cpu_config_ok cc;
  su_dma : ToyDma.dma_config_ok dc;
  su_mem : in_u 32 (ToyMemory.size mc);
  su_layout : layout cc dc (ToyMemory.size mc);
  su_cpu_max : 0 < ToyCpu.max_outstanding cc < ToyCpu.slots cc;
  su_dma_max : 0 < ToyDma.max_outstanding dc;
  su_dma_slots : 0 < ToyDma.slots dc;
  su_ops : ToyCpu.ops cc + ToyDma.ops dc < 2 ^ 64;
}.

Record net_ok (n : Net) : Prop := {
  no_cpu : ToyCpu.toy_cpu_ok (n_cpu n);
  no_cc : ToyCpu.config (n_cpu n) = cc;
  no_dma : ToyDma.toy_dma_ok (n_dma n);
  no_dc : ToyDma.config (n_dma n) = dc;
  no_mem : ToyMemory.toy_memory_ok (n_mem n);
  no_mc : ToyMemory.config (n_mem n) = mc;
  no_bus : bus_ok (n_bus n);
  no_items : Forall (item_ok (n_bus n)) (flight n);
  no_jobs : jobs_ok cc dc (ToyCpu.outstanding (n_cpu n)) (ToyCpu.shadow (n_cpu n)) (ToyDma.outstanding (n_dma n))
              (ToyMemory.bytes (n_mem n)) (jobs n);
  no_count : ToyBus.next_downstream (n_bus n) + ungranted n = ToyCpu.issued (n_cpu n) + ToyDma.issued (n_dma n);
  no_live : live n;
}.

Definition measure (n : Net) : Z :=
  10 * (ToyCpu.ops cc - ToyCpu.issued (n_cpu n) + (ToyDma.ops dc - ToyDma.issued (n_dma n))) +
  weights (flight n) + 6 * Z.of_nat (length (queued (n_bus n))) + Z.of_nat (length (ToyCpu.arrived (n_cpu n))).

(** A step keeps the invariant and brings the end nearer. *)
Definition stepped (n n' : Net) : Prop := net_ok n' /\ measure n' < measure n.

Lemma measure_pos n : net_ok n -> 0 <= measure n.
Proof.
  intros []. pose proof (weights_pos (flight n)). destruct no_cpu0 as (_ & Hi & _). pose proof (ToyDma.td_issued _ no_dma0).
  rewrite no_cc0, no_dc0 in *. unfold measure. lia.
Qed.

(** * The order of the deliveries in flight does not matter *)

Lemma live_perm n l l' : l ≡ₚ l' -> live (set_flight l n) -> live (set_flight l' n).
Proof.
  intros E []. assert (Hw : forall node t, wakes node t l -> wakes node t l').
  { intros node t [ph Hin]. exists ph. rewrite <- E. exact Hin. }
  split; auto.
Qed.

Lemma net_ok_perm n l l' : l ≡ₚ l' -> net_ok (set_flight l n) -> net_ok (set_flight l' n).
Proof.
  intros E []. split; try assumption.
  - cbn in *. rewrite <- E. assumption.
  - refine (jobs_ok_perm _ _ _ _ _ _ _ _ _ no_jobs0). unfold jobs. cbn. rewrite E. reflexivity.
  - unfold ungranted in *. cbn in *. rewrite <- E. assumption.
  - eapply live_perm; eassumption.
Qed.

(** * The memory *)

Lemma jobs_cons it l n : jobs (set_flight (it :: l) n) = option_list (job (n_bus n) it) ++ jobs (set_flight l n).
Proof. unfold jobs. cbn. destruct (job (n_bus n) it); reflexivity. Qed.

Lemma ungranted_cons it l n :
  ungranted (set_flight (it :: l) n) = ungranted (set_flight l n) + (if is_ungranted it then 1 else 0).
Proof. unfold ungranted. cbn. lia. Qed.

Lemma wakes_cons it l node t : wakes node t (it :: l) <-> (exists ph, it = (node, Delivered_Wake t, ph)) \/ wakes node t l.
Proof.
  unfold wakes. setoid_rewrite elem_of_cons. split; [intros (ph & [<-|]) | intros [[ph ->]|[ph ?]]]; eauto.
Qed.

(** A message in flight is not a wake. *)
Lemma wakes_message node' port msg ph l node t : wakes node t ((node', Delivered_Message port msg, ph) :: l) <-> wakes node t l.
Proof. rewrite wakes_cons. split; [intros [[? ?]|]; [discriminate | assumption] | auto]. Qed.

Hypothesis Hsetup : setup_ok.

Lemma mem_bounds m : ToyMemory.toy_memory_ok m -> ToyMemory.config m = mc ->
  layout cc dc (Z.of_nat (length (ToyMemory.bytes m))) /\ Z.of_nat (length (ToyMemory.bytes m)) < 2 ^ 32.
Proof.
  intros (Hs & Hl & _) Ec. rewrite Ec in *. rewrite Hl. split; [apply (su_layout Hsetup) | unfold in_u in Hs; lia].
Qed.

(** The deliveries a handler makes come after those in flight; the order does not matter. *)
Lemma stepped_posted node log fl n n0 :
  net_ok (set_flight (omap (item_of node) log ++ fl) n) -> measure (set_flight (omap (item_of node) log ++ fl) n) < measure n0 ->
  stepped n0 (posted node log (set_flight fl n)).
Proof.
  intros Hn Hm. split; [apply (net_ok_perm n _ (fl ++ omap (item_of node) log)) in Hn; [exact Hn | apply Permutation_app_comm] |].
  unfold measure, posted in *. cbn [n_cpu n_dma n_bus flight set_flight] in *. rewrite weights_app in *. lia.
Qed.

Lemma live_mem node port msg ph fl items n m :
  live (set_flight ((node, Delivered_Message port msg, ph) :: fl) n) -> live (set_flight (items ++ fl) (set_mem m n)).
Proof.
  intros []. assert (Hw : forall node' t, wakes node' t ((node, Delivered_Message port msg, ph) :: fl) -> wakes node' t (items ++ fl)).
  { intros node' t [ph' Hin]%wakes_message. exists ph'. apply elem_of_app. auto. }
  split; cbn in *; auto.
Qed.

(** The memory served [msg] with [resp]. *)
Lemma mem_served port msg resp t w when ph fl n m :
  net_ok (set_flight ((NMem, Delivered_Message port (Message_Mem msg), ph) :: fl) n) ->
  ToyBus.request_txn msg = Some (t, w) -> ToyBus.response_txn resp = Some (t, w) ->
  ToyMemory.toy_memory_ok m -> ToyMemory.config m = mc ->
  (forall port txn js,
     jobs_ok cc dc (ToyCpu.outstanding (n_cpu n)) (ToyCpu.shadow (n_cpu n)) (ToyDma.outstanding (n_dma n))
       (ToyMemory.bytes (n_mem n)) ((port, ToyBus.with_txn msg txn) :: js) ->
     jobs_ok cc dc (ToyCpu.outstanding (n_cpu n)) (ToyCpu.shadow (n_cpu n)) (ToyDma.outstanding (n_dma n))
       (ToyMemory.bytes m) ((port, ToyBus.with_txn resp txn) :: js)) ->
  stepped (set_flight ((NMem, Delivered_Message port (Message_Mem msg), ph) :: fl) n) (posted NMem [Sent 0 (Message_Mem resp) when Phase_Complete] (set_mem m (set_flight fl n))).
Proof.
  intros [H1 H2 H3 H4 H5 H6 H7 H8 H9 H10 H11] Em Er Hm Hc Hj. change (set_mem m (set_flight fl n)) with (set_flight fl (set_mem m n)).
  apply stepped_posted; change (omap (item_of NMem) [_]) with [(NBus, Delivered_Message 2 (Message_Mem resp), Phase_Complete)]; cbn [app]; [|unfold measure; cbn; lia]. cbn [n_cpu n_dma n_bus n_mem flight set_flight] in *.
  apply Forall_cons in H8 as [Hit Hfl].
  assert (Ht : txn_of msg = t) by (destruct msg; cbn in *; congruence).
  assert (Ht' : txn_of resp = t) by (destruct resp; cbn in *; congruence).
  cbn in Hit. destruct Hit as (t' & w' & Et & r & Hr & Hw). rewrite Em in Et. injection Et as <- <-.
  split; cbn [n_cpu n_dma n_bus n_mem flight set_flight set_mem]; try assumption.
  - constructor; [|exact Hfl]. cbn. exists t, w. split; [exact Er |]. exists r. auto.
  - rewrite jobs_cons in *. cbn [n_bus set_mem set_flight job Z.eqb] in *. rewrite Ht in H9. rewrite Ht', Hr in *. cbn in *. apply Hj, H9.
  - apply (live_mem _ _ _ _ _ [_] n m H11).
Qed.

Lemma step_mem port msg ph fl n :
  net_ok (set_flight ((NMem, Delivered_Message port (Message_Mem msg), ph) :: fl) n) ->
  runs ph (fun C _ => ToyMemory.handle_event (Delivered_Message port (Message_Mem msg))) (n_mem n) []
    (fun _ m log => stepped (set_flight ((NMem, Delivered_Message port (Message_Mem msg), ph) :: fl) n) (posted NMem log (set_mem m (set_flight fl n)))).
Proof.
  intros N. pose proof N as [H1 H2 H3 H4 H5 H6 H7 H8 H9 H10 H11]. cbn [n_cpu n_dma n_bus n_mem flight set_flight] in *.
  destruct (mem_bounds _ H5 H6) as [L Hlen]. pose proof (su_dma_slots Hsetup) as Hds.
  apply Forall_cons in H8 as [Hit Hfl]. cbn in Hit. destruct Hit as (t & w & Et & r & Er & Ew).
  rewrite jobs_cons in H9. cbn in H9. replace (txn_of msg) with t in H9 by (destruct msg; cbn in *; congruence). rewrite Er in H9. cbn in H9.
  destruct msg as [txn addr l|txn data|txn addr data|txn]; try discriminate Et; injection Et as -> <-; cbn in H9.
  - pose proof (jo_jobs _ _ _ _ _ _ _ H9) as [[[Ep _]|[_ []]] _]%Forall_cons. cbn in Ep. rewrite Ep in H9.
    pose proof (jobs_read _ _ _ _ _ _ _ _ _ _ H9) as (-> & Hs & _).
    pose proof (cpu_slot_range _ _ _ _ L Hs). pose proof (slot_in_memory _ _ _ _ L ltac:(lia) Hs). pose proof (ly_len _ _ _ L).
    apply runs_mem_read; [lia | lia | lia |]. eapply mem_served; [exact N | reflexivity | reflexivity | exact H5 | exact H6 |].
    intros p txn js J. cbn in J. pose proof (jo_jobs _ _ _ _ _ _ _ J) as [[[Ep' _]|[_ []]] _]%Forall_cons. cbn in Ep'. subst p.
    apply jobs_read in J as (_ & _ & J). exact J.
  - pose proof (jo_jobs _ _ _ _ _ _ _ H9) as [Hjob _]%Forall_cons.
    assert (Hport : forall p x, job_ok cc dc (ToyCpu.outstanding (n_cpu n)) (ToyCpu.shadow (n_cpu n)) (ToyDma.outstanding (n_dma n)) (p, x) -> p = 0 \/ p = 1)
      by (intros p x [[? _]|[? _]]; auto).
    assert (Hb : 0 <= addr /\ addr + Z.of_nat (length data) <= Z.of_nat (length (ToyMemory.bytes (n_mem n))) /\ bytes_ok data).
    { destruct (Hport _ _ Hjob) as [Ep|Ep]; rewrite Ep in H9.
      - pose proof (jobs_written _ _ _ _ _ _ _ _ _ _ H9) as Hbytes. apply jobs_write in H9 as (Hs & El & _); [|exact L | lia].
        pose proof (cpu_slot_range _ _ _ _ L Hs). pose proof (slot_in_memory _ _ _ _ L ltac:(lia) Hs). pose proof (ly_len _ _ _ L). split_and!; [lia | lia | exact Hbytes].
      - apply jobs_write_dma in H9 as (? & ? & ? & _); [auto | exact L]. }
    destruct Hb as (Ha & Hle & Hbytes). apply runs_mem_write; [lia | lia |].
    eapply mem_served; [exact N | reflexivity | reflexivity | | exact H6 |].
    + destruct H5 as (M1 & M2 & M3). split; [exact M1 |]. cbn. rewrite ToyMemory.length_write_at by lia. split; [exact M2 | apply ToyMemory.write_at_ok; assumption].
    + intros p txn js J. cbn in *. pose proof (jo_jobs _ _ _ _ _ _ _ J) as [Hj _]%Forall_cons. destruct (Hport _ _ Hj) as [-> | ->].
      * apply jobs_write in J as (_ & _ & J); [exact J | exact L | lia].
      * apply jobs_write_dma in J as (_ & _ & _ & J); [exact J | exact L].
Qed.

(** * The CPU *)

(** A wake made by a handler, or one in flight that is not the delivery handled. *)
Definition still_wakes (node : Node) (ev : Delivered) (fl items : list Item) (flag : bool) (token : Z) : Prop :=
  wakes node token items \/ flag = true /\ ev <> Delivered_Wake token.

Lemma wakes_still node ev ph fl items flag token :
  (flag = true -> wakes node token ((node, ev, ph) :: fl)) -> still_wakes node ev fl items flag token -> wakes node token (items ++ fl).
Proof.
  intros Hf [[ph' Hin]|[Hw Hne]]; [exists ph'; apply elem_of_app; auto |].
  apply Hf, wakes_cons in Hw as [[ph' E]|[ph' Hin]]; [congruence |]. exists ph'. apply elem_of_app. auto.
Qed.

Lemma wakes_other node node' ev ph fl items token :
  node <> node' -> wakes node token ((node', ev, ph) :: fl) -> wakes node token (items ++ fl).
Proof. intros Hne [[ph' ?]|[ph' Hin]]%wakes_cons; [congruence |]. exists ph'. apply elem_of_app. auto. Qed.

Lemma ungranted_app items fl n : ungranted (set_flight (items ++ fl) n) = ungranted_items items + ungranted (set_flight fl n).
Proof. unfold ungranted. cbn [flight n_bus set_flight]. rewrite ungranted_items_app. lia. Qed.

(** The CPU handled a delivery. *)
Lemma net_cpu ev ph fl n u log :
  let items := omap (item_of NCpu) log in
  net_ok (set_flight ((NCpu, ev, ph) :: fl) n) ->
  ToyCpu.toy_cpu_ok u -> ToyCpu.config u = cc -> Forall (item_ok (n_bus n)) items ->
  jobs_ok cc dc (ToyCpu.outstanding u) (ToyCpu.shadow u) (ToyDma.outstanding (n_dma n)) (ToyMemory.bytes (n_mem n))
    (omap (job (n_bus n)) items ++ omap (job (n_bus n)) fl ++ queued (n_bus n) ++ arrived u) ->
  ToyCpu.issued u = ToyCpu.issued (n_cpu n) + ungranted_items items ->
  (ToyCpu.can_issue u = true -> ToyCpu.issue_scheduled u = true) ->
  (ToyCpu.issue_scheduled u = true -> still_wakes NCpu ev fl items (ToyCpu.issue_scheduled (n_cpu n)) ToyCpu.ISSUE) ->
  (ToyCpu.arrived u <> [] -> ToyCpu.commit_scheduled u = true) ->
  (ToyCpu.commit_scheduled u = true -> still_wakes NCpu ev fl items (ToyCpu.commit_scheduled (n_cpu n)) ToyCpu.COMMIT) ->
  weights items + Z.of_nat (length (ToyCpu.arrived u)) <
    weight (NCpu, ev, ph) + Z.of_nat (length (ToyCpu.arrived (n_cpu n))) + 10 * ungranted_items items ->
  stepped (set_flight ((NCpu, ev, ph) :: fl) n) (posted NCpu log (set_cpu u (set_flight fl n))).
Proof.
  intros items [H1 H2 H3 H4 H5 H6 H7 H8 H9 H10 []] Hu Hc Hi Hj Hn L1 L2 L3 L4 Hm.
  change (set_cpu u (set_flight fl n)) with (set_flight fl (set_cpu u n)). apply stepped_posted; fold items; cycle 1.
  { unfold measure. cbn [n_cpu n_dma n_bus flight set_flight set_cpu]. rewrite weights_app. change (weights (?it :: fl)) with (weight it + weights fl). lia. }
  cbn [n_cpu n_dma n_bus n_mem flight set_flight] in *. apply Forall_cons in H8 as [_ Hfl].
  split; cbn [n_cpu n_dma n_bus n_mem flight set_flight set_cpu]; try assumption.
  - apply Forall_app. auto.
  - unfold jobs. cbn. rewrite omap_app, <- app_assoc. exact Hj.
  - rewrite ungranted_app, Hn. rewrite ungranted_cons in H10. cbn [is_ungranted] in H10.
    change (ungranted (set_flight fl (set_cpu u n))) with (ungranted (set_flight fl n)). lia.
  - split; cbn; auto.
    + intros Hf. eapply wakes_still; [exact lv_issue_wake0 | auto].
    + intros Hf. eapply wakes_still; [exact lv_commit_wake0 | auto].
    + intros Hf. apply (wakes_other NDma NCpu ev ph); [discriminate | exact (lv_dma_wake0 Hf)].
    + intros Hf. apply (wakes_other NBus NCpu ev ph); [discriminate | exact (lv_bus_wake0 Hf)].
Qed.

Lemma expected_bytes u addr : ToyCpu.toy_cpu_ok u -> bytes_ok (expected cc (ToyCpu.shadow u) addr).
Proof.
  intros (_ & _ & _ & _ & _ & _ & _ & Hs & _). unfold expected. destruct (ToyCpu.shadow u !! addr) as [d|] eqn:E; cbn.
  - apply (Hs addr d E).
  - apply Forall_replicate. const_range.
Qed.

Lemma cpu_response_ok n msg js :
  net_ok n ->
  jobs_ok cc dc (ToyCpu.outstanding (n_cpu n)) (ToyCpu.shadow (n_cpu n)) (ToyDma.outstanding (n_dma n))
    (ToyMemory.bytes (n_mem n)) ((0, msg) :: js) ->
  ToyBus.response_txn msg <> None ->
  exists a, ToyCpu.arrival msg = Some a /\ arrival_msg a = msg /\ ToyCpu.arrival_ok a.
Proof.
  intros N J Hr. pose proof (no_cpu _ N) as Hu. pose proof Hu as ((_ & Ho & _) & Hi & Hn & _ & _ & Hout & _).
  pose proof (jo_jobs _ _ _ _ _ _ _ J) as [[[_ Hj]|[E _]] _]%Forall_cons; [|discriminate E].
  destruct msg as [| txn data | | txn]; cbn in Hr; try contradiction; cbn in Hj.
  - destruct Hj as (addr & E & ->). destruct (Hout _ _ E) as [Ht _]. eexists. split; [reflexivity |]. split; [reflexivity |].
    split; cbn; [unfold in_u in *; lia | apply expected_bytes, Hu].
  - destruct Hj as (addr & data & E). destruct (Hout _ _ E) as [Ht _]. eexists. split; [reflexivity |]. split; [reflexivity |].
    split; cbn; [unfold in_u in *; lia | exact I].
Qed.

Context `{SimRng}.

Lemma step_cpu_message port msg ph fl n :
  net_ok (set_flight ((NCpu, Delivered_Message port (Message_Mem msg), ph) :: fl) n) ->
  runs ph (fun C _ => ToyCpu.handle_event (Delivered_Message port (Message_Mem msg))) (n_cpu n) []
    (fun _ u log => stepped (set_flight ((NCpu, Delivered_Message port (Message_Mem msg), ph) :: fl) n) (posted NCpu log (set_cpu u (set_flight fl n)))).
Proof.
  intros N. pose proof N as [H1 H2 H3 H4 H5 H6 H7 H8 H9 H10 H11]. cbn [n_cpu n_dma n_bus n_mem flight set_flight] in *.
  apply Forall_cons in H8 as [Hit Hfl]. cbn in Hit. rewrite jobs_cons in H9. cbn in H9.
  destruct (cpu_response_ok _ _ _ N H9 Hit) as (a & Ea & Em & Hok).
  apply (runs_cpu_message _ port msg a); [exact Ea |].
  set (u := ToyCpu.set_arrived (ToyCpu.arrived (n_cpu n) ++ [a]) (n_cpu n)). cbn zeta.
  assert (Hu : ToyCpu.toy_cpu_ok u).
  { unfold ToyCpu.toy_cpu_ok in *. cbn. deconj. split_and!; try assumption. apply Forall_app; auto. }
  assert (Hj : jobs_ok cc dc (ToyCpu.outstanding (n_cpu n)) (ToyCpu.shadow (n_cpu n)) (ToyDma.outstanding (n_dma n))
    (ToyMemory.bytes (n_mem n)) (omap (job (n_bus n)) fl ++ queued (n_bus n) ++ arrived u)).
  { refine (jobs_ok_perm _ _ _ _ _ _ _ _ _ H9). unfold arrived. cbn. rewrite fmap_app. cbn. rewrite Em. solve_Permutation. }
  destruct H11. cbn in *. destruct (ToyCpu.commit_scheduled (n_cpu n)) eqn:Ec.
  - eapply net_cpu; [exact N | ..]; cbn; auto.
    + count.
    + intros Hf. right. split; [exact Hf | discriminate].
    + intros Hf. right. split; [exact Ec | discriminate].
    + rewrite length_app. count.
  - eapply net_cpu; [exact N | ..]; cbn; auto.
    + constructor; [cbn; auto | constructor].
    + count.
    + intros Hf. right. split; [exact Hf | discriminate].
    + intros _. left. exists Phase_Commit. constructor.
    + rewrite length_app. count.
Qed.

Lemma busy_false u addr : ToyCpu.busy u addr = false -> forall txn op, ToyCpu.outstanding u !! txn = Some op -> ToyCpu.Op.addr op <> addr.
Proof.
  unfold ToyCpu.busy. intros Hb txn op E Ea. apply not_true_iff_false in Hb. apply Hb, existsb_exists.
  exists (txn, op). split; [apply list_elem_of_In, elem_of_map_to_list, E | apply Z.eqb_eq, Ea].
Qed.

Lemma busy_true u addr : ToyCpu.busy u addr = true -> addr ∈ ((fun e => ToyCpu.Op.addr (snd e)) <$> map_to_list (ToyCpu.outstanding u)).
Proof.
  unfold ToyCpu.busy. intros (e & Hin & Ea)%existsb_exists. apply list_elem_of_fmap. exists e.
  split; [apply eq_sym, Z.eqb_eq, Ea | apply list_elem_of_In, Hin].
Qed.

(** With fewer transactions than slots some slot is free. *)
Lemma free_slot_exists u start :
  0 < ToyCpu.access_len (ToyCpu.config u) -> Z.of_nat (size (ToyCpu.outstanding u)) < ToyCpu.slots (ToyCpu.config u) ->
  is_Some (ToyCpu.free_slot u start).
Proof.
  intros Hl Hs. unfold ToyCpu.free_slot. set (slots := _ <$> seqZ 0 _).
  destruct (List.find _ slots) as [addr|] eqn:E; [eauto |]. exfalso.
  assert (Hall : slots ⊆ ((fun e => ToyCpu.Op.addr (snd e)) <$> map_to_list (ToyCpu.outstanding u))).
  { intros addr Hin. apply busy_true. apply list_elem_of_In in Hin. apply (List.find_none _ _ E), negb_false_iff in Hin. exact Hin. }
  assert (Hnd : NoDup slots).
  { apply NoDup_fmap_2_strong; [|apply NoDup_seqZ]. intros i j Hi%elem_of_seqZ Hj%elem_of_seqZ Eij.
    apply Z.mul_reg_r in Eij; [|lia]. set (n := ToyCpu.slots (ToyCpu.config u)) in *.
    pose proof (Z.div_mod (start + i) n ltac:(lia)). pose proof (Z.div_mod (start + j) n ltac:(lia)).
    assert ((start + i) / n = (start + j) / n) by nia. lia. }
  pose proof (submseteq_length _ _ (NoDup_submseteq _ _ Hnd Hall)) as Hlen.
  unfold slots in Hlen. rewrite !length_fmap, length_seqZ, length_map_to_list in Hlen. lia.
Qed.

(** The CPU between the two halves of a wake. *)
Definition cpu_mid (n : Net) (fl : list Item) (u : ToyCpu) (log : list Effect) : Prop :=
  let items := omap (item_of NCpu) log in
  ToyCpu.toy_cpu_ok u /\ ToyCpu.config u = cc /\ Forall (item_ok (n_bus n)) items /\
  jobs_ok cc dc (ToyCpu.outstanding u) (ToyCpu.shadow u) (ToyDma.outstanding (n_dma n)) (ToyMemory.bytes (n_mem n))
    (omap (job (n_bus n)) items ++ omap (job (n_bus n)) fl ++ queued (n_bus n) ++ arrived u) /\
  ToyCpu.issued u = ToyCpu.issued (n_cpu n) + ungranted_items items.

Lemma mid_issue ph n fl u :
  cpu_mid n fl u [] -> ToyCpu.can_issue u = true ->
  runs ph (fun C _ => ToyCpu.issue) u [] (fun _ u' log => cpu_mid n fl u' log /\ ToyCpu.issue_scheduled u' = ToyCpu.issue_scheduled u /\
    ToyCpu.commit_scheduled u' = ToyCpu.commit_scheduled u /\ ToyCpu.arrived u' = ToyCpu.arrived u /\
    weights (omap (item_of NCpu) log) = 8 /\ ungranted_items (omap (item_of NCpu) log) = 1).
Proof.
  intros (Hu & Hc & _ & Hj & Hi) Hcan. pose proof Hu as (Hcfg & Hio & Hn & Hk & Hs & Hout & _). pose proof Hcfg as (_ & Ho & _ & _ & Hl & Hsl & _).
  apply andb_true_iff in Hcan as [Hlt%Z.ltb_lt Hmax%Z.ltb_lt]. pose proof (su_cpu_max Hsetup). pose proof (ly_len _ _ _ (su_layout Hsetup)).
  unfold in_u in *. rewrite Hc in *. apply runs_issue; rewrite ?Hc; [lia | lia | lia | |].
  - intros start. apply free_slot_exists; rewrite Hc; lia.
  - intros start op Ef Hop.
    destruct (ToyCpu.free_slot_range u start (ToyCpu.Op.addr op)) as (Hb & Ha & Hslot); rewrite ?Hc in *; [exact Hcfg | lia | exact Ef |].
    assert (Hfresh : ToyCpu.outstanding u !! ToyCpu.next_txn u = None).
    { destruct (ToyCpu.outstanding u !! ToyCpu.next_txn u) as [op'|] eqn:E; [|reflexivity]. specialize (Hout _ _ E). cbn in Hout. lia. }
    split; [|auto]. split; [|split; [exact Hc |]].
    + unfold issued_cpu. rewrite Hn at 2. apply ToyCpu.issued_ok; [exact Hu | rewrite Hc; exact Hlt | | reflexivity].
      destruct op; cbn in *; [exact Ha | split; [exact Ha | apply Hop]].
    + cbn in *. split; [|split].
      * constructor; [|constructor]. cbn. split; [auto |]. split; [reflexivity |]. destruct op; discriminate.
      * apply (jobs_issue _ _ _ _ _ _ _ _ _ Hj Hfresh Hslot (busy_false _ _ Hb) Hop).
      * lia.
Qed.

Lemma mid_commit ph n fl l log : forall u,
  ToyCpu.toy_cpu_ok u -> ToyCpu.config u = cc -> ToyCpu.arrived u = [] ->
  jobs_ok cc dc (ToyCpu.outstanding u) (ToyCpu.shadow u) (ToyDma.outstanding (n_dma n)) (ToyMemory.bytes (n_mem n))
    (((fun a => (0, arrival_msg a)) <$> l) ++ fl) ->
  runs ph (fun C _ => ToyCpu.commit_loop l) u log (fun _ u' log' =>
    (l = [] -> u' = u) /\ log' = log /\ ToyCpu.toy_cpu_ok u' /\ ToyCpu.config u' = cc /\ ToyCpu.arrived u' = [] /\ ToyCpu.issued u' = ToyCpu.issued u /\
    ToyCpu.issue_scheduled u' = ToyCpu.issue_scheduled u /\ ToyCpu.commit_scheduled u' = ToyCpu.commit_scheduled u /\
    jobs_ok cc dc (ToyCpu.outstanding u') (ToyCpu.shadow u') (ToyDma.outstanding (n_dma n)) (ToyMemory.bytes (n_mem n)) fl).
Proof.
  induction l as [|[txn data] l IH]; intros u Hu Hc Ha Hj; cbn [ToyCpu.commit_loop]; [log_run; auto 10 |].
  cbn in Hj. log_step.
  pose proof Hu as ((_ & Ho & _) & Hio & Hn & Hk & Hs & Hout & _ & Hsh & _). unfold in_u in Ho.
  assert (Hcount : forall op, ToyCpu.outstanding u !! txn = Some op -> 0 <= ToyCpu.committed u < 2 ^ 64 - 1).
  { intros op E. assert (size (ToyCpu.outstanding u) <> 0%nat); [|lia].
    intros Hz%map_size_empty_inv. rewrite Hz, lookup_empty in E. discriminate. }
  assert (Hnext : forall op sh words, ToyCpu.outstanding u !! txn = Some op ->
    map_Forall (fun addr data => in_u 64 addr /\ bytes_ok data) sh ->
    jobs_ok cc dc (delete txn (ToyCpu.outstanding u)) sh (ToyDma.outstanding (n_dma n)) (ToyMemory.bytes (n_mem n))
      (((fun a => (0, arrival_msg a)) <$> l) ++ fl) ->
    runs ph (fun C _ => ToyCpu.commit_loop l) (committed_cpu u txn sh words) log (fun _ u' log' =>
      log' = log /\ ToyCpu.toy_cpu_ok u' /\ ToyCpu.config u' = cc /\ ToyCpu.arrived u' = [] /\ ToyCpu.issued u' = ToyCpu.issued u /\
      ToyCpu.issue_scheduled u' = ToyCpu.issue_scheduled u /\ ToyCpu.commit_scheduled u' = ToyCpu.commit_scheduled u /\
      jobs_ok cc dc (ToyCpu.outstanding u') (ToyCpu.shadow u') (ToyDma.outstanding (n_dma n)) (ToyMemory.bytes (n_mem n)) fl)).
  { intros op sh words E Hshok J. pose proof (ToyCpu.committed_ok u txn op sh _ Hu E eq_refl Hshok) as Hok.
    unfold committed_cpu. rewrite <- ToyCpu.folds_committed.
    pose proof (proj1 (ToyCpu.folds_ok words _ Hok)) as Hok'. match type of Hok with ToyCpu.toy_cpu_ok ?v => destruct (folds_checksum words v) as [x Ex] end. rewrite Ex in *.
    eapply runs_mono; [|apply IH; assumption]. cbn beta. intros ? ? ? [_ Hp]. exact Hp. }
  destruct data as [data|]; unfold arrival_msg in Hj; cbn in Hj.
  - apply jobs_commit_read in Hj as (addr & E & Ed & J). eapply runs_commit_read; [exact E | rewrite Hc; exact Ed | eauto |].
    eapply runs_mono; [|eapply Hnext; eassumption]. intros ? ? ? Hp. split; [discriminate | exact Hp].
  - apply jobs_commit_write in Hj as (addr & data & E & J). eapply runs_commit_write; [exact E | eauto |].
    eapply runs_mono; [intros ? ? ? Hp; split; [discriminate | exact Hp] |]. eapply Hnext; [exact E | | exact J]. apply map_Forall_insert_2; [apply (Hout _ _ E) | exact Hsh].
Qed.

(** The last step of a wake: the next issue is scheduled if there is one and none is. *)
Lemma mid_schedule ph n fl ev (b : bool) u log :
  net_ok (set_flight ((NCpu, ev, ph) :: fl) n) -> cpu_mid n fl u log -> ToyCpu.arrived u = [] \/ ToyCpu.commit_scheduled u = true ->
  (b = false -> ToyCpu.can_issue u = true -> ToyCpu.issue_scheduled u = true) ->
  (ToyCpu.issue_scheduled u = true -> ToyCpu.issue_scheduled (n_cpu n) = true /\ ev <> Delivered_Wake ToyCpu.ISSUE) ->
  (ToyCpu.commit_scheduled u = true -> ToyCpu.commit_scheduled (n_cpu n) = true /\ ev <> Delivered_Wake ToyCpu.COMMIT) ->
  (let items := omap (item_of NCpu) log in (if b then 1 else 0) + weights items + Z.of_nat (length (ToyCpu.arrived u)) <
    weight (NCpu, ev, ph) + Z.of_nat (length (ToyCpu.arrived (n_cpu n))) + 10 * ungranted_items items) ->
  runs ph (fun C _ => if b then ToyCpu.schedule_issue else mret tt) u log
    (fun _ u' log' => stepped (set_flight ((NCpu, ev, ph) :: fl) n) (posted NCpu log' (set_cpu u' (set_flight fl n)))).
Proof.
  intros N (Hu & Hc & Hit & Hj & Hi) Harr Hb Hf Hcs Hm. destruct b.
  - apply runs_schedule_issue; [destruct Hu as ((_ & _ & _ & ? & _) & _); lia |]. intros k.
    apply (net_cpu ev ph); auto; rewrite ?omap_app; cbn [omap list_omap item_of issue_wake ToyCpu.set_issue_scheduled ToyCpu.issue_scheduled ToyCpu.commit_scheduled ToyCpu.arrived]; auto.
    + apply Forall_app. split; [exact Hit |]. constructor; [cbn; auto | constructor].
    + cbn. rewrite app_nil_r. exact Hj.
    + rewrite ungranted_items_app. cbn. lia.
    + intros _. left. exists Phase_Request. apply elem_of_app. right. constructor.
    + intros Hne. destruct Harr; [contradiction | assumption].
    + intros Hcm. right. auto.
    + rewrite weights_app, ungranted_items_app. cbn in *. lia.
  - log_run. apply (net_cpu ev ph); auto.
    + intros Hfl. right. auto.
    + intros Hne. destruct Harr; [contradiction | assumption].
    + intros Hcm. right. auto.
Qed.

Lemma step_cpu_issue ph fl n :
  net_ok (set_flight ((NCpu, Delivered_Wake ToyCpu.ISSUE, ph) :: fl) n) ->
  runs ph (fun C _ => ToyCpu.handle_event (Delivered_Wake ToyCpu.ISSUE)) (n_cpu n) []
    (fun _ u log => stepped (set_flight ((NCpu, Delivered_Wake ToyCpu.ISSUE, ph) :: fl) n) (posted NCpu log (set_cpu u (set_flight fl n)))).
Proof.
  intros N. pose proof N as [H1 H2 H3 H4 H5 H6 H7 H8 H9 H10 H11]. destruct H11. cbn [n_cpu n_dma n_bus n_mem flight set_flight] in *.
  rewrite jobs_cons in H9. cbn [job option_list app] in H9. unfold ToyCpu.handle_event. cbn [Z.eqb ToyCpu.ISSUE]. log_run.
  set (u := ToyCpu.set_issue_scheduled false (n_cpu n)).
  assert (Hmid : cpu_mid n fl u []).
  { split; [exact H1 |]. split; [exact H2 |]. split; [constructor |]. split; [exact H9 |]. count. }
  eapply runs_mono; cycle 1.
  - instantiate (1 := fun _ u' log => cpu_mid n fl u' log /\ ToyCpu.issue_scheduled u' = false /\
      ToyCpu.commit_scheduled u' = ToyCpu.commit_scheduled (n_cpu n) /\ ToyCpu.arrived u' = ToyCpu.arrived (n_cpu n) /\
      let items := omap (item_of NCpu) log in (if ToyCpu.can_issue u' then 1 else 0) + weights items < 1 + 10 * ungranted_items items).
    destruct (ToyCpu.can_issue u) eqn:Ec.
    + eapply runs_mono; [|apply (mid_issue ph n fl u Hmid Ec)]. intros _ u' log (Hm & ? & ? & ? & Ew & Eu). cbn zeta. rewrite Ew, Eu.
      split; [exact Hm |]. split_and!; try assumption. destruct (ToyCpu.can_issue u'); lia.
    + log_run. rewrite Ec. split_and!; try reflexivity; apply Hmid.
  - intros _ u' log (Hm & Ef & Ecs & Ea & Hw). log_run. apply (mid_schedule ph n fl (Delivered_Wake ToyCpu.ISSUE)); [exact N | exact Hm | | | | |].
    + rewrite Ea, Ecs. destruct (ToyCpu.arrived (n_cpu n)); [auto | right; apply lv_commit0; discriminate].
    + intros -> ?. discriminate.
    + congruence.
    + intros Hcs. split; [congruence | discriminate].
    + cbn zeta in *. rewrite Ea. cbn [weight]. lia.
Qed.

Lemma step_cpu_commit ph fl n :
  net_ok (set_flight ((NCpu, Delivered_Wake ToyCpu.COMMIT, ph) :: fl) n) ->
  runs ph (fun C _ => ToyCpu.handle_event (Delivered_Wake ToyCpu.COMMIT)) (n_cpu n) []
    (fun _ u log => stepped (set_flight ((NCpu, Delivered_Wake ToyCpu.COMMIT, ph) :: fl) n) (posted NCpu log (set_cpu u (set_flight fl n)))).
Proof.
  intros N. pose proof N as [H1 H2 H3 H4 H5 H6 H7 H8 H9 H10 H11]. destruct H11. cbn [n_cpu n_dma n_bus n_mem flight set_flight] in *.
  rewrite jobs_cons in H9. cbn [job option_list app] in H9. unfold ToyCpu.handle_event, ToyCpu.commit.
  change (ToyCpu.COMMIT =? ToyCpu.ISSUE) with false. change (ToyCpu.COMMIT =? ToyCpu.COMMIT) with true. cbv iota. log_run.
  eapply runs_mono; [|apply (mid_commit ph n (omap (job (n_bus n)) fl ++ queued (n_bus n)))].
  - intros _ u' log (Hnil & -> & Hu & Hc & Ea & Ei & Ef & Ecs & Hj). cbn in Ei, Ef, Ecs. log_run.
    apply (mid_schedule ph n fl (Delivered_Wake ToyCpu.COMMIT)); [exact N | | auto | | | |].
    + split; [exact Hu |]. split; [exact Hc |]. split; [constructor |]. unfold arrived. rewrite Ea. cbn. rewrite app_nil_r. split; [exact Hj |]. count.
    + intros Hb Hcan. rewrite Hcan, andb_true_r in Hb. apply negb_false_iff in Hb. exact Hb.
    + intros Hs. split; [congruence | discriminate].
    + congruence.
    + rewrite Ea. cbn [omap list_omap weight weights ungranted_items foldr length].
      destruct (ToyCpu.arrived (n_cpu n)) as [|a l] eqn:Earr; [|cbn [length]; destruct (_ && _); lia]. rewrite (Hnil Earr).
      change (ToyCpu.can_issue (ToyCpu.set_arrived _ _)) with (ToyCpu.can_issue (n_cpu n)). cbn [ToyCpu.issue_scheduled ToyCpu.set_arrived ToyCpu.set_commit_scheduled].
      destruct (ToyCpu.can_issue (n_cpu n)) eqn:Ec; [rewrite (lv_issue0 eq_refl) | rewrite andb_false_r]; cbn; lia.
  - unfold ToyCpu.toy_cpu_ok in *. cbn. deconj. split_and!; try assumption. constructor.
  - exact H2.
  - reflexivity.
  - refine (jobs_ok_perm _ _ _ _ _ _ _ _ _ H9). unfold jobs, arrived. cbn. solve_Permutation.
Qed.

(** * The DMA *)

(** The DMA handled a delivery. *)
Lemma net_dma ev ph fl n d log :
  let items := omap (item_of NDma) log in
  net_ok (set_flight ((NDma, ev, ph) :: fl) n) ->
  ToyDma.toy_dma_ok d -> ToyDma.config d = dc -> Forall (item_ok (n_bus n)) items ->
  jobs_ok cc dc (ToyCpu.outstanding (n_cpu n)) (ToyCpu.shadow (n_cpu n)) (ToyDma.outstanding d) (ToyMemory.bytes (n_mem n))
    (omap (job (n_bus n)) items ++ jobs (set_flight fl n)) ->
  ToyDma.issued d = ToyDma.issued (n_dma n) + ungranted_items items ->
  (ToyDma.issued d < ToyDma.ops dc -> ToyDma.full d = false -> ToyDma.wake_scheduled d = true) ->
  (ToyDma.wake_scheduled d = true -> still_wakes NDma ev fl items (ToyDma.wake_scheduled (n_dma n)) ToyDma.ISSUE) ->
  weights items < weight (NDma, ev, ph) + 10 * ungranted_items items ->
  stepped (set_flight ((NDma, ev, ph) :: fl) n) (posted NDma log (set_dma d (set_flight fl n))).
Proof.
  intros items [H1 H2 H3 H4 H5 H6 H7 H8 H9 H10 []] Hd Hc Hi Hj Hn L1 L2 Hm.
  change (set_dma d (set_flight fl n)) with (set_flight fl (set_dma d n)). apply stepped_posted; fold items; cycle 1.
  { unfold measure. cbn [n_cpu n_dma n_bus flight set_flight set_dma]. rewrite weights_app. change (weights (?it :: fl)) with (weight it + weights fl). lia. }
  cbn [n_cpu n_dma n_bus n_mem flight set_flight] in *. apply Forall_cons in H8 as [_ Hfl].
  split; cbn [n_cpu n_dma n_bus n_mem flight set_flight set_dma]; try assumption.
  - apply Forall_app. auto.
  - unfold jobs in *. cbn in *. rewrite omap_app, <- app_assoc. exact Hj.
  - rewrite ungranted_app, Hn. rewrite ungranted_cons in H10. cbn [is_ungranted] in H10.
    change (ungranted (set_flight fl (set_dma d n))) with (ungranted (set_flight fl n)). lia.
  - split; cbn; auto.
    + intros Hf. apply (wakes_other NCpu NDma ev ph); [discriminate | exact (lv_issue_wake0 Hf)].
    + intros Hf. apply (wakes_other NCpu NDma ev ph); [discriminate | exact (lv_commit_wake0 Hf)].
    + rewrite Hc. exact L1.
    + intros Hf. eapply wakes_still; [exact lv_dma_wake0 | auto].
    + intros Hf. apply (wakes_other NBus NDma ev ph); [discriminate | exact (lv_bus_wake0 Hf)].
Qed.

Lemma dma_gap d : ToyDma.toy_dma_ok d -> 0 < ToyDma.max_gap_cycles (ToyDma.config d).
Proof. intros Hd. pose proof (ToyDma.dc_gap _ (ToyDma.td_config _ Hd)). lia. Qed.

Lemma step_dma_message port msg ph fl n :
  net_ok (set_flight ((NDma, Delivered_Message port (Message_Mem msg), ph) :: fl) n) ->
  runs ph (fun C _ => ToyDma.handle_event (Delivered_Message port (Message_Mem msg))) (n_dma n) []
    (fun _ d log => stepped (set_flight ((NDma, Delivered_Message port (Message_Mem msg), ph) :: fl) n) (posted NDma log (set_dma d (set_flight fl n)))).
Proof.
  intros N. pose proof N as [H1 H2 H3 H4 H5 H6 H7 H8 H9 H10 H11]. destruct H11. cbn [n_cpu n_dma n_bus n_mem flight set_flight] in *.
  apply Forall_cons in H8 as [Hit Hfl]. destruct Hit as [txn ->]. rewrite jobs_cons in H9. cbn [job option_list app] in H9.
  apply jobs_complete in H9 as [[addr E] J]. cbn [txn_of] in E, J. cbn [ToyDma.handle_event].
  assert (Hcount : 0 <= ToyDma.completed (n_dma n) < 2 ^ 64 - 1).
  { destruct H3. pose proof (ToyDma.dc_ops _ td_config) as Ho. unfold in_u in Ho.
    assert (size (ToyDma.outstanding (n_dma n)) <> 0%nat); [|lia]. intros Hz%map_size_empty_inv. rewrite Hz, lookup_empty in E. discriminate. }
  assert (Hd : ToyDma.toy_dma_ok (completed_dma (n_dma n) txn addr)).
  { apply ToyDma.fold_dma_ok, ToyDma.fold_dma_ok. eapply ToyDma.completed_dma_ok; eassumption. }
  eapply runs_complete; [exact E | exact Hcount | apply dma_gap, H3 |]. cbn zeta. destruct (_ && _) eqn:Eb.
  - intros k. apply (net_dma (Delivered_Message port (Message_Mem (V0_WriteResp txn))) ph); cbn; auto.
    + destruct Hd. split; assumption.
    + constructor; [reflexivity | constructor].
    + count.
    + intros _. left. exists Phase_Request. constructor.
    + count.
  - apply (net_dma (Delivered_Message port (Message_Mem (V0_WriteResp txn))) ph); cbn; auto.
    + count.
    + rewrite H4 in Eb. intros Hlt _. apply andb_false_iff in Eb as [Eb|Eb%Z.ltb_ge]; [apply negb_false_iff, Eb | lia].
    + intros Hf. right. split; [exact Hf | discriminate].
    + count.
Qed.

(** The DMA between the two halves of a wake. *)
Definition dma_mid (n : Net) (fl : list Item) (d : ToyDma) (log : list Effect) : Prop :=
  let items := omap (item_of NDma) log in
  ToyDma.toy_dma_ok d /\ ToyDma.config d = dc /\ Forall (item_ok (n_bus n)) items /\
  jobs_ok cc dc (ToyCpu.outstanding (n_cpu n)) (ToyCpu.shadow (n_cpu n)) (ToyDma.outstanding d) (ToyMemory.bytes (n_mem n))
    (omap (job (n_bus n)) items ++ jobs (set_flight fl n)) /\
  ToyDma.issued d = ToyDma.issued (n_dma n) + ungranted_items items /\ ToyDma.wake_scheduled d = false.

Lemma mid_dma_issue ph n fl d :
  dma_mid n fl d [] -> ToyDma.issued d < ToyDma.ops dc -> runs ph (fun C _ => ToyDma.issue) d [] (fun _ d' log => dma_mid n fl d' log /\
    weights (omap (item_of NDma) log) = 8 /\ ungranted_items (omap (item_of NDma) log) = 1).
Proof.
  intros (Hd & Hc & _ & Hj & Hi & Hf) Hlt. pose proof (su_dma_slots Hsetup) as Hs. pose proof Hd as [D1 D2 D3 D4 D5 D6 D7 D8 D9].
  apply runs_dma_issue; rewrite ?Hc; auto. intros slot left_ data d' Hd' Hleft Hb Hl. pose proof (ToyDma.td_slot _ Hd') as Hsl. cbn in Hsl.
  assert (Hfresh : ToyDma.outstanding d !! ToyDma.next_txn d = None).
  { destruct (ToyDma.outstanding d !! ToyDma.next_txn d) as [a|] eqn:E; [|reflexivity]. specialize (D8 _ _ E). cbn in D8. lia. }
  rewrite Hc in Hsl. split; [|split; reflexivity]. split; [|split; [exact Hc |]]; [|split; [|split; [|split; [|exact Hf]]]].
  - apply ToyDma.issued_dma_ok; cbn; [exact Hd' | rewrite Hc; exact Hs | exact Hleft].
  - constructor; [|constructor]. cbn. split; [auto |]. split; [reflexivity | discriminate].
  - cbn in *. rewrite Hc. apply jobs_issue_dma; auto. exists slot. split; [lia | reflexivity].
  - cbn in *. lia.
Qed.

Lemma step_dma_wake ph fl n :
  net_ok (set_flight ((NDma, Delivered_Wake ToyDma.ISSUE, ph) :: fl) n) ->
  runs ph (fun C _ => ToyDma.handle_event (Delivered_Wake ToyDma.ISSUE)) (n_dma n) []
    (fun _ d log => stepped (set_flight ((NDma, Delivered_Wake ToyDma.ISSUE, ph) :: fl) n) (posted NDma log (set_dma d (set_flight fl n)))).
Proof.
  intros N. pose proof N as [H1 H2 H3 H4 H5 H6 H7 H8 H9 H10 H11]. destruct H11. cbn [n_cpu n_dma n_bus n_mem flight set_flight] in *.
  rewrite jobs_cons in H9. cbn [job option_list app] in H9. unfold ToyDma.handle_event. cbn [Z.eqb ToyDma.ISSUE]. log_run.
  set (d := ToyDma.set_wake_scheduled false (n_dma n)).
  assert (Hmid : dma_mid n fl d []).
  { split; [destruct H3; split; assumption |]. split; [exact H4 |]. split; [constructor |]. split; [exact H9 |]. split; [count | reflexivity]. }
  eapply runs_mono; cycle 1.
  - instantiate (1 := fun _ d' log => dma_mid n fl d' log /\ let items := omap (item_of NDma) log in
      (if (ToyDma.issued d' <? ToyDma.ops (ToyDma.config d')) && negb (ToyDma.full d') then 1 else 0) + weights items < 1 + 10 * ungranted_items items).
    destruct (_ && _) eqn:Ec; [|log_run; rewrite Ec; split; [exact Hmid | reflexivity]].
    apply andb_true_iff in Ec as [Hlt%Z.ltb_lt _].
    eapply runs_mono; [|apply mid_dma_issue; [exact Hmid |]; rewrite <- H4; exact Hlt].
    intros _ d' log (Hm & Ew & Eu). split; [exact Hm |]. cbn zeta. rewrite Ew, Eu. destruct (_ && _); lia.
  - intros _ d' log ((Hd & Hc & Hit & Hj & Hi & Hf) & Hw). log_run. rewrite Hc in *. destruct (_ && _) eqn:Ec.
    + apply runs_continue; [apply dma_gap, Hd |]. intros k. apply (net_dma (Delivered_Wake ToyDma.ISSUE) ph); rewrite ?omap_app; cbn [omap list_omap item_of dma_wake]; auto.
      * destruct Hd. split; assumption.
      * apply Forall_app. split; [exact Hit |]. constructor; [reflexivity | constructor].
      * cbn. rewrite app_nil_r. exact Hj.
      * rewrite ungranted_items_app. cbn. lia.
      * intros _. left. exists Phase_Request. apply elem_of_app. right. constructor.
      * rewrite weights_app, ungranted_items_app. cbn in *. lia.
    + log_run. apply (net_dma (Delivered_Wake ToyDma.ISSUE) ph); auto; [|congruence].
      intros Hlt%Z.ltb_lt Hfull. rewrite Hlt, Hfull in Ec. discriminate.
Qed.

(** * The bus *)

(** The downstream transaction of a delivery. *)
Definition downstream_of (it : Item) : option Z :=
  match it with
  | (NBus, Delivered_Message port (Message_Mem msg), _) => if port =? 2 then Some (txn_of msg) else None
  | (NMem, Delivered_Message _ (Message_Mem msg), _) => Some (txn_of msg)
  | _ => None
  end.

Definition agree (b b' : ToyBus) (it : Item) : Prop :=
  forall t, downstream_of it = Some t -> ToyBus.routes b' !! t = ToyBus.routes b !! t.

Lemma agree_job b b' it : agree b b' it -> job b' it = job b it.
Proof.
  unfold agree. destruct it as [[[] [port [msg| | |]|token]] ph]; cbn; try reflexivity.
  - destruct (port =? 2); [|reflexivity]. intros Ha. rewrite Ha by reflexivity. reflexivity.
  - intros Ha. rewrite Ha by reflexivity. reflexivity.
Qed.

Lemma agree_item b b' it : agree b b' it -> item_ok b it -> item_ok b' it.
Proof.
  unfold agree, routed. destruct it as [[[] [port [msg| | |]|token]] ph]; cbn; try tauto.
  - destruct (port =? 2); [|tauto]. intros Ha (t & w & E & r & Er & Ew). exists t, w. split; [exact E |]. exists r. split; [|exact Ew].
    rewrite Ha; [exact Er |]. f_equal. destruct msg; cbn in *; congruence.
  - intros Ha (t & w & E & r & Er & Ew). exists t, w. split; [exact E |]. exists r. split; [|exact Ew].
    rewrite Ha; [exact Er |]. f_equal. destruct msg; cbn in *; congruence.
Qed.

(** Every downstream transaction in flight has a route. *)
Lemma downstream_routed b it t : item_ok b it -> downstream_of it = Some t -> is_Some (ToyBus.routes b !! t).
Proof.
  unfold routed. destruct it as [[[] [port [msg| | |]|token]] ph]; cbn; try discriminate.
  - destruct (port =? 2); [|discriminate]. intros (t' & w & E & r & Er & _) [= <-]. destruct msg; cbn in *; simplify_eq; eauto.
  - intros (t' & w & E & r & Er & _) [= <-]. destruct msg; cbn in *; simplify_eq; eauto.
Qed.

Lemma net_bus ev ph fl n b log :
  let items := omap (item_of NBus) log in
  net_ok (set_flight ((NBus, ev, ph) :: fl) n) ->
  Forall (agree (n_bus n) b) fl -> bus_ok b -> Forall (item_ok b) items ->
  jobs (set_flight ((NBus, ev, ph) :: fl) n) ≡ₚ omap (job b) items ++ omap (job (n_bus n)) fl ++ queued b ++ arrived (n_cpu n) ->
  ToyBus.next_downstream b + ungranted_items items + Z.of_nat (length (queued b)) =
    ToyBus.next_downstream (n_bus n) + (if is_ungranted (NBus, ev, ph) then 1 else 0) + Z.of_nat (length (queued (n_bus n))) ->
  (queued b <> [] -> ToyBus.arbitration_scheduled b = true) ->
  (ToyBus.arbitration_scheduled b = true ->
     still_wakes NBus ev fl items (ToyBus.arbitration_scheduled (n_bus n)) ToyBus.ARBITRATE) ->
  weights items + 6 * Z.of_nat (length (queued b)) < weight (NBus, ev, ph) + 6 * Z.of_nat (length (queued (n_bus n))) ->
  stepped (set_flight ((NBus, ev, ph) :: fl) n) (posted NBus log (set_bus b (set_flight fl n))).
Proof.
  intros items [H1 H2 H3 H4 H5 H6 H7 H8 H9 H10 []] Ha Hb Hi Hj Hn L1 L2 Hm.
  change (set_bus b (set_flight fl n)) with (set_flight fl (set_bus b n)). apply stepped_posted; fold items; cycle 1.
  { unfold measure. cbn [n_cpu n_dma n_bus flight set_flight set_bus]. rewrite weights_app. change (weights (?it :: fl)) with (weight it + weights fl). lia. }
  cbn [n_cpu n_dma n_bus n_mem flight set_flight] in *. apply Forall_cons in H8 as [_ Hfl].
  split; cbn [n_cpu n_dma n_bus n_mem flight set_flight set_bus]; try assumption.
  - apply Forall_app. split; [exact Hi |]. rewrite Forall_forall in *. intros it Hin. eapply agree_item; auto.
  - refine (jobs_ok_perm _ _ _ _ _ _ _ _ _ H9). rewrite Hj. unfold jobs. cbn. rewrite omap_app, <- app_assoc.
    replace (omap (job b) fl) with (omap (job (n_bus n)) fl); [reflexivity |].
    clear - Ha. induction Ha as [|it fl Hit _ IH]; [reflexivity |]. cbn. rewrite (agree_job _ _ _ Hit), IH. reflexivity.
  - rewrite ungranted_app. rewrite ungranted_cons in H10. unfold ungranted in *. cbn [flight n_bus set_flight set_bus] in *. lia.
  - split; cbn; auto.
    + intros Hf. apply (wakes_other NCpu NBus ev ph); [discriminate | exact (lv_issue_wake0 Hf)].
    + intros Hf. apply (wakes_other NCpu NBus ev ph); [discriminate | exact (lv_commit_wake0 Hf)].
    + intros Hf. apply (wakes_other NDma NBus ev ph); [discriminate | exact (lv_dma_wake0 Hf)].
    + intros Hf. eapply wakes_still; [exact lv_bus_wake0 | auto].
Qed.

Lemma step_bus_request port msg ph fl n :
  port = 0 \/ port = 1 ->
  net_ok (set_flight ((NBus, Delivered_Message port (Message_Mem msg), ph) :: fl) n) ->
  runs ph (fun C _ => ToyBus.request port msg) (n_bus n) []
    (fun _ b log => stepped (set_flight ((NBus, Delivered_Message port (Message_Mem msg), ph) :: fl) n) (posted NBus log (set_bus b (set_flight fl n)))).
Proof.
  intros Hport N. pose proof N as [H1 H2 H3 H4 H5 H6 H7 H8 H9 H10 H11]. destruct H11. cbn [n_cpu n_dma n_bus n_mem flight set_flight] in *.
  apply Forall_cons in H8 as [Hit Hfl].
  assert (Hp2 : (port =? 2) = false) by (apply Z.eqb_neq; lia). cbn in Hit. rewrite Hp2 in Hit. destruct Hit as (_ & Hph & Hreq).
  destruct H7. set (q := if port =? 0 then ToyBus.queue0 (n_bus n) else ToyBus.queue1 (n_bus n)).
  assert (Hq : ToyBus.queue (n_bus n) port = Some q) by (destruct Hport as [-> | ->]; reflexivity).
  set (b' := ToyBus.set_queue port (q ++ [msg]) (n_bus n)).
  assert (Hb : bus_ok b') by (destruct Hport as [-> | ->]; split; cbn; auto; apply Forall_app; auto).
  assert (Hqueued : queued b' ≡ₚ (port, msg) :: queued (n_bus n)).
  { unfold queued. destruct Hport as [-> | ->]; cbn; rewrite fmap_app; cbn; solve_Permutation. }
  assert (Hagree : Forall (agree (n_bus n) b') fl) by (apply Forall_forall; intros it _ t _; destruct Hport as [-> | ->]; reflexivity).
  assert (Hjobs : jobs (set_flight ((NBus, Delivered_Message port (Message_Mem msg), ph) :: fl) n) ≡ₚ
            omap (job (n_bus n)) fl ++ queued b' ++ arrived (n_cpu n)).
  { rewrite jobs_cons. cbn [job]. rewrite Hp2. cbn [option_list]. unfold jobs. cbn [flight n_bus n_cpu set_flight]. rewrite Hqueued. solve_Permutation. }
  assert (Hsched : ToyBus.arbitration_scheduled b' = ToyBus.arbitration_scheduled (n_bus n)) by (destruct Hport as [-> | ->]; reflexivity).
  assert (Hnext : ToyBus.next_downstream b' = ToyBus.next_downstream (n_bus n)) by (destruct Hport as [-> | ->]; reflexivity).
  apply runs_bus_request with q; [exact Hreq | exact Hph | exact Hq |]. cbn zeta. fold b'. clearbody b'.
  destruct (ToyBus.arbitration_scheduled (n_bus n)) eqn:Es.
  - eapply net_bus; [exact N | auto..]; cbn [omap list_omap app is_ungranted negb].
    + rewrite Hp2, Hqueued, Hnext. cbn [negb length ungranted_items foldr]. lia.
    + intros _. right. split; [exact Es | discriminate].
    + rewrite Hqueued. cbn [weights foldr weight length]. rewrite Hp2. lia.
  - eapply net_bus; [exact N | ..]; cbn [omap list_omap app item_of arbitrate_wake]; auto.
    + destruct Hb. split; assumption.
    + constructor; [reflexivity | constructor].
    + change (queued (ToyBus.set_scheduled true b')) with (queued b'). cbn [is_ungranted]. rewrite Hp2, Hqueued. cbn. rewrite Hnext. lia.
    + intros _. left. exists Phase_Transfer. constructor.
    + change (queued (ToyBus.set_scheduled true b')) with (queued b'). rewrite Hqueued. cbn [weights foldr weight length]. rewrite Hp2. lia.
Qed.

Lemma job_route b it t r :
  downstream_of it = Some t -> ToyBus.routes b !! t = Some r ->
  exists msg, job b it = Some (ToyBus.r_port r, ToyBus.with_txn msg (ToyBus.r_txn r)).
Proof.
  destruct it as [[[] [port [msg| | |]|token]] ph]; cbn; try discriminate.
  - destruct (port =? 2); [|discriminate]. intros [= <-] ->. cbn. eauto.
  - intros [= <-] ->. cbn. eauto.
Qed.

Lemma txn_with msg t : txn_of (ToyBus.with_txn msg t) = t.
Proof. destruct msg; reflexivity. Qed.

(** A downstream transaction is in flight once. *)
Lemma downstream_once b it t fl js it' :
  NoDup (job_key <$> omap (job b) (it :: fl) ++ js) -> downstream_of it = Some t -> is_Some (ToyBus.routes b !! t) ->
  it' ∈ fl -> downstream_of it' <> Some t.
Proof.
  intros Hnd Hd [r Hr] Hin Hd'. destruct (job_route _ _ _ _ Hd Hr) as [m Em], (job_route _ _ _ _ Hd' Hr) as [m' Em'].
  cbn in Hnd. rewrite Em in Hnd. cbn in Hnd. apply NoDup_cons in Hnd as [Hni _]. apply Hni. unfold job_key at 1. cbn. rewrite txn_with.
  apply list_elem_of_fmap. exists (ToyBus.r_port r, ToyBus.with_txn m' (ToyBus.r_txn r)).
  split; [unfold job_key; cbn; rewrite txn_with; reflexivity |]. apply elem_of_app. left. apply list_elem_of_omap. eauto.
Qed.

Lemma step_bus_route msg ph fl n :
  net_ok (set_flight ((NBus, Delivered_Message 2 (Message_Mem msg), ph) :: fl) n) ->
  runs ph (fun C _ => ToyBus.route msg) (n_bus n) []
    (fun _ b log => stepped (set_flight ((NBus, Delivered_Message 2 (Message_Mem msg), ph) :: fl) n) (posted NBus log (set_bus b (set_flight fl n)))).
Proof.
  intros N. pose proof N as [H1 H2 H3 H4 H5 H6 H7 H8 H9 H10 H11]. destruct H11. cbn [n_cpu n_dma n_bus n_mem flight set_flight] in *.
  apply Forall_cons in H8 as [Hit Hfl]. destruct Hit as (t & w & Et & r & Er & Ew).
  assert (Ht : txn_of msg = t) by (destruct msg; cbn in *; congruence).
  apply runs_route with t w r; [exact Et | exact Er | exact Ew |].
  assert (Hjob : job (n_bus n) (NBus, Delivered_Message 2 (Message_Mem msg), ph) = Some (ToyBus.r_port r, ToyBus.with_txn msg (ToyBus.r_txn r))).
  { cbn. rewrite Ht, Er. reflexivity. }
  assert (Hagree : Forall (agree (n_bus n) (ToyBus.set_routes (delete t (ToyBus.routes (n_bus n))) (n_bus n))) fl).
  { apply Forall_forall. intros it Hin t' Ed. cbn. apply lookup_delete_ne. intros <-.
    refine (downstream_once _ _ _ _ _ _ (jo_once _ _ _ _ _ _ _ H9) _ (mk_is_Some _ _ Er) Hin Ed). cbn. congruence. }
  assert (Hb : bus_ok (ToyBus.set_routes (delete t (ToyBus.routes (n_bus n))) (n_bus n))).
  { destruct H7. split; cbn; auto. apply map_Forall_delete. assumption. }
  pose proof (jo_jobs _ _ _ _ _ _ _ H9) as Hok. rewrite jobs_cons, Hjob in Hok. apply Forall_cons in Hok as [Hok _].
  assert (Hp : ToyBus.r_port r = 0 \/ ToyBus.r_port r = 1 /\ msg = V0_WriteResp t).
  { destruct Hok as [[? _]|[? Hd]]; [auto |]. right. split; [assumption |]. destruct msg; cbn in *; simplify_eq; try contradiction; reflexivity. }
  apply (net_bus (Delivered_Message 2 (Message_Mem msg)) ph); auto; cbn [app].
  - destruct Hp as [Ep|[Ep Em]]; rewrite Ep; (constructor; [|constructor]); cbn.
    + destruct msg; cbn in *; discriminate.
    + rewrite Em. cbn. eauto.
  - rewrite jobs_cons, Hjob. cbn [option_list app].
    destruct Hp as [Ep|[Ep Em]]; rewrite Ep; reflexivity.
  - change (queued (ToyBus.set_routes _ _)) with (queued (n_bus n)). destruct Hp as [Ep|[Ep Em]]; rewrite Ep; count.
  - intros Hs. right. split; [exact Hs | discriminate].
  - change (queued (ToyBus.set_routes _ _)) with (queued (n_bus n)). destruct Hp as [Ep|[Ep Em]]; rewrite Ep; count.
Qed.

Lemma waiting_spec q : ToyBus.waiting q = true <-> q <> [].
Proof. unfold ToyBus.waiting. rewrite negb_true_iff, bool_decide_eq_false. reflexivity. Qed.

Lemma queued_waiting b : queued b <> [] -> ToyBus.waiting (ToyBus.queue0 b) || ToyBus.waiting (ToyBus.queue1 b) = true.
Proof. unfold queued, ToyBus.waiting. destruct (ToyBus.queue0 b), (ToyBus.queue1 b); cbn; congruence. Qed.

(** The winner is a port whose queue is not empty. *)
Lemma winner_queue b w contended :
  bus_ok b -> ToyBus.winner b = Some (w, contended) ->
  (w = 0 \/ w = 1) /\ exists msg q, ToyBus.queue b w = Some (msg :: q) /\ is_request msg.
Proof.
  intros [Hp _ _ H0 H1] Hw. unfold ToyBus.winner, ToyBus.waiting in Hw. unfold ToyBus.queue.
  destruct (ToyBus.queue0 b) as [|m0 q0], (ToyBus.queue1 b) as [|m1 q1]; cbn in Hw; try discriminate; injection Hw as <- _;
    try (destruct Hp as [-> | ->]); cbn; (split; [auto |]); eexists _, _; (split; [reflexivity |]);
    first [apply Forall_cons in H0 as [? _]; assumption | apply Forall_cons in H1 as [? _]; assumption].
Qed.

Lemma queued_pop b w msg q txn write :
  w = 0 \/ w = 1 -> ToyBus.queue b w = Some (msg :: q) -> queued b ≡ₚ (w, msg) :: queued (granted b w q txn write).
Proof.
  unfold queued. intros [-> | ->]; cbn; intros [= ->]; cbn; [reflexivity |]. solve_Permutation.
Qed.

Lemma granted_ok b w msg q txn write :
  w = 0 \/ w = 1 -> ToyBus.queue b w = Some (msg :: q) -> bus_ok b -> bus_ok (granted b w q txn write).
Proof.
  intros Hw Hq [Hp Hn Hr H0 H1]. destruct Hw as [-> | ->]; cbn in Hq; injection Hq as Hq; rewrite Hq in *; split; cbn;
    rewrite ?Hq; auto; try lia; try (apply Forall_cons in H0 as [_ ?]; assumption); try (apply Forall_cons in H1 as [_ ?]; assumption).
  all: apply map_Forall_insert_2; [lia |]; intros t r E; specialize (Hr t r E); cbn in *; lia.
Qed.

Lemma ungranted_items_pos l : 0 <= ungranted_items l.
Proof. unfold ungranted_items. induction l as [|it l IH]; cbn; [lia |]. destruct (is_ungranted it); lia. Qed.

Lemma no_winner b : ToyBus.winner b = None -> ToyBus.waiting (ToyBus.queue0 b) || ToyBus.waiting (ToyBus.queue1 b) = false.
Proof. unfold ToyBus.winner. destruct (ToyBus.waiting (ToyBus.queue0 b)), (ToyBus.waiting (ToyBus.queue1 b)); [discriminate.. | reflexivity]. Qed.

Lemma step_bus_wake ph fl n :
  net_ok (set_flight ((NBus, Delivered_Wake ToyBus.ARBITRATE, ph) :: fl) n) ->
  runs ph (fun C _ => ToyBus.handle_event (Delivered_Wake ToyBus.ARBITRATE)) (n_bus n) []
    (fun _ b log => stepped (set_flight ((NBus, Delivered_Wake ToyBus.ARBITRATE, ph) :: fl) n) (posted NBus log (set_bus b (set_flight fl n)))).
Proof.
  intros N. pose proof N as [H1 H2 H3 H4 H5 H6 H7 H8 H9 H10 H11]. cbn [n_cpu n_dma n_bus n_mem flight set_flight] in *.
  apply Forall_cons in H8 as [_ Hfl]. unfold ToyBus.handle_event. change (ToyBus.ARBITRATE =? ToyBus.ARBITRATE) with true. cbv iota. log_run.
  set (b := ToyBus.set_scheduled false (n_bus n)). assert (Hb : bus_ok b) by (destruct H7; split; assumption).
  (** What is true after the arbitration. *)
  eapply runs_mono; cycle 1.
  - instantiate (1 := fun _ b' log => let items := omap (item_of NBus) log in
      Forall (agree (n_bus n) b') fl /\ bus_ok b' /\ Forall (item_ok b') items /\
      jobs (set_flight fl n) ≡ₚ omap (job b') items ++ omap (job (n_bus n)) fl ++ queued b' ++ arrived (n_cpu n) /\
      ToyBus.next_downstream b' + ungranted_items items + Z.of_nat (length (queued b')) =
        ToyBus.next_downstream (n_bus n) + Z.of_nat (length (queued (n_bus n))) /\ ToyBus.arbitration_scheduled b' = false /\
      (if ToyBus.waiting (ToyBus.queue0 b') || ToyBus.waiting (ToyBus.queue1 b') then 1 else 0) + weights items + 6 * Z.of_nat (length (queued b')) <
        1 + 6 * Z.of_nat (length (queued (n_bus n)))).
    destruct (ToyBus.winner b) as [[w contended]|] eqn:Ew; cycle 1.
    { apply runs_no_grant; [exact Ew |]. split; [apply Forall_forall; intros it _ t _; reflexivity |]. split; [exact Hb |].
      split; [constructor |]. split; [reflexivity |]. split; [|split; [reflexivity |]].
      2: { rewrite (no_winner _ Ew). change (queued b) with (queued (n_bus n)). cbn. lia. }
      change (ToyBus.next_downstream (n_bus n) + 0 + Z.of_nat (length (queued (n_bus n))) = ToyBus.next_downstream (n_bus n) + Z.of_nat (length (queued (n_bus n)))). lia. }
    destruct (winner_queue _ _ _ Hb Ew) as (Hw & msg & q & Eq & Hreq).
    destruct (ToyBus.request_txn msg) as [[txn write]|] eqn:Em; [|contradiction].
    pose proof (queued_pop b w msg q txn write Hw Eq) as Hpop. change (queued b) with (queued (n_bus n)) in Hpop.
    assert (Hnext : 0 <= ToyBus.next_downstream b < 2 ^ 64 - 1).
    { rewrite ungranted_cons in H10. unfold ungranted in H10. cbn [flight n_bus set_flight is_ungranted] in H10. rewrite Hpop in H10. cbn [length] in H10.
      pose proof (ungranted_items_pos fl). destruct H7. pose proof (su_ops Hsetup). change (ToyBus.next_downstream b) with (ToyBus.next_downstream (n_bus n)).
      pose proof (ToyDma.td_issued _ H3) as Hdi. rewrite H4 in Hdi. destruct H1 as (_ & Hio & _). rewrite H2 in Hio. lia. }
    eapply runs_arbitrate; [exact Ew | exact Eq | exact Em | exact Hnext |].
    assert (Ht : txn_of msg = txn) by (destruct msg; cbn in *; congruence).
    assert (Hroute : ToyBus.routes (granted b w q txn write) !! ToyBus.next_downstream b = Some (ToyBus.mkRoute w txn write)) by apply lookup_insert_eq.
    assert (Hroutes : forall t, t <> ToyBus.next_downstream b -> ToyBus.routes (granted b w q txn write) !! t = ToyBus.routes (n_bus n) !! t).
    { intros t Hne. unfold granted. cbn [ToyBus.routes ToyBus.set_routes]. rewrite lookup_insert_ne by auto. destruct Hw as [-> | ->]; reflexivity. }
    assert (Hjob : job (granted b w q txn write) (NMem, Delivered_Message 0 (Message_Mem (ToyBus.with_txn msg (ToyBus.next_downstream b))), Phase_Transfer) = Some (w, msg)).
    { unfold job. rewrite txn_with, Hroute. cbn. f_equal. f_equal. destruct msg; cbn in *; congruence. }
    set (it := (NMem, _, Phase_Transfer)) in Hjob. cbn zeta. cbn [app]. change (omap (item_of NBus) [_]) with [it].
    split; [|split; [|split; [|split; [|split; [|split]]]]].
    + apply Forall_forall. intros it' Hin t Ed. apply Hroutes. rewrite Forall_forall in Hfl.
      destruct (downstream_routed _ _ _ (Hfl it' Hin) Ed) as [r Er]. pose proof (bo_routes _ H7 t r Er) as Hlt. cbn in Hlt. cbn. lia.
    + eapply granted_ok; eassumption.
    + constructor; [|constructor]. cbn. exists (ToyBus.next_downstream b), write. split; [destruct msg; cbn in *; congruence |].
      eexists. split; [exact Hroute | reflexivity].
    + unfold omap at 1. cbn [list_omap]. rewrite Hjob. unfold jobs. cbn [flight n_bus n_cpu set_flight app]. rewrite Hpop. solve_Permutation.
    + rewrite Hpop. cbn [length]. change (ungranted_items [it]) with 0.
      change (ToyBus.next_downstream (granted b w q txn write)) with (ToyBus.next_downstream (n_bus n) + 1). lia.
    + destruct Hw as [-> | ->]; reflexivity.
    + rewrite Hpop. cbn [length]. change (weights [it]) with 5. destruct (_ || _); lia.
  - intros _ b' log (Ha & Hb' & Hi & Hj & Hn & Hs & Hm). log_run.
    assert (Hj' : jobs (set_flight ((NBus, Delivered_Wake ToyBus.ARBITRATE, ph) :: fl) n) = jobs (set_flight fl n)) by (rewrite jobs_cons; reflexivity).
    destruct (_ || _) eqn:Ewait.
    + unfold ToyBus.schedule_arbitration. log_run. apply (net_bus (Delivered_Wake ToyBus.ARBITRATE) ph); auto; rewrite ?omap_app; cbn [omap list_omap item_of].
      * destruct Hb'. split; assumption.
      * apply Forall_app. split; [exact Hi |]. constructor; [reflexivity | constructor].
      * rewrite Hj', Hj. cbn. rewrite app_nil_r. reflexivity.
      * rewrite ungranted_items_app. change (ungranted_items [_]) with 0. change (queued (ToyBus.set_scheduled _ b')) with (queued b').
        cbn [is_ungranted ToyBus.next_downstream ToyBus.set_scheduled]. lia.
      * intros _. left. exists Phase_Transfer. apply elem_of_app. right. constructor.
      * rewrite weights_app. change (weights [_]) with 1. change (queued (ToyBus.set_scheduled _ b')) with (queued b'). cbn [weight]. lia.
    + log_run. apply (net_bus (Delivered_Wake ToyBus.ARBITRATE) ph); auto; try congruence; [cbn [is_ungranted]; lia |].
      intros Hq. apply queued_waiting in Hq. congruence.
Qed.

(** * Every delivery *)

Lemma runs_zoomed {S} node ev ph fl n (get : Net -> S) (set : S -> Net -> Net) (m : forall C `{SimContext C}, ST (S * C) Failure unit) :
  get (set_flight fl n) = get n ->
  runs ph m (get n) [] (fun _ s log => stepped (set_flight ((node, ev, ph) :: fl) n) (posted node log (set s (set_flight fl n)))) ->
  runs ph (fun C _ => zoom get set (m C)) (set_flight fl n) []
    (fun _ n' log => stepped (set_flight ((node, ev, ph) :: fl) n) (posted node log n')).
Proof. intros E Hm. apply runs_zoom. rewrite E. exact Hm. Qed.

Lemma step_any node ev ph fl n :
  net_ok (set_flight ((node, ev, ph) :: fl) n) ->
  runs ph (fun C _ => deliver node ev) (set_flight fl n) []
    (fun _ n' log => stepped (set_flight ((node, ev, ph) :: fl) n) (posted node log n')).
Proof.
  intros N. pose proof (no_items _ N) as [Hit _]%Forall_cons. destruct node; cbn [deliver]; apply runs_zoomed; try reflexivity.
  - destruct ev as [port [msg| | |]|token]; cbn in Hit; try contradiction; [apply step_cpu_message, N |].
    destruct Hit as [-> | ->]; [apply step_cpu_issue, N | apply step_cpu_commit, N].
  - destruct ev as [port [msg| | |]|token]; cbn in Hit; try contradiction; [apply step_dma_message, N |].
    subst token. apply step_dma_wake, N.
  - destruct ev as [port [msg| | |]|token]; cbn in Hit; try contradiction.
    + unfold ToyBus.handle_event, ToyBus.MEM_PORT. destruct (Z.eqb_spec port 2) as [->|Hne].
      * apply step_bus_route, N.
      * apply step_bus_request; [apply Hit | exact N].
    + subst token. apply step_bus_wake, N.
  - destruct ev as [port [msg| | |]|token]; cbn in Hit; try contradiction. apply step_mem, N.
Qed.

Lemma runs_done {S A} ph (m : forall C `{SimContext C}, ST (S * C) Failure A) s log Q C `(SimContext C) (c : C) a s' l :
  runs ph m s log Q -> m (Logged C) (s, mkLogged ph c log false) = ((s', l), Ok a) -> Q a s' (l_log l).
Proof. intros Hm E. specialize (Hm C _ c). unfold wp in Hm. rewrite E in Hm. apply Hm. Qed.

Lemma net_ok_pick l1 it l2 n : flight n = l1 ++ it :: l2 -> net_ok n -> net_ok (set_flight (it :: l1 ++ l2) n).
Proof.
  intros E N. replace n with (set_flight (l1 ++ it :: l2) n) in N by (destruct n; cbn in *; subst; reflexivity).
  apply (net_ok_perm n (l1 ++ it :: l2)); [symmetry; apply Permutation_middle | exact N].
Qed.

Lemma net_step_stepped n n' : net_ok n -> net_step n n' -> stepped n n'.
Proof.
  intros N Hs. destruct Hs as [l1 node ev ph l2 n n1 C HC c l E D]. pose proof (net_ok_pick _ _ _ _ E N) as N'.
  apply (runs_done ph (fun C _ => deliver node ev) _ _ _ C HC c _ _ _ (step_any node ev ph (l1 ++ l2) n N')) in D as [Hok Hm].
  split; [exact Hok |]. replace (measure n) with (measure (set_flight ((node, ev, ph) :: l1 ++ l2) n)); [exact Hm |].
  unfold measure. cbn [n_cpu n_dma n_bus flight set_flight]. rewrite E. rewrite Permutation_middle. reflexivity.
Qed.

(** * Initialization *)

(** The components as they are made. *)
Definition made (bc : ToyBus.ToyBusConfig) : Net := mkNet (ToyCpu.new cc) (ToyDma.new dc) (ToyBus.new bc) (ToyMemory.new mc) [].

Definition cpu_started (u : ToyCpu) (log : list Effect) : Prop :=
  (ToyCpu.ops cc = 0 /\ u = ToyCpu.new cc /\ log = []) \/ exists k, u = ToyCpu.set_issue_scheduled true (ToyCpu.new cc) /\ log = [issue_wake (ToyCpu.new cc) k].
Definition dma_started (d : ToyDma) (log : list Effect) : Prop :=
  (ToyDma.ops dc = 0 /\ d = ToyDma.new dc /\ log = []) \/ exists k, d = ToyDma.set_wake_scheduled true (ToyDma.new dc) /\ log = [dma_wake (ToyDma.new dc) k].

Lemma runs_cpu_init ph : runs ph (fun C _ => ToyCpu.init) (ToyCpu.new cc) [] (fun _ => cpu_started).
Proof.
  pose proof (su_cpu_max Hsetup). pose proof (su_cpu Hsetup) as (_ & Ho & _ & Ht & _). unfold in_u in Ho. unfold ToyCpu.init. log_run. cbn [ToyCpu.config ToyCpu.new].
  destruct (Z.eqb_spec (ToyCpu.max_outstanding cc) 0); [lia |]. destruct (Z.leb_spec (ToyCpu.slots cc) (ToyCpu.max_outstanding cc)); [lia |]. cbn [orb].
  destruct (Z.ltb_spec 0 (ToyCpu.ops cc)).
  - apply runs_schedule_issue; [cbn; lia |]. intros k. right. eauto.
  - log_run. left. split; [lia | auto].
Qed.

Lemma runs_dma_init ph : runs ph (fun C _ => ToyDma.init) (ToyDma.new dc) [] (fun _ => dma_started).
Proof.
  pose proof (su_dma_max Hsetup). pose proof (su_dma_slots Hsetup). pose proof (ToyDma.dc_ops _ (su_dma Hsetup)) as Ho. pose proof (ToyDma.dc_gap _ (su_dma Hsetup)).
  unfold in_u in Ho. unfold ToyDma.init. log_run. cbn [ToyDma.config ToyDma.new].
  destruct (Z.eqb_spec (ToyDma.max_outstanding dc) 0); [lia |]. destruct (Z.eqb_spec (ToyDma.slots dc) 0); [lia |]. cbn [orb].
  destruct (Z.ltb_spec 0 (ToyDma.ops dc)).
  - apply runs_schedule_gap; [cbn; lia |]. intros k. right. eauto.
  - log_run. left. split; [lia | auto].
Qed.

(** One component initialized: it alone changed. *)
Lemma init_inv node nodes n n' :
  net_init (node :: nodes) n n' -> exists n1 log, net_init nodes (posted node log n1) n' /\
    forall (Q : unit -> Net -> list Effect -> Prop), (forall ph, runs ph (fun C _ => initialize node) n [] Q) -> Q tt n1 log.
Proof.
  intros Hi. inversion Hi as [|? ? ? n1 ? C HC c ph l E Hrest]; subst. exists n1, (l_log l). split; [exact Hrest |].
  intros Q Hq. exact (runs_done ph (fun C _ => initialize node) _ _ _ C HC c _ _ _ (Hq ph) E).
Qed.

Lemma init_state bc n :
  net_init [NCpu; NDma; NBus; NMem] (made bc) n ->
  exists u d log log', cpu_started u log /\ dma_started d log' /\
    n = mkNet u d (ToyBus.new bc) (ToyMemory.new mc) (omap (item_of NCpu) log ++ omap (item_of NDma) log').
Proof.
  intros (n1 & l1 & Hi & H1)%init_inv.
  specialize (H1 (fun _ n1 log => exists u, n1 = set_cpu u (made bc) /\ cpu_started u log)) as (u & -> & Hu).
  { intros ph. apply runs_zoom. eapply runs_mono; [|apply runs_cpu_init]. cbn. eauto. }
  apply init_inv in Hi as (n2 & l2 & Hi & H2).
  specialize (H2 (fun _ n2 log => exists d, n2 = set_dma d (posted NCpu l1 (set_cpu u (made bc))) /\ dma_started d log)) as (d & -> & Hd).
  { intros ph. apply runs_zoom. eapply runs_mono; [|apply runs_dma_init]. cbn. eauto. }
  apply init_inv in Hi as (n3 & l3 & Hi & H3).
  specialize (H3 (fun _ n3 log => n3 = posted NDma l2 (set_dma d (posted NCpu l1 (set_cpu u (made bc)))) /\ log = [])) as [-> ->].
  { intros ph. apply runs_zoom. unfold ToyBus.init. log_run. auto. }
  apply init_inv in Hi as (n4 & l4 & Hi & H4).
  specialize (H4 (fun _ n4 log => n4 = posted NBus [] (posted NDma l2 (set_dma d (posted NCpu l1 (set_cpu u (made bc))))) /\ log = [])) as [-> ->].
  { intros ph. apply runs_zoom. unfold ToyMemory.init. log_run. auto. }
  inversion Hi; subst. exists u, d, l1, l2. split; [exact Hu |]. split; [exact Hd |]. unfold posted. cbn. rewrite !app_nil_r. reflexivity.
Qed.

Lemma init_ok bc n :
  net_init [NCpu; NDma; NBus; NMem] (made bc) n -> net_ok n /\ measure n <= 10 * (ToyCpu.ops cc + ToyDma.ops dc) + 2.
Proof.
  intros (u & d & log & log' & Hu & Hd & ->)%init_state. pose proof (su_dma_slots Hsetup) as Hds. pose proof (su_mem Hsetup) as Hms.
  pose proof (ToyCpu.toy_cpu_new_ok _ (su_cpu Hsetup)) as Hcpu. pose proof (ToyDma.toy_dma_new_ok _ (su_dma Hsetup)) as Hdma.
  pose proof (ToyMemory.toy_memory_new_ok _ Hms) as Hmem.
  assert (Hj : jobs_ok cc dc ∅ ∅ ∅ (ToyMemory.bytes (ToyMemory.new mc)) []).
  { apply jobs_start; [apply (su_layout Hsetup) | unfold in_u in Hms; lia | lia]. }
  assert (Hb : bus_ok (ToyBus.new bc)) by (split; cbn; auto; [lia | apply map_Forall_empty]).
  assert (Hc0 : ToyCpu.ops cc = 0 -> ToyCpu.can_issue (ToyCpu.new cc) = false).
  { intros E. unfold ToyCpu.can_issue. cbn. rewrite E. reflexivity. }
  destruct Hu as [(E1 & -> & ->)|(k & -> & ->)], Hd as [(E2 & -> & ->)|(k' & -> & ->)]; cbn [app omap list_omap item_of issue_wake dma_wake].
  all: split; [|unfold measure, weights; cbn; lia].
  all: split; cbn [n_cpu n_dma n_bus n_mem flight]; auto; try (destruct Hdma; split; assumption).
  all: try (repeat constructor; cbn; auto; fail).
  all: split; cbn; auto; try discriminate; try (rewrite Hc0 by assumption; discriminate); try lia; try contradiction.
  all: intros _; eexists; repeat constructor.
Qed.
End net.
