(* ===== verification/ToySystem.v ===== *)
(** The M0 reference system, whatever the order of its deliveries: what the invariant of
    [ToyNetProofs] gives. *)
From stdpp Require Import base numbers list option strings gmap relations.
From Stdlib Require Import ZArith Lia.
From S2P Require Import Prelude Contracts Handlers Session Components Logs ToyNet ToyJobs ToyRuns ToyNetProofs.
From S2P Require ToyCpu ToyDma ToyBus ToyMemory.

Local Open Scope string_scope.
Local Open Scope list_scope.
Local Open Scope Z_scope.

(** A context that accepts every call. *)
#[local] Instance accepting : SimContext Z := {
  ctx_component _ := 0;
  ctx_now _ := 0;
  ctx_phase _ := Phase_Request;
  ctx_next_u64 c := (wrap 64 (c * 6364136223846793005 + 1442695040888963407), c);
  ctx_send _ _ _ _ c := (c, Ok tt);
  ctx_wake_self _ _ _ c := (c, Ok tt);
  ctx_trace _ _ c := c;
}.

Section system.
Context `{SimRng}.
Context (cc : ToyCpu.ToyCpuConfig) (dc : ToyDma.ToyDmaConfig) (bc : ToyBus.ToyBusConfig) (mc : ToyMemory.ToyMemoryConfig).

(** The states of the system after its components were initialized in the order they were added. *)
Definition initialized (n : Net) : Prop := net_init [NCpu; NDma; NBus; NMem] (made cc dc mc bc) n.
Definition reachable (n : Net) : Prop := exists n0, initialized n0 /\ rtc net_step n0 n.

Lemma reachable_net_ok n : setup_ok cc dc mc -> reachable n -> net_ok cc dc mc n.
Proof.
  intros Hs (n0 & Hi & Hr). apply (init_ok _ _ _ Hs) in Hi as [Hok _].
  induction Hr as [|n0 n1 n Hstep _ IH]; [exact Hok |]. apply IH, (net_step_stepped _ _ _ Hs _ _ Hok Hstep).
Qed.

(** What a delivery may do: succeed, or stop because the context refused one of its calls. *)
Definition faultless {S C A} `{SimContext C} (out : S * Logged C * result Failure A) : Prop :=
  match out with
  | (_, l, Ok _) => l_refused l = false
  | (_, l, Err e) => l_refused l = true /\ exists e', e = Fails e' /\ refused_by C e'
  end.

Lemma runs_faultless {S A} ph (m : forall C `{SimContext C}, ST (S * C) Failure A) s Q C `(SimContext C) (c : C) :
  runs ph m s [] Q -> faultless (m (Logged C) (s, mkLogged ph c [] false)).
Proof.
  intros Hm. specialize (Hm C _ c). unfold wp in Hm. destruct (m (Logged C) _ _) as [[s' l] [a|e]]; [apply Hm |].
  destruct Hm as [? ?]. cbn. auto.
Qed.

Lemma reachable_faultless n l1 node ev ph l2 :
  setup_ok cc dc mc -> reachable n -> flight n = l1 ++ (node, ev, ph) :: l2 ->
  forall C `(SimContext C) (c : C), faultless (deliver node ev (set_flight (l1 ++ l2) n, mkLogged ph c [] false)).
Proof.
  intros Hs Hr E C HC c. pose proof (net_ok_pick _ _ _ _ _ _ _ E (reachable_net_ok n Hs Hr)) as N.
  exact (runs_faultless ph (fun C HC => deliver node ev) _ _ C HC c (step_any _ _ _ Hs node ev ph (l1 ++ l2) n N)).
Qed.

(** C13: In every state the reference system can reach, whatever the order of the deliveries so
    far, delivering any event in flight to the CPU, the DMA, the bus or the memory, in any
    context, succeeds unless the context itself refuses a call: no read ever disagrees with the
    CPU's copy of what it wrote, no response is unknown, no address out of range, no counter
    overflows, and no handler panics. *)
Theorem toy_system_safe n l1 node ev ph l2 :
  setup_ok cc dc mc -> reachable n -> flight n = l1 ++ (node, ev, ph) :: l2 ->
  forall C `(SimContext C) (c : C), faultless (deliver node ev (set_flight (l1 ++ l2) n, mkLogged ph c [] false)).
Proof. apply reachable_faultless. Qed.

Lemma reachable_complete n :
  setup_ok cc dc mc -> reachable n -> flight n = [] ->
  ToyCpu.committed (n_cpu n) = ToyCpu.ops cc /\ ToyDma.completed (n_dma n) = ToyDma.ops dc /\
  ToyCpu.outstanding (n_cpu n) = ∅ /\ ToyDma.outstanding (n_dma n) = ∅ /\
  forall addr, cpu_slot cc addr ->
    slice (ToyMemory.bytes (n_mem n)) addr (Z.to_nat (ToyCpu.access_len cc)) = expected cc (ToyCpu.shadow (n_cpu n)) addr.
Proof.
  intros Hs Hr E. pose proof (reachable_net_ok n Hs Hr) as [H1 H2 H3 H4 H5 H6 H7 H8 H9 H10 []].
  assert (Hw : forall node t, ~ wakes node t (flight n)) by (intros node t [ph Hin]; rewrite E in Hin; inversion Hin).
  assert (Hq : queued (n_bus n) = []).
  { destruct (queued (n_bus n)) eqn:Eq; [reflexivity |]. destruct (Hw _ _ (lv_bus_wake (lv_bus ltac:(discriminate)))). }
  assert (Ha : ToyCpu.arrived (n_cpu n) = []).
  { destruct (ToyCpu.arrived (n_cpu n)) eqn:Eq; [reflexivity |]. destruct (Hw _ _ (lv_commit_wake (lv_commit ltac:(discriminate)))). }
  assert (Hj : jobs n = []) by (unfold jobs, arrived; rewrite E, Hq, Ha; reflexivity). rewrite Hj in H9. destruct H9.
  assert (Ho : ToyCpu.outstanding (n_cpu n) = ∅).
  { apply map_empty. intros t. apply eq_None_not_Some. intros Hsome%jo_cpu_job. inversion Hsome. }
  assert (Hd : ToyDma.outstanding (n_dma n) = ∅).
  { apply map_empty. intros t. apply eq_None_not_Some. intros Hsome%jo_dma_job. inversion Hsome. }
  split_and!; auto.
  - destruct H1 as (_ & Hio & _ & _ & Hc & _). rewrite Ho, map_size_empty, H2 in *. pose proof (su_cpu_max _ _ _ Hs).
    destruct (Z.lt_ge_cases (ToyCpu.issued (n_cpu n)) (ToyCpu.ops cc)) as [Hlt|]; [|lia].
    destruct (Hw NCpu ToyCpu.ISSUE). apply lv_issue_wake, lv_issue. unfold ToyCpu.can_issue. rewrite Ho, H2, map_size_empty.
    apply andb_true_iff. split; apply Z.ltb_lt; lia.
  - destruct H3. rewrite Hd, map_size_empty, H4 in *. pose proof (su_dma_max _ _ _ Hs).
    destruct (Z.lt_ge_cases (ToyDma.issued (n_dma n)) (ToyDma.ops dc)) as [Hlt|]; [|lia].
    destruct (Hw NDma ToyDma.ISSUE). apply lv_dma_wake, lv_dma; [exact Hlt |]. unfold ToyDma.full. rewrite Hd, H4, map_size_empty.
    apply Z.leb_gt. lia.
  - intros addr Hslot. apply jo_stored; [exact Hslot |]. intros t data Et. rewrite Ho, lookup_empty in Et. discriminate.
Qed.


(** When nothing is in flight the system is done: the CPU has committed and the DMA has
    completed every operation of its configuration, nothing is outstanding, and the memory holds
    the last value the CPU wrote to each of its slots. *)
Theorem toy_system_complete n :
  setup_ok cc dc mc -> reachable n -> flight n = [] ->
  ToyCpu.committed (n_cpu n) = ToyCpu.ops cc /\ ToyDma.completed (n_dma n) = ToyDma.ops dc /\
  ToyCpu.outstanding (n_cpu n) = ∅ /\ ToyDma.outstanding (n_dma n) = ∅ /\
  forall addr, cpu_slot cc addr ->
    slice (ToyMemory.bytes (n_mem n)) addr (Z.to_nat (ToyCpu.access_len cc)) = expected cc (ToyCpu.shadow (n_cpu n)) addr.
Proof. apply reachable_complete. Qed.

(** A delivery in a context that accepts every call. *)
Lemma reachable_steps n it fl :
  setup_ok cc dc mc -> reachable n -> flight n = it :: fl -> exists n', net_step n n'.
Proof.
  intros Hs Hr E. destruct it as [[node ev] ph]. pose proof (net_ok_pick _ _ _ [] _ _ _ E (reachable_net_ok n Hs Hr)) as N.
  pose proof (runs_faultless ph (fun C HC => deliver node ev) _ _ Z accepting 0 (step_any _ _ _ Hs node ev ph fl n N)) as Hf.
  cbn beta in Hf. destruct (deliver node ev (set_flight fl n, mkLogged ph 0 [] false)) as [[n1 l] [[]|e]] eqn:D.
  - exists (posted node (l_log l) n1). refine (deliver_item [] node ev ph fl n n1 Z accepting 0 l E D).
  - destruct Hf as (_ & e' & _ & [(? & ? & ? & ? & ? & ?)|(? & ? & ? & ? & ?)]); discriminate.
Qed.

Lemma steps_bound n0 n k :
  setup_ok cc dc mc -> initialized n0 -> nsteps net_step k n0 n -> Z.of_nat k <= 10 * (ToyCpu.ops cc + ToyDma.ops dc) + 2.
Proof.
  intros Hs Hi Hk. destruct (init_ok _ _ _ Hs _ _ Hi) as [Hok Hm]. enough (Z.of_nat k + measure cc dc n <= measure cc dc n0 /\ 0 <= measure cc dc n) by lia.
  clear Hi Hm. induction Hk as [n0|k n0 n1 n Hstep _ IH].
  - split; [lia |]. apply (measure_pos _ _ _ _ Hok).
  - destruct (net_step_stepped _ _ _ Hs _ _ Hok Hstep) as [Hok1 Hlt]. specialize (IH Hok1). lia.
Qed.

(** C14: Every run of the reference system ends: however the deliveries are ordered, at most ten
    per operation of the two initiators plus two are made; and until nothing is in flight, the
    next one can be made. *)
Theorem toy_system_terminates n0 n k :
  setup_ok cc dc mc -> initialized n0 -> nsteps net_step k n0 n ->
  Z.of_nat k <= 10 * (ToyCpu.ops cc + ToyDma.ops dc) + 2 /\ (flight n = [] \/ exists n', net_step n n').
Proof.
  intros Hs Hi Hk. split; [eapply steps_bound; eassumption |].
  destruct (flight n) as [|it fl] eqn:E; [auto |]. right. eapply reachable_steps; [exact Hs | | exact E].
  exists n0. split; [exact Hi |]. eapply rtc_nsteps_2, Hk.
Qed.
End system.

(** * A system *)

(** A draw is reduced modulo the bound. *)
#[local, refine] Instance modulo : SimRng := {
  below n C _ c := let '(c, x) := ctx_next_u64 c in (c, x mod n);
  chance num den C _ c := let '(c, x) := ctx_next_u64 c in (c, x mod den <? num);
}.
Proof.
  - intros n C HC c Hn. destruct (ctx_next_u64 c) as [c' x]. apply Z.mod_pos_bound, Hn.
  - intros n C D HC HD R c d HR Hr. destruct (rel_next_u64 _ HR c d Hr) as [Hr' Hx].
    destruct (ctx_next_u64 c), (ctx_next_u64 d). cbn in *. subst. auto.
  - intros n C HC P c HP Hc. pose proof (HP c Hc) as Hk. destruct (ctx_next_u64 c). exact Hk.
  - intros num den C HC c. destruct (ctx_next_u64 c). reflexivity.
Defined.

Definition small_cpu : ToyCpu.ToyCpuConfig := ToyCpu.mkToyCpuConfig 0 6 2 4 2 4 60.
Definition small_dma : ToyDma.ToyDmaConfig := ToyDma.mkToyDmaConfig 1 3 2 2 4 8 4 2.
Definition small_memory : ToyMemory.ToyMemoryConfig := ToyMemory.mkToyMemoryConfig 16 50 30.
Definition small_bus : ToyBus.ToyBusConfig := ToyBus.mkToyBusConfig 2.

Lemma small_setup : setup_ok small_cpu small_dma small_memory.
Proof.
  split; try (apply (bool_decide_unpack _); vm_compute; exact I).
  - split; apply (bool_decide_unpack _); vm_compute; exact I.
  - split; apply (bool_decide_unpack _); vm_compute; exact I.
Qed.

(** A component initialized, and the first delivery in flight made, in the accepting context. *)
Definition init_first (node : Node) (n : Net) : Net :=
  let '((n1, l), _) := initialize node (n, mkLogged Phase_Request 5 [] false) in posted node (l_log l) n1.
Definition deliver_first (n : Net) : option Net :=
  match flight n with
  | [] => None
  | (node, ev, ph) :: fl =>
      match deliver node ev (set_flight fl n, mkLogged ph 5 [] false) with
      | ((n1, l), Ok _) => Some (posted node (l_log l) n1)
      | _ => None
      end
  end.
Fixpoint deliver_all (fuel : nat) (n : Net) : Net :=
  match fuel, deliver_first n with
  | S fuel, Some n' => deliver_all fuel n'
  | _, _ => n
  end.

Lemma deliver_first_step n n' : deliver_first n = Some n' -> net_step n n'.
Proof.
  unfold deliver_first. destruct (flight n) as [|[[node ev] ph] fl] eqn:E; [discriminate |].
  destruct (deliver _ _ _) as [[n1 l] [[]|]] eqn:D; [|discriminate]. intros [= <-].
  exact (deliver_item [] node ev ph fl n n1 Z accepting 5 l E D).
Qed.

Lemma deliver_all_steps fuel : forall n, rtc net_step n (deliver_all fuel n).
Proof.
  induction fuel as [|fuel IH]; intros n; cbn; [constructor |]. destruct (deliver_first n) as [n'|] eqn:E; [|constructor].
  eapply rtc_l; [apply deliver_first_step, E | apply IH].
Qed.

Definition small_start : Net :=
  init_first NMem (init_first NBus (init_first NDma (init_first NCpu (made small_cpu small_dma small_memory small_bus)))).

Lemma init_first_init node nodes n n' :
  (match snd (initialize node (n, mkLogged Phase_Request 5 [] false)) with Ok _ => true | Err _ => false end) = true ->
  net_init nodes (init_first node n) n' -> net_init (node :: nodes) n n'.
Proof.
  unfold init_first. destruct (initialize _ _) as [[n1 l] [[]|]] eqn:E; [|discriminate]. intros _ Hn.
  exact (init_node node nodes n n1 n' Z accepting 5 Phase_Request l E Hn).
Qed.

Lemma small_initialized : initialized small_cpu small_dma small_bus small_memory small_start.
Proof. unfold initialized, small_start. repeat (apply init_first_init; [vm_compute; reflexivity |]). constructor. Qed.

Lemma small_reachable fuel : reachable small_cpu small_dma small_bus small_memory (deliver_all fuel small_start).
Proof. exists small_start. split; [apply small_initialized | apply deliver_all_steps]. Qed.

(** Twenty deliveries on, the next one succeeds. *)
Lemma toy_system_safe_witness :
  match flight (deliver_all 20 small_start) with
  | (node, ev, ph) :: fl => faultless (deliver node ev (set_flight fl (deliver_all 20 small_start), mkLogged ph 9 [] false))
  | [] => False
  end.
Proof.
  destruct (flight (deliver_all 20 small_start)) as [|[[node ev] ph] fl] eqn:E; [vm_compute in E; discriminate E |].
  exact (toy_system_safe _ _ _ _ _ [] node ev ph fl small_setup (small_reachable 20) E Z accepting 9).
Defined.

(** The whole run: six operations of the CPU and three of the DMA. *)
Lemma toy_system_complete_witness :
  ToyCpu.committed (n_cpu (deliver_all 100 small_start)) = 6 /\ ToyDma.completed (n_dma (deliver_all 100 small_start)) = 3.
Proof.
  destruct (toy_system_complete _ _ _ _ _ small_setup (small_reachable 100) ltac:(vm_compute; reflexivity)) as (Hc & Hd & _).
  exact (conj Hc Hd).
Defined.

(** One step of the run: within 92. *)
Lemma toy_system_terminates_witness :
  1 <= 92 /\ (flight (deliver_all 1 small_start) = [] \/ exists n', net_step (deliver_all 1 small_start) n').
Proof.
  apply (toy_system_terminates _ _ _ _ small_start (deliver_all 1 small_start) 1 small_setup small_initialized).
  apply nsteps_once, deliver_first_step. vm_compute. reflexivity.
Defined.
