(* ===== verification/Scheduler.v ===== *)
(** The deterministic event scheduler, [runtime/src/scheduler.rs].

    The binary heap is a list in any arrangement: [peek] and [pop] find the least key.  The
    order of keys is the contracts crate's ([EventOrder]).  Proved: rules S1 to S6, that
    dispatch is strictly increasing in key order whatever the interleaving of scheduling
    and dispatch, that the arrangement of the heap is never observable, and the snapshot
    round trip. *)
From stdpp Require Import base numbers list option strings sorting.
From Stdlib Require Import ZArith Lia.
From S2P Require Import Prelude Contracts.

Local Open Scope string_scope.
Local Open Scope list_scope.
Local Open Scope Z_scope.

Record Event (T : Type) : Type := mkEvent { key : EventKey; payload : T }.
Arguments mkEvent {T} key payload.
Arguments key {T} e : rename.
Arguments payload {T} e : rename.

Record SchedulerConfig : Set := mkSchedulerConfig { max_events_per_phase : Z }.

Record SchedulerSnapshot (T : Type) : Type := mkSchedulerSnapshot {
  snap_last_dispatched : option EventKey;
  snap_dispatched_in_phase : Z;
  snap_next_sequence : Z;
  snap_queue : list (Event T);
}.
Arguments mkSchedulerSnapshot {T} _ _ _ _.
Arguments snap_last_dispatched {T} _.
Arguments snap_dispatched_in_phase {T} _.
Arguments snap_next_sequence {T} _.
Arguments snap_queue {T} _.

Inductive SchedulerRestoreError : Set :=
| DuplicateSequence (s : Z)
| SequenceNotYetAssigned (s : Z)
| EventBeforeCursor (k : EventKey)
| ObservePhaseEvent (k : EventKey)
| InvalidPhaseCount (n : Z).

Record Scheduler (T : Type) : Type := mkScheduler {
  config : SchedulerConfig;
  last_dispatched : option EventKey;
  dispatched_in_phase : Z;
  next_sequence : Z;
  heap : list (Event T);
}.
Arguments mkScheduler {T} _ _ _ _ _.
Arguments config {T} _.
Arguments last_dispatched {T} _.
Arguments dispatched_in_phase {T} _.
Arguments next_sequence {T} _.
Arguments heap {T} _.

(** * The order of keys *)

Section order.
Context `{EventOrder}.

Definition key_lt (a b : EventKey) : Prop := key_cmp a b = Lt.
Definition key_ltb (a b : EventKey) : bool := match key_cmp a b with Lt => true | _ => false end.
Definition key_leb (a b : EventKey) : bool := match key_cmp a b with Gt => false | _ => true end.

Lemma phase_rank_inj p q : phase_rank p = phase_rank q -> p = q.
Proof. destruct p, q; cbn; congruence. Qed.

(** The order of keys, on integers. *)
Lemma key_lt_spec a b :
  key_lt a b <->
  tick a < tick b \/
  tick a = tick b /\ (phase_rank (phase a) < phase_rank (phase b) \/
                      phase a = phase b /\ sequence a < sequence b).
Proof.
  unfold key_lt. rewrite key_cmp_doc, phase_cmp_doc.
  destruct (Z.compare_spec (tick a) (tick b)) as [->|?|?].
  - destruct (Z.compare_spec (phase_rank (phase a)) (phase_rank (phase b))) as [E|?|?].
    + rewrite Z.compare_lt_iff. apply phase_rank_inj in E. split; [auto |]. intros [?|[_ [?|[_ ?]]]]; try lia.
      rewrite E in *. lia.
    + split; [auto | reflexivity].
    + split; [discriminate |]. intros [?|[_ [?|[E ?]]]]; try lia. rewrite E in *. lia.
  - split; [auto | reflexivity].
  - split; [discriminate |]. intros [?|[? _]]; lia.
Qed.

Lemma key_cmp_antisym a b : key_cmp b a = CompOpp (key_cmp a b).
Proof.
  rewrite !key_cmp_doc, !phase_cmp_doc, (Z.compare_antisym (tick a)),
    (Z.compare_antisym (phase_rank (phase a))), (Z.compare_antisym (sequence a)).
  destruct (tick a ?= tick b), (phase_rank (phase a) ?= phase_rank (phase b)); reflexivity.
Qed.

Lemma key_cmp_eq a b : key_cmp a b = Eq <-> a = b.
Proof.
  rewrite key_cmp_doc, phase_cmp_doc. destruct a as [ta pa sa], b as [tb pb sb]. cbn. split.
  - destruct (Z.compare_spec ta tb) as [->|?|?]; try discriminate.
    destruct (Z.compare_spec (phase_rank pa) (phase_rank pb)) as [E|?|?]; try discriminate.
    intros ->%Z.compare_eq. apply phase_rank_inj in E. congruence.
  - intros [= -> -> ->]. rewrite !Z.compare_refl. reflexivity.
Qed.

Lemma key_lt_trans a b c : key_lt a b -> key_lt b c -> key_lt a c.
Proof.
  rewrite !key_lt_spec. intros H1 H2.
  destruct H1 as [?|[? [?|[E1 ?]]]], H2 as [?|[? [?|[E2 ?]]]]; try (left; lia); right;
    (split; [lia |]); try (left; congruence || lia); right; split; congruence || lia.
Qed.

Lemma key_lt_irrefl a : ~ key_lt a a.
Proof. rewrite key_lt_spec. lia. Qed.

Lemma key_total a b : key_lt a b \/ a = b \/ key_lt b a.
Proof.
  unfold key_lt. destruct (key_cmp a b) eqn:E; [right; left; apply key_cmp_eq, E | auto |].
  right. right. rewrite key_cmp_antisym, E. reflexivity.
Qed.

Lemma key_leb_spec a b : key_leb a b = true <-> key_lt a b \/ a = b.
Proof.
  unfold key_leb, key_lt. rewrite <- key_cmp_eq. destruct (key_cmp a b); split; try discriminate;
    auto. intros [?|?]; discriminate.
Qed.

Lemma key_leb_false a b : key_leb a b = false <-> key_lt b a.
Proof.
  unfold key_leb, key_lt. rewrite (key_cmp_antisym a b). destruct (key_cmp a b); cbn; split; auto; discriminate.
Qed.

#[export] Instance key_lt_dec a b : Decision (key_lt a b).
Proof. unfold key_lt. apply _. Defined.
End order.

(** * Operations *)

Section scheduler.
Context `{EventOrder} {T : Type}.

(** [BinaryHeap<Reverse<Entry<T>>>]: the entry with the least key, and the others. *)
Fixpoint heap_pop (h : list (Event T)) : option (Event T * list (Event T)) :=
  match h with
  | [] => None
  | e :: h =>
      match heap_pop h with
      | None => Some (e, [])
      | Some (m, rest) => if key_leb (key e) (key m) then Some (e, h) else Some (m, e :: rest)
      end
  end.

Definition new (c : SchedulerConfig) : Scheduler T := mkScheduler c None 0 0 [].

Definition now (s : Scheduler T) : Z :=
  match last_dispatched s with Some k => tick k | None => 0 end.

Definition current_phase (s : Scheduler T) : Phase :=
  match last_dispatched s with Some k => phase k | None => Phase_Request end.

Definition len (s : Scheduler T) : nat := length (heap s).

Definition is_empty (s : Scheduler T) : bool := (length (heap s) =? 0)%nat.

Definition peek_key (s : Scheduler T) : option EventKey :=
  '(e, _) ← heap_pop (heap s); Some (key e).

Definition phase_ltb (p q : Phase) : bool :=
  match phase_cmp p q with Lt => true | _ => false end.

Definition schedule (t : Z) (ph : Phase) (payload : T) : ST (Scheduler T) SimError EventKey :=
  fun s =>
    let violation := PhaseViolation (now s) (current_phase s) t ph in
    if bool_decide (ph = Phase_Observe) then (s, Err violation)
    else if t <? now s then (s, Err (PastTick (now s) t))
    else if (t =? now s) && phase_ltb ph (current_phase s) then (s, Err violation)
    else
      match checked_add 64 (next_sequence s) 1 with
      | None => (s, Err SequenceOverflow)
      | Some next =>
          let k := mkEventKey t ph (next_sequence s) in
          (mkScheduler (config s) (last_dispatched s) (dispatched_in_phase s) next
             (mkEvent k payload :: heap s), Ok k)
      end.

Definition pop : ST (Scheduler T) Failure (option (Event T)) :=
  fun s =>
    match peek_key s with
    | None => (s, Ok None)
    | Some next =>
        let same_phase :=
          match last_dispatched s with
          | Some last => (tick last =? tick next) && bool_decide (phase last = phase next)
          | None => false
          end in
        match (if same_phase then checked_add 64 (dispatched_in_phase s) 1 else Some 1) with
        | None => (s, Err (Panics "attempt to add with overflow"))
        | Some count =>
            if max_events_per_phase (config s) <? count then
              (s, Err (Fails (SameTickLivelock (tick next) (phase next)
                                (max_events_per_phase (config s)))))
            else
              match heap_pop (heap s) with
              | None => (s, Err (Panics "peeked entry exists"))
              | Some (event, rest) =>
                  (mkScheduler (config s) (Some (key event)) count (next_sequence s) rest,
                   Ok (Some event))
              end
        end
    end.

Definition snapshot (s : Scheduler T) : SchedulerSnapshot T :=
  mkSchedulerSnapshot (last_dispatched s) (dispatched_in_phase s) (next_sequence s)
    (sort_by (fun a b => key_leb (key a) (key b)) (heap s)).

(** [for pair in queue.windows(2)]: the first pair of equal sequences. *)
Fixpoint duplicate_window (q : list (Event T)) : option Z :=
  match q with
  | a :: ((b :: _) as q') =>
      if sequence (key a) =? sequence (key b) then Some (sequence (key a)) else duplicate_window q'
  | _ => None
  end.

(** [for event in &queue]: the first event the state rules out. *)
Fixpoint bad_event (last : option EventKey) (next_sequence : Z) (q : list (Event T)) :
    option SchedulerRestoreError :=
  match q with
  | [] => None
  | e :: q =>
      let k := key e in
      if next_sequence <=? sequence k then Some (SequenceNotYetAssigned (sequence k))
      else if bool_decide (phase k = Phase_Observe) then Some (ObservePhaseEvent k)
      else if match last with Some last => key_leb k last | None => false end
      then Some (EventBeforeCursor k)
      else bad_event last next_sequence q
  end.

Definition restore (c : SchedulerConfig) (snap : SchedulerSnapshot T) :
    result SchedulerRestoreError (Scheduler T) :=
  let count_ok :=
    match snap_last_dispatched snap with
    | None => snap_dispatched_in_phase snap =? 0
    | Some _ =>
        (1 <=? snap_dispatched_in_phase snap)
        && (snap_dispatched_in_phase snap <=? max_events_per_phase c)
    end in
  if negb count_ok then Err (InvalidPhaseCount (snap_dispatched_in_phase snap))
  else
    let queue := sort_by (fun a b => sequence (key a) <=? sequence (key b)) (snap_queue snap) in
    match duplicate_window queue with
    | Some s => Err (DuplicateSequence s)
    | None =>
        match bad_event (snap_last_dispatched snap) (snap_next_sequence snap) queue with
        | Some e => Err e
        | None =>
            Ok (mkScheduler c (snap_last_dispatched snap) (snap_dispatched_in_phase snap)
                  (snap_next_sequence snap) queue)
        end
    end.

(** * The invariant *)

(** Pending events have distinct sequences, all assigned, are after the cursor and never
    in [Observe]; the cursor's own sequence was assigned; the S5 count fits, and the events it
    counts and the pending ones were all assigned a sequence. *)
Definition sched_ok (s : Scheduler T) : Prop :=
  in_u 64 (next_sequence s) /\ in_u 64 (max_events_per_phase (config s)) /\
  dispatched_in_phase s + Z.of_nat (length (heap s)) <= next_sequence s /\
  NoDup (sequence ∘ key <$> heap s) /\
  Forall (fun e => sequence (key e) < next_sequence s /\ phase (key e) <> Phase_Observe /\
            match last_dispatched s with Some l => key_lt l (key e) | None => 0 <= tick (key e) end)
    (heap s) /\
  match last_dispatched s with
  | None => dispatched_in_phase s = 0
  | Some l => 1 <= dispatched_in_phase s <= max_events_per_phase (config s) /\
              sequence l < next_sequence s /\ phase l <> Phase_Observe /\ 0 <= tick l
  end.

(** ** The heap *)

Lemma heap_pop_perm h e rest : heap_pop h = Some (e, rest) -> h ≡ₚ e :: rest.
Proof.
  revert e rest. induction h as [|x h IH]; intros e rest; cbn; [discriminate |].
  destruct (heap_pop h) as [[m r]|] eqn:E.
  - specialize (IH _ _ eq_refl). case_if; intros [= <- <-]; [reflexivity |]. rewrite IH. apply perm_swap.
  - intros [= <- <-]. destruct h; [reflexivity | cbn in E].
    destruct (heap_pop h) as [[]|]; [destruct (key_leb _ _)|]; discriminate.
Qed.

Lemma heap_pop_min h e rest :
  heap_pop h = Some (e, rest) -> Forall (fun x => key_lt (key e) (key x) \/ key e = key x) rest.
Proof.
  revert e rest. induction h as [|x h IH]; intros e rest; cbn; [discriminate |].
  destruct (heap_pop h) as [[m r]|] eqn:E.
  - specialize (IH _ _ eq_refl). pose proof (heap_pop_perm _ _ _ E) as Hp.
    destruct (key_leb (key x) (key m)) eqn:Ek; intros [= <- <-].
    + apply key_leb_spec in Ek. rewrite Hp. constructor; [exact Ek |].
      eapply Forall_impl; [exact IH |]. cbn. intros y Hy.
      destruct Ek as [Ek| ->]; [|exact Hy]. left.
      destruct Hy as [Hy|Hy]; [eapply key_lt_trans; eassumption | rewrite <- Hy; exact Ek].
    + apply key_leb_false in Ek. constructor; [auto | exact IH].
  - intros [= <- <-]. constructor.
Qed.

Lemma heap_pop_None h : heap_pop h = None <-> h = [].
Proof.
  split; [|intros ->; reflexivity]. destruct h as [|x h]; [reflexivity |]. cbn.
  destruct (heap_pop h) as [[]|]; [case_if|]; discriminate.
Qed.

(** ** Operations preserve it *)

Lemma phase_ltb_spec p q : phase_ltb p q = true <-> phase_rank p < phase_rank q.
Proof.
  unfold phase_ltb. rewrite phase_cmp_doc. destruct (Z.compare_spec (phase_rank p) (phase_rank q));
    split; auto; try discriminate; lia.
Qed.

(** Rules S1, S2, S3 and S6 as one condition. *)
Definition allowed (s : Scheduler T) (t : Z) (ph : Phase) : Prop :=
  ph <> Phase_Observe /\ next_sequence s + 1 < 2 ^ 64 /\
  (now s < t \/ now s = t /\ phase_rank (current_phase s) <= phase_rank ph).

Lemma schedule_cases t ph p s :
  (allowed s t ph /\
   schedule t ph p s =
     (let k := mkEventKey t ph (next_sequence s) in
      (mkScheduler (config s) (last_dispatched s) (dispatched_in_phase s) (next_sequence s + 1)
         (mkEvent k p :: heap s), Ok k))) \/
  (~ allowed s t ph /\ exists e, schedule t ph p s = (s, Err e)).
Proof.
  assert (Hge : phase_ltb ph (current_phase s) = false <-> phase_rank (current_phase s) <= phase_rank ph).
  { rewrite <- not_true_iff_false, phase_ltb_spec. lia. }
  unfold schedule, allowed. case_bool_decide as Ho; [right; split; [tauto | eauto] |].
  destruct (Z.ltb_spec t (now s)) as [|Hnow]; [right; split; [lia | eauto] |].
  destruct ((t =? now s) && _) eqn:Ep.
  { apply andb_true_iff in Ep as [Et%Z.eqb_eq Ep]. right. split; [|eauto].
    intros (_ & _ & [?|[_ Hx]]); [lia | apply Hge in Hx; congruence]. }
  destruct (checked_add 64 (next_sequence s) 1) as [n|] eqn:En.
  2:{ apply checked_add_None in En. right. split; [lia | eauto]. }
  apply checked_add_Some in En as [-> Hn]. left. split; [|reflexivity]. split_and!; [exact Ho | exact Hn |].
  apply andb_false_iff in Ep as [Et%Z.eqb_neq|Ep%Hge]; [left; lia |].
  destruct (Z.eq_dec (now s) t); [right; auto | left; lia].
Qed.

Lemma scheduler_new_ok c : in_u 64 (max_events_per_phase c) -> sched_ok (new c).
Proof. intros Hc. split; [apply in_u_0; lia |]. split; [exact Hc |]. cbn. repeat split; constructor || lia. Qed.

Lemma schedule_ok t ph p s : 0 <= t -> sched_ok s -> sched_ok (fst (schedule t ph p s)).
Proof.
  intros Ht Hok. unfold schedule. case_bool_decide as Hobs; [exact Hok |].
  destruct (Z.ltb_spec t (now s)) as [|Hnow]; [exact Hok |].
  destruct ((t =? now s) && _) eqn:Eph; [exact Hok |].
  destruct (checked_add 64 (next_sequence s) 1) as [n|] eqn:En; [|exact Hok].
  apply checked_add_Some in En as [-> Hn]. destruct Hok as (Hseq & Hmax & Hcnt & Hnd & Hall & Hlast).
  cbn [fst]. split; [unfold in_u in *; cbn; lia |]. split; [exact Hmax |]. split; [cbn; lia |]. split; [|split].
  - cbn. apply NoDup_cons. split; [|exact Hnd]. intros (e & He & Hin)%list_elem_of_fmap.
    rewrite Forall_forall in Hall. destruct (Hall e Hin) as [Hlt _]. cbn in He. lia.
  - constructor; cbn.
    + split; [lia |]. split; [exact Hobs |]. destruct (last_dispatched s) as [l|] eqn:El; [|exact Ht].
      apply key_lt_spec. unfold now, current_phase in *. rewrite El in *. cbn.
      destruct (Z.eqb_spec t (tick l)) as [->|]; [|left; lia]. right. split; [reflexivity |].
      cbn [andb] in Eph. destruct (Z.lt_trichotomy (phase_rank (phase l)) (phase_rank ph)) as [|[E|E]].
      * auto.
      * right. split; [apply phase_rank_inj, E | lia].
      * apply phase_ltb_spec in E. congruence.
    + eapply Forall_impl; [exact Hall |]. cbn. intros e (? & ? & ?). split; [lia | auto].
  - cbn. destruct (last_dispatched s); [|exact Hlast]. split; [tauto |]. split; [lia | tauto].
Qed.

Lemma heap_keys_distinct s e rest :
  sched_ok s -> heap_pop (heap s) = Some (e, rest) ->
  heap s ≡ₚ e :: rest /\ Forall (fun x => key_lt (key e) (key x)) rest.
Proof.
  intros (_ & _ & _ & Hnd & _) Hp. pose proof (heap_pop_perm _ _ _ Hp) as Hperm. split; [exact Hperm |].
  rewrite Hperm in Hnd. cbn in Hnd. apply NoDup_cons in Hnd as [Hnin _].
  pose proof (heap_pop_min _ _ _ Hp) as Hmin. rewrite Forall_forall in *. intros x Hx.
  destruct (Hmin x Hx) as [Hlt|Heq]; [exact Hlt |]. exfalso. apply Hnin.
  apply list_elem_of_fmap. exists x. split; [cbn; congruence | exact Hx].
Qed.

(** What [pop] does, on every branch. *)
Definition pop_spec (s : Scheduler T) : Scheduler T * result Failure (option (Event T)) -> Prop :=
  fun '(s', r) =>
  match r with
  | Ok None => s' = s /\ heap s = []
  | Ok (Some e) =>
      heap s ≡ₚ e :: heap s' /\ Forall (fun x => key_lt (key e) (key x)) (heap s') /\
      match last_dispatched s with Some l => key_lt l (key e) | None => True end /\
      config s' = config s /\ last_dispatched s' = Some (key e) /\
      next_sequence s' = next_sequence s /\
      dispatched_in_phase s' =
        (match last_dispatched s with
         | Some l => if bool_decide (tick l = tick (key e) /\ phase l = phase (key e))
                     then dispatched_in_phase s + 1 else 1
         | None => 1
         end) /\
      dispatched_in_phase s' <= max_events_per_phase (config s)
  | Err f =>
      s' = s /\ exists e rest, heap s ≡ₚ e :: rest /\
        Forall (fun x => key_lt (key e) (key x)) rest /\
        f = Fails (SameTickLivelock (tick (key e)) (phase (key e)) (max_events_per_phase (config s))) /\
        (max_events_per_phase (config s) = 0 \/
         exists l, last_dispatched s = Some l /\ tick l = tick (key e) /\ phase l = phase (key e) /\
           dispatched_in_phase s = max_events_per_phase (config s))
  end.
Lemma pop_correct s : sched_ok s -> pop_spec s (pop s).
Proof.
  intros Hok. unfold pop, peek_key. destruct (heap_pop (heap s)) as [[e rest]|] eqn:Ep; cbn [mbind option_bind].
  2:{ split; [reflexivity | apply heap_pop_None, Ep]. }
  destruct (heap_keys_distinct s e rest Hok Ep) as [Hperm Hmin].
  destruct Hok as (Hseq & Hmax & Hcnt & _ & Hall & Hlast).
  assert (Hlen : (length (heap s) >= 1)%nat) by (rewrite Hperm; cbn; lia).
  rewrite Hperm in Hall. apply Forall_cons in Hall as [(_ & _ & He) _].
  set (same := match last_dispatched s with Some last => _ | None => false end).
  assert (Hsame : same = true <-> exists l, last_dispatched s = Some l /\ tick l = tick (key e) /\ phase l = phase (key e)).
  { subst same. destruct (last_dispatched s) as [l|]; [|split; [discriminate | intros (? & [=] & _)]].
    rewrite andb_true_iff, Z.eqb_eq, bool_decide_eq_true. split; [eauto |]. intros (? & [= <-] & ? & ?). auto. }
  assert (Hcount : (if same then checked_add 64 (dispatched_in_phase s) 1 else Some 1) =
    Some (if same then dispatched_in_phase s + 1 else 1)).
  { destruct same; [|reflexivity]. apply checked_add_Some. unfold in_u in *. split; [reflexivity | lia]. }
  rewrite Hcount. destruct (Z.ltb_spec (max_events_per_phase (config s)) (if same then dispatched_in_phase s + 1 else 1)) as [Hlt|Hle].
  - split; [reflexivity |]. exists e, rest. split; [exact Hperm |]. split; [exact Hmin |]. split; [reflexivity |].
    destruct same.
    + right. destruct (proj1 Hsame eq_refl) as (l & El & Ht & Hph). exists l. rewrite El in Hlast.
      repeat split; auto. lia.
    + left. unfold in_u in Hmax. lia.
  - cbn. split; [exact Hperm |]. split; [exact Hmin |]. split; [destruct (last_dispatched s); auto |].
    repeat split; [|exact Hle]. destruct (last_dispatched s) as [l|]; [|subst same; reflexivity].
    case_bool_decide as Hb; destruct same; try reflexivity.
    + discriminate (proj2 Hsame (ex_intro _ l (conj eq_refl Hb))).
    + destruct (proj1 Hsame eq_refl) as (? & [= <-] & Hx). contradiction.
Qed.

Lemma pop_ok s : sched_ok s -> sched_ok (fst (pop s)).
Proof.
  intros Hok. pose proof (pop_correct s Hok) as Hp. destruct (pop s) as [s' [[e|]|f]]; cbn [fst].
  2:{ destruct Hp as [-> _]. exact Hok. }
  2:{ destruct Hp as [-> _]. exact Hok. }
  destruct Hp as (Hperm & Hmin & Hl & Hc & Hld & Hn & Hcount & Hle).
  destruct Hok as (Hseq & Hmax & Hcnt & Hnd & Hall & Hlast). unfold sched_ok. rewrite Hc, Hn, Hld.
  rewrite Hperm in Hnd, Hall, Hcnt. cbn in Hnd, Hcnt. apply NoDup_cons in Hnd as [_ Hnd].
  apply Forall_cons in Hall as [(He1 & He2 & He3) Hall].
  assert (Hpos : 0 <= tick (key e) /\ 0 <= dispatched_in_phase s).
  { destruct (last_dispatched s) as [l|]; [|split; [exact He3 | lia]].
    apply key_lt_spec in Hl. split; [|lia]. destruct Hlast as (_ & _ & _ & Htl). lia. }
  split; [exact Hseq |]. split; [exact Hmax |]. split; [|split; [exact Hnd |]; split].
  - rewrite Hcount. unfold in_u in Hseq. destruct (last_dispatched s); [case_bool_decide|]; lia.
  - rewrite Forall_forall in *. intros x Hx. destruct (Hall x Hx) as (? & ? & _). auto.
  - split; [split; [rewrite Hcount; destruct (last_dispatched s); [case_bool_decide|]; lia | exact Hle] |].
    split; [exact He1 |]. split; [exact He2 | apply Hpos].
Qed.
End scheduler.

(** * Runs *)

(** What the runtime does to a scheduler. *)
Inductive Op (T : Type) : Type :=
| Op_Schedule (t : Z) (ph : Phase) (payload : T)
| Op_Pop.
Arguments Op_Schedule {T} t ph payload.
Arguments Op_Pop {T}.

(** [Tick] is a [u64]. *)
Definition op_ok {T} (op : Op T) : Prop :=
  match op with Op_Schedule t _ _ => in_u 64 t | Op_Pop => True end.

(** What an operation answers. *)
Inductive Answer (T : Type) : Type :=
| Scheduled (r : result SimError EventKey)
| Popped (r : result Failure (option (Event T))).
Arguments Scheduled {T} r.
Arguments Popped {T} r.

Section runs.
Context `{EventOrder} {T : Type}.

Definition apply_op (op : Op T) (s : Scheduler T) : Scheduler T * Answer T :=
  match op with
  | Op_Schedule t ph p => let '(s, r) := schedule t ph p s in (s, Scheduled r)
  | Op_Pop => let '(s, r) := pop s in (s, Popped r)
  end.

Fixpoint run (ops : list (Op T)) (s : Scheduler T) : Scheduler T * list (Answer T) :=
  match ops with
  | [] => (s, [])
  | op :: ops =>
      let '(s, a) := apply_op op s in
      let '(s, rest) := run ops s in
      (s, a :: rest)
  end.

(** The keys dispatched, in the order they were. *)
Definition dispatched_keys (answers : list (Answer T)) : list EventKey :=
  omap (fun a => match a with Popped (Ok (Some e)) => Some (key e) | _ => None end) answers.

Lemma apply_op_ok op s : op_ok op -> sched_ok s -> sched_ok (fst (apply_op op s)).
Proof.
  intros Hop Hok. destruct op as [t ph p|]; cbn.
  - pose proof (schedule_ok t ph p s ltac:(apply Hop) Hok) as Hs. destruct (schedule t ph p s). exact Hs.
  - pose proof (pop_ok s Hok) as Hs. destruct (pop s). exact Hs.
Qed.

Lemma run_ok ops : forall s, Forall op_ok ops -> sched_ok s -> sched_ok (fst (run ops s)).
Proof.
  induction ops as [|op ops IH]; intros s Hops Hok; [exact Hok |].
  apply Forall_cons in Hops as [Hop Hops]. pose proof (apply_op_ok op s Hop Hok) as Hs. cbn.
  destruct (apply_op op s) as [s1 a]. specialize (IH s1 Hops Hs). destruct (run ops s1). exact IH.
Qed.

Lemma pop_no_panic (s : Scheduler T) what : sched_ok s -> snd (pop s) <> Err (Panics what).
Proof.
  intros Hok. pose proof (pop_correct s Hok) as Hp. destruct (pop s) as [s' [[e|]|f]]; try discriminate.
  destruct Hp as (_ & e & rest & _ & _ & -> & _). discriminate.
Qed.

Lemma schedule_last t ph p (s : Scheduler T) : last_dispatched (fst (schedule t ph p s)) = last_dispatched s.
Proof. unfold schedule. repeat case_goal; reflexivity. Qed.

Lemma run_sorted ops : forall s,
  Forall op_ok ops -> sched_ok s ->
  StronglySorted key_lt (dispatched_keys (snd (run ops s))) /\
  Forall (fun k => match last_dispatched s with Some l => key_lt l k | None => True end)
    (dispatched_keys (snd (run ops s))).
Proof.
  induction ops as [|op ops IH]; intros s Hops Hok; [split; constructor |].
  apply Forall_cons in Hops as [Hop Hops]. pose proof (apply_op_ok op s Hop Hok) as Hs. cbn.
  destruct op as [t ph p|]; cbn [apply_op] in *.
  - pose proof (schedule_last t ph p s) as Hl. destruct (schedule t ph p s) as [s1 a].
    cbn [fst] in Hl. specialize (IH s1 Hops Hs). destruct (run ops s1). rewrite Hl in IH. exact IH.
  - pose proof (pop_correct s Hok) as Hp. destruct (pop s) as [s1 [[e|]|f]]; cbn [fst] in *.
    + specialize (IH s1 Hops Hs). destruct (run ops s1). cbn [snd fst] in *.
      destruct Hp as (_ & _ & Hlt & _ & Hl & _). rewrite Hl in IH. destruct IH as [IH1 IH2].
      cbn. split; [constructor; assumption |]. constructor; [exact Hlt |].
      eapply Forall_impl; [exact IH2 |]. cbn. intros k Hk.
      destruct (last_dispatched s); [eapply key_lt_trans; eassumption | exact I].
    + destruct Hp as [-> _]. specialize (IH s Hops Hok). destruct (run ops s). exact IH.
    + destruct Hp as [-> _]. specialize (IH s Hops Hok). destruct (run ops s). exact IH.
Qed.

(** ** The arrangement of the heap *)

(** The same scheduler up to the arrangement of its heap. *)
#[export] Instance scheduler_equiv : Equiv (Scheduler T) := fun s s' =>
  config s = config s' /\ last_dispatched s = last_dispatched s' /\
  dispatched_in_phase s = dispatched_in_phase s' /\ next_sequence s = next_sequence s' /\
  heap s ≡ₚ heap s'.

#[export] Instance scheduler_equivalence : Equivalence (≡@{Scheduler T}).
Proof.
  split.
  - intros s. split_and!; reflexivity.
  - intros s s' (? & ? & ? & ? & ?). split_and!; symmetry; assumption.
  - intros s1 s2 s3 (? & ? & ? & ? & ?) (? & ? & ? & ? & ?). split_and!; etransitivity; eassumption.
Qed.

#[export] Instance sched_ok_proper : Proper ((≡) ==> iff) (@sched_ok _ T).
Proof.
  assert (Hone : forall s s' : Scheduler T, s ≡ s' -> sched_ok s -> sched_ok s').
  { intros s s' (Hc & Hl & Hd & Hn & Hh). unfold sched_ok. rewrite Hc, Hl, Hd, Hn, Hh. auto. }
  intros s s' Heq. split; apply Hone; [exact Heq | symmetry; exact Heq].
Qed.

(** The least event of a heap with distinct keys does not depend on its arrangement. *)
Lemma heap_pop_proper (s s' : Scheduler T) :
  sched_ok s -> s ≡ s' ->
  match heap_pop (heap s), heap_pop (heap s') with
  | Some (e, r), Some (e', r') => e = e' /\ r ≡ₚ r'
  | None, None => True
  | _, _ => False
  end.
Proof.
  intros Hok Heq. pose proof Hok as Hok'. rewrite Heq in Hok'. pose proof Heq as (_ & _ & _ & _ & Hh).
  destruct (heap_pop (heap s)) as [[e r]|] eqn:E, (heap_pop (heap s')) as [[e' r']|] eqn:E'.
  - destruct (heap_keys_distinct s e r Hok E) as [Hp Hm].
    destruct (heap_keys_distinct s' e' r' Hok' E') as [Hp' Hm'].
    assert (Hperm : e :: r ≡ₚ e' :: r') by (rewrite <- Hp, <- Hp'; exact Hh).
    assert (e = e') as ->.
    { assert (He : e ∈ e' :: r') by (rewrite <- Hperm; left).
      assert (He' : e' ∈ e :: r) by (rewrite Hperm; left).
      apply elem_of_cons in He, He'. rewrite Forall_forall in Hm, Hm'.
      destruct He as [He|He]; [exact He |]. destruct He' as [He'|He']; [congruence |].
      exfalso. apply (key_lt_irrefl (key e)). eapply key_lt_trans; [apply Hm, He' | apply Hm', He]. }
    split; [reflexivity | exact (Permutation_cons_inv Hperm)].
  - apply heap_pop_None in E'. apply heap_pop_perm in E. rewrite E' , E in Hh.
    symmetry in Hh. apply Permutation_nil_cons in Hh. exact Hh.
  - apply heap_pop_None in E. apply heap_pop_perm in E'. rewrite E, E' in Hh.
    apply Permutation_nil_cons in Hh. exact Hh.
  - exact I.
Qed.

Lemma pop_proper (s s' : Scheduler T) :
  sched_ok s -> s ≡ s' -> snd (pop s) = snd (pop s') /\ fst (pop s) ≡ fst (pop s').
Proof.
  intros Hok Heq. pose proof (heap_pop_proper s s' Hok Heq) as Hp. unfold pop, peek_key.
  pose proof Heq as (Hc & Hl & Hd & Hn & Hh). rewrite <- Hc, <- Hl, <- Hd.
  destruct (heap_pop (heap s)) as [[e r]|], (heap_pop (heap s')) as [[e' r']|]; try contradiction; cbn.
  - destruct Hp as [<- Hr]. repeat case_goal; split; try reflexivity; try exact Heq.
    split_and!; cbn; auto.
  - split; [reflexivity | exact Heq].
Qed.

Lemma schedule_proper t ph p (s s' : Scheduler T) :
  s ≡ s' -> snd (schedule t ph p s) = snd (schedule t ph p s') /\
            fst (schedule t ph p s) ≡ fst (schedule t ph p s').
Proof.
  intros Heq. pose proof Heq as (Hc & Hl & Hd & Hn & Hh). unfold schedule, now, current_phase.
  rewrite <- Hc, <- Hl, <- Hd, <- Hn. repeat case_goal; split; try reflexivity; try exact Heq.
  all: split_and!; cbn; try reflexivity; rewrite Hh; reflexivity.
Qed.

Lemma run_proper ops : forall s s' : Scheduler T,
  Forall op_ok ops -> sched_ok s -> s ≡ s' ->
  snd (run ops s) = snd (run ops s') /\ fst (run ops s) ≡ fst (run ops s').
Proof.
  induction ops as [|op ops IH]; intros s s' Hops Hok Heq; [split; [reflexivity | exact Heq] |].
  apply Forall_cons in Hops as [Hop Hops]. pose proof (apply_op_ok op s Hop Hok) as Hs. cbn.
  assert (Hstep : snd (apply_op op s) = snd (apply_op op s') /\ fst (apply_op op s) ≡ fst (apply_op op s')).
  { destruct op as [t ph p|]; cbn.
    - destruct (schedule_proper t ph p s s' Heq) as [H1 H2].
      destruct (schedule t ph p s), (schedule t ph p s'). cbn in *. split; congruence || exact H2.
    - destruct (pop_proper s s' Hok Heq) as [H1 H2]. destruct (pop s), (pop s'). cbn in *.
      split; congruence || exact H2. }
  destruct (apply_op op s) as [s1 a], (apply_op op s') as [s1' a']. destruct Hstep as [Ha Hs1].
  cbn in Ha, Hs1, Hs. subst a'. destruct (IH s1 s1' Hops Hs Hs1) as [H1 H2].
  destruct (run ops s1), (run ops s1'). cbn in *. split; [congruence | exact H2].
Qed.
End runs.

(** * Snapshots *)

Section snapshots.
Context `{EventOrder} {T : Type}.

Lemma sort_by_key_sorted l :
  StronglySorted (fun a b : Event T => key_leb (key a) (key b) = true)
    (sort_by (fun a b => key_leb (key a) (key b)) l).
Proof.
  apply sort_by_sorted.
  - intros a b E. apply key_leb_spec. left. apply key_leb_false, E.
  - intros a b c. rewrite !key_leb_spec. intros [?| ->] [?| <-]; auto. left. eapply key_lt_trans; eassumption.
Qed.

Lemma duplicate_window_None q :
  StronglySorted (fun a b : Event T => (sequence (key a) <=? sequence (key b)) = true) q ->
  duplicate_window q = None <-> NoDup (sequence ∘ key <$> q).
Proof.
  induction 1 as [|a q Hq IH Ha]; [split; [constructor | reflexivity] |].
  destruct q as [|b q]; [split; [intros _; apply NoDup_singleton | reflexivity] |].
  cbn [duplicate_window fmap list_fmap]. rewrite NoDup_cons, <- IH. clear IH.
  destruct (Z.eqb_spec (sequence (key a)) (sequence (key b))) as [E|E].
  - split; [discriminate |]. intros [Hn _]. exfalso. apply Hn. cbn. rewrite E. left.
  - split; [|tauto]. intros Hd. split; [|exact Hd].
    apply Forall_cons in Ha as [Hab Ha]. apply StronglySorted_inv in Hq as [_ Hb].
    apply Z.leb_le in Hab. cbn. rewrite not_elem_of_cons. split; [exact E |].
    intros (x & Ex & Hx)%list_elem_of_fmap. rewrite Forall_forall in Hb.
    specialize (Hb x Hx). apply Z.leb_le in Hb. cbn in Ex. lia.
Qed.

Lemma bad_event_None last n q :
  bad_event last n q = None <->
  Forall (fun e : Event T => sequence (key e) < n /\ phase (key e) <> Phase_Observe /\
            match last with Some l => key_lt l (key e) | None => True end) q.
Proof.
  induction q as [|e q IH]; [split; [constructor | reflexivity] |].
  cbn [bad_event]. rewrite Forall_cons, <- IH. clear IH.
  destruct (Z.leb_spec n (sequence (key e))) as [|Hs]; [split; [discriminate | lia] |].
  case_bool_decide as Ho; [split; [discriminate | tauto] |].
  destruct last as [l|]; [|tauto]. destruct (key_leb (key e) l) eqn:El.
  - split; [discriminate |]. intros [(_ & _ & Hl) _]. exfalso. apply key_leb_spec in El.
    apply (key_lt_irrefl l). destruct El as [El| El]; [eapply key_lt_trans; eassumption | congruence].
  - apply key_leb_false in El. tauto.
Qed.

(** The snapshots [restore] takes. *)
Definition restorable (c : SchedulerConfig) (snap : SchedulerSnapshot T) : Prop :=
  match snap_last_dispatched snap with
  | None => snap_dispatched_in_phase snap = 0
  | Some _ => 1 <= snap_dispatched_in_phase snap <= max_events_per_phase c
  end /\
  NoDup (sequence ∘ key <$> snap_queue snap) /\
  Forall (fun e => sequence (key e) < snap_next_sequence snap /\ phase (key e) <> Phase_Observe /\
            match snap_last_dispatched snap with Some l => key_lt l (key e) | None => True end)
    (snap_queue snap).

Lemma restore_spec c snap :
  match restore c snap with
  | Ok s => restorable c snap /\
            s ≡ mkScheduler c (snap_last_dispatched snap) (snap_dispatched_in_phase snap)
                  (snap_next_sequence snap) (snap_queue snap)
  | Err _ => ~ restorable c snap
  end.
Proof.
  unfold restore. set (le := fun a b : Event T => sequence (key a) <=? sequence (key b)).
  assert (Hs : StronglySorted (fun a b => le a b = true) (sort_by le (snap_queue snap))).
  { apply sort_by_sorted; unfold le.
    - intros a b ?%Z.leb_gt. apply Z.leb_le. lia.
    - intros a b d ?%Z.leb_le ?%Z.leb_le. apply Z.leb_le. lia. }
  pose proof (sort_by_perm le (snap_queue snap)) as Hp.
  pose proof (duplicate_window_None _ Hs) as Hd.
  pose proof (bad_event_None (snap_last_dispatched snap) (snap_next_sequence snap)
                (sort_by le (snap_queue snap))) as Hb.
  assert (Hnd : NoDup (sequence ∘ key <$> sort_by le (snap_queue snap)) <->
                NoDup (sequence ∘ key <$> snap_queue snap)) by (rewrite Hp; reflexivity).
  rewrite Hnd in Hd. clear Hnd. rewrite (Forall_Permutation _ _ (fun e => reflexivity _) _ _ Hp) in Hb.
  destruct (negb _) eqn:Ec.
  { intros [Hk _]. destruct (snap_last_dispatched snap); lia. }
  destruct (duplicate_window _); [intros (_ & Hn & _); discriminate (proj2 Hd Hn) |].
  destruct (bad_event _ _ _); [intros (_ & _ & Hn); discriminate (proj2 Hb Hn) |].
  split; [|split_and!; reflexivity || exact Hp]. split_and!; [|apply Hd | apply Hb]; try reflexivity.
  destruct (snap_last_dispatched snap); lia.
Qed.

Lemma sched_ok_restorable (s : Scheduler T) : sched_ok s -> restorable (config s) (snapshot s).
Proof.
  intros (_ & _ & _ & Hnd & Hall & Hlast). unfold restorable. cbn.
  rewrite !(sort_by_perm _ (heap s)). split_and!; [|exact Hnd |].
  - destruct (last_dispatched s); [apply Hlast | exact Hlast].
  - eapply Forall_impl; [exact Hall |]. cbn. intros e (? & ? & ?). destruct (last_dispatched s); auto.
Qed.

Lemma snapshot_restores (s : Scheduler T) :
  sched_ok s -> exists s', restore (config s) (snapshot s) = Ok s' /\ s' ≡ s.
Proof.
  intros Hok. pose proof (restore_spec (config s) (snapshot s)) as Hr.
  destruct (restore _ _) as [s'|]; [|destruct (Hr (sched_ok_restorable s Hok))].
  exists s'. split; [reflexivity |]. destruct Hr as [_ ->]. split_and!; try reflexivity. apply sort_by_perm.
Qed.

(** Equal up to arrangement, equal snapshots. *)
Lemma snapshot_proper (s s' : Scheduler T) : sched_ok s -> s ≡ s' -> snapshot s = snapshot s'.
Proof.
  intros (_ & _ & _ & Hnd & _) (Hc & Hl & Hd & Hn & Hh). unfold snapshot. rewrite Hl, Hd, Hn. f_equal.
  eapply StronglySorted_unique_strong; [|apply sort_by_key_sorted.. |rewrite !sort_by_perm; exact Hh].
  cbn. intros x y. rewrite !sort_by_perm, <- Hh. intros Hx Hy Hxy Hyx.
  assert (key x = key y) as E.
  { apply key_leb_spec in Hxy as [Hxy|]; [|assumption]. apply key_leb_spec in Hyx as [Hyx|]; [|congruence].
    destruct (key_lt_irrefl (key x)). eapply key_lt_trans; eassumption. }
  apply list_elem_of_lookup in Hx as [i Hi]. apply list_elem_of_lookup in Hy as [j Hj].
  assert (i = j) as ->; [|congruence]. eapply (NoDup_lookup _ i j (sequence (key x)) Hnd);
    rewrite list_lookup_fmap; [rewrite Hi | rewrite Hj]; cbn; congruence.
Qed.
End snapshots.

(** * Exactly once *)

Section exactly_once.
Context `{EventOrder} {T : Type}.

(** The events a run accepted, with the keys it gave them. *)
Fixpoint accepted (ops : list (Op T)) (answers : list (Answer T)) : list (Event T) :=
  match ops, answers with
  | Op_Schedule _ _ p :: ops, Scheduled (Ok k) :: answers => mkEvent k p :: accepted ops answers
  | _ :: ops, _ :: answers => accepted ops answers
  | _, _ => []
  end.

Definition dispatched (answers : list (Answer T)) : list (Event T) :=
  omap (fun a => match a with Popped (Ok e) => e | _ => None end) answers.

Lemma schedule_heap t ph p (s : Scheduler T) :
  heap (fst (schedule t ph p s)) =
  match snd (schedule t ph p s) with Ok k => mkEvent k p :: heap s | Err _ => heap s end.
Proof.
  unfold schedule. destruct (bool_decide _); [reflexivity |]. destruct (t <? now s); [reflexivity |].
  destruct (_ && _); [reflexivity |]. destruct (checked_add _ _ _); reflexivity.
Qed.

Lemma run_conserves ops : forall s : Scheduler T,
  Forall op_ok ops -> sched_ok s ->
  heap s ++ accepted ops (snd (run ops s)) ≡ₚ dispatched (snd (run ops s)) ++ heap (fst (run ops s)).
Proof.
  induction ops as [|op ops IH]; intros s Hops Hok; [cbn; rewrite app_nil_r; reflexivity |].
  apply Forall_cons in Hops as [Hop Hops]. pose proof (apply_op_ok op s Hop Hok) as Hs.
  specialize (IH (fst (apply_op op s)) Hops Hs). clear Hs. cbn [run].
  destruct op as [t ph p|]; cbn [apply_op] in *.
  - pose proof (schedule_heap t ph p s) as Hh. destruct (schedule t ph p s) as [s1 r]. cbn [fst snd] in *.
    destruct (run ops s1). cbn [fst snd] in *. rewrite Hh in IH. destruct r as [k|]; cbn; [|exact IH].
    rewrite <- IH. cbn. symmetry. apply Permutation_middle.
  - pose proof (pop_correct s Hok) as Hp. destruct (pop s) as [s1 r]. cbn [fst snd] in *.
    destruct (run ops s1). cbn [fst snd] in *. destruct r as [[e|]|f]; cbn.
    + destruct Hp as (-> & _). cbn. rewrite IH. reflexivity.
    + destruct Hp as [-> _]. exact IH.
    + destruct Hp as [-> _]. exact IH.
Qed.

Lemma run_no_panic ops : forall s : Scheduler T,
  Forall op_ok ops -> sched_ok s ->
  Forall (fun a => forall what, a <> Popped (Err (Panics what))) (snd (run ops s)).
Proof.
  induction ops as [|op ops IH]; intros s Hops Hok; [constructor |].
  apply Forall_cons in Hops as [Hop Hops]. pose proof (apply_op_ok op s Hop Hok) as Hs.
  specialize (IH (fst (apply_op op s)) Hops Hs). cbn [run].
  destruct op as [t ph p|]; cbn [apply_op] in *.
  - destruct (schedule t ph p s) as [s1 r]. cbn [fst] in IH. destruct (run ops s1).
    constructor; [discriminate | exact IH].
  - pose proof (pop_no_panic s) as Hp. destruct (pop s) as [s1 r]. cbn [fst] in IH. destruct (run ops s1).
    constructor; [|exact IH]. intros what [= ->]. exact (Hp what Hok eq_refl).
Qed.
End exactly_once.

(** * Claims *)

Section claims.
Context `{EventOrder} {T : Type}.

(** Whatever events are scheduled and dispatched, in whatever order, the scheduler
    keeps its invariant (pending sequences are distinct and assigned, every pending event is
    after the last dispatched one and never in Observe, the S5 count is in range) and [pop]
    never panics: neither its count overflows nor is the peeked entry missing. *)
Theorem scheduler_invariant (c : SchedulerConfig) (ops : list (Op T)) :
  in_u 64 (max_events_per_phase c) -> Forall op_ok ops ->
  sched_ok (fst (run ops (new c))) /\
  Forall (fun a => forall what, a <> Popped (Err (Panics what))) (snd (run ops (new c))).
Proof. intros Hc Hops. split; [apply run_ok | apply run_no_panic]; auto using scheduler_new_ok. Qed.

(** C17: Dispatch is deterministic and causal: over any run from a new scheduler the keys
    dispatched are strictly increasing in (tick, phase, sequence), and the events accepted by
    [schedule] are, each exactly once, those dispatched and those still pending. *)
Theorem dispatch_order (c : SchedulerConfig) (ops : list (Op T)) :
  in_u 64 (max_events_per_phase c) -> Forall op_ok ops ->
  let '(s, answers) := run ops (new c) in
  StronglySorted key_lt (key <$> dispatched answers) /\
  accepted ops answers ≡ₚ dispatched answers ++ heap s.
Proof.
  intros Hc Hops. pose proof (proj1 (run_sorted ops (new c) Hops (scheduler_new_ok c Hc))) as Hs.
  pose proof (run_conserves ops (new c) Hops (scheduler_new_ok c Hc)) as Hp.
  destruct (run ops (new c)) as [s answers]. cbn in *. split; [|exact Hp].
  replace (key <$> dispatched answers) with (dispatched_keys answers); [exact Hs |].
  clear. unfold dispatched, dispatched_keys. induction answers as [|[r|[[e|]|f]] l IH]; cbn; congruence.
Qed.

(** [pop] removes the least pending event and moves the cursor to it, counting it
    within its (tick, phase); it answers [None] only when nothing is pending; and it refuses
    (S5), leaving the scheduler unchanged, exactly by reporting the least event's tick and
    phase when the limit of that phase is used up. *)
Theorem pop_least (s : Scheduler T) : sched_ok s -> pop_spec s (pop s).
Proof. apply pop_correct. Qed.

(** [schedule] accepts exactly the events rules S1, S2, S3 and S6 allow: not in
    Observe, at or after the current (tick, phase), with a sequence left.  An accepted event is
    after the cursor and, within its tick and phase, after every pending event (S4, FIFO).  A
    refused one leaves the scheduler unchanged. *)
Theorem schedule_rules (t : Z) (ph : Phase) (p : T) (s : Scheduler T) :
  sched_ok s ->
  ((exists k, snd (schedule t ph p s) = Ok k) <->
   ph <> Phase_Observe /\ next_sequence s + 1 < 2 ^ 64 /\
   (now s < t \/ now s = t /\ phase_rank (current_phase s) <= phase_rank ph)) /\
  match schedule t ph p s with
  | (s', Ok k) =>
      tick k = t /\ phase k = ph /\ heap s' = mkEvent k p :: heap s /\
      match last_dispatched s with Some l => key_lt l k | None => True end /\
      Forall (fun e => tick (key e) = t -> phase (key e) = ph -> key_lt (key e) k) (heap s)
  | (s', Err _) => s' = s
  end.
Proof.
  intros (_ & _ & _ & _ & Hall & Hlast). destruct (schedule_cases t ph p s) as [[Ha ->]|[Hn [e ->]]].
  2:{ split; [|reflexivity]. split; [intros [k [=]] | intros Ha; destruct (Hn Ha)]. }
  split; [split; [intros _; exact Ha | intros _; eexists; reflexivity] |]. cbn. split_and!; try reflexivity.
  - destruct Ha as (_ & _ & Ha). unfold now, current_phase in Ha.
    destruct (last_dispatched s) as [l|]; [|exact I]. apply key_lt_spec. cbn.
    destruct Ha as [?|[? Hp]]; [auto |]. right. split; [assumption |].
    apply Z.le_lteq in Hp as [?|E]; [auto |]. right. split; [apply phase_rank_inj, E | tauto].
  - eapply Forall_impl; [exact Hall |]. cbn. intros e (Hs & _) He1 He2. apply key_lt_spec. cbn. auto.
Qed.

(** The arrangement of the binary heap is not observable: two schedulers that differ
    only in it give the same answers to every sequence of operations, end in schedulers that
    again differ only in it, and have the same snapshot. *)
Theorem arrangement_unobservable (s s' : Scheduler T) (ops : list (Op T)) :
  Forall op_ok ops -> sched_ok s -> s ≡ s' ->
  snapshot s = snapshot s' /\
  snd (run ops s) = snd (run ops s') /\ fst (run ops s) ≡ fst (run ops s').
Proof. intros Hops Hok Heq. split; [apply snapshot_proper | apply run_proper]; assumption. Qed.

(** Snapshot then restore gives the scheduler back: [restore] accepts the snapshot of
    any valid scheduler, the result takes the same snapshot, and every later sequence of
    operations gets the same answers from it as from the original. *)
Theorem scheduler_snapshot_restore (s : Scheduler T) :
  sched_ok s ->
  exists s', restore (config s) (snapshot s) = Ok s' /\ snapshot s' = snapshot s /\
    forall ops, Forall op_ok ops -> snd (run ops s') = snd (run ops s).
Proof.
  intros Hok. destruct (snapshot_restores s Hok) as (s' & Hr & Heq). exists s'. split; [exact Hr |].
  assert (Hok' : sched_ok s') by (rewrite Heq; exact Hok). split; [apply snapshot_proper; assumption |].
  intros ops Hops. apply run_proper; assumption.
Qed.

(** [restore] accepts exactly the snapshots whose S5 count agrees with the cursor and
    the limit, and whose queue has distinct assigned sequences, no Observe event and nothing at
    or before the cursor; the scheduler it gives holds exactly the snapshot's contents, and
    satisfies the invariant when the snapshot's cursor was itself assigned a sequence. *)
Theorem scheduler_restore_exact (c : SchedulerConfig) (snap : SchedulerSnapshot T) :
  match restore c snap with
  | Ok s =>
      restorable c snap /\ snap_queue snap ≡ₚ heap s /\
      last_dispatched s = snap_last_dispatched snap /\
      dispatched_in_phase s = snap_dispatched_in_phase snap /\
      next_sequence s = snap_next_sequence snap /\
      (in_u 64 (max_events_per_phase c) -> in_u 64 (snap_next_sequence snap) ->
       snap_dispatched_in_phase snap + Z.of_nat (length (snap_queue snap)) <= snap_next_sequence snap ->
       Forall (fun e => 0 <= tick (key e)) (snap_queue snap) ->
       match snap_last_dispatched snap with
       | Some l => sequence l < snap_next_sequence snap /\ phase l <> Phase_Observe /\ 0 <= tick l
       | None => True
       end -> sched_ok s)
  | Err _ => ~ restorable c snap
  end.
Proof.
  pose proof (restore_spec c snap) as Hr. destruct (restore c snap) as [s|]; [|exact Hr].
  destruct Hr as [Hre Heq]. split; [exact Hre |]. pose proof Heq as (Hc & Hl & Hd & Hn & Hh). cbn in *.
  split_and!; try assumption; [symmetry; exact Hh |]. intros Hmax Hns Hcnt Ht Hcur. rewrite Heq.
  destruct Hre as (Hk & Hnd & Hall). unfold sched_ok. cbn. split_and!; try assumption.
  - rewrite Forall_forall in *. intros e He. specialize (Hall e He). specialize (Ht e He). cbn in Ht.
    destruct (snap_last_dispatched snap); tauto.
  - destruct (snap_last_dispatched snap); [tauto | exact Hk].
Qed.

(** C37: [restore] does not compare the cursor's sequence with [next_sequence], so it
    accepts snapshots no run could produce: with a cursor whose sequence was never assigned, the
    next event scheduled in the cursor's own (tick, phase), which rules S1 to S3 allow, gets a
    key before the cursor, and [restore] refuses the snapshot taken right after. *)
Theorem restore_accepts_stale_cursor (c : SchedulerConfig) (l : EventKey) (n : Z) (p : T) :
  phase l <> Phase_Observe -> in_u 64 n -> in_u 64 (sequence l) -> n < sequence l ->
  1 <= max_events_per_phase c ->
  exists s s' k,
    restore c (mkSchedulerSnapshot (Some l) 1 n ([] : list (Event T))) = Ok s /\
    schedule (tick l) (phase l) p s = (s', Ok k) /\ key_lt k l /\
    restore c (snapshot s') = Err (EventBeforeCursor k).
Proof.
  intros Hph Hn Hl Hlt Hmax. unfold in_u in *.
  exists (mkScheduler c (Some l) 1 n []),
    (mkScheduler c (Some l) 1 (n + 1) [mkEvent (mkEventKey (tick l) (phase l) n) p]),
    (mkEventKey (tick l) (phase l) n).
  assert (Hk : key_lt (mkEventKey (tick l) (phase l) n) l) by (apply key_lt_spec; cbn; auto).
  assert (Hc : (1 <=? max_events_per_phase c) = true) by (apply Z.leb_le; exact Hmax).
  unfold restore. cbn -[Z.add]. rewrite Hc. cbn -[Z.add]. split_and!; [reflexivity | | exact Hk |].
  - pose proof (schedule_cases (tick l) (phase l) p (mkScheduler c (Some l) 1 n [])) as [[_ ->]|[Ha _]];
      [reflexivity |]. destruct Ha. split_and!; cbn; [exact Hph | lia | right; split; [reflexivity | lia]].
  - rewrite (proj2 (Z.leb_gt (n + 1) n)) by lia. rewrite bool_decide_false by exact Hph.
    rewrite (proj2 (key_leb_spec _ _) (or_introl Hk)). reflexivity.
Qed.
End claims.

(** * Examples *)

Definition example_config : SchedulerConfig := mkSchedulerConfig 2.

Definition example_ops : list (Op Z) :=
  [Op_Schedule 5 Phase_Request 10; Op_Schedule 3 Phase_Commit 11; Op_Schedule 3 Phase_Request 12;
   Op_Pop; Op_Schedule 3 Phase_Request 13; Op_Schedule 2 Phase_Commit 14; Op_Pop; Op_Pop].

Lemma example_ops_ok : Forall op_ok example_ops.
Proof. repeat constructor; cbn; lia || exact I. Qed.

Lemma example_config_ok : in_u 64 (max_events_per_phase example_config).
Proof. cbn. unfold in_u. lia. Qed.

#[local] Existing Instance lexicographic_order.

Lemma scheduler_invariant_witness :
  sched_ok (fst (run example_ops (new example_config))) /\
  last_dispatched (fst (run example_ops (new example_config))) = Some (mkEventKey 3 Phase_Commit 1).
Proof.
  split; [|reflexivity].
  exact (proj1 (scheduler_invariant example_config example_ops example_config_ok example_ops_ok)).
Defined.

Lemma dispatch_order_witness :
  (payload <$> dispatched (snd (run example_ops (new example_config)))) = [12; 13; 11] /\
  StronglySorted key_lt (key <$> dispatched (snd (run example_ops (new example_config)))).
Proof.
  split; [reflexivity |].
  pose proof (dispatch_order example_config example_ops example_config_ok example_ops_ok) as Hd.
  destruct (run example_ops (new example_config)). exact (proj1 Hd).
Defined.

Definition example_state : Scheduler Z := fst (run (take 5 example_ops) (new example_config)).

Lemma example_state_ok : sched_ok example_state.
Proof. apply run_ok; [apply Forall_take, example_ops_ok | apply scheduler_new_ok, example_config_ok]. Qed.

Lemma pop_least_witness :
  pop_spec example_state (pop example_state) /\
  snd (pop example_state) = Ok (Some (mkEvent (mkEventKey 3 Phase_Request 3) 13)).
Proof. split; [exact (pop_least example_state example_state_ok) | reflexivity]. Defined.

Lemma schedule_rules_witness :
  ~ (exists k, snd (schedule 2 Phase_Commit 14 example_state) = Ok k) /\
  (exists k, snd (schedule 3 Phase_Commit 14 example_state) = Ok k).
Proof.
  split.
  - rewrite (proj1 (schedule_rules 2 Phase_Commit 14 example_state example_state_ok)).
    vm_compute. intros (_ & _ & [[=]|[[=] _]]).
  - apply (proj1 (schedule_rules 3 Phase_Commit 14 example_state example_state_ok)).
    split; [discriminate |]. split; [reflexivity |]. right. split; [reflexivity | vm_compute; discriminate].
Defined.

Lemma arrangement_unobservable_witness :
  let s' := mkScheduler (config example_state) (last_dispatched example_state)
    (dispatched_in_phase example_state) (next_sequence example_state) (reverse (heap example_state)) in
  heap s' <> heap example_state /\ snd (run example_ops example_state) = snd (run example_ops s').
Proof.
  split; [discriminate |]. apply arrangement_unobservable; [apply example_ops_ok | apply example_state_ok |].
  split_and!; try reflexivity. symmetry. apply reverse_Permutation.
Defined.

Lemma scheduler_snapshot_restore_witness :
  exists s', restore example_config (snapshot example_state) = Ok s' /\
    snd (run example_ops s') = snd (run example_ops example_state).
Proof.
  destruct (scheduler_snapshot_restore example_state example_state_ok) as (s' & Hr & _ & Hrun).
  exists s'. split; [exact Hr | apply Hrun, example_ops_ok].
Defined.

Lemma scheduler_restore_exact_witness :
  restorable example_config (snapshot example_state) /\
  ~ restorable example_config (mkSchedulerSnapshot (Some (mkEventKey 5 Phase_Request 9)) 3 12 ([] : list (Event Z))).
Proof.
  split.
  - exact (proj1 (scheduler_restore_exact example_config (snapshot example_state))).
  - exact (scheduler_restore_exact example_config
      (mkSchedulerSnapshot (Some (mkEventKey 5 Phase_Request 9)) 3 12 ([] : list (Event Z)))).
Defined.

Lemma restore_accepts_stale_cursor_witness :
  exists s s' k,
    restore example_config
      (mkSchedulerSnapshot (Some (mkEventKey 5 Phase_Request 9)) 1 3 ([] : list (Event Z))) = Ok s /\
    schedule 5 Phase_Request 1 s = (s', Ok k) /\ key_lt k (mkEventKey 5 Phase_Request 9) /\
    restore example_config (snapshot s') = Err (EventBeforeCursor k).
Proof.
  apply (restore_accepts_stale_cursor example_config (mkEventKey 5 Phase_Request 9) 3 1);
    cbn; try discriminate; unfold in_u; lia.
Defined.
