(* ===== verification/Trace.v ===== *)
(** Traces, [runtime/src/trace.rs]: the [runtime.dispatch] record of an event, the event such
    a record describes, and the check a trace prefix passes before a restored session
    continues it.

    [dispatched_event] is the exact inverse of [dispatch_record]; a prefix is accepted exactly
    when its dispatch records are a history with the given digest and last key, strictly
    increasing, and every other record stands behind the dispatch it belongs to. *)
From stdpp Require Import base numbers list option strings.
From Stdlib Require Import ZArith Lia.
From S2P Require Import Prelude Contracts Handlers Session Scheduler.

Local Open Scope string_scope.
Local Open Scope list_scope.
Local Open Scope Z_scope.

Abbreviation Fields := (list (string * Value)).

(** * Dispatch records *)

Definition v0_fields (mem : MemMsgV0) : Fields :=
  match mem with
  | V0_ReadReq t addr len =>
      [("msg", VStr "ReadReq"); ("txn", VU64 t); ("addr", VU64 addr); ("len", VU64 len)]
  | V0_ReadResp t data => [("msg", VStr "ReadResp"); ("txn", VU64 t); ("data", VBytes data)]
  | V0_WriteReq t addr data =>
      [("msg", VStr "WriteReq"); ("txn", VU64 t); ("addr", VU64 addr); ("data", VBytes data)]
  | V0_WriteResp t => [("msg", VStr "WriteResp"); ("txn", VU64 t)]
  end.

Definition fault_field (f : MemFault) : string * Value :=
  match f with AccessFault => ("fault", VStr "AccessFault") end.

Definition mem_v1_fields (msg : MemMsg) : Fields :=
  match msg with
  | ReadReq txn addr len =>
      [("msg", VStr "ReadReq"); ("txn", VU64 txn); ("addr", VU64 addr); ("len", VU64 len)]
  | ReadResp txn outcome =>
      [("msg", VStr "ReadResp"); ("txn", VU64 txn)] ++
      match outcome with
      | ReadOutcome_Data data => [("outcome", VStr "Data"); ("data", VBytes data)]
      | ReadOutcome_Fault f => [("outcome", VStr "Fault"); fault_field f]
      end
  | WriteReq txn addr data =>
      [("msg", VStr "WriteReq"); ("txn", VU64 txn); ("addr", VU64 addr); ("data", VBytes data)]
  | WriteResp txn outcome =>
      [("msg", VStr "WriteResp"); ("txn", VU64 txn)] ++
      match outcome with
      | WriteOutcome_Done => [("outcome", VStr "Done")]
      | WriteOutcome_Fault f => [("outcome", VStr "Fault"); fault_field f]
      end
  end.

Definition irq_v0_fields (msg : IrqMsg) : Fields :=
  match msg with
  | IrqMsg_Level asserted => [("msg", VStr "Level"); ("asserted", VBool asserted)]
  end.

Definition error_field (e : MediaError) : string * Value :=
  ("error", VStr match e with OutOfRange => "OutOfRange" | BadBlock => "BadBlock" end).

Definition block_v0_fields (msg : BlockMsg) : Fields :=
  match msg with
  | ReadBlock txn lba => [("msg", VStr "ReadBlock"); ("txn", VU64 txn); ("lba", VU64 lba)]
  | WriteBlock txn lba data =>
      [("msg", VStr "WriteBlock"); ("txn", VU64 txn); ("lba", VU64 lba); ("data", VBytes data)]
  | ReadResult txn outcome =>
      [("msg", VStr "ReadResult"); ("txn", VU64 txn)] ++
      match outcome with
      | BlockRead_Data data => [("outcome", VStr "Data"); ("data", VBytes data)]
      | BlockRead_Error e => [("outcome", VStr "Error"); error_field e]
      end
  | WriteResult txn outcome =>
      [("msg", VStr "WriteResult"); ("txn", VU64 txn)] ++
      match outcome with
      | BlockWrite_Done => [("outcome", VStr "Done")]
      | BlockWrite_Error e => [("outcome", VStr "Error"); error_field e]
      end
  end.

Definition message_fields (msg : Message) : Fields :=
  match msg with
  | Message_Mem mem => v0_fields mem
  | Message_MemV1 mem => mem_v1_fields mem
  | Message_Irq irq => irq_v0_fields irq
  | Message_Block block => block_v0_fields block
  end.

Section records.
Context `{Protocols}.

Definition dispatch_record (at_ : TraceAt) (source target : Z) (delivery : Delivered) : TraceRecord :=
  let fields :=
    match delivery with
    | Delivered_Message port msg =>
        [("port", VU64 port); ("protocol", VStr (protocol_name (protocol msg)));
         ("version", VU64 (protocol_version (protocol msg)))] ++ message_fields msg
    | Delivered_Wake token => [("token", VU64 token)]
    end in
  mkTraceRecord at_ Origin_Runtime target DISPATCH_KIND (("source", VU64 source) :: fields).

(** * The event of a record *)

(** [u32::try_from] and the like. *)
Definition try_from (w v : Z) : option Z := if (0 <=? v) && (v <? 2 ^ w) then Some v else None.

Definition get (fs : Fields) (i : nat) (name : string) : option Value :=
  match fs !! i with
  | Some (n, v) => if (n =? name)%string then Some v else None
  | None => None
  end.

Definition int (fs : Fields) (i : nat) (name : string) : option Z :=
  match get fs i name with Some (VU64 v) => Some v | _ => None end.

Definition bytes (fs : Fields) (i : nat) (name : string) : option (list Z) :=
  match get fs i name with Some (VBytes v) => Some v | _ => None end.

Definition str_at (fs : Fields) (i : nat) (name : string) : option string :=
  match get fs i name with Some (VStr v) => Some v | _ => None end.

Definition irq_of (fs : Fields) (msg : string) : option Message :=
  v ← get fs 5 "asserted";
  match v with
  | VBool asserted =>
      if (msg =? "Level")%string then Some (Message_Irq (IrqMsg_Level asserted)) else None
  | _ => None
  end.

Definition media_error (fs : Fields) : option MediaError :=
  e ← str_at fs 7 "error";
  if (e =? "OutOfRange")%string then Some OutOfRange
  else if (e =? "BadBlock")%string then Some BadBlock else None.

Definition block_of (fs : Fields) (msg : string) : option Message :=
  txn ← int fs 5 "txn";
  Message_Block <$>
  (if (msg =? "ReadBlock")%string then lba ← int fs 6 "lba"; Some (ReadBlock txn lba)
   else if (msg =? "WriteBlock")%string then
     lba ← int fs 6 "lba"; data ← bytes fs 7 "data"; Some (WriteBlock txn lba data)
   else if (msg =? "ReadResult")%string then
     outcome ← str_at fs 6 "outcome";
     (if (outcome =? "Data")%string then
        data ← bytes fs 7 "data"; Some (ReadResult txn (BlockRead_Data data))
      else if (outcome =? "Error")%string then
        e ← media_error fs; Some (ReadResult txn (BlockRead_Error e))
      else None)
   else if (msg =? "WriteResult")%string then
     outcome ← str_at fs 6 "outcome";
     (if (outcome =? "Done")%string then Some (WriteResult txn BlockWrite_Done)
      else if (outcome =? "Error")%string then
        e ← media_error fs; Some (WriteResult txn (BlockWrite_Error e))
      else None)
   else None).

Definition mem_v0_of (fs : Fields) (txn : Z) (msg : string) : option Message :=
  Message_Mem <$>
  (if (msg =? "ReadReq")%string then
     addr ← int fs 6 "addr"; len ← int fs 7 "len"; len ← try_from 32 len;
     Some (V0_ReadReq txn addr len)
   else if (msg =? "ReadResp")%string then data ← bytes fs 6 "data"; Some (V0_ReadResp txn data)
   else if (msg =? "WriteReq")%string then
     addr ← int fs 6 "addr"; data ← bytes fs 7 "data"; Some (V0_WriteReq txn addr data)
   else if (msg =? "WriteResp")%string then Some (V0_WriteResp txn)
   else None).

Definition mem_fault (fs : Fields) : option MemFault :=
  f ← str_at fs 7 "fault";
  if (f =? "AccessFault")%string then Some AccessFault else None.

Definition mem_v1_of (fs : Fields) (txn : Z) (msg : string) : option Message :=
  Message_MemV1 <$>
  (if (msg =? "ReadReq")%string then
     addr ← int fs 6 "addr"; len ← int fs 7 "len"; len ← try_from 32 len;
     Some (ReadReq txn addr len)
   else if (msg =? "ReadResp")%string then
     outcome ← str_at fs 6 "outcome";
     (if (outcome =? "Data")%string then
        data ← bytes fs 7 "data"; Some (ReadResp txn (ReadOutcome_Data data))
      else if (outcome =? "Fault")%string then
        f ← mem_fault fs; Some (ReadResp txn (ReadOutcome_Fault f))
      else None)
   else if (msg =? "WriteReq")%string then
     addr ← int fs 6 "addr"; data ← bytes fs 7 "data"; Some (WriteReq txn addr data)
   else if (msg =? "WriteResp")%string then
     outcome ← str_at fs 6 "outcome";
     (if (outcome =? "Done")%string then Some (WriteResp txn WriteOutcome_Done)
      else if (outcome =? "Fault")%string then
        f ← mem_fault fs; Some (WriteResp txn (WriteOutcome_Fault f))
      else None)
   else None).

(** The part of [dispatched_event] that reads a message. *)
Definition message_of (fs : Fields) : option Message :=
  msg ← str_at fs 4 "msg";
  name ← str_at fs 2 "protocol";
  version ← int fs 3 "version";
  let is_ p := ((name =? protocol_name p)%string && (version =? protocol_version p)) in
  if is_ irq_v0_PROTOCOL then irq_of fs msg
  else if is_ block_v0_PROTOCOL then block_of fs msg
  else
    txn ← int fs 5 "txn";
    if version =? 0 then mem_v0_of fs txn msg
    else if version =? 1 then mem_v1_of fs txn msg
    else None.

Definition dispatched_event (r : TraceRecord) : option CanonicalEvent :=
  match rec_at r with
  | At_Init => None
  | At_Event key =>
      if negb (bool_decide (rec_origin r = Origin_Runtime)) || negb (rec_kind r =? DISPATCH_KIND)%string
      then None
      else
        let fs := rec_fields r in
        source ← int fs 0 "source"; source ← try_from 32 source;
        delivery ←
          (if (length fs =? 2)%nat && bool_decide (is_Some (get fs 1 "token")) then
             token ← int fs 1 "token"; Some (Delivered_Wake token)
           else
             port ← int fs 1 "port"; port ← try_from 16 port;
             msg ← message_of fs;
             Some (Delivered_Message port msg));
        if bool_decide (dispatch_record (rec_at r) source (rec_component r) delivery = r)
        then Some (mkCanonicalEvent key source (rec_component r) delivery) else None
  end.
End records.

(** * Prefixes *)

Inductive ResumeError : Set :=
| NotFreshlyRestored
| HeaderMismatch
| MalformedRecord (index : nat)
| HistoryMismatch.

Section prefixes.
Context `{SnapshotCodec, !Canonical, Protocols, Blake3, EventOrder}.

(** [H(digest ‖ canonical(ev))]. *)
Definition chain (digest : list Z) (ev : CanonicalEvent) : list Z := hash (digest ++ put_event ev).

Definition ZERO_DIGEST : list Z := replicate 32 0.

(** The loop of [check_prefix]: [replayed] and [current] after the records before [index]. *)
Fixpoint check_records (records : list TraceRecord) (index components : nat) (replayed : list Z)
    (current : option EventKey) : result ResumeError (list Z * option EventKey) :=
  match records with
  | [] => Ok (replayed, current)
  | r :: records =>
      let malformed := MalformedRecord index in
      if (components <=? Z.to_nat (rec_component r))%nat then Err malformed
      else
        match rec_origin r with
        | Origin_Runtime =>
            ev ← ok_or (dispatched_event r) malformed;
            if match current with Some k => key_leb (ev_key ev) k | None => false end then Err malformed
            else check_records records (S index) components (chain replayed ev) (Some (ev_key ev))
        | Origin_Component =>
            let in_place :=
              match rec_at r, current with
              | At_Init, None => true
              | At_Event k, Some c => bool_decide (k = c)
              | _, _ => false
              end in
            if in_place then check_records records (S index) components replayed current
            else Err malformed
        end
  end.

Definition check_prefix (records : list TraceRecord) (components : nat) (last : option EventKey)
    (digest : list Z) : result ResumeError unit :=
  '(replayed, current) ← check_records records 0 components ZERO_DIGEST None;
  if negb (bool_decide (current = last)) || negb (bool_decide (replayed = digest))
  then Err HistoryMismatch else Ok tt.
End prefixes.

(** * Records and their events *)

Section exact.
Context `{Protocols}.

(** The length of a read request is a [u32]. *)
Definition length_ok (msg : Message) : Prop :=
  match msg with
  | Message_Mem (V0_ReadReq _ _ len) | Message_MemV1 (ReadReq _ _ len) => in_u 32 len
  | _ => True
  end.

(** What a record holds in less than a [u64]. *)
Definition record_ok (ev : CanonicalEvent) : Prop :=
  in_u 32 (ev_source ev) /\
  match ev_delivery ev with
  | Delivered_Message port msg =>
      in_u 16 port /\ length_ok msg
  | Delivered_Wake _ => True
  end.

Lemma event_record_ok ev : event_ok ev -> record_ok ev.
Proof.
  intros (_ & Hs & _ & Hd). split; [exact Hs |]. destruct (ev_delivery ev) as [port msg|]; [|exact I].
  destruct Hd as [Hp Hm]. split; [exact Hp |]. destruct msg as [[]|[]| |]; cbn in Hm |- *; tauto.
Qed.

Definition record_of (ev : CanonicalEvent) : TraceRecord :=
  dispatch_record (At_Event (ev_key ev)) (ev_source ev) (ev_target ev) (ev_delivery ev).

Lemma try_from_Some w v x : try_from w v = Some x <-> v = x /\ in_u w x.
Proof.
  unfold try_from, in_u. destruct (Z.leb_spec 0 v), (Z.ltb_spec v (2 ^ w)); cbn; split;
    try discriminate; try (intros [= ->]; lia); intros [-> ?]; congruence || lia.
Qed.

Lemma message_of_fields (s p : string * Value) msg :
  length_ok msg ->
  message_of (s :: p :: ("protocol", VStr (protocol_name (protocol msg)))
              :: ("version", VU64 (protocol_version (protocol msg))) :: message_fields msg) = Some msg.
Proof.
  intros Hm. assert (Ht : forall len, in_u 32 len -> try_from 32 len = Some len) by (intros; apply try_from_Some; auto).
  destruct msg as [m|m|m|m]; rewrite ?protocol_mem_v0, ?protocol_mem_v1, ?protocol_irq, ?protocol_block;
    [destruct m | destruct m as [|? [|[]]| |? [|[]]] | destruct m | destruct m as [| |? [|[]]|? [|[]]]];
    cbn -[try_from]; rewrite ?(Ht _ Hm); reflexivity.
Qed.

Ltac open_message :=
  repeat match goal with
  | H : ?o ≫= _ = Some _ |- _ => apply bind_Some in H as (? & ? & H)
  | H : _ <$> _ = Some _ |- _ => apply fmap_Some in H as (? & H & ->)
  | H : (if ?b then _ else _) = Some _ |- _ => destruct b
  | H : Some _ = Some _ |- _ => injection H as <-
  | H : None = Some _ |- _ => discriminate H
  end.

(** A length read back is a [u32]. *)
Lemma message_of_len fs msg : message_of fs = Some msg -> length_ok msg.
Proof.
  unfold message_of. intros E. open_message.
  - unfold irq_of in E. open_message. destruct x2; [discriminate ..| | |]; open_message; exact I || discriminate.
  - unfold block_of in E. open_message; exact I.
  - unfold mem_v0_of in E. open_message; try exact I. eapply try_from_Some; eassumption.
  - unfold mem_v1_of in E. open_message; try exact I. eapply try_from_Some; eassumption.
Qed.

Lemma int_at (fs : Fields) i name v : fs !! i = Some (name, VU64 v) -> int fs i name = Some v.
Proof. unfold int, get. intros ->. rewrite String.eqb_refl. reflexivity. Qed.

(** The delivery a record holds, read back. *)
Lemma dispatched_event_delivery k source target delivery :
  record_ok (mkCanonicalEvent k source target delivery) ->
  let fs := rec_fields (dispatch_record (At_Event k) source target delivery) in
  (if (length fs =? 2)%nat && bool_decide (is_Some (get fs 1 "token")) then
     token ← int fs 1 "token"; Some (Delivered_Wake token)
   else
     port ← int fs 1 "port"; port ← try_from 16 port;
     msg ← message_of fs; Some (Delivered_Message port msg)) = Some delivery.
Proof.
  intros [_ Hd]. cbn [ev_delivery] in Hd. destruct delivery as [port msg|token]; cbn [dispatch_record rec_fields app].
  - destruct Hd as [Hp Hm]. cbn zeta. rewrite (int_at _ 1 "port" port) by reflexivity. cbn [length Nat.eqb andb].
    change (Some port ≫= ?f) with (f port). cbn beta.
    rewrite (proj2 (try_from_Some 16 port port) (conj eq_refl Hp)). change (Some port ≫= ?f) with (f port). cbn beta.
    rewrite message_of_fields by exact Hm. reflexivity.
  - cbn zeta. rewrite (int_at _ 1 "token" token) by reflexivity. cbn [length Nat.eqb andb].
    rewrite bool_decide_true by (eexists; reflexivity). reflexivity.
Qed.

Lemma dispatched_event_record ev : record_ok ev -> dispatched_event (record_of ev) = Some ev.
Proof.
  destruct ev as [k source target delivery]. intros Hok.
  pose proof (dispatched_event_delivery k source target delivery Hok) as Hd. destruct Hok as [Hs _]. cbn [ev_source] in Hs.
  unfold dispatched_event, record_of. cbn [ev_key ev_source ev_target ev_delivery].
  set (r := dispatch_record _ _ _ _) in *. change (rec_at r) with (At_Event k). cbn iota.
  change (rec_kind r =? DISPATCH_KIND)%string with true. change (rec_component r) with target.
  change (rec_origin r) with Origin_Runtime. rewrite bool_decide_true by reflexivity. cbn [negb orb].
  rewrite (int_at (rec_fields r) 0 "source" source eq_refl). change (Some source ≫= ?f) with (f source). cbn beta.
  rewrite (proj2 (try_from_Some 32 source source) (conj eq_refl Hs)). change (Some source ≫= ?f) with (f source). cbn beta.
  cbn zeta in Hd. rewrite Hd. change (Some delivery ≫= ?f) with (f delivery). cbn beta.
  rewrite bool_decide_true by reflexivity. reflexivity.
Qed.

(** A [runtime.dispatch] record describes at most one event, and exactly the events it can
    be written for: the record is that event's, byte for byte, and nothing else parses. *)
Theorem dispatched_event_exact (r : TraceRecord) (ev : CanonicalEvent) :
  dispatched_event r = Some ev <-> r = record_of ev /\ record_ok ev.
Proof.
  split; [|intros [-> Hok]; apply dispatched_event_record, Hok].
  intros E. revert E. unfold dispatched_event. destruct (rec_at r) as [|k] eqn:Eat; [discriminate |].
  destruct (negb _ || negb _); [discriminate |].
  intros (src & _ & E)%bind_Some. apply bind_Some in E as (src' & Hs & E).
  apply try_from_Some in Hs as [-> Hs]. apply bind_Some in E as (delivery & Hd & E).
  case_bool_decide as Hr; [|discriminate]. injection E as <-. split; [symmetry; exact Hr |].
  split; [exact Hs |]. cbn [ev_delivery].
  destruct (_ && _); [apply bind_Some in Hd as (token & _ & [= <-]); exact I |].
  apply bind_Some in Hd as (p & _ & Hd). apply bind_Some in Hd as (p' & Hp & Hd).
  apply bind_Some in Hd as (msg & Hm & [= <-]). apply try_from_Some in Hp as [-> Hp]. split; [exact Hp |].
  eapply message_of_len, Hm.
Qed.
End exact.
