(* ===== verification/Rng.v ===== *)
(** Per-component random streams, [runtime/src/rng.rs].

    xoshiro256** on a state of four [u64] words, and the seed derivation.  [blake3::derive_key]
    is a parameter of the derivation.  Proved: a state is never all zero, the state update is
    a bijection (so no stream falls into a shorter tail), the seed material determines the
    seed and the path, a restored generator continues the stream. *)
From stdpp Require Import base numbers list option strings.
From Stdlib Require Import ZArith Lia Ascii.
From S2P Require Import Prelude.

Local Open Scope list_scope.
Local Open Scope Z_scope.

Definition SEED_CONTEXT : string := "SystemScope 2026-09 SimRng v1".

(** [str::as_bytes] of a string whose characters are its UTF-8 bytes. *)
Fixpoint as_bytes (s : string) : list Z :=
  match s with
  | EmptyString => []
  | String a s => Z.of_nat (nat_of_ascii a) :: as_bytes s
  end.

(** [None] is the panic of [expect]. *)
Definition seed_material (session_seed : Z) (component_path : string) : option (list Z) :=
  let path := as_bytes component_path in
  if Z.of_nat (length path) <? 2 ^ 32 then
    Some (to_le 8 session_seed ++ to_le 4 (Z.of_nat (length path)) ++ path)
  else None.

(** [u64] operators. *)
Definition wrapping_mul (a b : Z) : Z := wrap 64 (a * b).
Definition shl64 (x n : Z) : Z := wrap 64 (Z.shiftl x n).
Definition rotate_left (x n : Z) : Z := Z.lor (shl64 x n) (Z.shiftr x (64 - n)).

(** The state [s: [u64; 4]]. *)
Definition Words : Set := (Z * Z * Z * Z)%type.

Record Xoshiro256StarStar : Set := mkXoshiro { s : Words }.

Definition zero_words : Words := (0, 0, 0, 0).

(** The [i]-th of the 8-byte chunks of the seed, [u64::from_le_bytes]. *)
Definition seed_word (seed : list Z) (i : nat) : Z := from_le (take 8 (drop (8 * i) seed)).

Definition from_seed_bytes (seed : list Z) : Xoshiro256StarStar :=
  let words := (seed_word seed 0, seed_word seed 1, seed_word seed 2, seed_word seed 3) in
  mkXoshiro (if decide (words = zero_words) then (1, 0, 0, 0) else words).

Definition for_component (derive_key : string -> list Z -> list Z)
    (session_seed : Z) (component_path : string) : option Xoshiro256StarStar :=
  material ← seed_material session_seed component_path;
  Some (from_seed_bytes (derive_key SEED_CONTEXT material)).

Definition state (g : Xoshiro256StarStar) : Words := s g.

Definition from_state (s : Words) : option Xoshiro256StarStar :=
  if decide (s = zero_words) then None else Some (mkXoshiro s).

Definition next_u64 (g : Xoshiro256StarStar) : Xoshiro256StarStar * Z :=
  let '(s0, s1, s2, s3) := s g in
  let result := wrapping_mul (rotate_left (wrapping_mul s1 5) 7) 9 in
  let t := shl64 s1 17 in
  let s2 := Z.lxor s2 s0 in
  let s3 := Z.lxor s3 s1 in
  let s1 := Z.lxor s1 s2 in
  let s0 := Z.lxor s0 s3 in
  let s2 := Z.lxor s2 t in
  let s3 := rotate_left s3 45 in
  (mkXoshiro (s0, s1, s2, s3), result).

(** The first [n] draws. *)
Fixpoint stream (n : nat) (g : Xoshiro256StarStar) : list Z :=
  match n with
  | O => []
  | S n => let '(g, x) := next_u64 g in x :: stream n g
  end.

(** The state after [n] draws. *)
Fixpoint advance (n : nat) (g : Xoshiro256StarStar) : Xoshiro256StarStar :=
  match n with
  | O => g
  | S n => advance n (fst (next_u64 g))
  end.

(** * Invariant *)

Definition words_ok (w : Words) : Prop :=
  let '(a, b, c, d) := w in in_u 64 a /\ in_u 64 b /\ in_u 64 c /\ in_u 64 d.

Definition rng_ok (g : Xoshiro256StarStar) : Prop := words_ok (s g) /\ s g <> zero_words.

(** ** Bits of the operators *)

Lemma shl64_in_u x n : in_u 64 (shl64 x n).
Proof. apply wrap_in_u. lia. Qed.

Lemma shl64_spec x n i : 0 <= n -> i < 64 -> Z.testbit (shl64 x n) i = Z.testbit x (i - n).
Proof.
  intros Hn Hi. destruct (Z.lt_ge_cases i 0); [rewrite !Z.testbit_neg_r by lia; reflexivity |].
  unfold shl64, wrap. rewrite Z.mod_pow2_bits_low by lia. apply Z.shiftl_spec. lia.
Qed.

Lemma rotate_left_in_u x n : 0 <= n <= 64 -> in_u 64 x -> in_u 64 (rotate_left x n).
Proof. intros Hn Hx. apply lor_in_u; [lia | apply shl64_in_u | apply shiftr_in_u_same; (lia || exact Hx)]. Qed.

Lemma rotate_left_spec x n i :
  0 < n < 64 -> in_u 64 x -> 0 <= i < 64 ->
  Z.testbit (rotate_left x n) i = Z.testbit x (if i <? n then i + (64 - n) else i - n).
Proof.
  intros Hn Hx Hi. unfold rotate_left. rewrite Z.lor_spec, shl64_spec, Z.shiftr_spec by lia.
  destruct (Z.ltb_spec i n).
  - rewrite Z.testbit_neg_r by lia. reflexivity.
  - rewrite (testbit_in_u 64 x (i + (64 - n))) by (lia || exact Hx). apply orb_false_r.
Qed.

(** Rotating by 45, then by 19, is the identity. *)
Lemma rotate_left_inv x : in_u 64 x -> rotate_left (rotate_left x 45) 19 = x.
Proof.
  intros Hx. assert (Hr : in_u 64 (rotate_left x 45)) by (apply rotate_left_in_u; (lia || exact Hx)).
  by_bit 64 i; [apply rotate_left_in_u; (lia || exact Hr) | exact Hx |].
  rewrite rotate_left_spec by (lia || assumption).
  destruct (Z.ltb_spec i 19); rewrite rotate_left_spec by (lia || assumption);
    [destruct (Z.ltb_spec (i + (64 - 19)) 45) | destruct (Z.ltb_spec (i - 19) 45)]; try lia; f_equal; lia.
Qed.

(** The inverse of [x ^ (x << 17)]. *)
Definition unxorshift17 (y : Z) : Z :=
  Z.lxor (Z.lxor y (shl64 y 17)) (Z.lxor (shl64 y 34) (shl64 y 51)).

Lemma unxorshift17_inv x : in_u 64 x -> unxorshift17 (Z.lxor x (shl64 x 17)) = x.
Proof.
  intros Hx. pose proof (shl64_in_u x 17). by_bit 64 i; [|exact Hx |].
  { unfold unxorshift17. auto 8 using lxor_in_u, shl64_in_u with lia. }
  unfold unxorshift17. rewrite !Z.lxor_spec, !shl64_spec, !Z.lxor_spec, !shl64_spec by lia.
  replace (i - 17 - 17) with (i - 34) by lia. replace (i - 34 - 17) with (i - 51) by lia.
  rewrite (Z.testbit_neg_r x (i - 51 - 17)) by lia.
  destruct (Z.testbit x i), (Z.testbit x (i - 17)), (Z.testbit x (i - 34)), (Z.testbit x (i - 51)); reflexivity.
Qed.

(** The state before a draw. *)
Definition previous (w : Words) : Words :=
  let '(a, b, c, d) := w in
  let s3 := rotate_left d 19 in
  let s0 := Z.lxor a s3 in
  let s1 := unxorshift17 (Z.lxor b c) in
  let s2 := Z.lxor b s1 in
  (s0, s1, Z.lxor s2 s0, Z.lxor s3 s1).

Lemma lxor_cancel a b : Z.lxor (Z.lxor a b) b = a.
Proof. rewrite Z.lxor_assoc, Z.lxor_nilpotent. apply Z.lxor_0_r. Qed.

Lemma previous_next g : words_ok (s g) -> previous (s (fst (next_u64 g))) = s g.
Proof.
  unfold next_u64, words_ok. destruct (s g) as [[[a b] c] d] eqn:E. intros (Ha & Hb & Hc & Hd).
  cbn [fst s previous]. rewrite rotate_left_inv by (apply lxor_in_u; lia || assumption).
  replace (Z.lxor (Z.lxor b (Z.lxor c a)) (Z.lxor (Z.lxor c a) (shl64 b 17))) with (Z.lxor b (shl64 b 17)).
  - rewrite unxorshift17_inv by exact Hb.
    rewrite (Z.lxor_comm b (Z.lxor c a)), !lxor_cancel. reflexivity.
  - rewrite Z.lxor_assoc, <- (Z.lxor_assoc (Z.lxor c a) (Z.lxor c a)), Z.lxor_nilpotent, Z.lxor_0_l. reflexivity.
Qed.

Lemma next_u64_words g : words_ok (s g) -> words_ok (s (fst (next_u64 g))) /\ in_u 64 (snd (next_u64 g)).
Proof.
  unfold next_u64, words_ok. destruct (s g) as [[[a b] c] d] eqn:E. intros (Ha & Hb & Hc & Hd).
  cbn. assert (Hx : forall x y, in_u 64 x -> in_u 64 y -> in_u 64 (Z.lxor x y)) by (intros; apply lxor_in_u; lia || assumption).
  split; [|apply wrap_in_u; lia].
  split_and!; [auto.. |]; [auto using shl64_in_u |]. apply rotate_left_in_u; [lia | auto].
Qed.

Lemma next_u64_ok g : rng_ok g -> rng_ok (fst (next_u64 g)) /\ in_u 64 (snd (next_u64 g)).
Proof.
  intros [Hw Hnz]. destruct (next_u64_words g Hw) as [Hw' Hx]. split; [|exact Hx]. split; [exact Hw' |].
  intros Hz. apply Hnz. rewrite <- (previous_next g Hw), Hz. reflexivity.
Qed.

Lemma from_seed_bytes_ok seed : bytes_ok seed -> rng_ok (from_seed_bytes seed).
Proof.
  intros Hs. assert (Hw : forall i, in_u 64 (seed_word seed i)).
  { intros i. unfold seed_word. assert (Hb : bytes_ok (take 8 (drop (8 * i) seed))) by (apply Forall_take, Forall_drop, Hs).
    eapply in_u_mono; [|apply from_le_in_u, Hb]. rewrite length_take. lia. }
  unfold from_seed_bytes. split; cbn [s]; case_decide as Hd.
  - cbn. unfold in_u. lia.
  - split_and!; apply Hw.
  - discriminate.
  - exact Hd.
Qed.

Lemma as_bytes_ok p : bytes_ok (as_bytes p).
Proof.
  induction p as [|a p IH]; cbn; constructor; [|exact IH].
  pose proof (nat_ascii_bounded a). unfold in_u. lia.
Qed.

Lemma as_bytes_inj p q : as_bytes p = as_bytes q -> p = q.
Proof.
  revert q. induction p as [|a p IH]; intros [|b q]; cbn; try discriminate; [reflexivity |].
  intros [= Hab Hpq]. rewrite (IH q Hpq). f_equal.
  rewrite <- (ascii_nat_embedding a), <- (ascii_nat_embedding b). f_equal. lia.
Qed.

Lemma advance_ok n : forall g, rng_ok g -> rng_ok (advance n g).
Proof. induction n as [|n IH]; intros g Hg; [exact Hg |]. apply IH, next_u64_ok, Hg. Qed.

Lemma advance_S n : forall g, advance (S n) g = fst (next_u64 (advance n g)).
Proof. induction n as [|n IH]; intros g; [reflexivity |]. exact (IH (fst (next_u64 g))). Qed.

Lemma rng_eq g h : s g = s h -> g = h.
Proof. destruct g, h. cbn. congruence. Qed.

Lemma next_u64_inj g h : words_ok (s g) -> words_ok (s h) -> fst (next_u64 g) = fst (next_u64 h) -> g = h.
Proof. intros Hg Hh E. apply rng_eq. rewrite <- (previous_next g Hg), <- (previous_next h Hh), E. reflexivity. Qed.

Lemma advance_inj n g h : rng_ok g -> rng_ok h -> advance n g = advance n h -> g = h.
Proof.
  intros Hg Hh. induction n as [|n IH]; [auto |]. rewrite !advance_S. intros E. apply IH.
  apply next_u64_inj; [apply advance_ok, Hg | apply advance_ok, Hh | exact E].
Qed.

Lemma advance_add n m g : advance (n + m) g = advance m (advance n g).
Proof. revert g. induction n as [|n IH]; intros g; [reflexivity | apply IH]. Qed.

Lemma stream_range n : forall g, rng_ok g -> Forall (in_u 64) (stream n g).
Proof.
  induction n as [|n IH]; intros g Hg; cbn; [constructor |]. destruct (next_u64_ok g Hg) as [Hg' Hx].
  destruct (next_u64 g) as [g' x]. constructor; [exact Hx | apply IH, Hg'].
Qed.

(** * Claims *)

(** A component's generator is sound for every session seed and path: whatever 32
    bytes [derive_key] answers, the state is four [u64] words that are never all zero, before and
    after any number of draws, and every draw is a [u64]. *)
Theorem generator_never_zero (derive_key : string -> list Z -> list Z) (seed : Z) (path : string)
    (g : Xoshiro256StarStar) (n : nat) :
  (forall ctx m, bytes_ok (derive_key ctx m)) ->
  for_component derive_key seed path = Some g ->
  rng_ok (advance n g) /\ Forall (in_u 64) (stream n g).
Proof.
  intros Hk Hg. assert (Hok : rng_ok g).
  { revert Hg. unfold for_component. destruct (seed_material seed path); cbn; [|discriminate].
    intros [= <-]. apply from_seed_bytes_ok, Hk. }
  split; [apply advance_ok | apply stream_range]; exact Hok.
Qed.

(** Drawing is a bijection on states, so a stream has no tail: two generators that
    meet after the same number of draws were equal, and a generator that repeats a state of its
    own repeats from its first state on. *)
Theorem generator_reversible (g h : Xoshiro256StarStar) (n m : nat) :
  rng_ok g -> rng_ok h ->
  (advance n g = advance n h -> g = h) /\
  (advance (n + m) g = advance n g -> advance m g = g).
Proof.
  intros Hg Hh. split; [apply advance_inj; assumption |]. intros E.
  apply (advance_inj n); [apply advance_ok, Hg | exact Hg |]. rewrite <- advance_add, Nat.add_comm. exact E.
Qed.

(** The bytes hashed for a component's seed determine the session seed and the
    component path: two components share a stream's seed only by a collision of [derive_key]. *)
Theorem seed_material_injective (a b : Z) (p q : string) (m : list Z) :
  in_u 64 a -> in_u 64 b ->
  seed_material a p = Some m -> seed_material b q = Some m -> a = b /\ p = q.
Proof.
  unfold seed_material. intros Ha Hb.
  destruct (Z.ltb_spec (Z.of_nat (length (as_bytes p))) (2 ^ 32)) as [Hp|]; [|discriminate].
  destruct (Z.ltb_spec (Z.of_nat (length (as_bytes q))) (2 ^ 32)) as [Hq|]; [|discriminate].
  intros E1 E2. assert (E : to_le 8 a ++ to_le 4 (Z.of_nat (length (as_bytes p))) ++ as_bytes p =
    to_le 8 b ++ to_le 4 (Z.of_nat (length (as_bytes q))) ++ as_bytes q) by congruence.
  apply app_inj_1 in E as [Eab E]; [|rewrite !length_to_le; reflexivity].
  apply app_inj_1 in E as [_ E]; [|rewrite !length_to_le; reflexivity].
  split; [|apply as_bytes_inj, E].
  rewrite <- (from_to_le_id 8 a Ha), <- (from_to_le_id 8 b Hb), Eab. reflexivity.
Qed.

(** A generator restored from its saved state continues the very same stream, the
    all-zero state alone is refused, and the state is the one saved. *)
Theorem generator_state_roundtrip (g : Xoshiro256StarStar) (n k : nat) :
  rng_ok g ->
  from_state zero_words = None /\
  exists g', from_state (state (advance n g)) = Some g' /\ state g' = state (advance n g) /\
    stream k g' = drop n (stream (n + k) g).
Proof.
  intros Hg. split; [reflexivity |]. exists (advance n g). split_and!; [|reflexivity |].
  - unfold from_state, state. rewrite decide_False by apply (advance_ok n g Hg). f_equal. apply rng_eq. reflexivity.
  - clear Hg. revert g. induction n as [|n IH]; intros g; [reflexivity |]. cbn.
    destruct (next_u64 g) as [g' x] eqn:E. cbn. apply IH.
Qed.

(** * Examples *)

Definition example_seed : list Z := to_le 8 1 ++ to_le 8 2 ++ to_le 8 3 ++ to_le 8 4.
Definition example_derive (ctx : string) (m : list Z) : list Z := example_seed.

(** The reference implementation's values. *)
Lemma reference_vector :
  stream 10 (from_seed_bytes example_seed) =
  [11520; 0; 1509978240; 1215971899390074240; 1216172134540287360; 607988272756665600;
   16172922978634559625; 8476171486693032832; 10595114339597558777; 2904607092377533576].
Proof. vm_compute. reflexivity. Qed.

Lemma example_derive_ok : forall ctx m, bytes_ok (example_derive ctx m).
Proof. intros. apply (bool_decide_unpack _). vm_compute. exact I. Qed.

Lemma example_seed_ok : rng_ok (from_seed_bytes example_seed).
Proof. apply from_seed_bytes_ok, (example_derive_ok "" []). Qed.

Lemma generator_never_zero_witness :
  rng_ok (advance 3 (from_seed_bytes example_seed)) /\
  Forall (in_u 64) (stream 3 (from_seed_bytes example_seed)).
Proof.
  apply (generator_never_zero example_derive 7 "soc.cpu0" (from_seed_bytes example_seed) 3 example_derive_ok).
  reflexivity.
Defined.

Lemma generator_reversible_witness :
  advance 1 (from_seed_bytes example_seed) <> advance 1 (from_seed_bytes (to_le 32 5)).
Proof.
  intros E.
  pose proof (proj1 (generator_reversible (from_seed_bytes example_seed) (from_seed_bytes (to_le 32 5)) 1 0
    example_seed_ok (from_seed_bytes_ok _ (to_le_ok 32 5))) E) as H. discriminate H.
Defined.

Lemma seed_material_injective_witness :
  exists m, seed_material 0x0102030405060708 "soc.cpu0" = Some m /\
    forall b q, in_u 64 b -> seed_material b q = Some m -> 0x0102030405060708 = b /\ "soc.cpu0"%string = q.
Proof.
  eexists. split; [reflexivity |]. intros b q Hb Hm.
  eapply (seed_material_injective 0x0102030405060708 b "soc.cpu0" q); [const_range | exact Hb | | exact Hm].
  reflexivity.
Defined.

Lemma generator_state_roundtrip_witness :
  exists g', from_state (state (advance 2 (from_seed_bytes example_seed))) = Some g' /\
    stream 1 g' = [1509978240].
Proof.
  destruct (generator_state_roundtrip (from_seed_bytes example_seed) 2 1 example_seed_ok)
    as (_ & g' & H1 & _ & H2). exists g'. split; [exact H1 |]. rewrite H2. vm_compute. reflexivity.
Defined.
