(* ===== verification/Runtime.v ===== *)
(** The session, [runtime/src/runtime.rs]: the context a component runs in, dispatch,
    observation, the lifecycle and the driver's calls.

    [Runtime] is the struct; [Box<dyn Component>] is any type [B] with a [Component] instance
    and [Box<dyn Observer>] any type [Ob] with an [Observer] instance.  [Ctx] is the context of
    the running component: the references the code splits off the runtime are fields, given
    back when the handler returns.  A call that stops short ([Stopped]) is a refusal, a panic,
    or, in the model only, a loop out of fuel; a panic inside the context unwinds through the
    handler, which the field [ctx_panic] keeps until the handler is done.  [BTreeSet<Tick>] is
    an ascending list. *)
From stdpp Require Import base numbers list option strings.
From Stdlib Require Import ZArith Lia.
From S2P Require Import Prelude Contracts Handlers Snapshots Session Scheduler Trace Rng.

Local Open Scope string_scope.
Local Open Scope list_scope.
Local Open Scope Z_scope.

Record SessionConfig : Set := mkSessionConfig { seed : Z; scheduler_config : SchedulerConfig }.

Inductive Lifecycle : Set := Elaborated | Ready | Faulted.

#[export] Instance Lifecycle_eq_dec : EqDecision Lifecycle.
Proof. solve_decision. Defined.

Inductive RuntimeError `{SnapshotCodec} : Type :=
| RuntimeError_Faulted (e : SimError)
| RuntimeError_InvalidState (s : Lifecycle)
| RuntimeError_Restore (e : RestoreError)
| TraceNeedsPrefix.

(** How a call of the driver stops short. *)
Inductive Stopped `{SnapshotCodec} : Type :=
| Refused (e : RuntimeError)
| Panicked (what : string)
| OutOfFuel.

Record Pending : Set := mkPending { source : Z; target : Z; delivery : Delivered }.

Inductive Stop : Set := Stop_Paused | Stop_Drained | Stop_Horizon.

#[export] Instance Stop_eq_dec : EqDecision Stop.
Proof. solve_decision. Defined.

Record RunOutcome : Set := mkRunOutcome { events : Z; stop : Stop }.

Record Peer : Set := mkPeer { peer_component : Z; peer_port : Z; peer_latency : option LinkLatency }.

Record Slot (B : Type) : Type := mkSlot { slot_path : string; slot_ports : list PortSpec; component : B }.
Arguments mkSlot {B} _ _ _.
Arguments slot_path {B} _.
Arguments slot_ports {B} _.
Arguments component {B} _.

Record SlotInfo : Set := mkSlotInfo {
  info_path : string; info_type_name : string; info_ports : list PortSpec }.

(** * Contexts *)

Section contexts.
Context `{EventOrder, Clocks, Protocols}.

Record Ctx : Type := mkCtx {
  me : Z;
  ctx_clock : SimulationClock;
  ctx_domains : list ClockDomain;
  ctx_ports : list PortSpec;
  ctx_peers : list Peer;
  ctx_scheduler : Scheduler Pending;
  ctx_rng : Xoshiro256StarStar;
  ctx_records : option (list TraceRecord);
  ctx_at : TraceAt;
  ctx_error : option SimError;
  ctx_panic : option string;
}.

Definition set_ctx_scheduler (s : Scheduler Pending) (c : Ctx) : Ctx :=
  mkCtx (me c) (ctx_clock c) (ctx_domains c) (ctx_ports c) (ctx_peers c) s (ctx_rng c)
    (ctx_records c) (ctx_at c) (ctx_error c) (ctx_panic c).

Definition set_ctx_rng (g : Xoshiro256StarStar) (c : Ctx) : Ctx :=
  mkCtx (me c) (ctx_clock c) (ctx_domains c) (ctx_ports c) (ctx_peers c) (ctx_scheduler c) g
    (ctx_records c) (ctx_at c) (ctx_error c) (ctx_panic c).

Definition set_ctx_records (l : option (list TraceRecord)) (c : Ctx) : Ctx :=
  mkCtx (me c) (ctx_clock c) (ctx_domains c) (ctx_ports c) (ctx_peers c) (ctx_scheduler c)
    (ctx_rng c) l (ctx_at c) (ctx_error c) (ctx_panic c).

Definition set_ctx_error (e : option SimError) (c : Ctx) : Ctx :=
  mkCtx (me c) (ctx_clock c) (ctx_domains c) (ctx_ports c) (ctx_peers c) (ctx_scheduler c)
    (ctx_rng c) (ctx_records c) (ctx_at c) e (ctx_panic c).

Definition set_ctx_panic (w : option string) (c : Ctx) : Ctx :=
  mkCtx (me c) (ctx_clock c) (ctx_domains c) (ctx_ports c) (ctx_peers c) (ctx_scheduler c)
    (ctx_rng c) (ctx_records c) (ctx_at c) (ctx_error c) w.

(** Resolves a component's scheduling request to an absolute tick. *)
Definition resolve (when : ScheduleWhen) (now : Z) (clock : SimulationClock)
    (domains : list ClockDomain) : result SimError Z :=
  match when with
  | When_Now => Ok now
  | When_After d => map_err SimError_Time (clock_after clock now d)
  | When_Cycles domain k =>
      dom ← ok_or (domains !! Z.to_nat domain) (UnknownClockDomain domain);
      map_err SimError_Time (cycles_after dom now k)
  end.

(** Adds a link's latency to a send tick. *)
Definition add_latency (latency : option LinkLatency) (tick : Z) (clock : SimulationClock)
    (domains : list ClockDomain) : result SimError Z :=
  match latency with
  | None => Ok tick
  | Some (Latency_After d) => resolve (When_After d) tick clock domains
  | Some (Latency_Cycles domain k) => resolve (When_Cycles domain k) tick clock domains
  end.

(** [self.scheduler.schedule(tick, phase, pending).map(|_| ())]. *)
Definition ctx_schedule (tick : Z) (ph : Phase) (p : Pending) (c : Ctx) : Ctx * result SimError unit :=
  let '(s, r) := schedule tick ph p (ctx_scheduler c) in
  (set_ctx_scheduler s c, match r with Ok _ => Ok tt | Err e => Err e end).

Definition try_send (port : Z) (msg : Message) (when : ScheduleWhen) (ph : Phase) (c : Ctx) :
    Ctx * result SimError unit :=
  match ctx_ports c !! Z.to_nat port with
  | None => (c, Err (UnknownPort port))
  | Some spec =>
      if negb (bool_decide (protocol msg = port_protocol spec)) then
        (c, Err (ProtocolMismatch port (port_protocol spec) (protocol msg)))
      else
        match ctx_peers c !! Z.to_nat port with
        | None => (set_ctx_panic (Some "index out of bounds") c, Err (UnknownPort port))
        | Some peer =>
            match
              sent ← resolve when (Scheduler.now (ctx_scheduler c)) (ctx_clock c) (ctx_domains c);
              add_latency (peer_latency peer) sent (ctx_clock c) (ctx_domains c)
            with
            | Err e => (c, Err e)
            | Ok tick =>
                ctx_schedule tick ph
                  (mkPending (me c) (peer_component peer) (Delivered_Message (peer_port peer) msg)) c
            end
        end
  end.

Definition try_wake (when : ScheduleWhen) (ph : Phase) (token : Z) (c : Ctx) :
    Ctx * result SimError unit :=
  match resolve when (Scheduler.now (ctx_scheduler c)) (ctx_clock c) (ctx_domains c) with
  | Err e => (c, Err e)
  | Ok tick => ctx_schedule tick ph (mkPending (me c) (me c) (Delivered_Wake token)) c
  end.

(** The first error is kept. *)
Definition record (x : Ctx * result SimError unit) : Ctx * result SimError unit :=
  let '(c, r) := x in
  match r, ctx_error c with
  | Err e, None => (set_ctx_error (Some e) c, r)
  | _, _ => (c, r)
  end.

Definition send (port : Z) (msg : Message) (when : ScheduleWhen) (ph : Phase) (c : Ctx) :
    Ctx * result SimError unit :=
  match ctx_error c with
  | Some e => (c, Err e)
  | None => record (try_send port msg when ph c)
  end.

Definition wake_self (when : ScheduleWhen) (ph : Phase) (token : Z) (c : Ctx) :
    Ctx * result SimError unit :=
  match ctx_error c with
  | Some e => (c, Err e)
  | None => record (try_wake when ph token c)
  end.

(** [self.rng().next_u64()]. *)
Definition rng_next_u64 (c : Ctx) : Ctx * Z :=
  let '(g, x) := next_u64 (ctx_rng c) in (set_ctx_rng g c, x).

Definition trace_push (kind : string) (fields : list (string * Value)) (c : Ctx) : Ctx :=
  match ctx_records c with
  | Some records =>
      set_ctx_records (Some (records ++ [mkTraceRecord (ctx_at c) Origin_Component (me c) kind fields])) c
  | None => c
  end.

#[export] Instance Ctx_context : SimContext Ctx := {
  ctx_component := me;
  ctx_now c := Scheduler.now (ctx_scheduler c);
  ctx_phase c := Scheduler.current_phase (ctx_scheduler c);
  ctx_next_u64 := rng_next_u64;
  ctx_send := send;
  ctx_wake_self := wake_self;
  ctx_trace := trace_push;
}.
End contexts.

(** * The runtime *)

Section runtime.
Context `{EventOrder, Clocks, Protocols, Blake3, SnapshotCodec, !Canonical}.
Context {B Ob : Type} `{!Component B, !Observer B Ob}.

Record Runtime : Type := mkRuntime {
  clock : SimulationClock;
  domains : list ClockDomain;
  components : list B;
  rngs : list Xoshiro256StarStar;
  slots : list SlotInfo;
  peers : list (list Peer);
  links : list LinkDecl;
  topology_hash : list Z;
  config : SessionConfig;
  scheduler : Scheduler Pending;
  execution_digest : list Z;
  lifecycle : Lifecycle;
  fault : option SimError;
  freshly_restored : bool;
  trace : option (list TraceRecord);
  emitted : list TraceRecord;
  observers : list Ob;
  observe_points : list Z;
}.

Definition set_execution_digest (x0 : list Z) (r : Runtime) : Runtime :=
  mkRuntime (clock r) (domains r) (components r) (rngs r) (slots r) (peers r) (links r)
    (topology_hash r) (config r) (scheduler r) x0 (lifecycle r) (fault r) (freshly_restored r)
    (trace r) (emitted r) (observers r) (observe_points r).

Definition set_lifecycle (x0 : Lifecycle) (r : Runtime) : Runtime :=
  mkRuntime (clock r) (domains r) (components r) (rngs r) (slots r) (peers r) (links r)
    (topology_hash r) (config r) (scheduler r) (execution_digest r) x0 (fault r)
    (freshly_restored r) (trace r) (emitted r) (observers r) (observe_points r).

Definition set_fault (x0 : option SimError) (r : Runtime) : Runtime :=
  mkRuntime (clock r) (domains r) (components r) (rngs r) (slots r) (peers r) (links r)
    (topology_hash r) (config r) (scheduler r) (execution_digest r) (lifecycle r) x0
    (freshly_restored r) (trace r) (emitted r) (observers r) (observe_points r).

Definition set_freshly_restored (x0 : bool) (r : Runtime) : Runtime :=
  mkRuntime (clock r) (domains r) (components r) (rngs r) (slots r) (peers r) (links r)
    (topology_hash r) (config r) (scheduler r) (execution_digest r) (lifecycle r) (fault r) x0
    (trace r) (emitted r) (observers r) (observe_points r).

Definition set_trace (x0 : option (list TraceRecord)) (r : Runtime) : Runtime :=
  mkRuntime (clock r) (domains r) (components r) (rngs r) (slots r) (peers r) (links r)
    (topology_hash r) (config r) (scheduler r) (execution_digest r) (lifecycle r) (fault r)
    (freshly_restored r) x0 (emitted r) (observers r) (observe_points r).

Definition set_emitted (x0 : list TraceRecord) (r : Runtime) : Runtime :=
  mkRuntime (clock r) (domains r) (components r) (rngs r) (slots r) (peers r) (links r)
    (topology_hash r) (config r) (scheduler r) (execution_digest r) (lifecycle r) (fault r)
    (freshly_restored r) (trace r) x0 (observers r) (observe_points r).

Definition set_observers (x0 : list Ob) (r : Runtime) : Runtime :=
  mkRuntime (clock r) (domains r) (components r) (rngs r) (slots r) (peers r) (links r)
    (topology_hash r) (config r) (scheduler r) (execution_digest r) (lifecycle r) (fault r)
    (freshly_restored r) (trace r) (emitted r) x0 (observe_points r).

Definition set_observe_points (x0 : list Z) (r : Runtime) : Runtime :=
  mkRuntime (clock r) (domains r) (components r) (rngs r) (slots r) (peers r) (links r)
    (topology_hash r) (config r) (scheduler r) (execution_digest r) (lifecycle r) (fault r)
    (freshly_restored r) (trace r) (emitted r) (observers r) x0.

Definition set_scheduler (x0 : Scheduler Pending) (r : Runtime) : Runtime :=
  mkRuntime (clock r) (domains r) (components r) (rngs r) (slots r) (peers r) (links r)
    (topology_hash r) (config r) x0 (execution_digest r) (lifecycle r) (fault r)
    (freshly_restored r) (trace r) (emitted r) (observers r) (observe_points r).

Definition set_after_call (x0 : list B) (x1 : list Xoshiro256StarStar) (x2 : Scheduler Pending) (x3 : list TraceRecord) (r : Runtime) : Runtime :=
  mkRuntime (clock r) (domains r) x0 x1 (slots r) (peers r) (links r) (topology_hash r) (config
    r) x2 (execution_digest r) (lifecycle r) (fault r) (freshly_restored r) (trace r) x3
    (observers r) (observe_points r).

Definition set_components (x0 : list B) (r : Runtime) : Runtime :=
  mkRuntime (clock r) (domains r) x0 (rngs r) (slots r) (peers r) (links r) (topology_hash r)
    (config r) (scheduler r) (execution_digest r) (lifecycle r) (fault r) (freshly_restored r)
    (trace r) (emitted r) (observers r) (observe_points r).

Definition component_decls (slots : list SlotInfo) : list ComponentDecl :=
  (fun s => mkComponentDecl (info_path s) (info_type_name s) (info_ports s)) <$> slots.

(** [None] is the panic of [Xoshiro256StarStar::for_component] on a path of 4 GiB. *)
Definition from_elaboration (clock : SimulationClock) (domains : list ClockDomain)
    (slots : list (Slot B)) (peers : list (list Peer)) (links : list LinkDecl)
    (config : SessionConfig) : option Runtime :=
  rngs ← mapM (fun s => for_component derive_key (seed config) (slot_path s)) slots;
  let infos := (fun s => mkSlotInfo (slot_path s) (type_name (component s)) (slot_ports s)) <$> slots in
  Some (mkRuntime clock domains (component <$> slots) rngs infos peers links
    (hash (encode_topology (component_decls infos) links)) config
    (Scheduler.new (scheduler_config config)) ZERO_DIGEST Elaborated None false None [] [] []).

Local Abbreviation M := (ST Runtime Stopped).

Definition refuse {A} (e : RuntimeError) : M A := st_fail (Refused e).

(** ** Observation *)

Definition capturing (r : Runtime) : bool :=
  match trace r with Some _ => true | None => negb (length (observers r) =? 0)%nat end.

(** Hands the running component's records to the observers, then to the recorder. *)
Definition flush_records (r : Runtime) : Runtime :=
  match emitted r with
  | [] => r
  | records =>
      let r := set_observers
        (foldl (fun os record => (fun o => on_trace record o) <$> os) (observers r) records) r in
      match trace r with
      | Some l => set_emitted [] (set_trace (Some (l ++ records)) r)
      | None => set_emitted [] r
      end
  end.

(** [for observer in &mut self.observers { if .. == Control::Pause { control = Pause } }]. *)
Fixpoint ask (f : Ob -> Ob * Control) (os : list Ob) (control : Control) : list Ob * Control :=
  match os with
  | [] => ([], control)
  | o :: os =>
      let '(o, c) := f o in
      let '(os, control) := ask f os (if bool_decide (c = Control_Pause) then Control_Pause else control) in
      (o :: os, control)
  end.

(** Whether [point] is due: its tick is finished. *)
Definition due (horizon : option Z) (r : Runtime) (point : Z) : bool :=
  let now := Scheduler.now (scheduler r) in
  let last_finished :=
    match Scheduler.peek_key (scheduler r) with
    | Some next => if tick next =? 0 then None else Some (tick next - 1)
    | None => Some (match horizon with Some h => Z.max h now | None => now end)
    end in
  match last_finished with Some last => point <=? last | None => false end.

Fixpoint fire_loop (horizon : option Z) (stop_on_pause : bool) (control : Control) (points : list Z)
    (r : Runtime) : Runtime * Control :=
  match points with
  | [] => (r, control)
  | point :: rest =>
      if negb (due horizon r point) then (r, control)
      else
        let r := set_observe_points rest r in
        let '(os, control) := ask (on_observe point point (components r)) (observers r) control in
        let r := set_observers os r in
        if stop_on_pause && bool_decide (control = Control_Pause) then (r, control)
        else fire_loop horizon stop_on_pause control rest r
  end.

Definition fire_observe_points (horizon : option Z) (stop_on_pause : bool) (r : Runtime) :
    Runtime * Control :=
  fire_loop horizon stop_on_pause Control_Continue (observe_points r) r.

Definition add_observer (o : Ob) (r : Runtime) : Runtime := set_observers (observers r ++ [o]) r.

Fixpoint insert_point (t : Z) (points : list Z) : list Z :=
  match points with
  | [] => [t]
  | p :: ps => if t <? p then t :: p :: ps else if t =? p then p :: ps else p :: insert_point t ps
  end.

Definition observe_at (t : Z) (r : Runtime) : Runtime :=
  set_observe_points (insert_point t (observe_points r)) r.

(** ** The lifecycle *)

Definition require (state : Lifecycle) : M unit := fun r =>
  match lifecycle r, fault r with
  | Faulted, Some e => refuse (RuntimeError_Faulted e) r
  | current, _ =>
      if bool_decide (current = state) then (r, Ok tt) else refuse (RuntimeError_InvalidState current) r
  end.

Definition fail_restore (e : RestoreError) : M unit := fun r =>
  refuse (RuntimeError_Restore e) (set_lifecycle Faulted r).

Definition enter_fault {A} (e : SimError) : M A := fun r =>
  refuse (RuntimeError_Faulted e) (set_fault (Some e) (set_lifecycle Faulted r)).

(** ** Dispatch *)

(** Splits the runtime into the running component and a context for it; [None] is an index
    out of bounds. *)
Definition context (who : Z) (at_ : TraceAt) (r : Runtime) : option (B * Ctx) :=
  let index := Z.to_nat who in
  slot ← slots r !! index;
  ps ← peers r !! index;
  rng ← rngs r !! index;
  b ← components r !! index;
  Some (b, mkCtx who (clock r) (domains r) (info_ports slot) ps (scheduler r) rng
             (if capturing r then Some (emitted r) else None) at_ None None).

(** What the handler changed, given back. *)
Definition give_back (who : Z) (b : B) (c : Ctx) (r : Runtime) : Runtime :=
  set_after_call (<[Z.to_nat who := b]> (components r)) (<[Z.to_nat who := ctx_rng c]> (rngs r))
    (ctx_scheduler c) (match ctx_records c with Some l => l | None => emitted r end) r.

(** A component's [init] or [handle_event], its error or the context's first one, and the
    records it left. *)
Definition call_component (who : Z) (at_ : TraceAt) (m : ST (B * Ctx) Failure unit) : M unit := fun r =>
  match context who at_ r with
  | None => (r, Err (Panicked "index out of bounds"))
  | Some (b, c) =>
      let '((b, c), res) := m (b, c) in
      let r := give_back who b c r in
      match ctx_panic c, res with
      | Some w, _ => (r, Err (Panicked w))
      | None, Err (Panics w) => (r, Err (Panicked w))
      | None, res =>
          let r := flush_records r in
          match ctx_error c, res with
          | Some e, _ => enter_fault e r
          | None, Err (Fails e) => enter_fault e r
          | None, _ => (r, Ok tt)
          end
      end
  end.

Fixpoint init_from (n : nat) (index : Z) : M unit :=
  match n with
  | O => mret tt
  | S n =>
      call_component index At_Init (component_init Ctx);;
      init_from n (index + 1)
  end.

Definition init : M unit :=
  require Elaborated;;
  r ← st_get;
  init_from (length (slots r)) 0;;
  st_modify (set_lifecycle Ready).

(** Pops and dispatches the next event, then shows it to the observers. *)
Definition dispatch : M (option (CanonicalEvent * Control)) := fun r =>
  match Scheduler.pop (scheduler r) with
  | (s, Err (Panics w)) => (set_scheduler s r, Err (Panicked w))
  | (s, Err (Fails e)) => enter_fault e (set_scheduler s r)
  | (s, Ok None) => (set_scheduler s r, Ok None)
  | (s, Ok (Some event)) =>
      let p := payload event in
      let ev := mkCanonicalEvent (key event) (source p) (target p) (delivery p) in
      let r := set_scheduler s r in
      let r := set_execution_digest (chain (execution_digest r) ev) r in
      let r := set_freshly_restored false r in
      let at_ := At_Event (key event) in
      let r :=
        if capturing r then
          set_emitted (emitted r ++ [dispatch_record at_ (source p) (target p) (delivery p)]) r
        else r in
      match call_component (target p) at_ (component_handle (delivery p) Ctx) r with
      | (r, Err e) => (r, Err e)
      | (r, Ok _) =>
          let '(os, control) :=
            ask (on_after_dispatch ev (tick (key event)) (components r)) (observers r) Control_Continue in
          (set_observers os r, Ok (Some (ev, control)))
      end
  end.

Definition step : M (option CanonicalEvent) :=
  require Ready;;
  st_modify (fun r => fst (fire_observe_points None false r));;
  dispatched ← dispatch;
  match dispatched with
  | None => mret None
  | Some (d, _) =>
      st_modify (fun r => fst (fire_observe_points None false r));;
      mret (Some d)
  end.

Definition count (events : Z) : M Z := fun r =>
  match checked_add 64 events 1 with
  | Some n => (r, Ok n)
  | None => (r, Err (Panicked "attempt to add with overflow"))
  end.

Fixpoint run_loop (fuel : nat) (until events : Z) : M RunOutcome :=
  match fuel with
  | O => st_fail OutOfFuel
  | S fuel =>
      control ← (fun r => let '(r, c) := fire_observe_points (Some until) true r in (r, Ok c));
      if bool_decide (control = Control_Pause) then mret (mkRunOutcome events Stop_Paused)
      else
        r ← st_get;
        match Scheduler.peek_key (scheduler r) with
        | None => mret (mkRunOutcome events Stop_Drained)
        | Some k =>
            if until <? tick k then mret (mkRunOutcome events Stop_Horizon)
            else
              dispatched ← dispatch;
              match dispatched with
              | None => mret (mkRunOutcome events Stop_Drained)
              | Some (_, control) =>
                  events ← count events;
                  if bool_decide (control = Control_Pause) then mret (mkRunOutcome events Stop_Paused)
                  else run_loop fuel until events
              end
        end
  end.

Definition run (fuel : nat) (until : Z) : M RunOutcome :=
  require Ready;; run_loop fuel until 0.

(** [run] through any pauses: [fuel] bounds the pauses and each run. *)
Fixpoint run_until_loop (pauses fuel : nat) (until total : Z) : M Z :=
  match pauses with
  | O => st_fail OutOfFuel
  | S pauses =>
      outcome ← run fuel until;
      match checked_add 64 total (events outcome) with
      | None => st_fail (Panicked "attempt to add with overflow")
      | Some total =>
          if bool_decide (stop outcome = Stop_Paused) then run_until_loop pauses fuel until total
          else mret total
      end
  end.

Definition run_until (fuel : nat) (until : Z) : M Z := run_until_loop fuel fuel until 0.

(** ** Traces *)

Definition start_trace : M unit :=
  require Elaborated;; st_modify (set_trace (Some [])).

Record TraceHeader : Type := mkTraceHeader {
  hdr_ticks_per_second : Z;
  hdr_seed : Z;
  hdr_contracts_version : string;
  hdr_topology_hash : list Z;
  hdr_clock_domains : list ClockDomain;
  hdr_components : list ComponentDecl;
  hdr_links : list LinkDecl;
}.

Definition trace_header (r : Runtime) : TraceHeader :=
  mkTraceHeader (ticks_per_second (clock r)) (seed (config r)) CONTRACTS_VERSION (topology_hash r)
    (domains r) (component_decls (slots r)) (links r).

#[export] Instance TraceHeader_eq_dec : EqDecision TraceHeader.
Proof. solve_decision. Defined.

Record Trace : Type := mkTrace { header : TraceHeader; records : list TraceRecord }.

Definition take_trace (r : Runtime) : Runtime * option Trace :=
  match trace r with
  | None => (r, None)
  | Some l => (set_trace None r, Some (mkTrace (trace_header r) l))
  end.

Definition resume_trace (prefix : Trace) (r : Runtime) : Runtime * result ResumeError unit :=
  if negb (bool_decide (lifecycle r = Ready)) || negb (freshly_restored r) then
    (r, Err NotFreshlyRestored)
  else if negb (bool_decide (header prefix = trace_header r)) then (r, Err HeaderMismatch)
  else
    match check_prefix (records prefix) (length (slots r)) (Scheduler.last_dispatched (scheduler r))
            (execution_digest r) with
    | Err e => (r, Err e)
    | Ok _ => (set_freshly_restored false (set_trace (Some (records prefix)) r), Ok tt)
    end.
End runtime.
