(* ===== verification/Export.v ===== *)
(** The text views of a trace, [runtime/src/export.rs]: JSONL and the Chrome JSON of the Perfetto
    UI.

    A [String] is the sequence of its UTF-8 bytes; the characters [json_str] escapes are single
    bytes, which no other character's encoding contains, so escaping a string byte by byte is
    escaping it character by character.  The JSON of the format strings is written with an
    apostrophe for the quotation mark ([js]).  A function that appends to [out] is the text it
    appends.  What the views print of the contracts crate is [TraceText]. *)
From stdpp Require Import base numbers list option strings gmap.
From Stdlib Require Import ZArith Lia Ascii.
From S2P Require Import Prelude Contracts Session Text Scheduler Rng Trace Runtime.

Local Open Scope string_scope.
Local Open Scope list_scope.
Local Open Scope Z_scope.

(** The [Display] of a phase and [TRACE_FORMAT_VERSION].  A phase prints as one of five distinct
    names ([docs/m0-design.md] §4.1), which need no escapes. *)
Class TraceText := {
  TRACE_FORMAT_VERSION : Z;
  phase_name : Phase -> string;
  phase_name_inj : forall p q, phase_name p = phase_name q -> p = q;
  phase_name_plain : forall p, all_chars (fun c => (65 <=? code c) && (code c <=? 122) && negb (code c =? 92)) (phase_name p) = true;
}.

(** * JSON *)

Definition quote : ascii := "034".
Definition backslash : ascii := "092".

Fixpoint js (s : string) : string :=
  match s with
  | EmptyString => EmptyString
  | String c s => String (if Ascii.eqb c "'" then quote else c) (js s)
  end.

(** The text of one character of a string literal. *)
Definition escape (c : ascii) : string :=
  if Ascii.eqb c quote then String backslash (String quote "")
  else if Ascii.eqb c backslash then String backslash (String backslash "")
  else if code c =? 10 then String backslash "n"
  else if code c =? 13 then String backslash "r"
  else if code c =? 9 then String backslash "t"
  else if code c <? 32 then String backslash ("u" +:+ hex_digits 4 (code c))
  else String c "".

Fixpoint escapes (s : string) : string :=
  match s with EmptyString => "" | String c s => escape c +:+ escapes s end.

Definition json_str (s : string) : string := js "'" +:+ escapes s +:+ js "'".

Definition hex (bytes : list Z) : string := hex_bytes bytes.

Definition json_value (v : Value) : string :=
  match v with
  | VU64 x => js "{'u64':" +:+ dec x +:+ "}"
  | VI64 x => js "{'i64':" +:+ dec x +:+ "}"
  | VBool x => js "{'bool':" +:+ (if x then "true" else "false") +:+ "}"
  | VStr x => js "{'str':" +:+ json_str x +:+ "}"
  | VBytes x => js "{'bytes':'" +:+ hex x +:+ js "'}"
  end.

(** [for (i, x) in l.iter().enumerate() { if i > 0 { out.push(sep) } .. }], and [join]. *)
Fixpoint join (sep : string) (l : list string) : string :=
  match l with
  | [] => ""
  | [x] => x
  | x :: l => x +:+ sep +:+ join sep l
  end.

Definition json_fields (fields : list (string * Value)) : string :=
  "[" +:+ join "," ((fun '(name, value) => "[" +:+ json_str name +:+ "," +:+ json_value value +:+ "]") <$> fields) +:+ "]".

Definition origin_name (origin : TraceOrigin) : string :=
  match origin with Origin_Component => "component" | Origin_Runtime => "runtime" end.

(** A slice's begin or end: ([phase], [initiator], [txn], [name]). *)
Record Slice : Set := mkSlice { sl_phase : string; sl_initiator : Z; sl_txn : Z; sl_name : string }.

#[export] Instance Slice_eq_dec : EqDecision Slice.
Proof. solve_decision. Defined.

(** OpenSlices slices by (initiator, txn): the request's name. *)
Abbreviation OpenSlices := (gmap (Z * Z) string).

(** * JSONL *)

Section views.
Context `{TraceText, Clocks}.

Definition index_text (i : nat) : string := dec (Z.of_nat i).

Definition domain_text (d : ClockDomain) : string :=
  let '(id, num, den, offset, rounding) := domain_tuple d in
  js "{'id':" +:+ dec id +:+ js ",'freq_num':" +:+ dec num +:+ js ",'freq_den':" +:+ dec den +:+
  js ",'offset':" +:+ dec offset +:+ js ",'rounding':'" +:+ (if rounding =? 0 then "floor" else "ceil") +:+ js "'}".

Definition port_text (p : PortSpec) : string :=
  js "{'name':" +:+ json_str (port_name p) +:+ js ",'protocol':" +:+ json_str (protocol_name (port_protocol p)) +:+
  js ",'version':" +:+ dec (protocol_version (port_protocol p)) +:+
  js ",'role':'" +:+ (match port_role p with Role_Initiator => "initiator" | Role_Target => "target" end) +:+ js "'}".

Definition component_text (i : nat) (c : ComponentDecl) : string :=
  js "{'id':" +:+ index_text i +:+ js ",'path':" +:+ json_str (decl_path c) +:+ js ",'type':" +:+ json_str (decl_type_name c) +:+
  js ",'ports':[" +:+ join "," (port_text <$> decl_ports c) +:+ "]}".

Definition latency_text (l : option LinkLatency) : string :=
  match l with
  | None => "null"
  | Some (Latency_After d) => js "{'after_fs':" +:+ dec d +:+ "}"
  | Some (Latency_Cycles domain k) => js "{'cycles':{'domain':" +:+ dec domain +:+ js ",'k':" +:+ dec k +:+ "}}"
  end.

Definition link_text (l : LinkDecl) : string :=
  js "{'a':[" +:+ dec (fst (link_a l)) +:+ "," +:+ dec (snd (link_a l)) +:+ js "],'b':[" +:+ dec (fst (link_b l)) +:+ "," +:+
  dec (snd (link_b l)) +:+ js "],'latency':" +:+ latency_text (link_latency l) +:+ "}".

Definition newline : string := String "010" "".

Definition header_text (h : TraceHeader) : string :=
  js "{'type':'header','format_version':" +:+ dec TRACE_FORMAT_VERSION +:+
  js ",'ticks_per_second':" +:+ dec (hdr_ticks_per_second h) +:+ js ",'seed':" +:+ dec (hdr_seed h) +:+
  js ",'contracts_version':" +:+ json_str (hdr_contracts_version h) +:+
  js ",'topology_hash':'" +:+ hex (hdr_topology_hash h) +:+ js "','clock_domains':[" +:+
  join "," (domain_text <$> hdr_clock_domains h) +:+
  js "],'components':[" +:+ join "," (imap component_text (hdr_components h)) +:+
  js "],'links':[" +:+ join "," (link_text <$> hdr_links h) +:+ "]}" +:+ newline.

Definition at_text (at_ : TraceAt) : string :=
  match at_ with
  | At_Init => js "'init'"
  | At_Event k =>
      js "{'tick':" +:+ dec (tick k) +:+ js ",'phase':'" +:+ phase_name (phase k) +:+ js "','sequence':" +:+
      dec (sequence k) +:+ "}"
  end.

Definition record_text (index : nat) (r : TraceRecord) : string :=
  js "{'type':'record','index':" +:+ index_text index +:+ js ",'at':" +:+ at_text (rec_at r) +:+
  js ",'origin':'" +:+ origin_name (rec_origin r) +:+ js "','component':" +:+ dec (rec_component r) +:+
  js ",'kind':" +:+ json_str (rec_kind r) +:+ js ",'fields':" +:+ json_fields (rec_fields r) +:+ "}" +:+ newline.

Definition to_jsonl (trace : Trace) : string :=
  header_text (header trace) +:+ join "" (imap record_text (records trace)).

(** * Perfetto *)

Definition FS_PER_US : Z := 1000000000.

(** The division panics on a resolution of zero; the [u128] product cannot overflow. *)
Definition perfetto_ts (tick ticks_per_second : Z) : result string string :=
  if ticks_per_second =? 0 then Err "attempt to divide by zero"
  else
    let fs := tick * 1000000000000000 / ticks_per_second in
    Ok (dec (fs / FS_PER_US) +:+ "." +:+ dec_digits 9 (fs mod FS_PER_US)).

Definition field (r : TraceRecord) (name : string) : option Value :=
  snd <$> List.find (fun '(n, _) => (n =? name)%string) (rec_fields r).

Definition perfetto_track (component : Z) : Z := component + 1.

Definition track_text (track : Z) : string := js "'pid':" +:+ dec track +:+ js ",'tid':" +:+ dec track.

Definition name_event (kind : string) (id : nat) (c : ComponentDecl) : string :=
  let track := perfetto_track (Z.of_nat id) in
  js "{'ph':'M'," +:+ track_text track +:+ js ",'name':'" +:+ kind +:+ js "','args':{'name':" +:+ json_str (decl_path c) +:+ "}}".

Definition names (components : list ComponentDecl) : list string :=
  mjoin (imap (fun id c => (fun kind => name_event kind id c) <$> ["process_name"; "thread_name"]) components).

Definition instant_event (index : nat) (ts : string) (r : TraceRecord) : string :=
  js "{'ph':'i','s':'t'," +:+ track_text (perfetto_track (rec_component r)) +:+ js ",'ts':" +:+ ts +:+ js ",'name':" +:+
  json_str (rec_kind r) +:+ js ",'args':{'record':" +:+ index_text index +:+ js ",'origin':'" +:+ origin_name (rec_origin r) +:+
  js "','fields':" +:+ json_fields (rec_fields r) +:+ "}}".

(** What a record begins or ends, from [if r.origin != ..] on; [continue] is [None]. *)
Definition slice (r : TraceRecord) (open : OpenSlices) : OpenSlices * option Slice :=
  if negb (bool_decide (rec_origin r = Origin_Runtime)) || negb (rec_kind r =? DISPATCH_KIND)%string then (open, None)
  else
    match field r "msg", field r "txn" with
    | Some (VStr msg), Some (VU64 txn) =>
        if (msg =? "ReadReq")%string || (msg =? "WriteReq")%string then
          match field r "source" with
          | Some (VU64 source) =>
              let name := if (msg =? "ReadReq")%string then "ReadReq" else "WriteReq" in
              let initiator := wrap 32 source in
              (<[(initiator, txn) := name]> open, Some (mkSlice "b" initiator txn name))
          | _ => (open, None)
          end
        else if (msg =? "ReadResp")%string || (msg =? "WriteResp")%string then
          let initiator := rec_component r in
          match open !! (initiator, txn) with
          | Some name => (delete (initiator, txn) open, Some (mkSlice "e" initiator txn name))
          | None => (open, None)
          end
        else (open, None)
    | _, _ => (open, None)
    end.

Definition slice_event (ts : string) (s : Slice) : string :=
  js "{'ph':'" +:+ sl_phase s +:+ js "','cat':'mem','id2':{'local':'" +:+ dec (sl_initiator s) +:+ ":" +:+ dec (sl_txn s) +:+
  js "'}," +:+ track_text (perfetto_track (sl_initiator s)) +:+ js ",'ts':" +:+ ts +:+ js ",'name':'" +:+ sl_name s +:+ js "'}".

Definition record_tick (r : TraceRecord) : Z :=
  match rec_at r with At_Init => 0 | At_Event k => tick k end.

Fixpoint record_events (tps : Z) (index : nat) (rs : list TraceRecord) (open : OpenSlices) : result string (list string) :=
  match rs with
  | [] => Ok []
  | r :: rs =>
      ts ← perfetto_ts (record_tick r) tps;
      let '(open, s) := slice r open in
      rest ← record_events tps (S index) rs open;
      Ok (instant_event index ts r :: option_list (slice_event ts <$> s) ++ rest)
  end.

Definition to_perfetto (trace : Trace) : result string string :=
  let tps := hdr_ticks_per_second (header trace) in
  events ← record_events tps 0 (records trace) ∅;
  Ok (js "{'displayTimeUnit':'ns','traceEvents':[" +:+ newline +:+
      join ("," +:+ newline) (names (hdr_components (header trace)) ++ events) +:+ newline +:+ "]}" +:+ newline).
End views.

(** * The stream *)

(** [Trace::canonical_bytes] and [Trace::digest], of the contracts crate's [encode_stream]. *)
Section stream.
Context `{Clocks, Blake3} (encode_stream : TraceHeader -> list TraceRecord -> list Z).

Definition canonical_bytes (t : Trace) : list Z := encode_stream (header t) (records t).

Definition digest (t : Trace) : list Z := hash (canonical_bytes t).
End stream.

Example perfetto_ts_exact :
  perfetto_ts 0 (10 ^ 12) = Ok "0.000000000" /\ perfetto_ts 1 (10 ^ 12) = Ok "0.000001000" /\
  perfetto_ts 1500000 (10 ^ 12) = Ok "1.500000000" /\
  perfetto_ts (2 ^ 64 - 1) (10 ^ 12) = Ok "18446744073709.551615000" /\ perfetto_ts 1 3 = Ok "333333.333333333".
Proof. vm_compute. auto. Qed.

Example json_strings_escape :
  json_str ("a" +:+ js "'" +:+ String backslash "c" +:+ newline +:+ String "001" "") =
  js "'a" +:+ String backslash (js "'") +:+ String backslash (String backslash "c") +:+ String backslash "n" +:+
  String backslash "u0001" +:+ js "'".
Proof. vm_compute. reflexivity. Qed.
