(* ===== verification/Json.v ===== *)
(** JSON (RFC 8259), as far as the text views of a trace use it: values, their text, and a strict
    reader.

    The reader takes white space between tokens, the escapes of [json_str] and numbers without an
    exponent; all it accepts is JSON.  Proved: it gives back the value of every rendered text, so
    the rendering is unambiguous. *)
From stdpp Require Import base numbers list option strings.
From Stdlib Require Import ZArith Lia Ascii.
From S2P Require Import Prelude Text Export.

Local Open Scope string_scope.
Local Open Scope list_scope.
Local Open Scope Z_scope.

#[local] Arguments String.append !_ _ : simpl nomatch.

(** A number is its text. *)
Inductive Json : Set :=
| JNull
| JBool (b : bool)
| JNum (text : string)
| JStr (s : string)
| JArr (l : list Json)
| JObj (l : list (string * Json)).

(** * Text *)

Fixpoint render (j : Json) : string :=
  match j with
  | JNull => "null"
  | JBool b => if b then "true" else "false"
  | JNum text => text
  | JStr s => json_str s
  | JArr l => "[" +:+ join "," (render <$> l) +:+ "]"
  | JObj l => "{" +:+ join "," ((fun '(k, v) => json_str k +:+ ":" +:+ render v) <$> l) +:+ "}"
  end.

(** * Reading *)

Definition is_space (c : ascii) : bool := (code c =? 32) || (code c =? 10) || (code c =? 13) || (code c =? 9).

Definition skip (s : string) : string := snd (span is_space s).

Definition is_hex (c : ascii) : bool := is_digit c || (97 <=? code c) && (code c <=? 102).

(** The rest of a string literal, behind its opening quote. *)
Fixpoint read_chars (s : string) : option (string * string) :=
  match s with
  | EmptyString => None
  | String c s =>
      if Ascii.eqb c quote then Some ("", s)
      else if code c <? 32 then None
      else if Ascii.eqb c backslash then
        match s with
        | String "u" (String "0" (String "0" (String x (String y s)))) =>
            let n := 16 * unhex x + unhex y in
            if is_hex x && is_hex y && (n <? 128) then
              '(t, s) ← read_chars s; Some (String (ascii_of_nat (Z.to_nat n)) t, s)
            else None
        | String e s =>
            c ← (if Ascii.eqb e quote then Some quote else if Ascii.eqb e backslash then Some backslash
                 else if Ascii.eqb e "n" then Some "010"%char else if Ascii.eqb e "r" then Some "013"%char
                 else if Ascii.eqb e "t" then Some "009"%char else None);
            '(t, s) ← read_chars s; Some (String c t, s)
        | EmptyString => None
        end
      else '(t, s) ← read_chars s; Some (String c t, s)
  end.

(** One given character. *)
Definition expect (ch : ascii) (s : string) : option string :=
  match s with String c s => if Ascii.eqb c ch then Some s else None | EmptyString => None end.

Definition read_string (s : string) : option (string * string) := s ← expect quote s; read_chars s.

(** A number: a sign, an integer without leading zeros, and a fraction. *)
Definition read_unsigned (s : string) : option (string * string) :=
  let '(int, s) := span is_digit s in
  if negb (plain_int int) then None
  else
    match expect "." s with
    | Some s =>
        let '(frac, s) := span is_digit s in
        if (frac =? "")%string then None else Some (int +:+ "." +:+ frac, s)
    | None => Some (int, s)
    end.

Definition read_number (s : string) : option (Json * string) :=
  match expect "-" s with
  | Some s => '(t, s) ← read_unsigned s; Some (JNum ("-" +:+ t), s)
  | None => '(t, s) ← read_unsigned s; Some (JNum t, s)
  end.

(** The given characters. *)
Fixpoint expects (text s : string) : option string :=
  match text with EmptyString => Some s | String c text => s ← expect c s; expects text s end.

(** A value, the elements of an array and the members of an object up to their closing bracket. *)
Fixpoint read (fuel : nat) (s : string) : option (Json * string) :=
  match fuel with
  | O => None
  | S fuel =>
      match skip s with
      | EmptyString => None
      | String c s' as s =>
          if Ascii.eqb c quote then '(t, s) ← read_chars s'; Some (JStr t, s)
          else if Ascii.eqb c "[" then
            match expect "]" (skip s') with
            | Some s => Some (JArr [], s)
            | None => '(l, s) ← read_elements fuel s'; Some (JArr l, s)
            end
          else if Ascii.eqb c "{" then
            match expect "}" (skip s') with
            | Some s => Some (JObj [], s)
            | None => '(l, s) ← read_members fuel s'; Some (JObj l, s)
            end
          else if Ascii.eqb c "n" then s ← expects "null" s; Some (JNull, s)
          else if Ascii.eqb c "t" then s ← expects "true" s; Some (JBool true, s)
          else if Ascii.eqb c "f" then s ← expects "false" s; Some (JBool false, s)
          else read_number s
      end
  end
with read_elements (fuel : nat) (s : string) : option (list Json * string) :=
  match fuel with
  | O => None
  | S fuel =>
      '(v, s) ← read fuel s;
      match expect "," (skip s) with
      | Some s => '(l, s) ← read_elements fuel s; Some (v :: l, s)
      | None => s ← expect "]" (skip s); Some ([v], s)
      end
  end
with read_members (fuel : nat) (s : string) : option (list (string * Json) * string) :=
  match fuel with
  | O => None
  | S fuel =>
      '(k, s) ← read_string (skip s);
      s ← expect ":" (skip s);
      '(v, s) ← read fuel s;
      match expect "," (skip s) with
      | Some s => '(l, s) ← read_members fuel s; Some ((k, v) :: l, s)
      | None => s ← expect "}" (skip s); Some ([(k, v)], s)
      end
  end.

(** A JSON text: one value, nothing but white space behind it. *)
Definition read_json (s : string) : option Json :=
  '(j, rest) ← read (S (String.length s)) s;
  if (skip rest =? "")%string then Some j else None.

(** * The reader reads what is rendered *)

Lemma skip_nonspace c s : is_space c = false -> skip (String c s) = String c s.
Proof. unfold skip. cbn. intros ->. reflexivity. Qed.

Lemma skip_spaces w s : all_chars is_space w = true -> skip (w +:+ s) = skip s.
Proof.
  unfold skip. induction w as [|c w IH]; cbn; [reflexivity |]. intros [-> Hw]%andb_true_iff. specialize (IH Hw).
  destruct (span is_space (w +:+ s)) as [a b]. exact IH.
Qed.

Lemma read_u x y s t r :
  is_hex x && is_hex y && (16 * unhex x + unhex y <? 128) = true -> read_chars s = Some (t, r) ->
  read_chars (String backslash (String "u" (String "0" (String "0" (String x (String y s)))))) =
  Some (String (ascii_of_nat (Z.to_nat (16 * unhex x + unhex y))) t, r).
Proof. intros Hx H. cbn -[Z.mul Z.add]. rewrite Hx, H. reflexivity. Qed.

(** The characters whose code satisfies [E], one by one. *)
Ltac each_char c E H :=
  destruct c as [[] [] [] [] [] [] [] []]; vm_compute in E; try discriminate E; cbn; rewrite H; reflexivity.

Lemma read_escape c s t r : read_chars s = Some (t, r) -> read_chars (escape c +:+ s) = Some (String c t, r).
Proof.
  intros H. unfold escape.
  destruct (Ascii.eqb_spec c quote) as [->|Hq]; [cbn; rewrite H; reflexivity |].
  destruct (Ascii.eqb_spec c backslash) as [->|Hb]; [cbn; rewrite H; reflexivity |].
  destruct (Z.eqb_spec (code c) 10) as [E|_]; [each_char c E H |].
  destruct (Z.eqb_spec (code c) 13) as [E|_]; [each_char c E H |].
  destruct (Z.eqb_spec (code c) 9) as [E|_]; [each_char c E H |].
  destruct (Z.ltb_spec (code c) 32) as [E|Hge].
  { destruct c as [[] [] [] [] [] [] [] []]; vm_compute in E; try discriminate E; apply read_u; first [reflexivity | exact H]. }
  cbn [String.append read_chars]. apply Ascii.eqb_neq in Hq, Hb. apply Z.ltb_ge in Hge. rewrite Hq, Hb, Hge, H. reflexivity.
Qed.

Lemma read_escapes s r : read_chars (escapes s +:+ js "'" +:+ r) = Some (s, r).
Proof. induction s as [|c s IH]; [reflexivity |]. cbn [escapes]. rewrite append_assoc. apply read_escape, IH. Qed.

Lemma read_string_str s r : read_string (json_str s +:+ r) = Some (s, r).
Proof. unfold json_str. rewrite !append_assoc. apply (read_escapes s r). Qed.

(** ** Numbers *)

Definition num_ok (t : string) : Prop :=
  exists neg int frac, t = neg +:+ int +:+ frac /\ (neg = "" \/ neg = "-") /\ plain_int int = true /\ (frac = "" \/ exists ds, frac = "." +:+ ds /\ all_chars is_digit ds = true /\ ds <> "").

(** What may stand behind a number. *)
Definition follows (s : string) : bool := head_not (fun c => is_digit c || Ascii.eqb c ".") s.

Lemma follows_split s : follows s = true -> head_not is_digit s = true /\ head_not (fun c => Ascii.eqb c ".") s = true.
Proof. destruct s as [|c s]; [auto |]. cbn. rewrite negb_orb, andb_true_iff. auto. Qed.

Lemma expect_not ch s : head_not (fun c => Ascii.eqb c ch) s = true -> expect ch s = None.
Proof. destruct s as [|c s]; cbn; [auto |]. intros ->%negb_true_iff. reflexivity. Qed.

Lemma read_unsigned_plain int frac r :
  plain_int int = true -> follows r = true -> (frac = "" \/ exists ds, frac = "." +:+ ds /\ all_chars is_digit ds = true /\ ds <> "") ->
  read_unsigned ((int +:+ frac) +:+ r) = Some (int +:+ frac, r).
Proof.
  intros Hi Hr Hf. unfold read_unsigned. rewrite append_assoc.
  destruct (plain_int_shape int Hi) as [Hd _], (follows_split r Hr) as [Hrd Hrp]. destruct Hf as [->|(ds & -> & Hds & Hne)].
  - cbn [String.append]. rewrite span_append, Hi; [|exact Hd | exact Hrd].
    cbn [negb]. rewrite expect_not, append_nil; [reflexivity | exact Hrp].
  - rewrite span_append, Hi; [|exact Hd | reflexivity]. cbn -[span]. rewrite span_append; [|exact Hds | exact Hrd].
    destruct (String.eqb_spec ds ""); [contradiction | reflexivity].
Qed.

(** The first character of a value's text: no white space, no closing bracket. *)
Definition starts (s : string) : Prop :=
  exists c t, s = String c t /\ is_space c = false /\ Ascii.eqb c "]" = false /\ Ascii.eqb c "}" = false.

Definition numeric (c : ascii) : bool := is_digit c || Ascii.eqb c "-".

Lemma numeric_char c : numeric c = true ->
  is_space c = false /\ Ascii.eqb c "]" = false /\ Ascii.eqb c "}" = false /\ Ascii.eqb c quote = false /\ Ascii.eqb c "[" = false /\
  Ascii.eqb c "{" = false /\ Ascii.eqb c "n" = false /\ Ascii.eqb c "t" = false /\ Ascii.eqb c "f" = false.
Proof. destruct c as [[] [] [] [] [] [] [] []]; vm_compute; intros E; try discriminate E; auto 10. Qed.

Lemma digit_not_dash c : is_digit c = true -> Ascii.eqb c "-" = false.
Proof. destruct c as [[] [] [] [] [] [] [] []]; vm_compute; intros E; first [reflexivity | discriminate E]. Qed.

Lemma num_numeric t : num_ok t -> exists c s, t = String c s /\ numeric c = true.
Proof.
  intros (neg & int & frac & -> & Hn & Hi & _). destruct (plain_int_shape int Hi) as (Hd & c & s & ->).
  destruct Hn as [->| ->]; cbn; [|eauto]. cbn in Hd. apply andb_true_iff in Hd as [Hd _].
  eexists _, _. split; [reflexivity |]. unfold numeric. rewrite Hd. reflexivity.
Qed.

Lemma read_number_ok t r : num_ok t -> follows r = true -> read_number (t +:+ r) = Some (JNum t, r).
Proof.
  intros (neg & int & frac & -> & Hn & Hi & Hf) Hr. unfold read_number. pose proof (read_unsigned_plain int frac r Hi Hr Hf) as Hu.
  destruct Hn as [->| ->]; cbn [String.append].
  - rewrite expect_not, Hu; [reflexivity |]. destruct (plain_int_shape int Hi) as (Hd & c & s & ->). cbn in Hd |- *.
    apply andb_true_iff in Hd as [Hd _]. rewrite (digit_not_dash c Hd). reflexivity.
  - cbn [expect Ascii.eqb Bool.eqb]. rewrite Hu. reflexivity.
Qed.

(** ** Values *)

Fixpoint json_ok (j : Json) : Prop :=
  match j with
  | JNull | JBool _ | JStr _ => True
  | JNum t => num_ok t
  | JArr l => foldr (fun j P => json_ok j /\ P) True l
  | JObj l => foldr (fun m P => json_ok (snd m) /\ P) True l
  end.

Section induction.
Context (P : Json -> Prop).
Context (Hnull : P JNull) (Hbool : forall b, P (JBool b)) (Hnum : forall t, num_ok t -> P (JNum t)) (Hstr : forall s, P (JStr s)).
Context (Harr : forall l, json_ok (JArr l) -> Forall P l -> P (JArr l)) (Hobj : forall l, Forall (fun m => P (snd m)) l -> P (JObj l)).

Fixpoint json_ok_ind (j : Json) : json_ok j -> P j :=
  match j with
  | JNull => fun _ => Hnull
  | JBool b => fun _ => Hbool b
  | JNum t => Hnum t
  | JStr s => fun _ => Hstr s
  | JArr l => fun H => Harr l H (list_rect (fun l => foldr (fun j Q => json_ok j /\ Q) True l -> Forall P l) (fun _ => Forall_nil_2 P)
      (fun j l IH H => Forall_cons_2 P j l (json_ok_ind j (proj1 H)) (IH (proj2 H))) l H)
  | JObj l => fun H => Hobj l (list_rect (fun l => foldr (fun m Q => json_ok (snd m) /\ Q) True l -> Forall (fun m => P (snd m)) l)
      (fun _ => Forall_nil_2 _)
      (fun m l IH H => Forall_cons_2 (fun m => P (snd m)) m l (json_ok_ind (snd m) (proj1 H)) (IH (proj2 H))) l H)
  end.
End induction.

Lemma render_starts j : json_ok j -> starts (render j).
Proof.
  destruct j as [|[]|t|s|l|l]; cbn; intros H; try (eexists _, _; split_and!; [reflexivity | reflexivity..]).
  destruct (num_numeric t H) as (c & s & -> & Hc). destruct (numeric_char c Hc) as (? & ? & ? & _). exists c, s. auto.
Qed.

Lemma elements_start l : json_ok (JArr l) -> Forall (fun j => starts (render j)) l.
Proof. cbn. induction l as [|j l IH]; cbn; [constructor |]. intros [Hj Hl]. constructor; [apply render_starts, Hj | apply IH, Hl]. Qed.

Definition reads (j : Json) : Prop :=
  forall n r, (String.length (render j) <= n)%nat -> follows r = true -> read n (render j +:+ r) = Some (j, r).

Abbreviation spaces w := (all_chars is_space w = true).

Lemma read_spaces w n s : spaces w -> read n (w +:+ s) = read n s.
Proof. intros Hw. destruct n; [reflexivity |]. cbn [read]. rewrite skip_spaces by exact Hw. reflexivity. Qed.

Lemma read_elements_spaces w n s : spaces w -> read_elements n (w +:+ s) = read_elements n s.
Proof. intros Hw. destruct n; [reflexivity |]. cbn [read_elements]. rewrite read_spaces by exact Hw. reflexivity. Qed.

Lemma follows_spaces w s : spaces w -> follows s = true -> follows (w +:+ s) = true.
Proof.
  destruct w as [|c w]; [auto |]. cbn. intros [Hc _]%andb_true_iff _. unfold is_digit.
  destruct c as [[] [] [] [] [] [] [] []]; vm_compute in Hc |- *; first [reflexivity | discriminate Hc].
Qed.

Lemma skip_starts s r : starts s -> skip (s +:+ r) = s +:+ r.
Proof. intros (c & t & -> & Hc & _). apply skip_nonspace, Hc. Qed.

Lemma starts_open s r : starts s -> expect "]" (s +:+ r) = None /\ expect "}" (s +:+ r) = None.
Proof. intros (c & t & -> & _ & H1 & H2). cbn. rewrite H1, H2. auto. Qed.

Lemma read_elements_join w1 w2 l : spaces w1 -> spaces w2 -> Forall reads l -> l <> [] ->
  forall n r, (String.length (join ("," +:+ w1) (render <$> l)) < n)%nat ->
    read_elements n (join ("," +:+ w1) (render <$> l) +:+ w2 +:+ "]" +:+ r) = Some (l, r).
Proof.
  intros H1 H2 Hl Hne. induction Hl as [|j l Hj _ IH]; [contradiction |]. intros n r Hn.
  destruct n as [|n]; [lia |]. cbn [read_elements]. destruct l as [|k l].
  - change (join ("," +:+ w1) (render <$> [j])) with (render j) in *.
    rewrite Hj; [|lia | apply follows_spaces; [exact H2 | reflexivity]]. cbn [mbind option_bind].
    rewrite skip_spaces by exact H2. reflexivity.
  - change (join ("," +:+ w1) (render <$> (j :: k :: l))) with (render j +:+ ("," +:+ w1) +:+ join ("," +:+ w1) (render <$> (k :: l))) in *.
    rewrite !length_append in Hn. cbn [String.length] in Hn. rewrite !append_assoc.
    rewrite Hj; [|lia | reflexivity]. cbn [mbind option_bind]. change (expect "," (skip ("," +:+ ?s))) with (Some s).
    cbn beta iota. rewrite read_elements_spaces by exact H1. rewrite IH; [reflexivity | discriminate | lia].
Qed.

Definition member (m : string * Json) : string := let '(k, v) := m in json_str k +:+ ":" +:+ render v.

Lemma read_members_join l : Forall (fun m => reads (snd m)) l -> l <> [] ->
  forall n r, (String.length (join "," (member <$> l)) < n)%nat ->
    read_members n (join "," (member <$> l) +:+ "}" +:+ r) = Some (l, r).
Proof.
  intros Hl Hne. induction Hl as [|[k v] l Hj _ IH]; [contradiction |]. cbn [snd] in Hj. intros n r Hn.
  destruct n as [|n]; [lia |]. cbn [read_members].
  assert (Hs : forall t, skip (json_str k +:+ t) = json_str k +:+ t) by reflexivity. destruct l as [|m l].
  - change (join "," (member <$> [(k, v)])) with (json_str k +:+ ":" +:+ render v) in *.
    rewrite !length_append in Hn. cbn [String.length] in Hn. rewrite !append_assoc, Hs, read_string_str. cbn [mbind option_bind].
    change (expect ":" (skip (":" +:+ ?s))) with (Some s). cbn [mbind option_bind].
    rewrite Hj; [reflexivity | lia | reflexivity].
  - change (join "," (member <$> ((k, v) :: m :: l))) with ((json_str k +:+ ":" +:+ render v) +:+ "," +:+ join "," (member <$> (m :: l))) in *.
    rewrite !length_append in Hn. cbn [String.length] in Hn. rewrite !append_assoc, Hs, read_string_str. cbn [mbind option_bind].
    change (expect ":" (skip (":" +:+ ?s))) with (Some s). cbn [mbind option_bind].
    rewrite Hj; [|lia | reflexivity]. cbn [mbind option_bind]. change (expect "," (skip ("," +:+ ?s))) with (Some s).
    cbn beta iota. rewrite IH; [reflexivity | discriminate | lia].
Qed.

Lemma length_wrapped (o c s : string) : String.length (o +:+ s +:+ c) = (String.length o + String.length s + String.length c)%nat.
Proof. rewrite !length_append. lia. Qed.

Lemma join_starts sep l : l <> [] -> Forall starts l -> starts (join sep l).
Proof.
  intros Hne Hl. destruct Hl as [|s [|t l] Hs _]; [contradiction | exact Hs |].
  destruct Hs as (c & u & -> & Hc). exists c, (u +:+ sep +:+ join sep (t :: l)). split; [reflexivity | exact Hc].
Qed.

Lemma read_bracket n s :
  read (S n) ("[" +:+ s) =
  match expect "]" (skip s) with Some s => Some (JArr [], s) | None => '(l, s) ← read_elements n s; Some (JArr l, s) end.
Proof. reflexivity. Qed.

Lemma read_brace n s :
  read (S n) ("{" +:+ s) =
  match expect "}" (skip s) with Some s => Some (JObj [], s) | None => '(l, s) ← read_members n s; Some (JObj l, s) end.
Proof. reflexivity. Qed.

(** An array, with white space behind its opening bracket, its commas and its last element. *)
Lemma read_array w0 w1 w2 l n r : spaces w0 -> spaces w1 -> spaces w2 -> Forall reads l -> Forall (fun j => starts (render j)) l ->
  (String.length (join ("," +:+ w1) (render <$> l)) + 1 < n)%nat ->
  read n ("[" +:+ w0 +:+ join ("," +:+ w1) (render <$> l) +:+ w2 +:+ "]" +:+ r) = Some (JArr l, r).
Proof.
  intros H0 H1 H2 Hl Hs Hn. destruct n as [|n]; [lia |]. rewrite read_bracket, skip_spaces by exact H0. destruct l as [|j l].
  - change (join ("," +:+ w1) (render <$> [])) with "". change ("" +:+ ?s) with s. rewrite skip_spaces by exact H2. reflexivity.
  - assert (St : starts (join ("," +:+ w1) (render <$> (j :: l)))) by (apply join_starts; [discriminate | apply Forall_fmap, Hs]).
    rewrite (skip_starts _ _ St), (proj1 (starts_open _ _ St)), read_elements_spaces by exact H0.
    rewrite (read_elements_join w1 w2 (j :: l) H1 H2 Hl); [reflexivity | discriminate | lia].
Qed.

Lemma read_object l n r : Forall (fun m => reads (snd m)) l -> (String.length (join "," (member <$> l)) + 1 < n)%nat ->
  read n ("{" +:+ join "," (member <$> l) +:+ "}" +:+ r) = Some (JObj l, r).
Proof.
  intros Hl Hn. destruct n as [|n]; [lia |]. rewrite read_brace. destruct l as [|m l]; [reflexivity |].
  assert (St : starts (join "," (member <$> (m :: l)))).
  { apply join_starts; [discriminate |]. apply Forall_fmap, Forall_true. intros [k v]. eexists _, _. split_and!; [reflexivity | reflexivity..]. }
  rewrite (skip_starts _ _ St), (proj2 (starts_open _ _ St)).
  rewrite (read_members_join (m :: l) Hl); [reflexivity | discriminate | lia].
Qed.

Lemma read_render j : json_ok j -> reads j.
Proof.
  revert j. apply json_ok_ind.
  - intros [|n] r Hn Hr; [cbn in Hn; lia | reflexivity].
  - intros [] [|n] r Hn Hr; try (cbn in Hn; lia); reflexivity.
  - intros t Ht [|n] r Hn Hr; cbn [render] in *.
    + destruct (num_numeric t Ht) as (c & s & -> & _). cbn in Hn. lia.
    + pose proof (read_number_ok t r Ht Hr) as Hu. destruct (num_numeric t Ht) as (c & s & -> & Hc).
      destruct (numeric_char c Hc) as (E0 & _ & _ & E1 & E2 & E3 & E4 & E5 & E6). cbn [read String.append] in *.
      rewrite skip_nonspace by exact E0. rewrite E1, E2, E3, E4, E5, E6. exact Hu.
  - intros s [|n] r Hn Hr; [cbn in Hn; lia |]. cbn [read render]. unfold json_str. rewrite !append_assoc.
    change (skip (js "'" +:+ ?s)) with (String quote s). cbn [Ascii.eqb Bool.eqb quote]. rewrite read_escapes. reflexivity.
  - intros l Hok Hl n r Hn _. cbn [render] in *. rewrite length_wrapped in Hn. rewrite !append_assoc.
    apply (read_array "" "" ""); try reflexivity; [exact Hl | apply (elements_start l Hok) | cbn in Hn |- *; lia].
  - intros l Hl n r Hn _. cbn [render] in *. rewrite length_wrapped in Hn. rewrite !append_assoc.
    change (fun '(k, v) => json_str k +:+ ":" +:+ render v) with member in *. apply read_object; [exact Hl | cbn in Hn; lia].
Qed.

Lemma read_json_render j w : json_ok j -> spaces w -> read_json (render j +:+ w) = Some j.
Proof.
  intros Hj Hw. unfold read_json. rewrite (read_render j Hj); [| rewrite length_append; lia |].
  - cbn [mbind option_bind]. rewrite <- (append_nil w), skip_spaces by exact Hw. reflexivity.
  - rewrite <- (append_nil w). apply follows_spaces; [exact Hw | reflexivity].
Qed.

(** * Lines *)

Definition is_newline (c : ascii) : bool := code c =? 10.

(** [str::lines], of a text without carriage returns. *)
Fixpoint lines (s : string) : list string :=
  match s with
  | EmptyString => []
  | String c s =>
      if is_newline c then "" :: lines s
      else match lines s with [] => [String c ""] | l :: ls => String c l :: ls end
  end.

(** A JSON text per line. *)
Definition read_jsonl (s : string) : option (list Json) := mapM read_json (lines s).

Definition one_line (s : string) : bool := all_chars (fun c => negb (is_newline c)) s.

Lemma one_line_append a b : one_line (a +:+ b) = one_line a && one_line b.
Proof. apply all_chars_append. Qed.

Lemma lines_line l s : one_line l = true -> lines (l +:+ newline +:+ s) = l :: lines s.
Proof.
  unfold one_line. induction l as [|c l IH]; [reflexivity |]. cbn [all_chars String.append lines].
  intros [->%negb_true_iff Hl]%andb_true_iff. rewrite (IH Hl). reflexivity.
Qed.

Lemma escape_one_line c : one_line (escape c) = true.
Proof. destruct c as [[] [] [] [] [] [] [] []]; vm_compute; reflexivity. Qed.

Lemma json_str_one_line s : one_line (json_str s) = true.
Proof.
  unfold json_str. rewrite !one_line_append, andb_true_r. apply andb_true_iff. split; [reflexivity |].
  induction s as [|c s IH]; [reflexivity |]. cbn [escapes]. rewrite one_line_append, IH, escape_one_line. reflexivity.
Qed.

Lemma join_one_line sep l : one_line sep = true -> Forall (fun s => one_line s = true) l -> one_line (join sep l) = true.
Proof.
  intros Hs Hl. induction Hl as [|s l H1 _ IH]; [reflexivity |]. destruct l as [|t l]; [exact H1 |].
  change (join sep (s :: t :: l)) with (s +:+ sep +:+ join sep (t :: l)). rewrite !one_line_append, H1, Hs, IH. reflexivity.
Qed.

Lemma all_chars_weaken p q s : (forall c, p c = true -> q c = true) -> all_chars p s = true -> all_chars q s = true.
Proof. intros Hpq. induction s as [|c s IH]; [auto |]. cbn. intros [Hc Hs]%andb_true_iff. rewrite (Hpq c Hc), (IH Hs). reflexivity. Qed.

Lemma digits_one_line s : all_chars is_digit s = true -> one_line s = true.
Proof.
  apply all_chars_weaken. intros c. unfold is_digit, is_newline. intros [H1%Z.leb_le _]%andb_true_iff. apply negb_true_iff, Z.eqb_neq. lia.
Qed.

Lemma num_one_line t : num_ok t -> one_line t = true.
Proof.
  intros (neg & int & frac & -> & Hn & Hi & Hf). destruct (plain_int_shape int Hi) as [Hd%digits_one_line _]. rewrite !one_line_append, Hd.
  destruct Hn as [->| ->], Hf as [->|(ds & -> & Hds%digits_one_line & _)]; try reflexivity; rewrite one_line_append, Hds; reflexivity.
Qed.

Lemma render_one_line j : json_ok j -> one_line (render j) = true.
Proof.
  revert j. apply json_ok_ind.
  - reflexivity.
  - intros []; reflexivity.
  - intros t. apply num_one_line.
  - intros s. apply json_str_one_line.
  - intros l _ Hl. cbn [render]. rewrite !one_line_append, join_one_line; [reflexivity | reflexivity |]. apply Forall_fmap, Hl.
  - intros l Hl. cbn [render]. rewrite !one_line_append, join_one_line; [reflexivity | reflexivity |]. apply Forall_fmap.
    eapply Forall_impl; [exact Hl |]. intros [k v] Hv. cbn [snd] in Hv.
    change (one_line (json_str k +:+ ":" +:+ render v) = true). rewrite !one_line_append, Hv, json_str_one_line. reflexivity.
Qed.

(** Rendered values, each on a line of its own, are read back. *)
Lemma read_jsonl_lines l : Forall json_ok l -> read_jsonl (join "" ((fun j => render j +:+ newline) <$> l)) = Some l.
Proof.
  intros Hl. unfold read_jsonl.
  assert (Hls : lines (join "" ((fun j => render j +:+ newline) <$> l)) = render <$> l).
  { induction Hl as [|j l Hj _ IH]; [reflexivity |]. transitivity (lines (render j +:+ newline +:+ join "" ((fun j => render j +:+ newline) <$> l))).
    - destruct l as [|k l]; [cbn [fmap list_fmap join]; rewrite append_nil; reflexivity |].
      change (join "" ((fun j => render j +:+ newline) <$> j :: k :: l)) with
        ((render j +:+ newline) +:+ "" +:+ join "" ((fun j => render j +:+ newline) <$> k :: l)). rewrite append_assoc. reflexivity.
    - rewrite lines_line by (apply render_one_line, Hj). rewrite IH. reflexivity. }
  rewrite Hls. clear Hls. induction Hl as [|j l Hj _ IH]; [reflexivity |].
  pose proof (read_json_render j "" Hj eq_refl) as Hr. rewrite append_nil in Hr.
  change (mapM read_json (render <$> j :: l)) with (x ← read_json (render j); k ← mapM read_json (render <$> l); mret (x :: k)).
  rewrite Hr. cbn [mbind option_bind]. rewrite IH. reflexivity.
Qed.
