(* ===== verification/ExportProofs.v ===== *)
(** The text views are JSON and lose nothing.

    Each view is the rendering of JSON values ([Json]); reading a JSONL text gives these values
    back, one per line, and two traces have the same text exactly when they agree on everything
    the header and the records hold.  The Perfetto text is one JSON document, its timestamps are
    exact, and its slices are brackets: an end closes the last begin of its key, under its name. *)
From stdpp Require Import base numbers list option strings gmap.
From Stdlib Require Import ZArith Lia Ascii.
From S2P Require Import Prelude Contracts Session Text Scheduler Rng Trace Runtime Export Json.

Local Open Scope string_scope.
Local Open Scope list_scope.
Local Open Scope Z_scope.

(** * Text that needs no escapes *)

Definition plain (c : ascii) : bool := (32 <=? code c) && negb (Ascii.eqb c quote) && negb (Ascii.eqb c backslash).

Lemma escape_plain c : plain c = true -> escape c = String c "".
Proof.
  unfold plain, escape. rewrite !andb_true_iff, !negb_true_iff. intros [[Hc%Z.leb_le ->] ->].
  rewrite !(proj2 (Z.eqb_neq _ _)) by lia. rewrite (proj2 (Z.ltb_ge _ _)) by lia. reflexivity.
Qed.

Lemma json_str_plain s : all_chars plain s = true -> json_str s = js "'" +:+ s +:+ js "'".
Proof.
  intros Hs. unfold json_str. do 2 f_equal. induction s as [|c s IH]; [reflexivity |]. cbn [escapes all_chars] in *.
  apply andb_true_iff in Hs as [Hc Hs]. rewrite (escape_plain c Hc), (IH Hs). reflexivity.
Qed.

Lemma hex_digits_plain n v : all_chars plain (hex_digits n v) = true.
Proof.
  revert v. induction n as [|n IH]; intros v; [reflexivity |]. cbn [hex_digits]. rewrite all_chars_append, IH.
  apply (digit_cases (fun d => all_chars plain (hex_digit d) = true)); [apply Z.mod_pos_bound; lia | vm_compute; reflexivity].
Qed.

Lemma hex_plain bs : all_chars plain (hex bs) = true.
Proof.
  unfold hex, hex_bytes. induction bs as [|b bs IH]; [reflexivity |]. cbn [foldr]. rewrite all_chars_append, IH, hex_digits_plain. reflexivity.
Qed.

Lemma dec_shape n : exists neg int, dec n = neg +:+ int /\ (neg = "" \/ neg = "-") /\ plain_int int = true.
Proof.
  destruct (Z.lt_ge_cases n 0) as [Hn|Hn].
  - exists "-", (dec (- n)). rewrite (dec_neg n Hn). split_and!; auto. apply dec_pos. lia.
  - exists "", (dec n). split_and!; auto. apply dec_pos. lia.
Qed.

Lemma dec_num n : num_ok (dec n).
Proof. destruct (dec_shape n) as (neg & int & -> & Hn & Hi). exists neg, int, "". rewrite append_nil. auto. Qed.

#[local] Hint Resolve dec_num : core.

(** * The values of the texts *)

Definition num (n : Z) : Json := JNum (dec n).

Definition value_json (v : Value) : Json :=
  match v with
  | VU64 x => JObj [("u64", num x)]
  | VI64 x => JObj [("i64", num x)]
  | VBool x => JObj [("bool", JBool x)]
  | VStr x => JObj [("str", JStr x)]
  | VBytes x => JObj [("bytes", JStr (hex x))]
  end.

Definition fields_json (fields : list (string * Value)) : Json :=
  JArr ((fun '(name, value) => JArr [JStr name; value_json value]) <$> fields).

(** A text written with appends, as a rendering. *)
Ltac texts := cbn [render fmap list_fmap join]; rewrite ?append_assoc; reflexivity.

Lemma json_value_text v : json_value v = render (value_json v).
Proof.
  destruct v as [x|x|x|x|x]; cbn [json_value value_json]; try texts.
  cbn [render fmap list_fmap join]. rewrite (json_str_plain (hex x)) by apply hex_plain. rewrite ?append_assoc. reflexivity.
Qed.

Lemma json_fields_text fs : json_fields fs = render (fields_json fs).
Proof.
  unfold json_fields, fields_json. cbn [render]. do 2 f_equal. rewrite <- list_fmap_compose. f_equal. apply list_fmap_ext.
  intros _ [name v] _. unfold compose. rewrite json_value_text. texts.
Qed.

Section views.
Context `{TraceText, Clocks}.

Definition domain_json (d : ClockDomain) : Json :=
  let '(id, num_, den, offset, rounding) := domain_tuple d in
  JObj [("id", num id); ("freq_num", num num_); ("freq_den", num den); ("offset", num offset);
        ("rounding", JStr (if rounding =? 0 then "floor" else "ceil"))].

Definition port_json (p : PortSpec) : Json :=
  JObj [("name", JStr (port_name p)); ("protocol", JStr (protocol_name (port_protocol p)));
        ("version", num (protocol_version (port_protocol p)));
        ("role", JStr (match port_role p with Role_Initiator => "initiator" | Role_Target => "target" end))].

Definition component_json (i : nat) (c : ComponentDecl) : Json :=
  JObj [("id", num (Z.of_nat i)); ("path", JStr (decl_path c)); ("type", JStr (decl_type_name c));
        ("ports", JArr (port_json <$> decl_ports c))].

Definition latency_json (l : option LinkLatency) : Json :=
  match l with
  | None => JNull
  | Some (Latency_After d) => JObj [("after_fs", num d)]
  | Some (Latency_Cycles domain k) => JObj [("cycles", JObj [("domain", num domain); ("k", num k)])]
  end.

Definition link_json (l : LinkDecl) : Json :=
  JObj [("a", JArr [num (fst (link_a l)); num (snd (link_a l))]); ("b", JArr [num (fst (link_b l)); num (snd (link_b l))]);
        ("latency", latency_json (link_latency l))].

Definition header_json (h : TraceHeader) : Json :=
  JObj [("type", JStr "header"); ("format_version", num TRACE_FORMAT_VERSION); ("ticks_per_second", num (hdr_ticks_per_second h));
        ("seed", num (hdr_seed h)); ("contracts_version", JStr (hdr_contracts_version h)); ("topology_hash", JStr (hex (hdr_topology_hash h)));
        ("clock_domains", JArr (domain_json <$> hdr_clock_domains h)); ("components", JArr (imap component_json (hdr_components h)));
        ("links", JArr (link_json <$> hdr_links h))].

Definition at_json (at_ : TraceAt) : Json :=
  match at_ with
  | At_Init => JStr "init"
  | At_Event k => JObj [("tick", num (tick k)); ("phase", JStr (phase_name (phase k))); ("sequence", num (sequence k))]
  end.

Definition record_json (index : nat) (r : TraceRecord) : Json :=
  JObj [("type", JStr "record"); ("index", num (Z.of_nat index)); ("at", at_json (rec_at r)); ("origin", JStr (origin_name (rec_origin r)));
        ("component", num (rec_component r)); ("kind", JStr (rec_kind r)); ("fields", fields_json (rec_fields r))].

(** The lines of a trace's JSONL. *)
Definition trace_json (t : Trace) : list Json := header_json (header t) :: imap record_json (records t).

Lemma phase_plain p : all_chars plain (phase_name p) = true.
Proof.
  eapply all_chars_weaken, (phase_name_plain p). intros c. unfold plain. cbn beta. rewrite !andb_true_iff, !negb_true_iff.
  destruct c as [[] [] [] [] [] [] [] []]; vm_compute; intros [[? ?] ?]; try discriminate; auto.
Qed.

Lemma domain_text_json d : domain_text d = render (domain_json d).
Proof.
  unfold domain_text, domain_json. destruct (domain_tuple d) as [[[[id num_] den] offset] rounding].
  destruct (rounding =? 0); texts.
Qed.

Lemma port_text_json p : port_text p = render (port_json p).
Proof. unfold port_text, port_json. destruct (port_role p); texts. Qed.

Lemma array_text {A} (f : A -> string) (g : A -> Json) l :
  (forall x, f x = render (g x)) -> "[" +:+ join "," (f <$> l) +:+ "]" = render (JArr (g <$> l)).
Proof. intros Hfg. cbn [render]. rewrite <- list_fmap_compose. do 3 f_equal. apply list_fmap_ext. intros _ x _. apply Hfg. Qed.

Lemma iarray_text {A} (f : nat -> A -> string) (g : nat -> A -> Json) l :
  (forall i x, f i x = render (g i x)) -> "[" +:+ join "," (imap f l) +:+ "]" = render (JArr (imap g l)).
Proof. intros Hfg. cbn [render]. rewrite fmap_imap. do 3 f_equal. apply imap_ext. intros i x _. apply Hfg. Qed.

Lemma component_text_json i c : component_text i c = render (component_json i c).
Proof.
  unfold component_text, component_json. pose proof (array_text port_text port_json (decl_ports c) port_text_json) as Ha.
  set (J := JArr (port_json <$> decl_ports c)) in *. cbn [render fmap list_fmap join]. rewrite <- Ha, ?append_assoc. reflexivity.
Qed.

Lemma latency_text_json l : latency_text l = render (latency_json l).
Proof. destruct l as [[d|domain k]|]; cbn [latency_text latency_json]; texts. Qed.

Lemma link_text_json l : link_text l = render (link_json l).
Proof. unfold link_text, link_json. rewrite latency_text_json. set (J := latency_json (link_latency l)). texts. Qed.

Lemma header_text_json h : header_text h = render (header_json h) +:+ newline.
Proof.
  unfold header_text, header_json.
  pose proof (array_text domain_text domain_json (hdr_clock_domains h) domain_text_json) as Hd.
  pose proof (iarray_text component_text component_json (hdr_components h) component_text_json) as Hc.
  pose proof (array_text link_text link_json (hdr_links h) link_text_json) as Hl.
  set (D := JArr (domain_json <$> hdr_clock_domains h)) in *. set (K := JArr (imap component_json (hdr_components h))) in *.
  set (L := JArr (link_json <$> hdr_links h)) in *. cbn [render fmap list_fmap join]. rewrite <- Hd, <- Hc, <- Hl, (json_str_plain (hex _)) by apply hex_plain.
  rewrite ?append_assoc. reflexivity.
Qed.

Lemma at_text_json a : at_text a = render (at_json a).
Proof.
  destruct a as [|k]; [reflexivity |]. cbn [at_text at_json render fmap list_fmap join]. rewrite (json_str_plain (phase_name _)) by apply phase_plain.
  rewrite ?append_assoc. reflexivity.
Qed.

Lemma record_text_json i r : record_text i r = render (record_json i r) +:+ newline.
Proof.
  unfold record_text, record_json. rewrite at_text_json, json_fields_text. set (J := fields_json (rec_fields r)). set (A := at_json (rec_at r)).
  destruct (rec_origin r); texts.
Qed.

Lemma join_empty x l : join "" (x :: l) = x +:+ join "" l.
Proof. destruct l; [symmetry; apply append_nil | reflexivity]. Qed.

Lemma to_jsonl_text t : to_jsonl t = join "" ((fun j => render j +:+ newline) <$> trace_json t).
Proof.
  unfold to_jsonl, trace_json. rewrite fmap_cons, join_empty, header_text_json, fmap_imap. do 2 f_equal.
  apply imap_ext. intros i r _. apply record_text_json.
Qed.

(** * Reading the lines *)

Lemma json_ok_arr l : Forall json_ok l -> json_ok (JArr l).
Proof. cbn. induction 1; cbn; auto. Qed.

Lemma json_ok_imap {A} (f : nat -> A -> Json) l : (forall i x, json_ok (f i x)) -> Forall json_ok (imap f l).
Proof. intros Hf. apply Forall_lookup. intros i j. rewrite list_lookup_imap. destruct (l !! i); [|discriminate]. intros [= <-]. apply Hf. Qed.

Lemma json_ok_fmap {A} (f : A -> Json) l : (forall x, json_ok (f x)) -> Forall json_ok (f <$> l).
Proof. intros Hf. apply Forall_fmap, Forall_true. exact Hf. Qed.

Lemma value_json_ok v : json_ok (value_json v).
Proof. destruct v; cbn; auto. Qed.

Lemma fields_json_ok fs : json_ok (fields_json fs).
Proof. apply json_ok_arr, json_ok_fmap. intros [name v]. cbn. auto using value_json_ok. Qed.

Lemma domain_json_ok d : json_ok (domain_json d).
Proof. unfold domain_json. destruct (domain_tuple d) as [[[[? ?] ?] ?] ?]. cbn. auto 10. Qed.

Lemma header_json_ok h : json_ok (header_json h).
Proof.
  assert (Hd : json_ok (JArr (domain_json <$> hdr_clock_domains h))) by (apply json_ok_arr, json_ok_fmap, domain_json_ok).
  assert (Hc : json_ok (JArr (imap component_json (hdr_components h)))).
  { apply json_ok_arr, json_ok_imap. intros i c. assert (json_ok (JArr (port_json <$> decl_ports c))).
    { apply json_ok_arr, json_ok_fmap. intros p. cbn. auto 10. } cbn. auto 10. }
  assert (Hl : json_ok (JArr (link_json <$> hdr_links h))).
  { apply json_ok_arr, json_ok_fmap. intros l. assert (json_ok (latency_json (link_latency l))) by (destruct (link_latency l) as [[]|]; cbn; auto).
    cbn. auto 10. }
  cbn. auto 12.
Qed.

Lemma record_json_ok i r : json_ok (record_json i r).
Proof.
  pose proof (fields_json_ok (rec_fields r)). assert (json_ok (at_json (rec_at r))) by (destruct (rec_at r); cbn; auto). cbn. auto 10.
Qed.

Lemma trace_json_ok t : Forall json_ok (trace_json t).
Proof. constructor; [apply header_json_ok | apply json_ok_imap, record_json_ok]. Qed.

Lemma jsonl_read t : read_jsonl (to_jsonl t) = Some (trace_json t).
Proof. rewrite to_jsonl_text. apply read_jsonl_lines, trace_json_ok. Qed.

(** * The text determines the trace *)

Definition value_bytes (v : Value) : Prop := match v with VBytes bs => bytes_ok bs | _ => True end.

(** The bytes of a trace are bytes. *)
Definition trace_bytes (t : Trace) : Prop :=
  bytes_ok (hdr_topology_hash (header t)) /\ Forall (fun r => Forall (fun f => value_bytes (snd f)) (rec_fields r)) (records t).

(** Two traces that agree on everything the views show: the whole trace, a clock domain standing
    for its identifier, frequency, offset and rounding. *)
Definition same_trace (t t' : Trace) : Prop :=
  hdr_ticks_per_second (header t) = hdr_ticks_per_second (header t') /\ hdr_seed (header t) = hdr_seed (header t') /\
  hdr_contracts_version (header t) = hdr_contracts_version (header t') /\ hdr_topology_hash (header t) = hdr_topology_hash (header t') /\
  domain_tuple <$> hdr_clock_domains (header t) = domain_tuple <$> hdr_clock_domains (header t') /\
  hdr_components (header t) = hdr_components (header t') /\ hdr_links (header t) = hdr_links (header t') /\
  records t = records t'.

Lemma fmap_determines {A B C} (P : A -> Prop) (f : A -> B) (g : A -> C) l l' :
  (forall x y, P x -> P y -> f x = f y -> g x = g y) -> Forall P l -> Forall P l' -> f <$> l = f <$> l' -> g <$> l = g <$> l'.
Proof.
  intros Hf Hl. revert l'. induction Hl as [|x l Hx _ IH]; intros l' Hl' E; destruct Hl' as [|y l' Hy Hl']; try discriminate E; [reflexivity |].
  cbn in E |- *. injection E as Exy El. f_equal; [apply Hf; assumption | apply IH; assumption].
Qed.

Lemma imap_determines {A B} (P : A -> Prop) (f : nat -> A -> B) l l' :
  (forall i x y, P x -> P y -> f i x = f i y -> x = y) -> Forall P l -> Forall P l' -> imap f l = imap f l' -> l = l'.
Proof.
  intros Hf Hl. revert f l' Hf. induction Hl as [|x l Hx _ IH]; intros f l' Hf Hl' E; destruct Hl' as [|y l' Hy Hl']; try discriminate E; [reflexivity |].
  rewrite !imap_cons in E. injection E as Exy El. f_equal; [exact (Hf 0%nat x y Hx Hy Exy) |].
  apply (IH (f ∘ S)); [|exact Hl' | exact El]. intros i a b. apply Hf.
Qed.

Ltac injects E := injection E; clear E; intros; repeat match goal with Hd : dec _ = dec _ |- _ => apply dec_inj in Hd end.

Lemma value_json_inj v v' : value_bytes v -> value_bytes v' -> value_json v = value_json v' -> v = v'.
Proof.
  destruct v, v'; cbn; intros Hv Hv' E; try discriminate E; injects E; subst; try reflexivity.
  f_equal. apply hex_bytes_inj; assumption.
Qed.

Lemma fields_json_inj fs fs' : Forall (fun f => value_bytes (snd f)) fs -> Forall (fun f => value_bytes (snd f)) fs' ->
  fields_json fs = fields_json fs' -> fs = fs'.
Proof.
  intros Hv Hv' E. injection E as E. rewrite <- (list_fmap_id fs), <- (list_fmap_id fs').
  refine (fmap_determines (fun f => value_bytes (snd f)) _ id fs fs' _ Hv Hv' E). intros [n v] [n' v'] Hx Hy Ef. injection Ef as -> Ef.
  apply value_json_inj in Ef as ->; [reflexivity | exact Hx | exact Hy].
Qed.

Lemma domain_json_tuple d d' : domain_json d = domain_json d' -> domain_tuple d = domain_tuple d'.
Proof.
  pose proof (domain_tuple_range d) as Hd. pose proof (domain_tuple_range d') as Hd'. unfold domain_json.
  destruct (domain_tuple d) as [[[[id n] den] offset] ro], (domain_tuple d') as [[[[id' n'] den'] offset'] ro'].
  destruct Hd as (_ & _ & _ & _ & Hr), Hd' as (_ & _ & _ & _ & Hr'). intros E. injects E. subst. f_equal.
  destruct (Z.eqb_spec ro 0), (Z.eqb_spec ro' 0); try discriminate; lia.
Qed.

Lemma port_json_inj p p' : port_json p = port_json p' -> p = p'.
Proof. destruct p as [? [? ?] []], p' as [? [? ?] []]; intros E; injects E; subst; first [reflexivity | discriminate]. Qed.

Lemma component_json_inj i c c' : component_json i c = component_json i c' -> c = c'.
Proof.
  destruct c as [path ty ports], c' as [path' ty' ports']. intros E. injects E. cbn in *. subst. f_equal.
  rewrite <- (list_fmap_id ports), <- (list_fmap_id ports').
  eapply (fmap_determines (fun _ => True) port_json id); [| apply Forall_true; auto | apply Forall_true; auto | assumption].
  intros x y _ _. apply port_json_inj.
Qed.

Lemma link_json_inj l l' : link_json l = link_json l' -> l = l'.
Proof.
  destruct l as [[? ?] [? ?] [[]|]], l' as [[? ?] [? ?] [[]|]]; cbn; intros E; try discriminate E; injects E; subst; reflexivity.
Qed.

Lemma at_json_inj a a' : at_json a = at_json a' -> a = a'.
Proof.
  destruct a as [|[tk ph sq]], a' as [|[tk' ph' sq']]; cbn; intros E; try discriminate E; [reflexivity |]. injects E.
  repeat match goal with Hp : phase_name _ = phase_name _ |- _ => apply phase_name_inj in Hp end. subst. reflexivity.
Qed.

Lemma record_json_inj i r r' : Forall (fun f => value_bytes (snd f)) (rec_fields r) -> Forall (fun f => value_bytes (snd f)) (rec_fields r') ->
  record_json i r = record_json i r' -> r = r'.
Proof.
  destruct r as [a o c k fs], r' as [a' o' c' k' fs']. cbn [rec_fields]. intros Hv Hv' E. injection E as Ea Eo Ec Ek Ef.
  apply at_json_inj in Ea. apply dec_inj in Ec. cbn in Eo, Ek. assert (o = o') by (destruct o, o'; try discriminate Eo; reflexivity).
  assert (fs = fs') by (apply fields_json_inj; [assumption.. | unfold fields_json; f_equal; assumption]). cbn in *. congruence.
Qed.

Lemma trace_json_inj t t' : trace_bytes t -> trace_bytes t' -> trace_json t = trace_json t' -> same_trace t t'.
Proof.
  intros [Hh Hr] [Hh' Hr'] E. injection E as Etps Es Ev Eh Ed Ec El Er. unfold same_trace. split_and!.
  - apply dec_inj, Etps.
  - apply dec_inj, Es.
  - exact Ev.
  - apply hex_bytes_inj; assumption.
  - eapply (fmap_determines (fun _ => True) domain_json); [| apply Forall_true; auto | apply Forall_true; auto | exact Ed].
    intros x y _ _. apply domain_json_tuple.
  - eapply (imap_determines (fun _ => True) component_json); [| apply Forall_true; auto | apply Forall_true; auto | exact Ec].
    intros i x y _ _. apply component_json_inj.
  - rewrite <- (list_fmap_id (hdr_links (header t))), <- (list_fmap_id (hdr_links (header t'))).
    eapply (fmap_determines (fun _ => True) link_json id); [| apply Forall_true; auto | apply Forall_true; auto | exact El].
    intros x y _ _. apply link_json_inj.
  - eapply (imap_determines _ record_json); [| exact Hr | exact Hr' | exact Er]. intros i x y. apply record_json_inj.
Qed.

Lemma domains_json (ds ds' : list ClockDomain) : domain_tuple <$> ds = domain_tuple <$> ds' -> domain_json <$> ds = domain_json <$> ds'.
Proof.
  apply (fmap_determines (fun _ => True)); [| apply Forall_true; auto | apply Forall_true; auto].
  intros x y _ _ E. unfold domain_json. rewrite E. reflexivity.
Qed.

Lemma same_trace_json t t' : same_trace t t' -> trace_json t = trace_json t'.
Proof.
  intros (E1 & E2 & E3 & E4 & E5%domains_json & E6 & E7 & E8). unfold trace_json, header_json.
  rewrite E1, E2, E3, E4, E5, E6, E7, E8. reflexivity.
Qed.

(** C30: The JSONL view of a trace is JSON, one text per line: a reader gets back the header and the
    records, in order; and it loses nothing: two traces have the same text exactly when they agree
    on the whole header and on every record, with its position, its fields and their order. *)
Theorem jsonl_lossless t t' : trace_bytes t -> trace_bytes t' ->
  read_jsonl (to_jsonl t) = Some (trace_json t) /\ (to_jsonl t = to_jsonl t' <-> same_trace t t').
Proof.
  intros Hb Hb'. split; [apply jsonl_read |]. split.
  - intros E. apply trace_json_inj; [assumption.. |]. pose proof (jsonl_read t) as Hr. rewrite E, jsonl_read in Hr. congruence.
  - intros E%same_trace_json. rewrite !to_jsonl_text, E. reflexivity.
Qed.

(** * Perfetto *)

(** ** Slices *)

Definition begin (i txn : Z) (name : string) : Slice := mkSlice "b" i txn name.
Definition key (s : Slice) : Z * Z := (sl_initiator s, sl_txn s).

(** The slices of the records, in order. *)
Fixpoint slices (rs : list TraceRecord) (open : OpenSlices) : list Slice :=
  match rs with
  | [] => []
  | r :: rs => let '(open, s) := slice r open in option_list s ++ slices rs open
  end.

(** The last begin or end of a key. *)
Fixpoint last_of (k : Z * Z) (l : list Slice) : option Slice :=
  match l with
  | [] => None
  | s :: l => match last_of k l with Some s => Some s | None => if bool_decide (key s = k) then Some s else None end
  end.

(** The open slices after the slices [l]: those whose last slice is a begin. *)
Definition opened (l : list Slice) (open : OpenSlices) : Prop :=
  forall i txn name, open !! (i, txn) = Some name <-> last_of (i, txn) l = Some (begin i txn name).

Lemma last_of_snoc k l s : last_of k (l ++ [s]) = if bool_decide (key s = k) then Some s else last_of k l.
Proof.
  induction l as [|x l IH]; cbn; [destruct (bool_decide (key s = k)); reflexivity |]. rewrite IH.
  destruct (bool_decide (key s = k)); [reflexivity |]. reflexivity.
Qed.

(** A slice of a well-bracketed run: a begin, or the end of the last begin of its key. *)
Definition bracketed (before : list Slice) (s : Slice) : Prop :=
  s = begin (sl_initiator s) (sl_txn s) (sl_name s) \/
  sl_phase s = "e" /\ last_of (key s) before = Some (begin (sl_initiator s) (sl_txn s) (sl_name s)).

Lemma slice_cases (r : TraceRecord) (open : OpenSlices) :
  slice r open = (open, None) \/
  (exists i txn name, slice r open = (<[(i, txn) := name]> open, Some (begin i txn name))) \/
  (exists i txn name, open !! (i, txn) = Some name /\ slice r open = (delete (i, txn) open, Some (mkSlice "e" i txn name))).
Proof. unfold slice, begin. repeat case_match; eauto 10. Qed.

Lemma slice_opened r open l : opened l open ->
  let '(open', s) := slice r open in opened (l ++ option_list s) open' /\ match s with Some s => bracketed l s | None => True end.
Proof.
  intros Ho. destruct (slice_cases r open) as [->|[(i & txn & name & ->)|(i & txn & name & Hopen & ->)]]; [rewrite app_nil_r; auto | |].
  - split; [|left; reflexivity]. intros i' txn' name'. unfold option_list; cbn [option_rect]. rewrite last_of_snoc. unfold key, begin. cbn.
    destruct (decide ((i, txn) = (i', txn'))) as [E|E].
    + rewrite bool_decide_true by exact E. injection E as -> ->. rewrite lookup_insert_eq. split; [intros [= ->]; reflexivity | intros [= ->]; reflexivity].
    + rewrite bool_decide_false, lookup_insert_ne by exact E. apply Ho.
  - split; [|right; split; [reflexivity | apply Ho, Hopen]]. intros i' txn' name'. unfold option_list; cbn [option_rect]. rewrite last_of_snoc. unfold key, begin. cbn.
    destruct (decide ((i, txn) = (i', txn'))) as [E|E].
    + rewrite bool_decide_true by exact E. injection E as -> ->. rewrite lookup_delete_eq. split; discriminate.
    + rewrite bool_decide_false, lookup_delete_ne by exact E. apply Ho.
Qed.

Lemma slices_bracketed rs : forall open l, opened l open ->
  forall l1 s l2, slices rs open = l1 ++ s :: l2 -> bracketed (l ++ l1) s.
Proof.
  induction rs as [|r rs IH]; intros open l Ho l1 s l2 E; [destruct l1; discriminate E |]. cbn [slices] in E.
  pose proof (slice_opened r open l Ho) as Hs. destruct (slice r open) as [open' [x|]]; destruct Hs as [Ho' Hx]; cbn in E.
  - destruct l1 as [|y l1]; injection E as -> E; [rewrite app_nil_r; exact Hx |].
    specialize (IH open' _ Ho' l1 s l2 E). rewrite <- app_assoc in IH. exact IH.
  - rewrite app_nil_r in Ho'. exact (IH open' l Ho' l1 s l2 E).
Qed.

(** ** Timestamps *)

Lemma substring_all s : String.substring 0 (String.length s) s = s.
Proof. induction s as [|c s IH]; cbn; [reflexivity |]. rewrite IH. reflexivity. Qed.

(** The femtoseconds a text of microseconds with nine decimals writes. *)
Definition femtoseconds (ts : string) : Z :=
  let '(int, frac) := span is_digit ts in undec int * FS_PER_US + undec (String.substring 1 9 frac).

Lemma ts_num fs : num_ok (dec (fs / FS_PER_US) +:+ "." +:+ dec_digits 9 (fs mod FS_PER_US)).
Proof.
  destruct (dec_digits_ok 9 (fs mod FS_PER_US)) as [Hd Hl], (dec_shape (fs / FS_PER_US)) as (neg & int & -> & Hn & Hi).
  exists neg, int, ("." +:+ dec_digits 9 (fs mod FS_PER_US)). rewrite append_assoc. split_and!; auto.
  right. eexists. split_and!; [reflexivity | exact Hd |]. intros E0. rewrite E0 in Hl. discriminate Hl.
Qed.

(** A timestamp is the floor of the tick's femtoseconds. *)
Lemma ts_exact tick tps : 0 <= tick -> 0 < tps ->
  exists ts, perfetto_ts tick tps = Ok ts /\ num_ok ts /\ femtoseconds ts = tick * 10 ^ 15 / tps.
Proof.
  intros Ht Hp. unfold perfetto_ts. rewrite (proj2 (Z.eqb_neq tps 0)) by lia. eexists. split; [reflexivity |]. split; [apply ts_num |].
  change (10 ^ 15) with 1000000000000000. set (fs := tick * 1000000000000000 / tps). assert (Hfs : 0 <= fs) by (apply Z.div_pos; lia).
  assert (Hq : 0 <= fs / FS_PER_US) by (apply Z.div_pos; unfold FS_PER_US; lia).
  pose proof (Z.mod_pos_bound fs FS_PER_US ltac:(reflexivity)) as Hm.
  unfold femtoseconds. destruct (plain_int_shape _ (dec_pos _ Hq)) as [Hd _]. rewrite span_append; [|exact Hd | reflexivity].
  destruct (dec_digits_ok 9 (fs mod FS_PER_US)) as [_ Hl]. rewrite (undec_dec _ Hq).
  assert (Es : String.substring 1 9 ("." +:+ dec_digits 9 (fs mod FS_PER_US)) = dec_digits 9 (fs mod FS_PER_US)).
  { change (String.substring 0 9 (dec_digits 9 (fs mod FS_PER_US)) = dec_digits 9 (fs mod FS_PER_US)). rewrite <- Hl at 1. apply substring_all. }
  rewrite Es, undec_digits by exact Hm. pose proof (Z.div_mod fs FS_PER_US ltac:(discriminate)). lia.
Qed.

(** ** The document *)

Definition name_json (kind : string) (id : nat) (c : ComponentDecl) : Json :=
  let track := perfetto_track (Z.of_nat id) in
  JObj [("ph", JStr "M"); ("pid", num track); ("tid", num track); ("name", JStr kind); ("args", JObj [("name", JStr (decl_path c))])].

Definition names_json (cs : list ComponentDecl) : list Json :=
  mjoin (imap (fun id c => (fun kind => name_json kind id c) <$> ["process_name"; "thread_name"]) cs).

Definition instant_json (index : nat) (ts : string) (r : TraceRecord) : Json :=
  let track := perfetto_track (rec_component r) in
  JObj [("ph", JStr "i"); ("s", JStr "t"); ("pid", num track); ("tid", num track); ("ts", JNum ts); ("name", JStr (rec_kind r));
        ("args", JObj [("record", num (Z.of_nat index)); ("origin", JStr (origin_name (rec_origin r))); ("fields", fields_json (rec_fields r))])].

Definition slice_json (ts : string) (s : Slice) : Json :=
  let track := perfetto_track (sl_initiator s) in
  JObj [("ph", JStr (sl_phase s)); ("cat", JStr "mem"); ("id2", JObj [("local", JStr (dec (sl_initiator s) +:+ ":" +:+ dec (sl_txn s)))]);
        ("pid", num track); ("tid", num track); ("ts", JNum ts); ("name", JStr (sl_name s))].

(** An instant event per record, behind it the slice the record begins or ends. *)
Fixpoint events_json (tps : Z) (index : nat) (rs : list TraceRecord) (open : OpenSlices) : result string (list Json) :=
  match rs with
  | [] => Ok []
  | r :: rs =>
      ts ← perfetto_ts (record_tick r) tps;
      let '(open, s) := slice r open in
      rest ← events_json tps (S index) rs open;
      Ok (instant_json index ts r :: option_list (slice_json ts <$> s) ++ rest)
  end.

Lemma dec_plain n : all_chars plain (dec n) = true.
Proof.
  assert (Hp : forall s, all_chars is_digit s = true -> all_chars plain s = true).
  { intros s. apply all_chars_weaken. intros c Hc. destruct c as [[] [] [] [] [] [] [] []]; vm_compute in Hc |- *; first [reflexivity | discriminate Hc]. }
  destruct (dec_shape n) as (neg & int & -> & Hn & Hi). destruct (plain_int_shape int Hi) as [Hd%Hp _]. rewrite all_chars_append, Hd.
  destruct Hn as [->| ->]; reflexivity.
Qed.

Lemma name_event_json kind id c : all_chars plain kind = true -> name_event kind id c = render (name_json kind id c).
Proof.
  intros Hk. unfold name_event, name_json, track_text. cbn [render fmap list_fmap join]. rewrite (json_str_plain kind Hk), ?append_assoc. reflexivity.
Qed.

Lemma instant_event_json i ts r : instant_event i ts r = render (instant_json i ts r).
Proof.
  unfold instant_event, instant_json, track_text. rewrite json_fields_text. set (J := fields_json (rec_fields r)). destruct (rec_origin r); texts.
Qed.

Definition slice_plain (s : Slice) : Prop := all_chars plain (sl_phase s) = true /\ all_chars plain (sl_name s) = true.

Lemma slice_event_json ts s : slice_plain s -> slice_event ts s = render (slice_json ts s).
Proof.
  intros [Hp Hn]. unfold slice_event, slice_json, track_text. cbn [render fmap list_fmap join].
  rewrite (json_str_plain (sl_phase s) Hp), (json_str_plain (sl_name s) Hn), (json_str_plain (dec _ +:+ _)); [rewrite ?append_assoc; reflexivity |].
  rewrite !all_chars_append, !dec_plain. reflexivity.
Qed.

(** The names of the open slices need no escapes. *)
Definition open_plain (open : OpenSlices) : Prop := map_Forall (fun _ name => all_chars plain name = true) open.

Lemma slice_keeps_plain r open : open_plain open ->
  let '(open', s) := slice r open in open_plain open' /\ match s with Some s => slice_plain s | None => True end.
Proof.
  intros Ho. unfold slice. destruct (_ || _); [auto |]. destruct (field r "msg") as [[| | |msg|]|]; auto. destruct (field r "txn") as [[txn| | | |]|]; auto.
  destruct (_ || _); [destruct (field r "source") as [[source| | | |]|]; auto |].
  - split; [apply map_Forall_insert_2; [|exact Ho] |]; destruct (msg =? "ReadReq")%string; [reflexivity.. | split; reflexivity | split; reflexivity].
  - destruct (_ || _); [|auto]. destruct (open !! _) as [name|] eqn:E; [|auto].
    split; [apply map_Forall_delete, Ho |]. split; [reflexivity | exact (Ho _ _ E)].
Qed.

Lemma slice_json_ok ts s : num_ok ts -> json_ok (slice_json ts s).
Proof. intros Ht. cbn. auto 20. Qed.

Lemma instant_json_ok i ts r : num_ok ts -> json_ok (instant_json i ts r).
Proof. intros Ht. pose proof (fields_json_ok (rec_fields r)). cbn. auto 20. Qed.

Lemma record_events_json tps rs : tps <> 0 -> forall i open, open_plain open ->
  exists l, events_json tps i rs open = Ok l /\ record_events tps i rs open = Ok (render <$> l) /\ Forall json_ok l.
Proof.
  intros Htps. induction rs as [|r rs IH]; intros i open Ho; [exists []; auto |]. cbn [events_json record_events].
  unfold perfetto_ts. rewrite (proj2 (Z.eqb_neq tps 0) Htps). cbn [mbind result_bind].
  set (fs := record_tick r * 1000000000000000 / tps). pose proof (ts_num fs) as Hts. set (ts := dec (fs / FS_PER_US) +:+ _) in *.
  pose proof (slice_keeps_plain r open Ho) as Hs. destruct (slice r open) as [open' s]. destruct Hs as [Ho' Hs].
  destruct (IH (S i) open' Ho') as (l & -> & -> & Hl). cbn [mbind result_bind]. eexists. split; [reflexivity |]. split.
  - rewrite fmap_cons, fmap_app, instant_event_json. do 3 f_equal. destruct s as [s|]; [|reflexivity]. cbn. rewrite slice_event_json by exact Hs. reflexivity.
  - constructor; [apply instant_json_ok, Hts |]. apply Forall_app. split; [|exact Hl]. destruct s; [|constructor].
    apply Forall_singleton, slice_json_ok, Hts.
Qed.

Lemma names_text cs : names cs = render <$> names_json cs.
Proof.
  unfold names, names_json. enough (forall (f g : nat -> ComponentDecl -> list _), (forall i c, f i c = render <$> g i c) ->
    mjoin (imap f cs) = render <$> mjoin (imap g cs)) as Hg.
  { apply Hg. intros i c. cbn [fmap list_fmap]. rewrite !name_event_json by reflexivity. reflexivity. }
  induction cs as [|c cs IH]; intros f g Hfg; [reflexivity |]. rewrite !imap_cons. cbn [mjoin list_join]. rewrite fmap_app, Hfg. f_equal.
  apply IH. intros i x. apply Hfg.
Qed.

Lemma names_json_ok cs : Forall json_ok (names_json cs).
Proof.
  unfold names_json. apply Forall_join, Forall_lookup. intros i l. rewrite list_lookup_imap. destruct (cs !! i); [|discriminate]. intros [= <-].
  repeat constructor; apply dec_num.
Qed.

Lemma read_member n k s :
  read_members (S n) (json_str k +:+ ":" +:+ s) =
  '(v, s) ← read n s;
  match expect "," (skip s) with
  | Some s => '(l, s) ← read_members n s; Some ((k, v) :: l, s)
  | None => s ← expect "}" (skip s); Some ([(k, v)], s)
  end.
Proof. cbn [read_members]. change (skip (json_str k +:+ ?t)) with (json_str k +:+ t). rewrite read_string_str. reflexivity. Qed.

Definition document (events : list Json) : Json := JObj [("displayTimeUnit", JStr "ns"); ("traceEvents", JArr events)].

Lemma read_document l : Forall json_ok l ->
  read_json (js "{'displayTimeUnit':'ns','traceEvents':[" +:+ newline +:+ join ("," +:+ newline) (render <$> l) +:+ newline +:+ "]}" +:+ newline)
  = Some (document l).
Proof.
  intros Hl. set (body := join ("," +:+ newline) (render <$> l)). set (text := js _ +:+ _).
  assert (Et : text = "{" +:+ json_str "displayTimeUnit" +:+ ":" +:+ render (JStr "ns") +:+ "," +:+ json_str "traceEvents" +:+ ":" +:+
    "[" +:+ newline +:+ body +:+ newline +:+ "]" +:+ "}" +:+ newline) by reflexivity.
  assert (Hn : exists n, String.length text = S (S (S n)) /\ (String.length body + 10 < n)%nat).
  { exists (String.length text - 3)%nat. unfold text. rewrite !length_append.
    set (a := String.length (js _)). assert (a = 39%nat) as -> by reflexivity. cbn [String.length newline]. lia. }
  destruct Hn as (n & Hn & Hb). unfold read_json. rewrite Hn, Et, read_brace. change (expect "}" (skip (json_str _ +:+ _))) with (@None string). cbn beta iota.
  rewrite read_member, (read_render (JStr "ns") I); [|change (String.length (render (JStr "ns"))) with 4%nat; lia | reflexivity]. cbn [mbind option_bind].
  change (expect "," (skip ("," +:+ ?s))) with (Some s). cbn beta iota. rewrite read_member.
  unfold body in *. rewrite read_array; try reflexivity; [| | lia].
  - eapply Forall_impl; [exact Hl |]. apply read_render.
  - eapply Forall_impl; [exact Hl |]. apply render_starts.
Qed.

(** C31: The Perfetto view of a trace is one JSON document: the names of the components' tracks, then
    for each record an instant event and the slice it begins or ends.  Its timestamps are the
    exact floor of the ticks in femtoseconds, and its slices are brackets: each end closes the
    last begin of its initiator and transaction, under the name of that request. *)
Theorem perfetto_well_formed t :
  0 < hdr_ticks_per_second (header t) ->
  (exists text events, to_perfetto t = Ok text /\
     events_json (hdr_ticks_per_second (header t)) 0 (records t) ∅ = Ok events /\
     read_json text = Some (document (names_json (hdr_components (header t)) ++ events))) /\
  (forall r, r ∈ records t -> 0 <= record_tick r ->
     exists ts, perfetto_ts (record_tick r) (hdr_ticks_per_second (header t)) = Ok ts /\
       femtoseconds ts = record_tick r * 10 ^ 15 / hdr_ticks_per_second (header t)) /\
  (forall l1 s l2, slices (records t) ∅ = l1 ++ s :: l2 -> bracketed l1 s).
Proof.
  intros Htps. split_and!.
  - destruct (record_events_json _ (records t) (Z.neq_sym _ _ (Z.lt_neq _ _ Htps)) 0 ∅ (map_Forall_empty _)) as (l & He & Hr & Hl).
    unfold to_perfetto. rewrite Hr. cbn [mbind result_bind]. eexists _, l. split; [reflexivity |]. split; [exact He |].
    rewrite names_text, <- fmap_app. apply read_document, Forall_app. split; [apply names_json_ok | exact Hl].
  - intros r _ Hr. destruct (ts_exact (record_tick r) _ Hr Htps) as (ts & ? & _ & ?). eauto.
  - intros l1 s l2 E. apply (slices_bracketed (records t) ∅ [] ltac:(split; discriminate) l1 s l2 E).
Qed.
End views.
