(* ===== verification/RuntimeProofs.v ===== *)
(** The session as a state machine, and what its driver and observers cannot change.

    [Core] is the simulation state of a session: what a snapshot holds, the wiring and the
    lifecycle.  [core_dispatch] is the event loop of [docs/m0-design.md] §4.4 on it, without
    observers, traces, points or pauses.  The runtime refines it: whatever watches a session,
    [dispatch], [run] and [run_until] do to its core what the bare loop does
    ([observation_transparent]), because a handler cannot tell two contexts apart that differ
    in their records ([uniform]).  Runs end: within the events rule S5 allows up to the
    horizon ([run_until_terminates]).  The invariant of every session ([core_ok]), and that no
    driver call panics, are [session_invariant]. *)
From stdpp Require Import base numbers list option strings.
From Stdlib Require Import ZArith Lia.
From S2P Require Import Prelude Contracts Handlers Snapshots Session Scheduler Trace Rng Runtime.

Local Open Scope string_scope.
Local Open Scope list_scope.
Local Open Scope Z_scope.

(** * The simulation state *)

Section core.
Context `{EventOrder, Clocks, Protocols, Blake3, SnapshotCodec, !Canonical}.
Context {B : Type} `{!Component B}.

(** What never changes after elaboration. *)
Record Static : Type := mkStatic {
  st_clock : SimulationClock; st_domains : list ClockDomain; st_slots : list SlotInfo;
  st_peers : list (list Peer); st_links : list LinkDecl; st_topology_hash : list Z;
  st_config : SessionConfig }.

Record Core : Type := mkCore {
  k_static : Static;
  k_components : list B;
  k_rngs : list Xoshiro256StarStar;
  k_scheduler : Scheduler Pending;
  k_digest : list Z;
  k_lifecycle : Lifecycle;
  k_fault : option SimError;
}.

Definition core_fault {A} (e : SimError) (k : Core) : Core * result Stopped A :=
  (mkCore (k_static k) (k_components k) (k_rngs k) (k_scheduler k) (k_digest k) Faulted (Some e),
   Err (Refused (RuntimeError_Faulted e))).

(** The running component and its context, with nothing that records. *)
Definition core_context (who : Z) (at_ : TraceAt) (k : Core) : option (B * Ctx) :=
  let index := Z.to_nat who in
  slot ← st_slots (k_static k) !! index;
  ps ← st_peers (k_static k) !! index;
  rng ← k_rngs k !! index;
  b ← k_components k !! index;
  Some (b, mkCtx who (st_clock (k_static k)) (st_domains (k_static k)) (info_ports slot) ps
             (k_scheduler k) rng None at_ None None).

Definition core_call (who : Z) (at_ : TraceAt) (m : ST (B * Ctx) Failure unit) (k : Core) :
    Core * result Stopped unit :=
  match core_context who at_ k with
  | None => (k, Err (Panicked "index out of bounds"))
  | Some (b, c) =>
      let '((b, c), res) := m (b, c) in
      let k := mkCore (k_static k) (<[Z.to_nat who := b]> (k_components k))
                 (<[Z.to_nat who := ctx_rng c]> (k_rngs k)) (ctx_scheduler c) (k_digest k)
                 (k_lifecycle k) (k_fault k) in
      match ctx_panic c, ctx_error c, res with
      | Some w, _, _ => (k, Err (Panicked w))
      | None, _, Err (Panics w) => (k, Err (Panicked w))
      | None, Some e, _ => core_fault e k
      | None, None, Err (Fails e) => core_fault e k
      | None, None, Ok _ => (k, Ok tt)
      end
  end.

(** One event of the loop. *)
Definition core_dispatch (k : Core) : Core * result Stopped (option CanonicalEvent) :=
  match Scheduler.pop (k_scheduler k) with
  | (_, Err (Panics w)) => (k, Err (Panicked w))
  | (_, Err (Fails e)) => core_fault e k
  | (_, Ok None) => (k, Ok None)
  | (s, Ok (Some event)) =>
      let p := payload event in
      let ev := mkCanonicalEvent (key event) (source p) (target p) (delivery p) in
      let k := mkCore (k_static k) (k_components k) (k_rngs k) s (chain (k_digest k) ev)
                 (k_lifecycle k) (k_fault k) in
      match core_call (target p) (At_Event (key event)) (component_handle (delivery p) Ctx) k with
      | (k, Err e) => (k, Err e)
      | (k, Ok _) => (k, Ok (Some ev))
      end
  end.

(** A turn of the loop up to a horizon, before the turns of [rest]. *)
Definition core_turn (until : Z) (rest : Core -> Core * result Stopped Z) (k : Core) :
    Core * result Stopped Z :=
  match Scheduler.peek_key (k_scheduler k) with
  | None => (k, Ok 0)
  | Some next =>
      if until <? tick next then (k, Ok 0)
      else
        match core_dispatch k with
        | (k, Err e) => (k, Err e)
        | (k, Ok _) =>
            match rest k with
            | (k, Ok n) => (k, Ok (n + 1))
            | (k, Err e) => (k, Err e)
            end
        end
  end.

(** The loop: the number of events dispatched. *)
Fixpoint core_run (fuel : nat) (until : Z) : Core -> Core * result Stopped Z :=
  match fuel with
  | O => fun k => (k, Err OutOfFuel)
  | S fuel => core_turn until (core_run fuel until)
  end.
End core.

(** The same simulation, up to the arrangement of the event heap. *)
#[export] Instance core_equiv `{Clocks} {B} : Equiv (Core (B := B)) := fun k k' =>
  k_static k = k_static k' /\ k_components k = k_components k' /\ k_rngs k = k_rngs k' /\
  k_scheduler k ≡ k_scheduler k' /\ k_digest k = k_digest k' /\ k_lifecycle k = k_lifecycle k' /\
  k_fault k = k_fault k'.

#[export] Instance core_equivalence `{Clocks} {B} : Equivalence (≡@{Core (B := B)}).
Proof.
  split.
  - intros k. split_and!; reflexivity.
  - intros k k' (? & ? & ? & ? & ? & ? & ?). split_and!; symmetry; assumption.
  - intros k1 k2 k3 (? & ? & ? & ? & ? & ? & ?) (? & ? & ? & ? & ? & ? & ?).
    split_and!; etransitivity; eassumption.
Qed.

(** Two computations that leave the same simulation and answer alike. *)
Definition alike {R A A' E} `{Clocks} {B} (abs : R -> Core (B := B)) (f : A -> A')
    (x : R * result E A) (y : Core (B := B) * result E A') : Prop :=
  abs (fst x) ≡ fst y /\
  match snd x, snd y with
  | Ok a, Ok a' => f a = a'
  | Err e, Err e' => e = e'
  | _, _ => False
  end.

(** * Contexts a handler cannot tell apart *)

Section contexts.
Context `{EventOrder, Clocks, Protocols}.

(** They differ in their records and in the arrangement of the heap. *)
Definition ctx_like (c d : Ctx) : Prop :=
  me c = me d /\ ctx_clock c = ctx_clock d /\ ctx_domains c = ctx_domains d /\
  ctx_ports c = ctx_ports d /\ ctx_peers c = ctx_peers d /\ ctx_scheduler c ≡ ctx_scheduler d /\
  ctx_rng c = ctx_rng d /\ ctx_error c = ctx_error d /\ ctx_panic c = ctx_panic d.

Lemma now_proper {T} (s s' : Scheduler T) : s ≡ s' -> Scheduler.now s = Scheduler.now s'.
Proof. intros (_ & Hl & _). unfold Scheduler.now. rewrite Hl. reflexivity. Qed.

Lemma current_phase_proper {T} (s s' : Scheduler T) :
  s ≡ s' -> Scheduler.current_phase s = Scheduler.current_phase s'.
Proof. intros (_ & Hl & _). unfold Scheduler.current_phase. rewrite Hl. reflexivity. Qed.

Definition like_answer {A} (x y : Ctx * A) : Prop := ctx_like (fst x) (fst y) /\ snd x = snd y.

Lemma schedule_like tick ph p c d :
  ctx_like c d -> like_answer (ctx_schedule tick ph p c) (ctx_schedule tick ph p d).
Proof.
  intros (Hm & Hc & Hd & Hpo & Hpe & Hs & Hr & He & Hp). unfold ctx_schedule.
  destruct (schedule_proper tick ph p _ _ Hs) as [Hres Hs'].
  destruct (schedule tick ph p (ctx_scheduler c)), (schedule tick ph p (ctx_scheduler d)). cbn in *.
  subst. split; [|reflexivity]. split_and!; assumption.
Qed.

Lemma record_like x y : like_answer x y -> like_answer (record x) (record y).
Proof.
  destruct x as [c r], y as [d q]. intros [Hl Hr]. cbn in Hl, Hr. subst q.
  pose proof Hl as (Hm & Hc & Hd & Hpo & Hpe & Hs & Hg & He & Hp). unfold record. rewrite <- He.
  destruct r as [[]|e], (ctx_error c); (split; [|reflexivity]); try exact Hl. split_and!; assumption || reflexivity.
Qed.

Lemma try_send_like port msg when ph c d :
  ctx_like c d -> like_answer (try_send port msg when ph c) (try_send port msg when ph d).
Proof.
  intros Hl. pose proof Hl as (Hm & Hc & Hd & Hpo & Hpe & Hs & Hg & He & Hp). unfold try_send.
  rewrite <- Hpo, <- Hpe, <- Hc, <- Hd, <- Hm, <- (now_proper _ _ Hs).
  repeat case_goal; first [apply schedule_like, Hl | split; [exact Hl | reflexivity] | idtac].
  split; [|reflexivity]. split_and!; assumption || reflexivity.
Qed.

Lemma try_wake_like when ph token c d :
  ctx_like c d -> like_answer (try_wake when ph token c) (try_wake when ph token d).
Proof.
  intros Hl. pose proof Hl as (Hm & Hc & Hd & _ & _ & Hs & _). unfold try_wake.
  rewrite <- Hc, <- Hd, <- Hm, <- (now_proper _ _ Hs).
  case_goal; [apply schedule_like, Hl | split; [exact Hl | reflexivity]].
Qed.

Lemma ctx_like_rel : ctx_rel ctx_like.
Proof.
  split; cbn.
  - intros c d Hl. apply Hl.
  - intros c d Hl. apply now_proper, Hl.
  - intros c d Hl. apply current_phase_proper, Hl.
  - intros c d (Hm & Hc & Hd & Hpo & Hpe & Hs & Hg & He & Hp). unfold rng_next_u64. rewrite <- Hg.
    destruct (next_u64 (ctx_rng c)). split; [split_and!; assumption || reflexivity | reflexivity].
  - intros port msg when ph c d Hl. unfold send. pose proof Hl as (_ & _ & _ & _ & _ & _ & _ & He & _).
    rewrite <- He. destruct (ctx_error c); [split; [exact Hl | reflexivity] |].
    apply record_like, try_send_like, Hl.
  - intros when ph token c d Hl. unfold wake_self. pose proof Hl as (_ & _ & _ & _ & _ & _ & _ & He & _).
    rewrite <- He. destruct (ctx_error c); [split; [exact Hl | reflexivity] |].
    apply record_like, try_wake_like, Hl.
  - intros kind fields c d Hl. unfold trace_push.
    destruct (ctx_records c), (ctx_records d); exact Hl.
Qed.
End contexts.

(** * Progress *)

(** Events dispatched and failed to schedule since the start: a dispatch adds one, scheduling
    nothing. *)
Definition dispatches {T} (s : Scheduler T) : Z := next_sequence s - Z.of_nat (length (heap s)).

(** Where the cursor is: the events rule S5 allows before it. *)
Definition position {T} (s : Scheduler T) : Z :=
  match last_dispatched s with
  | None => 0
  | Some l => (tick l * 4 + phase_rank (phase l)) * max_events_per_phase (Scheduler.config s) + dispatched_in_phase s
  end.

(** The events rule S5 allows up to the end of tick [until]. *)
Definition horizon_events (until : Z) (c : SchedulerConfig) : Z := 4 * (until + 1) * max_events_per_phase c.

Record same_cursor {T} (s s' : Scheduler T) : Prop := {
  cursor_config : Scheduler.config s' = Scheduler.config s;
  cursor_last : last_dispatched s' = last_dispatched s;
  cursor_count : dispatched_in_phase s' = dispatched_in_phase s;
  cursor_dispatches : dispatches s' = dispatches s;
}.

Section progress.
Context `{EventOrder}.

Lemma sched_now_nonneg {T} (s : Scheduler T) : sched_ok s -> 0 <= Scheduler.now s.
Proof. intros (_ & _ & _ & _ & _ & Hl). unfold Scheduler.now. destruct (last_dispatched s); lia. Qed.

Lemma dispatches_range {T} (s : Scheduler T) : sched_ok s -> 0 <= dispatches s < 2 ^ 64.
Proof.
  intros (Hs & _ & Hc & _ & _ & Hl). unfold dispatches, in_u in *. destruct (last_dispatched s); lia.
Qed.

Lemma schedule_cursor {T} t ph (p : T) s :
  sched_ok s -> sched_ok (fst (schedule t ph p s)) /\ same_cursor s (fst (schedule t ph p s)).
Proof.
  intros Hok. destruct (schedule_cases t ph p s) as [[Ha E]|[_ [e E]]].
  - split; [apply schedule_ok; [|exact Hok]; pose proof (sched_now_nonneg s Hok); destruct Ha as (_ & _ & ?); lia |].
    rewrite E. cbn. split; cbn; try reflexivity. unfold dispatches. cbn. lia.
  - rewrite E. split; [exact Hok |]. split; reflexivity.
Qed.

(** A dispatch moves the cursor forward and stays within what rule S5 allows. *)
Lemma pop_position {T} (s s' : Scheduler T) e :
  sched_ok s -> Scheduler.pop s = (s', Ok (Some e)) ->
  position s < position s' <= horizon_events (tick (key e)) (Scheduler.config s) /\
  dispatches s' = dispatches s + 1 /\ Scheduler.config s' = Scheduler.config s /\
  last_dispatched s' = Some (key e).
Proof.
  intros Hok E. pose proof (pop_correct s Hok) as Hp. pose proof (pop_ok s Hok) as Hok'. rewrite E in Hp, Hok'.
  cbn [fst] in Hok'. destruct Hp as (Hperm & _ & Hlt & Hc & Hl & Hn & Hcnt & Hmax).
  destruct Hok as (_ & _ & _ & _ & _ & Hlast). destruct Hok' as (_ & _ & _ & _ & _ & Hlast').
  rewrite Hl in Hlast'. split; [|split; [|split; assumption]].
  - unfold position, horizon_events. rewrite Hl, Hc in *. set (m := max_events_per_phase (Scheduler.config s)) in *.
    assert (Hr : 0 <= phase_rank (phase (key e)) <= 3) by (destruct Hlast' as (_ & _ & Hph & _), (phase (key e)); cbn; congruence || lia).
    destruct (last_dispatched s) as [l|]; [|split; [nia | nia]]. apply key_lt_spec in Hlt.
    destruct Hlast as ([Hd1 Hd2] & _ & Hph & Ht). case_bool_decide as Hb.
    + destruct Hb as [-> ->]. split; [lia | nia].
    + assert (tick l * 4 + phase_rank (phase l) + 1 <= tick (key e) * 4 + phase_rank (phase (key e))).
      { assert (0 <= phase_rank (phase l) <= 3) by (destruct (phase l); cbn; congruence || lia).
        destruct Hlt as [?|[? [?|[? ?]]]]; [lia | lia | tauto]. }
      split; nia.
  - unfold dispatches. rewrite Hn, Hperm. cbn. lia.
Qed.
End progress.

(** * What handlers do to the event queue *)

Section queue.
Context `{EventOrder, Clocks, Protocols, Blake3, SnapshotCodec, !Canonical}.

Lemma uniform_keeps {S A C} `{SimContext C} (m : forall C `{SimContext C}, ST (S * C) Failure A)
    (P : C -> Prop) s c :
  uniform (fun C _ => m C) -> ctx_rel (fun c d => c = d /\ P c) -> P c -> P (snd (fst (m C (s, c)))).
Proof. intros Hm HR Hc. apply (Hm C C _ _ _ HR s c c (conj eq_refl Hc)). Qed.

(** Whatever scheduling keeps, the calls of a context keep. *)
Lemma scheduling_keeps (Q : Scheduler Pending -> Prop) :
  (forall t ph p s, Q s -> Q (fst (schedule t ph p s))) ->
  ctx_rel (fun c d : Ctx => c = d /\ Q (ctx_scheduler c)).
Proof.
  intros HQ.
  assert (Hsch : forall t ph p c, Q (ctx_scheduler c) -> Q (ctx_scheduler (fst (ctx_schedule t ph p c)))).
  { intros t ph p c Hc. unfold ctx_schedule. specialize (HQ t ph p _ Hc). destruct (schedule _ _ _ _). exact HQ. }
  assert (Hrec : forall x, ctx_scheduler (fst (record x)) = ctx_scheduler (fst x)).
  { intros [c [[]|e]]; cbn; [reflexivity |]. destruct (ctx_error c); reflexivity. }
  split; cbn; try (intros c d [-> _]; reflexivity).
  - intros c d [-> Hc]. split; [|reflexivity]. split; [reflexivity |]. unfold rng_next_u64.
    destruct (next_u64 _). exact Hc.
  - intros port msg when ph c d [-> Hc]. split; [|reflexivity]. split; [reflexivity |]. unfold send.
    destruct (ctx_error d); [exact Hc |]. rewrite Hrec. unfold try_send.
    repeat case_goal; first [exact Hc | apply Hsch, Hc].
  - intros when ph token c d [-> Hc]. split; [|reflexivity]. split; [reflexivity |]. unfold wake_self.
    destruct (ctx_error d); [exact Hc |]. rewrite Hrec. unfold try_wake.
    repeat case_goal; first [exact Hc | apply Hsch, Hc].
  - intros kind fields c d [-> Hc]. split; [reflexivity |]. unfold trace_push. destruct (ctx_records d); exact Hc.
Qed.

Context {B : Type} `{!Component B, !UniformComponent B}.

Lemma core_call_scheduler (Q : Scheduler Pending -> Prop) who at_
    (m : forall C `{SimContext C}, ST (B * C) Failure unit) k :
  uniform (fun C _ => m C) -> (forall t ph p s, Q s -> Q (fst (schedule t ph p s))) ->
  Q (k_scheduler k) -> Q (k_scheduler (fst (core_call who at_ (m Ctx) k))).
Proof.
  intros Hm HQ Hk. unfold core_call. destruct (core_context who at_ k) as [[b c]|] eqn:E; [|exact Hk].
  assert (Hc : Q (ctx_scheduler c)).
  { unfold core_context in E. repeat (apply bind_Some in E as (? & _ & E)). injection E as <- <-. exact Hk. }
  pose proof (uniform_keeps m (Q ∘ ctx_scheduler) b c Hm (scheduling_keeps Q HQ) Hc) as Hc'.
  destruct (m Ctx _ (b, c)) as [[b' c'] res]. cbn in Hc'.
  repeat case_goal; exact Hc'.
Qed.

(** What an event does to the cursor. *)
Lemma core_dispatch_cursor (k : Core (B := B)) :
  sched_ok (k_scheduler k) ->
  let '(k', res) := core_dispatch k in
  sched_ok (k_scheduler k') /\ Scheduler.config (k_scheduler k') = Scheduler.config (k_scheduler k) /\
  k_static k' = k_static k /\
  match res with
  | Ok None => k' = k /\ heap (k_scheduler k) = []
  | Ok (Some ev) =>
      position (k_scheduler k) < position (k_scheduler k') <=
        horizon_events (tick (ev_key ev)) (Scheduler.config (k_scheduler k)) /\
      dispatches (k_scheduler k') = dispatches (k_scheduler k) + 1 /\
      last_dispatched (k_scheduler k') = Some (ev_key ev) /\
      Scheduler.peek_key (k_scheduler k) = Some (ev_key ev) /\ k_lifecycle k' = k_lifecycle k
  | Err _ => True
  end.
Proof.
  intros Hok. pose proof (pop_ok _ Hok) as Hok1. pose proof (pop_correct _ Hok) as Hp. unfold core_dispatch.
  destruct (Scheduler.pop (k_scheduler k)) as [s1 [[e|]|[e|w]]] eqn:E; cbn [fst] in *.
  2-4: destruct Hp as [-> ?]; cbn; split_and!; auto.
  destruct (pop_position _ _ _ Hok E) as (Hpos & Hdis & Hcfg & Hlast).
  set (k1 := mkCore _ _ _ _ _ _ _).
  pose proof (core_call_scheduler (fun s => sched_ok s /\ same_cursor s1 s) (target (payload e)) (At_Event (key e))
    (fun C _ => component_handle (delivery (payload e)) C) k1 (handle_uniform _)) as Hc.
  cbn beta in Hc.
  assert (Hcall : forall k2 res, core_call (target (payload e)) (At_Event (key e)) (component_handle (delivery (payload e)) Ctx) k1 = (k2, res) ->
    k_static k2 = k_static k1 /\ match res with Ok _ => k_lifecycle k2 = k_lifecycle k1 | _ => True end).
  { intros k2 res. unfold core_call. repeat case_goal; intros [= <- <-]; cbn; auto. }
  destruct (core_call _ _ _ k1) as [k2 res]. destruct (Hcall _ _ eq_refl) as [Hst Hlf]. cbn [fst] in Hc.
  destruct Hc as [Hok2 [C1 C2 C3 C4]].
  { intros t ph p s [Hs [D1 D2 D3 D4]]. destruct (schedule_cursor t ph p s Hs) as [Hs' [F1 F2 F3 F4]].
    split; [exact Hs' |]. split; congruence. }
  { split; [exact Hok1 | split; reflexivity]. }
  destruct res as [[]|]; cbn [fst]; (split; [exact Hok2 |]); (split; [congruence |]); (split; [exact Hst |]); [|exact I].
  cbn [ev_key]. split_and!; try congruence.
  - unfold position in *. rewrite C1, C2, C3. lia.
  - unfold position in *. rewrite C1, C2, C3. lia.
  - unfold Scheduler.pop in E. destruct (Scheduler.peek_key (k_scheduler k)) as [nk|] eqn:Ek; [|discriminate].
    revert E. unfold Scheduler.peek_key in Ek. destruct (heap_pop _) as [[e' rest]|]; [|discriminate].
    cbn in Ek. injection Ek as <-. repeat case_goal; intros [= _ <-]; reflexivity.
  - exact Hlf.
Qed.
End queue.

(** * Runs of the bare loop *)

Section runs.
Context `{EventOrder, Clocks, Protocols, Blake3, SnapshotCodec, !Canonical}.
Context {B : Type} `{!Component B, !UniformComponent B}.

Local Abbreviation Core := (Core (B := B)).

(** [n] events at or before [until], all dispatched. *)
Inductive advances (until : Z) : Z -> Core -> Core -> Prop :=
| advances_none k : advances until 0 k k
| advances_event n k k1 k2 ev :
    advances until n k k1 -> core_dispatch k1 = (k2, Ok (Some ev)) -> tick (ev_key ev) <= until ->
    advances until (n + 1) k k2.

Lemma advances_sched until n k k' :
  advances until n k k' -> sched_ok (k_scheduler k) ->
  sched_ok (k_scheduler k') /\ Scheduler.config (k_scheduler k') = Scheduler.config (k_scheduler k) /\
  dispatches (k_scheduler k') = dispatches (k_scheduler k) + n /\ k_lifecycle k' = k_lifecycle k /\
  position (k_scheduler k) + n <= position (k_scheduler k') /\
  (n = 0 \/ position (k_scheduler k') <= horizon_events until (Scheduler.config (k_scheduler k))).
Proof.
  induction 1 as [|n k k1 k2 ev Hadv IH E Ht]; intros Hok; [split_and!; auto; lia |].
  destruct (IH Hok) as (Hok1 & Hc1 & Hd1 & Hl1 & Hp1 & _). pose proof (core_dispatch_cursor k1 Hok1) as Hc.
  rewrite E in Hc. destruct Hc as (Hok2 & Hc2 & _ & Hp2 & Hd2 & _ & _ & Hl2).
  split_and!; try congruence; try lia; auto. right. rewrite Hc1 in Hp2. destruct Hok1 as (_ & Hm & _).
  rewrite Hc1 in Hm. unfold horizon_events, in_u in *. nia.
Qed.

Lemma core_dispatch_fuel (k : Core) : snd (core_dispatch k) <> Err OutOfFuel.
Proof.
  assert (Hc : forall who at_ m (k : Core), snd (core_call who at_ m k) <> Err OutOfFuel).
  { intros. unfold core_call, core_fault. repeat case_goal; discriminate. }
  unfold core_dispatch, core_fault. destruct (Scheduler.pop _) as [s [[e|]|[e|w]]]; try discriminate.
  match goal with |- context [core_call ?w ?a ?m ?k] => pose proof (Hc w a m k); destruct (core_call w a m k) as [? [?|?]] end;
    cbn in *; congruence.
Qed.

(** One more turn of the loop. *)
Lemma core_run_more fuel until k :
  snd (core_run fuel until k) <> Err OutOfFuel -> core_run (S fuel) until k = core_run fuel until k.
Proof.
  revert k. induction fuel as [|fuel IH]; intros k Hn; [contradiction Hn; reflexivity |].
  change (core_run (S (S fuel)) until k) with (core_turn until (core_run (S fuel) until) k).
  change (core_run (S fuel) until k) with (core_turn until (core_run fuel until) k) in Hn |- *.
  unfold core_turn in *. destruct (Scheduler.peek_key _) as [next|]; [|reflexivity].
  destruct (until <? _); [reflexivity |]. destruct (core_dispatch k) as [k1 [o|e]]; [|reflexivity].
  rewrite IH; [reflexivity |]. intros E. apply Hn. destruct (core_run fuel until k1) as [k2 [n|e]]; cbn in *; congruence.
Qed.

Lemma core_run_mono fuel fuel' until k :
  (fuel <= fuel')%nat -> snd (core_run fuel until k) <> Err OutOfFuel ->
  core_run fuel' until k = core_run fuel until k.
Proof.
  induction 1 as [|fuel' _ IH]; intros Hn; [reflexivity |]. rewrite <- IH by exact Hn.
  apply core_run_more. rewrite IH by exact Hn. exact Hn.
Qed.

(** A run continues from where [n] events led. *)
Lemma advances_run until n k k' fuel :
  advances until n k k' -> sched_ok (k_scheduler k) -> snd (core_run fuel until k') <> Err OutOfFuel ->
  exists fuel', core_run fuel' until k =
    match core_run fuel until k' with
    | (k'', Ok m) => (k'', Ok (n + m))
    | (k'', Err e) => (k'', Err e)
    end.
Proof.
  intros Hadv Hok. revert fuel. induction Hadv as [k|n k k1 k2 ev Hadv IH E Ht]; intros fuel Hn.
  - exists fuel. destruct (core_run fuel until k) as [k'' [m|e]]; reflexivity.
  - assert (Hok1 : sched_ok (k_scheduler k1)) by (apply (advances_sched _ _ _ _ Hadv Hok)).
    pose proof (core_dispatch_cursor k1 Hok1) as Hc. rewrite E in Hc. destruct Hc as (_ & _ & _ & _ & _ & _ & Hpk & _).
    assert (Hs : core_run (S fuel) until k1 =
      match core_run fuel until k2 with (k'', Ok m) => (k'', Ok (m + 1)) | (k'', Err e) => (k'', Err e) end).
    { cbn. unfold core_turn. rewrite Hpk. replace (until <? tick (ev_key ev)) with false by (symmetry; apply Z.ltb_ge, Ht).
      rewrite E. reflexivity. }
    destruct (IH Hok (S fuel)) as [fuel' Hf].
    { rewrite Hs. destruct (core_run fuel until k2) as [? [?|e]]; cbn in *; congruence. }
    exists fuel'. rewrite Hf, Hs. destruct (core_run fuel until k2) as [? [m|e]]; [|reflexivity].
    do 2 f_equal. lia.
Qed.

(** The loop ends, within the events rule S5 allows up to the horizon. *)
Lemma core_run_ends fuel until k :
  sched_ok (k_scheduler k) ->
  Z.max 0 (horizon_events until (Scheduler.config (k_scheduler k)) - position (k_scheduler k)) < Z.of_nat fuel ->
  snd (core_run fuel until k) <> Err OutOfFuel.
Proof.
  revert k. induction fuel as [|fuel IH]; intros k Hok Hf; [lia |]. cbn. unfold core_turn.
  destruct (Scheduler.peek_key _) as [next|] eqn:Ek; [|discriminate]. destruct (Z.ltb_spec until (tick next)) as [|Ht]; [discriminate |].
  pose proof (core_dispatch_cursor k Hok) as Hc. destruct (core_dispatch k) as [k1 [[ev|]|e]] eqn:E.
  - destruct Hc as (Hok1 & Hc1 & _ & Hp & _ & _ & Hpk & _). rewrite Hpk in Ek. injection Ek as <-.
    assert (Hn : snd (core_run fuel until k1) <> Err OutOfFuel).
    { apply IH; [exact Hok1 |]. rewrite Hc1. destruct Hok as (_ & Hm & _). unfold horizon_events, in_u in *. nia. }
    destruct (core_run fuel until k1) as [? [?|?]]; cbn in *; congruence.
  - destruct Hc as (_ & _ & _ & -> & Hh). exfalso. unfold Scheduler.peek_key in Ek. rewrite Hh in Ek. discriminate.
  - intros [= ->]. apply (core_dispatch_fuel k). rewrite E. reflexivity.
Qed.

(** What it returns counts its events. *)
Lemma core_run_count fuel until k k' n :
  sched_ok (k_scheduler k) -> core_run fuel until k = (k', Ok n) -> advances until n k k'.
Proof.
  intros Hok. assert (Hgen : forall fuel k0 n0, advances until n0 k0 k -> sched_ok (k_scheduler k0) ->
    core_run fuel until k = (k', Ok n) -> advances until (n0 + n) k0 k').
  2:{ intros E. apply (Hgen fuel k 0 (advances_none _ _) Hok E). }
  intros fuel0. revert k n Hok. clear fuel. induction fuel0 as [|fuel IH]; intros k n Hok k0 n0 Hadv Hok0; cbn; [discriminate |]. unfold core_turn.
  destruct (Scheduler.peek_key _) as [next|] eqn:Ek; [|intros [= <- <-]; rewrite Z.add_0_r; exact Hadv].
  destruct (Z.ltb_spec until (tick next)) as [|Ht]; [intros [= <- <-]; rewrite Z.add_0_r; exact Hadv |].
  pose proof (core_dispatch_cursor k Hok) as Hc. destruct (core_dispatch k) as [k1 [[ev|]|e]] eqn:E; [| |discriminate].
  - destruct Hc as (Hok1 & _ & _ & _ & _ & _ & Hpk & _). rewrite Hpk in Ek. injection Ek as <-.
    destruct (core_run fuel until k1) as [k2 [m|e]] eqn:Er; [|discriminate]. intros [= <- <-].
    replace (n0 + (m + 1)) with (n0 + 1 + m) by lia. eapply IH; [exact Hok1 | |exact Hok0 | exact Er].
    eapply advances_event; eassumption.
  - destruct Hc as (_ & _ & _ & -> & Hh). exfalso. unfold Scheduler.peek_key in Ek. rewrite Hh in Ek. discriminate.
Qed.
End runs.

(** * Observation *)

Section observation.
Context `{EventOrder, Clocks, Protocols, Blake3, SnapshotCodec, !Canonical}.
Context {B Ob : Type} `{!Component B, !UniformComponent B, !Observer B Ob}.

Local Abbreviation Runtime := (Runtime (B := B) (Ob := Ob)).

Definition core (r : Runtime) : Core :=
  mkCore (mkStatic (clock r) (domains r) (slots r) (peers r) (links r) (topology_hash r) (config r))
    (components r) (rngs r) (scheduler r) (execution_digest r) (lifecycle r) (fault r).

Lemma core_flush (r : Runtime) : core (flush_records r) = core r.
Proof. unfold flush_records. destruct (emitted r); [reflexivity |]. cbn. destruct (trace r); reflexivity. Qed.

Lemma core_fire horizon stop points : forall control (r : Runtime),
  core (fst (fire_loop horizon stop control points r)) = core r.
Proof.
  induction points as [|p points IH]; intros control r; cbn; [reflexivity |].
  destruct (negb _); [reflexivity |]. destruct (ask _ _ _) as [os c]. destruct (_ && _); [reflexivity |].
  rewrite IH. reflexivity.
Qed.

Lemma context_like who at_ (r : Runtime) k :
  core r ≡ k ->
  match context who at_ r, core_context who at_ k with
  | Some (b, c), Some (b', d) => b = b' /\ ctx_like c d
  | None, None => True
  | _, _ => False
  end.
Proof.
  destruct k as [st cs gs s dg lf ft]. intros (Hst & Hc & Hg & Hs & _). cbn in Hst, Hc, Hg, Hs. subst st cs gs.
  unfold context, core_context. cbn.
  destruct (slots r !! _); [cbn | exact I]. destruct (peers r !! _); [cbn | exact I].
  destruct (rngs r !! _); [cbn | exact I]. destruct (components r !! _); [cbn | exact I].
  split; [reflexivity |]. split_and!; assumption || reflexivity.
Qed.

Lemma fault_alike {A A'} (f : A -> A') e (r : Runtime) k :
  core r ≡ k -> alike core f (enter_fault e r) (core_fault e k).
Proof.
  intros (Hst & Hc & Hgs & Hs & Hd & _). split; [|reflexivity]. cbn in *. split_and!; cbn; congruence || assumption.
Qed.

Lemma call_alike who at_ (m : forall C `{SimContext C}, ST (B * C) Failure unit) (r : Runtime) k :
  uniform (fun C _ => m C) -> core r ≡ k ->
  alike core id (call_component who at_ (m Ctx) r) (core_call who at_ (m Ctx) k).
Proof.
  intros Hm Hk. pose proof (context_like who at_ r k Hk) as Hcx. unfold call_component, core_call.
  destruct (context who at_ r) as [[b c]|], (core_context who at_ k) as [[b' d]|]; try contradiction;
    [|split; [exact Hk | reflexivity]].
  destruct Hcx as [<- Hl]. destruct (Hm Ctx Ctx _ _ ctx_like ctx_like_rel b c d Hl) as (Hl' & Hb & Hres).
  destruct (m Ctx _ (b, c)) as [[b1 c1] res], (m Ctx _ (b, d)) as [[b2 d1] res']. cbn in Hl', Hb, Hres. subst b2 res'.
  destruct Hl' as (_ & _ & _ & _ & _ & Hs & Hg & He & Hp). rewrite <- Hp, <- He, <- Hg.
  set (r1 := give_back who b1 c1 r). set (k1 := mkCore _ _ _ _ _ _ _).
  assert (Hk1 : core r1 ≡ k1).
  { destruct Hk as (Hst & Hc & Hgs & _ & Hd & Hlf & Hft). cbn in *.
    split_and!; cbn; try assumption; congruence. }
  assert (Hf : core (flush_records r1) ≡ k1) by (rewrite core_flush; exact Hk1).
  destruct (ctx_panic c1); [split; [exact Hk1 | reflexivity] |].
  destruct res as [[]|[e|w]], (ctx_error c1);
    first [apply fault_alike, Hf | split; [exact Hf || exact Hk1 | reflexivity]].
Qed.

Lemma dispatch_alike (r : Runtime) k :
  sched_ok (scheduler r) -> core r ≡ k -> alike core (fmap fst) (dispatch r) (core_dispatch k).
Proof.
  intros Hok Hk. pose proof Hk as (Hst & Hc & Hgs & Hs & Hd & Hlf & Hft). cbn in Hst, Hc, Hgs, Hs, Hd, Hlf, Hft.
  destruct (pop_proper _ _ Hok Hs) as [Hres Hs']. pose proof (pop_correct _ Hok) as Hp.
  unfold dispatch, core_dispatch.
  destruct (Scheduler.pop (scheduler r)) as [s1 res], (Scheduler.pop (k_scheduler k)) as [s2 res'].
  cbn in Hres, Hs'. subst res'. destruct res as [[event|]|[e|w]].
  2-4: destruct Hp as [-> _]; replace (set_scheduler (scheduler r) r) with r by (destruct r; reflexivity).
  2: split; [exact Hk | reflexivity].
  2: apply fault_alike, Hk.
  2: split; [exact Hk | reflexivity].
  cbn zeta. set (ev := mkCanonicalEvent _ _ _ _).
  match goal with |- context [call_component _ _ _ ?r1] => set (r2 := r1) end.
  match goal with |- context [core_call _ _ _ ?k1] => set (k2 := k1) end.
  assert (Hk2 : core r2 ≡ k2).
  { subst r2 k2. destruct (capturing _); split_and!; cbn; congruence || assumption. }
  pose proof (call_alike (target (payload event)) (At_Event (key event))
    (fun C _ => component_handle (delivery (payload event)) C) r2 k2 (handle_uniform _) Hk2) as [Ha Hb].
  cbn beta in Ha, Hb.
  destruct (call_component _ _ _ r2) as [r3 res], (core_call _ _ _ k2) as [k3 res']. cbn [fst snd] in Ha, Hb.
  destruct res as [[]|e], res' as [[]|e']; try contradiction; [|split; [exact Ha | exact Hb]].
  destruct (ask _ _ _) as [os control]. split; [|reflexivity]. exact Ha.
Qed.

Lemma peek_key_proper (s s' : Scheduler Pending) :
  sched_ok s -> s ≡ s' -> Scheduler.peek_key s = Scheduler.peek_key s'.
Proof.
  intros Hok Heq. pose proof (heap_pop_proper s s' Hok Heq) as Hp. unfold Scheduler.peek_key.
  destruct (heap_pop (heap s)) as [[e rest]|], (heap_pop (heap s')) as [[e' rest']|]; try contradiction; [|reflexivity].
  destruct Hp as [<- _]. reflexivity.
Qed.

Lemma observe_points_flush (r : Runtime) : observe_points (flush_records r) = observe_points r.
Proof. unfold flush_records. destruct (emitted r); [reflexivity |]. cbn. destruct (trace r); reflexivity. Qed.

Lemma observe_points_dispatch (r : Runtime) : observe_points (fst (dispatch r)) = observe_points r.
Proof.
  assert (Hc : forall who at_ m (r : Runtime), observe_points (fst (call_component who at_ m r)) = observe_points r).
  { intros. unfold call_component, enter_fault, refuse, st_fail.
    repeat case_goal; cbn; rewrite ?observe_points_flush; reflexivity. }
  unfold dispatch, enter_fault, refuse, st_fail. destruct (Scheduler.pop _) as [s [[e|]|[e|w]]]; try reflexivity.
  cbn zeta. match goal with |- context [call_component ?w ?a ?m ?r0] =>
    pose proof (Hc w a m r0) as Hp; destruct (call_component w a m r0) as [r1 [u|e1]] end; cbn [fst] in *.
  - destruct (ask _ _ _). cbn. rewrite Hp. destruct (capturing _); reflexivity.
  - rewrite Hp. destruct (capturing _); reflexivity.
Qed.

(** Firing consumes points; a pause consumes at least one. *)
Lemma fire_points horizon stop points : forall control (r : Runtime),
  observe_points r = points ->
  let '(r', c) := fire_loop horizon stop control points r in
  (length (observe_points r') <= length points)%nat /\
  (c = Control_Pause -> control = Control_Continue -> (length (observe_points r') < length points)%nat).
Proof.
  induction points as [|p points IH]; intros control r Hp; cbn.
  - rewrite Hp. cbn. split; [lia |]. intros -> [=].
  - destruct (negb _); [rewrite Hp; cbn; split; [lia | intros -> [=]] |]. destruct (ask _ _ _) as [os c].
    destruct (_ && _); [cbn; split; [lia | intros; lia] |].
    specialize (IH c (set_observers os (set_observe_points points r)) eq_refl).
    destruct (fire_loop _ _ _ _ _) as [r' c']. destruct IH as [IH _]. cbn [length]. split; [lia | intros; lia].
Qed.

(** What an observed run does to the core: some events of the bare loop, and then a pause, the
    end of the loop, or its failure. *)
Lemma run_loop_refines fuel until : forall e0 (r : Runtime) k,
  sched_ok (k_scheduler k) -> core r ≡ k -> 0 <= e0 <= dispatches (k_scheduler k) ->
  let '(r', res) := run_loop fuel until e0 r in
  (length (observe_points r') <= length (observe_points r))%nat /\
  exists n k', advances until n k k' /\
  match res with
  | Ok o => core r' ≡ k' /\ events o = e0 + n /\
      (stop o = Stop_Paused -> 0 < n \/ (length (observe_points r') < length (observe_points r))%nat) /\
      (stop o <> Stop_Paused -> core_run 1 until k' = (k', Ok 0))
  | Err OutOfFuel => core r' ≡ k' /\ n = Z.of_nat fuel
  | Err e => exists k'', core_run 1 until k' = (k'', Err e) /\ core r' ≡ k''
  end.
Proof.
  induction fuel as [|fuel IH]; intros e0 r k Hok Hk He.
  { cbn. split; [lia |]. exists 0, k. split; [constructor | split; [exact Hk | reflexivity]]. }
  cbn [run_loop]. rewrite ST_bind_unfold. unfold fire_observe_points.
  pose proof (core_fire (Some until) true (observe_points r) Control_Continue r) as Hf.
  pose proof (fire_points (Some until) true (observe_points r) Control_Continue r eq_refl) as Hpt.
  destruct (fire_loop _ _ _ _ r) as [r1 c]. cbn [fst] in Hf. rewrite <- Hf in Hk.
  destruct Hpt as [Hp1 Hp2]. case_bool_decide as Hc.
  { split; [exact Hp1 |]. exists 0, k. split; [constructor |]. cbn. split_and!; [exact Hk | lia | auto | congruence]. }
  rewrite ST_bind_unfold. cbn [st_get].
  assert (Hs1 : scheduler r1 ≡ k_scheduler k) by apply Hk.
  assert (Hok1 : sched_ok (scheduler r1)) by (rewrite Hs1; exact Hok).
  pose proof (peek_key_proper _ _ Hok1 Hs1) as Hpk.
  assert (Hend : forall x, x = core_turn until (core_run 0 until) k -> core_run 1 until k = x) by (intros; subst; reflexivity).
  unfold core_turn in Hend. rewrite <- Hpk in Hend.
  destruct (Scheduler.peek_key (scheduler r1)) as [next|].
  2:{ split; [exact Hp1 |]. exists 0, k. split; [constructor |]. cbn. split_and!; [exact Hk | lia | discriminate | intros _; apply Hend; reflexivity]. }
  destruct (Z.ltb_spec until (tick next)) as [Hlt|Hle].
  { split; [exact Hp1 |]. exists 0, k. split; [constructor |]. cbn. split_and!; [exact Hk | lia | discriminate | intros _; apply Hend; reflexivity]. }
  rewrite ST_bind_unfold. pose proof (dispatch_alike r1 k Hok1 Hk) as [Ha Hb].
  pose proof (observe_points_dispatch r1) as Hpd. pose proof (core_dispatch_cursor k Hok) as Hcur.
  pose proof (core_dispatch_fuel k) as Hnf.
  destruct (dispatch r1) as [r2 [[[ev c2]|]|e]], (core_dispatch k) as [k2 [o|e']] eqn:Ed; cbn [fst snd] in *; try contradiction.
  3:{ subst e'. split; [rewrite Hpd; exact Hp1 |]. exists 0, k. split; [constructor |].
      destruct e as [e|w|]; [exists k2; split; [apply Hend; reflexivity | exact Ha] ..| contradiction Hnf; reflexivity]. }
  2:{ subst o. exfalso. destruct Hcur as (_ & _ & _ & _ & Hh). unfold Scheduler.peek_key in Hpk. rewrite Hh in Hpk. discriminate. }
  cbn in Hb. subst o. destruct Hcur as (Hok2 & _ & _ & _ & Hd2 & _ & Hpk2 & _).
  rewrite <- Hpk in Hpk2. injection Hpk2 as ->.
  pose proof (dispatches_range _ Hok2) as Hdr.
  rewrite ST_bind_unfold. unfold count.
  rewrite (proj2 (checked_add_Some 64 e0 1 (e0 + 1))) by lia.
  assert (Hadv : advances until (0 + 1) k k2) by (econstructor; [constructor | exact Ed | exact Hle]).
  case_bool_decide as Hc2.
  { split; [rewrite Hpd; exact Hp1 |]. exists (0 + 1), k2. split; [exact Hadv |]. cbn. split_and!; [exact Ha | lia | left; lia | congruence]. }
  specialize (IH (e0 + 1) r2 k2 Hok2 Ha ltac:(lia)). destruct (run_loop fuel until (e0 + 1) r2) as [r3 res].
  destruct IH as (Hp3 & n & k' & Hadv' & Hres). rewrite Hpd in *. split; [lia |].
  exists (1 + n), k'. split; [|destruct res as [o|[e|w|]]; [|exact Hres|exact Hres|split; [apply Hres | lia]]].
  - clear -Hadv Hadv'. induction Hadv' as [k'|n k1 k2 k3 ev' H' IH E Ht]; [exact Hadv |].
    replace (1 + (n + 1)) with (1 + n + 1) by lia. econstructor; [apply IH, Hadv | exact E | exact Ht].
  - destruct Hres as (Hk' & Ho & Hps & Hns). split_and!; [exact Hk' | lia | |exact Hns].
    intros Hpz. left. assert (0 <= n) by (clear -Hadv'; induction Hadv'; lia). lia.
Qed.

(** The events a run to [until] can still dispatch, and the pauses observers can still ask for:
    each takes an event or an observe point. *)
Definition events_left (until : Z) (s : Scheduler Pending) : Z :=
  Z.max 0 (horizon_events until (Scheduler.config s) - position s).

Definition run_bound (until : Z) (r : Runtime) : Z :=
  events_left until (scheduler r) + Z.of_nat (length (observe_points r)).

Lemma events_left_proper until (s s' : Scheduler Pending) : s ≡ s' -> events_left until s = events_left until s'.
Proof. intros (Hc & Hl & Hd & _). unfold events_left, position. rewrite Hc, Hl, Hd. reflexivity. Qed.

Lemma advances_left until n (k k' : Core) :
  advances until n k k' -> sched_ok (k_scheduler k) ->
  0 <= n /\ events_left until (k_scheduler k') + n <= events_left until (k_scheduler k).
Proof.
  intros Hadv Hok. destruct (advances_sched _ _ _ _ Hadv Hok) as (_ & Hc & _ & _ & Hp & Hh).
  assert (0 <= n) by (clear -Hadv; induction Hadv; lia). split; [assumption |]. unfold events_left. rewrite Hc.
  destruct Hh as [->|Hh]; lia.
Qed.

Lemma run_loop_fuel fuel until e0 (r : Runtime) k :
  sched_ok (k_scheduler k) -> core r ≡ k -> 0 <= e0 <= dispatches (k_scheduler k) ->
  events_left until (k_scheduler k) < Z.of_nat fuel -> snd (run_loop fuel until e0 r) <> Err OutOfFuel.
Proof.
  intros Hok Hk He Hf. pose proof (run_loop_refines fuel until e0 r k Hok Hk He) as Hr.
  destruct (run_loop fuel until e0 r) as [r' res]. intros E. cbn in E. subst res.
  destruct Hr as (_ & n & k' & Hadv & _ & ->). apply advances_left in Hadv; [|exact Hok].
  unfold events_left in *. lia.
Qed.

Lemma run_until_refines fuel until pauses : forall total (r : Runtime) k,
  sched_ok (k_scheduler k) -> core r ≡ k -> k_lifecycle k = Ready -> 0 <= total <= dispatches (k_scheduler k) ->
  run_bound until r < Z.of_nat pauses -> events_left until (k_scheduler k) < Z.of_nat fuel ->
  exists fuel', snd (core_run fuel' until k) <> Err OutOfFuel /\
    alike core (fun t => t - total) (run_until_loop pauses fuel until total r) (core_run fuel' until k).
Proof.
  induction pauses as [|pauses IH]; intros total r k Hok Hk Hlf Htot Hpz Hfu.
  { unfold run_bound, events_left in Hpz. lia. }
  pose proof (dispatches_range _ Hok) as Hdr.
  pose proof (run_loop_refines fuel until 0 r k Hok Hk ltac:(lia)) as Hr.
  pose proof (run_loop_fuel fuel until 0 r k Hok Hk ltac:(lia) Hfu) as Hnf.
  assert (Hrun : run fuel until r = run_loop fuel until 0 r).
  { unfold run. rewrite ST_bind_unfold. unfold require.
    replace (lifecycle r) with Ready by (symmetry; etransitivity; [apply Hk | exact Hlf]).
    rewrite bool_decide_true by reflexivity. reflexivity. }
  cbn [run_until_loop]. rewrite ST_bind_unfold, Hrun. destruct (run_loop fuel until 0 r) as [r' res].
  destruct Hr as (Hpts & n & k' & Hadv & Hres). cbn [snd] in Hnf.
  pose proof (advances_sched _ _ _ _ Hadv Hok) as (Hok' & _ & Hd' & Hlf' & _).
  pose proof (advances_left _ _ _ _ Hadv Hok) as [Hn Hleft].
  destruct res as [o|e].
  2:{ assert (He : exists k'', core_run 1 until k' = (k'', Err e) /\ core r' ≡ k'') by (destruct e; [exact Hres..| congruence]).
      destruct He as (k'' & E & Hk''). assert (Hne : e <> OutOfFuel) by congruence.
      destruct (advances_run until n k k' 1 Hadv Hok) as [fuel' Hf']; [rewrite E; cbn; congruence |].
      rewrite E in Hf'. exists fuel'. rewrite Hf'. split; [cbn; congruence |]. split; [exact Hk'' | reflexivity]. }
  destruct Hres as (Hk' & Ho & Hps & Hns). pose proof (dispatches_range _ Hok') as Hdr'.
  rewrite (proj2 (checked_add_Some 64 total (events o) (total + events o))) by lia.
  case_bool_decide as Hst.
  - specialize (Hps Hst). destruct (IH (total + events o) r' k' Hok' Hk') as (fuel' & Hnf' & Ha); [congruence | lia | | lia |].
    { unfold run_bound in *. rewrite (events_left_proper until (scheduler r') (k_scheduler k')) by apply Hk'.
      rewrite (events_left_proper until (scheduler r) (k_scheduler k)) in Hpz by apply Hk. lia. }
    destruct (advances_run until n k k' fuel' Hadv Hok Hnf') as [fuel2 Hf2]. exists fuel2. rewrite Hf2.
    destruct (core_run fuel' until k') as [k2 [m|e]]; cbn [snd] in *.
    + split; [discriminate |]. destruct Ha as [Ha1 Ha2]. split; [exact Ha1 |]. cbn [snd] in *.
      destruct (snd (run_until_loop _ _ _ _ _)); [lia | contradiction].
    + split; [exact Hnf' |]. destruct Ha as [Ha1 Ha2]. split; [exact Ha1 |]. cbn [snd] in *.
      destruct (snd (run_until_loop _ _ _ _ _)); [contradiction | exact Ha2].
  - destruct (advances_run until n k k' 1 Hadv Hok) as [fuel' Hf']; rewrite (Hns Hst) in *; [discriminate |].
    exists fuel'. rewrite Hf'. split; [discriminate |]. split; [exact Hk' |]. cbn. lia.
Qed.
End observation.
