(* ===== verification/RuntimeInvariant.v ===== *)
(** The invariant of a session: its wiring, its queue, its components and its streams.

    [core_ok] holds of an elaborated session and after every call of its driver, failures
    included, and no call panics: handlers get contexts whose calls keep it ([ctx_ok]), so the
    components' own contracts ([TypedComponent]) carry over to the session.  Every queued event
    is one the topology allows: it is addressed to a port that exists and speaks its protocol,
    or is a wake of its own source. *)
From stdpp Require Import base numbers list option strings.
From Stdlib Require Import ZArith Lia.
From S2P Require Import Prelude Contracts Handlers Snapshots Session Scheduler Trace Rng Runtime RuntimeProofs.

Local Open Scope string_scope.
Local Open Scope list_scope.
Local Open Scope Z_scope.

(** * The invariant *)

Section invariant.
Context `{EventOrder, Clocks, Protocols, Blake3, SnapshotCodec, !Canonical}.

(** An event the topology allows. *)
Definition event_wired (slots : list SlotInfo) (p : Pending) : Prop :=
  in_u 32 (source p) /\ in_u 32 (target p) /\
  exists slot, slots !! Z.to_nat (target p) = Some slot /\
  match delivery p with
  | Delivered_Message port msg =>
      (Z.to_nat (source p) < length slots)%nat /\
      exists spec, info_ports slot !! Z.to_nat port = Some spec /\ port_protocol spec = protocol msg
  | Delivered_Wake _ => source p = target p
  end.

Definition queued_ok (slots : list SlotInfo) (e : Event Pending) : Prop :=
  event_wired slots (payload e) /\ delivery_ok (delivery (payload e)) /\ key_ok (key e).

Definition queue_ok (slots : list SlotInfo) (s : Scheduler Pending) : Prop :=
  sched_ok s /\ (forall l, last_dispatched s = Some l -> key_ok l) /\ Forall (queued_ok slots) (heap s).

Lemma queue_now slots s : queue_ok slots s -> in_u 64 (Scheduler.now s).
Proof.
  intros (_ & Hl & _). unfold Scheduler.now. destruct (last_dispatched s) as [l|]; [apply (Hl l eq_refl) | apply in_u_0; lia].
Qed.

(** A row of peers: every port's other end exists and speaks the port's protocol. *)
Definition peer_ok (slots : list SlotInfo) (spec : PortSpec) (peer : Peer) : Prop :=
  in_u 32 (peer_component peer) /\ in_u 16 (peer_port peer) /\
  exists slot' spec', slots !! Z.to_nat (peer_component peer) = Some slot' /\
    info_ports slot' !! Z.to_nat (peer_port peer) = Some spec' /\ port_protocol spec' = port_protocol spec.

Definition static_ok (st : Static) : Prop :=
  Z.of_nat (length (st_slots st)) < 2 ^ 32 /\ in_u 64 (seed (st_config st)) /\
  length (st_topology_hash st) = 32%nat /\
  Forall2 (fun slot row => Forall2 (peer_ok (st_slots st)) (info_ports slot) row) (st_slots st) (st_peers st).

Context {B : Type} `{!Component B, !TypedComponent B}.

Local Abbreviation Core := (Core (B := B)).

Definition digest_ok (k : Core) : Prop :=
  bytes_ok (k_digest k) /\ length (k_digest k) = 32%nat /\
  (last_dispatched (k_scheduler k) = None -> k_digest k = ZERO_DIGEST).

(** A component in its slot; a faulted session keeps the components as the failure left them. *)
Definition fitted (lf : Lifecycle) (slot : SlotInfo) (b : B) : Prop :=
  info_ports slot = ports b /\ info_type_name slot = type_name b /\ (lf <> Faulted -> component_ok b).

Definition core_ok (k : Core) : Prop :=
  static_ok (k_static k) /\ queue_ok (st_slots (k_static k)) (k_scheduler k) /\
  Scheduler.config (k_scheduler k) = scheduler_config (st_config (k_static k)) /\
  Forall2 (fitted (k_lifecycle k)) (st_slots (k_static k)) (k_components k) /\
  length (k_rngs k) = length (st_slots (k_static k)) /\ Forall rng_ok (k_rngs k) /\ digest_ok k /\
  (k_fault k = None \/ k_lifecycle k = Faulted).

Lemma queue_ok_proper slots (s s' : Scheduler Pending) : s ≡ s' -> queue_ok slots s -> queue_ok slots s'.
Proof.
  intros Hs (Hok & Hn & Hh). split; [apply (proj1 (sched_ok_proper _ _ Hs) Hok) |].
  destruct Hs as (_ & Hl & _ & _ & Hp). rewrite <- Hl, <- Hp. auto.
Qed.

Lemma core_ok_proper (k k' : Core) : k ≡ k' -> core_ok k -> core_ok k'.
Proof.
  intros (Hst & Hc & Hg & Hs & Hd & Hlf & Hft) (K1 & K2 & K3 & K4 & K5 & K6 & K7). unfold core_ok, digest_ok in *.
  rewrite <- Hst, <- Hc, <- Hg, <- Hd, <- Hlf, <- Hft. apply (queue_ok_proper _ _ _ Hs) in K2.
  destruct Hs as (Hcf & Hl & _). rewrite <- Hcf, <- Hl. split_and!; tauto.
Qed.

(** * Contexts *)

(** Of a context made when the scheduler was [s0]. *)
Definition ctx_ok (slots : list SlotInfo) (s0 : Scheduler Pending) (c : Ctx) : Prop :=
  queue_ok slots (ctx_scheduler c) /\ same_cursor s0 (ctx_scheduler c) /\ rng_ok (ctx_rng c) /\ ctx_panic c = None /\
  in_u 32 (me c) /\ (exists slot, slots !! Z.to_nat (me c) = Some slot) /\
  Forall2 (peer_ok slots) (ctx_ports c) (ctx_peers c).

Lemma resolve_range when now clk ds t :
  in_u 64 now -> resolve when now clk ds = Ok t -> in_u 64 t.
Proof.
  intros Hn. unfold resolve. destruct when as [|d|dom k].
  - intros [= <-]. exact Hn.
  - destruct (clock_after clk now d) eqn:E; [|discriminate]. intros [= <-]. eapply clock_after_range; eassumption.
  - intros (c & _ & E)%bind_Ok_inv. destruct (cycles_after c now k) eqn:Ec; [|discriminate].
    injection E as <-. eapply cycles_after_range; eassumption.
Qed.

Lemma add_latency_range lat now clk ds t :
  in_u 64 now -> add_latency lat now clk ds = Ok t -> in_u 64 t.
Proof.
  intros Hn. unfold add_latency. destruct lat as [[d|dom k]|]; [apply resolve_range, Hn.. |].
  intros [= <-]. exact Hn.
Qed.

Lemma schedule_queue slots t ph p s :
  queue_ok slots s -> event_wired slots p -> delivery_ok (delivery p) -> in_u 64 t ->
  queue_ok slots (fst (schedule t ph p s)).
Proof.
  intros (Hs & Hn & Hh) Hw Hd Ht. destruct (schedule_cursor t ph p s Hs) as [Hs' [_ Hl _ _]].
  split; [exact Hs' |]. split; [rewrite Hl; exact Hn |].
  destruct (schedule_cases t ph p s) as [[_ ->]|[_ [e ->]]]; [|exact Hh]. cbn. constructor; [|exact Hh].
  split; [exact Hw | split; [exact Hd | split; [exact Ht | apply Hs]]].
Qed.

Lemma ctx_schedule_ok slots s0 t ph p c :
  ctx_ok slots s0 c -> event_wired slots p -> delivery_ok (delivery p) -> in_u 64 t ->
  ctx_ok slots s0 (fst (ctx_schedule t ph p c)).
Proof.
  intros (Hq & [C1 C2 C3 C4] & Hr) Hw Hd Ht. unfold ctx_schedule.
  pose proof (schedule_queue slots t ph p _ Hq Hw Hd Ht) as Hq'.
  destruct (schedule_cursor t ph p (ctx_scheduler c) (proj1 Hq)) as [_ [D1 D2 D3 D4]].
  destruct (schedule _ _ _ _) as [s res]. split; [exact Hq' |]. split; [split; cbn in *; congruence | exact Hr].
Qed.

Lemma record_ok_ctx slots s0 x : ctx_ok slots s0 (fst x) -> ctx_ok slots s0 (fst (record x)).
Proof. destruct x as [c [[]|e]]; cbn; [auto |]. destruct (ctx_error c); auto. Qed.

Lemma ctx_ok_keeps slots s0 : ctx_keeps (ctx_ok slots s0).
Proof.
  split; cbn.
  - intros c (Hq & Hs & Hg & Hr). unfold rng_next_u64. destruct (next_u64_ok _ Hg) as [Hg' _].
    destruct (next_u64 (ctx_rng c)). split; [exact Hq | split; [exact Hs | split; [exact Hg' | exact Hr]]].
  - intros port msg when ph c Hm Hc. unfold send. destruct (ctx_error c); [exact Hc |]. apply record_ok_ctx.
    unfold try_send. destruct (ctx_ports c !! Z.to_nat port) as [spec|] eqn:Esp; [|exact Hc].
    case_bool_decide as Hpr; cbn [negb]; [|exact Hc].
    pose proof Hc as (Hn%queue_now & _ & _ & _ & Hme & [slot Hslot] & Hpeers).
    destruct (Forall2_lookup_l _ _ _ _ _ Hpeers Esp) as (peer & Epe & Hp). rewrite Epe.
    destruct Hp as (Hpc & Hpp & slot' & spec' & Es' & Esp' & Hpr').
    destruct (resolve _ _ _ _) as [sent|e] eqn:Er; cbn; [|exact Hc].
    apply resolve_range in Er; [|exact Hn].
    destruct (add_latency _ _ _ _) as [t|e] eqn:El; [|exact Hc]. apply add_latency_range in El; [|exact Er].
    apply ctx_schedule_ok; [exact Hc | | split; assumption | exact El].
    split; [exact Hme |]. split; [exact Hpc |]. exists slot'. split; [exact Es' |].
    split; [apply lookup_lt_is_Some; eauto |]. exists spec'. split; [exact Esp' | congruence].
  - intros when ph token c Ht Hc. unfold wake_self. destruct (ctx_error c); [exact Hc |]. apply record_ok_ctx.
    unfold try_wake. pose proof Hc as (Hn%queue_now & _ & _ & _ & Hme & [slot Hslot] & _).
    destruct (resolve _ _ _ _) as [t|e] eqn:Er; [|exact Hc]. apply resolve_range in Er; [|exact Hn].
    apply ctx_schedule_ok; [exact Hc | | exact Ht | exact Er].
    split; [exact Hme |]. split; [exact Hme |]. exists slot. split; [exact Hslot | reflexivity].
  - intros kind fields c Hc. unfold trace_push. destruct (ctx_records c); exact Hc.
Qed.

(** * Calls of components *)

(** Refused, and not a panic. *)
Definition refusal {A} (res : result Stopped A) : Prop :=
  match res with Ok _ => True | Err e => exists e', e = Refused e' end.

(** What a call of a component keeps, given its contract. *)
Definition typed_call (m : ST (B * Ctx) Failure unit) : Prop :=
  forall (P : Ctx -> Prop) b c, ctx_keeps P -> component_ok b -> P c ->
    wp m (fun _ '(b', c') => component_ok b' /\ same_config b b' /\ P c')
      (fun e '(b', c') => (exists e', e = Fails e') /\ same_config b b' /\ P c') (b, c).

Lemma core_context_ok who at_ (k : Core) :
  core_ok k -> k_lifecycle k <> Faulted -> in_u 32 who -> (Z.to_nat who < length (st_slots (k_static k)))%nat ->
  exists b c, core_context who at_ k = Some (b, c) /\ k_components k !! Z.to_nat who = Some b /\
    component_ok b /\ ctx_ok (st_slots (k_static k)) (k_scheduler k) c.
Proof.
  intros ((_ & _ & _ & Hpeers) & Hq & _ & Hc & Hlen & Hg & _) Hlive Hw Hlt.
  destruct (lookup_lt_is_Some_2 _ _ Hlt) as [slot Hslot].
  destruct (Forall2_lookup_l _ _ _ _ _ Hpeers Hslot) as (row & Hrow & Hp).
  destruct (Forall2_lookup_l _ _ _ _ _ Hc Hslot) as (b & Hb & _ & _ & Hbok).
  destruct (lookup_lt_is_Some_2 (k_rngs k) (Z.to_nat who)) as [g Hgl]; [lia |].
  exists b. eexists. unfold core_context. rewrite Hslot, Hrow, Hgl, Hb. cbn. split; [reflexivity |].
  split; [reflexivity |]. split; [exact (Hbok Hlive) |]. split; [exact Hq |]. split; [split; reflexivity |].
  split; [cbn; eapply Forall_lookup_1; eassumption |]. split; [reflexivity |]. split; [exact Hw |].
  split; [eauto | exact Hp].
Qed.

(** The components of a session, one of them replaced by another of the same configuration. *)
Lemma components_update (k : Core) lf i b b' :
  core_ok k -> k_lifecycle k <> Faulted -> k_components k !! i = Some b -> (lf <> Faulted -> component_ok b') ->
  same_config b b' -> Forall2 (fitted lf) (st_slots (k_static k)) (<[i := b']> (k_components k)).
Proof.
  intros (_ & _ & _ & Hc & _) Hlive Hb Hok Hsame. apply Forall2_lookup. intros j.
  pose proof (proj1 (Forall2_lookup _ _ _) Hc j) as Hj. destruct (decide (i = j)) as [->|Hne].
  - rewrite list_lookup_insert_eq by (eapply lookup_lt_Some, Hb). rewrite Hb in Hj.
    inversion Hj as [slot ? (H1' & H2' & _) E|]; subst. constructor.
    destruct (same_ports b b' Hsame) as (E1 & E2 & _). split_and!; congruence || assumption.
  - rewrite list_lookup_insert_ne by exact Hne.
    inversion Hj as [slot b0 (H1' & H2' & H3')|]; constructor. split_and!; auto.
Qed.

Lemma core_call_ok who at_ m (k : Core) :
  core_ok k -> k_lifecycle k <> Faulted -> in_u 32 who -> (Z.to_nat who < length (st_slots (k_static k)))%nat ->
  typed_call m ->
  core_ok (fst (core_call who at_ m k)) /\ refusal (snd (core_call who at_ m k)).
Proof.
  intros Hok Hlive Hw Hlt Hm. destruct (core_context_ok who at_ k Hok Hlive Hw Hlt) as (b & c & E & Hb & Hbok & Hc).
  pose proof (Hm _ b c (ctx_ok_keeps (st_slots (k_static k)) (k_scheduler k)) Hbok Hc) as Hwp. unfold wp in Hwp.
  assert (Hkeep : forall b' c' lf ft, (lf <> Faulted -> component_ok b') -> same_config b b' ->
    ctx_ok (st_slots (k_static k)) (k_scheduler k) c' -> ft = None \/ lf = Faulted ->
    core_ok (mkCore (k_static k) (<[Z.to_nat who := b']> (k_components k))
      (<[Z.to_nat who := ctx_rng c']> (k_rngs k)) (ctx_scheduler c') (k_digest k) lf ft)).
  { intros b' c' lf ft Hb' Hsame (Hq & [C1 C2 _ _] & Hg & Hp & _) Hlf.
    pose proof (components_update k lf _ b b' Hok Hlive Hb Hb' Hsame) as Hcs.
    destruct Hok as (Hst & _ & Hcfg & _ & Hlen & Hgs & (Hd1 & Hd2 & Hd3) & _).
    split; [exact Hst |]. split; [exact Hq |]. split; [cbn; congruence |]. split; [exact Hcs |].
    split; [cbn; rewrite length_insert; exact Hlen |]. split; [cbn; apply Forall_insert; assumption |].
    split; [|exact Hlf]. split; [exact Hd1 |]. split; [exact Hd2 |]. cbn. rewrite C2. exact Hd3. }
  assert (Hft : k_fault k = None \/ k_lifecycle k = Faulted) by apply Hok.
  assert (Hpanic : forall c', ctx_ok (st_slots (k_static k)) (k_scheduler k) c' -> ctx_panic c' = None)
    by (intros c' (_ & _ & _ & Hp & _); exact Hp).
  unfold core_call. rewrite E. destruct (m (b, c)) as [[b' c'] [[]|e]].
  - destruct Hwp as (Hb' & Hsame & Hc'). rewrite (Hpanic c' Hc').
    destruct (ctx_error c'); cbn; split; try (apply Hkeep; auto); unfold refusal; eauto.
  - destruct Hwp as ([e' ->] & Hsame & Hc'). rewrite (Hpanic c' Hc').
    destruct (ctx_error c'); cbn; split; try (apply Hkeep; auto; congruence); unfold refusal; eauto.
Qed.

Lemma core_call_lifecycle who at_ m (k k' : Core) u :
  core_call who at_ m k = (k', Ok u) -> k_lifecycle k' = k_lifecycle k.
Proof. unfold core_call, core_fault. repeat case_goal; intros [= <-]; reflexivity. Qed.

Lemma fitted_faulted lf (k : Core) :
  Forall2 (fitted lf) (st_slots (k_static k)) (k_components k) ->
  Forall2 (fitted Faulted) (st_slots (k_static k)) (k_components k).
Proof. intros Hc. eapply Forall2_impl; [exact Hc |]. intros slot b (? & ? & _). split_and!; congruence. Qed.

(** A session whose next event has been taken from the queue. *)
Lemma core_popped_ok (k : Core) s1 e ev :
  core_ok k -> Scheduler.pop (k_scheduler k) = (s1, Ok (Some e)) ->
  core_ok (mkCore (k_static k) (k_components k) (k_rngs k) s1 (chain (k_digest k) ev) (k_lifecycle k) (k_fault k)) /\
  queued_ok (st_slots (k_static k)) e.
Proof.
  intros (Hst & (Hs & Hn & Hh) & Hcfg & Hc & Hlen & Hg & (Hd1 & Hd2 & Hd3) & Hft) E.
  pose proof (pop_ok _ Hs) as Hs1. pose proof (pop_correct _ Hs) as Hp. rewrite E in Hs1, Hp. cbn [fst] in Hs1.
  destruct Hp as (Hperm & _ & _ & Hc1 & Hl1 & _). rewrite Hperm in Hh. apply Forall_cons in Hh as [He Hh]. split; [|exact He].
  destruct He as (_ & _ & Htick).
  split; [exact Hst |]. split; [split; [exact Hs1 |]; split; [|exact Hh]; cbn; rewrite Hl1; intros l [= <-]; exact Htick |].
  split; [cbn; congruence |]. split; [exact Hc |]. split; [exact Hlen |]. split; [exact Hg |].
  split; [|exact Hft]. split; [apply hash_range |]. split; [apply hash_range |]. cbn. rewrite Hl1. discriminate.
Qed.

Lemma core_dispatch_ok (k : Core) :
  core_ok k -> k_lifecycle k <> Faulted ->
  core_ok (fst (core_dispatch k)) /\ refusal (snd (core_dispatch k)) /\
  forall o, snd (core_dispatch k) = Ok o -> k_lifecycle (fst (core_dispatch k)) = k_lifecycle k.
Proof.
  intros Hok Hlive. pose proof Hok as (_ & (Hs & _) & _). pose proof (pop_correct _ Hs) as Hp.
  pose proof (fun s1 e ev => core_popped_ok k s1 e ev Hok) as Hpop. unfold core_dispatch.
  destruct (Scheduler.pop (k_scheduler k)) as [s1 [[e|]|f]].
  2:{ split; [exact Hok |]. split; [exact I | reflexivity]. }
  2:{ destruct Hp as (_ & ev & rest & _ & _ & -> & _). split; [|split; [cbn; eauto | discriminate]]. cbn.
      destruct Hok as (K1 & K2 & K3 & K4 & K5 & K6 & K7 & _). split_and!; try assumption; [|right; reflexivity].
      eapply fitted_faulted, K4. }
  destruct (Hpop s1 e (mkCanonicalEvent (key e) (source (payload e)) (target (payload e)) (delivery (payload e))) eq_refl)
    as [Hk1 ((_ & Htgt & slot & Hslot & _) & Hdel & _)]. set (k1 := mkCore _ _ _ _ _ _ _) in *.
  destruct (core_call_ok (target (payload e)) (At_Event (key e)) (component_handle (delivery (payload e)) Ctx) k1 Hk1 Hlive Htgt)
    as [Hok2 Hr]; [eapply lookup_lt_Some, Hslot | |].
  { intros P b c HP Hb Hcx. apply handle_typed; assumption. }
  destruct (core_call _ _ _ k1) as [k2 [u|e2]] eqn:E; cbn [fst snd] in *; (split; [exact Hok2 |]).
  - split; [exact I |]. intros _ _. apply core_call_lifecycle in E. exact E.
  - split; [exact Hr | discriminate].
Qed.
End invariant.

(** * The driver *)

Section driver.
Context `{EventOrder, Clocks, Protocols, Blake3, SnapshotCodec, !Canonical}.
Context {B Ob : Type} `{!Component B, !UniformComponent B, !TypedComponent B, !Observer B Ob}.

Local Abbreviation Runtime := (Runtime (B := B) (Ob := Ob)).

(** The calls of a session's driver; [RuntimeSnapshot] adds [restore] to them ([driven]). *)
Inductive Call : Type :=
| Call_init
| Call_step
| Call_run (fuel : nat) (until : Z)
| Call_run_until (fuel : nat) (until : Z)
| Call_add_observer (o : Ob)
| Call_observe_at (t : Z)
| Call_start_trace
| Call_take_trace
| Call_resume_trace (prefix : Trace).

Definition outcome {A} (x : Runtime * result Stopped A) : Runtime * result Stopped unit :=
  (fst x, match snd x with Ok _ => Ok tt | Err e => Err e end).

(** What a call does, and whether it was refused. *)
Definition apply_call (c : Call) (r : Runtime) : Runtime * result Stopped unit :=
  match c with
  | Call_init => init r
  | Call_step => outcome (step r)
  | Call_run fuel until => outcome (run fuel until r)
  | Call_run_until fuel until => outcome (run_until fuel until r)
  | Call_add_observer o => (add_observer o r, Ok tt)
  | Call_observe_at t => (observe_at t r, Ok tt)
  | Call_start_trace => start_trace r
  | Call_take_trace => (fst (take_trace r), Ok tt)
  | Call_resume_trace prefix => (fst (resume_trace prefix r), Ok tt)
  end.

Fixpoint drive (calls : list Call) (r : Runtime) : Runtime * list (result Stopped unit) :=
  match calls with
  | [] => (r, [])
  | c :: calls =>
      let '(r, a) := apply_call c r in
      let '(r, rest) := drive calls r in
      (r, a :: rest)
  end.

Definition panics {A} (res : result Stopped A) : Prop := exists w, res = Err (Panicked w).

(** The invariant is kept, and the call does not panic. *)
Definition settled {A} (x : Runtime * result Stopped A) : Prop :=
  core_ok (core (fst x)) /\ ~ panics (snd x).

Lemma settled_refusal {A} (x : Runtime * result Stopped A) :
  core_ok (core (fst x)) -> refusal (snd x) -> settled x.
Proof. intros Hk Hr. split; [exact Hk |]. intros [w E]. rewrite E in Hr. destruct Hr as [e' Hr]. discriminate. Qed.

Lemma settled_outcome {A} (x : Runtime * result Stopped A) : settled x -> settled (outcome x).
Proof. intros [Hk Hn]. split; [exact Hk |]. intros [w E]. apply Hn. exists w. cbn in E. destruct (snd x); congruence. Qed.

Lemma settled_bind {A A'} (m : ST Runtime Stopped A) (f : A -> ST Runtime Stopped A') (r : Runtime) :
  settled (m r) -> (forall a r', m r = (r', Ok a) -> core_ok (core r') -> settled (f a r')) ->
  settled (mbind (M := ST Runtime Stopped) f m r).
Proof.
  intros [Hk Hn] Hf. rewrite ST_bind_unfold. destruct (m r) as [r' [a|e]]; [apply Hf; [reflexivity | exact Hk] |].
  split; [exact Hk |]. intros [w E]. apply Hn. exists w. cbn in *. congruence.
Qed.

Lemma settled_alike {A A'} (f : A -> A') (x : Runtime * result Stopped A) y :
  alike core f x y -> core_ok (fst y) -> refusal (snd y) -> settled x.
Proof.
  intros [Ha Hb] Hk Hr. apply settled_refusal; [apply (core_ok_proper _ _ (symmetry Ha) Hk) |].
  destruct (snd x), (snd y); try contradiction; cbn in *; [exact I |]. destruct Hr as [e' ->]. eauto.
Qed.

Lemma settled_require l (r : Runtime) : core_ok (core r) -> settled (require l r).
Proof.
  intros Hk. unfold require, refuse, st_fail. apply settled_refusal; repeat case_goal; try exact Hk; cbn; eauto.
Qed.

Lemma require_Ok l (r r' : Runtime) : require l r = (r', Ok tt) -> r' = r /\ lifecycle r = l.
Proof.
  unfold require, refuse, st_fail. repeat case_goal; intros [= <-]; split; try reflexivity;
    match goal with Hb : bool_decide _ = true |- _ => apply bool_decide_eq_true in Hb; congruence end.
Qed.

Lemma call_lifecycle who at_ m (r r' : Runtime) :
  call_component who at_ m r = (r', Ok tt) -> lifecycle r' = lifecycle r.
Proof.
  unfold call_component, enter_fault, refuse, st_fail. repeat case_goal; intros [= <-]; cbn;
    match goal with |- lifecycle (flush_records ?q) = _ => change (k_lifecycle (core (flush_records q)) = lifecycle r) end;
    rewrite core_flush; reflexivity.
Qed.

Lemma settled_dispatch (r : Runtime) : core_ok (core r) -> lifecycle r <> Faulted -> settled (dispatch r).
Proof.
  intros Hk Hlive. pose proof Hk as (_ & (Hs & _) & _). destruct (core_dispatch_ok (core r) Hk Hlive) as (Hk' & Hr & _).
  eapply settled_alike; [apply dispatch_alike; [exact Hs | reflexivity] | exact Hk' | exact Hr].
Qed.

Lemma settled_init_from n : forall index (r : Runtime),
  core_ok (core r) -> lifecycle r <> Faulted -> 0 <= index -> index + Z.of_nat n <= Z.of_nat (length (slots r)) ->
  settled (init_from n index r).
Proof.
  induction n as [|n IH]; intros index r Hk Hlive Hi Hn; cbn [init_from].
  { split; [exact Hk | intros [w E]; discriminate]. }
  pose proof Hk as ((Hb & _) & _). cbn in Hb.
  assert (Hlt : (Z.to_nat index < length (st_slots (k_static (core r))))%nat) by (cbn; lia).
  assert (Hin : in_u 32 index) by (unfold in_u; lia).
  destruct (core_call_ok index At_Init (component_init Ctx) (core r) Hk Hlive Hin Hlt) as [Hk' Hr].
  { intros P b c HP Hbk Hc. apply init_typed; assumption. }
  pose proof (call_alike index At_Init (fun C _ => component_init C) r (core r) init_uniform (reflexivity _)) as Ha.
  apply settled_bind; [eapply settled_alike; eassumption |].
  intros [] r' E Hk2. apply IH; [exact Hk2 | rewrite (call_lifecycle _ _ _ _ _ E); exact Hlive | lia |].
  destruct Ha as [Ha _]. cbn beta in Ha. rewrite E in Ha. destruct Ha as [Hst _]. cbn in Hst.
  assert (Hsl : slots r' = st_slots (k_static (fst (core_call index At_Init (component_init Ctx) (core r))))) by (rewrite <- Hst; reflexivity).
  rewrite Hsl. unfold core_call, core_fault. repeat case_goal; cbn; lia.
Qed.

Lemma init_lifecycle n : forall index (r r' : Runtime), init_from n index r = (r', Ok tt) -> lifecycle r' = lifecycle r.
Proof.
  induction n as [|n IH]; intros index r r'; cbn [init_from]; [intros [= <-]; reflexivity |].
  rewrite ST_bind_unfold. destruct (call_component _ _ _ r) as [r1 [[]|e]] eqn:E; [|discriminate].
  intros E2. rewrite (IH _ _ _ E2). eapply call_lifecycle, E.
Qed.

Lemma settled_init (r : Runtime) : core_ok (core r) -> settled (init r).
Proof.
  intros Hk. unfold init. apply settled_bind; [apply settled_require, Hk |]. intros [] r1 E1 Hk1.
  apply require_Ok in E1 as [-> Hl].
  rewrite ST_bind_unfold. cbn [st_get]. apply settled_bind; [apply settled_init_from; [exact Hk1 | congruence | lia | lia] |].
  intros [] r2 E2 Hk2. apply init_lifecycle in E2. split; [|intros [w E]; discriminate].
  destruct Hk2 as (K1 & K2 & K3 & K4 & K5 & K6 & K7 & K8). cbn in *. rewrite E2, Hl in K4. split_and!; try assumption.
  { eapply Forall2_impl; [exact K4 |]. intros slot b (? & ? & Hb). split_and!; [assumption | assumption |].
    intros _. apply Hb. discriminate. }
  left. destruct K8 as [K8|K8]; [exact K8 | congruence].
Qed.

Lemma core_fire_ok horizon stop (r : Runtime) :
  core_ok (core r) -> core_ok (core (fst (fire_observe_points horizon stop r))).
Proof. unfold fire_observe_points. rewrite core_fire. auto. Qed.

Lemma settled_step (r : Runtime) : core_ok (core r) -> settled (step r).
Proof.
  intros Hk. unfold step. apply settled_bind; [apply settled_require, Hk |]. intros [] r1 E1 Hk1.
  apply require_Ok in E1 as [-> Hl].
  apply settled_bind; [split; [apply core_fire_ok, Hk1 | intros [w E]; discriminate] |]. intros [] r2 [= <-] Hk2.
  apply settled_bind.
  { apply settled_dispatch; [exact Hk2 |]. change (k_lifecycle (core (fst (fire_observe_points None false r))) <> Faulted).
    unfold fire_observe_points. rewrite core_fire. cbn. congruence. } intros [[d c]|] r3 _ Hk3.
  - apply settled_bind; [split; [apply core_fire_ok, Hk3 | intros [w E]; discriminate] |]. intros [] r4 _ Hk4.
    split; [exact Hk4 | intros [w E]; discriminate].
  - split; [exact Hk3 | intros [w E]; discriminate].
Qed.

Lemma advances_ok until n (k k' : Core) :
  advances until n k k' -> core_ok k -> k_lifecycle k <> Faulted -> core_ok k' /\ k_lifecycle k' <> Faulted.
Proof.
  induction 1 as [|n k k1 k2 ev _ IH E _]; intros Hk Hlive; [auto |]. destruct (IH Hk Hlive) as [Hk1 Hl1].
  destruct (core_dispatch_ok k1 Hk1 Hl1) as (Hk2 & _ & Hlf). rewrite E in Hk2, Hlf.
  split; [exact Hk2 |]. specialize (Hlf _ eq_refl). cbn in Hlf. congruence.
Qed.

Lemma core_run_ok fuel until (k : Core) :
  core_ok k -> k_lifecycle k <> Faulted ->
  core_ok (fst (core_run fuel until k)) /\ (snd (core_run fuel until k) = Err OutOfFuel \/ refusal (snd (core_run fuel until k))).
Proof.
  revert k. induction fuel as [|fuel IH]; intros k Hk Hlive; [split; [exact Hk | left; reflexivity] |].
  cbn. unfold core_turn. destruct (Scheduler.peek_key _); [|split; [exact Hk | right; exact I]].
  destruct (until <? _); [split; [exact Hk | right; exact I] |].
  destruct (core_dispatch_ok k Hk Hlive) as (Hk1 & Hr & Hlf). destruct (core_dispatch k) as [k1 [o|e1]]; cbn [fst snd] in *; [|auto].
  specialize (IH k1 Hk1). rewrite (Hlf o eq_refl) in IH. specialize (IH Hlive). destruct (core_run fuel until k1) as [k2 [n|e2]]; cbn [fst snd] in *; [split; [apply IH | right; exact I] |].
  destruct IH as [Hk2 [E|Hr2]]; (split; [exact Hk2 |]); [left; congruence | right; exact Hr2].
Qed.

Lemma settled_run fuel until (r : Runtime) : core_ok (core r) -> settled (run fuel until r).
Proof.
  intros Hk. unfold run. apply settled_bind; [apply settled_require, Hk |]. intros [] r1 E1 Hk1.
  apply require_Ok in E1 as [-> Hl]. rename r into r1. pose proof Hk1 as (_ & (Hs & _) & _). pose proof (dispatches_range _ Hs) as Hd.
  pose proof (run_loop_refines fuel until 0 r1 (core r1) Hs (reflexivity _) ltac:(cbn in *; lia)) as Hr.
  destruct (run_loop fuel until 0 r1) as [r2 res]. destruct Hr as (_ & n & k' & Hadv & Hres).
  apply advances_ok in Hadv as [Hadv Hlive]; [|exact Hk1 | cbn; congruence].
  assert (Hsame : forall k'', core r2 ≡ k'' -> core_ok k'' -> core_ok (core r2)).
  { intros k'' He Hk2. apply (core_ok_proper _ _ (symmetry He) Hk2). }
  destruct res as [o|e]; [split; [apply (Hsame k'); [apply Hres | exact Hadv] | intros [w E]; discriminate] |].
  destruct (core_run_ok 1 until k' Hadv Hlive) as [Hk2 Hr2]. destruct e as [e|w|].
  - destruct Hres as (k'' & E & He). rewrite E in Hk2. split; [apply (Hsame _ He Hk2) | intros [w E']; discriminate].
  - destruct Hres as (k'' & E & _). rewrite E in Hr2. cbn in Hr2. destruct Hr2 as [E'|[e' E']]; discriminate.
  - split; [apply (Hsame k'); [apply Hres | exact Hadv] | intros [w E]; discriminate].
Qed.

Lemma run_events fuel until (r r' : Runtime) o :
  core_ok (core r) -> run fuel until r = (r', Ok o) ->
  0 <= events o /\ dispatches (scheduler r') = dispatches (scheduler r) + events o.
Proof.
  intros Hk. unfold run. rewrite ST_bind_unfold. pose proof (settled_require Ready r Hk) as [Hk1 _].
  assert (Hr1 : fst (require Ready r) = r) by (unfold require, refuse, st_fail; repeat case_goal; reflexivity).
  destruct (require Ready r) as [r1 [[]|e]]; [|discriminate]. cbn in Hr1. subst r1.
  pose proof Hk1 as (_ & (Hs & _) & _). pose proof (dispatches_range _ Hs) as Hd.
  pose proof (run_loop_refines fuel until 0 r (core r) Hs (reflexivity _) ltac:(cbn in *; lia)) as Hr.
  intros E. rewrite E in Hr. destruct Hr as (_ & n & k' & Hadv & Hk' & Ho & _).
  pose proof (advances_left until n _ _ Hadv Hs) as [Hn _].
  destruct (advances_sched _ _ _ _ Hadv Hs) as (_ & _ & Hd' & _). rewrite Ho. split; [lia |].
  destruct Hk' as (_ & _ & _ & (_ & _ & _ & Hns & Hh) & _). cbn in *. unfold dispatches in *. rewrite Hns, Hh. lia.
Qed.

Lemma settled_run_until pauses fuel until : forall total (r : Runtime),
  core_ok (core r) -> 0 <= total <= dispatches (scheduler r) -> settled (run_until_loop pauses fuel until total r).
Proof.
  induction pauses as [|pauses IH]; intros total r Hk Ht; cbn [run_until_loop].
  { split; [exact Hk | intros [w E]; discriminate]. }
  apply settled_bind; [apply settled_run, Hk |]. intros o r1 E Hk1.
  destruct (run_events _ _ _ _ _ Hk E) as [He Hd]. pose proof Hk1 as (_ & (Hs & _) & _).
  pose proof (dispatches_range _ Hs) as Hd1. cbn in Hd1.
  rewrite (proj2 (checked_add_Some 64 total (events o) (total + events o))) by lia.
  case_bool_decide; [apply IH; [exact Hk1 | lia] | split; [exact Hk1 | intros [w E']; discriminate]].
Qed.

Lemma settled_call (c : Call) (r : Runtime) : core_ok (core r) -> settled (apply_call c r).
Proof.
  intros Hk. destruct c; cbn [apply_call].
  - apply settled_init, Hk.
  - apply settled_outcome, settled_step, Hk.
  - apply settled_outcome, settled_run, Hk.
  - apply settled_outcome. pose proof Hk as (_ & (Hs & _) & _). apply settled_run_until; [exact Hk |].
    pose proof (dispatches_range _ Hs). cbn in *. lia.
  - split; [exact Hk | intros [w E]; discriminate].
  - split; [exact Hk | intros [w E]; discriminate].
  - apply settled_bind; [apply settled_require, Hk |]. intros [] r1 _ Hk1.
    split; [exact Hk1 | intros [w E]; discriminate].
  - split; [|intros [w E]; discriminate]. unfold take_trace. destruct (trace r); exact Hk.
  - split; [|intros [w E]; discriminate]. unfold resume_trace. repeat case_goal; exact Hk.
Qed.

Lemma drive_ok (calls : list Call) (r : Runtime) :
  core_ok (core r) ->
  let '(r', answers) := drive calls r in
  core_ok (core r') /\ Forall (fun a => ~ panics a) answers.
Proof.
  revert r. induction calls as [|c calls IH]; intros r Hk; cbn; [auto |].
  destruct (settled_call c r Hk) as [Hk1 Hn]. destruct (apply_call c r) as [r1 a]. cbn [fst snd] in *.
  specialize (IH r1 Hk1). destruct (drive calls r1) as [r2 answers]. destruct IH as [Hk2 Hans]. auto.
Qed.

Lemma faulted_refuses (c : Call) (r : Runtime) (e : SimError) :
  lifecycle r = Faulted -> fault r = Some e ->
  core (fst (apply_call c r)) = core r /\
  match c with
  | Call_init | Call_step | Call_run _ _ | Call_start_trace =>
      apply_call c r = (r, Err (Refused (RuntimeError_Faulted e)))
  | Call_resume_trace prefix => resume_trace prefix r = (r, Err NotFreshlyRestored)
  | _ => True
  end.
Proof.
  intros Hl Hf. assert (Hreq : forall l, require l r = (r, Err (Refused (RuntimeError_Faulted e)))).
  { intros l. unfold require. rewrite Hl, Hf. reflexivity. }
  assert (Hbind : forall A (f : unit -> ST Runtime Stopped A) l,
    mbind (M := ST Runtime Stopped) f (require l) r = (r, Err (Refused (RuntimeError_Faulted e)))).
  { intros. rewrite ST_bind_unfold, Hreq. reflexivity. }
  destruct c; cbn [apply_call]; unfold init, step, run, start_trace, outcome.
  all: rewrite ?Hbind; try (split; reflexivity).
  - split; [|exact I]. unfold run_until. destruct fuel; [reflexivity |]. cbn [run_until_loop].
    rewrite ST_bind_unfold. unfold run. rewrite Hbind. reflexivity.
  - split; [|exact I]. unfold take_trace. destruct (trace r); reflexivity.
  - unfold resume_trace. rewrite Hl. split; reflexivity.
Qed.
End driver.

(** * Driving a session does not change it *)

Section driving.
Context `{EventOrder, Clocks, Protocols, Blake3, SnapshotCodec, !Canonical}.
Context {B : Type} `{!Component B, !UniformComponent B, !TypedComponent B}.

Local Abbreviation Core := (Core (B := B)).

(** [n] events, whenever they are due. *)
Inductive moves : Z -> Core -> Core -> Prop :=
| moves_none k : moves 0 k k
| moves_event n k k1 k2 ev :
    moves n k k1 -> core_dispatch k1 = (k2, Ok (Some ev)) -> moves (n + 1) k k2.

Lemma moves_trans n m k k1 k2 : moves n k k1 -> moves m k1 k2 -> moves (n + m) k k2.
Proof.
  intros Hn Hm. induction Hm as [|m k1 k2 k3 ev _ IH E]; [rewrite Z.add_0_r; exact Hn |].
  rewrite Z.add_assoc. econstructor; [apply IH, Hn | exact E].
Qed.

Lemma advances_moves until n k k' : advances until n k k' -> moves n k k'.
Proof. induction 1; econstructor; eassumption. Qed.

Lemma dispatch_now (k k' : Core) ev :
  sched_ok (k_scheduler k) -> core_dispatch k = (k', Ok (Some ev)) ->
  Scheduler.now (k_scheduler k) <= tick (ev_key ev) /\ Scheduler.now (k_scheduler k') = tick (ev_key ev).
Proof.
  intros Hok E. pose proof (core_dispatch_cursor k Hok) as Hc. rewrite E in Hc.
  destruct Hc as (_ & _ & _ & _ & _ & Hl & _). split; [|unfold Scheduler.now; rewrite Hl; reflexivity].
  revert E. pose proof (pop_correct _ Hok) as Hp. pose proof Hok as (_ & _ & _ & _ & Hh & Hlast). unfold core_dispatch.
  destruct (Scheduler.pop (k_scheduler k)) as [s1 [[e|]|[e|w]]]; try discriminate.
  destruct (core_call _ _ _ _) as [k2 [u|e2]]; [|discriminate]. intros [= _ <-]. cbn [ev_key].
  destruct Hp as (Hperm & _ & Hlt & _). unfold Scheduler.now.
  destruct (last_dispatched (k_scheduler k)) as [l|].
  - apply key_lt_spec in Hlt. lia.
  - rewrite Hperm in Hh. apply Forall_cons in Hh as [(_ & _ & ?) _]. assumption.
Qed.

Lemma moves_advances until n k k' :
  moves n k k' -> sched_ok (k_scheduler k) -> Scheduler.now (k_scheduler k') <= until ->
  advances until n k k' /\ Scheduler.now (k_scheduler k) <= Scheduler.now (k_scheduler k').
Proof.
  induction 1 as [|n k k1 k2 ev Hm IH E]; intros Hok Hn; [split; [constructor | lia] |].
  assert (Hok1 : sched_ok (k_scheduler k1)).
  { clear -Hm Hok UniformComponent0. induction Hm as [|n k k1 k2 ev Hm IH E]; [exact Hok |].
    pose proof (core_dispatch_cursor k1 (IH Hok)) as Hc. rewrite E in Hc. apply Hc. }
  destruct (dispatch_now k1 k2 ev Hok1 E) as [Ha Hb]. destruct (IH Hok ltac:(lia)) as [Hadv Hle].
  split; [econstructor; [exact Hadv | exact E | lia] | lia].
Qed.

(** A failed event leaves a faulted session, and a faulted session keeps its error. *)
Definition faulted (k : Core) : Prop := k_lifecycle k = Faulted /\ exists e, k_fault k = Some e.

Lemma core_dispatch_faulted k k' e : core_dispatch k = (k', Err (Refused e)) -> faulted k'.
Proof.
  assert (Hc : forall who at_ m (k k' : Core) e, core_call who at_ m k = (k', Err (Refused e)) -> faulted k').
  { intros who at_ m k0 k1 e0. unfold core_call, core_fault, faulted. repeat case_goal; intros [= <- <-]; cbn; eauto. }
  unfold core_dispatch. destruct (Scheduler.pop _) as [s1 [[ev|]|[f|w]]]; try discriminate.
  - match goal with |- context [core_call ?w ?a ?m ?k0] => pose proof (Hc w a m k0) as Hf;
      destruct (core_call w a m k0) as [k2 [u|e2]] end; [discriminate |].
    intros [= <- ->]. eapply Hf. reflexivity.
  - unfold core_fault, faulted. intros [= <- <-]. cbn. eauto.
Qed.

Context {Ob : Type} `{!Observer B Ob}.

Local Abbreviation Runtime := (Runtime (B := B) (Ob := Ob)).

(** A call of a ready session: some events, or a fault. *)
Definition progress (k : Core) (q : Runtime) : Prop :=
  (exists n k', moves n k k' /\ core q ≡ k') \/ faulted (core q).

Lemma faulted_proper (k k' : Core) : k ≡ k' -> faulted k -> faulted k'.
Proof. intros (_ & _ & _ & _ & _ & Hl & Hf) [H1' [e H2']]. split; [congruence | exists e; congruence]. Qed.

Lemma progress_refl (k : Core) (q : Runtime) : core q ≡ k -> progress k q.
Proof. intros Hk. left. exists 0, k. split; [constructor | exact Hk]. Qed.

Lemma progress_dispatch (k : Core) (q : Runtime) :
  core_ok (core q) -> lifecycle q <> Faulted -> core q ≡ k -> progress k (fst (dispatch q)).
Proof.
  intros Hok Hlive Hk. pose proof Hk as (_ & _ & _ & _ & _ & El & _). cbn in El. rewrite El in Hlive. pose proof (core_ok_proper _ _ Hk Hok) as Hok'. pose proof Hok as (_ & (Hs & _) & _).
  destruct (dispatch_alike q k Hs Hk) as [Ha Hb]. destruct (core_dispatch_ok k Hok' Hlive) as (_ & Hr & _).
  pose proof (core_dispatch_cursor k) as Hcur. destruct (core_dispatch k) as [k' [[ev|]|e]] eqn:E; cbn [fst snd] in *.
  - left. exists (0 + 1), k'. split; [econstructor; [constructor | exact E] | exact Ha].
  - left. exists 0, k. split; [constructor |]. destruct Hok' as (_ & (Hs' & _) & _).
    destruct (Hcur Hs') as (_ & _ & _ & -> & _). exact Ha.
  - right. destruct Hr as [e' ->]. eapply faulted_proper; [symmetry; exact Ha |]. eapply core_dispatch_faulted, E.
Qed.

Lemma progress_run fuel until (k : Core) (q : Runtime) :
  core_ok (core q) -> core q ≡ k -> lifecycle q = Ready -> progress k (fst (run fuel until q)).
Proof.
  intros Hok Hk Hl. pose proof (core_ok_proper _ _ Hk Hok) as Hok'.
  pose proof Hok' as (_ & (Hs & _) & _). pose proof (dispatches_range _ Hs) as Hd.
  unfold run. rewrite ST_bind_unfold. unfold require. rewrite Hl, bool_decide_true by reflexivity.
  pose proof (run_loop_refines fuel until 0 q k Hs Hk ltac:(lia)) as Hr.
  destruct (run_loop fuel until 0 q) as [q' res]. destruct Hr as (_ & n & k' & Hadv & Hres). cbn [fst].
  destruct res as [o|e]; [left; exists n, k'; split; [eapply advances_moves, Hadv | apply Hres] |].
  destruct e as [e|w|]; [| |left; exists n, k'; split; [eapply advances_moves, Hadv | apply Hres]].
  - right. destruct Hres as (k'' & E & Hk''). eapply faulted_proper; [symmetry; exact Hk'' |].
    revert E. cbn. unfold core_turn. destruct (Scheduler.peek_key _); [|discriminate]. destruct (until <? _); [discriminate |].
    destruct (core_dispatch k') as [k1 [o|e1]] eqn:E; [discriminate |]. intros [= <- ->]. eapply core_dispatch_faulted, E.
  - exfalso. destruct Hres as (k'' & E & _). apply advances_ok in Hadv as [Hadv Hlive];
      [|exact Hok' | destruct Hk as (_ & _ & _ & _ & _ & El & _); cbn in El; congruence].
    destruct (core_run_ok 1 until k' Hadv Hlive) as [_ Hr]. rewrite E in Hr. cbn in Hr. destruct Hr as [E'|[e' E']]; discriminate.
Qed.

Lemma faulted_call (c : Call (Ob := Ob)) (q : Runtime) : faulted (core q) -> core (fst (apply_call c q)) = core q.
Proof. intros [Hl [e Hf]]. exact (proj1 (faulted_refuses c q e Hl Hf)). Qed.

Lemma progress_trans (k : Core) (q q' : Runtime) :
  progress k q -> (forall k', core q ≡ k' -> core_ok k' -> progress k' q') -> (faulted (core q) -> core q' = core q) ->
  core_ok (core q) -> progress k q'.
Proof.
  intros [(n & k' & Hm & Hk')|Hf] Hnext Hstay Hok.
  - destruct (Hnext k' Hk' (core_ok_proper _ _ Hk' Hok)) as [(m & k2 & Hm2 & Hk2)|Hf]; [|right; exact Hf].
    left. exists (n + m), k2. split; [eapply moves_trans; eassumption | exact Hk2].
  - right. rewrite Hstay by exact Hf. exact Hf.
Qed.

Lemma moves_ready n (k k' : Core) :
  moves n k k' -> sched_ok (k_scheduler k) ->
  k_lifecycle k' = k_lifecycle k /\ sched_ok (k_scheduler k') /\
  dispatches (k_scheduler k') = dispatches (k_scheduler k) + n.
Proof.
  induction 1 as [|n k k1 k2 ev _ IH E]; intros Hok; [split_and!; [reflexivity | exact Hok | lia] |].
  destruct (IH Hok) as (Hl & Hok1 & Hd). pose proof (core_dispatch_cursor k1 Hok1) as Hc. rewrite E in Hc.
  destruct Hc as (Hok2 & _ & _ & _ & Hd2 & _ & _ & Hl2). split_and!; [congruence | exact Hok2 | lia].
Qed.

Lemma progress_ready (k : Core) (q : Runtime) :
  progress k q -> k_lifecycle k = Ready -> sched_ok (k_scheduler k) ->
  lifecycle q = Ready \/ faulted (core q).
Proof.
  intros [(n & k' & Hm & Hk')|Hf] Hl Hok; [|right; exact Hf]. left.
  destruct (moves_ready n k k' Hm Hok) as [Hl' _]. destruct Hk' as (_ & _ & _ & _ & _ & E & _). cbn in E. congruence.
Qed.

Lemma progress_run_until fuel until pauses : forall total (k : Core) (q : Runtime),
  core_ok (core q) -> core q ≡ k -> lifecycle q = Ready -> 
  progress k (fst (run_until_loop pauses fuel until total q)).
Proof.
  induction pauses as [|pauses IH]; intros total k q Hok Hk Hl; cbn [run_until_loop]; [apply progress_refl, Hk |].
  rewrite ST_bind_unfold. pose proof (progress_run fuel until k q Hok Hk Hl) as Hp.
  pose proof (settled_run fuel until q Hok) as [Hok1 _].
  destruct (run fuel until q) as [q1 [o|e]]; cbn [fst] in *; [|exact Hp].
  destruct (checked_add _ _ _) as [t|]; [|exact Hp]. case_bool_decide; [|exact Hp].
  assert (Hr : lifecycle q1 = Ready \/ faulted (core q1)).
  { eapply progress_ready; [exact Hp | rewrite <- Hl; symmetry; apply Hk | apply (core_ok_proper _ _ Hk Hok)]. }
  destruct Hr as [Hr|Hf].
  - eapply progress_trans; [exact Hp | | |exact Hok1].
    + intros k' Hk' _. apply IH; assumption.
    + intros [Hf _]. cbn in Hf. congruence.
  - right. destruct Hf as [Hf1 [e Hf2]]. cbn in Hf1, Hf2.
    assert (E : core (fst (run_until_loop pauses fuel until t q1)) = core q1).
    { destruct pauses; [reflexivity |]. cbn [run_until_loop]. rewrite ST_bind_unfold. unfold run.
      rewrite ST_bind_unfold. unfold require. rewrite Hf1, Hf2. reflexivity. }
    rewrite E. split; [exact Hf1 | eauto].
Qed.

Lemma progress_step (k : Core) (q : Runtime) :
  core_ok (core q) -> core q ≡ k -> lifecycle q = Ready -> progress k (fst (step q)).
Proof.
  intros Hok Hk Hl. unfold step. rewrite ST_bind_unfold. unfold require. rewrite Hl, bool_decide_true by reflexivity.
  rewrite ST_bind_unfold. cbn [st_modify]. rewrite ST_bind_unfold.
  set (q1 := fst (fire_observe_points None false q)).
  assert (E1 : core q1 = core q) by apply core_fire.
  pose proof (progress_dispatch k q1) as Hp. change (lifecycle q1) with (k_lifecycle (core q1)) in Hp. rewrite E1 in Hp.
  specialize (Hp Hok ltac:(cbn; congruence) Hk).
  destruct (dispatch q1) as [q2 [[[d c]|]|e]]; cbn [fst] in *; try exact Hp.
  unfold progress. rewrite ST_bind_unfold. cbn. unfold fire_observe_points. rewrite core_fire. exact Hp.
Qed.

Lemma progress_call (c : Call) (k : Core) (q : Runtime) :
  core_ok (core q) -> core q ≡ k -> lifecycle q = Ready -> progress k (fst (apply_call c q)).
Proof.
  intros Hok Hk Hl. destruct c; cbn [apply_call outcome fst].
  - apply progress_refl. unfold init. rewrite ST_bind_unfold. unfold require. rewrite Hl. exact Hk.
  - apply progress_step; assumption.
  - apply progress_run; assumption.
  - apply progress_run_until; assumption.
  - apply progress_refl, Hk.
  - apply progress_refl, Hk.
  - apply progress_refl. unfold start_trace. rewrite ST_bind_unfold. unfold require. rewrite Hl. exact Hk.
  - apply progress_refl. unfold take_trace. destruct (trace q); exact Hk.
  - apply progress_refl. unfold resume_trace. repeat case_goal; exact Hk.
Qed.

Lemma progress_drive (calls : list Call) : forall (k : Core) (q : Runtime),
  core_ok (core q) -> core q ≡ k -> lifecycle q = Ready -> progress k (fst (drive calls q)).
Proof.
  induction calls as [|c calls IH]; intros k q Hok Hk Hl; cbn; [apply progress_refl, Hk |].
  pose proof (progress_call c k q Hok Hk Hl) as Hp. destruct (settled_call c q Hok) as [Hok1 _].
  destruct (apply_call c q) as [q1 a]. cbn [fst] in *.
  assert (Hstay : faulted (core q1) -> core (fst (drive calls q1)) = core q1).
  { clear. revert q1. induction calls as [|c calls IH]; intros q Hf; [reflexivity |]. cbn.
    pose proof (faulted_call c q Hf) as E. destruct (apply_call c q) as [q1 a]. cbn [fst] in E.
    rewrite <- E in Hf. specialize (IH q1 Hf). destruct (drive calls q1). cbn in *. congruence. }
  assert (Hr : lifecycle q1 = Ready \/ faulted (core q1)).
  { eapply progress_ready; [exact Hp | rewrite <- Hl; symmetry; apply Hk | apply (core_ok_proper _ _ Hk Hok)]. }
  replace (fst (let '(r, rest) := drive calls q1 in (r, a :: rest))) with (fst (drive calls q1)) by (destruct (drive calls q1); reflexivity).
  destruct Hr as [Hr|Hf].
  - eapply progress_trans; [exact Hp | intros k' Hk' _; apply IH; assumption | exact Hstay | exact Hok1].
  - right. rewrite Hstay by exact Hf. exact Hf.
Qed.
End driving.

(** * Faults and termination *)

Section faults.
Context `{EventOrder, Clocks, Protocols, Blake3, SnapshotCodec, !Canonical}.
Context {B Ob : Type} `{!Component B, !UniformComponent B, !TypedComponent B, !Observer B Ob}.

Local Abbreviation Runtime := (Runtime (B := B) (Ob := Ob)).

Lemma core_dispatch_error (k k' : Core (B := B)) e :
  core_dispatch k = (k', Err (Refused e)) ->
  exists e', e = RuntimeError_Faulted e' /\ k_lifecycle k' = Faulted /\ k_fault k' = Some e'.
Proof.
  assert (Hc : forall who at_ m (k k' : Core (B := B)) e, core_call who at_ m k = (k', Err (Refused e)) ->
    exists e', e = RuntimeError_Faulted e' /\ k_lifecycle k' = Faulted /\ k_fault k' = Some e').
  { intros who at_ m k0 k1 e0. unfold core_call, core_fault. repeat case_goal; intros [= <- <-]; cbn; eauto. }
  unfold core_dispatch. destruct (Scheduler.pop _) as [s1 [[ev|]|[f|w]]]; try discriminate.
  - match goal with |- context [core_call ?w ?a ?m ?k0] => pose proof (Hc w a m k0) as Hf;
      destruct (core_call w a m k0) as [k2 [u|e2]] end; [discriminate |].
    intros [= <- ->]. eapply Hf. reflexivity.
  - unfold core_fault. intros [= <- <-]. cbn. eauto.
Qed.

(** A fault is recorded and terminal: a step that fails leaves the session [Faulted]
    with the error it reports, and from then on, whatever the driver calls, nothing of the
    simulation changes and every call that would run, initialize or start a trace is refused
    with that same error. *)
Theorem fault_is_terminal (calls : list Call) (r q q' : Runtime) (e : RuntimeError) answers :
  core_ok (core r) -> lifecycle r = Ready -> step r = (q, Err (Refused e)) -> drive calls q = (q', answers) ->
  core q' = core q /\
  exists e', e = RuntimeError_Faulted e' /\ lifecycle q = Faulted /\ fault q = Some e' /\
  Forall2 (fun c a => match c with
    | Call_init | Call_step | Call_run _ _ | Call_start_trace => a = Err (Refused e)
    | _ => True end) calls answers.
Proof.
  intros Hok Hl Hstep Hdrive.
  assert (Hq : exists e', e = RuntimeError_Faulted e' /\ lifecycle q = Faulted /\ fault q = Some e').
  { revert Hstep. unfold step. rewrite ST_bind_unfold. unfold require. rewrite Hl, bool_decide_true by reflexivity.
    rewrite ST_bind_unfold. cbn [st_modify]. rewrite ST_bind_unfold.
    set (q1 := fst (fire_observe_points None false r)). assert (E1 : core q1 = core r) by apply core_fire.
    assert (Hs1 : sched_ok (scheduler q1)).
    { change (scheduler q1) with (k_scheduler (core q1)). rewrite E1. apply Hok. }
    destruct (dispatch_alike q1 (core q1) Hs1 (reflexivity _)) as [Ha Hb].
    destruct (dispatch q1) as [q2 [[[d c]|]|e2]]; try discriminate. intros [= -> ->].
    destruct (core_dispatch (core q1)) as [k' [o|e']] eqn:E; cbn [fst snd] in *; [contradiction |]. subst e'.
    apply core_dispatch_error in E as (e' & -> & Hlf & Hft). destruct Ha as (_ & _ & _ & _ & _ & El & Ef).
    exists e'. cbn in El, Ef. split_and!; congruence. }
  destruct Hq as (e' & -> & Hlf & Hft). assert (Hgen : forall calls q q' answers, lifecycle q = Faulted -> fault q = Some e' ->
    drive calls q = (q', answers) -> core q' = core q /\
    Forall2 (fun c a => match c with
      | Call_init | Call_step | Call_run _ _ | Call_start_trace => a = Err (Refused (RuntimeError_Faulted e'))
      | _ => True end) calls answers).
  { clear. induction calls as [|c calls IH]; intros q q' answers Hl Hf; cbn; [intros [= <- <-]; auto |].
    destruct (faulted_refuses c q e' Hl Hf) as [Hc Hr]. destruct (apply_call c q) as [q1 a] eqn:Ea. cbn [fst] in Hc.
    destruct (drive calls q1) as [q2 rest] eqn:Ed. intros [= <- <-].
    destruct (IH q1 q2 rest) as [Hc2 Hrest]; [change (k_lifecycle (core q1) = Faulted); rewrite Hc; exact Hl
      | change (k_fault (core q1) = Some e'); rewrite Hc; exact Hf | exact Ed |].
    split; [congruence |]. constructor; [|exact Hrest]. destruct c; try exact I; congruence. }
  destruct (Hgen calls q q' answers Hlf Hft Hdrive) as [Hc Hall]. split; [exact Hc |]. exists e'. auto.
Qed.

(** C28: A run ends: with fuel for the events rule S5 allows up to the horizon it returns,
    it dispatches no more than those, and unless it was paused nothing is left to do before the
    horizon. *)
Theorem run_terminates (fuel : nat) (until : Z) (r q : Runtime) res :
  core_ok (core r) -> events_left until (scheduler r) < Z.of_nat fuel -> run fuel until r = (q, res) ->
  res <> Err OutOfFuel /\
  forall o, res = Ok o ->
    0 <= events o <= events_left until (scheduler r) /\
    (stop o <> Stop_Paused -> forall k, Scheduler.peek_key (scheduler q) = Some k -> until < tick k).
Proof.
  intros Hok Hf. unfold run. rewrite ST_bind_unfold.
  assert (Hr1 : fst (require Ready r) = r) by (unfold require, refuse, st_fail; repeat case_goal; reflexivity).
  assert (Hr2 : snd (require Ready r) <> Err OutOfFuel) by (unfold require, refuse, st_fail; repeat case_goal; discriminate).
  destruct (require Ready r) as [r1 [[]|e]]; cbn in Hr1; subst r1.
  2:{ intros [= <- <-]. split; [cbn in Hr2; congruence | discriminate]. }
  pose proof Hok as (_ & (Hs & _) & _). pose proof (dispatches_range _ Hs) as Hd. cbn in Hs, Hd.
  pose proof (run_loop_fuel fuel until 0 r (core r) Hs (reflexivity _) ltac:(cbn; lia) Hf) as Hnf.
  pose proof (run_loop_refines fuel until 0 r (core r) Hs (reflexivity _) ltac:(cbn; lia)) as Hr.
  intros E. rewrite E in *. split; [exact Hnf |]. intros o ->.
  destruct Hr as (_ & n & k' & Hadv & Hk' & Ho & _ & Hns).
  pose proof (advances_left until n _ _ Hadv Hs) as [Hn Hleft]. cbn in Hleft.
  assert (0 <= events_left until (k_scheduler k')) by (unfold events_left; lia).
  split; [lia |]. intros Hst k Hpk. specialize (Hns Hst).
  destruct (advances_sched _ _ _ _ Hadv Hs) as (Hs' & _). pose proof Hk' as (_ & _ & _ & Hsq & _).
  rewrite (peek_key_proper (scheduler q) (k_scheduler k')) in Hpk; [|rewrite Hsq; exact Hs' | exact Hsq].
  revert Hns. cbn. unfold core_turn. rewrite Hpk. destruct (Z.ltb_spec until (tick k)); [auto |].
  destruct (core_dispatch k') as [? [?|?]]; discriminate.
Qed.
End faults.

(** * Observation is transparent *)

Section transparent.
Context `{EventOrder, Clocks, Protocols, Blake3, SnapshotCodec, !Canonical}.
Context {B Ob Ob' : Type} `{!Component B, !UniformComponent B, !TypedComponent B, !Observer B Ob, !Observer B Ob'}.

Lemma transparent_runs (calls : list Call) (r : Runtime (Ob := Ob)) (r' : Runtime (Ob := Ob'))
    (fuel : nat) (until : Z) :
  let q := fst (drive calls r) in
  core_ok (core r) -> core r ≡ core r' -> lifecycle r = Ready -> lifecycle q = Ready ->
  Scheduler.now (scheduler q) <= until ->
  run_bound until q < Z.of_nat fuel -> run_bound until r' < Z.of_nat fuel ->
  core (fst (run_until fuel until q)) ≡ core (fst (run_until fuel until r')) /\
  match snd (run_until fuel until q), snd (run_until fuel until r') with
  | Ok n, Ok n' => n' = n + (dispatches (scheduler q) - dispatches (scheduler r))
  | Err e, Err e' => e = e' /\ e <> OutOfFuel
  | _, _ => False
  end.
Proof.
  intros q Hok Hk Hl Hq Hnow Hb Hb'. set (k := core r').
  assert (Hokk : core_ok k) by (apply (core_ok_proper _ _ Hk Hok)). pose proof Hokk as (_ & (Hs & _) & _).
  assert (Hlk : k_lifecycle k = Ready) by (rewrite <- Hl; symmetry; apply Hk).
  destruct (progress_drive calls k r Hok Hk Hl) as [(n & k' & Hm & Hk')|[Hf _]]; [|cbn in Hf; unfold q in Hq; congruence].
  fold q in Hk'. pose proof Hk' as (_ & _ & _ & Hsq & _). cbn in Hsq.
  destruct (moves_ready n k k' Hm Hs) as (Hl' & Hs' & Hd).
  rewrite (now_proper _ _ Hsq) in Hnow. destruct (moves_advances until n k k' Hm Hs Hnow) as [Hadv _].
  assert (Hdq : dispatches (scheduler q) - dispatches (scheduler r) = n).
  { destruct Hsq as (_ & _ & _ & E1 & E2), Hk as (_ & _ & _ & (_ & _ & _ & E3 & E4) & _).
    unfold dispatches in *. cbn in *. rewrite E1, E2, E3, E4. lia. }
  pose proof (dispatches_range _ Hs) as Hdk. pose proof (dispatches_range _ Hs') as Hdk'.
  pose proof (advances_left until n k k' Hadv Hs) as [Hn Hleft].
  assert (Hel : events_left until (k_scheduler k) < Z.of_nat fuel).
  { unfold run_bound in Hb'. cbn. lia. }
  destruct (run_until_refines fuel until fuel 0 q k' Hs' Hk' ltac:(congruence) ltac:(lia) Hb ltac:(lia)) as (f1 & N1 & A1 & A2).
  destruct (run_until_refines fuel until fuel 0 r' k Hs (reflexivity _) Hlk ltac:(lia) Hb' Hel) as (f2 & N2 & C1 & C2).
  destruct (advances_run until n k k' f1 Hadv Hs N1) as [f3 E3].
  assert (Hsame : core_run f2 until k = core_run f3 until k).
  { assert (N3 : snd (core_run f3 until k) <> Err OutOfFuel).
    { rewrite E3. destruct (core_run f1 until k') as [? [?|?]]; cbn in *; congruence. }
    destruct (Nat.le_ge_cases f2 f3); [symmetry|]; apply core_run_mono; assumption. }
  rewrite E3 in Hsame. rewrite Hsame in *. unfold run_until.
  destruct (run_until_loop fuel fuel until 0 q) as [q1 res], (run_until_loop fuel fuel until 0 r') as [r1 res'].
  destruct (core_run f1 until k') as [k1 [m|e]]; cbn [fst snd] in *.
  - split; [rewrite A1, C1; reflexivity |]. destruct res, res'; try contradiction. lia.
  - split; [rewrite A1, C1; reflexivity |]. destruct res, res'; try contradiction. subst. split; [reflexivity | congruence].
Qed.

(** C3: however a session is driven and watched (steps, runs, pauses asked for by
    observers, observe points, traces), once it reaches a horizon its simulation is that of a
    session nobody watched that ran there at once: the same components, random streams, queue,
    digest and lifecycle, the same failure if there is one, and the same number of events. *)
Theorem observation_transparent (calls : list Call) (r : Runtime (Ob := Ob)) (r' : Runtime (Ob := Ob'))
    (fuel : nat) (until : Z) :
  let q := fst (drive calls r) in
  core_ok (core r) -> core r ≡ core r' -> lifecycle r = Ready -> lifecycle q = Ready ->
  Scheduler.now (scheduler q) <= until ->
  run_bound until q < Z.of_nat fuel -> run_bound until r' < Z.of_nat fuel ->
  core (fst (run_until fuel until q)) ≡ core (fst (run_until fuel until r')) /\
  match snd (run_until fuel until q), snd (run_until fuel until r') with
  | Ok n, Ok n' => n' = n + (dispatches (scheduler q) - dispatches (scheduler r))
  | Err e, Err e' => e = e' /\ e <> OutOfFuel
  | _, _ => False
  end.
Proof. exact (transparent_runs calls r r' fuel until). Qed.
End transparent.
