(* ===== verification/TopologyProofs.v ===== *)
(** Elaboration is exact: it accepts the valid topologies, and wires each port to the other end
    of its link. *)
From stdpp Require Import base numbers list option strings.
From Stdlib Require Import ZArith Lia.
From S2P Require Import Prelude Contracts Handlers Snapshots Platform Session Scheduler Trace Rng Runtime RuntimeProofs RuntimeInvariant Topology.

Local Open Scope string_scope.
Local Open Scope list_scope.
Local Open Scope Z_scope.

(** A port: the index of its component and its index there. *)
Abbreviation Port := (nat * nat)%type.

(** * Tables of peers *)

Section tables.

Definition tab {A} (t : list (list A)) (q : Port) : option A := row ← t !! fst q; row !! snd q.

Definition put (q : Port) (peer : Peer) (t : list (list (option Peer))) : list (list (option Peer)) :=
  alter (fun row => <[snd q := Some peer]> row) (fst q) t.

Lemma tab_put q peer t q' x :
  tab t q = Some x -> tab (put q peer t) q' = if decide (q = q') then Some (Some peer) else tab t q'.
Proof.
  destruct q as [i j], q' as [i' j']. unfold tab, put. cbn [fst snd]. intros (row & Hr & Hj)%bind_Some.
  destruct (decide (i = i')) as [->|Hi].
  - rewrite list_lookup_alter_eq, Hr. cbn. destruct (decide (j = j')) as [->|Hj'].
    + rewrite list_lookup_insert_eq by (eapply lookup_lt_Some, Hj). rewrite decide_True by reflexivity. reflexivity.
    + rewrite list_lookup_insert_ne by exact Hj'. rewrite decide_False by congruence. reflexivity.
  - rewrite list_lookup_alter_ne by exact Hi. rewrite decide_False by congruence. reflexivity.
Qed.

Lemma set_peer_put (i j : nat) peer t : set_peer (Z.of_nat i, Z.of_nat j) peer t = put (i, j) peer t.
Proof. unfold set_peer, put. cbn [fst snd]. rewrite !Nat2Z.id. reflexivity. Qed.

(** All ports of a table have a peer: the table without its options. *)
Lemma tab_mapM (t : list (list (option Peer))) (t' : list (list Peer)) :
  mapM (mapM id) t = Some t' -> forall q, tab t q = Some <$> tab t' q.
Proof.
  intros Hm. apply mapM_Some in Hm. intros [i j]. unfold tab. cbn [fst snd].
  pose proof (proj1 (Forall2_lookup _ _ _) Hm i) as Hi. inversion Hi as [row row' Hr E1 E2|E1 E2]; [cbn | reflexivity].
  apply mapM_Some in Hr. pose proof (proj1 (Forall2_lookup _ _ _) Hr j) as Hj.
  inversion Hj as [p p' Hp F1 F2|F1 F2]; [cbn; cbn in Hp; congruence | reflexivity].
Qed.

Lemma mapM_full (t : list (list (option Peer))) :
  (forall q, tab t q <> Some None) -> is_Some (mapM (mapM id) t).
Proof.
  intros Hfull. apply mapM_is_Some_2. apply Forall_lookup_2. intros i row Hi.
  apply mapM_is_Some_2. apply Forall_lookup_2. intros j [p|] Hj; [eexists; reflexivity |].
  exfalso. apply (Hfull (i, j)). unfold tab. cbn. rewrite Hi. exact Hj.
Qed.
End tables.

(** * Links *)

Section links.
Context `{EventOrder, Clocks, Protocols, Blake3, SnapshotCodec, !Canonical}.
Context {B : Type} `{!Component B}.

Definition port_at (slots : list (Slot B)) (q : Port) : option PortSpec :=
  s ← slots !! fst q; slot_ports s !! snd q.

(** The port a link's end names. *)
Definition end_ok (slots : list (Slot B)) (e : Z * string) (q : Port) (spec : PortSpec) : Prop :=
  fst q = Z.to_nat (fst e) /\ port_at slots q = Some spec /\ port_name spec = snd e.

Definition latency_known (domains : list ClockDomain) (l : option LinkLatency) : Prop :=
  match l with
  | Some (Latency_Cycles domain _) => (Z.to_nat domain < length domains)%nat
  | _ => True
  end.

(** A valid link, and the ports it joins. *)
Definition link_ok (slots : list (Slot B)) (domains : list ClockDomain) (l : DeclaredLink) (ends : Port * Port) : Prop :=
  exists sa sb, end_ok slots (end_a l) (fst ends) sa /\ end_ok slots (end_b l) (snd ends) sb /\
    port_role sa <> port_role sb /\ port_protocol sa = port_protocol sb /\
    latency_known domains (declared_latency l).

Definition endpoints (ends : list (Port * Port)) : list Port := ends ≫= fun '(a, b) => [a; b].

Definition names_ok (slots : list (Slot B)) : Prop :=
  Forall (fun s => Z.of_nat (length (slot_ports s)) < 2 ^ 16 /\ NoDup (port_name <$> slot_ports s)) slots.

Definition ids_ok (ls : list DeclaredLink) : Prop :=
  Forall (fun l => 0 <= fst (end_a l) /\ 0 <= fst (end_b l)) ls.

Lemma end_ok_unique slots e q q' s s' :
  names_ok slots -> end_ok slots e q s -> end_ok slots e q' s' -> q = q' /\ s = s'.
Proof.
  destruct q as [i j], q' as [i' j']. unfold end_ok, port_at. cbn [fst snd].
  intros Hn (Hi & Hp & Hname) (Hi' & Hp' & Hname'). subst i i'.
  apply bind_Some in Hp as (slot & Hs & Hp). rewrite Hs in Hp'. cbn in Hp'.
  pose proof (Forall_lookup_1 _ _ _ _ Hn Hs) as [_ Hnd].
  assert (j = j') as <-; [|rewrite Hp in Hp'; split; congruence].
  apply (NoDup_lookup (port_name <$> slot_ports slot) j j' (snd e)); [exact Hnd | |];
    rewrite list_lookup_fmap, ?Hp, ?Hp'; cbn; congruence.
Qed.

Lemma resolve_port_spec slots e :
  names_ok slots -> 0 <= fst e ->
  match resolve_port slots e with
  | Ok (c, p, spec, _) => exists q, end_ok slots e q spec /\ c = Z.of_nat (fst q) /\ p = Z.of_nat (snd q)
  | Err f => (exists e', f = Rejected e') /\ forall q spec, ~ end_ok slots e q spec
  end.
Proof.
  destruct e as [c name]. intros Hn Hc. unfold resolve_port. cbn [fst] in Hc.
  destruct (slots !! Z.to_nat c) as [slot|] eqn:Es; cbn.
  2:{ split; [eauto |]. intros [i j] spec (Hi & Hp & _). cbn in Hi. subst i. unfold port_at in Hp. cbn in Hp.
      rewrite Es in Hp. discriminate. }
  destruct (position_by _ _) as [index|] eqn:Ep; cbn.
  2:{ split; [eauto |]. intros [i j] spec (Hi & Hp & Hname). cbn in Hi, Hname. subst i. unfold port_at in Hp. cbn in Hp.
      rewrite Es in Hp. cbn in Hp. apply position_by_None in Ep.
      pose proof (Forall_lookup_1 _ _ _ _ Ep Hp) as Hne. cbn in Hne. rewrite Hname, String.eqb_refl in Hne. discriminate. }
  apply position_by_Some in Ep as (spec & Hl & Hname & _). apply String.eqb_eq in Hname.
  pose proof (Forall_lookup_1 _ _ _ _ Hn Es) as [Hlen _].
  replace (2 ^ 16 <=? Z.of_nat index) with false
    by (symmetry; apply Z.leb_gt; apply lookup_lt_Some in Hl; lia).
  rewrite Hl. cbn. exists (Z.to_nat c, index). cbn. split; [|lia]. split; [reflexivity |].
  split; [unfold port_at; cbn; rewrite Es; exact Hl | exact Hname].
Qed.

(** The peer recorded for the other end of a link. *)
Definition peer_of (q : Port) (lat : option LinkLatency) : Peer := mkPeer (Z.of_nat (fst q)) (Z.of_nat (snd q)) lat.

Definition add_link (l : DeclaredLink) (ends : Port * Port) (t : list (list (option Peer))) :=
  put (snd ends) (peer_of (fst ends) (declared_latency l)) (put (fst ends) (peer_of (snd ends) (declared_latency l)) t).

(** A table that has a place for every port. *)
Definition shaped (slots : list (Slot B)) (t : list (list (option Peer))) : Prop :=
  forall q, is_Some (tab t q) <-> is_Some (port_at slots q).

Definition free (t : list (list (option Peer))) (q : Port) : Prop := tab t q = Some None.

Lemma check_free_spec slots t q name :
  shaped slots t -> is_Some (port_at slots q) ->
  match check_free t (Z.of_nat (fst q), Z.of_nat (snd q)) name with
  | Ok _ => free t q
  | Err f => (exists e', f = Rejected e') /\ ~ free t q
  end.
Proof.
  intros Hsh Hq. apply Hsh in Hq as [p Hp]. unfold free. rewrite Hp. unfold tab in Hp.
  apply bind_Some in Hp as (row & Hr & Hj). unfold check_free, peer_at. cbn [fst snd]. rewrite !Nat2Z.id, Hr. cbn. rewrite Hj. cbn.
  destruct p; cbn; [split; [eauto | discriminate] | reflexivity].
Qed.

Lemma elaborate_link_spec slots domains l t :
  names_ok slots -> 0 <= fst (end_a l) /\ 0 <= fst (end_b l) -> shaped slots t ->
  match elaborate_link slots domains l t with
  | Ok (_, t') => exists ends, link_ok slots domains l ends /\ free t (fst ends) /\ free t (snd ends) /\ t' = add_link l ends t
  | Err f => (exists e', f = Rejected e') /\
      forall ends, link_ok slots domains l ends -> free t (fst ends) -> free t (snd ends) -> False
  end.
Proof.
  intros Hn [Ha Hb] Hsh. unfold elaborate_link.
  assert (Hlat : (exists e', match declared_latency l with
      | Some (Latency_Cycles domain _) =>
          if (length domains <=? Z.to_nat domain)%nat then reject (Elab_UnknownClockDomain domain) else Ok tt
      | _ => Ok tt end = reject (A := unit) e' /\ ~ latency_known domains (declared_latency l)) \/
    (match declared_latency l with
      | Some (Latency_Cycles domain _) =>
          if (length domains <=? Z.to_nat domain)%nat then reject (Elab_UnknownClockDomain domain) else Ok tt
      | _ => Ok tt end = Ok tt /\ latency_known domains (declared_latency l))).
  { unfold latency_known. destruct (declared_latency l) as [[d|dom k]|]; [right; auto | |right; auto].
    destruct (Nat.leb_spec (length domains) (Z.to_nat dom)); [left; eexists; split; [reflexivity | lia] | right; auto]. }
  destruct Hlat as [(e' & -> & Hl)|[-> Hl]]; cbn [mbind result_bind].
  { unfold reject. cbn. split; [eauto |]. intros ends (sa & sb & _ & _ & _ & _ & Hk) _ _. exact (Hl Hk). }
  pose proof (resolve_port_spec slots (end_a l) Hn Ha) as Hra.
  destruct (resolve_port slots (end_a l)) as [[[[ca pa] sa] na]|f]; cbn [mbind result_bind].
  2:{ destruct Hra as [Hf Hno]. split; [exact Hf |]. intros ends (sa & sb & He & _) _ _. exact (Hno _ _ He). }
  destruct Hra as (qa & Hqa & -> & ->).
  pose proof (resolve_port_spec slots (end_b l) Hn Hb) as Hrb.
  destruct (resolve_port slots (end_b l)) as [[[[cb pb] sb] nb]|f]; cbn [mbind result_bind].
  2:{ destruct Hrb as [Hf Hno]. split; [exact Hf |]. intros ends (sa' & sb & _ & He & _) _ _. exact (Hno _ _ He). }
  destruct Hrb as (qb & Hqb & -> & ->).
  assert (Huniq : forall ends, link_ok slots domains l ends -> ends = (qa, qb) /\ port_role sa <> port_role sb /\ port_protocol sa = port_protocol sb).
  { intros [a b] (sa' & sb' & He1 & He2 & Hr & Hp & _). cbn [fst snd] in *.
    destruct (end_ok_unique _ _ _ _ _ _ Hn Hqa He1) as [<- <-]. destruct (end_ok_unique _ _ _ _ _ _ Hn Hqb He2) as [<- <-]. auto. }
  case_bool_decide as Hrole; [split; [unfold reject; eauto |]; intros ends Hk _ _; destruct (Huniq _ Hk) as (_ & ? & _); contradiction |].
  case_bool_decide as Hprot; cbn [negb]; [|split; [unfold reject; eauto |]; intros ends Hk _ _; destruct (Huniq _ Hk) as (_ & _ & ?); contradiction].
  assert (Hpa : is_Some (port_at slots qa)) by (exists sa; apply Hqa).
  assert (Hpb : is_Some (port_at slots qb)) by (exists sb; apply Hqb).
  pose proof (check_free_spec slots t qa na Hsh Hpa) as Hfa. pose proof (check_free_spec slots t qb nb Hsh Hpb) as Hfb.
  destruct (check_free t (Z.of_nat (fst qa), _) na) as [[]|f]; cbn [mbind result_bind].
  2:{ destruct Hfa as [Hf Hno]. split; [exact Hf |]. intros ends Hk H1' _. destruct (Huniq _ Hk) as [-> _]. contradiction. }
  destruct (check_free t (Z.of_nat (fst qb), _) nb) as [[]|f]; cbn [mbind result_bind].
  2:{ destruct Hfb as [Hf Hno]. split; [exact Hf |]. intros ends Hk _ H2'. destruct (Huniq _ Hk) as [-> _]. contradiction. }
  exists (qa, qb). split; [exists sa, sb; auto |]. split; [exact Hfa |]. split; [exact Hfb |].
  unfold add_link. cbn [fst snd]. rewrite !set_peer_put. destruct qa, qb. reflexivity.
Qed.

Lemma link_distinct slots domains l a b : link_ok slots domains l (a, b) -> a <> b.
Proof.
  intros (sa & sb & (_ & Ha & _) & (_ & Hb & _) & Hr & _). cbn in *. intros ->. rewrite Ha in Hb. congruence.
Qed.

Lemma tab_add_link l a b t q :
  free t a -> free t b -> a <> b ->
  tab (add_link l (a, b) t) q =
    if decide (q = a) then Some (Some (peer_of b (declared_latency l)))
    else if decide (q = b) then Some (Some (peer_of a (declared_latency l)))
    else tab t q.
Proof.
  intros Ha Hb Hne. unfold add_link. cbn [fst snd].
  assert (Hb' : tab (put a (peer_of b (declared_latency l)) t) b = Some None).
  { rewrite (tab_put _ _ _ _ _ Ha), decide_False by exact Hne. exact Hb. }
  rewrite (tab_put _ _ _ _ _ Hb'), (tab_put _ _ _ _ _ Ha).
  repeat case_decide; congruence.
Qed.

Lemma shaped_add_link slots l a b t :
  free t a -> free t b -> a <> b -> shaped slots t -> shaped slots (add_link l (a, b) t).
Proof.
  intros Ha Hb Hne Hsh q. rewrite (tab_add_link l a b t q Ha Hb Hne), <- (Hsh q).
  repeat case_decide; subst; [|  |reflexivity]; unfold free in *; rewrite ?Ha, ?Hb; split; eauto.
Qed.

(** The links join distinct free ports; the table they make. *)
Definition joins (slots : list (Slot B)) (domains : list ClockDomain) (ls : list DeclaredLink) (t : list (list (option Peer)))
    (ends : list (Port * Port)) : Prop :=
  Forall2 (link_ok slots domains) ls ends /\ NoDup (endpoints ends) /\ Forall (free t) (endpoints ends).

Definition wires (ls : list DeclaredLink) (ends : list (Port * Port)) (t t' : list (list (option Peer))) : Prop :=
  (forall q, q ∉ endpoints ends -> tab t' q = tab t q) /\
  forall i l a b, ls !! i = Some l -> ends !! i = Some (a, b) ->
    tab t' a = Some (Some (peer_of b (declared_latency l))) /\ tab t' b = Some (Some (peer_of a (declared_latency l))).

Lemma elaborate_links_spec slots domains ls : forall t,
  names_ok slots -> ids_ok ls -> shaped slots t ->
  match elaborate_links slots domains ls t with
  | Ok (_, t') => exists ends, joins slots domains ls t ends /\ wires ls ends t t' /\ shaped slots t'
  | Err f => (exists e', f = Rejected e') /\ forall ends, ~ joins slots domains ls t ends
  end.
Proof.
  induction ls as [|l ls IH]; intros t Hn Hid Hsh; cbn [elaborate_links].
  { exists []. split; [split; [constructor | split; constructor] |]. split; [|exact Hsh]. split; [reflexivity |].
    intros i l a b Hl. rewrite lookup_nil in Hl. discriminate. }
  apply Forall_cons in Hid as [Hl Hid]. pose proof (elaborate_link_spec slots domains l t Hn Hl Hsh) as Hs.
  destruct (elaborate_link slots domains l t) as [[d t1]|f]; cbn [mbind result_bind].
  2:{ destruct Hs as [Hf Hno]. split; [exact Hf |]. intros [|[a b] ends] (Hk & _ & Hfr); inversion Hk; subst.
      apply (Hno (a, b)); [assumption | |]; cbn in Hfr; inversion Hfr as [|? ? Ha Hfr']; subst; [exact Ha |].
      inversion Hfr'; assumption. }
  destruct Hs as ([a b] & Hk & Ha & Hb & ->). cbn [fst snd] in Ha, Hb. pose proof (link_distinct _ _ _ _ _ Hk) as Hab.
  specialize (IH (add_link l (a, b) t) Hn Hid (shaped_add_link _ _ _ _ _ Ha Hb Hab Hsh)).
  destruct (elaborate_links slots domains ls (add_link l (a, b) t)) as [[ds t']|f]; cbn [mbind result_bind].
  - destruct IH as (ends & (Hks & Hnd & Hfr) & [Hw1 Hw2] & Hsh').
    assert (Hnew : (a ∉ endpoints ends) /\ (b ∉ endpoints ends)).
    { split; intros Hin; apply (proj1 (Forall_forall _ _) Hfr) in Hin; unfold free in Hin;
        rewrite tab_add_link in Hin by assumption; repeat case_decide; congruence. }
    exists ((a, b) :: ends). split; [split; [constructor; assumption |]; split|split; [split|exact Hsh']].
    + change (endpoints ((a, b) :: ends)) with (a :: b :: endpoints ends).
      constructor; [|constructor; [apply Hnew | exact Hnd]]. rewrite elem_of_cons. intros [?|?]; [congruence | tauto].
    + change (endpoints ((a, b) :: ends)) with (a :: b :: endpoints ends).
      constructor; [exact Ha |]. constructor; [exact Hb |]. apply Forall_forall. intros q Hq.
      pose proof (proj1 (Forall_forall _ _) Hfr q Hq) as Hfq. unfold free in *.
      rewrite tab_add_link in Hfq by assumption. repeat case_decide; congruence.
    + change (endpoints ((a, b) :: ends)) with (a :: b :: endpoints ends). intros q Hq.
      rewrite !not_elem_of_cons in Hq. destruct Hq as (? & ? & Hq).
      rewrite Hw1, tab_add_link by assumption. repeat case_decide; congruence.
    + intros [|i] l' a' b' Hl' He; cbn in Hl', He; [|exact (Hw2 i l' a' b' Hl' He)].
      injection Hl' as <-. injection He as <- <-. rewrite !Hw1, !tab_add_link by (assumption || apply Hnew).
      repeat case_decide; auto; congruence.
  - destruct IH as [Hf Hno]. split; [exact Hf |]. intros [|[a' b'] ends] (Hks & Hnd & Hfr); inversion Hks as [|? ? ? ? Hk' Hks']; subst.
    assert ((a', b') = (a, b)) as [= -> ->].
    { destruct Hk as (sa & sb & K1 & K2 & _), Hk' as (sa' & sb' & K1' & K2' & _). cbn [fst snd] in *.
      destruct (end_ok_unique _ _ _ _ _ _ Hn K1 K1'), (end_ok_unique _ _ _ _ _ _ Hn K2 K2'). congruence. }
    change (endpoints ((a, b) :: ends)) with (a :: b :: endpoints ends) in Hnd, Hfr.
    apply NoDup_cons in Hnd as [Hna Hnd]. apply NoDup_cons in Hnd as [Hnb Hnd].
    inversion Hfr as [|? ? _ Hfr1]; subst. inversion Hfr1 as [|? ? _ Hfr2]; subst.
    apply (Hno ends). split; [exact Hks' |]. split; [exact Hnd |]. apply Forall_forall. intros q Hq.
    unfold free. rewrite tab_add_link by assumption. rewrite elem_of_cons in Hna.
    repeat case_decide; subst; try tauto. exact (proj1 (Forall_forall _ _) Hfr2 q Hq).
Qed.

Lemma unconnected_port_spec p specs : forall row : list (option Peer),
  length row = length specs ->
  unconnected_port p specs row = None <-> Forall is_Some row.
Proof.
  induction specs as [|spec specs IH]; intros [|[x|] row] Hl; try discriminate Hl; cbn.
  - split; [constructor | reflexivity].
  - rewrite IH by (cbn in Hl; lia). split; [intros; constructor; eauto | intros Hf; inversion Hf; assumption].
  - split; [discriminate | intros Hf; inversion Hf as [|? ? [? ?]]; discriminate].
Qed.

Lemma unconnected_spec (slots : list (Slot B)) : forall t,
  Forall2 (fun s row => length row = length (slot_ports s)) slots t ->
  unconnected slots t = None <-> forall q, tab t q <> Some None.
Proof.
  intros t Hsh. transitivity (Forall (fun row => Forall is_Some row) t).
  - induction Hsh as [|s row slots t Hl Hsh IH]; cbn; [split; [constructor | reflexivity] |].
    pose proof (unconnected_port_spec (slot_path s) (slot_ports s) row Hl) as Hu.
    destruct (unconnected_port _ _ _); [split; [discriminate | intros Hf; inversion Hf; subst; exfalso; discriminate (proj2 Hu ltac:(assumption))] |].
    rewrite IH. split; [intros; constructor; [apply Hu; reflexivity | assumption] | intros Hf; inversion Hf; assumption].
  - split.
    + intros Hf [i j] Ht. unfold tab in Ht. cbn in Ht. apply bind_Some in Ht as (row & Hi & Hj).
      pose proof (Forall_lookup_1 _ _ _ _ Hf Hi) as Hr. pose proof (Forall_lookup_1 _ _ _ _ Hr Hj) as [x Hx]. discriminate.
    + intros Hfull. apply Forall_lookup_2. intros i row Hi. apply Forall_lookup_2. intros j [x|] Hj; [eauto |].
      exfalso. apply (Hfull (i, j)). unfold tab. cbn. rewrite Hi. exact Hj.
Qed.

(** * Slots *)

Lemma repeated_name_spec specs : forall seen,
  repeated_name seen specs = None <-> NoDup (port_name <$> specs) /\ Forall (fun s => port_name s ∉ seen) specs.
Proof.
  induction specs as [|spec specs IH]; intros seen; cbn.
  - split; [intros _; split; constructor | reflexivity].
  - case_bool_decide as Hin.
    + split; [discriminate |]. intros [_ Hf]. inversion Hf; contradiction.
    + rewrite IH, NoDup_cons, !Forall_forall. split.
      * intros [Hnd Hf]. split; [split; [|exact Hnd] |].
        -- intros (s & E & Hs)%list_elem_of_fmap. apply (Hf s Hs). rewrite <- E. left.
        -- intros s [->|Hs]%elem_of_cons; [exact Hin |]. intros Hx. apply (Hf s Hs). right. exact Hx.
      * intros [[Hn Hnd] Hf]. split; [exact Hnd |]. intros s Hs [E|Hx]%elem_of_cons.
        -- apply Hn. rewrite <- E. apply list_elem_of_fmap. eauto.
        -- apply (Hf s); [right; exact Hs | exact Hx].
Qed.

Definition slot_of (d : Declared B) : Slot B := mkSlot (path d) (ports (declared d)) (declared d).

Definition paths_ok (seen : list string) (ds : list (Declared B)) : Prop :=
  NoDup (path <$> ds) /\ Forall (fun d => path d ∉ seen) ds /\ names_ok (slot_of <$> ds).

Lemma elaborate_slots_spec ds : forall seen,
  match elaborate_slots seen ds with
  | Ok slots => slots = slot_of <$> ds /\ paths_ok seen ds
  | Err f => (exists e', f = Rejected e') /\ ~ paths_ok seen ds
  end.
Proof.
  induction ds as [|d ds IH]; intros seen; cbn [elaborate_slots].
  { split; [reflexivity |]. split; [constructor | split; constructor]. }
  case_bool_decide as Hin.
  { split; [unfold reject; eauto |]. intros (_ & Hf & _). inversion Hf; contradiction. }
  destruct (Z.leb_spec (2 ^ 16) (Z.of_nat (length (ports (declared d))))) as [Hlen|Hlen].
  { split; [unfold reject; eauto |]. intros (_ & _ & Hf). inversion Hf as [|? ? [Hl _]]; subst. cbn in Hl. lia. }
  destruct (repeated_name [] (ports (declared d))) as [name|] eqn:Er.
  { split; [unfold reject; eauto |]. intros (_ & _ & Hf). inversion Hf as [|? ? [_ Hnd]]; subst. cbn in Hnd.
    assert (E : repeated_name [] (ports (declared d)) = None); [|congruence].
    apply repeated_name_spec. split; [exact Hnd |]. apply Forall_forall. intros s _ Hs. inversion Hs. }
  apply repeated_name_spec in Er as [Hnd _]. specialize (IH (path d :: seen)).
  destruct (elaborate_slots (path d :: seen) ds) as [slots|f]; cbn [mbind result_bind].
  - destruct IH as (-> & Hndp & Hf & Hn). split; [reflexivity |]. rewrite Forall_forall in Hf. split; [|split].
    + cbn. apply NoDup_cons. split; [|exact Hndp]. intros (d' & E & Hd)%list_elem_of_fmap. apply (Hf d' Hd). rewrite <- E. left.
    + apply Forall_cons. split; [exact Hin |]. apply Forall_forall. intros d' Hd Hx. apply (Hf d' Hd). right. exact Hx.
    + apply Forall_cons. split; [split; assumption | exact Hn].
  - destruct IH as [He Hno]. split; [exact He |]. intros (Hndp & Hf & Hn). apply Hno.
    cbn in Hndp. apply NoDup_cons in Hndp as [Hnp Hndp]. inversion Hf as [|? ? _ Hf']; subst. inversion Hn as [|? ? _ Hn']; subst.
    split; [exact Hndp |]. split; [|exact Hn']. rewrite Forall_forall in *. intros d' Hd [E|Hx]%elem_of_cons.
    + apply Hnp. rewrite <- E. apply list_elem_of_fmap. eauto.
    + exact (Hf' d' Hd Hx).
Qed.
End links.

(** * Elaboration *)

Section elaboration.
Context `{EventOrder, Clocks, Protocols, Blake3, SnapshotCodec, !Canonical}.
Context {B Ob : Type} `{!Component B}.

Local Abbreviation Runtime := (Runtime (B := B) (Ob := Ob)).

Definition slots_of (t : TopologyBuilder) : list (Slot B) := slot_of <$> t_components t.

(** What the builder's types and panics guarantee: ids are unsigned and [u32], and a path is
    shorter than 4 GiB. *)
Definition builder_ok (t : TopologyBuilder) : Prop :=
  Z.of_nat (length (t_components t)) < RUNTIME /\ ids_ok (t_links t) /\
  Forall (fun d : Declared B => Z.of_nat (length (as_bytes (path d))) < 2 ^ 32) (t_components t).

(** A valid topology ([docs/m0-design.md] §6): unique paths and port names, every link between
    an initiator and a target of one protocol, every port in exactly one link. *)
Definition topology_ok (t : TopologyBuilder) : Prop :=
  NoDup (path <$> t_components t) /\ names_ok (slots_of t) /\
  exists ends, Forall2 (link_ok (slots_of t) (t_domains t)) (t_links t) ends /\ NoDup (endpoints ends) /\
    forall q, is_Some (port_at (slots_of t) q) -> q ∈ endpoints ends.

Definition blank (slots : list (Slot B)) : list (list (option Peer)) :=
  (fun s => replicate (length (slot_ports s)) None) <$> slots.

Lemma tab_blank slots q : tab (blank slots) q = (fun _ => None) <$> port_at slots q.
Proof.
  destruct q as [i j]. unfold tab, port_at, blank. cbn [fst snd]. rewrite list_lookup_fmap.
  destruct (slots !! i) as [s|]; [cbn | reflexivity].
  destruct (slot_ports s !! j) as [spec|] eqn:E; cbn.
  - apply lookup_replicate. split; [reflexivity | eapply lookup_lt_Some, E].
  - apply lookup_replicate_None. apply lookup_ge_None in E. exact E.
Qed.

Lemma shaped_blank slots : shaped slots (blank slots).
Proof. intros q. rewrite tab_blank. apply fmap_is_Some. Qed.

Lemma link_ports slots domains ls ends :
  Forall2 (link_ok (B := B) slots domains) ls ends -> Forall (fun q => is_Some (port_at slots q)) (endpoints ends).
Proof.
  induction 1 as [|l [a b] ls ends (sa & sb & (_ & Ha & _) & (_ & Hb & _) & _) _ IH]; [constructor |].
  change (endpoints ((a, b) :: ends)) with (a :: b :: endpoints ends). cbn in Ha, Hb.
  constructor; [eauto |]. constructor; [eauto | exact IH].
Qed.

Lemma joins_blank slots domains ls ends :
  joins (B := B) slots domains ls (blank slots) ends <-> Forall2 (link_ok slots domains) ls ends /\ NoDup (endpoints ends).
Proof.
  unfold joins. split; [tauto |]. intros [Hk Hnd]. split_and!; [exact Hk | exact Hnd |].
  eapply Forall_impl; [eapply link_ports, Hk |]. intros q [spec Hq]. unfold free. rewrite tab_blank, Hq. reflexivity.
Qed.

(** Rows as long as the ports. *)
Lemma shaped_rows slots t :
  shaped (B := B) slots t -> length t = length slots -> Forall2 (fun s row => length row = length (slot_ports s)) slots t.
Proof.
  intros Hsh Hlen. apply Forall2_same_length_lookup. split; [symmetry; exact Hlen |]. intros i s row Hs Hr.
  assert (Hj : forall j, is_Some (row !! j) <-> is_Some (slot_ports s !! j)).
  { intros j. specialize (Hsh (i, j)). unfold tab, port_at in Hsh. cbn in Hsh. rewrite Hs, Hr in Hsh. exact Hsh. }
  destruct (Nat.lt_trichotomy (length row) (length (slot_ports s))) as [Hlt|[E|Hlt]]; [|exact E|];
    exfalso; apply lookup_lt_is_Some in Hlt; apply Hj in Hlt; apply lookup_lt_is_Some in Hlt; lia.
Qed.

Lemma elaborate_links_length (slots : list (Slot B)) domains ls : forall t ds t',
  elaborate_links slots domains ls t = Ok (ds, t') -> length t' = length t.
Proof.
  induction ls as [|l ls IH]; intros t ds t'; cbn [elaborate_links]; [intros [= <- <-]; reflexivity |].
  intros ([d t1] & E1 & E)%bind_Ok_inv. apply bind_Ok_inv in E as ([ds1 t2] & E2 & [= <- <-]).
  rewrite (IH _ _ _ E2). revert E1. unfold elaborate_link. intros ([] & _ & E)%bind_Ok_inv.
  apply bind_Ok_inv in E as ([[[ca pa] sa] na] & _ & E). apply bind_Ok_inv in E as ([[[cb pb] sb] nb] & _ & E).
  revert E. repeat case_bool_decide; cbn [negb]; try discriminate.
  intros ([] & _ & E)%bind_Ok_inv. apply bind_Ok_inv in E as ([] & _ & [= <- <-]). unfold set_peer. rewrite !length_alter. reflexivity.
Qed.

(** The other end of a port's link. *)
Lemma wires_peer slots domains ls ends t t' q :
  Forall2 (link_ok (B := B) slots domains) ls ends -> wires ls ends t t' -> q ∈ endpoints ends ->
  exists q' l spec spec', l ∈ ls /\ port_at slots q = Some spec /\ port_at slots q' = Some spec' /\
    port_role spec <> port_role spec' /\ port_protocol spec = port_protocol spec' /\
    tab t' q = Some (Some (peer_of q' (declared_latency l))) /\ tab t' q' = Some (Some (peer_of q (declared_latency l))) /\
    (end_ok slots (end_a l) q spec /\ end_ok slots (end_b l) q' spec' \/
     end_ok slots (end_b l) q spec /\ end_ok slots (end_a l) q' spec').
Proof.
  intros Hk [_ Hw] Hq. unfold endpoints in Hq. apply list_elem_of_bind in Hq as ([a b] & Hq & Hin).
  apply list_elem_of_lookup_1 in Hin as [i Hi]. destruct (Forall2_lookup_r _ _ _ _ _ Hk Hi) as (l & Hl & Hlk).
  destruct (Hw i l a b Hl Hi) as [Ha Hb]. destruct Hlk as (sa & sb & Ea & Eb & Hr & Hp & _). cbn [fst snd] in Ea, Eb.
  assert (Hll : l ∈ ls) by (eapply list_elem_of_lookup_2, Hl).
  rewrite elem_of_cons, list_elem_of_singleton in Hq. destruct Hq as [->| ->].
  - exists b, l, sa, sb. split_and!; try assumption; [apply Ea | apply Eb | left; auto].
  - exists a, l, sb, sa. split_and!; try assumption; [apply Eb | apply Ea | congruence | congruence | right; auto].
Qed.

Lemma for_components_Some (config : SessionConfig) (ds : list (Declared B)) :
  Forall (fun d => Z.of_nat (length (as_bytes (path d))) < 2 ^ 32) ds ->
  exists gs, mapM (fun s => for_component derive_key (seed config) (slot_path s)) (slot_of <$> ds) = Some gs /\
    length gs = length ds /\ Forall rng_ok gs.
Proof.
  induction ds as [|d ds IH]; intros Hf; [exists []; split_and!; constructor |].
  inversion Hf as [|? ? Hd Hf']; subst. destruct (IH Hf') as (gs & Hg & Hl & Hok).
  assert (Hg1 : exists g, for_component derive_key (seed config) (path d) = Some g /\ rng_ok g).
  { unfold for_component, seed_material. replace (Z.of_nat _ <? 2 ^ 32) with true by (symmetry; apply Z.ltb_lt, Hd).
    cbn. eexists. split; [reflexivity |]. apply from_seed_bytes_ok, derive_key_range. }
  destruct Hg1 as (g & Hg1 & Hgok). exists (g :: gs). cbn. rewrite Hg1. cbn. rewrite Hg. cbn. split_and!; [reflexivity | congruence | constructor; assumption].
Qed.

(** Everything elaboration does, on every topology. *)
Lemma elaborate_spec (t : TopologyBuilder) (config : SessionConfig) :
  builder_ok t ->
  match elaborate (Ob := Ob) t config with
  | Ok r => topology_ok t /\ exists gs links ends t',
      joins (slots_of t) (t_domains t) (t_links t) (blank (slots_of t)) ends /\
      wires (t_links t) ends (blank (slots_of t)) t' /\ mapM (mapM id) t' = Some (peers r) /\
      Forall2 (fun s row => length row = length (slot_ports s)) (slots_of t) t' /\
      length gs = length (t_components t) /\ Forall rng_ok gs /\
      from_elaboration (t_clock t) (t_domains t) (slots_of t) (peers r) links config = Some r /\
      rngs r = gs
  | Err f => (exists e, f = Rejected e) /\ ~ topology_ok t
  end.
Proof.
  intros (Hnum & Hids & Hpaths). unfold elaborate. pose proof (elaborate_slots_spec (t_components t) []) as Hsl.
  destruct (elaborate_slots [] (t_components t)) as [slots|f]; cbn [mbind result_bind].
  2:{ destruct Hsl as [Hf Hno]. split; [exact Hf |]. intros (Hnd & Hn & _). apply Hno. split; [exact Hnd |].
      split; [|exact Hn]. apply Forall_forall. intros d _ Hd. inversion Hd. }
  destruct Hsl as (-> & Hnd & _ & Hn). fold (slots_of t) in *. fold (blank (slots_of t)).
  pose proof (elaborate_links_spec (slots_of t) (t_domains t) (t_links t) (blank (slots_of t)) Hn Hids (shaped_blank _)) as Hli.
  destruct (elaborate_links (slots_of t) (t_domains t) (t_links t) (blank (slots_of t))) as [[links t']|f] eqn:El; cbn [mbind result_bind].
  2:{ destruct Hli as [Hf Hno]. split; [exact Hf |]. intros (_ & _ & ends & Hk & Hnde & _). apply (Hno ends), joins_blank. auto. }
  destruct Hli as (ends & Hj & Hw & Hsh). apply elaborate_links_length in El.
  assert (Hrows : Forall2 (fun s row => length row = length (slot_ports s)) (slots_of t) t').
  { apply shaped_rows; [exact Hsh |]. rewrite El. unfold blank. apply length_fmap. }
  pose proof (unconnected_spec (slots_of t) t' Hrows) as Hun. pose proof Hj as [Hk [Hnde _]].
  assert (Hcov : (forall q, tab t' q <> Some None) <-> forall q, is_Some (port_at (slots_of t) q) -> q ∈ endpoints ends).
  { split.
    - intros Hfull q [spec Hq]. destruct (decide (q ∈ endpoints ends)) as [|Hni]; [assumption |].
      exfalso. apply (Hfull q). rewrite (proj1 Hw q Hni), tab_blank, Hq. reflexivity.
    - intros Hc q Hq. assert (Hp : is_Some (port_at (slots_of t) q)) by (apply Hsh; eauto).
      destruct (wires_peer _ _ _ _ _ _ q Hk Hw (Hc q Hp)) as (q' & l & spec & spec' & _ & _ & _ & _ & _ & E & _). congruence. }
  destruct (unconnected (slots_of t) t') as [lb|].
  { split; [unfold reject; eauto |]. intros (_ & _ & ends' & Hk' & Hnde' & Hc').
    enough (Hx : forall q, is_Some (port_at (slots_of t) q) -> q ∈ endpoints ends) by (discriminate (proj2 Hun (proj2 Hcov Hx))).
    assert (ends' = ends) as ->; [|exact Hc'].
    apply list_eq. intros i. pose proof (proj1 (Forall2_lookup _ _ _) Hk i) as H1'. pose proof (proj1 (Forall2_lookup _ _ _) Hk' i) as H2'.
    inversion H1' as [l [a b] L1 E1 E2|E1 E2]; inversion H2' as [l2 [a2 b2] L2 F1 F2|F1 F2]; try congruence.
    rewrite <- E1 in F1. injection F1 as ->.
    destruct L1 as (sa & sb & K1 & K2 & _), L2 as (sa' & sb' & K1' & K2' & _). cbn [fst snd] in *.
    destruct (end_ok_unique _ _ _ _ _ _ Hn K1 K1'), (end_ok_unique _ _ _ _ _ _ Hn K2 K2'). congruence. }
  pose proof (proj1 Hun eq_refl) as Hfull. destruct (mapM_full t' Hfull) as [ps Hps]. rewrite Hps. cbn [ok_or mbind result_bind].
  destruct (for_components_Some config (t_components t) Hpaths) as (gs & Hgs & Hgl & Hgok).
  destruct (from_elaboration (t_clock t) (t_domains t) (slots_of t) ps links config) as [r|] eqn:Efe.
  2:{ exfalso. unfold from_elaboration, slots_of in Efe. rewrite Hgs in Efe. discriminate. }
  cbn. assert (Er : peers r = ps /\ rngs r = gs).
  { unfold from_elaboration, slots_of in Efe. rewrite Hgs in Efe. cbn in Efe. injection Efe as <-. split; reflexivity. }
  destruct Er as [-> <-]. split; [split; [exact Hnd |]; split; [exact Hn |]; exists ends; split_and!; [exact Hk | exact Hnde | apply Hcov, Hfull] |].
  exists (rngs r), links, ends, t'. split_and!; auto.
Qed.

(** C27: [elaborate] accepts exactly the valid topologies and never panics; in the session it
    builds every port has a peer, the other end of a declared link: another port, of the
    opposite role and the same protocol, whose own peer is the first, with the latency of the
    link both ways. *)
Theorem elaborate_exact (t : TopologyBuilder) (config : SessionConfig) :
  builder_ok t ->
  match elaborate (Ob := Ob) t config with
  | Ok r => topology_ok t /\ lifecycle r = Elaborated /\
      forall q spec, port_at (slots_of t) q = Some spec ->
      exists q' spec' l, l ∈ t_links t /\ port_at (slots_of t) q' = Some spec' /\
        port_role spec <> port_role spec' /\ port_protocol spec = port_protocol spec' /\
        tab (peers r) q = Some (peer_of q' (declared_latency l)) /\
        tab (peers r) q' = Some (peer_of q (declared_latency l)) /\
        (end_ok (slots_of t) (end_a l) q spec /\ end_ok (slots_of t) (end_b l) q' spec' \/
         end_ok (slots_of t) (end_b l) q spec /\ end_ok (slots_of t) (end_a l) q' spec')
  | Err f => (exists e, f = Rejected e) /\ ~ topology_ok t
  end.
Proof.
  intros Hb. pose proof (elaborate_spec t config Hb) as Hs. destruct (elaborate t config) as [r|f]; [|exact Hs].
  destruct Hs as (Hok & gs & links & ends & t' & Hj & Hw & Hm & _ & _ & _ & Hfe & _). split; [exact Hok |].
  split; [unfold from_elaboration in Hfe; apply bind_Some in Hfe as (? & _ & [= <-]); reflexivity |].
  intros q spec Hq. pose proof Hj as [Hk _].
  assert (Hin : q ∈ endpoints ends).
  { destruct (decide (q ∈ endpoints ends)) as [|Hni]; [assumption |]. exfalso.
    pose proof (proj1 Hw q Hni) as E. rewrite tab_blank, Hq, (tab_mapM _ _ Hm) in E. destruct (tab (peers r) q); discriminate. }
  destruct (wires_peer _ _ _ _ _ _ q Hk Hw Hin) as (q' & l & sp & sp' & Hl & E1 & E2 & Hr & Hp & E3 & E4 & He).
  rewrite Hq in E1. injection E1 as <-. rewrite (tab_mapM _ _ Hm) in E3, E4.
  exists q', sp', l. split_and!; auto; [destruct (tab (peers r) q); cbn in E3; congruence | destruct (tab (peers r) q'); cbn in E4; congruence].
Qed.
End elaboration.

(** * Sessions *)

Section sessions.
Context `{EventOrder, Clocks, Protocols, Blake3, SnapshotCodec, !Canonical}.
Context {B Ob : Type} `{!Component B, !UniformComponent B, !TypedComponent B, !Observer B Ob}.

Definition config_ok (config : SessionConfig) : Prop :=
  in_u 64 (seed config) /\ in_u 64 (max_events_per_phase (scheduler_config config)).

Lemma elaborated_ok (t : TopologyBuilder) config (r : Runtime (Ob := Ob)) :
  builder_ok t -> config_ok config -> Forall (fun d => component_ok (declared d)) (t_components t) ->
  elaborate t config = Ok r -> core_ok (core r).
Proof.
  intros Hb Hcfg Hcomp E. pose proof (elaborate_spec (Ob := Ob) t config Hb) as Hs. rewrite E in Hs.
  destruct Hs as ((_ & Hnames & _) & gs & links & ends & t' & [Hk _] & Hw & Hm & Hrows & Hgl & Hgok & Hfe & Hgs).
  assert (Hst : clock r = t_clock t /\ domains r = t_domains t /\ components r = component <$> slots_of t /\
    slots r = (fun s => mkSlotInfo (slot_path s) (type_name (component s)) (slot_ports s)) <$> slots_of t /\
    config = Runtime.config r /\ scheduler r = Scheduler.new (scheduler_config config) /\
    execution_digest r = ZERO_DIGEST /\ length (topology_hash r) = 32%nat).
  { unfold from_elaboration in Hfe. apply bind_Some in Hfe as (gs' & _ & [= <-]). cbn. split_and!; try reflexivity. apply hash_range. }
  destruct Hst as (_ & _ & Hcs & Hsl & Hcf & Hsch & Hdig & Hth). destruct Hcfg as [Hseed Hcfg].
  assert (Hlen : length (slots r) = length (t_components t)) by (rewrite Hsl, length_fmap; apply length_fmap).
  destruct Hb as (Hnum & _). unfold RUNTIME in Hnum.
  split; [|split; [|split; [|split; [|split; [|split; [|split]]]]]]; cbn.
  - split; cbn; [lia |]. split; [congruence |]. split; [exact Hth |]. apply mapM_Some in Hm. rewrite Hsl. apply Forall2_fmap_l. cbn.
    apply Forall2_same_length_lookup. split.
    { rewrite (Forall2_length _ _ _ Hrows). apply (Forall2_length _ _ _ Hm). }
    intros i s row Hi Hr. destruct (Forall2_lookup_l _ _ _ _ _ Hrows Hi) as (row' & Hr' & Hl').
    pose proof (Forall2_lookup_lr _ _ _ _ _ _ Hm Hr' Hr) as Hrow. apply mapM_Some in Hrow.
    apply Forall2_same_length_lookup. split; [etransitivity; [symmetry; exact Hl' | apply (Forall2_length _ _ _ Hrow)] |].
    intros j spec peer Hj Hp. destruct (Forall2_lookup_r _ _ _ _ _ Hrow Hp) as (o & Ho & Eo). cbn in Eo. subst o.
    assert (Hport : port_at (slots_of t) (i, j) = Some spec) by (unfold port_at; cbn; rewrite Hi; exact Hj).
    assert (Htab : tab t' (i, j) = Some (Some peer)) by (unfold tab; cbn; rewrite Hr'; exact Ho).
    assert (Hin : (i, j) ∈ endpoints ends).
    { destruct (decide ((i, j) ∈ endpoints ends)) as [|Hni]; [assumption |]. exfalso.
      pose proof (proj1 Hw _ Hni) as E'. rewrite tab_blank, Hport, Htab in E'. discriminate. }
    destruct (wires_peer _ _ _ _ _ _ _ Hk Hw Hin) as ([i' j'] & l & sp & sp' & _ & E1 & E2 & _ & Hpr & E3 & _).
    rewrite Hport in E1. injection E1 as <-. rewrite Htab in E3. injection E3 as ->.
    unfold port_at in E2. cbn in E2. apply bind_Some in E2 as (s' & Hs' & Hj').
    pose proof (Forall_lookup_1 _ _ _ _ Hnames Hs') as [Hpl _].
    pose proof (lookup_lt_Some _ _ _ Hs') as Hi'. pose proof (lookup_lt_Some _ _ _ Hj') as Hj2.
    unfold slots_of in Hi'. rewrite length_fmap in Hi'. unfold peer_of, peer_ok, in_u. cbn. rewrite !Nat2Z.id.
    split; [lia |]. split; [lia |]. eexists _, sp'. split; [rewrite list_lookup_fmap, Hs'; reflexivity |]. cbn. auto.
  - rewrite Hsch. split; [apply scheduler_new_ok; exact Hcfg |]. split; [discriminate | constructor].
  - rewrite Hsch. cbn. congruence.
  - rewrite Hsl, Hcs. unfold slots_of. rewrite <- !list_fmap_compose. apply Forall2_fmap. apply Forall_Forall2_diag.
    eapply Forall_impl; [exact Hcomp |]. intros d Hd. split_and!; auto.
  - rewrite Hgs, Hgl. symmetry. exact Hlen.
  - rewrite Hgs. exact Hgok.
  - unfold digest_ok. cbn. rewrite Hdig. split; [|split; [reflexivity | auto]]. apply Forall_replicate. const_range.
  - left. unfold from_elaboration in Hfe. apply bind_Some in Hfe as (gs' & _ & [= <-]). reflexivity.
Qed.
End sessions.
