(* ===== verification/Reference.v ===== *)
(** The M0 reference scenario, [reference/src/lib.rs]: the CPU, the DMA, the bus and the memory
    with their configurations, wired and elaborated, and the run to [T_END].

    [Frequency::new] of a non-zero ratio is the ratio; [SimulationClock::default()] is the
    parameter [default_clock].  The fuel of [run] is that of [run_until]. *)
From stdpp Require Import base numbers list option strings gmap.
From Stdlib Require Import ZArith Lia.
From S2P Require Import Prelude Contracts Handlers Snapshots Session Components Scheduler Trace Rng Runtime Topology.
From S2P Require ToyCpu ToyDma ToyBus ToyMemory.

Local Open Scope string_scope.
Local Open Scope list_scope.
Local Open Scope Z_scope.

#[export] Existing Instances ToyCpu.ToyCpu_component ToyDma.ToyDma_component ToyBus.ToyBus_component ToyMemory.ToyMemory_component.
#[export] Existing Instances ToyCpu.ToyCpu_uniform ToyDma.ToyDma_uniform ToyBus.ToyBus_uniform ToyMemory.ToyMemory_uniform.

Definition CPU : Z := 0.
Definition DMA : Z := 1.
Definition BUS : Z := 2.
Definition MEM : Z := 3.

Definition CPU_SLOTS : Z := 64.
Definition CPU_ACCESS : Z := 8.
Definition DMA_SLOTS : Z := 64.
Definition DMA_ACCESS : Z := 16.
Definition DMA_BASE : Z := CPU_SLOTS * CPU_ACCESS.
Definition MEMORY_SIZE : Z := CPU_SLOTS * CPU_ACCESS + DMA_SLOTS * DMA_ACCESS.

Definition FULL_OPS : Z := 100000.

(** Ten milliseconds, in femtoseconds. *)
Definition T_END : Z := 10 * 10 ^ 12.

Record ReferenceConfig : Set := mkReferenceConfig { seed : Z; cpu_ops : Z; dma_ops : Z }.

Definition full (seed : Z) : ReferenceConfig := mkReferenceConfig seed FULL_OPS FULL_OPS.

(** [Box<dyn Component>] of the four. *)
Abbreviation Device := (ToyCpu.ToyCpu + (ToyDma.ToyDma + (ToyBus.ToyBus + ToyMemory.ToyMemory)))%type.

(** The configurations of the four components. *)
Definition cpu_config (c : ReferenceConfig) (clk : Z) : ToyCpu.ToyCpuConfig :=
  ToyCpu.mkToyCpuConfig clk (cpu_ops c) 4 8 CPU_ACCESS CPU_SLOTS 40.
Definition dma_config (c : ReferenceConfig) (clk : Z) : ToyDma.ToyDmaConfig :=
  ToyDma.mkToyDmaConfig clk (dma_ops c) 8 8 128 DMA_BASE DMA_ACCESS DMA_SLOTS.
Definition bus_config (clk : Z) : ToyBus.ToyBusConfig := ToyBus.mkToyBusConfig clk.
Definition mem_config : ToyMemory.ToyMemoryConfig := ToyMemory.mkToyMemoryConfig MEMORY_SIZE (50 * 10 ^ 6) (30 * 10 ^ 6).

Section reference.
Context `{EventOrder, Clocks, Protocols, Blake3, SnapshotCodec, !Canonical, !MemV0Codec, SimRng}.
Context {Ob : Type}.
Context (default_clock : SimulationClock).

Local Abbreviation T := (ST (TopologyBuilder (B := Device)) string).

(** The closure [domain]. *)
Definition domain (num den : Z) : T Z := fun t =>
  match add_clock (mkFrequency num den) 0 Rounding_Floor t with
  | (t, Ok id) => (t, Ok id)
  | (t, Err _) => (t, Err "representable at the default resolution")
  end.

Definition links (cpu dma bus mem bus_clock : Z) (t : TopologyBuilder (B := Device)) : TopologyBuilder (B := Device) :=
  let link := Some (Latency_Cycles bus_clock 1) in
  let t := connect (cpu, "mem") (bus, "cpu") link t in
  let t := connect (dma, "mem") (bus, "dma") link t in
  connect (bus, "mem") (mem, "mem") link t.

(** The declarations of [build]. *)
Definition declare (config : ReferenceConfig) : T unit :=
  cpu_clock ← domain 3000000000 1;
  io_clock ← domain 3000000000 2;
  bus_clock ← domain 1000000000 1;
  cpu ← add_component "soc.cpu0" (inl (ToyCpu.new (cpu_config config cpu_clock)));
  dma ← add_component "soc.dma0" (inr (inl (ToyDma.new (dma_config config io_clock))));
  bus ← add_component "soc.bus" (inr (inr (inl (ToyBus.new (bus_config bus_clock)))));
  mem ← add_component "soc.mem" (inr (inr (inr (ToyMemory.new mem_config))));
  if bool_decide ([cpu; dma; bus; mem] = [CPU; DMA; BUS; MEM]) then st_modify (links cpu dma bus mem bus_clock)
  else st_fail "assertion `left == right` failed".

Definition session_config (config : ReferenceConfig) : SessionConfig :=
  mkSessionConfig (seed config) (mkSchedulerConfig 1000000).

(** The scenario, or the panic of [build]. *)
Definition build (config : ReferenceConfig) : result string (Runtime (B := Device) (Ob := Ob)) :=
  match declare config (Topology.new default_clock) with
  | (_, Err what) => Err what
  | (t, Ok _) => map_err (fun _ => "the reference topology is valid") (elaborate t (session_config config))
  end.

Definition run `{!Observer Device Ob} (fuel : nat) : ST (Runtime (B := Device) (Ob := Ob)) Stopped Z :=
  match clock_after default_clock 0 T_END with
  | Err _ => st_fail (Panicked "T_END fits the default resolution")
  | Ok end_ => run_until fuel end_
  end.
End reference.
