(* ===== verification/ReferenceProofs.v ===== *)
(** The reference scenario is the network of [ToyNet]: what [build] elaborates, and that a
    session of it makes the network's deliveries, so that what [ToySystem] shows of every order
    of them holds of its runs. *)
From stdpp Require Import base numbers list option strings gmap.
From Stdlib Require Import ZArith Lia.
From S2P Require Import Prelude Contracts Handlers Snapshots Session Components Scheduler Trace Rng Runtime RuntimeProofs RuntimeInvariant Topology Reference.
From S2P Require Import Logs ToyNet ToyJobs ToyRuns ToyNetProofs ToySystem.
From S2P Require ToyCpu ToyDma ToyBus ToyMemory.

Local Open Scope string_scope.
Local Open Scope list_scope.
Local Open Scope Z_scope.

Section elaborated.
Context `{EventOrder, Clocks, Protocols, Blake3, SnapshotCodec, !Canonical, !MemV0Codec, SimRng}.
Context {Ob : Type}.
Context (default_clock : SimulationClock).

Definition bus_link : option LinkLatency := Some (Latency_Cycles 2 1).

Definition devices (config : ReferenceConfig) : list Device :=
  [inl (ToyCpu.new (cpu_config config 0)); inr (inl (ToyDma.new (dma_config config 1)));
   inr (inr (inl (ToyBus.new (bus_config 2)))); inr (inr (inr (ToyMemory.new mem_config)))].

(** The other ends of the ports, by component and port. *)
Definition wiring : list (list Peer) :=
  [[mkPeer BUS 0 bus_link]; [mkPeer BUS 1 bus_link];
   [mkPeer CPU 0 bus_link; mkPeer DMA 0 bus_link; mkPeer MEM 0 bus_link]; [mkPeer BUS 2 bus_link]].

Definition device_slots (config : ReferenceConfig) : list (Slot Device) :=
  zip_with (fun p b => mkSlot p (ports b) b) ["soc.cpu0"; "soc.dma0"; "soc.bus"; "soc.mem"] (devices config).

Lemma domain_Ok num den t t' id :
  domain num den t = (t', Ok id) ->
  exists d, id = Z.of_nat (length (t_domains t)) /\ t' = mkTopologyBuilder (t_clock t) (t_domains t ++ [d]) (t_components t) (t_links t).
Proof.
  unfold domain, add_clock. destruct (2 ^ 32 <=? _); [discriminate |]. destruct (new_domain _ _ _ _ _) as [d|]; [|discriminate].
  intros [= <- <-]. eauto.
Qed.

Lemma declared_topology config t u :
  declare config (Topology.new default_clock) = (t, Ok u) ->
  length (t_domains t) = 3%nat /\ t_components t = (fun s => mkDeclared (slot_path s) (component s)) <$> device_slots config /\
  t_links t = [mkDeclaredLink (0, "mem") (2, "cpu") bus_link; mkDeclaredLink (1, "mem") (2, "dma") bus_link;
               mkDeclaredLink (2, "mem") (3, "mem") bus_link].
Proof.
  unfold declare. rewrite ST_bind_unfold. destruct (domain 3000000000 1 _) as [t1 [c0|]] eqn:E1; [|discriminate].
  rewrite ST_bind_unfold. destruct (domain 3000000000 2 t1) as [t2 [c1|]] eqn:E2; [|discriminate].
  rewrite ST_bind_unfold. destruct (domain 1000000000 1 t2) as [t3 [c2|]] eqn:E3; [|discriminate].
  apply domain_Ok in E1 as (d0 & -> & ->), E2 as (d1 & -> & ->), E3 as (d2 & -> & ->). cbn in *.
  intros [= <- _]. auto.
Qed.

Lemma elaborated_reference config t (r : Runtime (B := Device) (Ob := Ob)) :
  length (t_domains t) = 3%nat -> t_components t = (fun s => mkDeclared (slot_path s) (component s)) <$> device_slots config ->
  t_links t = [mkDeclaredLink (0, "mem") (2, "cpu") bus_link; mkDeclaredLink (1, "mem") (2, "dma") bus_link;
               mkDeclaredLink (2, "mem") (3, "mem") bus_link] ->
  elaborate t (session_config config) = Ok r ->
  components r = devices config /\ peers r = wiring /\ info_ports <$> slots r = slot_ports <$> device_slots config /\
  scheduler r = Scheduler.new (mkSchedulerConfig 1000000) /\ length (rngs r) = 4%nat /\ lifecycle r = Elaborated /\ fault r = None.
Proof.
  intros Hd Hc Hl. unfold elaborate. rewrite Hc, Hl. destruct (t_domains t) as [|d0 [|d1 [|d2 [|]]]]; try discriminate Hd.
  assert (Hs : elaborate_slots [] ((fun s => mkDeclared (slot_path s) (component s)) <$> device_slots config) = Ok (device_slots config)).
  { reflexivity. }
  rewrite Hs. cbn [mbind result_bind]. set (ls := [mkDeclaredLink (0, "mem") _ _; _; _]).
  assert (Hlk : exists decls, elaborate_links (device_slots config) [d0; d1; d2] ls
      ((fun s => replicate (length (slot_ports s)) None) <$> device_slots config) = Ok (decls, fmap (M := list) (fmap (M := list) Some) wiring)).
  { eexists. reflexivity. }
  destruct Hlk as [decls ->]. cbn [mbind result_bind]. change (unconnected (device_slots config) _) with (None (A := string)).
  change (mapM (mapM id) _) with (Some wiring). cbn [ok_or mbind result_bind].
  unfold from_elaboration. destruct (mapM _ (device_slots config)) as [gs|] eqn:Eg; [|discriminate]. cbn [mbind option_bind ok_or].
  intros [= <-]. apply mapM_Some, Forall2_length in Eg. split_and!; try reflexivity. cbn. rewrite <- Eg. reflexivity.
Qed.

Lemma built_state config (r : Runtime (B := Device) (Ob := Ob)) :
  build default_clock config = Ok r ->
  components r = devices config /\ peers r = wiring /\ info_ports <$> slots r = slot_ports <$> device_slots config /\
  scheduler r = Scheduler.new (mkSchedulerConfig 1000000) /\ length (rngs r) = 4%nat /\ lifecycle r = Elaborated /\ fault r = None.
Proof.
  unfold build. destruct (declare config _) as [t [u|]] eqn:E; [|discriminate]. apply declared_topology in E as (Hd & Hc & Hl).
  destruct (elaborate t _) as [r'|] eqn:Ee; [|discriminate]. intros [= <-]. eapply elaborated_reference; eassumption.
Qed.
End elaborated.

(** * The events of a session as deliveries of the network *)

Definition node_of (who : Z) : Node := if who =? CPU then NCpu else if who =? DMA then NDma else if who =? BUS then NBus else NMem.
Definition index_of (node : Node) : Z := match node with NCpu => CPU | NDma => DMA | NBus => BUS | NMem => MEM end.

Definition item_of_event (e : Event Pending) : Item := (node_of (target (payload e)), delivery (payload e), phase (key e)).
Definition addressed (e : Event Pending) : Prop := index_of (node_of (target (payload e))) = target (payload e).

Definition row (node : Node) : list Peer :=
  match node with
  | NCpu => [mkPeer BUS 0 bus_link]
  | NDma => [mkPeer BUS 1 bus_link]
  | NBus => [mkPeer CPU 0 bus_link; mkPeer DMA 0 bus_link; mkPeer MEM 0 bus_link]
  | NMem => [mkPeer BUS 2 bus_link]
  end.

Lemma wiring_row node : wiring !! Z.to_nat (index_of node) = Some (row node).
Proof. destruct node; reflexivity. Qed.

Lemma node_index node : node_of (index_of node) = node.
Proof. destruct node; reflexivity. Qed.

(** The wiring is the network's [peer]. *)
Lemma peer_row node port pr :
  row node !! Z.to_nat port = Some pr ->
  peer node port = Some (node_of (peer_component pr), peer_port pr) /\ index_of (node_of (peer_component pr)) = peer_component pr.
Proof.
  intros E. unfold peer. destruct (Z.leb_spec port 0) as [Hp|Hp].
  - replace (Z.to_nat port) with 0%nat in E by lia. destruct node; cbn in E; injection E as <-; split; reflexivity.
  - destruct node; try (destruct (Z.to_nat port) eqn:En; [lia | discriminate E]).
    destruct (Z.to_nat port) as [|[|[|k]]] eqn:En; [lia | | | discriminate E]; cbn in E; injection E as <-;
      [replace port with 1 by lia | replace port with 2 by lia]; split; reflexivity.
Qed.

Section session.
Context `{EventOrder, Clocks, Protocols}.

Definition not_component (e : SimError) : Prop := forall what, e <> ComponentFault what.

Lemma resolve_error when now clk ds e : resolve when now clk ds = Err e -> not_component e.
Proof.
  unfold resolve, map_err, not_component. destruct when; [discriminate | destruct (clock_after _ _ _); [discriminate | intros [= <-]; discriminate] |].
  destruct (ds !! _); cbn; [destruct (cycles_after _ _ _); [discriminate | intros [= <-]; discriminate] | intros [= <-]; discriminate].
Qed.

Lemma add_latency_error lat t clk ds e : add_latency lat t clk ds = Err e -> not_component e.
Proof. unfold add_latency. destruct lat as [[]|]; [apply resolve_error.. | discriminate]. Qed.

Lemma schedule_error {T} t ph (p : T) s e : snd (schedule t ph p s) = Err e -> not_component e.
Proof.
  unfold schedule, not_component. repeat case_goal; cbn; intros [= <-]; discriminate.
Qed.

(** The context of a node's component after it made the calls of [log], against the log. *)
Record follows (node : Node) (fl : list Item) (l : Logged Ctx) (c : Ctx) : Prop := {
  fo_ctx : l_ctx l = c;
  fo_phase : l_phase l = Scheduler.current_phase (ctx_scheduler c);
  fo_me : me c = index_of node;
  fo_peers : ctx_peers c = row node;
  fo_ports : length (ctx_ports c) = length (row node);
  fo_items : item_of_event <$> heap (ctx_scheduler c) ≡ₚ omap (item_of node) (l_log l) ++ fl;
  fo_addr : Forall addressed (heap (ctx_scheduler c));
  fo_panic : ctx_panic c = None;
  fo_error : if l_refused l then exists e, ctx_error c = Some e /\ not_component e else ctx_error c = None;
}.

(** What a call of a context does to its scheduler: it refuses and does nothing, or it adds the
    delivery [it]. *)
Definition call_spec (it : Item) (c : Ctx) (x : Ctx * result SimError unit) : Prop :=
  match x with
  | (c', Ok _) => exists s e, c' = set_ctx_scheduler s c /\ heap s = e :: heap (ctx_scheduler c) /\
      last_dispatched s = last_dispatched (ctx_scheduler c) /\ item_of_event e = it /\ addressed e
  | (c', Err e) => not_component e /\ c' = c
  end.

Lemma ctx_schedule_spec t ph p c :
  index_of (node_of (target p)) = target p ->
  call_spec (node_of (target p), delivery p, ph) c (ctx_schedule t ph p c).
Proof.
  intros Ha. unfold ctx_schedule. destruct (schedule_cases t ph p (ctx_scheduler c)) as [[_ ->]|[_ [e E]]].
  - cbn. eexists _, _. split; [reflexivity |]. split; [reflexivity |]. auto.
  - pose proof (schedule_error t ph p (ctx_scheduler c) e) as Hn. rewrite E in *. cbn. split; [apply Hn; reflexivity | destruct c; reflexivity].
Qed.

Lemma try_send_spec node port msg when ph c :
  me c = index_of node -> ctx_peers c = row node -> length (ctx_ports c) = length (row node) ->
  match peer node port with
  | Some (node', port') => call_spec (node', Delivered_Message port' msg, ph) c (try_send port msg when ph c)
  | None => match try_send port msg when ph c with (c', Ok _) => False | (c', Err e) => not_component e /\ c' = c end
  end.
Proof.
  intros Hme Hpe Hpo. unfold try_send. rewrite Hpe.
  assert (Hrej : forall e, not_component e -> match peer node port with
    | Some (node', port') => call_spec (node', Delivered_Message port' msg, ph) c (c, Err e)
    | None => not_component e /\ c = c end) by (intros e He; destruct (peer node port) as [[]|]; cbn; auto).
  destruct (ctx_ports c !! Z.to_nat port) as [spec|] eqn:Es; [|specialize (Hrej (UnknownPort port) ltac:(discriminate)); destruct (peer node port) as [[]|]; exact Hrej].
  destruct (row node !! Z.to_nat port) as [pr|] eqn:Er.
  2: { apply lookup_ge_None in Er. apply lookup_lt_Some in Es. lia. }
  destruct (peer_row _ _ _ Er) as [Ep Hidx]. rewrite Ep in *.
  case_bool_decide; cbn [negb]; [|apply (Hrej (ProtocolMismatch _ _ _)); discriminate].
  destruct (resolve when _ _ _) as [sent|e] eqn:E1; cbn [mbind result_bind]; [|apply Hrej; eapply resolve_error, E1].
  destruct (add_latency _ _ _ _) as [t|e] eqn:E2; [|apply Hrej; eapply add_latency_error, E2].
  exact (ctx_schedule_spec t ph (mkPending (me c) (peer_component pr) (Delivered_Message (peer_port pr) msg)) c Hidx).
Qed.

Definition rejected (c : Ctx) (x : Ctx * result SimError unit) : Prop :=
  match x with (_, Ok _) => False | (c', Err e) => not_component e /\ c' = c end.

Lemma follows_call node fl l c e x :
  follows node fl l c -> ctx_error c = None ->
  match item_of node e with Some it => call_spec it c x | None => rejected c x end ->
  follows node fl (fst (logged e l (record x))) (fst (record x)) /\ snd (logged e l (record x)) = snd (record x).
Proof.
  intros [F1 F2 F3 F4 F5 F6 F7 F8 F9] He Hx. assert (Hl : l_refused l = false).
  { destruct (l_refused l); [|reflexivity]. destruct F9 as (e' & E & _). congruence. }
  destruct x as [c' [[]|er]].
  - destruct (item_of node e) as [it|] eqn:Ei; [|contradiction Hx]. destruct Hx as (s & ev & -> & Eh & El & Eit & Had).
    cbn. split; [|reflexivity]. split; cbn; try assumption.
    + reflexivity.
    + unfold Scheduler.current_phase in *. rewrite El. exact F2.
    + rewrite Eh, omap_app. cbn. rewrite Ei, Eit, F6. cbn. solve_Permutation.
    + rewrite Eh. constructor; assumption.
  - assert (Hr : not_component er /\ c' = c) by (destruct (item_of node e); exact Hx). destruct Hr as [Hn ->].
    unfold record. rewrite He. cbn. split; [|reflexivity]. split; cbn; try assumption; [reflexivity |]. eauto.
Qed.

(** A call after one was refused. *)
Lemma follows_refused node fl l c e er :
  follows node fl l c -> ctx_error c = Some er ->
  follows node fl (fst (logged e l (c, Err er))) c /\ snd (logged e l (c, Err er)) = Err er.
Proof.
  intros [F1 F2 F3 F4 F5 F6 F7 F8 F9] He. cbn. split; [|reflexivity]. split; cbn; try assumption; [reflexivity |].
  destruct (l_refused l); [exact F9 | congruence].
Qed.

Lemma follows_rel node fl : ctx_rel (follows node fl).
Proof.
  split; cbn.
  - intros l c F. rewrite (fo_ctx _ _ _ _ F). reflexivity.
  - intros l c F. rewrite (fo_ctx _ _ _ _ F). reflexivity.
  - intros l c F. apply (fo_phase _ _ _ _ F).
  - intros l c [<- F2 F3 F4 F5 F6 F7 F8 F9]. unfold rng_next_u64. destruct (next_u64 _) as [g x]. split; [|reflexivity]. split; auto.
  - intros port msg when ph l c F. rewrite (fo_ctx _ _ _ _ F). unfold send. destruct (ctx_error c) as [er|] eqn:He; [apply follows_refused; assumption |].
    apply (follows_call node fl l c); [exact F | exact He |]. pose proof (try_send_spec node port msg when ph c (fo_me _ _ _ _ F) (fo_peers _ _ _ _ F) (fo_ports _ _ _ _ F)) as Hs.
    cbn. destruct (peer node port) as [[node' port']|]; exact Hs.
  - intros when ph token l c F. rewrite (fo_ctx _ _ _ _ F). unfold wake_self. destruct (ctx_error c) as [er|] eqn:He; [apply follows_refused; assumption |].
    apply (follows_call node fl l c); [exact F | exact He |]. cbn. unfold try_wake. destruct (resolve _ _ _ _) as [t|er] eqn:Er.
    + pose proof (ctx_schedule_spec t ph (mkPending (me c) (me c) (Delivered_Wake token)) c) as Hs. cbn in Hs.
      rewrite (fo_me _ _ _ _ F), node_index in *. apply Hs. reflexivity.
    + cbn. split; [eapply resolve_error, Er | reflexivity].
  - intros kind fields l c [<- F2 F3 F4 F5 F6 F7 F8 F9]. unfold trace_push. split; cbn; auto; destruct (ctx_records (l_ctx l)); assumption.
Qed.
End session.

(** * The components of a session as the network *)

Definition dev (node : Node) (n : Net) : Device :=
  match node with
  | NCpu => inl (n_cpu n)
  | NDma => inr (inl (n_dma n))
  | NBus => inr (inr (inl (n_bus n)))
  | NMem => inr (inr (inr (n_mem n)))
  end.
Definition devs (n : Net) : list Device := [dev NCpu n; dev NDma n; dev NBus n; dev NMem n].

Section network.
Context `{EventOrder, Clocks, Protocols, Blake3, SnapshotCodec, !Canonical, !MemV0Codec, SimRng}.

(** [init], or the handling of a delivery, of a component of the network and of a session. *)
Definition acts (node : Node) (o : option Delivered) {C} `{SimContext C} : ST (Net * C) Failure unit :=
  match o with None => initialize node | Some ev => deliver node ev end.
Definition component_acts (o : option Delivered) C `{SimContext C} : ST (Device * C) Failure unit :=
  match o with None => component_init C | Some ev => component_handle ev C end.

Lemma zoom_uniform {S} (get : Net -> S) (set : S -> Net -> Net) (m : forall C `{SimContext C}, ST (S * C) Failure unit) :
  uniform m -> uniform (fun C _ => zoom get set (m C)).
Proof.
  intros Hm C D HC HD R HR n c d Hr. unfold zoom. destruct (Hm C D HC HD R HR (get n) c d Hr) as (H1' & H2' & H3').
  destruct (m C HC (get n, c)) as [[a1 c1] r1], (m D HD (get n, d)) as [[a2 d1] r2]. cbn in *. subst. auto.
Qed.

Lemma acts_uniform node o : uniform (fun C _ => acts node o).
Proof.
  unfold acts. destruct o as [ev|]; destruct node; apply (zoom_uniform _ _ _).
  - exact (handle_uniform (B := ToyCpu.ToyCpu) ev).
  - exact (handle_uniform (B := ToyDma.ToyDma) ev).
  - exact (handle_uniform (B := ToyBus.ToyBus) ev).
  - exact (handle_uniform (B := ToyMemory.ToyMemory) ev).
  - exact (init_uniform (B := ToyCpu.ToyCpu)).
  - exact (init_uniform (B := ToyDma.ToyDma)).
  - exact (init_uniform (B := ToyBus.ToyBus)).
  - exact (init_uniform (B := ToyMemory.ToyMemory)).
Qed.

Lemma acts_device node o n C `(SimContext C) (c : C) :
  component_acts o C (dev node n, c) = (let '((n', c'), r) := acts node o (n, c) in ((dev node n', c'), r)).
Proof.
  unfold acts, component_acts. destruct o as [ev|]; destruct node; cbn; unfold zoom;
    match goal with |- context [?f (?x, c)] => destruct (f (x, c)) as [[? ?] ?] end; reflexivity.
Qed.

Lemma acts_frame node o n C `(SimContext C) (c : C) n' c' r :
  acts node o (n, c) = ((n', c'), r) -> flight n' = flight n /\ <[Z.to_nat (index_of node) := dev node n']> (devs n) = devs n'.
Proof.
  unfold acts. destruct o as [ev|]; destruct node; cbn; unfold zoom; cbn beta iota;
    try match goal with |- context [match ?t with (_, _) => _ end] => destruct t as [[? ?] ?] end; intros [= <- _ _]; split; reflexivity.
Qed.

Local Abbreviation Core := (RuntimeProofs.Core (B := Device)).

Definition wired (st : Static) : Prop := st_peers st = wiring /\ (fun s => length (info_ports s)) <$> st_slots st = [1; 1; 3; 1]%nat.

(** The session [k] is in the state [n] of the network. *)
Record models (k : Core) (n : Net) : Prop := {
  mo_wired : wired (k_static k);
  mo_components : k_components k = devs n;
  mo_flight : flight n ≡ₚ item_of_event <$> heap (k_scheduler k);
  mo_addressed : Forall addressed (heap (k_scheduler k));
  mo_rngs : length (k_rngs k) = 4%nat;
  mo_sched : sched_ok (k_scheduler k);
}.

(** A refusal of the session that is not a fault of a component. *)
Definition context_failure {A} (res : result Stopped A) : Prop :=
  match res with Ok _ => True | Err e => exists e', e = Refused (RuntimeError_Faulted e') /\ not_component e' end.

Lemma core_context_net node at_ k n :
  models k n -> exists c, core_context (index_of node) at_ k = Some (dev node n, c) /\
    follows node (flight n) (mkLogged (Scheduler.current_phase (k_scheduler k)) c [] false) c /\ ctx_scheduler c = k_scheduler k.
Proof.
  intros [[Hp Hs] Hc Hf Ha Hg Hk]. unfold core_context. rewrite Hp, wiring_row, Hc. cbn.
  assert (Hslot : exists slot, st_slots (k_static k) !! Z.to_nat (index_of node) = Some slot /\ length (info_ports slot) = length (row node)).
  { destruct (st_slots (k_static k)) as [|s0 [|s1 [|s2 [|s3 [|]]]]]; cbn in Hs; try discriminate Hs. injection Hs as E0 E1 E2 E3.
    destruct node; eexists; (split; [reflexivity | assumption]). }
  destruct Hslot as (slot & -> & Hlen). cbn.
  assert (Hrng : is_Some (k_rngs k !! Z.to_nat (index_of node))) by (apply lookup_lt_is_Some; rewrite Hg; destruct node; unfold index_of, CPU, DMA, BUS, MEM; lia).
  destruct Hrng as [g ->]. cbn. replace (devs n !! Z.to_nat (index_of node)) with (Some (dev node n)) by (destruct node; reflexivity). cbn.
  eexists. split; [reflexivity |]. split; [|reflexivity]. split; cbn; auto. rewrite Hf. reflexivity.
Qed.

Lemma component_acts_uniform o : uniform (fun C _ => component_acts o C).
Proof. unfold component_acts. destruct o as [ev|]; [exact (handle_uniform (B := Device) ev) | exact (init_uniform (B := Device))]. Qed.

Lemma core_call_net node o at_ k n :
  models k n -> k_fault k = None ->
  (forall c : Ctx, faultless (C := Ctx) (acts (C := Logged Ctx) node o (n, mkLogged (Scheduler.current_phase (k_scheduler k)) c [] false))) ->
  let '(k', res) := core_call (index_of node) at_ (component_acts o Ctx) k in
  match res with
  | Ok _ => exists n1 l (c : Ctx), acts (C := Logged Ctx) node o (n, mkLogged (Scheduler.current_phase (k_scheduler k)) c [] false) = ((n1, l), Ok tt) /\
      models k' (posted node (l_log l) n1) /\ k_lifecycle k' = k_lifecycle k /\ k_fault k' = None
  | Err _ => context_failure res
  end.
Proof.
  intros M Hft Hsafe. destruct (core_context_net node at_ k n M) as (c & Ec & F & Es).
  pose proof (core_call_scheduler sched_ok (index_of node) at_ (fun C _ => component_acts o C) k (component_acts_uniform o)
    (fun t ph p s Hs => proj1 (schedule_cursor t ph p s Hs)) (mo_sched _ _ M)) as Hsched. cbn beta in Hsched.
  specialize (Hsafe c). unfold core_call in *. rewrite Ec, acts_device in *.
  destruct (acts_uniform node o (Logged Ctx) Ctx _ _ (follows node (flight n)) (follows_rel node (flight n)) n _ c F) as (F' & En & Er).
  destruct (acts (C := Logged Ctx) node o (n, mkLogged _ c [] false)) as [[n1 l] r1] eqn:E1. destruct (acts (C := Ctx) node o (n, c)) as [[n2 c2] r2] eqn:E2.
  cbn in F', En, Er. subst n2 r2. destruct F' as [G1 G2 G3 G4 G5 G6 G7 G8 G9]. rewrite G8.
  destruct r1 as [[]|e].
  - cbn in Hsafe. rewrite Hsafe in G9. rewrite G9. exists n1, l, c. split; [exact E1 |].
    destruct (acts_frame node o n _ _ _ _ _ _ E1) as [Efl Edev]. destruct M. split; [|auto]. split; cbn; auto.
    + rewrite mo_components0. exact Edev.
    + rewrite Efl, G6. apply Permutation_app_comm.
    + rewrite length_insert. exact mo_rngs0.
    + rewrite G8, G9 in Hsched. exact Hsched.
  - cbn in Hsafe. destruct Hsafe as (Hrf & e' & -> & _). rewrite Hrf in G9. destruct G9 as (er & Eer & Hn). rewrite Eer. cbn. eauto.
Qed.

(** * Runs *)

Context (cc : ToyCpu.ToyCpuConfig) (dc : ToyDma.ToyDmaConfig) (bc : ToyBus.ToyBusConfig) (mc : ToyMemory.ToyMemoryConfig).
Context (Hsetup : setup_ok cc dc mc).

Lemma models_pick k n e rest (s : Scheduler Pending) :
  models k n -> heap (k_scheduler k) ≡ₚ e :: rest ->
  exists l1 l2, flight n = l1 ++ item_of_event e :: l2 /\ l1 ++ l2 ≡ₚ item_of_event <$> rest.
Proof.
  intros M Hp. pose proof (mo_flight _ _ M) as Hf. rewrite Hp in Hf. cbn in Hf.
  assert (Hin : item_of_event e ∈ flight n) by (rewrite Hf; constructor).
  apply list_elem_of_split in Hin as (l1 & l2 & E). exists l1, l2. split; [exact E |]. rewrite E in Hf.
  rewrite <- Permutation_middle in Hf. apply (Permutation_cons_inv Hf).
Qed.

Lemma core_dispatch_net k n :
  models k n -> k_fault k = None -> reachable cc dc bc mc n ->
  let '(k', res) := core_dispatch k in
  match res with
  | Ok None => k' = k /\ heap (k_scheduler k) = []
  | Ok (Some _) => exists n', net_step n n' /\ models k' n' /\ k_lifecycle k' = k_lifecycle k /\ k_fault k' = None
  | Err _ => context_failure res
  end.
Proof.
  intros M Hft Hr. pose proof (pop_correct _ (mo_sched _ _ M)) as Hp. pose proof (pop_ok _ (mo_sched _ _ M)) as Hok. unfold core_dispatch.
  destruct (Scheduler.pop (k_scheduler k)) as [s1 [[e|]|f]]; cbn [fst] in Hok.
  2: { destruct Hp as [_ Hh]. auto. }
  2: { destruct Hp as (_ & e & rest & _ & _ & -> & _). cbn. eexists. split; [reflexivity | discriminate]. }
  destruct Hp as (Hperm & _ & _ & _ & Hl & _). destruct (models_pick k n e (heap s1) s1 M Hperm) as (l1 & l2 & Ef & Hrest).
  set (ev := mkCanonicalEvent _ _ _ _). set (k1 := mkCore _ _ _ _ _ _ _). set (node := node_of (target (payload e))).
  assert (Hphase : Scheduler.current_phase (k_scheduler k1) = phase (key e)) by (cbn; unfold Scheduler.current_phase; rewrite Hl; reflexivity).
  pose proof (mo_addressed _ _ M) as Had. rewrite Hperm in Had. apply Forall_cons in Had as [Had Hads]. unfold addressed in Had. fold node in Had.
  assert (M1 : models k1 (set_flight (l1 ++ l2) n)) by (destruct M; split; auto).
  pose proof (core_call_net node (Some (delivery (payload e))) (At_Event (key e)) k1 (set_flight (l1 ++ l2) n) M1 Hft) as Hc.
  rewrite Hphase, Had in Hc. cbn [acts component_acts] in Hc. specialize (Hc (reachable_faultless cc dc bc mc n l1 node _ _ l2 Hsetup Hr Ef Ctx _)).
  destruct (core_call _ _ _ k1) as [k2 [[]|er]]; [|exact Hc]. destruct Hc as (n1 & l & c & E & M2 & Hlf & Hft2).
  exists (posted node (l_log l) n1). split; [|auto]. exact (deliver_item l1 node _ _ l2 n n1 Ctx _ c l Ef E).
Qed.

Lemma core_run_net fuel until : forall k n,
  models k n -> k_fault k = None -> reachable cc dc bc mc n ->
  let '(k', res) := core_run fuel until k in
  match res with
  | Ok m => exists n' j, m = Z.of_nat j /\ nsteps net_step j n n' /\ models k' n' /\ k_lifecycle k' = k_lifecycle k
  | Err OutOfFuel => True
  | Err _ => context_failure res
  end.
Proof.
  induction fuel as [|fuel IH]; intros k n M Hft Hr; cbn [core_run]; [exact I |]. unfold core_turn.
  destruct (Scheduler.peek_key _) as [next|] eqn:Epk; [|exists n, 0%nat; repeat split; auto; try constructor; apply M].
  destruct (until <? _); [exists n, 0%nat; repeat split; auto; try constructor; apply M |].
  pose proof (core_dispatch_net k n M Hft Hr) as Hd. destruct (core_dispatch k) as [k1 [[ev|]|e]] eqn:Ed.
  - destruct Hd as (n1 & Hstep & M1 & Hlf & Hft1).
    assert (Hr1 : reachable cc dc bc mc n1). { destruct Hr as (n0 & Hi & Hs). exists n0. split; [exact Hi |]. eapply rtc_r; eassumption. }
    specialize (IH k1 n1 M1 Hft1 Hr1). destruct (core_run fuel until k1) as [k2 [m|e2]]; [|exact IH].
    destruct IH as (n2 & j & -> & Hs & M2 & Hlf2). exists n2, (S j). split; [lia |]. split; [econstructor; eassumption |]. split; [exact M2 | congruence].
  - destruct Hd as [_ Hh]. unfold Scheduler.peek_key in Epk. rewrite Hh in Epk. discriminate.
  - destruct e; [exact Hd | exact Hd | exact I].
Qed.

(** * Initialization *)

Lemma models_proper (k k' : Core) n : k ≡ k' -> models k n -> models k' n.
Proof.
  intros (Est & Ec & Eg & Es & _) []. rewrite Est, Ec, Eg in *. pose proof Es as (_ & _ & _ & _ & Eh).
  split; auto; [rewrite <- Eh | rewrite <- Eh | apply (proj1 (sched_ok_proper _ _ Es))]; assumption.
Qed.

(** A component not initialized. *)
Definition fresh (n : Net) (node : Node) : Prop :=
  match node with NCpu => n_cpu n = ToyCpu.new cc | NDma => n_dma n = ToyDma.new dc | _ => True end.

Lemma init_faultless node n ph (c : Ctx) : fresh n node -> faultless (C := Ctx) (acts (C := Logged Ctx) node None (n, mkLogged ph c [] false)).
Proof.
  intros Hf. refine (runs_faultless ph (fun C HC => initialize node) n (fun _ _ _ => True) Ctx _ c _). destruct node; cbn [initialize]; apply runs_zoom; cbn in Hf; rewrite ?Hf.
  - eapply runs_mono; [|apply (runs_cpu_init _ _ _ Hsetup)]. auto.
  - eapply runs_mono; [|apply (runs_dma_init _ _ _ Hsetup)]. auto.
  - unfold ToyBus.init. log_run. exact I.
  - unfold ToyMemory.init. log_run. exact I.
Qed.

Lemma acts_fresh node o n C `(SimContext C) (c : C) n' c' r node' :
  acts node o (n, c) = ((n', c'), r) -> node' <> node -> fresh n node' -> fresh n' node'.
Proof.
  intros [_ E]%acts_frame Hne Hf. destruct node, node'; try (exfalso; congruence); cbn in *; try exact I; injection E; intros; congruence.
Qed.

Context {Ob : Type} `{!Observer Device Ob}.

Local Abbreviation Runtime := (Runtime (B := Device) (Ob := Ob)).

Fixpoint consecutive (index : Z) (nodes : list Node) : Prop :=
  match nodes with [] => True | node :: nodes => index_of node = index /\ consecutive (index + 1) nodes end.

Lemma init_nodes nodes : forall index (r : Runtime) n,
  consecutive index nodes -> NoDup nodes -> models (core r) n -> fault r = None -> Forall (fresh n) nodes ->
  let '(r', res) := init_from (length nodes) index r in
  match res with
  | Ok _ => exists n', net_init nodes n n' /\ models (core r') n' /\ fault r' = None
  | Err _ => context_failure res
  end.
Proof.
  induction nodes as [|node nodes IH]; intros index r n Hi Hnd M Hft Hf; cbn [init_from length].
  { exists n. split; [constructor | auto]. }
  destruct Hi as [Hi Hrest]. apply NoDup_cons in Hnd as [Hni Hnd]. apply Forall_cons in Hf as [Hf Hfs]. rewrite ST_bind_unfold.
  pose proof (call_alike index At_Init (fun C _ => component_acts None C) r (core r) (component_acts_uniform None) (reflexivity _)) as [Ha Hb].
  cbn beta in Ha, Hb. cbn [component_acts] in Ha, Hb.
  pose proof (core_call_net node None At_Init (core r) n M Hft (fun c => init_faultless node n _ c Hf)) as Hc. rewrite Hi in Hc. cbn [component_acts] in Hc.
  destruct (call_component _ _ _ r) as [r1 res1], (core_call _ _ _ (core r)) as [k1 res2]. cbn [fst snd] in Ha, Hb.
  destruct res1 as [[]|e1], res2 as [[]|e2]; try contradiction Hb; [|subst e2; exact Hc].
  destruct Hc as (n1 & l & c & E & M1 & _ & Hft1).
  assert (Hft' : fault r1 = None) by (change (k_fault (core r1) = None); destruct Ha as (_ & _ & _ & _ & _ & _ & ->); exact Hft1).
  specialize (IH (index + 1) r1 (posted node (l_log l) n1) Hrest Hnd (models_proper _ _ _ (symmetry Ha) M1) Hft').
  assert (Hfs' : Forall (fresh (posted node (l_log l) n1)) nodes).
  { rewrite Forall_forall in *. intros node' Hin. apply (acts_fresh node None n _ _ _ _ _ _ node' E); [|apply Hfs, Hin]. intros ->. contradiction. }
  specialize (IH Hfs'). destruct (init_from (length nodes) (index + 1) r1) as [r2 [[]|e]]; [|exact IH].
  destruct IH as (n' & Hn & M2 & Hft2). exists n'. split; [|auto]. exact (init_node node nodes n n1 n' Ctx _ c _ l E Hn).
Qed.
End network.

(** * The scenario *)

(** The operation counts are [u64]s and so is their sum. *)
Definition scenario_ok (config : ReferenceConfig) : Prop :=
  in_u 64 (cpu_ops config) /\ in_u 64 (dma_ops config) /\ cpu_ops config + dma_ops config < 2 ^ 64.

Lemma reference_setup config : scenario_ok config -> setup_ok (cpu_config config 0) (dma_config config 1) mem_config.
Proof.
  intros (Hc & Hd & Hs). split; cbn; try lia.
  - unfold ToyCpu.cpu_config_ok. cbn. split_and!; try const_range; try lia; assumption.
  - split; cbn; try const_range; try lia; try assumption. vm_compute. discriminate.
  - const_range.
  - split; apply (bool_decide_unpack _); vm_compute; exact I.
  - unfold CPU_SLOTS. lia.
  - unfold DMA_SLOTS. lia.
Qed.

(** All the work of the scenario is done, and the memory holds what the CPU wrote last. *)
Definition finished (config : ReferenceConfig) (cs : list Device) : Prop :=
  exists n, cs = devs n /\ ToyCpu.committed (n_cpu n) = cpu_ops config /\ ToyDma.completed (n_dma n) = dma_ops config /\
    forall i, 0 <= i < CPU_SLOTS ->
      slice (ToyMemory.bytes (n_mem n)) (i * CPU_ACCESS) (Z.to_nat CPU_ACCESS) =
      default (replicate (Z.to_nat CPU_ACCESS) 0) (ToyCpu.shadow (n_cpu n) !! (i * CPU_ACCESS)).

Section scenario.
Context `{EventOrder, Clocks, Protocols, Blake3, SnapshotCodec, !Canonical, !MemV0Codec, SimRng}.
Context {Ob : Type} `{!Observer Device Ob}.
Context (default_clock : SimulationClock) (config : ReferenceConfig) (Hconfig : scenario_ok config).

Abbreviation cc := (cpu_config config 0).
Abbreviation dc := (dma_config config 1).
Abbreviation bc := (bus_config 2).
Abbreviation mc := mem_config.

Local Abbreviation Runtime := (Runtime (B := Device) (Ob := Ob)).

Lemma built_models (r : Runtime) : build default_clock config = Ok r -> models (core r) (made cc dc mc bc).
Proof.
  intros (Hc & Hp & Hs & Hsch & Hg & _)%built_state. split; cbn.
  - split; [exact Hp |]. cbn. assert (E : (length (A := PortSpec)) <$> (info_ports <$> slots r) = [1; 1; 3; 1]%nat) by (rewrite Hs; reflexivity).
    rewrite <- E, <- list_fmap_compose. reflexivity.
  - exact Hc.
  - rewrite Hsch. reflexivity.
  - rewrite Hsch. constructor.
  - exact Hg.
  - rewrite Hsch. apply scheduler_new_ok. const_range.
Qed.

(** The calls that set up observation: observers, observe points and traces. *)
Definition watching (c : Call (Ob := Ob)) : Prop :=
  match c with
  | Call_add_observer _ | Call_observe_at _ | Call_start_trace | Call_take_trace => True
  | _ => False
  end.

(** A session watched, in any of these ways. *)
Definition watched (calls : list Call) (r : Runtime) : Runtime := fst (drive calls r).

Lemma watched_core calls : Forall watching calls -> forall r, core (watched calls r) = core r.
Proof.
  unfold watched. induction 1 as [|c calls Hc _ IH]; intros r; [reflexivity |]. cbn [drive].
  assert (E : core (fst (apply_call c r)) = core r).
  { destruct c; try contradiction Hc; cbn [apply_call fst]; try reflexivity.
    - unfold start_trace. rewrite ST_bind_unfold. unfold require, refuse, st_fail. destruct (lifecycle r), (fault r); reflexivity.
    - unfold take_trace. destruct (trace r); reflexivity. }
  destruct (apply_call c r) as [r1 a]. cbn [fst] in E. specialize (IH r1). destruct (drive calls r1). cbn [fst] in *. congruence.
Qed.

Lemma built_init (r0 r : Runtime) :
  build default_clock config = Ok r0 -> core r = core r0 ->
  match init r with
  | (r', Ok _) => exists n, initialized cc dc bc mc n /\ models (core r') n /\ fault r' = None /\ lifecycle r' = Ready
  | (_, Err e) => context_failure (A := unit) (Err e)
  end.
Proof.
  intros Hb Hcore. pose proof (built_models r0 Hb) as M. rewrite <- Hcore in M.
  pose proof (built_state default_clock config r0 Hb) as (_ & _ & Hs & _ & _ & Hl & Hft).
  assert (Es : slots r = slots r0) by exact (f_equal (fun k => st_slots (k_static k)) Hcore). rewrite <- Es in Hs. clear Es.
  assert (El : lifecycle r = lifecycle r0) by exact (f_equal k_lifecycle Hcore). rewrite <- El in Hl. clear El.
  assert (Ef : fault r = fault r0) by exact (f_equal k_fault Hcore). rewrite <- Ef in Hft. clear Ef.
  assert (Hlen : length (slots r) = 4%nat) by (rewrite <- (length_fmap info_ports), Hs; reflexivity).
  unfold init. rewrite ST_bind_unfold. unfold require. rewrite Hl. rewrite bool_decide_true by reflexivity.
  rewrite ST_bind_unfold. cbn [st_get]. rewrite Hlen, ST_bind_unfold.
  pose proof (init_nodes cc dc mc (reference_setup config Hconfig) [NCpu; NDma; NBus; NMem] 0 r (made cc dc mc bc)) as Hi.
  cbn [length] in Hi. destruct (init_from 4 0 r) as [r1 [[]|e]]; cbn.
  - destruct Hi as (n & Hn & M1 & Hft1); auto.
    + repeat split.
    + apply (bool_decide_unpack _). vm_compute. exact I.
    + repeat constructor.
    + exists n. split; [exact Hn |]. split; [|auto]. destruct M1. split; assumption.
  - apply Hi; auto; [repeat split | apply (bool_decide_unpack _); vm_compute; exact I | repeat constructor].
Qed.

Lemma models_finished (k : RuntimeProofs.Core (B := Device)) n :
  models k n -> reachable cc dc bc mc n -> heap (k_scheduler k) = [] -> finished config (k_components k).
Proof.
  intros M Hr Hh. exists n. split; [apply M |].
  assert (Hf : flight n = []). { pose proof (mo_flight _ _ M) as Hp. rewrite Hh in Hp. apply Permutation_nil_r in Hp. exact Hp. }
  destruct (reachable_complete _ _ _ _ n (reference_setup config Hconfig) Hr Hf) as (H1' & H2' & _ & _ & H5').
  split; [exact H1' |]. split; [exact H2' |]. intros i Hi. apply H5'. exists i. auto.
Qed.

End scenario.
