(* ===== verification/RuntimeSnapshot.v ===== *)
(** Session snapshots, [runtime/src/snapshot.rs]: the encoding of a session's simulation
    state, its strict decoding, and the validated restore.

    A snapshot of a session restores its simulation exactly in a session elaborated from the
    same topology: the same components, streams, queue, cursor and digest, so that every
    later run, snapshot and failure is the one the first session would have had
    ([session_snapshot_restore]).  Whatever bytes it is given, [restore] does not panic, and a
    failed restore leaves a session that refuses to run.  The sessions of a topology, whatever
    calls and restores they went through ([driven]), keep their invariant and never panic
    ([session_invariant]). *)
From stdpp Require Import base numbers list option strings.
From Stdlib Require Import ZArith Lia.
From S2P Require Import Prelude Contracts Handlers Snapshots Session Scheduler Trace Rng Runtime RuntimeProofs RuntimeInvariant.
From S2P Require Topology TopologyProofs.

Local Open Scope string_scope.
Local Open Scope list_scope.
Local Open Scope Z_scope.

(** ["SSSNAP\0\0"]. *)
Definition SNAPSHOT_MAGIC : list Z := [83; 83; 83; 78; 65; 80; 0; 0].
Definition SNAPSHOT_FORMAT_VERSION : Z := 1.

Abbreviation DomainFields := (Z * Z * Z * Z * Z)%type.

(** A snapshot decoded but not yet checked against a session. *)
Record Decoded : Type := mkDecoded {
  d_seed : Z;
  d_ticks_per_second : Z;
  d_max_events_per_phase : Z;
  d_contracts_version : string;
  d_clock_domains : list DomainFields;
  d_topology_hash : list Z;
  d_last_dispatched : option EventKey;
  d_dispatched_in_phase : Z;
  d_next_sequence : Z;
  d_execution_digest : list Z;
  d_queue : list CanonicalEvent;
  d_rng_states : list Words;
  d_components : list (Z * Z * list Z);
}.

Section snapshots.
Context `{EventOrder, Clocks, Protocols, Blake3, SnapshotCodec, !Canonical, !DomainCodec}.

Local Abbreviation R := (ST (list Z) RestoreError).

(** * Decoding *)

(** [if d.raw(8) != Ok(&SNAPSHOT_MAGIC[..])]. *)
Definition read_magic : R unit := fun bs =>
  match get_raw (length SNAPSHOT_MAGIC) bs with
  | Ok (magic, rest) => if bool_decide (magic = SNAPSHOT_MAGIC) then (rest, Ok tt) else (rest, Err BadMagic)
  | Err _ => (bs, Err BadMagic)
  end.

(** [for _ in 0..n { v.push(m?) }]. *)
Fixpoint read_n {A} (n : nat) (m : R A) : R (list A) :=
  match n with
  | O => mret []
  | S n => x ← m; xs ← read_n n m; mret (x :: xs)
  end.

Definition read_seq {A} (m : R A) : R (list A) := n ← rd get_len; read_n (Z.to_nat n) m.

Definition read_domain : R DomainFields :=
  id ← rd get_u32; num ← rd get_u64; den ← rd get_u64; offset ← rd get_u64; rounding ← rd get_u8;
  if 1 <? rounding then bad_tag "rounding" rounding else mret (id, num, den, offset, rounding).

Definition read_last : R (option EventKey) :=
  tag ← rd get_u8;
  if tag =? 0 then mret None
  else if tag =? 1 then k ← rd get_key; mret (Some k)
  else bad_tag "option" tag.

Definition read_words : R Words :=
  a ← rd get_u64; b ← rd get_u64; c ← rd get_u64; d ← rd get_u64; mret (a, b, c, d).

Definition read_entry : R (Z * Z * list Z) :=
  id ← rd get_u32; schema ← rd get_u32; bytes ← rd get_bytes; mret (id, schema, bytes).

(** [Decoder::finish]. *)
Definition finish : R unit := fun bs =>
  match bs with [] => (bs, Ok tt) | _ => (bs, Err (Decode trailing_bytes)) end.

(** [decode], up to [d.finish()]. *)
Definition decode_body : R Decoded :=
  read_magic;;
  version ← rd get_u32;
  (if negb (version =? SNAPSHOT_FORMAT_VERSION) then st_fail (FormatVersion version) else mret tt);;
  seed ← rd get_u64; ticks ← rd get_u64; max ← rd get_u64;
  contracts_version ← rd get_str;
  clock_domains ← read_seq read_domain;
  topology_hash ← rd (get_raw 32);
  last ← read_last;
  in_phase ← rd get_u64; next ← rd get_u64;
  digest ← rd (get_raw 32);
  queue ← read_seq (rd get_event);
  rng_states ← read_seq read_words;
  components ← read_seq read_entry;
  mret (mkDecoded seed ticks max contracts_version clock_domains topology_hash last in_phase next
          digest queue rng_states components).

Definition decode : R Decoded := snap ← decode_body; finish;; mret snap.

(** The decoded form of this session's clock domains: [None] is a failed [expect]. *)
Fixpoint read_fields (n : nat) (bs : list Z) : option (list DomainFields) :=
  match n with
  | O => Some []
  | S n =>
      match (id ← rd get_u32; num ← rd get_u64; den ← rd get_u64; offset ← rd get_u64;
             rounding ← rd get_u8; mret (id, num, den, offset, rounding) : R DomainFields) bs with
      | (bs, Ok d) => ds ← read_fields n bs; Some (d :: ds)
      | (_, Err _) => None
      end
  end.

Definition domain_fields (domains : list ClockDomain) : option (list DomainFields) :=
  match get_len (encode_clock_domains domains) with
  | Ok (n, bs) => read_fields (Z.to_nat n) bs
  | Err _ => None
  end.

Definition scheduler_error (e : SchedulerRestoreError) : RestoreError :=
  InvalidState
    match e with
    | DuplicateSequence _ => "two queued events share a sequence"
    | SequenceNotYetAssigned _ => "a queued sequence is not below next_sequence"
    | EventBeforeCursor _ => "a queued event is not after the last dispatched event"
    | ObservePhaseEvent _ => "a queued event is in OBSERVE"
    | InvalidPhaseCount _ => "dispatched_in_phase is inconsistent"
    end.

Context {B Ob : Type} `{!Component B, !Observer B Ob}.

Local Abbreviation Runtime := (Runtime (B := B) (Ob := Ob)).

(** * Encoding *)

Definition put_words (w : Words) : list Z :=
  let '(a, b, c, d) := w in put_u64 a ++ put_u64 b ++ put_u64 c ++ put_u64 d.

Definition put_last (last : option EventKey) : list Z :=
  match last with None => put_u8 0 | Some k => put_u8 1 ++ put_key k end.

Definition event_of (e : Event Pending) : CanonicalEvent :=
  mkCanonicalEvent (key e) (source (payload e)) (target (payload e)) (delivery (payload e)).

Definition put_entry (e : Z * Z * list Z) : list Z :=
  let '(id, schema, bytes) := e in put_u32 id ++ put_u32 schema ++ put_bytes bytes.

Definition entries (cs : list B) : list (Z * Z * list Z) :=
  imap (fun i b => (Z.of_nat i, snapshot_schema_version b, component_snapshot b)) cs.

Definition encode (r : Runtime) : list Z :=
  let s := Scheduler.snapshot (scheduler r) in
  SNAPSHOT_MAGIC ++ put_u32 SNAPSHOT_FORMAT_VERSION ++ put_u64 (seed (config r)) ++
  put_u64 (ticks_per_second (clock r)) ++ put_u64 (max_events_per_phase (scheduler_config (config r))) ++
  put_str CONTRACTS_VERSION ++ encode_clock_domains (domains r) ++ topology_hash r ++
  put_last (snap_last_dispatched s) ++ put_u64 (snap_dispatched_in_phase s) ++
  put_u64 (snap_next_sequence s) ++ execution_digest r ++
  (put_len (Z.of_nat (length (snap_queue s))) ++ (snap_queue s ≫= put_event ∘ event_of)) ++
  (put_len (Z.of_nat (length (rngs r))) ++ (rngs r ≫= put_words ∘ Rng.state)) ++
  (put_len (Z.of_nat (length (components r))) ++ (entries (components r) ≫= put_entry)).

Definition snapshot : ST Runtime Stopped (list Z) :=
  require Ready;; r ← st_get; mret (encode r).

Definition state_digest : ST Runtime Stopped (list Z) :=
  bytes ← snapshot; mret (hash bytes).

(** * Restoring *)

(** A queued event must be one this topology could have scheduled. *)
Definition check_event (r : Runtime) (ev : CanonicalEvent) : result RestoreError unit :=
  slot ← ok_or (slots r !! Z.to_nat (ev_target ev)) (InvalidState "queued event for an unknown component");
  match ev_delivery ev with
  | Delivered_Message port msg =>
      if negb (ev_source ev =? RUNTIME) && (length (slots r) <=? Z.to_nat (ev_source ev))%nat then
        Err (InvalidState "queued message from an unknown component")
      else
        spec ← ok_or (info_ports slot !! Z.to_nat port) (InvalidState "queued message for an unknown port");
        if negb (bool_decide (port_protocol spec = protocol msg)) then
          Err (InvalidState "queued message does not match its port's protocol")
        else Ok tt
  | Delivered_Wake _ =>
      if negb (ev_source ev =? ev_target ev) then Err (InvalidState "queued wake for another component")
      else Ok tt
  end.

Definition event_back (ev : CanonicalEvent) : Event Pending :=
  mkEvent (ev_key ev) (mkPending (ev_source ev) (ev_target ev) (ev_delivery ev)).

Fixpoint check_queue (r : Runtime) (evs : list CanonicalEvent) : result RestoreError (list (Event Pending)) :=
  match evs with
  | [] => Ok []
  | ev :: evs => check_event r ev;; q ← check_queue r evs; Ok (event_back ev :: q)
  end.

(** [session.iter().find(|(same, _)| !same)]. *)
Definition session_mismatch (r : Runtime) (fields : list DomainFields) (snap : Decoded) : option SessionField :=
  snd <$> find (fun x : bool * SessionField => negb (fst x))
    [(d_seed snap =? seed (config r), Field_Seed);
     (d_ticks_per_second snap =? ticks_per_second (clock r), Field_TicksPerSecond);
     (d_max_events_per_phase snap =? max_events_per_phase (scheduler_config (config r)), Field_MaxEventsPerPhase);
     ((d_contracts_version snap =? CONTRACTS_VERSION)%string, Field_ContractsVersion);
     (bool_decide (d_clock_domains snap = fields), Field_ClockDomains)].

Fixpoint schema_mismatch (id : Z) (cs : list B) (es : list (Z * Z * list Z)) : option RestoreError :=
  match cs, es with
  | b :: cs, (_, found, _) :: es =>
      let expected := snapshot_schema_version b in
      if negb (found =? expected) then Some (SchemaVersion id expected found)
      else schema_mismatch (id + 1) cs es
  | _, _ => None
  end.

Fixpoint out_of_order (id : Z) (es : list (Z * Z * list Z)) : bool :=
  match es with
  | [] => false
  | (found, _, _) :: es => negb (found =? id) || out_of_order (id + 1) es
  end.

(** The components already restored keep their new state when a later one fails. *)
Fixpoint restore_components (cs : list B) (es : list (Z * Z * list Z)) : list B * result RestoreError unit :=
  match cs, es with
  | b :: cs, (_, schema, bytes) :: es =>
      match (b ← component_restore b schema; finish;; mret b) bytes with
      | (_, Err e) => (b :: cs, Err e)
      | (_, Ok b) => let '(cs, res) := restore_components cs es in (b :: cs, res)
      end
  | _, _ => (cs, Ok tt)
  end.

(** The checks between decoding and the components. *)
Definition check_snapshot (r : Runtime) (fields : list DomainFields) (snap : Decoded) :
    result RestoreError (Scheduler Pending * list Xoshiro256StarStar) :=
  match session_mismatch r fields snap with
  | Some field => Err (SessionMismatch field)
  | None =>
      if negb (bool_decide (d_topology_hash snap = topology_hash r)) then Err TopologyMismatch
      else
        match schema_mismatch 0 (components r) (d_components snap) with
        | Some e => Err e
        | None =>
            let n := length (components r) in
            if negb (length (d_components snap) =? n)%nat || negb (length (d_rng_states snap) =? n)%nat then
              Err (InvalidState "not one entry per component")
            else if out_of_order 0 (d_components snap) then
              Err (InvalidState "component entries out of id order")
            else
              rngs ← ok_or (mapM Rng.from_state (d_rng_states snap)) (InvalidState "all-zero RNG state");
              if bool_decide (d_last_dispatched snap = None) && negb (bool_decide (d_execution_digest snap = ZERO_DIGEST)) then
                Err (InvalidState "execution digest without a dispatched event")
              else
                queue ← check_queue r (d_queue snap);
                s ← map_err scheduler_error
                      (Scheduler.restore (scheduler_config (config r))
                         (mkSchedulerSnapshot (d_last_dispatched snap) (d_dispatched_in_phase snap)
                            (d_next_sequence snap) queue));
                Ok (s, rngs)
        end
  end.

(** An error is a [RestoreError], or the panic of [domain_fields]. *)
Definition try_restore (bytes : list Z) (r : Runtime) : Runtime * result (RestoreError + string) unit :=
  match snd (decode bytes) with
  | Err e => (r, Err (inl e))
  | Ok snap =>
      match domain_fields (domains r) with
      | None => (r, Err (inr "just encoded"))
      | Some fields =>
          match check_snapshot r fields snap with
          | Err e => (r, Err (inl e))
          | Ok (s, gs) =>
              match restore_components (components r) (d_components snap) with
              | (cs, Err e) => (set_components cs r, Err (inl e))
              | (cs, Ok _) =>
                  (set_execution_digest (d_execution_digest snap)
                     (set_after_call cs gs s (emitted r) r), Ok tt)
              end
          end
      end
  end.

Definition restore (bytes : list Z) : ST Runtime Stopped unit :=
  require Elaborated;;
  r ← st_get;
  match trace r with
  | Some _ => refuse TraceNeedsPrefix
  | None =>
      fun r =>
        match try_restore bytes r with
        | (r, Ok _) => (set_freshly_restored true (set_lifecycle Ready r), Ok tt)
        | (r, Err (inl e)) => fail_restore e r
        | (r, Err (inr w)) => (r, Err (Panicked w))
        end
  end.
End snapshots.

(** * Reading a snapshot back *)

Section reading.
Context `{EventOrder, Clocks, Protocols, Blake3, SnapshotCodec, !Canonical, !DomainCodec}.

Local Abbreviation R := (ST (list Z) RestoreError).

Lemma reads_n {A} (m : R A) (w : A -> list Z) l :
  Forall (fun x => reads m (w x) x) l -> reads (read_n (length l) m) (l ≫= w) l.
Proof.
  induction 1 as [|x l Hx _ IH]; [apply reads_ret |]. cbn [length read_n].
  change ((x :: l) ≫= w) with (w x ++ (l ≫= w)). eapply reads_bind; [exact Hx |].
  eapply reads_last; [exact IH | apply reads_ret].
Qed.

Lemma reads_seq {A} (m : R A) (w : A -> list Z) l :
  in_u 32 (Z.of_nat (length l)) -> Forall (fun x => reads m (w x) x) l ->
  reads (read_seq m) (put_len (Z.of_nat (length l)) ++ (l ≫= w)) l.
Proof.
  intros Hl Hf. unfold read_seq. eapply reads_bind; [apply reads_len, Hl |]. rewrite Nat2Z.id. apply reads_n, Hf.
Qed.

Lemma reads_magic : reads read_magic SNAPSHOT_MAGIC tt.
Proof. intros rest. unfold read_magic. rewrite get_raw_app, bool_decide_true by reflexivity. reflexivity. Qed.

Lemma reads_domain d :
  let '(id, num, den, offset, rounding) := d in
  in_u 32 id /\ in_u 64 num /\ in_u 64 den /\ in_u 64 offset /\ 0 <= rounding <= 1 ->
  reads read_domain (put_domain d) d.
Proof.
  destruct d as [[[[id num] den] offset] rounding]. intros (? & ? & ? & ? & ?). unfold read_domain, put_domain.
  assert (in_u 8 rounding) by (unfold in_u; lia). do 5 reads_next.
  replace (1 <? rounding) with false by (symmetry; apply Z.ltb_ge; lia). apply reads_ret.
Qed.

Lemma reads_key k : key_ok k -> reads (rd get_key) (put_key k) k.
Proof. intros Hk rest. unfold rd. rewrite get_put_key by exact Hk. reflexivity. Qed.

Lemma reads_event ev : event_ok ev -> delivery_fits (ev_delivery ev) -> reads (rd get_event) (put_event ev) ev.
Proof. intros He Hf rest. unfold rd. rewrite get_put_event by assumption. reflexivity. Qed.

Lemma reads_last_key last : (forall l, last = Some l -> key_ok l) -> reads read_last (put_last last) last.
Proof.
  intros Hl. unfold read_last, put_last. destruct last as [k|].
  - reads_next. eapply reads_last; [apply reads_key, Hl; reflexivity | apply reads_ret].
  - eapply reads_last; [apply reads_u8; const_range |]. apply reads_ret.
Qed.

Lemma reads_words w : words_ok w -> reads read_words (put_words w) w.
Proof.
  destruct w as [[[a b] c] d]. intros (? & ? & ? & ?). unfold read_words, put_words.
  do 3 reads_next. eapply reads_last; [apply reads_u64; assumption | apply reads_ret].
Qed.

Lemma reads_entry e :
  let '(id, schema, bytes) := e in
  in_u 32 id /\ in_u 32 schema /\ bytes_ok bytes /\ in_u 32 (Z.of_nat (length bytes)) ->
  reads read_entry (put_entry e) e.
Proof.
  destruct e as [[id schema] bytes]. intros (? & ? & ? & ?). unfold read_entry, put_entry.
  do 2 reads_next. eapply reads_last; [apply reads_bytes; assumption | apply reads_ret].
Qed.

(** The clock domains of a session, read from their own encoding. *)
Lemma domain_fields_doc ds :
  in_u 32 (Z.of_nat (length ds)) -> domain_fields ds = Some (domain_tuple <$> ds).
Proof.
  intros Hl. unfold domain_fields. rewrite encode_clock_domains_doc, get_put_len, Nat2Z.id by exact Hl.
  clear Hl. rewrite <- (app_nil_r (_ ≫= _)).
  generalize (@nil Z). induction ds as [|d ds IH]; intros rest; [reflexivity |]. cbn [length read_fields].
  change (((domain_tuple <$> d :: ds) ≫= put_domain)) with (put_domain (domain_tuple d) ++ ((domain_tuple <$> ds) ≫= put_domain)).
  rewrite <- app_assoc. pose proof (domain_tuple_range d) as Hd.
  set (m := (id ← rd get_u32; _ : R DomainFields)).
  assert (Hr : reads m (put_domain (domain_tuple d)) (domain_tuple d)).
  { subst m. destruct (domain_tuple d) as [[[[id num] den] offset] rounding]. destruct Hd as (? & ? & ? & ? & ?).
    assert (in_u 8 rounding) by (unfold in_u; lia). unfold put_domain. do 4 reads_next.
    eapply reads_last; [apply reads_u8; assumption | apply reads_ret]. }
  rewrite Hr, IH. reflexivity.
Qed.
End reading.

(** * The round trip *)

Section roundtrip.
Context `{EventOrder, Clocks, Protocols, Blake3, SnapshotCodec, !Canonical, !DomainCodec}.
Context {B Ob : Type} `{!Component B, !UniformComponent B, !TypedComponent B, !PersistentComponent B, !Observer B Ob}.

Local Abbreviation Runtime := (Runtime (B := B) (Ob := Ob)).

(** The lengths a snapshot holds in a [u32]. *)
Definition encodable (r : Runtime) : Prop :=
  in_u 32 (Z.of_nat (length (domains r))) /\ in_u 32 (Z.of_nat (length (heap (scheduler r)))) /\
  Forall (fun e => delivery_fits (delivery (payload e))) (heap (scheduler r)) /\
  Forall (fun b => snapshot_fits b /\ in_u 32 (Z.of_nat (length (component_snapshot b)))) (components r).

Definition decoded_of (r : Runtime) : Decoded :=
  let s := Scheduler.snapshot (scheduler r) in
  mkDecoded (seed (config r)) (ticks_per_second (clock r)) (max_events_per_phase (scheduler_config (config r)))
    CONTRACTS_VERSION (domain_tuple <$> domains r) (topology_hash r) (snap_last_dispatched s)
    (snap_dispatched_in_phase s) (snap_next_sequence s) (execution_digest r) (event_of <$> snap_queue s)
    (Rng.state <$> rngs r) (entries (components r)).

Lemma reads_raw_n n bs : length bs = n -> reads (rd (get_raw n)) bs bs.
Proof. intros <-. apply reads_raw. Qed.

Lemma bind_fmap {A A' : Type} (f : A -> A') (w : A' -> list Z) (l : list A) : l ≫= w ∘ f = (f <$> l) ≫= w.
Proof. induction l as [|x l IH]; [reflexivity |]. cbn. f_equal. exact IH. Qed.

Lemma event_of_ok slots e : queued_ok slots e -> event_ok (event_of e).
Proof. intros ((Hs & Ht & _) & Hd & Hk). split; [exact Hk |]. split; [exact Hs |]. split; [exact Ht | exact Hd]. Qed.

Lemma snapshot_counts (s : Scheduler Pending) :
  sched_ok s -> in_u 64 (dispatched_in_phase s) /\ in_u 64 (Scheduler.next_sequence s).
Proof.
  intros (Hn & _ & Hc & _ & _ & Hl). split; [|exact Hn]. unfold in_u in *. destruct (last_dispatched s); lia.
Qed.

Lemma entries_length (cs : list B) : length (entries cs) = length cs.
Proof. apply length_imap. Qed.

Lemma reads_decode (r : Runtime) :
  core_ok (core r) -> lifecycle r <> Faulted -> encodable r -> reads decode_body (encode r) (decoded_of r).
Proof.
  intros ((Hn & Hseed & Hth & _) & (Hs & Hlast & Hq) & Hcfg & Hc & Hgl & Hg & (_ & Hdl & _) & _) Hlive (Hd & Hh & Hf & Hb).
  cbn in Hn, Hseed, Hth, Hs, Hlast, Hq, Hcfg, Hc, Hgl, Hg, Hdl.
  destruct (snapshot_counts _ Hs) as [Hip Hns]. pose proof Hs as (_ & Hmax & _). rewrite Hcfg in Hmax.
  unfold decode_body, encode, decoded_of. cbn zeta.
  eapply reads_bind; [apply reads_magic |]. eapply reads_bind; [apply reads_u32; const_range |].
  eapply reads_then; [apply reads_ret |].
  eapply reads_bind; [apply reads_u64, Hseed |]. eapply reads_bind; [apply reads_u64, ticks_per_second_range |].
  eapply reads_bind; [apply reads_u64, Hmax |]. eapply reads_bind; [apply reads_str, contracts_version_ascii |].
  eapply reads_bind.
  { rewrite encode_clock_domains_doc, <- (length_fmap domain_tuple). apply reads_seq; [rewrite length_fmap; exact Hd |].
    apply Forall_fmap, Forall_forall. intros d _. pose proof (domain_tuple_range d) as Hr. cbn.
    pose proof (reads_domain (domain_tuple d)) as Hrd. destruct (domain_tuple d) as [[[[? ?] ?] ?] ?]. apply Hrd, Hr. }
  eapply reads_bind; [apply reads_raw_n, Hth |]. eapply reads_bind; [apply reads_last_key, Hlast |].
  eapply reads_bind; [apply reads_u64, Hip |]. eapply reads_bind; [apply reads_u64, Hns |].
  eapply reads_bind; [apply reads_raw_n, Hdl |].
  eapply reads_bind.
  { rewrite bind_fmap, <- (length_fmap event_of). apply reads_seq.
    - rewrite length_fmap. cbn. rewrite sort_by_perm. exact Hh.
    - apply Forall_fmap. cbn. rewrite sort_by_perm. apply Forall_forall. intros e He. rewrite Forall_forall in Hq, Hf.
      apply reads_event; [eapply event_of_ok, Hq, He | apply Hf, He]. }
  eapply reads_bind.
  { rewrite bind_fmap, <- (length_fmap Rng.state). apply reads_seq.
    - rewrite length_fmap, Hgl. unfold in_u. lia.
    - apply Forall_fmap. eapply Forall_impl; [exact Hg |]. intros g [Hw _]. apply reads_words, Hw. }
  eapply reads_last; [|apply reads_ret].
  assert (Hcl : length (components r) = length (slots r)) by (symmetry; apply (Forall2_length _ _ _ Hc)).
  rewrite <- entries_length. apply reads_seq; [rewrite entries_length, Hcl; unfold in_u; lia |].
  apply Forall_lookup_2. intros i e He. unfold entries in He. rewrite list_lookup_imap in He.
  apply fmap_Some in He as (b & Hib & ->). destruct (Forall2_lookup_r _ _ _ _ _ Hc Hib) as (slot & _ & _ & _ & Hbok).
  pose proof (Forall_lookup_1 _ _ _ _ Hb Hib) as [Hfit Hlen]. apply (reads_entry (_, _, _)).
  split; [apply lookup_lt_Some in Hib; unfold in_u; lia |]. split; [apply schema_range |]. split; [apply snapshot_bytes; [exact (Hbok Hlive) | exact Hfit] | exact Hlen].
Qed.

Lemma decode_session (r : Runtime) :
  core_ok (core r) -> lifecycle r <> Faulted -> encodable r -> decode (encode r) = ([], Ok (decoded_of r)).
Proof.
  intros Hk Hlive He. pose proof (reads_decode r Hk Hlive He []) as Hr. rewrite app_nil_r in Hr.
  unfold decode. rewrite ST_bind_unfold, Hr. reflexivity.
Qed.

(** ** The checks *)

Lemma schema_mismatch_None (cs : list B) (f : nat -> Z) : forall (cs0 : list B) id,
  Forall2 same_config cs0 cs ->
  schema_mismatch id cs0 (imap (fun i b => (f i, snapshot_schema_version b, component_snapshot b)) cs) = None.
Proof.
  revert f. induction cs as [|b cs IH]; intros f cs0 id Hs; inversion Hs as [|b0 ? cs0' ? Hb Hs']; subst; [reflexivity |].
  cbn. destruct (same_ports _ _ Hb) as (_ & _ & ->). rewrite Z.eqb_refl. cbn. apply (IH (f ∘ S)), Hs'.
Qed.

Lemma out_of_order_false (cs : list B) : forall (f : nat -> Z) id,
  (forall i, f i = id + Z.of_nat i) ->
  out_of_order id (imap (fun i b => (f i, snapshot_schema_version b, component_snapshot b)) cs) = false.
Proof.
  induction cs as [|b cs IH]; intros f id Hf; [reflexivity |]. cbn. rewrite (Hf O), Z.add_0_r, Z.eqb_refl. cbn.
  apply (IH (f ∘ S)). intros i. cbn. rewrite Hf. lia.
Qed.

Lemma restore_components_Ok (cs : list B) : forall (f : nat -> Z) (cs0 : list B),
  Forall2 same_config cs0 cs -> Forall component_ok cs0 -> Forall component_ok cs -> Forall snapshot_fits cs ->
  restore_components cs0 (imap (fun i b => (f i, snapshot_schema_version b, component_snapshot b)) cs) = (cs, Ok tt).
Proof.
  induction cs as [|b cs IH]; intros f cs0 Hs Ha Hc Hf; inversion Hs as [|b0 ? cs0' ? Hb Hs']; subst; [reflexivity |].
  inversion Ha as [|? ? Hb0 Ha']; subst. inversion Hc as [|? ? Hb1 Hc']; subst. inversion Hf as [|? ? Hfb Hf']; subst.
  cbn. rewrite ST_bind_unfold. pose proof (restore_snapshot b0 b Hb0 Hb1 Hb Hfb []) as Hr. rewrite app_nil_r in Hr.
  rewrite Hr. cbn. change (imap _ cs) with (imap (fun i b => ((f ∘ S) i, snapshot_schema_version b, component_snapshot b)) cs).
  rewrite (IH (f ∘ S) cs0') by assumption. reflexivity.
Qed.

Lemma from_states gs : Forall rng_ok gs -> mapM Rng.from_state (Rng.state <$> gs) = Some gs.
Proof.
  induction 1 as [|g gs [_ Hg] _ IH]; [reflexivity |]. cbn. unfold Rng.from_state, Rng.state in *.
  rewrite decide_False by exact Hg. cbn. rewrite IH. destruct g. reflexivity.
Qed.

Lemma check_event_wired (r : Runtime) e : queued_ok (slots r) e -> check_event r (event_of e) = Ok tt.
Proof.
  intros ((_ & _ & slot & Hslot & Hd) & _). unfold check_event. cbn. rewrite Hslot. cbn.
  destruct (delivery (payload e)) as [port msg|token].
  - destruct Hd as (Hsrc & spec & Hsp & Hpr). replace (length (slots r) <=? Z.to_nat (source (payload e)))%nat with false
      by (symmetry; apply Nat.leb_gt; exact Hsrc). rewrite andb_false_r, Hsp. cbn.
    rewrite bool_decide_true by exact Hpr. reflexivity.
  - rewrite Hd, Z.eqb_refl. reflexivity.
Qed.

Lemma check_queue_Ok (r : Runtime) q : Forall (queued_ok (slots r)) q -> check_queue r (event_of <$> q) = Ok q.
Proof.
  induction 1 as [|e q He _ IH]; [reflexivity |]. cbn. rewrite check_event_wired by exact He. cbn.
  change (event_of <$> q) with (event_of <$> q) in IH. rewrite IH. cbn. destruct e as [k [? ? ?]]. reflexivity.
Qed.

(** A session elaborated from the same topology as [r], not yet started or traced. *)
Definition fresh_copy (r0 r : Runtime) : Prop :=
  core_ok (core r0) /\ lifecycle r0 = Elaborated /\ trace r0 = None /\ k_static (core r0) = k_static (core r) /\
  Forall2 same_config (components r0) (components r).

Lemma check_snapshot_Ok (r0 r : Runtime) :
  core_ok (core r) -> encodable r -> fresh_copy r0 r ->
  exists s, check_snapshot r0 (domain_tuple <$> domains r) (decoded_of r) = Ok (s, rngs r) /\ s ≡ scheduler r.
Proof.
  intros (_ & (Hs & Hlast & Hq) & Hcfg & Hc & Hgl & Hg & (_ & _ & Hd3) & _) _ (_ & _ & _ & Hst & Hsame).
  cbn in Hs, Hlast, Hq, Hcfg, Hc, Hgl, Hg, Hd3, Hst. injection Hst as Ecl Edo Esl Epe Eli Eth Ecf.
  unfold check_snapshot, session_mismatch, decoded_of. cbn [d_seed d_ticks_per_second d_max_events_per_phase d_contracts_version
    d_clock_domains d_topology_hash d_components d_rng_states d_last_dispatched d_execution_digest d_queue d_dispatched_in_phase d_next_sequence].
  rewrite Ecf, Ecl, Eth, !Z.eqb_refl, String.eqb_refl, !bool_decide_true by reflexivity. cbn [negb find fst fmap option_fmap option_map].
  unfold entries. rewrite schema_mismatch_None by exact Hsame.
  rewrite length_imap, length_fmap, Hgl, (Forall2_length _ _ _ Hsame), <- (Forall2_length _ _ _ Hc), Nat.eqb_refl. cbn [negb orb].
  rewrite out_of_order_false by (intros; lia). rewrite from_states by exact Hg. cbn [ok_or mbind result_bind].
  assert (Hz : bool_decide (snap_last_dispatched (Scheduler.snapshot (scheduler r)) = None) &&
    negb (bool_decide (execution_digest r = ZERO_DIGEST)) = false).
  { case_bool_decide as Hl; [|reflexivity]. rewrite (Hd3 Hl), bool_decide_true by reflexivity. reflexivity. }
  rewrite Hz. rewrite check_queue_Ok by (rewrite Esl; cbn; rewrite sort_by_perm; exact Hq). cbn [mbind result_bind].
  destruct (snapshot_restores (scheduler r) Hs) as (s & Hr & Heq). rewrite Hcfg in Hr. exists s. split; [|exact Heq].
  change (mkSchedulerSnapshot _ _ _ _) with (Scheduler.snapshot (scheduler r)). rewrite Hr. reflexivity.
Qed.

Lemma restore_encode (r0 r : Runtime) :
  core_ok (core r) -> lifecycle r = Ready -> encodable r -> fresh_copy r0 r ->
  exists r1, restore (encode r) r0 = (r1, Ok tt) /\ core r1 ≡ core r /\ freshly_restored r1 = true /\
    observers r1 = observers r0 /\ observe_points r1 = observe_points r0.
Proof.
  intros Hk Hl He Hfc. destruct (check_snapshot_Ok r0 r Hk He Hfc) as (s & Hs & Heq).
  destruct Hfc as (Hk0 & Hl0 & Htr & Hst & Hsame). pose proof Hst as Hst'. cbn in Hst'. injection Hst' as Ecl Edo Esl Epe Eli Eth Ecf.
  unfold restore. rewrite ST_bind_unfold. unfold require. rewrite Hl0, bool_decide_true by reflexivity.
  rewrite ST_bind_unfold. cbn [st_get]. rewrite Htr. unfold try_restore. rewrite (decode_session r Hk) by (assumption || congruence). cbn [snd].
  rewrite domain_fields_doc by (rewrite Edo; apply He). rewrite Edo, Hs.
  pose proof Hk as (_ & _ & _ & Hc & _ & _ & _ & Hft). pose proof Hk0 as (_ & _ & _ & Hc0 & _ & _ & _ & Hft0).
  cbn in Hc, Hc0, Hft, Hft0.
  change (d_components (decoded_of r)) with (entries (components r)). unfold entries.
  rewrite restore_components_Ok; [| exact Hsame | | |].
  - eexists. split; [reflexivity |]. split; [|split; [reflexivity | split; reflexivity]].
    split; [exact Hst |]. cbn. split_and!; try reflexivity; [exact Heq | congruence |].
    destruct Hft as [->|?], Hft0 as [->|?]; congruence.
  - apply Forall_lookup_2. intros i b Hb. destruct (Forall2_lookup_r _ _ _ _ _ Hc0 Hb) as (? & _ & _ & _ & Hbok).
    apply Hbok. congruence.
  - apply Forall_lookup_2. intros i b Hb. destruct (Forall2_lookup_r _ _ _ _ _ Hc Hb) as (? & _ & _ & _ & Hbok).
    apply Hbok. congruence.
  - destruct He as (_ & _ & _ & Hf). eapply Forall_impl; [exact Hf |]. intros b [? _]. assumption.
Qed.

Lemma encode_proper (r r' : Runtime) : sched_ok (scheduler r) -> core r ≡ core r' -> encode r = encode r'.
Proof.
  intros Hs (Hst & Hc & Hg & Hsch & Hd & _). cbn in Hst, Hc, Hg, Hsch, Hd. injection Hst as Ecl Edo Esl Epe Eli Eth Ecf.
  unfold encode. rewrite (snapshot_proper _ _ Hs Hsch), Ecl, Edo, Eth, Ecf, Hc, Hg, Hd. reflexivity.
Qed.

Lemma ready_snapshot (q : Runtime) : lifecycle q = Ready -> snapshot q = (q, Ok (encode q)).
Proof. intros Hq. unfold snapshot. rewrite ST_bind_unfold. unfold require. rewrite Hq, bool_decide_true by reflexivity. reflexivity. Qed.

Lemma saved_resumes (r r0 : Runtime) :
  core_ok (core r) -> lifecycle r = Ready -> encodable r -> fresh_copy r0 r ->
  exists bytes r1,
    snapshot r = (r, Ok bytes) /\ restore bytes r0 = (r1, Ok tt) /\ core r1 ≡ core r /\
    snapshot r1 = (r1, Ok bytes) /\
    forall fuel until, Scheduler.now (scheduler r) <= until ->
      run_bound until r < Z.of_nat fuel -> run_bound until r1 < Z.of_nat fuel ->
      core (fst (run_until fuel until r1)) ≡ core (fst (run_until fuel until r)) /\
      snd (run_until fuel until r1) = snd (run_until fuel until r).
Proof.
  intros Hk Hl He Hfc. destruct (restore_encode r0 r Hk Hl He Hfc) as (r1 & Hr & Hcore & _).
  assert (Hl1 : lifecycle r1 = Ready) by (etransitivity; [apply Hcore | exact Hl]).
  pose proof (core_ok_proper _ _ (symmetry Hcore) Hk) as Hk1. pose proof Hk1 as (_ & (Hs1 & _) & _).
  exists (encode r), r1. split; [apply ready_snapshot, Hl |]. split; [exact Hr |]. split; [exact Hcore |].
  split; [rewrite ready_snapshot by exact Hl1; do 2 f_equal; apply encode_proper; assumption |].
  intros fuel until Hnow Hb Hb1.
  assert (Hn1 : Scheduler.now (scheduler r1) <= until) by (rewrite (now_proper (scheduler r1) (scheduler r)); [exact Hnow | apply Hcore]).
  destruct (transparent_runs [] r1 r fuel until Hk1 Hcore Hl1 Hl1 Hn1 Hb1 Hb) as [Hc Hres]. split; [exact Hc |].
  cbn [drive fst] in Hres. destruct (snd (run_until fuel until r1)), (snd (run_until fuel until r)); try contradiction.
  - f_equal. lia.
  - f_equal. tauto.
Qed.

(** C4: A snapshot resumes the session it was taken from.  Restored into a session
    elaborated from the same topology, it gives back the simulation exactly (components, random
    streams, queue, cursor, digest): the session is ready, its own snapshot is the same bytes,
    and every later run ends as the original's would, in the same simulation and with the same
    result. *)
Theorem session_snapshot_restore (r r0 : Runtime) :
  core_ok (core r) -> lifecycle r = Ready -> encodable r -> fresh_copy r0 r ->
  exists bytes r1,
    snapshot r = (r, Ok bytes) /\ restore bytes r0 = (r1, Ok tt) /\ core r1 ≡ core r /\
    snapshot r1 = (r1, Ok bytes) /\
    forall fuel until, Scheduler.now (scheduler r) <= until ->
      run_bound until r < Z.of_nat fuel -> run_bound until r1 < Z.of_nat fuel ->
      core (fst (run_until fuel until r1)) ≡ core (fst (run_until fuel until r)) /\
      snd (run_until fuel until r1) = snd (run_until fuel until r).
Proof. exact (saved_resumes r r0). Qed.

(** Whatever bytes it is given, [restore] does not panic; when it fails the session is
    faulted, and from then on refuses to run, to step, to initialize, to restore and to
    snapshot. *)
Theorem restore_fails_closed (bytes : list Z) (r : Runtime) :
  core_ok (core r) -> in_u 32 (Z.of_nat (length (domains r))) -> lifecycle r = Elaborated -> trace r = None ->
  let '(r', res) := restore bytes r in
  ~ panics res /\
  (res = Ok tt /\ lifecycle r' = Ready \/
   exists e, res = Err (Refused (RuntimeError_Restore e)) /\ lifecycle r' = Faulted /\
     let refused A := @Err Stopped A (Refused (RuntimeError_InvalidState Faulted)) in
     init r' = (r', refused unit) /\ step r' = (r', refused _) /\
     (forall fuel until, run fuel until r' = (r', refused _)) /\ snapshot r' = (r', refused _) /\
     forall bytes', restore bytes' r' = (r', refused _)).
Proof.
  intros Hk Hd Hl Ht. unfold restore at 1. rewrite ST_bind_unfold. unfold require at 1.
  rewrite Hl, bool_decide_true by reflexivity. rewrite ST_bind_unfold. cbn [st_get]. rewrite Ht.
  assert (Hf : fault r = None).
  { destruct Hk as (_ & _ & _ & _ & _ & _ & _ & [Hf|Hf]); [exact Hf | cbn in Hf; congruence]. }
  assert (Htry : match try_restore bytes r with
    | (_, Ok _) => True
    | (r', Err (inl e)) => fault r' = None
    | (_, Err (inr _)) => False end).
  { unfold try_restore. rewrite domain_fields_doc by exact Hd.
    destruct (snd (decode bytes)) as [snap|e]; [|exact Hf].
    destruct (check_snapshot _ _ _) as [[s gs]|e]; [|exact Hf].
    destruct (restore_components _ _) as [cs [[]|e]]; [exact I | exact Hf]. }
  destruct (try_restore bytes r) as [r1 [[]|[e|w]]]; [| |contradiction].
  { split; [intros [w E]; discriminate | left; split; reflexivity]. }
  unfold fail_restore, refuse, st_fail. split; [intros [w E]; discriminate |]. right. exists e.
  split; [reflexivity |]. split; [reflexivity |]. cbn zeta.
  set (r' := set_lifecycle Faulted r1).
  assert (Hreq : forall l, l <> Faulted -> require l r' = (r', Err (Refused (RuntimeError_InvalidState Faulted)))).
  { intros l Hne. unfold require. cbn. rewrite Htry, bool_decide_false by congruence. reflexivity. }
  split_and!; [unfold init | unfold step | intros; unfold run | unfold snapshot | intros; unfold restore];
    rewrite ST_bind_unfold, Hreq by discriminate; reflexivity.
Qed.
End roundtrip.

(** * Resuming an elaborated session

    Whatever is done with an elaborated session, its components stay those of the topology, so
    that a snapshot taken at any time resumes it in a session elaborated again. *)

Import Topology TopologyProofs.

Section evolution.
Context `{EventOrder, Clocks, Protocols, Blake3, SnapshotCodec, !Canonical}.
Context {B : Type} `{!Component B, !UniformComponent B, !TypedComponent B}.

Local Abbreviation Core := (Core (B := B)).

(** [k'] has the topology and the configurations of [k]. *)
Definition evolves (k k' : Core) : Prop :=
  k_static k' = k_static k /\ Forall2 same_config (k_components k) (k_components k').

Lemma evolves_refl (k : Core) : evolves k k.
Proof. split; [reflexivity |]. apply Forall_Forall2_diag, Forall_true. reflexivity. Qed.

#[export] Instance evolves_preorder : PreOrder evolves.
Proof.
  split; [exact evolves_refl |].
  - intros k1 k2 k3 [E1 F1] [E2 F2]. split; [congruence |]. etransitivity; eassumption.
Qed.

Lemma evolves_proper (k k1 k2 : Core) : k1 ≡ k2 -> evolves k k1 -> evolves k k2.
Proof. intros (Hst & Hc & _) [E F]. split; congruence. Qed.

Lemma same_insert (cs : list B) i b b' : cs !! i = Some b -> same_config b b' -> Forall2 same_config cs (<[i := b']> cs).
Proof.
  intros Hb Hs. apply Forall2_same_length_lookup. split; [rewrite length_insert; reflexivity |]. intros j x y Hx Hy.
  destruct (decide (i = j)) as [->|Hne].
  - rewrite list_lookup_insert_eq in Hy by (eapply lookup_lt_Some, Hb). congruence.
  - rewrite list_lookup_insert_ne in Hy by exact Hne. assert (x = y) as -> by congruence. reflexivity.
Qed.

Lemma evolves_call who at_ m (k : Core) :
  core_ok k -> k_lifecycle k <> Faulted -> in_u 32 who -> (Z.to_nat who < length (st_slots (k_static k)))%nat ->
  typed_call m -> evolves k (fst (core_call who at_ m k)).
Proof.
  intros Hok Hlive Hw Hlt Hm. destruct (core_context_ok who at_ k Hok Hlive Hw Hlt) as (b & c & E & Hb & Hbok & Hc).
  pose proof (Hm _ b c (ctx_ok_keeps (st_slots (k_static k)) (k_scheduler k)) Hbok Hc) as Hwp. unfold wp in Hwp.
  assert (Hsame : same_config b (fst (fst (m (b, c))))) by (destruct (m (b, c)) as [[b' c'] [[]|e]]; apply Hwp).
  unfold core_call. rewrite E. destruct (m (b, c)) as [[b' c'] res]. cbn [fst] in Hsame.
  repeat case_goal; (split; [reflexivity | exact (same_insert _ _ b b' Hb Hsame)]).
Qed.

Lemma evolves_dispatch (k : Core) : core_ok k -> k_lifecycle k <> Faulted -> evolves k (fst (core_dispatch k)).
Proof.
  intros Hok Hlive. pose proof (fun s1 e ev => core_popped_ok k s1 e ev Hok) as Hpop. unfold core_dispatch.
  destruct (Scheduler.pop (k_scheduler k)) as [s1 [[e|]|[f|w]]]; cbn [fst core_fault]; [|reflexivity | exact (evolves_refl k) | reflexivity].
  destruct (Hpop s1 e (mkCanonicalEvent (key e) (source (payload e)) (target (payload e)) (delivery (payload e))) eq_refl)
    as [Hk1 ((_ & Htgt & slot & Hslot & _) & Hdel & _)]. set (k1 := mkCore _ _ _ _ _ _ _) in *.
  assert (He : evolves k1 (fst (core_call (target (payload e)) (At_Event (key e)) (component_handle (delivery (payload e)) Ctx) k1))).
  { apply evolves_call; [exact Hk1 | exact Hlive | exact Htgt | eapply lookup_lt_Some, Hslot |].
    intros P b c HP Hb Hcx. apply handle_typed; assumption. }
  destruct (core_call _ _ _ k1) as [k2 [u|e2]]; exact He.
Qed.

Lemma evolves_moves n (k k' : Core) : moves n k k' -> core_ok k -> k_lifecycle k <> Faulted ->
  evolves k k' /\ core_ok k' /\ k_lifecycle k' <> Faulted.
Proof.
  induction 1 as [|n k k1 k2 ev _ IH E]; intros Hok Hlive; [split; [reflexivity | auto] |].
  destruct (IH Hok Hlive) as (He & Hok1 & Hl1). pose proof (evolves_dispatch k1 Hok1 Hl1) as He2.
  destruct (core_dispatch_ok k1 Hok1 Hl1) as (Hok2 & _ & Hl2). rewrite E in He2, Hok2, Hl2. cbn in *.
  split; [etransitivity; eassumption |]. split; [exact Hok2 | rewrite (Hl2 _ eq_refl); exact Hl1].
Qed.

Context {Ob : Type} `{!Observer B Ob}.

Local Abbreviation Runtime := (Runtime (B := B) (Ob := Ob)).

Lemma evolves_init_from n : forall index (r : Runtime),
  core_ok (core r) -> lifecycle r <> Faulted -> 0 <= index -> index + Z.of_nat n <= Z.of_nat (length (slots r)) ->
  evolves (core r) (core (fst (init_from n index r))).
Proof.
  induction n as [|n IH]; intros index r Hk Hlive Hi Hn; cbn [init_from]; [reflexivity |].
  pose proof Hk as ((Hb & _) & _). cbn in Hb.
  assert (Hlt : (Z.to_nat index < length (st_slots (k_static (core r))))%nat) by (cbn; lia).
  assert (Hin : in_u 32 index) by (unfold in_u; lia).
  assert (Hm : typed_call (component_init Ctx)) by (intros P b c HP Hbk Hc; apply init_typed; assumption).
  destruct (core_call_ok index At_Init (component_init Ctx) (core r) Hk Hlive Hin Hlt Hm) as [Hk1 _].
  pose proof (evolves_call index At_Init (component_init Ctx) (core r) Hk Hlive Hin Hlt Hm) as He.
  pose proof (call_alike index At_Init (fun C _ => component_init C) r (core r) init_uniform (reflexivity _)) as [Ha _].
  rewrite ST_bind_unfold. destruct (call_component index At_Init (component_init Ctx) r) as [r1 [[]|e]] eqn:E;
    cbn [fst] in Ha; apply (evolves_proper _ _ _ (symmetry Ha)) in He; [|exact He]. etransitivity; [exact He |].
  apply (IH (index + 1) r1); [apply (core_ok_proper _ _ (symmetry Ha) Hk1) | rewrite (call_lifecycle _ _ _ _ _ E); exact Hlive | lia |].
  destruct He as [Hst _]. cbn in Hst. injection Hst as _ _ Hsl _ _ _ _. rewrite Hsl. lia.
Qed.

Lemma evolves_init (r : Runtime) : core_ok (core r) -> evolves (core r) (core (fst (init r))).
Proof.
  intros Hk. unfold init. rewrite ST_bind_unfold. destruct (require Elaborated r) as [r1 [[]|e]] eqn:E1.
  - apply require_Ok in E1 as [-> Hl]. rewrite ST_bind_unfold. cbn [st_get]. rewrite ST_bind_unfold.
    pose proof (evolves_init_from (length (slots r)) 0 r Hk ltac:(congruence) ltac:(lia) ltac:(lia)) as He.
    destruct (init_from _ 0 r) as [r2 [[]|e]]; exact He.
  - assert (Hr : fst (require Elaborated r) = r) by (unfold require, refuse, st_fail; repeat case_goal; reflexivity).
    rewrite E1 in Hr. cbn in Hr. subst r1. reflexivity.
Qed.

(** A call to a session that is not ready does nothing to its simulation, unless it initializes it. *)
Lemma idle_call (c : Call) (q : Runtime) :
  lifecycle q <> Ready ->
  core (fst (apply_call c q)) = core q /\ (forall w, snd (apply_call c q) <> Err (Panicked w)) \/
  c = Call_init /\ lifecycle q = Elaborated.
Proof.
  intros Hq. assert (Hreq : forall l, lifecycle q <> l -> exists e, require l q = (q, Err (Refused e))).
  { intros l Hl. unfold require, refuse, st_fail. destruct (lifecycle q), (fault q); rewrite ?bool_decide_false by congruence; eauto. }
  destruct (Hreq Ready Hq) as [e Hr].
  assert (Hrun : forall fuel until, run fuel until q = (q, Err (Refused e))) by (intros; unfold run; rewrite ST_bind_unfold, Hr; reflexivity).
  destruct c; cbn [apply_call outcome fst snd].
  - destruct (decide (lifecycle q = Elaborated)) as [El|Hne]; [auto |]. left. destruct (Hreq _ Hne) as [e' He'].
    unfold init. rewrite ST_bind_unfold, He'. split; [reflexivity | discriminate].
  - left. unfold step. rewrite ST_bind_unfold, Hr. split; [reflexivity | discriminate].
  - left. rewrite Hrun. split; [reflexivity | discriminate].
  - left. unfold run_until. destruct fuel; [split; [reflexivity | discriminate] |]. cbn [run_until_loop].
    rewrite ST_bind_unfold, Hrun. split; [reflexivity | discriminate].
  - left. split; [reflexivity | discriminate].
  - left. split; [reflexivity | discriminate].
  - left. unfold start_trace. rewrite ST_bind_unfold. destruct (decide (lifecycle q = Elaborated)) as [El|Hne].
    + unfold require. rewrite El, bool_decide_true by reflexivity. split; [reflexivity | discriminate].
    + destruct (Hreq _ Hne) as [e' ->]. split; [reflexivity | discriminate].
  - left. unfold take_trace. split; [destruct (trace q); reflexivity | discriminate].
  - left. unfold resume_trace. split; [repeat case_goal; reflexivity | discriminate].
Qed.

(** In a faulted session nothing moves again, and no call panics. *)
Lemma idle_drive (calls : list Call) : forall q : Runtime,
  lifecycle q = Faulted -> core (fst (drive calls q)) = core q /\ Forall (fun a => ~ panics a) (snd (drive calls q)).
Proof.
  induction calls as [|c calls IH]; intros q Hq; cbn [drive]; [split; [reflexivity | constructor] |].
  destruct (idle_call c q ltac:(congruence)) as [[Hc Hn]|[_ E]]; [|congruence].
  destruct (apply_call c q) as [q1 a]. cbn [fst snd] in *.
  destruct (IH q1) as [Hc1 Hn1]; [change (k_lifecycle (core q1) = Faulted); rewrite Hc; exact Hq |].
  destruct (drive calls q1) as [q2 rest]. split; [etransitivity; eassumption |].
  constructor; [intros [w E]; exact (Hn w E) | exact Hn1].
Qed.

(** A call keeps the topology and the configurations, unless the session faults. *)
Lemma evolves_apply (c : Call) (q : Runtime) :
  core_ok (core q) -> lifecycle (fst (apply_call c q)) <> Faulted -> evolves (core q) (core (fst (apply_call c q))).
Proof.
  intros Hk Hq. destruct (decide (lifecycle q = Ready)) as [Hl|Hne].
  - destruct (progress_call c (core q) q Hk (reflexivity _) Hl) as [(n & k' & Hm & Hc)|[Hf _]]; [|contradiction].
    destruct (evolves_moves n _ _ Hm Hk) as [He _]; [cbn; congruence |]. exact (evolves_proper _ _ _ (symmetry Hc) He).
  - destruct (idle_call c q Hne) as [[-> _]|[-> _]]; [reflexivity | apply evolves_init, Hk].
Qed.
End evolution.

Section resume.
Context `{EventOrder, Clocks, Protocols, Blake3, SnapshotCodec, !Canonical, !DomainCodec}.
Context {B Ob : Type} `{!Component B, !UniformComponent B, !TypedComponent B, !PersistentComponent B, !Observer B Ob}.

Local Abbreviation Runtime := (Runtime (B := B) (Ob := Ob)).

Lemma elaborated_fresh (t : TopologyBuilder) config (r : Runtime) :
  elaborate t config = Ok r -> lifecycle r = Elaborated /\ trace r = None /\ domains r = t_domains t.
Proof.
  unfold elaborate. destruct (elaborate_slots _ _) as [ss|]; [|discriminate]. cbn [mbind result_bind].
  destruct (elaborate_links _ _ _ _) as [[ls ps]|]; [|discriminate]. cbn [mbind result_bind].
  destruct (unconnected _ _); [discriminate |]. destruct (mapM _ ps) as [ps'|]; [|discriminate]. cbn [ok_or mbind result_bind].
  unfold from_elaboration. destruct (mapM _ _) as [gs|]; [|discriminate]. cbn. intros [= <-]. auto.
Qed.

(** The sessions a driver can make of a session [r] it has built: [r] itself, after any of the
    driver's calls, and after a [restore] of the snapshot of any of them, by any of them.  Bytes
    that are no such snapshot end a session or are refused ([restore_settles]), or are those of a
    state no session has, which [restore] does not always detect ([Scheduler]). *)
Inductive driven (r : Runtime) : Runtime -> Prop :=
| driven_built : driven r r
| driven_call q c : driven r q -> driven r (fst (apply_call c q))
| driven_restore q0 q bytes :
    driven r q0 -> driven r q -> encodable q -> snapshot q = (q, Ok bytes) -> driven r (fst (restore bytes q0)).

Lemma driven_drive (r : Runtime) (calls : list Call) : forall q, driven r q -> driven r (fst (drive calls q)).
Proof.
  induction calls as [|c calls IH]; intros q Hq; [exact Hq |]. cbn [drive]. pose proof (IH _ (driven_call r q c Hq)) as Hn.
  destruct (apply_call c q) as [q1 a]. cbn [fst] in Hn. destruct (drive calls q1). exact Hn.
Qed.

(** Of any bytes, [restore] makes a ready session, or refuses and changes nothing, or leaves a
    session in which nothing moves again, and never panics. *)
Definition restore_settles (bytes : list Z) (q : Runtime) : Prop :=
  let '(q', res) := restore bytes q in
  ~ panics res /\
  (res = Ok tt /\ lifecycle q' = Ready \/
   (exists e, res = Err (Refused e)) /\ (q' = q \/
     lifecycle q' = Faulted /\ forall calls, core (fst (drive calls q')) = core q' /\ Forall (fun a => ~ panics a) (snd (drive calls q')))).

Lemma refused_or_required l (q : Runtime) :
  require l q = (q, Ok tt) /\ lifecycle q = l \/ exists e, require l q = (q, Err (Refused e)).
Proof.
  unfold require, refuse, st_fail. destruct (lifecycle q), (fault q); try case_bool_decide; subst; eauto.
Qed.

Lemma restore_settled (bytes : list Z) (q : Runtime) :
  core_ok (core q) -> (lifecycle q = Elaborated -> in_u 32 (Z.of_nat (length (domains q)))) -> restore_settles bytes q.
Proof.
  intros Hk Hd. unfold restore_settles. destruct (decide (lifecycle q = Elaborated)) as [Hl|Hne].
  - destruct (trace q) as [tr|] eqn:Ht.
    + unfold restore. rewrite ST_bind_unfold. destruct (refused_or_required Elaborated q) as [[-> _]|[e ->]].
      * rewrite ST_bind_unfold. cbn [st_get]. rewrite Ht. split; [intros [w E]; discriminate |]. right. eauto.
      * split; [intros [w E]; discriminate |]. right. eauto.
    + pose proof (restore_fails_closed bytes q Hk (Hd Hl) Hl Ht) as Hr. destruct (restore bytes q) as [q' res].
      destruct Hr as [Hn [Hr|(e & -> & Hf & _)]]; (split; [exact Hn |]); [left; exact Hr |].
      right. split; [eauto |]. right. split; [exact Hf |]. intros calls. apply idle_drive, Hf.
  - unfold restore. rewrite ST_bind_unfold. destruct (refused_or_required Elaborated q) as [[_ E]|[e ->]]; [contradiction |].
    split; [intros [w E]; discriminate |]. right. eauto.
Qed.

Lemma snapshot_inv (q : Runtime) bytes : snapshot q = (q, Ok bytes) -> lifecycle q = Ready /\ bytes = encode q.
Proof.
  unfold snapshot. rewrite ST_bind_unfold. destruct (refused_or_required Ready q) as [[-> Hl]|[e ->]]; [|discriminate].
  rewrite ST_bind_unfold. cbn. intros [= <-]. auto.
Qed.

Lemma evolves_copy (r q0 q : Runtime) :
  core_ok (core q0) -> lifecycle q0 = Elaborated -> trace q0 = None ->
  evolves (core r) (core q0) -> evolves (core r) (core q) -> fresh_copy q0 q.
Proof.
  intros Hk Hl Ht [E0 F0] [E F]. split_and!; [exact Hk | exact Hl | exact Ht | congruence |].
  cbn in *. etransitivity; [symmetry; exact F0 | exact F].
Qed.

(** What a restore of a snapshot of one of its sessions does to another. *)
Lemma restore_driven (r q0 q : Runtime) bytes :
  core_ok (core q0) -> core_ok (core q) -> encodable q -> snapshot q = (q, Ok bytes) ->
  (lifecycle q0 <> Faulted -> evolves (core r) (core q0)) -> evolves (core r) (core q) ->
  fst (restore bytes q0) = q0 \/ core (fst (restore bytes q0)) ≡ core q.
Proof.
  intros Hk0 Hk Henc Hs He0 He. apply snapshot_inv in Hs as [Hl ->].
  destruct (decide (lifecycle q0 = Elaborated /\ trace q0 = None)) as [[Hl0 Ht]|Hne].
  - right. destruct (restore_encode q0 q Hk Hl Henc) as (q1 & -> & Hc & _); [|exact Hc].
    apply (evolves_copy r); [exact Hk0 | exact Hl0 | exact Ht | apply He0; congruence | exact He].
  - left. unfold restore. rewrite ST_bind_unfold. destruct (refused_or_required Elaborated q0) as [[-> Hl0]|[e ->]]; [|reflexivity].
    rewrite ST_bind_unfold. cbn [st_get]. destruct (trace q0); [reflexivity | tauto].
Qed.

(** The invariant of the sessions of [r]. *)
Lemma driven_keeps (r q : Runtime) : core_ok (core r) -> driven r q ->
  core_ok (core q) /\ (lifecycle q <> Faulted -> evolves (core r) (core q)).
Proof.
  intros Hr. induction 1 as [|q c _ [Hk He]|q0 q bytes _ [Hk0 He0] _ [Hk He] Henc Hs].
  - split; [exact Hr | reflexivity].
  - split; [apply settled_call, Hk |]. intros Hl. destruct (decide (lifecycle q = Faulted)) as [Hf|Hne].
    + destruct (idle_call c q ltac:(congruence)) as [[Hc _]|[_ E]]; [|congruence]. exfalso. apply Hl.
      change (k_lifecycle (core (fst (apply_call c q))) = Faulted). rewrite Hc. exact Hf.
    + etransitivity; [exact (He Hne) | exact (evolves_apply c q Hk Hl)].
  - pose proof (proj1 (snapshot_inv q bytes Hs)) as Hl.
    destruct (restore_driven r q0 q bytes Hk0 Hk Henc Hs He0 (He ltac:(congruence))) as [->|Hc]; [auto |].
    split; [exact (core_ok_proper _ _ (symmetry Hc) Hk) |]. intros _. exact (evolves_proper _ _ _ (symmetry Hc) (He ltac:(congruence))).
Qed.

(** A session of [r], saved, is resumed by [r]. *)
Lemma driven_resumes (r q : Runtime) :
  core_ok (core r) -> lifecycle r = Elaborated -> trace r = None -> driven r q -> lifecycle q = Ready -> encodable q ->
  exists bytes q1,
    snapshot q = (q, Ok bytes) /\ restore bytes r = (q1, Ok tt) /\ core q1 ≡ core q /\
    snapshot q1 = (q1, Ok bytes) /\
    forall fuel until, Scheduler.now (scheduler q) <= until ->
      run_bound until q < Z.of_nat fuel -> run_bound until q1 < Z.of_nat fuel ->
      core (fst (run_until fuel until q1)) ≡ core (fst (run_until fuel until q)) /\
      snd (run_until fuel until q1) = snd (run_until fuel until q).
Proof.
  intros Hr Hl Ht Hq Hlq Henc. destruct (driven_keeps r q Hr Hq) as [Hk He].
  apply saved_resumes; [exact Hk | exact Hlq | exact Henc |].
  apply (evolves_copy r); [exact Hr | exact Hl | exact Ht | reflexivity | apply He; congruence].
Qed.

Lemma elaborated_driven (t : TopologyBuilder) config (r q : Runtime) :
  builder_ok t -> in_u 32 (Z.of_nat (length (t_domains t))) -> config_ok config ->
  Forall (fun d => component_ok (declared d)) (t_components t) ->
  elaborate t config = Ok r -> driven r q ->
  core_ok (core q) /\ (forall c, ~ panics (snd (apply_call c q))) /\ forall bytes, restore_settles bytes q.
Proof.
  intros Hb Hd Hcfg Hcomp E Hq. pose proof (elaborated_ok t config r Hb Hcfg Hcomp E) as Hr.
  destruct (driven_keeps r q Hr Hq) as [Hk He]. split; [exact Hk |]. split; [intros c; apply settled_call, Hk |].
  intros bytes. apply restore_settled; [exact Hk |]. intros Hl. destruct (He ltac:(congruence)) as [Hst _].
  cbn in Hst. injection Hst as _ -> _ _ _ _ _. rewrite (proj2 (proj2 (elaborated_fresh t config r E))). exact Hd.
Qed.

End resume.
