(* ===== verification/RuntimeExamples.v ===== *)
(** The hypotheses of the session theorems hold: a small M0 session, elaborated from the toy
    CPU and memory, on concrete instances of every class the runtime is parametric in.

    The instances implement the documents with simple functions (an order of keys, a
    picosecond clock, little-endian encodings, a checksum for a hash); nothing but the
    witnesses depends on them. *)
From stdpp Require Import base numbers list option strings gmap.
From Stdlib Require Import ZArith Lia.
From S2P Require Import Reference ReferenceProofs.
From S2P Require Text Export Json ExportProofs.
From S2P Require Import Prelude Contracts Handlers Snapshots Platform Session Components ToyMemory ToyCpu Scheduler Trace Rng Runtime RuntimeProofs RuntimeInvariant Topology TopologyProofs RuntimeSnapshot.

Local Open Scope string_scope.
Local Open Scope list_scope.
Local Open Scope Z_scope.

#[local] Existing Instance lexicographic_order.

(** * Clocks, protocols, hashes *)

Definition tick_at (t : Z) : result TimeError Z := if bool_decide (in_u 64 t) then Ok t else Err TimeOverflow.

Lemma tick_at_range t t' : tick_at t = Ok t' -> in_u 64 t'.
Proof. unfold tick_at. case_bool_decide; [intros [= <-]; assumption | discriminate]. Qed.

Definition domain_fields_of (id : Z) : Z * Z * Z * Z * Z := (wrap 32 id, 3000000000, 1, 0, 0).

Lemma domain_fields_range id : let '(id, num, den, offset, rounding) := domain_fields_of id in
  in_u 32 id /\ in_u 64 num /\ in_u 64 den /\ in_u 64 offset /\ 0 <= rounding <= 1.
Proof.
  split; [apply (Z.mod_pos_bound id (2 ^ 32)); lia |].
  split; [const_range |]. split; [const_range |]. split; [const_range | lia].
Qed.

Lemma frequency_range : in_u 64 (10 ^ 12).
Proof. const_range. Qed.

#[local] Instance picoseconds : Clocks := {
  SimulationClock := unit;
  ClockDomain := Z;
  ticks_per_second _ := 10 ^ 12;
  clock_after _ now d := tick_at (now + d / 1000);
  cycles_after _ now k := tick_at (now + 333 * k);
  new_domain _ id _ _ _ := Ok id;
  domain_tuple := domain_fields_of;
  ticks_per_second_range _ := frequency_range;
  clock_after_range _ now d t _ := tick_at_range _ t;
  cycles_after_range _ now k t _ := tick_at_range _ t;
  domain_tuple_range := domain_fields_range;
}.

#[local] Instance message_protocols : Protocols := {
  protocol m :=
    match m with
    | Message_Mem _ => mem_v0_PROTOCOL | Message_MemV1 _ => mem_v1_PROTOCOL
    | Message_Irq _ => irq_v0_PROTOCOL | Message_Block _ => block_v0_PROTOCOL
    end;
  protocol_mem_v0 _ := eq_refl; protocol_mem_v1 _ := eq_refl; protocol_irq _ := eq_refl;
  protocol_block _ := eq_refl;
}.

Definition checksum_bytes (seed : Z) (bs : list Z) : list Z :=
  to_le 32 (foldl (fun h b => (h * 31 + b + 1) mod 2 ^ 256) seed bs).

#[local, refine] Instance checksum_hash : Blake3 := {
  hash := checksum_bytes 7;
  derive_key ctx bs := checksum_bytes (Z.of_nat (String.length ctx)) bs;
}.
Proof.
  - intros bs. split; [apply to_le_ok | apply length_to_le].
  - intros ctx bs. apply to_le_ok.
Defined.

(** * Encodings *)

Section encodings.
Context `{SnapshotCodec, !MemCodec}.

Local Abbreviation R := (ST (list Z) RestoreError).

Definition run_reader {A} (m : R A) (bs : list Z) : result decode_error (A * list Z) :=
  match m bs with
  | (rest, Ok a) => Ok (a, rest)
  | (_, Err (Decode e)) => Err e
  | (_, Err _) => Err (invalid_tag "state" 0)
  end.

Lemma run_reads {A} (m : R A) bs a r : reads m bs a -> run_reader m (bs ++ r) = Ok (a, r).
Proof. intros Hm. unfold run_reader. rewrite Hm. reflexivity. Qed.

Lemma run_yields {A} (m : R A) (Q : A -> Prop) bs a r :
  yields m Q -> bytes_ok bs -> run_reader m bs = Ok (a, r) -> Q a /\ bytes_ok r.
Proof.
  intros Hm Hbs. unfold run_reader. specialize (Hm bs Hbs). unfold wp in Hm.
  destruct (m bs) as [rest [a'|[]]]; try discriminate. intros [= -> ->]. exact Hm.
Qed.

Definition write_mem_v0 (m : MemMsgV0) : list Z :=
  match m with
  | V0_ReadReq txn addr len => put_u8 0 ++ put_u64 txn ++ put_u64 addr ++ put_u32 len
  | V0_ReadResp txn data => put_u8 1 ++ put_u64 txn ++ put_bytes data
  | V0_WriteReq txn addr data => put_u8 2 ++ put_u64 txn ++ put_u64 addr ++ put_bytes data
  | V0_WriteResp txn => put_u8 3 ++ put_u64 txn
  end.

Definition read_mem_v0 : R MemMsgV0 :=
  tag ← rd get_u8;
  txn ← rd get_u64;
  if tag =? 0 then addr ← rd get_u64; len ← rd get_u32; mret (V0_ReadReq txn addr len)
  else if tag =? 1 then data ← rd get_bytes; mret (V0_ReadResp txn data)
  else if tag =? 2 then addr ← rd get_u64; data ← rd get_bytes; mret (V0_WriteReq txn addr data)
  else if tag =? 3 then mret (V0_WriteResp txn)
  else bad_tag "mem message" tag.

Lemma reads_mem_v0 m : mem_v0_ok m -> mem_v0_len_ok m -> reads read_mem_v0 (write_mem_v0 m) m.
Proof. intros Hm Hl. unfold read_mem_v0. destruct m; cbn in *; deconj; repeat reads_next; apply reads_ret. Qed.

Lemma yields_mem_v0 : yields read_mem_v0 (fun m => mem_v0_ok m /\ mem_v0_len_ok m).
Proof. unfold read_mem_v0. do 2 yields_next. yields_tags; repeat yields_next; apply yields_ret; cbn; deconj; auto. Qed.

#[local, refine] Instance le_mem_v0_codec : MemV0Codec := {
  put_mem_v0 := write_mem_v0;
  get_mem_v0 := run_reader read_mem_v0;
}.
Proof.
  - intros m r Hm Hl. apply run_reads, reads_mem_v0; assumption.
  - intros bs m r Hbs E. exact (run_yields _ _ _ _ _ yields_mem_v0 Hbs E).
  - intros m Hm. unfold write_mem_v0. destruct m; cbn in Hm; deconj; eauto 6 with bytes.
Defined.

Definition write_media_error (e : MediaError) : list Z :=
  match e with OutOfRange => put_u8 0 | BadBlock => put_u8 1 end.

Definition read_media_error : R MediaError :=
  tag ← rd get_u8;
  if tag =? 0 then mret OutOfRange else if tag =? 1 then mret BadBlock else bad_tag "media error" tag.

Definition write_block_msg (m : BlockMsg) : list Z :=
  match m with
  | ReadBlock txn lba => put_u8 0 ++ put_u64 txn ++ put_u64 lba
  | WriteBlock txn lba data => put_u8 1 ++ put_u64 txn ++ put_u64 lba ++ put_bytes data
  | ReadResult txn (BlockRead_Data data) => put_u8 2 ++ put_u64 txn ++ put_bytes data
  | ReadResult txn (BlockRead_Error e) => put_u8 3 ++ put_u64 txn ++ write_media_error e
  | WriteResult txn BlockWrite_Done => put_u8 4 ++ put_u64 txn
  | WriteResult txn (BlockWrite_Error e) => put_u8 5 ++ put_u64 txn ++ write_media_error e
  end.

Definition read_block_msg : R BlockMsg :=
  tag ← rd get_u8;
  txn ← rd get_u64;
  if tag =? 0 then lba ← rd get_u64; mret (ReadBlock txn lba)
  else if tag =? 1 then lba ← rd get_u64; data ← rd get_bytes; mret (WriteBlock txn lba data)
  else if tag =? 2 then data ← rd get_bytes; mret (ReadResult txn (BlockRead_Data data))
  else if tag =? 3 then e ← read_media_error; mret (ReadResult txn (BlockRead_Error e))
  else if tag =? 4 then mret (WriteResult txn BlockWrite_Done)
  else if tag =? 5 then e ← read_media_error; mret (WriteResult txn (BlockWrite_Error e))
  else bad_tag "block message" tag.

Lemma reads_media_error e : reads read_media_error (write_media_error e) e.
Proof. unfold read_media_error. destruct e; repeat reads_next; apply reads_ret. Qed.

#[local] Hint Resolve reads_media_error reads_mem_v0 : reads.

Definition write_message (m : Message) : list Z :=
  match m with
  | Message_Mem m => put_u8 0 ++ write_mem_v0 m
  | Message_MemV1 m => put_u8 1 ++ put_mem m
  | Message_Irq (IrqMsg_Level asserted) => put_u8 2 ++ put_bool asserted
  | Message_Block m => put_u8 3 ++ write_block_msg m
  end.

Definition read_message : R Message :=
  tag ← rd get_u8;
  if tag =? 0 then m ← read_mem_v0; mret (Message_Mem m)
  else if tag =? 1 then m ← rd get_mem; mret (Message_MemV1 m)
  else if tag =? 2 then b ← rd get_bool; mret (Message_Irq (IrqMsg_Level b))
  else if tag =? 3 then m ← read_block_msg; mret (Message_Block m)
  else bad_tag "message" tag.

Lemma reads_block_msg m : block_msg_ok m -> message_fits (Message_Block m) -> reads read_block_msg (write_block_msg m) m.
Proof.
  intros Hm Hf. unfold read_block_msg. destruct m as [| |? []|? []]; cbn in *; deconj; repeat reads_next; apply reads_ret.
Qed.

Lemma reads_message m : message_ok m -> message_fits m -> reads read_message (write_message m) m.
Proof.
  intros Hm Hf. unfold read_message. destruct m as [m|m|[b]|m]; cbn [write_message message_ok] in *.
  - reads_next. eapply reads_last; [apply reads_mem_v0; [exact Hm | destruct m; exact Hf] | apply reads_ret].
  - reads_next. eapply reads_last; [apply reads_mem; [exact Hm | destruct m as [|? []| |]; exact Hf] | apply reads_ret].
  - repeat reads_next. apply reads_ret.
  - reads_next. eapply reads_last; [apply reads_block_msg; assumption | apply reads_ret].
Qed.

Definition phase_of (tag : Z) : R Phase :=
  if tag =? 0 then mret Phase_Request else if tag =? 1 then mret Phase_Transfer
  else if tag =? 2 then mret Phase_Complete else if tag =? 3 then mret Phase_Commit
  else if tag =? 4 then mret Phase_Observe else bad_tag "phase" tag.

Definition write_key (k : EventKey) : list Z := put_u64 (tick k) ++ put_u8 (phase_rank (phase k)) ++ put_u64 (sequence k).

Definition read_key : R EventKey :=
  t ← rd get_u64; tag ← rd get_u8; p ← phase_of tag; s ← rd get_u64; mret (mkEventKey t p s).

Lemma reads_key_le k : key_ok k -> reads read_key (write_key k) k.
Proof.
  intros [Ht Hs]. unfold read_key, write_key. destruct k as [t p s]. cbn [tick phase sequence] in *. reads_next.
  destruct p; reads_next; (eapply reads_then; [intros rest; reflexivity |]); reads_next; apply reads_ret.
Qed.

Definition write_delivery (d : Delivered) : list Z :=
  match d with
  | Delivered_Message port msg => put_u8 0 ++ put_u16 port ++ write_message msg
  | Delivered_Wake token => put_u8 1 ++ put_u64 token
  end.

Definition read_delivery : R Delivered :=
  tag ← rd get_u8;
  if tag =? 0 then port ← rd get_u16; msg ← read_message; mret (Delivered_Message port msg)
  else if tag =? 1 then token ← rd get_u64; mret (Delivered_Wake token)
  else bad_tag "delivery" tag.

Lemma reads_delivery d : delivery_ok d -> delivery_fits d -> reads read_delivery (write_delivery d) d.
Proof.
  intros Hd Hf. unfold read_delivery. destruct d as [port msg|token]; cbn in *; deconj; repeat reads_next.
  - eapply reads_last; [apply reads_message; assumption | apply reads_ret].
  - apply reads_ret.
Qed.

Definition write_event (ev : CanonicalEvent) : list Z :=
  write_key (ev_key ev) ++ put_u32 (ev_source ev) ++ put_u32 (ev_target ev) ++ write_delivery (ev_delivery ev).

Definition read_event : R CanonicalEvent :=
  k ← read_key; s ← rd get_u32; t ← rd get_u32; d ← read_delivery; mret (mkCanonicalEvent k s t d).

Lemma reads_event_le ev : event_ok ev -> delivery_fits (ev_delivery ev) -> reads read_event (write_event ev) ev.
Proof.
  intros (Hk & Hs & Ht & Hd) Hf. unfold read_event, write_event. destruct ev. cbn in *.
  eapply reads_bind; [apply reads_key_le, Hk |]. do 2 reads_next.
  eapply reads_last; [apply reads_delivery; assumption | apply reads_ret].
Qed.

Definition topology_bytes (cs : list ComponentDecl) (ls : list LinkDecl) : list Z :=
  (cs ≫= fun c => as_bytes (decl_path c ++ decl_type_name c)) ++
  (ls ≫= fun l => [fst (link_a l); snd (link_a l); fst (link_b l); snd (link_b l)]).

#[local, refine] Instance le_canonical : Canonical := {
  CONTRACTS_VERSION := "0.1.0";
  encode_topology := topology_bytes;
  put_key := write_key;
  get_key := run_reader read_key;
  put_event := write_event;
  get_event := run_reader read_event;
  trailing_bytes := invalid_tag "trailing bytes" 0;
}.
Proof.
  - apply (bool_decide_unpack _). vm_compute. exact I.
  - intros k r Hk. apply run_reads, reads_key_le, Hk.
  - intros ev r Hev Hf. apply run_reads, reads_event_le; assumption.
Defined.

End encodings.

#[local] Existing Instance le_codec.
#[local] Existing Instance le_mem_codec.
#[local] Existing Instance le_mem_v0_codec.
#[local] Existing Instance le_canonical.

#[local] Instance le_domains : DomainCodec := {
  encode_clock_domains ds := put_len (Z.of_nat (length ds)) ++ ((domain_tuple <$> ds) ≫= put_domain);
  encode_clock_domains_doc _ := eq_refl;
}.

(** Rejection sampling ([docs/m0-design.md] §5.2), giving up after 64 rejections. *)
Fixpoint sample (fuel : nat) (n : Z) {C} `{SimContext C} (c : C) : C * Z :=
  match fuel with
  | O => (c, 0)
  | S fuel =>
      let '(c, x) := ctx_next_u64 c in
      if (2 ^ 64 - n) mod n <=? x then (c, x mod n) else sample fuel n c
  end.

#[local, refine] Instance rejection : SimRng := {
  below n C _ c := sample 64 n c;
  chance num den C _ c := (fst (sample 64 den c), snd (sample 64 den c) <? num);
}.
Proof.
  - intros n C HC c Hn. generalize 64%nat as fuel. intros fuel. revert c.
    induction fuel as [|fuel IH]; intros c; cbn; [lia |]. destruct (ctx_next_u64 c) as [c' x].
    destruct (_ <=? x); [apply Z.mod_pos_bound, Hn | apply IH].
  - intros n C D HC HD R c d HR Hr. revert c d Hr. generalize 64%nat as fuel.
    induction fuel as [|fuel IH]; intros c d Hr; cbn; [auto |].
    destruct (rel_next_u64 _ HR c d Hr) as [Hr' Hx]. destruct (ctx_next_u64 c), (ctx_next_u64 d). cbn in *. subst.
    destruct (_ <=? _); auto.
  - intros n C HC P c HP Hc. revert c Hc. generalize 64%nat as fuel.
    induction fuel as [|fuel IH]; intros c Hc; cbn; [exact Hc |]. pose proof (HP c Hc) as Hk.
    destruct (ctx_next_u64 c). destruct (_ <=? _); auto.
  - reflexivity.
Defined.

(** * A session *)

(** An observer that counts the events and asks for a pause at the second. *)
#[local] Instance counting : Observer (ToyCpu + ToyMemory) Z := {
  on_after_dispatch _ _ _ n := (n + 1, if n + 1 =? 2 then Control_Pause else Control_Continue);
  on_observe _ _ _ n := (n + 100, Control_Continue);
  on_trace _ n := n;
}.

(** One that never does anything. *)
#[local] Instance silent : Observer (ToyCpu + ToyMemory) unit := {
  on_after_dispatch _ _ _ o := (o, Control_Continue);
  on_observe _ _ _ o := (o, Control_Continue);
  on_trace _ o := o;
}.

Definition example_cpu : ToyCpu := ToyCpu.new (mkToyCpuConfig 0 6 2 4 8 4 50).

Definition example_memory (size : Z) : ToyMemory := ToyMemory.new (mkToyMemoryConfig size 50000000 30000000).

(** The CPU and the memory, on a link of 1 ns. *)
Definition example_topology (size : Z) : TopologyBuilder (B := ToyCpu + ToyMemory) :=
  let t := Topology.new tt in
  let t := fst (add_clock (mkFrequency 3000000000 1) 0 Rounding_Floor t) in
  let t := fst (add_component "soc.cpu0" (inl example_cpu) t) in
  let t := fst (add_component "soc.mem" (inr (example_memory size)) t) in
  connect (0, "mem") (1, "mem") (Some (Latency_After 1000000)) t.

Definition example_config : SessionConfig := mkSessionConfig 42 (mkSchedulerConfig 100).

Definition blank_runtime {Ob} : Runtime (B := ToyCpu + ToyMemory) (Ob := Ob) :=
  mkRuntime tt [] [] [] [] [] [] [] example_config (Scheduler.new (mkSchedulerConfig 0)) [] Elaborated None false None [] [] [].

Definition example_session {Ob} (size : Z) : Runtime (B := ToyCpu + ToyMemory) (Ob := Ob) :=
  match elaborate (example_topology size) example_config with Ok r => r | Err _ => blank_runtime end.

Definition accepted {E A} (x : result E A) : bool := match x with Ok _ => true | Err _ => false end.

Lemma example_elaborated {Ob} size :
  accepted (elaborate (B := ToyCpu + ToyMemory) (Ob := Ob) (example_topology size) example_config) = true ->
  elaborate (B := ToyCpu + ToyMemory) (Ob := Ob) (example_topology size) example_config = Ok (example_session size).
Proof. unfold example_session. destruct (elaborate _ _); [reflexivity | discriminate]. Qed.

Lemma example_accepted {Ob} :
  accepted (elaborate (B := ToyCpu + ToyMemory) (Ob := Ob) (example_topology 32) example_config) = true /\
  accepted (elaborate (B := ToyCpu + ToyMemory) (Ob := Ob) (example_topology 0) example_config) = true.
Proof. split; vm_compute; reflexivity. Qed.

Lemma example_builder_ok size : builder_ok (example_topology size).
Proof.
  split; [reflexivity |]. split; [constructor; [cbn; lia | constructor] |].
  constructor; [reflexivity |]. constructor; [reflexivity | constructor].
Qed.

Lemma example_session_config : TopologyProofs.config_ok example_config.
Proof. split; const_range. Qed.

Lemma example_components_ok size :
  in_u 32 size -> Forall (fun d => component_ok (declared d)) (t_components (example_topology size)).
Proof.
  intros Hs. constructor; [|constructor; [|constructor]].
  - apply toy_cpu_new_ok. apply (bool_decide_unpack _). vm_compute. exact I.
  - apply toy_memory_new_ok, Hs.
Qed.

Lemma example_ok {Ob} `{!Observer (ToyCpu + ToyMemory) Ob} : core_ok (core (example_session (Ob := Ob) 32)).
Proof.
  apply (elaborated_ok (example_topology 32) example_config);
    [apply example_builder_ok | exact example_session_config | apply example_components_ok; const_range |].
  apply example_elaborated, (proj1 (example_accepted (Ob := Ob))).
Qed.

Lemma example_small_ok {Ob} `{!Observer (ToyCpu + ToyMemory) Ob} : core_ok (core (example_session (Ob := Ob) 0)).
Proof.
  apply (elaborated_ok (example_topology 0) example_config);
    [apply example_builder_ok | exact example_session_config | apply example_components_ok; const_range |].
  apply example_elaborated, (proj2 (example_accepted (Ob := Ob))).
Qed.

Lemma driven_ok {Ob} `{!Observer (ToyCpu + ToyMemory) Ob} (calls : list (Call (Ob := Ob)))
    (r : Runtime (B := ToyCpu + ToyMemory) (Ob := Ob)) :
  core_ok (core r) -> core_ok (core (fst (drive calls r))).
Proof. intros Hk. pose proof (drive_ok calls r Hk) as Hd. destruct (drive calls r). apply Hd. Qed.

(** * Witnesses *)

(** The example topology is valid, so elaboration accepts it and wires both ports. *)
Lemma elaborate_exact_witness : topology_ok (example_topology 32).
Proof.
  pose proof (elaborate_exact (Ob := Z) (example_topology 32) example_config (example_builder_ok 32)) as He.
  rewrite (example_elaborated 32 (proj1 example_accepted)) in He. exact (proj1 He).
Defined.

(** The session after [init]. *)
Definition started {Ob} `{!Observer (ToyCpu + ToyMemory) Ob} (size : Z) :
    Runtime (B := ToyCpu + ToyMemory) (Ob := Ob) :=
  fst (drive [Call_init] (example_session (Ob := Ob) size)).

Lemma started_session_ok {Ob} `{!Observer (ToyCpu + ToyMemory) Ob} : core_ok (core (started (Ob := Ob) 32)).
Proof. exact (driven_ok [Call_init] _ example_ok). Qed.

Lemma run_terminates_witness :
  let fuel := Z.to_nat (events_left 200000 (scheduler (started (Ob := Z) 32)) + 1) in
  snd (run fuel 200000 (started (Ob := Z) 32)) <> Err OutOfFuel.
Proof.
  cbv zeta. refine (proj1 (run_terminates _ 200000 (started (Ob := Z) 32) _ _
    (driven_ok [Call_init] _ example_ok) _ (surjective_pairing _))).
  rewrite Z2Nat.id; [lia |]. unfold events_left. lia.
Defined.

(** A memory of no bytes faults on the first request. *)
Definition before_fault : Runtime (B := ToyCpu + ToyMemory) (Ob := Z) := fst (drive [Call_init; Call_step; Call_step] (example_session 0)).

Definition out_of_range : SimError := ComponentFault "toy memory: address out of range".

Lemma before_fault_steps :
  lifecycle before_fault = Ready /\
  match snd (step before_fault) with Err (Refused (RuntimeError_Faulted e)) => e = out_of_range | _ => False end.
Proof. vm_compute. split; reflexivity. Qed.

Lemma fault_is_terminal_witness :
  let q := fst (step before_fault) in
  core (fst (drive [Call_step; Call_run 50 200000; Call_init] q)) = core q.
Proof.
  cbv zeta. destruct before_fault_steps as [Hl Hs].
  assert (E : step before_fault = (fst (step before_fault), Err (Refused (RuntimeError_Faulted out_of_range)))).
  { destruct (step before_fault) as [q [?|[[e| | |]| |]]]; try contradiction. cbn in *. congruence. }
  refine (proj1 (fault_is_terminal [Call_step; Call_run 50 200000; Call_init] before_fault _ _ _ _
    (driven_ok _ _ example_small_ok) Hl E (surjective_pairing _))).
Defined.

(** The counting observer pauses a run, an observe point fires and a trace is recorded: the
    simulation is the one without them. *)
Definition observing : list (Call (Ob := Z)) :=
  [Call_add_observer 0; Call_observe_at 5000; Call_start_trace; Call_step; Call_run 50 200000].

Local Abbreviation observed := (fst (drive observing (started (Ob := Z) 32))).

Lemma observed_ready : lifecycle observed = Ready /\ Scheduler.now (scheduler observed) <= 200000 /\ observers observed = [2].
Proof. vm_compute. split; [reflexivity | split; [discriminate | reflexivity]]. Qed.

Lemma started_ready : lifecycle (started (Ob := Z) 32) = Ready.
Proof. vm_compute. reflexivity. Qed.

Lemma core_ext `{Clocks} {B} (k k' : Core (B := B)) :
  st_clock (k_static k) = st_clock (k_static k') -> st_domains (k_static k) = st_domains (k_static k') ->
  st_slots (k_static k) = st_slots (k_static k') -> st_peers (k_static k) = st_peers (k_static k') ->
  st_links (k_static k) = st_links (k_static k') -> st_topology_hash (k_static k) = st_topology_hash (k_static k') ->
  st_config (k_static k) = st_config (k_static k') -> k_components k = k_components k' -> k_rngs k = k_rngs k' ->
  k_scheduler k = k_scheduler k' -> k_digest k = k_digest k' -> k_lifecycle k = k_lifecycle k' ->
  k_fault k = k_fault k' -> k = k'.
Proof. destruct k as [[]], k' as [[]]. cbn. intros. subst. reflexivity. Qed.

Lemma started_same : core (started (Ob := Z) 32) = core (started (Ob := unit) 32).
Proof. apply core_ext; vm_compute; reflexivity. Qed.

Lemma run_bound_nonneg {Ob} until (r : Runtime (B := ToyCpu + ToyMemory) (Ob := Ob)) : 0 <= run_bound until r.
Proof. unfold run_bound, events_left. lia. Qed.

Lemma observation_transparent_witness :
  let r' := started (Ob := unit) 32 in
  let fuel := Z.to_nat (run_bound 200000 observed + run_bound 200000 r' + 1) in
  core (fst (run_until fuel 200000 observed)) ≡ core (fst (run_until fuel 200000 r')).
Proof.
  cbv zeta. pose proof (run_bound_nonneg 200000 observed) as B1.
  pose proof (run_bound_nonneg 200000 (started (Ob := unit) 32)) as B2.
  destruct observed_ready as (L & N & _). pose proof started_ready as L0. pose proof started_same as E.
  set (fuel := Z.to_nat _).
  assert (F1 : run_bound 200000 observed < Z.of_nat fuel) by (unfold fuel; rewrite Z2Nat.id; lia).
  assert (F2 : run_bound 200000 (started (Ob := unit) 32) < Z.of_nat fuel) by (unfold fuel; rewrite Z2Nat.id; lia).
  clearbody fuel. clear B1 B2. pose proof (started_session_ok (Ob := Z)) as Hk.
  assert (Eq : core (started (Ob := Z) 32) ≡ core (started (Ob := unit) 32)) by (rewrite E; reflexivity).
  exact (proj1 (observation_transparent observing (started (Ob := Z) 32) (started (Ob := unit) 32) fuel 200000
    Hk Eq L0 L N F1 F2)).
Defined.

(** The session in the middle of its run, and a new one to restore into. *)
Definition middle : list (Call (Ob := Z)) := [Call_init; Call_step; Call_run 50 40000].

Local Abbreviation paused := (fst (drive middle (example_session (Ob := Z) 32))).

#[local] Instance message_fits_dec m : Decision (message_fits m).
Proof. destruct m as [[]|[| ? [] | |]|[]|[| |? []|]]; cbn; apply _. Defined.

#[local] Instance delivery_fits_dec d : Decision (delivery_fits d).
Proof. destruct d; cbn; apply _. Defined.

#[local] Instance op_fits_dec op : Decision (op_fits op).
Proof. destruct op; cbn; unfold data_fits; apply _. Defined.

#[local] Instance toy_fits_dec (s : ToyCpu + ToyMemory) : Decision (snapshot_fits s).
Proof.
  destruct s as [u|m]; [|left; exact I]. cbn. unfold toy_cpu_fits, data_fits.
  repeat apply and_dec; try apply _. apply Forall_dec. intros [txn [data|]]; cbn; apply _.
Defined.

Lemma paused_state :
  lifecycle paused = Ready /\ Scheduler.now (scheduler paused) <= 200000 /\
  length (heap (scheduler paused)) = 2%nat.
Proof. vm_compute. split; [reflexivity | split; [discriminate | reflexivity]]. Qed.

Lemma paused_encodable : encodable paused.
Proof. apply (bool_decide_unpack _). vm_compute. exact I. Qed.

Lemma paused_fresh : fresh_copy (example_session (Ob := Z) 32) paused.
Proof.
  split; [exact example_ok |]. split; [vm_compute; reflexivity |]. split; [vm_compute; reflexivity |].
  split; [|vm_compute; repeat constructor].
  assert (Hext : forall st st' : Static,
    st_clock st = st_clock st' -> st_domains st = st_domains st' -> st_slots st = st_slots st' ->
    st_peers st = st_peers st' -> st_links st = st_links st' -> st_topology_hash st = st_topology_hash st' ->
    st_config st = st_config st' -> st = st') by (intros [] []; cbn; intros; subst; reflexivity).
  apply Hext; vm_compute; reflexivity.
Qed.

Lemma session_snapshot_restore_witness :
  exists bytes r1, snapshot paused = (paused, Ok bytes) /\ restore bytes (example_session (Ob := Z) 32) = (r1, Ok tt) /\
    core r1 ≡ core paused.
Proof.
  destruct (session_snapshot_restore paused (example_session 32) (driven_ok middle _ example_ok) (proj1 paused_state)
    paused_encodable paused_fresh) as (bytes & r1 & H1 & H2 & H3 & _).
  exists bytes, r1. auto.
Defined.

(** An elaborated session given an observer, then the snapshot, then driven again. *)
Local Abbreviation rewound :=
  (fst (drive [Call_step; Call_run 50 200000] (fst (restore (encode paused) (fst (drive [Call_add_observer 0] (example_session (Ob := Z) 32))))))).


(** It was restored, and ran on. *)
Example rewound_runs : lifecycle rewound = Ready /\ Scheduler.now (scheduler paused) < Scheduler.now (scheduler rewound).
Proof. vm_compute. split; reflexivity. Qed.

Lemma restore_fails_closed_witness :
  ~ panics (snd (restore [1; 2; 3] (example_session (Ob := Z) 32))).
Proof.
  assert (Hl : lifecycle (example_session (Ob := Z) 32) = Elaborated) by (vm_compute; reflexivity).
  assert (Ht : trace (example_session (Ob := Z) 32) = None) by (vm_compute; reflexivity).
  assert (Hd : in_u 32 (Z.of_nat (length (domains (example_session (Ob := Z) 32))))) by
    (apply (bool_decide_unpack _); vm_compute; exact I).
  pose proof (restore_fails_closed [1; 2; 3] (example_session (Ob := Z) 32) example_ok Hd Hl Ht) as Hr.
  destruct (restore [1; 2; 3] (example_session (Ob := Z) 32)). exact (proj1 Hr).
Defined.

(** * The reference scenario *)

(** Five operations of the CPU and three of the DMA. *)
Definition small_scenario : ReferenceConfig := Reference.mkReferenceConfig 7 5 3.

Lemma small_scenario_ok : scenario_ok small_scenario.
Proof. split_and!; const_range || (cbn; lia). Qed.

(** An observer that counts dispatches and asks for a pause after each. *)
#[local] Instance pausing : Observer Device Z := {
  on_after_dispatch _ _ _ o := (o + 1, Control_Pause);
  on_observe _ _ _ o := (o, Control_Continue);
  on_trace _ o := o;
}.

Definition paused_session : Runtime (B := Device) (Ob := Z) :=
  match build tt small_scenario with Ok r => r | Err _ => mkRuntime tt [] [] [] [] [] [] [] example_config (Scheduler.new (mkSchedulerConfig 0)) [] Elaborated None false None [] [] [] end.

Lemma paused_accepted : accepted (build (Ob := Z) tt small_scenario) = true.
Proof. vm_compute. reflexivity. Qed.

Lemma paused_built : build tt small_scenario = Ok paused_session.
Proof. unfold paused_session. pose proof paused_accepted as Hb. destruct (build _ _); [reflexivity | discriminate Hb]. Qed.


(** * Text views *)

#[local, refine] Instance phase_text : Export.TraceText := {
  Export.TRACE_FORMAT_VERSION := 2;
  Export.phase_name p := match p with
    | Phase_Request => "Request" | Phase_Transfer => "Transfer" | Phase_Complete => "Complete"
    | Phase_Commit => "Commit" | Phase_Observe => "Observe" end;
}.
Proof.
  - intros [] []; (reflexivity || discriminate).
  - intros []; reflexivity.
Defined.

(** Two initiators, each with transaction 1 of its own at one target. *)
Definition dispatched (tick seq target source : Z) (msg : string) : TraceRecord :=
  mkTraceRecord (At_Event (mkEventKey tick Phase_Request seq)) Origin_Runtime target DISPATCH_KIND
    [("source", VU64 source); ("msg", VStr msg); ("txn", VU64 1); ("data", VBytes [0; 255])].

Definition two_initiators : Trace :=
  mkTrace (mkTraceHeader (10 ^ 12) 0 "v" (repeat 7 32) [] [mkComponentDecl "a" "t" []; mkComponentDecl "b" "t" []; mkComponentDecl "mem" "t" []] [])
    [dispatched 1 0 2 0 "ReadReq"; dispatched 2 1 2 1 "WriteReq"; dispatched 3 2 1 2 "WriteResp"; dispatched 4 3 0 2 "ReadResp"].

Lemma two_initiators_bytes : ExportProofs.trace_bytes two_initiators.
Proof. split; repeat constructor; discriminate. Qed.

(** Without its last record, the trace has another text. *)
Lemma jsonl_lossless_witness :
  Export.to_jsonl two_initiators <> Export.to_jsonl (mkTrace (header two_initiators) (take 3 (records two_initiators))).
Proof.
  intros E. apply (ExportProofs.jsonl_lossless two_initiators) in E; [|apply two_initiators_bytes | split; repeat constructor; discriminate].
  destruct E as (_ & _ & _ & _ & _ & _ & _ & E). discriminate E.
Defined.

(** Its slices: both begin, then each ends under its own request's name. *)
Lemma perfetto_well_formed_witness :
  ExportProofs.slices (records two_initiators) ∅ =
    [Export.mkSlice "b" 0 1 "ReadReq"; Export.mkSlice "b" 1 1 "WriteReq"; Export.mkSlice "e" 1 1 "WriteReq"; Export.mkSlice "e" 0 1 "ReadReq"] /\
  exists text events, Export.to_perfetto two_initiators = Ok text /\
    ExportProofs.events_json (10 ^ 12) 0 (records two_initiators) ∅ = Ok events /\
    Json.read_json text = Some (ExportProofs.document (ExportProofs.names_json (hdr_components (header two_initiators)) ++ events)).
Proof. split; [vm_compute; reflexivity |]. apply (ExportProofs.perfetto_well_formed two_initiators). reflexivity. Defined.
