(* ===== verification/Elf.v ===== *)
(** The ELF32 parsers, [elf/src/parse.rs], [lib.rs] and [user.rs],
    with the texts of their errors, [Display] of [error.rs] and [user.rs].

    [load_elf32] places an executable's segments in RAM; [parse_user_elf32] plans the pages
    of a user process.  Proved: an accepted user image loads every byte where the program
    headers say, with zeros after the file bytes; its pages are aligned, in range, in
    strictly ascending order and never shared; an accepted RAM image holds the program's
    bytes in disjoint segments inside the RAM. *)
From stdpp Require Import base numbers list option strings sorting.
From Stdlib Require Import ZArith Lia.
From S2P Require Import Prelude Text.

Local Open Scope list_scope.
Local Open Scope Z_scope.

(** * Headers, [parse.rs] *)

Inductive SegmentError : Set :=
| FileSizeExceedsMemSize
| FileRangeOutsideFile
| AddressMismatch
| AddressOverflow.

Inductive ElfError : Set :=
| MalformedHeader
| InvalidMagic
| UnsupportedClass (c : Z)
| UnsupportedEndian (d : Z)
| UnsupportedVersion (v : Z)
| UnsupportedType (t : Z)
| UnsupportedMachine (m : Z)
| MalformedProgramHeaders
| InvalidSegment (index : Z) (reason : SegmentError)
| InvalidRamRegion
| SegmentOutsideRam (index : Z)
| OverlappingSegments (first second : Z)
| MisalignedEntry (entry : Z)
| EntryOutsideSegments (entry : Z).

Definition EHDR_SIZE : Z := 52.
Definition PHDR_SIZE : Z := 32.
Definition ELFCLASS32 : Z := 1.
Definition ELFDATA2LSB : Z := 1.
Definition EV_CURRENT : Z := 1.
Definition ET_EXEC : Z := 2.
Definition EM_RISCV : Z := 243.
Definition PN_XNUM : Z := 0xffff.
Definition PT_LOAD : Z := 1.

Definition file_len (elf : list Z) : Z := Z.of_nat (length elf).

(** [Fields]: bounds-checked little-endian reads. *)
Module Fields.
(** [bytes::<N>(at)], the slice [at..at + N]. *)
Definition bytes (f : list Z) (n at_ : Z) : option (list Z) :=
  if at_ + n <=? file_len f then Some (take (Z.to_nat n) (drop (Z.to_nat at_) f)) else None.

Definition u8 (f : list Z) (at_ : Z) : option Z := f !! Z.to_nat at_.
Definition u16 (f : list Z) (at_ : Z) : option Z := from_le <$> bytes f 2 at_.
Definition u32 (f : list Z) (at_ : Z) : option Z := from_le <$> bytes f 4 at_.
End Fields.

Record Header : Set := mkHeader { h_entry : Z; h_phoff : Z; h_phnum : Z }.

Definition header (elf : list Z) : result ElfError Header :=
  let malformed := MalformedHeader in
  if file_len elf <? EHDR_SIZE then Err malformed
  else if negb (bool_decide (Fields.bytes elf 4 0 = Some [0x7f; 0x45; 0x4c; 0x46])) then Err InvalidMagic
  else
    class ← ok_or (Fields.u8 elf 4) malformed;
    if negb (class =? ELFCLASS32) then Err (UnsupportedClass class) else
    data ← ok_or (Fields.u8 elf 5) malformed;
    if negb (data =? ELFDATA2LSB) then Err (UnsupportedEndian data) else
    ident_version ← ok_or (Fields.u8 elf 6) malformed;
    if negb (ident_version =? EV_CURRENT) then Err (UnsupportedVersion ident_version) else
    e_type ← ok_or (Fields.u16 elf 16) malformed;
    if negb (e_type =? ET_EXEC) then Err (UnsupportedType e_type) else
    machine ← ok_or (Fields.u16 elf 18) malformed;
    if negb (machine =? EM_RISCV) then Err (UnsupportedMachine machine) else
    version ← ok_or (Fields.u32 elf 20) malformed;
    if negb (version =? EV_CURRENT) then Err (UnsupportedVersion version) else
    entry ← ok_or (Fields.u32 elf 24) malformed;
    phoff ← ok_or (Fields.u32 elf 28) malformed;
    ehsize ← ok_or (Fields.u16 elf 40) malformed;
    if negb (ehsize =? EHDR_SIZE) then Err malformed else
    phentsize ← ok_or (Fields.u16 elf 42) malformed;
    phnum ← ok_or (Fields.u16 elf 44) malformed;
    if (phnum =? PN_XNUM) || (negb (phnum =? 0) && negb (phentsize =? PHDR_SIZE)) then
      Err MalformedProgramHeaders
    else if file_len elf <? phoff + phnum * PHDR_SIZE then Err MalformedProgramHeaders
    else Ok (mkHeader entry phoff phnum).

Record ProgramHeader : Set := mkProgramHeader {
  p_type : Z; p_offset : Z; p_vaddr : Z; p_paddr : Z; p_filesz : Z; p_memsz : Z }.

Definition program_header (elf : list Z) (h : Header) (index : Z) : result ElfError ProgramHeader :=
  let at_ := h_phoff h + index * PHDR_SIZE in
  let field n := ok_or (Fields.u32 elf (at_ + n)) MalformedProgramHeaders in
  ptype ← field 0;
  offset ← field 4;
  vaddr ← field 8;
  paddr ← field 12;
  filesz ← field 16;
  memsz ← field 20;
  Ok (mkProgramHeader ptype offset vaddr paddr filesz memsz).

(** [0..phnum]. *)
Definition indices (h : Header) : list Z := Z.of_nat <$> seq 0 (Z.to_nat (h_phnum h)).

(** * The RAM loader, [lib.rs] *)

Record LoadSegment : Set := mkLoadSegment { ls_offset : Z; ls_bytes : list Z }.

Record LoadImage : Set := mkLoadImage { li_segments : list LoadSegment; li_entry : Z; li_image_hash : list Z }.

Record Placed : Set := mkPlaced { pl_index : Z; pl_offset : Z; pl_bytes : list Z }.

Module Placed.
Definition end_ (p : Placed) : Z := pl_offset p + Z.of_nat (length (pl_bytes p)).
End Placed.

(** [bytes.resize(memsz, 0)] of a shorter vector. *)
Definition resize (bs : list Z) (n : Z) : list Z :=
  take (Z.to_nat n) bs ++ replicate (Z.to_nat n - length bs) 0.

(** The [for index in 0..phnum] loop of [load_elf32]. *)
Fixpoint place_segments (elf : list Z) (h : Header) (ram_base ram_end : Z) (l : list Z) :
    result ElfError (list Placed) :=
  match l with
  | [] => Ok []
  | index :: l =>
      ph ← program_header elf h index;
      if negb (p_type ph =? PT_LOAD) then place_segments elf h ram_base ram_end l
      else if p_memsz ph <? p_filesz ph then Err (InvalidSegment index FileSizeExceedsMemSize)
      else
        let file_end := p_offset ph + p_filesz ph in
        if file_len elf <? file_end then Err (InvalidSegment index FileRangeOutsideFile)
        else if p_memsz ph =? 0 then place_segments elf h ram_base ram_end l
        else if negb (p_vaddr ph =? p_paddr ph) then Err (InvalidSegment index AddressMismatch)
        else
          let end_ := p_vaddr ph + p_memsz ph in
          if 2 ^ 32 <? end_ then Err (InvalidSegment index AddressOverflow)
          else if (p_vaddr ph <? ram_base) || (ram_end <? end_) then Err (SegmentOutsideRam index)
          else
            bytes ← ok_or (Fields.bytes elf (p_filesz ph) (p_offset ph))
                      (InvalidSegment index FileRangeOutsideFile);
            rest ← place_segments elf h ram_base ram_end l;
            Ok (mkPlaced index (p_vaddr ph - ram_base) (resize bytes (p_memsz ph)) :: rest)
  end.

(** [for pair in placed.windows(2)]. *)
Fixpoint overlapping (l : list Placed) : option ElfError :=
  match l with
  | a :: ((b :: _) as l') =>
      if pl_offset b <? Placed.end_ a
      then Some (OverlappingSegments (Z.min (pl_index a) (pl_index b)) (Z.max (pl_index a) (pl_index b)))
      else overlapping l'
  | _ => None
  end.

Definition load_elf32 (hash : list Z -> list Z) (elf : list Z) (ram_base ram_size : Z) :
    result ElfError LoadImage :=
  let ram_end := ram_base + ram_size in
  if (ram_size =? 0) || (2 ^ 32 <? ram_end) then Err InvalidRamRegion
  else
    h ← header elf;
    placed ← place_segments elf h ram_base ram_end (indices h);
    let placed := sort_by (fun a b => pl_offset a <=? pl_offset b) placed in
    match overlapping placed with
    | Some e => Err e
    | None =>
        let entry := h_entry h in
        if negb (entry mod 4 =? 0) then Err (MisalignedEntry entry)
        else
          let inside p := (ram_base + pl_offset p <=? entry) && (entry <? ram_base + Placed.end_ p) in
          if negb (existsb inside placed) then Err (EntryOutsideSegments entry)
          else Ok (mkLoadImage ((fun p => mkLoadSegment (pl_offset p) (pl_bytes p)) <$> placed) entry (hash elf))
    end.

(** * User images, [user.rs] *)

Definition MAX_PHDRS : Z := 16.
Definition PAGE_SIZE : Z := 4096.
Definition PF_X : Z := 1.
Definition PF_W : Z := 2.
Definition PF_R : Z := 4.
Definition P_FLAGS : Z := 24.

Record Perms : Set := mkPerms { read : bool; write : bool; execute : bool }.

#[export] Instance Perms_eq_dec : EqDecision Perms.
Proof. solve_decision. Defined.

Record FileCopy : Set := mkFileCopy { fc_file_offset : Z; fc_page_offset : Z; fc_len : Z }.

Record PagePlan : Set := mkPagePlan { pp_va : Z; pp_perms : Perms; pp_copy : option FileCopy }.

Record UserSegment : Set := mkUserSegment {
  us_index : Z; us_vaddr : Z; us_memsz : Z; us_perms : Perms; us_pages : list PagePlan }.

Record UserImage : Set := mkUserImage { ui_entry : Z; ui_segments : list UserSegment }.

Inductive UserElfError : Set :=
| UE_Header (e : ElfError)
| PrefixLongerThanFile
| PrefixTooShort (needed : Z)
| InvalidUserRange
| PhdrCountExceeded (n : Z)
| InvalidSegmentSize (index : Z)
| UE_FileRangeOutsideFile (index : Z)
| NoPermission (index : Z)
| WriteWithoutRead (index : Z)
| SegmentOutsideUserRange (index : Z)
| SegmentOverlap (first second : Z)
| SharedPage (first second : Z)
| UE_MisalignedEntry (entry : Z)
| EntryNotExecutable (entry : Z).

Record Checked : Set := mkChecked {
  ck_index : Z; ck_offset : Z; ck_vaddr : Z; ck_filesz : Z; ck_memsz : Z; ck_perms : Perms }.

(** Narrows to [u32], saturating. *)
Definition narrow (v : Z) : Z := if v <? 2 ^ 32 then v else 2 ^ 32 - 1.

Module Checked.
Definition end_ (c : Checked) : Z := ck_vaddr c + ck_memsz c.
Definition last_page (c : Checked) : Z := (end_ c - 1) / PAGE_SIZE.
Definition first_page (c : Checked) : Z := ck_vaddr c / PAGE_SIZE.

Definition page (c : Checked) (n : Z) : PagePlan :=
  let file_start := ck_vaddr c in
  let file_end := file_start + ck_filesz c in
  let va := n * PAGE_SIZE in
  let from := Z.max file_start va in
  let to := Z.min file_end (va + PAGE_SIZE) in
  let copy :=
    if from <? to
    then Some (mkFileCopy (narrow (ck_offset c + (from - file_start))) (narrow (from - va)) (narrow (to - from)))
    else None in
  mkPagePlan (narrow va) (ck_perms c) copy.

Definition pages (c : Checked) : list PagePlan :=
  page c <$> seqZ (first_page c) (last_page c - first_page c + 1).
End Checked.

Definition checked_header (prefix : list Z) (flen : Z) : result UserElfError Header :=
  let prefix_len := file_len prefix in
  if flen <? prefix_len then Err PrefixLongerThanFile
  else if prefix_len <? EHDR_SIZE then
    Err (if flen <? EHDR_SIZE then UE_Header MalformedHeader else PrefixTooShort EHDR_SIZE)
  else
    match header prefix with
    | Ok h => if MAX_PHDRS <? h_phnum h then Err (PhdrCountExceeded (h_phnum h)) else Ok h
    | Err MalformedProgramHeaders =>
        let field at_ := Fields.u16 prefix at_ in
        let phentsize := default 0 (field 42) in
        let phnum := default 0 (field 44) in
        let phoff := default 0 (Fields.u32 prefix 28) in
        if (phnum =? PN_XNUM) || (negb (phnum =? 0) && negb (phentsize =? PHDR_SIZE)) then
          Err (UE_Header MalformedProgramHeaders)
        else if MAX_PHDRS <? phnum then Err (PhdrCountExceeded phnum)
        else
          let table_end := phoff + phnum * PHDR_SIZE in
          if table_end <=? flen then Err (PrefixTooShort (narrow table_end))
          else Err (UE_Header MalformedProgramHeaders)
    | Err e => Err (UE_Header e)
    end.

Definition p_flags (prefix : list Z) (phoff index : Z) : result UserElfError Z :=
  ok_or (Fields.u32 prefix (phoff + index * PHDR_SIZE + P_FLAGS)) (UE_Header MalformedProgramHeaders).

(** The [for index in 0..phnum] loop of [parse_user_elf32]. *)
Fixpoint check_segments (prefix : list Z) (flen lo hi : Z) (h : Header) (l : list Z) :
    result UserElfError (list Checked) :=
  match l with
  | [] => Ok []
  | index :: l =>
      ph ← map_err UE_Header (program_header prefix h index);
      if negb (p_type ph =? PT_LOAD) then check_segments prefix flen lo hi h l
      else if p_memsz ph <? p_filesz ph then Err (InvalidSegmentSize index)
      else if flen <? p_offset ph + p_filesz ph then Err (UE_FileRangeOutsideFile index)
      else if p_memsz ph =? 0 then check_segments prefix flen lo hi h l
      else
        flags ← p_flags prefix (h_phoff h) index;
        let perms := mkPerms (has_bit flags PF_R) (has_bit flags PF_W) (has_bit flags PF_X) in
        if negb (read perms) && negb (write perms) && negb (execute perms) then Err (NoPermission index)
        else if write perms && negb (read perms) then Err (WriteWithoutRead index)
        else
          let segment := mkChecked index (p_offset ph) (p_vaddr ph) (p_filesz ph) (p_memsz ph) perms in
          if (p_vaddr ph <? lo) || (hi <? Checked.end_ segment) then Err (SegmentOutsideUserRange index)
          else
            rest ← check_segments prefix flen lo hi h l;
            Ok (segment :: rest)
  end.

(** [for pair in checked.windows(2)]. *)
Fixpoint sharing (l : list Checked) : option UserElfError :=
  match l with
  | a :: ((b :: _) as l') =>
      let first := Z.min (ck_index a) (ck_index b) in
      let second := Z.max (ck_index a) (ck_index b) in
      if ck_vaddr b <? Checked.end_ a then Some (SegmentOverlap first second)
      else if Checked.first_page b <=? Checked.last_page a then Some (SharedPage first second)
      else sharing l'
  | _ => None
  end.

(** The user range is [lo..hi]. *)
Definition parse_user_elf32 (prefix : list Z) (flen lo hi : Z) : result UserElfError UserImage :=
  if (hi <=? lo) || negb (lo mod PAGE_SIZE =? 0) || negb (hi mod PAGE_SIZE =? 0) then Err InvalidUserRange
  else
    h ← checked_header prefix flen;
    checked ← check_segments prefix flen lo hi h (indices h);
    let checked := sort_by (fun a b => ck_vaddr a <=? ck_vaddr b) checked in
    match sharing checked with
    | Some e => Err e
    | None =>
        let entry := h_entry h in
        if negb (entry mod 4 =? 0) then Err (UE_MisalignedEntry entry)
        else
          let runs_entry s :=
            execute (ck_perms s) && (ck_vaddr s <=? entry) && (entry <? Checked.end_ s) in
          if negb (existsb runs_entry checked) then Err (EntryNotExecutable entry)
          else
            Ok (mkUserImage entry
                  ((fun s => mkUserSegment (ck_index s) (ck_vaddr s) (ck_memsz s) (ck_perms s) (Checked.pages s))
                     <$> checked))
    end.

(** * What a user image means *)

Definition valid_perms (p : Perms) : bool := (read p || execute p) && (read p || negb (write p)).

Definition image_pages (im : UserImage) : list PagePlan := ui_segments im ≫= us_pages.

Definition covers (p : PagePlan) (va : Z) : Prop := pp_va p <= va < pp_va p + PAGE_SIZE.

(** The byte a planned page holds at [va], for a file with the bytes [file]. *)
Definition page_byte (file : Z -> Z) (p : PagePlan) (va : Z) : Z :=
  match pp_copy p with
  | Some c =>
      let o := va - pp_va p in
      if (fc_page_offset c <=? o) && (o <? fc_page_offset c + fc_len c)
      then file (fc_file_offset c + (o - fc_page_offset c)) else 0
  | None => 0
  end.

(** The byte a program header asks for at [va]: the file's, then zeros. *)
Definition segment_byte (file : Z -> Z) (ph : ProgramHeader) (va : Z) : Z :=
  if (p_vaddr ph <=? va) && (va <? p_vaddr ph + p_filesz ph) then file (p_offset ph + (va - p_vaddr ph)) else 0.

Definition copy_ok (flen : Z) (c : FileCopy) : Prop :=
  0 <= fc_page_offset c /\ 0 < fc_len c /\ fc_page_offset c + fc_len c <= PAGE_SIZE /\
  0 <= fc_file_offset c /\ fc_file_offset c + fc_len c <= flen.

Definition page_ok (lo hi flen : Z) (perms : Perms) (p : PagePlan) : Prop :=
  pp_perms p = perms /\ pp_va p mod PAGE_SIZE = 0 /\ lo <= pp_va p < hi /\
  match pp_copy p with Some c => copy_ok flen c | None => True end.

(** What the address-space builder relies on. *)
Definition image_ok (lo hi flen : Z) (im : UserImage) : Prop :=
  ui_entry im mod 4 = 0 /\ lo <= ui_entry im < hi /\ ui_segments im <> [] /\
  StronglySorted Z.lt (pp_va <$> image_pages im) /\
  Forall (fun s => us_pages s <> [] /\ valid_perms (us_perms s) = true /\
            Forall (page_ok lo hi flen (us_perms s)) (us_pages s)) (ui_segments im).

(** ** Fields *)

Lemma fields_range f n at_ v :
  bytes_ok f -> 0 <= n -> Fields.bytes f n at_ = Some v -> in_u (8 * n) (from_le v).
Proof.
  unfold Fields.bytes. intros Hf Hn. case_if; [|discriminate]. intros [= <-].
  assert (Hb : bytes_ok (take (Z.to_nat n) (drop (Z.to_nat at_) f))) by (apply Forall_take, Forall_drop, Hf).
  eapply in_u_mono; [|apply from_le_in_u, Hb]. rewrite length_take. lia.
Qed.

Lemma fields_u32_range f at_ v : bytes_ok f -> Fields.u32 f at_ = Some v -> in_u 32 v.
Proof.
  intros Hf. unfold Fields.u32. destruct (Fields.bytes f 4 at_) eqn:E; cbn; [|discriminate].
  intros [= <-]. exact (fields_range f 4 at_ _ Hf ltac:(lia) E).
Qed.

Lemma program_header_range f h i ph :
  bytes_ok f -> program_header f h i = Ok ph ->
  in_u 32 (p_offset ph) /\ in_u 32 (p_vaddr ph) /\ in_u 32 (p_filesz ph) /\ in_u 32 (p_memsz ph).
Proof.
  intros Hf. unfold program_header.
  do 6 (intros (? & ?%ok_or_Ok & H)%bind_Ok_inv; revert H).
  intros [= <-]. cbn. split_and!; eauto using fields_u32_range.
Qed.

(** ** Checked segments *)

Definition checked_ok (lo hi flen : Z) (c : Checked) : Prop :=
  0 <= lo <= ck_vaddr c /\ 0 <= ck_filesz c <= ck_memsz c /\ 0 < ck_memsz c /\
  ck_vaddr c + ck_memsz c <= hi /\ 0 <= ck_offset c /\ ck_offset c + ck_filesz c <= flen /\
  valid_perms (ck_perms c) = true.

(** A checked segment is a program header's. *)
Definition checked_from (prefix : list Z) (h : Header) (c : Checked) (ph : ProgramHeader) : Prop :=
  program_header prefix h (ck_index c) = Ok ph /\ p_type ph = PT_LOAD /\ ck_offset c = p_offset ph /\
  ck_vaddr c = p_vaddr ph /\ ck_filesz c = p_filesz ph /\ ck_memsz c = p_memsz ph.

Lemma check_segments_sound prefix flen lo hi h l : forall cs,
  bytes_ok prefix -> 0 <= lo -> check_segments prefix flen lo hi h l = Ok cs ->
  Forall (fun c => checked_ok lo hi flen c /\ exists ph, checked_from prefix h c ph) cs /\
  forall i ph, i ∈ l -> program_header prefix h i = Ok ph -> p_type ph = PT_LOAD -> p_memsz ph <> 0 ->
    exists c, c ∈ cs /\ checked_from prefix h c ph.
Proof.
  intros cs Hb Hlo. revert cs. induction l as [|i l IH]; intros cs; cbn [check_segments].
  { intros [= <-]. split; [constructor |]. intros i ph Hi. inversion Hi. }
  intros (ph & Hph & E)%bind_Ok_inv. destruct (program_header prefix h i) as [ph'|] eqn:Ep; cbn in Hph; [|discriminate].
  injection Hph as ->. destruct (program_header_range _ _ _ _ Hb Ep) as (? & ? & ? & ?).
  assert (Hskip : p_type ph <> PT_LOAD \/ p_memsz ph = 0 -> check_segments prefix flen lo hi h l = Ok cs ->
    Forall (fun c => checked_ok lo hi flen c /\ exists ph, checked_from prefix h c ph) cs /\
    forall j ph, j ∈ i :: l -> program_header prefix h j = Ok ph -> p_type ph = PT_LOAD -> p_memsz ph <> 0 ->
      exists c, c ∈ cs /\ checked_from prefix h c ph).
  { intros Hs Ecs. destruct (IH cs Ecs) as [IH1 IH2]. split; [exact IH1 |].
    intros j ph' [->|Hj]%elem_of_cons Hj1 Hj2 Hj3; [|eauto]. rewrite Ep in Hj1. injection Hj1 as <-. tauto. }
  destruct (Z.eqb_spec (p_type ph) PT_LOAD) as [Ht|Ht]; cbn [negb] in E; [|apply Hskip; auto].
  destruct (Z.ltb_spec (p_memsz ph) (p_filesz ph)); [discriminate |].
  destruct (Z.ltb_spec flen (p_offset ph + p_filesz ph)); [discriminate |].
  destruct (Z.eqb_spec (p_memsz ph) 0) as [Hm|Hm]; [apply Hskip; auto |]. clear Hskip.
  apply bind_Ok_inv in E as (flags & _ & E). set (perms := mkPerms _ _ _) in E.
  destruct (negb (read perms) && negb (write perms) && negb (execute perms)) eqn:En; [discriminate |].
  destruct (write perms && negb (read perms)) eqn:Ew; [discriminate |].
  destruct ((p_vaddr ph <? lo) || _) eqn:Er; [discriminate |].
  apply bind_Ok_inv in E as (rest & Erest & [= <-]). destruct (IH rest Erest) as [IH1 IH2].
  apply orb_false_iff in Er as [Er1%Z.ltb_ge Er2%Z.ltb_ge]. unfold Checked.end_ in Er2. cbn in Er2.
  set (c := mkChecked _ _ _ _ _ _). assert (Hc : checked_from prefix h c ph) by (split_and!; auto).
  split.
  - constructor; [|exact IH1]. split; [|eauto]. unfold in_u in *. split_and!; cbn; try lia.
    unfold valid_perms. destruct (read perms), (write perms), (execute perms); auto.
  - intros j ph' [->|Hj]%elem_of_cons Hj1 Hj2 Hj3.
    + rewrite Ep in Hj1. injection Hj1 as <-. exists c. split; [left | exact Hc].
    + destruct (IH2 j ph' Hj Hj1 Hj2 Hj3) as (c' & Hc' & ?). exists c'. split; [right; exact Hc' | assumption].
Qed.

(** ** Pages of a checked segment *)

Section pages.
Context (lo hi flen : Z) (c : Checked).
Context (Hlo : lo mod PAGE_SIZE = 0) (Hhi : in_u 32 hi) (Hflen : in_u 32 flen) (Hc : checked_ok lo hi flen c).

Lemma narrow_id v : v < 2 ^ 32 -> narrow v = v.
Proof. intros H. unfold narrow. apply Z.ltb_lt in H. rewrite H. reflexivity. Qed.

Lemma page_range n :
  Checked.first_page c <= n <= Checked.last_page c -> lo <= n * PAGE_SIZE /\ n * PAGE_SIZE < hi.
Proof.
  unfold Checked.first_page, Checked.last_page, Checked.end_, PAGE_SIZE. destruct Hc as (? & ? & ? & ? & _).
  unfold PAGE_SIZE in Hlo. intros Hn. Z.div_mod_to_equations. lia.
Qed.

Lemma page_exact n :
  Checked.first_page c <= n <= Checked.last_page c ->
  Checked.page c n =
  mkPagePlan (n * PAGE_SIZE) (ck_perms c)
    (let from := Z.max (ck_vaddr c) (n * PAGE_SIZE) in
     let to := Z.min (ck_vaddr c + ck_filesz c) (n * PAGE_SIZE + PAGE_SIZE) in
     if from <? to then Some (mkFileCopy (ck_offset c + (from - ck_vaddr c)) (from - n * PAGE_SIZE) (to - from))
     else None).
Proof.
  intros Hn. pose proof (page_range n Hn) as [? ?]. destruct Hc as (? & ? & ? & ? & ? & ? & _).
  unfold in_u, PAGE_SIZE in *. unfold Checked.page, PAGE_SIZE. cbv zeta.
  rewrite (narrow_id (n * 4096)) by lia. f_equal.
  destruct (Z.ltb_spec (Z.max (ck_vaddr c) (n * 4096)) (Z.min (ck_vaddr c + ck_filesz c) (n * 4096 + 4096)));
    [|reflexivity]. rewrite !narrow_id by lia. reflexivity.
Qed.

Lemma page_page_ok n :
  Checked.first_page c <= n <= Checked.last_page c -> page_ok lo hi flen (ck_perms c) (Checked.page c n).
Proof.
  intros Hn. pose proof (page_range n Hn) as [? ?]. rewrite page_exact by exact Hn.
  destruct Hc as (? & ? & ? & ? & ? & ? & _). split; [reflexivity |]. cbn [pp_va pp_copy].
  split; [apply Z.mod_mul; discriminate |]. split; [lia |]. cbv zeta.
  match goal with |- context [if ?a <? ?b then _ else _] => destruct (Z.ltb_spec a b); [|exact I] end.
  unfold copy_ok, PAGE_SIZE in *. cbn. lia.
Qed.

Lemma page_loads file n va ph :
  Checked.first_page c <= n <= Checked.last_page c -> n * PAGE_SIZE <= va < n * PAGE_SIZE + PAGE_SIZE ->
  ck_offset c = p_offset ph -> ck_vaddr c = p_vaddr ph -> ck_filesz c = p_filesz ph ->
  page_byte file (Checked.page c n) va = segment_byte file ph va.
Proof.
  intros Hn Hva Ho Hv Hf. rewrite page_exact by exact Hn. destruct Hc as (? & ? & ? & _).
  unfold page_byte, segment_byte. rewrite <- Ho, <- Hv, <- Hf. cbv zeta. cbn [pp_copy pp_va].
  set (from := Z.max _ _). set (to := Z.min _ _).
  destruct (Z.ltb_spec from to) as [Hft|Hft]; cbn [fc_page_offset fc_len fc_file_offset].
  - destruct (Z.leb_spec (from - n * PAGE_SIZE) (va - n * PAGE_SIZE)),
      (Z.ltb_spec (va - n * PAGE_SIZE) (from - n * PAGE_SIZE + (to - from))),
      (Z.leb_spec (ck_vaddr c) va), (Z.ltb_spec va (ck_vaddr c + ck_filesz c));
      cbn [andb]; try lia; try reflexivity. f_equal. lia.
  - destruct (Z.leb_spec (ck_vaddr c) va), (Z.ltb_spec va (ck_vaddr c + ck_filesz c)); cbn [andb]; try lia; reflexivity.
Qed.
End pages.

(** ** Order of segments and pages *)

Lemma seq_sorted n : forall a, StronglySorted Nat.lt (seq a n).
Proof.
  induction n as [|n IH]; intros a; cbn; constructor; [apply IH |].
  apply Forall_forall. intros x Hx. apply elem_of_seq in Hx. lia.
Qed.

Lemma seqZ_sorted a n : StronglySorted Z.lt (seqZ a n).
Proof. unfold seqZ. eapply StronglySorted_fmap; [|apply seq_sorted]. cbn. lia. Qed.

Lemma pages_order c : 0 < ck_memsz c -> Checked.first_page c <= Checked.last_page c.
Proof. unfold Checked.first_page, Checked.last_page, Checked.end_. intros. apply Z.div_le_mono; unfold PAGE_SIZE; lia. Qed.

Lemma elem_of_pages c p :
  p ∈ Checked.pages c <-> exists n, Checked.first_page c <= n <= Checked.last_page c /\ p = Checked.page c n.
Proof.
  unfold Checked.pages. rewrite list_elem_of_fmap. split.
  - intros (n & -> & Hn%elem_of_seqZ). exists n. split; [lia | reflexivity].
  - intros (n & Hn & ->). exists n. split; [reflexivity | apply elem_of_seqZ; lia].
Qed.

Lemma sharing_None cs :
  Forall (fun c => 0 < ck_memsz c) cs -> sharing cs = None ->
  StronglySorted (fun a b => Checked.last_page a < Checked.first_page b) cs.
Proof.
  induction cs as [|a cs IH]; intros Hm Hs; [constructor |]. apply Forall_cons in Hm as [Ha Hm].
  destruct cs as [|b cs]; [repeat constructor |]. cbn [sharing] in Hs.
  destruct (_ <? _); [discriminate |]. destruct (Z.leb_spec (Checked.first_page b) (Checked.last_page a)); [discriminate |].
  specialize (IH Hm Hs). constructor; [exact IH |]. constructor; [assumption |].
  apply StronglySorted_inv in IH as [_ Hb]. apply Forall_cons in Hm as [Hbm _].
  eapply Forall_impl; [exact Hb |]. cbn. intros x Hx. pose proof (pages_order b Hbm). lia.
Qed.

Definition plan_segment (s : Checked) : UserSegment :=
  mkUserSegment (ck_index s) (ck_vaddr s) (ck_memsz s) (ck_perms s) (Checked.pages s).

Lemma pages_sorted lo hi flen cs :
  lo mod PAGE_SIZE = 0 -> in_u 32 hi -> in_u 32 flen -> Forall (checked_ok lo hi flen) cs ->
  StronglySorted (fun a b => Checked.last_page a < Checked.first_page b) cs ->
  StronglySorted Z.lt (pp_va <$> ((plan_segment <$> cs) ≫= us_pages)).
Proof.
  intros Hlo Hhi Hf. induction cs as [|c cs IH]; intros Hok Hs; [constructor |].
  apply Forall_cons in Hok as [Hc Hok]. apply StronglySorted_inv in Hs as [Hs Hlt]. cbn. rewrite fmap_app.
  assert (Hva : forall lo' c, checked_ok lo hi flen c -> lo' ∈ pp_va <$> Checked.pages c ->
    exists n, Checked.first_page c <= n <= Checked.last_page c /\ lo' = n * PAGE_SIZE).
  { intros v c' Hc' (p & -> & (n & Hn & ->)%elem_of_pages)%list_elem_of_fmap. exists n. split; [exact Hn |].
    rewrite (page_exact lo hi flen c' Hlo Hhi Hf Hc' n Hn). reflexivity. }
  apply StronglySorted_app_2.
  - intros x y Hx Hy. destruct (Hva x c Hc Hx) as (n & Hn & ->).
    apply list_elem_of_fmap in Hy as (p & -> & Hp). apply list_elem_of_bind in Hp as (s & Hp & Hin).
    apply list_elem_of_fmap in Hin as (c' & -> & Hc'). cbn in Hp.
    rewrite Forall_forall in Hok, Hlt.
    destruct (Hva (pp_va p) c' (Hok c' Hc')) as (m & Hm & ->); [apply list_elem_of_fmap; eauto |].
    specialize (Hlt c' Hc'). cbn in Hlt. unfold PAGE_SIZE. lia.
  - unfold Checked.pages. assert (Hm : forall l, Forall (fun n => Checked.first_page c <= n <= Checked.last_page c) l ->
      StronglySorted Z.lt l -> StronglySorted Z.lt (pp_va <$> (Checked.page c <$> l))).
    { clear -Hlo Hhi Hf Hc. induction l as [|n l IHl]; intros Hr Hl; [constructor |].
      apply Forall_cons in Hr as [Hn Hr]. apply StronglySorted_inv in Hl as [Hl Hnl]. rewrite !fmap_cons.
      constructor; [apply IHl; assumption |]. rewrite Forall_forall in *. intros x (p & -> & (m & -> & Hin)%list_elem_of_fmap)%list_elem_of_fmap.
      rewrite !(page_exact lo hi flen c Hlo Hhi Hf Hc) by auto. specialize (Hnl m Hin). cbn [pp_va]. unfold PAGE_SIZE. lia. }
    apply Hm; [|apply seqZ_sorted]. apply Forall_forall. intros n Hn%elem_of_seqZ. lia.
  - apply IH; assumption.
Qed.

(** ** The parser *)

Lemma elem_of_indices h i : 0 <= i < h_phnum h -> i ∈ indices h.
Proof.
  intros Hi. unfold indices. apply list_elem_of_fmap. exists (Z.to_nat i). split; [lia |].
  apply elem_of_seq. lia.
Qed.

Lemma pages_cover lo hi flen c va :
  lo mod PAGE_SIZE = 0 -> in_u 32 hi -> in_u 32 flen -> checked_ok lo hi flen c ->
  ck_vaddr c <= va < Checked.end_ c ->
  exists n, Checked.first_page c <= n <= Checked.last_page c /\ covers (Checked.page c n) va.
Proof.
  intros Hlo Hhi Hf Hc Hva. exists (va / PAGE_SIZE).
  assert (Hn : Checked.first_page c <= va / PAGE_SIZE <= Checked.last_page c)
    by (split; apply Z.div_le_mono; unfold PAGE_SIZE; lia).
  split; [exact Hn |]. unfold covers. rewrite (page_exact lo hi flen) by assumption.
  cbn [pp_va]. unfold PAGE_SIZE. Z.div_mod_to_equations. lia.
Qed.

Lemma elem_of_image_pages cs c p e :
  c ∈ cs -> p ∈ Checked.pages c -> p ∈ image_pages (mkUserImage e (plan_segment <$> cs)).
Proof.
  intros Hc Hp. apply list_elem_of_bind. exists (plan_segment c). split; [exact Hp |].
  apply list_elem_of_fmap. eauto.
Qed.

Lemma elem_of_image_pages_inv cs p e :
  p ∈ image_pages (mkUserImage e (plan_segment <$> cs)) -> exists c, c ∈ cs /\ p ∈ Checked.pages c.
Proof.
  intros (s & Hp & (c & -> & Hc)%list_elem_of_fmap)%list_elem_of_bind. exists c. auto.
Qed.

Lemma parse_user_elf32_inv prefix flen lo hi im :
  bytes_ok prefix -> 0 <= lo -> parse_user_elf32 prefix flen lo hi = Ok im ->
  lo mod PAGE_SIZE = 0 /\ hi mod PAGE_SIZE = 0 /\
  exists h cs,
    checked_header prefix flen = Ok h /\ im = mkUserImage (h_entry h) (plan_segment <$> cs) /\
    Forall (fun c => checked_ok lo hi flen c /\ exists ph, checked_from prefix h c ph) cs /\
    StronglySorted (fun a b => Checked.last_page a < Checked.first_page b) cs /\
    h_entry h mod 4 = 0 /\
    (exists c, c ∈ cs /\ execute (ck_perms c) = true /\ ck_vaddr c <= h_entry h < Checked.end_ c) /\
    (forall i ph, 0 <= i < h_phnum h -> program_header prefix h i = Ok ph -> p_type ph = PT_LOAD ->
       p_memsz ph <> 0 -> exists c, c ∈ cs /\ checked_from prefix h c ph).
Proof.
  intros Hb Hlo. unfold parse_user_elf32. destruct ((hi <=? lo) || _ || _) eqn:Er; [discriminate |]. unbool.
  intros (h & Hh & (cs & Hcs & E)%bind_Ok_inv)%bind_Ok_inv.
  destruct (check_segments_sound _ _ _ _ _ _ _ Hb Hlo Hcs) as [Hall Hex].
  set (sorted := sort_by _ cs) in E. pose proof (sort_by_perm (fun a b => ck_vaddr a <=? ck_vaddr b) cs) as Hp.
  fold sorted in Hp. destruct (sharing sorted) eqn:Es; [discriminate |].
  destruct (negb (h_entry h mod 4 =? 0)) eqn:Ee; [discriminate |]. unbool.
  match type of E with context [existsb ?f sorted] => destruct (existsb f sorted) eqn:Ex end; [|discriminate].
  injection E as <-. rewrite <- Hp in Hall. split; [assumption |]. split; [assumption |].
  exists h, sorted. split_and!; auto.
  - apply sharing_None; [|exact Es]. eapply Forall_impl; [exact Hall |]. cbn. intros c [(_ & _ & ? & _) _]. assumption.
  - apply existsb_exists in Ex as (c & Hc & Hx). exists c. unbool. split; [apply list_elem_of_In, Hc |]. auto.
  - intros i ph Hi Hph Ht Hm. destruct (Hex i ph (elem_of_indices h i Hi) Hph Ht Hm) as (c & Hc & Hf).
    exists c. rewrite Hp. auto.
Qed.

Lemma checked_image_ok lo hi flen h cs :
  lo mod PAGE_SIZE = 0 -> in_u 32 hi -> in_u 32 flen -> 0 <= lo -> Forall (checked_ok lo hi flen) cs ->
  StronglySorted (fun a b => Checked.last_page a < Checked.first_page b) cs -> h_entry h mod 4 = 0 ->
  (exists c, c ∈ cs /\ execute (ck_perms c) = true /\ ck_vaddr c <= h_entry h < Checked.end_ c) ->
  image_ok lo hi flen (mkUserImage (h_entry h) (plan_segment <$> cs)).
Proof.
  intros Hal Hhi Hf Hlo Hok Hs He (c & Hc & _ & Hr). unfold image_ok. cbn.
  pose proof (proj1 (Forall_forall _ _) Hok c Hc) as (? & ? & ? & ? & _).
  unfold Checked.end_ in Hr. split_and!; [exact He | lia | lia | destruct cs; [inversion Hc | discriminate] | |].
  - apply (pages_sorted lo hi flen); assumption.
  - apply Forall_fmap. eapply Forall_impl; [exact Hok |]. cbn. intros s Hsok. pose proof Hsok as (_ & _ & Hm & _ & _ & _ & Hp).
    pose proof (pages_order s Hm). split_and!; [|exact Hp |].
    + unfold Checked.pages. rewrite seqZ_cons by lia. discriminate.
    + apply Forall_forall. intros p (n & Hn & ->)%elem_of_pages. apply (page_page_ok lo hi flen); assumption.
Qed.

Lemma parsed_image_ok prefix flen lo hi im :
  bytes_ok prefix -> in_u 32 flen -> 0 <= lo -> in_u 32 hi ->
  parse_user_elf32 prefix flen lo hi = Ok im -> image_ok lo hi flen im.
Proof.
  intros Hb Hf Hlo Hhi E.
  apply parse_user_elf32_inv in E as (Hal & Hah & h & cs & Hh & -> & Hall & Hs & He & Hx & _); [|assumption..].
  apply checked_image_ok; auto. eapply Forall_impl; [exact Hall |]. cbn. tauto.
Qed.

(** C36: A user image [parse_user_elf32] accepts is what the executable says.  Its pages are
    page-aligned, inside the user range, in strictly ascending order and never shared, with
    valid permissions and copies inside their page and the file; the entry point is aligned and
    in an executable page; and every address of every loadable segment is covered by a page
    that holds there the file's byte, or zero past the segment's file bytes, while no page
    holds anything but one segment's bytes. *)
Theorem parse_user_elf32_sound (prefix : list Z) (flen lo hi : Z) (im : UserImage) (file : Z -> Z) :
  bytes_ok prefix -> in_u 32 flen -> 0 <= lo -> in_u 32 hi ->
  parse_user_elf32 prefix flen lo hi = Ok im ->
  image_ok lo hi flen im /\
  (exists p, p ∈ image_pages im /\ execute (pp_perms p) = true /\ covers p (ui_entry im)) /\
  exists h, checked_header prefix flen = Ok h /\ ui_entry im = h_entry h /\
    (forall i ph va, 0 <= i < h_phnum h -> program_header prefix h i = Ok ph -> p_type ph = PT_LOAD ->
       p_vaddr ph <= va < p_vaddr ph + p_memsz ph ->
       exists p, p ∈ image_pages im /\ covers p va /\ page_byte file p va = segment_byte file ph va) /\
    (forall p, p ∈ image_pages im ->
       exists i ph, program_header prefix h i = Ok ph /\ p_type ph = PT_LOAD /\
         forall va, covers p va -> page_byte file p va = segment_byte file ph va).
Proof.
  intros Hb Hf Hlo Hhi E. apply parse_user_elf32_inv in E as (Hal & Hah & h & cs & Hh & -> & Hall & Hs & He & Hx & Hex); [|assumption..].
  assert (Hok : Forall (checked_ok lo hi flen) cs) by (eapply Forall_impl; [exact Hall |]; cbn; tauto).
  rewrite Forall_forall in Hall. split; [|split].
  - apply checked_image_ok; assumption.
  - destruct Hx as (c & Hc & Hxp & Hr). destruct (Hall c Hc) as [Hcok _].
    destruct (pages_cover lo hi flen c (h_entry h) Hal Hhi Hf Hcok Hr) as (n & Hn & Hcov).
    exists (Checked.page c n). split_and!; [apply (elem_of_image_pages cs c); [exact Hc |]; apply elem_of_pages; eauto | exact Hxp | exact Hcov].
  - exists h. split_and!; [exact Hh | reflexivity | |].
    + intros i ph va Hi Hph Ht Hva. destruct (Hex i ph Hi Hph Ht ltac:(lia)) as (c & Hc & Hcf).
      pose proof Hcf as (_ & _ & Ho & Hv & Hfz & Hmz). destruct (Hall c Hc) as [Hcok _].
      destruct (pages_cover lo hi flen c va Hal Hhi Hf Hcok) as (n & Hn & Hcov); [unfold Checked.end_; lia |].
      exists (Checked.page c n). split_and!; [apply (elem_of_image_pages cs c); [exact Hc |]; apply elem_of_pages; eauto | exact Hcov |].
      unfold covers in Hcov. rewrite (page_exact lo hi flen) in Hcov by assumption.
      apply (page_loads lo hi flen); assumption.
    + intros p Hp. apply elem_of_image_pages_inv in Hp as (c & Hc & (n & Hn & ->)%elem_of_pages).
      destruct (Hall c Hc) as [Hcok (ph & Hcf)]. pose proof Hcf as (Hph & Ht & Ho & Hv & Hfz & Hmz).
      exists (ck_index c), ph. split_and!; [exact Hph | exact Ht |]. intros va Hcov.
      unfold covers in Hcov. rewrite (page_exact lo hi flen) in Hcov by assumption.
      apply (page_loads lo hi flen); assumption.
Qed.

(** ** The RAM loader *)

(** A placed segment holds the memory of its program header. *)
Definition placed_from (elf : list Z) (h : Header) (ram_base ram_end : Z) (p : Placed) (ph : ProgramHeader) : Prop :=
  program_header elf h (pl_index p) = Ok ph /\ p_type ph = PT_LOAD /\ p_memsz ph <> 0 /\
  pl_offset p = p_vaddr ph - ram_base /\ ram_base <= p_vaddr ph /\ p_vaddr ph + p_memsz ph <= ram_end /\
  pl_bytes p = take (Z.to_nat (p_filesz ph)) (drop (Z.to_nat (p_offset ph)) elf)
               ++ replicate (Z.to_nat (p_memsz ph - p_filesz ph)) 0 /\
  Placed.end_ p = pl_offset p + p_memsz ph.

Lemma place_segments_sound elf h ram_base ram_end l : forall ps,
  bytes_ok elf -> place_segments elf h ram_base ram_end l = Ok ps ->
  Forall (fun p => exists ph, placed_from elf h ram_base ram_end p ph) ps /\
  forall i ph, i ∈ l -> program_header elf h i = Ok ph -> p_type ph = PT_LOAD -> p_memsz ph <> 0 ->
    exists p, p ∈ ps /\ placed_from elf h ram_base ram_end p ph.
Proof.
  intros ps Hb. revert ps. induction l as [|i l IH]; intros ps; cbn [place_segments].
  { intros [= <-]. split; [constructor |]. intros i ph Hi. inversion Hi. }
  intros (ph & Ep & E)%bind_Ok_inv. destruct (program_header_range _ _ _ _ Hb Ep) as (? & ? & ? & ?).
  assert (Hskip : p_type ph <> PT_LOAD \/ p_memsz ph = 0 -> place_segments elf h ram_base ram_end l = Ok ps ->
    Forall (fun p => exists ph, placed_from elf h ram_base ram_end p ph) ps /\
    forall j ph, j ∈ i :: l -> program_header elf h j = Ok ph -> p_type ph = PT_LOAD -> p_memsz ph <> 0 ->
      exists p, p ∈ ps /\ placed_from elf h ram_base ram_end p ph).
  { intros Hs Eps. destruct (IH ps Eps) as [IH1 IH2]. split; [exact IH1 |].
    intros j ph' [->|Hj]%elem_of_cons Hj1 Hj2 Hj3; [|eauto]. rewrite Ep in Hj1. injection Hj1 as <-. tauto. }
  destruct (Z.eqb_spec (p_type ph) PT_LOAD) as [Ht|Ht]; cbn [negb] in E; [|apply Hskip; auto].
  destruct (Z.ltb_spec (p_memsz ph) (p_filesz ph)); [discriminate |].
  destruct (Z.ltb_spec (file_len elf) (p_offset ph + p_filesz ph)); [discriminate |].
  destruct (Z.eqb_spec (p_memsz ph) 0) as [Hm|Hm]; [apply Hskip; auto |]. clear Hskip.
  destruct (Z.eqb_spec (p_vaddr ph) (p_paddr ph)); cbn [negb] in E; [|discriminate].
  destruct (Z.ltb_spec (2 ^ 32) (p_vaddr ph + p_memsz ph)); [discriminate |].
  destruct ((p_vaddr ph <? ram_base) || _) eqn:Er; [discriminate |]. unbool.
  apply bind_Ok_inv in E as (bs & Ebs%ok_or_Ok & (rest & Erest & [= <-])%bind_Ok_inv).
  destruct (IH rest Erest) as [IH1 IH2]. unfold Fields.bytes in Ebs. case_hyp Ebs; [|discriminate].
  injection Ebs as <-. unfold in_u, file_len in *. set (p := mkPlaced _ _ _).
  assert (Hlen : length (take (Z.to_nat (p_filesz ph)) (drop (Z.to_nat (p_offset ph)) elf)) = Z.to_nat (p_filesz ph)).
  { rewrite length_take, length_drop. lia. }
  assert (Hp : placed_from elf h ram_base ram_end p ph).
  { assert (Hby : pl_bytes p = take (Z.to_nat (p_filesz ph)) (drop (Z.to_nat (p_offset ph)) elf)
                    ++ replicate (Z.to_nat (p_memsz ph - p_filesz ph)) 0).
    { cbn. unfold resize. rewrite Hlen, take_ge by (rewrite Hlen; lia). do 2 f_equal. lia. }
    split_and!; auto; (unfold Placed.end_; rewrite Hby, length_app, length_replicate, Hlen; cbn; lia). }
  split; [constructor; [eauto | exact IH1] |].
  intros j ph' [->|Hj]%elem_of_cons Hj1 Hj2 Hj3.
  - rewrite Ep in Hj1. injection Hj1 as <-. exists p. split; [left | exact Hp].
  - destruct (IH2 j ph' Hj Hj1 Hj2 Hj3) as (p' & Hp' & ?). exists p'. split; [right; exact Hp' | assumption].
Qed.

Lemma overlapping_None l :
  Forall (fun p => pl_offset p <= Placed.end_ p) l -> overlapping l = None ->
  StronglySorted (fun a b => Placed.end_ a <= pl_offset b) l.
Proof.
  induction l as [|a l IH]; intros Hm Hs; [constructor |]. apply Forall_cons in Hm as [Ha Hm].
  destruct l as [|b l]; [repeat constructor |]. cbn [overlapping] in Hs.
  destruct (Z.ltb_spec (pl_offset b) (Placed.end_ a)); [discriminate |].
  specialize (IH Hm Hs). constructor; [exact IH |]. constructor; [assumption |].
  apply StronglySorted_inv in IH as [_ Hb]. apply Forall_cons in Hm as [Hbm _].
  eapply Forall_impl; [exact Hb |]. cbn. intros x Hx. lia.
Qed.

(** A program [load_elf32] accepts is in RAM as its headers say: the segments are in
    ascending order, disjoint and inside the RAM, each loadable program header's memory is one
    of them, holding the file's bytes and then zeros, the entry point is aligned and inside a
    segment, and the hash is that of the whole file. *)
Theorem load_elf32_sound (hash : list Z -> list Z) (elf : list Z) (ram_base ram_size : Z) (im : LoadImage) :
  bytes_ok elf -> load_elf32 hash elf ram_base ram_size = Ok im ->
  let ends s := ls_offset s + Z.of_nat (length (ls_bytes s)) in
  StronglySorted (fun a b => ends a <= ls_offset b) (li_segments im) /\
  Forall (fun s => 0 <= ls_offset s < ends s /\ ends s <= ram_size) (li_segments im) /\
  li_entry im mod 4 = 0 /\ li_image_hash im = hash elf /\
  (exists s, s ∈ li_segments im /\ ram_base + ls_offset s <= li_entry im < ram_base + ends s) /\
  exists h, header elf = Ok h /\ li_entry im = h_entry h /\
    forall i ph, 0 <= i < h_phnum h -> program_header elf h i = Ok ph -> p_type ph = PT_LOAD ->
      p_memsz ph <> 0 ->
      exists s, s ∈ li_segments im /\ ram_base + ls_offset s = p_vaddr ph /\
        ls_bytes s = take (Z.to_nat (p_filesz ph)) (drop (Z.to_nat (p_offset ph)) elf)
                     ++ replicate (Z.to_nat (p_memsz ph - p_filesz ph)) 0.
Proof.
  intros Hb. unfold load_elf32. destruct ((ram_size =? 0) || _) eqn:Er; [discriminate |]. unbool.
  intros (h & Hh & (ps & Hps & E)%bind_Ok_inv)%bind_Ok_inv.
  destruct (place_segments_sound _ _ _ _ _ _ Hb Hps) as [Hall Hex].
  set (sorted := sort_by _ ps) in E. pose proof (sort_by_perm (fun a b => pl_offset a <=? pl_offset b) ps) as Hp.
  fold sorted in Hp. rewrite <- Hp in Hall. destruct (overlapping sorted) eqn:Es; [discriminate |].
  destruct (negb (h_entry h mod 4 =? 0)) eqn:Ee; [discriminate |]. unbool.
  match type of E with context [existsb ?f sorted] => destruct (existsb f sorted) eqn:Ex end; [|discriminate].
  injection E as <-. cbn [li_segments li_entry li_image_hash].
  assert (Hpos : Forall (fun p => 0 <= pl_offset p < Placed.end_ p /\ Placed.end_ p <= ram_size) sorted).
  { eapply Forall_impl; [exact Hall |]. intros p (ph & Hph & _ & Hm & Ho & ? & ? & _ & He).
    destruct (program_header_range _ _ _ _ Hb Hph) as (_ & _ & _ & Hr). unfold in_u in Hr. lia. }
  split_and!; auto.
  - eapply StronglySorted_fmap; [|apply overlapping_None; [|exact Es]]; [intros a b; exact (fun x => x) |].
    eapply Forall_impl; [exact Hpos |]. cbn. lia.
  - apply Forall_fmap. exact Hpos.
  - apply existsb_exists in Ex as (p & Hpin & Hx). unbool. exists (mkLoadSegment (pl_offset p) (pl_bytes p)).
    split; [apply list_elem_of_fmap; exists p; split; [reflexivity | apply list_elem_of_In, Hpin] | split; assumption].
  - exists h. split_and!; auto. intros i ph Hi Hph Ht Hm.
    destruct (Hex i ph (elem_of_indices h i Hi) Hph Ht Hm) as (p & Hin & _ & _ & _ & Ho & _ & _ & Hby & _).
    exists (mkLoadSegment (pl_offset p) (pl_bytes p)). split_and!; [|cbn; lia | exact Hby].
    apply list_elem_of_fmap. exists p. split; [reflexivity | rewrite Hp; exact Hin].
Qed.

(** The memory it gives a segment is bytes. *)
Lemma load_elf32_bytes (hash : list Z -> list Z) (elf : list Z) (ram_base ram_size : Z) (im : LoadImage) :
  bytes_ok elf -> load_elf32 hash elf ram_base ram_size = Ok im -> Forall (fun s => bytes_ok (ls_bytes s)) (li_segments im).
Proof.
  intros Hb. unfold load_elf32. destruct ((ram_size =? 0) || _); [discriminate |].
  intros (h & Hh & (ps & Hps & E)%bind_Ok_inv)%bind_Ok_inv. destruct (place_segments_sound _ _ _ _ _ _ Hb Hps) as [Hall _].
  destruct (overlapping _); [discriminate |]. destruct (negb _); [discriminate |]. destruct (existsb _ _); [|discriminate].
  injection E as <-. apply Forall_fmap. rewrite sort_by_perm. eapply Forall_impl; [exact Hall |].
  intros p (ph & _ & _ & _ & _ & _ & _ & Hbytes & _). cbn. rewrite Hbytes.
  apply Forall_app; split; [apply Forall_take, Forall_drop, Hb | apply Forall_replicate; const_range].
Qed.

(** * Examples *)

(** A little-endian RISC-V executable at [entry] with one loadable segment of [filesz] bytes
    at offset 84 and [memsz] bytes of memory at [vaddr], flags [R X]. *)
Definition example_elf (entry vaddr filesz memsz : Z) : list Z :=
  [0x7f; 0x45; 0x4c; 0x46; 1; 1; 1; 0; 0; 0; 0; 0; 0; 0; 0; 0] ++
  to_le 2 2 ++ to_le 2 243 ++ to_le 4 1 ++ to_le 4 entry ++ to_le 4 52 ++ to_le 4 0 ++ to_le 4 0 ++
  to_le 2 52 ++ to_le 2 32 ++ to_le 2 1 ++ to_le 2 0 ++ to_le 2 0 ++ to_le 2 0 ++
  to_le 4 1 ++ to_le 4 84 ++ to_le 4 vaddr ++ to_le 4 vaddr ++ to_le 4 filesz ++ to_le 4 memsz ++
  to_le 4 5 ++ to_le 4 4096.

Definition example_program : list Z :=
  example_elf 0x10ffc 0x10ffc 8 16 ++ to_le 4 0x00000513 ++ to_le 4 0x05d00893.

Lemma example_program_ok : bytes_ok example_program.
Proof. apply (bool_decide_unpack _). vm_compute. exact I. Qed.

Lemma parse_user_elf32_sound_witness :
  exists im, parse_user_elf32 (take 84 example_program) 92 0x10000 0x20000 = Ok im /\
    image_ok 0x10000 0x20000 92 im /\ (pp_va <$> image_pages im) = [0x10000; 0x11000].
Proof.
  eexists. split; [vm_compute; reflexivity |]. split; [|reflexivity].
  refine (proj1 (parse_user_elf32_sound (take 84 example_program) 92 0x10000 0x20000 _ (fun _ => 0)
    (Forall_take _ _ _ example_program_ok) _ _ _ _)); [const_range | lia | const_range | vm_compute; reflexivity].
Defined.

Lemma load_elf32_sound_witness :
  exists im, load_elf32 (fun _ => []) example_program 0x10000 0x2000 = Ok im /\
    (ls_offset <$> li_segments im) = [0xffc] /\ li_entry im mod 4 = 0.
Proof.
  eexists. split; [vm_compute; reflexivity |]. split; [reflexivity |].
  refine (proj1 (proj2 (proj2 (load_elf32_sound (fun _ => []) example_program 0x10000 0x2000 _
    example_program_ok _)))). vm_compute. reflexivity.
Defined.

(** * What the errors say *)

Local Open Scope string_scope.
Local Open Scope Z_scope.

(** [Display]. *)
Class Display (A : Type) := to_string : A -> string.

Definition SegmentError_fmt (e : SegmentError) : string :=
  match e with
  | FileSizeExceedsMemSize => "p_filesz is larger than p_memsz"
  | FileRangeOutsideFile => "its file range is outside the file"
  | AddressMismatch => "p_vaddr and p_paddr differ"
  | AddressOverflow => "it reaches past the 32-bit address space"
  end.

#[export] Instance SegmentError_display : Display SegmentError := SegmentError_fmt.

Definition ElfError_fmt (e : ElfError) : string :=
  match e with
  | MalformedHeader => "malformed ELF header"
  | InvalidMagic => "not an ELF file"
  | UnsupportedClass c => "ELF class " +:+ dec c +:+ " is not ELFCLASS32"
  | UnsupportedEndian d => "ELF data encoding " +:+ dec d +:+ " is not little-endian"
  | UnsupportedVersion v => "ELF version " +:+ dec v +:+ " is not EV_CURRENT"
  | UnsupportedType t => "ELF type " +:+ dec t +:+ " is not ET_EXEC"
  | UnsupportedMachine m => "ELF machine " +:+ dec m +:+ " is not EM_RISCV"
  | MalformedProgramHeaders => "malformed program-header table"
  | InvalidSegment index reason => "PT_LOAD segment " +:+ dec index +:+ " is invalid: " +:+ to_string reason
  | InvalidRamRegion => "the RAM region is empty or too large"
  | SegmentOutsideRam index => "PT_LOAD segment " +:+ dec index +:+ " is outside the RAM region"
  | OverlappingSegments first second => "PT_LOAD segments " +:+ dec first +:+ " and " +:+ dec second +:+ " overlap"
  | MisalignedEntry e => "entry point " +:+ hex08 e +:+ " is misaligned"
  | EntryOutsideSegments e => "entry point " +:+ hex08 e +:+ " is not in a loaded segment"
  end.

#[export] Instance ElfError_display : Display ElfError := ElfError_fmt.

Definition UserElfError_fmt (e : UserElfError) : string :=
  match e with
  | UE_Header e => to_string e
  | PrefixLongerThanFile => "the ELF prefix is longer than the file"
  | PrefixTooShort needed => "the ELF prefix must hold the first " +:+ dec needed +:+ " bytes of the file"
  | InvalidUserRange => "the user range is empty or not page-aligned"
  | PhdrCountExceeded n => dec n +:+ " program headers exceed the limit of " +:+ dec MAX_PHDRS
  | InvalidSegmentSize index => "PT_LOAD segment " +:+ dec index +:+ " has p_filesz larger than p_memsz"
  | UE_FileRangeOutsideFile index => "PT_LOAD segment " +:+ dec index +:+ " has a file range outside the file"
  | NoPermission index => "PT_LOAD segment " +:+ dec index +:+ " has no permission"
  | WriteWithoutRead index => "PT_LOAD segment " +:+ dec index +:+ " is writable but not readable"
  | SegmentOutsideUserRange index => "PT_LOAD segment " +:+ dec index +:+ " is outside the user range"
  | SegmentOverlap first second => "PT_LOAD segments " +:+ dec first +:+ " and " +:+ dec second +:+ " overlap"
  | SharedPage first second => "PT_LOAD segments " +:+ dec first +:+ " and " +:+ dec second +:+ " share a page"
  | UE_MisalignedEntry e => "entry point " +:+ hex08 e +:+ " is misaligned"
  | EntryNotExecutable e => "entry point " +:+ hex08 e +:+ " is not in an executable segment"
  end.

#[export] Instance UserElfError_display : Display UserElfError := UserElfError_fmt.

Example entry_text : to_string (UE_MisalignedEntry 0x10002) = "entry point 0x00010002 is misaligned".
Proof. vm_compute. reflexivity. Qed.

Example phdr_text : to_string (PhdrCountExceeded 17) = "17 program headers exceed the limit of 16".
Proof. vm_compute. reflexivity. Qed.

Example hex_text : hex 0x1f = "0x1f" /\ hex 0 = "0x0".
Proof. vm_compute. auto. Qed.
