(* ===== verification/M2Reference.v ===== *)
(** The M2 reference platform, [tests/rv32/src/m2ref.rs]: an RV32I CPU and a DMA block controller
    on the multi-initiator bus, with RAM, UART, interrupt controller and disk, configured, wired
    and elaborated.

    [SimulationClock::default()] is the parameter [default_clock], and [blake3::hash] the [hash]
    of [Blake3]. *)
From stdpp Require Import base numbers list option strings gmap.
From Stdlib Require Import ZArith Lia.
From S2P Require Import Prelude Contracts Handlers Snapshots Platform Session Components Scheduler Trace Rng Runtime Topology.
From S2P Require Import SocDevices SocCpu.
From S2P Require Ram Uart Irqc Media Bus Dma MmBus Cpu Elf.

Local Open Scope string_scope.
Local Open Scope list_scope.
Local Open Scope Z_scope.

Definition RAM_BASE : Z := 0x80000000.
Definition RAM_SIZE : Z := 0x01000000.
Definition UART_BASE : Z := 0x10000000.
Definition MAX_INSTRUCTIONS : Z := 10000000.
Definition CPU_HZ : Z := 100000000.

Definition PATHS : list string :=
  ["soc.cpu0"; "soc.bus"; "soc.ram"; "soc.uart"; "soc.irqc"; "soc.blk"; "soc.disk"].
Definition MASTERS : list string := ["cpu"; "dma0"].
Definition REGIONS : list string := ["ram"; "uart"; "irqc"; "blk"].

Definition IRQC_BASE : Z := 0x10001000.
Definition BLK_BASE : Z := 0x10002000.
Definition IRQ_SOURCES : Z := 1.
Definition DISK_BLOCKS : Z := 16.
Definition DISK_LATENCY_CYCLES : Z := 16.
Definition SEED : Z := 0.
Definition PROFILE : Cpu.Rv32iProfile := Cpu.M2.

Record Config : Set := mkConfig {
  seed : Z; ram_size : Z; uart_base : Z; irqc_base : Z; blk_base : Z;
  controller_blocks : Z; media_blocks : Z; dma_base : Z; dma_size : Z; bad_blocks : gset Z }.

Definition frozen : Config :=
  mkConfig SEED RAM_SIZE UART_BASE IRQC_BASE BLK_BASE DISK_BLOCKS DISK_BLOCKS RAM_BASE RAM_SIZE ∅.

Inductive BuildError : Set :=
| CapacityMismatch (controller media : Z)
| ApertureOutsideRam (base size : Z)
| BuildError_Ram (e : Ram.RamConfigError)
| BuildError_Bus (e : MmBus.MultiMasterBusConfigError)
| BuildError_Irqc (e : Irqc.IrqControllerConfigError)
| BuildError_Controller (e : Dma.DmaBlockControllerConfigError)
| BuildError_Media (e : Media.BlockMediaConfigError)
| BuildError_Elaboration (e : ElaborationError).

(** An error returned, or a panic. *)
Inductive BuildFailure : Set :=
| BuildRefused (e : BuildError)
| BuildPanics (what : string).

(** [Box<dyn Component>] of the seven. *)
Abbreviation Device :=
  (Cpu.Rv32iCpu + (MmBus.MultiMasterBus + (Ram.Ram + (Uart.SimpleUart + (Irqc.SimpleIrqController +
   (Dma.DmaBlockController + Media.SimpleBlockMedia))))))%type.

(** The configurations, with the CPU's clock [clk]. *)
Section configurations.
Context (config : Config) (clk : Z).

Let respond : LinkLatency := Latency_Cycles clk 0.

Definition cpu_config (entry : Z) : Cpu.Rv32iConfig := Cpu.mkRv32iConfig clk entry MAX_INSTRUCTIONS PROFILE.

Definition bus_config : MmBus.MultiMasterBusConfig :=
  MmBus.mkMultiMasterBusConfig MASTERS
    [Bus.mkRegion "ram" RAM_BASE (ram_size config); Bus.mkRegion "uart" (uart_base config) Uart.SIZE;
     Bus.mkRegion "irqc" (irqc_base config) Irqc.SIZE; Bus.mkRegion "blk" (blk_base config) Dma.SIZE] clk.

Definition ram_config : Ram.RamConfig := Ram.mkRamConfig (ram_size config) respond.
Definition uart_config : Uart.UartConfig := Uart.mkUartConfig respond.
Definition irqc_config : Irqc.IrqControllerConfig := Irqc.mkIrqControllerConfig IRQ_SOURCES respond.

Definition blk_config : Dma.DmaBlockControllerConfig :=
  Dma.mkDmaConfig clk respond (controller_blocks config) (dma_base config) (dma_size config).

Definition disk_config : Media.BlockMediaConfig :=
  Media.mkBlockMediaConfig (media_blocks config) (Latency_Cycles clk DISK_LATENCY_CYCLES) (bad_blocks config).
End configurations.

Definition ram_image (image : Elf.LoadImage) : Ram.RamImage :=
  Ram.mkRamImage (Elf.li_image_hash image)
    ((fun s => Ram.mkSegment (Elf.ls_offset s) (Elf.ls_bytes s)) <$> Elf.li_segments image).

(** The first check, then whether the DMA aperture lies in the RAM; the sum of the RAM's base and
    size overflows only for a size no RAM accepts. *)
Definition check (config : Config) : result BuildFailure unit :=
  if negb (controller_blocks config =? media_blocks config) then
    Err (BuildRefused (CapacityMismatch (controller_blocks config) (media_blocks config)))
  else
    let outside := Err (BuildRefused (ApertureOutsideRam (dma_base config) (dma_size config))) in
    if dma_base config <? RAM_BASE then outside
    else
      match checked_add 64 (dma_base config) (dma_size config) with
      | None => outside
      | Some end_ =>
          match checked_add 64 RAM_BASE (ram_size config) with
          | None => Err (BuildPanics "attempt to add with overflow")
          | Some ram_end => if end_ <=? ram_end then Ok tt else outside
          end
      end.

Section build.
Context `{EventOrder, Clocks, Protocols, Blake3, SnapshotCodec, !Canonical, !MemCodec, MemClassify}.
Context {Ob : Type}.
Context (default_clock : SimulationClock).

Definition media_image (bytes : list Z) : Media.MediaImage := Media.mkMediaImage (hash bytes) bytes.

(** The seven components, in the order of their construction. *)
Definition components_of (image : Elf.LoadImage) (disk : list Z) (config : Config) (clk : Z) :
    result BuildFailure (list Device) :=
  let refused {E A} (f : E -> BuildError) (r : result E A) := map_err (fun e => BuildRefused (f e)) r in
  cpu ← map_err (fun _ => BuildPanics "the loader guarantees an aligned entry")
          (Cpu.Rv32iCpu.new (cpu_config clk (Elf.li_entry image)));
  bus ← refused BuildError_Bus (MmBus.new (bus_config config clk));
  ram ← ok_or (Ram.new (ram_config config clk) (ram_image image)) (BuildPanics "page index fits u32");
  ram ← refused BuildError_Ram ram;
  irqc ← refused BuildError_Irqc (Irqc.new (irqc_config clk));
  blk ← refused BuildError_Controller (Dma.new (blk_config config clk));
  disk ← refused BuildError_Media (Media.new (disk_config config clk) (media_image disk));
  Ok [inl cpu; inr (inl bus); inr (inr (inl ram)); inr (inr (inr (inl (Uart.new (uart_config clk)))));
      inr (inr (inr (inr (inl irqc)))); inr (inr (inr (inr (inr (inl blk))))); inr (inr (inr (inr (inr (inr disk)))))].

Local Abbreviation T := (ST (TopologyBuilder (B := Device)) BuildFailure).

(** [t.add_component(path, component)] for each; its panic is that of [TopologyBuilder]. *)
Fixpoint add_components (paths : list string) (components : list Device) : T (list Z) :=
  match paths, components with
  | p :: paths, c :: components =>
      id ← (fun t => let '(t, r) := add_component p c t in (t, map_err BuildPanics r));
      ids ← add_components paths components;
      mret (id :: ids)
  | _, _ => mret []
  end.

Definition links (ids : list Z) (clk : Z) (t : TopologyBuilder (B := Device)) : TopologyBuilder (B := Device) :=
  let id i := default 0 (ids !! i) in
  let '(cpu, bus, ram, device) := (id 0%nat, id 1%nat, id 2%nat, id 3%nat) in
  let '(irqc, blk, disk) := (id 4%nat, id 5%nat, id 6%nat) in
  let link := Some (Latency_Cycles clk 1) in
  let t := connect (cpu, "mem") (bus, "cpu") link t in
  let t := connect (bus, "ram") (ram, "mem") link t in
  let t := connect (bus, "uart") (device, "mem") link t in
  let t := connect (bus, "irqc") (irqc, "mem") link t in
  let t := connect (bus, "blk") (blk, "mem") link t in
  let t := connect (blk, "dma") (bus, "dma0") link t in
  let t := connect (blk, "blk") (disk, "blk") link t in
  let t := connect (blk, "irq") (irqc, "src0") link t in
  connect (irqc, "cpu") (cpu, "irq") link t.

(** The declarations of [build]. *)
Definition declare (image : Elf.LoadImage) (disk : list Z) (config : Config) : T unit :=
  cpu_clock ← (fun t =>
    match add_clock (mkFrequency CPU_HZ 1) 0 Rounding_Floor t with
    | (t, Ok id) => (t, Ok id)
    | (t, Err _) => (t, Err (BuildPanics "100 MHz divides the simulation clock"))
    end);
  components ← (fun t => (t, components_of image disk config cpu_clock));
  ids ← add_components PATHS components;
  st_modify (links ids cpu_clock).

Definition session_config (config : Config) : SessionConfig :=
  mkSessionConfig (seed config) (mkSchedulerConfig 1000000).

Definition build (image : Elf.LoadImage) (disk : list Z) (config : Config) :
    result BuildFailure (Runtime (B := Device) (Ob := Ob)) :=
  _ ← check config;
  match declare image disk config (Topology.new default_clock) with
  | (_, Err e) => Err e
  | (t, Ok _) =>
      map_err (fun e => match e with
                        | Rejected e => BuildRefused (BuildError_Elaboration e)
                        | ElabPanics what => BuildPanics what
                        end) (elaborate t (session_config config))
  end.
End build.
