(* ===== verification/M2ReferenceProofs.v ===== *)
(** The M2 reference platform is safe: whatever program it runs and whatever is on its disk,
    a session of it keeps every component's invariant, never panics, and can be saved and resumed
    at any time; and [build] accepts every program the loader accepts, on every disk that fits. *)
From stdpp Require Import base numbers list option strings gmap sorting.
From Stdlib Require Import ZArith Lia.
From S2P Require Import Prelude Contracts Handlers Snapshots Platform Session Components Scheduler Trace Rng Runtime.
From S2P Require Import RuntimeProofs RuntimeInvariant Topology TopologyProofs RuntimeSnapshot.
From S2P Require Import SocDevices SocCpu M2Reference.
From S2P Require Ram Uart Irqc Media Bus Dma MmBus MmBusProofs MmBusSnapshot Cpu CpuProofs Elf RuntimeExamples.

Local Open Scope string_scope.
Local Open Scope list_scope.
Local Open Scope Z_scope.

(** What the types of a configuration and of a load image give. *)
Record config_typed (c : Config) : Prop := {
  ct_seed : in_u 64 (seed c);
  ct_ram_size : in_u 64 (ram_size c);
  ct_uart_base : in_u 64 (uart_base c);
  ct_irqc_base : in_u 64 (irqc_base c);
  ct_blk_base : in_u 64 (blk_base c);
  ct_controller_blocks : in_u 64 (controller_blocks c);
  ct_media_blocks : in_u 64 (media_blocks c);
  ct_dma_base : in_u 64 (dma_base c);
  ct_dma_size : in_u 64 (dma_size c);
  ct_bad_blocks : set_Forall (in_u 64) (bad_blocks c) /\ Z.of_nat (size (bad_blocks c)) < 2 ^ 32;
}.

Record image_typed (image : Elf.LoadImage) : Prop := {
  it_entry : in_u 32 (Elf.li_entry image);
  it_hash : bytes_ok (Elf.li_image_hash image) /\ length (Elf.li_image_hash image) = 32%nat;
  it_segments : Forall (fun s => in_u 32 (Elf.ls_offset s) /\ bytes_ok (Elf.ls_bytes s)) (Elf.li_segments image);
}.

Section built.
Context `{EventOrder, Clocks, Protocols, Blake3, SnapshotCodec, !Canonical, !MemCodec, MemClassify}.

Lemma map_err_Ok {E F A} (f : E -> F) (r : result E A) a : map_err f r = Ok a -> r = Ok a.
Proof. destruct r; cbn; congruence. Qed.

Lemma cpu_built clk entry cpu :
  in_u 32 clk -> in_u 32 entry -> Cpu.Rv32iCpu.new (cpu_config clk entry) = Ok cpu -> soc_cpu_ok cpu.
Proof.
  intros Hc He E. pose proof E as E'. unfold Cpu.Rv32iCpu.new in E'. destruct (negb _) eqn:Ea; [discriminate |].
  apply negb_false_iff in Ea. injection E' as E'. split; [|subst cpu; discriminate].
  eapply CpuProofs.cpu_new_ok; [|exact E]. split; [exact Hc |]. split; [split; [exact He | exact Ea] |]. cbn. unfold MAX_INSTRUCTIONS. lia.
Qed.

Lemma bus_built config clk bus :
  config_typed config -> in_u 32 clk -> MmBus.new (bus_config config clk) = Ok bus -> soc_mm_ok bus.
Proof.
  intros [] Hc E. assert (Ht : Forall Bus.region_typed (MmBus.cfg_regions (bus_config config clk))).
  { cbn. repeat apply Forall_cons_2; [..| constructor]; (split; cbn; [assumption || const_range | assumption || const_range]). }
  split; [exact (proj2 (MmBusProofs.mm_new_exact _ bus Ht) E) |].
  apply (proj1 (MmBusProofs.mm_new_exact _ bus Ht)) in E as [_ ->]. cbn. split_and!; [..| exact Hc];
    apply (bool_decide_unpack _); vm_compute; exact I.
Qed.

Lemma image_segments_typed image : image_typed image -> Forall Ram.segment_typed (Ram.segments (ram_image image)).
Proof.
  intros []. apply Forall_fmap. eapply Forall_impl; [exact it_segments0 |].
  intros s [Ho Hb]. split; [apply (in_u_mono 32); [lia | exact Ho] | exact Hb].
Qed.

Lemma ram_built config clk image ram :
  config_typed config -> in_u 32 clk -> image_typed image ->
  Ram.new (ram_config config clk) (ram_image image) = Some (Ok ram) -> Ram.ram_ok ram.
Proof.
  intros [] Hc Hi E. apply (Ram.ram_new_ok _ _ ram) in E; [exact E | assumption | split; [exact Hc | const_range] | apply Hi | apply Hi |].
  apply image_segments_typed, Hi.
Qed.

Lemma irqc_built clk c : in_u 32 clk -> Irqc.new (irqc_config clk) = Ok c -> Irqc.irq_ok c.
Proof. intros Hc E. apply (Irqc.irq_new_ok _ c) in E; [exact E | const_range | split; [exact Hc | const_range]]. Qed.

Lemma blk_built config clk d : config_typed config -> in_u 32 clk -> Dma.new (blk_config config clk) = Ok d -> Dma.dma_ok d.
Proof.
  intros [] Hc E. apply (Dma.dma_new_ok _ d) in E; [exact E | exact Hc | split; [exact Hc | const_range] |..];
    cbn; unfold in_u in *; lia.
Qed.

Lemma disk_built config clk disk m : config_typed config -> in_u 32 clk -> bytes_ok disk ->
  Media.new (disk_config config clk) (media_image disk) = Ok m -> Media.media_ok m.
Proof.
  intros [] Hc Hb E. destruct (hash_range disk) as [Hh Hl].
  pose proof (Media.media_new_exact (disk_config config clk) (media_image disk)) as Hm. rewrite E in Hm.
  apply Hm; try assumption; [split; [exact Hc | const_range] | apply ct_bad_blocks0 | apply ct_bad_blocks0].
Qed.

(** The components [build] declares satisfy their invariants. *)
Lemma components_built image disk config clk cs :
  image_typed image -> bytes_ok disk -> config_typed config -> in_u 32 clk ->
  components_of image disk config clk = Ok cs -> length cs = 7%nat /\ Forall component_ok cs.
Proof.
  intros Hi Hd Hc Hclk. unfold components_of.
  destruct (map_err _ (Cpu.Rv32iCpu.new _)) as [cpu|] eqn:E1; [|discriminate]. cbn [mbind result_bind].
  destruct (map_err _ (MmBus.new _)) as [bus|] eqn:E2; [|discriminate]. cbn [mbind result_bind].
  destruct (Ram.new _ _) as [rr|] eqn:E3; [|discriminate]. cbn [ok_or mbind result_bind].
  destruct (map_err _ rr) as [ram|] eqn:E3'; [|discriminate]. cbn [mbind result_bind].
  destruct (map_err _ (Irqc.new _)) as [irqc|] eqn:E4; [|discriminate]. cbn [mbind result_bind].
  destruct (map_err _ (Dma.new _)) as [blk|] eqn:E5; [|discriminate]. cbn [mbind result_bind].
  destruct (map_err _ (Media.new _ _)) as [dsk|] eqn:E6; [|discriminate]. intros [= <-].
  apply map_err_Ok in E1, E2, E3', E4, E5, E6. subst rr. split; [reflexivity |]. repeat apply Forall_cons_2; [..| constructor]; cbn.
  - eapply cpu_built; [exact Hclk | apply Hi | exact E1].
  - eapply bus_built; [exact Hc | exact Hclk | exact E2].
  - eapply ram_built; eassumption.
  - constructor.
  - eapply irqc_built; eassumption.
  - eapply blk_built; eassumption.
  - eapply disk_built; eassumption.
Qed.
End built.

Section sessions.
Context `{EventOrder, Clocks, Protocols, Blake3, SnapshotCodec, !Canonical, !DomainCodec, !MemCodec, MemClassify}.
Context {Ob : Type} `{!Observer Device Ob}.
Context (default_clock : SimulationClock).

Local Abbreviation Runtime := (Runtime (B := Device) (Ob := Ob)).

(** The links of [build], with the ids the components get. *)
Definition m2_links : list DeclaredLink :=
  (fun '(a, b) => mkDeclaredLink a b (Some (Latency_Cycles 0 1))) <$>
  [((0, "mem"), (1, "cpu")); ((1, "ram"), (2, "mem")); ((1, "uart"), (3, "mem")); ((1, "irqc"), (4, "mem"));
   ((1, "blk"), (5, "mem")); ((5, "dma"), (1, "dma0")); ((5, "blk"), (6, "blk")); ((5, "irq"), (4, "src0"));
   ((4, "cpu"), (0, "irq"))].

Lemma declare_spec image disk config :
  match new_domain default_clock 0 (mkFrequency CPU_HZ 1) 0 Rounding_Floor with
  | Err _ => exists t what, declare image disk config (Topology.new default_clock) = (t, Err (BuildPanics what))
  | Ok d =>
      match components_of image disk config 0 with
      | Err e => exists t, declare image disk config (Topology.new default_clock) = (t, Err e)
      | Ok cs => length cs = 7%nat -> declare image disk config (Topology.new default_clock) =
          (mkTopologyBuilder default_clock [d] (zip_with mkDeclared PATHS cs) m2_links, Ok tt)
      end
  end.
Proof.
  unfold declare. rewrite ST_bind_unfold. unfold add_clock. cbn [Topology.new t_domains t_clock length].
  change (Z.of_nat 0) with 0. change (2 ^ 32 <=? 0) with false. cbn iota.
  destruct (new_domain _ _ _ _ _) as [d|e]; [|eauto]. cbn beta iota zeta.
  rewrite ST_bind_unfold. destruct (components_of image disk config 0) as [cs|e]; [|eauto]. intros Hlen.
  destruct cs as [|c0 [|c1 [|c2 [|c3 [|c4 [|c5 [|c6 [|]]]]]]]]; try discriminate Hlen. reflexivity.
Qed.

Lemma declared_platform image disk config t u :
  (forall cs, components_of image disk config 0 = Ok cs -> length cs = 7%nat) ->
  declare image disk config (Topology.new default_clock) = (t, Ok u) ->
  exists d cs, components_of image disk config 0 = Ok cs /\
    t = mkTopologyBuilder default_clock [d] (zip_with mkDeclared PATHS cs) m2_links.
Proof.
  intros Hlen E. pose proof (declare_spec image disk config) as Hs.
  destruct (new_domain _ _ _ _ _) as [d|]; [|destruct Hs as (t' & what & Hs); congruence].
  destruct (components_of image disk config 0) as [cs|e]; [|destruct Hs as [t' Hs]; congruence].
  exists d, cs. split; [reflexivity |]. rewrite (Hs (Hlen cs eq_refl)) in E. congruence.
Qed.

Lemma built_topology image disk config (r : Runtime) :
  image_typed image -> bytes_ok disk -> config_typed config -> build default_clock image disk config = Ok r ->
  exists t, builder_ok t /\ in_u 32 (Z.of_nat (length (t_domains t))) /\ config_ok (session_config config) /\
    Forall (fun d => component_ok (declared d)) (t_components t) /\ elaborate t (session_config config) = Ok r.
Proof.
  intros Hi Hd Hc. unfold build. destruct (check config) as [u|]; [|discriminate]. cbn [mbind result_bind].
  pose proof (fun cs => components_built image disk config 0 cs Hi Hd Hc ltac:(const_range)) as Hcs.
  destruct (declare image disk config _) as [t [u'|]] eqn:E; [|discriminate].
  apply declared_platform in E as (d & cs & Ecs & ->); [|intros cs Ecs; apply (Hcs cs Ecs)].
  destruct (Hcs cs Ecs) as [Hlen Hok]. intros Ee%map_err_Ok. eexists. split_and!; [| | split; [apply Hc | const_range] | | exact Ee].
  all: destruct cs as [|c0 [|c1 [|c2 [|c3 [|c4 [|c5 [|c6 [|]]]]]]]]; try discriminate Hlen.
  - split; [reflexivity |]. split; [apply (bool_decide_unpack _); vm_compute; exact I | repeat constructor].
  - const_range.
  - repeat (apply Forall_cons in Hok as [? Hok]). repeat apply Forall_cons_2; [assumption.. | constructor].
Qed.


(** ** What [build] accepts *)

(** The seven components [build] makes of a program at [entry], a RAM and a disk. *)
Definition m2_components (entry : Z) (ram : Ram.Ram) (dsk : Media.SimpleBlockMedia) : list Device :=
  [inl (Cpu.mkRv32iCpu (cpu_config 0 entry) entry Instr.RegisterFile.new 0 0 (Cpu.State_FetchIssue None) Csr.CsrFile.new Privileged.M3State.new);
   inr (inl (MmBusProofs.idle_bus (bus_config frozen 0))); inr (inr (inl ram)); inr (inr (inr (inl (Uart.new (uart_config 0)))));
   inr (inr (inr (inr (inl (Irqc.mkSimpleIrqController (irqc_config 0) 1 0 0 false)))));
   inr (inr (inr (inr (inr (inl (Dma.mkDma (blk_config frozen 0) 0 0 0 0 false false false 0 None Dma.Engine_Idle 0 0 [] 0 0 false))))));
   inr (inr (inr (inr (inr (inr dsk)))))].

Lemma components_frozen image disk ram :
  aligned4 (Elf.li_entry image) = true -> Ram.new (ram_config frozen 0) (ram_image image) = Some (Ok ram) ->
  components_of image disk frozen 0 =
  match Media.new (disk_config frozen 0) (media_image disk) with
  | Ok dsk => Ok (m2_components (Elf.li_entry image) ram dsk)
  | Err e => Err (BuildRefused (BuildError_Media e))
  end.
Proof.
  intros Ha Er. unfold components_of. unfold Cpu.Rv32iCpu.new. cbn [cpu_config Cpu.entry]. rewrite Ha. cbn [negb map_err mbind result_bind].
  assert (Eb : MmBus.new (bus_config frozen 0) = Ok (MmBusProofs.idle_bus (bus_config frozen 0))) by (vm_compute; reflexivity).
  rewrite Eb. cbn [map_err mbind result_bind]. rewrite Er. cbn [ok_or map_err mbind result_bind].
  assert (Ei : Irqc.new (irqc_config 0) = Ok (Irqc.mkSimpleIrqController (irqc_config 0) 1 0 0 false)) by (vm_compute; reflexivity).
  rewrite Ei. cbn [map_err mbind result_bind].
  assert (Ed : Dma.new (blk_config frozen 0) = Ok (Dma.mkDma (blk_config frozen 0) 0 0 0 0 false false false 0 None Dma.Engine_Idle 0 0 [] 0 0 false))
    by (vm_compute; reflexivity).
  rewrite Ed. cbn [map_err mbind result_bind]. destruct (Media.new _ _); reflexivity.
Qed.

(** The other ends of the ports, by component and port. *)
Definition m2_wiring : list (list Peer) :=
  let p c port := mkPeer c port (Some (Latency_Cycles 0 1)) in
  [[p 1 0; p 4 1]; [p 0 0; p 5 1; p 2 0; p 3 0; p 4 2; p 5 0]; [p 1 2]; [p 1 3]; [p 5 3; p 0 1; p 1 4];
   [p 1 5; p 1 1; p 6 0; p 4 0]; [p 5 2]].

Lemma elaborated_platform d entry ram dsk :
  exists r : Runtime, elaborate (mkTopologyBuilder default_clock [d] (zip_with mkDeclared PATHS (m2_components entry ram dsk)) m2_links)
    (session_config frozen) = Ok r /\ lifecycle r = Elaborated /\ components r = m2_components entry ram dsk /\ peers r = m2_wiring.
Proof.
  unfold elaborate. cbn [t_components t_domains t_links t_clock].
  set (ds := zip_with mkDeclared PATHS (m2_components entry ram dsk)).
  assert (Hs : elaborate_slots [] ds = Ok (slot_of <$> ds)) by reflexivity.
  rewrite Hs. cbn [mbind result_bind].
  assert (Hl : exists decls, elaborate_links (slot_of <$> ds) [d] m2_links
      ((fun s => replicate (length (slot_ports s)) None) <$> (slot_of <$> ds)) = Ok (decls, fmap (M := list) (fmap (M := list) Some) m2_wiring))
    by (eexists; vm_compute; reflexivity).
  destruct Hl as [decls ->]. cbn [mbind result_bind].
  change (unconnected (slot_of <$> ds) _) with (None (A := string)).
  change (mapM (mapM id) _) with (Some m2_wiring). cbn [ok_or mbind result_bind]. unfold from_elaboration.
  destruct (for_components_Some (session_config frozen) ds) as (gs & -> & _); [repeat constructor |]. cbn [mbind option_bind ok_or].
  eexists. split; [reflexivity |]. split_and!; reflexivity.
Qed.

Lemma sorted_lookup {A} (R : relation A) l : StronglySorted R l ->
  forall i j x y, l !! i = Some x -> l !! j = Some y -> (i < j)%nat -> R x y.
Proof.
  induction 1 as [|a l _ IH Ha]; intros i j x y Hi Hj Hlt; [discriminate |]. destruct j as [|j]; [lia |]. destruct i as [|i]; cbn in *.
  - injection Hi as <-. rewrite Forall_forall in Ha. apply Ha, list_elem_of_lookup. eauto.
  - apply (IH i j); [exact Hi | exact Hj | lia].
Qed.

(** A program the loader accepts is an image the RAM accepts. *)
Lemma loaded_image elf image :
  bytes_ok elf -> Elf.load_elf32 hash elf RAM_BASE RAM_SIZE = Ok image ->
  image_typed image /\ Ram.image_ok (ram_config frozen 0) (Ram.segments (ram_image image)) /\ aligned4 (Elf.li_entry image) = true.
Proof.
  intros Hb E. pose proof (Elf.load_elf32_bytes hash elf RAM_BASE RAM_SIZE image Hb E) as Hbs.
  destruct (Elf.load_elf32_sound hash elf RAM_BASE RAM_SIZE image Hb E) as (Hsort & Hin & Hal & Hh & (s & Hs & He) & _).
  unfold RAM_BASE, RAM_SIZE in *. split_and!.
  - split.
    + rewrite Forall_forall in Hin. destruct (Hin s Hs). unfold in_u. lia.
    + rewrite Hh. apply hash_range.
    + rewrite Forall_forall in *. intros x Hx. destruct (Hin x Hx). split; [unfold in_u; lia | apply Hbs, Hx].
  - split.
    + apply Forall_fmap. eapply Forall_impl; [exact Hin |]. cbn. unfold RAM_SIZE. intros x [_ Hx]. exact Hx.
    + intros i j x y a Hi Hj Hne Hx Hy. apply list_lookup_fmap_Some in Hi as (x' & -> & Hi), Hj as (y' & -> & Hj).
      unfold Ram.covers in *. cbn in *. destruct (Nat.lt_gt_cases i j) as [[Hlt|Hlt] _]; [exact Hne | |].
      * pose proof (sorted_lookup _ _ Hsort i j _ _ Hi Hj Hlt) as Ho. cbn in Ho. lia.
      * pose proof (sorted_lookup _ _ Hsort j i _ _ Hj Hi Hlt) as Ho. cbn in Ho. lia.
  - unfold aligned4. apply Z.eqb_eq, Hal.
Qed.

(** C6: every program the loader accepts runs on [m2-reference], on every disk of whole blocks that
    fits: [build] makes the session, not yet initialized, with the CPU at the entry point, the
    program's segments in RAM at their addresses and the disk image in the media, its ports wired
    as the platform says.  A disk that does not fit is refused by the media, and nothing else
    goes wrong. *)
Theorem m2_reference_builds elf image disk d :
  bytes_ok elf -> Elf.load_elf32 hash elf RAM_BASE RAM_SIZE = Ok image -> bytes_ok disk ->
  new_domain default_clock 0 (mkFrequency CPU_HZ 1) 0 Rounding_Floor = Ok d ->
  let fits := exists n, length disk = (n * BLOCK_SIZE)%nat /\ Z.of_nat n <= DISK_BLOCKS in
  match build default_clock image disk frozen : result _ Runtime with
  | Ok r =>
      fits /\ lifecycle r = Elaborated /\ peers r = m2_wiring /\
      exists ram dsk, components r = m2_components (Elf.li_entry image) ram dsk /\
        (forall s i, s ∈ Elf.li_segments image -> (i < length (Elf.ls_bytes s))%nat ->
           Ram.byte ram (Elf.ls_offset s + Z.of_nat i) = nth i (Elf.ls_bytes s) 0) /\
        (forall k, 0 <= k -> Media.load dsk k =
           if k <? Z.of_nat (length disk / BLOCK_SIZE) then Media.image_block disk (Z.to_nat k) else Media.zero_block)
  | Err e => ~ fits /\ exists e', e = BuildRefused (BuildError_Media e')
  end.
Proof.
  intros Hb Hload Hd Hdom fits. destruct (loaded_image elf image Hb Hload) as (Hi & Hok & Ha).
  destruct (Ram.ram_new_exact (ram_config frozen 0) (ram_image image)) as [Hr _];
    [const_range | split; const_range | apply Hi | apply Hi | apply image_segments_typed, Hi |].
  destruct Hr as (ram & Eram & _ & _ & Hbytes & _); [split; [vm_compute; split; (reflexivity || discriminate) | exact Hok] |].
  pose proof (components_frozen image disk ram Ha Eram) as Ec. pose proof (declare_spec image disk frozen) as Hs. rewrite Hdom, Ec in Hs.
  destruct (hash_range disk) as [Hh Hl].
  pose proof (Media.media_new_exact (disk_config frozen 0) (media_image disk) ltac:(const_range) ltac:(split; const_range)
    (set_Forall_empty _) ltac:(reflexivity) Hh Hl Hd) as Hm.
  unfold build. change (check frozen) with (Ok (E := BuildFailure) tt). cbn [mbind result_bind].
  destruct (Media.new _ _) as [dsk|e].
  - rewrite (Hs eq_refl). destruct (elaborated_platform d (Elf.li_entry image) ram dsk) as (r & -> & Hlc & Hcs & Hps). cbn [map_err].
    destruct Hm as (Hfits & _ & _ & Hload'). split_and!; auto. exists ram, dsk. split_and!; [exact Hcs | | exact Hload'].
    intros s i Hin Hlt. apply (Hbytes (Ram.mkSegment (Elf.ls_offset s) (Elf.ls_bytes s)) i); [|exact Hlt].
    apply list_elem_of_fmap. eauto.
  - destruct Hs as [t ->]. split; [|eauto]. destruct Hm as [Hm|Hm]; [discriminate Hm | exact Hm].
Qed.
End sessions.

(** * Witnesses

    [m2-reference] with a program of two instructions and a disk of one block, on the instances of
    [RuntimeExamples]. *)

#[local] Existing Instance lexicographic_order.
#[local] Existing Instance documented_classify.
#[local] Existing Instance le_codec.
#[local] Existing Instance le_mem_codec.
#[local] Existing Instance RuntimeExamples.picoseconds.
#[local] Existing Instance RuntimeExamples.message_protocols.
#[local] Existing Instance RuntimeExamples.checksum_hash.
#[local] Existing Instance RuntimeExamples.le_canonical.
#[local] Existing Instance RuntimeExamples.le_domains.

#[local] Instance unwatched : Observer Device unit := {
  on_after_dispatch _ _ _ o := (o, Control_Continue);
  on_observe _ _ _ o := (o, Control_Continue);
  on_trace _ o := o;
}.

(** [addi a0, zero, 0; addi a7, zero, 93], then zeros: the third instruction is illegal. *)
Definition m2_program : list Z :=
  Elf.example_elf 0x80000000 0x80000000 8 16 ++ to_le 4 0x00000513 ++ to_le 4 0x05d00893.

Definition m2_program_image : Elf.LoadImage :=
  match Elf.load_elf32 hash m2_program RAM_BASE RAM_SIZE with Ok im => im | Err _ => Elf.mkLoadImage [] 0 [] end.

Lemma m2_program_loaded : Elf.load_elf32 hash m2_program RAM_BASE RAM_SIZE = Ok m2_program_image.
Proof. vm_compute. reflexivity. Qed.

Definition m2_disk : list Z := replicate 512 7.

Lemma m2_program_bytes : bytes_ok m2_program.
Proof. apply (bool_decide_unpack _). vm_compute. exact I. Qed.

Lemma m2_disk_bytes : bytes_ok m2_disk.
Proof. apply Forall_replicate. const_range. Qed.

Lemma frozen_typed : config_typed frozen.
Proof. split; [const_range.. | split; [apply set_Forall_empty | reflexivity]]. Qed.

Definition m2_session : Runtime (B := Device) (Ob := unit) :=
  match build tt m2_program_image m2_disk frozen with
  | Ok r => r
  | Err _ => mkRuntime tt [] [] [] [] [] [] [] (mkSessionConfig 0 (mkSchedulerConfig 0)) (Scheduler.new (mkSchedulerConfig 0)) [] Elaborated None false None [] [] []
  end.

Definition accepted {E A} (r : result E A) : bool := match r with Ok _ => true | Err _ => false end.

Lemma m2_accepted : accepted (build (Ob := unit) tt m2_program_image m2_disk frozen) = true.
Proof. vm_compute. reflexivity. Qed.

Lemma m2_built : build tt m2_program_image m2_disk frozen = Ok m2_session.
Proof. unfold m2_session. pose proof m2_accepted as Hb. destruct (build _ _ _ _); [reflexivity | discriminate Hb]. Qed.

Lemma m2_program_typed : image_typed m2_program_image.
Proof. apply (loaded_image m2_program); [exact m2_program_bytes | exact m2_program_loaded]. Qed.

(** The program initialized, then run for three nanoseconds, with an event pending. *)
Definition m2_started : Runtime (B := Device) (Ob := unit) := fst (apply_call Call_init m2_session).

Local Abbreviation m2_running := (fst (drive [Call_run_until 60 3000] m2_started)).

Lemma m2_running_ready : lifecycle m2_running = Ready.
Proof. vm_compute. reflexivity. Qed.

#[local] Existing Instance RuntimeExamples.delivery_fits_dec.

#[local] Instance mem_len_dec m : Decision (mem_len_ok m).
Proof. destruct m as [|? []| |]; cbn; apply _. Defined.

#[local] Instance device_fits_dec (s : Device) : Decision (snapshot_fits s).
Proof.
  destruct s as [|[|[|[|[|[|]]]]]]; cbn; [apply _ | | apply _..].
  unfold MmBusSnapshot.queues_fit, MmBusSnapshot.queue_fits. apply _.
Defined.

Lemma m2_running_encodable : encodable m2_running.
Proof. apply (bool_decide_unpack _). vm_compute. exact I. Qed.

(** It keeps the invariant, and is saved and resumed, even from a session that restored it. *)
Local Abbreviation m2_rewound := (fst (restore (encode m2_running) m2_session)).

Lemma m2_rewound_ready : lifecycle m2_rewound = Ready.
Proof. vm_compute. reflexivity. Qed.

Lemma m2_rewound_encodable : encodable m2_rewound.
Proof. apply (bool_decide_unpack _). vm_compute. exact I. Qed.

Lemma m2_running_driven : driven m2_session m2_running.
Proof. apply driven_drive. unfold m2_started. apply driven_call, driven_built. Qed.

Lemma m2_rewound_driven : driven m2_session m2_rewound.
Proof.
  apply (driven_restore _ _ m2_running); [apply driven_built | exact m2_running_driven | exact m2_running_encodable |].
  apply ready_snapshot, m2_running_ready.
Qed.


(** The disk of one block fits. *)
Lemma m2_reference_builds_witness :
  lifecycle m2_session = Elaborated /\ peers m2_session = m2_wiring.
Proof.
  pose proof (m2_reference_builds (H0 := RuntimeExamples.picoseconds) (Ob := unit) tt m2_program m2_program_image m2_disk 0
    m2_program_bytes m2_program_loaded m2_disk_bytes eq_refl) as Hb.
  cbv zeta in Hb. rewrite m2_built in Hb. split; apply Hb.
Defined.
