(* ===== verification/Words.v ===== *)
(** Byte strings read as little-endian 32-bit words: trap frames and disk blocks. *)
From stdpp Require Import base numbers list option.
From Stdlib Require Import ZArith Lia.
From S2P Require Import Prelude.

Local Open Scope list_scope.
Local Open Scope Z_scope.

(** The bytes of word [i]. *)
Definition slice (frame : list Z) (i : nat) : list Z := take 4 (drop (4 * i) frame).

Lemma length_words (l : list Z) : length (l ≫= to_le 4) = (4 * length l)%nat.
Proof. induction l as [|a l IH]; [reflexivity |]. rewrite bind_cons, length_app, length_to_le, IH. cbn. lia. Qed.

Lemma slice_words (l : list Z) i w : l !! i = Some w -> slice (l ≫= to_le 4) i = to_le 4 w.
Proof.
  intros Hi. unfold slice. rewrite <- (take_drop_middle l i w Hi), bind_app, bind_cons.
  assert (Hl : length (take i l) = i) by (apply lookup_lt_Some in Hi; rewrite length_take; lia).
  rewrite drop_app_length' by (rewrite length_words, Hl; reflexivity).
  apply take_app_length'. symmetry. apply length_to_le.
Qed.

Lemma slices_all (frame : list Z) n : forall k,
  seq k n ≫= slice frame = take (4 * n) (drop (4 * k) frame).
Proof.
  induction n as [|n IH]; intros k; [reflexivity |]. cbn [seq]. rewrite bind_cons, IH. unfold slice.
  replace (4 * S n)%nat with (4 + 4 * n)%nat by lia. replace (4 * S k)%nat with (4 * k + 4)%nat by lia.
  rewrite <- drop_drop, <- take_take_drop. reflexivity.
Qed.

Lemma slice_length bs i : (4 * i + 4 <= length bs)%nat -> length (slice bs i) = 4%nat.
Proof. intros Hi. unfold slice. rewrite length_take, length_drop. lia. Qed.

(** A byte string of whole words is the bytes of its words. *)
Lemma words_of_slices bs n :
  bytes_ok bs -> length bs = (4 * n)%nat -> ((fun i => from_le (slice bs i)) <$> seq 0 n) ≫= to_le 4 = bs.
Proof.
  intros Hb Hl. transitivity (seq 0 n ≫= slice bs).
  - assert (Hs : forall l, (forall i, i ∈ l -> (i < n)%nat) -> ((fun i => from_le (slice bs i)) <$> l) ≫= to_le 4 = l ≫= slice bs).
    { induction l as [|i l IH]; intros Hin; [reflexivity |]. rewrite fmap_cons, !bind_cons. f_equal.
      - rewrite <- (slice_length bs i) at 1 by (specialize (Hin i ltac:(left)); lia). apply to_from_le.
        apply Forall_take, Forall_drop, Hb.
      - apply IH. intros j Hj. apply Hin. right. exact Hj. }
    apply Hs. intros i Hi%elem_of_seq. lia.
  - rewrite slices_all, drop_0. apply take_ge. lia.
Qed.

(** Overwriting one word. *)
Definition put_word (bs : list Z) (at_ : nat) (v : Z) : list Z := take at_ bs ++ to_le 4 v ++ drop (at_ + 4) bs.

Lemma put_word_words (l : list Z) i v :
  (i < length l)%nat -> put_word (l ≫= to_le 4) (4 * i) v = <[i := v]> l ≫= to_le 4.
Proof.
  intros Hi. destruct (lookup_lt_is_Some_2 l i Hi) as [w Hw]. unfold put_word.
  rewrite insert_take_drop by exact Hi. rewrite <- (take_drop_middle l i w Hw) at 1 2.
  rewrite !bind_app, !bind_cons.
  assert (Ht : length (take i l ≫= to_le 4) = (4 * i)%nat) by (rewrite length_words, length_take; lia).
  rewrite take_app_length' by auto. do 2 f_equal.
  rewrite <- drop_drop, drop_app_length' by auto. apply drop_app_length'. rewrite length_to_le. reflexivity.
Qed.

Lemma words_take (l : list Z) n : take (4 * n) (l ≫= to_le 4) = take n l ≫= to_le 4.
Proof.
  revert l. induction n as [|n IH]; intros [|a l]; rewrite ?take_0; try reflexivity.
  rewrite bind_cons, firstn_cons, bind_cons. replace (4 * S n)%nat with (4 + 4 * n)%nat by lia.
  rewrite take_app_ge by (rewrite length_to_le; lia). rewrite length_to_le. replace (4 + 4 * n - 4)%nat with (4 * n)%nat by lia. f_equal. apply IH.
Qed.

Lemma words_drop (l : list Z) n : drop (4 * n) (l ≫= to_le 4) = drop n l ≫= to_le 4.
Proof.
  revert l. induction n as [|n IH]; intros [|a l]; rewrite ?drop_0; try reflexivity.
  rewrite bind_cons, skipn_cons. replace (4 * S n)%nat with (4 + 4 * n)%nat by lia.
  rewrite drop_app_ge by (rewrite length_to_le; lia). rewrite length_to_le. replace (4 + 4 * n - 4)%nat with (4 * n)%nat by lia. apply IH.
Qed.

Lemma lookup_bind_equal {A B} (f : A -> list B) n (l : list A) : forall i,
  (0 < n)%nat -> (forall a, length (f a) = n) ->
  (l ≫= f) !! i = (a ← l !! (i / n)%nat; f a !! (i mod n)%nat).
Proof.
  induction l as [|a l IH]; intros i Hn Hf; cbn; [reflexivity |]. destruct (Nat.lt_ge_cases i n) as [Hi|Hi].
  - rewrite lookup_app_l by (rewrite Hf; exact Hi). rewrite Nat.div_small, Nat.mod_small by exact Hi. reflexivity.
  - rewrite lookup_app_r, Hf, IH by (rewrite ?Hf; assumption).
    assert (Hd : (i / n = S ((i - n) / n))%nat)
      by (replace i with (i - n + 1 * n)%nat at 1 by lia; rewrite Nat.div_add by lia; lia).
    assert (Hm : (i mod n = (i - n) mod n)%nat)
      by (replace i with (i - n + 1 * n)%nat at 1 by lia; apply Nat.Div0.mod_add).
    rewrite Hd, Hm. reflexivity.
Qed.
