(* ===== verification/ExecTable.v ===== *)
(** The boot executable table, [elf/src/exec_table.rs]: block 0 of a boot disk.

    Proved: [parse_exec_table] accepts exactly the encodings of the valid tables, so parsing
    inverts encoding, every other block is refused, and an accepted table names disjoint
    files inside the disk that fit the staging area. *)
From stdpp Require Import base numbers list option strings.
From Stdlib Require Import ZArith Lia.
From S2P Require Import Prelude Words Elf Text.

Local Open Scope string_scope.
Local Open Scope list_scope.
Local Open Scope Z_scope.

Definition BLOCK_SIZE : Z := 512.
Definition MAGIC : Z := 0x30585353.
Definition VERSION : Z := 0.
Definition MAX_ENTRIES : nat := 8.

Definition HEADER_SIZE : nat := 16.
Definition ENTRY_SIZE : nat := 16.
Definition TABLE_END : nat := HEADER_SIZE + MAX_ENTRIES * ENTRY_SIZE.

Record ExecEntry : Set := mkExecEntry { start_lba : Z; byte_len : Z }.

#[export] Instance ExecEntry_eq_dec : EqDecision ExecEntry.
Proof. solve_decision. Defined.

Module ExecEntry.
(** [div_ceil]. *)
Definition blocks (e : ExecEntry) : Z := (byte_len e + BLOCK_SIZE - 1) / BLOCK_SIZE.

Definition end_lba (e : ExecEntry) : Z := start_lba e + blocks e.
End ExecEntry.

Record ExecTable : Set := mkExecTable { entries : list ExecEntry }.

#[export] Instance ExecTable_eq_dec : EqDecision ExecTable.
Proof. solve_decision. Defined.

Inductive ExecTableError : Set :=
| Exec_BadMagic (m : Z)
| Exec_BadVersion (v : Z)
| Exec_BadCount (n : Z)
| Exec_NonZeroReserved (offset : nat)
| Exec_NonZeroUnusedEntry (slot : nat)
| Exec_LbaZero (entry : nat)
| Exec_EmptyFile (entry : nat)
| Exec_TooLarge (entry : nat)
| Exec_OutsideDisk (entry : nat)
| Exec_Overlap (first second : nat).

Definition ExecTableError_fmt (e : ExecTableError) : string :=
  let n (i : nat) := dec (Z.of_nat i) in
  match e with
  | Exec_BadMagic m => "bad execution table magic " +:+ hex08 m
  | Exec_BadVersion v => "unsupported execution table version " +:+ dec v
  | Exec_BadCount c => "execution table count " +:+ dec c +:+ " is not in 1..=" +:+ n MAX_ENTRIES
  | Exec_NonZeroReserved offset =>
      "reserved execution table word at " +:+ hex (Z.of_nat offset) +:+ " is not zero"
  | Exec_NonZeroUnusedEntry slot => "unused execution table slot " +:+ n slot +:+ " is not zero"
  | Exec_LbaZero entry => "execution table entry " +:+ n entry +:+ " starts at block 0"
  | Exec_EmptyFile entry => "execution table entry " +:+ n entry +:+ " is empty"
  | Exec_TooLarge entry => "execution table entry " +:+ n entry +:+ " is larger than the staging area"
  | Exec_OutsideDisk entry => "execution table entry " +:+ n entry +:+ " goes past the end of the disk"
  | Exec_Overlap first second =>
      "execution table entries " +:+ n first +:+ " and " +:+ n second +:+ " overlap"
  end.

#[export] Instance ExecTableError_display : Display ExecTableError := ExecTableError_fmt.

(** A block is an array of 512 bytes: the indices of [word] and [put] are inside it. *)
Definition word (block : list Z) (at_ : nat) : Z := from_le (take 4 (drop at_ block)).

Definition put (block : list Z) (at_ : nat) (value : Z) : list Z := put_word block at_ value.

(** [for (entry, e) in entries.iter().enumerate()]. *)
Fixpoint check_ranges (capacity staging : Z) (entry : nat) (l : list ExecEntry) : result ExecTableError unit :=
  match l with
  | [] => Ok tt
  | e :: l =>
      if start_lba e =? 0 then Err (Exec_LbaZero entry)
      else if byte_len e =? 0 then Err (Exec_EmptyFile entry)
      else if staging <? byte_len e then Err (Exec_TooLarge entry)
      else if capacity <? ExecEntry.end_lba e then Err (Exec_OutsideDisk entry)
      else check_ranges capacity staging (S entry) l
  end.

Definition overlap (a b : ExecEntry) : bool :=
  (start_lba a <? ExecEntry.end_lba b) && (start_lba b <? ExecEntry.end_lba a).

(** [for (first, a) in entries[..second].iter().enumerate()]. *)
Fixpoint check_before (b : ExecEntry) (second first : nat) (l : list ExecEntry) : result ExecTableError unit :=
  match l with
  | [] => Ok tt
  | a :: l => if overlap a b then Err (Exec_Overlap first second) else check_before b second (S first) l
  end.

(** [for (second, b) in entries.iter().enumerate()], with the entries before it. *)
Fixpoint check_overlap (before l : list ExecEntry) : result ExecTableError unit :=
  match l with
  | [] => Ok tt
  | b :: l =>
      _ ← check_before b (length before) 0 before;
      check_overlap (before ++ [b]) l
  end.

Definition check_entries (l : list ExecEntry) (capacity staging : Z) : result ExecTableError unit :=
  _ ← check_ranges capacity staging 0 l;
  check_overlap [] l.

Definition slot (i : nat) : nat := HEADER_SIZE + i * ENTRY_SIZE.

(** The loop over the reserved words. *)
Fixpoint check_reserved (block : list Z) (l : list nat) : result ExecTableError unit :=
  match l with
  | [] => Ok tt
  | offset :: l =>
      if negb (word block offset =? 0) then Err (Exec_NonZeroReserved offset) else check_reserved block l
  end.

Definition nonzero (b : Z) : bool := negb (b =? 0).

(** [for i in used..MAX_ENTRIES]. *)
Fixpoint check_unused (block : list Z) (l : list nat) : result ExecTableError unit :=
  match l with
  | [] => Ok tt
  | i :: l =>
      if existsb nonzero (take ENTRY_SIZE (drop (slot i) block)) then Err (Exec_NonZeroUnusedEntry i)
      else check_unused block l
  end.

Definition parse_exec_table (block : list Z) (capacity staging : Z) : result ExecTableError ExecTable :=
  let magic := word block 0 in
  if negb (magic =? MAGIC) then Err (Exec_BadMagic magic) else
  let version := word block 4 in
  if negb (version =? VERSION) then Err (Exec_BadVersion version) else
  let count := word block 8 in
  if negb ((1 <=? count) && (count <=? Z.of_nat MAX_ENTRIES)) then Err (Exec_BadCount count) else
  let used := Z.to_nat count in
  if negb (word block 12 =? 0) then Err (Exec_NonZeroReserved 12) else
  _ ← check_reserved block (seq 0 used ≫= fun i => [slot i + 8; slot i + 12]%nat);
  _ ← check_unused block (seq used (MAX_ENTRIES - used));
  if existsb nonzero (drop TABLE_END block) then Err (Exec_NonZeroUnusedEntry MAX_ENTRIES) else
  let entries := (fun i => mkExecEntry (word block (slot i)) (word block (slot i + 4))) <$> seq 0 used in
  _ ← check_entries entries capacity staging;
  Ok (mkExecTable entries).

Module ExecTable.
(** [for (i, e) in self.entries.iter().enumerate()]. *)
Fixpoint put_entries (block : list Z) (i : nat) (l : list ExecEntry) : list Z :=
  match l with
  | [] => block
  | e :: l => put_entries (put (put block (slot i) (start_lba e)) (slot i + 4) (byte_len e)) (S i) l
  end.

Definition encode (t : ExecTable) : result ExecTableError (list Z) :=
  let count := length (entries t) in
  if negb ((1 <=? count)%nat && (count <=? MAX_ENTRIES)%nat)
  then Err (Exec_BadCount (if Z.of_nat count <? 2 ^ 32 then Z.of_nat count else 2 ^ 32 - 1))
  else
    let block := replicate (Z.to_nat BLOCK_SIZE) 0 in
    let block := put block 0 MAGIC in
    let block := put block 4 VERSION in
    let block := put block 8 (Z.of_nat count) in
    Ok (put_entries block 0 (entries t)).
End ExecTable.

(** * The words of a table *)

Definition quad (e : ExecEntry) : list Z := [start_lba e; byte_len e; 0; 0].

Definition table_words (t : ExecTable) : list Z :=
  [MAGIC; VERSION; Z.of_nat (length (entries t)); 0] ++ (entries t ≫= quad)
  ++ replicate (124 - 4 * length (entries t)) 0.

Lemma put_entries_words l : forall i hd k,
  length hd = (4 + 4 * i)%nat ->
  ExecTable.put_entries ((hd ++ replicate (4 * length l + k) 0) ≫= to_le 4) i l
  = (hd ++ (l ≫= quad) ++ replicate k 0) ≫= to_le 4.
Proof.
  induction l as [|e l IH]; intros i hd k Hl; [reflexivity |]. cbn [ExecTable.put_entries length].
  unfold put. replace (slot i) with (4 * (length hd + 0))%nat by (rewrite Hl; unfold slot, HEADER_SIZE, ENTRY_SIZE; lia).
  replace (4 * (length hd + 0) + 4)%nat with (4 * (length hd + 1))%nat by lia.
  replace (4 * S (length l) + k)%nat with (S (S (S (S (4 * length l + k)))))%nat by lia.
  rewrite !put_word_words by (rewrite ?length_insert, length_app, length_replicate; lia).
  rewrite !insert_app_r. cbn [replicate list_insert insert].
  rewrite bind_cons. change (quad e) with [start_lba e; byte_len e; 0; 0]. rewrite <- !app_assoc.
  rewrite (app_assoc hd [_; _; _; _]), <- (IH (S i) (hd ++ [start_lba e; byte_len e; 0; 0]) k).
  - rewrite <- app_assoc. reflexivity.
  - rewrite length_app, Hl. cbn. lia.
Qed.

Lemma encode_words t :
  (1 <= length (entries t) <= MAX_ENTRIES)%nat -> ExecTable.encode t = Ok (table_words t ≫= to_le 4).
Proof.
  intros [H1 H8]. unfold ExecTable.encode. rewrite (proj2 (Nat.leb_le _ _) H1), (proj2 (Nat.leb_le _ _) H8). cbn [negb andb].
  f_equal. unfold MAX_ENTRIES in H8. unfold table_words.
  rewrite <- (put_entries_words (entries t) 0 [MAGIC; VERSION; Z.of_nat (length (entries t)); 0]) by reflexivity.
  replace (4 * length (entries t) + (124 - 4 * length (entries t)))%nat with 124%nat by lia. f_equal.
Qed.

(** What the words of a block say, for the entries [l]. *)
Record shape (ws : list Z) (l : list ExecEntry) : Prop := {
  sh_magic : ws !!! 0%nat = MAGIC;
  sh_version : ws !!! 1%nat = VERSION;
  sh_count : ws !!! 2%nat = Z.of_nat (length l);
  sh_reserved : ws !!! 3%nat = 0;
  sh_entry : forall j e, l !! j = Some e -> ws !!! (4 + 4 * j)%nat = start_lba e /\ ws !!! (4 + 4 * j + 1)%nat = byte_len e;
  sh_flags : forall j, (j < length l)%nat -> ws !!! (4 + 4 * j + 2)%nat = 0 /\ ws !!! (4 + 4 * j + 3)%nat = 0;
  sh_unused : forall i, (4 + 4 * length l <= i < 128)%nat -> ws !!! i = 0;
}.

Lemma length_quads l : length (l ≫= quad) = (4 * length l)%nat.
Proof. induction l as [|e l IH]; [reflexivity |]. rewrite bind_cons, length_app, IH. cbn. lia. Qed.

Lemma length_table_words t : (length (entries t) <= MAX_ENTRIES)%nat -> length (table_words t) = 128%nat.
Proof.
  intros H. unfold table_words, MAX_ENTRIES in *. rewrite !length_app, length_quads, length_replicate. cbn [length]. lia.
Qed.

Lemma lookup_quad l j k : (k < 4)%nat -> (l ≫= quad) !! (4 * j + k)%nat = (e ← l !! j; quad e !! k).
Proof.
  intros Hk. rewrite (lookup_bind_equal quad 4) by (lia || reflexivity).
  replace ((4 * j + k) / 4)%nat with j by (rewrite Nat.mul_comm, Nat.div_add_l, Nat.div_small; lia).
  replace ((4 * j + k) mod 4)%nat with k; [reflexivity |].
  rewrite Nat.add_comm, Nat.mul_comm, Nat.Div0.mod_add. symmetry. apply Nat.mod_small, Hk.
Qed.

Lemma entry_words t j k :
  (j < length (entries t))%nat -> (k < 4)%nat ->
  table_words t !! (4 + 4 * j + k)%nat = (e ← entries t !! j; quad e !! k).
Proof.
  intros Hj Hk. unfold table_words. rewrite lookup_app_r by (cbn; lia).
  replace (4 + 4 * j + k - _)%nat with (4 * j + k)%nat by (cbn [length]; lia).
  rewrite lookup_app_l by (rewrite length_quads; lia). apply lookup_quad, Hk.
Qed.

Lemma table_words_range t :
  (length (entries t) <= MAX_ENTRIES)%nat ->
  Forall (fun e => in_u 32 (start_lba e) /\ in_u 32 (byte_len e)) (entries t) -> Forall (in_u 32) (table_words t).
Proof.
  intros Hn He. unfold table_words, MAX_ENTRIES in *. rewrite !Forall_app. split; [|split].
  - rewrite !Forall_cons, Forall_nil. split_and!; try exact I; try const_range. unfold in_u. lia.
  - apply Forall_bind. eapply Forall_impl; [exact He |]. intros e [? ?]. unfold quad, compose. rewrite !Forall_cons, Forall_nil. split_and!; try exact I; try const_range; assumption.
  - apply Forall_replicate. const_range.
Qed.

Lemma table_shape t : (length (entries t) <= MAX_ENTRIES)%nat -> shape (table_words t) (entries t).
Proof.
  intros Hn. split; try reflexivity.
  - intros j e He. pose proof (lookup_lt_Some _ _ _ He) as Hj. rewrite !list_lookup_total_alt.
    rewrite <- (Nat.add_0_r (4 + 4 * j)) at 1. rewrite !entry_words, He by (assumption || lia). auto.
  - intros j Hj. destruct (lookup_lt_is_Some_2 _ _ Hj) as [e He]. rewrite !list_lookup_total_alt, !entry_words, He by (assumption || lia). auto.
  - intros i Hi. unfold MAX_ENTRIES in Hn. rewrite list_lookup_total_alt. unfold table_words.
    rewrite lookup_app_r, lookup_app_r by (rewrite ?length_quads; cbn; lia). rewrite length_quads. cbn [length].
    rewrite lookup_replicate_2 by lia. reflexivity.
Qed.

Lemma shape_unique ws t :
  (length (entries t) <= MAX_ENTRIES)%nat -> length ws = 128%nat -> shape ws (entries t) -> ws = table_words t.
Proof.
  intros Hn Hl H. pose proof (table_shape t Hn) as Ht. pose proof (length_table_words t Hn) as Hlt.
  apply list_eq. intros i. destruct (Nat.lt_ge_cases i 128) as [Hi|Hi]; [|rewrite !lookup_ge_None_2 by lia; reflexivity].
  rewrite !list_lookup_lookup_total_lt by lia. f_equal.
  destruct (Nat.lt_ge_cases i (4 + 4 * length (entries t))) as [Hs|Hs];
    [|rewrite (sh_unused _ _ H), (sh_unused _ _ Ht) by lia; reflexivity].
  destruct (Nat.lt_ge_cases i 4) as [H4|H4].
  - destruct H as [? ? ? ? _ _ _], Ht as [? ? ? ? _ _ _]. do 4 (destruct i as [|i]; [congruence |]). lia.
  - set (j := ((i - 4) / 4)%nat). set (k := ((i - 4) mod 4)%nat).
    assert (Hjk : i = (4 + 4 * j + k)%nat) by (subst j k; pose proof (Nat.div_mod_eq (i - 4) 4); lia).
    assert (Hk : (k < 4)%nat) by (apply Nat.mod_upper_bound; lia). assert (Hj : (j < length (entries t))%nat) by lia.
    destruct (lookup_lt_is_Some_2 _ _ Hj) as [e He]. rewrite Hjk.
    destruct (sh_entry _ _ H j e He), (sh_entry _ _ Ht j e He), (sh_flags _ _ H j Hj), (sh_flags _ _ Ht j Hj).
    clearbody k. do 4 (destruct k as [|k]; [rewrite ?Nat.add_0_r; congruence |]). lia.
Qed.

(** * What the checks accept *)

Definition entry_ok (capacity staging : Z) (e : ExecEntry) : Prop :=
  start_lba e <> 0 /\ byte_len e <> 0 /\ byte_len e <= staging /\ ExecEntry.end_lba e <= capacity.

Definition disjoint_files (a b : ExecEntry) : Prop :=
  ExecEntry.end_lba b <= start_lba a \/ ExecEntry.end_lba a <= start_lba b.

(** A table a boot may load from. *)
Definition table_ok (capacity staging : Z) (t : ExecTable) : Prop :=
  (1 <= length (entries t) <= MAX_ENTRIES)%nat /\
  Forall (fun e => in_u 32 (start_lba e) /\ in_u 32 (byte_len e)) (entries t) /\
  Forall (entry_ok capacity staging) (entries t) /\
  forall i j a b, (i < j)%nat -> entries t !! i = Some a -> entries t !! j = Some b -> disjoint_files a b.

Lemma check_ranges_spec capacity staging l : forall n,
  check_ranges capacity staging n l = Ok tt <-> Forall (entry_ok capacity staging) l.
Proof.
  induction l as [|e l IH]; intros n; cbn [check_ranges]; [split; [constructor | reflexivity] |].
  rewrite Forall_cons. unfold entry_ok at 1. specialize (IH (S n)).
  destruct (Z.eqb_spec (start_lba e) 0); [split; [discriminate | tauto] |].
  destruct (Z.eqb_spec (byte_len e) 0); [split; [discriminate | tauto] |].
  destruct (Z.ltb_spec staging (byte_len e)); [split; [discriminate | lia] |].
  destruct (Z.ltb_spec capacity (ExecEntry.end_lba e)); [split; [discriminate | lia] |]. tauto.
Qed.

Lemma check_before_spec b second l : forall n,
  check_before b second n l = Ok tt <-> Forall (fun a => disjoint_files a b) l.
Proof.
  induction l as [|a l IH]; intros n; cbn [check_before]; [split; [constructor | reflexivity] |].
  rewrite Forall_cons. destruct (overlap a b) eqn:E; unfold overlap in E; unbool; unfold disjoint_files at 1.
  - split; [discriminate | lia].
  - rewrite IH. split; [intros H; split; [lia | exact H] | tauto].
Qed.

Lemma check_overlap_spec l : forall before,
  check_overlap before l = Ok tt <->
  forall i j a b, (i < j)%nat -> (length before <= j)%nat ->
    (before ++ l) !! i = Some a -> (before ++ l) !! j = Some b -> disjoint_files a b.
Proof.
  induction l as [|b l IH]; intros before; cbn [check_overlap].
  { split; [|reflexivity]. intros _ i j a c _ Hj _ Hb. apply lookup_lt_Some in Hb. rewrite app_nil_r in Hb. lia. }
  destruct (check_before b (length before) 0 before) as [[]|e] eqn:E; cbn [mbind result_bind].
  - apply check_before_spec in E. rewrite IH, <- app_assoc. cbn [app].
    setoid_rewrite length_app. cbn [length]. split; intros H i j a c Hij Hj Ha Hc.
    + destruct (Nat.eq_dec j (length before)) as [->|Hne]; [|apply (H i j); auto; lia].
      rewrite list_lookup_middle in Hc by reflexivity. injection Hc as <-. rewrite lookup_app_l in Ha by exact Hij.
      rewrite Forall_lookup in E. exact (E i a Ha).
    + apply (H i j); auto; lia.
  - split; [discriminate |]. intros H. assert (Hb : Forall (fun a => disjoint_files a b) before).
    { apply Forall_lookup. intros i a Ha. apply (H i (length before) a b).
      - exact (lookup_lt_Some _ _ _ Ha).
      - apply le_n.
      - apply lookup_app_l_Some, Ha.
      - apply list_lookup_middle. reflexivity. }
    apply (check_before_spec b (length before) before 0) in Hb. congruence.
Qed.

Lemma check_reserved_spec block l :
  check_reserved block l = Ok tt <-> forall o, o ∈ l -> word block o = 0.
Proof.
  induction l as [|o l IH]; cbn [check_reserved]; [split; [intros _ o H; inversion H | reflexivity] |].
  setoid_rewrite elem_of_cons. destruct (Z.eqb_spec (word block o) 0) as [E|E]; cbn [negb].
  - rewrite IH. split; [intros H o' [->|?]; auto | auto].
  - split; [discriminate |]. intros H. destruct (E (H o (or_introl eq_refl))).
Qed.

Lemma check_unused_spec block l :
  check_unused block l = Ok tt <-> forall i, i ∈ l -> existsb nonzero (take ENTRY_SIZE (drop (slot i) block)) = false.
Proof.
  induction l as [|i l IH]; cbn [check_unused]; [split; [intros _ i H; inversion H | reflexivity] |].
  setoid_rewrite elem_of_cons. destruct (existsb _ _) eqn:E.
  - split; [discriminate |]. intros H. rewrite (H i (or_introl eq_refl)) in E. discriminate.
  - rewrite IH. split; [intros H j [->|?]; auto | auto].
Qed.

Lemma nonzero_words (l : list Z) : Forall (in_u 32) l -> existsb nonzero (l ≫= to_le 4) = false <-> Forall (eq 0) l.
Proof.
  induction l as [|a l IH]; intros Hl; [split; [constructor | reflexivity] |].
  apply Forall_cons_1 in Hl as [Ha Hl]. rewrite bind_cons, existsb_app, orb_false_iff, Forall_cons, (IH Hl).
  assert (Hw : existsb nonzero (to_le 4 a) = false <-> 0 = a); [|tauto].
  split; [|intros <-; reflexivity]. intros E. rewrite <- (from_to_le_id 4 a Ha). symmetry.
  assert (Hz : forall bs, existsb nonzero bs = false -> from_le bs = 0).
  { induction bs as [|b bs IHb]; [reflexivity |]. cbn [existsb]. rewrite orb_false_iff. intros [Hb Hbs].
    unfold nonzero in Hb. rewrite negb_false_iff, Z.eqb_eq in Hb. cbn [from_le]. rewrite (IHb Hbs), Hb. reflexivity. }
  apply Hz, E.
Qed.

Section block.
Context (ws : list Z) (Hl : length ws = 128%nat) (Hws : Forall (in_u 32) ws).

Local Abbreviation block := (ws ≫= to_le 4).

Lemma block_word i : (i < 128)%nat -> word block (4 * i) = ws !!! i.
Proof.
  intros Hi. destruct (lookup_lt_is_Some_2 ws i ltac:(lia)) as [w Hw]. unfold word. fold (slice block i).
  rewrite (slice_words _ _ _ Hw), (list_lookup_total_correct _ _ _ Hw). apply from_to_le_id.
  exact (Forall_lookup_1 _ _ _ _ Hws Hw).
Qed.

Lemma block_slot i k : (i < 8)%nat -> (k < 4)%nat -> word block (slot i + 4 * k) = ws !!! (4 + 4 * i + k)%nat.
Proof.
  intros Hi Hk. rewrite <- block_word by lia. f_equal. unfold slot, HEADER_SIZE, ENTRY_SIZE. lia.
Qed.

(** The words at [from..from + n], zero. *)
Lemma zero_range from n :
  Forall (eq 0) (take n (drop from ws)) <-> forall i, (from <= i < from + n)%nat -> (i < 128)%nat -> ws !!! i = 0.
Proof.
  rewrite Forall_lookup. split.
  - intros H i Hi Hb. rewrite (list_lookup_total_correct ws i 0); [reflexivity |].
    destruct (lookup_lt_is_Some_2 ws i ltac:(lia)) as [w Hw]. rewrite Hw. f_equal. symmetry.
    apply (H (i - from)%nat). rewrite lookup_take_lt, lookup_drop by lia. rewrite <- Hw. f_equal. lia.
  - intros H i w [Hw Hi]%lookup_take_Some. rewrite lookup_drop in Hw.
    rewrite <- (list_lookup_total_correct _ _ _ Hw). symmetry. apply H; [lia |]. apply lookup_lt_Some in Hw. lia.
Qed.

Lemma unused_slot i : (i < 8)%nat ->
  existsb nonzero (take ENTRY_SIZE (drop (slot i) block)) = false <->
  forall k, (k < 4)%nat -> ws !!! (4 + 4 * i + k)%nat = 0.
Proof.
  intros Hi. replace (slot i) with (4 * (4 + 4 * i))%nat by (unfold slot, HEADER_SIZE, ENTRY_SIZE; lia).
  change ENTRY_SIZE with (4 * 4)%nat. rewrite words_drop, words_take, nonzero_words by (apply Forall_take, Forall_drop, Hws).
  rewrite zero_range. split; [intros H k Hk; apply H; lia |].
  intros H j Hj _. rewrite <- (H (j - (4 + 4 * i))%nat) by lia. f_equal. lia.
Qed.

Lemma unused_tail :
  existsb nonzero (drop TABLE_END block) = false <-> forall i, (36 <= i < 128)%nat -> ws !!! i = 0.
Proof.
  change TABLE_END with (4 * 36)%nat. rewrite words_drop, nonzero_words by (apply Forall_drop, Hws).
  rewrite <- (take_ge (drop 36 ws) 92) by (rewrite length_drop; lia). rewrite zero_range.
  split; intros H i; intros; apply H; lia.
Qed.

(** The entries the words name. *)
Definition block_entries (n : nat) : list ExecEntry :=
  (fun i => mkExecEntry (ws !!! (4 + 4 * i)%nat) (ws !!! (4 + 4 * i + 1)%nat)) <$> seq 0 n.

Lemma read_entries n : (n <= 8)%nat ->
  (fun i => mkExecEntry (word block (slot i)) (word block (slot i + 4))) <$> seq 0 n = block_entries n.
Proof.
  intros Hn. apply list_fmap_ext. intros j i [-> Hj]%lookup_seq. change (0 + j)%nat with j.
  f_equal; rewrite <- block_word by lia; f_equal; unfold slot, HEADER_SIZE, ENTRY_SIZE; lia.
Qed.

Lemma reserved_words n : (n <= 8)%nat ->
  check_reserved block (seq 0 n ≫= fun i => [slot i + 8; slot i + 12]%nat) = Ok tt <->
  forall j, (j < n)%nat -> ws !!! (4 + 4 * j + 2)%nat = 0 /\ ws !!! (4 + 4 * j + 3)%nat = 0.
Proof.
  intros Hn. rewrite check_reserved_spec. split.
  - intros H j Hj. rewrite <- !block_slot by lia. split; apply H, list_elem_of_bind; exists j;
      (split; [|apply elem_of_seq; lia]); cbn [Nat.mul Nat.add]; [left | right; left].
  - intros H o (j & Ho & Hj%elem_of_seq)%list_elem_of_bind. destruct (H j ltac:(lia)) as [H2 H3].
    rewrite <- block_slot in H2, H3 by lia. apply elem_of_cons in Ho as [->|[->|Ho]%elem_of_cons]; [exact H2 | exact H3 | inversion Ho].
Qed.

Lemma unused_words n : (n <= 8)%nat ->
  check_unused block (seq n (MAX_ENTRIES - n)) = Ok tt <->
  forall i, (4 + 4 * n <= i < 36)%nat -> ws !!! i = 0.
Proof.
  intros Hn. rewrite check_unused_spec. unfold MAX_ENTRIES. split.
  - intros H i Hi. set (j := ((i - 4) / 4)%nat). pose proof (Nat.div_mod_eq (i - 4) 4) as Hd.
    pose proof (Nat.mod_upper_bound (i - 4) 4 ltac:(lia)) as Hk. fold j in Hd.
    replace i with (4 + 4 * j + (i - 4) mod 4)%nat by lia. apply (unused_slot j); [lia | apply H, elem_of_seq; lia | exact Hk].
  - intros H i Hi%elem_of_seq. apply unused_slot; [lia |]. intros k Hk. apply H. lia.
Qed.

Lemma block_entries_lookup n j e :
  block_entries n !! j = Some e <->
  (j < n)%nat /\ e = mkExecEntry (ws !!! (4 + 4 * j)%nat) (ws !!! (4 + 4 * j + 1)%nat).
Proof.
  unfold block_entries. rewrite list_lookup_fmap. destruct (Nat.lt_ge_cases j n) as [Hj|Hj].
  - rewrite lookup_seq_lt by exact Hj. cbn. intuition congruence.
  - rewrite lookup_seq_ge by exact Hj. cbn. split; [discriminate | lia].
Qed.

Lemma block_shape l :
  (length l <= 8)%nat ->
  shape ws l <->
  (ws !!! 0%nat = MAGIC /\ ws !!! 1%nat = VERSION /\ ws !!! 2%nat = Z.of_nat (length l) /\ ws !!! 3%nat = 0) /\
  (forall j, (j < length l)%nat -> ws !!! (4 + 4 * j + 2)%nat = 0 /\ ws !!! (4 + 4 * j + 3)%nat = 0) /\
  (forall i, (4 + 4 * length l <= i < 36)%nat -> ws !!! i = 0) /\ (forall i, (36 <= i < 128)%nat -> ws !!! i = 0) /\
  block_entries (length l) = l.
Proof.
  intros Hn. split.
  - intros [? ? ? ? He Hf Hu]. split_and!; auto; [intros i Hi; apply Hu; lia | intros i Hi; apply Hu; lia |].
    apply list_eq. intros j. destruct (l !! j) as [e|] eqn:E.
    + apply block_entries_lookup. split; [exact (lookup_lt_Some _ _ _ E) |]. destruct (He j e E) as [-> ->]. destruct e. reflexivity.
    + apply lookup_ge_None in E. apply lookup_ge_None. unfold block_entries. rewrite length_fmap, length_seq. exact E.
  - intros ((? & ? & ? & ?) & Hf & Hu & Ht & He). split; auto.
    + intros j e Hj. rewrite <- He in Hj. apply block_entries_lookup in Hj as [_ ->]. auto.
    + intros i Hi. destruct (Nat.lt_ge_cases i 36); [apply Hu; lia | apply Ht; lia].
Qed.

Lemma parse_words capacity staging t :
  parse_exec_table block capacity staging = Ok t <->
  shape ws (entries t) /\ (1 <= length (entries t) <= MAX_ENTRIES)%nat /\
  check_entries (entries t) capacity staging = Ok tt.
Proof.
  assert (H0 : word block 0 = ws !!! 0%nat) by (apply (block_word 0); lia).
  assert (H4 : word block 4 = ws !!! 1%nat) by (apply (block_word 1); lia).
  assert (H8 : word block 8 = ws !!! 2%nat) by (apply (block_word 2); lia).
  assert (H12 : word block 12 = ws !!! 3%nat) by (apply (block_word 3); lia).
  unfold parse_exec_table. rewrite H0, H4, H8, H12. unfold MAX_ENTRIES. split.
  - destruct (Z.eqb_spec (ws !!! 0%nat) MAGIC) as [E0|]; [|discriminate]. destruct (Z.eqb_spec (ws !!! 1%nat) VERSION) as [E1|]; [|discriminate].
    destruct (_ && _) eqn:E2; [|discriminate]. unbool. destruct (Z.eqb_spec (ws !!! 3%nat) 0) as [E3|]; [|discriminate].
    cbn [negb]. set (n := Z.to_nat (ws !!! 2%nat)). assert (Hn : (1 <= n <= 8)%nat) by lia.
    intros ([] & Er & ([] & Eu & Hp)%bind_Ok_inv)%bind_Ok_inv. 
    pose proof (proj1 (reserved_words n ltac:(lia)) Er) as Hf. pose proof (proj1 (unused_words n ltac:(lia)) Eu) as Hu.
    destruct (existsb _ _) eqn:Et; [discriminate |]. pose proof (proj1 unused_tail Et) as Ht. rewrite read_entries in Hp by lia.
    apply bind_Ok_inv in Hp as ([] & Ec & [= <-]). cbn [entries].
    assert (Hb : length (block_entries n) = n) by (unfold block_entries; rewrite length_fmap, length_seq; reflexivity).
    split; [|rewrite Hb; auto]. apply block_shape; rewrite Hb; [lia |]. split_and!; auto. lia.
  - intros (Hs & Hn & Ec). apply block_shape in Hs as ((E0 & E1 & E2 & E3) & Hf & Hu & Ht & He); [|lia].
    rewrite E0, E1, E2, E3, !Z.eqb_refl, Nat2Z.id. cbn [negb].
    replace ((1 <=? _) && _) with true by (symmetry; apply andb_true_iff; split; apply Z.leb_le; lia). cbn [negb].
    assert (H8' : (length (entries t) <= 8)%nat) by lia.
    pose proof (proj2 (unused_words _ H8') Hu) as Eu. unfold MAX_ENTRIES in Eu.
    rewrite (proj2 (reserved_words _ H8') Hf). cbn [mbind result_bind]. rewrite Eu, (proj2 unused_tail Ht). cbn [mbind result_bind]. rewrite read_entries, He, Ec by lia. destruct t. reflexivity.
Qed.
End block.

#[local] Instance Ok_inj {E A} : Inj (=) (=) (@Ok E A).
Proof. intros a b [=]. assumption. Qed.

Lemma parse_iff_encode (block : list Z) (capacity staging : Z) (t : ExecTable) :
  bytes_ok block -> Z.of_nat (length block) = BLOCK_SIZE ->
  parse_exec_table block capacity staging = Ok t <->
  ExecTable.encode t = Ok block /\ table_ok capacity staging t.
Proof.
  intros Hb Hlen. unfold BLOCK_SIZE in Hlen. pose proof (words_of_slices block 128 Hb ltac:(lia)) as Hw.
  set (ws := (fun i => from_le (slice block i)) <$> seq 0 128) in Hw.
  assert (Hl : length ws = 128%nat) by (unfold ws; rewrite length_fmap, length_seq; reflexivity).
  assert (Hws : Forall (in_u 32) ws).
  { apply Forall_fmap, Forall_forall. intros i Hi%elem_of_seq. cbn. replace 32 with (8 * Z.of_nat (length (slice block i)))
      by (rewrite slice_length; lia). apply from_le_in_u, Forall_take, Forall_drop, Hb. }
  rewrite <- Hw, parse_words by assumption. unfold table_ok, check_entries. split.
  - intros (Hs & Hn & ([] & Er%check_ranges_spec & Eo)%bind_Ok_inv). rewrite encode_words by exact Hn.
    rewrite (shape_unique ws t) by (assumption || apply Hn). split; [reflexivity |]. split_and!; try apply Hn; auto.
    + apply Forall_lookup. intros j e He. destruct (sh_entry _ _ Hs j e He) as [<- <-].
      assert (Hin : forall i, (i < 128)%nat -> in_u 32 (ws !!! i)).
      { intros i Hi. apply (Forall_lookup_total_1 _ _ _ Hws). lia. }
      apply lookup_lt_Some in He. unfold MAX_ENTRIES in Hn. split; apply Hin; lia.
    + intros i j a b Hij. apply (proj1 (check_overlap_spec (entries t) []) Eo i j a b Hij). cbn. lia.
  - intros (E & Hn & Hr & He & Ho). rewrite encode_words in E by exact Hn.
    apply (inj Ok) in E.
    pose proof (table_words_range t (proj2 Hn) Hr) as Ht.
    assert (Hsame : ws = table_words t).
    { assert (Hbk : block = table_words t ≫= to_le 4) by (rewrite E; symmetry; exact Hw). unfold ws. rewrite Hbk. apply list_eq_same_length with 128%nat.
      - apply length_table_words, Hn.
      - rewrite length_fmap, length_seq. reflexivity.
      - intros i x y Hi Hx Hy. rewrite list_lookup_fmap, lookup_seq_lt in Hx by exact Hi.
        apply (inj Some) in Hx. rewrite <- Hx. change (0 + i)%nat with i. rewrite (slice_words _ _ _ Hy). apply from_to_le_id. exact (Forall_lookup_1 _ _ _ _ Ht Hy). }
    split; [rewrite Hsame; apply table_shape, Hn |]. split; [exact Hn |].
    apply (check_ranges_spec _ _ _ 0) in He. rewrite He. apply check_overlap_spec. cbn [app]. eauto.
Qed.

Lemma parse_table_ok block capacity staging t :
  bytes_ok block -> Z.of_nat (length block) = BLOCK_SIZE ->
  parse_exec_table block capacity staging = Ok t -> table_ok capacity staging t.
Proof. intros Hb Hl E. apply parse_iff_encode in E; tauto. Qed.

(** C35: the kernel's parse of block 0 accepts exactly the encodings of the tables a boot may load
    from: one to eight entries, each a non-empty file of at most the staging size, in whole
    blocks after block 0 and inside the disk, no two sharing a block.  Parsing an accepted
    block gives the table that was encoded, and no other block, so no stray byte, is accepted. *)
Theorem exec_table_exact (block : list Z) (capacity staging : Z) (t : ExecTable) :
  bytes_ok block -> Z.of_nat (length block) = BLOCK_SIZE ->
  parse_exec_table block capacity staging = Ok t <->
  ExecTable.encode t = Ok block /\ table_ok capacity staging t.
Proof. apply parse_iff_encode. Qed.

Definition example_table : ExecTable := mkExecTable [mkExecEntry 1 1000; mkExecEntry 3 512].

Lemma exec_table_exact_witness :
  exists block, ExecTable.encode example_table = Ok block /\ parse_exec_table block 4 4096 = Ok example_table.
Proof.
  eexists. split; [reflexivity |]. apply exec_table_exact.
  - vm_compute. repeat (constructor; [split; [discriminate | reflexivity] |]). constructor.
  - reflexivity.
  - split; [reflexivity |]. split; [cbn; unfold MAX_ENTRIES; lia |].
    unfold example_table. cbn [entries]. rewrite !Forall_cons, !Forall_nil. split_and!; try exact I; try const_range.
    1-2: unfold entry_ok; cbn; split_and!; vm_compute; discriminate.
    intros [|[|i]] [|[|j]] a b Hij; try lia; cbn; intros [= <-] [= <-]. right. vm_compute. discriminate.
Defined.
