(* ===== verification/OsConfig.v ===== *)
(** The modeled kernel's configuration and process sources: [components/os/src/config.rs],
    [image.rs], [pte.rs], and the access splitting of [core.rs].

    Proved: the whitelist never grants a byte of the gate and only whole granted ranges; the
    splitting of a range covers it exactly, in order, in accesses of at most 16 bytes that
    cross no page; what [BootImage::check] accepts, exactly, and the copy it should refuse. *)
From stdpp Require Import base numbers list option strings sorting.
From Stdlib Require Import ZArith Lia.
From S2P Require Import Prelude Contracts Elf.

Local Open Scope string_scope.
Local Open Scope list_scope.
Local Open Scope Z_scope.

(** * Accesses, [core.rs] *)

Definition MAX_ACCESS : Z := 16.
Definition PAGE : Z := 4096.

Inductive Access : Set :=
| Access_Read (addr len : Z)
| Access_Write (addr : Z) (data : list Z).

Module Access.
Definition addr (a : Access) : Z := match a with Access_Read addr _ | Access_Write addr _ => addr end.
Definition len (a : Access) : Z :=
  match a with Access_Read _ len => len | Access_Write _ data => Z.of_nat (length data) end.
End Access.

(** The [while] loop of [chunks], [None] when [fuel] is not enough. *)
Fixpoint chunks_loop (fuel : nat) (addr end_ : Z) : option (list (Z * Z)) :=
  if end_ <=? addr then Some []
  else
    match fuel with
    | O => None
    | S fuel =>
        let page_end := (addr / PAGE + 1) * PAGE in
        let next := Z.min (Z.min end_ page_end) (addr + MAX_ACCESS) in
        rest ← chunks_loop fuel next end_;
        Some ((addr, next - addr) :: rest)
    end.

(** A chunk has at least one byte, so [len] iterations are enough. *)
Definition chunks (base len : Z) : option (list (Z * Z)) := chunks_loop (Z.to_nat len) base (base + len).

(** * Configuration, [config.rs] *)

Definition FRAME_BYTES : Z := 0x98.
Definition FRAME_SEPC : Z := 0x7C.
Definition FRAME_ACTION : Z := 0x90.
Definition FRAME_REASON : Z := 0x94.

Record Window : Set := mkWindow { w_base : Z; w_size : Z }.

Definition saturating_add (a b : Z) : Z := Z.min (a + b) (2 ^ 64 - 1).

Module Window.
Definition contains (w : Window) (addr len : Z) : bool :=
  negb (len =? 0) && (w_base w <=? addr)
  && match checked_add 64 addr len with Some end_ => end_ - w_base w <=? w_size w | None => false end.

Definition overlaps (w : Window) (addr len : Z) : bool :=
  let end_ := saturating_add addr len in
  let own_end := saturating_add (w_base w) (w_size w) in
  negb (len =? 0) && negb (w_size w =? 0) && (addr <? own_end) && (w_base w <? end_).
End Window.

Record KernelConfig : Set := mkKernelConfig {
  kc_clock : Z;
  kc_latency : LinkLatency;
  kc_ram : Window;
  kc_gate : Window;
  kc_trap_frame : Z;
  kc_staging : Window;
  kc_frame_pool : Window;
  kc_blk : Window;
  kc_uart_tx : Z;
}.

Inductive KernelConfigError : Set :=
| Empty (name : string)
| Wraps (name : string)
| OutsideRam (name : string)
| Overlap (a b : string)
| MisalignedFrame (addr : Z).

(** [for .. in ..] over checks: the first error. *)
Fixpoint first_error {E A} (check : A -> result E unit) (l : list A) : result E unit :=
  match l with
  | [] => Ok tt
  | x :: l => _ ← check x; first_error check l
  end.

Module KernelConfig.
Definition frame (c : KernelConfig) : Window := mkWindow (kc_trap_frame c) FRAME_BYTES.

Definition grants (c : KernelConfig) : list Window :=
  [frame c; kc_staging c; kc_frame_pool c; kc_blk c; mkWindow (kc_uart_tx c) 1].

Definition permits (c : KernelConfig) (addr len : Z) : bool :=
  negb (Window.overlaps (kc_gate c) addr len) && existsb (fun g => Window.contains g addr len) (grants c).

(** The checks of one named range. *)
Definition check_range (nw : string * Window) : result KernelConfigError unit :=
  let '(name, w) := nw in
  if w_size w =? 0 then Err (Empty name)
  else match checked_add 64 (w_base w) (w_size w) with None => Err (Wraps name) | Some _ => Ok tt end.

(** [for (i, (name, w)) in in_ram.iter().enumerate()], with the ranges before it. *)
Fixpoint check_in_ram (ram : Window) (before : list (string * Window)) (l : list (string * Window)) :
    result KernelConfigError unit :=
  match l with
  | [] => Ok tt
  | (name, w) :: l =>
      if negb (Window.contains ram (w_base w) (w_size w)) then Err (OutsideRam name)
      else
        _ ← first_error
              (fun '(other, o) => if Window.overlaps o (w_base w) (w_size w) then Err (Overlap other name) else Ok tt)
              before;
        check_in_ram ram (before ++ [(name, w)]) l
  end.

Definition validate (c : KernelConfig) : result KernelConfigError unit :=
  _ ← first_error check_range
        [("the RAM", kc_ram c); ("kgate", kc_gate c); ("the trap frame", frame c);
         ("staging", kc_staging c); ("the frame pool", kc_frame_pool c); ("the block controller", kc_blk c)];
  if negb (kc_trap_frame c mod 4 =? 0) then Err (MisalignedFrame (kc_trap_frame c))
  else
    check_in_ram (kc_ram c) []
      [("the trap frame", frame c); ("staging", kc_staging c); ("the frame pool", kc_frame_pool c)].
End KernelConfig.

(** * Page-table entries, [pte.rs] *)

Definition perm_bits (p : Perms) : Z :=
  Z.lor (Z.lor (Z.shiftl (Z.b2z (read p)) 1) (Z.shiftl (Z.b2z (write p)) 2)) (Z.shiftl (Z.b2z (execute p)) 3).

Module Pte.
Definition V : Z := 1.
Definition R : Z := 2.
Definition W : Z := 4.
Definition X : Z := 8.
Definition U : Z := 16.
Definition G : Z := 32.
Definition A : Z := 64.
Definition D : Z := 128.
Definition SATP_SV32 : Z := 2 ^ 31.

Definition entry (ppn flags : Z) : Z := Z.lor (shl32 (Z.land ppn 0x3FFFFF) 10) flags.

Definition user_leaf (ppn : Z) (perms : Perms) : Z :=
  let dirty := if write perms then D else 0 in
  entry ppn (Z.lor (Z.lor (Z.lor (Z.lor V (perm_bits perms)) U) A) dirty).

Definition pointer (ppn : Z) : Z := entry ppn V.

Definition kernel_megapage (ppn : Z) : Z :=
  entry ppn (Z.lor (Z.lor (Z.lor (Z.lor (Z.lor (Z.lor V R) W) X) G) A) D).

Definition mmio_megapage (ppn : Z) : Z := entry ppn (Z.lor (Z.lor (Z.lor (Z.lor (Z.lor V R) W) G) A) D).

Definition satp (root : Z) : Z := Z.lor SATP_SV32 (Z.land root 0x3FFFFF).
End Pte.

(** * Process sources, [image.rs] *)

Definition MAX_PROCESSES : Z := 8.
Definition MEGAPAGE : Z := 4 * 2 ^ 20.
Definition MMIO_MEGAPAGE : Z := 0x10000000.
Definition PHYS_LIMIT : Z := 2 ^ 34.
Definition BLK_REGISTERS : Z := 0x1C.
Definition BLOCK_SIZE : Z := 512.

Definition vpn1 (addr : Z) : Z := Z.land (Z.shiftr addr 22) 0x3FF.

Record UserLayout : Set := mkUserLayout { user_base : Z; stack_top : Z; stack_pages : Z }.

Module UserLayout.
Definition M3 : UserLayout := mkUserLayout 0x00010000 0x7FFFF000 4.

(** [checked_mul] then [checked_sub] on [u32]. *)
Definition stack_base (l : UserLayout) : option Z :=
  let size := stack_pages l * PAGE in
  if 2 ^ 32 <=? size then None else checked_sub (stack_top l) size.

Definition image_range (l : UserLayout) : Z * Z := (user_base l, default 0 (stack_base l)).

Definition stack_vas (l : UserLayout) : list Z :=
  (fun i => default 0 (stack_base l) + i * PAGE) <$> seqZ 0 (stack_pages l).
End UserLayout.

Record BootImage : Set := mkBootImage { staged : Z; bi_file_len : Z; bi_image : UserImage }.

Record ProcessPlan : Set := mkProcessPlan { plan_layout : UserLayout; plan_images : list BootImage }.

Record DiskBoot : Set := mkDiskBoot { disk_layout : UserLayout; capacity_blocks : Z }.

Inductive PlanError : Set :=
| Plan_Config (e : KernelConfigError)
| Plan_Layout (rule : string)
| Plan_Disk (rule : string)
| Plan_ImageCount (n : Z)
| Plan_Image (index : Z) (rule : string).

Definition kernel_megapage (c : KernelConfig) : Z := w_base (kc_ram c).

(** The trap frame is inside the RAM, so the RAM base is below [2^32] where it is added to. *)
Definition validate_layout (c : KernelConfig) (l : UserLayout) : result PlanError unit :=
  _ ← map_err Plan_Config (KernelConfig.validate c);
  let layout_err rule := Err (Plan_Layout rule) in
  let kernel := kernel_megapage c in
  let mega := mkWindow kernel MEGAPAGE in
  let frame := KernelConfig.frame c in
  let pool := kc_frame_pool c in
  if negb (kernel mod MEGAPAGE =? 0) || (PHYS_LIMIT <? kernel + MEGAPAGE) then
    layout_err "the RAM base is not a 4 MiB aligned Sv32 address"
  else if negb (Window.contains mega (w_base frame) (w_size frame)) then
    layout_err "the trap frame is outside the kernel megapage"
  else if negb (Window.contains mega (w_base (kc_staging c)) (w_size (kc_staging c))) then
    layout_err "staging is outside the kernel megapage"
  else if negb (w_base pool mod PAGE =? 0) || negb (w_size pool mod PAGE =? 0) then
    layout_err "the frame pool is not page-aligned"
  else if (PHYS_LIMIT <? w_base pool + w_size pool) || (2 ^ 32 - 1 <? w_size pool / PAGE) then
    layout_err "the frame pool is not reachable by Sv32"
  else if Window.overlaps mega (w_base pool) (w_size pool) then
    layout_err "the frame pool overlaps the kernel megapage"
  else if negb (user_base l mod PAGE =? 0) || negb (stack_top l mod PAGE =? 0) then
    layout_err "USER_BASE or STACK_TOP is not page-aligned"
  else if stack_pages l =? 0 then layout_err "there is no stack page"
  else
    match UserLayout.stack_base l with
    | None => layout_err "the stack runs below address 0"
    | Some stack_base =>
        if stack_base <=? user_base l then layout_err "USER_BASE is not below the stack"
        else
          let slots := [vpn1 kernel; vpn1 MMIO_MEGAPAGE] in
          if existsb (fun va => mem_Z (vpn1 va) slots) (UserLayout.stack_vas l) then
            layout_err "a stack page is in a megapage slot"
          else Ok tt
    end.

Module BootImage.
(** [c.page_offset.checked_add(c.len) <= Some(page)]: [None] is below every [Some]. *)
Definition in_page (c : FileCopy) : bool :=
  negb (fc_len c =? 0)
  && match checked_add 32 (fc_page_offset c) (fc_len c) with Some end_ => end_ <=? PAGE | None => true end.

Definition in_file (flen : Z) (c : FileCopy) : bool :=
  match checked_add 32 (fc_file_offset c) (fc_len c) with Some end_ => end_ <=? flen | None => false end.

(** [for p in &seg.pages], the last page's address threaded. *)
Fixpoint check_pages (lo hi flen : Z) (perms : Perms) (last : option Z) (l : list PagePlan) :
    result string (option Z) :=
  match l with
  | [] => Ok last
  | p :: l =>
      if negb (pp_va p mod PAGE =? 0) || (pp_va p <? lo) || (hi <=? pp_va p)
         || negb (bool_decide (pp_perms p = perms))
         || match last with Some last => pp_va p <=? last | None => false end
      then Err "a page is misplaced, out of order, or shared"
      else if match pp_copy p with Some c => negb (in_page c) || negb (in_file flen c) | None => false end
      then Err "a copy leaves its page or the file"
      else check_pages lo hi flen perms (Some (pp_va p)) l
  end.

(** [for seg in &self.image.segments]. *)
Fixpoint check_segments (lo hi flen : Z) (last : option Z) (l : list UserSegment) : result string unit :=
  match l with
  | [] => Ok tt
  | s :: l =>
      if negb (valid_perms (us_perms s)) || (length (us_pages s) =? 0)%nat
      then Err "a segment has no pages or invalid permissions"
      else
        last ← check_pages lo hi flen (us_perms s) last (us_pages s);
        check_segments lo hi flen last l
  end.

Definition check (b : BootImage) (c : KernelConfig) (l : UserLayout) : result string unit :=
  let '(lo, hi) := UserLayout.image_range l in
  if bi_file_len b =? 0 then Err "the file is empty"
  else if negb (Window.contains (kc_staging c) (staged b) (bi_file_len b)) then Err "the file is not inside staging"
  else
    let entry := ui_entry (bi_image b) in
    if negb (entry mod 4 =? 0) || negb ((lo <=? entry) && (entry <? hi)) then
      Err "the entry is misaligned or outside the image range"
    else if (length (ui_segments (bi_image b)) =? 0)%nat then Err "there is no segment"
    else check_segments lo hi (bi_file_len b) None (ui_segments (bi_image b)).
End BootImage.

Module ProcessPlan.
(** [for (index, image) in self.images.iter().enumerate()]. *)
Fixpoint check_images (c : KernelConfig) (l : UserLayout) (index : Z) (images : list BootImage) :
    result PlanError unit :=
  match images with
  | [] => Ok tt
  | b :: images =>
      _ ← map_err (Plan_Image index) (BootImage.check b c l);
      check_images c l (index + 1) images
  end.

Definition validate (p : ProcessPlan) (c : KernelConfig) : result PlanError unit :=
  _ ← validate_layout c (plan_layout p);
  let n := Z.of_nat (length (plan_images p)) in
  if (n =? 0) || (MAX_PROCESSES <? n) then Err (Plan_ImageCount n)
  else check_images c (plan_layout p) 0 (plan_images p).
End ProcessPlan.

Module DiskBoot.
Definition validate (d : DiskBoot) (c : KernelConfig) : result PlanError unit :=
  _ ← validate_layout c (disk_layout d);
  let staging := kc_staging c in
  if capacity_blocks d =? 0 then Err (Plan_Disk "the disk has no block")
  else if negb (w_base staging mod 16 =? 0) then Err (Plan_Disk "staging is not 16-byte aligned")
  else if w_size staging <? BLOCK_SIZE then Err (Plan_Disk "staging cannot hold block 0")
  else if 2 ^ 32 <? w_base staging + w_size staging then Err (Plan_Disk "staging is not below 4 GiB")
  else if w_size (kc_blk c) <? BLK_REGISTERS then
    Err (Plan_Disk "the block controller window does not hold its registers")
  else Ok tt.

Definition staging_size (c : KernelConfig) : Z :=
  if w_size (kc_staging c) <? 2 ^ 32 then w_size (kc_staging c) else 2 ^ 32 - 1.
End DiskBoot.

(** * The whitelist *)

Definition window_ok (w : Window) : Prop := 0 <= w_base w /\ 0 <= w_size w /\ w_base w + w_size w < 2 ^ 64.

Lemma contains_spec w addr len :
  0 <= len ->
  Window.contains w addr len = true <->
  0 < len /\ w_base w <= addr /\ addr + len < 2 ^ 64 /\ addr + len <= w_base w + w_size w.
Proof.
  intros Hl. unfold Window.contains, checked_add. rewrite !andb_true_iff, negb_true_iff, Z.eqb_neq, Z.leb_le.
  destruct (Z.ltb_spec (addr + len) (2 ^ 64)); [rewrite Z.leb_le; lia |]. split; [intros [_ [=]] | lia].
Qed.

Lemma overlaps_spec w addr len :
  window_ok w -> 0 <= len -> addr + len < 2 ^ 64 ->
  Window.overlaps w addr len = true <->
  0 < len /\ 0 < w_size w /\ addr < w_base w + w_size w /\ w_base w < addr + len.
Proof.
  intros (? & ? & ?) Hl Ha. unfold Window.overlaps, saturating_add.
  rewrite !Z.min_l, !andb_true_iff, !negb_true_iff, !Z.eqb_neq, !Z.ltb_lt by lia. lia.
Qed.

Lemma permits_grant c addr len :
  KernelConfig.permits c addr len = true ->
  Window.overlaps (kc_gate c) addr len = false /\
  exists g, g ∈ KernelConfig.grants c /\ Window.contains g addr len = true.
Proof.
  unfold KernelConfig.permits. rewrite andb_true_iff, negb_true_iff, existsb_exists.
  intros [Hg (g & Hin & Hc)]. split; [exact Hg |]. exists g. split; [apply list_elem_of_In, Hin | exact Hc].
Qed.

(** * Splitting a range *)

(** [l] covers [from..to] in address order. *)
Fixpoint contiguous (from to : Z) (l : list (Z * Z)) : Prop :=
  match l with
  | [] => from = to
  | (a, n) :: l => a = from /\ contiguous (from + n) to l
  end.

Definition chunk_ok (c : Z * Z) : Prop :=
  1 <= snd c <= MAX_ACCESS /\ fst c / PAGE = (fst c + snd c - 1) / PAGE.

Lemma chunks_loop_spec fuel : forall addr end_,
  addr <= end_ -> end_ - addr <= Z.of_nat fuel ->
  exists l, chunks_loop fuel addr end_ = Some l /\ contiguous addr end_ l /\ Forall chunk_ok l.
Proof.
  induction fuel as [|fuel IH]; intros addr end_ Hle Hf; cbn [chunks_loop];
    destruct (Z.leb_spec end_ addr) as [He|He]; try (exists []; repeat split; [cbn; lia | constructor]); [lia |].
  set (next := Z.min _ _). assert (Hn : addr < next <= end_ /\ next <= addr + MAX_ACCESS /\ next <= (addr / PAGE + 1) * PAGE).
  { subst next. unfold MAX_ACCESS, PAGE. Z.div_mod_to_equations. lia. }
  destruct (IH next end_ ltac:(lia) ltac:(lia)) as (l & -> & Hc & Hall).
  exists ((addr, next - addr) :: l). split; [reflexivity |]. split; [split; [reflexivity |] |].
  - replace (addr + (next - addr)) with next by lia. exact Hc.
  - constructor; [|exact Hall]. unfold chunk_ok, PAGE in *. cbn [fst snd]. split; [lia |].
    Z.div_mod_to_equations. lia.
Qed.

Lemma chunks_spec base len :
  0 <= len -> exists l, chunks base len = Some l /\ contiguous base (base + len) l /\ Forall chunk_ok l.
Proof. intros Hl. apply chunks_loop_spec; lia. Qed.

(** * What the checks accept *)

(** [BootImage::check]'s own condition on a copy. *)
Definition copy_accepted (flen : Z) (c : FileCopy) : Prop :=
  fc_len c <> 0 /\ (2 ^ 32 <= fc_page_offset c + fc_len c \/ fc_page_offset c + fc_len c <= PAGE) /\
  fc_file_offset c + fc_len c < 2 ^ 32 /\ fc_file_offset c + fc_len c <= flen.

Definition page_accepted (lo hi flen : Z) (perms : Perms) (p : PagePlan) : Prop :=
  pp_perms p = perms /\ pp_va p mod PAGE = 0 /\ lo <= pp_va p < hi /\
  match pp_copy p with Some c => copy_accepted flen c | None => True end.

Lemma copy_accepted_spec flen c :
  BootImage.in_page c && BootImage.in_file flen c = true <-> copy_accepted flen c.
Proof.
  unfold BootImage.in_page, BootImage.in_file, copy_accepted, checked_add.
  rewrite !andb_true_iff, negb_true_iff, Z.eqb_neq.
  destruct (Z.ltb_spec (fc_page_offset c + fc_len c) (2 ^ 32)), (Z.ltb_spec (fc_file_offset c + fc_len c) (2 ^ 32));
    rewrite ?Z.leb_le; unfold PAGE; split; intros; deconj; try discriminate; split_and!; try lia; auto.
Qed.

(** The pages after [last], in strictly ascending order. *)
Definition after (last : option Z) (l : list Z) : Prop :=
  StronglySorted Z.lt l /\ match last with Some v => Forall (Z.lt v) l | None => True end.

Lemma after_cons last v l : after last (v :: l) <-> match last with Some w => w < v | None => True end /\ after (Some v) l.
Proof.
  unfold after. rewrite StronglySorted_cons. destruct last as [w|]; [rewrite Forall_cons |]; split; intros; deconj;
    split_and!; auto. eapply Forall_impl; [eassumption |]. cbn. lia.
Qed.

Lemma after_app last l1 l2 :
  after last (l1 ++ l2) <-> after last l1 /\ after (match l1 with [] => last | _ => List.last (Some <$> l1) None end) l2.
Proof.
  revert last. induction l1 as [|v l1 IH]; intros last; cbn [app].
  - split; [intros H; split; [split; [constructor | destruct last; constructor] | exact H] | tauto].
  - rewrite !after_cons, IH. destruct l1; cbn; tauto.
Qed.

Lemma check_pages_spec lo hi flen perms l : forall last,
  match BootImage.check_pages lo hi flen perms last l with
  | Ok last' => Forall (page_accepted lo hi flen perms) l /\ after last (pp_va <$> l) /\
                last' = match l with [] => last | _ => List.last (Some <$> (pp_va <$> l)) None end
  | Err _ => ~ (Forall (page_accepted lo hi flen perms) l /\ after last (pp_va <$> l))
  end.
Proof.
  induction l as [|p l IH]; intros last; cbn [BootImage.check_pages].
  { split_and!; [constructor | split; [constructor | destruct last; constructor] | reflexivity]. }
  assert (Hp : page_accepted lo hi flen perms p /\ match last with Some w => w < pp_va p | None => True end <->
    (negb (pp_va p mod PAGE =? 0) || (pp_va p <? lo) || (hi <=? pp_va p) || negb (bool_decide (pp_perms p = perms))
       || match last with Some last => pp_va p <=? last | None => false end) = false /\
    (match pp_copy p with Some c => negb (BootImage.in_page c) || negb (BootImage.in_file flen c) | None => false end) = false).
  { unfold page_accepted. rewrite !orb_false_iff, !negb_false_iff, Z.eqb_eq, Z.ltb_ge, Z.leb_gt, bool_decide_eq_true.
    assert (Hcp : match pp_copy p with Some c => copy_accepted flen c | None => True end <->
      match pp_copy p with Some c => negb (BootImage.in_page c) || negb (BootImage.in_file flen c) | None => false end = false).
    { destruct (pp_copy p) as [c|]; [|tauto]. rewrite <- copy_accepted_spec, <- negb_andb, negb_false_iff. reflexivity. }
    rewrite <- Hcp. destruct last; rewrite ?Z.leb_gt; tauto || (split; intros; deconj; split_and!; auto; lia). }
  destruct (_ || _) eqn:E1; [intros [[Ha _]%Forall_cons [Hb _]%after_cons]; destruct (proj1 Hp (conj Ha Hb)); discriminate |].
  destruct (match pp_copy p with Some c => _ | None => _ end) eqn:E2;
    [intros [[Ha _]%Forall_cons [Hb _]%after_cons]; destruct (proj1 Hp (conj Ha Hb)); discriminate |].
  destruct (proj2 Hp (conj eq_refl eq_refl)) as [Ha Hb]. specialize (IH (Some (pp_va p))).
  destruct (BootImage.check_pages _ _ _ _ _ _).
  - destruct IH as (? & ? & ->). split_and!; [auto | apply after_cons; auto | destruct l; reflexivity].
  - intros [[_ H1]%Forall_cons [_ H2]%after_cons]. auto.
Qed.

Definition segment_accepted (lo hi flen : Z) (s : UserSegment) : Prop :=
  us_pages s <> [] /\ valid_perms (us_perms s) = true /\
  Forall (page_accepted lo hi flen (us_perms s)) (us_pages s).

Lemma check_segments_spec lo hi flen l : forall last,
  (exists u, BootImage.check_segments lo hi flen last l = Ok u) <->
  Forall (segment_accepted lo hi flen) l /\ after last (pp_va <$> (l ≫= us_pages)).
Proof.
  induction l as [|s l IH]; intros last; cbn [BootImage.check_segments].
  { split; [intros _ | eauto]. split; [constructor |]. split; [constructor | destruct last; constructor]. }
  rewrite bind_cons, fmap_app, after_app, Forall_cons.
  destruct (negb (valid_perms (us_perms s)) || _) eqn:E.
  { split; [intros [? [=]] |]. intros [[(Hne & Hv & _) _] _]. apply orb_true_iff in E as [E|E].
    - rewrite Hv in E. discriminate.
    - apply Nat.eqb_eq in E. destruct (us_pages s); [contradiction | discriminate]. }
  apply orb_false_iff in E as [E1%negb_false_iff E2%Nat.eqb_neq].
  assert (Hne : us_pages s <> []) by (destruct (us_pages s); [contradiction | discriminate]).
  pose proof (check_pages_spec lo hi flen (us_perms s) (us_pages s) last) as Hp.
  destruct (BootImage.check_pages _ _ _ _ _ _) as [last'|]; cbn [mbind result_bind].
  - destruct Hp as (Ha & Hb & ->). rewrite IH. unfold segment_accepted.
    destruct (us_pages s); [contradiction |]. cbn [fmap list_fmap]. tauto.
  - split; [intros [? [=]] |]. intros [[(_ & _ & Ha) _] [Hb _]]. destruct (Hp (conj Ha Hb)).
Qed.

Definition image_accepted (lo hi flen : Z) (im : UserImage) : Prop :=
  ui_entry im mod 4 = 0 /\ lo <= ui_entry im < hi /\ ui_segments im <> [] /\
  StronglySorted Z.lt (pp_va <$> image_pages im) /\ Forall (segment_accepted lo hi flen) (ui_segments im).

Lemma check_spec b c l :
  let '(lo, hi) := UserLayout.image_range l in
  0 <= bi_file_len b ->
  BootImage.check b c l = Ok tt <->
  Window.contains (kc_staging c) (staged b) (bi_file_len b) = true /\
  image_accepted lo hi (bi_file_len b) (bi_image b).
Proof.
  unfold BootImage.check. destruct (UserLayout.image_range l) as [lo hi]. intros Hf.
  destruct (Z.eqb_spec (bi_file_len b) 0) as [E|E].
  { split; [discriminate |]. intros [Hc _]. apply contains_spec in Hc; lia. }
  destruct (Window.contains _ _ _); cbn [negb]; [|split; [discriminate | intros [[=] _]]].
  unfold image_accepted. destruct (_ || _) eqn:Ee.
  { split; [discriminate |]. intros (_ & H4 & Hr & _). apply orb_true_iff in Ee as [Ee|Ee].
    - rewrite H4 in Ee. discriminate.
    - apply negb_true_iff, andb_false_iff in Ee as [?%Z.leb_gt|?%Z.ltb_ge]; lia. }
  unbool.
  destruct (Nat.eqb_spec (length (ui_segments (bi_image b))) 0) as [En|En].
  { split; [discriminate |]. intros (_ & _ & _ & Hne & _). destruct (ui_segments (bi_image b)); [contradiction | discriminate]. }
  assert (Hne : ui_segments (bi_image b) <> []) by (destruct (ui_segments (bi_image b)); [contradiction | discriminate]).
  pose proof (check_segments_spec lo hi (bi_file_len b) (ui_segments (bi_image b)) None) as Hs.
  unfold after in Hs. fold (image_pages (bi_image b)) in Hs. split.
  - intros Hok. destruct (proj1 Hs (ex_intro _ _ Hok)) as [? [? _]]. auto 10.
  - intros (_ & _ & _ & _ & ? & ?). destruct (proj2 Hs) as [[] Hok]; auto.
Qed.

(** An image the parser accepts passes the kernel's own check. *)
Lemma image_ok_accepted lo hi flen im : in_u 32 flen -> image_ok lo hi flen im -> image_accepted lo hi flen im.
Proof.
  intros Hf (He & Hr & Hne & Hs & Hall). split_and!; auto; try lia. eapply Forall_impl; [exact Hall |].
  intros s (? & ? & Hp). split_and!; auto. eapply Forall_impl; [exact Hp |]. intros p (? & ? & ? & Hc).
  split_and!; auto; try lia. destruct (pp_copy p) as [c|]; [|exact I]. destruct Hc as (? & ? & ? & ? & ?).
  unfold copy_accepted, in_u, Elf.PAGE_SIZE, PAGE in *. lia.
Qed.

(** What a kernel with processes may rely on once its layout is validated. *)
Record layout_ok (c : KernelConfig) (l : UserLayout) : Prop := mkLayoutOk {
  lo_pool_base : w_base (kc_frame_pool c) mod PAGE = 0;
  lo_pool_size : w_size (kc_frame_pool c) mod PAGE = 0;
  lo_pool_end : w_base (kc_frame_pool c) + w_size (kc_frame_pool c) <= PHYS_LIMIT;
  lo_kernel : kernel_megapage c mod MEGAPAGE = 0;
  lo_kernel_end : kernel_megapage c + MEGAPAGE <= PHYS_LIMIT;
  lo_pool_kernel : Window.overlaps (mkWindow (kernel_megapage c) MEGAPAGE)
    (w_base (kc_frame_pool c)) (w_size (kc_frame_pool c)) = false;
  lo_staging : Window.contains (mkWindow (kernel_megapage c) MEGAPAGE)
    (w_base (kc_staging c)) (w_size (kc_staging c)) = true;
  lo_user_base : user_base l mod PAGE = 0;
  lo_stack_top : stack_top l mod PAGE = 0;
  lo_stack_pages : stack_pages l <> 0;
  lo_stack : exists base, UserLayout.stack_base l = Some base /\ user_base l < base /\ base mod PAGE = 0;
  lo_slots : Forall (fun va => vpn1 va <> vpn1 (kernel_megapage c) /\ vpn1 va <> vpn1 MMIO_MEGAPAGE)
    (UserLayout.stack_vas l);
}.

Lemma stack_base_aligned l base :
  stack_top l mod PAGE = 0 -> UserLayout.stack_base l = Some base -> base mod PAGE = 0.
Proof.
  intros Ht. unfold UserLayout.stack_base, checked_sub. repeat case_if; try discriminate.
  intros [= <-]. rewrite Zminus_mod, Ht, Z.mod_mul by discriminate. reflexivity.
Qed.

Lemma validate_layout_ok c l : validate_layout c l = Ok tt -> layout_ok c l.
Proof.
  unfold validate_layout. intros (u & _ & E)%bind_Ok_inv.
  repeat match type of E with (if ?b then _ else _) = _ => destruct b eqn:?; [discriminate |] end.
  destruct (UserLayout.stack_base l) as [base|] eqn:Eb; [|discriminate].
  repeat match type of E with (if ?b then _ else _) = _ => destruct b eqn:?; [discriminate |] end.
  unbool. split; auto; try lia.
  - exists base. split; [exact Eb |]. split; [lia | eapply stack_base_aligned; eauto].
  - apply Forall_forall. intros va Hva. match goal with H : existsb _ _ = false |- _ =>
      pose proof (proj2 (not_true_iff_false _) H) as Hn end.
    rewrite existsb_exists in Hn. assert (Hm : mem_Z (vpn1 va) [vpn1 (kernel_megapage c); vpn1 MMIO_MEGAPAGE] = false).
    { apply not_true_iff_false. intros Hm. apply Hn. exists va. split; [apply list_elem_of_In, Hva | exact Hm]. }
    apply not_true_iff_false in Hm. rewrite mem_Z_spec, !elem_of_cons in Hm. tauto.
Qed.

(** ** [satp] *)

Lemma satp_view root : in_u 22 root -> Z.testbit (Pte.satp root) 31 = true /\ Pte.satp root mod 2 ^ 22 = root.
Proof.
  intros Hr. unfold Pte.satp. rewrite (land_ones_mod 22), Z.mod_small by (lia || reflexivity || exact Hr).
  split; [rewrite Z.lor_spec; reflexivity |].
  change Pte.SATP_SV32 with (2 ^ 31). rewrite (lor_low 22) by (lia || reflexivity || exact Hr).
  unfold in_u in *. Z.div_mod_to_equations. lia.
Qed.

(** * Claims *)

(** The kernel's whitelist is safe: an access it permits lies wholly inside one granted
    range (the trap frame, staging, the frame pool, the block controller, the UART's TX byte),
    and no byte of it lies in the kernel's own gate window, which would deadlock it. *)
Theorem permits_safe (c : KernelConfig) (addr len : Z) :
  window_ok (kc_gate c) -> 0 <= len -> KernelConfig.permits c addr len = true ->
  (exists g, g ∈ KernelConfig.grants c /\
     forall x, addr <= x < addr + len -> w_base g <= x < w_base g + w_size g) /\
  forall x, addr <= x < addr + len -> ~ (w_base (kc_gate c) <= x < w_base (kc_gate c) + w_size (kc_gate c)).
Proof.
  intros Hg Hl (Ho & g & Hin & Hc)%permits_grant. apply contains_spec in Hc as (? & ? & ? & ?); [|exact Hl].
  split; [exists g; split; [exact Hin | lia] |]. intros x Hx Hgx.
  apply not_true_iff_false in Ho. apply Ho, overlaps_spec; auto; try lia.
Qed.

(** A kernel read or write of any range is split into accesses that cover it exactly,
    byte by byte in address order, each of 1 to 16 bytes and none crossing a 4 KiB page; the
    splitting loop always ends. *)
Theorem chunks_exact (base len : Z) :
  0 <= len ->
  exists l, chunks base len = Some l /\ contiguous base (base + len) l /\ Forall chunk_ok l.
Proof. apply chunks_spec. Qed.

(** What [BootImage::check] accepts is exactly a file inside staging, an aligned entry in
    the image range, and segments with valid permissions whose pages are aligned, in range and
    strictly ascending, with copies inside the file; every image [parse_user_elf32] accepts for
    that range passes. *)
Theorem boot_image_check_exact (b : BootImage) (c : KernelConfig) (l : UserLayout) :
  in_u 32 (bi_file_len b) ->
  (BootImage.check b c l = Ok tt <->
   Window.contains (kc_staging c) (staged b) (bi_file_len b) = true /\
   image_accepted (fst (UserLayout.image_range l)) (snd (UserLayout.image_range l)) (bi_file_len b) (bi_image b)) /\
  forall prefix,
    bytes_ok prefix -> in_u 32 (user_base l) -> in_u 32 (snd (UserLayout.image_range l)) ->
    Window.contains (kc_staging c) (staged b) (bi_file_len b) = true ->
    parse_user_elf32 prefix (bi_file_len b) (fst (UserLayout.image_range l)) (snd (UserLayout.image_range l)) = Ok (bi_image b) ->
    BootImage.check b c l = Ok tt.
Proof.
  intros Hf. pose proof (check_spec b c l) as Hc. destruct (UserLayout.image_range l) as [lo hi] eqn:Er.
  specialize (Hc ltac:(apply Hf)). split; [exact Hc |]. intros prefix Hb Hlo Hhi Hs Hp. apply Hc. split; [exact Hs |].
  apply image_ok_accepted; [exact Hf |]. unfold UserLayout.image_range in Er. injection Er as <- <-.
  apply (parsed_image_ok prefix); auto. apply Hlo.
Qed.

(** C38: [BootImage::check] compares an overflowing page offset plus length, which
    [checked_add] makes [None], as if it were small, so it accepts a copy that leaves its page:
    for any accepted image of one page, replacing its copy's page offset by one that overflows
    [u32] keeps the image accepted, though the copy's bytes lie outside the page. *)
Theorem boot_image_check_overflow (b : BootImage) (c : KernelConfig) (l : UserLayout)
    (s : UserSegment) (p : PagePlan) (k : FileCopy) (off : Z) :
  in_u 32 (bi_file_len b) -> BootImage.check b c l = Ok tt ->
  ui_segments (bi_image b) = [s] -> us_pages s = [p] -> pp_copy p = Some k ->
  in_u 32 off -> 2 ^ 32 <= off + fc_len k ->
  let k' := mkFileCopy (fc_file_offset k) off (fc_len k) in
  let s' := mkUserSegment (us_index s) (us_vaddr s) (us_memsz s) (us_perms s)
    [mkPagePlan (pp_va p) (pp_perms p) (Some k')] in
  BootImage.check (mkBootImage (staged b) (bi_file_len b) (mkUserImage (ui_entry (bi_image b)) [s'])) c l = Ok tt /\
  PAGE < fc_page_offset k' + fc_len k'.
Proof.
  intros Hf Hok Hs Hp Hk Hoff Hov k' s'. split; [|unfold PAGE; cbn; lia].
  pose proof (check_spec b c l) as Hc. pose proof (check_spec (mkBootImage (staged b) (bi_file_len b)
    (mkUserImage (ui_entry (bi_image b)) [s'])) c l) as Hc'.
  destruct (UserLayout.image_range l) as [lo hi]. apply Hc' ; [apply Hf |]. apply Hc in Hok as [Hst Him]; [|apply Hf].
  split; [exact Hst |]. destruct Him as (? & ? & _ & _ & Hall). rewrite Hs in Hall.
  apply Forall_cons in Hall as [(_ & Hv & Hpages) _]. rewrite Hp in Hpages.
  apply Forall_cons in Hpages as [(Hperm & Ha & Hr & Hcopy) _]. rewrite Hk in Hcopy.
  destruct Hcopy as (Hne & _ & Hcf). split_and!; cbn; auto; try lia; [repeat constructor |].
  apply Forall_singleton. split_and!; cbn; auto. apply Forall_singleton.
  split_and!; cbn; auto; try lia. split_and!; cbn; auto; lia.
Qed.

(** * Examples *)

Definition example_config : KernelConfig :=
  mkKernelConfig 0 (Latency_Cycles 0 1) (mkWindow 0x80000000 0x4000000) (mkWindow 0x10002000 0x1000)
    0x80001000 (mkWindow 0x80100000 0x100000) (mkWindow 0x80400000 0x400000) (mkWindow 0x10001000 0x1000) 0x10000000.

Definition example_image (page_offset : Z) : UserImage :=
  mkUserImage 0x10000
    [mkUserSegment 0 0x10000 16 (mkPerms true false true)
       [mkPagePlan 0x10000 (mkPerms true false true) (Some (mkFileCopy 84 page_offset 8))]].

Definition example_boot : BootImage := mkBootImage 0x80100000 92 (example_image 0).

Lemma example_layout_valid : validate_layout example_config UserLayout.M3 = Ok tt.
Proof. vm_compute. reflexivity. Qed.

Lemma permits_safe_witness :
  KernelConfig.permits example_config 0x80001090 8 = true /\
  exists g, g ∈ KernelConfig.grants example_config /\
    forall x, 0x80001090 <= x < 0x80001090 + 8 -> w_base g <= x < w_base g + w_size g.
Proof.
  split; [reflexivity |]. refine (proj1 (permits_safe example_config 0x80001090 8 _ _ _)); [|lia | reflexivity].
  cbn. unfold window_ok. cbn. lia.
Defined.

Lemma chunks_exact_witness :
  chunks 0x80000ff8 24 = Some [(0x80000ff8, 8); (0x80001000, 16)] /\
  contiguous 0x80000ff8 (0x80000ff8 + 24) [(0x80000ff8, 8); (0x80001000, 16)].
Proof.
  split; [reflexivity |]. destruct (chunks_exact 0x80000ff8 24 ltac:(lia)) as (l & Hl & Hc & _).
  vm_compute in Hl. injection Hl as <-. exact Hc.
Defined.

Lemma boot_image_check_exact_witness :
  BootImage.check example_boot example_config UserLayout.M3 = Ok tt /\
  image_accepted 0x10000 0x7FFFB000 92 (example_image 0).
Proof.
  assert (Hok : BootImage.check example_boot example_config UserLayout.M3 = Ok tt) by reflexivity.
  split; [exact Hok |].
  exact (proj2 (proj1 (proj1 (boot_image_check_exact example_boot example_config UserLayout.M3 ltac:(const_range))) Hok)).
Defined.

Lemma boot_image_check_overflow_witness :
  BootImage.check (mkBootImage 0x80100000 92 (example_image 0xFFFFFFFF)) example_config UserLayout.M3 = Ok tt /\
  PAGE < 0xFFFFFFFF + 8.
Proof.
  refine (boot_image_check_overflow example_boot example_config UserLayout.M3
    (mkUserSegment 0 0x10000 16 (mkPerms true false true)
       [mkPagePlan 0x10000 (mkPerms true false true) (Some (mkFileCopy 84 0 8))])
    (mkPagePlan 0x10000 (mkPerms true false true) (Some (mkFileCopy 84 0 8))) (mkFileCopy 84 0 8) 0xFFFFFFFF
    _ _ _ _ _ _ _); first [reflexivity | const_range | cbn; lia].
Defined.
