(* ===== verification/OsFrames.v ===== *)
(** The frame allocator, [components/os/src/frames.rs].

    Proved: [reserve] gives the lowest free frames, all or nothing; [release] frees exactly
    the frames of their owner, all or nothing; releasing what was just reserved gives the pool
    back; the bitmap is the set of owned frames. *)
From stdpp Require Import base numbers list option strings sorting.
From Stdlib Require Import ZArith Lia.
From S2P Require Import Prelude Contracts OsConfig.

Local Open Scope string_scope.
Local Open Scope list_scope.
Local Open Scope Z_scope.

Inductive FrameError : Set :=
| OutsidePool (ppn : Z)
| NotOwned (ppn : Z).

(** [base] is the first PPN; the owner of frame [base + i] is 0 when it is free. *)
Record Frames : Set := mkFrames { base : Z; owners : list Z }.

Definition set_owners (o : list Z) (f : Frames) : Frames := mkFrames (base f) o.

Module Frames.
Definition new (base size : Z) : Frames :=
  mkFrames ((base / PAGE) mod 2 ^ 32) (replicate (Z.to_nat (size / PAGE)) 0).

Definition count (f : Frames) : nat := length (owners f).

Definition free_count (f : Frames) : nat := length (filter (fun o => o = 0) (owners f)).

Definition index (f : Frames) (ppn : Z) : option nat :=
  i ← checked_sub ppn (base f);
  if (Z.to_nat i <? length (owners f))%nat then Some (Z.to_nat i) else None.

Definition owner (f : Frames) (ppn : Z) : option Z := i ← index f ppn; owners f !! i.

(** [.zip(&self.owners).filter(..).map(..)]: the indices whose owner is [pid]. *)
Fixpoint indices_of (pid : Z) (from : nat) (l : list Z) : list nat :=
  match l with
  | [] => []
  | o :: l => if o =? pid then from :: indices_of pid (S from) l else indices_of pid (S from) l
  end.

Definition owned_by (f : Frames) (pid : Z) : list Z :=
  (fun i => base f + Z.of_nat i) <$> indices_of pid 0 (owners f).

(** [for &i in &free { self.owners[i] = pid }]. *)
Definition assign (v : Z) (idx : list nat) (l : list Z) : list Z := foldl (fun l i => <[i:=v]> l) l idx.

Definition reserve (pid : Z) (n : nat) : ST Frames Failure (option (list Z)) :=
  fun f =>
    if pid =? 0 then (f, Err (Panics "PID 0 marks a free frame"))
    else
      let free := take n (indices_of 0 0 (owners f)) in
      if (length free <? n)%nat then (f, Ok None)
      else (set_owners (assign pid free (owners f)) f, Ok (Some ((fun i => base f + Z.of_nat i) <$> free))).

(** The first loop of [release]. *)
Fixpoint check_owned (f : Frames) (pid : Z) (ppns : list Z) : result FrameError unit :=
  match ppns with
  | [] => Ok tt
  | ppn :: ppns =>
      match owner f ppn with
      | None => Err (OutsidePool ppn)
      | Some o => if negb (o =? pid) || (pid =? 0) then Err (NotOwned ppn) else check_owned f pid ppns
      end
  end.

Definition release (pid : Z) (ppns : list Z) : ST Frames FrameError unit :=
  fun f =>
    match check_owned f pid ppns with
    | Err e => (f, Err e)
    | Ok _ => (set_owners (assign 0 (omap (index f) ppns) (owners f)) f, Ok tt)
    end.

(** Bit [i % 8] of byte [i / 8]. *)
Definition bitmap (f : Frames) : list Z :=
  foldl (fun bits '(i, o) =>
           if o =? 0 then bits
           else alter (fun b => Z.lor b (Z.shiftl 1 (Z.of_nat (i mod 8)))) (i / 8)%nat bits)
    (replicate ((length (owners f) + 7) / 8) 0)
    (imap pair (owners f)).

Definition bit (bits : list Z) (i : nat) : bool :=
  match bits !! (i / 8)%nat with
  | Some b => Z.land (Z.shiftr b (Z.of_nat (i mod 8))) 1 =? 1
  | None => false
  end.

Definition from_owners (base : Z) (owners : list Z) : Frames := mkFrames base owners.
End Frames.

Import Frames.

(** * Lemmas *)

Lemma elem_of_indices_of pid l : forall from i,
  i ∈ indices_of pid from l <-> (from <= i)%nat /\ l !! (i - from)%nat = Some pid.
Proof.
  induction l as [|o l IH]; intros from i; cbn [indices_of].
  { split; [intros H; inversion H | intros [_ H]; discriminate]. }
  assert (Hs : (S from <= i)%nat /\ l !! (i - S from)%nat = Some pid <->
    (from <= i)%nat /\ i <> from /\ (o :: l) !! (i - from)%nat = Some pid).
  { split.
    - intros [Hle Hl]. split_and!; [lia | lia |]. replace (i - from)%nat with (S (i - S from)) by lia. exact Hl.
    - intros (Hle & Hne & Hl). split; [lia |]. replace (i - from)%nat with (S (i - S from)) in Hl by lia. exact Hl. }
  destruct (Z.eqb_spec o pid) as [->|Hne].
  - rewrite elem_of_cons, IH, Hs. split.
    + intros [->|(? & _ & ?)]; [|auto]. rewrite Nat.sub_diag. auto.
    + intros [? ?]. destruct (decide (i = from)); auto.
  - rewrite IH, Hs. split; [tauto |]. intros [? Hl]. split_and!; auto. intros ->.
    rewrite Nat.sub_diag in Hl. injection Hl as ->. contradiction.
Qed.

Lemma indices_sorted pid l : forall from, StronglySorted Nat.lt (indices_of pid from l).
Proof.
  induction l as [|o l IH]; intros from; cbn; [constructor |]. case_if; [|apply IH].
  constructor; [apply IH |]. apply Forall_forall. intros i [Hi _]%elem_of_indices_of. lia.
Qed.

Lemma elem_of_owned f pid ppn :
  ppn ∈ owned_by f pid <-> exists i, ppn = base f + Z.of_nat i /\ owners f !! i = Some pid.
Proof.
  unfold owned_by. rewrite list_elem_of_fmap. split; intros (i & -> & Hi).
  - apply elem_of_indices_of in Hi as [_ Hi]. rewrite Nat.sub_0_r in Hi. eauto.
  - exists i. split; [reflexivity |]. apply elem_of_indices_of. rewrite Nat.sub_0_r. split; [lia | exact Hi].
Qed.

Lemma index_spec f ppn i : index f ppn = Some i <-> ppn = base f + Z.of_nat i /\ (i < length (owners f))%nat.
Proof.
  unfold index, checked_sub. destruct (Z.leb_spec (base f) ppn); cbn [mbind option_bind].
  - destruct (Nat.ltb_spec (Z.to_nat (ppn - base f)) (length (owners f))); split; try (intros [= <-]); try lia.
    intros [-> ?]. f_equal. lia.
  - split; [discriminate | lia].
Qed.

Lemma owner_spec f ppn o :
  owner f ppn = Some o <-> exists i, ppn = base f + Z.of_nat i /\ owners f !! i = Some o.
Proof.
  unfold owner. split.
  - intros (i & [-> _]%index_spec & Ho)%bind_Some. eauto.
  - intros (i & -> & Ho). apply bind_Some. exists i. split; [|exact Ho]. apply index_spec. split; [reflexivity |].
    eapply lookup_lt_Some, Ho.
Qed.

Lemma elem_of_owned_owner f pid ppn : ppn ∈ owned_by f pid <-> owner f ppn = Some pid.
Proof. rewrite elem_of_owned, owner_spec. reflexivity. Qed.

Lemma length_assign v idx l : length (assign v idx l) = length l.
Proof.
  unfold assign. revert l. induction idx as [|i idx IH]; intros l; cbn; [reflexivity |]. rewrite IH. apply length_insert.
Qed.

Lemma lookup_assign v idx l j :
  assign v idx l !! j = if decide (j ∈ idx) then (fun _ => v) <$> l !! j else l !! j.
Proof.
  unfold assign. revert l. induction idx as [|i idx IH]; intros l; cbn [foldl].
  { rewrite decide_False by (intros H; inversion H). reflexivity. }
  rewrite IH. destruct (decide (j = i)) as [->|Hne].
  - rewrite (decide_True (P := i ∈ i :: idx)) by left. case_decide; rewrite list_lookup_insert;
      (destruct (l !! i) eqn:E; [rewrite decide_True by (split; [reflexivity | eapply lookup_lt_Some, E]); reflexivity |
       rewrite decide_False by (intros [_ H']; apply lookup_lt_is_Some in H' as [? H']; congruence); rewrite ?E; reflexivity]).
  - rewrite list_lookup_insert_ne by congruence.
    destruct (decide (j ∈ idx)); [rewrite decide_True by (right; assumption); reflexivity |].
    rewrite decide_False; [reflexivity |]. rewrite elem_of_cons. tauto.
Qed.

Lemma length_indices l : forall from, length (indices_of 0 from l) = length (filter (fun o => o = 0) l).
Proof.
  induction l as [|o l IH]; intros from; cbn [indices_of]; [reflexivity |]. rewrite filter_cons.
  destruct (Z.eqb_spec o 0); [rewrite decide_True by assumption | rewrite decide_False by assumption];
    cbn; rewrite IH; reflexivity.
Qed.

Lemma owner_assign f v idx q :
  owner (set_owners (assign v idx (owners f)) f) q =
  match index f q with
  | Some i => if decide (i ∈ idx) then Some v else owners f !! i
  | None => None
  end.
Proof.
  unfold owner. replace (index (set_owners (assign v idx (owners f)) f) q) with (index f q)
    by (unfold index; cbn; rewrite length_assign; reflexivity).
  destruct (index f q) as [i|] eqn:E; cbn [mbind option_bind]; [|reflexivity]. cbn. rewrite lookup_assign.
  apply index_spec in E as [_ Hi]. apply lookup_lt_is_Some in Hi as [o Ho]. rewrite Ho. reflexivity.
Qed.

Lemma frames_ext f g :
  base f = base g -> length (owners f) = length (owners g) -> (forall q, owner f q = owner g q) -> f = g.
Proof.
  intros Hb Hl Ho. destruct f as [b o], g as [b' o']. cbn in *. subst b'. f_equal. apply list_eq. intros i.
  destruct (o !! i) as [x|] eqn:Ex.
  - specialize (Ho (b + Z.of_nat i)). rewrite (proj2 (owner_spec (mkFrames b o) _ x)) in Ho by eauto.
    symmetry in Ho. apply owner_spec in Ho as (j & Hj & Hx). cbn in Hj, Hx.
    replace i with j by lia. symmetry. exact Hx.
  - apply lookup_ge_None in Ex. symmetry. apply lookup_ge_None. lia.
Qed.

(** What [reserve] does, on every branch. *)
Definition reserve_spec (pid : Z) (n : nat) (f : Frames) (out : Frames * result Failure (option (list Z))) : Prop :=
  match out with
  | (f', Ok (Some ppns)) =>
      length ppns = n /\ StronglySorted Z.lt ppns /\
      (forall ppn, ppn ∈ ppns -> owner f ppn = Some 0) /\
      (forall ppn q, ppn ∈ ppns -> owner f q = Some 0 -> q ∉ ppns -> ppn < q) /\
      base f' = base f /\ count f' = count f /\
      forall q, owner f' q = if decide (q ∈ ppns) then Some pid else owner f q
  | (f', Ok None) => f' = f /\ (free_count f < n)%nat
  | (_, Err _) => False
  end.

Lemma sorted_take_drop n (l : list nat) i j :
  StronglySorted Nat.lt l -> i ∈ take n l -> j ∈ l -> j ∉ take n l -> (i < j)%nat.
Proof.
  rewrite <- (take_drop n l) at 1 3. intros Hs Hi Hj Hn. apply elem_of_app in Hj as [Hj|Hj]; [contradiction |].
  exact (StronglySorted_app_1_elem_of _ _ _ _ _ Hs Hi Hj).
Qed.

Lemma reserve_correct pid n f : pid <> 0 -> reserve_spec pid n f (reserve pid n f).
Proof.
  intros Hp. unfold reserve. destruct (Z.eqb_spec pid 0); [contradiction |].
  set (free := take n (indices_of 0 0 (owners f))). destruct (Nat.ltb_spec (length free) n) as [Hlt|Hge].
  { split; [reflexivity |]. unfold free_count. rewrite <- (length_indices _ 0).
    unfold free in Hlt. rewrite length_take in Hlt. lia. }
  assert (Hin : forall q, q ∈ (fun i => base f + Z.of_nat i) <$> free <-> exists i, q = base f + Z.of_nat i /\ i ∈ free)
    by (intros q; apply list_elem_of_fmap).
  assert (Hfree : forall i, i ∈ free -> owners f !! i = Some 0).
  { intros i Hi. assert (Hi' : i ∈ indices_of 0 0 (owners f)) by (rewrite <- (take_drop n (indices_of 0 0 (owners f))); apply elem_of_app; left; exact Hi).
    apply elem_of_indices_of in Hi' as [_ Hi']. rewrite Nat.sub_0_r in Hi'. exact Hi'. }
  split_and!; cbn [base].
  - rewrite length_fmap. unfold free in *. rewrite length_take in *. lia.
  - eapply StronglySorted_fmap; [|]. 2:{ unfold free. pose proof (indices_sorted 0 (owners f) 0) as Hs.
      rewrite <- (take_drop n (indices_of _ _ _)) in Hs. exact (StronglySorted_app_1_l _ _ _ Hs). } cbn. lia.
  - intros ppn (i & -> & Hi)%Hin. apply owner_spec. eauto.
  - intros ppn q (i & -> & Hi)%Hin (j & -> & Hj)%owner_spec Hq. enough (i < j)%nat by lia.
    apply (sorted_take_drop n (indices_of 0 0 (owners f))); [apply indices_sorted | exact Hi | |].
    + apply elem_of_indices_of. rewrite Nat.sub_0_r. split; [lia | exact Hj].
    + intros Hj'. apply Hq, Hin. eauto.
  - reflexivity.
  - apply length_assign.
  - intros q. rewrite owner_assign. destruct (index f q) as [i|] eqn:Ei.
    + apply index_spec in Ei as [-> Hi]. destruct (decide (i ∈ free)) as [H|H].
      * rewrite decide_True by (apply Hin; eauto). reflexivity.
      * rewrite decide_False by (intros (j & Hj & Hjf)%Hin; replace i with j in H by lia; contradiction).
        destruct (owners f !! i) as [o|] eqn:Eo; [|apply lookup_ge_None in Eo; lia].
        symmetry. apply owner_spec. eauto.
    + rewrite decide_False; [unfold owner; rewrite Ei; reflexivity |].
      intros (i & -> & Hi)%Hin. apply Hfree, lookup_lt_Some in Hi.
      assert (index f (base f + Z.of_nat i) = Some i) by (apply index_spec; auto). congruence.
Qed.

(** What [release] does, on every branch. *)
Definition release_spec (pid : Z) (ppns : list Z) (f : Frames) (out : Frames * result FrameError unit) : Prop :=
  match out with
  | (f', Ok _) =>
      (forall ppn, ppn ∈ ppns -> owner f ppn = Some pid /\ pid <> 0) /\ base f' = base f /\ count f' = count f /\
      forall q, owner f' q = if decide (q ∈ ppns) then Some 0 else owner f q
  | (f', Err (OutsidePool p)) => f' = f /\ p ∈ ppns /\ owner f p = None
  | (f', Err (NotOwned p)) => f' = f /\ p ∈ ppns /\ exists o, owner f p = Some o /\ (o <> pid \/ pid = 0)
  end.

Lemma check_owned_spec f pid ppns :
  match check_owned f pid ppns with
  | Ok _ => forall ppn, ppn ∈ ppns -> owner f ppn = Some pid /\ pid <> 0
  | Err (OutsidePool p) => p ∈ ppns /\ owner f p = None
  | Err (NotOwned p) => p ∈ ppns /\ exists o, owner f p = Some o /\ (o <> pid \/ pid = 0)
  end.
Proof.
  induction ppns as [|p ppns IH]; cbn [check_owned]; [intros p H; inversion H |].
  destruct (owner f p) as [o|] eqn:Eo; [|split; [left | exact Eo]].
  destruct (Z.eqb_spec o pid) as [->|Hne]; cbn [negb orb].
  - destruct (Z.eqb_spec pid 0); [split; [left | eauto] |].
    destruct (check_owned f pid ppns) as [|[q|q]].
    + intros q [->|Hq]%elem_of_cons; auto.
    + destruct IH. split; [right; assumption | assumption].
    + destruct IH as [? H]. split; [right; assumption | exact H].
  - split; [left | eauto].
Qed.

Lemma release_correct pid ppns f : release_spec pid ppns f (release pid ppns f).
Proof.
  unfold release. pose proof (check_owned_spec f pid ppns) as Hc.
  destruct (check_owned f pid ppns) as [|[q|q]]; [|split; [reflexivity | exact Hc]..].
  split_and!; [exact Hc | reflexivity | apply length_assign |]. intros q. rewrite owner_assign.
  assert (Hin : forall i, i ∈ omap (index f) ppns <-> base f + Z.of_nat i ∈ ppns /\ (i < length (owners f))%nat).
  { intros i. rewrite list_elem_of_omap. split.
    - intros (p & Hp & [-> ?]%index_spec). auto.
    - intros [? ?]. eexists. split; [eassumption | apply index_spec; auto]. }
  destruct (index f q) as [i|] eqn:Ei.
  - apply index_spec in Ei as [-> Hi]. destruct (decide (i ∈ _)) as [H|H].
    + apply Hin in H as [H _]. rewrite decide_True by exact H. reflexivity.
    + rewrite decide_False by (intros H'; apply H, Hin; auto).
      destruct (owners f !! i) as [o|] eqn:Eo; [|apply lookup_ge_None in Eo; lia].
      symmetry. apply owner_spec. eauto.
  - rewrite decide_False; [unfold owner; rewrite Ei; reflexivity |].
    intros Hq. destruct (Hc q Hq) as [Ho _]. unfold owner in Ho. rewrite Ei in Ho. discriminate.
Qed.

(** ** The bitmap *)

Lemma low_bit b m : 0 <= m -> (Z.land (Z.shiftr b m) 1 =? 1) = Z.testbit b m.
Proof.
  intros Hm. change 1 with (Z.ones 1) at 1. rewrite Z.land_ones, <- Z.bit0_mod, Z.shiftr_spec by lia.
  rewrite Z.add_0_l. destruct (Z.testbit b m); reflexivity.
Qed.

Lemma set_bit bits i j :
  (i / 8 < length bits)%nat ->
  bit (alter (fun b => Z.lor b (Z.shiftl 1 (Z.of_nat (i mod 8)))) (i / 8)%nat bits) j = bit bits j || (i =? j)%nat.
Proof.
  intros Hlt. unfold bit. destruct (decide (i / 8 = j / 8)%nat) as [E|E].
  - rewrite <- E, list_lookup_alter_eq. apply lookup_lt_is_Some in Hlt as [b Hb]. rewrite Hb. cbn [fmap option_fmap option_map].
    rewrite !low_bit, Z.lor_spec by lia. f_equal. rewrite Z.shiftl_1_l.
    pose proof (Nat.div_mod_eq i 8). pose proof (Nat.div_mod_eq j 8).
    destruct (Nat.eqb_spec i j) as [->|Hne]; [apply Z.pow2_bits_true; lia |].
    assert (i mod 8 <> j mod 8)%nat by congruence. apply Z.pow2_bits_false. lia.
  - rewrite list_lookup_alter_ne by exact E. destruct (Nat.eqb_spec i j) as [->|Hne]; [contradiction |].
    rewrite orb_false_r. reflexivity.
Qed.

(** The bitmap is the set of owned frames. *)
Lemma bitmap_correct f i :
  bit (bitmap f) i = match owners f !! i with Some o => negb (o =? 0) | None => false end.
Proof.
  unfold bitmap. set (bits0 := replicate _ 0).
  assert (Hlen0 : forall j, (j < length (owners f))%nat -> (j / 8 < length bits0)%nat).
  { intros j Hj. unfold bits0. rewrite length_replicate. apply Nat.Div0.div_lt_upper_bound.
    pose proof (Nat.div_mod_eq (length (owners f) + 7) 8). pose proof (Nat.mod_upper_bound (length (owners f) + 7) 8). lia. }
  assert (Hgen : forall (l : list (nat * Z)) bits,
    length bits = length bits0 -> Forall (fun '(j, _) => (j < length (owners f))%nat) l ->
    bit (foldl (fun bits '(i, o) => if o =? 0 then bits
           else alter (fun b => Z.lor b (Z.shiftl 1 (Z.of_nat (i mod 8)))) (i / 8)%nat bits) bits l) i =
    bit bits i || existsb (fun '(j, o) => (j =? i)%nat && negb (o =? 0)) l).
  { induction l as [|[j o] l IH]; intros bits Hlen Hall; cbn [foldl existsb]; [rewrite orb_false_r; reflexivity |].
    apply Forall_cons in Hall as [Hj Hall]. destruct (o =? 0); cbn [negb].
    - rewrite IH, andb_false_r by assumption. reflexivity.
    - rewrite IH by (rewrite ?length_alter; assumption).
      rewrite set_bit, andb_true_r, orb_assoc by (rewrite Hlen; auto). reflexivity. }
  rewrite Hgen; [|reflexivity |].
  - assert (Hz : bit bits0 i = false).
    { unfold bit, bits0. destruct (replicate _ 0 !! _) eqn:E; [|reflexivity].
      apply lookup_replicate in E as [-> _]. rewrite low_bit, Z.bits_0 by lia. reflexivity. }
    rewrite Hz. cbn [orb]. apply eq_bool_prop_intro. rewrite !Is_true_true, existsb_exists. split.
    + intros ([j o] & Hin & Hb). apply list_elem_of_In, elem_of_lookup_imap in Hin as (k & o' & [= -> ->] & Hk).
      apply andb_true_iff in Hb as [->%Nat.eqb_eq Hb]. rewrite Hk. exact Hb.
    + destruct (owners f !! i) as [o|] eqn:Eo; [|discriminate]. intros Hb. exists (i, o).
      split; [apply list_elem_of_In, elem_of_lookup_imap; eauto | rewrite Nat.eqb_refl; exact Hb].
  - apply Forall_forall. intros [j o] (k & o' & [= -> ->] & Hk)%elem_of_lookup_imap. eapply lookup_lt_Some, Hk.
Qed.

(** * Claims *)

(** [reserve] is all or nothing and lowest first: it gives exactly [n] frames, in
    ascending order, that were free and lie below every free frame it leaves, and changes the
    owner of no other frame; or, exactly when fewer than [n] are free, it changes nothing. *)
Theorem reserve_lowest_first (pid : Z) (n : nat) (f : Frames) :
  pid <> 0 -> reserve_spec pid n f (reserve pid n f).
Proof. apply reserve_correct. Qed.

(** [release] is all or nothing and checks ownership: it frees exactly the frames listed,
    all of them owned by [pid], and otherwise changes nothing and names an offending frame; and
    releasing what was just reserved gives the pool back as it was. *)
Theorem release_owned (pid : Z) (ppns : list Z) (n : nat) (f : Frames) :
  release_spec pid ppns f (release pid ppns f) /\
  forall f' got, reserve pid n f = (f', Ok (Some got)) -> release pid got f' = (f, Ok tt).
Proof.
  split; [apply release_correct |]. intros f' got E.
  assert (Hp : pid <> 0) by (intros ->; discriminate E).
  pose proof (reserve_correct pid n f Hp) as Hr. rewrite E in Hr. destruct Hr as (_ & _ & Hfree & _ & Hb & Hc & Ho).
  pose proof (release_correct pid got f') as Hr. destruct (release pid got f') as [f'' [[]|[q|q]]].
  - destruct Hr as (_ & Hb' & Hc' & Ho'). f_equal. apply frames_ext; [congruence | unfold count in *; congruence |].
    intros q. rewrite Ho', Ho. destruct (decide (q ∈ got)) as [Hq|]; [symmetry; apply Hfree, Hq | reflexivity].
  - destruct Hr as (_ & Hq & Hn). rewrite Ho, decide_True in Hn by exact Hq. discriminate.
  - destruct Hr as (_ & Hq & o & Hn & Hx). rewrite Ho, decide_True in Hn by exact Hq. injection Hn as <-. tauto.
Qed.

Definition example_frames : Frames := mkFrames 0x80400 [1; 0; 2; 0; 0].

Lemma reserve_lowest_first_witness :
  reserve 7 2 example_frames = (mkFrames 0x80400 [1; 7; 2; 7; 0], Ok (Some [0x80401; 0x80403])) /\
  reserve_spec 7 2 example_frames (mkFrames 0x80400 [1; 7; 2; 7; 0], Ok (Some [0x80401; 0x80403])).
Proof. split; [reflexivity | exact (reserve_lowest_first 7 2 example_frames ltac:(discriminate))]. Defined.

Lemma release_owned_witness :
  release 7 [0x80401; 0x80403] (mkFrames 0x80400 [1; 7; 2; 7; 0]) = (example_frames, Ok tt).
Proof. apply (release_owned 7 [] 2 example_frames). reflexivity. Defined.
