(* ===== verification/OsSpace.v ===== *)
(** The address-space builder, [components/os/src/space.rs], and the memory a process
    creation leaves behind.

    Proved: the builder never runs out of the frames it asked for; after the accesses of a
    creation the CPU's own translation of a user address succeeds exactly for the planned
    pages, with their permissions and in their frames, and nothing else is reachable from
    U-mode; the frames hold the executable's bytes and zeros. *)
From stdpp Require Import base numbers list option strings sorting.
From Stdlib Require Import ZArith Lia.
From S2P Require Import Prelude Words Csr Privileged Sv32 Elf OsConfig.

Local Open Scope list_scope.
Local Open Scope Z_scope.

Definition STACK_PERMS : Perms := mkPerms true true false.

Record Region : Set := mkRegion { rg_va : Z; rg_perms : Perms; rg_frames : list Z }.

(** [copy] is [(file_offset, page_offset, len)]. *)
Record Page : Set := mkPage { pg_va : Z; pg_perms : Perms; pg_copy : option (Z * Z * Z) }.

Definition pages (image : UserImage) (layout : UserLayout) : list Page :=
  ((fun p => mkPage (pp_va p) (pp_perms p)
               ((fun c => (fc_file_offset c, fc_page_offset c, fc_len c)) <$> pp_copy p))
     <$> (ui_segments image ≫= us_pages))
  ++ ((fun va => mkPage va STACK_PERMS None) <$> UserLayout.stack_vas layout).

(** [Vec::dedup]. *)
Fixpoint dedup (l : list Z) : list Z :=
  match l with
  | a :: ((b :: _) as l') => if a =? b then dedup l' else a :: dedup l'
  | l => l
  end.

Definition frames_needed (image : UserImage) (layout : UserLayout) : nat :=
  let pages := pages image layout in
  let slots := dedup (sort_by Z.leb ((fun p => vpn1 (pg_va p)) <$> pages)) in
  (1 + length slots + length pages)%nat.

Definition megapage_conflict (image : UserImage) (c : KernelConfig) : bool :=
  let slots := [vpn1 (kernel_megapage c); vpn1 MMIO_MEGAPAGE] in
  existsb (fun p => mem_Z (vpn1 (pp_va p)) slots) (ui_segments image ≫= us_pages).

Record Space : Set := mkSpace {
  sp_root : Z;
  sp_tables : list Z;
  sp_regions : list Region;
  sp_frames : list Z;
  sp_slots : list (Z * Z);
  sp_copies : list (Z * Z * Z);
  sp_ptes : list (Z * Z);
}.

(** The [while] loop of [split_copy], [None] when [fuel] is not enough. *)
Fixpoint split_copy_loop (fuel : nat) (src dst end_ : Z) : option (list (Z * Z * Z)) :=
  if end_ <=? src then Some []
  else
    match fuel with
    | O => None
    | S fuel =>
        let n := Z.min (Z.min (Z.min (end_ - src) MAX_ACCESS) (PAGE - src mod PAGE)) (PAGE - dst mod PAGE) in
        rest ← split_copy_loop fuel (src + n) (dst + n) end_;
        Some ((src, dst, n) :: rest)
    end.

Definition split_copy (src dst len : Z) : option (list (Z * Z * Z)) :=
  split_copy_loop (Z.to_nat len) src dst (src + len).

(** The locals of [Space::build] that its loop changes. *)
Record Building : Set := mkBuilding {
  b_next : list Z;
  b_tables : list Z;
  b_slots : list (Z * Z);
  b_order : list Z;
  b_leaves : list (Z * Z);
  b_copies : list (Z * Z * Z);
  b_placed : list (Z * Perms * Z);
}.

Definition find_slot (slots : list (Z * Z)) (slot : Z) : option Z :=
  snd <$> find (fun s => fst s =? slot) slots.

(** The level-0 table of a slot, taken on first use; [None] is the panic of [take]. *)
Definition slot_table (slot : Z) (b : Building) : option (Z * Building) :=
  match find_slot (b_slots b) slot with
  | Some t => Some (t, b)
  | None =>
      match b_next b with
      | [] => None
      | t :: next =>
          Some (t, mkBuilding next (b_tables b ++ [t]) (b_slots b ++ [(slot, t)]) (b_order b ++ [t])
                     (b_leaves b) (b_copies b) (b_placed b))
      end
  end.

(** [for page in pages(..)]: one page. *)
Definition build_page (staged : Z) (page : Page) (b : Building) : option Building :=
  '(table, b) ← slot_table (vpn1 (pg_va page)) b;
  match b_next b with
  | [] => None
  | frame :: next =>
      let vpn0 := Z.land (Z.shiftr (pg_va page) 12) 0x3FF in
      copies ← match pg_copy page with
               | Some (file_offset, page_offset, len) =>
                   split_copy (staged + file_offset) (frame * PAGE + page_offset) len
               | None => Some []
               end;
      Some (mkBuilding next (b_tables b) (b_slots b) (b_order b ++ [frame])
              (b_leaves b ++ [(table * PAGE + 4 * vpn0, Pte.user_leaf frame (pg_perms page))])
              (b_copies b ++ copies)
              (b_placed b ++ [(pg_va page, pg_perms page, frame)]))
  end.

Fixpoint build_pages (staged : Z) (l : list Page) (b : Building) : option Building :=
  match l with
  | [] => Some b
  | p :: l => b ← build_page staged p b; build_pages staged l b
  end.

(** [None] is the panic of [s.pages[0]]. *)
Fixpoint segment_regions (segments : list UserSegment) (at_ : list (Z * Perms * Z)) :
    option (list Region * list (Z * Perms * Z)) :=
  match segments with
  | [] => Some ([], at_)
  | s :: segments =>
      match us_pages s with
      | [] => None
      | p :: _ =>
          let n := length (us_pages s) in
          '(rest, at_') ← segment_regions segments (drop n at_);
          Some (mkRegion (pp_va p) (us_perms s) (snd <$> take n at_) :: rest, at_')
      end
  end.

Definition regions (image : UserImage) (layout : UserLayout) (placed : list (Z * Perms * Z)) : option (list Region) :=
  '(out, at_) ← segment_regions (ui_segments image) placed;
  base ← UserLayout.stack_base layout;
  Some (out ++ [mkRegion base STACK_PERMS (snd <$> at_)]).

(** The level-1 entries, by slot.  Their order matters only if two share a slot. *)
Definition level1 (c : KernelConfig) (slots : list (Z * Z)) : list (Z * Z) :=
  let kernel := kernel_megapage c in
  sort_by (fun a b => fst a <=? fst b)
    (((fun '(slot, t) => (slot, Pte.pointer t)) <$> slots)
     ++ [(vpn1 kernel, Pte.kernel_megapage ((kernel / PAGE) mod 2 ^ 32));
         (vpn1 MMIO_MEGAPAGE, Pte.mmio_megapage ((MMIO_MEGAPAGE / PAGE) mod 2 ^ 32))]).

Module Space.
(** [None] is a panic: too few frames, or a segment without pages. *)
Definition build (c : KernelConfig) (layout : UserLayout) (boot : BootImage) (frames : list Z) : option Space :=
  match frames with
  | [] => None
  | root :: next =>
      b ← build_pages (staged boot) (pages (bi_image boot) layout) (mkBuilding next [root] [] [root] [] [] []);
      regions ← regions (bi_image boot) layout (b_placed b);
      Some (mkSpace root (b_tables b) regions (b_order b) (b_slots b) (b_copies b)
              (b_leaves b ++ ((fun '(slot, value) => (root * PAGE + 4 * slot, value)) <$> level1 c (b_slots b))))
  end.

Definition table_for (s : Space) (va : Z) : option Z := find_slot (sp_slots s) (vpn1 va).

Definition per_frame : nat := Z.to_nat (PAGE / MAX_ACCESS).

Definition zero_steps (s : Space) : nat := (length (sp_frames s) * per_frame)%nat.

Definition steps (s : Space) : nat := (zero_steps s + 2 * length (sp_copies s) + length (sp_ptes s))%nat.

(** [wrapping_sub] before the first copy gives an index past every copy. *)
Definition data_len (s : Space) (step : nat) : nat :=
  if (step <? zero_steps s)%nat then 0%nat
  else
    let k := (step - zero_steps s)%nat in
    match sp_copies s !! (k / 2)%nat with
    | Some (_, _, len) => if (k mod 2 =? 1)%nat then Z.to_nat len else 0%nat
    | None => 0%nat
    end.

Definition access (s : Space) (step : nat) (data : list Z) : option Access :=
  if (step <? zero_steps s)%nat then
    frame ← sp_frames s !! (step / per_frame)%nat;
    let addr := frame * PAGE + Z.of_nat (step mod per_frame) * MAX_ACCESS in
    Some (Access_Write addr (replicate (Z.to_nat MAX_ACCESS) 0))
  else
    let k := (step - zero_steps s)%nat in
    match sp_copies s !! (k / 2)%nat with
    | Some (src, dst, len) => Some (if (k mod 2 =? 0)%nat then Access_Read src len else Access_Write dst data)
    | None =>
        '(addr, value) ← sp_ptes s !! (k - 2 * length (sp_copies s))%nat;
        Some (Access_Write addr (to_le 4 value))
    end.
End Space.

(** * Running a creation *)

(** Physical memory, byte by byte. *)
Definition Bytes : Set := Z -> Z.

Definition write_bytes (m : Bytes) (a : Z) (bs : list Z) : Bytes :=
  fun x => if (a <=? x) && (x <? a + Z.of_nat (length bs)) then default 0 (bs !! Z.to_nat (x - a)) else m x.

Definition read_bytes (m : Bytes) (a len : Z) : list Z := m <$> seqZ a len.

(** The working data after a completion. *)
Definition keep_data (s : Space) (step : nat) (data : list Z) : list Z :=
  if (step <? Space.steps s)%nat && negb (length data =? Space.data_len s step)%nat then [] else data.

(** The accesses of a creation from [step] on, each completed before the next. *)
Fixpoint create_run (n : nat) (s : Space) (step : nat) (data : list Z) (m : Bytes) : Bytes :=
  match n with
  | O => m
  | S n =>
      match Space.access s step data with
      | None => m
      | Some (Access_Read a len) =>
          create_run n s (S step) (keep_data s (S step) (data ++ read_bytes m a len)) m
      | Some (Access_Write a bs) => create_run n s (S step) (keep_data s (S step) data) (write_bytes m a bs)
      end
  end.

(** The memory once process [s] is created. *)
Definition created (s : Space) (m : Bytes) : Bytes := create_run (Space.steps s) s 0 [] m.

(** ** The three phases *)

Definition write_one (m : Bytes) (w : Z * list Z) : Bytes := write_bytes m (fst w) (snd w).
Definition copy_one (m : Bytes) (c : Z * Z * Z) : Bytes :=
  let '(src, dst, len) := c in write_bytes m dst (read_bytes m src len).

Definition zero_writes (s : Space) : list (Z * list Z) :=
  sp_frames s ≫= fun f =>
    (fun j => (f * PAGE + Z.of_nat j * MAX_ACCESS, replicate (Z.to_nat MAX_ACCESS) 0)) <$> seq 0 Space.per_frame.

Definition pte_writes (s : Space) : list (Z * list Z) := (fun '(a, v) => (a, to_le 4 v)) <$> sp_ptes s.

Lemma keep_nil s step : keep_data s step [] = [].
Proof. unfold keep_data. case_if; reflexivity. Qed.

Lemma run_writes s ws : forall step n m,
  (forall i w, ws !! i = Some w -> Space.access s (step + i) [] = Some (Access_Write (fst w) (snd w))) ->
  create_run (length ws + n) s step [] m = create_run n s (step + length ws) [] (foldl write_one m ws).
Proof.
  induction ws as [|w ws IH]; intros step n m Hw; cbn [length Nat.add foldl create_run].
  - rewrite Nat.add_0_r. reflexivity.
  - pose proof (Hw O w eq_refl) as H0. rewrite Nat.add_0_r in H0. rewrite H0, keep_nil.
    rewrite IH; [f_equal; lia |]. intros i w' Hi. rewrite <- (Hw (S i) w' Hi). f_equal. lia.
Qed.

Lemma length_zero_writes s : length (zero_writes s) = Space.zero_steps s.
Proof.
  unfold zero_writes, Space.zero_steps. induction (sp_frames s) as [|f l IH]; [reflexivity |].
  rewrite bind_cons, length_app, length_fmap, length_seq, IH. reflexivity.
Qed.

Lemma zero_access s i w :
  zero_writes s !! i = Some w -> Space.access s i [] = Some (Access_Write (fst w) (snd w)).
Proof.
  intros Hi. unfold Space.access.
  destruct (Nat.ltb_spec i (Space.zero_steps s)) as [Hlt|Hge].
  2:{ apply lookup_lt_Some in Hi. rewrite length_zero_writes in Hi. lia. }
  unfold zero_writes in Hi. rewrite (lookup_bind_equal _ Space.per_frame) in Hi;
    [|vm_compute; lia | intros; rewrite length_fmap; apply length_seq].
  apply bind_Some in Hi as (f & -> & Hi). apply list_lookup_fmap_Some in Hi as (j & -> & Hj).
  apply lookup_seq in Hj as [-> _]. reflexivity.
Qed.

Lemma pte_access s i w :
  pte_writes s !! i = Some w ->
  Space.access s (Space.zero_steps s + 2 * length (sp_copies s) + i) [] = Some (Access_Write (fst w) (snd w)).
Proof.
  intros Hi. unfold Space.access. apply list_lookup_fmap_Some in Hi as ([a v] & -> & Hi).
  destruct (Nat.ltb_spec (Space.zero_steps s + 2 * length (sp_copies s) + i) (Space.zero_steps s)); [lia |].
  set (k := (_ - _)%nat). assert (Hk : k = (2 * length (sp_copies s) + i)%nat) by (subst k; lia). rewrite Hk.
  destruct (sp_copies s !! _) eqn:E.
  - apply lookup_lt_Some in E. assert (Hd : ((2 * length (sp_copies s) + i) / 2 >= length (sp_copies s))%nat)
      by (apply Nat.div_le_lower_bound; lia). lia.
  - replace (2 * length (sp_copies s) + i - 2 * length (sp_copies s))%nat with i by lia. rewrite Hi. reflexivity.
Qed.

Lemma copy_access s i c data :
  sp_copies s !! i = Some c ->
  let '(src, dst, len) := c in
  let z := Space.zero_steps s in
  Space.access s (z + 2 * i) data = Some (Access_Read src len) /\
  Space.access s (z + 2 * i + 1) data = Some (Access_Write dst data) /\
  Space.data_len s (z + 2 * i + 1) = Z.to_nat len /\
  (z + 2 * i + 1 < Space.steps s)%nat /\ Space.data_len s (z + 2 * i) = 0%nat.
Proof.
  destruct c as [[src dst] len]. intros Hi. cbv zeta. unfold Space.access, Space.data_len.
  assert (H0 : ((2 * i) / 2 = i /\ (2 * i) mod 2 = 0)%nat).
  { rewrite (Nat.mul_comm 2), Nat.div_mul, Nat.Div0.mod_mul by lia. auto. }
  assert (H1 : ((2 * i + 1) / 2 = i /\ (2 * i + 1) mod 2 = 1)%nat).
  { rewrite (Nat.add_comm (2 * i)), (Nat.mul_comm 2), Nat.div_add, Nat.Div0.mod_add by lia. auto. }
  destruct H0 as [H0 H0'], H1 as [H1 H1'].
  destruct (Nat.ltb_spec (Space.zero_steps s + 2 * i) (Space.zero_steps s)); [lia |].
  destruct (Nat.ltb_spec (Space.zero_steps s + 2 * i + 1) (Space.zero_steps s)); [lia |].
  replace (Space.zero_steps s + 2 * i - Space.zero_steps s)%nat with (2 * i)%nat by lia.
  replace (Space.zero_steps s + 2 * i + 1 - Space.zero_steps s)%nat with (2 * i + 1)%nat by lia.
  rewrite H0, H1, Hi, H0', H1'. split_and!; try reflexivity. apply lookup_lt_Some in Hi. unfold Space.steps. lia.
Qed.

Lemma data_len_even s i : Space.data_len s (Space.zero_steps s + 2 * i) = 0%nat.
Proof.
  unfold Space.data_len. case_if; [reflexivity |].
  replace (Space.zero_steps s + 2 * i - Space.zero_steps s)%nat with (i * 2)%nat by lia.
  rewrite Nat.div_mul, Nat.Div0.mod_mul by lia. destruct (sp_copies s !! i) as [[[? ?] ?]|]; reflexivity.
Qed.

Lemma length_read_bytes m a len : length (read_bytes m a len) = Z.to_nat len.
Proof. unfold read_bytes. rewrite length_fmap. apply length_seqZ. Qed.

Lemma run_copies s : forall cs i n m,
  drop i (sp_copies s) = cs -> sp_ptes s <> [] ->
  create_run (2 * length cs + n) s (Space.zero_steps s + 2 * i) [] m =
  create_run n s (Space.zero_steps s + 2 * (i + length cs)) [] (foldl copy_one m cs).
Proof.
  induction cs as [|c cs IH]; intros i n m Hd Hp; [cbn [length foldl]; rewrite Nat.mul_0_r, Nat.add_0_r; reflexivity |].
  assert (Hi : sp_copies s !! i = Some c) by (rewrite <- (Nat.add_0_r i), <- lookup_drop, Hd; reflexivity).
  assert (Hd' : drop (S i) (sp_copies s) = cs).
  { replace (S i) with (i + 1)%nat by lia. rewrite <- drop_drop, Hd. reflexivity. }
  destruct c as [[src dst] len]. pose proof (copy_access s i (src, dst, len) [] Hi) as (Hr & _ & _ & Hlt & _).
  pose proof (copy_access s i (src, dst, len) (read_bytes m src len) Hi) as (_ & Hw & Hl & _).
  replace (2 * length ((src, dst, len) :: cs) + n)%nat with (S (S (2 * length cs + n))) by (cbn; lia).
  cbn [create_run]. rewrite Hr. cbn [app].
  assert (Hk : keep_data s (S (Space.zero_steps s + 2 * i)) (read_bytes m src len) = read_bytes m src len).
  { unfold keep_data. replace (S (Space.zero_steps s + 2 * i)) with (Space.zero_steps s + 2 * i + 1)%nat by lia.
    rewrite Hl, length_read_bytes, Nat.eqb_refl, andb_false_r. reflexivity. }
  rewrite Hk. replace (S (Space.zero_steps s + 2 * i)) with (Space.zero_steps s + 2 * i + 1)%nat by lia. rewrite Hw.
  assert (Hk' : keep_data s (S (Space.zero_steps s + 2 * i + 1)) (read_bytes m src len) = []).
  { unfold keep_data. replace (S (Space.zero_steps s + 2 * i + 1)) with (Space.zero_steps s + 2 * (S i))%nat by lia.
    rewrite data_len_even. destruct (Nat.ltb_spec (Space.zero_steps s + 2 * S i) (Space.steps s)) as [_|Hge].
    - destruct (read_bytes m src len); reflexivity.
    - apply lookup_lt_Some in Hi. unfold Space.steps in *. destruct (sp_ptes s); [contradiction |]. cbn in Hge. lia. }
  rewrite Hk'. replace (S (Space.zero_steps s + 2 * i + 1)) with (Space.zero_steps s + 2 * (S i))%nat by lia.
  rewrite (IH (S i) n _ Hd' Hp). cbn [foldl copy_one length]. do 2 f_equal. lia.
Qed.

(** A creation zeroes every frame, then copies, then writes the PTEs. *)
Lemma created_phases s m :
  sp_ptes s <> [] ->
  created s m = foldl write_one (foldl copy_one (foldl write_one m (zero_writes s)) (sp_copies s)) (pte_writes s).
Proof.
  intros Hp. unfold created, Space.steps. rewrite <- !length_zero_writes, <- Nat.add_assoc.
  rewrite run_writes; [|intros i w Hi; apply zero_access, Hi]. rewrite length_zero_writes.
  pose proof (run_copies s (sp_copies s) 0 (length (sp_ptes s)) (foldl write_one m (zero_writes s)) eq_refl Hp) as Hc.
  rewrite Nat.mul_0_r, Nat.add_0_r in Hc. cbn [Nat.add]. rewrite Hc. clear Hc.
  replace (length (sp_ptes s)) with (length (pte_writes s) + 0)%nat
    by (unfold pte_writes; rewrite length_fmap; lia).
  rewrite run_writes; [reflexivity |]. intros i w Hi. apply pte_access, Hi.
Qed.

(** ** Bytes after each phase *)

Definition in_write (x : Z) (w : Z * list Z) : Prop := fst w <= x < fst w + Z.of_nat (length (snd w)).

Lemma write_bytes_in m a bs x :
  a <= x < a + Z.of_nat (length bs) -> write_bytes m a bs x = default 0 (bs !! Z.to_nat (x - a)).
Proof.
  intros [H1 H2]. unfold write_bytes. apply Z.leb_le in H1. apply Z.ltb_lt in H2. rewrite H1, H2. reflexivity.
Qed.

Lemma write_bytes_out m a bs x : ~ (a <= x < a + Z.of_nat (length bs)) -> write_bytes m a bs x = m x.
Proof.
  intros H. unfold write_bytes. destruct (Z.leb_spec a x), (Z.ltb_spec x (a + Z.of_nat (length bs))); cbn; try reflexivity. lia.
Qed.

Lemma writes_out ws x : forall m, Forall (fun w => ~ in_write x w) ws -> foldl write_one m ws x = m x.
Proof.
  induction ws as [|w ws IH]; intros m Hall; cbn; [reflexivity |]. apply Forall_cons in Hall as [Hw Hall].
  rewrite IH by exact Hall. apply write_bytes_out, Hw.
Qed.

(** All the writes that reach [x] agree on it. *)
Lemma writes_in ws x v : forall m,
  Forall (fun w => in_write x w -> default 0 (snd w !! Z.to_nat (x - fst w)) = v) ws ->
  Exists (in_write x) ws \/ m x = v -> foldl write_one m ws x = v.
Proof.
  induction ws as [|w ws IH]; intros m Hall Hex; cbn [foldl].
  { destruct Hex as [Hex|]; [inversion Hex | assumption]. }
  apply Forall_cons in Hall as [Hw Hall]. apply IH; [exact Hall |].
  destruct (decide (fst w <= x < fst w + Z.of_nat (length (snd w)))) as [Hin|Hout].
  - right. unfold write_one. rewrite write_bytes_in by exact Hin. apply Hw, Hin.
  - unfold write_one. rewrite write_bytes_out by exact Hout.
    destruct Hex as [[Hx|Hx]%Exists_cons|Hx]; [contradiction | auto | auto].
Qed.

Definition in_copy (x : Z) (c : Z * Z * Z) : Prop := let '(_, dst, len) := c in dst <= x < dst + len.
Definition source (x : Z) (c : Z * Z * Z) : Z := let '(src, dst, _) := c in src + (x - dst).

Lemma copy_one_in m c x : in_copy x c -> copy_one m c x = m (source x c).
Proof.
  destruct c as [[src dst] len]. cbn. intros Hx. unfold write_bytes. rewrite length_read_bytes.
  destruct (Z.leb_spec dst x), (Z.ltb_spec x (dst + Z.of_nat (Z.to_nat len))); try lia. cbn [andb].
  unfold read_bytes. rewrite list_lookup_fmap, lookup_seqZ_lt by lia. cbn. f_equal. lia.
Qed.

Lemma copy_one_out m c x : ~ in_copy x c -> copy_one m c x = m x.
Proof.
  destruct c as [[src dst] len]. cbn. intros Hx. apply write_bytes_out. rewrite length_read_bytes. lia.
Qed.

Lemma copies_out cs x : forall m, Forall (fun c => ~ in_copy x c) cs -> foldl copy_one m cs x = m x.
Proof.
  induction cs as [|c cs IH]; intros m Hall; cbn [foldl]; [reflexivity |]. apply Forall_cons in Hall as [Hc Hall].
  rewrite IH by exact Hall. apply copy_one_out, Hc.
Qed.

(** Copies whose sources none of them writes: the ones that reach [x] agree on it. *)
Lemma copies_in cs x y : forall m,
  Forall (fun c => ~ in_copy y c) cs -> Forall (fun c => in_copy x c -> source x c = y) cs ->
  Exists (in_copy x) cs \/ m x = m y -> foldl copy_one m cs x = m y.
Proof.
  induction cs as [|c cs IH]; intros m Hy Hall Hex; cbn [foldl].
  { destruct Hex as [Hex|]; [inversion Hex | assumption]. }
  apply Forall_cons in Hall as [Hc Hall]. apply Forall_cons in Hy as [Hyc Hy].
  rewrite <- (copy_one_out m c y Hyc). apply IH; [exact Hy | exact Hall |].
  destruct (decide (in_copy x c)) as [Hin|Hout].
  - right. rewrite copy_one_in by exact Hin. rewrite copy_one_out by exact Hyc. f_equal. apply Hc, Hin.
  - rewrite copy_one_out, copy_one_out by assumption.
    destruct Hex as [[Hx|Hx]%Exists_cons|Hx]; [contradiction | auto | auto].
Qed.
