(* ===== verification/OsSpaceProofs.v ===== *)
(** The address space a creation leaves in memory: the proofs about [OsSpace].

    The frames of a process are its root table, one table per 4 MiB slot and one frame per
    page, each used once; the page tables written there make the CPU translate, from U-mode,
    exactly the planned pages; the page frames hold the executable's bytes and zeros. *)
From stdpp Require Import base numbers list option strings sorting.
From Stdlib Require Import ZArith Lia.
From S2P Require Import Prelude Instr Execute Csr Privileged Sv32 Elf OsConfig OsSpace.

Local Open Scope list_scope.
Local Open Scope Z_scope.

(** * Splitting a copy *)

(** The pieces keep the distance of the copy, stay inside it and cover it. *)
Lemma split_copy_loop_spec fuel : forall src dst end_,
  (Z.to_nat (end_ - src) <= fuel)%nat ->
  exists cs, split_copy_loop fuel src dst end_ = Some cs /\
    Forall (fun '(s, d, n) => d - s = dst - src /\ dst <= d /\ d + n <= dst + (end_ - src) /\ 0 < n <= MAX_ACCESS /\
              s / PAGE = (s + n - 1) / PAGE /\ d / PAGE = (d + n - 1) / PAGE) cs /\
    forall x, dst <= x < dst + (end_ - src) -> Exists (in_copy x) cs.
Proof.
  induction fuel as [|fuel IH]; intros src dst end_ Hf; cbn [split_copy_loop];
    destruct (Z.leb_spec end_ src) as [Hle|Hlt].
  1,3: eexists; split_and!; [reflexivity | constructor | intros; lia].
  { lia. }
  set (n := Z.min _ _). assert (Hn : 0 < n <= MAX_ACCESS /\ n <= end_ - src /\ n <= PAGE - src mod PAGE /\ n <= PAGE - dst mod PAGE).
  { unfold n, MAX_ACCESS, PAGE. pose proof (Z.mod_pos_bound src 4096). pose proof (Z.mod_pos_bound dst 4096). lia. }
  clearbody n. destruct Hn as (Hn & He & Hs & Hd).
  destruct (IH (src + n) (dst + n) end_ ltac:(lia)) as (cs & -> & Hall & Hcov). cbn.
  eexists. split_and!; [reflexivity | constructor |].
  - split_and!; try lia; unfold PAGE in *; Z.div_mod_to_equations; lia.
  - eapply Forall_impl; [exact Hall |]. intros [[s d] k] (? & ? & ? & ?). split_and!; try tauto; lia.
  - intros x Hx. destruct (Z.lt_ge_cases x (dst + n)); [left; cbn; lia | right; apply Hcov; lia].
Qed.

Lemma split_copy_spec src dst len :
  exists cs, split_copy src dst len = Some cs /\
    Forall (fun '(s, d, n) => d - s = dst - src /\ dst <= d /\ d + n <= dst + len /\ 0 < n <= MAX_ACCESS /\
              s / PAGE = (s + n - 1) / PAGE /\ d / PAGE = (d + n - 1) / PAGE) cs /\
    forall x, dst <= x < dst + len -> Exists (in_copy x) cs.
Proof.
  destruct (split_copy_loop_spec (Z.to_nat len) src dst (src + len) ltac:(lia)) as (cs & E & Hall & Hcov).
  replace (src + len - src) with len in * by lia. eauto.
Qed.

(** * Assigning the frames *)

Definition page_slot (p : Page) : Z := vpn1 (pg_va p).
Definition page_index (p : Page) : Z := Z.land (Z.shiftr (pg_va p) 12) 0x3FF.

(** What [build] makes of a page [p] in frame [f]. *)
Definition leaf_of (slots : list (Z * Z)) (pf : Page * Z) : Z * Z :=
  (default 0 (find_slot slots (page_slot (fst pf))) * PAGE + 4 * page_index (fst pf),
   Pte.user_leaf (snd pf) (pg_perms (fst pf))).

Definition copies_of (staged : Z) (pf : Page * Z) : list (Z * Z * Z) :=
  match pg_copy (fst pf) with
  | Some (file_offset, page_offset, len) =>
      default [] (split_copy (staged + file_offset) (snd pf * PAGE + page_offset) len)
  | None => []
  end.

Definition placed_of (pf : Page * Z) : Z * Perms * Z := (pg_va (fst pf), pg_perms (fst pf), snd pf).

(** The builder's locals once the tables of the pages [ls] are taken and the pages of [pf] are
    placed. *)
Record building (st root : Z) (frames : list Z) (ls : list Page) (pf : list (Page * Z)) (b : Building) : Prop := {
  bd_order : b_order b ++ b_next b = frames;
  bd_frames : b_order b ≡ₚ root :: (snd <$> b_slots b) ++ (snd <$> pf);
  bd_tables : b_tables b = root :: (snd <$> b_slots b);
  bd_nodup : NoDup (fst <$> b_slots b);
  bd_slots : forall x, x ∈ fst <$> b_slots b <-> x ∈ page_slot <$> ls;
  bd_leaves : b_leaves b = leaf_of (b_slots b) <$> pf;
  bd_copies : b_copies b = pf ≫= copies_of st;
  bd_placed : b_placed b = placed_of <$> pf;
}.

Lemma find_slot_Some slots x t : find_slot slots x = Some t -> (x, t) ∈ slots.
Proof.
  unfold find_slot. intros ([y t'] & Hf & ->)%fmap_Some.
  apply find_some in Hf as [Hin Heq]. apply Z.eqb_eq in Heq. cbn in Heq. subst. apply list_elem_of_In, Hin.
Qed.

Lemma find_slot_None slots x : find_slot slots x = None <-> x ∉ fst <$> slots.
Proof.
  unfold find_slot. rewrite fmap_None. induction slots as [|[y t] slots IH]; cbn.
  { split; [intros _; apply not_elem_of_nil | reflexivity]. }
  rewrite not_elem_of_cons. destruct (Z.eqb_spec y x) as [->|Hne]; [split; [discriminate | tauto] |].
  rewrite IH. split; [intros; split; congruence | tauto].
Qed.

Lemma find_slot_elem slots x t : NoDup (fst <$> slots) -> (x, t) ∈ slots -> find_slot slots x = Some t.
Proof.
  intros Hnd Hin. destruct (find_slot slots x) as [t'|] eqn:E.
  - apply find_slot_Some in E. f_equal.
    apply list_elem_of_lookup in Hin as [i Hi], E as [j Hj].
    assert (i = j); [|congruence]. eapply NoDup_lookup; [exact Hnd | |]; rewrite list_lookup_fmap, ?Hi, ?Hj; reflexivity.
  - apply find_slot_None in E. destruct E. apply list_elem_of_fmap. exists (x, t). auto.
Qed.

Lemma find_slot_app slots x t y : y ∈ fst <$> slots -> find_slot (slots ++ [(x, t)]) y = find_slot slots y.
Proof.
  intros Hy. unfold find_slot. induction slots as [|[z u] slots IH]; cbn in *; [inversion Hy |].
  destruct (Z.eqb_spec z y) as [->|Hne]; [reflexivity |]. apply IH. apply elem_of_cons in Hy as [->|Hy]; [contradiction | exact Hy].
Qed.

Lemma slot_table_spec st root frames ls pf p b :
  building st root frames ls pf b -> (forall q, q ∈ fst <$> pf -> q ∈ ls) ->
  match slot_table (page_slot p) b with
  | Some (t, b') => building st root frames (ls ++ [p]) pf b' /\ find_slot (b_slots b') (page_slot p) = Some t
  | None => b_next b = [] /\ page_slot p ∉ page_slot <$> ls
  end.
Proof.
  intros [Ho Hf Ht Hnd Hs Hl Hc Hp] Hsub. unfold slot_table.
  destruct (find_slot (b_slots b) (page_slot p)) as [t|] eqn:E.
  { split; [|exact E]. split; auto. intros x. rewrite fmap_app, elem_of_app, <- Hs. cbn. rewrite list_elem_of_singleton.
    split; [auto |]. intros [?| ->]; [assumption |]. apply find_slot_Some in E. apply list_elem_of_fmap. exists (page_slot p, t). auto. }
  pose proof E as Hnew. apply find_slot_None in Hnew.
  destruct (b_next b) as [|t next] eqn:En; [rewrite <- Hs; auto |]. split; [split |]; cbn.
  - rewrite <- Ho, <- app_assoc. reflexivity.
  - rewrite Hf, fmap_app. cbn. rewrite <- app_assoc. apply perm_skip. rewrite <- !app_assoc. cbn.
    apply Permutation_app_head. symmetry. apply Permutation_cons_append.
  - rewrite Ht, fmap_app. reflexivity.
  - rewrite fmap_app. apply NoDup_app. split_and!; [exact Hnd | | apply NoDup_singleton].
    intros x Hx. cbn. rewrite list_elem_of_singleton. intros ->. contradiction.
  - intros x. rewrite !fmap_app, !elem_of_app, Hs. reflexivity.
  - rewrite Hl. apply list_fmap_ext. intros i [q f] Hi. unfold leaf_of. cbn.
    rewrite find_slot_app; [reflexivity |]. apply Hs, list_elem_of_fmap. exists q. split; [reflexivity |].
    apply Hsub, list_elem_of_fmap. exists (q, f). split; [reflexivity |]. eapply list_elem_of_lookup_2, Hi.
  - exact Hc.
  - exact Hp.
  - apply find_slot_elem; [|apply elem_of_app; right; left]. rewrite fmap_app. apply NoDup_app.
    split_and!; [exact Hnd | | apply NoDup_singleton]. intros x Hx. cbn. rewrite list_elem_of_singleton. intros ->. contradiction.
Qed.

(** The number of distinct slots of a list of pages. *)
Definition slot_count (l : list Page) : nat := length (dedup (sort_by Z.leb (page_slot <$> l))).

Lemma dedup_cons a b l : dedup (a :: b :: l) = if a =? b then dedup (b :: l) else a :: dedup (b :: l).
Proof. reflexivity. Qed.

Lemma elem_of_dedup l x : x ∈ dedup l <-> x ∈ l.
Proof.
  induction l as [|a [|b l] IH]; [reflexivity.. |]. rewrite dedup_cons. destruct (Z.eqb_spec a b) as [->|Hne].
  - rewrite IH, !elem_of_cons. tauto.
  - rewrite (elem_of_cons _ _ a), IH, (elem_of_cons (b :: l)). reflexivity.
Qed.

Lemma elem_of_slots l x : x ∈ dedup (sort_by Z.leb l) <-> x ∈ l.
Proof. rewrite elem_of_dedup, sort_by_perm. reflexivity. Qed.

Lemma dedup_nodup l : StronglySorted (fun a b => (a <=? b) = true) l -> NoDup (dedup l).
Proof.
  induction l as [|a l IH]; [constructor |]. intros [Hs Hall]%StronglySorted_inv. specialize (IH Hs).
  destruct l as [|b l]; [apply NoDup_singleton |]. rewrite dedup_cons. destruct (Z.eqb_spec a b) as [->|Hne]; [exact IH |].
  constructor; [|exact IH]. rewrite elem_of_dedup. intros Hin.
  apply Forall_cons in Hall as [Hab _]. apply StronglySorted_inv in Hs as [_ Hb]. rewrite Forall_forall in Hb.
  apply Z.leb_le in Hab.
  apply elem_of_cons in Hin as [->|Hin]; [contradiction |]. specialize (Hb a Hin). cbn in Hb. lia.
Qed.

(** A list of the slots without repetition has as many elements as [frames_needed] counts. *)
Lemma slot_count_max slots l :
  NoDup slots -> (forall x, x ∈ slots -> x ∈ page_slot <$> l) -> (length slots <= slot_count l)%nat.
Proof.
  intros Hnd Hin. apply submseteq_length, NoDup_submseteq; [exact Hnd |]. intros x Hx. apply elem_of_slots, Hin, Hx.
Qed.

Lemma slot_count_exact slots l :
  NoDup slots -> (forall x, x ∈ slots <-> x ∈ page_slot <$> l) -> length slots = slot_count l.
Proof.
  intros Hnd Hin. apply Permutation_length, NoDup_Permutation; [exact Hnd | |].
  - apply dedup_nodup. apply sort_by_sorted; intros; lia.
  - intros x. rewrite Hin, elem_of_slots. reflexivity.
Qed.

Lemma build_page_spec st root frames pf p b :
  building st root frames (fst <$> pf) pf b ->
  (1 + slot_count ((fst <$> pf) ++ [p]) + S (length pf) <= length frames)%nat ->
  exists f b', build_page st p b = Some b' /\
    building st root frames ((fst <$> pf) ++ [p]) (pf ++ [(p, f)]) b'.
Proof.
  intros Hb Hlen. pose proof (slot_table_spec st root frames (fst <$> pf) pf p b Hb ltac:(auto)) as Hst.
  unfold build_page. fold (page_slot p). fold (page_index p).
  destruct (slot_table (page_slot p) b) as [[t b1]|] eqn:E; cbn.
  - destruct Hst as [[Ho Hf Ht Hnd Hs Hl Hc Hp] Hfind].
    destruct (b_next b1) as [|f next] eqn:En.
    { exfalso. apply Permutation_length in Hf. rewrite app_nil_r in Ho. rewrite Ho in Hf. cbn in Hf.
      rewrite length_app, !length_fmap in Hf. pose proof (slot_count_max (fst <$> b_slots b1) _ Hnd (fun x => proj1 (Hs x))) as Hm.
      rewrite length_fmap in Hm. lia. }
    assert (Hcp : match pg_copy p with
                  | Some (file_offset, page_offset, len) => split_copy (st + file_offset) (f * PAGE + page_offset) len
                  | None => Some []
                  end = Some (copies_of st (p, f))).
    { unfold copies_of. cbn. destruct (pg_copy p) as [[[fo po] len]|]; [|reflexivity].
      destruct (split_copy_spec (st + fo) (f * PAGE + po) len) as (cs & -> & _). reflexivity. }
    rewrite Hcp. cbn. exists f. eexists. split; [reflexivity |]. split; cbn; try assumption.
    + rewrite <- Ho, <- app_assoc. reflexivity.
    + rewrite Hf, fmap_app. cbn. rewrite <- app_assoc. reflexivity.
    + rewrite Hl, fmap_app. unfold leaf_of at 3. cbn. rewrite Hfind. reflexivity.
    + rewrite Hc, bind_app. cbn. rewrite app_nil_r. reflexivity.
    + rewrite Hp, fmap_app. reflexivity.
  - exfalso. destruct Hst as [En Hnew]. destruct Hb as [Ho Hf Ht Hnd Hs Hl Hc Hp].
    rewrite En, app_nil_r in Ho. apply Permutation_length in Hf. rewrite Ho in Hf. cbn in Hf.
    rewrite length_app, !length_fmap in Hf.
    assert (Hm : (length (page_slot p :: (fst <$> b_slots b)) <= slot_count ((fst <$> pf) ++ [p]))%nat).
    { apply slot_count_max; [constructor; [rewrite Hs; exact Hnew | exact Hnd] |].
      intros x. rewrite fmap_app, elem_of_app, elem_of_cons, Hs. cbn. rewrite list_elem_of_singleton. tauto. }
    cbn in Hm. rewrite length_fmap in Hm. lia.
Qed.

Lemma slot_count_mono l l' : (forall x, x ∈ l -> x ∈ l') -> (slot_count l <= slot_count l')%nat.
Proof.
  intros Hsub. apply slot_count_max; [apply dedup_nodup, sort_by_sorted; intros; lia |].
  intros x. rewrite elem_of_slots, !list_elem_of_fmap. intros (p & -> & Hp). eauto.
Qed.

Lemma build_pages_spec st root frames l : forall pf b,
  building st root frames (fst <$> pf) pf b ->
  (1 + slot_count ((fst <$> pf) ++ l) + length pf + length l <= length frames)%nat ->
  exists pf' b', build_pages st l b = Some b' /\ fst <$> pf' = (fst <$> pf) ++ l /\
    building st root frames (fst <$> pf') pf' b'.
Proof.
  induction l as [|p l IH]; intros pf b Hb Hlen; cbn [build_pages].
  { exists pf, b. rewrite app_nil_r. auto. }
  destruct (build_page_spec st root frames pf p b Hb) as (f & b1 & -> & Hb1).
  { assert (Hm : (slot_count ((fst <$> pf) ++ [p]) <= slot_count ((fst <$> pf) ++ p :: l))%nat).
    { apply slot_count_mono. intros x. rewrite !elem_of_app, !elem_of_cons. intros [?|[?|?%elem_of_nil]]; tauto. }
    cbn in Hlen. lia. }
  cbn. destruct (IH (pf ++ [(p, f)]) b1) as (pf' & b' & E & Hpf & Hb').
  - rewrite fmap_app. exact Hb1.
  - rewrite fmap_app, length_app, <- app_assoc. cbn. cbn in Hlen. lia.
  - exists pf', b'. split; [exact E |]. split; [|exact Hb']. rewrite Hpf, fmap_app, <- app_assoc. reflexivity.
Qed.

Lemma frames_needed_count image layout :
  frames_needed image layout = (1 + slot_count (pages image layout) + length (pages image layout))%nat.
Proof. reflexivity. Qed.

Lemma segment_regions_spec segments : forall at_,
  Forall (fun s => us_pages s <> []) segments ->
  let n := length (segments ≫= us_pages) in
  (n <= length at_)%nat ->
  exists rs, segment_regions segments at_ = Some (rs, drop n at_) /\
    rs ≫= rg_frames = snd <$> take n at_ /\ length rs = length segments.
Proof.
  induction segments as [|s segments IH]; intros at_ Hall n Hn; cbn in *.
  { exists []. rewrite drop_0. auto. }
  apply Forall_cons in Hall as [Hs Hall]. destruct (us_pages s) as [|p ps] eqn:E; [contradiction |].
  subst n. rewrite length_app in *. set (k := length (p :: ps)) in *.
  destruct (IH (drop k at_) Hall) as (rs & -> & Hrs & Hlen); [rewrite length_drop; lia |].
  cbn [mbind option_bind]. eexists. split_and!; [rewrite drop_drop; reflexivity | | cbn; lia].
  rewrite bind_cons. cbn [rg_frames]. rewrite Hrs, <- fmap_app, take_take_drop. reflexivity.
Qed.

(** [build] with the frames it asks for: every frame is used, once, as the root, as a slot's
    table or as a page's frame. *)
Lemma build_spec c layout boot root rest :
  let image := bi_image boot in
  let ps := pages image layout in
  Forall (fun s => us_pages s <> []) (ui_segments image) ->
  (exists base, UserLayout.stack_base layout = Some base) ->
  length (root :: rest) = frames_needed image layout ->
  exists s pf,
    Space.build c layout boot (root :: rest) = Some s /\
    pf = zip ps (sp_regions s ≫= rg_frames) /\ fst <$> pf = ps /\
    sp_root s = root /\ sp_frames s = root :: rest /\
    root :: rest ≡ₚ root :: (snd <$> sp_slots s) ++ (snd <$> pf) /\
    NoDup (fst <$> sp_slots s) /\ (forall x, x ∈ fst <$> sp_slots s <-> x ∈ page_slot <$> ps) /\
    sp_tables s = root :: (snd <$> sp_slots s) /\
    sp_copies s = pf ≫= copies_of (staged boot) /\
    sp_ptes s = (leaf_of (sp_slots s) <$> pf)
      ++ ((fun '(slot, value) => (root * PAGE + 4 * slot, value)) <$> level1 c (sp_slots s)) /\
    sp_regions s ≫= rg_frames = snd <$> pf /\ sp_regions s <> [].
Proof.
  intros image ps Hseg [base Hbase] Hlen. rewrite frames_needed_count in Hlen. fold ps in Hlen.
  destruct (build_pages_spec (staged boot) root (root :: rest) ps []
              (mkBuilding rest [root] [] [root] [] [] [])) as (pf & b & E & Hpf & Hb).
  { split; cbn; try reflexivity; try constructor; intros H; inversion H. }
  { cbn [fmap list_fmap app length]. cbn in Hlen |- *. lia. }
  cbn in Hpf. rewrite Hpf in Hb. destruct Hb as [Ho Hf Ht Hnd Hs Hl Hc Hp].
  pose proof (slot_count_exact _ _ Hnd Hs) as Hcount. rewrite length_fmap in Hcount.
  assert (Hlpf : length pf = length ps) by (rewrite <- Hpf, length_fmap; reflexivity).
  assert (Horder : b_order b = root :: rest).
  { apply Permutation_length in Hf. cbn in Hf. rewrite length_app, !length_fmap in Hf.
    assert (Hn : b_next b = []); [|rewrite Hn, app_nil_r in Ho; exact Ho].
    apply nil_length_inv. apply (f_equal length) in Ho. rewrite length_app in Ho. cbn in Ho, Hlen. lia. }
  destruct (segment_regions_spec (ui_segments image) (b_placed b) Hseg) as (rs & Er & Hrs & _).
  { rewrite Hp, length_fmap, Hlpf. unfold ps, pages. rewrite length_app, !length_fmap. lia. }
  unfold Space.build. fold image. fold ps. rewrite E. cbn [mbind option_bind]. unfold regions. rewrite Er, Hbase.
  cbn [mbind option_bind].
  assert (Hfr : (rs ++ [mkRegion base STACK_PERMS
                   (snd <$> drop (length (ui_segments image ≫= us_pages)) (b_placed b))]) ≫= rg_frames = snd <$> pf).
  { rewrite bind_app, Hrs. cbn. rewrite app_nil_r, <- fmap_app, take_drop, Hp, <- list_fmap_compose. reflexivity. }
  eexists. exists pf. split_and!; [reflexivity | | exact Hpf | reflexivity | exact Horder | | exact Hnd | exact Hs | exact Ht | exact Hc | | exact Hfr | destruct rs; discriminate].
  - cbn. rewrite Hfr, <- Hpf. symmetry. apply zip_fst_snd.
  - rewrite <- Horder. exact Hf.
  - cbn. rewrite Hl. reflexivity.
Qed.

(** Whatever [build] accepts: the tables and the regions' frames are the frames given. *)
Lemma build_owned c layout boot frames s :
  length frames = frames_needed (bi_image boot) layout -> Space.build c layout boot frames = Some s ->
  head (sp_tables s) = Some (sp_root s) /\ sp_regions s <> [] /\ sp_tables s ++ (sp_regions s ≫= rg_frames) ≡ₚ frames.
Proof.
  intros Hlen E. destruct frames as [|root rest]; [discriminate |].
  assert (Hpre : Forall (fun s => us_pages s <> []) (ui_segments (bi_image boot)) /\
            exists base, UserLayout.stack_base layout = Some base).
  { cbn [Space.build] in E. apply bind_Some in E as (b & _ & E). apply bind_Some in E as (rs & Er & _).
    unfold regions in Er. apply bind_Some in Er as ([out at_] & Es & Er). apply bind_Some in Er as (base & Eb & _).
    split; [|eauto]. revert Es. generalize (b_placed b) as pl, out, at_. induction (ui_segments (bi_image boot)) as [|sg segs IH]; [constructor |].
    intros pl o a Es. cbn in Es. destruct (us_pages sg) eqn:Ep; [discriminate |]. apply bind_Some in Es as ([r t] & Es & _).
    constructor; [congruence | eapply IH, Es]. }
  destruct Hpre as [Hseg Hbase].
  destruct (build_spec c layout boot root rest Hseg Hbase Hlen) as (s' & pf & E' & _ & _ & Hr & _ & Huse & _ & _ & Ht & _ & _ & Hreg & Hne).
  rewrite E in E'. injection E' as <-. rewrite Ht, Hr, Hreg. split_and!; [reflexivity | exact Hne |]. symmetry. exact Huse.
Qed.

(** * The entries written *)

Lemma entry_value ppn flags : in_u 10 flags -> Pte.entry ppn flags = (ppn mod 2 ^ 22) * 2 ^ 10 + flags.
Proof.
  intros Hf. unfold Pte.entry. rewrite (land_ones_mod 22) by (lia || reflexivity).
  pose proof (Z.mod_pos_bound ppn (2 ^ 22) ltac:(lia)). rewrite shl32_small by (unfold in_u; lia).
  apply (lor_low 10); [lia | apply Z.mod_mul; discriminate | exact Hf].
Qed.

Lemma entry_in_u ppn flags : in_u 10 flags -> in_u 32 (Pte.entry ppn flags).
Proof. intros Hf. rewrite entry_value by exact Hf. pose proof (Z.mod_pos_bound ppn (2 ^ 22) ltac:(lia)). unfold in_u in *. lia. Qed.

Lemma entry_view ppn flags :
  in_u 10 flags ->
  pte_view (Pte.entry ppn flags) =
  mkPte (Z.testbit flags 0) (Z.testbit flags 1) (Z.testbit flags 2) (Z.testbit flags 3)
        (Z.testbit flags 4) (Z.testbit flags 6) (Z.testbit flags 7) (ppn mod 2 ^ 22).
Proof.
  intros Hf. rewrite entry_value by exact Hf. unfold pte_view.
  assert (Hb : forall i, 0 <= i < 10 -> Z.testbit ((ppn mod 2 ^ 22) * 2 ^ 10 + flags) i = Z.testbit flags i).
  { intros i Hi. rewrite <- (Z.mod_pow2_bits_low _ 10) by lia.
    rewrite Z.add_comm, Z.mod_add, Z.mod_small by (discriminate || exact Hf). reflexivity. }
  rewrite !Hb by lia. f_equal. rewrite Z.add_comm, Z.div_add, Z.div_small by (discriminate || exact Hf). lia.
Qed.

Lemma user_leaf_view f perms :
  in_u 22 f ->
  pte_view (Pte.user_leaf f perms) =
  mkPte true (read perms) (write perms) (execute perms) true true (write perms) f.
Proof.
  intros Hf. unfold Pte.user_leaf. cbv zeta.
  rewrite entry_view by (destruct perms as [[] [] []]; const_range). rewrite (Z.mod_small f) by exact Hf.
  f_equal; destruct perms as [[] [] []]; reflexivity.
Qed.

Lemma pointer_view t : in_u 22 t -> pte_view (Pte.pointer t) = mkPte true false false false false false false t.
Proof.
  intros Ht. unfold Pte.pointer. rewrite entry_view by const_range. rewrite Z.mod_small by exact Ht. reflexivity.
Qed.

(** The two megapages are not user pages. *)
Lemma megapage_view ppn v :
  v = Pte.kernel_megapage ppn \/ v = Pte.mmio_megapage ppn ->
  pte_leaf (pte_view v) = true /\ pU (pte_view v) = false.
Proof.
  intros [->| ->]; unfold Pte.kernel_megapage, Pte.mmio_megapage; rewrite entry_view by const_range; split; reflexivity.
Qed.

Lemma ptes_in_u f perms t ppn :
  in_u 32 (Pte.user_leaf f perms) /\ in_u 32 (Pte.pointer t) /\
  in_u 32 (Pte.kernel_megapage ppn) /\ in_u 32 (Pte.mmio_megapage ppn).
Proof.
  split_and!; apply entry_in_u; try const_range. destruct perms as [[] [] []]; const_range.
Qed.

(** * The words of the page tables *)

Definition word_at (m : Bytes) (a : Z) : Z := from_le (read_bytes m a 4).

Lemma read_bytes_ext m m' a len :
  (forall x, a <= x < a + len -> m x = m' x) -> read_bytes m a len = read_bytes m' a len.
Proof. intros H. apply list_fmap_ext. intros i x Hx. apply H. apply lookup_seqZ in Hx. lia. Qed.

Lemma word_write_other m a b bs :
  a mod 4 = 0 -> b mod 4 = 0 -> a <> b -> length bs = 4%nat -> word_at (write_bytes m b bs) a = word_at m a.
Proof.
  intros Ha Hb Hne Hl. unfold word_at. f_equal. apply read_bytes_ext. intros x Hx.
  apply write_bytes_out. rewrite Hl. Z.div_mod_to_equations. lia.
Qed.

Lemma word_write_same m a v : in_u 32 v -> word_at (write_bytes m a (to_le 4 v)) a = v.
Proof.
  intros Hv. unfold word_at. replace (read_bytes _ a 4) with (to_le 4 v); [apply from_to_le_id, Hv |].
  apply list_eq_same_length with (n := 4%nat); [apply length_read_bytes | apply length_to_le |].
  intros i x y Hi Hx Hy. apply list_lookup_fmap_Some in Hy as (z & -> & [Hz _]%lookup_seqZ).
  subst z. rewrite write_bytes_in by (rewrite length_to_le; lia).
  replace (Z.to_nat (a + Z.of_nat i - a)) with i by lia. rewrite Hx. reflexivity.
Qed.

(** An aligned word after the PTE writes: one of the entries for its address, or what it was. *)
Lemma word_after_ptes ptes m a :
  a mod 4 = 0 -> Forall (fun e => fst e mod 4 = 0 /\ in_u 32 (snd e)) ptes ->
  let m' := foldl write_one m ((fun '(a, v) => (a, to_le 4 v)) <$> ptes) in
  (exists v, (a, v) ∈ ptes /\ word_at m' a = v) \/ ((a ∉ (fst <$> ptes)) /\ word_at m' a = word_at m a).
Proof.
  intros Ha. induction ptes as [|[b v] ptes IH] using rev_ind; intros Hall; cbv zeta.
  { right. split; [apply not_elem_of_nil | reflexivity]. }
  apply Forall_app in Hall as [Hall [[Hb Hv] _]%Forall_cons]. cbn in Hb, Hv. cbv zeta in IH.
  rewrite !fmap_app, foldl_app. cbn [fmap list_fmap foldl fst]. set (m1 := foldl write_one m _) in *.
  assert (E1 : write_one m1 (b, to_le 4 v) = write_bytes m1 b (to_le 4 v)) by reflexivity. rewrite E1.
  destruct (decide (a = b)) as [->|Hne].
  { left. exists v. split; [apply elem_of_app; right; left |]. apply word_write_same, Hv. }
  rewrite word_write_other by (assumption || apply length_to_le).
  destruct (IH Hall) as [(w & Hw & E)|[Hn E]].
  - left. exists w. split; [apply elem_of_app; auto | exact E].
  - right. split; [|exact E]. rewrite elem_of_app, list_elem_of_singleton. tauto.
Qed.

(** * The frames after zeroing *)

Definition in_frame (x f : Z) : Prop := f * PAGE <= x < f * PAGE + PAGE.

Lemma in_frame_unique x f g : in_frame x f -> in_frame x g -> f = g.
Proof. unfold in_frame, PAGE. lia. Qed.

Lemma zero_write_elem s w :
  w ∈ zero_writes s <-> exists f j, f ∈ sp_frames s /\ (j < 256)%nat /\
    w = (f * PAGE + Z.of_nat j * MAX_ACCESS, replicate (Z.to_nat MAX_ACCESS) 0).
Proof.
  unfold zero_writes. rewrite list_elem_of_bind. split.
  - intros (f & Hw & Hf). apply list_elem_of_fmap in Hw as (j & -> & [_ Hj]%elem_of_seq). exists f, j.
    change Space.per_frame with 256%nat in Hj. split_and!; [exact Hf | lia | reflexivity].
  - intros (f & j & Hf & Hj & ->). exists f. split; [|exact Hf]. apply list_elem_of_fmap. exists j.
    split; [reflexivity |]. apply elem_of_seq. change Space.per_frame with 256%nat. lia.
Qed.

Lemma zeroed s m x f : f ∈ sp_frames s -> in_frame x f -> foldl write_one m (zero_writes s) x = 0.
Proof.
  intros Hf Hx. apply writes_in.
  - apply Forall_forall. intros w (g & j & _ & _ & ->)%zero_write_elem Hw. cbn [snd].
    destruct (replicate _ _ !! _) eqn:E; [|reflexivity]. apply lookup_replicate in E as [-> _]. reflexivity.
  - left. apply Exists_exists. unfold in_frame, PAGE in Hx.
    exists (f * PAGE + Z.of_nat (Z.to_nat ((x - f * PAGE) / 16)) * MAX_ACCESS, replicate (Z.to_nat MAX_ACCESS) 0).
    assert (Hj : 0 <= (x - f * PAGE) / 16 < 256) by (unfold PAGE; Z.div_mod_to_equations; lia).
    split; [apply zero_write_elem; do 2 eexists; split_and!; [exact Hf | | reflexivity]; lia |].
    unfold in_write. cbn [fst snd]. rewrite length_replicate. unfold MAX_ACCESS, PAGE in *.
    rewrite !Z2Nat.id by lia. Z.div_mod_to_equations. lia.
Qed.

Lemma not_zeroed s m x :
  (forall f, f ∈ sp_frames s -> ~ in_frame x f) -> foldl write_one m (zero_writes s) x = m x.
Proof.
  intros Hx. apply writes_out, Forall_forall. intros w (f & j & Hf & Hj & ->)%zero_write_elem Hw.
  apply (Hx f Hf). unfold in_write in Hw. cbn [fst snd] in Hw. rewrite length_replicate in Hw.
  unfold in_frame, MAX_ACCESS, PAGE in *. lia.
Qed.

(** * Creation *)

(** What the kernel has checked and reserved before it builds an address space. *)
Record creation_ok (c : KernelConfig) (layout : UserLayout) (boot : BootImage) (frames : list Z) : Prop := {
  cr_layout : validate_layout c layout = Ok tt;
  cr_range : 0 <= user_base layout /\ in_u 32 (stack_top layout) /\ 0 <= stack_pages layout /\ in_u 32 (bi_file_len boot);
  cr_image : image_ok (fst (UserLayout.image_range layout)) (snd (UserLayout.image_range layout))
    (bi_file_len boot) (bi_image boot);
  cr_staged : Window.contains (kc_staging c) (staged boot) (bi_file_len boot) = true;
  cr_conflict : megapage_conflict (bi_image boot) c = false;
  cr_nodup : NoDup frames;
  cr_pool : Forall (fun f => w_base (kc_frame_pool c) <= f * PAGE /\
    f * PAGE + PAGE <= w_base (kc_frame_pool c) + w_size (kc_frame_pool c)) frames;
  cr_windows : window_ok (kc_ram c) /\ window_ok (kc_staging c) /\ window_ok (kc_frame_pool c);
  cr_count : length frames = frames_needed (bi_image boot) layout;
}.

Section creation.
Context (c : KernelConfig) (layout : UserLayout) (boot : BootImage) (frames : list Z).
Context (Hok : creation_ok c layout boot frames).

Lemma frame_ppn f : f ∈ frames -> in_u 22 f.
Proof.
  intros Hf. destruct Hok as [Hl _ _ _ _ _ Hpool [_ [_ Hw]] _]. rewrite Forall_forall in Hpool.
  destruct (Hpool f Hf) as [H1 H2]. pose proof (lo_pool_end _ _ (validate_layout_ok _ _ Hl)). unfold PHYS_LIMIT, window_ok, PAGE, in_u in *. lia.
Qed.

Lemma stack_base_some : exists base, UserLayout.stack_base layout = Some base /\
  UserLayout.image_range layout = (user_base layout, base) /\
  base + stack_pages layout * PAGE = stack_top layout /\ user_base layout < base /\ base mod PAGE = 0.
Proof.
  destruct (lo_stack _ _ (validate_layout_ok _ _ (cr_layout _ _ _ _ Hok))) as (base & E & Hlt & Hm). exists base.
  split; [exact E |]. split; [unfold UserLayout.image_range; rewrite E; reflexivity |].
  split; [|auto].
  unfold UserLayout.stack_base, checked_sub in E.
  destruct (_ <=? _); [discriminate |]. destruct (_ <=? _); [|discriminate]. injection E as <-. lia.
Qed.

(** The pages of a process: aligned, 32-bit, in ascending order. *)
Lemma process_pages_sorted :
  StronglySorted Z.lt (pg_va <$> pages (bi_image boot) layout) /\
  Forall (fun p => pg_va p mod PAGE = 0 /\ 0 <= pg_va p /\ pg_va p + PAGE <= 2 ^ 32) (pages (bi_image boot) layout).
Proof.
  destruct stack_base_some as (base & E & Er & Htop & Hlt & Hal).
  destruct Hok as [_ (Hu & Ht & Hn & _) (_ & _ & _ & Hsort & Hall) _ _ _ _ _ _]. rewrite Er in Hall. cbn [fst snd] in Hall.
  assert (Hpages : Forall (fun p => pp_va p mod PAGE = 0 /\ user_base layout <= pp_va p < base) (image_pages (bi_image boot))).
  { apply Forall_forall. intros p (s & Hp & Hs)%list_elem_of_bind. rewrite Forall_forall in Hall.
    destruct (Hall s Hs) as (_ & _ & Hps). rewrite Forall_forall in Hps. destruct (Hps p Hp) as (_ & ? & ? & _). auto. }
  assert (Hstack : forall i, i ∈ seqZ 0 (stack_pages layout) ->
            let va := base + i * PAGE in va mod PAGE = 0 /\ base <= va /\ va + PAGE <= stack_top layout).
  { intros i Hi%elem_of_seqZ va. subst va. rewrite Z.mod_add by discriminate. unfold PAGE in *. lia. }
  unfold pages. fold (image_pages (bi_image boot)). unfold UserLayout.stack_vas. rewrite E. change (default 0 (Some base)) with base. split.
  - rewrite fmap_app, <- !list_fmap_compose. apply StronglySorted_app.
    split_and!; [|exact Hsort |].
    + intros a b (p & -> & Hp)%list_elem_of_fmap (i & -> & Hi)%list_elem_of_fmap. cbn.
      rewrite Forall_forall in Hpages. destruct (Hpages p Hp) as [_ ?]. destruct (Hstack i Hi) as (_ & ? & _). lia.
    + apply (StronglySorted_fmap _ Z.lt); [|apply seqZ_sorted]. intros i j Hij. cbn. unfold PAGE. lia.
  - apply Forall_app. split; apply Forall_fmap.
    + eapply Forall_impl; [exact Hpages |]. cbn. unfold PAGE, in_u in *. intros p [? ?].
      split_and!; try lia. Z.div_mod_to_equations. lia.
    + apply Forall_fmap, Forall_forall. intros i Hi. destruct (Hstack i Hi) as (? & ? & ?). cbn. unfold in_u in *. lia.
Qed.

Lemma page_not_mega p :
  p ∈ pages (bi_image boot) layout ->
  page_slot p <> vpn1 (kernel_megapage c) /\ page_slot p <> vpn1 MMIO_MEGAPAGE.
Proof.
  destruct Hok as [Hl _ _ _ Hc _ _ _ _]. unfold pages. intros [Hp|Hp]%elem_of_app.
  - apply list_elem_of_fmap in Hp as (q & -> & Hq). unfold page_slot. cbn.
    unfold megapage_conflict in Hc. apply not_true_iff_false in Hc. rewrite existsb_exists in Hc.
    assert (Hn : mem_Z (vpn1 (pp_va q)) [vpn1 (kernel_megapage c); vpn1 MMIO_MEGAPAGE] <> true).
    { intros Hm. apply Hc. exists q. split; [apply list_elem_of_In, Hq | exact Hm]. }
    rewrite mem_Z_spec, !elem_of_cons in Hn. tauto.
  - apply list_elem_of_fmap in Hp as (va & -> & Hva). pose proof (lo_slots _ _ (validate_layout_ok _ _ Hl)) as Hs.
    rewrite Forall_forall in Hs. exact (Hs va Hva).
Qed.

Definition va_index (va : Z) : Z := Z.land (Z.shiftr va 12) 0x3FF.

Lemma page_covers p va :
  p ∈ pages (bi_image boot) layout -> in_u 32 va ->
  pg_va p <= va < pg_va p + PAGE <-> page_slot p = vpn1 va /\ page_index p = va_index va.
Proof.
  intros Hp Hva. destruct process_pages_sorted as [_ Hall]. rewrite Forall_forall in Hall.
  destruct (Hall p Hp) as (Hm & H0 & H1). unfold page_slot, page_index, va_index, vpn1. bits_to_arith.
  unfold PAGE in *. split; [intros Hc|intros [Hs Hi]].
  - assert (Hd : va / 2 ^ 12 = pg_va p / 2 ^ 12) by (unfold in_u in *; Z.div_mod_to_equations; lia).
    change (2 ^ 22) with (2 ^ 12 * 2 ^ 10). rewrite <- !Z.div_div, Hd by lia. auto.
  - unfold in_u in *. Z.div_mod_to_equations. lia.
Qed.

Lemma pages_unique (pf : list (Page * Z)) p f q g :
  fst <$> pf = pages (bi_image boot) layout -> (p, f) ∈ pf -> (q, g) ∈ pf ->
  page_slot p = page_slot q -> page_index p = page_index q -> p = q /\ f = g.
Proof.
  intros Hpf Hp Hq Hs Hi. destruct process_pages_sorted as [Hsort Hall]. rewrite Forall_forall in Hall.
  assert (Hin : forall r h, (r, h) ∈ pf -> r ∈ pages (bi_image boot) layout)
    by (intros r h Hr; rewrite <- Hpf; apply list_elem_of_fmap; exists (r, h); auto).
  destruct (Hall q (Hin q g Hq)) as (_ & Hq0 & Hq1).
  assert (Hva : pg_va p = pg_va q).
  { assert (Hc : pg_va p <= pg_va q < pg_va p + PAGE).
    { apply page_covers; [eauto | unfold in_u, PAGE in *; lia | auto]. }
    destruct (Hall p (Hin p f Hp)) as (Hm & _), (Hall q (Hin q g Hq)) as (Hm' & _). unfold PAGE in *. Z.div_mod_to_equations. lia. }
  assert (Hnd : NoDup (pg_va <$> pages (bi_image boot) layout)).
  { clear -Hsort. induction Hsort as [|x l Hl IH Hx]; constructor; [|exact IH]. intros Hin.
    rewrite Forall_forall in Hx. specialize (Hx x Hin). lia. }
  rewrite <- Hpf, <- list_fmap_compose in Hnd.
  apply list_elem_of_lookup in Hp as [i Hpi], Hq as [j Hqj].
  assert (i = j); [|subst; rewrite Hpi in Hqj; injection Hqj; auto].
  apply (NoDup_lookup _ i j (pg_va q) Hnd); rewrite list_lookup_fmap, ?Hpi, ?Hqj; cbn; congruence.
Qed.

(** The copies of a page stay in its frame and inside the staged file. *)
Lemma copies_of_spec p f cp :
  p ∈ pages (bi_image boot) layout -> cp ∈ copies_of (staged boot) (p, f) ->
  exists fo po len, pg_copy p = Some (fo, po, len) /\ 0 <= po /\ po + len <= PAGE /\ 0 <= fo /\ fo + len <= bi_file_len boot /\
  forall x, in_copy x cp ->
    f * PAGE + po <= x < f * PAGE + po + len /\ source x cp = staged boot + fo + (x - (f * PAGE + po)).
Proof.
  intros Hp. unfold copies_of. cbn [fst snd]. destruct (pg_copy p) as [[[fo po] len]|] eqn:E; [|intros H; inversion H].
  destruct (split_copy_spec (staged boot + fo) (f * PAGE + po) len) as (cs & -> & Hall & _). cbn. intros Hcp.
  exists fo, po, len. rewrite Forall_forall in Hall. specialize (Hall cp Hcp). destruct cp as [[src d] n].
  assert (Hc : 0 <= po /\ po + len <= PAGE /\ 0 <= fo /\ fo + len <= bi_file_len boot).
  { unfold pages in Hp. apply elem_of_app in Hp as [Hp|Hp]; apply list_elem_of_fmap in Hp as (q & -> & Hq); [|discriminate].
    cbn in E. apply fmap_Some in E as (fc & Efc & [= -> -> ->]).
    destruct Hok as [_ _ (_ & _ & _ & _ & Hsegs) _ _ _ _ _ _]. rewrite Forall_forall in Hsegs.
    apply list_elem_of_bind in Hq as (sg & Hq & Hsg). destruct (Hsegs sg Hsg) as (_ & _ & Hps).
    rewrite Forall_forall in Hps. destruct (Hps q Hq) as (_ & _ & _ & Hcopy). rewrite Efc in Hcopy.
    destruct Hcopy as (? & ? & ? & ? & ?). unfold Elf.PAGE_SIZE, PAGE in *. lia. }
  split; [reflexivity |]. split_and!; try lia. intros x. cbn. lia.
Qed.
End creation.

Lemma level1_elem c slots slot v :
  (slot, v) ∈ level1 c slots <->
  (exists t, (slot, t) ∈ slots /\ v = Pte.pointer t) \/
  slot = vpn1 (kernel_megapage c) /\ v = Pte.kernel_megapage ((kernel_megapage c / PAGE) mod 2 ^ 32) \/
  slot = vpn1 MMIO_MEGAPAGE /\ v = Pte.mmio_megapage ((MMIO_MEGAPAGE / PAGE) mod 2 ^ 32).
Proof.
  unfold level1. rewrite sort_by_perm, elem_of_app, list_elem_of_fmap, elem_of_cons, list_elem_of_singleton.
  rewrite !pair_equal_spec. split.
  - intros [([x t] & [= -> ->] & H)|H]; [left; eauto | right; exact H].
  - intros [(t & H & ->)|H]; [left; exists (slot, t); auto | right; exact H].
Qed.

(** ** Bytes stay bytes *)

Definition bytes_mem (m : Bytes) : Prop := forall x, in_u 8 (m x).

Lemma write_bytes_ok m a bs : bytes_mem m -> bytes_ok bs -> bytes_mem (write_bytes m a bs).
Proof.
  intros Hm Hb x. unfold write_bytes. case_if; [|apply Hm]. destruct (bs !! _) as [b|] eqn:E; cbn; [|const_range].
  exact (Forall_lookup_1 _ _ _ _ Hb E).
Qed.

Lemma writes_ok ws : forall m, bytes_mem m -> Forall (fun w => bytes_ok (snd w)) ws -> bytes_mem (foldl write_one m ws).
Proof.
  induction ws as [|w ws IH]; intros m Hm Hall; [exact Hm |]. apply Forall_cons in Hall as [Hw Hall].
  apply IH; [apply write_bytes_ok; assumption | exact Hall].
Qed.

Lemma copies_ok cs : forall m, bytes_mem m -> bytes_mem (foldl copy_one m cs).
Proof.
  induction cs as [|[[src d] n] cs IH]; intros m Hm; [exact Hm |]. apply IH. cbn. apply write_bytes_ok; [exact Hm |].
  apply Forall_fmap, Forall_forall. intros y _. apply Hm.
Qed.

Lemma created_bytes s m : sp_ptes s <> [] -> bytes_mem m -> bytes_mem (created s m).
Proof.
  intros Hne Hm. rewrite created_phases by exact Hne. apply writes_ok; [apply copies_ok, writes_ok; [exact Hm |] |].
  - apply Forall_forall. intros w (f & j & _ & _ & ->)%zero_write_elem. apply Forall_replicate. const_range.
  - apply Forall_fmap, Forall_forall. intros [a v] _. apply to_le_ok.
Qed.

Lemma word_at_in_u m a : bytes_mem m -> in_u 32 (word_at m a).
Proof.
  intros Hm. apply (from_le_in_u (read_bytes m a 4)). apply Forall_fmap, Forall_forall. intros y _. apply Hm.
Qed.

(** * The memory of a created process *)

(** The words of a memory, as the CPU's page-table walker reads them. *)
Definition words (m : Bytes) (a : Z) : option Z := Some (word_at m a).

(** Whether a page with these permissions allows the access. *)
Definition may (perms : Perms) (mxr : bool) (acc : Sv32.Access) : bool :=
  match acc with
  | Access_Fetch => execute perms
  | Access_Load => read perms || mxr && execute perms
  | Access_Store => write perms
  end.

(** A user leaf with valid permissions allows exactly what they say. *)
Lemma user_allows sum mxr acc perms f :
  valid_perms perms = true ->
  let p := mkPte true (read perms) (write perms) (execute perms) true true (write perms) f in
  pte_valid p && pte_leaf p && pte_allows (mkContext User sum mxr acc) p = may perms mxr acc.
Proof. destruct perms as [[] [] []], acc, mxr; cbn; intros [=]; reflexivity. Qed.

Section created.
Context (c : KernelConfig) (layout : UserLayout) (boot : BootImage) (root : Z) (rest : list Z).
Context (Hok : creation_ok c layout boot (root :: rest)).
Context (s : Space) (pf : list (Page * Z)) (m : Bytes).
Context (Hpf : fst <$> pf = pages (bi_image boot) layout).
Context (Hframes : sp_frames s = root :: rest).
Context (Huse : root :: rest ≡ₚ root :: (snd <$> sp_slots s) ++ (snd <$> pf)).
Context (Hslots : NoDup (fst <$> sp_slots s)).
Context (Hin : forall x, x ∈ fst <$> sp_slots s <-> x ∈ page_slot <$> pages (bi_image boot) layout).
Context (Hcopies : sp_copies s = pf ≫= copies_of (staged boot)).
Context (Hptes : sp_ptes s = (leaf_of (sp_slots s) <$> pf)
      ++ ((fun '(slot, value) => (root * PAGE + 4 * slot, value)) <$> level1 c (sp_slots s))).

Lemma use_nodup : NoDup (root :: (snd <$> sp_slots s) ++ (snd <$> pf)).
Proof. rewrite <- Huse. apply (cr_nodup _ _ _ _ Hok). Qed.

Lemma pf_page p f : (p, f) ∈ pf -> p ∈ pages (bi_image boot) layout.
Proof. intros H. rewrite <- Hpf. apply list_elem_of_fmap. exists (p, f). auto. Qed.

Lemma pf_frame p f : (p, f) ∈ pf -> f ∈ sp_frames s /\ f <> root /\ f ∉ snd <$> sp_slots s.
Proof.
  intros H. assert (Hf : f ∈ snd <$> pf) by (apply list_elem_of_fmap; exists (p, f); auto).
  pose proof use_nodup as Hnd. apply NoDup_cons in Hnd as [Hr (_ & Hd & _)%NoDup_app].
  rewrite Hframes, Huse, elem_of_cons, elem_of_app. rewrite elem_of_app in Hr.
  split_and!; [tauto | intros ->; tauto | intros Hs; exact (Hd f Hs Hf)].
Qed.

Lemma pf_inj p q f : (p, f) ∈ pf -> (q, f) ∈ pf -> p = q.
Proof.
  intros Hp Hq. pose proof use_nodup as Hnd. apply NoDup_cons in Hnd as [_ (_ & _ & Hnd)%NoDup_app].
  apply list_elem_of_lookup in Hp as [i Hi], Hq as [j Hj].
  assert (i = j); [|subst; congruence].
  apply (NoDup_lookup _ i j f Hnd); rewrite list_lookup_fmap, ?Hi, ?Hj; reflexivity.
Qed.

Lemma slot_frame x t : (x, t) ∈ sp_slots s -> t ∈ sp_frames s /\ t <> root.
Proof.
  intros H. assert (Ht : t ∈ snd <$> sp_slots s) by (apply list_elem_of_fmap; exists (x, t); auto).
  pose proof use_nodup as Hnd. apply NoDup_cons in Hnd as [Hr _]. rewrite Hframes, Huse, elem_of_cons, elem_of_app.
  rewrite elem_of_app in Hr. split; [tauto | intros ->; tauto].
Qed.

Lemma slot_inj x y t : (x, t) ∈ sp_slots s -> (y, t) ∈ sp_slots s -> x = y.
Proof.
  intros Hx Hy. pose proof use_nodup as Hnd. apply NoDup_cons in Hnd as [_ (Hnd & _ & _)%NoDup_app].
  apply list_elem_of_lookup in Hx as [i Hi], Hy as [j Hj].
  assert (i = j); [|subst; congruence].
  apply (NoDup_lookup _ i j t Hnd); rewrite list_lookup_fmap, ?Hi, ?Hj; reflexivity.
Qed.

Lemma page_table p f : (p, f) ∈ pf -> exists t, find_slot (sp_slots s) (page_slot p) = Some t.
Proof.
  intros H. destruct (find_slot _ _) as [t|] eqn:E; [eauto |]. apply find_slot_None in E. destruct E.
  apply Hin, list_elem_of_fmap. eauto using pf_page.
Qed.

(** The copies write only the frames of their own pages. *)
Lemma copy_dest x cp : cp ∈ sp_copies s -> in_copy x cp -> exists p f, (p, f) ∈ pf /\ cp ∈ copies_of (staged boot) (p, f) /\ in_frame x f.
Proof.
  rewrite Hcopies. intros ([p f] & Hcp & H)%list_elem_of_bind Hx. exists p, f. split_and!; [exact H | exact Hcp |].
  destruct (copies_of_spec c layout boot _ Hok p f cp (pf_page p f H) Hcp) as (fo & po & len & _ & ? & ? & ? & ? & Hall).
  destruct (Hall x Hx) as [? _]. unfold in_frame. lia.
Qed.

(** ** Table words *)

Lemma pte_elem a v :
  (a, v) ∈ sp_ptes s <->
  (exists p f, (p, f) ∈ pf /\ (a, v) = leaf_of (sp_slots s) (p, f)) \/
  (exists slot, a = root * PAGE + 4 * slot /\ (slot, v) ∈ level1 c (sp_slots s)).
Proof.
  rewrite Hptes, elem_of_app, !list_elem_of_fmap. split; (intros [H|H]; [left | right]).
  - destruct H as ([p f] & E & H). eauto.
  - destruct H as ([x w] & [= -> ->] & H). eauto.
  - destruct H as (p & f & H & E). exists (p, f). auto.
  - destruct H as (slot & -> & H). exists (slot, v). auto.
Qed.

Lemma index_range va : in_u 10 (va_index va).
Proof. unfold va_index. apply land_in_u_r; [lia | const_range]. Qed.

Lemma slot_range va : in_u 10 (vpn1 va).
Proof. unfold vpn1. apply land_in_u_r; [lia | const_range]. Qed.

Lemma leaf_addr p f : (p, f) ∈ pf ->
  exists t, (page_slot p, t) ∈ sp_slots s /\ leaf_of (sp_slots s) (p, f) = (t * PAGE + 4 * page_index p, Pte.user_leaf f (pg_perms p)).
Proof.
  intros H. destruct (page_table p f H) as [t E]. exists t. unfold leaf_of. cbn [fst snd]. rewrite E.
  split; [apply find_slot_Some, E | reflexivity].
Qed.

Lemma level1_slot slot v : (slot, v) ∈ level1 c (sp_slots s) -> in_u 10 slot /\ in_u 32 v.
Proof.
  rewrite level1_elem. pose proof (ptes_in_u 0 STACK_PERMS) as Hv. intros [(t & Ht & ->)|[[-> ->]|[-> ->]]].
  - split; [|apply (Hv t 0)]. assert (Hs : slot ∈ fst <$> sp_slots s) by (apply list_elem_of_fmap; exists (slot, t); auto).
    apply Hin, list_elem_of_fmap in Hs as (p & -> & _). apply slot_range.
  - split; [apply slot_range | apply (Hv 0)].
  - split; [apply slot_range | apply (Hv 0)].
Qed.

Lemma ptes_aligned : Forall (fun e => fst e mod 4 = 0 /\ in_u 32 (snd e)) (sp_ptes s).
Proof.
  apply Forall_forall. intros [a v] [(p & f & H & E)|(slot & -> & H)]%pte_elem.
  - destruct (leaf_addr p f H) as (t & _ & El). rewrite El in E. injection E as -> ->. cbn [fst snd].
    split; [unfold PAGE; Z.div_mod_to_equations; lia |]. apply (ptes_in_u f (pg_perms p) 0 0).
  - apply level1_slot in H as [_ Hv]. cbn [fst snd]. split; [unfold PAGE; Z.div_mod_to_equations; lia | exact Hv].
Qed.

Lemma ptes_nonempty : sp_ptes s <> [].
Proof.
  intros E. assert (H : (root * PAGE + 4 * vpn1 MMIO_MEGAPAGE, Pte.mmio_megapage ((MMIO_MEGAPAGE / PAGE) mod 2 ^ 32)) ∈ sp_ptes s).
  { apply pte_elem. right. eexists. split; [reflexivity |]. apply level1_elem. auto. }
  rewrite E in H. inversion H.
Qed.

(** A word of a table frame: an entry written there, or zero. *)
Lemma table_word t i :
  t = root \/ t ∈ snd <$> sp_slots s -> in_u 10 i ->
  let a := t * PAGE + 4 * i in
  (exists v, (a, v) ∈ sp_ptes s /\ word_at (created s m) a = v) \/
  ((forall v, (a, v) ∉ sp_ptes s) /\ word_at (created s m) a = 0).
Proof.
  intros Ht Hi a. rewrite created_phases by apply ptes_nonempty.
  assert (Ha : a mod 4 = 0) by (unfold a, PAGE; Z.div_mod_to_equations; lia).
  destruct (word_after_ptes (sp_ptes s) (foldl copy_one (foldl write_one m (zero_writes s)) (sp_copies s)) a Ha ptes_aligned)
    as [(v & Hv & E)|[Hn E]].
  { left. exists v. auto. }
  right. split; [intros v Hv; apply Hn, list_elem_of_fmap; exists (a, v); auto |].
  unfold pte_writes. rewrite E. unfold word_at.
  rewrite (read_bytes_ext _ (fun _ => 0)); [reflexivity |]. intros x Hx.
  assert (Hxt : in_frame x t) by (unfold in_frame, a, in_u, PAGE in *; lia).
  rewrite copies_out.
  - apply (zeroed s m x t); [|exact Hxt]. rewrite Hframes, Huse, elem_of_cons, elem_of_app. tauto.
  - apply Forall_forall. intros cp Hcp Hxc. destruct (copy_dest x cp Hcp Hxc) as (p & f & H & _ & Hxf).
    destruct (pf_frame p f H) as (_ & Hr & Hs). rewrite (in_frame_unique x t f Hxt Hxf) in Ht. tauto.
Qed.

Lemma addr_frame t i u j :
  in_u 10 i -> in_u 10 j -> t * PAGE + 4 * i = u * PAGE + 4 * j -> t = u /\ i = j.
Proof. unfold in_u, PAGE. lia. Qed.

Lemma root_word va :
  let w := word_at (created s m) (root * PAGE + 4 * vpn1 va) in
  match find_slot (sp_slots s) (vpn1 va) with
  | Some t => w = Pte.pointer t
  | None => w = 0 \/ pte_leaf (pte_view w) = true /\ pU (pte_view w) = false
  end.
Proof.
  intros w. destruct (table_word root (vpn1 va)) as [(v & Hv & E)|[Hn E]]; [auto | apply slot_range | |].
  - apply pte_elem in Hv as [(p & f & H & El)|(slot & Ea & Hl)].
    + exfalso. destruct (leaf_addr p f H) as (t & Ht & El'). rewrite El' in El. injection El as El _.
      apply addr_frame in El as [El _]; [|apply slot_range | apply index_range].
      destruct (slot_frame _ _ Ht) as [_ Hne]. congruence.
    + pose proof (level1_slot _ _ Hl) as [Hs _]. apply addr_frame in Ea as [_ <-]; [|apply slot_range | exact Hs].
      subst w. rewrite E. apply level1_elem in Hl as [(t & Ht & ->)|Hm].
      * rewrite (find_slot_elem _ _ t); auto.
      * destruct (find_slot _ _) as [t|] eqn:Ef.
        { exfalso. apply find_slot_Some in Ef. assert (Hs' : vpn1 va ∈ fst <$> sp_slots s)
            by (apply list_elem_of_fmap; exists (vpn1 va, t); auto).
          apply Hin, list_elem_of_fmap in Hs' as (p & Ep & Hp).
          destruct (page_not_mega c layout boot _ Hok p Hp). destruct Hm as [[? _]|[? _]]; congruence. }
        right. destruct Hm as [[_ Hm]|[_ Hm]]; eapply megapage_view; eauto.
  - destruct (find_slot _ _) as [t|] eqn:Ef; [|left; exact E]. exfalso. apply find_slot_Some in Ef.
    apply (Hn (Pte.pointer t)), pte_elem. right. exists (vpn1 va). split; [reflexivity |]. apply level1_elem. left. eauto.
Qed.

Lemma leaf_word slot t i :
  (slot, t) ∈ sp_slots s -> in_u 10 i ->
  let w := word_at (created s m) (t * PAGE + 4 * i) in
  (exists p f, (p, f) ∈ pf /\ page_slot p = slot /\ page_index p = i /\ w = Pte.user_leaf f (pg_perms p)) \/
  ((forall p f, (p, f) ∈ pf -> page_slot p = slot -> page_index p <> i) /\ w = 0).
Proof.
  intros Ht Hi w. destruct (table_word t i) as [(v & Hv & E)|[Hn E]]; [|exact Hi | |].
  - right. apply list_elem_of_fmap. exists (slot, t). auto.
  - left. apply pte_elem in Hv as [(p & f & H & El)|(slot' & Ea & Hl)].
    + exists p, f. destruct (leaf_addr p f H) as (u & Hu & El'). rewrite El' in El. injection El as Ea ->.
      apply addr_frame in Ea as [-> ->]; [|exact Hi | apply index_range].
      split_and!; [exact H | exact (slot_inj _ _ _ Hu Ht) | reflexivity | exact E].
    + exfalso. apply level1_slot in Hl as [Hs _]. apply addr_frame in Ea as [-> _]; [|exact Hi | exact Hs].
      destruct (slot_frame _ _ Ht). contradiction.
  - right. split; [|exact E]. intros p f H Hs Hpi. destruct (leaf_addr p f H) as (u & Hu & El).
    apply (Hn (Pte.user_leaf f (pg_perms p))), pte_elem. left. exists p, f. split; [exact H |]. rewrite El, Hpi.
    f_equal. f_equal. f_equal. apply find_slot_elem in Ht, Hu; [|exact Hslots..]. congruence.
Qed.

Lemma pf_perms p f : (p, f) ∈ pf -> valid_perms (pg_perms p) = true.
Proof.
  intros Hp%pf_page. unfold pages in Hp. apply elem_of_app in Hp as [Hp|Hp]; apply list_elem_of_fmap in Hp as (q & -> & Hq); [|reflexivity].
  destruct Hok as [_ _ (_ & _ & _ & _ & Hsegs) _ _ _ _ _ _]. rewrite Forall_forall in Hsegs.
  apply list_elem_of_bind in Hq as (sg & Hq & Hsg). destruct (Hsegs sg Hsg) as (_ & Hv & Hps).
  rewrite Forall_forall in Hps. destruct (Hps q Hq) as (E & _). cbn. rewrite E. exact Hv.
Qed.

(** From U-mode, the created memory translates exactly the planned pages. *)
Lemma created_translate sum mxr acc va pa :
  bytes_mem m -> in_u 32 va ->
  snd (sv32_translate (logged (words (created s m))) 2 (Pte.satp root) User sum mxr acc va []) = Some (Ok pa) <->
  exists p f, (p, f) ∈ pf /\ pg_va p <= va < pg_va p + PAGE /\ may (pg_perms p) mxr acc = true /\
    pa = f * PAGE + va mod PAGE.
Proof.
  intros Hm Hva.
  assert (Hppn : forall f, f ∈ sp_frames s -> in_u 22 f) by (rewrite Hframes; apply (frame_ppn c layout boot), Hok).
  rewrite translate_correct; [|lia |].
  2:{ intros a v [= <-]. apply word_at_in_u, created_bytes; [apply ptes_nonempty | exact Hm]. }
  destruct (satp_view root) as [Hs1 Hs2]; [apply Hppn; rewrite Hframes; left |].
  unfold sv32_spec. cbn [ctx_privilege]. rewrite Hs1, Hs2. cbn [negb orb].
  change (bool_decide (User = Machine) || false) with false. cbv iota zeta. unfold words.
  assert (Ha1 : forall t, t * 4096 + (va / 2 ^ 22) mod 2 ^ 10 * 4 = t * PAGE + 4 * vpn1 va)
    by (intros; unfold vpn1; bits_to_arith; unfold PAGE; lia).
  assert (Ha0 : forall t, t * 4096 + (va / 2 ^ 12) mod 2 ^ 10 * 4 = t * PAGE + 4 * va_index va)
    by (intros; unfold va_index; bits_to_arith; unfold PAGE; lia).
  assert (Hcov : forall p f, (p, f) ∈ pf ->
            pg_va p <= va < pg_va p + PAGE <-> page_slot p = vpn1 va /\ page_index p = va_index va)
    by (intros p f H; apply (page_covers c layout boot _ Hok); eauto using pf_page).
  rewrite Ha1. pose proof (root_word va) as Hroot. cbv zeta in Hroot.
  cbn [fmap option_fmap option_map]. set (w1 := word_at _ (root * PAGE + _)) in *. clearbody w1.
  destruct (find_slot (sp_slots s) (vpn1 va)) as [t|] eqn:Ef.
  - pose proof (find_slot_Some _ _ _ Ef) as Ht. destruct (slot_frame _ _ Ht) as [Htf _].
    rewrite Hroot, pointer_view by (apply Hppn, Htf). cbn [pte_valid pte_leaf pV pR pW pX pU pA pD pPPN andb orb negb].
    rewrite Ha0. cbn [snd app]. destruct (leaf_word _ _ (va_index va) Ht (index_range va)) as [(p & f & H & Hs & Hi & ->)|[Hno ->]].
    + rewrite user_leaf_view by (apply Hppn, (pf_frame p f H)). rewrite user_allows by eauto using pf_perms.
      split.
      * destruct (may _ _ _) eqn:Em; [|discriminate]. intros [= <-]. exists p, f.
        split; [exact H |]. split; [apply (Hcov p f H); auto | auto].
      * intros (q & g & Hq & [Hqs Hqi]%(Hcov q g Hq) & Hmay & ->).
        destruct (pages_unique c layout boot _ Hok pf p f q g Hpf H Hq) as [-> ->]; [congruence.. |].
        rewrite Hmay. reflexivity.
    + cbn. split; [discriminate |]. intros (q & g & Hq & [Hqs Hqi]%(Hcov q g Hq) & _). destruct (Hno q g Hq Hqs Hqi).
  - assert (Hno : forall p f, (p, f) ∈ pf -> ~ pg_va p <= va < pg_va p + PAGE).
    { intros p f H [Hs _]%(Hcov p f H). destruct (page_table p f H) as [t Et]. congruence. }
    split; [|intros (p & f & H & Hc & _); destruct (Hno p f H Hc)].
    destruct Hroot as [->|[Hl Hu]]; [cbn; discriminate |]. rewrite Hl.
    unfold pte_allows. cbn [ctx_privilege]. rewrite Hu, !andb_false_r. destruct (negb _); cbn; discriminate.
Qed.

(** ** Contents *)

(** The byte planned at offset [o] of a page, for a file with the bytes [file]. *)
Definition planned_byte (file : Z -> Z) (p : Page) (o : Z) : Z :=
  match pg_copy p with
  | Some (fo, po, len) => if (po <=? o) && (o <? po + len) then file (fo + (o - po)) else 0
  | None => 0
  end.

Lemma staged_outside o f : 0 <= o < bi_file_len boot -> f ∈ sp_frames s -> ~ in_frame (staged boot + o) f.
Proof.
  rewrite Hframes. intros Ho Hf Hx. destruct Hok as [Hl (_ & _ & _ & Hlen) _ Hst _ _ Hpool (Hr & Hs & Hp) _].
  apply validate_layout_ok in Hl. rewrite Forall_forall in Hpool. specialize (Hpool f Hf).
  apply contains_spec in Hst; [|unfold in_u in *; lia].
  pose proof (lo_staging _ _ Hl) as Hst'. apply contains_spec in Hst'; [|unfold window_ok in *; lia]. cbn [w_base w_size] in Hst'.
  pose proof (lo_pool_kernel _ _ Hl) as Hov. apply not_true_iff_false in Hov. rewrite overlaps_spec in Hov;
    pose proof (lo_kernel_end _ _ Hl) as Hke; unfold window_ok, kernel_megapage, MEGAPAGE, PHYS_LIMIT, in_frame, PAGE in *;
    cbn [w_base w_size] in *; lia.
Qed.

(** A PTE is written inside a table. *)
Lemma pte_frame x w :
  w ∈ pte_writes s -> in_write x w -> in_frame x root \/ exists slot t, (slot, t) ∈ sp_slots s /\ in_frame x t.
Proof.
  intros ([a v] & -> & Ha)%list_elem_of_fmap Hw. unfold in_write in Hw. cbn [fst snd] in Hw. rewrite length_to_le in Hw.
  apply pte_elem in Ha as [(q & g & Hq & E)|(slot & -> & Hl)].
  - right. destruct (leaf_addr q g Hq) as (t & Ht & El). rewrite El in E. injection E as -> _.
    exists (page_slot q), t. split; [exact Ht |]. pose proof (index_range (pg_va q)) as Hi.
    unfold va_index in Hi. fold (page_index q) in Hi. unfold in_frame, in_u, PAGE in *. lia.
  - left. apply level1_slot in Hl as [Hl _]. unfold in_frame, in_u, PAGE in *. lia.
Qed.

Lemma pte_outside x p f : (p, f) ∈ pf -> in_frame x f -> Forall (fun w => ~ in_write x w) (pte_writes s).
Proof.
  intros H Hx. destruct (pf_frame p f H) as (_ & Hr & Hs). apply Forall_forall. intros w Hw Hxw.
  destruct (pte_frame x w Hw Hxw) as [Hxr|(slot & t & Ht & Hxt)]; [exact (Hr (in_frame_unique x f root Hx Hxr)) |].
  apply Hs, list_elem_of_fmap. exists (slot, t). rewrite (in_frame_unique x f t Hx Hxt). auto.
Qed.

(** The copies that reach a byte of a page are that page's. *)
Lemma page_copies p f o cp :
  (p, f) ∈ pf -> 0 <= o < PAGE -> cp ∈ sp_copies s -> in_copy (f * PAGE + o) cp ->
  exists fo po len, pg_copy p = Some (fo, po, len) /\ po <= o < po + len /\ 0 <= fo + (o - po) < bi_file_len boot /\
    source (f * PAGE + o) cp = staged boot + (fo + (o - po)).
Proof.
  intros H Ho Hcp Hc. destruct (copy_dest _ cp Hcp Hc) as (q & g & Hq & Hcq & Hxg).
  assert (Hx : in_frame (f * PAGE + o) f) by (unfold in_frame; lia).
  rewrite <- (in_frame_unique _ f g Hx Hxg) in *. rewrite <- (pf_inj p q f H Hq) in *.
  destruct (copies_of_spec c layout boot _ Hok p f cp (pf_page p f H) Hcq) as (fo & po & len & E & ? & ? & ? & ? & Hall).
  destruct (Hall _ Hc) as [? ->]. exists fo, po, len. split; [exact E |]. lia.
Qed.

Lemma created_page p f o :
  (p, f) ∈ pf -> 0 <= o < PAGE -> created s m (f * PAGE + o) = planned_byte (fun i => m (staged boot + i)) p o.
Proof.
  intros H Ho. set (x := f * PAGE + o). assert (Hx : in_frame x f) by (unfold in_frame, x; lia).
  rewrite created_phases by apply ptes_nonempty. rewrite writes_out by (eapply pte_outside; eauto).
  pose proof (zeroed s m x f (proj1 (pf_frame p f H)) Hx) as Hz. set (m1 := foldl write_one m (zero_writes s)) in *.
  pose proof (fun cp => page_copies p f o cp H Ho) as Hown. fold x in Hown.
  destruct (decide (Exists (in_copy x) (sp_copies s))) as [Hex|Hno].
  - pose proof Hex as (cp0 & Hcp0 & Hc0)%Exists_exists. destruct (Hown cp0 Hcp0 Hc0) as (fo & po & len & Ec & Hr & Hf & _).
    unfold planned_byte. rewrite Ec. destruct (Z.leb_spec po o), (Z.ltb_spec o (po + len)); try lia. cbn [andb].
    set (y := staged boot + (fo + (o - po))).
    assert (Hy : forall g, g ∈ sp_frames s -> ~ in_frame y g) by (intros g; apply staged_outside, Hf).
    rewrite (copies_in _ x y); [unfold m1; apply not_zeroed, Hy | | | left; exact Hex]; apply Forall_forall; intros cp Hcp Hc.
    + destruct (copy_dest y cp Hcp Hc) as (q & g & Hq & _ & Hyg). exact (Hy g (proj1 (pf_frame q g Hq)) Hyg).
    + destruct (Hown cp Hcp Hc) as (fo' & po' & len' & E & _ & _ & ->). rewrite Ec in E. injection E as <- <- <-. reflexivity.
  - rewrite copies_out by (apply Forall_Exists_neg, Hno). rewrite Hz. unfold planned_byte.
    destruct (pg_copy p) as [[[fo po] len]|] eqn:Ec; [|reflexivity].
    destruct (Z.leb_spec po o), (Z.ltb_spec o (po + len)); try reflexivity. destruct Hno. apply Exists_exists.
    destruct (split_copy_spec (staged boot + fo) (f * PAGE + po) len) as (cs & Esp & _ & Hcov).
    specialize (Hcov x ltac:(unfold x; lia)) as (cp & Hcp & Hc)%Exists_exists. exists cp. split; [|exact Hc].
    rewrite Hcopies. apply list_elem_of_bind. exists (p, f). split; [|exact H]. unfold copies_of. cbn. rewrite Ec, Esp. exact Hcp.
Qed.

(** A creation writes nothing but its frames. *)
Lemma created_frame x : (forall f, f ∈ sp_frames s -> ~ in_frame x f) -> created s m x = m x.
Proof.
  intros Hx. rewrite created_phases by apply ptes_nonempty.
  rewrite writes_out; [rewrite copies_out; [apply not_zeroed, Hx |] |]; apply Forall_forall.
  - intros cp Hcp Hc. destruct (copy_dest x cp Hcp Hc) as (p & f & H & _ & Hxf). exact (Hx f (proj1 (pf_frame p f H)) Hxf).
  - intros w Hw Hxw. destruct (pte_frame x w Hw Hxw) as [Hxr|(slot & t & Ht & Hxt)];
      [apply (Hx root); [rewrite Hframes; left | exact Hxr] | exact (Hx t (proj1 (slot_frame _ _ Ht)) Hxt)].
Qed.
End created.

(** * Claims *)

Lemma creation_build c layout boot frames :
  creation_ok c layout boot frames ->
  exists s, Space.build c layout boot frames = Some s /\
    let pf := zip (pages (bi_image boot) layout) (sp_regions s ≫= rg_frames) in
    sp_frames s = frames /\
    (forall m, bytes_mem m ->
       forall sum mxr acc va pa, in_u 32 va ->
       snd (sv32_translate (logged (words (created s m))) 2 (Pte.satp (sp_root s)) User sum mxr acc va []) = Some (Ok pa) <->
       exists p f, (p, f) ∈ pf /\ pg_va p <= va < pg_va p + PAGE /\ may (pg_perms p) mxr acc = true /\
         pa = f * PAGE + va mod PAGE) /\
    (forall m p f o, (p, f) ∈ pf -> 0 <= o < PAGE ->
       created s m (f * PAGE + o) = planned_byte (fun i => m (staged boot + i)) p o) /\
    (forall m x, (forall f, f ∈ frames -> ~ in_frame x f) -> created s m x = m x) /\
    (forall p f, (p, f) ∈ pf -> f ∈ frames).
Proof.
  intros Hok. pose proof (cr_count _ _ _ _ Hok) as Hlen. destruct frames as [|root rest]; [discriminate |].
  destruct (stack_base_some c layout boot _ Hok) as (base & Hbase & _).
  pose proof (cr_image _ _ _ _ Hok) as (_ & _ & _ & _ & Hsegs).
  destruct (build_spec c layout boot root rest) as (s & pf & E & Hzip & Hpf & Hroot & Hfr & Huse & Hnd & Hin & _ & Hc & Hp & _).
  { eapply Forall_impl; [exact Hsegs |]. cbn. tauto. }
  { eauto. }
  { exact Hlen. }
  exists s. split; [exact E |]. rewrite <- Hzip, Hroot. cbv zeta. split; [exact Hfr |]. split_and!.
  - intros m Hm sum mxr acc va pa Hva. eapply created_translate; eauto.
  - intros m p f o. eapply created_page; eauto.
  - intros m x. rewrite <- Hfr. eapply created_frame; eauto.
  - intros p f H. rewrite <- Hfr. eapply pf_frame; eauto.
Qed.

(** C1: A new process's address space is exactly its plan.  For a validated configuration, an
    accepted image and the frames the kernel reserved, [Space::build] succeeds, uses every
    frame, and after the accesses of the creation the CPU's own Sv32 translation of a user
    address under the process's [satp] succeeds, from U-mode, if and only if a planned page
    (of a segment or of the stack) covers it and its permissions allow the access, and then at
    that page's frame: no kernel, device or other frame is reachable, and no page is missing. *)
Theorem address_space_exact (c : KernelConfig) (layout : UserLayout) (boot : BootImage) (frames : list Z) (m : Bytes) :
  creation_ok c layout boot frames -> bytes_mem m ->
  exists s, Space.build c layout boot frames = Some s /\ sp_frames s = frames /\
    forall sum mxr acc va pa, in_u 32 va ->
    snd (sv32_translate (logged (words (created s m))) 2 (Pte.satp (sp_root s)) User sum mxr acc va []) = Some (Ok pa) <->
    exists p f, (p, f) ∈ zip (pages (bi_image boot) layout) (sp_regions s ≫= rg_frames) /\
      pg_va p <= va < pg_va p + PAGE /\ may (pg_perms p) mxr acc = true /\ pa = f * PAGE + va mod PAGE /\ f ∈ frames.
Proof.
  intros Hok Hm. destruct (creation_build _ _ _ _ Hok) as (s & E & Hfr & Htr & _ & _ & Hin). exists s.
  split; [exact E |]. split; [exact Hfr |]. intros sum mxr acc va pa Hva. rewrite (Htr m Hm) by exact Hva.
  split; intros (p & f & H & Hc & Hmay & Hpa); exists p, f; [eauto 10 | tauto].
Qed.

(** C34: A new process sees its executable.  A user address that translates is in a page of the
    image, and then the byte there is the one the executable's plan says (the staged file's
    byte, or zero), or it is in the stack, and then the byte is zero; and the creation has
    changed no byte outside the process's own frames. *)
Theorem process_memory_loaded (c : KernelConfig) (layout : UserLayout) (boot : BootImage) (frames : list Z) (m : Bytes) :
  creation_ok c layout boot frames -> bytes_mem m ->
  exists s, Space.build c layout boot frames = Some s /\
    (forall sum mxr acc va pa, in_u 32 va ->
       snd (sv32_translate (logged (words (created s m))) 2 (Pte.satp (sp_root s)) User sum mxr acc va []) = Some (Ok pa) ->
       (exists q, q ∈ image_pages (bi_image boot) /\ covers q va /\
          created s m pa = page_byte (fun o => m (staged boot + o)) q va) \/
       ((exists base, base ∈ UserLayout.stack_vas layout /\ base <= va < base + PAGE) /\ created s m pa = 0)) /\
    forall x, (forall f, f ∈ frames -> ~ in_frame x f) -> created s m x = m x.
Proof.
  intros Hok Hm. destruct (creation_build _ _ _ _ Hok) as (s & E & Hfr & Htr & Hpage & Hout & _). exists s.
  split; [exact E |]. split; [|apply Hout]. intros sum mxr acc va pa Hva (p & f & H & Hc & _ & ->)%(Htr m Hm); [|exact Hva].
  pose proof (process_pages_sorted c layout boot _ Hok) as [_ Hall]. rewrite Forall_forall in Hall.
  assert (Hp : p ∈ pages (bi_image boot) layout) by (apply elem_of_zip_l in H; exact H).
  destruct (Hall p Hp) as (Hal & _).
  assert (Ho : va mod PAGE = va - pg_va p) by (unfold PAGE in *; Z.div_mod_to_equations; lia).
  rewrite (Hpage m p f) by (exact H || (apply Z.mod_pos_bound; reflexivity)). rewrite Ho.
  apply elem_of_app in Hp as [(q & -> & Hq)%list_elem_of_fmap|(base & -> & Hb)%list_elem_of_fmap].
  - left. exists q. split; [exact Hq |]. split; [exact Hc |]. unfold planned_byte, page_byte. cbn.
    destruct (pp_copy q) as [fc|]; reflexivity.
  - right. split; [exists base; auto | reflexivity].
Qed.

(** * Examples *)

Definition creation_frames : list Z := seqZ 0x80400 8.

Lemma example_creation : creation_ok example_config UserLayout.M3 example_boot creation_frames.
Proof.
  split; try reflexivity.
  - unfold in_u. cbn. lia.
  - unfold image_ok, UserLayout.image_range. cbn. split_and!; try reflexivity; try lia; try discriminate; [repeat constructor |].
    apply Forall_singleton. split_and!; [discriminate | reflexivity |]. apply Forall_singleton.
    split_and!; try reflexivity; try (cbn; lia). unfold copy_ok, Elf.PAGE_SIZE. cbn. lia.
  - apply NoDup_seqZ.
  - apply Forall_forall. intros f Hf%elem_of_seqZ. cbn. unfold PAGE. lia.
  - unfold window_ok. cbn. lia.
Qed.

Lemma address_space_exact_witness :
  exists s, Space.build example_config UserLayout.M3 example_boot creation_frames = Some s /\
    snd (sv32_translate (logged (words (created s (fun _ => 7)))) 2 (Pte.satp (sp_root s)) User false false
           Access_Fetch 0x10004 []) = Some (Ok 0x80402004).
Proof.
  destruct (address_space_exact example_config UserLayout.M3 example_boot creation_frames (fun _ => 7))
    as (s & E & _ & H); [apply example_creation | intros x; const_range |].
  exists s. split; [exact E |]. apply H; [const_range |]. vm_compute in E. injection E as <-.
  eexists _, 0x80402. split; [left |]. unfold PAGE. cbn. split; [lia |]. split; [reflexivity |]. split; [reflexivity |].
  apply elem_of_seqZ. lia.
Defined.

Lemma process_memory_loaded_witness :
  exists s, Space.build example_config UserLayout.M3 example_boot creation_frames = Some s /\
    created s (fun _ => 7) 0x80000000 = 7.
Proof.
  destruct (process_memory_loaded example_config UserLayout.M3 example_boot creation_frames (fun _ => 7))
    as (s & E & _ & H); [apply example_creation | intros x; const_range |].
  exists s. split; [exact E |]. apply H. intros f Hf%elem_of_seqZ. unfold in_frame, PAGE. lia.
Defined.
