(* ===== verification/OsCore.v ===== *)
(** The kernel's pure core, [components/os/src/core.rs]: the accesses of an operation, one at a
    time, and the prototype operations of an [ENTER].

    Proved: served by any memory, a scripted operation reads the trap frame, writes it back
    with [sepc + 4] and outputs one byte, a shutdown writes its action and reason, nothing
    else changes, and both end after the number of accesses they announce. *)
From stdpp Require Import base numbers list option strings sorting.
From Stdlib Require Import ZArith Lia.
From S2P Require Import Prelude Words Csr Privileged Sv32 Elf OsConfig OsSpace OsSpaceProofs.

Local Open Scope string_scope.
Local Open Scope list_scope.
Local Open Scope Z_scope.

Definition SCRIPT_BYTE : Z := 107.
Definition SHUTDOWN_REASON : Z := 1.

Inductive Op : Set := Op_Script | Op_Shutdown.

#[export] Instance Op_eq_dec : EqDecision Op.
Proof. solve_decision. Defined.

Module Op.
Definition name (o : Op) : string := match o with Op_Script => "script" | Op_Shutdown => "shutdown" end.
End Op.

Inductive Completion : Set :=
| Completion_Data (data : list Z)
| Completion_Written.

Inductive CoreError : Set := Core_Finished | Core_WrongKind | Core_DataLength.

(** Why a completion does not advance an operation: an error, or a panic. *)
Inductive CoreStop : Set := Core_Error (e : CoreError) | Core_Panic (what : string).

(** Indexing by a range, the panic an [Err]. *)
Definition sub_slice (l : list Z) (at_ len : nat) : result string (list Z) :=
  if (at_ + len <=? length l)%nat then Ok (take len (drop at_ l)) else Err "range end index out of range".

Definition index_of {A} (l : list A) (i : nat) : result string A := ok_or (l !! i) "index out of bounds".

(** [chunks] always returns ([chunks_spec]). *)
Definition chunk_list (base len : Z) : list (Z * Z) := default [] (chunks base len).

(** The bytes the first [step] of the accesses cover: [chunks[..step].iter().map(|c| c.1).sum()]. *)
Definition read_len (l : list (Z * Z)) (step : nat) : nat :=
  sum_list_with (fun c => Z.to_nat (snd c)) (take step l).

Record Operation : Set := mkOperation { o_op : Op; o_step : nat; o_data : list Z }.

Module Operation.
Definition start (c : KernelConfig) (value : Z) : Operation :=
  mkOperation (if value =? kc_trap_frame c then Op_Script else Op_Shutdown) 0 [].

Definition frame_chunks (c : KernelConfig) : list (Z * Z) := chunk_list (kc_trap_frame c) FRAME_BYTES.

Definition shutdown_chunks (c : KernelConfig) : list (Z * Z) := chunk_list (kc_trap_frame c + FRAME_ACTION) 8.

Definition steps (c : KernelConfig) (o : Operation) : nat :=
  match o_op o with
  | Op_Script => 2 * length (frame_chunks c) + 1
  | Op_Shutdown => length (shutdown_chunks c)
  end.

Definition data_len (c : KernelConfig) (o : Operation) : nat :=
  let chunks := frame_chunks c in
  match o_op o with
  | Op_Script =>
      if (o_step o <? length chunks)%nat then read_len chunks (o_step o)
      else if (o_step o <? 2 * length chunks)%nat then Z.to_nat FRAME_BYTES
      else 0
  | Op_Shutdown => 0
  end.

Definition from_parts (c : KernelConfig) (op : Op) (step : nat) (data : list Z) : option Operation :=
  let o := mkOperation op step data in
  if (step <? steps c o)%nat && (length data =? data_len c o)%nat then Some o else None.

Definition access (c : KernelConfig) (o : Operation) : result string (option Access) :=
  let step := o_step o in
  match o_op o with
  | Op_Script =>
      let chunks := frame_chunks c in
      let n := length chunks in
      if (step <? n)%nat then
        '(addr, len) ← index_of chunks step;
        Ok (Some (Access_Read addr len))
      else if (step <? 2 * n)%nat then
        '(addr, len) ← index_of chunks (step - n);
        let at_ := Z.to_nat FRAME_SEPC in
        sepc ← sub_slice (o_data o) at_ 4;
        let frame := put_word (o_data o) at_ (wrap 32 (from_le sepc + 4)) in
        data ← sub_slice frame (Z.to_nat (addr - kc_trap_frame c)) (Z.to_nat len);
        Ok (Some (Access_Write addr data))
      else if (step =? 2 * n)%nat then Ok (Some (Access_Write (kc_uart_tx c) [SCRIPT_BYTE]))
      else Ok None
  | Op_Shutdown =>
      match shutdown_chunks c !! step with
      | None => Ok None
      | Some (addr, len) =>
          let words := to_le 4 1 ++ to_le 4 SHUTDOWN_REASON in
          data ← sub_slice words (Z.to_nat (addr - (kc_trap_frame c + FRAME_ACTION))) (Z.to_nat len);
          Ok (Some (Access_Write addr data))
      end
  end.

Definition advance (c : KernelConfig) (o : Operation) (data : list Z) : Operation :=
  let o := mkOperation (o_op o) (S (o_step o)) data in
  if negb (length data =? data_len c o)%nat then mkOperation (o_op o) (o_step o) [] else o.

Definition complete (c : KernelConfig) (o : Operation) (k : Completion) : result CoreStop Operation :=
  due ← map_err Core_Panic (access c o);
  match due, k with
  | None, _ => Err (Core_Error Core_Finished)
  | Some (Access_Read _ len), Completion_Data data =>
      if negb (Z.of_nat (length data) =? len) then Err (Core_Error Core_DataLength)
      else Ok (advance c o (o_data o ++ data))
  | Some (Access_Write _ _), Completion_Written => Ok (advance c o (o_data o))
  | _, _ => Err (Core_Error Core_WrongKind)
  end.

Definition is_finished (c : KernelConfig) (o : Operation) : bool := (steps c o <=? o_step o)%nat.
End Operation.

(** * Serving an operation *)

(** What the accesses reach: memory, and the bytes the UART has output. *)
Record World : Type := mkWorld { w_mem : Bytes; w_uart : list Z }.

Definition serve (c : KernelConfig) (a : Access) (w : World) : World * Completion :=
  match a with
  | Access_Read addr len => (w, Completion_Data (read_bytes (w_mem w) addr len))
  | Access_Write addr data =>
      (if addr =? kc_uart_tx c then mkWorld (w_mem w) (w_uart w ++ data)
       else mkWorld (write_bytes (w_mem w) addr data) (w_uart w), Completion_Written)
  end.

(** What the engine drives: the access due, and the step past it. *)
Class Stepper (A : Type) := {
  due : KernelConfig -> A -> result string (option Access);
  complete : KernelConfig -> A -> Completion -> result CoreStop A;
}.

#[export] Instance operation_stepper : Stepper Operation := {
  due := Operation.access;
  complete := Operation.complete;
}.

(** [n] accesses, each served before the next; [None] if one is missing or refused. *)
Fixpoint serve_run `{Stepper A} (n : nat) (c : KernelConfig) (o : A) (w : World) : option (A * World) :=
  match n with
  | O => Some (o, w)
  | S n =>
      match due c o with
      | Ok (Some a) =>
          let '(w, k) := serve c a w in
          match complete c o k with
          | Ok o => serve_run n c o w
          | Err _ => None
          end
      | _ => None
      end
  end.

(** ** Ranges read and written in pieces *)

Section pieces.
Context (base len : Z) (l : list (Z * Z)) (Hc : contiguous base (base + len) l) (Hok : Forall chunk_ok l).

Lemma contiguous_lookup i a n : forall from to l, contiguous from to l -> Forall chunk_ok l -> l !! i = Some (a, n) ->
  a = from + Z.of_nat (read_len l i).
Proof.
  induction i as [|i IH]; intros from to [|[b k] l'] H Hall; cbn; try discriminate; destruct H as [-> H].
  - intros [= -> ->]. cbn. lia.
  - apply Forall_cons_1 in Hall as [[[? ?] _] Hall]. cbn in *. intros Hi. rewrite (IH _ _ _ H Hall Hi). unfold read_len. cbn. lia.
Qed.

Lemma contiguous_total : forall from to l, contiguous from to l -> Forall chunk_ok l ->
  to = from + Z.of_nat (read_len l (length l)).
Proof.
  intros from to l'. revert from. induction l' as [|[b k] l' IH]; intros from H Hall; cbn; [cbn in H; lia |].
  destruct H as [-> H]. apply Forall_cons_1 in Hall as [[[? ?] _] Hall]. cbn in *. rewrite (IH _ H Hall). unfold read_len. cbn. lia.
Qed.

Lemma read_len_S l' i c : l' !! i = Some c -> read_len l' (S i) = (read_len l' i + Z.to_nat (snd c))%nat.
Proof.
  intros Hi. unfold read_len. rewrite (take_S_r _ _ _ Hi), sum_list_with_app. cbn. lia.
Qed.

Lemma read_len_all : len = Z.of_nat (read_len l (length l)).
Proof. pose proof (contiguous_total _ _ _ Hc Hok). lia. Qed.

(** Piece [i]: where it is, and how far the pieces up to it reach. *)
Lemma piece i a n :
  l !! i = Some (a, n) ->
  a = base + Z.of_nat (read_len l i) /\ 1 <= n <= MAX_ACCESS /\
  read_len l (S i) = (read_len l i + Z.to_nat n)%nat /\ Z.of_nat (read_len l (S i)) <= len.
Proof.
  intros Hi. split; [exact (contiguous_lookup i a n _ _ _ Hc Hok Hi) |].
  destruct (Forall_lookup_1 _ _ _ _ Hok Hi) as [Hn _]. cbn in Hn. split; [exact Hn |]. split; [exact (read_len_S _ _ _ Hi) |].
  rewrite read_len_all. unfold read_len at 1 2. pose proof (lookup_lt_Some _ _ _ Hi).
  rewrite (take_ge l (length l)) by lia. rewrite <- (take_drop (S i) l) at 2. rewrite sum_list_with_app. lia.
Qed.
End pieces.

Lemma read_bytes_length m a len : length (read_bytes m a len) = Z.to_nat len.
Proof. unfold read_bytes. rewrite length_fmap, length_seqZ. reflexivity. Qed.

Lemma mem_read_app m a k n : 0 <= k -> 0 <= n -> read_bytes m a k ++ read_bytes m (a + k) n = read_bytes m a (k + n).
Proof. intros. unfold read_bytes. rewrite <- fmap_app, <- seqZ_app by lia. reflexivity. Qed.

Lemma mem_write_ext m m' a bs x : (forall y, m y = m' y) -> write_bytes m a bs x = write_bytes m' a bs x.
Proof. intros E. unfold write_bytes. rewrite E. reflexivity. Qed.

Lemma mem_write_nil m a x : write_bytes m a [] x = m x.
Proof.
  unfold write_bytes. cbn [length]. change (Z.of_nat 0) with 0. rewrite Z.add_0_r.
  destruct (Z.leb_spec a x), (Z.ltb_spec x a); cbn [andb]; lia || reflexivity.
Qed.

(** Writing the first pieces of [bs], then the next. *)
Lemma mem_write_app m a k n bs x :
  (k + n <= length bs)%nat ->
  write_bytes (write_bytes m a (take k bs)) (a + Z.of_nat k) (take n (drop k bs)) x = write_bytes m a (take (k + n) bs) x.
Proof.
  intros Hl. unfold write_bytes. rewrite !length_take, length_drop, !Nat.min_l by lia.
  destruct (Z.leb_spec a x), (Z.leb_spec (a + Z.of_nat k) x); cbn [andb]; try lia; try reflexivity.
  - destruct (Z.ltb_spec x (a + Z.of_nat k + Z.of_nat n)), (Z.ltb_spec x (a + Z.of_nat (k + n))); try lia.
    + rewrite !lookup_take_lt, lookup_drop by lia. do 2 f_equal. lia.
    + destruct (Z.ltb_spec x (a + Z.of_nat k)); [lia | reflexivity].
  - destruct (Z.ltb_spec x (a + Z.of_nat k)), (Z.ltb_spec x (a + Z.of_nat (k + n))); try lia.
    rewrite !lookup_take_lt by lia. reflexivity.
Qed.

Section phases.
Context {A : Type} `{Stepper A} (c : KernelConfig).

Lemma serve_run_app n m (o : A) w :
  serve_run (n + m) c o w = ('(o, w) ← serve_run n c o w; serve_run m c o w).
Proof.
  revert o w. induction n as [|n IH]; intros o w; [reflexivity |]. cbn [Nat.add serve_run].
  destruct (due c o) as [[a|]|]; [|reflexivity..]. destruct (serve c a w) as [w' k].
  destruct (complete c o k); [apply IH | reflexivity].
Qed.

Lemma serve_one (o o' : A) w w' a k :
  due c o = Ok (Some a) -> serve c a w = (w', k) -> complete c o k = Ok o' -> serve_run 1 c o w = Some (o', w').
Proof. intros E1 E2 E3. cbn [serve_run]. rewrite E1, E2, E3. reflexivity. Qed.

(** A range read in pieces collects its bytes. *)
Lemma serve_reads (st : nat -> list Z -> A) base len l w :
  contiguous base (base + len) l -> Forall chunk_ok l ->
  (forall i a n data, l !! i = Some (a, n) -> length data = read_len l i -> due c (st i data) = Ok (Some (Access_Read a n))) ->
  (forall i a n data bs, l !! i = Some (a, n) -> length data = read_len l i -> Z.of_nat (length bs) = n ->
     complete c (st i data) (Completion_Data bs) = Ok (st (S i) (data ++ bs))) ->
  serve_run (length l) c (st O []) w = Some (st (length l) (read_bytes (w_mem w) base len), w).
Proof.
  intros Hc Hok Hdue Hcomp.
  assert (Hk : forall k, (k <= length l)%nat ->
            serve_run k c (st O []) w = Some (st k (read_bytes (w_mem w) base (Z.of_nat (read_len l k))), w)).
  { induction k as [|k IH]; intros Hk; [reflexivity |]. destruct (lookup_lt_is_Some_2 l k Hk) as [[a n] Hi].
    destruct (piece base len l Hc Hok k a n Hi) as (Ha & Hn & HS & _).
    replace (S k) with (k + 1)%nat at 1 by lia. rewrite serve_run_app, IH by lia. cbn [mbind option_bind].
    assert (Hl : length (read_bytes (w_mem w) base (Z.of_nat (read_len l k))) = read_len l k) by (rewrite read_bytes_length; lia).
    erewrite serve_one; [reflexivity | apply (Hdue k a n); auto | reflexivity |].
    rewrite (Hcomp k a n) by (auto; rewrite read_bytes_length; lia). do 2 f_equal.
    rewrite Ha, mem_read_app by lia. f_equal. lia. }
  rewrite (Hk (length l)), <- (read_len_all base len l Hc Hok) by lia. reflexivity.
Qed.

(** A range written in pieces holds the bytes, whatever it held before. *)
Lemma serve_writes (st : nat -> A) base bs l w :
  contiguous base (base + Z.of_nat (length bs)) l -> Forall chunk_ok l ->
  ~ (base <= kc_uart_tx c < base + Z.of_nat (length bs)) ->
  (forall i a n, l !! i = Some (a, n) ->
     due c (st i) = Ok (Some (Access_Write a (take (Z.to_nat n) (drop (read_len l i) bs))))) ->
  (forall i, (i < length l)%nat -> complete c (st i) Completion_Written = Ok (st (S i))) ->
  exists w', serve_run (length l) c (st O) w = Some (st (length l), w') /\ w_uart w' = w_uart w /\
    forall x, w_mem w' x = write_bytes (w_mem w) base bs x.
Proof.
  intros Hc Hok Hu Hdue Hcomp.
  assert (Hk : forall k, (k <= length l)%nat -> exists w', serve_run k c (st O) w = Some (st k, w') /\ w_uart w' = w_uart w /\
            forall x, w_mem w' x = write_bytes (w_mem w) base (take (read_len l k) bs) x).
  { induction k as [|k IH]; intros Hk.
    - exists w. split; [reflexivity |]. split; [reflexivity |]. intros x. unfold read_len. rewrite take_0. symmetry. apply mem_write_nil.
    - destruct (lookup_lt_is_Some_2 l k Hk) as [[a n] Hi]. destruct (piece base _ l Hc Hok k a n Hi) as (Ha & Hn & HS & Hle).
      destruct (IH ltac:(lia)) as (w1 & E1 & Hu1 & Hm1). set (bs' := take (Z.to_nat n) (drop (read_len l k) bs)).
      exists (mkWorld (write_bytes (w_mem w1) a bs') (w_uart w1)). split; [|split; [exact Hu1 |]].
      + replace (S k) with (k + 1)%nat at 1 by lia. rewrite serve_run_app, E1. cbn [mbind option_bind].
        eapply serve_one; [exact (Hdue k a n Hi) | | apply Hcomp; lia]. cbn [serve].
        destruct (Z.eqb_spec a (kc_uart_tx c)); [lia | reflexivity].
      + intros x. cbn [w_mem]. rewrite HS, <- (mem_write_app (w_mem w) base) by lia. rewrite Ha. fold bs'.
        apply mem_write_ext, Hm1. }
  destruct (Hk (length l) (le_n _)) as (w' & E & Hu' & Hm). exists w'. split; [exact E |]. split; [exact Hu' |]. intros x.
  rewrite Hm, take_ge; [reflexivity |]. pose proof (read_len_all base _ l Hc Hok). lia.
Qed.
End phases.

Lemma chunk_list_spec base len : 0 <= len ->
  contiguous base (base + len) (chunk_list base len) /\ Forall chunk_ok (chunk_list base len).
Proof. intros Hl. unfold chunk_list. destruct (chunks_spec base len Hl) as (l & -> & ?). assumption. Qed.

Lemma chunk_list_pos base len : 0 < len -> (0 < length (chunk_list base len))%nat.
Proof.
  intros Hl. destruct (chunk_list_spec base len ltac:(lia)) as [Hc Hok]. pose proof (read_len_all _ _ _ Hc Hok) as E.
  destruct (chunk_list base len); [change (read_len [] 0) with O in E; cbn in E; lia | cbn; lia].
Qed.

Lemma sub_slice_ok l a n : (a + n <= length l)%nat -> sub_slice l a n = Ok (take n (drop a l)).
Proof. intros Hl. unfold sub_slice. destruct (Nat.leb_spec (a + n) (length l)); [reflexivity | lia]. Qed.

(** * The prototype operations *)

Section prototype.
Context (c : KernelConfig).

Local Abbreviation frame := (kc_trap_frame c).
Local Abbreviation n := (length (Operation.frame_chunks c)).

Lemma frame_pieces :
  contiguous frame (frame + FRAME_BYTES) (Operation.frame_chunks c) /\ Forall chunk_ok (Operation.frame_chunks c).
Proof. apply chunk_list_spec. discriminate. Qed.

Lemma frame_len : read_len (Operation.frame_chunks c) n = Z.to_nat FRAME_BYTES.
Proof. destruct frame_pieces as [Hc Hok]. pose proof (read_len_all _ _ _ Hc Hok). lia. Qed.

Lemma chunks_nonempty : (0 < n)%nat.
Proof. pose proof frame_len as E. destruct (Operation.frame_chunks c); [discriminate | cbn; lia]. Qed.

(** The step past an access that keeps the data. *)
Lemma advance_keep op step data data' :
  length data' = Operation.data_len c (mkOperation op (S step) data') ->
  Operation.advance c (mkOperation op step data) data' = mkOperation op (S step) data'.
Proof. intros E. unfold Operation.advance. cbn [o_op o_step]. rewrite <- E, Nat.eqb_refl. reflexivity. Qed.

Lemma script_data_len step data :
  Operation.data_len c (mkOperation Op_Script step data) =
  if (step <=? n)%nat then read_len (Operation.frame_chunks c) step
  else if (step <? 2 * n)%nat then Z.to_nat FRAME_BYTES else 0%nat.
Proof.
  unfold Operation.data_len. cbn [o_op o_step]. pose proof chunks_nonempty. pose proof frame_len.
  destruct (Nat.ltb_spec step n), (Nat.leb_spec step n); try lia; try reflexivity. replace step with n by lia.
  destruct (Nat.ltb_spec n (2 * n)); lia.
Qed.

Lemma script_reads w :
  serve_run n c (mkOperation Op_Script 0 []) w
  = Some (mkOperation Op_Script n (read_bytes (w_mem w) frame FRAME_BYTES), w).
Proof.
  destruct frame_pieces as [Hc Hok]. apply (serve_reads c (fun i d => mkOperation Op_Script i d)); auto.
  - intros i a k data Hi Hd. pose proof (lookup_lt_Some _ _ _ Hi) as Hlt. cbn [due operation_stepper]. unfold Operation.access. cbn [o_op o_step o_data].
    apply Nat.ltb_lt in Hlt. rewrite Hlt. unfold index_of. rewrite Hi. reflexivity.
  - intros i a k data bs Hi Hd Hb. pose proof (lookup_lt_Some _ _ _ Hi) as Hlt. cbn [complete operation_stepper].
    unfold Operation.complete, Operation.access.
    cbn [o_op o_step o_data]. rewrite (proj2 (Nat.ltb_lt _ _) Hlt). unfold index_of. rewrite Hi. cbn.
    rewrite Hb, Z.eqb_refl. cbn [negb]. rewrite advance_keep; [reflexivity |].
    rewrite script_data_len, (proj2 (Nat.leb_le (S i) n)) by lia. rewrite length_app, Hd.
    destruct (piece _ _ _ Hc Hok i a k Hi) as (_ & ? & -> & _). lia.
Qed.

(** The frame with [sepc + 4]. *)
Definition stepped_frame (bs : list Z) : list Z :=
  put_word bs (Z.to_nat FRAME_SEPC) (wrap 32 (from_le (take 4 (drop (Z.to_nat FRAME_SEPC) bs)) + 4)).

Lemma length_stepped bs : length bs = Z.to_nat FRAME_BYTES -> length (stepped_frame bs) = Z.to_nat FRAME_BYTES.
Proof.
  intros Hl. unfold stepped_frame, put_word. rewrite !length_app, length_take, length_drop, length_to_le, Hl. reflexivity.
Qed.

Lemma script_write_due bs i a k :
  length bs = Z.to_nat FRAME_BYTES -> Operation.frame_chunks c !! i = Some (a, k) ->
  Operation.access c (mkOperation Op_Script (n + i) bs)
  = Ok (Some (Access_Write a (take (Z.to_nat k) (drop (read_len (Operation.frame_chunks c) i) (stepped_frame bs))))).
Proof.
  intros Hl Hi. pose proof (lookup_lt_Some _ _ _ Hi) as Hlt. destruct frame_pieces as [Hc Hok].
  destruct (piece _ _ _ Hc Hok i a k Hi) as (-> & Hk & HS & Hle).
  unfold Operation.access. cbn [o_op o_step o_data]. destruct (Nat.ltb_spec (n + i) n); [lia |].
  destruct (Nat.ltb_spec (n + i) (2 * n)); [|lia]. replace (n + i - n)%nat with i by lia. unfold index_of. rewrite Hi.
  cbn [mbind result_bind ok_or]. rewrite sub_slice_ok by (rewrite Hl; cbv; lia). cbn [mbind result_bind].
  fold (stepped_frame bs). rewrite Z.add_simpl_l, Nat2Z.id, sub_slice_ok; [reflexivity |]. rewrite length_stepped by exact Hl. lia.
Qed.

Lemma script_writes bs w :
  length bs = Z.to_nat FRAME_BYTES -> ~ (frame <= kc_uart_tx c < frame + FRAME_BYTES) ->
  exists w', serve_run n c (mkOperation Op_Script n bs) w = Some (mkOperation Op_Script (2 * n) [], w') /\
    w_uart w' = w_uart w /\ forall x, w_mem w' x = write_bytes (w_mem w) frame (stepped_frame bs) x.
Proof.
  intros Hl Hu. destruct frame_pieces as [Hc Hok]. pose proof chunks_nonempty as Hn.
  pose proof (length_stepped bs Hl) as Hs.
  assert (Hb : Z.of_nat (length (stepped_frame bs)) = FRAME_BYTES) by (rewrite Hs; reflexivity).
  pose (st := fun i => mkOperation Op_Script (n + i) (if (i <? n)%nat then bs else [])).
  assert (H0 : mkOperation Op_Script n bs = st O).
  { unfold st. rewrite Nat.add_0_r. destruct (Nat.ltb_spec 0 n); [reflexivity | lia]. }
  assert (Hend : mkOperation Op_Script (2 * n) [] = st n).
  { unfold st. rewrite Nat.ltb_irrefl. f_equal. lia. }
  rewrite H0, Hend. apply (serve_writes c st); rewrite ?Hb; auto.
  - intros i a k Hi. pose proof (lookup_lt_Some _ _ _ Hi) as Hlt. unfold st. rewrite (proj2 (Nat.ltb_lt i n) Hlt).
    apply script_write_due; assumption.
  - intros i Hi. unfold st. rewrite (proj2 (Nat.ltb_lt i n) Hi). destruct (lookup_lt_is_Some_2 _ i Hi) as [[a k] Ha].
    cbn [complete operation_stepper]. unfold Operation.complete. rewrite (script_write_due bs i a k Hl Ha). cbn [mbind result_bind map_err].
    unfold Operation.advance. cbn [o_op o_step o_data]. rewrite script_data_len, <- plus_n_Sm.
    destruct (Nat.leb_spec (S (n + i)) n), (Nat.ltb_spec (S (n + i)) (2 * n)), (Nat.ltb_spec (S i) n); try lia.
    + rewrite Hl, Nat.eqb_refl. reflexivity.
    + rewrite Hl. reflexivity.
Qed.

Lemma script_output w :
  serve_run 1 c (mkOperation Op_Script (2 * n) []) w
  = Some (mkOperation Op_Script (S (2 * n)) [], mkWorld (w_mem w) (w_uart w ++ [SCRIPT_BYTE])).
Proof.
  pose proof chunks_nonempty as Hn.
  assert (Hdue : Operation.access c (mkOperation Op_Script (2 * n) []) = Ok (Some (Access_Write (kc_uart_tx c) [SCRIPT_BYTE]))).
  { unfold Operation.access. cbn [o_op o_step o_data]. destruct (Nat.ltb_spec (2 * n) n); [lia |].
    rewrite Nat.ltb_irrefl, Nat.eqb_refl. reflexivity. }
  eapply serve_one; [exact Hdue | cbn [serve]; rewrite Z.eqb_refl; reflexivity |].
  cbn [complete operation_stepper]. unfold Operation.complete. rewrite Hdue. cbn [mbind result_bind map_err o_data].
  rewrite advance_keep; [reflexivity |]. rewrite script_data_len.
  destruct (Nat.leb_spec (S (2 * n)) n), (Nat.ltb_spec (S (2 * n)) (2 * n)); lia || reflexivity.
Qed.

Lemma shutdown_writes w :
  ~ (frame <= kc_uart_tx c < frame + FRAME_BYTES) ->
  let m := length (Operation.shutdown_chunks c) in
  exists w', serve_run m c (mkOperation Op_Shutdown 0 []) w = Some (mkOperation Op_Shutdown m [], w') /\
    w_uart w' = w_uart w /\
    forall x, w_mem w' x = write_bytes (w_mem w) (frame + FRAME_ACTION) (to_le 4 1 ++ to_le 4 SHUTDOWN_REASON) x.
Proof.
  intros Hu m. destruct (chunk_list_spec (frame + FRAME_ACTION) 8 ltac:(lia)) as [Hc Hok].
  fold (Operation.shutdown_chunks c) in Hc, Hok.
  assert (Hdue : forall i a k, Operation.shutdown_chunks c !! i = Some (a, k) ->
    Operation.access c (mkOperation Op_Shutdown i []) = Ok (Some (Access_Write a
      (take (Z.to_nat k) (drop (read_len (Operation.shutdown_chunks c) i) (to_le 4 1 ++ to_le 4 SHUTDOWN_REASON)))))).
  { intros i a k Hi. destruct (piece _ _ _ Hc Hok i a k Hi) as (Ha & Hk & HS & Hle). unfold Operation.access. cbn [o_op o_step].
    rewrite Hi, Ha, Z.add_simpl_l, Nat2Z.id, sub_slice_ok; [reflexivity |]. rewrite length_app, !length_to_le. lia. }
  apply (serve_writes c (fun i => mkOperation Op_Shutdown i [])); auto.
  - rewrite length_app, !length_to_le. unfold FRAME_BYTES, FRAME_ACTION in *. lia.
  - intros i Hi. destruct (lookup_lt_is_Some_2 _ i Hi) as [[a k] Ha].
    cbn [complete operation_stepper]. unfold Operation.complete. rewrite (Hdue i a k Ha). reflexivity.
Qed.
End prototype.

(** Writing the stepped frame back changes its [sepc] only. *)
Lemma write_stepped m a x :
  write_bytes m a (stepped_frame (read_bytes m a FRAME_BYTES)) x
  = write_bytes m (a + FRAME_SEPC) (to_le 4 (wrap 32 (word_at m (a + FRAME_SEPC) + 4))) x.
Proof.
  pose proof (read_bytes_length m a FRAME_BYTES) as Hl. unfold stepped_frame. set (bs := read_bytes m a FRAME_BYTES) in *.
  assert (Hw : take 4 (drop (Z.to_nat FRAME_SEPC) bs) = read_bytes m (a + FRAME_SEPC) 4).
  { unfold bs, read_bytes. rewrite <- fmap_drop, <- fmap_take. f_equal.
    replace FRAME_BYTES with (FRAME_SEPC + (4 + 24)) by reflexivity. rewrite seqZ_app, seqZ_app by (cbv; discriminate).
    rewrite drop_app_length' by (rewrite length_seqZ; reflexivity). apply take_app_length'. rewrite length_seqZ. reflexivity. }
  rewrite Hw. fold (word_at m (a + FRAME_SEPC)). set (v := wrap 32 _). unfold put_word.
  assert (Hlen : length (to_le 4 v) = 4%nat) by apply length_to_le.
  assert (Hb : forall i, (i < Z.to_nat FRAME_BYTES)%nat -> bs !! i = Some (m (a + Z.of_nat i))).
  { intros i Hi. unfold bs, read_bytes. rewrite list_lookup_fmap, lookup_seqZ_lt by (unfold FRAME_BYTES in *; lia). reflexivity. }
  change (Z.to_nat FRAME_BYTES) with 152%nat in *. change (Z.to_nat FRAME_SEPC) with 124%nat. change FRAME_SEPC with 124.
  assert (Ht : length (take 124 bs) = 124%nat) by (rewrite length_take; lia).
  unfold write_bytes. rewrite !length_app, Ht, Hlen, length_drop, Hl.
  destruct (Z.leb_spec a x), (Z.leb_spec (a + 124) x); cbn [andb]; try lia; try reflexivity.
  - destruct (Z.ltb_spec x (a + 124 + Z.of_nat 4)), (Z.ltb_spec x (a + Z.of_nat (124 + (4 + (152 - (124 + 4)))))); try lia; try reflexivity.
    + rewrite lookup_app_r, Ht, lookup_app_l by lia. do 2 f_equal. lia.
    + rewrite lookup_app_r, Ht, lookup_app_r, Hlen, lookup_drop, Hb by lia. cbn. f_equal. lia.
  - destruct (Z.ltb_spec x (a + Z.of_nat (124 + (4 + (152 - (124 + 4)))))); [|lia].
    rewrite lookup_app_l, lookup_take_lt, Hb by lia. cbn. f_equal. lia.
Qed.

(** The prototype's two operations, served by any memory.  An [ENTER] of the trap frame's
    address makes the announced number of accesses, after which only the frame's [sepc] has
    changed, to [sepc + 4] modulo [2^32], and the UART has output exactly one more byte; any
    other value writes the action and reason of a failure shutdown and nothing else.  Neither
    panics, is refused or stops short. *)
Theorem prototype_operation_exact (c : KernelConfig) (value : Z) (w : World) :
  ~ (kc_trap_frame c <= kc_uart_tx c < kc_trap_frame c + FRAME_BYTES) ->
  let o := Operation.start c value in
  exists o' w', serve_run (Operation.steps c o) c o w = Some (o', w') /\ Operation.is_finished c o' = true /\
    due c o' = Ok None /\
    (if value =? kc_trap_frame c then
       w_uart w' = w_uart w ++ [SCRIPT_BYTE] /\
       forall x, w_mem w' x = write_bytes (w_mem w) (kc_trap_frame c + FRAME_SEPC)
                   (to_le 4 (wrap 32 (word_at (w_mem w) (kc_trap_frame c + FRAME_SEPC) + 4))) x
     else
       w_uart w' = w_uart w /\
       forall x, w_mem w' x = write_bytes (w_mem w) (kc_trap_frame c + FRAME_ACTION)
                   (to_le 4 1 ++ to_le 4 SHUTDOWN_REASON) x).
Proof.
  intros Hu. unfold Operation.start. destruct (value =? kc_trap_frame c); cbn [Operation.steps o_op].
  - destruct (script_writes c (read_bytes (w_mem w) (kc_trap_frame c) FRAME_BYTES) w) as (w1 & E1 & Hu1 & Hm1);
      [apply read_bytes_length | exact Hu |].
    exists (mkOperation Op_Script (S (2 * length (Operation.frame_chunks c))) []), (mkWorld (w_mem w1) (w_uart w1 ++ [SCRIPT_BYTE])).
    split; [|split; [|split; [|split; [cbn; congruence |]]]].
    + replace (2 * _ + 1)%nat with (length (Operation.frame_chunks c) + (length (Operation.frame_chunks c) + 1))%nat by lia.
      rewrite !serve_run_app, script_reads. cbn [mbind option_bind]. rewrite serve_run_app, E1. apply script_output.
    + apply Nat.leb_le. cbn. lia.
    + cbn [due operation_stepper]. unfold Operation.access. cbn [o_op o_step o_data].
      repeat match goal with |- context [(?a <? ?b)%nat] => destruct (Nat.ltb_spec a b); [lia |] end.
      destruct (Nat.eqb_spec (S (2 * length (Operation.frame_chunks c))) (2 * length (Operation.frame_chunks c))); [lia | reflexivity].
    + intros x. cbn [w_mem]. rewrite Hm1. apply write_stepped.
  - destruct (shutdown_writes c w Hu) as (w1 & E1 & Hu1 & Hm1). eexists _, w1. split; [exact E1 |].
    split; [apply Nat.leb_le; cbn; lia |]. split; [|auto]. cbn [due operation_stepper]. unfold Operation.access. cbn [o_op o_step].
    rewrite lookup_ge_None_2 by lia. reflexivity.
Qed.

Lemma prototype_operation_exact_witness :
  exists o' w', serve_run 21 example_config (Operation.start example_config 0x80001000) (mkWorld (fun _ => 7) []) = Some (o', w') /\
    w_uart w' = [107] /\ w_mem w' 0x8000107c = 11.
Proof.
  destruct (prototype_operation_exact example_config 0x80001000 (mkWorld (fun _ => 7) []) ltac:(vm_compute; intros [? ?]; auto))
    as (o' & w' & E & _ & _ & Hu & Hm).
  exists o', w'. split; [exact E |]. split; [exact Hu |]. rewrite Hm. vm_compute. reflexivity.
Defined.
