(* ===== verification/OsSyscall.v ===== *)
(** The syscall ABI and the kernel's user-copy walk, [components/os/src/syscall.rs].

    Proved: the kernel's walk, written independently of the CPU's, reads the same PTEs and
    gives the same answer as the CPU for a U-mode load; a write buffer is output in the
    pieces that [chunks] gives for it, and [is_chunk_start] recognises exactly their starts. *)
From stdpp Require Import base numbers list option sorting.
From Stdlib Require Import ZArith Lia.
From S2P Require Import Prelude Instr Execute Csr Privileged Sv32 Elf OsConfig.

Local Open Scope list_scope.
Local Open Scope Z_scope.

Definition SYS_WRITE : Z := 64.
Definition SYS_EXIT : Z := 93.
Definition SYS_EXIT_GROUP : Z := 94.
Definition SYS_SCHED_YIELD : Z := 124.
Definition SYS_GETPID : Z := 172.

Definition EBADF : Z := 9.
Definition EFAULT : Z := 14.
Definition ENOSYS : Z := 38.

Definition WRITE_MAX : Z := 4096.

Definition FRAME_A0 : Z := 0x24.
Definition FRAME_A1 : Z := 0x28.
Definition FRAME_A2 : Z := 0x2C.
Definition FRAME_A7 : Z := 0x40.
Definition A0 : nat := 9.

Inductive Syscall : Set :=
| Sys_Write
| Sys_Exit
| Sys_ExitGroup
| Sys_SchedYield
| Sys_GetPid
| Sys_Unsupported (nr : Z).

Module Syscall.
Definition decode (nr : Z) : Syscall :=
  if nr =? SYS_WRITE then Sys_Write
  else if nr =? SYS_EXIT then Sys_Exit
  else if nr =? SYS_EXIT_GROUP then Sys_ExitGroup
  else if nr =? SYS_SCHED_YIELD then Sys_SchedYield
  else if nr =? SYS_GETPID then Sys_GetPid
  else Sys_Unsupported nr.
End Syscall.

Definition neg (errno : Z) : Z := wrap 32 (- errno).

Record Buffer : Set := mkBuffer { bf_sepc : Z; bf_buf : Z; bf_n : Z }.

Module Buffer.
Definition new (sepc buf n : Z) : option Buffer :=
  if (1 <=? n) && (n <=? WRITE_MAX) && (buf + n <=? 2 ^ 32) then Some (mkBuffer sepc buf n) else None.

Definition pages (b : Buffer) : Z :=
  let first := bf_buf b / PAGE in
  let last := (bf_buf b + bf_n b - 1) / PAGE in
  last - first + 1.

Definition page_va (b : Buffer) (i : Z) : Z := Z.land (bf_buf b) (not32 0xFFF) + i * PAGE.

Definition chunk (b : Buffer) (done : Z) : Z * Z :=
  let va := bf_buf b + done in
  let len := Z.min (Z.min (bf_n b - done) 16) (PAGE - va mod PAGE) in
  (va, len).

(** The [while] loop of [is_chunk_start], [None] when [fuel] is not enough. *)
Fixpoint is_chunk_start_loop (fuel : nat) (b : Buffer) (done at_ : Z) : option bool :=
  if bf_n b <=? at_ then Some false
  else if at_ =? done then Some true
  else
    match fuel with
    | O => None
    | S fuel => is_chunk_start_loop fuel b done (at_ + snd (chunk b at_))
    end.

(** A chunk has at least one byte, so [n] iterations are enough. *)
Definition is_chunk_start (b : Buffer) (done : Z) : option bool :=
  is_chunk_start_loop (Z.to_nat (bf_n b)) b done 0.
End Buffer.

Inductive WalkStep : Set :=
| Walk_Next (table : Z)
| Walk_Page (ppn : Z)
| Walk_Fault.

Definition user_pte_address (table va level : Z) : Z :=
  let vpn := if level =? 1 then Z.shiftr va 22 else Z.land (Z.shiftr va 12) 0x3FF in
  table * PAGE + 4 * vpn.

Definition walk_step (pte level va : Z) : WalkStep :=
  let has bits := has_bit pte bits in
  if negb (has Pte.V) || (negb (has Pte.R) && has Pte.W) then Walk_Fault
  else
    let ppn := Z.shiftr pte 10 in
    if negb (has (Z.lor Pte.R Pte.X)) then
      if (level =? 1) && negb (has (Z.lor (Z.lor Pte.D Pte.A) Pte.U)) then Walk_Next ppn else Walk_Fault
    else if negb (has Pte.U) || negb (has Pte.R) || negb (has Pte.A) then Walk_Fault
    else if level =? 1 then
      if negb (Z.land ppn 0x3FF =? 0) then Walk_Fault
      else Walk_Page (Z.lor ppn (Z.land (Z.shiftr va 12) 0x3FF))
    else Walk_Page ppn.

Section translate.
(** The state a PTE reader may keep ([FnMut]). *)
Context {St : Type} (read_pte : Z -> St -> St * Z).

(** [for level in [1, 0]]. *)
Fixpoint translate_levels (levels : list Z) (table va : Z) (st : St) : St * option Z :=
  match levels with
  | [] => (st, None)
  | level :: levels =>
      let '(st, pte) := read_pte (user_pte_address table va level) st in
      match walk_step pte level va with
      | Walk_Next next => translate_levels levels next va st
      | Walk_Page ppn => (st, Some (ppn * PAGE + Z.land va 0xFFF))
      | Walk_Fault => (st, None)
      end
  end.

Definition translate (root va : Z) (st : St) : St * option Z := translate_levels [1; 0] root va st.
End translate.

(** * The two walks *)

Definition user_load : Context := mkContext User false false Access_Load.

(** The physical address of a page and the answer of the CPU's step. *)
Definition as_step (va : Z) (w : WalkStep) : Step :=
  match w with
  | Walk_Next t => Step_Next t
  | Walk_Page ppn => Step_Leaf (ppn * PAGE + Z.land va 0xFFF)
  | Walk_Fault => Step_PageFault
  end.

Lemma walk_step_agrees pte level va :
  in_u 32 pte -> level = 0 \/ level = 1 -> as_step va (walk_step pte level va) = step user_load va level pte.
Proof.
  intros Hp Hl. rewrite step_correct by exact Hp. unfold walk_step. rewrite !has_bit_lor.
  change Pte.V with (2 ^ 0). change Pte.R with (2 ^ 1). change Pte.W with (2 ^ 2). change Pte.X with (2 ^ 3).
  change Pte.U with (2 ^ 4). change Pte.A with (2 ^ 6). change Pte.D with (2 ^ 7). rewrite !has_bit_pow2 by lia.
  unfold step_spec, pte_valid, pte_leaf, pte_allows, pte_view, user_load.
  cbn [pV pR pW pX pU pA pD pPPN ctx_access ctx_privilege ctx_mxr ctx_sum]. bits_to_arith.
  generalize (pte / 2 ^ 10) as ppn. intros ppn.
  assert (Hmega : ppn mod 2 ^ 10 = 0 ->
    Z.lor ppn ((va / 2 ^ 12) mod 2 ^ 10) * PAGE + va mod 2 ^ 12 = ppn / 2 ^ 10 * 2 ^ 22 + va mod 2 ^ 22).
  { intros Hm. rewrite (lor_low 10) by (lia || exact Hm || (apply Z.mod_pos_bound; lia)).
    unfold PAGE. Z.div_mod_to_equations. lia. }
  unfold as_step. bits_to_arith.
  destruct Hl as [->| ->]; cbn [Z.eqb Pos.eqb];
    destruct (Z.testbit pte 0), (Z.testbit pte 1), (Z.testbit pte 2), (Z.testbit pte 3), (Z.testbit pte 4),
      (Z.testbit pte 6), (Z.testbit pte 7); cbn [negb andb orb]; try reflexivity;
    destruct (Z.eqb_spec (ppn mod 2 ^ 10) 0) as [Hm|Hm]; cbn [negb andb]; try reflexivity; f_equal; auto.
Qed.

Lemma user_pte_address_agrees table va level :
  in_u 32 va -> level = 0 \/ level = 1 -> user_pte_address table va level = pte_address table va level.
Proof.
  intros Hv Hl. unfold user_pte_address, pte_address. rewrite vpn_spec by lia.
  destruct Hl as [->| ->]; cbn [Z.eqb Pos.eqb]; bits_to_arith; unfold PAGE, Sv32.PAGE_SIZE, in_u in *;
    Z.div_mod_to_equations; lia.
Qed.

(** A reader over a memory of words that logs the addresses. *)
Definition log_read (mem : Z -> Z) (addr : Z) (log : list Z) : list Z * Z := (log ++ [addr], mem addr).

Definition answer (r : option (result Fault Z)) : option Z :=
  match r with Some (Ok pa) => Some pa | _ => None end.

Lemma satp_of_root root : in_u 22 root ->
  Z.land (Pte.satp root) SATP_PPN = root /\ (Z.land (Pte.satp root) SATP_MODE =? 0) = false.
Proof. intros [Hs Hr]%satp_view. rewrite satp_root, satp_mode, Hs. auto. Qed.

(** The kernel's user-copy walk agrees with the CPU.  For every page table and every
    32-bit address, [translate] reads the same PTE addresses in the same order as the CPU's
    [sv32_translate] of a U-mode load with [SUM = MXR = 0] under the process's [satp], gives
    the same physical address when the CPU translates, and [-EFAULT] exactly when the CPU
    faults; so [write] never outputs a byte the caller could not itself load. *)
Theorem user_walk_agrees (root va : Z) (mem : Z -> Z) :
  in_u 22 root -> in_u 32 va -> (forall a, in_u 32 (mem a)) ->
  let cpu := sv32_translate (logged (fun a => Some (mem a))) 2 (Pte.satp root) User false false Access_Load va [] in
  translate (log_read mem) root va [] = (fst cpu, answer (snd cpu)).
Proof.
  intros Hr Hv Hmem. unfold sv32_translate. destruct (satp_of_root root Hr) as [-> ->].
  change (bool_decide (User = Machine) || false) with false. cbv iota zeta. fold user_load.
  unfold translate. cbn [translate_levels walk_loop]. unfold log_read at 1, logged at 1 3.
  rewrite user_pte_address_agrees by auto. rewrite <- walk_step_agrees by auto.
  destruct (walk_step _ 1 va) as [next| |]; cbn [as_step]; [|reflexivity..].
  cbn [translate_levels]. unfold log_read, logged.
  change (1 - 1) with 0. rewrite user_pte_address_agrees by auto. rewrite <- walk_step_agrees by auto.
  destruct (walk_step _ 0 va) as [next'| |] eqn:E; cbn [as_step]; reflexivity.
Qed.

(** * Write buffers *)

Lemma chunk_step b at_ :
  let addr := bf_buf b + at_ in
  let end_ := bf_buf b + bf_n b in
  Z.min (Z.min end_ ((addr / PAGE + 1) * PAGE)) (addr + MAX_ACCESS) = addr + snd (Buffer.chunk b at_).
Proof. cbn. unfold PAGE, MAX_ACCESS. Z.div_mod_to_equations. lia. Qed.

Lemma chunk_starts fuel b done : forall at_ l,
  chunks_loop fuel (bf_buf b + at_) (bf_buf b + bf_n b) = Some l ->
  Buffer.is_chunk_start_loop fuel b done at_ = Some (existsb (fun c => fst c =? bf_buf b + done) l) /\
  Forall (fun c => Buffer.chunk b (fst c - bf_buf b) = c) l.
Proof.
  induction fuel as [|fuel IH]; intros at_ l; cbn [chunks_loop Buffer.is_chunk_start_loop];
    destruct (Z.leb_spec (bf_buf b + bf_n b) (bf_buf b + at_)), (Z.leb_spec (bf_n b) at_); try lia;
    try (intros [= <-]; split; [reflexivity | constructor]); [discriminate |].
  rewrite chunk_step. intros (rest & Er & [= <-])%bind_Some. rewrite <- Z.add_assoc in Er.
  destruct (IH _ _ Er) as [E Hall]. cbn [existsb fst].
  replace (bf_buf b + at_ =? bf_buf b + done) with (at_ =? done)
    by (destruct (Z.eqb_spec at_ done), (Z.eqb_spec (bf_buf b + at_) (bf_buf b + done)); lia).
  split; [destruct (at_ =? done); [reflexivity | exact E] |].
  constructor; [|exact Hall]. cbn [fst]. rewrite Z.add_simpl_l. unfold Buffer.chunk. f_equal. cbn [snd]. lia.
Qed.

(** A [write] buffer is output exactly.  A buffer [Buffer::new] accepts touches one or two
    pages, and its pieces are those of [chunks]: they cover [[buf, buf + n)] once, in order, in
    accesses of 1 to 16 bytes that cross no page; [chunk] gives the piece at each start, and
    [is_chunk_start], which always returns, accepts the starts of the pieces and nothing else. *)
Theorem write_buffer_chunks (sepc buf n : Z) (b : Buffer) (done : Z) :
  Buffer.new sepc buf n = Some b ->
  (Buffer.pages b = 1 \/ Buffer.pages b = 2) /\
  exists l, chunks buf n = Some l /\ contiguous buf (buf + n) l /\ Forall chunk_ok l /\
    (forall c, c ∈ l -> Buffer.chunk b (fst c - buf) = c) /\
    exists r, Buffer.is_chunk_start b done = Some r /\ (r = true <-> exists c, c ∈ l /\ fst c = buf + done).
Proof.
  unfold Buffer.new. destruct (_ && _) eqn:E; [|discriminate]. intros [= <-]. unbool. unfold WRITE_MAX in *. split.
  { unfold Buffer.pages. cbn. unfold PAGE. Z.div_mod_to_equations. lia. }
  destruct (chunks_spec buf n ltac:(lia)) as (l & El & Hc & Hk). exists l. do 3 (split; [assumption |]).
  pose proof (chunk_starts (Z.to_nat n) (mkBuffer sepc buf n) done 0 l) as Hs. cbn [bf_buf bf_n] in Hs.
  rewrite Z.add_0_r in Hs. destruct (Hs El) as [Er Hall]. split; [rewrite Forall_forall in Hall; exact Hall |].
  eexists. split; [exact Er |]. rewrite existsb_exists.
  split; intros (c & Hin & Hf); exists c; (split; [apply list_elem_of_In, Hin | apply Z.eqb_eq, Hf]).
Qed.

(** * Examples *)

Lemma user_walk_agrees_witness :
  translate (log_read (fun a => default 0 (example_tables a))) 1 0x123 [] = ([0x1000; 0x2000], Some 0x3123).
Proof.
  pose proof (user_walk_agrees 1 0x123 (fun a => default 0 (example_tables a))) as H.
  assert (Hm : forall a, in_u 32 (default 0 (example_tables a))).
  { intros a. destruct (example_tables a) eqn:E; [exact (example_tables_ok a _ E) | const_range]. }
  specialize (H ltac:(const_range) ltac:(const_range) Hm). rewrite H. vm_compute. reflexivity.
Defined.

Lemma write_buffer_chunks_witness :
  exists b, Buffer.new 0 0x10ff8 24 = Some b /\ Buffer.is_chunk_start b 8 = Some true /\
    (Buffer.pages b = 1 \/ Buffer.pages b = 2).
Proof.
  eexists. split; [reflexivity |]. split; [reflexivity |].
  exact (proj1 (write_buffer_chunks 0 0x10ff8 24 _ 8 ltac:(reflexivity))).
Defined.
