(* ===== verification/OsProcess.v ===== *)
(** The process table, [components/os/src/process.rs]: PCBs, the run queue, the running PID
    and the frames they own.

    Proved: a context survives the trap frame; [Processes::check] accepts exactly the states
    of a declarative invariant; every state the kernel reaches by creating, scheduling,
    switching and ending processes satisfies it, and none of these transitions ever reports a
    violation there. *)
From stdpp Require Import base numbers list option strings sorting relations.
From Stdlib Require Import ZArith Lia.
From S2P Require Import Prelude Words Elf OsConfig OsFrames OsSpace OsSpaceProofs.

Local Open Scope string_scope.
Local Open Scope list_scope.
Local Open Scope Z_scope.

Inductive ProcState : Set :=
| Ready
| Running
| Exited (status : Z)
| Faulted (cause epc tval : Z).

#[export] Instance ProcState_eq_dec : EqDecision ProcState.
Proof. solve_decision. Defined.

Module ProcState.
Definition is_terminal (s : ProcState) : bool :=
  match s with Exited _ | Faulted _ _ _ => true | Ready | Running => false end.

Definition name (s : ProcState) : string :=
  match s with Ready => "ready" | Running => "running" | Exited _ => "exited" | Faulted _ _ _ => "faulted" end.
End ProcState.

(** [x1]-[x31], the [sepc] to resume at, and [sstatus]. *)
Record Context : Set := mkContext { cx_regs : list Z; cx_pc : Z; cx_sstatus : Z }.

Definition CONTEXT_BYTES : Z := 0x84.
Definition SP : nat := 1.

Module Context.
Definition initial (entry stack_top : Z) : Context :=
  mkContext (<[SP := stack_top]> (replicate 31 0)) entry 0.

Definition to_frame (c : Context) : list Z := (cx_regs c ++ [cx_pc c; cx_sstatus c]) ≫= to_le 4.

(** [frame[4 * i..4 * i + 4]]; [None] is the panic of a frame that is too short. *)
Definition word (frame : list Z) (i : nat) : option Z :=
  if (4 * i + 4 <=? length frame)%nat then Some (from_le (take 4 (drop (4 * i) frame))) else None.

Definition from_frame (frame : list Z) : option Context :=
  regs ← mapM (word frame) (seq 0 31);
  pc ← word frame 31;
  sstatus ← word frame 32;
  Some (mkContext regs pc sstatus).
End Context.

Record Pcb : Set := mkPcb {
  pid : Z;
  state : ProcState;
  context : option Context;
  pcb_root : Z;
  tables : list Z;
  pcb_regions : list Region;
}.

Module Pcb.
Definition new (pid : Z) (space : Space) (context : Context) : Pcb :=
  mkPcb pid Ready (Some context) (sp_root space) (sp_tables space) (sp_regions space).

Definition frames (p : Pcb) : list Z := tables p ++ (pcb_regions p ≫= rg_frames).
End Pcb.

Definition Violation : Set := string.

Record Processes : Set := mkProcesses {
  pcbs : list Pcb;
  queue : list Z;
  current : option Z;
  pool : Frames;
}.

Definition set_pcbs (l : list Pcb) (s : Processes) : Processes := mkProcesses l (queue s) (current s) (pool s).
Definition set_queue (q : list Z) (s : Processes) : Processes := mkProcesses (pcbs s) q (current s) (pool s).
Definition set_current (c : option Z) (s : Processes) : Processes := mkProcesses (pcbs s) (queue s) c (pool s).
Definition set_pool (f : Frames) (s : Processes) : Processes := mkProcesses (pcbs s) (queue s) (current s) f.

(** [.find(|p| p.pid == pid)]. *)
Definition find_pcb (l : list Pcb) (i : Z) : option Pcb := find (fun p => pid p =? i) l.

(** A change through [pcb_mut]. *)
Fixpoint update_pcb (i : Z) (g : Pcb -> Pcb) (l : list Pcb) : list Pcb :=
  match l with
  | [] => []
  | p :: l => if pid p =? i then g p :: l else p :: update_pcb i g l
  end.

Module Processes.
Definition new (frames : Frames) : Processes := mkProcesses [] [] None frames.

Definition pcb (s : Processes) (i : Z) : option Pcb := find_pcb (pcbs s) i.

Definition admit_process (p : Pcb) : ST Processes Violation unit := fun s =>
  if match last (pcbs s) with Some q => pid p <=? pid q | None => false end
  then (s, Err "admitted PID is not above every PID")
  else if negb (bool_decide (state p = Ready)) || negb (bool_decide (is_Some (context p)))
  then (s, Err "admitted process is not Ready with a context")
  else if negb (bool_decide (sort_by Z.leb (Pcb.frames p) = Frames.owned_by (pool s) (pid p)))
  then (s, Err "admitted process's frames are not reserved for it")
  else (set_pcbs (pcbs s ++ [p]) (set_queue (queue s ++ [pid p]) s), Ok tt).

Definition to_ready (c : Context) (p : Pcb) : Pcb :=
  mkPcb (pid p) Ready (Some c) (pcb_root p) (tables p) (pcb_regions p).

Definition yield_current (c : Context) : ST Processes Violation Z := fun s =>
  match current s with
  | None => (s, Err "yield with no running process")
  | Some i =>
      match pcb s i with
      | None => (s, Err "running PID has no PCB")
      | Some _ =>
          (mkProcesses (update_pcb i (to_ready c) (pcbs s)) (queue s ++ [i]) None (pool s), Ok i)
      end
  end.

Definition to_ended (st : ProcState) (p : Pcb) : Pcb := mkPcb (pid p) st None (pcb_root p) [] [].

Definition end_current (st : ProcState) : ST Processes Violation Z := fun s =>
  if negb (ProcState.is_terminal st) then (s, Err "a process can only end in a terminal state")
  else
    match current s with
    | None => (s, Err "no running process to end")
    | Some i =>
        match pcb s i with
        | None => (s, Err "running PID has no PCB")
        | Some p =>
            let s := set_pcbs (update_pcb i (to_ended st) (pcbs s)) s in
            match Frames.release i (Pcb.frames p) (pool s) with
            | (f, Err _) => (set_pool f s, Err "a process frame is not owned by it")
            | (f, Ok _) => (set_current None (set_pool f s), Ok i)
            end
        end
    end.

Definition take_context (p : Pcb) : Pcb :=
  mkPcb (pid p) (state p) None (pcb_root p) (tables p) (pcb_regions p).
Definition to_running (p : Pcb) : Pcb :=
  mkPcb (pid p) Running (context p) (pcb_root p) (tables p) (pcb_regions p).

Definition schedule_next : ST Processes Violation (option (Z * Context)) := fun s =>
  match current s with
  | Some _ => (s, Err "scheduling while a process runs")
  | None =>
      match queue s with
      | [] => (s, Ok None)
      | i :: q =>
          let s := set_queue q s in
          match pcb s i with
          | None => (s, Err "queued PID has no PCB")
          | Some p =>
              let s := set_pcbs (update_pcb i take_context (pcbs s)) s in
              match context p with
              | None => (s, Err "queued process has no context")
              | Some c =>
                  if negb (bool_decide (state p = Ready)) then (s, Err "queued process is not Ready")
                  else (set_current (Some i) (set_pcbs (update_pcb i to_running (pcbs s)) s), Ok (Some (i, c)))
              end
          end
      end
  end.

(** The loop over the PCBs, with the last PID. *)
Fixpoint check_pcbs (images last : Z) (l : list Pcb) : result Violation unit :=
  match l with
  | [] => Ok tt
  | p :: l =>
      if (pid p <=? last) || (images <? pid p) then Err "PIDs not ascending, or outside 1..=images"
      else if negb (eqb (bool_decide (state p = Ready)) (bool_decide (is_Some (context p))))
      then Err "a context on a process that is not Ready, or none on a Ready one"
      else if negb (eqb (ProcState.is_terminal (state p)) (bool_decide (tables p = [])))
              || negb (eqb (ProcState.is_terminal (state p)) (bool_decide (pcb_regions p = [])))
      then Err "a terminal process with frames, or a live one without tables"
      else if negb (ProcState.is_terminal (state p)) && negb (bool_decide (head (tables p) = Some (pcb_root p)))
      then Err "a live process whose root is not its first table"
      else check_pcbs images (pid p) l
  end.

(** The loop over the queue, with the PIDs seen. *)
Fixpoint check_queue (s : Processes) (seen q : list Z) : result Violation unit :=
  match q with
  | [] => Ok tt
  | i :: q =>
      if mem_Z i seen then Err "a PID queued twice"
      else if negb (bool_decide (state <$> pcb s i = Some Ready)) then Err "a queue entry that is not a Ready process"
      else check_queue s (seen ++ [i]) q
  end.

(** The loop over the owners' frames, on the [expected] owners. *)
Fixpoint claim_frames (base : Z) (l : list (Z * Z)) (expected : list Z) : result Violation (list Z) :=
  match l with
  | [] => Ok expected
  | (i, ppn) :: l =>
      match k ← checked_sub ppn base; o ← expected !! Z.to_nat k; Some (Z.to_nat k, o) with
      | Some (k, o) => if o =? 0 then claim_frames base l (<[k := i]> expected) else Err "a frame owned twice"
      | None => Err "a process frame outside the pool"
      end
  end.

Definition owners_of (s : Processes) (creating : option (Z * list Z)) : list (Z * list Z) :=
  ((fun p => (pid p, Pcb.frames p)) <$> pcbs s) ++ match creating with Some c => [c] | None => [] end.

Definition owned (s : Processes) (creating : option (Z * list Z)) : list (Z * Z) :=
  owners_of s creating ≫= fun '(i, fs) => (fun f => (i, f)) <$> fs.

Definition check (s : Processes) (images : Z) (creating : option (Z * list Z)) : result Violation unit :=
  _ ← check_pcbs images 0 (pcbs s);
  let running := pid <$> filter (fun p => state p = Running) (pcbs s) in
  if (1 <? length running)%nat then Err "two Running processes"
  else if negb (bool_decide (head running = current s)) then Err "the current PID is not the Running process"
  else
    _ ← check_queue s [] (queue s);
    if existsb (fun p => bool_decide (state p = Ready) && negb (mem_Z (pid p) (queue s))) (pcbs s)
    then Err "a Ready process missing from the queue"
    else if match creating with
            | Some (i, _) => (i =? 0) || bool_decide (is_Some (pcb s i)) || (images <? i)
            | None => false
            end
    then Err "the creation in flight has a used or invalid PID"
    else
      expected ← claim_frames (base (pool s)) (owned s creating)
                   (replicate (Frames.count (pool s)) 0);
      if forallb (fun '(k, o) => bool_decide (Frames.owner (pool s) (base (pool s) + Z.of_nat k) = Some o))
           (imap pair expected)
      then Ok tt else Err "an allocated frame no live process owns, or the reverse".
End Processes.

Definition perms_from_bits (bits : Z) : option Perms :=
  if Z.land bits (Z.lxor 0xFF 14) =? 0
  then Some (mkPerms (has_bit bits 2) (has_bit bits 4) (has_bit bits 8)) else None.

(** * Contexts *)

Definition context_ok (c : Context) : Prop :=
  length (cx_regs c) = 31%nat /\ Forall (in_u 32) (cx_regs c) /\ in_u 32 (cx_pc c) /\ in_u 32 (cx_sstatus c).

Lemma word_words (l : list Z) i w : in_u 32 w -> l !! i = Some w -> Context.word (l ≫= to_le 4) i = Some w.
Proof.
  intros Hw Hi. unfold Context.word. rewrite length_words. pose proof (lookup_lt_Some _ _ _ Hi).
  destruct (Nat.leb_spec (4 * i + 4) (4 * length l)); [|lia]. fold (slice (l ≫= to_le 4) i).
  rewrite (slice_words _ _ _ Hi), from_to_le_id by exact Hw. reflexivity.
Qed.

Lemma word_slice frame i w :
  bytes_ok frame -> Context.word frame i = Some w -> to_le 4 w = slice frame i.
Proof.
  intros Hf. unfold Context.word. destruct (Nat.leb_spec (4 * i + 4) (length frame)); [|discriminate]. intros [= <-].
  fold (slice frame i). assert (Hl : length (slice frame i) = 4%nat) by (unfold slice; rewrite length_take, length_drop; lia).
  rewrite <- Hl at 1. apply to_from_le. apply Forall_take, Forall_drop, Hf.
Qed.

Lemma words_slices frame js ws :
  bytes_ok frame -> mapM (Context.word frame) js = Some ws -> ws ≫= to_le 4 = js ≫= slice frame.
Proof.
  intros Hf H%mapM_Some. induction H as [|i w js ws Hw _ IH]; [reflexivity |].
  rewrite !bind_cons, IH, (word_slice frame i w Hf Hw). reflexivity.
Qed.

Lemma word_app frame rest i w : Context.word frame i = Some w -> Context.word (frame ++ rest) i = Some w.
Proof.
  unfold Context.word. rewrite length_app. destruct (Nat.leb_spec (4 * i + 4) (length frame)); [|discriminate].
  intros [= <-]. destruct (Nat.leb_spec (4 * i + 4) (length frame + length rest)); [|lia]. do 2 f_equal.
  rewrite drop_app_le, take_app_le by (rewrite ?length_drop; lia). reflexivity.
Qed.

Lemma from_frame_app frame rest c :
  Context.from_frame frame = Some c -> Context.from_frame (frame ++ rest) = Some c.
Proof.
  unfold Context.from_frame. intros (regs & Hr & (pc & Hp & (st & Hs & [= <-])%bind_Some)%bind_Some)%bind_Some.
  assert (Hr' : mapM (Context.word (frame ++ rest)) (seq 0 31) = Some regs).
  { apply mapM_Some. apply mapM_Some in Hr. eapply Forall2_impl; [exact Hr |]. intros. apply word_app. assumption. }
  rewrite Hr'. cbn [mbind option_bind]. rewrite (word_app _ _ _ _ Hp), (word_app _ _ _ _ Hs). reflexivity.
Qed.

Lemma from_to_frame c : context_ok c -> Context.from_frame (Context.to_frame c) = Some c.
Proof.
  intros (Hl & Hr & Hp & Hs). unfold Context.from_frame, Context.to_frame. set (ws := cx_regs c ++ _).
  assert (Hw : forall i w, ws !! i = Some w -> in_u 32 w).
  { intros i w Hi. assert (Hall : Forall (in_u 32) ws) by (apply Forall_app; auto). exact (Forall_lookup_1 _ _ _ _ Hall Hi). }
  assert (Hm : mapM (Context.word (ws ≫= to_le 4)) (seq 0 31) = Some (cx_regs c)).
  { apply mapM_Some, Forall2_same_length_lookup. rewrite length_seq. split; [auto |]. intros i j w [-> _]%lookup_seq Hj.
    cbn in Hj |- *. assert (Hi : ws !! i = Some w) by (apply lookup_app_l_Some, Hj).
    apply word_words; eauto. }
  assert (Hpc : ws !! 31%nat = Some (cx_pc c)) by (unfold ws; rewrite lookup_app_r, Hl by lia; reflexivity).
  assert (Hst : ws !! 32%nat = Some (cx_sstatus c)) by (unfold ws; rewrite lookup_app_r, Hl by lia; reflexivity).
  rewrite Hm. cbn [mbind option_bind]. rewrite (word_words ws 31 _ Hp Hpc), (word_words ws 32 _ Hs Hst).
  destruct c. reflexivity.
Qed.

Lemma to_from_frame frame :
  bytes_ok frame -> Z.of_nat (length frame) = CONTEXT_BYTES ->
  exists c, Context.from_frame frame = Some c /\ Context.to_frame c = frame.
Proof.
  intros Hf Hl. change CONTEXT_BYTES with 132 in Hl.
  assert (Hw : forall i, (i < 33)%nat -> is_Some (Context.word frame i)).
  { intros i Hi. unfold Context.word. destruct (Nat.leb_spec (4 * i + 4) (length frame)); [eauto | lia]. }
  assert (Hm : is_Some (mapM (Context.word frame) (seq 0 31))).
  { apply mapM_is_Some, Forall_forall. intros i Hi%elem_of_seq. apply Hw. lia. }
  destruct Hm as [regs Hr], (Hw 31%nat ltac:(lia)) as [pc Hp], (Hw 32%nat ltac:(lia)) as [st Hs].
  exists (mkContext regs pc st). unfold Context.from_frame. rewrite Hr. cbn [mbind option_bind]. rewrite Hp, Hs.
  split; [reflexivity |]. unfold Context.to_frame. cbn [cx_regs cx_pc cx_sstatus]. rewrite bind_app.
  rewrite (words_slices _ _ _ Hf Hr), slices_all. cbn [mbind list_bind]. rewrite app_nil_r.
  rewrite (word_slice frame 31 pc Hf Hp), (word_slice frame 32 st Hf Hs). unfold slice. rewrite drop_0.
  replace (4 * 32)%nat with (4 * 31 + 4)%nat by lia. rewrite <- (drop_drop frame 4 (4 * 31)), take_take_drop.
  rewrite take_ge with (l := drop _ _) by (rewrite length_drop; lia). apply take_drop.
Qed.

(** A context survives the trap frame: written with [to_frame] and read back with
    [from_frame] it is the same 31 registers, [pc] and [sstatus], and the first [0x84] bytes of
    any trap frame, read as a context and written back, are the same bytes. *)
Theorem context_round_trip (c : Context) (frame rest : list Z) :
  context_ok c -> bytes_ok frame -> Z.of_nat (length frame) = CONTEXT_BYTES ->
  Context.from_frame (Context.to_frame c ++ rest) = Some c /\
  exists c', Context.from_frame (frame ++ rest) = Some c' /\ Context.to_frame c' = frame.
Proof.
  intros Hc Hf Hl. split; [apply from_frame_app, from_to_frame, Hc |].
  destruct (to_from_frame frame Hf Hl) as (c' & E & Hto). exists c'. split; [apply from_frame_app, E | exact Hto].
Qed.

(** * The invariant *)

Definition pcb_ok (p : Pcb) : Prop :=
  (state p = Ready <-> is_Some (context p)) /\
  (ProcState.is_terminal (state p) = true <-> tables p = []) /\
  (ProcState.is_terminal (state p) = true <-> pcb_regions p = []) /\
  (ProcState.is_terminal (state p) = false -> head (tables p) = Some (pcb_root p)).

(** What the module promises of the table, with the creation in flight. *)
Record proc_inv (s : Processes) (images : Z) (creating : option (Z * list Z)) : Prop := {
  pi_sorted : StronglySorted Z.lt (pid <$> pcbs s);
  pi_range : Forall (fun p => 1 <= pid p <= images) (pcbs s);
  pi_pcbs : Forall pcb_ok (pcbs s);
  pi_current : forall i, current s = Some i <-> exists p, p ∈ pcbs s /\ pid p = i /\ state p = Running;
  pi_queue_nodup : NoDup (queue s);
  pi_queue : forall i, i ∈ queue s <-> exists p, p ∈ pcbs s /\ pid p = i /\ state p = Ready;
  pi_creating : match creating with Some (i, _) => 1 <= i <= images /\ i ∉ pid <$> pcbs s | None => True end;
  pi_nodup : NoDup (snd <$> Processes.owned s creating);
  pi_owned : forall i ppn, i <> 0 -> Frames.owner (pool s) ppn = Some i <-> (i, ppn) ∈ Processes.owned s creating;
}.

Lemma sorted_nodup (l : list Z) : StronglySorted Z.lt l -> NoDup l.
Proof.
  induction 1 as [|x l Hl IH Hx]; constructor; [|exact IH]. intros Hin.
  rewrite Forall_forall in Hx. specialize (Hx x Hin). lia.
Qed.

Lemma eqb_iff (a b : bool) (P Q : Prop) :
  (a = true <-> P) -> (b = true <-> Q) -> (eqb a b = true <-> (P <-> Q)).
Proof. destruct a, b; cbn; intuition congruence. Qed.

Lemma pcb_ok_spec p :
  eqb (bool_decide (state p = Ready)) (bool_decide (is_Some (context p))) = true /\
  eqb (ProcState.is_terminal (state p)) (bool_decide (tables p = [])) = true /\
  eqb (ProcState.is_terminal (state p)) (bool_decide (pcb_regions p = [])) = true /\
  (ProcState.is_terminal (state p) = true \/ head (tables p) = Some (pcb_root p)) <-> pcb_ok p.
Proof.
  unfold pcb_ok. rewrite !(eqb_iff _ _ _ _ (bool_decide_eq_true _) (bool_decide_eq_true _)).
  rewrite !(eqb_iff _ _ (ProcState.is_terminal (state p) = true) _ (reflexivity _) (bool_decide_eq_true _)).
  destruct (ProcState.is_terminal (state p)); intuition congruence.
Qed.

Lemma check_pcbs_spec images l : forall last,
  Processes.check_pcbs images last l = Ok tt <->
  StronglySorted Z.lt (pid <$> l) /\ Forall (fun p => last < pid p <= images) l /\ Forall pcb_ok l.
Proof.
  induction l as [|p l IH]; intros last; cbn [Processes.check_pcbs fmap list_fmap].
  { split; [intros _; split_and!; constructor | reflexivity]. }
  assert (Hsc : StronglySorted Z.lt (pid p :: (pid <$> l)) <-> StronglySorted Z.lt (pid <$> l) /\ Forall (Z.lt (pid p)) (pid <$> l)).
  { split; [apply StronglySorted_inv | intros [? ?]; constructor; assumption]. }
  rewrite !Forall_cons, <- pcb_ok_spec, Hsc, Forall_fmap. specialize (IH (pid p)).
  destruct (Z.leb_spec (pid p) last); cbn [orb]; [split; [discriminate | lia] |].
  destruct (Z.ltb_spec images (pid p)); cbn [orb]; [split; [discriminate | lia] |].
  destruct (eqb (bool_decide (state p = Ready)) _); cbn [negb]; [|split; [discriminate | intuition discriminate]].
  destruct (eqb _ (bool_decide (tables p = []))); cbn [negb orb]; [|split; [discriminate | intuition discriminate]].
  destruct (eqb _ (bool_decide (pcb_regions p = []))); cbn [negb orb]; [|split; [discriminate | intuition discriminate]].
  destruct (ProcState.is_terminal (state p)) eqn:Et; cbn [negb andb].
  2: destruct (bool_decide_reflect (head (tables p) = Some (pcb_root p))); cbn [negb]; [|split; [discriminate | intuition discriminate]].
  all: rewrite IH; split; [intros (H1 & H2 & H3) | intros ((H1 & H1') & (_ & H2) & _ & H3)].
  1,3: split_and!; auto; try lia; try (eapply Forall_impl; [exact H2 |]; cbn; lia).
  all: split_and!; auto; apply Forall_forall; intros q Hq; rewrite Forall_forall in H1', H2; specialize (H1' q Hq); specialize (H2 q Hq); cbn in *; lia.
Qed.

Lemma find_pcb_spec l i p : NoDup (pid <$> l) -> find_pcb l i = Some p <-> p ∈ l /\ pid p = i.
Proof.
  intros Hnd. induction l as [|q l IH]; cbn; [split; [discriminate | intros [H _]; inversion H] |].
  apply NoDup_cons in Hnd as [Hq Hnd]. rewrite elem_of_cons. destruct (Z.eqb_spec (pid q) i) as [<-|Hne].
  - split; [intros [= ->]; auto |]. intros [[->|H] E]; [reflexivity |]. destruct Hq. rewrite <- E. apply list_elem_of_fmap_2, H.
  - fold (find_pcb l i). rewrite (IH Hnd). split; [tauto |]. intros [[->|H] E]; [contradiction | auto].
Qed.

Lemma pcb_unique l p q : NoDup (pid <$> l) -> p ∈ l -> q ∈ l -> pid p = pid q -> p = q.
Proof.
  intros Hnd Hp Hq E. apply (inj Some). rewrite <- (proj2 (find_pcb_spec l (pid p) p Hnd) (conj Hp eq_refl)).
  apply find_pcb_spec; auto.
Qed.

Lemma find_ready l i st : NoDup (pid <$> l) ->
  state <$> find_pcb l i = Some st <-> exists p, p ∈ l /\ pid p = i /\ state p = st.
Proof.
  intros Hnd. rewrite fmap_Some. split.
  - intros (p & Hp & ->). apply find_pcb_spec in Hp; [|exact Hnd]. exists p. tauto.
  - intros (p & Hp & Hi & <-). exists p. split; [apply find_pcb_spec; auto | reflexivity].
Qed.

Lemma check_queue_spec s q : forall seen,
  Processes.check_queue s seen q = Ok tt <->
  NoDup q /\ forall i, i ∈ q -> (i ∉ seen) /\ state <$> Processes.pcb s i = Some Ready.
Proof.
  induction q as [|i q IH]; intros seen; cbn [Processes.check_queue].
  { split; [intros _; split; [constructor | intros i H; inversion H] | reflexivity]. }
  destruct (mem_Z i seen) eqn:Em.
  { apply mem_Z_spec in Em. split; [discriminate |]. intros [_ H]. destruct (H i) as [? _]; [left | contradiction]. }
  assert (Hi : i ∉ seen) by (intros H; apply mem_Z_spec in H; congruence).
  destruct (bool_decide_reflect (state <$> Processes.pcb s i = Some Ready)) as [Hr|Hr]; cbn [negb].
  2:{ split; [discriminate |]. intros [_ H]. destruct (H i) as [_ ?]; [left | contradiction]. }
  rewrite IH, NoDup_cons. split.
  - intros [Hnd H]. split_and!; [intros Hq; destruct (H i Hq) as [Hn _]; apply Hn, elem_of_app; right; left | exact Hnd |].
    intros j [->|Hj]%elem_of_cons; [auto |]. destruct (H j Hj) as [Hn ?]. rewrite elem_of_app in Hn. tauto.
  - intros [[Hq Hnd] H]. split; [exact Hnd |]. intros j Hj. destruct (H j) as [Hn ?]; [right; exact Hj |].
    split; [|assumption]. rewrite elem_of_app, list_elem_of_singleton. intros [?| ->]; contradiction.
Qed.

(** The running PIDs and the current one. *)
Lemma running_spec l cur :
  NoDup (pid <$> l) ->
  (length (pid <$> filter (fun p => state p = Running) l) <= 1)%nat /\ head (pid <$> filter (fun p => state p = Running) l) = cur <->
  forall i, cur = Some i <-> exists p, p ∈ l /\ pid p = i /\ state p = Running.
Proof.
  intros Hnd. set (r := pid <$> filter _ l).
  assert (Hr : forall i, i ∈ r <-> exists p, p ∈ l /\ pid p = i /\ state p = Running).
  { intros i. unfold r. rewrite list_elem_of_fmap. split.
    - intros (p & -> & [Hp Hs]%list_elem_of_filter). eauto.
    - intros (p & Hp & <- & Hs). exists p. split; [reflexivity | apply list_elem_of_filter; auto]. }
  assert (Hrnd : NoDup r).
  { unfold r. clear Hr r. induction l as [|p l IH]; [constructor |]. apply NoDup_cons in Hnd as [Hp Hnd].
    rewrite filter_cons. case_decide; [|auto]. cbn. constructor; [|auto]. intros (q & E & Hq)%list_elem_of_fmap.
    apply list_elem_of_filter in Hq as [_ Hq]. apply Hp. rewrite E. apply list_elem_of_fmap_2, Hq. }
  setoid_rewrite <- Hr. destruct r as [|a [|b r]]; cbn.
  - split; [intros [_ <-] i; split; [discriminate | intros H; inversion H] |].
    intros H. split; [lia |]. destruct cur as [i|]; [|reflexivity]. pose proof (proj1 (H i) eq_refl) as Hn. inversion Hn.
  - split; [intros [_ <-] i; rewrite list_elem_of_singleton; split; congruence |].
    intros H. split; [lia |]. symmetry. apply H. left.
  - split; [lia |]. intros H. exfalso. apply NoDup_cons in Hrnd as [Ha _]. apply Ha.
    assert (Ea : cur = Some a) by (apply H; left). assert (Eb : cur = Some b) by (apply H; right; left).
    replace a with b by congruence. left.
Qed.

(** Claiming succeeds when every frame is in the pool, free and claimed once. *)
Lemma claim_frames_ok base l : forall e,
  Forall (fun c => fst c <> 0) l ->
  (exists e', Processes.claim_frames base l e = Ok e') <->
  NoDup (snd <$> l) /\ forall i ppn, (i, ppn) ∈ l -> base <= ppn /\ e !! Z.to_nat (ppn - base) = Some 0.
Proof.
  induction l as [|[i ppn] l IH]; intros e Hz; cbn [Processes.claim_frames].
  { split; [intros _; split; [constructor | intros ? ? H; inversion H] | eauto]. }
  apply Forall_cons in Hz as [Hi Hz]. cbn in Hi. unfold checked_sub. destruct (Z.leb_spec base ppn) as [Hle|Hlt].
  2:{ split; [intros [? [=]] |]. intros [_ H]. destruct (H i ppn); [left | lia]. }
  cbn [mbind option_bind]. set (k := Z.to_nat (ppn - base)). destruct (e !! k) as [o|] eqn:Ek; cbn.
  2:{ split; [intros [? [=]] |]. intros [_ H]. destruct (H i ppn) as [_ H']; [left |]. fold k in H'. congruence. }
  destruct (Z.eqb_spec o 0) as [->|Ho].
  2:{ split; [intros [? [=]] |]. intros [_ H]. destruct (H i ppn) as [_ H']; [left |]. fold k in H'. congruence. }
  rewrite (IH _ Hz), NoDup_cons. split.
  - intros [Hnd H]. assert (Hne : forall j q, (j, q) ∈ l -> q <> ppn).
    { intros j q Hq ->. destruct (H j ppn Hq) as [_ H']. fold k in H'. rewrite list_lookup_insert_eq in H' by (eapply lookup_lt_Some, Ek). congruence. }
    split_and!; [intros ([j q] & E & Hq)%list_elem_of_fmap; cbn in E; exact (Hne j q Hq (eq_sym E)) | exact Hnd |].
    intros j q [[= -> ->]|Hq]%elem_of_cons; [auto |]. destruct (H j q Hq) as [Hb H']. split; [exact Hb |].
    rewrite list_lookup_insert_ne in H'; [exact H' |]. pose proof (Hne j q Hq). unfold k. lia.
  - intros [[Hp Hnd] H]. split; [exact Hnd |]. intros j q Hq. destruct (H j q) as [Hb H']; [right; exact Hq |].
    split; [exact Hb |]. rewrite list_lookup_insert_ne; [exact H' |].
    assert (q <> ppn) by (intros ->; apply Hp, list_elem_of_fmap; exists (j, ppn); auto). unfold k. lia.
Qed.

(** What claiming leaves: the claims, and the rest as it was. *)
Lemma claim_frames_result base l : forall e e',
  NoDup (snd <$> l) -> Processes.claim_frames base l e = Ok e' ->
  length e' = length e /\
  (forall i ppn, (i, ppn) ∈ l -> base <= ppn /\ e' !! Z.to_nat (ppn - base) = Some i) /\
  (forall k, base + Z.of_nat k ∉ snd <$> l -> e' !! k = e !! k).
Proof.
  induction l as [|[i ppn] l IH]; intros e e' Hnd E; cbn [Processes.claim_frames] in E.
  { injection E as <-. split_and!; [reflexivity | intros ? ? H; inversion H | reflexivity]. }
  apply NoDup_cons in Hnd as [Hp Hnd]. unfold checked_sub in E. destruct (Z.leb_spec base ppn) as [Hle|]; [|discriminate].
  cbn [mbind option_bind] in E. set (k := Z.to_nat (ppn - base)) in *. destruct (e !! k) as [o|] eqn:Ek; [|discriminate].
  cbn in E. destruct (o =? 0); [|discriminate]. destruct (IH _ _ Hnd E) as (Hl & Hc & Hr). rewrite length_insert in Hl.
  assert (Hpk : base + Z.of_nat k = ppn) by (unfold k; lia). split_and!; [exact Hl | |].
  - intros j q [[= -> ->]|Hq]%elem_of_cons; [|auto]. split; [exact Hle |]. fold k.
    rewrite (Hr k) by (rewrite Hpk; exact Hp). apply list_lookup_insert_eq. eapply lookup_lt_Some, Ek.
  - intros k' Hk'. cbn in Hk'. rewrite not_elem_of_cons in Hk'. destruct Hk' as [Hne Hk'].
    rewrite (Hr k' Hk'). apply list_lookup_insert_ne. intros <-. lia.
Qed.

(** The last comparison of [check]: the expected owners are the pool's. *)
Lemma forallb_owners (f : Frames) e :
  forallb (fun '(k, o) => bool_decide (Frames.owner f (base f + Z.of_nat k) = Some o)) (imap pair e) = true <->
  forall k o, e !! k = Some o -> Frames.owner f (base f + Z.of_nat k) = Some o.
Proof.
  rewrite forallb_forall. split.
  - intros H k o Hk. specialize (H (k, o)). cbn in H. rewrite bool_decide_eq_true in H. apply H.
    apply list_elem_of_In, elem_of_lookup_imap. eauto.
  - intros H [k o] Hin. apply list_elem_of_In, elem_of_lookup_imap in Hin as (k' & o' & [= -> ->] & Hk).
    apply bool_decide_eq_true, H, Hk.
Qed.

Lemma claims_spec (f : Frames) (l : list (Z * Z)) :
  Forall (fun c => fst c <> 0) l ->
  (exists e, Processes.claim_frames (base f) l (replicate (Frames.count f) 0) = Ok e /\
     forall k o, e !! k = Some o -> Frames.owner f (base f + Z.of_nat k) = Some o) <->
  NoDup (snd <$> l) /\ forall i ppn, i <> 0 -> Frames.owner f ppn = Some i <-> (i, ppn) ∈ l.
Proof.
  intros Hz. pose proof (claim_frames_ok (base f) l (replicate (Frames.count f) 0) Hz) as Hok. split.
  - intros (e & E & He). destruct (proj1 Hok (ex_intro _ e E)) as [Hnd Hin]. split; [exact Hnd |].
    destruct (claim_frames_result _ _ _ _ Hnd E) as (Hlen & Hc & Hr). rewrite length_replicate in Hlen.
    intros i ppn Hi. split.
    + intros Ho. apply owner_spec in Ho as (k & -> & Hk).
      assert (Hlt : (k < length e)%nat) by (rewrite Hlen; eapply lookup_lt_Some, Hk).
      apply lookup_lt_is_Some in Hlt as [o Hek]. pose proof (He k o Hek) as Ho.
      assert (Hio : o = i) by (apply owner_spec in Ho as (k' & E' & Hk'); replace k' with k in Hk' by lia; congruence). subst o.
      destruct (decide (base f + Z.of_nat k ∈ snd <$> l)) as [Hl|Hl].
      * apply list_elem_of_fmap in Hl as ([j q] & Eq & Hj). cbn in Eq. subst q. destruct (Hc j _ Hj) as [_ Hj'].
        replace (Z.to_nat (base f + Z.of_nat k - base f)) with k in Hj' by lia. replace i with j by congruence. exact Hj.
      * rewrite (Hr k Hl) in Hek. apply lookup_replicate in Hek as [-> _]. contradiction.
    + intros Hl. destruct (Hc i ppn Hl) as [Hb Hk]. rewrite <- (He _ _ Hk). f_equal. lia.
  - intros [Hnd Hown]. rewrite Forall_forall in Hz.
    assert (Hex : exists e, Processes.claim_frames (base f) l (replicate (Frames.count f) 0) = Ok e).
    { apply Hok. split; [exact Hnd |]. intros i ppn Hin. pose proof (Hz _ Hin) as Hi. cbn in Hi.
      apply Hown in Hin as (k & -> & Hk)%owner_spec; [|exact Hi]. split; [lia |].
      replace (Z.to_nat (base f + Z.of_nat k - base f)) with k by lia. apply lookup_replicate. split; [reflexivity |].
      eapply lookup_lt_Some, Hk. }
    destruct Hex as [e E]. exists e. split; [exact E |]. destruct (claim_frames_result _ _ _ _ Hnd E) as (Hlen & Hc & Hr).
    rewrite length_replicate in Hlen. intros k o Hk. destruct (decide (base f + Z.of_nat k ∈ snd <$> l)) as [Hl|Hl].
    + apply list_elem_of_fmap in Hl as ([j q] & Eq & Hj). cbn in Eq. subst q. destruct (Hc j _ Hj) as [_ Hj'].
      replace (Z.to_nat (base f + Z.of_nat k - base f)) with k in Hj' by lia. replace o with j by congruence.
      apply Hown; [exact (Hz _ Hj) | exact Hj].
    + rewrite (Hr k Hl) in Hk. apply lookup_replicate in Hk as [-> Hk]. apply lookup_lt_is_Some in Hk as [o Ho].
      destruct (decide (o = 0)) as [->|Hne]; [apply owner_spec; eauto |]. destruct Hl.
      assert (Ho' : Frames.owner f (base f + Z.of_nat k) = Some o) by (apply owner_spec; eauto).
      apply Hown in Ho'; [|exact Hne]. apply list_elem_of_fmap. exists (o, base f + Z.of_nat k). auto.
Qed.

Lemma elem_of_claims s creating i ppn :
  (i, ppn) ∈ Processes.owned s creating <->
  (exists p, p ∈ pcbs s /\ pid p = i /\ ppn ∈ Pcb.frames p) \/
  (exists fs, creating = Some (i, fs) /\ ppn ∈ fs).
Proof.
  unfold Processes.owned, Processes.owners_of. rewrite list_elem_of_bind. split.
  - intros ([j fs] & Hin & Hj). apply list_elem_of_fmap in Hin as (q & [= -> ->] & Hq). apply elem_of_app in Hj as [Hj|Hc].
    + apply list_elem_of_fmap in Hj as (p & [= -> ->] & Hp). left. eauto.
    + right. destruct creating as [c|]; [|inversion Hc]. apply list_elem_of_singleton in Hc as <-. eauto.
  - intros [(p & Hp & <- & Hq)|(fs & -> & Hq)].
    + exists (pid p, Pcb.frames p). split; [apply list_elem_of_fmap; eauto |].
      apply elem_of_app. left. apply list_elem_of_fmap. eauto.
    + exists (i, fs). split; [apply list_elem_of_fmap; eauto |]. apply elem_of_app. right. apply list_elem_of_singleton. reflexivity.
Qed.

Lemma ready_queued l q :
  existsb (fun p => bool_decide (state p = Ready) && negb (mem_Z (pid p) q)) l = false <->
  forall p, p ∈ l -> state p = Ready -> pid p ∈ q.
Proof.
  rewrite <- not_true_iff_false, existsb_exists. split.
  - intros H p Hp Hr. destruct (mem_Z (pid p) q) eqn:Em; [apply mem_Z_spec, Em |]. destruct H. exists p.
    rewrite bool_decide_eq_true_2, Em by exact Hr. split; [apply list_elem_of_In, Hp | reflexivity].
  - intros H (p & Hp & [Hr%bool_decide_eq_true Hn]%andb_true_iff). apply list_elem_of_In in Hp.
    specialize (H p Hp Hr). apply mem_Z_spec in H. rewrite H in Hn. discriminate.
Qed.

(** The queue and the [Ready] processes, the two checks together. *)
Lemma queue_spec s :
  NoDup (pid <$> pcbs s) ->
  Processes.check_queue s [] (queue s) = Ok tt /\
  existsb (fun p => bool_decide (state p = Ready) && negb (mem_Z (pid p) (queue s))) (pcbs s) = false <->
  NoDup (queue s) /\ forall i, i ∈ queue s <-> exists p, p ∈ pcbs s /\ pid p = i /\ state p = Ready.
Proof.
  intros Hnd. rewrite check_queue_spec, ready_queued. unfold Processes.pcb. split.
  - intros [[Hq H] Hr]. split; [exact Hq |]. intros i. split.
    + intros Hi. apply find_ready; [exact Hnd | apply H, Hi].
    + intros (p & Hp & <- & Hs). auto.
  - intros [Hq H]. split; [split; [exact Hq |] |].
    + intros i Hi. split; [apply not_elem_of_nil |]. apply find_ready; [exact Hnd | apply H, Hi].
    + intros p Hp Hs. apply H. eauto.
Qed.

Lemma creating_spec s images i :
  NoDup (pid <$> pcbs s) -> 0 <= i ->
  (i =? 0) || bool_decide (is_Some (Processes.pcb s i)) || (images <? i) = false <->
  1 <= i <= images /\ i ∉ pid <$> pcbs s.
Proof.
  intros Hnd Hi. rewrite !orb_false_iff, Z.eqb_neq, Z.ltb_ge, bool_decide_eq_false, <- eq_None_not_Some.
  assert (Hf : Processes.pcb s i = None <-> i ∉ pid <$> pcbs s); [|rewrite Hf; intuition lia].
  unfold Processes.pcb. rewrite eq_None_not_Some. split.
  - intros H (p & -> & Hp)%list_elem_of_fmap. apply H. exists p. apply find_pcb_spec; auto.
  - intros H [p Hp]. apply find_pcb_spec in Hp as [Hp <-]; [|exact Hnd]. apply H, list_elem_of_fmap_2, Hp.
Qed.

Lemma check_spec_inv s images creating :
  match creating with Some (i, _) => 0 <= i | None => True end ->
  Processes.check s images creating = Ok tt <-> proc_inv s images creating.
Proof.
  intros Hc0. unfold Processes.check.
  pose proof (check_pcbs_spec images (pcbs s) 0) as Hp.
  assert (Hsplit : proc_inv s images creating <->
    Processes.check_pcbs images 0 (pcbs s) = Ok tt /\
    (forall i, current s = Some i <-> exists p, p ∈ pcbs s /\ pid p = i /\ state p = Running) /\
    (NoDup (queue s) /\ forall i, i ∈ queue s <-> exists p, p ∈ pcbs s /\ pid p = i /\ state p = Ready) /\
    match creating with Some (i, _) => 1 <= i <= images /\ i ∉ pid <$> pcbs s | None => True end /\
    NoDup (snd <$> Processes.owned s creating) /\
    forall i ppn, i <> 0 -> Frames.owner (pool s) ppn = Some i <-> (i, ppn) ∈ Processes.owned s creating).
  { rewrite Hp. split.
    - intros [H1 H2 H3 H4 H5 H6 H7 H8 H9]. split_and!; auto. eapply Forall_impl; [exact H2 |]. cbn. lia.
    - intros ((H1 & H2 & H3) & H4 & (H5 & H6) & H7 & H8 & H9). split; auto. eapply Forall_impl; [exact H2 |]. cbn. lia. }
  rewrite Hsplit. clear Hsplit.
  destruct (Processes.check_pcbs images 0 (pcbs s)) as [[]|e]; cbn [mbind result_bind]; [|split; [discriminate | intros [[=] _]]].
  destruct (proj1 Hp eq_refl) as (Hsort & Hrange & Hpcb). clear Hp. pose proof (sorted_nodup _ Hsort) as Hnd.
  pose proof (running_spec (pcbs s) (current s) Hnd) as Hrun. set (r := pid <$> filter _ (pcbs s)) in *.
  destruct (Nat.ltb_spec 1 (length r)) as [Hl|Hl]; [split; [discriminate | intros (_ & H & _); apply Hrun in H; lia] |].
  destruct (bool_decide_reflect (head r = current s)) as [Hh|Hh]; cbn [negb].
  2:{ split; [discriminate | intros (_ & H & _); apply Hrun in H as [_ ?]; contradiction]. }
  assert (Hcur : forall i, current s = Some i <-> exists p, p ∈ pcbs s /\ pid p = i /\ state p = Running) by (apply Hrun; auto).
  pose proof (queue_spec s Hnd) as Hq.
  destruct (Processes.check_queue s [] (queue s)) as [[]|e]; cbn [mbind result_bind];
    [|split; [discriminate | intros (_ & _ & H & _); apply Hq in H as [[=] _]]].
  destruct (existsb _ _); [split; [discriminate | intros (_ & _ & H & _); apply Hq in H as [_ [=]]] |].
  destruct (proj1 Hq (conj eq_refl eq_refl)) as [Hq1 Hq2]. clear Hq.
  assert (Hcr : match creating with
                | Some (i, _) => (i =? 0) || bool_decide (is_Some (Processes.pcb s i)) || (images <? i)
                | None => false
                end = false <->
                match creating with Some (i, _) => 1 <= i <= images /\ i ∉ pid <$> pcbs s | None => True end).
  { destruct creating as [[i fs]|]; [apply creating_spec; assumption | tauto]. }
  destruct (match creating with Some _ => _ | None => _ end) eqn:Ec;
    [split; [discriminate | intros (_ & _ & _ & H & _); apply Hcr in H; discriminate] |].
  pose proof (proj1 Hcr eq_refl) as Hcr'. clear Hcr.
  pose proof (claims_spec (pool s) (Processes.owned s creating)) as Hcl.
  assert (Hz : Forall (fun c => fst c <> 0) (Processes.owned s creating)).
  { apply Forall_forall. intros [i ppn] [(p & Hp & <- & _)|(fs & -> & _)]%elem_of_claims; cbn; [|lia].
    rewrite Forall_forall in Hrange. specialize (Hrange p Hp). cbn in Hrange. lia. }
  specialize (Hcl Hz). split.
  - intros (e & E & Hf)%bind_Ok_inv. destruct (forallb _ _) eqn:Eb; [|discriminate].
    assert (Hown : NoDup (snd <$> Processes.owned s creating) /\
      forall i ppn, i <> 0 -> Frames.owner (pool s) ppn = Some i <-> (i, ppn) ∈ Processes.owned s creating).
    { apply Hcl. exists e. split; [exact E |]. apply forallb_owners, Eb. }
    destruct Hown. auto 10.
  - intros (_ & _ & _ & _ & H8 & H9). destruct (proj2 Hcl (conj H8 H9)) as (e & -> & He). cbn [mbind result_bind].
    apply forallb_owners in He. rewrite He. reflexivity.
Qed.

(** * Transitions *)

Section update.
Context (i : Z) (g : Pcb -> Pcb) (Hpid : forall p, pid (g p) = pid p).

Lemma update_pcb_fmap {B} (h : Pcb -> B) l : (forall p, h (g p) = h p) -> h <$> update_pcb i g l = h <$> l.
Proof.
  intros Hh. induction l as [|p l IH]; cbn; [reflexivity |]. destruct (pid p =? i); cbn; [rewrite Hh; reflexivity |].
  f_equal. exact IH.
Qed.

Lemma elem_of_update l p q :
  NoDup (pid <$> l) -> p ∈ l -> pid p = i -> q ∈ update_pcb i g l <-> q = g p \/ (q ∈ l /\ pid q <> i).
Proof.
  intros Hnd Hp Hi. induction l as [|r l IH]; [inversion Hp |]. cbn [update_pcb].
  apply NoDup_cons in Hnd as [Hr Hnd]. assert (Hnot : forall x, x ∈ l -> pid x <> pid r).
  { intros x Hx E. apply Hr. rewrite <- E. apply list_elem_of_fmap_2, Hx. }
  destruct (Z.eqb_spec (pid r) i) as [E|E]; rewrite !elem_of_cons.
  - assert (p = r) as -> by (apply elem_of_cons in Hp as [?|Hp]; [assumption | destruct (Hnot p Hp); congruence]).
    split; [intros [?|Hq]; [auto | right; split; [auto |]] | intros [?|[[?|?] ?]]; [auto | congruence | auto]].
    rewrite <- E. auto.
  - apply elem_of_cons in Hp as [->|Hp]; [congruence |]. rewrite (IH Hnd Hp). split; [intros [->|[?|?]]; tauto | tauto].
Qed.

Lemma update_forall (P : Pcb -> Prop) l p :
  NoDup (pid <$> l) -> p ∈ l -> pid p = i -> Forall P l -> P (g p) -> Forall P (update_pcb i g l).
Proof.
  intros Hnd Hp Hi Hall Hg. apply Forall_forall. intros q [->|[Hq _]]%(elem_of_update l p q Hnd Hp Hi); [exact Hg |].
  rewrite Forall_forall in Hall. auto.
Qed.
End update.

Section transitions.
Context (images : Z).

Lemma inv_nodup s cr : proc_inv s images cr -> NoDup (pid <$> pcbs s).
Proof. intros H. apply sorted_nodup, H. Qed.

(** A change of one PCB that keeps its PID and frames, with the queue and current PID to match. *)
Lemma inv_update s cr i p g q cur :
  proc_inv s images cr -> p ∈ pcbs s -> pid p = i ->
  (forall r, pid (g r) = pid r) -> (forall r, Pcb.frames (g r) = Pcb.frames r) -> pcb_ok (g p) ->
  (forall j, cur = Some j <-> (j = i /\ state (g p) = Running) \/ (j <> i /\ current s = Some j)) ->
  NoDup q -> (forall j, j ∈ q <-> (j = i /\ state (g p) = Ready) \/ (j <> i /\ j ∈ queue s)) ->
  proc_inv (mkProcesses (update_pcb i g (pcbs s)) q cur (pool s)) images cr.
Proof.
  intros H Hp Hi Hpid Hfr Hok Hcur Hqn Hq. pose proof (inv_nodup s cr H) as Hnd. destruct H as [H1 H2 H3 H4 H5 H6 H7 H8 H9].
  pose proof (fun r => elem_of_update i g (pcbs s) p r Hnd Hp Hi) as Hel.
  assert (Hpids : pid <$> update_pcb i g (pcbs s) = pid <$> pcbs s) by (apply update_pcb_fmap; exact Hpid).
  assert (Hown : Processes.owned (mkProcesses (update_pcb i g (pcbs s)) q cur (pool s)) cr = Processes.owned s cr).
  { unfold Processes.owned, Processes.owners_of. cbn [pcbs]. rewrite update_pcb_fmap; [reflexivity |].
    intros r. rewrite Hpid, Hfr. reflexivity. }
  assert (Hst : forall j st, (exists r, r ∈ update_pcb i g (pcbs s) /\ pid r = j /\ state r = st) <->
            (j = i /\ state (g p) = st) \/ (j <> i /\ exists r, r ∈ pcbs s /\ pid r = j /\ state r = st)).
  { intros j st. split.
    - intros (r & Hr & <- & <-). apply Hel in Hr as [->|[Hr Hne]]; [left; rewrite Hpid; auto | right; eauto].
    - intros [[-> E]|(Hne & r & Hr & <- & <-)]; [exists (g p) | exists r]; rewrite Hel, ?Hpid; auto. }
  split; cbn [pcbs queue current pool].
  - rewrite Hpids. exact H1.
  - eapply update_forall; eauto. rewrite Hpid. rewrite Forall_forall in H2. auto.
  - eapply update_forall; eauto.
  - intros j. rewrite Hst, <- H4. apply Hcur.
  - exact Hqn.
  - intros j. rewrite Hst, <- H6. apply Hq.
  - rewrite Hpids. exact H7.
  - rewrite Hown. exact H8.
  - rewrite Hown. exact H9.
Qed.

Lemma inv_current s cr i :
  proc_inv s images cr -> current s = Some i ->
  exists p, Processes.pcb s i = Some p /\ p ∈ pcbs s /\ pid p = i /\ state p = Running /\ i ∉ queue s.
Proof.
  intros H E. pose proof (inv_nodup s cr H) as Hnd. destruct (proj1 (pi_current _ _ _ H i) E) as (p & Hp & Hi & Hs).
  exists p. split; [apply find_pcb_spec; auto |]. split_and!; auto.
  intros (q & Hq & Hqi & Hqs)%(pi_queue _ _ _ H). enough (p = q) by congruence.
  apply (pcb_unique (pcbs s)); congruence.
Qed.

Lemma inv_pcb_ok s cr p : proc_inv s images cr -> p ∈ pcbs s -> pcb_ok p.
Proof. intros H Hp. pose proof (pi_pcbs _ _ _ H) as Hall. rewrite Forall_forall in Hall. auto. Qed.

Lemma yield_inv s cr c i :
  proc_inv s images cr -> current s = Some i ->
  exists s', Processes.yield_current c s = (s', Ok i) /\ proc_inv s' images cr.
Proof.
  intros H E. destruct (inv_current s cr i H E) as (p & Ep & Hp & Hi & Hs & Hq).
  unfold Processes.yield_current. rewrite E, Ep. eexists. split; [reflexivity |].
  apply (inv_update s cr i p); auto.
  - destruct (inv_pcb_ok s cr p H Hp) as (_ & H2 & H3 & H4). rewrite Hs in *. split_and!; cbn in *; auto.
    split; [eauto | auto].
  - intros j. rewrite E. cbn. split; [discriminate | intros [[_ [=]]|[? [=]]]; congruence].
  - apply NoDup_app. split_and!; [apply H | | apply NoDup_singleton]. intros j Hj. rewrite list_elem_of_singleton. intros ->. contradiction.
  - intros j. rewrite elem_of_app, list_elem_of_singleton. cbn. split.
    + intros [Hj|Hj]; [right; split; [intros ->; contradiction | exact Hj] | left; auto].
    + tauto.
Qed.

Lemma schedule_inv s cr :
  proc_inv s images cr -> current s = None ->
  match queue s with
  | [] => Processes.schedule_next s = (s, Ok None)
  | i :: q => exists s' c, Processes.schedule_next s = (s', Ok (Some (i, c))) /\ proc_inv s' images cr /\
                (exists p, p ∈ pcbs s /\ pid p = i /\ context p = Some c)
  end.
Proof.
  intros H E. unfold Processes.schedule_next. rewrite E. destruct (queue s) as [|i q] eqn:Eq; [reflexivity |].
  pose proof (inv_nodup s cr H) as Hnd. pose proof (pi_queue_nodup _ _ _ H) as Hqn. rewrite Eq in Hqn.
  destruct (proj1 (pi_queue _ _ _ H i)) as (p & Hp & Hi & Hs); [rewrite Eq; left |].
  pose proof (inv_pcb_ok s cr p H Hp) as Hok. destruct (proj1 (proj1 Hok) Hs) as [c Hc].
  unfold Processes.pcb. cbn [pcbs set_queue]. rewrite (proj2 (find_pcb_spec (pcbs s) i p Hnd) (conj Hp Hi)), Hc.
  rewrite bool_decide_eq_true_2 by exact Hs. cbn [negb]. eexists. exists c. split; [reflexivity |]. split; [|eauto].
  set (g := fun p => Processes.to_running (Processes.take_context p)).
  assert (Hu : forall l, update_pcb i Processes.to_running (update_pcb i Processes.take_context l) = update_pcb i g l).
  { induction l as [|r l IH]; cbn; [reflexivity |]. destruct (pid r =? i) eqn:Er; cbn; rewrite Er; [reflexivity | f_equal; exact IH]. }
  cbn. rewrite Hu. apply (inv_update s cr i p); auto.
  - destruct Hok as (_ & H2 & H3 & H4). rewrite Hs in *. split_and!; cbn in *; auto. split; [discriminate | intros [? [=]]].
  - intros j. rewrite E. cbn. split; [intros [= ->]; auto | intros [[-> _]|[_ [=]]]; reflexivity].
  - apply NoDup_cons in Hqn. tauto.
  - apply NoDup_cons in Hqn as [Hi' _]. intros j. rewrite Eq, elem_of_cons. cbn. split.
    + intros Hj. right. split; [intros ->; contradiction | auto].
    + intros [[_ [=]]|[? [?|?]]]; [congruence | assumption].
Qed.

(** Every owned frame has one owner. *)
Lemma inv_one_owner s cr i j ppn :
  proc_inv s images cr -> (i, ppn) ∈ Processes.owned s cr -> (j, ppn) ∈ Processes.owned s cr -> i = j.
Proof.
  intros H Hi Hj. pose proof (pi_nodup _ _ _ H) as Hnd. apply list_elem_of_lookup in Hi as [a Ha], Hj as [b Hb].
  assert (a = b) as ->; [|congruence]. apply (NoDup_lookup _ a b ppn Hnd); rewrite list_lookup_fmap, ?Ha, ?Hb; reflexivity.
Qed.

Lemma owned_update_sublist i g l c :
  (forall p, pid (g p) = pid p) -> (forall p, Pcb.frames (g p) = []) ->
  let own l := (((fun p => (pid p, Pcb.frames p)) <$> l) ++ c) ≫= (fun '(i, fs) => (fun f : Z => (i : Z, f)) <$> fs) in
  own (update_pcb i g l) `sublist_of` own l.
Proof.
  intros Hpid Hfr own. unfold own. induction l as [|p l IH]; cbn [update_pcb]; [reflexivity |].
  destruct (pid p =? i); cbn.
  - rewrite Hfr. cbn. apply sublist_inserts_l. reflexivity.
  - apply sublist_app; [reflexivity | exact IH].
Qed.

Lemma end_inv s cr st i :
  proc_inv s images cr -> current s = Some i -> ProcState.is_terminal st = true ->
  exists s', Processes.end_current st s = (s', Ok i) /\ proc_inv s' images cr.
Proof.
  intros H E Hst. destruct (inv_current s cr i H E) as (p & Ep & Hp & Hi & Hs & Hq).
  unfold Processes.end_current. rewrite Hst, E, Ep. cbn [negb set_pcbs pool].
  pose proof (inv_nodup s cr H) as Hnd. pose proof (inv_one_owner s cr) as Hone.
  assert (Hi0 : i <> 0) by (pose proof (pi_range _ _ _ H) as Hr; rewrite Forall_forall in Hr; specialize (Hr p Hp); cbn in Hr; lia).
  assert (Hpf : forall ppn, ppn ∈ Pcb.frames p -> (i, ppn) ∈ Processes.owned s cr) by (intros ppn Hf; apply elem_of_claims; left; eauto).
  pose proof (release_correct i (Pcb.frames p) (pool s)) as Hrel.
  destruct (Frames.release i (Pcb.frames p) (pool s)) as [f [[]|[q|q]]].
  2:{ exfalso. destruct Hrel as (_ & Hf & Ho). apply Hpf, (pi_owned _ _ _ H) in Hf; [congruence | exact Hi0]. }
  2:{ exfalso. destruct Hrel as (_ & Hf & o & Ho & Hne). apply Hpf, (pi_owned _ _ _ H) in Hf; [|exact Hi0].
      destruct Hne; congruence. }
  destruct Hrel as (_ & _ & _ & Hown'). eexists. split; [reflexivity |].
  pose proof (fun r => elem_of_update i (Processes.to_ended st) (pcbs s) p r Hnd Hp Hi) as Hel.
  assert (Hpids : pid <$> update_pcb i (Processes.to_ended st) (pcbs s) = pid <$> pcbs s) by (apply update_pcb_fmap; reflexivity).
  assert (Hstate : forall j st', ProcState.is_terminal st' = false ->
            (exists r, r ∈ update_pcb i (Processes.to_ended st) (pcbs s) /\ pid r = j /\ state r = st') <->
            j <> i /\ exists r, r ∈ pcbs s /\ pid r = j /\ state r = st').
  { intros j st' Ht. split.
    - intros (r & Hr & <- & <-). apply Hel in Hr as [->|[Hr Hne]]; [cbn in Ht; congruence | eauto].
    - intros (Hne & r & Hr & <- & <-). exists r. rewrite Hel. auto. }
  destruct H as [H1 H2 H3 H4 H5 H6 H7 H8 H9]. split; cbn [pcbs queue current pool set_pcbs set_pool set_current].
  - rewrite Hpids. exact H1.
  - eapply update_forall; eauto. rewrite Forall_forall in H2. exact (H2 p Hp).
  - eapply update_forall; eauto. unfold pcb_ok. cbn. rewrite Hst. split_and!; try tauto; [|discriminate].
    split; [intros ->; discriminate Hst | intros [? [=]]].
  - intros j. rewrite (Hstate j Running eq_refl), <- H4, E. split; [discriminate | intros [? [=]]; congruence].
  - exact H5.
  - intros j. rewrite (Hstate j Ready eq_refl), <- H6. split; [intros Hj; split; [intros ->; contradiction | exact Hj] | tauto].
  - rewrite Hpids. exact H7.
  - eapply sublist_NoDup; [exact H8 |]. apply fmap_sublist.
    apply (owned_update_sublist i (Processes.to_ended st) (pcbs s) (match cr with Some c => [c] | None => [] end)); reflexivity.
  - intros j ppn Hj. rewrite Hown'. case_decide as Hin.
    + split; [congruence |]. intros Ho. exfalso. apply elem_of_claims in Ho. cbn [pcbs set_pcbs] in Ho.
      assert (Hj' : (j, ppn) ∈ Processes.owned s cr /\ j <> i).
      { destruct Ho as [(r & Hr & <- & Hf)|(fs & -> & Hf)].
        - apply Hel in Hr as [->|[Hr Hne]]; [cbn in Hf; inversion Hf |]. split; [apply elem_of_claims; left; eauto | exact Hne].
        - split; [apply elem_of_claims; right; eauto |]. intros ->. destruct H7 as [_ H7]. apply H7. rewrite <- Hi. apply list_elem_of_fmap_2, Hp. }
      destruct Hj' as [Hj' Hne]. apply Hne. apply (Hone j i ppn); [split; auto | exact Hj' | auto].
    + rewrite (H9 j ppn Hj), !elem_of_claims. cbn [pcbs set_pcbs]. split; (intros [(r & Hr & <- & Hf)|Hf]; [|right; exact Hf]); left.
      * exists r. rewrite Hel. split; [|auto]. destruct (decide (pid r = i)) as [Er|Er]; [|auto].
        exfalso. apply Hin. rewrite (pcb_unique (pcbs s) p r); congruence || auto.
      * apply Hel in Hr as [->|[Hr _]]; [cbn in Hf; inversion Hf |]. eauto.
Qed.

Lemma owned_app s i fs :
  Processes.owned s (Some (i, fs)) = Processes.owned s None ++ ((fun f => (i, f)) <$> fs).
Proof. unfold Processes.owned, Processes.owners_of. rewrite !bind_app. cbn. rewrite !app_nil_r. reflexivity. Qed.

Lemma snd_pair (i : Z) (fs : list Z) : snd <$> ((fun f => (i, f)) <$> fs) = fs.
Proof. rewrite <- list_fmap_compose. apply list_fmap_id. Qed.

Lemma reserve_inv s i n f fs :
  proc_inv s images None -> 1 <= i <= images -> (forall p, p ∈ pcbs s -> pid p < i) ->
  Frames.reserve i n (pool s) = (f, Ok (Some fs)) -> proc_inv (set_pool f s) images (Some (i, fs)).
Proof.
  intros H Hi Hmax E. pose proof (reserve_correct i n (pool s) ltac:(lia)) as Hr. rewrite E in Hr.
  destruct Hr as (_ & Hsort & Hfree & _ & _ & _ & Hown).
  assert (Heq : Processes.owned (set_pool f s) (Some (i, fs)) = Processes.owned s None ++ ((fun q => (i, q)) <$> fs))
    by (rewrite owned_app; reflexivity).
  assert (Hzero : forall j ppn, (j, ppn) ∈ Processes.owned s None -> j <> 0).
  { intros j ppn [(p & Hp & <- & _)|(? & [=] & _)]%elem_of_claims. pose proof (pi_range _ _ _ H) as Hr.
    rewrite Forall_forall in Hr. specialize (Hr p Hp). cbn in Hr. lia. }
  assert (Hdis : forall j ppn, (j, ppn) ∈ Processes.owned s None -> ppn ∉ fs).
  { intros j ppn Hj Hf. apply Hfree in Hf. pose proof (Hzero j ppn Hj) as Hz.
    apply (pi_owned _ _ _ H) in Hj; [congruence | exact Hz]. }
  destruct H as [H1 H2 H3 H4 H5 H6 H7 H8 H9]. split; cbn [pcbs queue current pool set_pool]; auto.
  - split; [exact Hi |]. intros (p & -> & Hp)%list_elem_of_fmap. specialize (Hmax p Hp). lia.
  - rewrite Heq, fmap_app, snd_pair. apply NoDup_app. split_and!; [exact H8 | | apply sorted_nodup, Hsort].
    intros q ([j q'] & -> & Hq)%list_elem_of_fmap. exact (Hdis j q' Hq).
  - intros j ppn Hj. rewrite Hown, Heq, elem_of_app, list_elem_of_fmap. case_decide as Hin.
    + split; [intros [= <-]; right; exists ppn; auto |]. intros [Ho|(q & [= -> ->] & _)]; [|reflexivity].
      destruct (Hdis j ppn Ho Hin).
    + rewrite (H9 j ppn Hj). split; [auto |]. intros [Ho|(q & [= -> ->] & Hq)]; [exact Ho | contradiction].
Qed.

Lemma owned_by_sorted f i : StronglySorted Z.le (Frames.owned_by f i).
Proof. unfold Frames.owned_by. eapply StronglySorted_fmap; [|apply indices_sorted]. intros x y Hxy. cbn. lia. Qed.

(** The frames of the creation in flight, sorted, are those the pool gives its PID. *)
Lemma reserved_frames s i fs frames :
  proc_inv s images (Some (i, fs)) -> frames ≡ₚ fs -> sort_by Z.leb frames = Frames.owned_by (pool s) i.
Proof.
  intros H Hperm.
  pose proof (pi_creating _ _ _ H) as [Hrange Hnew]. apply (StronglySorted_unique Z.le); [| apply owned_by_sorted |].
  - assert (Hss : StronglySorted (fun a b => (a <=? b) = true) (sort_by Z.leb (frames))) by (apply sort_by_sorted; intros; lia).
    clear -Hss. induction Hss as [|a l' Hl IH Ha]; constructor; [exact IH |]. eapply Forall_impl; [exact Ha |]. cbn. lia.
  - rewrite sort_by_perm, Hperm. apply NoDup_Permutation.
    + pose proof (pi_nodup _ _ _ H) as Hnd. rewrite owned_app, fmap_app, snd_pair in Hnd. apply NoDup_app in Hnd. tauto.
    + unfold Frames.owned_by. apply NoDup_fmap_2; [intros a b; lia |].
      pose proof (indices_sorted i (owners (pool s)) 0) as Hsi. clear -Hsi.
      induction Hsi as [|a l' Hl IH Ha]; constructor; [|exact IH]. intros Hin. rewrite Forall_forall in Ha. specialize (Ha a Hin). lia.
    + intros q. rewrite elem_of_owned_owner, (pi_owned _ _ _ H i q) by lia. rewrite elem_of_claims. split; [intros Hq; right; eauto |].
      intros [(r & Hr & Hri & _)|(fs' & [= <-] & Hq)]; [|exact Hq]. destruct Hnew. rewrite <- Hri. apply list_elem_of_fmap_2, Hr.
Qed.

Lemma admit_inv s i fs p :
  proc_inv s images (Some (i, fs)) -> (forall q, q ∈ pcbs s -> pid q < i) ->
  pid p = i -> state p = Ready -> pcb_ok p -> Pcb.frames p ≡ₚ fs ->
  exists s', Processes.admit_process p s = (s', Ok tt) /\ proc_inv s' images None.
Proof.
  intros H Hmax Hi Hs Hok Hperm. pose proof (pi_creating _ _ _ H) as [Hrange Hnew].
  pose proof (reserved_frames s i fs (Pcb.frames p) H Hperm) as Hsorted.
  unfold Processes.admit_process. assert (Hlast : match last (pcbs s) with Some q => pid p <=? pid q | None => false end = false).
  { destruct (last (pcbs s)) as [q|] eqn:El; [|reflexivity]. apply Z.leb_gt. rewrite Hi. apply Hmax. apply last_Some in El as [l' ->].
    apply elem_of_app. right. left. }
  rewrite Hlast, bool_decide_eq_true_2, bool_decide_eq_true_2, Hi, Hsorted, bool_decide_eq_true_2
    by (reflexivity || exact Hs || apply Hok, Hs). cbn [negb orb].
  eexists. split; [reflexivity |].
  assert (Hst : forall j st, (exists r, r ∈ pcbs s ++ [p] /\ pid r = j /\ state r = st) <->
            (j = i /\ st = Ready) \/ exists r, r ∈ pcbs s /\ pid r = j /\ state r = st).
  { intros j st. setoid_rewrite elem_of_app. setoid_rewrite list_elem_of_singleton. split.
    - intros (r & [Hr| ->] & <- & <-); [right; eauto | left; auto].
    - intros [[-> ->]|(r & Hr & <- & <-)]; [exists p; auto | exists r; auto]. }
  assert (Heq : Processes.owned (set_pcbs (pcbs s ++ [p]) (set_queue (queue s ++ [i]) s)) None
                = Processes.owned s None ++ ((fun f => (i, f)) <$> Pcb.frames p)).
  { unfold Processes.owned, Processes.owners_of. cbn [pcbs set_pcbs]. rewrite fmap_app, !app_nil_r, bind_app. cbn.
    rewrite app_nil_r, Hi. reflexivity. }
  assert (Hpo : Processes.owned s None ++ ((fun f => (i, f)) <$> Pcb.frames p) ≡ₚ Processes.owned s (Some (i, fs)))
    by (rewrite owned_app, Hperm; reflexivity).
  destruct H as [H1 H2 H3 H4 H5 H6 H7 H8 H9]. split; cbn [pcbs queue current pool set_pcbs set_queue]; auto.
  - rewrite fmap_app. apply StronglySorted_app. split_and!; [|exact H1 | repeat constructor].
    intros a b (q & -> & Hq)%list_elem_of_fmap. cbn. rewrite list_elem_of_singleton. intros ->. rewrite Hi. auto.
  - apply Forall_app. split; [exact H2 |]. apply Forall_singleton. rewrite Hi. exact Hrange.
  - apply Forall_app. split; [exact H3 |]. apply Forall_singleton. exact Hok.
  - intros j. rewrite Hst, <- H4. split; [auto | intros [[_ [=]]|?]; assumption].
  - apply NoDup_app. split_and!; [exact H5 | | apply NoDup_singleton]. intros j Hj. rewrite list_elem_of_singleton. intros ->.
    apply H6 in Hj as (q & Hq & E & _). apply Hnew. rewrite <- E. apply list_elem_of_fmap_2, Hq.
  - intros j. rewrite Hst, elem_of_app, list_elem_of_singleton, H6. tauto.
  - rewrite Heq, Hpo. exact H8.
  - intros j ppn Hj. rewrite Heq, Hpo. apply H9, Hj.
Qed.
End transitions.

(** * The kernel's use of the table *)

(** The table and the creation in flight. *)
Definition Table : Set := Processes * option (Z * list Z).

Section reachable.
Context (config : KernelConfig) (layout : UserLayout) (images : Z).

(** One change by the kernel: it reserves the frames of a new process, admits the process once
    its address space is built, switches away from, ends or dispatches a process. *)
Inductive proc_step : Table -> Table -> Prop :=
| step_reserve s i boot f fs :
    1 <= i <= images -> (forall p, p ∈ pcbs s -> pid p < i) ->
    Frames.reserve i (frames_needed (bi_image boot) layout) (pool s) = (f, Ok (Some fs)) ->
    proc_step (s, None) (set_pool f s, Some (i, fs))
| step_admit s i boot fs space c s' :
    length fs = frames_needed (bi_image boot) layout -> Space.build config layout boot fs = Some space ->
    Processes.admit_process (Pcb.new i space c) s = (s', Ok tt) -> proc_step (s, Some (i, fs)) (s', None)
| step_yield s cr c i s' : Processes.yield_current c s = (s', Ok i) -> proc_step (s, cr) (s', cr)
| step_end s cr st i s' : Processes.end_current st s = (s', Ok i) -> proc_step (s, cr) (s', cr)
| step_schedule s cr r s' : Processes.schedule_next s = (s', Ok r) -> proc_step (s, cr) (s', cr).

Definition table_inv (t : Table) : Prop :=
  proc_inv (fst t) images (snd t) /\
  match snd t with Some (i, _) => forall p, p ∈ pcbs (fst t) -> pid p < i | None => True end.

Lemma above_pids s s' (cr : option (Z * list Z)) :
  pid <$> pcbs s' = pid <$> pcbs s ->
  match cr with Some (i, _) => forall p, p ∈ pcbs s -> pid p < i | None => True end ->
  match cr with Some (i, _) => forall p, p ∈ pcbs s' -> pid p < i | None => True end.
Proof.
  intros E. destruct cr as [[i fs]|]; [|auto]. intros H p Hp. assert (Hi : pid p ∈ pid <$> pcbs s).
  { rewrite <- E. apply list_elem_of_fmap_2, Hp. }
  apply list_elem_of_fmap in Hi as (q & -> & Hq). auto.
Qed.

Lemma yield_pids c s s' r : Processes.yield_current c s = (s', r) -> pid <$> pcbs s' = pid <$> pcbs s.
Proof.
  unfold Processes.yield_current. destruct (current s); [destruct (Processes.pcb s z) |]; intros [= <- _]; try reflexivity.
  cbn. apply update_pcb_fmap. reflexivity.
Qed.

Lemma end_pids st s s' r : Processes.end_current st s = (s', r) -> pid <$> pcbs s' = pid <$> pcbs s.
Proof.
  unfold Processes.end_current. destruct (negb _); [intros [= <- _]; reflexivity |]. destruct (current s); [|intros [= <- _]; reflexivity].
  destruct (Processes.pcb s z); [|intros [= <- _]; reflexivity].
  destruct (Frames.release _ _ _) as [f [[]|e]]; intros [= <- _]; cbn; apply update_pcb_fmap; reflexivity.
Qed.

Lemma schedule_pids s s' r : Processes.schedule_next s = (s', r) -> pid <$> pcbs s' = pid <$> pcbs s.
Proof.
  unfold Processes.schedule_next. destruct (current s); [intros [= <- _]; reflexivity |].
  destruct (queue s); [intros [= <- _]; reflexivity |]. destruct (Processes.pcb _ _) as [p|]; [|intros [= <- _]; reflexivity].
  destruct (context p); [destruct (negb _) |]; intros [= <- _]; cbn; rewrite ?update_pcb_fmap by reflexivity; reflexivity.
Qed.

(** The new process is as the table wants it. *)
Lemma built_pcb_ok i boot fs space c :
  length fs = frames_needed (bi_image boot) layout -> Space.build config layout boot fs = Some space ->
  pcb_ok (Pcb.new i space c) /\ Pcb.frames (Pcb.new i space c) ≡ₚ fs.
Proof.
  intros Hlen E. destruct (build_owned _ _ _ _ _ Hlen E) as (Hh & Hne & Hperm). split; [|exact Hperm].
  unfold pcb_ok. cbn. split_and!; [split; eauto | | | auto]; (split; [discriminate |]); intros Hn; [rewrite Hn in Hh; discriminate | contradiction].
Qed.

Lemma step_inv t t' : proc_step t t' -> table_inv t -> table_inv t'.
Proof.
  intros Hstep [H Hmax]. destruct Hstep as [s i boot f fs Hi Hm E|s i boot fs space c s' Hlen Eb E|s cr c i s' E|s cr st i s' E|s cr r s' E];
    cbn [fst snd] in *; split; cbn [fst snd].
  - eapply reserve_inv; eauto.
  - exact Hm.
  - destruct (built_pcb_ok i boot fs space c Hlen Eb) as [Hok Hperm].
    destruct (admit_inv images s i fs (Pcb.new i space c)) as (s2 & E2 & Hinv); auto. rewrite E in E2. injection E2 as <-. exact Hinv.
  - exact I.
  - destruct (current s) as [j|] eqn:Ec; [|unfold Processes.yield_current in E; rewrite Ec in E; discriminate].
    destruct (yield_inv images s cr c j H Ec) as (s2 & E2 & Hinv). rewrite E in E2. injection E2 as <- _. exact Hinv.
  - exact (above_pids s s' cr (yield_pids _ _ _ _ E) Hmax).
  - destruct (current s) as [j|] eqn:Ec; [|unfold Processes.end_current in E; rewrite Ec in E; destruct (negb _); discriminate].
    destruct (ProcState.is_terminal st) eqn:Et; [|unfold Processes.end_current in E; rewrite Et in E; discriminate].
    destruct (end_inv images s cr st j H Ec Et) as (s2 & E2 & Hinv). rewrite E in E2. injection E2 as <- _. exact Hinv.
  - exact (above_pids s s' cr (end_pids _ _ _ _ E) Hmax).
  - destruct (current s) as [j|] eqn:Ec; [unfold Processes.schedule_next in E; rewrite Ec in E; discriminate |].
    pose proof (schedule_inv images s cr H Ec) as Hs. destruct (queue s) as [|j q].
    + rewrite E in Hs. injection Hs as -> _. exact H.
    + destruct Hs as (s2 & c & E2 & Hinv & _). rewrite E in E2. injection E2 as <- _. exact Hinv.
  - exact (above_pids s s' cr (schedule_pids _ _ _ E) Hmax).
Qed.

Lemma new_inv f : (forall ppn o, Frames.owner f ppn = Some o -> o = 0) -> table_inv (Processes.new f, None).
Proof.
  intros Hf. split; [|exact I]. split; cbn; [constructor | constructor | constructor | | constructor | | exact I | constructor |].
  - intros i. split; [discriminate | intros (p & H & _); inversion H].
  - intros i. split; [intros H; inversion H | intros (p & H & _); inversion H].
  - intros i ppn Hi. split; [intros H; apply Hf in H; contradiction | intros H; inversion H].
Qed.

Lemma reachable_inv t f :
  (forall ppn o, Frames.owner f ppn = Some o -> o = 0) -> rtc proc_step (Processes.new f, None) t -> table_inv t.
Proof.
  intros Hf H. pattern t. revert t H. apply rtc_ind_r; [apply new_inv, Hf |]. intros y z _ Hstep Hy. eapply step_inv; eauto.
Qed.
End reachable.

(** * Claims *)

(** [Processes::check] accepts exactly the states of the invariant: ascending PIDs within
    the images, a context exactly on the [Ready] processes, tables and regions exactly on the
    live ones, at most one [Running] process and it is the current one, a queue of distinct
    PIDs that are exactly the [Ready] processes, and every frame of the pool owned by exactly
    the one live process or creation that lists it. *)
Theorem processes_check_exact (s : Processes) (images : Z) (creating : option (Z * list Z)) :
  match creating with Some (i, _) => 0 <= i | None => True end ->
  Processes.check s images creating = Ok tt <-> proc_inv s images creating.
Proof. apply check_spec_inv. Qed.

(** Every state the kernel reaches from an empty table, by reserving, building and admitting,
    yielding, ending and scheduling processes in any order, passes [Processes::check]; and
    there no transition ever reports a violation: a running process can be switched away from
    or ended, with none running the scheduler dispatches the head of the queue with the
    context saved for it, and a process built in its reserved frames is admitted. *)
Theorem process_table_reachable (config : KernelConfig) (layout : UserLayout) (images pool_base pool_size : Z)
    (s : Processes) (cr : option (Z * list Z)) :
  rtc (proc_step config layout images) (Processes.new (Frames.new pool_base pool_size), None) (s, cr) ->
  Processes.check s images cr = Ok tt /\
  match current s with
  | Some i =>
      (forall c, exists s', Processes.yield_current c s = (s', Ok i)) /\
      (forall st, ProcState.is_terminal st = true -> exists s', Processes.end_current st s = (s', Ok i))
  | None =>
      match queue s with
      | [] => Processes.schedule_next s = (s, Ok None)
      | i :: _ => exists s' c p, Processes.schedule_next s = (s', Ok (Some (i, c))) /\
                    p ∈ pcbs s /\ pid p = i /\ context p = Some c
      end
  end /\
  forall i fs boot space c, cr = Some (i, fs) -> length fs = frames_needed (bi_image boot) layout ->
    Space.build config layout boot fs = Some space -> exists s', Processes.admit_process (Pcb.new i space c) s = (s', Ok tt).
Proof.
  intros Hr. apply reachable_inv in Hr as [H Hmax].
  2:{ intros ppn o (k & _ & Hk)%owner_spec. apply lookup_replicate in Hk. tauto. }
  cbn [fst snd] in *. split; [|split].
  - apply check_spec_inv; [|exact H]. destruct cr as [[i fs]|]; [|exact I]. destruct (pi_creating _ _ _ H). lia.
  - destruct (current s) as [i|] eqn:Ec.
    + split; [intros c; destruct (yield_inv images s cr c i H Ec) as (s' & E & _); eauto |].
      intros st Ht. destruct (end_inv images s cr st i H Ec Ht) as (s' & E & _). eauto.
    + pose proof (schedule_inv images s cr H Ec) as Hs. destruct (queue s) as [|i q]; [exact Hs |].
      destruct Hs as (s' & c & E & _ & p & ?). exists s', c, p. tauto.
  - intros i fs boot space c -> Hlen Eb. destruct (built_pcb_ok config layout i boot fs space c Hlen Eb) as [Hok Hperm].
    destruct (admit_inv images s i fs (Pcb.new i space c)) as (s' & E & _); auto. eauto.
Qed.

(** * Examples *)

Definition example_context : Context := Context.initial 0x10000 0x7FFFF000.

Lemma context_round_trip_witness :
  Context.from_frame (Context.to_frame example_context ++ [1; 2]) = Some example_context.
Proof.
  refine (proj1 (context_round_trip example_context (replicate 132 0) [1; 2] _ _ _)).
  - split_and!; try const_range; [reflexivity |]. repeat constructor; vm_compute; discriminate.
  - apply Forall_replicate. const_range.
  - reflexivity.
Defined.

Lemma processes_check_exact_witness :
  proc_inv (Processes.new (Frames.new 0x80400000 0x4000)) 1 (Some (1, [])).
Proof. apply (processes_check_exact _ 1 (Some (1, [])) (Zle_0_pos 1)). vm_compute. reflexivity. Defined.

(** A process created in a fresh pool and dispatched. *)
Lemma process_table_reachable_witness :
  exists s, current s = Some 1 /\ Processes.check s 1 None = Ok tt /\
    exists s', Processes.yield_current example_context s = (s', Ok 1).
Proof.
  assert (Hr : exists s, current s = Some 1 /\
    rtc (proc_step example_config UserLayout.M3 1) (Processes.new (Frames.new 0x80400000 0x8000), None) (s, None)).
  { eexists. split; [|eapply rtc_l; [eapply (step_reserve _ _ _ _ 1 example_boot); [lia | intros p H; inversion H | vm_compute; reflexivity] |];
      eapply rtc_l; [eapply (step_admit _ _ _ _ 1 example_boot _ _ example_context); [reflexivity | vm_compute; reflexivity | vm_compute; reflexivity] |];
      eapply rtc_l; [eapply step_schedule; vm_compute; reflexivity | apply rtc_refl]]. reflexivity. }
  destruct Hr as (s & Hc & Hr). exists s. split; [exact Hc |].
  destruct (process_table_reachable _ _ _ _ _ _ _ Hr) as (Hk & Hy & _). rewrite Hc in Hy. split; [exact Hk | apply Hy].
Defined.
