(* ===== verification/OsProcOp.v ===== *)
(** The stages of a process-mode operation: [components/os/src/boot.rs] and the [ProcOp] of
    [procop.rs].  A stage is a fixed list of accesses; its step and working data are all that
    moves within it.

    Proved: what each stage's accesses do to a memory that serves them (a frame read collects
    the frame, a dispatch leaves the context, [satp] and [Resume] in it, a return changes [a0]
    and [sepc] only, an output sends its chunk of the buffer to the UART and nothing else). *)
From stdpp Require Import base numbers list option strings sorting.
From Stdlib Require Import ZArith Lia.
From S2P Require Import Prelude Words Csr Privileged Sv32 Elf Text ExecTable OsConfig OsFrames OsSpace OsSpaceProofs OsCore OsSyscall OsProcess.

Local Open Scope string_scope.
Local Open Scope list_scope.
Local Open Scope Z_scope.

(** * Booting from disk, [boot.rs] *)

Definition COMMAND : Z := 0x00.
Definition STATUS : Z := 0x04.
Definition LBA : Z := 0x08.
Definition MEM_ADDR : Z := 0x0C.
Definition BLOCK_COUNT : Z := 0x10.
Definition ACK : Z := 0x18.
Definition OP_READ : Z := 1.
Definition STATUS_DONE : Z := 2.
Definition STATUS_ERROR_SHIFT : Z := 8.
Definition ACK_DONE : Z := 1.
Definition ELF_HEADER_BYTES : Z := 52.

Record Cursor : Set := mkCursor { cu_table : option ExecTable; cu_index : nat }.

Module Cursor.
Definition table : Cursor := mkCursor None 0.

(** [t.entries[self.index]], the panic an [Err]. *)
Definition entry (c : Cursor) : result string (option ExecEntry) :=
  match cu_table c with
  | None => Ok None
  | Some t => e ← index_of (entries t) (cu_index c); Ok (Some e)
  end.

Definition pid (c : Cursor) : Z := Z.of_nat (cu_index c) + 1.

Definition transfer (c : Cursor) : result string (Z * Z) :=
  e ← entry c;
  Ok match e with Some e => (start_lba e, ExecEntry.blocks e) | None => (0, 1) end.

Definition first_read (c : Cursor) : result string Z :=
  e ← entry c;
  Ok match e with Some e => Z.min (byte_len e) ELF_HEADER_BYTES | None => ExecTable.BLOCK_SIZE end.
End Cursor.

(** * Stages, [procop.rs] *)

Definition FRAME_SSTATUS : Z := 0x80.
Definition FRAME_SCAUSE : Z := 0x84.
Definition FRAME_STVAL : Z := 0x88.
Definition FRAME_SATP : Z := 0x8C.
Definition SSTATUS_SPP : Z := 256.
Definition ECALL_FROM_U : Z := 8.

Inductive Stage : Set :=
| Stage_Create (pid : Z) (space : Space)
| Stage_ReadFrame
| Stage_Dispatch (pid : Z) (context : OsProcess.Context) (satp : Z)
| Stage_Shutdown (reason : Z)
| Stage_Walk (buffer : Buffer) (pages : list Z) (table level : Z)
| Stage_Output (buffer : Buffer) (pages : list Z) (done : Z)
| Stage_Return (sepc value : Z)
| Stage_Command (cursor : Cursor)
| Stage_Poll (cursor : Cursor)
| Stage_Ack (cursor : Cursor) (error : Z)
| Stage_Staged (cursor : Cursor) (len : Z)
| Stage_Load (cursor : Cursor) (headers : list Z) (image : UserImage) (space : Space).

Module Stage.
Definition name (s : Stage) : string :=
  match s with
  | Stage_Create _ _ => "create"
  | Stage_ReadFrame => "read_frame"
  | Stage_Dispatch _ _ _ => "dispatch"
  | Stage_Shutdown _ => "shutdown"
  | Stage_Walk _ _ _ _ => "walk"
  | Stage_Output _ _ _ => "output"
  | Stage_Return _ _ => "return"
  | Stage_Command _ => "blk_command"
  | Stage_Poll _ => "blk_poll"
  | Stage_Ack _ _ => "blk_ack"
  | Stage_Staged _ _ => "read_staging"
  | Stage_Load _ _ _ _ => "load"
  end.
End Stage.

Record ProcOp : Set := mkProcOp { po_stage : Stage; po_step : nat; po_data : list Z }.

Definition frame_chunks (c : KernelConfig) : list (Z * Z) := chunk_list (kc_trap_frame c) FRAME_BYTES.

Definition dispatch_chunks (c : KernelConfig) : list (Z * Z) :=
  let base := kc_trap_frame c in
  chunk_list base CONTEXT_BYTES ++ chunk_list (base + FRAME_SATP) 8.

Definition shutdown_chunks (c : KernelConfig) : list (Z * Z) := chunk_list (kc_trap_frame c + FRAME_ACTION) 8.

Definition staged_chunks (c : KernelConfig) (len : Z) : list (Z * Z) := chunk_list (w_base (kc_staging c)) len.

Definition physical (b : Buffer) (pages : list Z) (va : Z) : result string Z :=
  let page := Z.to_nat (Z.shiftr va 12 - Z.shiftr (bf_buf b) 12) in
  p ← index_of pages page;
  Ok (p * PAGE + Z.land va 0xFFF).

(** [word], the panic of a frame that is too short an [Err]. *)
Definition frame_word (frame : list Z) (offset : Z) : result string Z :=
  bs ← sub_slice frame (Z.to_nat offset) 4;
  Ok (from_le bs).

Definition cause_name (scause : Z) : string :=
  match scause with
  | 0 => "InstructionAddressMisaligned"
  | 1 => "InstructionAccessFault"
  | 2 => "IllegalInstruction"
  | 3 => "Breakpoint"
  | 4 => "LoadAddressMisaligned"
  | 5 => "LoadAccessFault"
  | 6 => "StoreAddressMisaligned"
  | 7 => "StoreAccessFault"
  | 8 => "EnvironmentCallFromU"
  | 9 => "EnvironmentCallFromS"
  | 12 => "InstructionPageFault"
  | 13 => "LoadPageFault"
  | 15 => "StorePageFault"
  | other => "scause " +:+ hex other
  end.

(** The bytes a dispatch writes from, [action = Resume] being zero already. *)
Definition dispatch_bytes (context : OsProcess.Context) (satp : Z) : list Z :=
  put_word (Context.to_frame context ++ replicate (Z.to_nat (FRAME_BYTES - CONTEXT_BYTES)) 0) (Z.to_nat FRAME_SATP) satp.

Definition shutdown_bytes (reason : Z) : list Z := to_le 4 1 ++ to_le 4 reason.

Module ProcOp.
Definition new (s : Stage) : ProcOp := mkProcOp s 0 [].

Definition steps (c : KernelConfig) (o : ProcOp) : nat :=
  match po_stage o with
  | Stage_Create _ space | Stage_Load _ _ _ space => Space.steps space
  | Stage_ReadFrame => length (frame_chunks c)
  | Stage_Dispatch _ _ _ => length (dispatch_chunks c)
  | Stage_Shutdown _ => length (shutdown_chunks c)
  | Stage_Walk _ _ _ _ => 1
  | Stage_Output buffer _ done => 1 + Z.to_nat (snd (Buffer.chunk buffer done))
  | Stage_Return _ _ => 2
  | Stage_Command _ => 4
  | Stage_Poll _ | Stage_Ack _ _ => 1
  | Stage_Staged _ len => length (staged_chunks c len)
  end.

Definition data_len (c : KernelConfig) (s : Stage) (step : nat) : nat :=
  match s with
  | Stage_Create _ space | Stage_Load _ _ _ space => Space.data_len space step
  | Stage_ReadFrame => read_len (frame_chunks c) step
  | Stage_Staged _ len => read_len (staged_chunks c len) step
  | Stage_Output buffer _ done => if (0 <? step)%nat then Z.to_nat (snd (Buffer.chunk buffer done)) else 0
  | Stage_Dispatch _ _ _ | Stage_Shutdown _ | Stage_Walk _ _ _ _ | Stage_Return _ _
  | Stage_Command _ | Stage_Poll _ | Stage_Ack _ _ => 0
  end.

Definition from_parts (c : KernelConfig) (s : Stage) (step : nat) (data : list Z) : option ProcOp :=
  let o := mkProcOp s step data in
  if (step <? steps c o)%nat && (length data =? data_len c s step)%nat then Some o else None.

(** The closure [written]. *)
Definition written (step : nat) (chunks : list (Z * Z)) (base : Z) (bytes : list Z) : result string (option Access) :=
  match chunks !! step with
  | None => Ok None
  | Some (addr, len) =>
      data ← sub_slice bytes (Z.to_nat (addr - base)) (Z.to_nat len);
      Ok (Some (Access_Write addr data))
  end.

Definition read_at (step : nat) (chunks : list (Z * Z)) : option Access :=
  '(addr, len) ← chunks !! step;
  Some (Access_Read addr len).

Definition write_word (addr value : Z) : Access := Access_Write addr (to_le 4 value).

Definition access (c : KernelConfig) (o : ProcOp) : result string (option Access) :=
  let step := po_step o in
  let frame := kc_trap_frame c in
  match po_stage o with
  | Stage_Create _ space | Stage_Load _ _ _ space => Ok (Space.access space step (po_data o))
  | Stage_ReadFrame => Ok (read_at step (frame_chunks c))
  | Stage_Dispatch _ context satp => written step (dispatch_chunks c) frame (dispatch_bytes context satp)
  | Stage_Shutdown reason => written step (shutdown_chunks c) (frame + FRAME_ACTION) (shutdown_bytes reason)
  | Stage_Walk buffer pages table level =>
      Ok (if (step =? 0)%nat
          then Some (Access_Read (user_pte_address table (Buffer.page_va buffer (Z.of_nat (length pages))) level) 4)
          else None)
  | Stage_Output buffer pages done =>
      let '(va, len) := Buffer.chunk buffer done in
      if (step =? 0)%nat then
        addr ← physical buffer pages va;
        Ok (Some (Access_Read addr len))
      else if Z.of_nat step <=? len then
        b ← index_of (po_data o) (step - 1);
        Ok (Some (Access_Write (kc_uart_tx c) [b]))
      else Ok None
  | Stage_Return sepc value =>
      Ok ('(offset, word) ← [(FRAME_A0, value); (FRAME_SEPC, wrap 32 (sepc + 4))] !! step;
          Some (write_word (frame + offset) word))
  | Stage_Command cursor =>
      '(lba, blocks) ← Cursor.transfer cursor;
      let staging := wrap 32 (w_base (kc_staging c)) in
      Ok ('(offset, value) ← [(LBA, lba); (MEM_ADDR, staging); (BLOCK_COUNT, blocks); (COMMAND, OP_READ)] !! step;
          Some (write_word (w_base (kc_blk c) + offset) value))
  | Stage_Poll _ => Ok (if (step =? 0)%nat then Some (Access_Read (w_base (kc_blk c) + STATUS) 4) else None)
  | Stage_Ack _ _ => Ok (if (step =? 0)%nat then Some (write_word (w_base (kc_blk c) + ACK) ACK_DONE) else None)
  | Stage_Staged _ len => Ok (read_at step (staged_chunks c len))
  end.

(** The step past the current access, with the working data [data]. *)
Definition advance (c : KernelConfig) (o : ProcOp) (data : list Z) : ProcOp :=
  let o := mkProcOp (po_stage o) (S (po_step o)) data in
  if (po_step o <? steps c o)%nat && negb (length data =? data_len c (po_stage o) (po_step o))%nat
  then mkProcOp (po_stage o) (po_step o) [] else o.

Definition complete (c : KernelConfig) (o : ProcOp) (k : Completion) : result CoreStop ProcOp :=
  due ← map_err Core_Panic (access c o);
  match due, k with
  | None, _ => Err (Core_Error Core_Finished)
  | Some (Access_Read _ len), Completion_Data data =>
      if negb (Z.of_nat (length data) =? len) then Err (Core_Error Core_DataLength)
      else Ok (advance c o (po_data o ++ data))
  | Some (Access_Write _ _), Completion_Written => Ok (advance c o (po_data o))
  | _, _ => Err (Core_Error Core_WrongKind)
  end.

Definition is_finished (c : KernelConfig) (o : ProcOp) : bool := (steps c o <=? po_step o)%nat.
End ProcOp.

#[export] Instance proc_op_stepper : Stepper ProcOp := {
  due := ProcOp.access;
  complete := ProcOp.complete;
}.

(** * What a stage does *)

Lemma take_drop_take {A} (l : list A) r k n : (r + k <= n)%nat -> take k (drop r (take n l)) = take k (drop r l).
Proof. intros H. rewrite !take_drop_commute, take_take, Nat.min_l by lia. reflexivity. Qed.

Section stages.
Context (c : KernelConfig).

Local Abbreviation frame := (kc_trap_frame c).

(** The UART's TX register is not a byte of the trap frame. *)
Definition uart_apart : Prop := ~ (frame <= kc_uart_tx c < frame + FRAME_BYTES).

Lemma advance_nil s step :
  ProcOp.advance c (mkProcOp s step []) [] = mkProcOp s (S step) [].
Proof. unfold ProcOp.advance. cbn [po_stage po_step]. case_if; reflexivity. Qed.

Lemma advance_same s step data data' :
  (S step < ProcOp.steps c (mkProcOp s (S step) data') -> length data' = ProcOp.data_len c s (S step))%nat ->
  ProcOp.advance c (mkProcOp s step data) data' = mkProcOp s (S step) data'.
Proof.
  intros Hl. unfold ProcOp.advance. cbn [po_stage po_step]. destruct (Nat.ltb_spec (S step) (ProcOp.steps c (mkProcOp s (S step) data'))); [|reflexivity].
  rewrite Hl, Nat.eqb_refl by assumption. reflexivity.
Qed.

(** A stage that keeps no data and writes [bs] at [base] in the pieces [l], from its step [k] on. *)
Lemma serve_stage_writes s k base bs l w :
  contiguous base (base + Z.of_nat (length bs)) l -> Forall chunk_ok l ->
  ~ (base <= kc_uart_tx c < base + Z.of_nat (length bs)) ->
  (forall i a n, l !! i = Some (a, n) ->
     ProcOp.access c (mkProcOp s (k + i) []) = Ok (Some (Access_Write a (take (Z.to_nat n) (drop (read_len l i) bs))))) ->
  exists w', serve_run (length l) c (mkProcOp s k []) w = Some (mkProcOp s (k + length l) [], w') /\ w_uart w' = w_uart w /\
    forall x, w_mem w' x = write_bytes (w_mem w) base bs x.
Proof.
  intros Hc Hok Hu Hdue. pose proof (serve_writes c (fun i => mkProcOp s (k + i) []) base bs l w Hc Hok Hu Hdue) as Hs.
  cbn beta in Hs. rewrite Nat.add_0_r in Hs. apply Hs.
  intros i Hi. destruct (lookup_lt_is_Some_2 l i Hi) as [[a n] Ha]. cbn [complete proc_op_stepper].
  unfold ProcOp.complete. rewrite (Hdue i a n Ha). cbn [mbind result_bind map_err po_data]. rewrite advance_nil, Nat.add_succ_r. reflexivity.
Qed.

Lemma written_piece step chunks base bytes l from n i a k :
  chunks !! step = Some (a, k) -> l !! i = Some (a, k) ->
  contiguous (base + Z.of_nat from) (base + Z.of_nat from + n) l -> Forall chunk_ok l ->
  (from + Z.to_nat n <= length bytes)%nat ->
  ProcOp.written step chunks base bytes = Ok (Some (Access_Write a (take (Z.to_nat k) (drop (read_len l i) (drop from bytes))))).
Proof.
  intros Hs Hi Hc Hok Hl. destruct (piece _ _ _ Hc Hok i a k Hi) as (Ha & Hk & HS & Hle). unfold ProcOp.written. rewrite Hs.
  replace (a - base) with (Z.of_nat (from + read_len l i)) by lia. rewrite Nat2Z.id, sub_slice_ok by lia.
  rewrite drop_drop. reflexivity.
Qed.

Lemma read_frame_served w :
  let n := length (frame_chunks c) in
  serve_run n c (ProcOp.new Stage_ReadFrame) w
  = Some (mkProcOp Stage_ReadFrame n (read_bytes (w_mem w) frame FRAME_BYTES), w).
Proof.
  destruct (chunk_list_spec frame FRAME_BYTES ltac:(discriminate)) as [Hc Hok]. fold (frame_chunks c) in Hc, Hok.
  apply (serve_reads c (fun i d => mkProcOp Stage_ReadFrame i d)); auto.
  - intros i a n data Hi _. cbn [due proc_op_stepper]. unfold ProcOp.access, ProcOp.read_at. cbn [po_stage po_step]. rewrite Hi. reflexivity.
  - intros i a n data bs Hi Hd Hb. cbn [complete proc_op_stepper]. unfold ProcOp.complete, ProcOp.access, ProcOp.read_at.
    cbn [po_stage po_step po_data]. rewrite Hi. cbn [mbind result_bind option_bind map_err]. rewrite Hb, Z.eqb_refl. cbn [negb].
    rewrite advance_same; [reflexivity |]. intros _. cbn [ProcOp.data_len]. rewrite length_app, Hd.
    destruct (piece _ _ _ Hc Hok i a n Hi) as (_ & ? & -> & _). lia.
Qed.

Lemma shutdown_served reason w :
  uart_apart ->
  let n := length (shutdown_chunks c) in
  exists w', serve_run n c (ProcOp.new (Stage_Shutdown reason)) w = Some (mkProcOp (Stage_Shutdown reason) n [], w') /\
    w_uart w' = w_uart w /\ forall x, w_mem w' x = write_bytes (w_mem w) (frame + FRAME_ACTION) (shutdown_bytes reason) x.
Proof.
  intros Hu n. destruct (chunk_list_spec (frame + FRAME_ACTION) 8 ltac:(lia)) as [Hc Hok]. fold (shutdown_chunks c) in Hc, Hok.
  assert (Hl : length (shutdown_bytes reason) = 8%nat) by (unfold shutdown_bytes; rewrite length_app, !length_to_le; reflexivity).
  apply (serve_stage_writes (Stage_Shutdown reason) 0); rewrite ?Hl; auto.
  - unfold uart_apart, FRAME_BYTES, FRAME_ACTION in *. lia.
  - intros i a k Hi. unfold ProcOp.access. cbn [po_stage po_step Nat.add].
    apply (written_piece i _ _ _ (shutdown_chunks c) 0 8 i a k Hi Hi); rewrite ?Z.add_0_r; auto.
Qed.

Lemma length_to_frame cx : length (cx_regs cx) = 31%nat -> length (Context.to_frame cx) = Z.to_nat CONTEXT_BYTES.
Proof. intros Hl. unfold Context.to_frame. rewrite length_words, length_app, Hl. reflexivity. Qed.

Lemma dispatch_pieces cx satp :
  length (cx_regs cx) = 31%nat ->
  length (dispatch_bytes cx satp) = Z.to_nat FRAME_BYTES /\
  take (Z.to_nat CONTEXT_BYTES) (dispatch_bytes cx satp) = Context.to_frame cx /\
  take 8 (drop (Z.to_nat FRAME_SATP) (dispatch_bytes cx satp)) = to_le 4 satp ++ to_le 4 0.
Proof.
  intros Hr. pose proof (length_to_frame cx Hr) as Hl. unfold dispatch_bytes, put_word.
  change (Z.to_nat CONTEXT_BYTES) with 132%nat in *. change (Z.to_nat FRAME_SATP) with 140%nat.
  change (Z.to_nat (FRAME_BYTES - CONTEXT_BYTES)) with 20%nat. split_and!.
  - rewrite !length_app, length_take, length_drop, length_app, Hl, length_replicate, length_to_le. reflexivity.
  - rewrite take_app_le by (rewrite length_take, length_app, Hl, length_replicate; lia).
    rewrite take_take, Nat.min_l, take_app_length' by lia. reflexivity.
  - rewrite drop_app_length' by (rewrite length_take, length_app, Hl, length_replicate; lia).
    rewrite drop_app_ge by lia. rewrite Hl, drop_replicate. reflexivity.
Qed.

(** A dispatch leaves the context, [satp] and [action = Resume] in the frame. *)
Lemma dispatch_served i cx satp w :
  uart_apart -> length (cx_regs cx) = 31%nat ->
  let n := length (dispatch_chunks c) in
  exists w', serve_run n c (ProcOp.new (Stage_Dispatch i cx satp)) w = Some (mkProcOp (Stage_Dispatch i cx satp) n [], w') /\
    w_uart w' = w_uart w /\
    forall x, w_mem w' x = write_bytes (write_bytes (w_mem w) frame (Context.to_frame cx)) (frame + FRAME_SATP) (to_le 4 satp ++ to_le 4 0) x.
Proof.
  intros Hu Hr n. destruct (dispatch_pieces cx satp Hr) as (Hl & Ht & Hd). pose proof (length_to_frame cx Hr) as Hlf.
  destruct (chunk_list_spec frame CONTEXT_BYTES ltac:(discriminate)) as [Hc1 Hok1].
  destruct (chunk_list_spec (frame + FRAME_SATP) 8 ltac:(lia)) as [Hc2 Hok2].
  set (l1 := chunk_list frame CONTEXT_BYTES) in *. set (l2 := chunk_list (frame + FRAME_SATP) 8) in *.
  assert (Hn : n = (length l1 + length l2)%nat) by apply length_app.
  set (s := Stage_Dispatch i cx satp). destruct (serve_stage_writes s 0 frame (Context.to_frame cx) l1 w) as (w1 & E1 & Hu1 & Hm1); auto.
  - rewrite Hlf. exact Hc1.
  - rewrite Hlf. unfold uart_apart, FRAME_BYTES, CONTEXT_BYTES in *. lia.
  - intros j a k Hj. subst s. unfold ProcOp.access. cbn [po_stage po_step Nat.add].
    rewrite (written_piece j _ _ _ l1 0 CONTEXT_BYTES j a k); rewrite ?Z.add_0_r; auto.
    + destruct (piece _ _ _ Hc1 Hok1 j a k Hj) as (_ & Hk & HS & Hle). rewrite drop_0, <- Ht, take_drop_take by lia. reflexivity.
    + unfold dispatch_chunks. apply lookup_app_l_Some, Hj.
    + rewrite Hl. unfold FRAME_BYTES, CONTEXT_BYTES. lia.
  - destruct (serve_stage_writes s (length l1) (frame + FRAME_SATP) (to_le 4 satp ++ to_le 4 0) l2 w1) as (w2 & E2 & Hu2 & Hm2); auto.
    + rewrite length_app, !length_to_le. unfold uart_apart, FRAME_BYTES, FRAME_SATP in *. lia.
    + intros j a k Hj. subst s. unfold ProcOp.access. cbn [po_stage po_step]. rewrite <- Hd.
      rewrite (written_piece _ _ _ _ l2 (Z.to_nat FRAME_SATP) 8 j a k); auto.
      * destruct (piece _ _ _ Hc2 Hok2 j a k Hj) as (_ & Hk & HS & Hle). rewrite take_drop_take by lia. reflexivity.
      * unfold dispatch_chunks. fold l1 l2. rewrite lookup_app_r by lia. rewrite <- Hj. f_equal. lia.
      * rewrite Hl. unfold FRAME_BYTES, FRAME_SATP. lia.
    + exists w2. rewrite Hn, serve_run_app. unfold ProcOp.new. rewrite E1. cbn [mbind option_bind]. split; [exact E2 |].
      split; [congruence |]. intros x. rewrite Hm2. apply mem_write_ext, Hm1.
Qed.

(** A return writes [a0], then [sepc + 4]. *)
Lemma return_served sepc value w :
  uart_apart ->
  exists w', serve_run 2 c (ProcOp.new (Stage_Return sepc value)) w = Some (mkProcOp (Stage_Return sepc value) 2 [], w') /\
    w_uart w' = w_uart w /\
    forall x, w_mem w' x = write_bytes (write_bytes (w_mem w) (frame + FRAME_A0) (to_le 4 value)) (frame + FRAME_SEPC) (to_le 4 (wrap 32 (sepc + 4))) x.
Proof.
  intros Hu. unfold uart_apart, FRAME_BYTES in Hu. exists (mkWorld (write_bytes (write_bytes (w_mem w) (frame + FRAME_A0) (to_le 4 value))
    (frame + FRAME_SEPC) (to_le 4 (wrap 32 (sepc + 4)))) (w_uart w)). split; [|auto].
  change 2%nat with (1 + 1)%nat at 1. rewrite serve_run_app.
  rewrite (serve_one c (ProcOp.new (Stage_Return sepc value)) (mkProcOp (Stage_Return sepc value) 1 []) w
    (mkWorld (write_bytes (w_mem w) (frame + FRAME_A0) (to_le 4 value)) (w_uart w))
    (Access_Write (frame + FRAME_A0) (to_le 4 value)) Completion_Written); [|reflexivity | | reflexivity].
  - cbn [mbind option_bind].
    eapply (serve_one c _ _ _ _ (Access_Write (frame + FRAME_SEPC) (to_le 4 (wrap 32 (sepc + 4)))) Completion_Written);
      [reflexivity | | reflexivity].
    cbn [serve]. destruct (Z.eqb_spec (frame + FRAME_SEPC) (kc_uart_tx c)); [unfold FRAME_SEPC in *; lia | reflexivity].
  - cbn [serve]. destruct (Z.eqb_spec (frame + FRAME_A0) (kc_uart_tx c)); [unfold FRAME_A0 in *; lia | reflexivity].
Qed.

Lemma walk_served b pages table level w :
  let a := user_pte_address table (Buffer.page_va b (Z.of_nat (length pages))) level in
  serve_run 1 c (ProcOp.new (Stage_Walk b pages table level)) w
  = Some (mkProcOp (Stage_Walk b pages table level) 1 (read_bytes (w_mem w) a 4), w).
Proof. cbv zeta. eapply serve_one; [reflexivity | reflexivity |]. reflexivity. Qed.

(** An output sends the bytes of its chunk, in order, and writes nothing else. *)
Lemma output_served b pages done pa w :
  let '(va, len) := Buffer.chunk b done in
  physical b pages va = Ok pa -> 1 <= len ->
  let n := S (Z.to_nat len) in
  let bs := read_bytes (w_mem w) pa len in
  serve_run n c (ProcOp.new (Stage_Output b pages done)) w
  = Some (mkProcOp (Stage_Output b pages done) n bs, mkWorld (w_mem w) (w_uart w ++ bs)).
Proof.
  destruct (Buffer.chunk b done) as [va len] eqn:Ek. intros Hp Hl n bs. set (s := Stage_Output b pages done).
  assert (Hb : length bs = Z.to_nat len) by apply read_bytes_length.
  assert (Hsteps : forall k d, ProcOp.steps c (mkProcOp s k d) = n) by (intros k d; unfold ProcOp.steps, s; cbn [po_stage]; rewrite Ek; reflexivity).
  assert (Hk : forall k, (k <= Z.to_nat len)%nat ->
    serve_run k c (mkProcOp s 1 bs) w = Some (mkProcOp s (1 + k) bs, mkWorld (w_mem w) (w_uart w ++ take k bs))).
  { induction k as [|k IH]; intros Hk; [cbn; rewrite app_nil_r; destruct w; reflexivity |].
    replace (S k) with (k + 1)%nat at 1 by lia. rewrite serve_run_app, IH by lia. cbn [mbind option_bind].
    destruct (lookup_lt_is_Some_2 bs k ltac:(lia)) as [x Hx].
    assert (Hdue : ProcOp.access c (mkProcOp s (1 + k) bs) = Ok (Some (Access_Write (kc_uart_tx c) [x]))).
    { unfold ProcOp.access, s. cbn [po_stage po_step po_data]. rewrite Ek. cbn [Nat.add Nat.eqb].
      destruct (Z.leb_spec (Z.of_nat (S k)) len); [|lia]. cbn [Nat.sub]. rewrite Nat.sub_0_r. unfold index_of. rewrite Hx. reflexivity. }
    eapply serve_one; [exact Hdue | cbn [serve w_uart w_mem]; rewrite Z.eqb_refl, <- app_assoc, <- (take_S_r _ _ _ Hx); reflexivity |].
    cbn [complete proc_op_stepper]. unfold ProcOp.complete. rewrite Hdue. cbn [mbind result_bind map_err po_data].
    rewrite advance_same; [reflexivity |]. intros _. unfold s, ProcOp.data_len. rewrite Ek. exact Hb. }
  change n with (1 + Z.to_nat len)%nat at 1. rewrite serve_run_app.
  assert (Hdue : ProcOp.access c (ProcOp.new s) = Ok (Some (Access_Read pa len))).
  { unfold ProcOp.access, s. cbn [po_stage po_step ProcOp.new]. rewrite Ek, Hp. reflexivity. }
  erewrite (serve_one c _ (mkProcOp s 1 bs)); [| exact Hdue | reflexivity |].
  - cbn [mbind option_bind]. rewrite Hk, take_ge by lia. reflexivity.
  - cbn [complete proc_op_stepper]. unfold ProcOp.complete. rewrite Hdue. cbn [mbind result_bind map_err ProcOp.new po_data].
    fold bs. rewrite Hb, Z2Nat.id, Z.eqb_refl by lia. cbn [negb]. unfold ProcOp.new. rewrite advance_same; [reflexivity |].
    intros _. unfold s, ProcOp.data_len. rewrite Ek. exact Hb.
Qed.
End stages.
