(* ===== verification/OsModel.v ===== *)
(** The process-mode kernel metadata, [Model] of [components/os/src/procop.rs]: what an [ENTER]
    starts and what follows a finished stage.  Every change of the process table, the frame
    pool and the kernel's life happens here, at a stage boundary. *)
From stdpp Require Import base numbers list option strings sorting.
From Stdlib Require Import ZArith Lia.
From S2P Require Import Prelude Contracts Words Csr Privileged Sv32 Elf Text ExecTable OsConfig OsFrames OsSpace OsSpaceProofs OsCore OsSyscall OsProcess OsProcOp.

Local Open Scope string_scope.
Local Open Scope list_scope.
Local Open Scope Z_scope.

Definition BOOT_KIND : string := "os.boot".
Definition CREATE_KIND : string := "os.process.create".
Definition SEGMENT_KIND : string := "os.load.segment".
Definition SWITCH_KIND : string := "os.process.switch".
Definition FAULT_KIND : string := "os.process.fault".
Definition SYSCALL_ENTER_KIND : string := "os.syscall.enter".
Definition SYSCALL_EXIT_KIND : string := "os.syscall.exit".
Definition EXIT_KIND : string := "os.process.exit".
Definition SHUTDOWN_KIND : string := "os.shutdown".

Inductive Life : Set := AwaitBoot | Up | Down.

#[export] Instance Life_eq_dec : EqDecision Life.
Proof. solve_decision. Defined.

Record Note : Set := mkNote { note_kind : string; note_fields : list (string * Value) }.

Inductive Source : Set :=
| Source_Plan (plan : ProcessPlan)
| Source_Disk (disk : DiskBoot).

Module Source.
Definition layout (s : Source) : UserLayout :=
  match s with Source_Plan plan => plan_layout plan | Source_Disk disk => disk_layout disk end.
End Source.

(** The field [entries] is [mo_entries]. *)
Record Model : Set := mkModel { mo_source : Source; mo_entries : nat; mo_procs : Processes; mo_life : Life }.

Definition set_life (l : Life) (m : Model) : Model := mkModel (mo_source m) (mo_entries m) (mo_procs m) l.
Definition set_entries (n : nat) (m : Model) : Model := mkModel (mo_source m) n (mo_procs m) (mo_life m).
Definition set_procs (p : Processes) (m : Model) : Model := mkModel (mo_source m) (mo_entries m) p (mo_life m).

Definition shutdown_note (reason : Z) (detail : string) : Note :=
  mkNote SHUTDOWN_KIND [("reason", VU64 reason); ("detail", VStr detail)].

Definition exit_note (pid nr ret : Z) : Note :=
  mkNote SYSCALL_EXIT_KIND [("pid", VU64 pid); ("nr", VU64 nr); ("ret", VU64 ret)].

Definition create_error (pid entry : Z) (error : string) : Note :=
  mkNote CREATE_KIND [("pid", VU64 pid); ("entry", VU64 entry); ("root", VU64 0); ("error", VStr error)].

(** [perm_str] of [image.rs]. *)
Definition perm_str (p : Perms) : string :=
  (if read p then "r" else "-") +:+ (if write p then "w" else "-") +:+ (if execute p then "x" else "-").

(** ** The model's computations

    They change the model, append to [notes], and end in a [Violation], which the component
    returns as a fault, or a panic. *)
Abbreviation MM := (ST (Model * list Note) Failure).

#[export] Instance ST_fmap {S E} : FMap (ST S E) := fun A B f m => x ← m; mret (f x).

Definition model : MM Model := fun s => (s, Ok (fst s)).
Definition modify (f : Model -> Model) : MM unit := fun '(m, ns) => ((f m, ns), Ok tt).
Definition push (n : Note) : MM unit := fun '(m, ns) => ((m, ns ++ [n]), Ok tt).
Definition violation {A} (what : string) : MM A := st_fail (Fails (ComponentFault what)).
Definition panics {A} (what : string) : MM A := st_fail (Panics what).
(** A possible panic. *)
Definition no_panic {A} (r : result string A) : MM A := fun s => (s, map_err Panics r).
(** A method of the process table, its [Violation] returned by [?]. *)
Definition procs {A} (f : ST Processes Violation A) : MM A := fun '(m, ns) =>
  let '(p, r) := f (mo_procs m) in ((set_procs p m, ns), map_err (fun v => Fails (ComponentFault v)) r).
(** [self.procs.frames_mut().reserve(..)]. *)
Definition reserve (pid : Z) (n : nat) : MM (option (list Z)) := fun '(m, ns) =>
  let '(f, r) := Frames.reserve pid n (pool (mo_procs m)) in ((set_procs (set_pool f (mo_procs m)) m, ns), r).

Fixpoint push_all (l : list Note) : MM unit :=
  match l with [] => mret tt | n :: l => push n;; push_all l end.

Module Model.
Definition new (source : Source) (p : Processes) : Model :=
  let entries := match source with Source_Plan plan => length (plan_images plan) | Source_Disk _ => O end in
  mkModel source entries p AwaitBoot.

Definition op_name (m : Model) (c : KernelConfig) (value : Z) : string :=
  if negb (value =? kc_trap_frame c) then "shutdown"
  else match mo_life m with AwaitBoot => "boot" | Up | Down => "trap" end.

Definition empty_queue_reason (m : Model) : Z :=
  let l := pcbs (mo_procs m) in
  let clean := (length l =? mo_entries m)%nat && forallb (fun p => bool_decide (state p = Exited 0)) l in
  Z.b2z (negb clean).

Definition dispatch_next (from : Z) : MM ProcOp :=
  next ← procs Processes.schedule_next;
  m ← model;
  match next with
  | Some (pid, context) =>
      match Processes.pcb (mo_procs m) pid with
      | None => panics "scheduled"
      | Some p =>
          push (mkNote SWITCH_KIND [("from", VU64 from); ("to", VU64 pid)]);;
          mret (ProcOp.new (Stage_Dispatch pid context (Pte.satp (pcb_root p))))
      end
  | None =>
      let reason := empty_queue_reason m in
      modify (set_life Down);;
      push (shutdown_note reason "the run queue is empty");;
      mret (ProcOp.new (Stage_Shutdown reason))
  end.

(** [for index in from..plan.images.len()], over the images from [index] on. *)
Fixpoint next_creation_loop (c : KernelConfig) (layout : UserLayout) (index : nat) (images : list BootImage) : MM ProcOp :=
  match images with
  | [] => dispatch_next 0
  | boot :: images =>
      let pid := Z.of_nat index + 1 in
      let entry := ui_entry (bi_image boot) in
      if megapage_conflict (bi_image boot) c then
        push (create_error pid entry "a segment is in a megapage slot");;
        next_creation_loop c layout (S index) images
      else
        frames ← reserve pid (frames_needed (bi_image boot) layout);
        match frames with
        | None =>
            push (create_error pid entry "frame pool exhausted");;
            next_creation_loop c layout (S index) images
        | Some frames =>
            space ← no_panic (ok_or (Space.build c layout boot frames) "an address space past its frames");
            mret (ProcOp.new (Stage_Create pid space))
        end
  end.

Definition next_creation (c : KernelConfig) (from : nat) : MM ProcOp :=
  m ← model;
  match mo_source m with
  | Source_Disk _ => violation "a plan creation without a plan"
  | Source_Plan plan => next_creation_loop c (plan_layout plan) from (drop from (plan_images plan))
  end.

(** [admit]. *)
Definition admit_created (pid : Z) (image : UserImage) (space : Space) : MM unit :=
  m ← model;
  let context := Context.initial (ui_entry image) (stack_top (Source.layout (mo_source m))) in
  procs (Processes.admit_process (Pcb.new pid space context));;
  push_all ((fun s => mkNote SEGMENT_KIND
               [("pid", VU64 pid); ("va", VU64 (us_vaddr s)); ("memsz", VU64 (us_memsz s));
                ("perms", VStr (perm_str (us_perms s)))]) <$> ui_segments image);;
  push (mkNote CREATE_KIND
          [("pid", VU64 pid); ("entry", VU64 (ui_entry image)); ("root", VU64 (sp_root space)); ("error", VStr "")]).

Definition fail (detail : string) : MM ProcOp :=
  modify (set_life Down);;
  push (shutdown_note 1 detail);;
  mret (ProcOp.new (Stage_Shutdown 1)).

Definition next_load (table : option ExecTable) (index : nat) : MM ProcOp :=
  match table with
  | Some t =>
      if (index <? length (entries t))%nat then mret (ProcOp.new (Stage_Command (mkCursor (Some t) index)))
      else dispatch_next 0
  | None => dispatch_next 0
  end.

Definition acked (cursor : Cursor) (error : Z) : MM ProcOp :=
  if error =? 0 then
    len ← no_panic (Cursor.first_read cursor);
    mret (ProcOp.new (Stage_Staged cursor len))
  else
    match cu_table cursor with
    | None => fail ("block controller error " +:+ dec error +:+ " reading the executable table")
    | Some _ =>
        push (create_error (Cursor.pid cursor) 0 ("block controller error " +:+ dec error));;
        next_load (cu_table cursor) (S (cu_index cursor))
    end.

(** The part of [staged] that loads an executable. *)
Definition staged_image (c : KernelConfig) (disk : DiskBoot) (cursor : Cursor) (entry : ExecEntry) (len : Z) (data : list Z) : MM ProcOp :=
  let pid := Cursor.pid cursor in
  let next := S (cu_index cursor) in
  let skip entry error := push (create_error pid entry error);; next_load (cu_table cursor) next in
  let '(lo, hi) := UserLayout.image_range (disk_layout disk) in
  match parse_user_elf32 data (byte_len entry) lo hi with
  | Err (PrefixTooShort needed as e) =>
      if len <? needed then mret (ProcOp.new (Stage_Staged cursor needed)) else skip 0 (to_string e)
  | Err e => skip 0 (to_string e)
  | Ok image =>
      if megapage_conflict image c then skip (ui_entry image) "a segment is in a megapage slot"
      else
        frames ← reserve pid (frames_needed image (disk_layout disk));
        match frames with
        | None => skip (ui_entry image) "frame pool exhausted"
        | Some frames =>
            let boot := mkBootImage (wrap 32 (w_base (kc_staging c))) (byte_len entry) image in
            space ← no_panic (ok_or (Space.build c (disk_layout disk) boot frames) "an address space past its frames");
            mret (ProcOp.new (Stage_Load cursor data image space))
        end
  end.

Definition staged (c : KernelConfig) (cursor : Cursor) (len : Z) (data : list Z) : MM ProcOp :=
  m ← model;
  match mo_source m with
  | Source_Plan _ => violation "a disk read without a disk"
  | Source_Disk disk =>
      entry ← no_panic (Cursor.entry cursor);
      match entry with
      | None =>
          if negb (Z.of_nat (length data) =? ExecTable.BLOCK_SIZE) then violation "block 0 read is not one block"
          else
            match parse_exec_table data (capacity_blocks disk) (DiskBoot.staging_size c) with
            | Err e => fail ("invalid executable table: " +:+ to_string e)
            | Ok table =>
                modify (set_entries (length (entries table)));;
                push (mkNote BOOT_KIND [("entries", VU64 (Z.of_nat (length (entries table))))]);;
                next_load (Some table) 0
            end
      | Some entry => staged_image c disk cursor entry len data
      end
  end.

Definition running_root : MM Z :=
  m ← model;
  match current (mo_procs m) with
  | None => violation "a syscall with no process running"
  | Some pid =>
      match Processes.pcb (mo_procs m) pid with
      | None => violation "running PID has no PCB"
      | Some p => mret (pcb_root p)
      end
  end.

Definition running_pid : MM Z :=
  m ← model;
  match current (mo_procs m) with
  | None => violation "a syscall with no process running"
  | Some pid => mret pid
  end.

Definition ret (nr sepc value : Z) : MM ProcOp :=
  pid ← running_pid;
  push (exit_note pid nr value);;
  mret (ProcOp.new (Stage_Return sepc value)).

(** A [write] of [n] bytes at [buf] to [fd]. *)
Definition sys_write (nr sepc fd buf count : Z) : MM ProcOp :=
  if negb (fd =? 1) && negb (fd =? 2) then ret nr sepc (neg EBADF)
  else
    let n := Z.min count WRITE_MAX in
    if n =? 0 then ret nr sepc 0
    else
      match Buffer.new sepc buf n with
      | None => ret nr sepc (neg EFAULT)
      | Some buffer =>
          root ← running_root;
          mret (ProcOp.new (Stage_Walk buffer [] root 1))
      end.

Definition syscall (frame : list Z) : MM ProcOp :=
  pid ← running_pid;
  sepc ← no_panic (frame_word frame FRAME_SEPC);
  nr ← no_panic (frame_word frame FRAME_A7);
  a0 ← no_panic (frame_word frame FRAME_A0);
  a1 ← no_panic (frame_word frame FRAME_A1);
  a2 ← no_panic (frame_word frame FRAME_A2);
  push (mkNote SYSCALL_ENTER_KIND [("pid", VU64 pid); ("nr", VU64 nr); ("a0", VU64 a0); ("a1", VU64 a1); ("a2", VU64 a2)]);;
  match Syscall.decode nr with
  | Sys_GetPid => ret nr sepc pid
  | Sys_Unsupported _ => ret nr sepc (neg ENOSYS)
  | Sys_Write => sys_write nr sepc a0 a1 a2
  | Sys_SchedYield =>
      context ← no_panic (ok_or (Context.from_frame frame) "4 bytes");
      let context := mkContext (<[A0 := 0]> (cx_regs context)) (wrap 32 (sepc + 4)) (cx_sstatus context) in
      push (exit_note pid nr 0);;
      procs (Processes.yield_current context);;
      dispatch_next pid
  | Sys_Exit | Sys_ExitGroup =>
      let status := as_i32 a0 in
      procs (Processes.end_current (Exited status));;
      push (mkNote EXIT_KIND [("pid", VU64 pid); ("status", VI64 status)]);;
      dispatch_next pid
  end.

Definition decide (frame : list Z) : MM ProcOp :=
  sstatus ← no_panic (frame_word frame FRAME_SSTATUS);
  scause ← no_panic (frame_word frame FRAME_SCAUSE);
  sepc ← no_panic (frame_word frame FRAME_SEPC);
  stval ← no_panic (frame_word frame FRAME_STVAL);
  if has_bit sstatus SSTATUS_SPP then
    modify (set_life Down);;
    push (shutdown_note 1 ("trap from S-mode: " +:+ cause_name scause));;
    mret (ProcOp.new (Stage_Shutdown 1))
  else if scause =? ECALL_FROM_U then syscall frame
  else
    pid ← procs (Processes.end_current (Faulted scause sepc stval));
    push (mkNote FAULT_KIND [("pid", VU64 pid); ("cause", VStr (cause_name scause)); ("epc", VU64 sepc); ("tval", VU64 stval)]);;
    dispatch_next pid.

Definition start (c : KernelConfig) (value : Z) : MM ProcOp :=
  m ← model;
  if negb (value =? kc_trap_frame c) then
    if bool_decide (mo_life m = Down) then violation "ENTER after the shutdown"
    else
      modify (set_life Down);;
      push (shutdown_note 1 "ENTER value is not the trap frame");;
      mret (ProcOp.new (Stage_Shutdown 1))
  else
    match mo_life m with
    | AwaitBoot =>
        modify (set_life Up);;
        match mo_source m with
        | Source_Disk _ => mret (ProcOp.new (Stage_Command Cursor.table))
        | Source_Plan _ =>
            push (mkNote BOOT_KIND [("entries", VU64 (Z.of_nat (mo_entries m)))]);;
            next_creation c 0
        end
    | Up =>
        if bool_decide (is_Some (current (mo_procs m))) then mret (ProcOp.new Stage_ReadFrame)
        else violation "ENTER with no process running"
    | Down => violation "ENTER after the shutdown"
    end.

(** After a walk's PTE. *)
Definition walked (buffer : Buffer) (pages : list Z) (level : Z) (data : list Z) : MM ProcOp :=
  pte ← no_panic (frame_word data 0);
  let va := Buffer.page_va buffer (Z.of_nat (length pages)) in
  match walk_step pte level va with
  | Walk_Next table => mret (ProcOp.new (Stage_Walk buffer pages table 0))
  | Walk_Page ppn =>
      let pages := pages ++ [ppn] in
      if Z.of_nat (length pages) =? Buffer.pages buffer then mret (ProcOp.new (Stage_Output buffer pages 0))
      else
        root ← running_root;
        mret (ProcOp.new (Stage_Walk buffer pages root 1))
  | Walk_Fault => ret SYS_WRITE (bf_sepc buffer) (neg EFAULT)
  end.

Definition advance (c : KernelConfig) (op : ProcOp) : MM (option ProcOp) :=
  match po_stage op with
  | Stage_Create pid space =>
      m ← model;
      match mo_source m with
      | Source_Disk _ => violation "a plan creation without a plan"
      | Source_Plan plan =>
          boot ← no_panic (if pid =? 0 then Err "attempt to subtract with overflow" else index_of (plan_images plan) (Z.to_nat pid - 1));
          admit_created pid (bi_image boot) space;;
          Some <$> next_creation c (Z.to_nat pid)
      end
  | Stage_Load cursor _ image space =>
      admit_created (Cursor.pid cursor) image space;;
      Some <$> next_load (cu_table cursor) (S (cu_index cursor))
  | Stage_Command cursor => mret (Some (ProcOp.new (Stage_Poll cursor)))
  | Stage_Poll cursor =>
      status ← no_panic (frame_word (po_data op) 0);
      mret (Some (ProcOp.new
        (if has_bit status STATUS_DONE then Stage_Ack cursor (wrap 8 (Z.shiftr status STATUS_ERROR_SHIFT))
         else Stage_Poll cursor)))
  | Stage_Ack cursor error => Some <$> acked cursor error
  | Stage_Staged cursor len => Some <$> staged c cursor len (po_data op)
  | Stage_ReadFrame => Some <$> decide (po_data op)
  | Stage_Walk buffer pages _ level => Some <$> walked buffer pages level (po_data op)
  | Stage_Output buffer pages done =>
      let done := done + snd (Buffer.chunk buffer done) in
      if done =? bf_n buffer then Some <$> ret SYS_WRITE (bf_sepc buffer) (bf_n buffer)
      else mret (Some (ProcOp.new (Stage_Output buffer pages done)))
  | Stage_Dispatch _ _ _ | Stage_Shutdown _ | Stage_Return _ _ => mret None
  end.
End Model.
