(* ===== verification/OsModelProofs.v ===== *)
(** The invariant of the process-mode kernel: [Model] and the stage its operation is in.

    Proved: from a model in the invariant, every computation of [Model] (starting an operation,
    moving past a finished stage, every branch of the boot, the system calls and the scheduler)
    ends in the invariant again, and never in a violation or a panic. *)
From stdpp Require Import base numbers list option strings sorting.
From Stdlib Require Import ZArith Lia.
From S2P Require Import Prelude Contracts Words Csr Privileged Sv32 Elf Text ExecTable OsConfig OsFrames OsSpace OsSpaceProofs OsCore OsSyscall OsProcess OsProcOp OsModel.

Local Open Scope string_scope.
Local Open Scope list_scope.
Local Open Scope Z_scope.

(** * Running a computation *)

Section rules.
Context {A : Type} (Q : A -> Model * list Note -> Prop) (X : Failure -> Model * list Note -> Prop).

Lemma wp_fmap {B} (f : B -> A) (m : MM B) s : wp m (fun b => Q (f b)) X s -> wp (f <$> m) Q X s.
Proof. intros H. apply wp_bind. exact H. Qed.

Lemma wp_no_panic (r : result string A) a s : r = Ok a -> Q a s -> wp (no_panic r) Q X s.
Proof. intros -> H. exact H. Qed.

Lemma wp_procs (f : ST Processes Violation A) p a m ns :
  f (mo_procs m) = (p, Ok a) -> Q a (set_procs p m, ns) -> wp (procs f) Q X (m, ns).
Proof. intros E H. unfold wp, procs. rewrite E. exact H. Qed.
End rules.

Lemma wp_model Q X m ns : Q m (m, ns) -> wp model Q X (m, ns).
Proof. auto. Qed.
Lemma wp_modify f Q X m ns : Q tt (f m, ns) -> wp (modify f) Q X (m, ns).
Proof. auto. Qed.
Lemma wp_push n Q X m ns : Q tt (m, ns ++ [n]) -> wp (push n) Q X (m, ns).
Proof. auto. Qed.
Lemma wp_push_all l Q X m : (forall ns, Q tt (m, ns)) -> forall ns, wp (push_all l) Q X (m, ns).
Proof.
  intros H. induction l as [|n l IH]; intros ns; cbn [push_all]; [apply wp_ret, H |].
  apply wp_bind, wp_push, IH.
Qed.

Ltac mm_step :=
  lazymatch goal with
  | |- wp (mbind _ (procs _)) _ _ _ => fail
  | |- wp (mbind _ _) _ _ _ => apply wp_bind
  | |- wp (_ <$> _) _ _ _ => apply wp_fmap
  | |- wp model _ _ _ => apply wp_model
  | |- wp (modify _) _ _ _ => apply wp_modify
  | |- wp (push _) _ _ _ => apply wp_push
  | |- wp (mret _) _ _ _ => apply wp_ret
  end.
Ltac mm_run := repeat (mm_step; cbn beta iota zeta).

(** * The invariant *)

Definition layout_typed (l : UserLayout) : Prop :=
  in_u 32 (user_base l) /\ in_u 32 (stack_top l) /\ in_u 32 (stack_pages l).

(** A source the constructors accepted. *)
Definition source_ok (c : KernelConfig) (s : Source) : Prop :=
  layout_typed (Source.layout s) /\
  match s with
  | Source_Plan plan =>
      ProcessPlan.validate plan c = Ok tt /\ Forall (fun b => in_u 32 (bi_file_len b)) (plan_images plan)
  | Source_Disk disk => DiskBoot.validate disk c = Ok tt
  end.

(** The contexts are arrays of 31 registers. *)
Definition contexts_ok (s : Processes) : Prop :=
  Forall (fun p => forall cx, context p = Some cx -> length (cx_regs cx) = 31%nat) (pcbs s).

Record model_ok (c : KernelConfig) (m : Model) (cr : option (Z * list Z)) : Prop := {
  ok_source : source_ok c (mo_source m);
  ok_entries : match mo_source m with
               | Source_Plan plan => mo_entries m = length (plan_images plan)
               | Source_Disk _ => (mo_entries m <= ExecTable.MAX_ENTRIES)%nat
               end;
  ok_procs : proc_inv (mo_procs m) (Z.of_nat (mo_entries m)) cr;
  ok_contexts : contexts_ok (mo_procs m);
}.

(** The creation a stage is in. *)
Definition creating (s : Stage) : option (Z * list Z) :=
  match s with
  | Stage_Create pid space => Some (pid, sp_frames space)
  | Stage_Load cursor _ _ space => Some (Cursor.pid cursor, sp_frames space)
  | _ => None
  end.

Definition built (c : KernelConfig) (layout : UserLayout) (boot : BootImage) (space : Space) : Prop :=
  length (sp_frames space) = frames_needed (bi_image boot) layout /\ Space.build c layout boot (sp_frames space) = Some space.

Definition booting (m : Model) : Prop := mo_life m = Up /\ current (mo_procs m) = None.
Definition running (m : Model) : Prop := mo_life m = Up /\ is_Some (current (mo_procs m)).
Definition pids_below (m : Model) (i : Z) : Prop := forall p, p ∈ pcbs (mo_procs m) -> pid p < i.

(** Where a disk boot is: block 0 before any entry is counted, else an entry of the counted
    table, which a boot may load from; no process of that entry or a later one exists. *)
Definition cursor_ok (c : KernelConfig) (m : Model) (cu : Cursor) : Prop :=
  booting m /\ pids_below m (Cursor.pid cu) /\
  exists disk, mo_source m = Source_Disk disk /\
    match cu_table cu with
    | None => cu_index cu = O /\ mo_entries m = O
    | Some t => table_ok (capacity_blocks disk) (DiskBoot.staging_size c) t /\
                mo_entries m = length (entries t) /\ (cu_index cu < length (entries t))%nat
    end.

Definition buffer_ok (b : Buffer) : Prop := Buffer.new (bf_sepc b) (bf_buf b) (bf_n b) = Some b.

Definition stage_ok (c : KernelConfig) (m : Model) (s : Stage) : Prop :=
  match s with
  | Stage_Create pid space =>
      booting m /\ pids_below m pid /\ 1 <= pid /\
      exists plan boot, mo_source m = Source_Plan plan /\ plan_images plan !! (Z.to_nat pid - 1)%nat = Some boot /\
        built c (plan_layout plan) boot space
  | Stage_Load cursor _ image space =>
      cursor_ok c m cursor /\ exists t boot, cu_table cursor = Some t /\ bi_image boot = image /\
        built c (Source.layout (mo_source m)) boot space
  | Stage_Command cursor | Stage_Poll cursor => cursor_ok c m cursor
  | Stage_Ack cursor error => cursor_ok c m cursor /\ in_u 8 error
  | Stage_Staged cursor len => cursor_ok c m cursor /\ 1 <= len /\ (cu_table cursor = None -> len = ExecTable.BLOCK_SIZE)
  | Stage_ReadFrame | Stage_Return _ _ => running m
  | Stage_Dispatch pid cx _ => mo_life m = Up /\ current (mo_procs m) = Some pid /\ length (cx_regs cx) = 31%nat
  | Stage_Shutdown reason => mo_life m = Down /\ 0 <= reason <= 1
  | Stage_Walk buffer pages _ level =>
      running m /\ buffer_ok buffer /\ Z.of_nat (length pages) < Buffer.pages buffer /\ (level = 0 \/ level = 1)
  | Stage_Output buffer pages done =>
      running m /\ buffer_ok buffer /\ Z.of_nat (length pages) = Buffer.pages buffer /\ 0 <= done < bf_n buffer
  end.

(** An operation about to run stage [s]. *)
Definition lands (c : KernelConfig) (op : ProcOp) (s : Model * list Note) : Prop :=
  exists st, op = ProcOp.new st /\ stage_ok c (fst s) st /\ model_ok c (fst s) (creating st).

Definition never (e : Failure) (s : Model * list Note) : Prop := False.

Lemma lands_intro c st m ns : stage_ok c m st -> model_ok c m (creating st) -> lands c (ProcOp.new st) (m, ns).
Proof. intros. exists st. auto. Qed.

(** * The table under the model *)

Lemma inv_more s n n' cr : n <= n' -> proc_inv s n cr -> proc_inv s n' cr.
Proof.
  intros Hn [H1 H2 H3 H4 H5 H6 H7 H8 H9]. split; auto.
  - eapply Forall_impl; [exact H2 |]. cbn. lia.
  - destruct cr as [[i fs]|]; [|exact I]. destruct H7. split; [lia | assumption].
Qed.

Lemma update_all (P : Pcb -> Prop) i g l : (forall p, P p -> P (g p)) -> Forall P l -> Forall P (update_pcb i g l).
Proof.
  intros Hg Hl. induction Hl as [|p l Hp Hl IH]; cbn [update_pcb]; [constructor |]. case_if; constructor; auto.
Qed.

Lemma yield_after cx s s' i :
  Processes.yield_current cx s = (s', Ok i) -> length (cx_regs cx) = 31%nat -> contexts_ok s ->
  current s' = None /\ contexts_ok s'.
Proof.
  unfold Processes.yield_current. destruct (current s) as [j|]; [|discriminate]. destruct (Processes.pcb s j); [|discriminate].
  intros [= <- <-] Hl Hc. split; [reflexivity |]. apply update_all; [|exact Hc]. intros q _ cx' [= <-]. exact Hl.
Qed.

Lemma end_after st s s' i :
  Processes.end_current st s = (s', Ok i) -> contexts_ok s -> current s' = None /\ contexts_ok s'.
Proof.
  unfold Processes.end_current. destruct (negb _); [discriminate |]. destruct (current s) as [j|]; [|discriminate].
  destruct (Processes.pcb s j); [|discriminate]. destruct (Frames.release _ _ _) as [f [[]|]]; [|discriminate].
  intros [= <- <-] Hc. split; [reflexivity |]. apply update_all; [|exact Hc]. intros q _ cx [=].
Qed.

Lemma schedule_after s s' i cx :
  Processes.schedule_next s = (s', Ok (Some (i, cx))) -> contexts_ok s ->
  current s' = Some i /\ contexts_ok s' /\ length (cx_regs cx) = 31%nat.
Proof.
  unfold Processes.schedule_next. destruct (current s); [discriminate |]. destruct (queue s) as [|j q]; [discriminate |].
  destruct (Processes.pcb _ j) as [p|] eqn:Ep; [|discriminate]. destruct (context p) as [cx'|] eqn:Ec; [|discriminate].
  destruct (negb _); [discriminate |]. intros [= <- <- <-] Hc. split; [reflexivity |].
  assert (Hp : forall cx, context p = Some cx -> length (cx_regs cx) = 31%nat).
  { apply find_some in Ep as [Hin _]. unfold contexts_ok in Hc. rewrite Forall_forall in Hc. apply Hc, list_elem_of_In, Hin. }
  split; [|auto]. apply update_all; [auto |]. apply update_all; [intros q' _ cx [=] | exact Hc].
Qed.

Lemma admit_after p s s' :
  Processes.admit_process p s = (s', Ok tt) -> contexts_ok s ->
  (forall cx, context p = Some cx -> length (cx_regs cx) = 31%nat) ->
  current s' = current s /\ contexts_ok s' /\ pcbs s' = pcbs s ++ [p].
Proof.
  unfold Processes.admit_process. do 3 match goal with |- (if ?b then _ else _) = _ -> _ => destruct b; [discriminate |] end.
  intros [= <-] Hc Hp. split; [reflexivity |].
  split; [|reflexivity]. apply Forall_app. split; [exact Hc | apply Forall_singleton, Hp].
Qed.

Lemma initial_regs entry top : length (cx_regs (Context.initial entry top)) = 31%nat.
Proof. cbn. rewrite ?length_insert, ?length_replicate. reflexivity. Qed.

(** * The scheduler *)

Section model.
Context (c : KernelConfig).

Lemma dispatch_next_ok from m ns :
  model_ok c m None -> booting m -> wp (Model.dispatch_next from) (lands c) never (m, ns).
Proof.
  intros Hm [Hup Hcur]. pose proof (ok_procs _ _ _ Hm) as Hinv. pose proof (schedule_inv _ _ _ Hinv Hcur) as Hs.
  unfold Model.dispatch_next. apply wp_bind. destruct (queue (mo_procs m)) as [|i q].
  - eapply wp_procs; [exact Hs |]. mm_run. assert (Hid : set_procs (mo_procs m) m = m) by (destruct m; reflexivity). rewrite Hid.
    apply lands_intro; [split; [reflexivity |]; unfold Model.empty_queue_reason; destruct (negb _); cbn; lia |].
    destruct Hm. split; assumption.
  - destruct Hs as (s' & cx & E & Hinv' & _). destruct (schedule_after _ _ _ _ E (ok_contexts _ _ _ Hm)) as (Hc' & Hx & Hl).
    destruct (inv_current _ _ _ _ Hinv' Hc') as (p & Ep & _).
    eapply wp_procs; [exact E |]. mm_run. cbn [mo_procs set_procs]. rewrite Ep. mm_run.
    apply lands_intro; [cbn; auto |]. destruct Hm as [H1 H2 H3 H4]. split; auto.
Qed.

(** ** Ending and yielding *)

Lemma end_current_ok st m ns {A} (f : Z -> MM A) Q :
  model_ok c m None -> running m -> ProcState.is_terminal st = true ->
  (forall i p, Processes.end_current st (mo_procs m) = (p, Ok i) -> model_ok c (set_procs p m) None -> booting (set_procs p m) ->
     wp (f i) Q never (set_procs p m, ns)) ->
  wp (mbind (M := MM) f (procs (Processes.end_current st))) Q never (m, ns).
Proof.
  intros Hm [Hup [i Hi]] Ht Hf. destruct (end_inv _ _ _ st i (ok_procs _ _ _ Hm) Hi Ht) as (p & E & Hinv).
  destruct (end_after _ _ _ _ E (ok_contexts _ _ _ Hm)) as [Hc Hx]. apply wp_bind. eapply wp_procs; [exact E |].
  apply Hf; [exact E | | split; [exact Hup | exact Hc]]. destruct Hm. split; auto.
Qed.

Lemma yield_current_ok cx m ns {A} (f : Z -> MM A) Q :
  model_ok c m None -> running m -> length (cx_regs cx) = 31%nat ->
  (forall i p, Processes.yield_current cx (mo_procs m) = (p, Ok i) -> model_ok c (set_procs p m) None -> booting (set_procs p m) ->
     wp (f i) Q never (set_procs p m, ns)) ->
  wp (mbind (M := MM) f (procs (Processes.yield_current cx))) Q never (m, ns).
Proof.
  intros Hm [Hup [i Hi]] Hl Hf. destruct (yield_inv _ _ _ cx i (ok_procs _ _ _ Hm) Hi) as (p & E & Hinv).
  destruct (yield_after _ _ _ _ E Hl (ok_contexts _ _ _ Hm)) as [Hc Hx]. apply wp_bind. eapply wp_procs; [exact E |].
  apply Hf; [exact E | | split; [exact Hup | exact Hc]]. destruct Hm. split; auto.
Qed.

(** ** System calls *)

Lemma running_root_ok m ns Q :
  model_ok c m None -> running m -> (forall root, Q root (m, ns)) -> wp Model.running_root Q never (m, ns).
Proof.
  intros Hm [_ [i Hi]] HQ. unfold Model.running_root. mm_run. rewrite Hi.
  destruct (inv_current _ _ _ _ (ok_procs _ _ _ Hm) Hi) as (p & -> & _). apply wp_ret, HQ.
Qed.

Lemma ret_ok nr sepc value m ns : model_ok c m None -> running m -> wp (Model.ret nr sepc value) (lands c) never (m, ns).
Proof.
  intros Hm [Hup [i Hi]]. unfold Model.ret, Model.running_pid. mm_run. rewrite Hi. mm_run.
  apply lands_intro; [split; eauto | exact Hm].
Qed.

Lemma walk_start_ok b m ns root :
  model_ok c m None -> running m -> buffer_ok b -> lands c (ProcOp.new (Stage_Walk b [] root 1)) (m, ns).
Proof.
  intros Hm Hr Hb. apply lands_intro; [|exact Hm]. split_and!; auto. cbn [length].
  unfold buffer_ok, Buffer.new in Hb. destruct (_ && _) eqn:E; [|discriminate]. unbool. unfold Buffer.pages, PAGE.
  Z.div_mod_to_equations. lia.
Qed.

Lemma sys_write_ok nr sepc fd buf count m ns :
  model_ok c m None -> running m -> wp (Model.sys_write nr sepc fd buf count) (lands c) never (m, ns).
Proof.
  intros Hm Hr. unfold Model.sys_write. destruct (_ && _); [apply ret_ok; auto |]. destruct (_ =? 0); [apply ret_ok; auto |].
  destruct (Buffer.new sepc buf _) as [b|] eqn:Eb; [|apply ret_ok; auto]. mm_step. apply running_root_ok; auto. intros root. mm_run.
  apply walk_start_ok; auto. unfold Buffer.new in Eb. unfold buffer_ok. destruct (_ && _) eqn:E; [|discriminate].
  injection Eb as <-. unfold Buffer.new. cbn [bf_sepc bf_buf bf_n]. rewrite E. reflexivity.
Qed.

Lemma frame_word_ok frame offset :
  0 <= offset -> offset + 4 <= Z.of_nat (length frame) ->
  frame_word frame offset = Ok (from_le (take 4 (drop (Z.to_nat offset) frame))).
Proof. intros Ho Hl. unfold frame_word. rewrite sub_slice_ok by lia. reflexivity. Qed.

(** A word of a whole trap frame. *)
Lemma wp_frame_word frame offset Q s :
  Z.of_nat (length frame) = FRAME_BYTES -> 0 <= offset <= FRAME_BYTES - 4 ->
  (forall v, Q v s) -> wp (no_panic (frame_word frame offset)) Q never s.
Proof. intros Hl Ho HQ. eapply wp_no_panic; [apply frame_word_ok; lia | apply HQ]. Qed.

Lemma from_frame_regs frame :
  Z.of_nat (length frame) = FRAME_BYTES -> exists cx, Context.from_frame frame = Some cx /\ length (cx_regs cx) = 31%nat.
Proof.
  intros Hl. unfold FRAME_BYTES in Hl.
  assert (Hw : forall i, (i < 33)%nat -> is_Some (Context.word frame i)).
  { intros i Hi. unfold Context.word. destruct (Nat.leb_spec (4 * i + 4) (length frame)); [eauto | lia]. }
  assert (Hm : is_Some (mapM (Context.word frame) (seq 0 31))).
  { apply mapM_is_Some, Forall_forall. intros i Hi%elem_of_seq. apply Hw. lia. }
  destruct Hm as [regs Hr], (Hw 31%nat ltac:(lia)) as [pc Hp], (Hw 32%nat ltac:(lia)) as [st Hs].
  exists (mkContext regs pc st). unfold Context.from_frame. rewrite Hr. cbn [mbind option_bind]. rewrite Hp, Hs.
  split; [reflexivity |]. apply mapM_Some, Forall2_length in Hr. rewrite length_seq in Hr. exact (eq_sym Hr).
Qed.

Lemma syscall_ok frame m ns :
  model_ok c m None -> running m -> Z.of_nat (length frame) = FRAME_BYTES -> wp (Model.syscall frame) (lands c) never (m, ns).
Proof.
  intros Hm Hr Hl. destruct Hr as [Hup [i Hi]]. assert (Hr : running m) by (split; eauto).
  unfold Model.syscall, Model.running_pid. mm_run. rewrite Hi. mm_run.
  do 5 (try mm_step; apply wp_frame_word; [exact Hl | unfold FRAME_BYTES, FRAME_SEPC, FRAME_A0, FRAME_A1, FRAME_A2, FRAME_A7; lia | intros ?]).
  mm_run. destruct (Syscall.decode _).
  - apply sys_write_ok; auto.
  - apply end_current_ok; auto. intros j p _ Hm' Hb. mm_run. apply dispatch_next_ok; auto.
  - apply end_current_ok; auto. intros j p _ Hm' Hb. mm_run. apply dispatch_next_ok; auto.
  - destruct (from_frame_regs frame Hl) as (cx & E & Hx). mm_step. eapply wp_no_panic; [rewrite E; reflexivity |]. mm_run.
    apply yield_current_ok; auto; [cbn; rewrite length_insert; exact Hx |]. intros j p _ Hm' Hb. apply dispatch_next_ok; auto.
  - apply ret_ok; auto.
  - apply ret_ok; auto.
Qed.

Lemma decide_ok frame m ns :
  model_ok c m None -> running m -> Z.of_nat (length frame) = FRAME_BYTES -> wp (Model.decide frame) (lands c) never (m, ns).
Proof.
  intros Hm Hr Hl. unfold Model.decide.
  do 4 (try mm_step; apply wp_frame_word; [exact Hl | unfold FRAME_BYTES, FRAME_SEPC, FRAME_SSTATUS, FRAME_SCAUSE, FRAME_STVAL; lia | intros ?]).
  destruct (has_bit _ _).
  - mm_run. apply lands_intro; [split; [reflexivity | lia] |]. destruct Hm. split; assumption.
  - destruct (_ =? _); [apply syscall_ok; auto |].
    apply end_current_ok; auto. intros j p _ Hm' Hb. mm_run. apply dispatch_next_ok; auto.
Qed.

(** ** Creating *)

Definition buildable (layout : UserLayout) (image : UserImage) : Prop :=
  Forall (fun s => us_pages s <> []) (ui_segments image) /\ exists base, UserLayout.stack_base layout = Some base.

Lemma build_ok layout boot frames :
  buildable layout (bi_image boot) -> length frames = frames_needed (bi_image boot) layout ->
  exists space, Space.build c layout boot frames = Some space /\ sp_frames space = frames /\ built c layout boot space.
Proof.
  intros [Hseg Hbase] Hl. destruct frames as [|root rest]; [discriminate |].
  destruct (build_spec c layout boot root rest Hseg Hbase Hl) as (s & pf & E & _ & _ & _ & Hf & _).
  exists s. split; [exact E |]. split; [exact Hf |]. split; rewrite Hf; assumption.
Qed.

Lemma check_images_ok l images : forall i,
  ProcessPlan.check_images c l i images = Ok tt -> Forall (fun b => BootImage.check b c l = Ok tt) images.
Proof.
  induction images as [|b images IH]; intros i; cbn [ProcessPlan.check_images]; [constructor |].
  destruct (BootImage.check b c l) as [[]|] eqn:E; cbn; [|discriminate]. intros Hi. constructor; [exact E | eapply IH, Hi].
Qed.

Lemma stack_some l : validate_layout c l = Ok tt -> exists base, UserLayout.stack_base l = Some base.
Proof. intros H. destruct (lo_stack _ _ (validate_layout_ok _ _ H)) as (base & E & _). eauto. Qed.

Lemma plan_buildable plan boot :
  source_ok c (Source_Plan plan) -> boot ∈ plan_images plan -> buildable (plan_layout plan) (bi_image boot).
Proof.
  intros (_ & Hv & Hf) Hin. unfold ProcessPlan.validate in Hv. apply bind_Ok_inv in Hv as ([] & Hl & Hv).
  split; [|apply stack_some, Hl]. destruct (_ || _); [discriminate |]. apply check_images_ok in Hv.
  rewrite Forall_forall in Hv, Hf. specialize (Hv boot Hin). specialize (Hf boot Hin).
  pose proof (check_spec boot c (plan_layout plan)) as Hc. destruct (UserLayout.image_range (plan_layout plan)) as [lo hi].
  apply Hc in Hv as (_ & _ & _ & _ & _ & Hall); [|apply Hf]. eapply Forall_impl; [exact Hall |]. intros s' Hs. apply Hs.
Qed.

Lemma reserve_ok pid n m ns Q :
  model_ok c m None -> 1 <= pid <= Z.of_nat (mo_entries m) -> pids_below m pid ->
  Q None (m, ns) ->
  (forall f fs, length fs = n -> model_ok c (set_procs (set_pool f (mo_procs m)) m) (Some (pid, fs)) ->
     Q (Some fs) (set_procs (set_pool f (mo_procs m)) m, ns)) ->
  wp (reserve pid n) Q never (m, ns).
Proof.
  intros Hm Hp Hb HN HS. unfold wp, reserve. pose proof (reserve_correct pid n (pool (mo_procs m)) ltac:(lia)) as Hr.
  destruct (Frames.reserve pid n (pool (mo_procs m))) as [f [[fs|]|e]] eqn:E; [| |destruct Hr].
  - apply HS; [apply Hr |]. destruct Hm as [H1 H2 H3 H4]. split; auto. eapply reserve_inv; eauto.
  - destruct Hr as [-> _]. replace (set_procs _ m) with m; [exact HN |]. destruct m as [s' e p l], p. reflexivity.
Qed.

Lemma next_creation_loop_ok plan images : forall index m ns,
  model_ok c m None -> booting m -> mo_source m = Source_Plan plan -> drop index (plan_images plan) = images ->
  pids_below m (Z.of_nat index + 1) ->
  wp (Model.next_creation_loop c (plan_layout plan) index images) (lands c) never (m, ns).
Proof.
  induction images as [|boot images IH]; intros index m ns Hm Hb Hs Hd Hbelow; cbn [Model.next_creation_loop].
  { apply dispatch_next_ok; auto. }
  assert (Hi : plan_images plan !! index = Some boot) by (rewrite <- (Nat.add_0_r index), <- lookup_drop, Hd; reflexivity).
  assert (Hd' : drop (S index) (plan_images plan) = images).
  { replace (S index) with (index + 1)%nat by lia. rewrite <- drop_drop, Hd. reflexivity. }
  assert (Hnext : pids_below m (Z.of_nat (S index) + 1)) by (intros p Hp; specialize (Hbelow p Hp); lia).
  destruct (megapage_conflict _ _); [mm_run; apply IH; auto |]. mm_step.
  pose proof (ok_entries _ _ _ Hm) as He. rewrite Hs in He. apply lookup_lt_Some in Hi as Hlt.
  apply reserve_ok; auto; [lia | mm_run; apply IH; auto |]. intros f fs Hl Hm'.
  destruct (build_ok (plan_layout plan) boot fs) as (space & E & Hf & Hbt); auto.
  { apply plan_buildable; [rewrite <- Hs; apply Hm | eapply list_elem_of_lookup_2, Hi]. }
  mm_step. eapply wp_no_panic; [rewrite E; reflexivity |]. mm_run. apply lands_intro; [|cbn; rewrite Hf; exact Hm'].
  cbn [stage_ok]. split; [exact Hb |]. split; [exact Hbelow |]. split; [lia |]. exists plan, boot. split; [exact Hs |].
  split; [|exact Hbt]. rewrite <- Hi. f_equal. lia.
Qed.

Lemma next_creation_ok plan from m ns :
  model_ok c m None -> booting m -> mo_source m = Source_Plan plan -> pids_below m (Z.of_nat from + 1) ->
  wp (Model.next_creation c from) (lands c) never (m, ns).
Proof.
  intros Hm Hb Hs Hp. unfold Model.next_creation. mm_run. rewrite Hs. eapply next_creation_loop_ok; eauto.
Qed.

(** The created process is admitted. *)
Lemma admit_created_ok i boot image space m ns Q :
  model_ok c m (Some (i, sp_frames space)) -> booting m -> pids_below m i -> bi_image boot = image ->
  built c (Source.layout (mo_source m)) boot space ->
  (forall p ns', model_ok c (set_procs p m) None -> booting (set_procs p m) -> pids_below (set_procs p m) (i + 1) ->
     Q tt (set_procs p m, ns')) ->
  wp (Model.admit_created i image space) Q never (m, ns).
Proof.
  intros Hm [Hup Hcur] Hb <- [Hl E] HQ. unfold Model.admit_created. apply wp_bind, wp_model.
  set (cx := Context.initial _ _). destruct (built_pcb_ok c (Source.layout (mo_source m)) i boot (sp_frames space) space cx Hl E) as [Hok Hperm].
  destruct (admit_inv _ _ i _ (Pcb.new i space cx) (ok_procs _ _ _ Hm) Hb eq_refl eq_refl Hok Hperm) as (p & Ea & Hinv).
  destruct (admit_after _ _ _ Ea (ok_contexts _ _ _ Hm)) as (Hc & Hx & Hpcbs); [intros ? [= <-]; apply initial_regs |].
  apply wp_bind. eapply wp_procs; [exact Ea |]. mm_step. apply wp_push_all. intros ns'. mm_run. apply HQ.
  - destruct Hm. split; auto.
  - split; [exact Hup | cbn; congruence].
  - intros q. cbn [mo_procs set_procs]. rewrite Hpcbs, elem_of_app, list_elem_of_singleton. intros [Hq| ->]; [specialize (Hb q Hq); lia | cbn; lia].
Qed.

(** ** Booting from disk *)

Lemma next_load_ok disk t index m ns :
  model_ok c m None -> booting m -> pids_below m (Z.of_nat index + 1) -> mo_source m = Source_Disk disk ->
  table_ok (capacity_blocks disk) (DiskBoot.staging_size c) t -> mo_entries m = length (entries t) ->
  wp (Model.next_load (Some t) index) (lands c) never (m, ns).
Proof.
  intros Hm Hb Hp Hs Ht He. unfold Model.next_load. destruct (Nat.ltb_spec index (length (entries t))).
  - mm_run. apply lands_intro; [|exact Hm]. split; [exact Hb |]. split; [exact Hp |]. exists disk. cbn. auto.
  - apply dispatch_next_ok; auto.
Qed.

Lemma fail_ok detail m ns : model_ok c m None -> wp (Model.fail detail) (lands c) never (m, ns).
Proof. intros Hm. unfold Model.fail. mm_run. apply lands_intro; [split; [reflexivity | lia] |]. destruct Hm. split; auto. Qed.

(** The entry of a cursor past block 0, and the load of the next one. *)
Lemma cursor_entry m cu t :
  cursor_ok c m cu -> cu_table cu = Some t ->
  exists e, Cursor.entry cu = Ok (Some e) /\ e ∈ entries t.
Proof.
  intros (_ & _ & disk & _ & Hc) Ht. rewrite Ht in Hc. destruct Hc as (_ & _ & Hi). destruct (lookup_lt_is_Some_2 _ _ Hi) as [e He].
  exists e. split; [|eapply list_elem_of_lookup_2, He]. unfold Cursor.entry, index_of. rewrite Ht, He. reflexivity.
Qed.

Lemma skip_ok m cu t ns :
  model_ok c m None -> cursor_ok c m cu -> cu_table cu = Some t ->
  wp (Model.next_load (cu_table cu) (S (cu_index cu))) (lands c) never (m, ns).
Proof.
  intros Hm (Hb & Hp & disk & Hs & Hc) Ht. rewrite Ht in *. destruct Hc as (Hok & He & _). eapply next_load_ok; eauto.
  intros p Hin. specialize (Hp p Hin). unfold Cursor.pid in Hp. lia.
Qed.

Lemma first_read_ok m cu :
  cursor_ok c m cu -> exists len, Cursor.first_read cu = Ok len /\ 1 <= len /\ (cu_table cu = None -> len = ExecTable.BLOCK_SIZE).
Proof.
  intros Hc. unfold Cursor.first_read. destruct (cu_table cu) as [t|] eqn:Et.
  - destruct (cursor_entry m cu t Hc Et) as (e & Ee & Hin). rewrite Ee. eexists. split; [reflexivity |]. split; [|discriminate].
    destruct Hc as (_ & _ & disk & _ & Hc). rewrite Et in Hc. destruct Hc as ((_ & Hr & He & _) & _).
    rewrite Forall_forall in Hr, He. specialize (Hr e Hin). specialize (He e Hin). destruct Hr as [_ [? ?]], He as (_ & ? & _).
    unfold ELF_HEADER_BYTES. lia.
  - unfold Cursor.entry. rewrite Et. eexists. split; [reflexivity |]. split; [discriminate | reflexivity].
Qed.

Lemma blk_acked_ok cu error m ns :
  model_ok c m None -> cursor_ok c m cu -> wp (Model.acked cu error) (lands c) never (m, ns).
Proof.
  intros Hm Hc. unfold Model.acked. destruct (_ =? 0).
  - destruct (first_read_ok m cu Hc) as (len & E & Hl). mm_step. eapply wp_no_panic; [exact E |]. mm_run.
    apply lands_intro; [split; assumption | exact Hm].
  - destruct (cu_table cu) as [t|] eqn:Et; [|apply fail_ok, Hm]. mm_run. rewrite <- Et. eapply skip_ok; eauto.
Qed.

Lemma image_range_ok l :
  layout_typed l -> 0 <= fst (UserLayout.image_range l) /\ in_u 32 (snd (UserLayout.image_range l)).
Proof.
  intros (Hb & Ht & Hp). cbn [UserLayout.image_range fst snd]. split; [apply Hb |].
  unfold UserLayout.stack_base, checked_sub, PAGE, in_u in *. destruct (Z.leb_spec (2 ^ 32) (stack_pages l * 4096)); [cbn; lia |].
  destruct (Z.leb_spec (stack_pages l * 4096) (stack_top l)); cbn; lia.
Qed.

Lemma disk_buildable disk prefix flen image :
  source_ok c (Source_Disk disk) -> bytes_ok prefix -> in_u 32 flen ->
  parse_user_elf32 prefix flen (fst (UserLayout.image_range (disk_layout disk))) (snd (UserLayout.image_range (disk_layout disk))) = Ok image ->
  buildable (disk_layout disk) image.
Proof.
  intros [Ht Hv] Hb Hf Hp. destruct (image_range_ok _ Ht) as [Hlo Hhi]. cbn [Source.layout] in *.
  apply parsed_image_ok in Hp as (_ & _ & _ & _ & Hall); auto. split.
  - eapply Forall_impl; [exact Hall |]. cbn. tauto.
  - unfold DiskBoot.validate in Hv. apply bind_Ok_inv in Hv as ([] & Hl & _). apply stack_some, Hl.
Qed.

Lemma staged_image_ok disk cu t e len data m ns :
  model_ok c m None -> cursor_ok c m cu -> mo_source m = Source_Disk disk -> cu_table cu = Some t -> e ∈ entries t ->
  1 <= len -> bytes_ok data ->
  wp (Model.staged_image c disk cu e len data) (lands c) never (m, ns).
Proof.
  intros Hm Hc Hs Ht He Hlen Hb. unfold Model.staged_image.
  assert (Hskip : forall ns, wp (Model.next_load (cu_table cu) (S (cu_index cu))) (lands c) never (m, ns))
    by (intros; eapply skip_ok; eauto).
  pose proof Hc as (Hbt & Hbelow & disk' & Hs' & Hcu). rewrite Hs in Hs'. injection Hs' as <-. rewrite Ht in Hcu.
  destruct Hcu as (Htab & Hn & Hi). pose proof Htab as (_ & Hr & _). rewrite Forall_forall in Hr. destruct (Hr e He) as [_ Hbl].
  destruct (UserLayout.image_range (disk_layout disk)) as [lo hi] eqn:Er.
  destruct (parse_user_elf32 data (byte_len e) lo hi) as [image|err] eqn:Ep.
  2:{ destruct err; try (mm_run; apply Hskip). destruct (Z.ltb_spec len needed); [|mm_run; apply Hskip].
      mm_run. apply lands_intro; [|exact Hm]. split; [exact Hc |]. split; [lia | congruence]. }
  assert (Hbuild : buildable (disk_layout disk) image).
  { eapply disk_buildable; [rewrite <- Hs; apply Hm | exact Hb | exact Hbl |]. rewrite Er. exact Ep. }
  destruct (megapage_conflict _ _); [mm_run; apply Hskip |]. mm_step.
  apply reserve_ok; auto; [unfold Cursor.pid; lia | mm_run; apply Hskip |]. intros f fs Hl Hm'.
  set (boot := mkBootImage _ _ _). destruct (build_ok (disk_layout disk) boot fs) as (space & E & Hf & Hbt'); auto.
  mm_step. eapply wp_no_panic; [rewrite E; reflexivity |]. mm_run. apply lands_intro; [|cbn [creating]; rewrite Hf; exact Hm'].
  split; [split; [exact Hbt | split; [exact Hbelow |]] |].
  - exists disk. rewrite Ht. split; [exact Hs |]. auto.
  - exists t, boot. cbn [mo_source set_procs]. rewrite Hs. auto.
Qed.

Lemma staged_ok cu len data m ns :
  model_ok c m None -> cursor_ok c m cu -> 1 <= len -> (cu_table cu = None -> len = ExecTable.BLOCK_SIZE) ->
  Z.of_nat (length data) = len -> bytes_ok data ->
  wp (Model.staged c cu len data) (lands c) never (m, ns).
Proof.
  intros Hm Hc Hlen H0 Hl Hb. pose proof Hc as (Hbt & Hbelow & disk & Hs & Hcu). unfold Model.staged. mm_run. rewrite Hs. mm_step.
  destruct (cu_table cu) as [t|] eqn:Et.
  - destruct (cursor_entry m cu t Hc Et) as (e & Ee & He). eapply wp_no_panic; [exact Ee |]. cbn beta iota.
    eapply staged_image_ok; eauto.
  - destruct Hcu as [Hi0 He0]. eapply wp_no_panic; [unfold Cursor.entry; rewrite Et; reflexivity |]. cbn beta iota.
    rewrite H0 in Hl by reflexivity. rewrite Hl, Z.eqb_refl. cbn [negb].
    destruct (parse_exec_table _ _ _) as [t|err] eqn:Ep; [|apply fail_ok, Hm]. mm_run.
    assert (Htab : table_ok (capacity_blocks disk) (DiskBoot.staging_size c) t) by (eapply parse_table_ok; eauto).
    apply (next_load_ok disk); auto; cbn [mo_source set_entries].
    + destruct Hm as [H1 H2 H3 H4]. split; cbn [mo_source mo_entries mo_procs set_entries]; auto.
      * rewrite Hs. apply Htab.
      * eapply inv_more; [|exact H3]. lia.
    + intros p Hp. specialize (Hbelow p Hp). unfold Cursor.pid in Hbelow. rewrite Hi0 in Hbelow. exact Hbelow.
Qed.

(** ** A write's walk and output *)

Lemma walked_ok b pages level table data m ns :
  model_ok c m None -> stage_ok c m (Stage_Walk b pages table level) -> length data = 4%nat ->
  wp (Model.walked b pages level data) (lands c) never (m, ns).
Proof.
  intros Hm (Hr & Hb & Hp & Hlevel) Hl. unfold Model.walked. mm_step.
  eapply wp_no_panic; [apply frame_word_ok; [lia | rewrite Hl; lia] |]. cbn beta iota zeta.
  destruct (walk_step _ _ _) as [t|ppn|].
  - mm_run. apply lands_intro; [|exact Hm]. cbn. auto.
  - rewrite length_app. cbn [length]. destruct (Z.eqb_spec (Z.of_nat (length pages + 1)) (Buffer.pages b)) as [E|E].
    + mm_run. apply lands_intro; [|exact Hm]. split_and!; auto; [rewrite length_app; exact E | lia |].
      unfold buffer_ok, Buffer.new in Hb. destruct (_ && _) eqn:Eb; [|discriminate]. unbool. lia.
    + mm_step. apply running_root_ok; auto. intros root. mm_run. apply lands_intro; [|exact Hm].
      split_and!; auto. rewrite length_app. cbn [length]. lia.
  - apply ret_ok; auto.
Qed.

Lemma chunk_len b done :
  buffer_ok b -> 0 <= done < bf_n b -> 1 <= snd (Buffer.chunk b done) <= bf_n b - done.
Proof.
  intros Hb Hd. unfold buffer_ok, Buffer.new in Hb. destruct (_ && _) eqn:Eb; [|discriminate]. unbool.
  unfold Buffer.chunk. cbn [snd]. unfold PAGE. Z.div_mod_to_equations. lia.
Qed.

(** * Starting, and moving past a stage *)

(** A kernel between operations: before boot, with a process running, or shut down. *)
Definition idle_ok (m : Model) : Prop :=
  model_ok c m None /\
  match mo_life m with
  | AwaitBoot => current (mo_procs m) = None /\ pcbs (mo_procs m) = [] /\
                 match mo_source m with Source_Disk _ => mo_entries m = O | Source_Plan _ => True end
  | Up => is_Some (current (mo_procs m))
  | Down => True
  end.

(** The working data of a finished stage. *)
Definition stage_data (s : Stage) (data : list Z) : Prop :=
  bytes_ok data /\
  match s with
  | Stage_ReadFrame => Z.of_nat (length data) = FRAME_BYTES
  | Stage_Walk _ _ _ _ | Stage_Poll _ => length data = 4%nat
  | Stage_Staged _ len => Z.of_nat (length data) = len
  | _ => True
  end.

Lemma start_ok value m ns :
  idle_ok m ->
  wp (Model.start c value) (lands c)
    (fun e s => fst s = m /\ mo_life m = Down /\ e = Fails (ComponentFault "ENTER after the shutdown")) (m, ns).
Proof.
  intros [Hm Hl]. unfold Model.start. apply wp_bind, wp_model. destruct (negb _).
  - destruct (bool_decide_reflect (mo_life m = Down)) as [Hd|Hd]; [exact (conj eq_refl (conj Hd eq_refl)) |]. mm_run.
    apply lands_intro; [split; [reflexivity | lia] |]. destruct Hm. split; assumption.
  - destruct (mo_life m) eqn:El.
    + destruct Hl as (Hcur & Hp & He).
      assert (Hm' : model_ok c (set_life Up m) None) by (destruct Hm; split; assumption).
      assert (Hb : booting (set_life Up m)) by (split; [reflexivity | exact Hcur]).
      assert (Hbelow : forall i, pids_below (set_life Up m) i) by (intros i p H; cbn in H; rewrite Hp in H; inversion H).
      mm_run. destruct (mo_source m) as [plan|disk] eqn:Es.
      * mm_run. eapply wp_mono; [eapply next_creation_ok; eauto | auto | intros ? ? []].
      * mm_run. apply lands_intro; [|exact Hm']. split; [exact Hb |]. split; [apply Hbelow |]. exists disk. cbn. rewrite Es. auto.
    + rewrite bool_decide_eq_true_2 by exact Hl. mm_run. apply lands_intro; [split; assumption | exact Hm].
    + exact (conj eq_refl (conj eq_refl eq_refl)).
Qed.

Lemma model_advance_ok op m ns :
  stage_ok c m (po_stage op) -> model_ok c m (creating (po_stage op)) -> stage_data (po_stage op) (po_data op) ->
  wp (Model.advance c op) (fun next s => match next with Some op' => lands c op' s | None => s = (m, ns) /\ idle_ok m end) never (m, ns).
Proof.
  destruct op as [st step data]. cbn [po_stage po_data]. intros Hst Hm [Hb Hd]. unfold Model.advance. cbn [po_stage po_data].
  destruct st as [i space| |i cx satp|reason|b pages table level|b pages done|sepc value|cu|cu|cu error|cu len|cu headers image space];
    cbn [creating] in Hm; cbn [stage_ok] in Hst.
  - destruct Hst as (Hbt & Hbelow & Hi & plan & boot & Hs & Hboot & Hbuilt). mm_run. rewrite Hs. mm_step.
    destruct (Z.eqb_spec i 0); [lia |]. eapply wp_no_panic; [unfold index_of; rewrite Hboot; reflexivity |]. mm_step.
    apply (admit_created_ok i boot); auto; [rewrite Hs; exact Hbuilt |]. intros p ns' Hm' Hbt' Hbelow'. mm_run.
    eapply next_creation_ok; eauto. rewrite Z2Nat.id by lia. exact Hbelow'.
  - mm_run. apply decide_ok; auto.
  - mm_run. split; [reflexivity |]. split; [exact Hm |]. destruct Hst as (-> & -> & _). eauto.
  - mm_run. split; [reflexivity |]. split; [exact Hm |]. destruct Hst as [-> _]. exact I.
  - mm_run. apply (walked_ok b pages level table); auto.
  - destruct Hst as (Hr & Hbuf & Hp & Hdone). pose proof (chunk_len b done Hbuf Hdone).
    destruct (Z.eqb_spec (done + snd (Buffer.chunk b done)) (bf_n b)); mm_run; [apply ret_ok; auto |].
    apply lands_intro; [|exact Hm]. split_and!; auto; lia.
  - mm_run. split; [reflexivity |]. split; [exact Hm |]. destruct Hst as [-> ?]. assumption.
  - mm_run. apply lands_intro; [exact Hst | exact Hm].
  - mm_step. eapply wp_no_panic; [apply frame_word_ok; [lia | rewrite Hd; lia] |]. mm_run.
    destruct (has_bit _ _); (apply lands_intro; [|exact Hm]); [|exact Hst]. split; [exact Hst |]. apply wrap_in_u. lia.
  - mm_run. apply blk_acked_ok; [exact Hm | apply Hst].
  - mm_run. destruct Hst as (Hc & ? & ?). apply staged_ok; auto.
  - destruct Hst as (Hc & t & boot & Ht & <- & Hbuilt). pose proof Hc as (Hbt & Hbelow & disk & Hs & Hcu). mm_run.
    apply (admit_created_ok _ boot); auto. intros p ns' Hm' Hbt' Hbelow'. mm_run. rewrite Ht in *. destruct Hcu as (Htab & Hn & _).
    apply (next_load_ok disk); auto. intros q Hq. specialize (Hbelow' q Hq). unfold Cursor.pid in Hbelow'. lia.
Qed.
End model.
