(* ===== verification/OsTrap.v ===== *)
(** What one trap does, end to end: the stages of [components/os/src/procop.rs] run against a
    memory and a UART, from the read of the trap frame to the answer of the [ENTER].  [run_op] has
    every access answered; [engine_op] is the engine of [kernel.rs], which issues an access only
    when the whitelist permits it and faults when the bus refuses it.

    Proved: a system call that returns outputs exactly the bytes the caller could itself load
    from its buffer, writes its result to [a0] and [sepc + 4] to [sepc], and changes nothing
    else; a trap that switches leaves in the frame exactly the context the next process was
    last seen with. *)
From stdpp Require Import base numbers list option strings sorting.
From Stdlib Require Import ZArith Lia.
From S2P Require Import Prelude Contracts Handlers Words Csr Privileged Sv32 Elf OsConfig OsFrames OsSpace OsSpaceProofs OsCore OsSyscall OsProcess OsProcOp OsModel OsModelProofs.

Local Open Scope string_scope.
Local Open Scope list_scope.
Local Open Scope Z_scope.

(** * Running an operation *)

(** The stages of an operation, each served and then advanced past, whatever they access;
    [fuel] bounds their number. *)
Fixpoint run_op (fuel : nat) (c : KernelConfig) (op : ProcOp) (s : Model * list Note) (w : World)
    : option ((Model * list Note) * World) :=
  match fuel with
  | O => None
  | S fuel =>
      '(op, w) ← serve_run (ProcOp.steps c op) c op w;
      let '(s, r) := Model.advance c op s in
      match r with
      | Ok None => Some (s, w)
      | Ok (Some op) => run_op fuel c op s w
      | Err _ => None
      end
  end.

Definition OUTSIDE_WHITELIST : string := "modeled kernel: access outside the whitelist".
Definition ACCESS_FAULTED : string := "modeled kernel: its own access faulted".

(** An operation as the engine drives it, [issue] and [mem_response] in turn, on a bus that
    answers the accesses of [bus]: an access outside the whitelist, or one that the bus faults,
    ends it with the engine's fault.  [fuel] bounds the accesses; [None] otherwise only if the
    code panics, reports a violation or has no access due. *)
Fixpoint engine_op (fuel : nat) (bus : Access -> bool) (c : KernelConfig) (op : ProcOp) (s : Model * list Note) (w : World)
    : option (result (string * Access) ((Model * list Note) * World)) :=
  match fuel with
  | O => None
  | S fuel =>
      match ProcOp.access c op with
      | Ok (Some a) =>
          if negb (KernelConfig.permits c (Access.addr a) (Access.len a)) then Some (Err (OUTSIDE_WHITELIST, a))
          else if negb (bus a) then Some (Err (ACCESS_FAULTED, a))
          else
            let '(w, k) := serve c a w in
            match ProcOp.complete c op k with
            | Ok op =>
                if ProcOp.is_finished c op then
                  let '(s, r) := Model.advance c op s in
                  match r with
                  | Ok None => Some (Ok (s, w))
                  | Ok (Some op) => engine_op fuel bus c op s w
                  | Err _ => None
                  end
                else engine_op fuel bus c op s w
            | Err _ => None
            end
      | _ => None
      end
  end.

Section running.
Context (c : KernelConfig) (bus : Access -> bool) (Acc : Access -> Prop).

(** The engine's fault at an access of [Acc]: refused by the whitelist, or faulted by the bus. *)
Definition stopped_at (f : string * Access) : Prop :=
  let '(what, a) := f in
  Acc a /\
  (what = OUTSIDE_WHITELIST /\ KernelConfig.permits c (Access.addr a) (Access.len a) = false \/
   what = ACCESS_FAULTED /\ KernelConfig.permits c (Access.addr a) (Access.len a) = true /\ bus a = false).

(** [op] ends with the model and notes [s'] and the world [w']; driven by the engine it ends so
    too, unless an access of [Acc] stops it. *)
Definition ends (op : ProcOp) (s : Model * list Note) (w : World) (s' : Model * list Note) (w' : World) : Prop :=
  (exists fuel, run_op fuel c op s w = Some (s', w')) /\
  exists fuel r, engine_op fuel bus c op s w = Some r /\
    match r with Ok x => x = (s', w') | Err f => stopped_at f end.

(** Every access of the stage [st] is one of [Acc]. *)
Definition stage_accesses (st : Stage) : Prop :=
  forall i d a, ProcOp.access c (mkProcOp st i d) = Ok (Some a) -> Acc a.

Lemma complete_next op k op' : ProcOp.complete c op k = Ok op' -> exists d, op' = mkProcOp (po_stage op) (S (po_step op)) d.
Proof.
  unfold ProcOp.complete. intros H. apply bind_Ok_inv in H as (due & _ & H).
  assert (Hadv : forall d, exists d', ProcOp.advance c op d = mkProcOp (po_stage op) (S (po_step op)) d')
    by (intros d; unfold ProcOp.advance; cbn [po_stage po_step]; case_if; eauto).
  destruct due as [[? ?|? ?]|], k; try discriminate; [destruct (negb _); [discriminate |] |]; injection H as <-; apply Hadv.
Qed.

(** The engine at the end of a stage: the outcome [after] of the model's decision. *)
Lemma engine_stage st s w' op' s1 res r :
  stage_accesses st ->
  Model.advance c op' s = (s1, Ok res) ->
  (exists fuel, match res with None => Some (Ok (s1, w')) | Some next => engine_op fuel bus c next s1 w' end = Some r) ->
  forall n k d w, ProcOp.steps c (ProcOp.new st) = (k + S n)%nat -> serve_run (S n) c (mkProcOp st k d) w = Some (op', w') ->
  exists fuel r', engine_op fuel bus c (mkProcOp st k d) s w = Some r' /\ (r' = r \/ exists f, r' = Err f /\ stopped_at f).
Proof.
  intros Hacc Ea [fuel0 Er]. induction n as [|n IH]; intros k d w Hsteps E; cbn [serve_run due complete proc_op_stepper] in E;
    destruct (ProcOp.access c (mkProcOp st k d)) as [[a|]|] eqn:Ed; try discriminate.
  all: destruct (KernelConfig.permits c (Access.addr a) (Access.len a)) eqn:Ep;
    [|exists 1%nat, (Err (OUTSIDE_WHITELIST, a)); cbn [engine_op]; rewrite Ed, Ep; split; [reflexivity | right; eexists; split; [reflexivity |]; split; [eauto | auto]]].
  all: destruct (bus a) eqn:Eb;
    [|exists 1%nat, (Err (ACCESS_FAULTED, a)); cbn [engine_op]; rewrite Ed, Ep, Eb; split; [reflexivity | right; eexists; split; [reflexivity |]; split; [eauto | auto]]].
  all: destruct (serve c a w) as [w1 q] eqn:Es; destruct (ProcOp.complete c _ q) as [op1|] eqn:Ec; [|discriminate].
  all: destruct (complete_next _ _ _ Ec) as [d1 E1]; cbn [po_stage po_step] in E1.
  - injection E as -> ->. exists (S fuel0), r. split; [|auto]. cbn [engine_op]. rewrite Ed, Ep, Eb, Es, Ec. cbn [negb].
    assert (Hf : ProcOp.is_finished c op' = true).
    { subst op'. unfold ProcOp.is_finished. change (ProcOp.steps c _) with (ProcOp.steps c (ProcOp.new st)). rewrite Hsteps. apply Nat.leb_le. cbn. lia. }
    rewrite Hf, Ea. destruct res; exact Er.
  - assert (Hf : ProcOp.is_finished c op1 = false).
    { subst op1. unfold ProcOp.is_finished. change (ProcOp.steps c _) with (ProcOp.steps c (ProcOp.new st)). rewrite Hsteps. apply Nat.leb_gt. cbn. lia. }
    subst op1. destruct (IH (S k) d1 w1 ltac:(lia) E) as (fuel & r' & E' & Hr'). exists (S fuel), r'. split; [|exact Hr'].
    cbn [engine_op]. rewrite Ed, Ep, Eb, Es, Ec, Hf. exact E'.
Qed.

Lemma ends_from st s w op' w' s1 res s2 w2 :
  stage_accesses st -> (0 < ProcOp.steps c (ProcOp.new st))%nat ->
  serve_run (ProcOp.steps c (ProcOp.new st)) c (ProcOp.new st) w = Some (op', w') -> Model.advance c op' s = (s1, Ok res) ->
  match res with None => s1 = s2 /\ w' = w2 | Some next => ends next s1 w' s2 w2 end ->
  ends (ProcOp.new st) s w s2 w2.
Proof.
  intros Hacc Hpos E Ea Hrest. split.
  - destruct res as [next|]; [destruct Hrest as [[fuel E'] _]; exists (S fuel) | destruct Hrest as [<- <-]; exists 1%nat];
      cbn [run_op]; rewrite E; cbn [mbind option_bind]; rewrite Ea; [exact E' | reflexivity].
  - assert (Hr : exists r, (exists fuel, match res with None => Some (Ok (s1, w')) | Some next => engine_op fuel bus c next s1 w' end = Some r) /\
        match r with Ok x => x = (s2, w2) | Err f => stopped_at f end).
    { destruct res as [next|]; [destruct Hrest as [_ (fuel & r & E' & Hr)]; eauto |]. destruct Hrest as [<- <-]. eexists. split; [exists O; reflexivity | reflexivity]. }
    destruct Hr as (r & Hf & Hr).
    destruct (ProcOp.steps c (ProcOp.new st)) as [|n] eqn:Hn; [lia |].
    destruct (engine_stage st s w' op' s1 res r Hacc Ea Hf n 0 [] w Hn E) as (fuel & r' & E' & Hr').
    exists fuel, r'. split; [exact E' |]. destruct Hr' as [->|(f & -> & Hstop)]; assumption.
Qed.

Lemma ends_stage st s w op1 w1 s1 next s' w' :
  stage_accesses st -> (0 < ProcOp.steps c (ProcOp.new st))%nat ->
  serve_run (ProcOp.steps c (ProcOp.new st)) c (ProcOp.new st) w = Some (op1, w1) ->
  Model.advance c op1 s = (s1, Ok (Some next)) -> ends next s1 w1 s' w' -> ends (ProcOp.new st) s w s' w'.
Proof. intros Ha Hp E1 E2 E. exact (ends_from _ _ _ _ _ _ _ _ _ Ha Hp E1 E2 E). Qed.

Lemma ends_last st s w op1 w1 s1 :
  stage_accesses st -> (0 < ProcOp.steps c (ProcOp.new st))%nat ->
  serve_run (ProcOp.steps c (ProcOp.new st)) c (ProcOp.new st) w = Some (op1, w1) ->
  Model.advance c op1 s = (s1, Ok None) -> ends (ProcOp.new st) s w s1 w1.
Proof. intros Ha Hp E1 E2. exact (ends_from _ _ _ _ _ _ _ _ _ Ha Hp E1 E2 (conj eq_refl eq_refl)). Qed.

(** ** The stages that access the trap frame *)

(** [a] is an access of bytes of the trap frame. *)
Definition in_frame (a : Access) : Prop :=
  1 <= Access.len a /\ kc_trap_frame c <= Access.addr a /\ Access.addr a + Access.len a <= kc_trap_frame c + FRAME_BYTES.

Lemma piece_in_frame base len i a n :
  chunk_list base len !! i = Some (a, n) -> 0 <= len -> kc_trap_frame c <= base -> base + len <= kc_trap_frame c + FRAME_BYTES ->
  1 <= n /\ kc_trap_frame c <= a /\ a + n <= kc_trap_frame c + FRAME_BYTES.
Proof.
  intros Hi Hl Hlo Hhi. destruct (chunk_list_spec base len Hl) as [Hc Hok]. destruct (piece _ _ _ Hc Hok i a n Hi) as (-> & Hn & HS & Hle). lia.
Qed.

Lemma written_in_frame step chunks base bytes a :
  (forall x n, chunks !! step = Some (x, n) -> 1 <= n /\ kc_trap_frame c <= x /\ x + n <= kc_trap_frame c + FRAME_BYTES) ->
  ProcOp.written step chunks base bytes = Ok (Some a) -> in_frame a.
Proof.
  unfold ProcOp.written. intros Hin. destruct (chunks !! step) as [[x n]|]; [|discriminate]. specialize (Hin x n eq_refl).
  unfold sub_slice. destruct (Nat.leb_spec (Z.to_nat (x - base) + Z.to_nat n) (length bytes)) as [Hl|Hl]; [|discriminate].
  intros [= <-]. unfold in_frame. cbn [Access.addr Access.len]. rewrite length_take, length_drop. lia.
Qed.

(** The stages whose accesses are all of the frame. *)
Definition frame_stage (st : Stage) : bool :=
  match st with Stage_ReadFrame | Stage_Dispatch _ _ _ | Stage_Shutdown _ | Stage_Return _ _ => true | _ => false end.

Lemma frame_stage_accesses st : (forall a, in_frame a -> Acc a) -> frame_stage st = true -> stage_accesses st.
Proof.
  intros Hacc Hst i d a Ha. apply Hacc. revert Ha. destruct st; try discriminate; clear Hst; unfold ProcOp.access; cbn [po_stage po_step].
  - unfold ProcOp.read_at. destruct (frame_chunks c !! i) as [[x n]|] eqn:E; [|discriminate]. intros [= <-].
    exact (piece_in_frame _ _ _ _ _ E ltac:(discriminate) ltac:(lia) ltac:(lia)).
  - apply written_in_frame. intros x n E. unfold dispatch_chunks in E. apply lookup_app_Some in E as [E|[_ E]];
      eapply piece_in_frame; try exact E; unfold CONTEXT_BYTES, FRAME_BYTES, FRAME_SATP; lia.
  - apply written_in_frame. intros x n E. eapply piece_in_frame; try exact E; unfold FRAME_BYTES, FRAME_ACTION; lia.
  - destruct i as [|[|i]]; cbn; intros [= <-]; unfold in_frame; cbn; unfold FRAME_A0, FRAME_SEPC, FRAME_BYTES; lia.
Qed.

Lemma frame_stage_steps st : frame_stage st = true -> (0 < ProcOp.steps c (ProcOp.new st))%nat.
Proof.
  destruct st; try discriminate; intros _; cbn [ProcOp.steps ProcOp.new po_stage]; try lia.
  - apply chunk_list_pos. reflexivity.
  - unfold dispatch_chunks. rewrite length_app. pose proof (chunk_list_pos (kc_trap_frame c) CONTEXT_BYTES eq_refl). lia.
  - apply chunk_list_pos. reflexivity.
Qed.
End running.

(** * Pages and bytes of the caller *)

(** The physical page of [va] under the kernel's walk of the tables at [root]. *)
Definition user_page (word : Z -> Z) (root va : Z) : option Z :=
  match walk_step (word (user_pte_address root va 1)) 1 va with
  | Walk_Page ppn => Some ppn
  | Walk_Next table =>
      match walk_step (word (user_pte_address table va 0)) 0 va with
      | Walk_Page ppn => Some ppn
      | _ => None
      end
  | Walk_Fault => None
  end.

Lemma translate_page word root va log :
  snd (translate (log_read word) root va log) = (fun ppn => ppn * PAGE + Z.land va 0xFFF) <$> user_page word root va.
Proof.
  unfold translate, user_page. cbn [translate_levels log_read]. destruct (walk_step _ 1 va); [|reflexivity..].
  destruct (walk_step _ 0 va); reflexivity.
Qed.

Lemma pte_address_same table va va' level : va / PAGE = va' / PAGE -> user_pte_address table va level = user_pte_address table va' level.
Proof.
  intros E. assert (E22 : Z.shiftr va 22 = Z.shiftr va' 22).
  { bits_to_arith. change (2 ^ 22) with (PAGE * 2 ^ 10). rewrite <- !Z.div_div by (unfold PAGE; lia). rewrite E. reflexivity. }
  assert (E12 : Z.shiftr va 12 = Z.shiftr va' 12) by (bits_to_arith; exact E).
  unfold user_pte_address. rewrite E22, E12. reflexivity.
Qed.

(** Addresses of one page have one translation. *)
Lemma user_page_same word root va va' : va / PAGE = va' / PAGE -> user_page word root va = user_page word root va'.
Proof.
  intros E. assert (E12 : Z.shiftr va 12 = Z.shiftr va' 12) by (bits_to_arith; exact E).
  assert (Hw : forall pte level, walk_step pte level va = walk_step pte level va')
    by (intros; unfold walk_step; rewrite E12; reflexivity).
  unfold user_page. rewrite (pte_address_same _ va va' _ E), Hw. destruct (walk_step _ 1 va'); [|reflexivity..].
  rewrite (pte_address_same _ va va' _ E), Hw. reflexivity.
Qed.

(** The byte the CPU loads from [va] in U-mode under the tables at [root], if it does not fault. *)
Definition user_byte (m : Bytes) (root va : Z) : option Z :=
  m <$> answer (snd (sv32_translate (logged (words m)) 2 (Pte.satp root) User false false Access_Load va [])).

Definition user_bytes (m : Bytes) (root va n : Z) : option (list Z) := mapM (user_byte m root) (seqZ va n).

Lemma user_byte_page m root va :
  in_u 22 root -> in_u 32 va -> bytes_mem m ->
  user_byte m root va = (fun ppn => m (ppn * PAGE + va mod PAGE)) <$> user_page (word_at m) root va.
Proof.
  intros Hr Hv Hm. pose proof (user_walk_agrees root va (word_at m) Hr Hv (fun a => word_at_in_u m a Hm)) as E.
  cbv zeta in E. unfold user_byte, words. apply (f_equal snd) in E. cbn [snd] in E. rewrite <- E, translate_page.
  destruct (user_page _ root va); [cbn; bits_to_arith; reflexivity | reflexivity].
Qed.

(** * A buffer and its pages *)

Section buffer.
Context (b : Buffer) (Hb : buffer_ok b) (Hv : in_u 32 (bf_buf b)).

Lemma buffer_range : 1 <= bf_n b <= WRITE_MAX /\ 0 <= bf_buf b /\ bf_buf b + bf_n b <= 2 ^ 32.
Proof. unfold buffer_ok, Buffer.new in Hb. destruct (_ && _) eqn:E; [|discriminate]. unbool. unfold in_u in Hv. lia. Qed.

Lemma page_va_spec i : Buffer.page_va b i = (bf_buf b / PAGE + i) * PAGE.
Proof.
  unfold Buffer.page_va. change 0xFFF with (Z.ones 12). rewrite land_not32_low by (lia || assumption). unfold PAGE. Z.div_mod_to_equations. lia.
Qed.

(** The page an address of the buffer is in. *)
Definition page_index (va : Z) : Z := va / PAGE - bf_buf b / PAGE.

Lemma page_index_range va : bf_buf b <= va < bf_buf b + bf_n b -> 0 <= page_index va < Buffer.pages b.
Proof.
  intros Hr. unfold page_index, Buffer.pages. split.
  - pose proof (Z.div_le_mono (bf_buf b) va PAGE ltac:(unfold PAGE; lia) ltac:(lia)). lia.
  - pose proof (Z.div_le_mono va (bf_buf b + bf_n b - 1) PAGE ltac:(unfold PAGE; lia) ltac:(lia)). lia.
Qed.

(** The byte's physical address, given the physical pages. *)
Definition physical_of (ps : list Z) (va : Z) : Z := (ps !!! Z.to_nat (page_index va)) * PAGE + va mod PAGE.

Lemma physical_ok ps va :
  Z.of_nat (length ps) = Buffer.pages b -> bf_buf b <= va < bf_buf b + bf_n b -> physical b ps va = Ok (physical_of ps va).
Proof.
  intros Hl Hr. pose proof (page_index_range va Hr) as Hi. unfold physical, physical_of, index_of.
  replace (Z.shiftr va 12 - Z.shiftr (bf_buf b) 12) with (page_index va) by (unfold page_index, PAGE; bits_to_arith; reflexivity).
  rewrite list_lookup_lookup_total_lt by lia. cbn. bits_to_arith. reflexivity.
Qed.

(** A chunk is read from one page, so its bytes are the buffer's. *)
Lemma chunk_bytes (m : Bytes) ps done :
  0 <= done < bf_n b ->
  let '(va, len) := Buffer.chunk b done in
  read_bytes m (physical_of ps va) len = (fun va => m (physical_of ps va)) <$> seqZ va len.
Proof.
  intros Hd. unfold Buffer.chunk. set (va := bf_buf b + done). set (len := Z.min _ _). unfold read_bytes.
  assert (Hp : len <= PAGE - va mod PAGE) by (unfold len; lia).
  apply list_eq. intros i. rewrite !list_lookup_fmap. destruct (decide (Z.of_nat i < len)) as [Hi|Hi].
  2: { rewrite !lookup_seqZ_ge by lia. reflexivity. }
  rewrite !lookup_seqZ_lt by lia. cbn. do 2 f_equal. unfold physical_of.
  assert (E : (va + Z.of_nat i) / PAGE = va / PAGE /\ (va + Z.of_nat i) mod PAGE = va mod PAGE + Z.of_nat i)
    by (unfold PAGE in *; Z.div_mod_to_equations; lia).
  destruct E as [Ed Em]. unfold page_index. rewrite Ed, Em. lia.
Qed.

(** The bytes of a buffer are there exactly when all its pages are. *)
Lemma user_bytes_pages m root :
  in_u 22 root -> bytes_mem m ->
  user_bytes m root (bf_buf b) (bf_n b) =
  (fun ps => (fun va => m (physical_of ps va)) <$> seqZ (bf_buf b) (bf_n b)) <$>
    mapM (fun j => user_page (word_at m) root (Buffer.page_va b j)) (seqZ 0 (Buffer.pages b)).
Proof.
  intros Hr Hm. pose proof buffer_range as Hrange. unfold user_bytes.
  assert (Hbyte : forall va, bf_buf b <= va < bf_buf b + bf_n b ->
    user_byte m root va = (fun ppn => m (ppn * PAGE + va mod PAGE)) <$> user_page (word_at m) root (Buffer.page_va b (page_index va))).
  { intros va Hva. rewrite user_byte_page by (auto; unfold in_u; lia). f_equal. apply user_page_same.
    rewrite page_va_spec, Z.div_mul by (unfold PAGE; lia). unfold page_index. lia. }
  destruct (mapM _ (seqZ 0 _)) as [ps|] eqn:E; cbn [fmap option_fmap option_map].
  - apply mapM_Some in E. apply mapM_Some, Forall2_fmap_r, Forall_Forall2_diag, Forall_forall. intros va [Hlo Hhi]%elem_of_seqZ.
    pose proof (page_index_range va ltac:(lia)) as Hi. destruct (Forall2_lookup_l _ _ _ (Z.to_nat (page_index va)) (page_index va) E) as (ppn & Hp & Ep).
    { rewrite lookup_seqZ. lia. }
    rewrite Hbyte, Ep by lia. cbn. unfold physical_of. rewrite (list_lookup_total_correct _ _ _ Hp). reflexivity.
  - apply mapM_None in E. apply Exists_exists in E as (j & [Hlo Hhi]%elem_of_seqZ & Ej). apply mapM_None, Exists_exists.
    set (va := Z.max (bf_buf b) (Buffer.page_va b j)). exists va.
    assert (Hva : bf_buf b <= va < bf_buf b + bf_n b /\ page_index va = j).
    { unfold va. rewrite page_va_spec. unfold page_index, Buffer.pages in *. unfold PAGE in *. Z.div_mod_to_equations. lia. }
    destruct Hva as [Hva Hidx]. split; [apply elem_of_seqZ; lia |]. rewrite Hbyte, Hidx, Ej by lia. reflexivity.
Qed.
End buffer.

(** * What a [write] accesses *)

(** The accesses of the walk of [va] under the tables at [root]: one PTE per level reached. *)
Inductive pte_access (word : Z -> Z) (root va : Z) : Access -> Prop :=
| pte_top : pte_access word root va (Access_Read (user_pte_address root va 1) 4)
| pte_leaf t :
    walk_step (word (user_pte_address root va 1)) 1 va = Walk_Next t ->
    pte_access word root va (Access_Read (user_pte_address t va 0) 4).

(** The accesses of [write(fd, buf, count)] to the caller's tables and buffer. *)
Inductive write_access (mem : Bytes) (table fd buf count : Z) : Access -> Prop :=
| write_pte n va a :
    n = Z.min count WRITE_MAX -> fd = 1 \/ fd = 2 -> buf + n <= 2 ^ 32 -> buf <= va < buf + n ->
    pte_access (word_at mem) table va a -> write_access mem table fd buf count a
| write_read n va len ppn :
    n = Z.min count WRITE_MAX -> fd = 1 \/ fd = 2 -> buf + n <= 2 ^ 32 -> buf <= va -> va + len <= buf + n ->
    1 <= len -> va mod PAGE + len <= PAGE -> is_Some (user_bytes mem table buf n) -> user_page (word_at mem) table va = Some ppn ->
    write_access mem table fd buf count (Access_Read (ppn * PAGE + va mod PAGE) len).

Lemma pte_access_same word root va va' a : va / PAGE = va' / PAGE -> pte_access word root va a -> pte_access word root va' a.
Proof.
  intros E H. assert (E12 : Z.shiftr va 12 = Z.shiftr va' 12) by (bits_to_arith; exact E).
  destruct H as [|t Ht]; rewrite (pte_address_same _ va va' _ E); constructor. rewrite <- Ht, (pte_address_same _ va va' _ E).
  unfold walk_step. rewrite E12. reflexivity.
Qed.

(** The accesses of the stages of a [write], page by page and chunk by chunk, are its accesses. *)
Lemma write_accesses mem table fd buf count b (Acc : Access -> Prop) :
  in_u 32 buf -> in_u 22 table -> bytes_mem mem -> buffer_ok b -> bf_buf b = buf -> bf_n b = Z.min count WRITE_MAX ->
  negb (fd =? 1) && negb (fd =? 2) = false -> buf + Z.min count WRITE_MAX <= 2 ^ 32 ->
  (forall a, write_access mem table fd buf count a -> Acc a) ->
  (forall j a, 0 <= j < Buffer.pages b -> pte_access (word_at mem) table (Buffer.page_va b j) a -> Acc a) /\
  (forall ps, mapM (fun j => user_page (word_at mem) table (Buffer.page_va b j)) (seqZ 0 (Buffer.pages b)) = Some ps ->
   forall done, 0 <= done < bf_n b -> Acc (Access_Read (physical_of b ps (bf_buf b + done)) (snd (Buffer.chunk b done)))).
Proof.
  intros Hbuf Ht Hm Hb Eb En Hfd Hend Hacc. subst buf. pose proof (buffer_range b Hb Hbuf) as Hrange.
  assert (Hf : fd = 1 \/ fd = 2) by (destruct (Z.eqb_spec fd 1), (Z.eqb_spec fd 2); cbn in Hfd; auto; discriminate).
  split.
  - intros j a Hj Ha. apply Hacc. set (va := Z.max (bf_buf b) (Buffer.page_va b j)).
    assert (Hva : bf_buf b <= va < bf_buf b + bf_n b /\ Buffer.page_va b j / PAGE = va / PAGE).
    { unfold va. rewrite (page_va_spec b Hbuf). unfold Buffer.pages, PAGE in *. Z.div_mod_to_equations. lia. }
    destruct Hva as [Hva Ep]. eapply write_pte; [reflexivity | exact Hf | lia | rewrite <- En; exact Hva |].
    exact (pte_access_same _ _ _ _ _ Ep Ha).
  - intros ps Eps done Hd. apply Hacc. pose proof (chunk_len b done Hb Hd) as Hlen. unfold Buffer.chunk in *. cbn [snd] in *.
    set (va := bf_buf b + done) in *. set (len := Z.min (Z.min (bf_n b - done) 16) _) in *. assert (Hp : va mod PAGE + len <= PAGE) by (unfold len; lia).
    assert (Hn : va + len <= bf_buf b + bf_n b) by (unfold len, va; lia).
    assert (Hi : 0 <= page_index b va < Buffer.pages b) by (apply page_index_range; auto; unfold va; lia).
    pose proof (proj1 (mapM_Some _ _ _) Eps) as HF. destruct (Forall2_lookup_l _ _ _ (Z.to_nat (page_index b va)) (page_index b va) HF) as (ppn & Hppn & Hpage).
    { rewrite lookup_seqZ. lia. }
    unfold physical_of. rewrite (list_lookup_total_correct _ _ _ Hppn).
    eapply (write_read mem table fd (bf_buf b) count (bf_n b)); [exact En | exact Hf | lia | unfold va; lia | exact Hn | lia | exact Hp | |].
    + rewrite (user_bytes_pages b Hb Hbuf mem table Ht Hm), Eps. cbn. eauto.
    + rewrite <- Hpage. apply user_page_same. rewrite (page_va_spec b Hbuf), Z.div_mul by (unfold PAGE; lia). unfold page_index. lia.
Qed.

(** * The stages of a system call *)

Section stages.
Context (c : KernelConfig) (Hu : uart_apart c) (m : Model) (pid : Z) (p : Pcb).
Context (bus : Access -> bool) (Acc : Access -> Prop) (Hframe : forall a, in_frame c a -> Acc a).
Context (Huart : forall b, Acc (Access_Write (kc_uart_tx c) [b])).
Context (Hpid : current (mo_procs m) = Some pid) (Hpcb : Processes.pcb (mo_procs m) pid = Some p).

Local Abbreviation frame := (kc_trap_frame c).
Local Abbreviation root := (pcb_root p).

(** The frame after a return: [a0] holds [value], [sepc] is past the [ecall]. *)
Definition returned (mem : Bytes) (sepc value : Z) : Bytes :=
  write_bytes (write_bytes mem (frame + FRAME_A0) (to_le 4 value)) (frame + FRAME_SEPC) (to_le 4 (wrap 32 (sepc + 4))).

(** Runs a computation of the model on a given state. *)
Ltac mm_eval :=
  cbv beta iota delta [mbind ST_bind mret ST_ret model push modify fmap ST_fmap no_panic map_err]; cbn [fst snd].

Lemma ret_runs ns nr sepc value :
  Model.ret nr sepc value (m, ns) = ((m, ns ++ [exit_note pid nr value]), Ok (ProcOp.new (Stage_Return sepc value))).
Proof. unfold Model.ret, Model.running_pid. mm_eval. rewrite Hpid. reflexivity. Qed.

Lemma running_root_runs ns : Model.running_root (m, ns) = ((m, ns), Ok root).
Proof. unfold Model.running_root. mm_eval. rewrite Hpid, Hpcb. reflexivity. Qed.

Lemma return_ends s sepc value w :
  exists w', ends c bus Acc (ProcOp.new (Stage_Return sepc value)) s w s w' /\ w_uart w' = w_uart w /\
    forall x, w_mem w' x = returned (w_mem w) sepc value x.
Proof.
  destruct (return_served c sepc value w Hu) as (w' & E & Hw). exists w'. split; [|exact Hw].
  apply (ends_last c bus Acc (Stage_Return sepc value) _ _ _ _ _ (frame_stage_accesses c Acc (Stage_Return sepc value) Hframe eq_refl)
    (frame_stage_steps c (Stage_Return sepc value) eq_refl) E).
  destruct s. reflexivity.
Qed.

Lemma frame_word_at (mem : Bytes) a : frame_word (read_bytes mem a 4) 0 = Ok (word_at mem a).
Proof.
  unfold frame_word. rewrite sub_slice_ok by (rewrite read_bytes_length; cbn; lia).
  change (Z.to_nat 0) with O. rewrite drop_0, take_ge by (rewrite read_bytes_length; lia). reflexivity.
Qed.

Section walk.
Context (b : Buffer) (ns : list Note) (w : World) (s' : Model * list Note) (w' : World).

Local Abbreviation refused :=
  (ends c bus Acc (ProcOp.new (Stage_Return (bf_sepc b) (neg EFAULT))) (m, ns ++ [exit_note pid SYS_WRITE (neg EFAULT)]) w s' w').

(** What follows a page that is found. *)
Definition found (pages : list Z) (ppn : Z) : Prop :=
  if Z.of_nat (length pages) + 1 =? Buffer.pages b then ends c bus Acc (ProcOp.new (Stage_Output b (pages ++ [ppn]) 0)) (m, ns) w s' w'
  else ends c bus Acc (ProcOp.new (Stage_Walk b (pages ++ [ppn]) root 1)) (m, ns) w s' w'.

Lemma pte_ends pages table level :
  let va := Buffer.page_va b (Z.of_nat (length pages)) in
  Acc (Access_Read (user_pte_address table va level) 4) ->
  match walk_step (word_at (w_mem w) (user_pte_address table va level)) level va with
  | Walk_Next t => ends c bus Acc (ProcOp.new (Stage_Walk b pages t 0)) (m, ns) w s' w'
  | Walk_Page ppn => found pages ppn
  | Walk_Fault => refused
  end -> ends c bus Acc (ProcOp.new (Stage_Walk b pages table level)) (m, ns) w s' w'.
Proof.
  intros va Hacc He. assert (Hst : stage_accesses c Acc (Stage_Walk b pages table level)).
  { intros i d a. unfold ProcOp.access. cbn [po_stage po_step]. destruct (i =? 0)%nat; [|discriminate]. intros [= <-]. exact Hacc. }
  assert (Hpos : (0 < ProcOp.steps c (ProcOp.new (Stage_Walk b pages table level)))%nat) by (cbn; lia).
  pose proof (walk_served c b pages table level w) as Es. cbv zeta in Es. fold va in Es.
  set (data := read_bytes _ _ 4) in Es.
  assert (Ea : Model.advance c (mkProcOp (Stage_Walk b pages table level) 1 data) (m, ns) =
               (Some <$> Model.walked b pages level data) (m, ns)) by reflexivity.
  unfold Model.walked in Ea. revert Ea. mm_eval. unfold data. rewrite frame_word_at. fold va data.
  unfold found in He.
  destruct (walk_step _ level va) as [t|ppn|]; intros Ea; revert Ea.
  - intros Ea. exact (ends_stage c bus Acc _ _ _ _ _ _ _ _ _ Hst Hpos Es Ea He).
  - rewrite length_app, Nat2Z.inj_add. change (Z.of_nat (length [ppn])) with 1.
    destruct (_ =? _); intros Ea; [exact (ends_stage c bus Acc _ _ _ _ _ _ _ _ _ Hst Hpos Es Ea He) |].
    rewrite running_root_runs in Ea. exact (ends_stage c bus Acc _ _ _ _ _ _ _ _ _ Hst Hpos Es Ea He).
  - rewrite ret_runs. intros Ea. exact (ends_stage c bus Acc _ _ _ _ _ _ _ _ _ Hst Hpos Es Ea He).
Qed.

Lemma page_ends pages :
  (forall a, pte_access (word_at (w_mem w)) root (Buffer.page_va b (Z.of_nat (length pages))) a -> Acc a) ->
  match user_page (word_at (w_mem w)) root (Buffer.page_va b (Z.of_nat (length pages))) with
  | Some ppn => found pages ppn
  | None => refused
  end -> ends c bus Acc (ProcOp.new (Stage_Walk b pages root 1)) (m, ns) w s' w'.
Proof.
  unfold user_page. set (va := Buffer.page_va b _). intros Hacc He. apply pte_ends; [apply Hacc, pte_top |]. fold va.
  destruct (walk_step _ 1 va) as [t|ppn|] eqn:E1; [|exact He..]. apply pte_ends; [apply Hacc, pte_leaf, E1 |]. fold va.
  destruct (walk_step _ 0 va) as [t'|ppn|] eqn:E; [|exact He..]. exfalso. revert E. unfold walk_step. cbn [Z.eqb andb].
  repeat case_if; discriminate.
Qed.

(** Walking the [k] pages that are left: on to the output, or back with [-EFAULT]. *)
Lemma walk_ends : forall k pages,
  Buffer.pages b = Z.of_nat (length pages) + Z.of_nat (S k) ->
  (forall j a, 0 <= j < Buffer.pages b -> pte_access (word_at (w_mem w)) root (Buffer.page_va b j) a -> Acc a) ->
  match mapM (fun j => user_page (word_at (w_mem w)) root (Buffer.page_va b j)) (seqZ (Z.of_nat (length pages)) (Z.of_nat (S k))) with
  | Some rest => ends c bus Acc (ProcOp.new (Stage_Output b (pages ++ rest) 0)) (m, ns) w s' w'
  | None => refused
  end -> ends c bus Acc (ProcOp.new (Stage_Walk b pages root 1)) (m, ns) w s' w'.
Proof.
  induction k as [|k IH]; intros pages Hk Hacc; rewrite seqZ_cons by lia; cbn [mapM]; intros He;
    (apply page_ends; [intros a; apply Hacc; lia |]); destruct (user_page _ _ _) as [ppn|]; cbn [mbind option_bind] in He; try exact He; unfold found.
  - destruct (Z.eqb_spec (Z.of_nat (length pages) + 1) (Buffer.pages b)); [exact He | lia].
  - destruct (Z.eqb_spec (Z.of_nat (length pages) + 1) (Buffer.pages b)); [lia |]. apply IH; [rewrite length_app; cbn [length]; lia | exact Hacc |]. rewrite length_app. cbn [length].
    replace (Z.pred (Z.of_nat (S (S k)))) with (Z.of_nat (S k)) in He by lia.
    replace (Z.of_nat (length pages + 1)) with (Z.succ (Z.of_nat (length pages))) by lia.
    destruct (mapM _ _) as [rest|]; cbn [mbind option_bind mret option_ret] in He; [|exact He]. rewrite <- app_assoc. exact He.
Qed.
End walk.

(** Outputting the bytes from [done] on, chunk by chunk, and returning their number. *)
Lemma output_ends b ps ns s' w' :
  buffer_ok b -> in_u 32 (bf_buf b) -> Z.of_nat (length ps) = Buffer.pages b ->
  (forall done, 0 <= done < bf_n b -> Acc (Access_Read (physical_of b ps (bf_buf b + done)) (snd (Buffer.chunk b done)))) ->
  forall k done w, (Z.to_nat (bf_n b - done) <= k)%nat -> 0 <= done < bf_n b ->
  let bytes := (fun va => w_mem w (physical_of b ps va)) <$> seqZ (bf_buf b + done) (bf_n b - done) in
  ends c bus Acc (ProcOp.new (Stage_Return (bf_sepc b) (bf_n b))) (m, ns ++ [exit_note pid SYS_WRITE (bf_n b)])
    (mkWorld (w_mem w) (w_uart w ++ bytes)) s' w' ->
  ends c bus Acc (ProcOp.new (Stage_Output b ps done)) (m, ns) w s' w'.
Proof.
  intros Hb Hv Hl Hacc. induction k as [|k IH]; intros done w Hk Hd bytes He; [lia |]. specialize (Hacc done Hd) as Hread.
  pose proof (chunk_len b done Hb Hd) as Hlen. pose proof (chunk_bytes b (w_mem w) ps done Hd) as Hbytes.
  pose proof (output_served c b ps done (physical_of b ps (bf_buf b + done)) w) as Es.
  destruct (Buffer.chunk b done) as [va len] eqn:Ek. assert (va = bf_buf b + done) as -> by (unfold Buffer.chunk in Ek; congruence).
  cbn [snd] in Hlen. specialize (Es (physical_ok b ps (bf_buf b + done) Hl ltac:(lia)) ltac:(lia)). rewrite Hbytes in Es.
  set (op := ProcOp.new (Stage_Output b ps done)) in *. assert (Hsteps : ProcOp.steps c op = S (Z.to_nat len)).
  { unfold ProcOp.steps, op. cbn [po_stage ProcOp.new]. rewrite Ek. reflexivity. }
  assert (Hst : stage_accesses c Acc (Stage_Output b ps done)).
  { intros i d a. unfold ProcOp.access. cbn [po_stage po_step po_data]. rewrite Ek. destruct (i =? 0)%nat.
    - rewrite (physical_ok b ps (bf_buf b + done) Hl ltac:(lia)). intros [= <-]. exact Hread.
    - destruct (Z.of_nat i <=? len); [|discriminate]. destruct (index_of d (i - 1)); [|discriminate]. intros [= <-]. apply Huart. }
  assert (Hpos : (0 < ProcOp.steps c op)%nat) by (rewrite Hsteps; lia).
  rewrite <- Hsteps in Es. cbv zeta in Es. set (w1 := mkWorld _ _) in Es. set (op1 := mkProcOp _ _ _) in Es.
  assert (Ea : Model.advance c op1 (m, ns) =
    if done + len =? bf_n b then ((m, ns ++ [exit_note pid SYS_WRITE (bf_n b)]), Ok (Some (ProcOp.new (Stage_Return (bf_sepc b) (bf_n b)))))
    else ((m, ns), Ok (Some (ProcOp.new (Stage_Output b ps (done + len)))))).
  { unfold Model.advance, op1. cbn [po_stage]. rewrite Ek. cbn [snd]. destruct (_ =? _); [|reflexivity]. mm_eval. rewrite ret_runs. reflexivity. }
  assert (Happ : bytes = ((fun va => w_mem w (physical_of b ps va)) <$> seqZ (bf_buf b + done) len) ++
    ((fun va => w_mem w (physical_of b ps va)) <$> seqZ (bf_buf b + (done + len)) (bf_n b - (done + len)))).
  { unfold bytes. rewrite <- fmap_app. f_equal. rewrite Z.add_assoc, <- seqZ_app by lia. f_equal. lia. }
  rewrite Happ, app_assoc in He. destruct (Z.eqb_spec (done + len) (bf_n b)) as [E|E].
  - rewrite E, Z.sub_diag in He. cbn [seqZ fmap list_fmap] in He. rewrite app_nil_r in He. exact (ends_stage c bus Acc _ _ _ _ _ _ _ _ _ Hst Hpos Es Ea He).
  - refine (ends_stage c bus Acc _ _ _ _ _ _ _ _ _ Hst Hpos Es Ea _). apply IH; [lia | lia |]. exact He.
Qed.

(** ** The whole call *)

(** What [write] does: the result, and the bytes it outputs. *)
Definition write_result (mem : Bytes) (table fd buf count : Z) : Z * list Z :=
  let n := Z.min count WRITE_MAX in
  if negb (fd =? 1) && negb (fd =? 2) then (neg EBADF, [])
  else if n =? 0 then (0, [])
  else if 2 ^ 32 <? buf + n then (neg EFAULT, [])
  else
    match user_bytes mem table buf n with
    | Some bytes => (n, bytes)
    | None => (neg EFAULT, [])
    end.

(** The system calls that return to their caller: [None] for the others. *)
Definition syscall_result (mem : Bytes) (table caller nr a0 a1 a2 : Z) : option (Z * list Z) :=
  match Syscall.decode nr with
  | Sys_GetPid => Some (caller, [])
  | Sys_Unsupported _ => Some (neg ENOSYS, [])
  | Sys_Write => Some (write_result mem table a0 a1 a2)
  | Sys_SchedYield | Sys_Exit | Sys_ExitGroup => None
  end.

(** [f] decides the operation that returns [r] to [sepc]: the result in the frame, the bytes
    output, and nothing else changed. *)
Definition returns (f : MM ProcOp) (ns : list Note) (w : World) (nr sepc : Z) (r : Z * list Z) : Prop :=
  exists op s1 w', f (m, ns) = (s1, Ok op) /\ ends c bus Acc op s1 w (m, ns ++ [exit_note pid nr (fst r)]) w' /\
    w_uart w' = w_uart w ++ snd r /\ forall x, w_mem w' x = returned (w_mem w) sepc (fst r) x.

Lemma ret_returns ns w nr sepc value : returns (Model.ret nr sepc value) ns w nr sepc (value, []).
Proof.
  destruct (return_ends (m, ns ++ [exit_note pid nr value]) sepc value w) as (w' & E & Hw & Hm).
  eexists _, _, w'. split; [apply ret_runs |]. split; [exact E |]. split; [rewrite Hw, app_nil_r; reflexivity | exact Hm].
Qed.

Lemma write_returns sepc fd buf count ns w :
  in_u 32 buf -> in_u 32 count -> in_u 22 root -> bytes_mem (w_mem w) ->
  (forall a, write_access (w_mem w) root fd buf count a -> Acc a) ->
  returns (Model.sys_write SYS_WRITE sepc fd buf count) ns w SYS_WRITE sepc (write_result (w_mem w) root fd buf count).
Proof.
  intros Hbuf Hcount Hroot Hmem Hacc. unfold Model.sys_write, write_result.
  destruct (negb (fd =? 1) && negb (fd =? 2)) eqn:Efd; [apply ret_returns |].
  set (n := Z.min count WRITE_MAX). destruct (Z.eqb_spec n 0) as [En|En]; [apply ret_returns |].
  assert (Hn : 1 <= n <= WRITE_MAX) by (unfold in_u, WRITE_MAX in *; lia).
  unfold Buffer.new. replace (1 <=? n) with true by (symmetry; apply Z.leb_le; lia).
  replace (n <=? WRITE_MAX) with true by (symmetry; apply Z.leb_le; lia). cbn [andb].
  rewrite Z.leb_antisym. destruct (Z.ltb_spec (2 ^ 32) (buf + n)) as [Hr|Hr]; cbn [negb]; [apply ret_returns |].
  set (b := mkBuffer sepc buf n). assert (Hb : buffer_ok b).
  { unfold buffer_ok, Buffer.new. cbn [bf_buf bf_n bf_sepc b]. destruct (_ && (buf + n <=? _)) eqn:E; [reflexivity |].
    rewrite !andb_false_iff, !Z.leb_gt in E. lia. }
  assert (Hop : (table ← Model.running_root; mret (ProcOp.new (Stage_Walk b [] table 1))) (m, ns) =
                ((m, ns), Ok (ProcOp.new (Stage_Walk b [] root 1)))) by (mm_eval; rewrite running_root_runs; reflexivity).
  unfold returns. rewrite Hop. clear Hop.
  assert (Hpages : 1 <= Buffer.pages b) by (pose proof (page_index_range b buf) as Hp; cbn [bf_buf bf_n b] in Hp; lia).
  destruct (write_accesses _ _ _ _ _ b _ Hbuf Hroot Hmem Hb eq_refl eq_refl Efd Hr Hacc) as [Hptes Hreads].
  pose proof (user_bytes_pages b Hb Hbuf (w_mem w) root Hroot Hmem) as Hbytes. cbn [bf_buf bf_n b] in Hbytes. rewrite Hbytes.
  pose proof (walk_ends b ns w) as Hwalk.
  set (k := Z.to_nat (Buffer.pages b - 1)). destruct (mapM _ (seqZ 0 (Buffer.pages b))) as [ps|] eqn:Eps; cbn [fmap option_fmap option_map fst snd].
  - set (bytes := _ <$> seqZ buf n). destruct (return_ends (m, ns ++ [exit_note pid SYS_WRITE n]) sepc n (mkWorld (w_mem w) (w_uart w ++ bytes))) as (w' & E & Hw & Hm).
    exists (ProcOp.new (Stage_Walk b [] root 1)), (m, ns), w'. split; [reflexivity |]. split; [|split; [exact Hw | exact Hm]].
    apply (Hwalk _ _ k []); [cbn [length]; lia | exact Hptes |]. replace (Z.of_nat (S k)) with (Buffer.pages b) by lia. cbn [length app].
    change (Z.of_nat 0) with 0. rewrite Eps. pose proof (length_mapM _ _ _ Eps) as Hlen. rewrite length_seqZ in Hlen.
    apply (output_ends b ps ns _ _ Hb Hbuf ltac:(lia) (Hreads ps eq_refl) (Z.to_nat n) 0 w); cbn [bf_n b]; [lia | lia |].
    rewrite Z.sub_0_r, Z.add_0_r. exact E.
  - destruct (return_ends (m, ns ++ [exit_note pid SYS_WRITE (neg EFAULT)]) sepc (neg EFAULT) w) as (w' & E & Hw & Hm).
    exists (ProcOp.new (Stage_Walk b [] root 1)), (m, ns), w'. split; [reflexivity |].
    split; [|split; [rewrite Hw, app_nil_r; reflexivity | exact Hm]].
    apply (Hwalk _ _ k []); [cbn [length]; lia | exact Hptes |]. replace (Z.of_nat (S k)) with (Buffer.pages b) by lia. cbn [length].
    change (Z.of_nat 0) with 0. rewrite Eps. exact E.
Qed.

(** ** The frame *)

(** A word of the trap frame in memory. *)
Definition frame_at (mem : Bytes) (offset : Z) : Z := word_at mem (frame + offset).

Lemma frame_word_read (mem : Bytes) offset :
  0 <= offset -> offset + 4 <= FRAME_BYTES -> frame_word (read_bytes mem frame FRAME_BYTES) offset = Ok (frame_at mem offset).
Proof.
  intros Ho Hf. unfold frame_word. rewrite sub_slice_ok by (rewrite read_bytes_length; lia).
  replace FRAME_BYTES with (offset + (4 + (FRAME_BYTES - offset - 4))) by lia.
  rewrite <- mem_read_app, drop_app_length' by (lia || (rewrite read_bytes_length; lia)).
  rewrite <- mem_read_app, take_app_length' by (lia || (rewrite read_bytes_length; lia)). reflexivity.
Qed.

Definition enter_record (mem : Bytes) : Note :=
  mkNote SYSCALL_ENTER_KIND [("pid", VU64 pid); ("nr", VU64 (frame_at mem FRAME_A7)); ("a0", VU64 (frame_at mem FRAME_A0));
    ("a1", VU64 (frame_at mem FRAME_A1)); ("a2", VU64 (frame_at mem FRAME_A2))].

(** The trap from the frame on: what [decide] does is what the whole trap does. *)
Lemma frame_ends ns w s1 op s' w' :
  Model.decide (read_bytes (w_mem w) frame FRAME_BYTES) (m, ns) = (s1, Ok op) -> ends c bus Acc op s1 w s' w' ->
  ends c bus Acc (ProcOp.new Stage_ReadFrame) (m, ns) w s' w'.
Proof.
  intros E. eapply (ends_stage c bus Acc Stage_ReadFrame _ _ _ _ _ _ _ _ (frame_stage_accesses c Acc Stage_ReadFrame Hframe eq_refl)
    (frame_stage_steps c Stage_ReadFrame eq_refl)).
  { exact (read_frame_served c w). }
  unfold Model.advance. cbn [po_stage po_data]. mm_eval.
  rewrite E. reflexivity.
Qed.

Ltac frame_words :=
  repeat (rewrite frame_word_read by (unfold FRAME_SSTATUS, FRAME_SCAUSE, FRAME_SEPC, FRAME_STVAL, FRAME_A0, FRAME_A1, FRAME_A2, FRAME_A7, FRAME_BYTES; lia); mm_eval).

Lemma decide_syscall mem ns :
  has_bit (frame_at mem FRAME_SSTATUS) SSTATUS_SPP = false -> frame_at mem FRAME_SCAUSE = ECALL_FROM_U ->
  Model.decide (read_bytes mem frame FRAME_BYTES) (m, ns) = Model.syscall (read_bytes mem frame FRAME_BYTES) (m, ns).
Proof. intros Hs Hc. unfold Model.decide. mm_eval. frame_words. rewrite Hs, Hc, Z.eqb_refl. reflexivity. Qed.

Lemma syscall_returns mem ns w r :
  w_mem w = mem -> bytes_mem mem -> in_u 22 root ->
  (frame_at mem FRAME_A7 = SYS_WRITE ->
     forall a, write_access mem root (frame_at mem FRAME_A0) (frame_at mem FRAME_A1) (frame_at mem FRAME_A2) a -> Acc a) ->
  syscall_result mem root pid (frame_at mem FRAME_A7) (frame_at mem FRAME_A0) (frame_at mem FRAME_A1) (frame_at mem FRAME_A2) = Some r ->
  exists op s1 w', Model.syscall (read_bytes mem frame FRAME_BYTES) (m, ns) = (s1, Ok op) /\
    ends c bus Acc op s1 w (m, ns ++ [enter_record mem; exit_note pid (frame_at mem FRAME_A7) (fst r)]) w' /\
    w_uart w' = w_uart w ++ snd r /\ forall x, w_mem w' x = returned mem (frame_at mem FRAME_SEPC) (fst r) x.
Proof.
  intros Ew Hm Hr Hacc. unfold Model.syscall, Model.running_pid. mm_eval. rewrite Hpid. frame_words. fold (enter_record mem).
  replace (ns ++ [enter_record mem; exit_note pid (frame_at mem FRAME_A7) (fst r)])
    with ((ns ++ [enter_record mem]) ++ [exit_note pid (frame_at mem FRAME_A7) (fst r)]) by (rewrite <- app_assoc; reflexivity).
  subst mem. unfold syscall_result. destruct (Syscall.decode _) eqn:Ed; try discriminate; intros [= <-].
  - assert (En : frame_at (w_mem w) FRAME_A7 = SYS_WRITE).
    { revert Ed. unfold Syscall.decode. destruct (Z.eqb_spec (frame_at (w_mem w) FRAME_A7) SYS_WRITE); [auto |]. repeat case_if; discriminate. }
    rewrite En. apply write_returns; auto; apply word_at_in_u, Hm.
  - apply ret_returns.
  - apply ret_returns.
Qed.
End stages.
