(* ===== verification/OsSwitch.v ===== *)
(** Every trap, specified: what it answers and who runs next; and context switches.

    Proved: every trap of a valid kernel, driven by the engine with its whitelist, ends as
    [trap_spec] says or with a fault at one of the accesses of a [write]; a process that yields is
    resumed with exactly the registers it trapped with, whatever the others do meanwhile. *)
From stdpp Require Import base numbers list option strings sorting.
From Stdlib Require Import ZArith Lia.
From S2P Require Import Prelude Contracts Handlers Words Csr Privileged Sv32 Elf OsConfig OsFrames OsSpace OsSpaceProofs OsCore OsSyscall OsProcess OsProcOp OsModel OsModelProofs OsTrap.

Local Open Scope string_scope.
Local Open Scope list_scope.
Local Open Scope Z_scope.

Section spec.
Context (c : KernelConfig).

Local Abbreviation frame := (kc_trap_frame c).

(** * The specification *)

(** What a trap leaves in the frame: a result for the caller, the next process's context, or
    the order to shut down. *)
Inductive Answer : Set :=
| Answered (sepc value : Z)
| Dispatched (cx : Context) (satp : Z)
| Stopped (reason : Z).

Definition frame_after (mem : Bytes) (a : Answer) : Bytes :=
  match a with
  | Answered sepc value => returned c mem sepc value
  | Dispatched cx satp =>
      write_bytes (write_bytes mem frame (Context.to_frame cx)) (frame + FRAME_SATP) (to_le 4 satp ++ to_le 4 0)
  | Stopped reason => write_bytes mem (frame + FRAME_ACTION) (shutdown_bytes reason)
  end.

(** The registers a process trapped with. *)
Definition trapped (mem : Bytes) : Context :=
  mkContext ((fun i => frame_at c mem (4 * Z.of_nat i)) <$> seq 0 31) (frame_at c mem FRAME_SEPC) (frame_at c mem FRAME_SSTATUS).

(** The context a [sched_yield] resumes with: [a0 = 0], past the [ecall]. *)
Definition yielded (mem : Bytes) : Context :=
  mkContext (<[A0 := 0]> (cx_regs (trapped mem))) (wrap 32 (cx_pc (trapped mem) + 4)) (cx_sstatus (trapped mem)).

(** How the running process leaves the CPU. *)
Inductive leaves (s : Processes) (mem : Bytes) : Processes -> Prop :=
| leave_yield s' i :
    frame_at c mem FRAME_SCAUSE = ECALL_FROM_U -> Syscall.decode (frame_at c mem FRAME_A7) = Sys_SchedYield ->
    Processes.yield_current (yielded mem) s = (s', Ok i) -> leaves s mem s'
| leave_exit s' i :
    frame_at c mem FRAME_SCAUSE = ECALL_FROM_U ->
    (Syscall.decode (frame_at c mem FRAME_A7) = Sys_Exit \/ Syscall.decode (frame_at c mem FRAME_A7) = Sys_ExitGroup) ->
    Processes.end_current (Exited (as_i32 (frame_at c mem FRAME_A0))) s = (s', Ok i) -> leaves s mem s'
| leave_fault s' i :
    frame_at c mem FRAME_SCAUSE <> ECALL_FROM_U ->
    Processes.end_current (Faulted (frame_at c mem FRAME_SCAUSE) (frame_at c mem FRAME_SEPC) (frame_at c mem FRAME_STVAL)) s = (s', Ok i) ->
    leaves s mem s'.

(** Who runs next. *)
Inductive switches (m : Model) : Model -> Answer -> Prop :=
| switch_to s' i cx p :
    Processes.schedule_next (mo_procs m) = (s', Ok (Some (i, cx))) -> Processes.pcb s' i = Some p ->
    switches m (set_procs s' m) (Dispatched cx (Pte.satp (pcb_root p)))
| switch_none :
    queue (mo_procs m) = [] -> switches m (set_life Down m) (Stopped (Model.empty_queue_reason m)).

(** A trap of the running process [p] of PID [i]: the model after it, the bytes output, the answer. *)
Inductive trap_spec (m : Model) (mem : Bytes) : Model -> list Z -> Answer -> Prop :=
| trap_smode :
    has_bit (frame_at c mem FRAME_SSTATUS) SSTATUS_SPP = true -> trap_spec m mem (set_life Down m) [] (Stopped 1)
| trap_return i p value out :
    has_bit (frame_at c mem FRAME_SSTATUS) SSTATUS_SPP = false -> frame_at c mem FRAME_SCAUSE = ECALL_FROM_U ->
    current (mo_procs m) = Some i -> Processes.pcb (mo_procs m) i = Some p ->
    syscall_result mem (pcb_root p) i (frame_at c mem FRAME_A7) (frame_at c mem FRAME_A0) (frame_at c mem FRAME_A1)
      (frame_at c mem FRAME_A2) = Some (value, out) ->
    trap_spec m mem m out (Answered (frame_at c mem FRAME_SEPC) value)
| trap_switch s m' a :
    has_bit (frame_at c mem FRAME_SSTATUS) SSTATUS_SPP = false ->
    leaves (mo_procs m) mem s -> switches (set_procs s m) m' a -> trap_spec m mem m' [] a.

(** The trap makes an access for its [write]: one of the caller's page tables or of its buffer. *)
Inductive user_access (m : Model) (mem : Bytes) : Access -> Prop :=
| access_user i p a :
    has_bit (frame_at c mem FRAME_SSTATUS) SSTATUS_SPP = false -> frame_at c mem FRAME_SCAUSE = ECALL_FROM_U ->
    frame_at c mem FRAME_A7 = SYS_WRITE -> current (mo_procs m) = Some i -> Processes.pcb (mo_procs m) i = Some p ->
    write_access mem (pcb_root p) (frame_at c mem FRAME_A0) (frame_at c mem FRAME_A1) (frame_at c mem FRAME_A2) a ->
    user_access m mem a.

(** The accesses a trap makes: of the trap frame, of the UART, and those of its [write]. *)
Definition trap_access (m : Model) (mem : Bytes) (a : Access) : Prop :=
  in_frame c a \/ (exists b, a = Access_Write (kc_uart_tx c) [b]) \/ user_access m mem a.

(** * Every trap ends as specified *)

Context (Hu : uart_apart c) (bus : Access -> bool) (Acc : Access -> Prop) (Hframe : forall a, in_frame c a -> Acc a).
Context (Huart : forall b, Acc (Access_Write (kc_uart_tx c) [b])).

Lemma frame_last st s w op1 w1 s1 :
  frame_stage st = true -> serve_run (ProcOp.steps c (ProcOp.new st)) c (ProcOp.new st) w = Some (op1, w1) ->
  Model.advance c op1 s = (s1, Ok None) -> ends c bus Acc (ProcOp.new st) s w s1 w1.
Proof. intros Hst. exact (ends_last c bus Acc st s w op1 w1 s1 (frame_stage_accesses c Acc st Hframe Hst) (frame_stage_steps c st Hst)). Qed.

(** [op], decided with [s], ends in the world [w] with the answer of [P]. *)
Definition ends_with (w : World) (out : list Z) (P : Model -> Answer -> Prop) (op : ProcOp) (s : Model * list Note) : Prop :=
  exists m' ns' a w', ends c bus Acc op s w (m', ns') w' /\ P m' a /\ w_uart w' = w_uart w ++ out /\
    forall x, w_mem w' x = frame_after (w_mem w) a x.

Lemma shutdown_ends w reason m ns : ends_with w [] (fun m' a => m' = m /\ a = Stopped reason) (ProcOp.new (Stage_Shutdown reason)) (m, ns).
Proof.
  destruct (shutdown_served c reason w Hu) as (w' & E & Hw & Hm). exists m, ns, (Stopped reason), w'.
  split; [eapply frame_last; [reflexivity | exact E | reflexivity] |]. split; [auto |]. split; [rewrite Hw, app_nil_r; reflexivity | exact Hm].
Qed.

Lemma dispatch_ends w i cx satp m ns :
  length (cx_regs cx) = 31%nat ->
  ends_with w [] (fun m' a => m' = m /\ a = Dispatched cx satp) (ProcOp.new (Stage_Dispatch i cx satp)) (m, ns).
Proof.
  intros Hl. destruct (dispatch_served c i cx satp w Hu Hl) as (w' & E & Hw & Hm). exists m, ns, (Dispatched cx satp), w'.
  split; [eapply frame_last; [reflexivity | exact E | reflexivity] |]. split; [auto |]. split; [rewrite Hw, app_nil_r; reflexivity | exact Hm].
Qed.

Lemma ends_with_impl w out (P P' : Model -> Answer -> Prop) op s :
  (forall m a, P m a -> P' m a) -> ends_with w out P op s -> ends_with w out P' op s.
Proof. intros HP (m' & ns' & a & w' & E & Hp & Hr). exists m', ns', a, w'. auto. Qed.

Lemma next_ends w from m ns :
  model_ok c m None -> booting m -> wp (Model.dispatch_next from) (ends_with w [] (switches m)) never (m, ns).
Proof.
  intros Hm [Hup Hcur]. pose proof (ok_procs _ _ _ Hm) as Hinv. pose proof (schedule_inv _ _ _ Hinv Hcur) as Hs.
  unfold Model.dispatch_next. apply wp_bind. destruct (queue (mo_procs m)) as [|i q] eqn:Eq.
  - eapply wp_procs; [exact Hs |]. mm_run. assert (Hid : set_procs (mo_procs m) m = m) by (destruct m; reflexivity). rewrite Hid.
    eapply ends_with_impl; [|apply shutdown_ends]. intros m' a [-> ->]. apply switch_none, Eq.
  - destruct Hs as (s' & cx & E & Hinv' & _). destruct (schedule_after _ _ _ _ E (ok_contexts _ _ _ Hm)) as (Hc' & _ & Hl).
    destruct (inv_current _ _ _ _ Hinv' Hc') as (p & Ep & _).
    eapply wp_procs; [exact E |]. mm_run. cbn [mo_procs set_procs]. rewrite Ep. mm_run.
    eapply ends_with_impl; [|apply dispatch_ends, Hl]. intros m' a [-> ->]. eapply switch_to; eauto.
Qed.

Lemma wp_frame_at mem offset (Q : Z -> Model * list Note -> Prop) X s :
  0 <= offset <= FRAME_BYTES - 4 -> Q (frame_at c mem offset) s ->
  wp (no_panic (frame_word (read_bytes mem frame FRAME_BYTES) offset)) Q X s.
Proof. intros Ho HQ. eapply wp_no_panic; [apply frame_word_read; lia | exact HQ]. Qed.

Lemma from_frame_trapped mem : Context.from_frame (read_bytes mem frame FRAME_BYTES) = Some (trapped mem).
Proof.
  assert (Hw : forall i, (i < 33)%nat -> Context.word (read_bytes mem frame FRAME_BYTES) i = Some (frame_at c mem (4 * Z.of_nat i))).
  { intros i Hi. pose proof (frame_word_read c mem (4 * Z.of_nat i) ltac:(lia) ltac:(unfold FRAME_BYTES; lia)) as E.
    unfold frame_word in E. unfold Context.word. destruct (Nat.leb_spec (4 * i + 4) (length (read_bytes mem frame FRAME_BYTES))) as [Hl|Hl].
    - rewrite sub_slice_ok in E by lia. replace (Z.to_nat (4 * Z.of_nat i)) with (4 * i)%nat in E by lia.
      cbn [mbind result_bind] in E. congruence.
    - rewrite read_bytes_length in Hl. unfold FRAME_BYTES in Hl. lia. }
  unfold Context.from_frame. rewrite (proj2 (mapM_Some _ _ ((fun i => frame_at c mem (4 * Z.of_nat i)) <$> seq 0 31))).
  - cbn [mbind option_bind]. rewrite !Hw by lia. reflexivity.
  - apply Forall2_fmap_r, Forall_Forall2_diag, Forall_forall. intros i Hi%elem_of_seq. apply Hw. lia.
Qed.

Definition roots_ok (m : Model) : Prop := Forall (fun p => in_u 22 (pcb_root p)) (pcbs (mo_procs m)).

Lemma running_pcb m i :
  model_ok c m None -> roots_ok m -> current (mo_procs m) = Some i ->
  exists p, Processes.pcb (mo_procs m) i = Some p /\ p ∈ pcbs (mo_procs m) /\ in_u 22 (pcb_root p).
Proof.
  intros Hm Hr Hc. destruct (inv_current _ _ _ _ (ok_procs _ _ _ Hm) Hc) as (p & Ep & Hp & _). exists p. split; [exact Ep |].
  split; [exact Hp |]. unfold roots_ok in Hr. rewrite Forall_forall in Hr. auto.
Qed.

Section decide.
Context (m : Model) (w : World) (Hm : model_ok c m None) (Hr : running m) (Hroots : roots_ok m) (Hb : bytes_mem (w_mem w)).
Context (Huser : forall a, user_access m (w_mem w) a -> Acc a).

Local Abbreviation mem := (w_mem w).
Local Abbreviation finishes := (fun op s => exists out, ends_with w out (fun m' a => trap_spec m mem m' out a) op s).

Ltac frame_steps :=
  repeat (try mm_step; apply wp_frame_at;
    [unfold FRAME_BYTES, FRAME_SEPC, FRAME_SSTATUS, FRAME_SCAUSE, FRAME_STVAL, FRAME_A0, FRAME_A1, FRAME_A2, FRAME_A7; lia |]).

Lemma switched ns from s :
  has_bit (frame_at c mem FRAME_SSTATUS) SSTATUS_SPP = false -> leaves (mo_procs m) mem s ->
  model_ok c (set_procs s m) None -> booting (set_procs s m) ->
  wp (Model.dispatch_next from) finishes never (set_procs s m, ns).
Proof.
  intros Hs Hl Hm' Hbt. eapply wp_mono; [apply (next_ends w _ _ _ Hm' Hbt) | | auto]. intros op st (m' & ns' & a & w' & E & Hsw & Hrest).
  exists [], m', ns', a, w'. split; [exact E |]. split; [eapply trap_switch; eauto | exact Hrest].
Qed.

Lemma decide_ends ns : wp (Model.decide (read_bytes mem frame FRAME_BYTES)) finishes never (m, ns).
Proof.
  destruct Hr as [Hup [i Hi]]. destruct (running_pcb m i Hm Hroots Hi) as (p & Ep & Hp & Hroot).
  destruct (has_bit (frame_at c mem FRAME_SSTATUS) SSTATUS_SPP) eqn:Es.
  { unfold Model.decide. frame_steps. rewrite Es. mm_run. exists []. eapply ends_with_impl; [|apply shutdown_ends].
    intros m' a [-> ->]. apply trap_smode, Es. }
  destruct (Z.eqb_spec (frame_at c mem FRAME_SCAUSE) ECALL_FROM_U) as [Ec|Ec].
  2: { unfold Model.decide. frame_steps. rewrite Es. rewrite (proj2 (Z.eqb_neq _ _) Ec).
    apply (end_current_ok c); auto. intros j s E Hm' Hbt. mm_run. apply switched; auto. eapply leave_fault; eauto. }
  unfold wp. rewrite decide_syscall by assumption. fold (wp (Model.syscall (read_bytes mem frame FRAME_BYTES)) finishes never (m, ns)).
  destruct (syscall_result mem (pcb_root p) i (frame_at c mem FRAME_A7) (frame_at c mem FRAME_A0) (frame_at c mem FRAME_A1) (frame_at c mem FRAME_A2))
    as [[value out]|] eqn:Er.
  - destruct (syscall_returns c Hu m i p bus Acc Hframe Huart Hi Ep mem ns w _ eq_refl Hb Hroot
      (fun E a Ha => Huser a (access_user m mem i p a Es Ec E Hi Ep Ha)) Er) as (op & s1 & w' & E & He & Hw & Hmem).
    unfold wp. rewrite E. exists out. eexists _, _, (Answered (frame_at c mem FRAME_SEPC) value), w'. split; [exact He |].
    split; [eapply trap_return; eauto | split; [exact Hw | exact Hmem]].
  - unfold Model.syscall, Model.running_pid. mm_run. rewrite Hi. mm_run. frame_steps. mm_run. unfold syscall_result in Er.
    destruct (Syscall.decode _) eqn:Ed; try discriminate.
    + apply (end_current_ok c); auto. intros j s E Hm' Hbt. mm_run. apply switched; auto. eapply leave_exit; eauto.
    + apply (end_current_ok c); auto. intros j s E Hm' Hbt. mm_run. apply switched; auto. eapply leave_exit; eauto.
    + mm_step. eapply wp_no_panic; [rewrite from_frame_trapped; reflexivity |]. mm_run.
      apply (yield_current_ok c); auto. intros j s E Hm' Hbt. apply switched; auto. eapply leave_yield; eauto.
Qed.
End decide.
End spec.

(** * Sequences of traps *)

Lemma run_op_more c fuel k : forall op s w r, run_op fuel c op s w = Some r -> run_op (fuel + k) c op s w = Some r.
Proof.
  induction fuel as [|fuel IH]; intros op s w r; [discriminate |]. cbn [run_op Nat.add].
  destruct (serve_run _ c op w) as [[op1 w1]|]; [|discriminate]. cbn [mbind option_bind].
  destruct (Model.advance c op1 s) as [s1 [[next|]|]]; auto.
Qed.

Lemma run_op_det c f1 f2 op s w r1 r2 : run_op f1 c op s w = Some r1 -> run_op f2 c op s w = Some r2 -> r1 = r2.
Proof.
  intros E1 E2. apply (run_op_more c f1 f2) in E1. apply (run_op_more c f2 f1) in E2. rewrite Nat.add_comm in E2. congruence.
Qed.

Lemma pcb_updated j g l i :
  (forall p, pid (g p) = pid p) -> find_pcb (update_pcb j g l) i = if i =? j then g <$> find_pcb l i else find_pcb l i.
Proof.
  intros Hg. induction l as [|p l IH]; cbn [update_pcb find_pcb find]; [case_if; reflexivity |].
  unfold find_pcb in *. destruct (Z.eqb_spec (pid p) j) as [Ej|Ej]; cbn [find]; rewrite ?Hg; destruct (Z.eqb_spec (pid p) i) as [Ei|Ei].
  - rewrite <- Ei, Ej, Z.eqb_refl. reflexivity.
  - destruct (Z.eqb_spec i j); [congruence | reflexivity].
  - destruct (Z.eqb_spec i j); [congruence | reflexivity].
  - exact IH.
Qed.

Lemma yield_pcb cx s s' j i :
  Processes.yield_current cx s = (s', Ok j) ->
  current s = Some j /\ Processes.pcb s' i = if i =? j then Processes.to_ready cx <$> Processes.pcb s i else Processes.pcb s i.
Proof.
  unfold Processes.yield_current, Processes.pcb. destruct (current s) as [k|]; [|discriminate]. destruct (find_pcb _ k); [|discriminate].
  intros [= <- <-]. split; [reflexivity |]. cbn [pcbs]. apply pcb_updated. reflexivity.
Qed.

Lemma end_pcb st s s' j i :
  Processes.end_current st s = (s', Ok j) -> current s = Some j /\ (i <> j -> Processes.pcb s' i = Processes.pcb s i).
Proof.
  unfold Processes.end_current, Processes.pcb. destruct (negb _); [discriminate |]. destruct (current s) as [k|]; [|discriminate].
  destruct (find_pcb _ k); [|discriminate]. destruct (Frames.release _ _ _) as [f [[]|]]; [|discriminate].
  intros [= <- <-]. split; [reflexivity |]. intros Hne. cbn [pcbs set_current set_pool set_pcbs]. rewrite pcb_updated by reflexivity.
  destruct (Z.eqb_spec i k); [contradiction | reflexivity].
Qed.

Lemma schedule_pcb s s' j cx i :
  Processes.schedule_next s = (s', Ok (Some (j, cx))) ->
  current s' = Some j /\ (i <> j -> Processes.pcb s' i = Processes.pcb s i) /\
  exists p q, Processes.pcb s j = Some p /\ context p = Some cx /\ Processes.pcb s' j = Some q /\ pcb_root q = pcb_root p.
Proof.
  unfold Processes.schedule_next, Processes.pcb. destruct (current s); [discriminate |]. destruct (queue s) as [|k q]; [discriminate |].
  cbn [pcbs set_queue]. destruct (find_pcb (pcbs s) k) as [p|] eqn:Ep; [|discriminate]. destruct (context p) eqn:Ec; [|discriminate].
  destruct (negb _); [discriminate |]. intros [= <- <- <-]. cbn [current set_current set_pcbs pcbs set_queue].
  split; [reflexivity |]. split.
  - intros Hne. rewrite !pcb_updated by reflexivity. destruct (Z.eqb_spec i k); [contradiction | reflexivity].
  - exists p. rewrite !pcb_updated, Z.eqb_refl, Ep by reflexivity. eauto.
Qed.

(** A trap of the running process; between traps, user code may leave any world. *)
Definition trap (c : KernelConfig) (m : Model) (w : World) (m' : Model) (w' : World) : Prop :=
  running m /\ bytes_mem (w_mem w) /\ exists fuel ns, run_op fuel c (ProcOp.new Stage_ReadFrame) (m, []) w = Some ((m', ns), w').

(** Traps from [m], the first in the world [w], up to the first after which [i] runs. *)
Inductive runs_until (c : KernelConfig) (i : Z) : Model -> World -> Model -> World -> Prop :=
| until_now m w m' w' : trap c m w m' w' -> current (mo_procs m') = Some i -> runs_until c i m w m' w'
| until_later m w m1 w1 w2 m' w' :
    trap c m w m1 w1 -> current (mo_procs m1) <> Some i -> runs_until c i m1 w2 m' w' -> runs_until c i m w m' w'.

Section waiting.
Context (c : KernelConfig) (Hu : uart_apart c).

(** A trap, run whatever it accesses, and driven by the engine. *)
Lemma trap_meets bus m w :
  model_ok c m None -> running m -> roots_ok m -> bytes_mem (w_mem w) ->
  exists m' ns out a w',
    ends c bus (trap_access c m (w_mem w)) (ProcOp.new Stage_ReadFrame) (m, []) w (m', ns) w' /\
    trap_spec c m (w_mem w) m' out a /\
    w_uart w' = w_uart w ++ out /\ forall x, w_mem w' x = frame_after c (w_mem w) a x.
Proof.
  intros Hm Hr Hroots Hb. set (Acc := trap_access c m (w_mem w)).
  assert (Hframe : forall a, in_frame c a -> Acc a) by (left; assumption).
  assert (Huart : forall b, Acc (Access_Write (kc_uart_tx c) [b])) by (right; left; eauto).
  assert (Huser : forall a, user_access c m (w_mem w) a -> Acc a) by (right; right; assumption).
  pose proof (decide_ends c Hu bus Acc Hframe Huart m w Hm Hr Hroots Hb Huser []) as Hd. unfold wp in Hd.
  destruct (Model.decide _ _) as [s1 [op|]] eqn:E; [|destruct Hd]. destruct Hd as (out & m' & ns & a & w' & He & Hs & Hw).
  exists m', ns, out, a, w'. split; [exact (frame_ends c m bus Acc Hframe [] w s1 op _ w' E He) | auto].
Qed.

Lemma trap_is_spec m w m' w' :
  model_ok c m None -> roots_ok m -> trap c m w m' w' ->
  exists out a, trap_spec c m (w_mem w) m' out a /\ forall x, w_mem w' x = frame_after c (w_mem w) a x.
Proof.
  intros Hm Hroots (Hr & Hb & fuel & ns & E). destruct (trap_meets (fun _ => true) m w Hm Hr Hroots Hb) as (m1 & ns1 & out & a & w1 & [[f' E1] _] & Hs & _ & Hw).
  pose proof (run_op_det _ _ _ _ _ _ _ _ E E1) as [= -> -> ->]. eauto.
Qed.

Local Abbreviation rooted s := (Forall (fun p => in_u 22 (pcb_root p)) (pcbs s)).

Lemma yield_roots cx s s' i : Processes.yield_current cx s = (s', Ok i) -> rooted s -> rooted s'.
Proof.
  unfold Processes.yield_current. destruct (current s); [|discriminate]. destruct (Processes.pcb s _); [|discriminate].
  intros [= <- _]. apply update_all. auto.
Qed.

Lemma end_roots st s s' i : Processes.end_current st s = (s', Ok i) -> rooted s -> rooted s'.
Proof.
  unfold Processes.end_current. destruct (negb _); [discriminate |]. destruct (current s); [|discriminate].
  destruct (Processes.pcb s _); [|discriminate]. destruct (Frames.release _ _ _) as [f [[]|]]; [|discriminate].
  intros [= <- _]. apply update_all. auto.
Qed.

Lemma schedule_roots s s' r : Processes.schedule_next s = (s', Ok r) -> rooted s -> rooted s'.
Proof.
  unfold Processes.schedule_next. destruct (current s); [discriminate |]. destruct (queue s) as [|k q]; [intros [= <- _]; auto |].
  destruct (Processes.pcb _ k) as [p|]; [|discriminate]. destruct (context p); [|discriminate].
  destruct (negb _); [discriminate |]. intros [= <- _] H. do 2 (apply update_all; [auto |]). exact H.
Qed.

Lemma leaves_ok m mem s :
  model_ok c m None -> running m -> roots_ok m -> leaves c (mo_procs m) mem s ->
  model_ok c (set_procs s m) None /\ current s = None /\ roots_ok (set_procs s m).
Proof.
  intros Hm [Hup [i Hi]] Hroots Hl. pose proof (ok_procs _ _ _ Hm) as Hinv. pose proof (ok_contexts _ _ _ Hm) as Hcx.
  assert (Hmk : proc_inv s (Z.of_nat (mo_entries m)) None -> contexts_ok s -> model_ok c (set_procs s m) None) by (destruct Hm; split; auto).
  assert (Hend : forall st j, ProcState.is_terminal st = true -> Processes.end_current st (mo_procs m) = (s, Ok j) ->
            model_ok c (set_procs s m) None /\ current s = None /\ roots_ok (set_procs s m)).
  { intros st j Ht E. destruct (end_inv _ _ _ st i Hinv Hi Ht) as (s1 & E1 & Hinv1). rewrite E in E1. injection E1 as <- _.
    destruct (end_after _ _ _ _ E Hcx) as [Hc Hx]. split; [auto |]. split; [exact Hc |]. eapply end_roots; eauto. }
  destruct Hl as [s j _ _ E|s j _ _ E|s j _ E]; [|eapply Hend; [|exact E]; reflexivity..].
  destruct (yield_inv _ _ _ (yielded c mem) i Hinv Hi) as (s1 & E1 & Hinv1). rewrite E in E1. injection E1 as <- _.
  destruct (yield_after _ _ _ _ E ltac:(reflexivity) Hcx) as [Hc Hx]. split; [auto |]. split; [exact Hc |]. eapply yield_roots; eauto.
Qed.

Lemma switches_ok m m' a :
  model_ok c m None -> current (mo_procs m) = None -> roots_ok m -> switches m m' a -> model_ok c m' None /\ roots_ok m'.
Proof.
  intros Hm Hc Hroots [s' i cx p E Ep|Eq]; [|split; [destruct Hm; split; assumption | exact Hroots]].
  pose proof (schedule_inv _ _ _ (ok_procs _ _ _ Hm) Hc) as Hs. destruct (queue (mo_procs m)); [rewrite E in Hs; discriminate |].
  destruct Hs as (s1 & cx1 & E1 & Hinv & _). rewrite E in E1. injection E1 as <- _ _.
  destruct (schedule_after _ _ _ _ E (ok_contexts _ _ _ Hm)) as (_ & Hx & _). split; [destruct Hm; split; auto |].
  eapply schedule_roots; eauto.
Qed.

Lemma trap_keeps m mem m' out a :
  model_ok c m None -> running m -> roots_ok m -> trap_spec c m mem m' out a -> model_ok c m' None /\ roots_ok m'.
Proof.
  intros Hm Hr Hroots [Hs|i p v o _ _ _ _ _|s m1 b _ Hl Hsw]; [split; [destruct Hm; split; assumption | exact Hroots] | auto |].
  destruct (leaves_ok m mem s Hm Hr Hroots Hl) as (Hm1 & Hc & Hr1). eapply switches_ok; eauto.
Qed.

(** [i] still waits, its PCB unchanged, or it runs with the context [cx] in the frame. *)
Definition waits_or_runs (i : Z) (p : Pcb) (cx : Context) (m' : Model) (a : Answer) : Prop :=
  (Processes.pcb (mo_procs m') i = Some p /\ current (mo_procs m') <> Some i) \/
  (a = Dispatched cx (Pte.satp (pcb_root p)) /\ current (mo_procs m') = Some i).

Lemma switch_waiting m m' a i p cx :
  Processes.pcb (mo_procs m) i = Some p -> context p = Some cx -> current (mo_procs m) = None ->
  switches m m' a -> waits_or_runs i p cx m' a.
Proof.
  intros Ep Hcx Hc [s' j cx' q E Eq|Eq].
  - destruct (schedule_pcb _ _ _ _ i E) as (Hc' & Hsame & p' & q' & Ep' & Hcx' & Eq' & Hroot). cbn [mo_procs set_procs].
    destruct (Z.eq_dec i j) as [->|Hne].
    + right. cbn [mo_procs set_procs]. split; [|exact Hc']. congruence.
    + left. cbn [mo_procs set_procs]. split; [rewrite Hsame; assumption | congruence].
  - left. cbn [mo_procs set_life]. split; [exact Ep | congruence].
Qed.

Lemma trap_waiting m mem m' out a i p cx :
  model_ok c m None -> running m -> roots_ok m -> Processes.pcb (mo_procs m) i = Some p -> context p = Some cx ->
  trap_spec c m mem m' out a -> waits_or_runs i p cx m' a.
Proof.
  intros Hm Hr Hroots Ep Hcx Hspec. assert (Hne : current (mo_procs m) <> Some i).
  { intros Hc. destruct (inv_current _ _ _ _ (ok_procs _ _ _ Hm) Hc) as (q & Eq & Hq & _ & Hst & _). assert (q = p) as -> by congruence.
    pose proof (inv_pcb_ok _ _ _ p (ok_procs _ _ _ Hm) Hq) as (Hready & _). rewrite Hcx, Hst in Hready.
    destruct Hready as [_ Hready]. specialize (Hready ltac:(eauto)). discriminate. }
  destruct Hspec as [Hs|j q v o _ _ _ _ _|s m1 b _ Hl Hsw]; [left; auto | left; auto |].
  destruct (leaves_ok m mem s Hm Hr Hroots Hl) as (_ & Hc & _). apply (switch_waiting (set_procs s m)); auto. cbn [mo_procs set_procs].
  destruct Hl as [s j _ _ E|s j _ _ E|s j _ E].
  - destruct (yield_pcb _ _ _ _ i E) as [Hcur ->]. destruct (Z.eqb_spec i j); [congruence | exact Ep].
  - destruct (end_pcb _ _ _ _ i E) as [Hcur ->]; congruence.
  - destruct (end_pcb _ _ _ _ i E) as [Hcur ->]; congruence.
Qed.

(** A process that waits is resumed with the context it waits with. *)
Lemma waiting_resumes i p cx m w m' w' :
  runs_until c i m w m' w' -> model_ok c m None -> roots_ok m ->
  Processes.pcb (mo_procs m) i = Some p -> context p = Some cx ->
  exists mem, forall x, w_mem w' x = frame_after c mem (Dispatched cx (Pte.satp (pcb_root p))) x.
Proof.
  induction 1 as [m w m' w' Ht Hi|m w m1 w1 w2 m' w' Ht Hi Hrest IH]; intros Hm Hroots Ep Hcx;
    destruct (trap_is_spec _ _ _ _ Hm Hroots Ht) as (out & a & Hspec & Hw); pose proof (proj1 Ht) as Hr;
    destruct (trap_waiting _ _ _ _ _ i p cx Hm Hr Hroots Ep Hcx Hspec) as [[Ep' Hne]|[Ha Hc]]; try congruence.
  - exists (w_mem w). intros x. rewrite Hw, Ha. reflexivity.
  - destruct (trap_keeps _ _ _ _ _ Hm Hr Hroots Hspec). apply IH; auto.
Qed.
End waiting.

(** * The words of a dispatched frame *)

Lemma read_write_in m a bs k n :
  (k + n <= length bs)%nat -> read_bytes (write_bytes m a bs) (a + Z.of_nat k) (Z.of_nat n) = take n (drop k bs).
Proof.
  intros Hl. apply list_eq. intros i. unfold read_bytes. rewrite list_lookup_fmap. destruct (Nat.lt_ge_cases i n) as [Hi|Hi].
  - rewrite lookup_seqZ_lt, lookup_take_lt, lookup_drop by lia. destruct (lookup_lt_is_Some_2 bs (k + i) ltac:(lia)) as [x Hx].
    cbn. rewrite write_bytes_in by lia. replace (Z.to_nat _) with (k + i)%nat by lia. rewrite Hx. reflexivity.
  - rewrite lookup_seqZ_ge, lookup_take_ge by lia. reflexivity.
Qed.

Lemma word_written m a ws i v : ws !! i = Some v -> in_u 32 v -> word_at (write_bytes m a (ws ≫= to_le 4)) (a + 4 * Z.of_nat i) = v.
Proof.
  intros Hi Hv. unfold word_at. apply lookup_lt_Some in Hi as Hl. replace (4 * Z.of_nat i) with (Z.of_nat (4 * i)) by lia.
  change 4 with (Z.of_nat 4). rewrite read_write_in by (rewrite length_words; lia).
  fold (slice (ws ≫= to_le 4) i). rewrite (slice_words _ _ _ Hi). apply from_to_le_id, Hv.
Qed.

Lemma word_out m a bs x : x + 4 <= a \/ a + Z.of_nat (length bs) <= x -> word_at (write_bytes m a bs) x = word_at m x.
Proof. intros H. unfold word_at. f_equal. apply read_bytes_ext. intros y Hy. apply write_bytes_out. lia. Qed.

Lemma dispatched_words c mem cx satp :
  context_ok cx -> in_u 32 satp ->
  let after := frame_at c (frame_after c mem (Dispatched cx satp)) in
  (forall i r, cx_regs cx !! i = Some r -> after (4 * Z.of_nat i) = r) /\
  after FRAME_SEPC = cx_pc cx /\ after FRAME_SSTATUS = cx_sstatus cx /\ after FRAME_SATP = satp /\ after FRAME_ACTION = 0.
Proof.
  intros (Hl & Hr & Hp & Hs) Hsatp after. set (ws := cx_regs cx ++ [cx_pc cx; cx_sstatus cx]).
  assert (Hws : forall i v, ws !! i = Some v -> in_u 32 v).
  { intros i v Hi. assert (Hall : Forall (in_u 32) ws) by (apply Forall_app; split; [exact Hr | repeat constructor; apply Hp || apply Hs]).
    exact (Forall_lookup_1 _ _ _ _ Hall Hi). }
  assert (Hlow : forall i v, ws !! i = Some v -> after (4 * Z.of_nat i) = v).
  { intros i v Hi. unfold after, frame_at, frame_after. apply lookup_lt_Some in Hi as Hlt.
    unfold ws in Hlt. rewrite length_app, Hl in Hlt. cbn [length] in Hlt.
    rewrite word_out by (unfold FRAME_SATP; lia). unfold Context.to_frame. fold ws. apply word_written; eauto. }
  assert (Hhigh : forall i v, [satp; 0] !! i = Some v -> in_u 32 v -> after (FRAME_SATP + 4 * Z.of_nat i) = v).
  { intros i v Hi Hv. unfold after, frame_at, frame_after. replace (to_le 4 satp ++ to_le 4 0) with ([satp; 0] ≫= to_le 4) by reflexivity.
    rewrite Z.add_assoc. apply word_written; auto. }
  split_and!.
  - intros i r Hi. apply Hlow. apply lookup_app_l_Some, Hi.
  - apply (Hlow 31%nat). unfold ws. rewrite lookup_app_r, Hl by lia. reflexivity.
  - apply (Hlow 32%nat). unfold ws. rewrite lookup_app_r, Hl by lia. reflexivity.
  - apply (Hhigh 0%nat); [reflexivity | exact Hsatp].
  - apply (Hhigh 1%nat); [reflexivity | const_range].
Qed.

Lemma yielded_ok c mem : bytes_mem mem -> context_ok (yielded c mem).
Proof.
  intros Hm. assert (Hf : forall o, in_u 32 (frame_at c mem o)) by (intros; apply word_at_in_u, Hm).
  split; [reflexivity |]. split; [|split; [apply wrap_in_u; lia | apply Hf]].
  apply Forall_insert; [|const_range]. apply Forall_fmap, Forall_forall. intros i _. apply Hf.
Qed.

Lemma satp_in_u root : in_u 32 (Pte.satp root).
Proof. apply lor_in_u; [lia | const_range | apply land_in_u_r; [lia | const_range]]. Qed.

Lemma yield_spec c m mem m' out a i p :
  has_bit (frame_at c mem FRAME_SSTATUS) SSTATUS_SPP = false -> frame_at c mem FRAME_SCAUSE = ECALL_FROM_U ->
  Syscall.decode (frame_at c mem FRAME_A7) = Sys_SchedYield ->
  model_ok c m None -> running m -> roots_ok m -> current (mo_procs m) = Some i -> Processes.pcb (mo_procs m) i = Some p ->
  trap_spec c m mem m' out a -> waits_or_runs i (Processes.to_ready (yielded c mem) p) (yielded c mem) m' a.
Proof.
  intros Hs Hc Hd Hm Hr Hroots Hi Ep [Hs'|j q v o _ _ _ _ Er|s m1 b _ Hl Hsw]; [congruence | |].
  { unfold syscall_result in Er. rewrite Hd in Er. discriminate. }
  destruct (leaves_ok c m mem s Hm Hr Hroots Hl) as (_ & Hcur & _). apply (switch_waiting (set_procs s m)); auto. cbn [mo_procs set_procs].
  destruct Hl as [s j _ _ E|s j _ [Hd'|Hd'] _|s j Hc' _]; [|congruence..].
  destruct (yield_pcb _ _ _ _ i E) as [Hj ->]. assert (i = j) as -> by congruence. rewrite Z.eqb_refl, Ep. reflexivity.
Qed.

(** * The kernel's own registers *)

(** The addresses a platform gives the kernel: the trap frame and the UART's TX register are
    64-bit, the register is not in the frame and neither is in the kernel's gate.  The code does
    not check the last two. *)
Record own_apart (c : KernelConfig) : Prop := {
  own_uart : uart_apart c;
  own_frame_end : kc_trap_frame c + FRAME_BYTES < 2 ^ 64;
  own_uart_end : 0 <= kc_uart_tx c < 2 ^ 64 - 1;
  own_gate : window_ok (kc_gate c);
  own_frame_gate : w_base (kc_gate c) + w_size (kc_gate c) <= kc_trap_frame c \/ kc_trap_frame c + FRAME_BYTES <= w_base (kc_gate c);
  own_uart_gate : ~ (w_base (kc_gate c) <= kc_uart_tx c < w_base (kc_gate c) + w_size (kc_gate c));
}.

Lemma granted c g a n :
  window_ok (kc_gate c) -> g ∈ KernelConfig.grants c -> 1 <= n -> w_base g <= a -> a + n <= w_base g + w_size g -> a + n < 2 ^ 64 ->
  a + n <= w_base (kc_gate c) \/ w_base (kc_gate c) + w_size (kc_gate c) <= a -> KernelConfig.permits c a n = true.
Proof.
  intros Hg Hin Hn Hlo Hhi Hend Hap. unfold KernelConfig.permits. apply andb_true_iff. split.
  - apply negb_true_iff, not_true_iff_false. rewrite overlaps_spec by (auto; lia). lia.
  - apply existsb_exists. exists g. split; [apply list_elem_of_In, Hin |]. apply contains_spec; lia.
Qed.

Lemma frame_granted c a : own_apart c -> in_frame c a -> KernelConfig.permits c (Access.addr a) (Access.len a) = true.
Proof.
  intros [_ Hf _ Hg Hfg _] (Hn & Hlo & Hhi). apply (granted c (KernelConfig.frame c)); auto; cbn [w_base w_size KernelConfig.frame]; try lia.
  apply list_elem_of_here.
Qed.

Lemma uart_granted c : own_apart c -> KernelConfig.permits c (kc_uart_tx c) 1 = true.
Proof.
  intros [_ _ Hu Hg _ Hug]. apply (granted c (mkWindow (kc_uart_tx c) 1)); auto; cbn [w_base w_size]; try lia.
  do 4 apply list_elem_of_further. apply list_elem_of_here.
Qed.


(** C11: A process that yields comes back as it left.  When process [i] traps with [sched_yield]
    and, after any number of traps of the others and whatever user code did to memory meanwhile,
    [i] runs again, the trap frame holds its 31 registers as they were when it trapped, but
    [a0 = 0], the [sepc] past the [ecall], its [sstatus], the [satp] of its page tables, and
    the action that resumes it. *)
Theorem yield_resumes (c : KernelConfig) (m : Model) (w : World) (m' : Model) (w' : World) (i : Z) (p : Pcb) :
  uart_apart c -> model_ok c m None -> roots_ok m ->
  current (mo_procs m) = Some i -> Processes.pcb (mo_procs m) i = Some p ->
  let before := frame_at c (w_mem w) in
  let after := frame_at c (w_mem w') in
  has_bit (before FRAME_SSTATUS) SSTATUS_SPP = false -> before FRAME_SCAUSE = ECALL_FROM_U ->
  before FRAME_A7 = SYS_SCHED_YIELD ->
  runs_until c i m w m' w' ->
  (forall k, 0 <= k < 31 -> after (4 * k) = if 4 * k =? FRAME_A0 then 0 else before (4 * k)) /\
  after FRAME_SEPC = wrap 32 (before FRAME_SEPC + 4) /\ after FRAME_SSTATUS = before FRAME_SSTATUS /\
  after FRAME_SATP = Pte.satp (pcb_root p) /\ after FRAME_ACTION = 0.
Proof.
  intros Hu Hm Hroots Hi Ep before after Hs Hc Hn Hrun. set (cx := yielded c (w_mem w)).
  assert (Hd : Syscall.decode (before FRAME_A7) = Sys_SchedYield) by (rewrite Hn; reflexivity).
  assert (Hframe : (exists mem, forall x, w_mem w' x = frame_after c mem (Dispatched cx (Pte.satp (pcb_root p))) x) /\ bytes_mem (w_mem w)).
  { destruct Hrun as [m w m' w' Ht Hi'|m w m1 w1 w2 m' w' Ht Hi' Hrest];
      destruct (trap_is_spec c Hu _ _ _ _ Hm Hroots Ht) as (out & a & Hspec & Hw); destruct Ht as (Hr & Hb & _); (split; [|exact Hb]);
      destruct (yield_spec c _ _ _ _ _ i p Hs Hc Hd Hm Hr Hroots Hi Ep Hspec) as [[Ep' Hne]|[Ha Hcur]]; try congruence.
    - exists (w_mem w). intros x. rewrite Hw, Ha. reflexivity.
    - destruct (trap_keeps c _ _ _ _ _ Hm Hr Hroots Hspec) as [Hm1 Hr1].
      exact (waiting_resumes c Hu i _ cx _ _ _ _ Hrest Hm1 Hr1 Ep' eq_refl). }
  destruct Hframe as [[mem Hmem] Hb]. destruct (dispatched_words c mem cx (Pte.satp (pcb_root p)) (yielded_ok c _ Hb) (satp_in_u _)) as (Hregs & Hrest).
  assert (Hafter : forall o, after o = frame_at c (frame_after c mem (Dispatched cx (Pte.satp (pcb_root p)))) o).
  { intros o. unfold after, frame_at, word_at. f_equal. apply read_bytes_ext. intros x _. apply Hmem. }
  rewrite !Hafter. split; [|exact Hrest]. intros k Hk. rewrite Hafter. replace k with (Z.of_nat (Z.to_nat k)) at 1 by lia.
  apply Hregs. unfold cx, yielded. cbn [cx_regs trapped]. destruct (Z.eqb_spec (4 * k) FRAME_A0) as [E|E]; unfold FRAME_A0 in E.
  - replace (Z.to_nat k) with A0 by (unfold A0; lia). apply list_lookup_insert_eq. rewrite length_fmap, length_seq. unfold A0. lia.
  - rewrite list_lookup_insert_ne by (unfold A0; lia). rewrite list_lookup_fmap, lookup_seq_lt by lia. cbn. f_equal. unfold before. f_equal. lia.
Qed.

(** * Examples *)

(** Two processes of one executable, booted: process 1 runs, process 2 waits. *)
Definition two_plan : ProcessPlan := mkProcessPlan UserLayout.M3 [example_boot; example_boot].

Definition booted : option Model :=
  let c := example_config in
  let pool := Frames.new (w_base (kc_frame_pool c)) (w_size (kc_frame_pool c)) in
  let '(s, r) := Model.start c (kc_trap_frame c) (Model.new (Source_Plan two_plan) (Processes.new pool), []) in
  match r with
  | Ok op => '(s, _) ← run_op 10 c op s (mkWorld (fun _ => 0) []); Some (fst s)
  | Err _ => None
  end.

Definition two_model : Model :=
  Eval vm_compute in default (Model.new (Source_Plan two_plan) (Processes.new (Frames.new 0 0))) booted.

Example two_booted : current (mo_procs two_model) = Some 1 /\ queue (mo_procs two_model) = [2].
Proof. vm_compute. auto. Qed.

(** A world whose memory is zero but for the trap frame. *)
Definition frame_world (ws : list Z) : World := mkWorld (write_bytes (fun _ => 0) (kc_trap_frame example_config) (ws ≫= to_le 4)) [].

Lemma frame_world_bytes ws : bytes_mem (w_mem (frame_world ws)).
Proof.
  apply write_bytes_ok; [intros x; const_range |]. apply Forall_forall. intros b Hb. apply list_elem_of_bind in Hb as (v & Hv & _).
  pose proof (to_le_ok 4 v) as H. unfold bytes_ok in H. rewrite Forall_forall in H. auto.
Qed.

(** Registers [x1]-[x31], [sepc], [sstatus], [scause] of an [ecall] with [a7 = nr]. *)
Definition ecall_frame (nr : Z) : list Z := (Z.of_nat <$> seq 1 16) ++ [nr] ++ (Z.of_nat <$> seq 18 14) ++ [0x10004; 0; 8].

Lemma two_model_ok : model_ok example_config two_model None /\ roots_ok two_model /\ running two_model.
Proof.
  split; [|split].
  - split.
    + split; [split_and!; const_range |]. split; [vm_compute; reflexivity |]. repeat constructor; vm_compute; congruence.
    + reflexivity.
    + apply check_spec_inv; [exact I | vm_compute; reflexivity].
    + repeat constructor; intros cx [=]; subst; reflexivity.
  - repeat constructor; vm_compute; congruence.
  - split; [reflexivity | vm_compute; eauto].
Qed.

Lemma example_uart_apart : uart_apart example_config.
Proof. unfold uart_apart. cbn. unfold FRAME_BYTES. lia. Qed.

Lemma example_own_apart : own_apart example_config.
Proof.
  split; [exact example_uart_apart | | | | |]; cbn; unfold FRAME_BYTES, window_ok; cbn; lia.
Qed.


(** A page table whose entry for the buffer points outside the frame pool: the engine faults. *)
Definition escaping_world : World :=
  let w := frame_world ((Z.of_nat <$> seq 1 9) ++ [1; 0x10000; 2] ++ (Z.of_nat <$> seq 13 4) ++ [SYS_WRITE] ++ (Z.of_nat <$> seq 18 14) ++ [0x10004; 0; 8]) in
  let root := default 0 (pcb_root <$> Processes.pcb (mo_procs two_model) 1) in
  mkWorld (write_bytes (w_mem w) (user_pte_address root 0x10000 1) (to_le 4 (Pte.pointer 0x12345))) [].

Example escaping_write_faults :
  engine_op 100 (fun _ => true) example_config (ProcOp.new Stage_ReadFrame) (two_model, []) escaping_world =
  Some (Err (OUTSIDE_WHITELIST, Access_Read (0x12345 * PAGE + 4 * 0x10) 4)).
Proof. vm_compute. reflexivity. Qed.

(** Process 1 yields to process 2, which exits. *)
Definition after_trap (m : Model) (ws : list Z) : option Model :=
  '((m', _), _) ← run_op 10 example_config (ProcOp.new Stage_ReadFrame) (m, []) (frame_world ws); Some m'.

Definition two_yielded : Model := Eval vm_compute in default two_model (after_trap two_model (ecall_frame SYS_SCHED_YIELD)).
Definition two_exited : Model := Eval vm_compute in default two_model (after_trap two_yielded (ecall_frame SYS_EXIT)).

Lemma trap_of m ws m' : running m -> after_trap m ws = Some m' -> exists w', trap example_config m (frame_world ws) m' w'.
Proof.
  intros Hr. unfold after_trap. destruct (run_op _ _ _ _ _) as [[[m1 ns] w']|] eqn:E; [|discriminate]. intros [= <-].
  exists w'. split; [exact Hr |]. split; [apply frame_world_bytes | eauto].
Qed.

Lemma yield_resumes_witness :
  exists w', runs_until example_config 1 two_model (frame_world (ecall_frame SYS_SCHED_YIELD)) two_exited w' /\
    frame_at example_config (w_mem w') 0 = frame_at example_config (w_mem (frame_world (ecall_frame SYS_SCHED_YIELD))) 0 /\
    frame_at example_config (w_mem w') FRAME_A0 = 0.
Proof.
  destruct two_model_ok as (Hm & Hroots & Hr).
  destruct (trap_of two_model (ecall_frame SYS_SCHED_YIELD) two_yielded Hr ltac:(vm_compute; reflexivity)) as [w1 H1].
  assert (Hr1 : running two_yielded) by (split; [reflexivity | vm_compute; eauto]).
  destruct (trap_of two_yielded (ecall_frame SYS_EXIT) two_exited Hr1 ltac:(vm_compute; reflexivity)) as [w' H2]. exists w'.
  assert (Hrun : runs_until example_config 1 two_model (frame_world (ecall_frame SYS_SCHED_YIELD)) two_exited w').
  { eapply until_later; [exact H1 | discriminate | eapply until_now; [exact H2 | reflexivity]]. }
  split; [exact Hrun |].
  destruct (Processes.pcb (mo_procs two_model) 1) as [p|] eqn:Ep; [|discriminate].
  destruct (yield_resumes example_config two_model (frame_world (ecall_frame SYS_SCHED_YIELD)) two_exited w' 1 p example_uart_apart Hm Hroots eq_refl Ep
    ltac:(vm_compute; reflexivity) ltac:(vm_compute; reflexivity) ltac:(vm_compute; reflexivity) Hrun) as (Hregs & _).
  split; [apply (Hregs 0); lia | apply (Hregs 9); lia].
Defined.
