(* ===== verification/OsStages.v ===== *)
(** The operations in flight: the invariant of an operation's step and working data.

    Proved: whatever stage the model puts an operation in, its next access is always due (no
    index or slice of the code is ever out of range) and the matching response moves it to a
    state of the invariant, or to the end of its stage with the stage's whole data; and every
    process's memory is that of a creation ([pcb_made]), whichever operations the model makes. *)
From stdpp Require Import base numbers list option strings sorting.
From Stdlib Require Import ZArith Lia.
From S2P Require Import Prelude Contracts Words Csr Privileged Sv32 Elf Text ExecTable OsConfig OsFrames OsSpace OsSpaceProofs OsCore OsSyscall OsProcess OsProcOp OsModel OsModelProofs.

Local Open Scope string_scope.
Local Open Scope list_scope.
Local Open Scope Z_scope.

(** * Pieces *)

(** The next piece of a read of [len] bytes. *)
Lemma chunk_list_read base len i a n :
  0 <= len -> chunk_list base len !! i = Some (a, n) ->
  0 <= n /\ read_len (chunk_list base len) (S i) = (read_len (chunk_list base len) i + Z.to_nat n)%nat.
Proof.
  intros Hl Hi. destruct (chunk_list_spec base len Hl) as [Hc Hok]. destruct (piece _ _ _ Hc Hok i a n Hi) as (_ & ? & ? & _). split; [lia | assumption].
Qed.

Lemma chunk_list_total base len : 0 <= len -> Z.of_nat (read_len (chunk_list base len) (length (chunk_list base len))) = len.
Proof. intros Hl. destruct (chunk_list_spec base len Hl) as [Hc Hok]. symmetry. exact (read_len_all _ _ _ Hc Hok). Qed.

Lemma read_len_zero l : read_len l 0 = O.
Proof. reflexivity. Qed.

(** * Responses *)

(** [d'] is the data after the response [k] to [a]. *)
Definition answers (a : OsConfig.Access) (k : Completion) (data d' : list Z) : Prop :=
  match a, k with
  | Access_Read _ len, Completion_Data bs => Z.of_nat (length bs) = len /\ bytes_ok bs /\ d' = data ++ bs
  | Access_Write _ _, Completion_Written => d' = data
  | _, _ => False
  end.

Definition completion_ok (k : Completion) : Prop :=
  match k with Completion_Data bs => bytes_ok bs | Completion_Written => True end.

Lemma answers_bytes a k data d' : answers a k data d' -> bytes_ok data -> bytes_ok d'.
Proof.
  destruct a, k; cbn; try tauto; [intros (_ & H & ->) Hd; apply Forall_app; auto | intros ->; auto].
Qed.

(** * Creations *)

Section space.
Context (s : Space).

Lemma space_data_zero : Space.data_len s 0 = O.
Proof.
  unfold Space.data_len. destruct (Nat.ltb_spec 0 (Space.zero_steps s)); [reflexivity |].
  destruct (sp_copies s !! _) as [[[? ?] ?]|]; [|reflexivity]. replace (0 - Space.zero_steps s)%nat with O by lia. reflexivity.
Qed.

Lemma space_due step data : (step < Space.steps s)%nat -> is_Some (Space.access s step data).
Proof.
  unfold Space.steps, Space.access. intros Hs. destruct (Nat.ltb_spec step (Space.zero_steps s)) as [Hz|Hz].
  - destruct (lookup_lt_is_Some_2 (sp_frames s) (step / Space.per_frame)) as [f ->]; [|cbn; eauto].
    apply Nat.Div0.div_lt_upper_bound. unfold Space.zero_steps in Hz. lia.
  - destruct (sp_copies s !! _) as [[[src dst] len]|] eqn:E; [cbn; eauto |]. apply lookup_ge_None in E.
    pose proof (Nat.div_mod_eq (step - Space.zero_steps s) 2). pose proof (Nat.mod_upper_bound (step - Space.zero_steps s) 2 ltac:(lia)).
    destruct (lookup_lt_is_Some_2 (sp_ptes s) (step - Space.zero_steps s - 2 * length (sp_copies s))) as [[a v] ->]; [lia | cbn; eauto].
Qed.

Lemma space_next step data a k d' :
  length data = Space.data_len s step -> Space.access s step data = Some a -> answers a k data d' ->
  length d' = Space.data_len s (S step) \/ Space.data_len s (S step) = O.
Proof.
  unfold Space.data_len, Space.access. intros Hd Ha Hk.
  destruct (Nat.ltb_spec step (Space.zero_steps s)) as [Hz|Hz]; destruct (Nat.ltb_spec (S step) (Space.zero_steps s)) as [Hz'|Hz']; try lia; auto.
  { right. replace (S step - Space.zero_steps s)%nat with O by lia. destruct (sp_copies s !! _) as [[[? ?] ?]|]; reflexivity. }
  replace (S step - Space.zero_steps s)%nat with (S (step - Space.zero_steps s)) by lia.
  set (j := (step - Space.zero_steps s)%nat) in *. pose proof (Nat.div_mod_eq j 2) as Hj. pose proof (Nat.mod_upper_bound j 2 ltac:(lia)).
  destruct (Nat.eqb_spec (S j mod 2) 1) as [E1|E1]; [|right; destruct (sp_copies s !! (S j / 2)%nat) as [[[? ?] ?]|]; reflexivity].
  assert (Hev : (j mod 2 = 0)%nat).
  { pose proof (Nat.div_mod_eq (S j) 2). lia. }
  assert (Hdiv : (S j / 2 = j / 2)%nat) by (pose proof (Nat.div_mod_eq (S j) 2); lia).
  rewrite Hdiv. destruct (sp_copies s !! (j / 2)%nat) as [[[src dst] len]|]; [|auto]. left.
  rewrite Hev in *. cbn in Hd, Ha. injection Ha as <-. destruct k as [bs|]; [|destruct Hk]. destruct Hk as (Hl & _ & ->).
  rewrite length_app, Hd. lia.
Qed.
End space.

(** * The operation in flight *)

Section operation.
Context (c : KernelConfig).

Record op_ok (m : Model) (o : ProcOp) : Prop := {
  op_stage : stage_ok c m (po_stage o);
  op_model : model_ok c m (creating (po_stage o));
  op_step : (po_step o < ProcOp.steps c o)%nat;
  op_len : length (po_data o) = ProcOp.data_len c (po_stage o) (po_step o);
  op_bytes : bytes_ok (po_data o);
}.

Lemma built_frames layout boot space : built c layout boot space -> (0 < Space.steps space)%nat.
Proof.
  intros [Hl _]. unfold Space.steps, Space.zero_steps. change Space.per_frame with 256%nat.
  unfold frames_needed in Hl. lia.
Qed.

(** A stage the model starts has an access to make. *)
Lemma new_op_ok op s : lands c op s -> op_ok (fst s) op.
Proof.
  intros (st & -> & Hst & Hm). split; cbn [po_stage po_step po_data ProcOp.new]; auto; [|destruct st; cbn; rewrite ?space_data_zero; reflexivity | constructor].
  destruct st; cbn in Hst |- *; try lia.
  - destruct Hst as (_ & _ & _ & plan & boot & _ & _ & Hb). eapply built_frames, Hb.
  - apply chunk_list_pos. reflexivity.
  - unfold dispatch_chunks. rewrite length_app. pose proof (chunk_list_pos (kc_trap_frame c) CONTEXT_BYTES eq_refl). lia.
  - apply chunk_list_pos. lia.
  - destruct Hst as (_ & Hl & _). apply chunk_list_pos. lia.
  - destruct Hst as (_ & t & boot & _ & _ & Hb). eapply built_frames, Hb.
Qed.

Lemma written_due step chunks base bytes len :
  (step < length chunks)%nat -> Z.of_nat (length bytes) = len ->
  Forall (fun p => base <= fst p /\ 0 <= snd p /\ fst p + snd p <= base + len) chunks ->
  exists a d, ProcOp.written step chunks base bytes = Ok (Some (Access_Write a d)).
Proof.
  intros Hs Hl Hall. destruct (lookup_lt_is_Some_2 chunks step Hs) as [[a n] Hi]. unfold ProcOp.written. rewrite Hi.
  destruct (Forall_lookup_1 _ _ _ _ Hall Hi) as (? & ? & ?). cbn in *. rewrite sub_slice_ok by lia. cbn. eauto.
Qed.

Lemma chunk_list_inside base len lo hi :
  0 <= len -> lo <= base -> base + len <= hi ->
  Forall (fun p => lo <= fst p /\ 0 <= snd p /\ fst p + snd p <= hi) (chunk_list base len).
Proof.
  intros Hl Hlo Hhi. destruct (chunk_list_spec base len Hl) as [Hc Hok]. apply Forall_lookup. intros i [a n] Hi.
  destruct (piece _ _ _ Hc Hok i a n Hi) as (? & ? & ? & ?). cbn. lia.
Qed.

Lemma read_at_due step chunks : (step < length chunks)%nat -> exists a n, chunks !! step = Some (a, n) /\ ProcOp.read_at step chunks = Some (Access_Read a n).
Proof. intros Hs. destruct (lookup_lt_is_Some_2 chunks step Hs) as [[a n] Hi]. exists a, n. split; [exact Hi |]. unfold ProcOp.read_at. rewrite Hi. reflexivity. Qed.

Lemma page_index b pages done :
  buffer_ok b -> Z.of_nat (length pages) = Buffer.pages b -> 0 <= done < bf_n b ->
  exists pa, physical b pages (fst (Buffer.chunk b done)) = Ok pa.
Proof.
  intros Hb Hp Hd. unfold physical, Buffer.chunk. cbn [fst]. unfold buffer_ok, Buffer.new in Hb.
  destruct (_ && _) eqn:Eb; [|discriminate]. unbool. unfold Buffer.pages, PAGE in Hp. rewrite !Z.shiftr_div_pow2 by lia.
  destruct (lookup_lt_is_Some_2 pages (Z.to_nat ((bf_buf b + done) / 2 ^ 12 - bf_buf b / 2 ^ 12))) as [q E].
  { change (2 ^ 12) with 4096. Z.div_mod_to_equations. lia. }
  unfold index_of. rewrite E. cbn. eauto.
Qed.

(** The access of an operation in flight is always due. *)
Lemma op_due m o : op_ok m o -> exists a, ProcOp.access c o = Ok (Some a).
Proof.
  intros [Hst _ Hs Hl _]. destruct o as [st step data]. unfold ProcOp.access. cbn [po_stage po_step po_data] in *.
  destruct st as [i space| |i cx satp|reason|b pages table level|b pages done|sepc value|cu|cu|cu error|cu len|cu headers image space];
    cbn [ProcOp.steps po_stage] in Hs; cbn [stage_ok ProcOp.data_len] in Hst, Hl.
  - destruct (space_due space step data Hs) as [a ->]. eauto.
  - destruct (read_at_due step _ Hs) as (a & n & _ & ->). eauto.
  - destruct Hst as (_ & _ & Hr). destruct (dispatch_pieces cx satp Hr) as (Hb & _).
    destruct (written_due step (dispatch_chunks c) (kc_trap_frame c) (dispatch_bytes cx satp) FRAME_BYTES) as (a & d & ->); eauto.
    + rewrite Hb. reflexivity.
    + apply Forall_app; split; apply chunk_list_inside; unfold CONTEXT_BYTES, FRAME_SATP, FRAME_BYTES; lia.
  - destruct (written_due step (shutdown_chunks c) (kc_trap_frame c + FRAME_ACTION) (shutdown_bytes reason) 8) as (a & d & ->); eauto.
    apply chunk_list_inside; lia.
  - replace step with O by lia. cbn. eauto.
  - destruct Hst as (_ & Hb & Hp & Hd). pose proof (chunk_len b done Hb Hd) as Hk. destruct (page_index b pages done Hb Hp Hd) as (pa & Hpa).
    destruct (Buffer.chunk b done) as [va len]. cbn [fst snd] in *. rewrite Hpa. destruct (Nat.eqb_spec step 0) as [->|Hne]; [cbn; eauto |].
    destruct (Z.leb_spec (Z.of_nat step) len); [|lia]. destruct (Nat.ltb_spec 0 step); [|lia].
    destruct (lookup_lt_is_Some_2 data (step - 1)) as [x Hx]; [lia |]. unfold index_of. rewrite Hx. cbn. eauto.
  - destruct step as [|[|?]]; [cbn; eauto.. | lia].
  - destruct Hst as (_ & _ & disk & _ & Hcu). unfold Cursor.transfer, Cursor.entry. destruct (cu_table cu) as [t|].
    + destruct Hcu as (_ & _ & Hi). destruct (lookup_lt_is_Some_2 _ _ Hi) as [e He]. unfold index_of. rewrite He. cbn.
      destruct step as [|[|[|[|?]]]]; [cbn; eauto.. | lia].
    + cbn. destruct step as [|[|[|[|?]]]]; [cbn; eauto.. | lia].
  - replace step with O by lia. cbn. eauto.
  - replace step with O by lia. cbn. eauto.
  - destruct (read_at_due step _ Hs) as (a & n & _ & ->). eauto.
  - destruct (space_due space step data Hs) as [a ->]. eauto.
Qed.

(** The data after a response: what the next step needs, and at the last step the stage's whole
    data. *)
Lemma next_data m o a k d' :
  op_ok m o -> ProcOp.access c o = Ok (Some a) -> answers a k (po_data o) d' ->
  ((S (po_step o) < ProcOp.steps c o)%nat ->
     length d' = ProcOp.data_len c (po_stage o) (S (po_step o)) \/ ProcOp.data_len c (po_stage o) (S (po_step o)) = O) /\
  ((ProcOp.steps c o <= S (po_step o))%nat -> stage_data (po_stage o) d').
Proof.
  intros [Hst _ Hs Hl Hb] Ha Hk. pose proof (answers_bytes _ _ _ _ Hk Hb) as Hb'. unfold stage_data. destruct o as [st step data].
  unfold ProcOp.access in Ha. cbn [po_stage po_step po_data] in *.
  destruct st as [i space| |i cx satp|reason|b pages table level|b pages done|sepc value|cu|cu|cu error|cu len|cu headers image space];
    cbn [ProcOp.steps po_stage] in *; cbn [stage_ok ProcOp.data_len] in Hst, Hl |- *; try (split; [right; reflexivity | tauto]).
  - injection Ha as Ha. split; [intros _; eapply space_next; eauto | auto].
  - destruct (read_at_due step _ Hs) as (a' & n & Hi & E). rewrite E in Ha. injection Ha as <-.
    destruct (chunk_list_read _ FRAME_BYTES step a' n ltac:(discriminate) Hi) as [Hn HS].
    destruct k as [bs|]; [|destruct Hk]. destruct Hk as (Hlb & _ & ->).
    assert (Hlen : length (data ++ bs) = read_len (frame_chunks c) (S step)) by (unfold frame_chunks in *; rewrite length_app, Hl, HS; lia).
    split; [auto |]. intros Hend. split; [exact Hb' |]. rewrite Hlen. replace (S step) with (length (frame_chunks c)) by lia.
    apply chunk_list_total. discriminate.
  - split; [lia |]. intros _. split; [exact Hb' |]. destruct step; [|lia]. cbn in Ha. injection Ha as <-.
    destruct k as [bs|]; [|destruct Hk]. destruct Hk as (Hlb & _ & ->). rewrite length_app, Hl. lia.
  - split; [|auto]. intros Hs'. left. destruct (Buffer.chunk b done) as [va len]. cbn [fst snd] in *. destruct (Nat.eqb_spec step 0) as [->|Hne].
    + destruct (physical b pages va) as [pa|]; [|discriminate]. cbn in Ha. injection Ha as <-.
      destruct k as [bs|]; [|destruct Hk]. destruct Hk as (Hlb & _ & ->). cbn in Hl. rewrite length_app, Hl. cbn. lia.
    + destruct (Z.leb_spec (Z.of_nat step) len); [|discriminate]. destruct (index_of data (step - 1)); [|discriminate]. cbn in Ha. injection Ha as <-.
      destruct k; [destruct Hk |]. cbn in Hk. subst d'. destruct (Nat.ltb_spec 0 step); [exact Hl | lia].
  - split; [lia |]. intros _. split; [exact Hb' |]. destruct step; [|lia]. cbn in Ha. injection Ha as <-.
    destruct k as [bs|]; [|destruct Hk]. destruct Hk as (Hlb & _ & ->). rewrite length_app, Hl. lia.
  - destruct Hst as (_ & Hl1 & _). destruct (read_at_due step _ Hs) as (a' & n & Hi & E). rewrite E in Ha. injection Ha as <-.
    destruct (chunk_list_read _ len step a' n ltac:(lia) Hi) as [Hn HS].
    destruct k as [bs|]; [|destruct Hk]. destruct Hk as (Hlb & _ & ->).
    assert (Hlen : length (data ++ bs) = read_len (staged_chunks c len) (S step)) by (unfold staged_chunks in *; rewrite length_app, Hl, HS; lia).
    split; [auto |]. intros Hend. split; [exact Hb' |]. rewrite Hlen. replace (S step) with (length (staged_chunks c len)) by lia.
    apply chunk_list_total. lia.
  - injection Ha as Ha. split; [intros _; eapply space_next; eauto | auto].
Qed.

Lemma complete_answer o a k o' :
  ProcOp.access c o = Ok (Some a) -> completion_ok k -> ProcOp.complete c o k = Ok o' ->
  exists d', answers a k (po_data o) d' /\ o' = ProcOp.advance c o d'.
Proof.
  intros Ha Hk. unfold ProcOp.complete. rewrite Ha. cbn [mbind result_bind map_err].
  destruct a as [addr len|addr bs], k as [data|]; try discriminate.
  - destruct (Z.eqb_spec (Z.of_nat (length data)) len); cbn [negb]; [|discriminate]. intros [= <-]. eexists. split; [|reflexivity]. cbn. auto.
  - intros [= <-]. eexists. split; [|reflexivity]. reflexivity.
Qed.

(** A response moves the operation on within its stage, or ends the stage. *)
Lemma op_complete m o k o' :
  op_ok m o -> completion_ok k -> ProcOp.complete c o k = Ok o' ->
  po_stage o' = po_stage o /\
  if ProcOp.is_finished c o' then stage_data (po_stage o') (po_data o') else op_ok m o'.
Proof.
  intros Ho Hk E. destruct (op_due m o Ho) as [a Ha]. destruct (complete_answer o a k o' Ha Hk E) as (d' & Hd & ->).
  destruct (next_data m o a k d' Ho Ha Hd) as [Hn He]. destruct Ho as [Hst Hm Hs _ Hb]. pose proof (answers_bytes _ _ _ _ Hd Hb) as Hb'.
  assert (Hsteps : forall st d, ProcOp.steps c (mkProcOp (po_stage o) st d) = ProcOp.steps c o) by reflexivity.
  unfold ProcOp.is_finished, ProcOp.advance. cbn [po_stage po_step]. rewrite Hsteps.
  destruct (Nat.ltb_spec (S (po_step o)) (ProcOp.steps c o)) as [Hlt|Hge]; cbn [andb].
  - specialize (Hn Hlt). destruct (Nat.eqb_spec (length d') (ProcOp.data_len c (po_stage o) (S (po_step o)))) as [El|El]; cbn [negb po_stage po_step];
      rewrite Hsteps; (split; [reflexivity |]); destruct (Nat.leb_spec (ProcOp.steps c o) (S (po_step o))); try lia.
    + split; auto.
    + split; auto; [|constructor]. cbn. destruct Hn; congruence.
  - cbn [po_stage po_step po_data]. rewrite Hsteps. split; [reflexivity |]. destruct (Nat.leb_spec (ProcOp.steps c o) (S (po_step o))); [auto | lia].
Qed.

Lemma complete_no_panic o a k what :
  ProcOp.access c o = Ok (Some a) -> ProcOp.complete c o k <> Err (Core_Panic what).
Proof.
  intros Ha. unfold ProcOp.complete. rewrite Ha. cbn [mbind result_bind map_err]. destruct a, k; try discriminate. case_match; discriminate.
Qed.

(** ** The prototype's operations *)

Record proto_ok (o : Operation) : Prop := {
  pr_step : (o_step o < Operation.steps c o)%nat;
  pr_len : length (o_data o) = Operation.data_len c o;
}.

Lemma start_proto value : proto_ok (Operation.start c value).
Proof.
  unfold Operation.start. destruct (value =? _); split; cbn [o_step o_data o_op Operation.steps]; try lia.
  - rewrite script_data_len. reflexivity.
  - apply (chunk_list_pos (kc_trap_frame c + FRAME_ACTION) 8). lia.
  - reflexivity.
Qed.

Lemma proto_due o : proto_ok o -> exists a, Operation.access c o = Ok (Some a).
Proof.
  intros [Hs Hl]. destruct o as [[|] step data]; cbn [Operation.steps o_op o_step o_data] in *.
  - rewrite script_data_len in Hl. set (n := length (Operation.frame_chunks c)) in *.
    destruct (Nat.lt_ge_cases step n) as [H1|H1].
    + destruct (lookup_lt_is_Some_2 _ _ H1) as [[a k] E]. unfold Operation.access. cbn [o_op o_step]. fold n.
      destruct (Nat.ltb_spec step n); [|lia]. unfold index_of. rewrite E. cbn. eauto.
    + destruct (Nat.lt_ge_cases step (2 * n)) as [H2|H2].
      * assert (Hd : length data = Z.to_nat FRAME_BYTES).
        { destruct (Nat.leb_spec step n); [|destruct (Nat.ltb_spec step (2 * n)); [exact Hl | lia]].
          replace step with n in Hl by lia. rewrite Hl. apply frame_len. }
        destruct (lookup_lt_is_Some_2 (Operation.frame_chunks c) (step - n)) as [[a k] E]; [fold n; lia |].
        pose proof (script_write_due c data (step - n) a k Hd E) as Hw. fold n in Hw. replace (n + (step - n))%nat with step in Hw by lia. eauto.
      * unfold Operation.access. cbn [o_op o_step]. fold n. destruct (Nat.ltb_spec step n); [lia |]. destruct (Nat.ltb_spec step (2 * n)); [lia |].
        destruct (Nat.eqb_spec step (2 * n)); [eauto | lia].
  - unfold Operation.access. cbn [o_op o_step]. destruct (lookup_lt_is_Some_2 _ _ Hs) as [[a k] E]. rewrite E.
    destruct (chunk_list_spec (kc_trap_frame c + FRAME_ACTION) 8 ltac:(lia)) as [Hc Hok]. destruct (piece _ _ _ Hc Hok step a k E) as (? & ? & ? & ?).
    rewrite sub_slice_ok by (rewrite length_app, !length_to_le; lia). cbn. eauto.
Qed.

Lemma proto_complete o k o' :
  proto_ok o -> Operation.complete c o k = Ok o' -> Operation.is_finished c o' = false -> proto_ok o'.
Proof.
  intros Ho E Hf. destruct (proto_due o Ho) as [a Ha]. destruct Ho as [Hs Hl].
  assert (Hd : exists d, o' = Operation.advance c o d /\
            (length d = Operation.data_len c (mkOperation (o_op o) (S (o_step o)) d) \/
             Operation.data_len c (mkOperation (o_op o) (S (o_step o)) d) = O)).
  { unfold Operation.complete in E. rewrite Ha in E. cbn [mbind result_bind map_err] in E. destruct o as [[|] step data]; cbn [o_op o_step o_data] in *.
    2:{ exists (o_data (mkOperation Op_Shutdown step data)). split; [|right; reflexivity].
        destruct a as [? ?|? ?]; [|destruct k; [discriminate | injection E as <-; reflexivity]].
        exfalso. unfold Operation.access in Ha. cbn [o_op o_step] in Ha. destruct (Operation.shutdown_chunks c !! step) as [[? ?]|]; [|discriminate].
        destruct (sub_slice _ _ _); discriminate. }
    rewrite script_data_len in Hl. setoid_rewrite script_data_len. set (n := length (Operation.frame_chunks c)) in *.
    unfold Operation.access in Ha. cbn [o_op o_step o_data] in Ha. fold n in Ha.
    destruct (Nat.ltb_spec step n) as [H1|H1].
    - destruct (index_of (Operation.frame_chunks c) step) as [[ad len]|] eqn:Ei; [|discriminate]. cbn in Ha. injection Ha as <-.
      unfold index_of in Ei. apply ok_or_Ok in Ei. destruct k as [bs|]; [|discriminate].
      destruct (Z.eqb_spec (Z.of_nat (length bs)) len); cbn [negb] in E; [|discriminate]. injection E as <-. eexists. split; [reflexivity |].
      left. destruct (Nat.leb_spec (S step) n); [|lia]. destruct (Nat.leb_spec step n); [|lia].
      destruct (chunk_list_read (kc_trap_frame c) FRAME_BYTES step ad len ltac:(discriminate) Ei) as [? HS]. unfold Operation.frame_chunks in *.
      rewrite length_app, Hl, HS. lia.
    - assert (Hw : exists ad d, a = Access_Write ad d).
      { destruct (Nat.ltb_spec step (2 * n)).
        - destruct (index_of _ _) as [[? ?]|]; [|discriminate]. cbn [mbind result_bind] in Ha. destruct (sub_slice data _ _); [|discriminate].
          cbn [mbind result_bind] in Ha. destruct (sub_slice _ _ _); [|discriminate]. cbn in Ha. injection Ha as <-. eauto.
        - destruct (_ =? _)%nat; [|discriminate]. injection Ha as <-. eauto. }
      destruct Hw as (ad & d & ->). destruct k; [discriminate |]. injection E as <-. exists data. split; [reflexivity |].
      destruct (Nat.leb_spec (S step) n); [lia |]. destruct (Nat.ltb_spec (S step) (2 * n)) as [H2|H2]; [left | auto].
      destruct (Nat.leb_spec step n); [|destruct (Nat.ltb_spec step (2 * n)); [exact Hl | lia]].
      replace step with n in Hl by lia. rewrite Hl. apply frame_len. }
  destruct Hd as (d & -> & Hd). unfold Operation.advance in *. cbn [o_op o_step] in *.
  assert (Hdl : forall d', Operation.data_len c (mkOperation (o_op o) (S (o_step o)) d') = Operation.data_len c (mkOperation (o_op o) (S (o_step o)) d))
    by reflexivity.
  destruct (Nat.eqb_spec (length d) (Operation.data_len c (mkOperation (o_op o) (S (o_step o)) d))) as [El|El]; cbn [negb] in *;
    unfold Operation.is_finished in Hf; apply Nat.leb_gt in Hf; cbn [o_step] in Hf; split; auto.
  cbn [o_data length]. rewrite Hdl. destruct Hd; congruence.
Qed.

Lemma proto_no_panic o a k what :
  Operation.access c o = Ok (Some a) -> Operation.complete c o k <> Err (Core_Panic what).
Proof.
  intros Ha. unfold Operation.complete. rewrite Ha. cbn [mbind result_bind map_err]. destruct a, k; try discriminate. case_match; discriminate.
Qed.
End operation.

(** * Processes as they were created *)

(** A prefix that is too short asks for bytes of the file. *)
Lemma prefix_in_file prefix flen lo hi needed : parse_user_elf32 prefix flen lo hi = Err (PrefixTooShort needed) -> needed <= flen.
Proof.
  assert (Hseg : forall h l r, check_segments prefix flen lo hi h l = r -> r <> Err (PrefixTooShort needed)).
  { intros h l. induction l as [|i l IH]; intros r <-; cbn [check_segments]; [discriminate |].
    destruct (program_header prefix h i) as [ph|]; cbn [map_err mbind result_bind]; [|discriminate].
    destruct (negb _); [apply IH; reflexivity |]. repeat (case_if; [discriminate || (apply IH; reflexivity) |]).
    unfold p_flags. destruct (Fields.u32 _ _); cbn [ok_or mbind result_bind]; [|discriminate].
    repeat match goal with |- (if ?b then Err _ else _) <> _ => destruct b; [discriminate |] end.
    specialize (IH _ eq_refl). destruct (check_segments _ _ _ _ _ l); cbn [mbind result_bind]; [discriminate | exact IH]. }
  unfold parse_user_elf32. destruct (_ || _); [discriminate |]. unfold checked_header.
  destruct (flen <? _); [discriminate |]. destruct (file_len prefix <? EHDR_SIZE).
  { destruct (Z.ltb_spec flen EHDR_SIZE); intros [= <-]; assumption. }
  destruct (header prefix) as [h|e].
  - destruct (_ <? h_phnum h); [discriminate |]. cbn [mbind result_bind].
    destruct (check_segments _ _ _ _ h _) as [cs|e] eqn:E; cbn [mbind result_bind]; [|intros [= ->]; destruct (Hseg _ _ _ E eq_refl)].
    destruct (sharing _) as [e|] eqn:Es; [|repeat (case_if; [discriminate |]); discriminate].
    intros [= ->]. exfalso. revert Es. induction (sort_by _ cs) as [|a [|b l] IH]; [discriminate..|]. cbn [sharing].
    repeat (case_if; [discriminate |]). exact IH.
  - destruct e; try discriminate. case_if; [discriminate |]. case_if; [discriminate |].
    destruct (Z.leb_spec (default 0 (Fields.u32 prefix 28) + default 0 (Fields.u16 prefix 44) * PHDR_SIZE) flen); [|discriminate].
    intros [= <-]. unfold narrow. destruct (Z.ltb_spec (default 0 (Fields.u32 prefix 28) + default 0 (Fields.u16 prefix 44) * PHDR_SIZE) (2 ^ 32)); lia.
Qed.

(** The executable process [i] is created from: an image of the plan, or one a file of the disk
    parses to. *)
Definition executable (s : Source) (i : Z) (boot : BootImage) : Prop :=
  match s with
  | Source_Plan plan => 1 <= i /\ plan_images plan !! (Z.to_nat i - 1)%nat = Some boot
  | Source_Disk disk =>
      exists prefix flen, bytes_ok prefix /\ in_u 32 flen /\
        parse_user_elf32 prefix flen (fst (UserLayout.image_range (disk_layout disk))) (snd (UserLayout.image_range (disk_layout disk)))
          = Ok (bi_image boot)
  end.

Section made.
Context (c : KernelConfig).

(** [space] is the address space of process [i]'s executable on ascending frames. *)
Definition creates (s : Source) (i : Z) (space : Space) : Prop :=
  exists boot, executable s i boot /\ megapage_conflict (bi_image boot) c = false /\
    StronglySorted Z.lt (sp_frames space) /\ built c (Source.layout s) boot space.

Definition pcb_made (s : Source) (p : Pcb) : Prop :=
  ProcState.is_terminal (state p) = false ->
  exists space, creates s (pid p) space /\ pcb_root p = sp_root space /\ tables p = sp_tables space /\ pcb_regions p = sp_regions space.

(** Every live process has the tables and regions it was created with, and the pool is the
    configured one. *)
Record model_made (m : Model) : Prop := {
  md_pcbs : Forall (pcb_made (mo_source m)) (pcbs (mo_procs m));
  md_base : base (pool (mo_procs m)) = base (Frames.new (w_base (kc_frame_pool c)) (w_size (kc_frame_pool c)));
  md_count : Frames.count (pool (mo_procs m)) = Frames.count (Frames.new (w_base (kc_frame_pool c)) (w_size (kc_frame_pool c)));
}.

(** What a stage carries from the model that made it. *)
Definition stage_made (m : Model) (st : Stage) : Prop :=
  match st with
  | Stage_Create i space => creates (mo_source m) i space
  | Stage_Load cu _ _ space => creates (mo_source m) (Cursor.pid cu) space
  | Stage_Dispatch i _ satp => exists p, Processes.pcb (mo_procs m) i = Some p /\ satp = Pte.satp (pcb_root p)
  | Stage_Staged cu len =>
      forall e, Cursor.entry cu = Ok (Some e) -> Z.min (byte_len e) ELF_HEADER_BYTES <= len <= byte_len e
  | Stage_Output b _ done => Buffer.is_chunk_start b done = Some true
  | _ => True
  end.

Definition makes (op : ProcOp) (s : Model * list Note) : Prop :=
  exists st, op = ProcOp.new st /\ stage_made (fst s) st /\ model_made (fst s).

Definition anyway (e : Failure) (s : Model * list Note) : Prop := True.

Lemma makes_intro st m ns : stage_made m st -> model_made m -> makes (ProcOp.new st) (m, ns).
Proof. intros. exists st. auto. Qed.

(** Only the processes and the pool matter. *)
Lemma made_same m m' :
  mo_source m' = mo_source m -> pcbs (mo_procs m') = pcbs (mo_procs m) -> pool (mo_procs m') = pool (mo_procs m) ->
  model_made m -> model_made m'.
Proof. intros E1 E2 E3 [H1 H2 H3]. split; rewrite ?E1, ?E2, ?E3; assumption. Qed.

Lemma wp_procs_any {A} (f : ST Processes Violation A) (Q : A -> _ -> Prop) m ns :
  (forall s a, f (mo_procs m) = (s, Ok a) -> Q a (set_procs s m, ns)) -> wp (procs f) Q anyway (m, ns).
Proof. intros HQ. unfold wp, procs. destruct (f (mo_procs m)) as [s [a|]]; [apply HQ; reflexivity | exact I]. Qed.

Lemma wp_no_panic_any {A} (r : result string A) (Q : A -> _ -> Prop) s :
  (forall a, r = Ok a -> Q a s) -> wp (no_panic r) Q anyway s.
Proof. intros HQ. unfold wp, no_panic. destruct r; [apply HQ; reflexivity | exact I]. Qed.

(** ** The process table *)

Lemma update_found (P : Pcb -> Prop) i g l :
  (forall p, find_pcb l i = Some p -> P p -> P (g p)) -> Forall P l -> Forall P (update_pcb i g l).
Proof.
  intros Hg Hl. induction Hl as [|p l Hp Hl IH]; cbn [update_pcb]; [constructor |]. unfold find_pcb in Hg. cbn [find] in Hg.
  destruct (pid p =? i); constructor; auto.
Qed.

Lemma made_like s p q :
  pcb_made s p -> ProcState.is_terminal (state p) = false ->
  pid q = pid p -> pcb_root q = pcb_root p -> tables q = tables p -> pcb_regions q = pcb_regions p -> pcb_made s q.
Proof. intros Hp Hl E1 E2 E3 E4 _. destruct (Hp Hl) as (space & Hs). exists space. rewrite E1, E2, E3, E4. exact Hs. Qed.

Lemma schedule_made m s r :
  Processes.schedule_next (mo_procs m) = (s, Ok r) -> model_made m -> model_made (set_procs s m).
Proof.
  unfold Processes.schedule_next. destruct (current (mo_procs m)); [discriminate |].
  destruct (queue (mo_procs m)) as [|i q]; [intros [= <- _] [H1 H2 H3]; split; assumption |].
  destruct (Processes.pcb _ i) as [p|] eqn:Ep; [|discriminate]. destruct (context p); [|discriminate].
  destruct (bool_decide_reflect (state p = Ready)) as [Hr|]; cbn [negb]; [|discriminate]. intros [= <- _] [H1 H2 H3].
  assert (Hlive : forall q, find_pcb (update_pcb i Processes.take_context (pcbs (mo_procs m))) i = Some q -> ProcState.is_terminal (state q) = false).
  { intros q'. unfold Processes.pcb, set_queue in Ep. cbn [pcbs] in Ep. clear H1. induction (pcbs (mo_procs m)) as [|p' l IH]; [discriminate |].
    unfold find_pcb in *. cbn [update_pcb find] in *. destruct (pid p' =? i) eqn:E; cbn [find]; rewrite ?E.
    - cbn [Processes.take_context pid]. rewrite E. intros [= <-]. injection Ep as ->. cbn. rewrite Hr. reflexivity.
    - apply IH, Ep. }
  split; cbn [mo_source mo_procs set_procs pcbs set_current set_pcbs set_queue pool]; [|assumption..].
  apply update_found; [intros q' Hq Hm; apply (made_like _ q'); auto |]. apply update_found; [|exact H1].
  intros q' Hq Hm Hl. apply (made_like _ q' _ Hm); auto.
Qed.

Lemma yield_made m i s cx :
  Processes.yield_current cx (mo_procs m) = (s, Ok i) -> model_ok c m None -> model_made m -> model_made (set_procs s m).
Proof.
  unfold Processes.yield_current. destruct (current (mo_procs m)) as [j|] eqn:Ec; [|discriminate].
  destruct (Processes.pcb _ j) as [p|] eqn:Ep; [|discriminate]. intros [= <- _] Hm [H1 H2 H3]. split; cbn; [|assumption..].
  apply update_found; [|exact H1]. intros q Hq Hmade. destruct (inv_current _ _ _ _ (ok_procs _ _ _ Hm) Ec) as (q' & Eq & _ & _ & Hs & _).
  apply (made_like _ q _ Hmade); auto. unfold Processes.pcb in Eq. assert (q = q') as -> by congruence. rewrite Hs. reflexivity.
Qed.

Lemma end_made m i s st :
  Processes.end_current st (mo_procs m) = (s, Ok i) -> model_made m -> model_made (set_procs s m).
Proof.
  unfold Processes.end_current. destruct (ProcState.is_terminal st) eqn:Et; cbn [negb]; [|discriminate].
  destruct (current (mo_procs m)) as [j|]; [|discriminate]. destruct (Processes.pcb _ j) as [p|]; [|discriminate]. cbn [pool set_pcbs].
  pose proof (release_correct j (Pcb.frames p) (pool (mo_procs m))) as Hr.
  destruct (Frames.release _ _ _) as [f [[]|]]; [|discriminate]. intros [= <- _] [H1 H2 H3]. destruct Hr as (_ & Hb & Hc & _).
  split; [|exact (eq_trans Hb H2) | exact (eq_trans Hc H3)]. apply update_all; [|exact H1]. intros q _ Hl. cbn in Hl. congruence.
Qed.

(** ** The operations of the model *)

Lemma dispatch_next_made from m ns : model_made m -> wp (Model.dispatch_next from) makes anyway (m, ns).
Proof.
  intros Hm. unfold Model.dispatch_next. apply wp_bind, wp_procs_any. intros s r E. pose proof (schedule_made m s r E Hm) as Hm'.
  mm_run. destruct r as [[i cx]|].
  - destruct (Processes.pcb (mo_procs (set_procs s m)) i) as [p|] eqn:Ep; [|exact I]. mm_run. apply makes_intro; [|exact Hm'].
    exists p. auto.
  - mm_run. apply makes_intro; [exact I |]. eapply made_same; [..|exact Hm']; reflexivity.
Qed.

Lemma ret_made nr sepc value m ns : model_made m -> wp (Model.ret nr sepc value) makes anyway (m, ns).
Proof.
  intros Hm. unfold Model.ret, Model.running_pid. mm_run. destruct (current _); [|exact I]. mm_run. apply makes_intro; [exact I | exact Hm].
Qed.

Lemma running_root_made m ns (Q : Z -> _ -> Prop) : (forall root, Q root (m, ns)) -> wp Model.running_root Q anyway (m, ns).
Proof.
  intros HQ. unfold Model.running_root. mm_run. destruct (current _) as [i|]; [|exact I]. destruct (Processes.pcb _ i); [|exact I].
  apply wp_ret, HQ.
Qed.

Lemma syscall_made frame m ns : model_ok c m None -> model_made m -> wp (Model.syscall frame) makes anyway (m, ns).
Proof.
  intros Hm Hmd. unfold Model.syscall, Model.running_pid. mm_run. destruct (current _) as [i|]; [|exact I]. mm_run.
  do 5 (try mm_step; apply wp_no_panic_any; intros ? _). mm_run. destruct (Syscall.decode _).
  - unfold Model.sys_write. destruct (_ && _); [apply ret_made, Hmd |]. destruct (_ =? 0); [apply ret_made, Hmd |].
    destruct (Buffer.new _ _ _); [|apply ret_made, Hmd]. mm_step. apply running_root_made. intros root. mm_run. apply makes_intro; [exact I | exact Hmd].
  - apply wp_bind, wp_procs_any. intros s r E. mm_run. apply dispatch_next_made. exact (end_made _ _ _ _ E Hmd).
  - apply wp_bind, wp_procs_any. intros s r E. mm_run. apply dispatch_next_made. exact (end_made _ _ _ _ E Hmd).
  - mm_step. apply wp_no_panic_any. intros cx _. mm_run. apply wp_bind, wp_procs_any. intros s r E. apply dispatch_next_made.
    exact (yield_made _ _ _ _ E Hm Hmd).
  - apply ret_made, Hmd.
  - apply ret_made, Hmd.
Qed.

Lemma decide_made frame m ns : model_ok c m None -> model_made m -> wp (Model.decide frame) makes anyway (m, ns).
Proof.
  intros Hm Hmd. unfold Model.decide. do 4 (try mm_step; apply wp_no_panic_any; intros ? _). destruct (has_bit _ _).
  - mm_run. apply makes_intro; [exact I |]. eapply made_same; [..|exact Hmd]; reflexivity.
  - destruct (_ =? _); [apply syscall_made; auto |]. apply wp_bind, wp_procs_any. intros s r E. mm_run. apply dispatch_next_made.
    exact (end_made _ _ _ _ E Hmd).
Qed.

(** ** Creations *)

Lemma reserve_made pid n m ns (Q : option (list Z) -> _ -> Prop) :
  pid <> 0 -> model_made m -> Q None (m, ns) ->
  (forall f fs, length fs = n -> StronglySorted Z.lt fs -> model_made (set_procs (set_pool f (mo_procs m)) m) ->
     Q (Some fs) (set_procs (set_pool f (mo_procs m)) m, ns)) ->
  wp (reserve pid n) Q anyway (m, ns).
Proof.
  intros Hp [H1 H2 H3] HN HS. unfold wp, reserve. pose proof (reserve_correct pid n (pool (mo_procs m)) Hp) as Hr.
  destruct (Frames.reserve pid n (pool (mo_procs m))) as [f [[fs|]|e]]; [| |exact I].
  - destruct Hr as (Hl & Hs & _ & _ & Hb & Hc & _). apply HS; auto. split; [exact H1 | exact (eq_trans Hb H2) | exact (eq_trans Hc H3)].
  - destruct Hr as [-> _]. replace (set_procs _ m) with m; [exact HN |]. destruct m as [s' e p l], p. reflexivity.
Qed.

Lemma space_creates s i boot fs space :
  executable s i boot -> megapage_conflict (bi_image boot) c = false -> StronglySorted Z.lt fs -> buildable (Source.layout s) (bi_image boot) ->
  length fs = frames_needed (bi_image boot) (Source.layout s) -> Space.build c (Source.layout s) boot fs = Some space -> creates s i space.
Proof.
  intros He Hc Hs Hb Hl E. destruct (build_ok c (Source.layout s) boot fs Hb Hl) as (space' & E' & Hf & Hbt).
  assert (space' = space) as -> by congruence. exists boot. rewrite Hf. auto.
Qed.

Lemma next_creation_loop_made plan images : forall index m ns,
  source_ok c (Source_Plan plan) -> mo_source m = Source_Plan plan -> drop index (plan_images plan) = images -> model_made m ->
  wp (Model.next_creation_loop c (plan_layout plan) index images) makes anyway (m, ns).
Proof.
  induction images as [|boot images IH]; intros index m ns Hok Hs Hd Hm; cbn [Model.next_creation_loop]; [apply dispatch_next_made, Hm |].
  assert (Hi : plan_images plan !! index = Some boot) by (rewrite <- (Nat.add_0_r index), <- lookup_drop, Hd; reflexivity).
  assert (Hd' : drop (S index) (plan_images plan) = images).
  { replace (S index) with (index + 1)%nat by lia. rewrite <- drop_drop, Hd. reflexivity. }
  destruct (megapage_conflict (bi_image boot) c) eqn:Ec; [mm_run; apply IH; auto |]. mm_step.
  apply reserve_made; [lia | exact Hm | mm_run; apply IH; auto |]. intros f fs Hl Hsorted Hm'.
  mm_step. apply wp_no_panic_any. intros space E. apply ok_or_Ok in E. mm_run. apply makes_intro; [|exact Hm'].
  cbn [stage_made mo_source set_procs]. rewrite Hs. eapply space_creates; eauto.
  - split; [lia |]. rewrite <- Hi. f_equal. lia.
  - apply (plan_buildable c); [exact Hok | eapply list_elem_of_lookup_2, Hi].
Qed.

Lemma admit_created_made i image space m ns (Q : unit -> _ -> Prop) :
  creates (mo_source m) i space -> model_made m ->
  (forall s ns', model_made (set_procs s m) -> Q tt (set_procs s m, ns')) ->
  wp (Model.admit_created i image space) Q anyway (m, ns).
Proof.
  intros Hc Hm HQ. unfold Model.admit_created. apply wp_bind, wp_model. apply wp_bind, wp_procs_any. intros s [] E.
  mm_step. apply wp_push_all. intros ns'. mm_run. apply HQ. revert E. unfold Processes.admit_process.
  do 3 match goal with |- (if ?b then _ else _) = _ -> _ => destruct b; [discriminate |] end. intros [= <-]. destruct Hm as [H1 H2 H3].
  split; cbn; [|assumption..]. apply Forall_app. split; [exact H1 | apply Forall_singleton]. intros _. exists space. auto.
Qed.

Lemma next_load_made t index m ns : model_made m -> wp (Model.next_load t index) makes anyway (m, ns).
Proof.
  intros Hm. unfold Model.next_load. destruct t as [t|]; [|apply dispatch_next_made, Hm].
  destruct (_ <? _)%nat; [mm_run; apply makes_intro; [exact I | exact Hm] | apply dispatch_next_made, Hm].
Qed.

Lemma boot_failed_made detail m ns : model_made m -> wp (Model.fail detail) makes anyway (m, ns).
Proof. intros Hm. unfold Model.fail. mm_run. apply makes_intro; [exact I |]. eapply made_same; [..|exact Hm]; reflexivity. Qed.

Lemma blk_acked_made cu error m ns : model_made m -> wp (Model.acked cu error) makes anyway (m, ns).
Proof.
  intros Hm. unfold Model.acked. destruct (_ =? 0).
  - mm_step. apply wp_no_panic_any. intros len E. mm_run. apply makes_intro; [|exact Hm]. intros e Ee. unfold Cursor.first_read in E.
    rewrite Ee in E. injection E as <-. lia.
  - destruct (cu_table cu); [|apply boot_failed_made, Hm]. mm_run. apply next_load_made, Hm.
Qed.

Lemma staged_image_made disk cu e len data m ns :
  source_ok c (Source_Disk disk) -> mo_source m = Source_Disk disk -> Cursor.entry cu = Ok (Some e) -> in_u 32 (byte_len e) ->
  Z.min (byte_len e) ELF_HEADER_BYTES <= len -> bytes_ok data -> model_made m ->
  wp (Model.staged_image c disk cu e len data) makes anyway (m, ns).
Proof.
  intros Hok Hs Ee Hbl Hlen Hb Hm. unfold Model.staged_image.
  assert (Hskip : forall ns, wp (Model.next_load (cu_table cu) (S (cu_index cu))) makes anyway (m, ns)) by (intros; apply next_load_made, Hm).
  destruct (UserLayout.image_range (disk_layout disk)) as [lo hi] eqn:Er.
  destruct (parse_user_elf32 data (byte_len e) lo hi) as [image|err] eqn:Ep.
  2:{ destruct err; try (mm_run; apply Hskip). destruct (Z.ltb_spec len needed); [|mm_run; apply Hskip].
      mm_run. apply makes_intro; [|exact Hm]. intros e' Ee'. assert (e' = e) as -> by congruence. apply prefix_in_file in Ep. lia. }
  destruct (megapage_conflict _ _) eqn:Ec; [mm_run; apply Hskip |]. mm_step.
  apply reserve_made; [unfold Cursor.pid; lia | exact Hm | mm_run; apply Hskip |]. intros f fs Hl Hsorted Hm'.
  mm_step. apply wp_no_panic_any. intros space E. apply ok_or_Ok in E. mm_run. apply makes_intro; [|exact Hm'].
  cbn [stage_made mo_source set_procs]. rewrite Hs. set (boot := mkBootImage _ _ _) in E.
  assert (Hp : parse_user_elf32 data (byte_len e) (fst (UserLayout.image_range (disk_layout disk))) (snd (UserLayout.image_range (disk_layout disk))) = Ok image)
    by (rewrite Er; exact Ep).
  apply (space_creates (Source_Disk disk) _ boot fs); auto; [exists data, (byte_len e); auto |]. eapply disk_buildable; eauto.
Qed.

Lemma staged_made cu len data m ns :
  model_ok c m None -> cursor_ok c m cu -> stage_made m (Stage_Staged cu len) -> bytes_ok data -> model_made m ->
  wp (Model.staged c cu len data) makes anyway (m, ns).
Proof.
  intros Hok Hc Hst Hb Hm. pose proof Hc as (_ & _ & disk & Hs & Hcu). unfold Model.staged. mm_run. rewrite Hs. mm_step.
  apply wp_no_panic_any. intros e Ee. destruct e as [e|].
  - apply staged_image_made; auto; [rewrite <- Hs; apply Hok | | apply Hst, Ee]. unfold Cursor.entry in Ee.
    destruct (cu_table cu) as [t|]; [|discriminate]. destruct Hcu as ((_ & Hr & _) & _). unfold index_of in Ee.
    destruct (entries t !! cu_index cu) as [e'|] eqn:El; [|discriminate]. injection Ee as ->. exact (proj2 (Forall_lookup_1 _ _ _ _ Hr El)).
  - destruct (negb _); [exact I |]. destruct (parse_exec_table _ _ _); [|apply boot_failed_made, Hm]. mm_run. apply next_load_made.
    eapply made_same; [..|exact Hm]; reflexivity.
Qed.

(** ** Starting, and moving past a stage *)

Lemma chunk_start_next b done :
  buffer_ok b -> 0 <= done < bf_n b -> done + snd (Buffer.chunk b done) < bf_n b ->
  Buffer.is_chunk_start b done = Some true -> Buffer.is_chunk_start b (done + snd (Buffer.chunk b done)) = Some true.
Proof.
  intros Hb Hd Hn. unfold Buffer.is_chunk_start.
  assert (Hloop : forall fuel at_, 0 <= at_ -> at_ <= done -> (Z.to_nat (bf_n b - at_) <= fuel)%nat ->
    Buffer.is_chunk_start_loop fuel b done at_ = Some true ->
    Buffer.is_chunk_start_loop fuel b (done + snd (Buffer.chunk b done)) at_ = Some true).
  { induction fuel as [|fuel IH]; intros at_ H0 Hle Hf; [lia |]. pose proof (chunk_len b at_ Hb ltac:(lia)) as Hc.
    pose proof (chunk_len b done Hb Hd) as Hcd. cbn [Buffer.is_chunk_start_loop].
    destruct (Z.leb_spec (bf_n b) at_); [lia |]. destruct (Z.eqb_spec at_ (done + snd (Buffer.chunk b done))); [lia |].
    destruct (Z.eqb_spec at_ done) as [->|Hne].
    - intros _. destruct fuel; cbn [Buffer.is_chunk_start_loop]; destruct (Z.leb_spec (bf_n b) (done + snd (Buffer.chunk b done))); try lia;
        rewrite Z.eqb_refl; reflexivity.
    - intros E. apply IH; [lia | | lia | exact E]. destruct (Z.le_gt_cases (at_ + snd (Buffer.chunk b at_)) done) as [H'|H']; [exact H' |].
      exfalso. revert E. generalize (at_ + snd (Buffer.chunk b at_)) as x, H'. clear - Hb. intros x Hx.
      revert x Hx. induction fuel as [|fuel IHf]; intros x Hx; cbn [Buffer.is_chunk_start_loop]; (destruct (Z.leb_spec (bf_n b) x); [discriminate |]);
        (destruct (Z.eqb_spec x done); [lia |]); [discriminate |]. apply IHf.
      unfold buffer_ok, Buffer.new in Hb. unfold Buffer.chunk. cbn [snd]. destruct (_ && _) eqn:Eb; [|discriminate]. unfold PAGE. Z.div_mod_to_equations. lia. }
  apply Hloop; lia.
Qed.

Lemma start_made value m ns : idle_ok c m -> model_made m -> wp (Model.start c value) makes anyway (m, ns).
Proof.
  intros [Hok _] Hm. unfold Model.start. apply wp_bind, wp_model. destruct (negb _).
  - destruct (bool_decide _); [exact I |]. mm_run. apply makes_intro; [exact I |]. eapply made_same; [..|exact Hm]; reflexivity.
  - destruct (mo_life m); [| |exact I].
    + mm_run. assert (Hm' : model_made (set_life Up m)) by (eapply made_same; [..|exact Hm]; reflexivity).
      destruct (mo_source m) as [plan|disk] eqn:Es; mm_run; [|apply makes_intro; [exact I | exact Hm']].
      unfold Model.next_creation. mm_run. cbn [mo_source set_life]. rewrite Es.
      apply (next_creation_loop_made plan); auto. rewrite <- Es. apply Hok.
    + destruct (bool_decide _); [mm_run; apply makes_intro; [exact I | exact Hm] | exact I].
Qed.

Lemma advance_made op m ns :
  stage_ok c m (po_stage op) -> model_ok c m (creating (po_stage op)) -> stage_data (po_stage op) (po_data op) ->
  stage_made m (po_stage op) -> model_made m ->
  wp (Model.advance c op) (fun next s => match next with Some op' => makes op' s | None => True end) anyway (m, ns).
Proof.
  destruct op as [st step data]. cbn [po_stage po_data]. intros Hst Hok [Hb _] Hmade Hm. unfold Model.advance. cbn [po_stage po_data].
  destruct st as [i space| |i cx satp|reason|b pages table level|b pages done|sepc value|cu|cu|cu error|cu len|cu headers image space];
    cbn [creating] in Hok; cbn [stage_ok] in Hst; cbn [stage_made] in Hmade.
  - destruct Hst as (_ & _ & Hi & plan & boot & Hs & _). mm_run. rewrite Hs. mm_step. apply wp_no_panic_any. intros boot' _. mm_step.
    apply admit_created_made; auto. intros s ns' Hm'. mm_run. unfold Model.next_creation. mm_run. cbn [mo_source set_procs]. rewrite Hs.
    apply (next_creation_loop_made plan); auto. rewrite <- Hs. apply Hok.
  - mm_run. apply decide_made; auto.
  - mm_run. exact I.
  - mm_run. exact I.
  - mm_run. unfold Model.walked. mm_step. apply wp_no_panic_any. intros pte _. cbn beta iota zeta. destruct (walk_step _ _ _).
    + mm_run. apply makes_intro; [exact I | exact Hm].
    + destruct (_ =? _); [|mm_step; apply running_root_made; intros root]; mm_run; (apply makes_intro; [|exact Hm]); [|exact I].
      destruct Hst as (_ & Hbuf & _). cbn [stage_made]. unfold buffer_ok, Buffer.new in Hbuf. destruct (_ && _) eqn:E; [|discriminate]. unbool.
      unfold Buffer.is_chunk_start. destruct (Z.to_nat (bf_n b)) eqn:En; [lia |]. cbn [Buffer.is_chunk_start_loop].
      destruct (Z.leb_spec (bf_n b) 0); [lia | reflexivity].
    + apply ret_made, Hm.
  - destruct Hst as (_ & Hbuf & _ & Hd). pose proof (chunk_len b done Hbuf Hd). destruct (Z.eqb_spec (done + snd (Buffer.chunk b done)) (bf_n b)); mm_run;
      [apply ret_made, Hm |]. apply makes_intro; [|exact Hm]. apply chunk_start_next; auto. lia.
  - mm_run. exact I.
  - mm_run. apply makes_intro; [exact I | exact Hm].
  - mm_step. apply wp_no_panic_any. intros status _. mm_run. destruct (has_bit _ _); (apply makes_intro; [exact I | exact Hm]).
  - mm_run. apply blk_acked_made, Hm.
  - mm_run. apply staged_made; auto; apply Hst.
  - mm_run. apply admit_created_made; auto. intros s ns' Hm'. mm_run. apply next_load_made, Hm'.
Qed.
End made.
