(* ===== verification/OsKernel.v ===== *)
(** The modeled kernel, [components/os/src/kernel.rs]: the gate that holds an [ENTER] and the
    bus-master engine that runs its operation. *)
From stdpp Require Import base numbers list option strings sorting.
From Stdlib Require Import ZArith Lia.
From S2P Require Import Prelude Contracts Handlers Words Elf Text ExecTable OsConfig OsFrames OsSpace OsCore OsSyscall OsProcess OsProcOp OsModel.

Local Open Scope string_scope.
Local Open Scope list_scope.
Local Open Scope Z_scope.

Definition ENTER : Z := 0.
Definition GATE_SIZE : Z := 8.
Definition GATE_PORT : Z := 0.
Definition MEM_PORT : Z := 1.
Definition ISSUE : Z := 0.
Definition SNAPSHOT_SCHEMA : Z := 1.
Definition ENTER_KIND : string := "os.gate.enter".
Definition RELEASE_KIND : string := "os.gate.release".

Inductive Work : Set :=
| Work_Proto (op : Operation)
| Work_Proc (op : ProcOp).

Module Work.
Definition access (c : KernelConfig) (w : Work) : result string (option OsConfig.Access) :=
  match w with Work_Proto op => Operation.access c op | Work_Proc op => ProcOp.access c op end.

Definition name (w : Work) : string :=
  match w with Work_Proto op => Op.name (o_op op) | Work_Proc op => Stage.name (po_stage op) end.

Definition step (w : Work) : nat := match w with Work_Proto op => o_step op | Work_Proc op => po_step op end.
End Work.

Inductive State : Set :=
| State_Idle
| State_Issue (w : Work)
| State_Wait (w : Work) (txn : Z).

Record ModeledKernel : Set := mkModeledKernel {
  mk_config : KernelConfig;
  mk_state : State;
  mk_held : option Z;
  mk_next_txn : Z;
  mk_model : option Model;
}.

Definition set_state (s : State) (k : ModeledKernel) : ModeledKernel :=
  mkModeledKernel (mk_config k) s (mk_held k) (mk_next_txn k) (mk_model k).
Definition set_held (h : option Z) (k : ModeledKernel) : ModeledKernel :=
  mkModeledKernel (mk_config k) (mk_state k) h (mk_next_txn k) (mk_model k).
Definition set_next_txn (t : Z) (k : ModeledKernel) : ModeledKernel :=
  mkModeledKernel (mk_config k) (mk_state k) (mk_held k) t (mk_model k).
Definition set_model (m : Model) (k : ModeledKernel) : ModeledKernel :=
  mkModeledKernel (mk_config k) (mk_state k) (mk_held k) (mk_next_txn k) (Some m).

Module ModeledKernel.
Definition new (c : KernelConfig) : result KernelConfigError ModeledKernel :=
  _ ← KernelConfig.validate c;
  Ok (mkModeledKernel c State_Idle None 0 None).

Definition with_source (c : KernelConfig) (source : Source) : ModeledKernel :=
  let frames := Frames.new (w_base (kc_frame_pool c)) (w_size (kc_frame_pool c)) in
  mkModeledKernel c State_Idle None 0 (Some (Model.new source (Processes.new frames))).

Definition with_processes (c : KernelConfig) (plan : ProcessPlan) : result PlanError ModeledKernel :=
  _ ← ProcessPlan.validate plan c;
  Ok (with_source c (Source_Plan plan)).

Definition with_disk (c : KernelConfig) (disk : DiskBoot) : result PlanError ModeledKernel :=
  _ ← DiskBoot.validate disk c;
  Ok (with_source c (Source_Disk disk)).

Definition work (k : ModeledKernel) : option Work :=
  match mk_state k with State_Idle => None | State_Issue w | State_Wait w _ => Some w end.
End ModeledKernel.

Section handlers.
Context {C : Type} `{SimContext C, MemClassify}.

Local Abbreviation M := (ST (ModeledKernel * C) Failure).

Definition wake_next_cycle : M unit :=
  k ← self;
  call (ctx_wake_self (When_Cycles (kc_clock (mk_config k)) 1) Phase_Request ISSUE).

Definition refuse (resp : MemMsg) : M unit :=
  k ← self;
  let when := match kc_latency (mk_config k) with
              | Latency_After d => When_After d
              | Latency_Cycles domain n => When_Cycles domain n
              end in
  call (ctx_send GATE_PORT (Message_MemV1 resp) when Phase_Complete).

Fixpoint emit (notes : list Note) : M unit :=
  match notes with
  | [] => mret tt
  | n :: notes => trace (note_kind n) (note_fields n);; emit notes
  end.

(** A call of the model with [notes]: the value and the notes; the model keeps its changes. *)
Definition with_model {A} (f : MM A) (notes : list Note) : M (A * list Note) := fun '(k, ctx) =>
  match mk_model k with
  | None => ((k, ctx), Err (Panics "a process op has a model"))
  | Some m =>
      let '((m, notes), r) := f (m, notes) in
      ((set_model m k, ctx), match r with Ok a => Ok (a, notes) | Err e => Err e end)
  end.

(** A pure computation that may panic. *)
Definition pure_of {A} (r : result string A) : M A := fun s => (s, map_err Panics r).

Definition enter_note (txn value : Z) (op : string) : Note :=
  mkNote ENTER_KIND [("txn", VU64 txn); ("value", VU64 value); ("op", VStr op)].

(** The operation an [ENTER] of [value] starts, with its notes. *)
Definition start_work (txn value : Z) : M (Work * list Note) :=
  k ← self;
  let c := mk_config k in
  match mk_model k with
  | Some m =>
      '(op, notes) ← with_model (Model.start c value) [enter_note txn value (Model.op_name m c value)];
      mret (Work_Proc op, notes)
  | None =>
      let op := Operation.start c value in
      let notes := [enter_note txn value (Op.name (o_op op))] ++
        (if bool_decide (o_op op = Op_Shutdown)
         then [mkNote SHUTDOWN_KIND [("reason", VU64 1); ("detail", VStr "ENTER value is not the trap frame")]]
         else []) in
      mret (Work_Proto op, notes)
  end.

Definition enter (txn value : Z) : M unit :=
  k ← self;
  if bool_decide (is_Some (mk_held k)) then fault "modeled kernel: second ENTER while one is held"
  else
    '(work, notes) ← start_work txn value;
    emit notes;;
    update (set_held (Some txn));;
    update (set_state (State_Issue work));;
    wake_next_cycle.

Definition gate_request (msg : MemMsg) : M unit :=
  enter_write ←
    match Contracts.access msg with
    | None => fault "modeled kernel: response on the gate port"
    | Some Contracts.Empty => fault "modeled kernel: zero-length gate request"
    | Some (Contracts.Bytes first last) => mret ((first =? ENTER) && (last =? ENTER + 3))
    | Some AccessOutOfRange => mret false
    end;
  match msg with
  | WriteReq txn _ data =>
      if enter_write : bool then
        if (length data =? 4)%nat then enter txn (from_le data) else panic "4 bytes"
      else refuse (WriteResp txn (WriteOutcome_Fault AccessFault))
  | ReadReq txn _ _ => refuse (ReadResp txn (ReadOutcome_Fault AccessFault))
  | ReadResp _ _ | WriteResp _ _ => fault "modeled kernel: response on the gate port"
  end.

Definition bus_request (txn : Z) (a : OsConfig.Access) : MemMsg :=
  match a with
  | Access_Read addr len => ReadReq txn addr len
  | Access_Write addr data => WriteReq txn addr data
  end.

Definition issue : M unit :=
  k ← self;
  match mk_state k with
  | State_Issue work =>
      due ← pure_of (Work.access (mk_config k) work);
      match due with
      | None => fault "modeled kernel: ISSUE wake after the last access"
      | Some a =>
          if negb (KernelConfig.permits (mk_config k) (Access.addr a) (Access.len a)) then
            fault "modeled kernel: access outside the whitelist"
          else
            let txn := mk_next_txn k in
            match checked_add 64 txn 1 with
            | None => fault "modeled kernel: TxnId space exhausted"
            | Some next =>
                call (ctx_send MEM_PORT (Message_MemV1 (bus_request txn a)) When_Now Phase_Request);;
                update (set_next_txn next);;
                update (set_state (State_Wait work txn))
            end
      end
  | _ => fault "modeled kernel: ISSUE wake with nothing to issue"
  end.

Definition release : M unit :=
  k ← self;
  match mk_held k with
  | None => fault "modeled kernel: an operation without a held ENTER"
  | Some txn =>
      call (ctx_send GATE_PORT (Message_MemV1 (WriteResp txn WriteOutcome_Done)) When_Now Phase_Complete);;
      trace RELEASE_KIND [("txn", VU64 txn)];;
      update (set_held None);;
      update (set_state State_Idle)
  end.

(** The error of [complete], [wrong_length], or its panic. *)
Definition completed {A} (r : result CoreStop A) : M A := fun s =>
  (s, map_err (fun e => match e with
                        | Core_Error _ => Fails (ComponentFault "modeled kernel: read data of the wrong length")
                        | Core_Panic what => Panics what
                        end) r).

(** What follows the completed access: the rest of the operation, or [None] when it is done. *)
Definition next_work (w : Work) (completion : Completion) : M (option Work) :=
  k ← self;
  let c := mk_config k in
  match w with
  | Work_Proto op =>
      op ← completed (Operation.complete c op completion);
      mret (if Operation.is_finished c op then None else Some (Work_Proto op))
  | Work_Proc op =>
      op ← completed (ProcOp.complete c op completion);
      if ProcOp.is_finished c op then
        '(next, notes) ← with_model (Model.advance c op) [];
        emit notes;;
        mret (Work_Proc <$> next)
      else mret (Some (Work_Proc op))
  end.

(** The [txn] and completion of a response; [None] for a fault. *)
Definition response (msg : MemMsg) : M (Z * option Completion) :=
  match msg with
  | ReadResp txn (ReadOutcome_Data data) => mret (txn, Some (Completion_Data data))
  | ReadResp txn (ReadOutcome_Fault _) => mret (txn, None)
  | WriteResp txn WriteOutcome_Done => mret (txn, Some Completion_Written)
  | WriteResp txn (WriteOutcome_Fault _) => mret (txn, None)
  | ReadReq _ _ _ | WriteReq _ _ _ => fault "modeled kernel: request on the mem port"
  end.

Definition is_write (a : option OsConfig.Access) : bool :=
  match a with Some (Access_Write _ _) => true | _ => false end.
Definition is_write_resp (msg : MemMsg) : bool := match msg with WriteResp _ _ => true | _ => false end.

Definition mem_response (msg : MemMsg) : M unit :=
  k ← self;
  match mk_state k with
  | State_Wait work expected =>
      '(txn, completion) ← response msg;
      if negb (txn =? expected) then fault "modeled kernel: response for a txn that is not outstanding"
      else
        phase ← phase_of_event;
        if bool_decide (phase <> Phase_Complete) then fault "modeled kernel: response arrived outside COMPLETE"
        else
          due ← pure_of (Work.access (mk_config k) work);
          if negb (Bool.eqb (is_write due) (is_write_resp msg)) then fault "modeled kernel: response kind mismatch"
          else
            match completion with
            | None => fault "modeled kernel: its own access faulted"
            | Some completion =>
                next ← next_work work completion;
                match next with
                | None => release
                | Some work =>
                    update (set_state (State_Issue work));;
                    wake_next_cycle
                end
            end
  | _ => fault "modeled kernel: mem.v1 message with no access outstanding"
  end.

Definition handle_event (ev : Delivered) : M unit :=
  match ev with
  | Delivered_Message port (Message_MemV1 msg) =>
      if port =? GATE_PORT then gate_request msg
      else if port =? MEM_PORT then mem_response msg
      else fault "modeled kernel: unexpected delivery"
  | Delivered_Wake token => if token =? ISSUE then issue else fault "modeled kernel: unexpected delivery"
  | _ => fault "modeled kernel: unexpected delivery"
  end.
End handlers.

(** * Inspect *)

Definition state_text (s : ProcState) : string :=
  match s with
  | Exited status => "exited(" +:+ dec status +:+ ")"
  | Faulted cause epc tval => "faulted(" +:+ hex cause +:+ "," +:+ hex epc +:+ "," +:+ hex tval +:+ ")"
  | other => ProcState.name other
  end.

(** [join]. *)
Fixpoint join (sep : string) (l : list string) : string :=
  match l with
  | [] => ""
  | [s] => s
  | s :: l => s +:+ sep +:+ join sep l
  end.

Definition number (t : option Z) : string := match t with Some t => dec t | None => "none" end.

Definition inspect_model (m : Model) : list (string * Value) :=
  let p := mo_procs m in
  [("life", VStr match mo_life m with AwaitBoot => "await_boot" | Up => "up" | Down => "down" end);
   ("running", VStr (number (current p)));
   ("queue", VStr (join "," (dec <$> queue p)));
   ("processes", VStr (join ";" ((fun q => dec (pid q) +:+ ":" +:+ state_text (state q) +:+ ":" +:+ hex (pcb_root q)) <$> pcbs p)));
   ("free_frames", VU64 (Z.of_nat (Frames.free_count (pool p))))].

(** [Err] is a panic of the due access. *)
Definition inspect (k : ModeledKernel) : result string (list (string * Value)) :=
  let phase := match mk_state k with State_Idle => "idle" | State_Issue _ => "issue" | State_Wait _ _ => "wait" end in
  let work := ModeledKernel.work k in
  a ← match work with Some w => Work.access (mk_config k) w | None => Ok None end;
  let mem_txn := match mk_state k with State_Wait _ txn => Some txn | _ => None end in
  Ok ([("phase", VStr phase);
       ("op", VStr match work with Some w => Work.name w | None => "none" end);
       ("step", VU64 match work with Some w => Z.of_nat (Work.step w) | None => 0 end);
       ("held_txn", VStr (number (mk_held k)));
       ("mem_txn", VStr (number mem_txn));
       ("next_txn", VU64 (mk_next_txn k));
       ("pending_kind", VStr match a with None => "none" | Some (Access_Read _ _) => "read" | Some (Access_Write _ _) => "write" end);
       ("pending_addr", VU64 match a with Some a => Access.addr a | None => 0 end);
       ("pending_len", VU64 match a with Some a => Access.len a | None => 0 end)]
      ++ match mk_model k with Some m => inspect_model m | None => [] end).
