(* ===== verification/OsKernelProofs.v ===== *)
(** The modeled kernel's invariant and safety.

    Proved: every reachable kernel holds an [ENTER] exactly while an operation runs, has a
    process table [Processes::check] accepts and an access due; no event makes it panic or
    break a process invariant; every access it sends is on the whitelist; every [ENTER] it
    accepts is answered exactly once, with its own transaction, when its operation ends; its
    processes' memory and its operations are made by the model ([kernel_made]). *)
From stdpp Require Import base numbers list option strings sorting.
From Stdlib Require Import ZArith Lia.
From S2P Require Import Prelude Contracts Handlers Words Elf Text ExecTable OsConfig OsFrames OsSpace OsCore OsSyscall OsProcess OsProcOp OsModel OsModelProofs OsStages OsKernel.

Local Open Scope string_scope.
Local Open Scope list_scope.
Local Open Scope Z_scope.

(** * The invariant *)

Definition work_ok (c : KernelConfig) (model : option Model) (w : option Work) : Prop :=
  match model, w with
  | None, None => True
  | None, Some (Work_Proto o) => proto_ok c o
  | Some m, None => idle_ok c m
  | Some m, Some (Work_Proc o) => op_ok c m o
  | _, _ => False
  end.

Record kernel_ok (k : ModeledKernel) : Prop := {
  ko_work : work_ok (mk_config k) (mk_model k) (ModeledKernel.work k);
  ko_held : is_Some (mk_held k) <-> is_Some (ModeledKernel.work k);
  ko_txn : in_u 64 (mk_next_txn k);
  ko_wait : forall w txn, mk_state k = State_Wait w txn -> txn = mk_next_txn k - 1;
}.

Section handlers.
Context {C : Type} `{SimContext C, MemClassify}.

Local Abbreviation M := (ST (ModeledKernel * C) Failure).

(** Why an event may fault the session: the gate or bus protocol is broken, an [ENTER] comes after
    the shutdown, or the context refuses a call.  A broken process invariant is none of these. *)
Definition protocol_fault (e : SimError) : Prop :=
  exists v, e = ComponentFault v /\ (v = "ENTER after the shutdown" \/ String.prefix "modeled kernel: " v = true).

Definition context_error (e : SimError) : Prop :=
  (exists port msg when ph ctx, snd (ctx_send port msg when ph ctx) = Err e) \/
  (exists when ph token ctx, snd (ctx_wake_self when ph token ctx) = Err e).

Definition stops (e : Failure) : Prop := exists e', e = Fails e' /\ (protocol_fault e' \/ context_error e').

Definition keeps {A} (P : ModeledKernel -> Prop) (m : M A) (k : ModeledKernel) (ctx : C) : Prop :=
  wp m (fun _ s => P (fst s)) (fun e s => P (fst s) /\ stops e) (k, ctx).

(** ** Rules *)

Lemma stops_fault v : String.prefix "modeled kernel: " v = true -> stops (Fails (ComponentFault v)).
Proof. intros Hv. exists (ComponentFault v). split; [reflexivity |]. left. exists v. auto. Qed.

Lemma keeps_fault {A} (Q : A -> _ -> Prop) (P : ModeledKernel -> Prop) v k (ctx : C) :
  P k -> String.prefix "modeled kernel: " v = true ->
  wp (fault v : M A) Q (fun e s => P (fst s) /\ stops e) (k, ctx).
Proof. intros HP Hv. split; [exact HP | apply stops_fault, Hv]. Qed.

Lemma wp_bus_send port msg when ph (Q : unit -> _ -> Prop) (X : Failure -> _ -> Prop) k ctx :
  (forall ctx', Q tt (k, ctx')) -> (forall e ctx', stops e -> X e (k, ctx')) ->
  wp (call (ctx_send port msg when ph) : M unit) Q X (k, ctx).
Proof.
  intros HQ HX. unfold wp, call. destruct (ctx_send port msg when ph ctx) as [ctx' [[]|e]] eqn:E; cbn; [apply HQ |].
  apply HX. exists e. split; [reflexivity |]. right. left. exists port, msg, when, ph, ctx. rewrite E. reflexivity.
Qed.

Lemma wp_issue_wake (Q : unit -> _ -> Prop) (X : Failure -> _ -> Prop) k ctx :
  (forall ctx', Q tt (k, ctx')) -> (forall e ctx', stops e -> X e (k, ctx')) -> wp (wake_next_cycle : M unit) Q X (k, ctx).
Proof.
  intros HQ HX. unfold wake_next_cycle. apply wp_bind, wp_self. unfold wp, call.
  destruct (ctx_wake_self _ _ _ ctx) as [ctx' [[]|e]] eqn:E; cbn; [apply HQ |].
  apply HX. exists e. split; [reflexivity |]. right. right. eexists _, _, _, ctx. rewrite E. reflexivity.
Qed.

Lemma wp_emit notes (Q : unit -> _ -> Prop) X k : (forall ctx, Q tt (k, ctx)) -> forall ctx, wp (emit notes : M unit) Q X (k, ctx).
Proof.
  intros HQ. induction notes as [|n notes IH]; intros ctx; cbn [emit]; [apply wp_ret, HQ |].
  apply wp_bind, wp_trace, IH.
Qed.

Lemma wp_with_model {A} (f : MM A) notes m (Q : A * list Note -> _ -> Prop) X k ctx :
  mk_model k = Some m ->
  wp f (fun a s => Q (a, snd s) (set_model (fst s) k, ctx)) (fun e s => X e (set_model (fst s) k, ctx)) (m, notes) ->
  wp (with_model f notes : M (A * list Note)) Q X (k, ctx).
Proof.
  intros Hk. unfold wp, with_model. rewrite Hk. destruct (f (m, notes)) as [[m' ns] [a|e]]; cbn; auto.
Qed.

Lemma wp_pure {A} (r : result string A) a (Q : A -> _ -> Prop) X s : r = Ok a -> Q a s -> wp (pure_of r : M A) Q X s.
Proof. intros -> HQ. exact HQ. Qed.

Lemma wp_completed {A} (r : result CoreStop A) (Q : A -> _ -> Prop) (X : Failure -> _ -> Prop) s :
  (forall what, r <> Err (Core_Panic what)) -> (forall a, r = Ok a -> Q a s) -> (forall e, stops e -> X e s) ->
  wp (completed r : M A) Q X s.
Proof.
  intros Hp HQ HX. unfold wp, completed. destruct r as [a|[e|what]]; cbn; [auto | | destruct (Hp what eq_refl)].
  apply HX, stops_fault. reflexivity.
Qed.

(** * Events *)

Lemma set_model_same m k : mk_model k = Some m -> set_model m k = k.
Proof. intros E. destruct k. cbn in *. unfold set_model. cbn. congruence. Qed.

Lemma refuse_keeps resp k ctx : kernel_ok k -> keeps kernel_ok (refuse resp) k ctx.
Proof.
  intros Hk. unfold keeps, refuse. wp_run. destruct (kc_latency _); (apply wp_bus_send; cbn; auto).
Qed.

Lemma enter_keeps txn value k ctx : kernel_ok k -> keeps kernel_ok (enter txn value) k ctx.
Proof.
  intros Hk. unfold keeps, enter. wp_run. destruct (bool_decide_reflect (is_Some (mk_held k))) as [Hh|Hh].
  { apply keeps_fault; [exact Hk | reflexivity]. }
  destruct Hk as [Hw Hheld Ht Hwait]. assert (Hn : ModeledKernel.work k = None).
  { destruct (ModeledKernel.work k); [|reflexivity]. destruct Hh. apply Hheld. eauto. }
  unfold start_work. apply wp_bind, wp_bind, wp_self. destruct (mk_model k) as [m|] eqn:Em; rewrite Hn in Hw; cbn [work_ok] in Hw.
  - apply wp_bind. eapply wp_with_model; [exact Em |]. eapply wp_mono; [apply start_ok, Hw | |].
    + intros op [m' ns] Hl. apply new_op_ok in Hl. cbn [fst snd] in *. wp_run. apply wp_emit. intros ctx'. wp_run.
      assert (Hk' : kernel_ok (set_state (State_Issue (Work_Proc op)) (set_held (Some txn) (set_model m' k)))).
      { split; cbn; auto; [split; eauto | discriminate]. }
      apply wp_issue_wake; cbn; auto.
    + intros e [m' ns] (E & _ & ->). cbn [fst] in *. subst m'. rewrite (set_model_same m k Em). split; [split; auto; rewrite ?Em, ?Hn; auto |].
      exists (ComponentFault "ENTER after the shutdown"). split; [reflexivity |]. left. eexists. eauto.
  - wp_run. apply wp_emit. intros ctx'. wp_run.
    assert (Hk' : kernel_ok (set_state (State_Issue (Work_Proto (Operation.start (mk_config k) value))) (set_held (Some txn) k))).
    { split; cbn; auto; [rewrite Em; apply start_proto | split; eauto | discriminate]. }
    apply wp_issue_wake; cbn; auto.
Qed.

Lemma gate_request_keeps msg k ctx : kernel_ok k -> keeps kernel_ok (gate_request msg) k ctx.
Proof.
  intros Hk. unfold keeps, gate_request. destruct msg as [txn addr len|txn o|txn addr data|txn o].
  - rewrite access_read. unfold classify_doc. apply wp_bind. destruct (len =? 0); [apply keeps_fault; auto |].
    destruct (_ <=? _); wp_run; apply refuse_keeps, Hk.
  - rewrite access_read_resp. apply wp_bind. apply keeps_fault; auto.
  - rewrite access_write. unfold classify_doc. apply wp_bind. destruct (Z.eqb_spec (Z.of_nat (length data)) 0); [apply keeps_fault; auto |].
    destruct (_ <=? _); wp_run; [apply refuse_keeps, Hk |].
    destruct ((addr =? ENTER) && (addr + (Z.of_nat (length data) - 1) =? ENTER + 3)) eqn:E; [|apply refuse_keeps, Hk].
    unbool. unfold ENTER in *. destruct (Nat.eqb_spec (length data) 4); [apply enter_keeps, Hk | lia].
  - rewrite access_write_resp. apply wp_bind. apply keeps_fault; auto.
Qed.

(** The work in flight has its access due. *)
Lemma work_due k w : kernel_ok k -> ModeledKernel.work k = Some w -> exists a, Work.access (mk_config k) w = Ok (Some a).
Proof.
  intros Hk Hw. pose proof (ko_work _ Hk) as Ho. rewrite Hw in Ho. unfold work_ok in Ho.
  destruct (mk_model k), w; try contradiction Ho; [eapply op_due | eapply proto_due]; exact Ho.
Qed.

Lemma issue_keeps k ctx : kernel_ok k -> keeps kernel_ok issue k ctx.
Proof.
  intros Hk. unfold keeps, issue. wp_run. destruct (mk_state k) as [|w|w txn] eqn:Es; try (apply keeps_fault; auto; fail).
  assert (Hw : ModeledKernel.work k = Some w) by (unfold ModeledKernel.work; rewrite Es; reflexivity).
  destruct (work_due k w Hk Hw) as [a Ha]. apply wp_bind. eapply wp_pure; [exact Ha |]. cbn beta iota.
  destruct (negb _); [apply keeps_fault; auto |]. unfold checked_add. destruct (Z.ltb_spec (mk_next_txn k + 1) (2 ^ 64)); [|apply keeps_fault; auto].
  apply wp_bind, wp_bus_send; [|auto]. intros ctx'. wp_run. destruct Hk as [K1 K2 K3 K4]. rewrite Hw in *.
  split; cbn; auto; [unfold in_u in *; lia |]. intros w' txn' [= <- <-]. lia.
Qed.

Lemma release_keeps k ctx w txn : kernel_ok k -> mk_state k = State_Wait w txn ->
  work_ok (mk_config k) (mk_model k) None -> keeps kernel_ok release k ctx.
Proof.
  intros Hk Hs Hw. unfold keeps, release. wp_run. destruct (mk_held k) as [t|] eqn:Eh; [|apply keeps_fault; auto].
  apply wp_bind, wp_bus_send; [|auto]. intros ctx'. wp_run. destruct Hk as [K1 K2 K3 K4].
  split; cbn; auto; [split; intros [? [=]] | discriminate].
Qed.

(** What the next work is, and that the model fits it. *)
Lemma next_work_ok w kp k ctx (Q : option Work -> _ -> Prop) (X : Failure -> _ -> Prop) :
  kernel_ok k -> ModeledKernel.work k = Some w -> completion_ok kp ->
  (forall next m ctx', work_ok (mk_config k) m next -> (next = None -> m = mk_model k) ->
     Q next (mkModeledKernel (mk_config k) (mk_state k) (mk_held k) (mk_next_txn k) m, ctx')) ->
  (forall e, stops e -> X e (k, ctx)) ->
  wp (next_work w kp : M _) Q X (k, ctx).
Proof.
  intros Hk Hw Hkp HQ HX. pose proof (ko_work _ Hk) as Ho. rewrite Hw in Ho. unfold work_ok in Ho.
  unfold next_work. apply wp_bind, wp_self. assert (Hself : k = mkModeledKernel (mk_config k) (mk_state k) (mk_held k) (mk_next_txn k) (mk_model k))
    by (destruct k; reflexivity).
  destruct (mk_model k) as [m|] eqn:Em, w as [o|o]; try contradiction Ho.
  - destruct (op_due _ m o Ho) as [a Ha]. pose proof Ho as [Hs0 Hm0 _ _ _].
    apply wp_bind, wp_completed; [intros what; eapply complete_no_panic; eauto | | exact HX].
    intros o' E. destruct (op_complete _ m o kp o' Ho Hkp E) as [Hst Hfin]. destruct (ProcOp.is_finished _ o') eqn:Ef.
    + apply wp_bind. eapply wp_with_model; [exact Em |].
      eapply wp_mono; [apply (model_advance_ok (mk_config k) o' m []); [rewrite Hst; assumption.. | exact Hfin] | | intros ? ? []].
      intros next [m' ns] Hnext. cbn [fst snd]. wp_run. apply wp_emit. intros ctx'. wp_run. apply (HQ (Work_Proc <$> next) (Some m')).
      * destruct next as [op'|]; cbn; [apply (new_op_ok _ _ _ Hnext) |]. destruct Hnext as [[= -> _] Hi]. exact Hi.
      * destruct next; [discriminate |]. intros _. destruct Hnext as [[= -> _] _]. reflexivity.
    + wp_run. rewrite Hself. apply HQ; [exact Hfin | discriminate].
  - destruct (proto_due _ o Ho) as [a Ha].
    apply wp_bind, wp_completed; [intros what; eapply proto_no_panic; eauto | | exact HX].
    intros o' E. wp_run. destruct (Operation.is_finished _ o') eqn:Ef; rewrite Hself; apply HQ; auto; [exact I |].
    cbn. eapply proto_complete; eauto.
Qed.

Lemma mem_response_keeps msg k ctx : kernel_ok k -> mem_msg_ok msg -> keeps kernel_ok (mem_response msg) k ctx.
Proof.
  intros Hk Hmsg. unfold keeps, mem_response. wp_run. destruct (mk_state k) as [|w|w expected] eqn:Es; try (apply keeps_fault; auto; fail).
  assert (Hw : ModeledKernel.work k = Some w) by (unfold ModeledKernel.work; rewrite Es; reflexivity).
  destruct (work_due k w Hk Hw) as [a Ha]. apply wp_bind.
  assert (Hresp : wp (response msg : M _) (fun r s => s = (k, ctx) /\ match snd r with Some kp => completion_ok kp | None => True end)
                    (fun e s => kernel_ok (fst s) /\ stops e) (k, ctx)).
  { destruct msg as [| ? [] | | ? []]; cbn [response]; first [apply keeps_fault; auto; fail | apply wp_ret; split; [reflexivity |]; cbn in *; tauto]. }
  eapply wp_mono; [exact Hresp | | auto]. intros [txn kp] s [-> Hkp]. cbn [snd] in Hkp. destruct (negb (txn =? expected)); [apply keeps_fault; auto |]. wp_run.
  destruct (bool_decide _); [apply keeps_fault; auto |]. apply wp_bind. eapply wp_pure; [exact Ha |]. cbn beta iota.
  destruct (negb _); [apply keeps_fault; auto |]. destruct kp as [kp|]; [|apply keeps_fault; auto].
  apply wp_bind. eapply next_work_ok; eauto. intros next m ctx' Hok Hm. destruct next as [w'|].
  - wp_run. destruct Hk as [K1 K2 K3 K4].
    assert (Hk' : kernel_ok (set_state (State_Issue w') (mkModeledKernel (mk_config k) (mk_state k) (mk_held k) (mk_next_txn k) m))).
    { split; cbn; auto; [rewrite K2, Hw; split; eauto | discriminate]. }
    apply wp_issue_wake; cbn; auto.
  - rewrite Hm by reflexivity. replace (mkModeledKernel _ _ _ _ _) with k by (destruct k; reflexivity).
    eapply release_keeps; eauto. rewrite <- Hm by reflexivity. exact Hok.
Qed.

Lemma handle_event_keeps ev k ctx : kernel_ok k -> delivered_ok ev -> keeps kernel_ok (handle_event ev) k ctx.
Proof.
  intros Hk Hev. destruct ev as [port [m|msg|m|m]|token]; cbn [handle_event]; try (apply keeps_fault; auto; fail).
  - destruct (port =? GATE_PORT); [apply gate_request_keeps, Hk |].
    destruct (port =? MEM_PORT); [apply mem_response_keeps; auto | apply keeps_fault; auto].
  - destruct (token =? ISSUE); [apply issue_keeps, Hk | apply keeps_fault; auto].
Qed.
End handlers.

(** * Reachable kernels *)

Section reachable.
Context {C : Type} `{SimContext C, MemClassify}.

(** A kernel of a constructor, after any events in any contexts. *)
Inductive reachable : ModeledKernel -> Prop :=
| reach_new c k : ModeledKernel.new c = Ok k -> reachable k
| reach_processes c plan k :
    layout_typed (plan_layout plan) -> Forall (fun b => in_u 32 (bi_file_len b)) (plan_images plan) ->
    ModeledKernel.with_processes c plan = Ok k -> reachable k
| reach_disk c disk k : layout_typed (disk_layout disk) -> ModeledKernel.with_disk c disk = Ok k -> reachable k
| reach_event k (ctx : C) ev k' ctx' r :
    reachable k -> delivered_ok ev -> handle_event ev (k, ctx) = ((k', ctx'), r) -> reachable k'.

Lemma with_source_ok c s : source_ok c s -> kernel_ok (ModeledKernel.with_source c s).
Proof.
  intros Hs. split; cbn; [|split; intros [? [=]] | unfold in_u; lia | discriminate]. split; [|cbn; destruct s; auto].
  split; cbn [mo_source mo_entries mo_procs Model.new]; [exact Hs | destruct s; [reflexivity | lia] | | constructor].
  pose proof (new_inv (Z.of_nat match s with Source_Plan plan => length (plan_images plan) | Source_Disk _ => 0 end)
    (Frames.new (w_base (kc_frame_pool c)) (w_size (kc_frame_pool c)))) as Hn.
  apply Hn. intros ppn o (i & _ & Hi)%owner_spec. apply lookup_replicate in Hi. tauto.
Qed.

Lemma reachable_ok k : reachable k -> kernel_ok k.
Proof.
  induction 1 as [c k E|c plan k Ht Hf E|c disk k Ht E|k ctx ev k' ctx' r _ IH Hev E].
  - unfold ModeledKernel.new in E. apply bind_Ok_inv in E as (? & _ & [= <-]).
    split; cbn; [exact I | split; intros [? [=]] | unfold in_u; lia | discriminate].
  - unfold ModeledKernel.with_processes in E. apply bind_Ok_inv in E as ([] & Hv & [= <-]). apply with_source_ok. split; auto.
  - unfold ModeledKernel.with_disk in E. apply bind_Ok_inv in E as ([] & Hv & [= <-]). apply with_source_ok. split; auto.
  - pose proof (wp_use _ _ _ _ _ _ (handle_event_keeps ev k ctx IH Hev) E) as Hr. destruct r; cbn in Hr; [exact Hr | apply Hr].
Qed.
End reachable.

(** * What a reachable kernel holds *)

(** The processes are as created, the stage carries what the model gave it, and an outstanding
    access is on the whitelist. *)
Record kernel_made (k : ModeledKernel) : Prop := {
  km_model : forall m, mk_model k = Some m -> model_made (mk_config k) m;
  km_stage : forall m o, mk_model k = Some m -> ModeledKernel.work k = Some (Work_Proc o) -> stage_made (mk_config k) m (po_stage o);
  km_wait : forall w txn a, mk_state k = State_Wait w txn -> Work.access (mk_config k) w = Ok (Some a) ->
    KernelConfig.permits (mk_config k) (Access.addr a) (Access.len a) = true;
}.

Section made.
Context {C : Type} `{SimContext C, MemClassify}.

Local Abbreviation M := (ST (ModeledKernel * C) Failure).
Local Abbreviation made := (fun (_ : unit) (s : ModeledKernel * C) => kernel_made (fst s)).
Local Abbreviation made_anyway := (fun (_ : Failure) (s : ModeledKernel * C) => kernel_made (fst s)).

Lemma wp_completed_any {A} (r : result CoreStop A) (Q : A -> _ -> Prop) (X : Failure -> _ -> Prop) s :
  (forall a, r = Ok a -> Q a s) -> (forall e, X e s) -> wp (completed r : M A) Q X s.
Proof. intros HQ HX. unfold wp, completed. destruct r; cbn; auto. Qed.

Lemma wp_pure_any {A} (r : result string A) (Q : A -> _ -> Prop) (X : Failure -> _ -> Prop) s :
  (forall a, r = Ok a -> Q a s) -> (forall e, X e s) -> wp (pure_of r : M A) Q X s.
Proof. intros HQ HX. unfold wp, pure_of. destruct r; cbn; auto. Qed.

Lemma refuse_makes resp k ctx : kernel_made k -> wp (refuse resp : M unit) made made_anyway (k, ctx).
Proof. intros Hk. unfold refuse. wp_run. destruct (kc_latency _); (apply wp_bus_send; cbn; auto). Qed.

(** A kernel about to issue the first access of an operation its model made. *)
Lemma made_issue k m o held :
  model_made (mk_config k) m -> stage_made (mk_config k) m (po_stage o) ->
  kernel_made (mkModeledKernel (mk_config k) (State_Issue (Work_Proc o)) held (mk_next_txn k) (Some m)).
Proof. intros Hm Hs. split; cbn; [intros ? [= <-]; exact Hm | intros ? ? [= <-] [= <-]; exact Hs | discriminate]. Qed.

Lemma made_proto k o held :
  kernel_made (mkModeledKernel (mk_config k) (State_Issue (Work_Proto o)) held (mk_next_txn k) None).
Proof. split; discriminate. Qed.

Lemma enter_makes txn value k ctx : kernel_ok k -> kernel_made k -> wp (enter txn value : M unit) made made_anyway (k, ctx).
Proof.
  intros [Hw Hheld _ _] Hk. unfold enter. wp_run. destruct (bool_decide_reflect (is_Some (mk_held k))) as [Hh|Hh]; [exact Hk |].
  assert (Hn : ModeledKernel.work k = None).
  { destruct (ModeledKernel.work k); [|reflexivity]. destruct Hh. apply Hheld. eauto. }
  unfold start_work. apply wp_bind, wp_bind, wp_self. destruct (mk_model k) as [m|] eqn:Em; rewrite Hn in Hw; cbn [work_ok] in Hw.
  - apply wp_bind. eapply wp_with_model; [exact Em |].
    eapply wp_mono; [apply (wp_both _ _ _ _ _ _ (start_ok _ value m _ Hw) (start_made _ value m _ Hw (km_model _ Hk m Em))) | |].
    + intros op [m' ns] [_ (st & -> & Hst & Hm')]. cbn [fst snd] in *. wp_run. apply wp_emit. intros ctx'. wp_run.
      assert (Hk' := made_issue k m' (ProcOp.new st) (Some txn) Hm' Hst). apply wp_issue_wake; cbn; auto.
    + intros e [m' ns] [(E & _) _]. cbn [fst] in *. subst m'. rewrite (set_model_same m k Em). exact Hk.
  - wp_run. apply wp_emit. intros ctx'. wp_run. assert (Hk' := made_proto k (Operation.start (mk_config k) value) (Some txn)).
    assert (E : set_state (State_Issue (Work_Proto (Operation.start (mk_config k) value))) (set_held (Some txn) k) =
      mkModeledKernel (mk_config k) (State_Issue (Work_Proto (Operation.start (mk_config k) value))) (Some txn) (mk_next_txn k) None)
      by (destruct k; cbn in *; subst; reflexivity).
    rewrite E. apply wp_issue_wake; cbn; auto.
Qed.

Lemma gate_request_makes msg k ctx : kernel_ok k -> kernel_made k -> wp (gate_request msg : M unit) made made_anyway (k, ctx).
Proof.
  intros Hok Hk. unfold gate_request. destruct msg as [txn addr len|txn o|txn addr data|txn o].
  - rewrite access_read. unfold classify_doc. apply wp_bind. destruct (len =? 0); [exact Hk |].
    destruct (_ <=? _); wp_run; apply refuse_makes, Hk.
  - rewrite access_read_resp. apply wp_bind. exact Hk.
  - rewrite access_write. unfold classify_doc. apply wp_bind. destruct (Z.of_nat (length data) =? 0); [exact Hk |].
    destruct (_ <=? _); wp_run; [apply refuse_makes, Hk |]. destruct (_ && _); [|apply refuse_makes, Hk].
    destruct (_ =? _)%nat; [apply enter_makes; auto | exact Hk].
  - rewrite access_write_resp. apply wp_bind. exact Hk.
Qed.

Lemma issue_makes k ctx : kernel_made k -> wp (issue : M unit) made made_anyway (k, ctx).
Proof.
  intros Hk. unfold issue. wp_run. destruct (mk_state k) as [|w|w txn] eqn:Es; try exact Hk.
  apply wp_bind, wp_pure_any; [|intros; exact Hk]. intros [a|] Ea; [|exact Hk].
  destruct (KernelConfig.permits _ _ _) eqn:Ep; cbn [negb]; [|exact Hk]. destruct (checked_add _ _ _); [|exact Hk].
  apply wp_bind, wp_bus_send; [|auto]. intros ctx'. wp_run. destruct Hk as [K1 K2 K3].
  assert (Hw : ModeledKernel.work k = Some w) by (unfold ModeledKernel.work; rewrite Es; reflexivity).
  split; cbn; [exact K1 | |].
  - intros m o Hm [= ->]. apply (K2 m o Hm Hw).
  - intros w' txn' a' [= <- _] Ha'. assert (a' = a) as -> by congruence. exact Ep.
Qed.

Lemma release_makes k ctx : kernel_made k -> wp (release : M unit) made made_anyway (k, ctx).
Proof.
  intros Hk. unfold release. wp_run. destruct (mk_held k); [|exact Hk]. apply wp_bind, wp_bus_send; [|auto]. intros ctx'. wp_run.
  destruct Hk as [K1 K2 K3]. split; cbn; [exact K1 | discriminate | discriminate].
Qed.

(** The model and the stage after a response. *)
Lemma next_work_makes w kp k ctx :
  kernel_ok k -> kernel_made k -> ModeledKernel.work k = Some w -> completion_ok kp ->
  wp (next_work w kp : M _)
    (fun next s => match next with
                   | None => kernel_made (fst s)
                   | Some w' => kernel_made (set_state (State_Issue w') (fst s))
                   end) (fun _ s => kernel_made (fst s)) (k, ctx).
Proof.
  intros Hok Hk Hw Hkp. pose proof (ko_work _ Hok) as Ho. rewrite Hw in Ho. unfold work_ok in Ho.
  unfold next_work. apply wp_bind, wp_self. destruct (mk_model k) as [m|] eqn:Em, w as [o|o]; try contradiction Ho.
  - pose proof (km_model _ Hk m Em) as Hm. pose proof (km_stage _ Hk m o Em Hw) as Hst. pose proof Ho as [Hs0 Hm0 _ _ _].
    apply wp_bind, wp_completed_any; [|intros; exact Hk]. intros o' E. destruct (op_complete _ m o kp o' Ho Hkp E) as [Hsame Hfin]. destruct (ProcOp.is_finished _ o') eqn:Ef.
    + rewrite <- Hsame in Hst, Hs0, Hm0.
      apply wp_bind. eapply wp_with_model; [exact Em |].
      eapply wp_mono; [apply (wp_both _ _ _ _ _ _ (model_advance_ok (mk_config k) o' m [] Hs0 Hm0 Hfin) (advance_made _ o' m [] Hs0 Hm0 Hfin Hst Hm)) | | intros ? ? [[] _]].
      intros next [m' ns] [Hnext Hmakes]. cbn [fst snd]. wp_run. apply wp_emit. intros ctx'. wp_run. destruct next as [op'|]; cbn [fmap option_fmap option_map fst].
      * destruct Hmakes as (st & -> & Hst' & Hm'). exact (made_issue k m' (ProcOp.new st) (mk_held k) Hm' Hst').
      * destruct Hnext as [[= -> _] _]. rewrite (set_model_same m k Em). exact Hk.
    + wp_run. unfold set_state. cbn [fst mk_config mk_held mk_next_txn mk_model]. rewrite Em. apply made_issue; [exact Hm | rewrite Hsame; exact Hst].
  - apply wp_bind, wp_completed_any; [|intros; exact Hk]. intros o' _. wp_run. destruct (Operation.is_finished _ o'); [exact Hk |]. unfold set_state. cbn [fst]. rewrite Em. apply made_proto.
Qed.

Lemma mem_response_makes msg k ctx :
  kernel_ok k -> kernel_made k -> mem_msg_ok msg -> wp (mem_response msg : M unit) made made_anyway (k, ctx).
Proof.
  intros Hok Hk Hmsg. unfold mem_response. wp_run. destruct (mk_state k) as [|w|w expected] eqn:Es; try exact Hk.
  assert (Hw : ModeledKernel.work k = Some w) by (unfold ModeledKernel.work; rewrite Es; reflexivity).
  destruct (work_due k w Hok Hw) as [a Ha]. apply wp_bind.
  assert (Hresp : wp (response msg : M _) (fun r s => s = (k, ctx) /\ match snd r with Some kp => completion_ok kp | None => True end)
                    made_anyway (k, ctx)).
  { destruct msg as [| ? [] | | ? []]; cbn [response]; first [exact Hk | apply wp_ret; split; [reflexivity |]; cbn in *; tauto]. }
  eapply wp_mono; [exact Hresp | | auto]. intros [txn kp] s [-> Hkp]. cbn [snd] in Hkp. destruct (negb (txn =? expected)); [exact Hk |]. wp_run.
  destruct (bool_decide _); [exact Hk |]. apply wp_bind. eapply wp_pure; [exact Ha |]. cbn beta iota.
  destruct (negb _); [exact Hk |]. destruct kp as [kp|]; [|exact Hk].
  apply wp_bind. eapply wp_mono; [apply (next_work_makes w kp k ctx Hok Hk Hw Hkp) | | auto]. intros next [k' ctx'] Hk'. destruct next as [w'|].
  - wp_run. apply wp_issue_wake; cbn; auto.
  - apply release_makes, Hk'.
Qed.

Lemma handle_event_makes ev k ctx :
  kernel_ok k -> kernel_made k -> delivered_ok ev -> wp (handle_event ev : M unit) made made_anyway (k, ctx).
Proof.
  intros Hok Hk Hev. destruct ev as [port [m|msg|m|m]|token]; cbn [handle_event]; try exact Hk.
  - destruct (port =? GATE_PORT); [apply gate_request_makes; auto |]. destruct (port =? MEM_PORT); [apply mem_response_makes; auto | exact Hk].
  - destruct (token =? ISSUE); [apply issue_makes, Hk | exact Hk].
Qed.

Lemma with_source_made c s : kernel_made (ModeledKernel.with_source c s).
Proof. split; cbn; [intros m [= <-]; split; [constructor | reflexivity..] | discriminate | discriminate]. Qed.

Lemma reachable_made k : reachable (C := C) k -> kernel_made k.
Proof.
  induction 1 as [c k E|c plan k Ht Hf E|c disk k Ht E|k ctx ev k' ctx' r Hr IH Hev E].
  - unfold ModeledKernel.new in E. apply bind_Ok_inv in E as (? & _ & [= <-]). split; discriminate.
  - unfold ModeledKernel.with_processes in E. apply bind_Ok_inv in E as ([] & _ & [= <-]). apply with_source_made.
  - unfold ModeledKernel.with_disk in E. apply bind_Ok_inv in E as ([] & _ & [= <-]). apply with_source_made.
  - pose proof (wp_use _ _ _ _ _ _ (handle_event_makes ev k ctx (reachable_ok k Hr) IH Hev) E) as Hk. destruct r; exact Hk.
Qed.
End made.

(** * What an event sends *)

Section sends.
Context `{MemClassify}.

Local Existing Instance recording_context.
Local Abbreviation M := (ST (ModeledKernel * RecCtx) Failure).

(** A bus request of the kernel is on the whitelist; a response goes to the gate. *)
Definition sent_ok (c : KernelConfig) (e : Effect) : Prop :=
  match e with
  | Sent port (Message_MemV1 (ReadReq _ a n)) _ _ => port = MEM_PORT /\ KernelConfig.permits c a n = true
  | Sent port (Message_MemV1 (WriteReq _ a d)) _ _ => port = MEM_PORT /\ KernelConfig.permits c a (Z.of_nat (length d)) = true
  | Sent port (Message_MemV1 _) _ _ => port = GATE_PORT
  | Sent _ _ _ _ => False
  | _ => True
  end.

(** The [ENTER]s a log answers with [Done]. *)
Definition answered (e : Effect) : list Z :=
  match e with Sent _ (Message_MemV1 (WriteResp txn WriteOutcome_Done)) _ _ => [txn] | _ => [] end.

(** The [txn] of an [ENTER] write. *)
Definition enter_txn (ev : Delivered) : list Z :=
  match ev with
  | Delivered_Message port (Message_MemV1 (WriteReq txn addr data)) =>
      if (port =? GATE_PORT) && (addr =? ENTER) && (length data =? 4)%nat then [txn] else []
  | _ => []
  end.

(** From [log], a handler entered with [entering] and holding [held] appends [new]. *)
Definition sends (c : KernelConfig) (log : list Effect) (held : list Z) (k : ModeledKernel) (ctx : RecCtx) : Prop :=
  mk_config k = c /\ exists new, rec_log ctx = log ++ new /\ Forall (sent_ok c) new /\
    held = (new ≫= answered) ++ option_list (mk_held k).

(** The same, of a handler that failed: only what it sent. *)
Definition sent (c : KernelConfig) (log : list Effect) (ctx : RecCtx) : Prop :=
  exists new, rec_log ctx = log ++ new /\ Forall (sent_ok c) new.

Definition logs {A} (m : M A) (entering : list Z) (k : ModeledKernel) (ctx : RecCtx) : Prop :=
  wp m (fun _ s => sends (mk_config k) (rec_log ctx) (option_list (mk_held k) ++ entering) (fst s) (snd s))
       (fun _ s => sent (mk_config k) (rec_log ctx) (snd s)) (k, ctx).

Lemma sent_refl c ctx : sent c (rec_log ctx) ctx.
Proof. exists []. rewrite app_nil_r. split; [reflexivity | constructor]. Qed.

(** An effect that is neither a request nor an answer. *)
Definition quiet (e : Effect) : Prop := schedules e = false \/ exists w p t, e = Woken w p t.

Lemma quiet_sent c e : quiet e -> sent_ok c e.
Proof. intros [Hs|(? & ? & ? & ->)]; [destruct e; cbn in Hs; try discriminate|]; exact I. Qed.

Lemma quiet_answered e : quiet e -> answered e = [].
Proof. intros [Hs|(? & ? & ? & ->)]; [destruct e; cbn in Hs; try discriminate|]; reflexivity. Qed.

Lemma quiet_answers l : Forall quiet l -> l ≫= answered = [].
Proof. induction 1 as [|e l He _ IH]; [reflexivity |]. rewrite bind_cons, quiet_answered by exact He. exact IH. Qed.

Lemma quiet_all c l : Forall quiet l -> Forall (sent_ok c) l.
Proof. intros Hl. eapply Forall_impl; [exact Hl |]. intros e. apply quiet_sent. Qed.

Lemma sends_quiet c log held k ctx ts :
  mk_config k = c -> rec_log ctx = log ++ ts -> Forall quiet ts -> held = option_list (mk_held k) -> sends c log held k ctx.
Proof.
  intros Hc El Hq ->. split; [exact Hc |]. exists ts. rewrite quiet_answers by exact Hq. auto using quiet_all.
Qed.

Lemma quiet_trace k fs : quiet (Traced k fs).
Proof. left. reflexivity. Qed.
Lemma quiet_wake w p t : quiet (Woken w p t).
Proof. right. eauto. Qed.

(** ** Rules *)

Lemma wp_emit_log notes (Q : unit -> _ -> Prop) X k :
  forall ctx, (forall ts ctx', Forall quiet ts -> rec_log ctx' = rec_log ctx ++ ts -> Q tt (k, ctx')) ->
  wp (emit notes : M unit) Q X (k, ctx).
Proof.
  induction notes as [|n notes IH]; intros ctx HQ; cbn [emit].
  - apply wp_ret. apply (HQ []); [constructor | rewrite app_nil_r; reflexivity].
  - apply wp_bind, wp_trace, IH. intros ts ctx' Hts El. apply (HQ (Traced (note_kind n) (note_fields n) :: ts)).
    + constructor; [apply quiet_trace | exact Hts].
    + rewrite El. cbn. rewrite <- app_assoc. reflexivity.
Qed.

Lemma wp_with_model_log {A} (f : MM A) notes (Q : A * list Note -> _ -> Prop) (X : Failure -> _ -> Prop) k ctx :
  (forall a ns m, Q (a, ns) (set_model m k, ctx)) -> (forall e m, X e (set_model m k, ctx)) -> (forall e, X e (k, ctx)) ->
  wp (with_model f notes : M (A * list Note)) Q X (k, ctx).
Proof.
  intros HQ HX HX'. unfold wp, with_model. destruct (mk_model k) as [m|]; [|apply HX'].
  destruct (f (m, notes)) as [[m' ns] [a|e]]; auto.
Qed.

(** A pure step that may stop. *)
Lemma wp_stop {A} (r : result Failure A) (Q : A -> _ -> Prop) (X : Failure -> _ -> Prop) s :
  (forall a, Q a s) -> (forall e, X e s) -> wp ((fun s => (s, r)) : M A) Q X s.
Proof. intros HQ HX. unfold wp. destruct r; auto. Qed.

(** ** Handlers *)

Ltac stop_here := solve [apply wp_fault; apply sent_refl | apply sent_refl].

Lemma refuse_logs resp k ctx : answered (Sent GATE_PORT (Message_MemV1 resp) When_Now Phase_Complete) = [] ->
  is_write_resp resp || match resp with ReadResp _ _ => true | _ => false end = true ->
  logs (refuse resp) [] k ctx.
Proof.
  intros Ha Hr. unfold logs, refuse. wp_run. rewrite app_nil_r.
  assert (Hs : forall when, sends (mk_config k) (rec_log ctx) (option_list (mk_held k)) k
                 (rec_push (Sent GATE_PORT (Message_MemV1 resp) when Phase_Complete) ctx)).
  { intros when. split; [reflexivity |]. eexists. split; [reflexivity |]. split.
    - apply Forall_singleton. destruct resp; try discriminate Hr; reflexivity.
    - cbn. destruct resp as [| | |? []]; try reflexivity. discriminate Ha. }
  destruct (kc_latency _); apply Hs.
Qed.

Lemma enter_logs txn value k ctx : logs (enter txn value) [txn] k ctx.
Proof.
  unfold logs, enter. wp_run. destruct (bool_decide_reflect (is_Some (mk_held k))) as [Hh|Hh]; [stop_here |].
  assert (Hn : mk_held k = None) by (destruct (mk_held k); [destruct Hh; eauto | reflexivity]). rewrite Hn.
  assert (Hend : forall k' w notes, mk_config k' = mk_config k -> wp (emit notes;; update (set_held (Some txn));; update (set_state (State_Issue w));; wake_next_cycle : M unit)
            (fun _ s => sends (mk_config k) (rec_log ctx) [txn] (fst s) (snd s)) (fun _ s => sent (mk_config k) (rec_log ctx) (snd s))
            (k', ctx)).
  { intros k' w notes Hc. apply wp_bind, wp_emit_log. intros ts ctx' Hq El. wp_run. unfold wake_next_cycle. wp_run.
    eapply (sends_quiet _ _ _ _ _ (ts ++ [_])); [exact Hc | cbn; rewrite El, <- app_assoc; reflexivity | | reflexivity].
    apply Forall_app. split; [exact Hq | apply Forall_singleton, quiet_wake]. }
  cbn [option_list app]. unfold start_work. apply wp_bind, wp_bind, wp_self. destruct (mk_model k) as [m|] eqn:Em.
  - apply wp_bind, wp_with_model_log; [|intros; stop_here.. ]. intros op ns m'. apply wp_ret. apply Hend. reflexivity.
  - apply wp_ret. apply Hend. reflexivity.
Qed.

Lemma gate_request_logs msg k ctx :
  logs (gate_request msg) (enter_txn (Delivered_Message GATE_PORT (Message_MemV1 msg))) k ctx.
Proof.
  unfold logs, gate_request. destruct msg as [txn addr len|txn o|txn addr data|txn o]; cbn [enter_txn].
  - rewrite access_read. unfold classify_doc. apply wp_bind. destruct (len =? 0); [stop_here |].
    destruct (_ <=? _); wp_run; apply refuse_logs; reflexivity.
  - rewrite access_read_resp. apply wp_bind. stop_here.
  - rewrite access_write. unfold classify_doc. apply wp_bind. rewrite Z.eqb_refl. cbn [andb]. unfold ENTER in *.
    destruct (Z.eqb_spec (Z.of_nat (length data)) 0); [stop_here |]. destruct (Z.leb_spec (2 ^ 64) (addr + (Z.of_nat (length data) - 1))) as [Hb|Hb]; wp_run.
    + destruct (Z.eqb_spec addr 0), (Nat.eqb_spec (length data) 4); cbn [andb]; try (apply refuse_logs; reflexivity). lia.
    + destruct (Z.eqb_spec addr 0) as [->|]; cbn [andb]; [|apply refuse_logs; reflexivity].
      destruct (Z.eqb_spec (0 + (Z.of_nat (length data) - 1)) (0 + 3)), (Nat.eqb_spec (length data) 4); try lia; [apply enter_logs |].
      apply refuse_logs; reflexivity.
  - rewrite access_write_resp. apply wp_bind. stop_here.
Qed.

Lemma issue_logs k ctx : logs issue [] k ctx.
Proof.
  unfold logs, issue. wp_run. rewrite app_nil_r. destruct (mk_state k) as [|w|w txn]; try stop_here.
  apply wp_bind. unfold pure_of. apply wp_stop; [|intros; stop_here]. intros [a|]; [|stop_here].
  destruct (KernelConfig.permits _ _ _) eqn:Ep; cbn [negb]; [|stop_here]. unfold checked_add. destruct (_ <? _); [|stop_here].
  apply wp_bind. cbn [call]. unfold wp, call. cbn. wp_run. split; [reflexivity |]. eexists. split; [reflexivity |].
  split; [apply Forall_singleton; destruct a; cbn in *; auto | destruct a; reflexivity].
Qed.

Lemma next_work_logs w kp k ctx (Q : option Work -> _ -> Prop) (X : Failure -> _ -> Prop) :
  (forall next m ts ctx', Forall quiet ts -> rec_log ctx' = rec_log ctx ++ ts ->
     Q next (mkModeledKernel (mk_config k) (mk_state k) (mk_held k) (mk_next_txn k) m, ctx')) ->
  (forall e k', X e (k', ctx)) -> wp (next_work w kp : M _) Q X (k, ctx).
Proof.
  intros HQ HX. unfold next_work. apply wp_bind, wp_self.
  assert (Hself : k = mkModeledKernel (mk_config k) (mk_state k) (mk_held k) (mk_next_txn k) (mk_model k)) by (destruct k; reflexivity).
  assert (Hnil : forall next, Q next (k, ctx)).
  { intros next. rewrite Hself. apply (HQ next (mk_model k) []); [constructor | rewrite app_nil_r; reflexivity]. }
  destruct w as [o|o]; apply wp_bind; unfold completed; (apply wp_stop; [|intros; apply HX]); intros o'.
  - apply wp_ret, Hnil.
  - destruct (ProcOp.is_finished _ o'); [|apply wp_ret, Hnil]. apply wp_bind, wp_with_model_log; [|intros; apply HX..].
    intros next ns m. apply wp_bind, wp_emit_log. intros ts ctx' Hq El. apply wp_ret. apply (HQ _ (Some m) ts); auto.
Qed.

Lemma mem_response_logs msg k ctx : logs (mem_response msg) [] k ctx.
Proof.
  unfold logs, mem_response. wp_run. rewrite app_nil_r. destruct (mk_state k) as [|w|w expected]; try stop_here.
  apply wp_bind. assert (Hresp : wp (response msg : M _) (fun _ s => s = (k, ctx)) (fun _ s => s = (k, ctx)) (k, ctx))
    by (destruct msg as [| ? [] | | ? []]; reflexivity).
  eapply wp_mono; [exact Hresp | | intros ? ? ->; apply sent_refl]. intros [txn kp] s ->. destruct (negb _); [stop_here |]. wp_run.
  destruct (bool_decide _); [stop_here |]. apply wp_bind. unfold pure_of. apply wp_stop; [|intros; stop_here]. intros due.
  destruct (negb _); [stop_here |]. destruct kp as [kp|]; [|stop_here]. apply wp_bind, next_work_logs; [|intros; apply sent_refl].
  intros [w'|] m ts ctx' Hq El.
  - wp_run. unfold wake_next_cycle. wp_run. eapply (sends_quiet _ _ _ _ _ (ts ++ [_])); [reflexivity | cbn; rewrite El, <- app_assoc; reflexivity | | reflexivity].
    apply Forall_app. split; [exact Hq | apply Forall_singleton, quiet_wake].
  - unfold release. wp_run. cbn [mk_held]. destruct (mk_held k) as [t|] eqn:Eh.
    + apply wp_bind. unfold wp at 1, call. cbn. wp_run. split; [reflexivity |]. eexists. split; [cbn; rewrite El, <- !app_assoc; reflexivity |].
      split; [rewrite !Forall_app; split; [apply quiet_all, Hq |]; split; apply Forall_singleton; cbn; auto |].
      rewrite !bind_app, quiet_answers by exact Hq. reflexivity.
    + apply wp_fault. exists ts. split; [exact El | apply quiet_all, Hq].
Qed.

Lemma handle_event_logs ev k ctx : logs (handle_event ev) (enter_txn ev) k ctx.
Proof.
  destruct ev as [port [m|msg|m|m]|token]; cbn [handle_event]; try (unfold logs; stop_here).
  - destruct (Z.eqb_spec port GATE_PORT) as [->|Hp]; [apply gate_request_logs |].
    assert (Hn : enter_txn (Delivered_Message port (Message_MemV1 msg)) = []).
    { destruct msg; cbn; try reflexivity. apply Z.eqb_neq in Hp. rewrite Hp. reflexivity. }
    rewrite Hn. destruct (port =? MEM_PORT); [apply mem_response_logs | unfold logs; stop_here].
  - destruct (token =? ISSUE); [apply issue_logs | unfold logs; stop_here].
Qed.
End sends.

(** * Claims *)

(** The creation the kernel is in. *)
Definition in_creation (k : ModeledKernel) : option (Z * list Z) :=
  match ModeledKernel.work k with Some (Work_Proc o) => creating (po_stage o) | _ => None end.

(** C7: every kernel a session reaches, from any of the three constructors by any events in any
    contexts: it holds an [ENTER] exactly while an operation is in flight; an outstanding access
    is the latest transaction issued; the operation's next access is always due, no index or
    slice of the code being out of range; and the process table passes [Processes::check].
    Whatever event comes next, the kernel does not panic, and it faults the session only when
    the gate or bus protocol is broken, an [ENTER] follows the shutdown, or the context refuses
    a call: never for a broken process invariant. *)
Theorem kernel_reachable_invariant {C : Type} `{SimContext C, MemClassify} (k : ModeledKernel) :
  reachable (C := C) k ->
  (is_Some (mk_held k) <-> mk_state k <> State_Idle) /\
  (forall w txn, mk_state k = State_Wait w txn -> mk_next_txn k = txn + 1) /\
  (forall w, ModeledKernel.work k = Some w -> exists a, Work.access (mk_config k) w = Ok (Some a)) /\
  (forall m, mk_model k = Some m -> Processes.check (mo_procs m) (Z.of_nat (mo_entries m)) (in_creation k) = Ok tt) /\
  forall ev (ctx : C) k' ctx' e,
    delivered_ok ev -> handle_event ev (k, ctx) = ((k', ctx'), Err e) -> stops (C := C) e.
Proof.
  intros Hr. pose proof (reachable_ok k Hr) as Hk. split_and!.
  - rewrite (ko_held _ Hk). unfold ModeledKernel.work. destruct (mk_state k); split; (eauto || congruence || intros [? [=]]).
  - intros w txn Hs. rewrite (ko_wait _ Hk w txn Hs). lia.
  - intros w Hw. apply work_due; assumption.
  - intros m Hm. pose proof (ko_work _ Hk) as Hw. rewrite Hm in Hw. unfold work_ok, in_creation in *.
    assert (Hinv : proc_inv (mo_procs m) (Z.of_nat (mo_entries m)) (in_creation k)).
    { unfold in_creation. destruct (ModeledKernel.work k) as [[o|o]|]; [destruct Hw | |]; apply Hw. }
    apply check_spec_inv; [|exact Hinv]. unfold in_creation in Hinv. destruct (match ModeledKernel.work k with Some _ => _ | None => _ end) as [[i fs]|]; [|exact I].
    destruct (pi_creating _ _ _ Hinv). lia.
  - intros ev ctx k' ctx' e Hev E. apply (wp_use _ _ _ _ _ _ (handle_event_keeps ev k ctx Hk Hev) E).
Qed.

(** The bytes of an access lie in one granted range and none of them in the kernel's gate. *)
Definition confined (c : KernelConfig) (addr len : Z) : Prop :=
  (exists g, g ∈ KernelConfig.grants c /\ forall x, addr <= x < addr + len -> w_base g <= x < w_base g + w_size g) /\
  forall x, addr <= x < addr + len -> ~ (w_base (kc_gate c) <= x < w_base (kc_gate c) + w_size (kc_gate c)).

Lemma permits_confined c addr len :
  window_ok (kc_gate c) -> 0 <= len -> KernelConfig.permits c addr len = true -> confined c addr len.
Proof.
  intros Hg Hl (Ho & g & Hin & Hc)%permits_grant. apply contains_spec in Hc as (? & ? & ? & ?); [|exact Hl].
  split; [exists g; split; [exact Hin | lia] |]. intros x Hx Hgx.
  apply not_true_iff_false in Ho. apply Ho, overlaps_spec; auto; try lia.
Qed.

(** C8: the kernel's bus mastering is confined, whatever state it is in and whatever the event:
    every read or write it puts on the bus lies wholly in a range its configuration grants (the
    trap frame, staging, the frame pool, the block controller, the UART's TX byte) and touches
    no byte of its own gate, even when a page table it walks has been corrupted. *)
Theorem kernel_sends_confined `{MemClassify} (k : ModeledKernel) (ev : Delivered) (ctx ctx' : RecCtx) (k' : ModeledKernel)
    (r : result Failure unit) :
  window_ok (kc_gate (mk_config k)) ->
  handle_event (H := recording_context) ev (k, ctx) = ((k', ctx'), r) ->
  exists new, rec_log ctx' = rec_log ctx ++ new /\
    forall port msg when ph, Sent port (Message_MemV1 msg) when ph ∈ new ->
      match msg with
      | ReadReq _ addr len => 0 <= len -> port = MEM_PORT /\ confined (mk_config k) addr len
      | WriteReq _ addr data => port = MEM_PORT /\ confined (mk_config k) addr (Z.of_nat (length data))
      | ReadResp _ _ | WriteResp _ _ => port = GATE_PORT
      end.
Proof.
  intros Hg E. pose proof (wp_use _ _ _ _ _ _ (handle_event_logs ev k ctx) E) as Hr.
  assert (Hs : sent (mk_config k) (rec_log ctx) ctx').
  { destruct r; cbn in Hr; [|exact Hr]. destruct Hr as (_ & new & ? & ? & _). exists new. auto. }
  destruct Hs as (new & El & Hall). exists new. split; [exact El |]. intros port msg when ph Hin.
  rewrite Forall_forall in Hall. specialize (Hall _ Hin). destruct msg; cbn in Hall; try exact Hall.
  - intros Hl. destruct Hall. split; [assumption | apply permits_confined; auto].
  - destruct Hall. split; [assumption | apply permits_confined; auto; lia].
Qed.

(** Events handled without a fault, and the effects they leave. *)
Inductive handled `{MemClassify} : ModeledKernel -> list Effect -> list Delivered -> ModeledKernel -> list Effect -> Prop :=
| handled_none k log : handled k log [] k log
| handled_event k log ph ev k1 ph1 log1 evs k' log' :
    handle_event (H := recording_context) ev (k, mkRecCtx ph log) = ((k1, mkRecCtx ph1 log1), Ok tt) ->
    handled k1 log1 evs k' log' -> handled k log (ev :: evs) k' log'.

Lemma handled_balance `{MemClassify} k log evs k' log' :
  handled k log evs k' log' ->
  (log ≫= answered) ++ option_list (mk_held k) ++ (evs ≫= enter_txn) = (log' ≫= answered) ++ option_list (mk_held k').
Proof.
  induction 1 as [k log|k log ph ev k1 ph1 log1 evs k' log' E _ IH]; [cbn; rewrite app_nil_r; reflexivity |].
  rewrite <- IH. pose proof (wp_use _ _ _ _ _ _ (handle_event_logs ev k (mkRecCtx ph log)) E) as (_ & new & El & _ & Hheld).
  cbn [fst snd rec_log] in *. rewrite El, bind_app, bind_cons, <- app_assoc. f_equal. rewrite !app_assoc, Hheld. reflexivity.
Qed.

(** C9: every [ENTER] is answered exactly once.  Over any events a kernel handles, starting with
    none held, the [ENTER] writes delivered are, in order, the [ENTER]s answered with [Done],
    each under its own transaction, followed by the one still held, if any: none is lost,
    answered twice, answered before its operation ends, or answered with a fault. *)
Theorem enter_answered_once `{MemClassify} (k : ModeledKernel) (evs : list Delivered) (k' : ModeledKernel) (log : list Effect) :
  mk_held k = None -> handled k [] evs k' log ->
  evs ≫= enter_txn = (log ≫= answered) ++ option_list (mk_held k').
Proof.
  intros Hh Hrun. apply handled_balance in Hrun. rewrite Hh in Hrun. exact Hrun.
Qed.

(** * Examples *)

Definition example_plan : ProcessPlan := mkProcessPlan UserLayout.M3 [example_boot].

Definition example_kernel : ModeledKernel := ModeledKernel.with_source example_config (Source_Plan example_plan).

Definition enter_event : Delivered := Delivered_Message GATE_PORT (Message_MemV1 (WriteReq 7 0 (to_le 4 0x80001000))).

Local Abbreviation step_of ev s := (@handle_event RecCtx recording_context documented_classify ev s).
Local Abbreviation start_log := (mkRecCtx Phase_Request []).

Lemma kernel_reachable_invariant_witness :
  exists k, @reachable RecCtx recording_context documented_classify k /\ mk_held k = Some 7 /\ mk_state k <> State_Idle.
Proof.
  exists (fst (fst (step_of enter_event (example_kernel, start_log)))).
  assert (Hr : @reachable RecCtx recording_context documented_classify (fst (fst (step_of enter_event (example_kernel, start_log))))).
  { apply (reach_event example_kernel start_log enter_event _ (snd (fst (step_of enter_event (example_kernel, start_log))))
      (snd (step_of enter_event (example_kernel, start_log)))); [| split_and!; vm_compute; try discriminate; repeat constructor; discriminate |].
    - apply (reach_processes example_config example_plan); [split_and!; const_range | apply Forall_singleton; const_range | vm_compute; reflexivity].
    - destruct (step_of enter_event (example_kernel, start_log)) as [[? ?] ?]. reflexivity. }
  split; [exact Hr |]. assert (Hh : mk_held (fst (fst (step_of enter_event (example_kernel, start_log)))) = Some 7) by (vm_compute; reflexivity).
  split; [exact Hh |]. apply (kernel_reachable_invariant _ Hr). rewrite Hh. eauto.
Defined.

Lemma kernel_sends_confined_witness :
  exists k ctx k' ctx', step_of (Delivered_Wake ISSUE) (k, ctx) = ((k', ctx'), Ok tt) /\
    Sent MEM_PORT (Message_MemV1 (WriteReq 0 0x80400000 (replicate 16 0))) When_Now Phase_Request ∈ rec_log ctx' /\
    confined (mk_config k) 0x80400000 16.
Proof.
  set (k := fst (fst (step_of enter_event (example_kernel, start_log)))).
  destruct (step_of (Delivered_Wake ISSUE) (k, start_log)) as [[k' ctx'] r] eqn:E.
  assert (Er : r = Ok tt) by (transitivity (snd (step_of (Delivered_Wake ISSUE) (k, start_log))); [rewrite E; reflexivity | vm_compute; reflexivity]).
  assert (El : rec_log ctx' = [Sent MEM_PORT (Message_MemV1 (WriteReq 0 0x80400000 (replicate 16 0))) When_Now Phase_Request])
    by (transitivity (rec_log (snd (fst (step_of (Delivered_Wake ISSUE) (k, start_log))))); [rewrite E; reflexivity | vm_compute; reflexivity]).
  assert (Hg : window_ok (kc_gate (mk_config k))).
  { assert (Eg : kc_gate (mk_config k) = kc_gate example_config) by (vm_compute; reflexivity). rewrite Eg. unfold window_ok. cbn. lia. }
  subst r. clearbody k. exists k, start_log, k', ctx'. split; [exact E |].
  destruct (kernel_sends_confined (H := documented_classify) k (Delivered_Wake ISSUE) start_log ctx' k' (Ok tt) Hg E) as (new & Hn & Hall).
  cbn [rec_log app] in Hn. rewrite El in Hn. rewrite El. split; [left |].
  apply (Hall MEM_PORT (WriteReq 0 0x80400000 (replicate 16 0)) When_Now Phase_Request). rewrite <- Hn. left.
Defined.

(** A refused read, then an [ENTER] that is held. *)
Lemma enter_answered_once_witness :
  exists k' log, handled (H := documented_classify) example_kernel []
      [Delivered_Message GATE_PORT (Message_MemV1 (ReadReq 6 0 4)); enter_event] k' log /\
    [7] = (log ≫= answered) ++ option_list (mk_held k').
Proof.
  set (s1 := step_of (Delivered_Message GATE_PORT (Message_MemV1 (ReadReq 6 0 4))) (example_kernel, start_log)).
  set (s2 := step_of enter_event (fst (fst s1), snd (fst s1))).
  exists (fst (fst s2)), (rec_log (snd (fst s2))).
  assert (Hr : handled (H := documented_classify) example_kernel []
      [Delivered_Message GATE_PORT (Message_MemV1 (ReadReq 6 0 4)); enter_event] (fst (fst s2)) (rec_log (snd (fst s2)))).
  { eapply (handled_event _ _ Phase_Request); [vm_compute; reflexivity |].
    eapply (handled_event _ _ Phase_Request); [vm_compute; reflexivity |]. apply handled_none. }
  split; [exact Hr |]. exact (enter_answered_once (H := documented_classify) example_kernel _ _ _ eq_refl Hr).
Defined.
