(* ===== verification/OsSnapshot.v ===== *)
(** The modeled kernel's snapshot and restore: [components/os/src/kernel.rs] from
    [snapshot] on, the encodings of [config.rs] and [image.rs], and [region_image] of
    [space.rs].

    A restore may reject its bytes or panic; both are modelled. *)
From stdpp Require Import base numbers list option strings gmap sorting.
From Stdlib Require Import ZArith Lia.
From S2P Require Import Prelude Contracts Snapshots Platform Words Elf Text ExecTable OsConfig OsFrames OsSpace OsCore OsSyscall OsProcess OsProcOp OsModel OsKernel.

Local Open Scope string_scope.
Local Open Scope list_scope.
Local Open Scope Z_scope.

Definition PROC_OP_TAG : Z := 2.
Definition PLAN_MARKER : Z := 0xA5.
Definition DISK_MARKER : Z := 0xD5.
(** [u32::MAX], the owner of a frame that is allocated and not claimed yet. *)
Definition UNCLAIMED : Z := 2 ^ 32 - 1.

#[export] Instance Region_eq_dec : EqDecision Region.
Proof. solve_decision. Defined.

(** * Decoded, not yet checked *)

Definition RawCursor : Set := option (list ExecEntry) * Z.

Inductive RawStage : Set :=
| Raw_Create (pid : Z) (frames : list Z)
| Raw_ReadFrame
| Raw_Dispatch (pid : Z) (context : Context)
| Raw_Shutdown (reason : Z)
| Raw_Walk (buffer : Z * Z * Z) (pages : list Z) (table level : Z)
| Raw_Output (buffer : Z * Z * Z) (pages : list Z) (done : Z)
| Raw_Return (sepc value : Z)
| Raw_Command (cursor : RawCursor)
| Raw_Poll (cursor : RawCursor)
| Raw_Ack (cursor : RawCursor) (error : Z)
| Raw_Staged (cursor : RawCursor) (len : Z)
| Raw_Load (cursor : RawCursor) (headers frames : list Z).

Inductive RawOp : Set :=
| RawOp_Proto (op : Op) (step : nat) (data : list Z)
| RawOp_Proc (stage : RawStage) (step : nat) (data : list Z).

(** * Encoding *)

Section encode.
Context `{SnapshotCodec}.

Definition put_window (w : Window) : list Z := put_u64 (w_base w) ++ put_u64 (w_size w).

(** [KernelConfig::encode]. *)
Definition encode_config (c : KernelConfig) : list Z :=
  put_u32 (kc_clock c) ++ put_latency (kc_latency c) ++
  put_window (kc_ram c) ++ put_window (kc_gate c) ++ put_u32 (kc_trap_frame c) ++
  put_window (kc_staging c) ++ put_window (kc_frame_pool c) ++ put_window (kc_blk c) ++ put_u64 (kc_uart_tx c).

Definition put_layout (l : UserLayout) : list Z :=
  put_u32 (user_base l) ++ put_u32 (stack_top l) ++ put_u32 (stack_pages l).

Definition put_page (p : PagePlan) : list Z :=
  put_u32 (pp_va p) ++ put_u8 (perm_bits (pp_perms p)) ++
  match pp_copy p with
  | None => put_u8 0
  | Some c => put_u8 1 ++ put_u32 (fc_file_offset c) ++ put_u32 (fc_page_offset c) ++ put_u32 (fc_len c)
  end.

Definition put_segment (s : UserSegment) : list Z :=
  put_u16 (us_index s) ++ put_u32 (us_vaddr s) ++ put_u32 (us_memsz s) ++ put_u8 (perm_bits (us_perms s)) ++
  put_len (Z.of_nat (length (us_pages s))) ++ (us_pages s ≫= put_page).

Definition put_image (b : BootImage) : list Z :=
  put_u32 (staged b) ++ put_u32 (bi_file_len b) ++ put_u32 (ui_entry (bi_image b)) ++
  put_len (Z.of_nat (length (ui_segments (bi_image b)))) ++ (ui_segments (bi_image b) ≫= put_segment).

(** [ProcessPlan::encode] and [DiskBoot::encode]. *)
Definition encode_plan (p : ProcessPlan) : list Z :=
  put_u8 PLAN_MARKER ++ put_layout (plan_layout p) ++
  put_len (Z.of_nat (length (plan_images p))) ++ (plan_images p ≫= put_image).

Definition encode_disk (d : DiskBoot) : list Z :=
  put_u8 DISK_MARKER ++ put_layout (disk_layout d) ++ put_u32 (capacity_blocks d).

Definition encode_source (s : Source) : list Z :=
  match s with Source_Plan plan => encode_plan plan | Source_Disk disk => encode_disk disk end.

Definition put_exec_entry (e : ExecEntry) : list Z := put_u32 (start_lba e) ++ put_u32 (byte_len e).

Definition encode_cursor (c : Cursor) : list Z :=
  match cu_table c with
  | None => put_u8 0
  | Some t => put_u8 1 ++ put_len (Z.of_nat (length (ExecTable.entries t))) ++ (ExecTable.entries t ≫= put_exec_entry)
  end ++ put_u32 (Z.of_nat (cu_index c)).

Definition encode_buffer (b : Buffer) : list Z := put_u32 (bf_sepc b) ++ put_u32 (bf_buf b) ++ put_u32 (bf_n b).

Definition encode_context (c : Context) : list Z := (cx_regs c ++ [cx_pc c; cx_sstatus c]) ≫= put_u32.

Definition encode_ppns (l : list Z) : list Z := put_len (Z.of_nat (length l)) ++ (l ≫= put_u32).

Definition encode_stage (s : Stage) : list Z :=
  match s with
  | Stage_Create pid space => put_u8 0 ++ put_u32 pid ++ encode_ppns (sp_frames space)
  | Stage_ReadFrame => put_u8 1
  | Stage_Dispatch pid context _ => put_u8 2 ++ put_u32 pid ++ encode_context context
  | Stage_Shutdown reason => put_u8 3 ++ put_u32 reason
  | Stage_Walk buffer pages table level =>
      put_u8 4 ++ encode_buffer buffer ++ encode_ppns pages ++ put_u32 table ++ put_u8 level
  | Stage_Output buffer pages done => put_u8 5 ++ encode_buffer buffer ++ encode_ppns pages ++ put_u32 done
  | Stage_Return sepc value => put_u8 6 ++ put_u32 sepc ++ put_u32 value
  | Stage_Command cursor => put_u8 7 ++ encode_cursor cursor
  | Stage_Poll cursor => put_u8 8 ++ encode_cursor cursor
  | Stage_Ack cursor error => put_u8 9 ++ encode_cursor cursor ++ put_u8 error
  | Stage_Staged cursor len => put_u8 10 ++ encode_cursor cursor ++ put_u32 len
  | Stage_Load cursor headers _ space =>
      put_u8 11 ++ encode_cursor cursor ++ put_bytes headers ++ encode_ppns (sp_frames space)
  end.

Definition put_state (s : ProcState) : list Z :=
  match s with
  | Ready => put_u8 0
  | Running => put_u8 1
  | Exited status => put_u8 2 ++ put_u32 (as_u32 status)
  | Faulted cause epc tval => put_u8 3 ++ put_u32 cause ++ put_u32 epc ++ put_u32 tval
  end.

Definition put_region (r : Region) : list Z :=
  put_u32 (rg_va r) ++ put_u8 (perm_bits (rg_perms r)) ++ encode_ppns (rg_frames r).

Definition put_pcb (p : Pcb) : list Z :=
  put_u32 (pid p) ++ put_state (state p) ++
  match context p with None => put_u8 0 | Some c => put_u8 1 ++ encode_context c end ++
  put_u32 (pcb_root p) ++ encode_ppns (tables p) ++
  put_len (Z.of_nat (length (pcb_regions p))) ++ (pcb_regions p ≫= put_region).

Definition encode_model (m : Model) : list Z :=
  let procs := mo_procs m in
  put_u8 match mo_life m with AwaitBoot => 0 | Up => 1 | Down => 2 end ++
  match mo_source m with Source_Disk _ => put_u32 (Z.of_nat (mo_entries m)) | Source_Plan _ => [] end ++
  put_len (Z.of_nat (length (pcbs procs))) ++ (pcbs procs ≫= put_pcb) ++
  put_len (Z.of_nat (length (queue procs))) ++ (queue procs ≫= put_u32) ++
  match current procs with None => put_u8 0 | Some pid => put_u8 1 ++ put_u32 pid end ++
  put_bytes (Frames.bitmap (pool procs)).

(** The configuration and the source, which a restore compares with its own. *)
Definition encode_kernel_config (k : ModeledKernel) : list Z :=
  encode_config (mk_config k) ++ match mk_model k with Some m => encode_source (mo_source m) | None => [] end.

Definition put_engine (s : OsKernel.State) : list Z :=
  match s with
  | State_Idle => put_u8 0
  | State_Issue _ => put_u8 1
  | State_Wait _ txn => put_u8 2 ++ put_u64 txn
  end.

Definition put_work (w : option Work) : list Z :=
  match w with
  | None => []
  | Some (Work_Proto op) =>
      put_u8 match o_op op with Op_Script => 0 | Op_Shutdown => 1 end ++ put_u32 (Z.of_nat (o_step op)) ++ put_bytes (o_data op)
  | Some (Work_Proc op) =>
      put_u8 PROC_OP_TAG ++ encode_stage (po_stage op) ++ put_u32 (Z.of_nat (po_step op)) ++ put_bytes (po_data op)
  end.

Definition snapshot (k : ModeledKernel) : list Z :=
  encode_kernel_config k ++ put_engine (mk_state k) ++ put_work (ModeledKernel.work k) ++
  match mk_held k with None => put_u8 0 | Some txn => put_u8 1 ++ put_u64 txn end ++
  put_u64 (mk_next_txn k) ++
  match mk_model k with Some m => encode_model m | None => [] end.
End encode.

(** * Decoding *)

Section decode.
Context `{SnapshotCodec}.

Local Abbreviation R := (ST (list Z) RestoreError).

(** [r.remaining()]. *)
Definition remaining : R nat := fun bs => (bs, Ok (length bs)).

Definition count (min_bytes : nat) : R nat :=
  n ← rd get_len;
  rest ← remaining;
  if (rest <? Z.to_nat n * min_bytes)%nat then st_fail (Decode truncated) else mret (Z.to_nat n).

(** [(0..n).map(|_| ..).collect()]. *)
Fixpoint repeat_read {A} (n : nat) (m : R A) : R (list A) :=
  match n with
  | O => mret []
  | S n => a ← m; l ← repeat_read n m; mret (a :: l)
  end.

Definition decode_ppns : R (list Z) := n ← count 4; repeat_read n (rd get_u32).

Definition decode_context : R Context :=
  words ← repeat_read 33 (rd get_u32);
  mret (mkContext (take 31 words) (nth 31 words 0) (nth 32 words 0)).

Definition decode_buffer : R (Z * Z * Z) :=
  sepc ← rd get_u32; buf ← rd get_u32; n ← rd get_u32; mret (sepc, buf, n).

Definition decode_entry : R ExecEntry := lba ← rd get_u32; len ← rd get_u32; mret (mkExecEntry lba len).

Definition decode_cursor : R RawCursor :=
  tag ← rd get_u8;
  table ← (if tag =? 0 then mret None
           else if tag =? 1 then n ← count 8; Some <$> repeat_read n decode_entry
           else bad_tag "modeled kernel boot table" tag);
  index ← rd get_u32;
  mret (table, index).

Definition decode_stage : R RawStage :=
  tag ← rd get_u8;
  if tag =? 0 then pid ← rd get_u32; frames ← decode_ppns; mret (Raw_Create pid frames)
  else if tag =? 1 then mret Raw_ReadFrame
  else if tag =? 2 then pid ← rd get_u32; context ← decode_context; mret (Raw_Dispatch pid context)
  else if tag =? 3 then reason ← rd get_u32; mret (Raw_Shutdown reason)
  else if tag =? 4 then
    buffer ← decode_buffer; pages ← decode_ppns; table ← rd get_u32; level ← rd get_u8;
    mret (Raw_Walk buffer pages table level)
  else if tag =? 5 then
    buffer ← decode_buffer; pages ← decode_ppns; done ← rd get_u32; mret (Raw_Output buffer pages done)
  else if tag =? 6 then sepc ← rd get_u32; value ← rd get_u32; mret (Raw_Return sepc value)
  else if tag =? 7 then cursor ← decode_cursor; mret (Raw_Command cursor)
  else if tag =? 8 then cursor ← decode_cursor; mret (Raw_Poll cursor)
  else if tag =? 9 then cursor ← decode_cursor; error ← rd get_u8; mret (Raw_Ack cursor error)
  else if tag =? 10 then cursor ← decode_cursor; len ← rd get_u32; mret (Raw_Staged cursor len)
  else if tag =? 11 then
    cursor ← decode_cursor; headers ← rd get_bytes; frames ← decode_ppns; mret (Raw_Load cursor headers frames)
  else bad_tag "modeled kernel stage" tag.

Definition decode_op : R RawOp :=
  tag ← rd get_u8;
  if (tag =? 0) || (tag =? 1) then
    step ← rd get_u32; data ← rd get_bytes;
    mret (RawOp_Proto (if tag =? 0 then Op_Script else Op_Shutdown) (Z.to_nat step) data)
  else if tag =? PROC_OP_TAG then
    stage ← decode_stage; step ← rd get_u32; data ← rd get_bytes;
    mret (RawOp_Proc stage (Z.to_nat step) data)
  else bad_tag "modeled kernel operation" tag.

Definition decode_state : R ProcState :=
  tag ← rd get_u8;
  if tag =? 0 then mret Ready
  else if tag =? 1 then mret Running
  else if tag =? 2 then status ← rd get_u32; mret (Exited (as_i32 status))
  else if tag =? 3 then cause ← rd get_u32; epc ← rd get_u32; tval ← rd get_u32; mret (Faulted cause epc tval)
  else bad_tag "modeled kernel process state" tag.

Definition decode_region : R Region :=
  va ← rd get_u32; bits ← rd get_u8;
  perms ← some_or (perms_from_bits bits) (Decode (invalid_tag "modeled kernel perms" bits));
  frames ← decode_ppns;
  mret (mkRegion va perms frames).

Definition decode_pcb : R Pcb :=
  pid ← rd get_u32;
  state ← decode_state;
  tag ← rd get_u8;
  context ← (if tag =? 0 then mret None else if tag =? 1 then Some <$> decode_context
             else bad_tag "modeled kernel context" tag);
  root ← rd get_u32;
  tables ← decode_ppns;
  n ← count 9;
  regions ← repeat_read n decode_region;
  mret (mkPcb pid state context root tables regions).
End decode.

(** * Checking *)

(** [region_image]: the pages of one region, the last page's address threaded. *)
Fixpoint region_pages (lo hi va : Z) (perms : Perms) (last : option Z) (k : list Z) : option (list PagePlan * option Z) :=
  match k with
  | [] => Some ([], last)
  | i :: k =>
      if 2 ^ 32 <=? i * PAGE then None
      else
        a ← checked_add 32 va (i * PAGE);
        if negb (a mod PAGE =? 0) || negb ((lo <=? a) && (a <? hi)) || match last with Some l => a <=? l | None => false end
        then None
        else
          '(pages, last) ← region_pages lo hi va perms (Some a) k;
          Some (mkPagePlan a perms None :: pages, last)
  end.

(** [for (i, r) in segments.iter().enumerate()]. *)
Fixpoint region_segments (lo hi : Z) (i : nat) (last : option Z) (l : list Region) : option (list UserSegment) :=
  match l with
  | [] => Some []
  | r :: l =>
      if bool_decide (rg_frames r = []) || negb (valid_perms (rg_perms r)) then None
      else
        '(pages, last) ← region_pages lo hi (rg_va r) (rg_perms r) last (seqZ 0 (Z.of_nat (length (rg_frames r))));
        if 2 ^ 16 <=? Z.of_nat i then None
        else if 2 ^ 32 <=? Z.of_nat (length pages) * PAGE then None
        else
          segments ← region_segments lo hi (S i) last l;
          Some (mkUserSegment (Z.of_nat i) (rg_va r) (Z.of_nat (length pages) * PAGE) (rg_perms r) pages :: segments)
  end.

Definition region_image (regions : list Region) (layout : UserLayout) : option UserImage :=
  let segments := take (length regions - 1) regions in
  first ← head segments;
  let '(lo, hi) := UserLayout.image_range layout in
  out ← region_segments lo hi 0 None segments;
  Some (mkUserImage (rg_va first) out).

Section check.
Context `{SnapshotCodec}.

(** Why a restore stops: the bytes are rejected, or it panics. *)
Inductive Stop : Type :=
| Rejected (e : RestoreError)
| Panicked (what : string).

Local Abbreviation R := (ST (list Z) RestoreError).
Local Abbreviation K := (ST (list Z) Stop).

Definition from_reader {A} (m : R A) : K A := fun bs => let '(bs, r) := m bs in (bs, map_err Rejected r).
Definition checked {A} (r : result Stop A) : K A := fun bs => (bs, r).
Definition reject {A} (what : string) : result Stop A := Err (Rejected (InvalidState what)).
Definition require (b : bool) (what : string) : result Stop unit := if b then Ok tt else reject what.
Definition or_reject {A} (o : option A) (what : string) : result Stop A := ok_or o (Rejected (InvalidState what)).
(** [None] is a panic. *)
Definition or_panic {A} (o : option A) (what : string) : result Stop A := ok_or o (Panicked what).

Local Abbreviation built_or_panic o := (or_panic o "an address space past its frames").

(** The frames of a PCB, sorted. *)
Definition sorted_frames (p : Pcb) : list Z := sort_by Z.leb (Pcb.frames p).

Definition disk_space (c : KernelConfig) (layout : UserLayout) (p : Pcb) : result Stop (option Space) :=
  match region_image (pcb_regions p) layout with
  | None => Ok None
  | Some image =>
      let boot := mkBootImage (wrap 32 (w_base (kc_staging c))) 0 image in
      let frames := sorted_frames p in
      if (length frames =? frames_needed image layout)%nat && negb (megapage_conflict image c)
      then space ← built_or_panic (Space.build c layout boot frames); Ok (Some space)
      else Ok None
  end.

Definition same_space (p : Pcb) (s : Space) : bool :=
  bool_decide (sp_root s = pcb_root p) && bool_decide (sp_tables s = tables p) && bool_decide (sp_regions s = pcb_regions p).

(** [plan.images.get(pid - 1)]. *)
Definition image_of (plan : ProcessPlan) (pid : Z) : option BootImage :=
  i ← checked_sub pid 1; plan_images plan !! Z.to_nat i.

(** The loop body over the PCBs of [decode_model]. *)
Definition check_pcb (c : KernelConfig) (source : Source) (p : Pcb) : result Stop unit :=
  if ProcState.is_terminal (state p) then Ok tt
  else
    match source with
    | Source_Disk disk =>
        space ← disk_space c (disk_layout disk) p;
        require (match space with Some s => same_space p s | None => false end)
          "modeled kernel: a process's tables or regions are not a creation's"
    | Source_Plan plan =>
        match image_of plan (pid p) with
        | None => reject "modeled kernel: a PID outside the plan"
        | Some boot =>
            let frames := sorted_frames p in
            if negb (length frames =? frames_needed (bi_image boot) (plan_layout plan))%nat || megapage_conflict (bi_image boot) c
            then reject "modeled kernel: a process's frames do not fit its image"
            else
              space ← built_or_panic (Space.build c (plan_layout plan) boot frames);
              require (same_space p space) "modeled kernel: a process's tables or regions are not its image's"
        end
    end.

Fixpoint check_all {A} (f : A -> result Stop unit) (l : list A) : result Stop unit :=
  match l with [] => Ok tt | a :: l => _ ← f a; check_all f l end.

(** [if let Some(o) = .. && *o == u32::MAX { *o = pid }]. *)
Definition claim_frame (base pid : Z) (owners : list Z) (ppn : Z) : list Z :=
  match checked_sub ppn base with
  | Some i => if bool_decide (owners !! Z.to_nat i = Some UNCLAIMED) then <[Z.to_nat i := pid]> owners else owners
  | None => owners
  end.

Definition claim_pcb (base : Z) (owners : list Z) (p : Pcb) : list Z := foldl (claim_frame base (pid p)) owners (Pcb.frames p).

(** What [decode_model] reads, before it checks any of it. *)
Definition decode_parts (source : Source) : R (Life * nat * list Pcb * list Z * option Z * list Z) :=
  tag ← rd get_u8;
  life ← (if tag =? 0 then mret AwaitBoot else if tag =? 1 then mret Up else if tag =? 2 then mret Down
          else bad_tag "modeled kernel life" tag);
  entries ← match source with
            | Source_Plan plan => mret (length (plan_images plan))
            | Source_Disk _ =>
                n ← rd get_u32;
                if (MAX_PROCESSES <? n) || bool_decide (life = AwaitBoot) && negb (n =? 0)
                then invalid "modeled kernel: a table count above the limit or before boot"
                else mret (Z.to_nat n)
            end;
  n ← count 4;
  l ← repeat_read n decode_pcb;
  q ← decode_ppns;
  tag ← rd get_u8;
  cur ← (if tag =? 0 then mret None else if tag =? 1 then Some <$> rd get_u32
         else bad_tag "modeled kernel running PID" tag);
  bits ← rd get_bytes;
  mret (life, entries, l, q, cur, bits).

Definition decode_model (c : KernelConfig) (source : Source) : K Model :=
  '(life, entries, l, q, cur, bits) ← from_reader (decode_parts source);
  let pool := Frames.new (w_base (kc_frame_pool c)) (w_size (kc_frame_pool c)) in
  let n := Frames.count pool in
  checked (
    _ ← require (length bits =? (n + 7) / 8)%nat "modeled kernel: frame bitmap of the wrong size";
    _ ← require (negb (existsb (Frames.bit bits) (seq n (length bits * 8 - n)))) "modeled kernel: frame bitmap bit past the pool";
    let owners := (fun i => if Frames.bit bits i then UNCLAIMED else 0) <$> seq 0 n in
    let owners := foldl (claim_pcb (base pool)) owners l in
    _ ← check_all (check_pcb c source) l;
    Ok (mkModel source entries (mkProcesses l q cur (Frames.from_owners (base pool) owners)) life)).

Definition boot_cursor (c : KernelConfig) (m : Model) (raw : RawCursor) : result Stop Cursor :=
  let '(entries, index) := raw in
  match mo_source m with
  | Source_Plan _ => reject "modeled kernel: a disk boot stage without a disk"
  | Source_Disk disk =>
      if negb (bool_decide (mo_life m = Up)) || bool_decide (is_Some (current (mo_procs m)))
      then reject "modeled kernel: a disk boot stage out of boot"
      else
        match entries with
        | None =>
            if negb (index =? 0) || negb (mo_entries m =? 0)%nat
            then reject "modeled kernel: a block 0 read after the table was counted"
            else Ok Cursor.table
        | Some entries =>
            let table := mkExecTable entries in
            let valid := match ExecTable.encode table with
                         | Ok block =>
                             match parse_exec_table block (capacity_blocks disk) (DiskBoot.staging_size c) with
                             | Ok t => Some t
                             | Err _ => None
                             end
                         | Err _ => None
                         end in
            if negb (bool_decide (valid = Some table)) || negb (mo_entries m =? length entries)%nat
               || (Z.of_nat (length entries) <=? index)
            then reject "modeled kernel: a disk boot stage with a table no boot validated"
            else if existsb (fun p => index <? pid p) (pcbs (mo_procs m))
            then reject "modeled kernel: a disk boot stage out of boot order"
            else Ok (mkCursor (Some table) (Z.to_nat index))
        end
  end.

(** [windows(2).all(|w| w[0] < w[1])]. *)
Fixpoint ascending (l : list Z) : bool :=
  match l with
  | a :: (b :: _) as l => (a <? b) && ascending l
  | _ => true
  end.

(** [find_map]. *)
Fixpoint find_map {A B} (f : A -> option B) (l : list A) : option B :=
  match l with [] => None | a :: l => match f a with Some b => Some b | None => find_map f l end end.

(** [map_while]. *)
Fixpoint map_while {A B} (f : A -> option B) (l : list A) : list B :=
  match l with [] => [] | a :: l => match f a with Some b => b :: map_while f l | None => [] end end.

(** The frame of [va] in a region that is readable there. *)
Definition readable_frame (va : Z) (r : Region) : option Z :=
  off ← checked_sub va (rg_va r);
  frame ← rg_frames r !! Z.to_nat (off / 4096);
  if read (rg_perms r) then Some frame else None.

Definition syscall_space (c : KernelConfig) (m : Model) (raw : Z * Z * Z) : result Stop (Buffer * Space * list Z) :=
  let '(sepc, buf, n) := raw in
  p ← or_reject (pid ← current (mo_procs m); p ← Processes.pcb (mo_procs m) pid; if bool_decide (mo_life m = Up) then Some p else None)
        "modeled kernel: a write with no process running";
  buffer ← or_reject (Buffer.new sepc buf n) "modeled kernel: a write buffer no write produces";
  space ← match mo_source m with
          | Source_Plan plan =>
              boot ← or_panic (image_of plan (pid p)) "index out of bounds";
              built_or_panic (Space.build c (plan_layout plan) boot (sorted_frames p))
          | Source_Disk disk =>
              space ← disk_space c (disk_layout disk) p;
              or_reject space "modeled kernel: a write with no process running"
          end;
  let expected := map_while (fun i => find_map (readable_frame (Buffer.page_va buffer i)) (pcb_regions p)) (seqZ 0 (Buffer.pages buffer)) in
  Ok (buffer, space, expected).

Definition starts_with (l pre : list Z) : bool := bool_decide (take (length pre) l = pre).

Definition check_stage (c : KernelConfig) (m : Model) (raw : RawStage) : result Stop Stage :=
  let procs := mo_procs m in
  let up := bool_decide (mo_life m = Up) in
  match raw with
  | Raw_Create i frames =>
      match mo_source m with
      | Source_Disk _ => reject "modeled kernel: a plan creation without a plan"
      | Source_Plan plan =>
          match image_of plan i with
          | None => reject "modeled kernel: creation of a PID outside the plan"
          | Some boot =>
              if negb up || bool_decide (is_Some (current procs)) || existsb (fun p => i <=? pid p) (pcbs procs)
              then reject "modeled kernel: creation out of boot order"
              else if negb (ascending frames) || negb (length frames =? frames_needed (bi_image boot) (plan_layout plan))%nat
                      || megapage_conflict (bi_image boot) c
              then reject "modeled kernel: creation frames do not fit the image"
              else space ← built_or_panic (Space.build c (plan_layout plan) boot frames); Ok (Stage_Create i space)
          end
      end
  | Raw_Command cursor => cursor ← boot_cursor c m cursor; Ok (Stage_Command cursor)
  | Raw_Poll cursor => cursor ← boot_cursor c m cursor; Ok (Stage_Poll cursor)
  | Raw_Ack cursor error => cursor ← boot_cursor c m cursor; Ok (Stage_Ack cursor error)
  | Raw_Staged cursor len =>
      cursor ← boot_cursor c m cursor;
      entry ← map_err Panicked (Cursor.entry cursor);
      first ← map_err Panicked (Cursor.first_read cursor);
      let reachable := match entry with
                       | None => len =? ExecTable.BLOCK_SIZE
                       | Some e => (first <=? len) && (len <=? byte_len e)
                       end in
      if reachable then Ok (Stage_Staged cursor len) else reject "modeled kernel: a staging read no boot makes"
  | Raw_Load cursor headers frames =>
      cursor ← boot_cursor c m cursor;
      entry ← map_err Panicked (Cursor.entry cursor);
      match entry, mo_source m with
      | Some entry, Source_Disk disk =>
          let '(lo, hi) := UserLayout.image_range (disk_layout disk) in
          match parse_user_elf32 headers (byte_len entry) lo hi with
          | Err _ => reject "modeled kernel: a load whose headers do not parse"
          | Ok image =>
              if negb (ascending frames) || negb (length frames =? frames_needed image (disk_layout disk))%nat || megapage_conflict image c
              then reject "modeled kernel: load frames do not fit the image"
              else
                let boot := mkBootImage (wrap 32 (w_base (kc_staging c))) (byte_len entry) image in
                space ← built_or_panic (Space.build c (disk_layout disk) boot frames);
                Ok (Stage_Load cursor headers image space)
          end
      | _, _ => reject "modeled kernel: a load before the table"
      end
  | Raw_ReadFrame =>
      if negb up || bool_decide (current procs = None) then reject "modeled kernel: frame read with no process running"
      else Ok Stage_ReadFrame
  | Raw_Dispatch i context =>
      if negb up || negb (bool_decide (current procs = Some i)) then reject "modeled kernel: dispatch of a process that is not running"
      else
        let root := match Processes.pcb procs i with Some p => pcb_root p | None => 0 end in
        Ok (Stage_Dispatch i context (Pte.satp root))
  | Raw_Shutdown reason =>
      if negb (bool_decide (mo_life m = Down)) || (1 <? reason) then reject "modeled kernel: a shutdown that was not decided"
      else Ok (Stage_Shutdown reason)
  | Raw_Walk buffer pages table level =>
      '(buffer, space, expected) ← syscall_space c m buffer;
      let va := Buffer.page_va buffer (Z.of_nat (length pages)) in
      let table_ok := if level =? 1 then table =? sp_root space
                      else if level =? 0 then bool_decide (Space.table_for space va = Some table)
                      else false in
      if (Buffer.pages buffer <=? Z.of_nat (length pages)) || negb (starts_with expected pages) || negb table_ok
      then reject "modeled kernel: a walk that is not the running process's mapping"
      else Ok (Stage_Walk buffer pages table level)
  | Raw_Output buffer pages done =>
      '(buffer, _, expected) ← syscall_space c m buffer;
      if negb (bool_decide (pages = expected)) || negb (bool_decide (Buffer.is_chunk_start buffer done = Some true))
      then reject "modeled kernel: output that is not the running process's buffer"
      else Ok (Stage_Output buffer pages done)
  | Raw_Return sepc value =>
      if negb up || bool_decide (current procs = None) then reject "modeled kernel: a syscall return with no process running"
      else Ok (Stage_Return sepc value)
  end.

Definition proc_op (c : KernelConfig) (m : Model) (raw : RawStage) (step : nat) (data : list Z) : result Stop ProcOp :=
  stage ← check_stage c m raw;
  or_reject (ProcOp.from_parts c stage step data) "modeled kernel: operation step or working data not reachable".

(** The creation in flight. *)
Definition in_flight (w : option Work) : option (Z * list Z) :=
  match w with
  | Some (Work_Proc op) =>
      match po_stage op with
      | Stage_Create i space => Some (i, sp_frames space)
      | Stage_Load cursor _ _ space => Some (Cursor.pid cursor, sp_frames space)
      | _ => None
      end
  | _ => None
  end.

(** [for &ppn in frames]: each frame is allocated and not claimed, and now the creation's. *)
Fixpoint claim_creation (base pid : Z) (owners frames : list Z) : result Stop (list Z) :=
  match frames with
  | [] => Ok owners
  | ppn :: frames =>
      i ← or_reject (i ← checked_sub ppn base; if bool_decide (owners !! Z.to_nat i = Some UNCLAIMED) then Some (Z.to_nat i) else None)
            "modeled kernel: a creation frame not marked allocated";
      claim_creation base pid (<[i := pid]> owners) frames
  end.

(** The last frame is in the pool, or [base]: [last - base] does not underflow. *)
Definition claim_in_flight (base : Z) (owners : list Z) (creating : option (Z * list Z)) : result Stop (list Z) :=
  match creating with
  | None => Ok owners
  | Some (i, frames) =>
      owners ← claim_creation base i owners frames;
      let last := default base (last frames) in
      _ ← require (negb (mem_Z 0 (take (Z.to_nat (last - base)) owners))) "modeled kernel: creation frames are not the lowest free ones";
      Ok owners
  end.

Definition check_life (m : Model) (w : option Work) : result Stop Model :=
  let procs := mo_procs m in
  let creating := in_flight w in
  let b := base (pool procs) in
  let owners := (fun i => default 0 (Frames.owner (pool procs) (b + Z.of_nat i))) <$> seq 0 (Frames.count (pool procs)) in
  owners ← claim_in_flight b owners creating;
  _ ← require (negb (mem_Z UNCLAIMED owners)) "modeled kernel: an allocated frame no live process owns";
  let checked := mkProcesses (pcbs procs) (queue procs) (current procs) (Frames.from_owners b owners) in
  _ ← map_err (fun v => Rejected (InvalidState v)) (Processes.check checked (Z.of_nat (mo_entries m)) creating);
  _ ← match mo_life m, w with
      | AwaitBoot, Some _ => reject "modeled kernel: an operation before boot"
      | AwaitBoot, None => require (bool_decide (pcbs procs = [])) "modeled kernel: processes before boot"
      | Up, None => require (bool_decide (is_Some (current procs))) "modeled kernel: idle after boot with no process running"
      | _, _ => Ok tt
      end;
  Ok (mkModel (mo_source m) (mo_entries m) checked (mo_life m)).

(** The operation of [raw], checked against the model. *)
Definition check_work (c : KernelConfig) (m : option Model) (raw : option RawOp) : result Stop (option Work) :=
  match raw, m with
  | None, _ => Ok None
  | Some (RawOp_Proto op step data), None =>
      o ← or_reject (Operation.from_parts c op step data) "modeled kernel: operation step or working data not reachable";
      Ok (Some (Work_Proto o))
  | Some (RawOp_Proc stage step data), Some m => o ← proc_op c m stage step data; Ok (Some (Work_Proc o))
  | _, _ => reject "modeled kernel: operation of the other mode"
  end.

(** The access of a restored operation is on the whitelist. *)
Definition check_access (c : KernelConfig) (w : option Work) : result Stop unit :=
  match w with
  | None => Ok tt
  | Some w =>
      due ← map_err Panicked (Work.access c w);
      a ← or_panic due "from_parts checked the step";
      require (KernelConfig.permits c (Access.addr a) (Access.len a)) "modeled kernel: pending access outside the whitelist"
  end.

(** What [restore] reads before the model: the outstanding transaction, the operation, the held
    [ENTER] and the next transaction. *)
Definition restore_engine (k : ModeledKernel) : R (option Z * option RawOp * option Z * Z) :=
  expect_raw (encode_kernel_config k) "modeled kernel: snapshot has a different config";;
  tag ← rd get_u8;
  outstanding ← (if (tag =? 0) || (tag =? 1) then mret None
                 else if tag =? 2 then Some <$> rd get_u64
                 else bad_tag "modeled kernel state" tag);
  raw ← (if tag =? 0 then mret None else Some <$> decode_op);
  h ← rd get_u8;
  held ← (if h =? 0 then mret None else if h =? 1 then Some <$> rd get_u64 else bad_tag "modeled kernel held ENTER" h);
  next ← rd get_u64;
  mret (outstanding, raw, held, next).

Definition restore (k : ModeledKernel) : K ModeledKernel :=
  let c := mk_config k in
  '(outstanding, raw, held, next) ← from_reader (restore_engine k);
  model ← match mk_model k with
          | None => mret None
          | Some m => Some <$> decode_model c (mo_source m)
          end;
  checked (
    work ← check_work c model raw;
    _ ← require (Bool.eqb (bool_decide (is_Some held)) (bool_decide (is_Some work)))
          "modeled kernel: a held ENTER without an operation, or the reverse";
    _ ← check_access c work;
    _ ← require (match outstanding with Some txn => bool_decide (checked_sub next 1 = Some txn) | None => true end)
          "modeled kernel: outstanding txn is not the latest issued";
    model ← match model with None => Ok None | Some m => m ← check_life m work; Ok (Some m) end;
    let state := match work, outstanding with
                 | None, _ => State_Idle
                 | Some w, None => State_Issue w
                 | Some w, Some txn => State_Wait w txn
                 end in
    Ok (mkModeledKernel c state held next (match model with Some m => Some m | None => mk_model k end))).
End check.
