(* ===== verification/OsSnapshotProofs.v ===== *)
(** The modeled kernel's restore.

    Proved: whatever bytes a restore accepts, the kernel it leaves satisfies the kernel's
    invariant, with one exception, a [write] in progress whose buffer is not all mapped, which
    the restore does not notice; and a restore of damaged bytes can panic. *)
From stdpp Require Import base numbers list option strings gmap sorting.
From Stdlib Require Import ZArith Lia.
From S2P Require Import Prelude Contracts Handlers Snapshots Platform Words Elf Text ExecTable OsConfig OsFrames OsSpace OsCore OsSyscall OsProcess OsProcOp OsModel OsModelProofs OsStages OsTrap OsSwitch OsKernel OsKernelProofs OsSnapshot.

Local Open Scope string_scope.
Local Open Scope list_scope.
Local Open Scope Z_scope.

(** * What a restore accepts *)

Section accepts.
Context `{SnapshotCodec}.

Local Abbreviation R := (ST (list Z) RestoreError).
Local Abbreviation K := (ST (list Z) Stop).

(** Whatever bytes [m] reads, a value it returns satisfies [P]. *)
Definition accepts {A} (m : K A) (P : A -> Prop) : Prop :=
  forall bs, bytes_ok bs -> wp m (fun a r => P a /\ bytes_ok r) (fun _ _ => True) bs.

Lemma accepts_bind {A B} (m : K A) (f : A -> K B) P Q :
  accepts m P -> (forall a, P a -> accepts (f a) Q) -> accepts (mbind (M := K) f m) Q.
Proof.
  intros Hm Hf bs Hbs. apply wp_bind. eapply wp_mono; [apply Hm, Hbs | |auto].
  cbn. intros a r [Ha Hr]. apply Hf; assumption.
Qed.

Lemma accepts_ret {A} (a : A) (P : A -> Prop) : P a -> accepts (mret a : K A) P.
Proof. intros Ha bs Hbs. apply wp_ret. auto. Qed.

Lemma accepts_reader {A} (m : R A) P : yields m P -> accepts (from_reader m) P.
Proof.
  intros Hm bs Hbs. specialize (Hm bs Hbs). unfold wp, from_reader in *. destruct (m bs) as [r [a|e]]; cbn; auto.
Qed.

Lemma accepts_checked {A} (r : result Stop A) : accepts (checked r) (fun a => r = Ok a).
Proof. intros bs Hbs. unfold wp, checked. destruct r; auto. Qed.

Lemma accepts_mono {A} (m : K A) (P Q : A -> Prop) : (forall a, P a -> Q a) -> accepts m P -> accepts m Q.
Proof. intros HPQ Hm bs Hbs. eapply wp_mono; [apply Hm, Hbs | |auto]. cbn. intros a r [? ?]. auto. Qed.

(** ** The readers *)

Lemma yields_fmap {A B} (f : A -> B) (m : R A) P : yields m P -> yields (f <$> m) (fun b => exists a, b = f a /\ P a).
Proof. intros Hm. eapply yields_bind; [exact Hm |]. intros a Ha. apply yields_ret. eauto. Qed.

Lemma yields_count k : yields (count k) (fun _ => True).
Proof.
  eapply yields_bind; [apply yields_len |]. intros n _ bs Hbs. apply wp_bind. unfold wp at 1, remaining. cbv beta iota.
  case_if; [exact I | apply wp_ret; auto].
Qed.

Lemma yields_repeat {A} (m : R A) P n : yields m P -> yields (repeat_read n m) (fun l => length l = n /\ Forall P l).
Proof.
  intros Hm. induction n as [|n IH]; cbn [repeat_read]; [apply yields_ret; auto |].
  eapply yields_bind; [exact Hm |]. intros a Ha. eapply yields_bind; [exact IH |]. intros l [Hl Hall].
  apply yields_ret. cbn. auto.
Qed.

Lemma yields_ppns : yields decode_ppns (Forall (in_u 32)).
Proof.
  eapply yields_bind; [apply yields_count |]. intros n _. eapply yields_mono; [|apply yields_repeat, yields_u32]. cbn. tauto.
Qed.

Lemma yields_context : yields decode_context (fun c => length (cx_regs c) = 31%nat).
Proof.
  eapply yields_bind; [apply yields_repeat, yields_u32 |]. intros l [Hl _]. apply yields_ret. cbn. rewrite length_take, Hl. reflexivity.
Qed.

(** ** What a reader of a tag accepts *)

Lemma yields_tag {A} (b : bool) (m n : R A) P : yields m P -> yields n P -> yields (if b then m else n) P.
Proof. destruct b; auto. Qed.

Lemma yields_bad {A} what tag (P : A -> Prop) : yields (bad_tag what tag : R A) P.
Proof. apply yields_fail. Qed.

Lemma yields_any {A} (m : R A) P : yields m P -> yields m (fun _ => True).
Proof. apply yields_mono. auto. Qed.

Lemma yields_buffer : yields decode_buffer (fun _ => True).
Proof. unfold decode_buffer. do 3 (eapply yields_bind; [apply yields_u32 | intros ? _]). apply yields_ret. exact I. Qed.

Lemma yields_entry : yields decode_entry (fun _ => True).
Proof. unfold decode_entry. do 2 (eapply yields_bind; [apply yields_u32 | intros ? _]). apply yields_ret. exact I. Qed.

Lemma yields_cursor : yields decode_cursor (fun r => in_u 32 (snd r)).
Proof.
  eapply yields_bind; [apply yields_u8 |]. intros tag _. eapply yields_bind with (P := fun _ => True).
  - apply yields_tag; [apply yields_ret; exact I |]. apply yields_tag; [|apply yields_bad].
    eapply yields_bind; [apply yields_count |]. intros n _. eapply yields_any, yields_fmap, yields_repeat, yields_entry.
  - intros t _. eapply yields_bind; [apply yields_u32 |]. intros i Hi. apply yields_ret. exact Hi.
Qed.

(** The types of a decoded stage. *)
Definition raw_ok (s : RawStage) : Prop :=
  match s with
  | Raw_Create pid _ => 0 <= pid
  | Raw_Dispatch _ cx => length (cx_regs cx) = 31%nat
  | Raw_Shutdown reason => 0 <= reason
  | Raw_Output _ _ done => 0 <= done
  | Raw_Command cursor | Raw_Poll cursor => 0 <= snd cursor
  | Raw_Ack cursor error => 0 <= snd cursor /\ in_u 8 error
  | Raw_Staged cursor _ => 0 <= snd cursor
  | Raw_Load cursor headers _ => 0 <= snd cursor /\ bytes_ok headers
  | _ => True
  end.

Definition raw_op_ok (o : RawOp) : Prop :=
  match o with RawOp_Proto _ _ _ => True | RawOp_Proc stage _ data => raw_ok stage /\ bytes_ok data end.

Local Ltac read := eapply yields_bind;
  [first [apply yields_u8 | apply yields_u32 | apply yields_bytes | apply yields_buffer | apply yields_cursor | apply yields_ppns | apply yields_context
         | apply yields_count] |]; let v := fresh "v" in let Hv := fresh "Hv" in intros v Hv; cbv beta in Hv.

Lemma yields_stage : yields decode_stage raw_ok.
Proof.
  unfold decode_stage. read.
  repeat (apply yields_tag; [repeat read; apply yields_ret; cbn; unfold in_u in *; intuition lia |]). apply yields_bad.
Qed.

Lemma yields_op : yields decode_op raw_op_ok.
Proof.
  unfold decode_op. read. apply yields_tag; [repeat read; apply yields_ret; exact I |]. apply yields_tag; [|apply yields_bad].
  eapply yields_bind; [apply yields_stage |]. intros st Hst. repeat read. apply yields_ret. split; [exact Hst | tauto].
Qed.

Lemma yields_state : yields decode_state (fun _ => True).
Proof.
  unfold decode_state. read. repeat (apply yields_tag; [repeat read; apply yields_ret; exact I |]). apply yields_bad.
Qed.

Lemma yields_pcb_region : yields decode_region (fun _ => True).
Proof.
  unfold decode_region. do 2 read. eapply yields_bind; [apply yields_some |]. intros perms _. read. apply yields_ret. exact I.
Qed.

Definition regs_ok (p : Pcb) : Prop := forall cx, context p = Some cx -> length (cx_regs cx) = 31%nat.

Lemma yields_pcb : yields decode_pcb regs_ok.
Proof.
  unfold decode_pcb. read. eapply yields_bind; [apply yields_state |]. intros st _. read.
  eapply yields_bind with (P := fun o => forall cx, o = Some cx -> length (cx_regs cx) = 31%nat).
  - apply yields_tag; [apply yields_ret; discriminate |]. apply yields_tag; [|apply yields_bad].
    eapply yields_mono; [|apply yields_fmap, yields_context]. intros o (cx & -> & Hcx) cx' [= <-]. exact Hcx.
  - intros o Ho. do 3 read. eapply yields_bind; [apply yields_repeat, yields_pcb_region |]. intros l _. apply yields_ret. exact Ho.
Qed.

(** A decoded model, before [check_life]. *)
Definition decoded_ok (source : Source) (m : Model) : Prop :=
  mo_source m = source /\ contexts_ok (mo_procs m) /\
  match source with
  | Source_Plan plan => mo_entries m = length (plan_images plan)
  | Source_Disk _ => (mo_entries m <= ExecTable.MAX_ENTRIES)%nat /\ (mo_life m = AwaitBoot -> mo_entries m = O)
  end.

Lemma yields_entries source life :
  yields (match source with
          | Source_Plan plan => mret (length (plan_images plan))
          | Source_Disk _ =>
              n ← rd get_u32;
              if (MAX_PROCESSES <? n) || bool_decide (life = AwaitBoot) && negb (n =? 0)
              then invalid "modeled kernel: a table count above the limit or before boot"
              else mret (Z.to_nat n)
          end : R nat)
    (fun n => match source with
              | Source_Plan plan => n = length (plan_images plan)
              | Source_Disk _ => (n <= ExecTable.MAX_ENTRIES)%nat /\ (life = AwaitBoot -> n = O)
              end).
Proof.
  destruct source; [apply yields_ret; reflexivity |]. read. destruct (_ || _) eqn:E; [apply yields_fail |]. apply yields_ret. unbool.
  unfold MAX_PROCESSES, ExecTable.MAX_ENTRIES in *. split; [lia |]. intros ->. rewrite bool_decide_eq_true_2 in * by reflexivity. unbool. lia.
Qed.

Lemma accepts_decode_model c source : accepts (decode_model c source) (decoded_ok source).
Proof.
  eapply accepts_bind with (P := fun '(life, entries, l, q, cur, bits) =>
    Forall regs_ok l /\ match source with
                        | Source_Plan plan => entries = length (plan_images plan)
                        | Source_Disk _ => (entries <= ExecTable.MAX_ENTRIES)%nat /\ (life = AwaitBoot -> entries = O)
                        end).
  - apply accepts_reader. unfold decode_parts. read. eapply yields_bind with (P := fun _ => True).
    { repeat (apply yields_tag; [apply yields_ret; exact I |]). apply yields_bad. }
    intros life _. eapply yields_bind; [apply yields_entries |]. intros n Hn. read.
    eapply yields_bind; [apply yields_repeat, yields_pcb |]. intros l [_ Hl]. do 2 read. eapply yields_bind with (P := fun _ => True).
    { apply yields_tag; [apply yields_ret; exact I |]. apply yields_tag; [eapply yields_any, yields_fmap, yields_u32 | apply yields_bad]. }
    intros cur _. read. apply yields_ret. auto.
  - intros [[[[[life entries] l] q] cur] bits] [Hl He]. eapply accepts_mono; [|apply accepts_checked].
    intros m E. do 3 (apply bind_Ok_inv in E as ([] & _ & E)). injection E as <-. split; [reflexivity |]. split; [exact Hl | exact He].
Qed.
End accepts.

(** * What the checks establish *)

Section checks.
Context `{SnapshotCodec} (c : KernelConfig).

Local Ltac unnat :=
  repeat match goal with
  | H : (_ =? _)%nat = true |- _ => apply Nat.eqb_eq in H
  | H : (_ <=? _)%nat = true |- _ => apply Nat.leb_le in H
  | H : (_ <? _)%nat = true |- _ => apply Nat.ltb_lt in H
  end.

Lemma require_accepts b what : require b what = Ok tt -> b = true.
Proof. destruct b; [reflexivity | discriminate]. Qed.

Lemma or_reject_Ok {A} (o : option A) what a : or_reject o what = Ok a -> o = Some a.
Proof. destruct o; cbn; congruence. Qed.

Lemma or_panic_Ok {A} (o : option A) what a : or_panic o what = Ok a -> o = Some a.
Proof. destruct o; cbn; congruence. Qed.

(** An encoded table is a block of bytes. *)
Lemma encoded_block t block : ExecTable.encode t = Ok block -> bytes_ok block /\ Z.of_nat (length block) = ExecTable.BLOCK_SIZE.
Proof.
  intros E. assert (Hn : (1 <= length (entries t) <= ExecTable.MAX_ENTRIES)%nat).
  { unfold ExecTable.encode in E. destruct (negb _) eqn:Eb; [discriminate |]. unbool; unnat. lia. }
  rewrite encode_words in E by exact Hn. assert (Eb : block = table_words t ≫= to_le 4) by congruence. rewrite Eb. split.
  - apply Forall_bind, Forall_forall. intros w _. apply to_le_ok.
  - rewrite length_words, length_table_words by lia. reflexivity.
Qed.

Lemma boot_cursor_ok m raw cu :
  boot_cursor c m raw = Ok cu -> 0 <= snd raw ->
  Forall (fun p => 1 <= pid p <= Z.of_nat (mo_entries m)) (pcbs (mo_procs m)) -> cursor_ok c m cu.
Proof.
  destruct raw as [es0 index]. cbn [snd]. intros E Hi Hr. unfold boot_cursor in E. destruct (mo_source m) as [|disk] eqn:Es; [discriminate |].
  destruct (_ || _) eqn:Eb; [discriminate |]. apply orb_false_iff in Eb as [Eu Ec]. apply negb_false_iff, bool_decide_eq_true in Eu.
  apply bool_decide_eq_false, eq_None_not_Some in Ec. rewrite Forall_forall in Hr. destruct es0 as [es|].
  - destruct (_ || _) eqn:Eb in E; [discriminate |]. destruct (existsb _ _) eqn:Ex in E; [discriminate |]. injection E as <-.
    apply orb_false_iff in Eb as [Eb El]. apply orb_false_iff in Eb as [Ev En]. apply negb_false_iff, bool_decide_eq_true in Ev. unbool; unnat.
    split; [split; assumption |]. split.
    + intros p Hp. unfold Cursor.pid. cbn [cu_index]. rewrite Z2Nat.id by lia.
      destruct (Z.ltb_spec index (pid p)) as [Hlt|]; [|lia]. apply not_true_iff_false in Ex. destruct Ex.
      apply existsb_exists. exists p. split; [apply list_elem_of_In, Hp | apply Z.ltb_lt, Hlt].
    + exists disk. cbn [cu_table cu_index entries]. split; [exact Es |]. split; [|split; [assumption | lia]].
      destruct (ExecTable.encode _) as [block|] eqn:Ee in Ev; [|discriminate]. destruct (parse_exec_table _ _ _) as [t|] eqn:Ep in Ev; [|discriminate].
      injection Ev as ->. destruct (encoded_block _ _ Ee). eapply parse_table_ok; eauto.
  - destruct (_ || _) eqn:Eb in E; [discriminate |]. injection E as <-. unbool; unnat. split; [split; assumption |]. split.
    + intros p Hp. specialize (Hr p Hp). lia.
    + exists disk. cbn. auto.
Qed.

(** The exception: the output of a write whose buffer is not all mapped. *)
Definition short_output (s : Stage) : Prop :=
  match s with Stage_Output b pages _ => Z.of_nat (length pages) < Buffer.pages b | _ => False end.

Lemma map_while_length {A B} (f : A -> option B) l : (length (map_while f l) <= length l)%nat.
Proof. induction l as [|a l IH]; cbn; [lia |]. destruct (f a); cbn; lia. Qed.

Lemma syscall_space_ok m raw b space expected :
  syscall_space c m raw = Ok (b, space, expected) ->
  running m /\ buffer_ok b /\ Z.of_nat (length expected) <= Buffer.pages b.
Proof.
  destruct raw as [[sepc buf] n]. unfold syscall_space. intros E. apply bind_Ok_inv in E as (p & Hp & E). apply or_reject_Ok in Hp.
  apply bind_Ok_inv in E as (b' & Hb & E). apply or_reject_Ok in Hb. apply bind_Ok_inv in E as (s' & _ & [= <- _ <-]).
  apply bind_Some in Hp as (i & Hi & Hp). apply bind_Some in Hp as (p' & _ & Hp). case_bool_decide as Hup; [|discriminate].
  assert (Hpg : 0 <= Buffer.pages b' /\ buffer_ok b').
  { unfold Buffer.new in Hb. destruct (_ && _) eqn:Eb; [|discriminate]. injection Hb as <-. split; [|unfold buffer_ok, Buffer.new; cbn; rewrite Eb; reflexivity].
    unbool. unfold Buffer.pages, PAGE. cbn. Z.div_mod_to_equations. lia. }
  split; [split; [exact Hup | rewrite Hi; eauto] |]. split; [apply Hpg |].
  etransitivity; [apply inj_le, map_while_length |]. rewrite length_seqZ. lia.
Qed.

Lemma chunk_start_bound fuel b done : forall at_,
  Buffer.is_chunk_start_loop fuel b done at_ = Some true -> done < bf_n b.
Proof.
  induction fuel as [|fuel IH]; intros at_; cbn [Buffer.is_chunk_start_loop]; destruct (Z.leb_spec (bf_n b) at_); try discriminate;
    destruct (Z.eqb_spec at_ done); try discriminate; try lia. apply IH.
Qed.

(** The address space a restore builds for a creation in flight. *)
Lemma restored_space layout boot frames space :
  buildable layout (bi_image boot) -> length frames = frames_needed (bi_image boot) layout ->
  Space.build c layout boot frames = Some space -> built c layout boot space.
Proof.
  intros Hb Hl E. destruct (build_ok c layout boot frames Hb Hl) as (s' & E' & _ & Hs). rewrite E in E'. injection E' as ->. exact Hs.
Qed.

Section stage.
Context (m : Model).
Hypothesis Hsource : source_ok c (mo_source m).
Hypothesis Hrange : Forall (fun p => 1 <= pid p <= Z.of_nat (mo_entries m)) (pcbs (mo_procs m)).

Lemma image_of_ok plan i boot :
  image_of plan i = Some boot -> 1 <= i /\ plan_images plan !! (Z.to_nat i - 1)%nat = Some boot /\ boot ∈ plan_images plan.
Proof.
  unfold image_of, checked_sub. destruct (Z.leb_spec 1 i) as [Hi|]; [|discriminate]. cbn [mbind option_bind]. intros E.
  split; [exact Hi |]. split; [|eapply list_elem_of_lookup_2, E]. rewrite <- E. f_equal. lia.
Qed.

Lemma create_restored i frames s :
  check_stage c m (Raw_Create i frames) = Ok s -> stage_ok c m s.
Proof.
  cbn [check_stage]. destruct (mo_source m) as [plan|] eqn:Es; [|discriminate]. destruct (image_of plan i) as [boot|] eqn:Ei; [|discriminate].
  destruct (image_of_ok _ _ _ Ei) as (Hi & Hboot & Hin).
  destruct (_ || _) eqn:Eb; [discriminate |]. apply orb_false_iff in Eb as [Eb Ex]. unbool.
  destruct (_ || _) eqn:Ef; [discriminate |]. unbool; unnat. intros E. apply bind_Ok_inv in E as (space & Hs & [= <-]). apply or_panic_Ok in Hs.
  split; [split; [assumption | apply eq_None_not_Some; assumption] |]. split.
  { intros p Hp. destruct (Z.ltb_spec (pid p) i); [assumption |]. apply not_true_iff_false in Ex. destruct Ex.
    apply existsb_exists. exists p. split; [apply list_elem_of_In, Hp | apply Z.leb_le; lia]. }
  split; [exact Hi |]. exists plan, boot. split; [exact Es |]. split; [exact Hboot |].
  eapply restored_space; eauto. eapply plan_buildable; [exact Hsource | exact Hin].
Qed.

Lemma load_restored cursor headers frames s :
  0 <= snd cursor -> bytes_ok headers -> check_stage c m (Raw_Load cursor headers frames) = Ok s -> stage_ok c m s.
Proof.
  intros Hi Hb E. cbn [check_stage] in E. apply bind_Ok_inv in E as (cu & Hcu & E). apply boot_cursor_ok in Hcu; auto.
  apply bind_Ok_inv in E as (e & He & E). destruct (cu_table cu) as [t|] eqn:Et.
  2:{ unfold Cursor.entry in He. rewrite Et in He. injection He as <-. discriminate. }
  destruct (cursor_entry c m cu t Hcu Et) as (e' & Ee & Hin). rewrite Ee in He. injection He as <-.
  pose proof Hcu as (_ & _ & disk & Es & Hc). rewrite Et in Hc. destruct Hc as ((_ & Hr & _) & _).
  rewrite Forall_forall in Hr. destruct (Hr e' Hin) as [_ Hlen]. rewrite Es in E, Hsource.
  destruct (UserLayout.image_range (disk_layout disk)) as [lo hi] eqn:Er.
  destruct (parse_user_elf32 headers (byte_len e') lo hi) as [image|] eqn:Ep; [|discriminate].
  destruct (_ || _) eqn:Ef in E; [discriminate |]. unbool; unnat. apply bind_Ok_inv in E as (space & Hs & [= <-]). apply or_panic_Ok in Hs.
  split; [exact Hcu |]. exists t, (mkBootImage (wrap 32 (w_base (kc_staging c))) (byte_len e') image). split; [exact Et |]. split; [reflexivity |].
  rewrite Es. eapply restored_space; [|eassumption | exact Hs].
  eapply disk_buildable; [exact Hsource | exact Hb | exact Hlen |]. rewrite Er. exact Ep.
Qed.

Lemma staged_restored cursor len s :
  0 <= snd cursor -> check_stage c m (Raw_Staged cursor len) = Ok s -> stage_ok c m s.
Proof.
  intros Hi E. cbn [check_stage] in E. apply bind_Ok_inv in E as (cu & Hcu & E). apply boot_cursor_ok in Hcu; auto.
  apply bind_Ok_inv in E as (e & He & E). apply bind_Ok_inv in E as (first & Hf & E).
  destruct (first_read_ok c m cu Hcu) as (len' & El & Hpos & Hnone). rewrite El in Hf. injection Hf as <-.
  destruct (cu_table cu) as [t|] eqn:Et.
  - destruct (cursor_entry c m cu t Hcu Et) as (e' & Ee & _). rewrite Ee in He. injection He as <-.
    destruct (_ && _) eqn:Eb in E; [|discriminate]. injection E as <-. unbool. split; [exact Hcu |]. split; [lia | congruence].
  - unfold Cursor.entry in He. rewrite Et in He. injection He as <-. destruct (_ =? _) eqn:Eb in E; [|discriminate].
    injection E as <-. unbool. subst len. split; [exact Hcu |]. split; [discriminate | auto].
Qed.

Lemma check_stage_ok raw s : raw_ok raw -> check_stage c m raw = Ok s -> stage_ok c m s \/ short_output s.
Proof.
  intros Hraw E. destruct raw as [i frames| |i cx|reason|b pages table level|b pages done|sepc value|cu|cu|cu error|cu len|cu headers frames]; cbn [raw_ok] in Hraw.
  - left. eapply create_restored, E.
  - left. cbn in E. destruct (_ || _) eqn:Eb in E; [discriminate |]. injection E as <-. unbool.
    split; [assumption |]. apply not_eq_None_Some. assumption.
  - left. cbn in E. destruct (_ || _) eqn:Eb in E; [discriminate |]. injection E as <-. unbool. split_and!; assumption.
  - left. cbn in E. destruct (_ || _) eqn:Eb in E; [discriminate |]. injection E as <-. unbool. split; [assumption | lia].
  - left. cbn in E. apply bind_Ok_inv in E as ([[b' space] expected] & Hs & E). apply syscall_space_ok in Hs as (Hr & Hb & _).
    destruct (_ || _) eqn:Eb in E; [discriminate |]. injection E as <-. apply orb_false_iff in Eb as [Eb Et]. unbool.
    split_and!; auto. destruct (Z.eqb_spec level 1); [auto |]. destruct (Z.eqb_spec level 0); [auto | discriminate].
  - cbn in E. apply bind_Ok_inv in E as ([[b' space] expected] & Hs & E). apply syscall_space_ok in Hs as (Hr & Hb & Hp).
    destruct (_ || _) eqn:Eb in E; [discriminate |]. injection E as <-. unbool. subst pages.
    destruct (Z.eq_dec (Z.of_nat (length expected)) (Buffer.pages b')) as [El|El]; [left | right; cbn; lia].
    split_and!; auto. eapply chunk_start_bound. eassumption.
  - left. cbn in E. destruct (_ || _) eqn:Eb in E; [discriminate |]. injection E as <-. unbool.
    split; [assumption |]. apply not_eq_None_Some. assumption.
  - left. apply bind_Ok_inv in E as (cu' & Hc & [= <-]). eapply boot_cursor_ok; eauto.
  - left. apply bind_Ok_inv in E as (cu' & Hc & [= <-]). eapply boot_cursor_ok; eauto.
  - left. apply bind_Ok_inv in E as (cu' & Hc & [= <-]). destruct Hraw. split; [eapply boot_cursor_ok; eauto | assumption].
  - left. eapply staged_restored; eauto.
  - left. destruct Hraw. eapply load_restored; eauto.
Qed.
End stage.

Lemma check_stage_pid m raw s :
  raw_ok raw -> check_stage c m raw = Ok s -> match creating s with Some (i, _) => 0 <= i | None => True end.
Proof.
  intros Hraw E. destruct raw; cbn [check_stage raw_ok] in *;
    repeat first [apply bind_Ok_inv in E as (? & _ & E) | case_match; try discriminate]; simplify_eq; try exact I; unfold creating, Cursor.pid in *; simplify_eq; lia.
Qed.

(** The work of a restore, before the table under it is checked. *)
Lemma check_work_ok model raw w :
  check_work c model raw = Ok w -> match raw with Some o => raw_op_ok o | None => True end ->
  match w with
  | None => raw = None
  | Some (Work_Proto o) => model = None /\ proto_ok c o
  | Some (Work_Proc o) =>
      (exists m stage, model = Some m /\ raw_ok stage /\ check_stage c m stage = Ok (po_stage o)) /\
      (po_step o < ProcOp.steps c o)%nat /\ length (po_data o) = ProcOp.data_len c (po_stage o) (po_step o) /\ bytes_ok (po_data o)
  end.
Proof.
  destruct raw as [[op step data|stage step data]|]; cbn [check_work].
  - destruct model; [discriminate |]. intros E _. apply bind_Ok_inv in E as (o & Ho & [= <-]). apply or_reject_Ok in Ho.
    unfold Operation.from_parts in Ho. destruct (_ && _) eqn:Eb; [|discriminate]. injection Ho as <-. unbool; unnat. split; [reflexivity |].
    split; assumption.
  - destruct model as [m|]; [|discriminate]. intros E [Hraw Hb]. apply bind_Ok_inv in E as (o & Ho & [= <-]). unfold proc_op in Ho.
    apply bind_Ok_inv in Ho as (s & Hs & Ho). apply or_reject_Ok in Ho. unfold ProcOp.from_parts in Ho.
    destruct (_ && _) eqn:Eb; [|discriminate]. injection Ho as <-. unbool; unnat. split_and!; auto. exists m, stage. auto.
  - intros [= <-] _. reflexivity.
Qed.

Lemma in_flight_creating w : in_flight w = match w with Some (Work_Proc o) => creating (po_stage o) | _ => None end.
Proof. destruct w as [[|[[] ? ?]]|]; reflexivity. Qed.

(** The table a restore leaves is the decoded one, with the pool its owners give. *)
Lemma check_life_ok m w m' :
  match in_flight w with Some (i, _) => 0 <= i | None => True end -> check_life m w = Ok m' ->
  exists f, m' = set_procs (set_pool f (mo_procs m)) m /\
    proc_inv (set_pool f (mo_procs m)) (Z.of_nat (mo_entries m)) (in_flight w) /\
    (w = None -> match mo_life m with AwaitBoot => pcbs (mo_procs m) = [] | Up => is_Some (current (mo_procs m)) | Down => True end).
Proof.
  intros Hw E. unfold check_life in E. apply bind_Ok_inv in E as (owners & _ & E). apply bind_Ok_inv in E as ([] & _ & E).
  apply bind_Ok_inv in E as ([] & Hc & E). apply bind_Ok_inv in E as ([] & Hl & [= <-]). eexists. split; [reflexivity |]. split.
  - apply check_spec_inv; [exact Hw |]. destruct (Processes.check _ _ _) as [[]|] eqn:Ec in Hc; [exact Ec | discriminate].
  - intros ->. destruct (mo_life m); [|apply require_accepts, bool_decide_eq_true in Hl; exact Hl | exact I].
    apply require_accepts, bool_decide_eq_true in Hl. exact Hl.
Qed.

Lemma stage_set_pool f m s : stage_ok c (set_procs (set_pool f (mo_procs m)) m) s <-> stage_ok c m s.
Proof. destruct s; reflexivity. Qed.

(** The work a restore leaves with its model. *)
Lemma restored_work m m' raw w :
  source_ok c (mo_source m) -> decoded_ok (mo_source m) m -> match raw with Some o => raw_op_ok o | None => True end ->
  check_work c (Some m) raw = Ok w -> check_life m w = Ok m' ->
  mo_source m' = mo_source m /\
  (work_ok c (Some m') w \/ exists o, w = Some (Work_Proc o) /\ short_output (po_stage o)).
Proof.
  intros Hs (_ & Hcx & He) Hraw Hw Hl. apply check_work_ok in Hw; [|exact Hraw]. clear Hraw.
  assert (Hpid : match in_flight w with Some (i, _) => 0 <= i | None => True end).
  { rewrite in_flight_creating. destruct w as [[o|o]|]; try exact I. destruct Hw as ((m0 & st & _ & Hr & Hst) & _). eapply check_stage_pid; eauto. }
  apply check_life_ok in Hl as (f & -> & Hinv & Hlife); [|exact Hpid]. split; [reflexivity |]. rewrite in_flight_creating in Hinv.
  assert (Hm : model_ok c (set_procs (set_pool f (mo_procs m)) m) (match w with Some (Work_Proc o) => creating (po_stage o) | _ => None end)).
  { split; cbn [mo_source mo_entries mo_procs set_procs]; auto. destruct (mo_source m); tauto. }
  destruct w as [[o|o]|].
  - destruct Hw as [[=] _].
  - destruct Hw as ((m0 & st & [= <-] & Hr & Hst) & Hstep & Hlen & Hb). destruct (check_stage_ok m Hs (pi_range _ _ _ Hinv) _ _ Hr Hst) as [Hok|Hsh]; [left | right; eauto].
    split; auto.
  - left. split; [exact Hm |]. cbn [mo_life mo_source mo_procs set_procs]. specialize (Hlife eq_refl). destruct (mo_life m) eqn:El; auto.
    split; [|split; [exact Hlife |]].
    + destruct (current _) as [i|] eqn:Ei; [|reflexivity]. apply (pi_current _ _ _ Hinv) in Ei as (p & Hp & _). cbn [pcbs set_pool] in Hp. rewrite Hlife in Hp. inversion Hp.
    + destruct (mo_source m); [exact I | apply He; reflexivity].
Qed.

Definition restored (k k' : ModeledKernel) : Prop :=
  mk_config k' = mk_config k /\ mo_source <$> mk_model k' = mo_source <$> mk_model k /\
  (kernel_ok k' \/ exists o, ModeledKernel.work k' = Some (Work_Proc o) /\ short_output (po_stage o)).
End checks.

Lemma yields_engine `{SnapshotCodec} k :
  yields (restore_engine k) (fun '(outstanding, raw, held, next) =>
    match raw with Some o => raw_op_ok o | None => True end /\ in_u 64 next).
Proof.
  eapply yields_bind with (P := fun _ => True); [eapply yields_any, yields_expect_raw |].
  intros _ _. eapply yields_bind; [apply yields_u8 |]. intros tag _. eapply yields_bind with (P := fun _ => True).
  { apply yields_tag; [apply yields_ret; exact I |]. apply yields_tag; [eapply yields_any, yields_fmap, yields_u64 | apply yields_bad]. }
  intros outstanding _. eapply yields_bind with (P := fun raw => match raw with Some o => raw_op_ok o | None => True end).
  { apply yields_tag; [apply yields_ret; exact I |]. eapply yields_mono; [|apply yields_fmap, yields_op]. intros ? (o & -> & Ho). exact Ho. }
  intros raw Hraw. eapply yields_bind; [apply yields_u8 |]. intros h _. eapply yields_bind with (P := fun _ => True).
  { apply yields_tag; [apply yields_ret; exact I |]. apply yields_tag; [eapply yields_any, yields_fmap, yields_u64 | apply yields_bad]. }
  intros held _. eapply yields_bind; [apply yields_u64 |]. intros next Hn. apply yields_ret. auto.
Qed.

Lemma accepts_restore `{SnapshotCodec} k : kernel_ok k -> accepts (restore k) (restored k).
Proof.
  intros Hk. set (c := mk_config k).
  eapply accepts_bind with (P := fun '(outstanding, raw, held, next) =>
    match raw with Some o => raw_op_ok o | None => True end /\ in_u 64 next).
  { apply accepts_reader, yields_engine. }
  intros [[[outstanding raw] held] next] [Hraw Hnext].
  eapply accepts_bind with (P := fun md => match mk_model k, md with None, None => True | Some m, Some d => decoded_ok (mo_source m) d | _, _ => False end).
  { destruct (mk_model k); [|apply accepts_ret; exact I].
    eapply accepts_bind; [apply accepts_decode_model |]. intros d Hd. apply accepts_ret. exact Hd. }
  intros md Hmd. eapply accepts_mono; [|apply accepts_checked]. intros k' E.
  apply bind_Ok_inv in E as (w & Hw & E). apply bind_Ok_inv in E as ([] & Hh & E). apply bind_Ok_inv in E as ([] & _ & E).
  apply bind_Ok_inv in E as ([] & Ht & E). apply bind_Ok_inv in E as (md' & Hlife & [= <-]). apply require_accepts in Hh, Ht.
  apply eqb_prop in Hh.
  assert (Hheld : is_Some held <-> is_Some w).
  { rewrite <- (bool_decide_eq_true (is_Some held)), <- (bool_decide_eq_true (is_Some w)), Hh. reflexivity. }
  set (k' := mkModeledKernel _ _ _ _ _). assert (Hwork : ModeledKernel.work k' = w) by (unfold k'; destruct w, outstanding; reflexivity).
  assert (Hok : work_ok c (mk_model k') w -> kernel_ok k').
  { intros Hw'. split; [rewrite Hwork; exact Hw' | rewrite Hwork; exact Hheld | exact Hnext |]. intros w' txn. unfold k'. cbn.
    destruct w, outstanding; try discriminate. intros [= <- <-]. apply bool_decide_eq_true in Ht. unfold checked_sub in Ht.
    destruct (1 <=? next); congruence. }
  split; [reflexivity |]. rewrite Hwork. pose proof (ko_work _ Hk) as Hwk. destruct (mk_model k) as [m|] eqn:Em, md as [d|]; try contradiction.
  - apply bind_Ok_inv in Hlife as (d' & Hl & [= <-]). pose proof Hmd as (Esrc & _). assert (Hsrc : source_ok c (mo_source d)).
    { rewrite Esrc. unfold work_ok in Hwk. destruct (ModeledKernel.work k) as [[|]|]; [destruct Hwk | apply Hwk | apply Hwk]. }
    rewrite <- Esrc in Hmd. destruct (restored_work c d d' raw w) as [Es Hres]; auto. cbn in k'. split; [cbn; congruence |].
    destruct Hres as [Hres|Hres]; [left; apply Hok; exact Hres | right; exact Hres].
  - injection Hlife as <-. cbn in k'. split; [cbn; rewrite ?Em; reflexivity |]. left. apply Hok. cbn. rewrite ?Em.
    apply check_work_ok in Hw; [|exact Hraw]. destruct w as [[o|o]|]; [apply Hw | destruct Hw as ((? & ? & [=] & _) & _) | exact I].
Qed.

(** C15: Whatever bytes a restore accepts, corrupt ones included, the kernel keeps its configuration and
    its source and is in the invariant every reachable kernel is in: its process table passes
    [Processes::check], it holds an [ENTER] exactly while an operation runs, and that operation
    is at a step, with working data, where an access is due; so no event makes it panic.  There is
    one exception the restore does not notice: the output of a [write] whose buffer is not all
    mapped. *)
Theorem kernel_restore_invariant `{SnapshotCodec} (k k' : ModeledKernel) (bs rest : list Z) :
  kernel_ok k -> bytes_ok bs -> restore k bs = (rest, Ok k') ->
  mk_config k' = mk_config k /\ mo_source <$> mk_model k' = mo_source <$> mk_model k /\
  (kernel_ok k' \/ exists o, ModeledKernel.work k' = Some (Work_Proc o) /\ short_output (po_stage o)).
Proof.
  intros Hk Hbs E. pose proof (wp_use _ _ _ _ _ _ (accepts_restore k Hk bs Hbs) E) as [Hr _]. exact Hr.
Qed.

(** * Two restores that go wrong *)

(** The kernel of a two-process plan, before boot. *)
Definition two_kernel : ModeledKernel := ModeledKernel.with_source example_config (Source_Plan two_plan).

Definition kernel_with (m : Model) (op : ProcOp) : ModeledKernel :=
  mkModeledKernel example_config (State_Issue (Work_Proc op)) (Some 7) 1 (Some m).

(** A table whose running process has exited. *)
Definition exited_model : Model :=
  mkModel (Source_Plan two_plan) 2
    (mkProcesses [mkPcb 1 (Exited 0) None 0 [] []] [] (Some 1) (Frames.new 0x80400000 0x400000)) Up.

Definition exited_walk : list Z := @snapshot le_codec (kernel_with exited_model (ProcOp.new (Stage_Walk (mkBuffer 0 0x10000 4) [] 0 1))).

Local Abbreviation step_of ev s := (@handle_event RecCtx recording_context documented_classify ev s).

(** What the events of a run, each in its phase, end with: the first failure, if any. *)
Fixpoint run_events (evs : list (Phase * Delivered)) (k : ModeledKernel) : result Failure unit :=
  match evs with
  | [] => Ok tt
  | (ph, ev) :: evs =>
      let '((k, _), r) := step_of ev (k, mkRecCtx ph []) in
      match r with Ok _ => run_events evs k | Err e => Err e end
  end.

(** The output of 32 bytes over two pages of which only the first is mapped, at the last byte of
    its first chunk. *)
Definition short_write : ProcOp := mkProcOp (Stage_Output (mkBuffer 0 0x10FF0 32) [525314] 0) 16 (replicate 16 65).
Definition short_bytes : list Z := @snapshot le_codec (kernel_with two_model short_write).
Definition short_events : list (Phase * Delivered) :=
  [(Phase_Request, Delivered_Wake ISSUE);
   (Phase_Complete, Delivered_Message MEM_PORT (Message_MemV1 (WriteResp 1 WriteOutcome_Done)));
   (Phase_Request, Delivered_Wake ISSUE)].

Lemma checked_bytes bs : forallb (in_ub 8) bs = true -> bytes_ok bs.
Proof. intros Hb. apply Forall_forall. intros b Hin. rewrite forallb_forall in Hb. apply in_ub_spec, Hb, list_elem_of_In, Hin. Qed.

Lemma accepted_as {E A} (r : result E A) (P : A -> Prop) : match r with Ok a => P a | Err _ => False end -> exists a, r = Ok a /\ P a.
Proof. destruct r; [eauto | intros []]. Qed.

Lemma panicked_as `{SnapshotCodec} {A} (r : result Stop A) (what : string) :
  match r with Err (Panicked w) => w = what | _ => False end -> r = Err (Panicked what).
Proof. destruct r as [|[|w]]; [intros [] | intros [] | intros ->; reflexivity]. Qed.

(** C39: Restoring damaged bytes can panic instead of being rejected.  The bytes are a snapshot whose
    running PID is a process that has exited, in the walk of a [write]: the address space of the
    running process is rebuilt, from no frames, before [Processes::check] looks at the table. *)
Theorem restore_can_panic :
  kernel_ok two_kernel /\ bytes_ok exited_walk /\
  snd (@restore le_codec two_kernel exited_walk) = Err (Panicked "an address space past its frames").
Proof.
  split; [|split; [apply checked_bytes; vm_compute; reflexivity | apply panicked_as; vm_compute; reflexivity]].
  apply with_source_ok. apply (ok_source _ _ _ (proj1 two_model_ok)).
Qed.

(** C40: A restore accepts a state no run produces, and the kernel then panics.  The bytes are a
    snapshot of a [write]'s output whose second page is not mapped, so its page list has one page
    of two: the restore accepts it, the first chunk is output, and the next [ISSUE] indexes past
    the pages. *)
Theorem restore_accepts_short_output :
  bytes_ok short_bytes /\
  exists k, snd (@restore le_codec two_kernel short_bytes) = Ok k /\
    run_events short_events k = Err (Panics "index out of bounds").
Proof.
  split; [apply checked_bytes; vm_compute; reflexivity |].
  apply (accepted_as _ (fun k => run_events short_events k = Err (Panics "index out of bounds"))). vm_compute. reflexivity.
Qed.

(** A kernel idle with process 1 running, restored. *)
Definition two_idle : ModeledKernel := mkModeledKernel example_config State_Idle None 5 (Some two_model).

Lemma kernel_restore_invariant_witness :
  exists k', snd (@restore le_codec two_kernel (@snapshot le_codec two_idle)) = Ok k' /\ mk_next_txn k' = 5 /\ kernel_ok k'.
Proof.
  destruct (accepted_as (snd (@restore le_codec two_kernel (@snapshot le_codec two_idle)))
    (fun k => mk_next_txn k = 5 /\ ModeledKernel.work k = None)) as (k' & E & Hn & Hw); [vm_compute; auto |].
  exists k'. split; [exact E |]. split; [exact Hn |].
  destruct (@kernel_restore_invariant le_codec two_kernel k' (@snapshot le_codec two_idle) (fst (@restore le_codec two_kernel (@snapshot le_codec two_idle))))
    as (_ & _ & [Hok|(o & Ho & _)]).
  - apply with_source_ok, (ok_source _ _ _ (proj1 two_model_ok)).
  - apply checked_bytes; vm_compute; reflexivity.
  - rewrite <- E. apply surjective_pairing.
  - exact Hok.
  - congruence.
Defined.
