(* ===== verification/OsRoundTrip.v ===== *)
(** A kernel snapshot restored.

    Proved: restoring the snapshot of a reachable kernel outside a creation gives that kernel
    back; every check of the restore passes, since every space, page and access it checks was made
    by the operations of the model ([kernel_made]). *)
From stdpp Require Import base numbers list option strings gmap sorting.
From Stdlib Require Import ZArith Lia.
From S2P Require Import Prelude Contracts Handlers Snapshots Platform Words Elf Text ExecTable OsConfig OsFrames OsSpace OsSpaceProofs OsCore OsSyscall OsProcess OsProcOp OsModel OsModelProofs OsStages OsTrap OsSwitch OsKernel OsKernelProofs OsSnapshot OsSnapshotProofs.

Local Open Scope string_scope.
Local Open Scope list_scope.
Local Open Scope Z_scope.

(** * Sequences *)

Section sequences.
Context `{SnapshotCodec}.

Local Abbreviation R := (ST (list Z) RestoreError).

Lemma reads_assoc {A B C} (m : R A) (g : A -> R B) (f : B -> R C) bs c :
  reads (mbind (M := R) f (mbind (M := R) g m)) bs c -> reads (mbind (M := R) (fun a => mbind (M := R) f (g a)) m) bs c.
Proof. intros Hr rest. specialize (Hr rest). rewrite !ST_bind_unfold in *. destruct (m (bs ++ rest)) as [s [a|e]]; exact Hr. Qed.

Lemma reads_map {A B} (f : A -> B) (m : R A) bs a : reads m bs a -> reads (f <$> m) bs (f a).
Proof. intros Hm. eapply reads_last; [exact Hm | apply reads_ret]. Qed.

Lemma reads_repeat {A} (m : R A) (put : A -> list Z) l :
  (forall a, a ∈ l -> reads m (put a) a) -> reads (repeat_read (length l) m) (l ≫= put) l.
Proof.
  induction l as [|a l IH]; intros Hall; [apply reads_ret |]. cbn [length repeat_read]. rewrite bind_cons.
  eapply reads_bind; [apply Hall; left |]. eapply reads_last; [apply IH; intros; apply Hall; right; assumption | apply reads_ret].
Qed.

Lemma length_puts {A} (put : A -> list Z) k l :
  (forall a, a ∈ l -> (k <= length (put a))%nat) -> (length l * k <= length (l ≫= put))%nat.
Proof.
  induction l as [|a l IH]; intros Hall; [cbn; lia |]. rewrite bind_cons, length_app. cbn [length].
  pose proof (Hall a ltac:(left)). specialize (IH ltac:(intros; apply Hall; right; assumption)). lia.
Qed.

Lemma reads_list {A} (m : R A) (put : A -> list Z) k l :
  (forall a, a ∈ l -> reads m (put a) a) -> (forall a, a ∈ l -> (k <= length (put a))%nat) -> in_u 32 (Z.of_nat (length l)) ->
  reads (n ← count k; repeat_read n m) (put_len (Z.of_nat (length l)) ++ (l ≫= put)) l.
Proof.
  intros Hm Hk Hl rest. rewrite <- app_assoc, ST_bind_unfold. unfold count. rewrite ST_bind_unfold, (reads_len _ Hl).
  rewrite ST_bind_unfold. unfold remaining. rewrite Nat2Z.id. pose proof (length_puts put k l Hk).
  destruct (Nat.ltb_spec (length ((l ≫= put) ++ rest)) (length l * k)) as [Hlt|_]; [rewrite length_app in Hlt; lia |].
  apply (reads_repeat m put l Hm rest).
Qed.

Definition u32s (l : list Z) : Prop := Forall (in_u 32) l /\ in_u 32 (Z.of_nat (length l)).

Lemma reads_u32s l : Forall (in_u 32) l -> reads (repeat_read (length l) (rd get_u32)) (l ≫= put_u32) l.
Proof. intros Hl. rewrite Forall_forall in Hl. apply reads_repeat. intros a Ha. apply reads_u32; auto. Qed.

Lemma reads_ppns l : u32s l -> reads decode_ppns (encode_ppns l) l.
Proof.
  intros [Hl Hn]. rewrite Forall_forall in Hl. apply reads_list; [| |exact Hn]; intros a Ha; [apply reads_u32; auto |].
  rewrite length_put_u32. lia.
Qed.
End sequences.

(** * The parts of a snapshot *)

Definition context_typed (cx : Context) : Prop :=
  length (cx_regs cx) = 31%nat /\ Forall (in_u 32) (cx_regs cx) /\ in_u 32 (cx_pc cx) /\ in_u 32 (cx_sstatus cx).

Definition state_typed (s : ProcState) : Prop :=
  match s with
  | Ready | Running => True
  | Exited status => - 2 ^ 31 <= status < 2 ^ 31
  | Faulted cause epc tval => in_u 32 cause /\ in_u 32 epc /\ in_u 32 tval
  end.

Definition region_typed (r : Region) : Prop := in_u 32 (rg_va r) /\ u32s (rg_frames r).

Record pcb_typed (p : Pcb) : Prop := {
  pt_pid : in_u 32 (pid p);
  pt_state : state_typed (state p);
  pt_context : match context p with Some cx => context_typed cx | None => True end;
  pt_root : in_u 32 (pcb_root p);
  pt_tables : u32s (tables p);
  pt_regions : Forall region_typed (pcb_regions p);
  pt_count : in_u 32 (Z.of_nat (length (pcb_regions p)));
}.

Definition cursor_typed (cu : Cursor) : Prop :=
  match cu_table cu with
  | None => True
  | Some t => Forall (fun e => in_u 32 (start_lba e) /\ in_u 32 (byte_len e)) (entries t) /\ in_u 32 (Z.of_nat (length (entries t)))
  end /\ in_u 32 (Z.of_nat (cu_index cu)).

Definition buffer_typed (b : Buffer) : Prop := in_u 32 (bf_sepc b) /\ in_u 32 (bf_buf b) /\ in_u 32 (bf_n b).

Definition stage_typed (s : Stage) : Prop :=
  match s with
  | Stage_Create i space => in_u 32 i /\ u32s (sp_frames space)
  | Stage_ReadFrame => True
  | Stage_Dispatch i cx _ => in_u 32 i /\ context_typed cx
  | Stage_Shutdown reason => in_u 32 reason
  | Stage_Walk b pages table level => buffer_typed b /\ u32s pages /\ in_u 32 table /\ in_u 8 level
  | Stage_Output b pages done => buffer_typed b /\ u32s pages /\ in_u 32 done
  | Stage_Return sepc value => in_u 32 sepc /\ in_u 32 value
  | Stage_Command cu | Stage_Poll cu => cursor_typed cu
  | Stage_Ack cu error => cursor_typed cu /\ in_u 8 error
  | Stage_Staged cu len => cursor_typed cu /\ in_u 32 len
  | Stage_Load cu headers _ space =>
      cursor_typed cu /\ bytes_ok headers /\ in_u 32 (Z.of_nat (length headers)) /\ u32s (sp_frames space)
  end.

(** What a decode of an encoded stage gives: the stage less what [check_stage] recomputes. *)
Definition raw_cursor (cu : Cursor) : RawCursor := (entries <$> cu_table cu, Z.of_nat (cu_index cu)).
Definition raw_buffer (b : Buffer) : Z * Z * Z := (bf_sepc b, bf_buf b, bf_n b).

Definition raw_stage (s : Stage) : RawStage :=
  match s with
  | Stage_Create i space => Raw_Create i (sp_frames space)
  | Stage_ReadFrame => Raw_ReadFrame
  | Stage_Dispatch i cx _ => Raw_Dispatch i cx
  | Stage_Shutdown reason => Raw_Shutdown reason
  | Stage_Walk b pages table level => Raw_Walk (raw_buffer b) pages table level
  | Stage_Output b pages done => Raw_Output (raw_buffer b) pages done
  | Stage_Return sepc value => Raw_Return sepc value
  | Stage_Command cu => Raw_Command (raw_cursor cu)
  | Stage_Poll cu => Raw_Poll (raw_cursor cu)
  | Stage_Ack cu error => Raw_Ack (raw_cursor cu) error
  | Stage_Staged cu len => Raw_Staged (raw_cursor cu) len
  | Stage_Load cu headers _ space => Raw_Load (raw_cursor cu) headers (sp_frames space)
  end.

Section parts.
Context `{SnapshotCodec}.

Lemma reads_context cx : context_typed cx -> reads decode_context (encode_context cx) cx.
Proof.
  intros (Hl & Hr & Hp & Hs). unfold decode_context, encode_context. eapply reads_last.
  - assert (E : length (cx_regs cx ++ [cx_pc cx; cx_sstatus cx]) = 33%nat) by (rewrite length_app, Hl; reflexivity).
    rewrite <- E. apply reads_u32s. apply Forall_app. auto.
  - rewrite take_app_length', !app_nth2, Hl by lia. destruct cx. apply reads_ret.
Qed.

Lemma reads_proc_state s : state_typed s -> reads decode_state (put_state s) s.
Proof.
  unfold decode_state. destruct s as [| |status|cause epc tval]; cbn [put_state state_typed]; intros Ht.
  - reads_next. apply reads_ret.
  - reads_next. apply reads_ret.
  - reads_next. eapply reads_last; [apply reads_u32, as_u32_in_u |]. rewrite as_i32_as_u32 by exact Ht. apply reads_ret.
  - destruct Ht as (? & ? & ?). repeat reads_next. apply reads_ret.
Qed.

Lemma perms_bits p : perms_from_bits (perm_bits p) = Some p.
Proof. destruct p as [[] [] []]; reflexivity. Qed.

Lemma reads_pcb_region r : region_typed r -> reads decode_region (put_region r) r.
Proof.
  intros [Hv Hf]. unfold decode_region, put_region. reads_next.
  eapply reads_bind; [apply reads_u8; destruct (rg_perms r) as [[] [] []]; const_range |].
  eapply reads_then; [apply reads_some, perms_bits |]. eapply reads_last; [apply reads_ppns, Hf |]. destruct r. apply reads_ret.
Qed.

Lemma reads_pcb p : pcb_typed p -> reads decode_pcb (put_pcb p) p.
Proof.
  intros [H1 H2 H3 H4 H5 H6 H7]. unfold decode_pcb, put_pcb. reads_next. eapply reads_bind; [apply reads_proc_state, H2 |].
  assert (Hc : forall (f : option Context -> ST (list Z) RestoreError Pcb) bs,
    reads (f (context p)) bs p ->
    reads (tag ← rd get_u8; cx ← (if tag =? 0 then mret None else if tag =? 1 then Some <$> decode_context else bad_tag "modeled kernel context" tag); f cx)
      (match context p with None => put_u8 0 | Some c => put_u8 1 ++ encode_context c end ++ bs) p).
  { intros f bs Hf. destruct (context p) as [cx|]; rewrite <- ?app_assoc; reads_next.
    - eapply reads_bind; [apply reads_map, reads_context, H3 | exact Hf].
    - eapply reads_then; [apply reads_ret | exact Hf]. }
  apply Hc. reads_next. eapply reads_bind; [apply reads_ppns, H5 |]. apply reads_assoc. rewrite Forall_forall in H6.
  eapply reads_last; [apply (reads_list decode_region put_region); [intros; apply reads_pcb_region; auto | | exact H7] | destruct p; apply reads_ret].
  intros r _. unfold put_region, encode_ppns. rewrite !length_app, length_put_u32, length_put_u8, length_put_len. lia.
Qed.

Lemma reads_exec_entry e : in_u 32 (start_lba e) /\ in_u 32 (byte_len e) -> reads decode_entry (put_exec_entry e) e.
Proof. intros []. unfold decode_entry, put_exec_entry. repeat reads_next. destruct e. apply reads_ret. Qed.

Lemma reads_cursor cu : cursor_typed cu -> reads decode_cursor (encode_cursor cu) (raw_cursor cu).
Proof.
  intros [Ht Hi]. unfold decode_cursor, encode_cursor, raw_cursor. destruct (cu_table cu) as [t|].
  - destruct Ht as [He Hn]. rewrite Forall_forall in He. rewrite <- app_assoc. reads_next. eapply reads_bind.
    + apply reads_assoc, reads_map, (reads_list decode_entry put_exec_entry); [intros; apply reads_exec_entry; auto | | exact Hn].
      intros e _. unfold put_exec_entry. rewrite length_app, !length_put_u32. lia.
    + reads_next. apply reads_ret.
  - reads_next. eapply reads_then; [apply reads_ret |]. reads_next. apply reads_ret.
Qed.

Lemma reads_buffer b : buffer_typed b -> reads decode_buffer (encode_buffer b) (raw_buffer b).
Proof. intros (? & ? & ?). unfold decode_buffer, encode_buffer. repeat reads_next. apply reads_ret. Qed.

Hint Resolve reads_ppns reads_context reads_cursor reads_buffer : reads.

Lemma reads_stage s : stage_typed s -> reads decode_stage (encode_stage s) (raw_stage s).
Proof.
  unfold decode_stage. destruct s; cbn [stage_typed encode_stage raw_stage]; intros Ht; destruct_and?; repeat reads_next; apply reads_ret.
Qed.

Definition work_typed (w : Work) : Prop :=
  match w with
  | Work_Proto o => in_u 32 (Z.of_nat (o_step o)) /\ bytes_ok (o_data o) /\ in_u 32 (Z.of_nat (length (o_data o)))
  | Work_Proc o =>
      stage_typed (po_stage o) /\ in_u 32 (Z.of_nat (po_step o)) /\ bytes_ok (po_data o) /\ in_u 32 (Z.of_nat (length (po_data o)))
  end.

Definition raw_work (w : Work) : RawOp :=
  match w with
  | Work_Proto o => RawOp_Proto (o_op o) (o_step o) (o_data o)
  | Work_Proc o => RawOp_Proc (raw_stage (po_stage o)) (po_step o) (po_data o)
  end.

Lemma reads_work w : work_typed w -> reads decode_op (put_work (Some w)) (raw_work w).
Proof.
  unfold decode_op. destruct w as [o|o]; cbn [work_typed put_work raw_work]; intros Ht; destruct_and?.
  - destruct o as [[|] step data]; cbn [o_op o_step o_data] in *; repeat reads_next; cbn; rewrite Nat2Z.id; apply reads_ret.
  - unfold PROC_OP_TAG. reads_next. eapply reads_bind; [apply reads_stage; assumption |]. repeat reads_next. rewrite Nat2Z.id. apply reads_ret.
Qed.

(** The transaction an engine waits for. *)
Definition outstanding (s : OsKernel.State) : option Z := match s with State_Wait _ txn => Some txn | _ => None end.

Record engine_typed (k : ModeledKernel) : Prop := {
  et_work : match ModeledKernel.work k with Some w => work_typed w | None => True end;
  et_txn : match outstanding (mk_state k) with Some txn => in_u 64 txn | None => True end;
  et_held : match mk_held k with Some txn => in_u 64 txn | None => True end;
  et_next : in_u 64 (mk_next_txn k);
}.

Lemma reads_kernel_engine k0 k bs : engine_typed k -> encode_kernel_config k0 = encode_kernel_config k ->
  bs = encode_kernel_config k ++ put_engine (mk_state k) ++ put_work (ModeledKernel.work k) ++
       match mk_held k with None => put_u8 0 | Some txn => put_u8 1 ++ put_u64 txn end ++ put_u64 (mk_next_txn k) ->
  reads (restore_engine k0) bs (outstanding (mk_state k), raw_work <$> ModeledKernel.work k, mk_held k, mk_next_txn k).
Proof.
  intros [H1 H2 H3 H4] Hc ->. unfold restore_engine. rewrite Hc. eapply reads_bind; [apply reads_expect_raw |].
  assert (Ht : forall (out : option Z) (raw : option RawOp),
    reads (h ← rd get_u8; held ← (if h =? 0 then mret None else if h =? 1 then Some <$> rd get_u64 else bad_tag "modeled kernel held ENTER" h);
           next ← rd get_u64; mret (out, raw, held, next))
      (match mk_held k with None => put_u8 0 | Some txn => put_u8 1 ++ put_u64 txn end ++ put_u64 (mk_next_txn k)) (out, raw, mk_held k, mk_next_txn k)).
  { intros out raw. destruct (mk_held k) as [txn|]; rewrite <- ?app_assoc; reads_next.
    - eapply reads_bind; [apply reads_map, reads_u64, H3 |]. reads_next. apply reads_ret.
    - eapply reads_then; [apply reads_ret |]. reads_next. apply reads_ret. }
  unfold ModeledKernel.work in *. destruct (mk_state k) as [|w|w txn]; cbn [outstanding put_engine] in *; rewrite <- ?app_assoc; reads_next; cbn [orb].
  - eapply reads_then; [apply reads_ret |]. eapply reads_then; [apply reads_ret | apply Ht].
  - eapply reads_then; [apply reads_ret |]. eapply reads_bind; [apply reads_map, reads_work, H1 | apply Ht].
  - eapply reads_bind; [apply reads_map, reads_u64, H2 |]. eapply reads_bind; [apply reads_map, reads_work, H1 | apply Ht].
Qed.
End parts.

(** * The frame pool, from its bitmap and the process table *)

Lemma bitmap_shape f : length (Frames.bitmap f) = ((length (owners f) + 7) / 8)%nat /\ bytes_ok (Frames.bitmap f).
Proof.
  unfold Frames.bitmap. set (bits := replicate _ 0).
  assert (Hb : length bits = ((length (owners f) + 7) / 8)%nat /\ bytes_ok bits).
  { split; [apply length_replicate | apply Forall_replicate; const_range]. }
  generalize (imap pair (owners f)). clearbody bits. intros l. revert bits Hb.
  induction l as [|[i o] l IH]; intros bits [Hl Hb]; cbn [foldl]; [auto |]. apply IH. destruct (o =? 0); [auto |].
  split; [rewrite length_alter; exact Hl |]. apply Forall_alter; [exact Hb |]. intros b _ Hin.
  apply lor_in_u; [lia | exact Hin |]. pose proof (Nat.mod_upper_bound i 8). rewrite Z.shiftl_1_l. unfold in_u.
  split; [lia | apply Z.pow_lt_mono_r; lia].
Qed.

(** Claiming frames moves each owner towards its final one. *)
Definition claiming (b : Z) (final os : list Z) (cs : list (Z * Z)) : Prop :=
  forall i, os !! i = final !! i \/
    (os !! i = Some UNCLAIMED /\ exists pid, final !! i = Some pid /\ (pid, b + Z.of_nat i) ∈ cs).

Lemma claim_all b final cs : forall os,
  (forall pid ppn, (pid, ppn) ∈ cs -> Frames.owner (mkFrames b final) ppn = Some pid) ->
  claiming b final os cs -> foldl (fun os '(pid, ppn) => claim_frame b pid os ppn) os cs = final.
Proof.
  induction cs as [|[p ppn] cs IH]; intros os Hcs Hos; cbn [foldl].
  { apply list_eq. intros i. destruct (Hos i) as [E|(_ & pid & _ & Hin)]; [exact E | inversion Hin]. }
  apply IH; [intros; apply Hcs; right; assumption |]. intros i.
  destruct (proj1 (owner_spec _ _ _) (Hcs p ppn ltac:(left))) as (j & -> & Hj). cbn [base owners] in *.
  unfold claim_frame, checked_sub. destruct (Z.leb_spec b (b + Z.of_nat j)); [|lia]. replace (Z.to_nat (b + Z.of_nat j - b)) with j by lia.
  destruct (decide (i = j)) as [->|Hne].
  - left. case_bool_decide as Hu; [rewrite list_lookup_insert_eq by (eapply lookup_lt_Some, Hu); symmetry; exact Hj |].
    destruct (Hos j) as [E|[E _]]; [exact E | contradiction].
  - assert (E : (if bool_decide (os !! j = Some UNCLAIMED) then <[j := p]> os else os) !! i = os !! i).
    { case_bool_decide; [apply list_lookup_insert_ne; congruence | reflexivity]. }
    rewrite E. destruct (Hos i) as [E'|(E' & pid & Hf & Hin)]; [left; exact E' |]. right. split; [exact E' |]. exists pid. split; [exact Hf |].
    apply elem_of_cons in Hin as [[= _ Heq]|Hin]; [lia | exact Hin].
Qed.

Lemma claim_pcbs_flat b l : forall os,
  foldl (claim_pcb b) os l
  = foldl (fun os '(pid, ppn) => claim_frame b pid os ppn) os (((fun p => (pid p, Pcb.frames p)) <$> l) ≫= fun '(i, fs) => (fun f => (i, f)) <$> fs).
Proof.
  induction l as [|p l IH]; intros os; [reflexivity |]. rewrite fmap_cons, bind_cons, foldl_app. cbn [foldl]. rewrite IH. f_equal.
  unfold claim_pcb. generalize (Pcb.frames p). intros fs. revert os. induction fs as [|f fs IHf]; intros os; [reflexivity |]. cbn. apply IHf.
Qed.

(** The owners a restore computes are the pool's. *)
Lemma pool_restored s images :
  proc_inv s images None ->
  foldl (claim_pcb (base (pool s)))
    ((fun i => if Frames.bit (Frames.bitmap (pool s)) i then UNCLAIMED else 0) <$> seq 0 (Frames.count (pool s))) (pcbs s)
  = owners (pool s).
Proof.
  intros Hinv. pose proof (pi_owned _ _ _ Hinv) as Ho. pose proof (pi_range _ _ _ Hinv) as Hr. rewrite Forall_forall in Hr.
  assert (Hown : Processes.owned s None = ((fun p => (pid p, Pcb.frames p)) <$> pcbs s) ≫= fun '(i, fs) => (fun f => (i, f)) <$> fs).
  { unfold Processes.owned, Processes.owners_of. rewrite app_nil_r. reflexivity. }
  rewrite claim_pcbs_flat, <- Hown. destruct (pool s) as [b final] eqn:Ep. cbn [base owners]. apply claim_all.
  - intros i ppn Hin. apply Ho; [|exact Hin]. rewrite Hown in Hin. apply list_elem_of_bind in Hin as ([i' fs] & Hin & Hp).
    apply list_elem_of_fmap in Hin as (f & [= -> _] & _). apply list_elem_of_fmap in Hp as (p & [= -> _] & Hp). specialize (Hr p Hp). lia.
  - intros i. rewrite list_lookup_fmap. unfold Frames.count. cbn [owners]. destruct (final !! i) as [o|] eqn:Ei.
    + rewrite lookup_seq_lt by (eapply lookup_lt_Some, Ei). cbn [fmap option_fmap option_map Nat.add]. rewrite bitmap_correct. cbn [owners]. rewrite Ei.
      destruct (Z.eqb_spec o 0) as [->|Hne]; cbn [negb]; [left; reflexivity | right]. split; [reflexivity |]. exists o. split; [reflexivity |].
      apply Ho; [exact Hne |]. apply owner_spec. eauto.
    + left. rewrite lookup_seq_ge by (apply lookup_ge_None, Ei). reflexivity.
Qed.

(** * The model *)

(** The fields are values of their Rust types. *)
Record model_typed (m : Model) : Prop := {
  mt_pcbs : Forall pcb_typed (pcbs (mo_procs m));
  mt_pcb_count : in_u 32 (Z.of_nat (length (pcbs (mo_procs m))));
  mt_queue : u32s (queue (mo_procs m));
  mt_current : match current (mo_procs m) with Some i => in_u 32 i | None => True end;
  mt_frame_count : in_u 32 (Z.of_nat (Frames.count (pool (mo_procs m))));
}.

Section model.
Context `{SnapshotCodec}.

Local Abbreviation R := (ST (list Z) RestoreError).

Lemma reads_life m :
  reads (tag ← rd get_u8;
         if tag =? 0 then mret AwaitBoot else if tag =? 1 then mret Up else if tag =? 2 then mret Down else bad_tag "modeled kernel life" tag : R Life)
    (put_u8 match mo_life m with AwaitBoot => 0 | Up => 1 | Down => 2 end) (mo_life m).
Proof. destruct (mo_life m); reads_next; apply reads_ret. Qed.

Lemma reads_table_count c m cr :
  model_ok c m cr -> (mo_life m = AwaitBoot -> match mo_source m with Source_Disk _ => mo_entries m = O | Source_Plan _ => True end) ->
  reads (match mo_source m with
         | Source_Plan plan => mret (length (plan_images plan))
         | Source_Disk _ =>
             n ← rd get_u32;
             if (MAX_PROCESSES <? n) || bool_decide (mo_life m = AwaitBoot) && negb (n =? 0)
             then invalid "modeled kernel: a table count above the limit or before boot"
             else mret (Z.to_nat n)
         end : R nat)
    (match mo_source m with Source_Disk _ => put_u32 (Z.of_nat (mo_entries m)) | Source_Plan _ => [] end) (mo_entries m).
Proof.
  intros Hm Hl. pose proof (ok_entries _ _ _ Hm) as He. destruct (mo_source m); [rewrite He; apply reads_ret |].
  unfold MAX_ENTRIES in He. eapply reads_last; [apply reads_u32; unfold in_u; lia |].
  destruct (_ || _) eqn:E; [|rewrite Nat2Z.id; apply reads_ret]. unfold MAX_PROCESSES in E. apply orb_true_iff in E as [E|E]; unbool; [lia |].
  rewrite Hl in * by assumption. cbn in *. lia.
Qed.

Lemma reads_current (o : option Z) :
  match o with Some i => in_u 32 i | None => True end ->
  reads (tag ← rd get_u8; if tag =? 0 then mret None else if tag =? 1 then Some <$> rd get_u32 else bad_tag "modeled kernel running PID" tag : R (option Z))
    (match o with None => put_u8 0 | Some i => put_u8 1 ++ put_u32 i end) o.
Proof. destruct o as [i|]; intros Ho; reads_next; [apply reads_map, reads_u32, Ho | apply reads_ret]. Qed.

Lemma check_all_ok {A} (f : A -> result Stop unit) l : (forall a, a ∈ l -> f a = Ok tt) -> check_all f l = Ok tt.
Proof.
  induction l as [|a l IH]; intros Hall; [reflexivity |]. cbn [check_all]. rewrite (Hall a ltac:(left)). apply IH.
  intros. apply Hall. right. assumption.
Qed.

Lemma reads_parts c m :
  model_ok c m None -> model_typed m ->
  (mo_life m = AwaitBoot -> match mo_source m with Source_Disk _ => mo_entries m = O | Source_Plan _ => True end) ->
  reads (decode_parts (mo_source m)) (encode_model m)
    (mo_life m, mo_entries m, pcbs (mo_procs m), queue (mo_procs m), current (mo_procs m), Frames.bitmap (pool (mo_procs m))).
Proof.
  intros Hm [T1 T2 T3 T4 T7] Hlife. destruct (bitmap_shape (pool (mo_procs m))) as [Hbl Hbb]. rewrite Forall_forall in T1.
  assert (Hn : in_u 32 (Z.of_nat (length (Frames.bitmap (pool (mo_procs m)))))).
  { rewrite Hbl. unfold in_u, Frames.count in *. pose proof (Nat.div_mod_eq (length (owners (pool (mo_procs m))) + 7) 8). lia. }
  unfold decode_parts, encode_model. apply reads_assoc. eapply reads_bind; [apply reads_life |].
  eapply reads_bind; [eapply reads_table_count; eauto |]. apply reads_assoc. rewrite app_assoc. eapply reads_bind.
  - apply (reads_list decode_pcb put_pcb); [intros; apply reads_pcb; auto | | exact T2].
    intros p _. unfold put_pcb. rewrite !length_app, length_put_u32. lia.
  - rewrite app_assoc. eapply reads_bind; [apply reads_ppns, T3 |]. apply reads_assoc. eapply reads_bind; [apply reads_current, T4 |].
    reads_next. apply reads_ret.
Qed.

Lemma no_bits_past f : existsb (Frames.bit (Frames.bitmap f)) (seq (Frames.count f) (length (Frames.bitmap f) * 8 - Frames.count f)) = false.
Proof.
  apply not_true_iff_false. intros (i & Hi & Hb)%existsb_exists. apply in_seq in Hi. rewrite bitmap_correct in Hb.
  unfold Frames.count in Hi. rewrite (proj2 (lookup_ge_None _ _)) in Hb by lia. discriminate.
Qed.

Lemma decode_encode_model c m rest :
  model_ok c m None -> model_typed m ->
  (mo_life m = AwaitBoot -> match mo_source m with Source_Disk _ => mo_entries m = O | Source_Plan _ => True end) ->
  model_made c m -> (forall p, p ∈ pcbs (mo_procs m) -> check_pcb c (mo_source m) p = Ok tt) ->
  decode_model c (mo_source m) (encode_model m ++ rest) = (rest, Ok m).
Proof.
  intros Hm Ht Hlife [_ T5 T6] Hpcb. unfold decode_model. rewrite ST_bind_unfold. unfold from_reader at 1.
  rewrite (reads_parts c m Hm Ht Hlife rest). cbn [map_err]. unfold checked. f_equal.
  destruct (bitmap_shape (pool (mo_procs m))) as [Hbl _]. rewrite <- T5, <- T6. fold (Frames.count (pool (mo_procs m))) in Hbl.
  rewrite Hbl, Nat.eqb_refl. rewrite <- Hbl, no_bits_past. cbn [require negb mbind result_bind].
  rewrite (pool_restored _ _ (ok_procs _ _ _ Hm)), (check_all_ok _ _ Hpcb). cbn [mbind result_bind].
  unfold Frames.from_owners. destruct m as [src ents [l q cur [b os]] life]. reflexivity.
Qed.

Lemma listed_owners f : (fun i => default 0 (Frames.owner f (base f + Z.of_nat i))) <$> seq 0 (Frames.count f) = owners f.
Proof.
  apply list_eq. intros i. rewrite list_lookup_fmap. unfold Frames.count. destruct (owners f !! i) as [o|] eqn:Ei.
  - rewrite lookup_seq_lt by (eapply lookup_lt_Some, Ei). cbn [fmap option_fmap option_map Nat.add]. f_equal.
    rewrite (proj2 (owner_spec f _ o)) by eauto. reflexivity.
  - rewrite lookup_seq_ge by (apply lookup_ge_None, Ei). reflexivity.
Qed.

Lemma few_entries c m cr : model_ok c m cr -> Z.of_nat (mo_entries m) <= 8.
Proof.
  intros Hm. pose proof (ok_entries _ _ _ Hm) as He. pose proof (ok_source _ _ _ Hm) as [_ Hs]. destruct (mo_source m) as [plan|disk].
  - destruct Hs as [Hv _]. unfold ProcessPlan.validate in Hv. apply bind_Ok_inv in Hv as ([] & _ & Hv).
    destruct (_ || _) eqn:E; [discriminate |]. unbool. unfold MAX_PROCESSES in *. lia.
  - unfold MAX_ENTRIES in He. lia.
Qed.

Lemma all_claimed c m : model_ok c m None -> mem_Z UNCLAIMED (owners (pool (mo_procs m))) = false.
Proof.
  intros Hm. apply not_true_iff_false. rewrite mem_Z_spec, list_elem_of_lookup. intros (i & Hi). pose proof (ok_procs _ _ _ Hm) as Hinv.
  assert (Hin : (UNCLAIMED, base (pool (mo_procs m)) + Z.of_nat i) ∈ Processes.owned (mo_procs m) None).
  { apply (pi_owned _ _ _ Hinv); [discriminate |]. apply owner_spec. eauto. }
  apply list_elem_of_bind in Hin as ([j fs] & Hin & Hp). apply list_elem_of_fmap in Hin as (f & [= <- _] & _).
  unfold Processes.owners_of in Hp. rewrite app_nil_r in Hp. apply list_elem_of_fmap in Hp as (p & [= Hj _] & Hp).
  pose proof (pi_range _ _ _ Hinv) as Hr. rewrite Forall_forall in Hr. specialize (Hr p Hp). pose proof (few_entries c m None Hm).
  unfold UNCLAIMED in Hj. lia.
Qed.

Lemma stage_booted c m s : stage_ok c m s -> mo_life m <> AwaitBoot.
Proof.
  destruct s; cbn [stage_ok]; unfold cursor_ok, booting, running; intros Hs; destruct_and?; congruence.
Qed.

Lemma check_life_same c m w :
  model_ok c m None -> work_ok c (Some m) w -> in_flight w = None -> check_life m w = Ok m.
Proof.
  intros Hm Hw Hf. unfold check_life. rewrite Hf. cbn [claim_in_flight mbind result_bind]. rewrite listed_owners, (all_claimed c m Hm).
  cbn [negb require mbind result_bind]. unfold Frames.from_owners.
  replace (mkFrames (base _) (owners _)) with (pool (mo_procs m)) by (destruct (pool _); reflexivity).
  replace (mkProcesses _ _ _ _) with (mo_procs m) by (destruct (mo_procs m); reflexivity).
  rewrite (proj2 (check_spec_inv _ _ None I) (ok_procs _ _ _ Hm)). cbn [map_err mbind result_bind].
  replace (mkModel _ _ _ _) with m by (destruct m; reflexivity). destruct w as [[o|o]|]; cbn [work_ok] in Hw.
  - destruct Hw.
  - pose proof (stage_booted _ _ _ (op_stage _ _ _ Hw)). destruct (mo_life m); [contradiction | reflexivity..].
  - destruct Hw as [_ Hl]. destruct (mo_life m); [|rewrite bool_decide_eq_true_2 by exact Hl; reflexivity | reflexivity].
    destruct Hl as (_ & Hl & _). rewrite bool_decide_eq_true_2 by exact Hl. reflexivity.
Qed.
End model.

(** * Address spaces rebuilt *)

Lemma sort_frames l fs : l ≡ₚ fs -> StronglySorted Z.lt fs -> sort_by Z.leb l = fs.
Proof.
  intros Hp Hs. apply (StronglySorted_unique Z.le); [| |rewrite sort_by_perm; exact Hp].
  - assert (Hss : StronglySorted (fun a b => (a <=? b) = true) (sort_by Z.leb l)) by (apply sort_by_sorted; intros; lia).
    clear -Hss. induction Hss as [|a l' Hl IH Ha]; constructor; [exact IH |]. eapply Forall_impl; [exact Ha |]. cbn. lia.
  - clear -Hs. induction Hs as [|a l' Hl IH Ha]; constructor; [exact IH |]. eapply Forall_impl; [exact Ha |]. cbn. lia.
Qed.

(** The same pages, with nothing to copy. *)
Definition plain_plan (p : PagePlan) : PagePlan := mkPagePlan (pp_va p) (pp_perms p) None.
Definition plain_page (p : Page) : Page := mkPage (pg_va p) (pg_perms p) None.

(** Two images of the same pages and permissions. *)
Definition same_pages (im im' : UserImage) : Prop :=
  Forall2 (fun s s' => us_perms s' = us_perms s /\ us_pages s' = plain_plan <$> us_pages s) (ui_segments im) (ui_segments im').

Definition same_building (b b' : Building) : Prop :=
  b_next b' = b_next b /\ b_tables b' = b_tables b /\ b_slots b' = b_slots b /\ b_order b' = b_order b /\ b_placed b' = b_placed b.

Section plain.
Context (im im' : UserImage) (Hsame : same_pages im im').

Lemma plain_pages : ui_segments im' ≫= us_pages = plain_plan <$> (ui_segments im ≫= us_pages).
Proof.
  unfold same_pages in Hsame. revert Hsame. generalize (ui_segments im), (ui_segments im').
  induction 1 as [|s s' l l' [_ E] _ IH]; [reflexivity |]. rewrite !bind_cons, fmap_app, E, IH. reflexivity.
Qed.

Lemma plain_space_pages layout : pages im' layout = plain_page <$> pages im layout.
Proof.
  unfold pages. rewrite plain_pages, fmap_app, <- !list_fmap_compose. f_equal.
Qed.

Lemma plain_needed layout : frames_needed im' layout = frames_needed im layout.
Proof. unfold frames_needed. rewrite plain_space_pages, length_fmap, <- list_fmap_compose. reflexivity. Qed.

Lemma plain_conflict c : megapage_conflict im' c = megapage_conflict im c.
Proof.
  unfold megapage_conflict. rewrite plain_pages.
  induction (ui_segments im ≫= us_pages) as [|p l IH]; [reflexivity |]. cbn [fmap list_fmap existsb].
  change (list_fmap _ _ plain_plan l) with (plain_plan <$> l). rewrite IH. reflexivity.
Qed.

Lemma plain_regions pl : segment_regions (ui_segments im') pl = segment_regions (ui_segments im) pl.
Proof.
  unfold same_pages in Hsame. revert pl. revert Hsame. generalize (ui_segments im), (ui_segments im').
  induction 1 as [|s s' l l' [E1 E2] _ IH]; intros pl; [reflexivity |]. cbn [segment_regions].
  rewrite E1, E2. destruct (us_pages s) as [|p ps]; [reflexivity |]. cbn [fmap list_fmap]. change (pp_va (plain_plan p)) with (pp_va p).
  change (length (plain_plan p :: (plain_plan <$> ps))) with (S (length (plain_plan <$> ps))). rewrite length_fmap.
  change (S (length ps)) with (length (p :: ps)). rewrite IH. reflexivity.
Qed.
End plain.

Lemma plain_build_pages st st' l : forall b b' r,
  same_building b b' -> build_pages st l b = Some r -> exists r', build_pages st' (plain_page <$> l) b' = Some r' /\ same_building r r'.
Proof.
  induction l as [|p l IH]; intros b b' r Hb; cbn [build_pages fmap list_fmap]; [intros [= <-]; eauto |].
  intros (b1 & E1 & E2)%bind_Some. unfold build_page in E1 |- *. apply bind_Some in E1 as ([t b2] & Es & E1).
  assert (Hslot : exists b2', slot_table (vpn1 (pg_va (plain_page p))) b' = Some (t, b2') /\ same_building b2 b2').
  { destruct Hb as (H1 & H2 & H3 & H4 & H5). revert Es. unfold slot_table. cbn [plain_page pg_va]. rewrite H3. destruct (find_slot _ _).
    - intros [= <- <-]. eexists. split; [reflexivity | repeat split; assumption].
    - rewrite H1. destruct (b_next b) as [|x next]; [discriminate |]. intros [= <- <-]. eexists. split; [reflexivity |].
      repeat split; cbn; congruence. }
  destruct Hslot as (b2' & -> & Hb2). cbn [mbind option_bind]. destruct Hb2 as (H1 & H2 & H3 & H4 & H5). rewrite H1.
  destruct (b_next b2) as [|f next]; [discriminate |]. apply bind_Some in E1 as (cps & _ & [= <-]). cbn [plain_page pg_copy mbind option_bind].
  eapply IH; [|exact E2]. repeat split; cbn; congruence.
Qed.

(** A space of the same pages on the same frames has the same tables and regions. *)
Lemma plain_build c layout boot boot' fs space :
  same_pages (bi_image boot) (bi_image boot') -> Space.build c layout boot fs = Some space ->
  exists space', Space.build c layout boot' fs = Some space' /\ sp_root space' = sp_root space /\ sp_tables space' = sp_tables space /\
    sp_regions space' = sp_regions space /\ sp_slots space' = sp_slots space.
Proof.
  intros Hs. destruct fs as [|root rest]; [discriminate |]. cbn [Space.build]. intros (b & E & E')%bind_Some. apply bind_Some in E' as (rs & Er & [= <-]).
  destruct (plain_build_pages _ (staged boot') _ _ (mkBuilding rest [root] [] [root] [] [] []) _ ltac:(repeat split) E) as (b' & Eb & _ & H2 & H3 & _ & H5).
  rewrite (plain_space_pages _ _ Hs), Eb. cbn [mbind option_bind]. unfold regions in *. rewrite H5, (plain_regions _ _ Hs), Er.
  cbn [mbind option_bind]. eexists. split; [reflexivity |]. cbn. auto.
Qed.

(** ** The image of the regions *)

Section regions.
Context (lo hi : Z) (Hlo : 0 <= lo) (Hhi : in_u 32 hi) (Halign : hi mod PAGE = 0).

Lemma region_pages_run va perms : forall ks prev,
  0 <= va -> va mod PAGE = 0 -> Forall (fun k => 0 <= k /\ lo <= va + k * PAGE < hi) ks -> StronglySorted Z.lt ks ->
  match prev with Some l => Forall (fun k => l < va + k * PAGE) ks | None => True end ->
  region_pages lo hi va perms prev ks =
  Some ((fun k => mkPagePlan (va + k * PAGE) perms None) <$> ks, match last ks with Some k => Some (va + k * PAGE) | None => prev end).
Proof.
  induction ks as [|k ks IH]; intros prev Hva Hm Hall Hs Hprev; [reflexivity |]. apply Forall_cons_1 in Hall as [[Hk Hr] Hall].
  apply StronglySorted_inv in Hs as [Hs Hgt]. cbn [region_pages]. unfold in_u in Hhi.
  destruct (Z.leb_spec (2 ^ 32) (k * PAGE)); [unfold PAGE in *; lia |]. unfold checked_add. destruct (Z.ltb_spec (va + k * PAGE) (2 ^ 32)); [|lia].
  cbn [mbind option_bind]. replace ((va + k * PAGE) mod PAGE) with 0 by (rewrite Z.mod_add by (unfold PAGE; lia); congruence). cbn [Z.eqb negb orb].
  rewrite (proj2 (Z.leb_le _ _) (proj1 Hr)), (proj2 (Z.ltb_lt _ _) (proj2 Hr)). cbn [andb negb orb].
  replace (match prev with Some l => va + k * PAGE <=? l | None => false end) with false.
  2:{ destruct prev as [l|]; [|reflexivity]. apply Forall_cons_1 in Hprev as [Hl _]. symmetry. apply Z.leb_gt. exact Hl. }
  assert (Hnext : Forall (fun k' => va + k * PAGE < va + k' * PAGE) ks).
  { rewrite Forall_forall in Hgt |- *. intros k' Hk'. specialize (Hgt k' Hk'). unfold PAGE. lia. }
  rewrite (IH (Some (va + k * PAGE)) Hva Hm Hall Hs Hnext). cbn [mbind option_bind fmap list_fmap].
  do 2 f_equal. destruct ks as [|k' ks]; [reflexivity |]. change (last (k :: k' :: ks)) with (last (k' :: ks)). destruct (last (k' :: ks)) eqn:E; [reflexivity |].
  apply last_None in E. discriminate.
Qed.

Lemma last_seqZ n : 1 <= n -> last (seqZ 0 n) = Some (n - 1).
Proof. intros Hn. rewrite last_lookup, length_seqZ, lookup_seqZ_lt by lia. f_equal. lia. Qed.

(** The pages of one checked segment, read off its region. *)
Definition seg_pages (s : Checked) : Z := Checked.last_page s - Checked.first_page s + 1.

Lemma checked_region flen s :
  lo mod PAGE = 0 -> in_u 32 flen -> checked_ok lo hi flen s ->
  1 <= seg_pages s /\ seg_pages s * PAGE < 2 ^ 32 /\ 0 <= Checked.first_page s /\
  (fun k => mkPagePlan (Checked.first_page s * PAGE + k * PAGE) (ck_perms s) None) <$> seqZ 0 (seg_pages s) = plain_plan <$> Checked.pages s /\
  forall k, 0 <= k < seg_pages s -> lo <= Checked.first_page s * PAGE + k * PAGE < hi.
Proof.
  intros Hal Hf Hc. pose proof Hc as (Hv & _ & Hm & He & _). pose proof (pages_order s Hm) as Ho. unfold seg_pages.
  assert (Hr : forall n, Checked.first_page s <= n <= Checked.last_page s -> lo <= n * PAGE_SIZE < hi).
  { intros n Hn. destruct (page_range lo hi flen s Hal Hc n Hn). lia. }
  assert (H0 : 0 <= Checked.first_page s) by (unfold Checked.first_page; apply Z.div_pos; unfold PAGE_SIZE; lia).
  pose proof (Hr (Checked.last_page s) ltac:(lia)) as Hl. change PAGE_SIZE with PAGE in *.
  split; [lia |]. split; [unfold PAGE, in_u in *; Z.div_mod_to_equations; lia |]. split; [exact H0 |]. split.
  - unfold Checked.pages. apply list_eq. intros i. rewrite !list_lookup_fmap.
    destruct (decide (Z.of_nat i < Checked.last_page s - Checked.first_page s + 1)).
    + rewrite !lookup_seqZ_lt by lia. cbn [fmap option_fmap option_map]. rewrite (page_exact lo hi flen s Hal Hhi Hf Hc) by lia.
      unfold plain_plan. cbn [pp_va pp_perms]. do 2 f_equal. unfold PAGE, PAGE_SIZE. lia.
    + rewrite !lookup_seqZ_ge by lia. reflexivity.
  - intros k Hk. specialize (Hr (Checked.first_page s + k) ltac:(lia)). lia.
Qed.

(** The segments a region list gives back. *)
Lemma region_segments_run flen cs : forall i prev rs,
  lo mod PAGE = 0 -> in_u 32 flen -> Forall (checked_ok lo hi flen) cs ->
  StronglySorted (fun a b => Checked.last_page a < Checked.first_page b) cs ->
  Forall2 (fun s r => rg_va r = Checked.first_page s * PAGE /\ rg_perms r = ck_perms s /\ Z.of_nat (length (rg_frames r)) = seg_pages s) cs rs ->
  match prev with Some l => Forall (fun s => l < Checked.first_page s * PAGE) cs | None => True end ->
  Z.of_nat (i + length cs) <= 2 ^ 16 ->
  exists segs, region_segments lo hi i prev rs = Some segs /\
    Forall2 (fun s g => us_perms g = ck_perms s /\ us_pages g = plain_plan <$> Checked.pages s) cs segs.
Proof.
  intros i prev rs Hal Hf Hok Hs HF. revert i prev Hok Hs. induction HF as [|s r cs rs (Ev & Ep & El) HF IH]; intros i prev Hok Hs Hprev Hn.
  { exists []. split; [reflexivity | constructor]. }
  apply Forall_cons_1 in Hok as [Hc Hok]. apply StronglySorted_inv in Hs as [Hs Hlt].
  destruct (checked_region flen s Hal Hf Hc) as (H1 & H2 & H0 & Hpages & Hrange). pose proof Hc as (_ & _ & _ & _ & _ & _ & Hperm).
  cbn [region_segments]. rewrite bool_decide_eq_false_2 by (intros E; rewrite E in El; cbn in El; lia). rewrite Ep, Hperm. cbn [negb orb].
  rewrite El, Ev, region_pages_run.
  - rewrite last_seqZ, Hpages by exact H1. cbn [mbind option_bind]. cbn [length] in Hn. destruct (Z.leb_spec (2 ^ 16) (Z.of_nat i)); [lia |].
    assert (Hlp : Z.of_nat (length (plain_plan <$> Checked.pages s)) = seg_pages s).
    { rewrite <- Hpages, length_fmap, length_seqZ. lia. }
    rewrite Hlp. destruct (Z.leb_spec (2 ^ 32) (seg_pages s * PAGE)); [lia |].
    destruct (IH (S i) (Some (Checked.first_page s * PAGE + (seg_pages s - 1) * PAGE)) Hok Hs) as (segs & -> & HF'); [|lia |].
    + eapply Forall_impl; [exact Hlt |]. cbn. intros s' Hs'. unfold seg_pages, PAGE. lia.
    + cbn [mbind option_bind]. eexists. split; [reflexivity |]. constructor; [auto | exact HF'].
  - unfold PAGE. lia.
  - apply Z.mod_mul. unfold PAGE. lia.
  - apply Forall_forall. intros k [Hk1 Hk2]%elem_of_seqZ. split; [lia |]. apply Hrange. lia.
  - apply seqZ_sorted.
  - destruct prev as [l|]; [|exact I]. apply Forall_cons_1 in Hprev as [Hl _]. apply Forall_forall. intros k [Hk1 Hk2]%elem_of_seqZ. unfold PAGE in *. lia.
Qed.
End regions.

(** The regions of a built space, segment by segment. *)
Lemma segment_regions_shape segments : forall pl rs rest,
  segment_regions segments pl = Some (rs, rest) -> (length (segments ≫= us_pages) <= length pl)%nat ->
  Forall2 (fun s r => (exists p ps, us_pages s = p :: ps /\ rg_va r = pp_va p) /\ rg_perms r = us_perms s /\
             length (rg_frames r) = length (us_pages s)) segments rs.
Proof.
  induction segments as [|s segments IH]; intros pl rs rest; cbn [segment_regions]; [intros [= <- _] _; constructor |].
  destruct (us_pages s) as [|p ps] eqn:Ep; [discriminate |]. intros ([rs' at'] & E & [= <- _])%bind_Some. rewrite bind_cons, length_app, Ep. intros Hl.
  constructor; [|apply (IH (drop (length (p :: ps)) pl) rs' at' E); rewrite length_drop; lia].
  split; [eauto |]. split; [reflexivity |]. cbn [rg_frames]. rewrite Ep, length_fmap, length_take. cbn [length] in *. lia.
Qed.

Lemma parsed_few prefix flen lo hi im : parse_user_elf32 prefix flen lo hi = Ok im -> (length (ui_segments im) <= 16)%nat.
Proof.
  unfold parse_user_elf32. destruct (_ || _); [discriminate |]. intros (h & Hh & (cs & Hcs & E)%bind_Ok_inv)%bind_Ok_inv.
  assert (Hn : (length (indices h) <= 16)%nat).
  { unfold indices. rewrite length_fmap, length_seq. revert Hh. unfold checked_header. repeat (case_if; [discriminate |]).
    destruct (header prefix) as [h'|[]]; try discriminate; [|repeat (case_if; [discriminate |]); discriminate].
    unfold MAX_PHDRS. destruct (Z.ltb_spec 16 (h_phnum h')); [discriminate |]. intros [= ->]. lia. }
  assert (Hc : (length cs <= length (indices h))%nat).
  { clear Hn E. revert cs Hcs. induction (indices h) as [|i l IH]; intros cs; cbn [check_segments]; [intros [= <-]; cbn; lia |].
    intros (ph & _ & H)%bind_Ok_inv. revert H. destruct (negb _); [intros H; specialize (IH _ H); cbn; lia |].
    destruct (_ <? _); [discriminate |]. destruct (_ <? _); [discriminate |]. destruct (_ =? 0); [intros H; specialize (IH _ H); cbn; lia |].
    intros (flags & _ & H)%bind_Ok_inv. revert H. repeat match goal with |- (if ?b then Err _ else _) = _ -> _ => destruct b; [discriminate |] end.
    intros (rest & Hr & [= <-])%bind_Ok_inv. specialize (IH _ Hr). cbn. lia. }
  destruct (sharing _); [discriminate |]. destruct (negb _); [discriminate |]. destruct (negb _); [discriminate |]. injection E as <-. cbn [ui_segments].
  rewrite length_fmap, sort_by_perm. lia.
Qed.

(** The image read off the regions of a process loaded from disk has the executable's pages. *)
Lemma region_image_same c disk boot fs space prefix flen :
  layout_typed (disk_layout disk) -> bytes_ok prefix -> in_u 32 flen ->
  parse_user_elf32 prefix flen (fst (UserLayout.image_range (disk_layout disk))) (snd (UserLayout.image_range (disk_layout disk))) = Ok (bi_image boot) ->
  length fs = frames_needed (bi_image boot) (disk_layout disk) -> Space.build c (disk_layout disk) boot fs = Some space ->
  exists im', region_image (sp_regions space) (disk_layout disk) = Some im' /\ same_pages (bi_image boot) im'.
Proof.
  intros Ht Hb Hf Hp Hl E. pose proof (image_range_ok _ Ht) as [Hlo Hhi]. pose proof (parsed_few _ _ _ _ _ Hp) as Hfew.
  destruct (parse_user_elf32_inv _ _ _ _ _ Hb Hlo Hp) as (Hal & Hah & h & cs & _ & Eim & Hall & Hs & _ & (c0 & Hc0 & _) & _).
  assert (Hok : Forall (checked_ok (fst (UserLayout.image_range (disk_layout disk))) (snd (UserLayout.image_range (disk_layout disk))) flen) cs)
    by (eapply Forall_impl; [exact Hall |]; cbn; tauto).
  destruct fs as [|root rest]; [discriminate |]. cbn [Space.build] in E. apply bind_Some in E as (b & Eb & E). apply bind_Some in E as (rs & Er & [= <-]).
  unfold regions in Er. apply bind_Some in Er as ([out at_] & Es & Er). apply bind_Some in Er as (base & _ & [= <-]). cbn [sp_regions].
  assert (Hplaced : (length (ui_segments (bi_image boot) ≫= us_pages) <= length (b_placed b))%nat).
  { assert (Hlen : forall l b0 b1, build_pages (staged boot) l b0 = Some b1 -> length (b_placed b1) = (length (b_placed b0) + length l)%nat).
    { induction l as [|p l IH]; intros b0 b1; cbn [build_pages]; [intros [= <-]; cbn; lia |]. intros (b2 & E1 & E2)%bind_Some.
      rewrite (IH _ _ E2). unfold build_page in E1. apply bind_Some in E1 as ([t b3] & Est & E1). destruct (b_next b3); [discriminate |].
      apply bind_Some in E1 as (? & _ & [= <-]). cbn [b_placed length]. rewrite length_app. cbn [length]. revert Est. unfold slot_table.
      destruct (find_slot _ _); [intros [= _ <-]; lia |]. destruct (b_next b0); [discriminate |]. intros [= _ <-]. cbn. lia. }
    rewrite (Hlen _ _ _ Eb). unfold pages. rewrite length_app, length_fmap. lia. }
  pose proof (segment_regions_shape _ _ _ _ Es Hplaced) as Hshape. rewrite Eim in Hshape, Hfew |- *. cbn [ui_segments] in *. rewrite length_fmap in Hfew.
  assert (HF : Forall2 (fun s r => rg_va r = Checked.first_page s * PAGE /\ rg_perms r = ck_perms s /\ Z.of_nat (length (rg_frames r)) = seg_pages s) cs out).
  { apply Forall2_fmap_l in Hshape. apply Forall2_same_length_lookup_2; [eapply Forall2_length, Hshape |]. intros i s r Hi Hr.
    destruct (Forall2_lookup_lr _ _ _ _ _ _ Hshape Hi Hr) as ((p & ps & Ep & Ev) & Eperm & El). pose proof (Forall_lookup_1 _ _ _ _ Hok Hi) as Hck.
    destruct (checked_region _ _ Hhi Hah flen s Hal Hf Hck) as (H1 & _ & _ & Hpages & _). cbn [plan_segment us_pages us_perms] in *. split; [|split; [exact Eperm |]].
    - rewrite Ev. assert (Hh : head (plain_plan <$> Checked.pages s) = Some (plain_plan p)) by (rewrite Ep; reflexivity).
      rewrite <- Hpages, seqZ_cons in Hh by lia. cbn in Hh. injection Hh as Hva _. lia.
    - rewrite El. rewrite <- (length_fmap plain_plan), <- Hpages, length_fmap, length_seqZ. lia. }
  destruct (region_segments_run _ _ Hhi Hah flen cs 0 None out Hal Hf Hok Hs HF I ltac:(cbn; lia)) as (segs & Eseg & HF').
  unfold region_image. rewrite length_app. cbn [length]. replace (length out + 1 - 1)%nat with (length out) by lia. rewrite take_app_length.
  destruct HF as [|s r cs' out' Hsr HF]; [inversion Hc0 |]. cbn [head mbind option_bind]. rewrite (surjective_pairing (UserLayout.image_range _)).
  rewrite Eseg. cbn [mbind option_bind]. eexists. split; [reflexivity |]. unfold same_pages. cbn [ui_segments]. apply Forall2_fmap_l. exact HF'.
Qed.

(** ** The processes pass *)

(** [space] is the address space process [p] was created with. *)
Definition made_of (c : KernelConfig) (s : Source) (p : Pcb) (space : Space) : Prop :=
  creates c s (pid p) space /\ pcb_root p = sp_root space /\ tables p = sp_tables space /\ pcb_regions p = sp_regions space.

Section pcbs.
Context `{SnapshotCodec} (c : KernelConfig).

Lemma made_frames s p space : made_of c s p space -> sorted_frames p = sp_frames space.
Proof.
  intros ((boot & _ & _ & Hs & Hl & E) & _ & Ht & Hr). apply sort_frames; [|exact Hs]. unfold Pcb.frames. rewrite Ht, Hr.
  exact (proj2 (proj2 (build_owned _ _ _ _ _ Hl E))).
Qed.

Lemma made_image plan p boot : executable (Source_Plan plan) (pid p) boot -> image_of plan (pid p) = Some boot.
Proof.
  intros [Hi Hb]. unfold image_of, checked_sub. destruct (Z.leb_spec 1 (pid p)); [|lia]. cbn [mbind option_bind]. rewrite <- Hb. f_equal. lia.
Qed.

(** The space a restore rebuilds for a process loaded from disk. *)
Lemma disk_space_same disk p space :
  layout_typed (disk_layout disk) -> made_of c (Source_Disk disk) p space ->
  exists space', disk_space c (disk_layout disk) p = Ok (Some space') /\ same_space p space' = true /\
    sp_root space' = pcb_root p /\ sp_slots space' = sp_slots space.
Proof.
  intros Ht Hmade. pose proof (made_frames _ _ _ Hmade) as Hfr. destruct Hmade as ((boot & (prefix & flen & Hb & Hf & Hp) & Hc & Hs & Hl & E) & Er & Et & Ereg).
  cbn [Source.layout] in *. destruct (region_image_same c disk boot _ space prefix flen Ht Hb Hf Hp Hl E) as (im' & Eim & Hsame).
  destruct (plain_build c (disk_layout disk) boot (mkBootImage (wrap 32 (w_base (kc_staging c))) 0 im') _ space Hsame E) as (space' & E' & H1 & H2 & H3 & H4).
  exists space'. unfold disk_space. rewrite Ereg, Eim, Hfr, (plain_needed _ _ Hsame), (plain_conflict _ _ Hsame), Hl, Nat.eqb_refl, Hc, E'. cbn [andb negb].
  split; [reflexivity |]. split; [|split; [congruence | exact H4]]. unfold same_space. rewrite !bool_decide_eq_true_2 by congruence. reflexivity.
Qed.

Lemma check_pcb_passes s p : layout_typed (Source.layout s) -> pcb_made c s p -> check_pcb c s p = Ok tt.
Proof.
  intros Ht Hp. unfold check_pcb. destruct (ProcState.is_terminal (state p)) eqn:Et; [reflexivity |]. destruct (Hp Et) as (space & Hmade).
  destruct s as [plan|disk].
  - pose proof (made_frames _ _ _ Hmade) as Hfr. destruct Hmade as ((boot & He & Hc & _ & Hl & E) & Er & Etb & Ereg). cbn [Source.layout] in *.
    rewrite (made_image _ _ _ He), Hfr, Hl, Nat.eqb_refl, Hc, E. cbn [negb orb or_panic ok_or mbind result_bind].
    unfold same_space. rewrite !bool_decide_eq_true_2 by congruence. reflexivity.
  - destruct (disk_space_same disk p space Ht Hmade) as (space' & -> & Hs & _). cbn [mbind result_bind]. rewrite Hs. reflexivity.
Qed.
End pcbs.

(** * The operations pass *)

(** The frame [f] that process [p] reads at [va]: in the one region that covers [va]. *)
Definition covers_va (r : Region) (va : Z) : Prop := rg_va r <= va < rg_va r + Z.of_nat (length (rg_frames r)) * PAGE.

Definition maps (p : Pcb) (va f : Z) : Prop :=
  exists r, r ∈ pcb_regions p /\ rg_va r <= va /\ rg_frames r !! Z.to_nat ((va - rg_va r) / PAGE) = Some f /\ read (rg_perms r) = true /\
    forall q, q ∈ pcb_regions p -> covers_va q va -> q = r.

(** A [write] in progress has found the running process's own pages: what a walk of its page
    tables finds as long as nothing else writes to them. *)
Definition own_pages (c : KernelConfig) (m : Model) (st : Stage) : Prop :=
  match st with
  | Stage_Walk b pages table level =>
      exists i p space, current (mo_procs m) = Some i /\ Processes.pcb (mo_procs m) i = Some p /\ made_of c (mo_source m) p space /\
        (forall j f, pages !! j = Some f -> maps p (Buffer.page_va b (Z.of_nat j)) f) /\
        if level =? 1 then table = pcb_root p
        else Space.table_for space (Buffer.page_va b (Z.of_nat (length pages))) = Some table
  | Stage_Output b pages _ =>
      exists i p, current (mo_procs m) = Some i /\ Processes.pcb (mo_procs m) i = Some p /\
        forall j f, pages !! j = Some f -> maps p (Buffer.page_va b (Z.of_nat j)) f
  | _ => True
  end.

Lemma find_map_only {A B} (g : A -> option B) l x b :
  x ∈ l -> g x = Some b -> (forall y b', y ∈ l -> g y = Some b' -> b' = b) -> find_map g l = Some b.
Proof.
  intros Hx Hg Hu. induction l as [|y l IH]; [inversion Hx |]. cbn [find_map]. destruct (g y) as [b'|] eqn:E; [f_equal; eapply Hu; [left | exact E] |].
  apply elem_of_cons in Hx as [->|Hx]; [congruence |]. apply IH; [exact Hx |]. intros. eapply Hu; [right|]; eassumption.
Qed.

Lemma find_maps p va f : maps p va f -> find_map (readable_frame va) (pcb_regions p) = Some f.
Proof.
  intros (r & Hr & Hle & Hf & Hread & Hu).
  assert (Hat : forall q, readable_frame va q = if rg_va q <=? va then f' ← rg_frames q !! Z.to_nat ((va - rg_va q) / PAGE); if read (rg_perms q) then Some f' else None else None).
  { intros q. unfold readable_frame, checked_sub. destruct (_ <=? _); reflexivity. }
  eapply find_map_only; [exact Hr | rewrite Hat; apply Z.leb_le in Hle; rewrite Hle, Hf; cbn; rewrite Hread; reflexivity |].
  intros q f' Hq Eq. rewrite Hat in Eq. destruct (Z.leb_spec (rg_va q) va) as [Hqa|]; [|discriminate].
  apply bind_Some in Eq as (f2 & Ef & E2). destruct (read (rg_perms q)); [|discriminate]. injection E2 as ->.
  assert (q = r) as ->; [|congruence]. apply Hu; [exact Hq |]. split; [exact Hqa |]. apply lookup_lt_Some in Ef. unfold PAGE in *.
  Z.div_mod_to_equations. lia.
Qed.

Lemma map_while_prefix {A B} (g : A -> option B) : forall l bs,
  (length bs <= length l)%nat -> (forall j b, bs !! j = Some b -> exists a, l !! j = Some a /\ g a = Some b) ->
  take (length bs) (map_while g l) = bs /\ (length bs = length l -> map_while g l = bs).
Proof.
  induction l as [|a l IH]; intros [|b bs] Hl Hall; cbn [length] in *; try lia; [split; reflexivity | split; [reflexivity | lia] |].
  destruct (Hall 0%nat b eq_refl) as (a' & [= <-] & Ea). cbn [map_while]. rewrite Ea. cbn [take].
  destruct (IH bs ltac:(lia)) as [H1 H2]; [intros j b' Hj; exact (Hall (S j) b' Hj) |]. split; [rewrite H1; reflexivity |].
  intros E. rewrite H2 by lia. reflexivity.
Qed.

Section checks.
Context `{SnapshotCodec} (c : KernelConfig) (m : Model) (Hm : model_ok c m None) (Hmade : model_made c m).

Lemma source_layout : layout_typed (Source.layout (mo_source m)).
Proof. exact (proj1 (ok_source _ _ _ Hm)). Qed.

Lemma running_made i p : current (mo_procs m) = Some i -> Processes.pcb (mo_procs m) i = Some p ->
  exists space, made_of c (mo_source m) p space.
Proof.
  intros Hi Ep. destruct (inv_current _ _ _ _ (ok_procs _ _ _ Hm) Hi) as (q & Eq & Hq & _ & Hs & _). assert (q = p) as -> by congruence.
  pose proof (md_pcbs _ _ Hmade) as Hall. rewrite Forall_forall in Hall. destruct (Hall p Hq) as (space & Hsp); [rewrite Hs; reflexivity |]. exists space. exact Hsp.
Qed.

Lemma syscall_space_same i p space b :
  running m -> current (mo_procs m) = Some i -> Processes.pcb (mo_procs m) i = Some p -> made_of c (mo_source m) p space -> buffer_ok b ->
  exists space', syscall_space c m (raw_buffer b) =
      Ok (b, space', map_while (fun j => find_map (readable_frame (Buffer.page_va b j)) (pcb_regions p)) (seqZ 0 (Buffer.pages b))) /\
    sp_root space' = pcb_root p /\ sp_slots space' = sp_slots space.
Proof.
  intros [Hup _] Hi Ep Hsp Hb. unfold syscall_space, raw_buffer. rewrite Hi. cbn [mbind option_bind]. rewrite Ep. cbn [mbind option_bind].
  rewrite bool_decide_eq_true_2 by exact Hup. unfold buffer_ok in Hb. rewrite Hb. cbn [or_reject ok_or mbind result_bind].
  pose proof (made_frames _ _ _ _ Hsp) as Hfr. pose proof source_layout as Hlay. destruct (mo_source m) as [plan|disk] eqn:Es.
  - destruct Hsp as ((boot & He & _ & _ & _ & E) & Er & _). rewrite (made_image _ _ _ He), Hfr. cbn [or_panic ok_or mbind result_bind Source.layout] in *.
    rewrite E. exists space. auto.
  - destruct (disk_space_same c disk p space) as (space' & -> & _ & Hr & Hsl); [exact Hlay | exact Hsp |].
    cbn [or_reject ok_or mbind result_bind]. exists space'. auto.
Qed.

Lemma boot_cursor_same cu : cursor_ok c m cu -> boot_cursor c m (raw_cursor cu) = Ok cu.
Proof.
  intros ([Hup Hcur] & Hbelow & disk & Hs & Hcu). unfold boot_cursor, raw_cursor. rewrite Hs, Hup, Hcur. cbn [negb orb].
  rewrite bool_decide_eq_true_2 by reflexivity. rewrite bool_decide_eq_false_2 by (intros [? [=]]). cbn [negb orb].
  destruct cu as [[t|] i]; cbn [cu_table cu_index fmap option_fmap option_map] in *.
  2:{ destruct Hcu as [-> ->]. reflexivity. }
  destruct Hcu as (Ht & He & Hi). pose proof Ht as (Hn & Hr & _). pose proof (encode_words t Hn) as Eenc.
  assert (Ep : parse_exec_table (table_words t ≫= to_le 4) (capacity_blocks disk) (DiskBoot.staging_size c) = Ok t).
  { apply parse_iff_encode; [|rewrite length_words, length_table_words by apply Hn; reflexivity | auto].
    apply Forall_forall. intros x (v & Hv & _)%list_elem_of_bind. pose proof (to_le_ok 4 v) as Hok. unfold bytes_ok in Hok. rewrite Forall_forall in Hok. auto. }
  destruct t as [es]. cbn [ExecTable.entries] in *. rewrite Eenc, Ep, bool_decide_eq_true_2 by reflexivity.
  rewrite He, Nat.eqb_refl. cbn [negb orb]. destruct (Z.leb_spec (Z.of_nat (length es)) (Z.of_nat i)); [lia |].
  destruct (existsb _ _) eqn:Ex; [exfalso | rewrite Nat2Z.id; reflexivity].
  apply existsb_exists in Ex as (p & Hp & Hlt%Z.ltb_lt). apply list_elem_of_In in Hp. specialize (Hbelow p Hp). unfold Cursor.pid in Hbelow. cbn in Hbelow. lia.
Qed.

Lemma check_stage_same st :
  creating st = None -> stage_ok c m st -> stage_made c m st -> own_pages c m st -> check_stage c m (raw_stage st) = Ok st.
Proof.
  destruct st as [i space| |i cx satp|reason|b pages table level|b pages done|sepc value|cu|cu|cu error|cu len|cu headers image space];
    cbn [creating stage_ok stage_made own_pages raw_stage check_stage]; try discriminate; intros _ Hst Hsm Hown.
  - destruct Hst as [-> [i Hi]]. rewrite Hi. reflexivity.
  - destruct Hst as (-> & Hi & _). destruct Hsm as (p & Ep & ->). rewrite Hi, bool_decide_eq_true_2 by reflexivity. rewrite Ep.
    rewrite bool_decide_eq_true_2 by reflexivity. reflexivity.
  - destruct Hst as [-> Hr]. destruct (Z.ltb_spec 1 reason); [lia |]. reflexivity.
  - destruct Hst as (Hr & Hb & Hlen & Hlevel). destruct Hown as (i & p & space & Hi & Ep & Hsp & Hpages & Htab).
    destruct (syscall_space_same i p space b Hr Hi Ep Hsp Hb) as (space' & -> & Hroot & Hslots). cbn [mbind result_bind].
    destruct (map_while_prefix (fun j => find_map (readable_frame (Buffer.page_va b j)) (pcb_regions p)) (seqZ 0 (Buffer.pages b)) pages) as [Hpre _].
    { rewrite length_seqZ. lia. }
    { intros j f Hj. exists (Z.of_nat j). apply lookup_lt_Some in Hj as Hlt. rewrite lookup_seqZ_lt by lia. split; [f_equal; lia |]. apply find_maps, Hpages, Hj. }
    destruct (Z.leb_spec (Buffer.pages b) (Z.of_nat (length pages))); [lia |]. unfold starts_with. rewrite bool_decide_eq_true_2 by exact Hpre. cbn [negb orb].
    destruct Hlevel as [->| ->]; cbn [Z.eqb Pos.eqb] in *.
    + unfold Space.table_for in *. rewrite Hslots, bool_decide_eq_true_2 by exact Htab. reflexivity.
    + rewrite Hroot, Htab, Z.eqb_refl. reflexivity.
  - destruct Hst as (Hr & Hb & Hlen & _). destruct Hown as (i & p & Hi & Ep & Hpages). destruct (running_made i p Hi Ep) as (space & Hsp).
    destruct (syscall_space_same i p space b Hr Hi Ep Hsp Hb) as (space' & -> & _). cbn [mbind result_bind].
    destruct (map_while_prefix (fun j => find_map (readable_frame (Buffer.page_va b j)) (pcb_regions p)) (seqZ 0 (Buffer.pages b)) pages) as [_ Hall].
    { rewrite length_seqZ. lia. }
    { intros j f Hj. exists (Z.of_nat j). apply lookup_lt_Some in Hj as Hlt. rewrite lookup_seqZ_lt by lia. split; [f_equal; lia |]. apply find_maps, Hpages, Hj. }
    rewrite Hall by (rewrite length_seqZ; lia). rewrite !bool_decide_eq_true_2 by auto. reflexivity.
  - destruct Hst as [-> [i Hi]]. rewrite Hi. reflexivity.
  - rewrite boot_cursor_same by exact Hst. reflexivity.
  - rewrite boot_cursor_same by exact Hst. reflexivity.
  - rewrite boot_cursor_same by apply Hst. reflexivity.
  - destruct Hst as (Hc & Hl & H0). rewrite boot_cursor_same by exact Hc. cbn [mbind result_bind].
    destruct (first_read_ok c m cu Hc) as (first & Ef & _). rewrite Ef. unfold Cursor.first_read in Ef. apply bind_Ok_inv in Ef as (e & Ee & [= <-]).
    rewrite Ee. cbn [map_err mbind result_bind]. destruct e as [e|].
    + specialize (Hsm e Ee). rewrite (proj2 (Z.leb_le _ _) (proj1 Hsm)), (proj2 (Z.leb_le _ _) (proj2 Hsm)). reflexivity.
    + unfold Cursor.entry in Ee. destruct (cu_table cu) as [t|]; [destruct (index_of _ _); discriminate |]. rewrite H0 by reflexivity. reflexivity.
Qed.
End checks.

(** * The kernel *)

(** The fields are values of their Rust types. *)
Record kernel_typed (k : ModeledKernel) : Prop := {
  ty_engine : engine_typed k;
  ty_model : forall m, mk_model k = Some m -> model_typed m;
}.

(** A kernel outside a creation, whose [write] in progress is on its process's own pages, and
    whose next access, when it has not been issued yet, is one the engine will issue. *)
Record settled (k : ModeledKernel) : Prop := {
  se_creation : forall o, ModeledKernel.work k = Some (Work_Proc o) -> creating (po_stage o) = None;
  se_pages : forall m o, mk_model k = Some m -> ModeledKernel.work k = Some (Work_Proc o) -> own_pages (mk_config k) m (po_stage o);
  se_issue : forall w a, mk_state k = State_Issue w -> Work.access (mk_config k) w = Ok (Some a) ->
    KernelConfig.permits (mk_config k) (Access.addr a) (Access.len a) = true;
}.

Section kernel.
Context `{SnapshotCodec}.

Lemma work_model c m w : work_ok c (Some m) w -> in_flight w = None -> model_ok c m None.
Proof.
  rewrite in_flight_creating. destruct w as [[o|o]|]; cbn [work_ok]; [intros [] | | intros [Hm _] _; exact Hm].
  intros Ho Hf. rewrite <- Hf. apply Ho.
Qed.

Lemma snapshot_split k rest : exists bs,
  snapshot k ++ rest = bs ++ match mk_model k with Some m => encode_model m | None => [] end ++ rest /\
  bs = encode_kernel_config k ++ put_engine (mk_state k) ++ put_work (ModeledKernel.work k) ++
       match mk_held k with None => put_u8 0 | Some txn => put_u8 1 ++ put_u64 txn end ++ put_u64 (mk_next_txn k).
Proof. eexists. split; [|reflexivity]. unfold snapshot. rewrite <- !app_assoc. reflexivity. Qed.

Lemma settled_flight k : settled k -> in_flight (ModeledKernel.work k) = None.
Proof.
  intros Hs. rewrite in_flight_creating. destruct (ModeledKernel.work k) as [[o|o]|] eqn:E; try reflexivity. exact (se_creation _ Hs o E).
Qed.

(** The access due is on the whitelist: checked when it was issued, or about to be. *)
Lemma access_passes k : kernel_ok k -> kernel_made k -> settled k -> check_access (mk_config k) (ModeledKernel.work k) = Ok tt.
Proof.
  intros Hok Hk Hs. unfold check_access. destruct (ModeledKernel.work k) as [w|] eqn:Ew; [|reflexivity].
  destruct (work_due k w Hok Ew) as [a Ha]. rewrite Ha. cbn [map_err or_panic ok_or mbind result_bind].
  assert (Hp : KernelConfig.permits (mk_config k) (Access.addr a) (Access.len a) = true).
  { unfold ModeledKernel.work in Ew. destruct (mk_state k) as [|w'|w' txn] eqn:Es; [discriminate | |]; injection Ew as ->.
    - exact (se_issue _ Hs w a Es Ha).
    - exact (km_wait _ Hk w txn a Es Ha). }
  rewrite Hp. reflexivity.
Qed.

Lemma work_passes k :
  kernel_ok k -> kernel_made k -> settled k ->
  check_work (mk_config k) (mk_model k) (raw_work <$> ModeledKernel.work k) = Ok (ModeledKernel.work k).
Proof.
  intros Hok Hk Hs. pose proof (ko_work _ Hok) as Hw. pose proof (settled_flight k Hs) as Hf.
  destruct (mk_model k) as [m|] eqn:Em, (ModeledKernel.work k) as [[o|o]|] eqn:Ew; cbn [work_ok] in Hw; try contradiction; try reflexivity.
  - cbn [fmap option_fmap option_map raw_work check_work]. unfold proc_op.
    rewrite (check_stage_same (mk_config k) m (work_model _ _ (Some (Work_Proc o)) Hw Hf) (km_model _ Hk m Em) (po_stage o) (se_creation _ Hs o Ew)
      (op_stage _ _ _ Hw) (km_stage _ Hk m o Em Ew) (se_pages _ Hs m o Em Ew)). cbn [mbind result_bind].
    destruct Hw as [_ _ Hstep Hlen _]. unfold ProcOp.from_parts. destruct o as [st step data]. cbn [po_stage po_step po_data] in *.
    rewrite (proj2 (Nat.ltb_lt _ _) Hstep), Hlen, Nat.eqb_refl. reflexivity.
  - destruct Hw as [Hstep Hlen]. unfold check_work, raw_work. cbn [fmap option_fmap option_map]. unfold Operation.from_parts.
    destruct o as [op step data]. cbn [o_op o_step o_data] in *. rewrite (proj2 (Nat.ltb_lt _ _) Hstep), Hlen, Nat.eqb_refl. reflexivity.
Qed.

(** The checks of a restore, on what it reads back of [k]. *)
Lemma checks_pass k old :
  kernel_ok k -> kernel_made k -> engine_typed k -> settled k -> (mk_model k = None -> old = None) ->
  (work ← check_work (mk_config k) (mk_model k) (raw_work <$> ModeledKernel.work k);
   _ ← require (Bool.eqb (bool_decide (is_Some (mk_held k))) (bool_decide (is_Some work)))
         "modeled kernel: a held ENTER without an operation, or the reverse";
   _ ← check_access (mk_config k) work;
   _ ← require (match outstanding (mk_state k) with Some txn => bool_decide (checked_sub (mk_next_txn k) 1 = Some txn) | None => true end)
         "modeled kernel: outstanding txn is not the latest issued";
   model ← match mk_model k with None => Ok None | Some m => m ← check_life m work; Ok (Some m) end;
   let state := match work, outstanding (mk_state k) with
                | None, _ => State_Idle
                | Some w, None => State_Issue w
                | Some w, Some txn => State_Wait w txn
                end in
   Ok (mkModeledKernel (mk_config k) state (mk_held k) (mk_next_txn k) (match model with Some m => Some m | None => old end))
   : result Stop ModeledKernel) = Ok k.
Proof.
  intros Hok Hmade He Hs Hold. rewrite (work_passes k Hok Hmade Hs). cbn [mbind result_bind]. pose proof Hok as [Kw Kh Kt Kwait].
  rewrite (bool_decide_ext _ _ Kh), eqb_reflx. cbn [require mbind result_bind]. rewrite (access_passes k Hok Hmade Hs). cbn [mbind result_bind].
  replace (match outstanding _ with Some txn => _ | None => true end) with true.
  2:{ destruct (mk_state k) as [| |w txn] eqn:Es; cbn [outstanding]; try reflexivity. rewrite (Kwait w txn eq_refl).
      pose proof (et_txn _ He) as Htx. rewrite Es in Htx. cbn [outstanding] in Htx. rewrite (Kwait w txn eq_refl) in Htx.
      unfold checked_sub, in_u in *. destruct (Z.leb_spec 1 (mk_next_txn k)); [|lia]. symmetry. apply bool_decide_eq_true_2. reflexivity. }
  cbn [require mbind result_bind].
  replace (match mk_model k with Some m => _ | None => _ end : result Stop _) with (Ok (E := Stop) (mk_model k)).
  2:{ destruct (mk_model k) as [m|]; [|reflexivity]. rewrite (check_life_same (mk_config k)); [reflexivity | | exact Kw | exact (settled_flight k Hs)].
      exact (work_model _ _ _ Kw (settled_flight k Hs)). }
  cbn [mbind result_bind]. f_equal. destruct k as [c st held next [md|]]; [|cbn in Hold; rewrite Hold by reflexivity]; destruct st; reflexivity.
Qed.

Lemma boot_entries c m w :
  work_ok c (Some m) w -> mo_life m = AwaitBoot -> match mo_source m with Source_Disk _ => mo_entries m = O | Source_Plan _ => True end.
Proof.
  destruct w as [[o|o]|]; cbn [work_ok]; [intros [] | intros Ho Hl | intros [_ Hi] Hl].
  - destruct (stage_booted _ _ _ (op_stage _ _ _ Ho) Hl).
  - rewrite Hl in Hi. apply Hi.
Qed.

Lemma restore_snapshot k0 k rest :
  mk_config k0 = mk_config k -> mo_source <$> mk_model k0 = mo_source <$> mk_model k ->
  kernel_ok k -> kernel_made k -> kernel_typed k -> settled k ->
  restore k0 (snapshot k ++ rest) = (rest, Ok k).
Proof.
  intros Hc Hsrc Hk Hmade [He Ht] Hs.
  assert (Hcfg : encode_kernel_config k0 = encode_kernel_config k).
  { unfold encode_kernel_config. rewrite Hc. destruct (mk_model k0), (mk_model k); cbn in Hsrc; congruence. }
  destruct (snapshot_split k rest) as (bs & -> & Hbs). unfold restore. rewrite Hc, ST_bind_unfold. unfold from_reader at 1.
  rewrite (reads_kernel_engine k0 k bs He Hcfg Hbs). cbn [map_err]. rewrite ST_bind_unfold. pose proof (checks_pass k (mk_model k0) Hk Hmade He Hs) as Hpass.
  destruct (mk_model k0) as [m0|], (mk_model k) as [m|] eqn:Em; try discriminate.
  - cbn in Hsrc. injection Hsrc as ->. pose proof (ko_work _ Hk) as Hw. rewrite Em in Hw.
    assert (Hm : model_ok (mk_config k) m None) by exact (work_model _ _ _ Hw (settled_flight k Hs)). pose proof (km_model _ Hmade m Em) as Hmm.
    unfold fmap, ST_fmap. rewrite ST_bind_unfold, (decode_encode_model (mk_config k) m rest); auto.
    + unfold checked. f_equal. apply Hpass. discriminate.
    + eapply boot_entries, Hw.
    + intros p Hp. apply check_pcb_passes; [exact (source_layout _ _ Hm) |]. pose proof (md_pcbs _ _ Hmm) as Hall. rewrite Forall_forall in Hall. auto.
  - unfold checked. f_equal. apply Hpass. reflexivity.
Qed.
End kernel.

(** C16: Restoring what a kernel wrote.  Any kernel a run can reach, in either mode, whatever
    events it was given, is itself again, field by field, when a kernel of the same configuration
    and source restores its snapshot, and exactly the snapshot's bytes are read: the engine, the
    operation with its step and data, the held [ENTER], the transaction counter, the process
    table, the ready queue and the owner of every frame, which the snapshot does not hold and the
    restore finds from the frame bitmap and the processes.  Every check of the restore passes, the
    address space rebuilt for each live process included, whether its executable came from the
    plan or was parsed from the disk.  The kernel is outside a creation; if it is in a [write], the
    pages and tables it has walked so far are those of the process's own address space, as they are
    while the page tables in memory are those of its creation; if its next access is still to be
    issued, that access is on the whitelist, as the engine will require. *)
Theorem kernel_snapshot_round_trip {C} `{SimContext C, MemClassify, SnapshotCodec} (k0 k : ModeledKernel) (rest : list Z) :
  mk_config k0 = mk_config k -> mo_source <$> mk_model k0 = mo_source <$> mk_model k ->
  reachable (C := C) k -> kernel_typed k -> settled k ->
  restore k0 (snapshot k ++ rest) = (rest, Ok k).
Proof. intros Hc Hs Hr. exact (restore_snapshot k0 k rest Hc Hs (reachable_ok k Hr) (reachable_made k Hr)). Qed.

(** * Example *)

(** The engine driven to its next event: its own wake, or the answer of the memory. *)
Definition next_event (k : ModeledKernel) (w : World) : option (Phase * Delivered * World) :=
  match mk_state k with
  | State_Idle => None
  | State_Issue _ => Some (Phase_Request, Delivered_Wake ISSUE, w)
  | State_Wait work txn =>
      match Work.access (mk_config k) work with
      | Ok (Some a) =>
          let '(w, q) := serve (mk_config k) a w in
          Some (Phase_Complete, Delivered_Message MEM_PORT (Message_MemV1 match q with
            | Completion_Data d => ReadResp txn (ReadOutcome_Data d)
            | Completion_Written => WriteResp txn WriteOutcome_Done
            end), w)
      | _ => None
      end
  end.

Local Existing Instance recording_context.
Local Existing Instance documented_classify.

Definition deliver (ph : Phase) (ev : Delivered) (k : ModeledKernel) : ModeledKernel :=
  if decide (delivered_ok ev) then fst (fst (handle_event ev (k, mkRecCtx ph []))) else k.

Fixpoint drive (n : nat) (k : ModeledKernel) (w : World) : ModeledKernel * World :=
  match n with
  | O => (k, w)
  | S n => match next_event k w with Some (ph, ev, w) => drive n (deliver ph ev k) w | None => (k, w) end
  end.

Lemma deliver_reachable ph ev k : reachable (C := RecCtx) k -> reachable (C := RecCtx) (deliver ph ev k).
Proof.
  intros Hr. unfold deliver. destruct (decide _) as [Hev|]; [|exact Hr].
  destruct (handle_event ev (k, mkRecCtx ph [])) as [[k' ctx'] r] eqn:E. exact (reach_event k (mkRecCtx ph []) ev k' ctx' r Hr Hev E).
Qed.

Lemma drive_reachable n : forall k w, reachable (C := RecCtx) k -> reachable (C := RecCtx) (fst (drive n k w)).
Proof.
  induction n as [|n IH]; intros k w Hr; cbn [drive]; [exact Hr |]. destruct (next_event k w) as [[[ph ev] w']|]; [|exact Hr].
  apply IH, deliver_reachable, Hr.
Qed.

(** Two processes are created and process 1 dispatched; it then traps with a [write] of 20 bytes
    at [0x10010], and the kernel stops in the middle of it: the 16 bytes of the first chunk are
    read and the third is being output. *)
Definition write_frame : list Z :=
  (Z.of_nat <$> seq 1 9) ++ [1; 0x10010; 20] ++ (Z.of_nat <$> seq 13 4) ++ [SYS_WRITE] ++ (Z.of_nat <$> seq 18 14) ++ [0x10004; 0; 8].

Definition write_run (events : nat) : ModeledKernel :=
  let '(k, w) := drive events (deliver Phase_Request enter_event two_kernel) (mkWorld (fun _ => 0) []) in
  let w := mkWorld (write_bytes (w_mem w) (kc_trap_frame example_config) (write_frame ≫= to_le 4)) [] in
  fst (drive 31 (deliver Phase_Request enter_event k) w).

Definition writing : ProcOp := mkProcOp (Stage_Output (mkBuffer 0x10004 0x10010 20) [525314] 0) 3 (replicate 16 0).
Definition writing_kernel : ModeledKernel := mkModeledKernel example_config (State_Wait (Work_Proc writing) 4143) (Some 7) 4144 (Some two_model).

Lemma write_run_stops : write_run (Z.to_nat 10000) = writing_kernel.
Proof. vm_compute. reflexivity. Qed.

Lemma two_kernel_reachable : reachable (C := RecCtx) two_kernel.
Proof.
  apply (reach_processes example_config two_plan); [split_and!; const_range | repeat constructor; vm_compute; congruence | vm_compute; reflexivity].
Qed.

Lemma writing_reachable : reachable (C := RecCtx) writing_kernel.
Proof.
  rewrite <- write_run_stops. generalize (Z.to_nat 10000) as n. intros n. unfold write_run.
  pose proof (drive_reachable n _ (mkWorld (fun _ => 0) []) (deliver_reachable Phase_Request enter_event _ two_kernel_reachable)) as Hr.
  destruct (drive _ _ _) as [k w]. apply drive_reachable, deliver_reachable, Hr.
Qed.

Lemma checked_words l : forallb (in_ub 32) l = true -> Forall (in_u 32) l.
Proof. intros Hb. apply Forall_forall. intros b Hin. rewrite forallb_forall in Hb. apply in_ub_spec, Hb, list_elem_of_In, Hin. Qed.

Local Ltac typed :=
  repeat match goal with
  | |- in_u _ _ => const_range
  | |- Forall (in_u 32) _ => apply checked_words; vm_compute; reflexivity
  | |- Forall _ [] => apply Forall_nil_2
  | |- Forall _ (_ :: _) => apply Forall_cons_2
  | |- _ /\ _ => split
  | |- pcb_typed _ => split; cbn [pid state context pcb_root tables pcb_regions]
  | |- True => exact I
  | |- _ = _ => reflexivity
  | |- state_typed _ => exact I
  | |- region_typed _ => split; cbn [rg_va rg_frames]
  | |- context_typed _ => split; cbn [cx_regs cx_pc cx_sstatus]
  | |- u32s _ => split
  end.

Lemma writing_typed : kernel_typed writing_kernel.
Proof.
  split.
  - split; [|const_range..]. split; [|split; [const_range | split; [apply checked_bytes; vm_compute; reflexivity | const_range]]].
    split; [split_and!; const_range |]. split; [|const_range]. split; [apply checked_words; vm_compute; reflexivity | const_range].
  - intros m [= <-]. split; [|const_range | split; [typed | const_range] | const_range | const_range].
    cbn [pcbs mo_procs two_model]. typed.
Qed.

Lemma writing_settled : settled writing_kernel.
Proof.
  split; [intros o [= <-]; reflexivity | | discriminate]. intros m o [= <-] [= <-]. cbn [own_pages po_stage writing].
  eexists 1, _. split; [reflexivity |]. split; [reflexivity |]. intros [|j] f Hj; [|destruct j; discriminate]. injection Hj as <-.
  exists (mkRegion 0x10000 (mkPerms true false true) [525314]). split; [left |]. split; [vm_compute; congruence |]. split; [reflexivity |]. split; [reflexivity |].
  intros q Hq Hcov. cbn [pcb_regions] in Hq. rewrite !elem_of_cons in Hq. destruct Hq as [->|[->|Hq]]; [reflexivity | | inversion Hq].
  unfold covers_va in Hcov. vm_compute in Hcov. destruct Hcov as [Hcov _]. destruct (Hcov eq_refl).
Qed.

Lemma kernel_snapshot_round_trip_witness :
  @restore le_codec two_kernel (@snapshot le_codec writing_kernel ++ [1]) = ([1], Ok writing_kernel).
Proof.
  exact (@kernel_snapshot_round_trip RecCtx recording_context documented_classify le_codec two_kernel writing_kernel [1] eq_refl eq_refl
    writing_reachable writing_typed writing_settled).
Defined.
